(* ===== verification/_CoqProject ===== *)
-Q . S2P
Prelude.v
Bytes.v
Text.v
Crc.v
DataTypes.v
ConstExpr.v
DateTime.v
Bitmask.v
TableDef.v
IndexDef.v
LogFile.v
EntryKey.v
OrdMap.v
CatalogDelta.v
GlobalDelta.v
DeltaMerge.v
DeltaFile.v
WalEntry.v
WalReplay.v
FileIO.v
BlockVersion.v
FileWorker.v
Buffer.v
BufferSpec.v
BlockEntry.v
VersionFlush.v
SegmentEntry.v
SegmentAppend.v
CompactPlan.v
Compact.v
DataBlock.v
TxnManager.v
TxnInv.v
TxnConflict.v
TxnLive.v
TxnDelta.v
TxnStore.v
TxnStoreSpec.v
TxnProps.v
EntryList.v
EntrySpec.v
EntrySim.v
EntryLog.v
RestartIds.v
Catalog.v
CatalogSpec.v
CompactAlg.v
CompactAlgSpec.v
Floating.v
FilterExpr.v
FilterSpec.v
RoughFilter.v
RoughFilterSpec.v
RoughFilterProps.v
SecondaryIndex.v
SecondaryIndexSpec.v
IndexScan.v
SegmentIndexEntry.v
IndexPlanSpec.v
IndexScanSpec.v
IndexScanProps.v
SegmentIndexProps.v
