(* ===== verification/Prelude.v ===== *)
(** * Infinity: a verification development for the storage core

    Infinity is a database for vectors, full text and structured data.  This library models its
    storage core, under [src/src]: what it writes to disk and reads back, how it recovers, and how it
    keeps the rows of tables in memory and on disk.

    ** The program's parts and where they are modelled

    - Formats.  [Bytes] is [parser/type/serialize.h], the readers and writers of scalars and strings
      that every binary format uses; [Text] the decimal conversions of file names and parameters;
      [Crc] the checksum of [common/utility/crc.cppm].
    - Definitions.  [DataTypes] ([parser/type/data_type.cpp] and its type infos), [ConstExpr]
      ([parser/expr/constant_expr.cpp]), [TableDef] ([storage/definition/table_def.cpp],
      [parser/definition/column_def.cpp]), [IndexDef] ([storage/definition/index_*.cpp]).  [DateTime]
      ([parser/type/datetime]) and [Bitmask] ([storage/column_vector/bitmask*.cpp]) are the values and
      null masks of columns.
    - The write-ahead log.  [WalEntry] has the commands and entries of [storage/wal/wal_entry.cpp] with
      their codec; [WalReplay] the iterators over log files and [WalManager::ReplayWalFile];
      [LogFile] the names, choice and recycling of files ([storage/wal/log_file.cpp]).
    - The catalog.  [EntryKey] has the keys of catalog entries ([storage/meta/entry]);
      [CatalogDelta] the delta operations of [storage/wal/catalog_delta_entry.cpp]; [GlobalDelta] the
      class that puts them in sequence and merges them; [DeltaMerge] what the merged operations mean;
      [DeltaFile] saving and loading them ([storage/meta/catalog.cpp]).  [OrdMap] is [std::map].
    - Buffers.  [FileIO] has open files ([storage/io/local_file_system.cpp]), [FileWorker] the workers of
      [storage/buffer/file_worker], [Buffer] the manager, objects and handles of [storage/buffer], and
      [BufferSpec] what they promise.
    - Rows.  [BlockVersion] and [BlockEntry] ([storage/meta/entry/block_version.cpp], [block_entry.cpp])
      hold the versions of rows; [VersionFlush] checkpoints them through the buffer manager;
      [SegmentEntry] ([segment_entry.cpp]) has the states of a segment; [SegmentAppend] appending to
      segments and tables ([table_entry.cpp]).
    - Compaction.  [CompactPlan] chooses the segments, [Compact] copies them and applies the deletes of
      the meantime ([executor/operator/physical_compact.cpp], [physical_compact_finish.cpp],
      [function/table/compact_state_data.cppm]).  [CompactAlg] is the policy that picks segments by
      layers ([storage/compaction/DBT_compaction_alg.cpp]), [CompactAlgSpec] what it keeps.
    - Transactions.  [TxnManager] ([storage/txn/txn_manager.cpp], [txn.cpp]) has the clock, the states,
      the conflict checks, the order of the log and the flush thread as threads whose steps interleave;
      [TxnInv], [TxnConflict], [TxnLive] and [TxnDelta] the invariants of every interleaving,
      [TxnProps] their theorems.  [TxnStore] ([storage/txn/txn_store.cpp]) is what a transaction
      collects, in the blocks of [DataBlock] ([storage/data_block.cpp]); [TxnStoreSpec] when two stores
      conflict and what is kept.
    - Databases, tables and indexes.  [EntryList] has the versions under a name
      ([storage/meta/entry/entry_list.cppm], [storage/meta/meta_map.cppm]), [EntrySpec] and [EntrySim]
      their specification and the simulation, [EntryLog] what transactions see and what the log
      rebuilds, [RestartIds] the transaction identifiers after [Storage::Init].  [Catalog] composes them to the catalog of [storage/meta/catalog.cpp] with the replay of
      [storage/wal/wal_manager.cpp]; [CatalogSpec] shows isolation.
    - Filters.  [Floating] has the floating-point numbers that filters compare; [FilterExpr] the bound
      expressions of a filter and how the optimizer moves casts over a comparison
      ([planner/optimizer/secondary_index_scan/filter_expression_push_down_helper.cpp]), [FilterSpec]
      what that keeps.  [RoughFilter] builds and asks the filters by which a scan skips blocks
      ([storage/fast_rough_filter], [filter_expression_push_down.cpp]); [RoughFilterSpec] and
      [RoughFilterProps] show that it skips no row.
    - Secondary indexes.  [SecondaryIndex] has the memory index, the chunks and their merge, and both
      searches ([storage/secondary_index], the readers of [executor/operator/physical_index_scan.cpp]),
      [SecondaryIndexSpec] what a search finds; [SegmentIndexEntry] the index of a segment over time
      ([storage/meta/entry/segment_index_entry.cpp], [chunk_index_entry.cppm]) and
      [SegmentIndexProps] what it keeps.  [IndexScan] plans an index scan
      ([planner/optimizer/secondary_index_scan]) and runs it ([physical_index_scan.cpp]);
      [IndexPlanSpec], [IndexScanSpec] and [IndexScanProps] show that the plan, the row sets and the
      scan are exact.

    A transaction finds its tables in the catalog ([Catalog], [EntryList]), collects its changes
    ([TxnStore]) and commits through the manager ([TxnManager]).  It changes blocks ([BlockEntry])
    through tables and segments, whose data lives in buffer objects ([Buffer]); its commit writes a log entry ([WalEntry]) and delta operations
    ([GlobalDelta]); a checkpoint writes the merged operations ([DeltaFile]) and the versions
    ([VersionFlush]); recovery reads the checkpoints ([LogFile], [DeltaFile]) and replays the log
    ([WalReplay]).  A query on a column with an index is planned from its filter ([FilterExpr],
    [IndexScan]), skips segments by their rough filters ([RoughFilter]), finds rows in the index
    ([SecondaryIndex], [SegmentIndexEntry]) as masks or vectors ([Bitmask]), and drops those that its
    snapshot does not see ([SegmentEntry]).  Where one part uses another through an interface, the
    interface is a class:
    [Codec] (values with a binary form), [DirectoryListing] and [Posix] (the operating system),
    [TypeSort] (a standard sort), [ColumnStore] (columns of a block), [FileWorkerImpl] and
    [FileWorkerLaws] (workers of buffer objects), [TxnStoreOps] (the store of a transaction, for the
    manager), [CatalogOps] (the catalog, for the store), [HashOrder] (the iteration order of a hash
    set), [FunctionLibrary] (scalar functions and casts beside those of [FilterExpr]),
    [FilterLibrary] with [FilterLaws] (the third-party binary fuse filter and [std::hash]) and
    [PgmLibrary] with [PgmLaws] (the third-party learned index).

    ** How the code is modelled

    Integers are [Z] with their width written out ([cast], [in_range], [int32]); bytes are numbers
    below 256; a buffer is a list of bytes.  Functions that can raise return [result]; undefined
    behaviour and failed assertions are among its errors, so that a theorem about a successful run excludes it.  Members of
    a class are the fields of a record, its methods functions from the old to the new record; maps and
    sets are [gmap] and [gset], or ordered lists where iteration order matters; shared buffers live in
    a heap.  Methods under a lock are one step; what several threads do between such methods are events
    of a step function ([TxnManager.exec], [EntrySpec.exec]), so that a theorem about every list of
    events is one about every interleaving.

    Loops run on structural recursion or on fuel, and the theorems show that the fuel is enough: the
    length of the buffer for nested constants and log entries, the number of rows for appending,
    65537 rounds for the ranges of a block (offsets have 16 bits), the number of segments for
    the groups of a compaction, the number of pairs of a chunk for a search ([search_fuel]) and of all
    merged chunks for a merge ([merge_fuel]).

    ** What the theorems show

    - Round trips: what is written is read back as its codec stores it, at any offset of a buffer and
      in the announced size where that is exact ([wal_entry_codec], [delta_entry_codec], [table_def_codec], [index_codec],
      [datatype_codec], [constant_expr_codec], [delta_checkpoint_roundtrip], [version_files],
      [entry_key_roundtrip], [datetime_text_roundtrip]), and damage is noticed
      ([wal_entry_corruption]).
    - Recovery: [wal_recovery] (which commands are replayed after a crash that tears the last entry
      behind its first four bytes; [short_tail_overruns] is what happens before),
      [valid_checkpoint_files], [recycle_wal_files].
    - The catalog: [delta_merge_correct], [delta_entries_in_sequence], [prune_exact],
      [entry_keys_hierarchical]; versions under a name refine a history of committed values
      ([entry_versions_refine]), the log rebuilds them ([log_rebuilds_entry]), and what one transaction
      defines no other sees before it commits ([ddl_isolation]).
    - Transactions: the first committer wins ([first_committer_wins], [check_conflict_exact]), the log
      and the catalog delta follow commit order ([log_in_commit_order], [deltas_in_commit_order]), no
      interleaving makes the manager fail ([txn_steps_succeed]), every transaction finishes once
      clients only commit or abort ([transactions_finish], in at most [steps_left] steps), nothing a reader needs is cleaned up
      ([cleanup_timestamp]), and appended rows are kept ([first_append_kept]).
    - Rows: readers see snapshots ([block_snapshot], [delete_bitmask]); appending puts every row where
      it belongs ([segment_append], [table_append]); a compaction keeps what its transaction sees and
      knows every delete of the meantime ([compaction_copies], [compaction_keeps_deletes],
      [compaction_groups], [compaction_layers_ok], [compaction_picks]).
    - Buffers: [buffer_refines] and [buffer_errors], that eviction, spilling and saving cannot be seen
      by clients, and that memory is the only thing that can run out.
    - Queries: under conditions on the comparisons of a filter that the theorems name ([column_value],
      [compare_ok], [index_compare]), moving casts over a comparison changes no answer
      ([unwind_cast_exact]), rough filters skip no row that satisfies a filter ([rough_filter_sound])
      and an index scan gives exactly the rows of the filter ([index_scan_exact]); a secondary index
      has each row of its segment once ([index_stays_complete]).
    - Values and masks: [date_calendar], [datetime_add_seconds], [bitmask_set], [bitmask_merge],
      [bitmask_count], [index_make_sound].
    - Where the code does not do what it means to, a theorem says what it does: [compaction_remap],
      [flush_loses_versions], [rolled_back_delete_blocks_compaction], [create_timestamps],
      [index_named_like_segment], [recreate_after_update_keeps_segments], [epoch_time_2038],
      [reused_id_erases_table], [second_append_lost], [dropped_creation_erases_table],
      [unreplayable_log], [short_tail_overruns], [uncommitted_chunk_asserts], [early_dates_accepted],
      [racing_commits], [unordered_deletes_missed], [optimized_index_repeats],
      [bigint_rounding], [bigint_bound_undefined], [infinite_rows_lost], [varchar_greater_skips],
      [varchar_signed_skips], [empty_block_raises], [memory_index_mask_raises], [later_row_read],
      [always_true_raises], [varchar_range_raises], [nan_matches_all],
      and, beside the components, [merge_shares_buffer], [small_mask_counts_padding],
      [decimal_without_info_overruns], [index_names_roundtrip], [self_assignment_raises].

    ** What is not modelled

    The parser, the planner but for the filters of scans, the operators of the executor other than
    compaction and index scans, the network servers, the indexes other than secondary ones, the file
    workers of indexes, JSON forms and display text.  Filters have no null values and no decimals, and
    a key of an index is never a NaN; how the segments of an index scan are shared among tasks
    ([PhysicalIndexScan::PlanSegments]) and the saved forms of rough filters and indexes are left out.
    Outside transactions and catalog names, interleavings are sequences of whole methods; that [MetaMap::GetMeta] and [EntryList::PickCleanup]
    give up their lock in the middle is not modelled.  The replay of rows and indexes, the loading of
    delta operations into live entries, full checkpoints (JSON) and the flushing of column data are not
    modelled either.  Of [DBTConfig::CalculateLayer] the quotient of two floating
    point logarithms is a parameter, and the theorems on layers hold for any function from rows to
    layers.

    This file holds what the components share: results, machine integers, lists and tactics. *)

From Stdlib Require Import ZArith Lia List Sorted.
From stdpp Require Import base list numbers gmap.

(** ** Results: C++ functions that may raise *)

(** The ways the modelled code leaves a function without a value.  The first three are the
    exceptions of [infinity_exception] and [parser_assert]; [LengthError] is the
    [std::length_error] a standard container raises for an impossible size, [StdException] any other
    exception of the standard library; [OutOfBounds] is an
    access the C++ standard leaves undefined (a read past the end of a buffer, a null
    dereference) and [SignedOverflow] signed arithmetic beyond its type, which every theorem about a
    successful run excludes; [OutOfFuel] marks a loop
    modelled with fuel that would have run longer, which the theorems show not to happen. *)
Inductive error :=
| UnrecoverableError
| RecoverableError
| ParserError
| LengthError
| StdException
| OutOfBounds
| SignedOverflow
| OutOfFuel.

#[export] Instance error_eq_dec : EqDecision error.
Proof. solve_decision. Defined.

Inductive result (A : Type) :=
| Ok (a : A)
| Err (e : error).
Arguments Ok {A} _.
Arguments Err {A} _.

Definition res_bind {A B} (m : result A) (k : A → result B) : result B :=
  match m with
  | Ok a => k a
  | Err e => Err e
  end.

Declare Scope infinity_scope.
Delimit Scope infinity_scope with infinity.
Open Scope infinity_scope.

Notation "'let?' x := m 'in' k" := (res_bind m (fun x => k))
  (at level 10, x binder, m at level 100, k at level 200) : infinity_scope.

Definition is_ok {A} (m : result A) : Prop :=
  match m with Ok _ => True | Err _ => False end.

Lemma res_bind_ok {A B} (m : result A) (k : A → result B) b :
  res_bind m k = Ok b → ∃ a, m = Ok a ∧ k a = Ok b.
Proof. destruct m; simpl; [eauto | discriminate]. Qed.

(** Left fold of an operation that may raise, as a range-based [for] runs it. *)
Fixpoint res_fold {S A} (f : S → A → result S) (s : S) (l : list A) : result S :=
  match l with
  | [] => Ok s
  | a :: l' => let? s' := f s a in res_fold f s' l'
  end.

Lemma res_fold_app {S A} (f : S → A → result S) s l1 l2 :
  res_fold f s (l1 ++ l2) = res_bind (res_fold f s l1) (fun s' => res_fold f s' l2).
Proof.
  revert s; induction l1 as [|a l1 IH]; intros s; simpl; [done|].
  destruct (f s a); simpl; [apply IH | done].
Qed.

(** An invariant every step keeps holds at the end of the fold. *)
Lemma res_fold_inv {S A} (P : S → Prop) (f : S → A → result S) s l s' :
  (∀ s a s', P s → a ∈ l → f s a = Ok s' → P s') →
  P s → res_fold f s l = Ok s' → P s'.
Proof.
  revert s; induction l as [|a l IH]; intros s Hstep Hs; simpl.
  { intros [= <-]; done. }
  intros (s1 & H1 & H2)%res_bind_ok.
  apply (IH s1); [|eapply Hstep; [done| |done]; set_solver |done].
  intros; eapply Hstep; [done| |done]; set_solver.
Qed.

(** Break a hypothesis [... = Ok _] into the successful steps it is made of. *)
Ltac inv_ok :=
  repeat match goal with
  | H : res_bind _ _ = Ok _ |- _ =>
      apply res_bind_ok in H; destruct H as (? & ? & H)
  | H : Ok _ = Ok _ |- _ => injection H as H; try subst
  | H : Err _ = Ok _ |- _ => discriminate H
  end.

(** Linear arithmetic with divisions and remainders by constants. *)
Ltac div_lia := Z.to_euclidean_division_equations; lia.

(** ** Machine integers *)

Inductive ctype := i8 | i16 | i32 | i64 | u8 | u16 | u32 | u64.

Definition sizeof (t : ctype) : nat :=
  match t with
  | i8 | u8 => 1
  | i16 | u16 => 2
  | i32 | u32 => 4
  | i64 | u64 => 8
  end.

Definition signed (t : ctype) : bool :=
  match t with i8 | i16 | i32 | i64 => true | _ => false end.

Local Open Scope Z_scope.

Definition modulus (t : ctype) : Z :=
  match t with
  | i8 | u8 => 2 ^ 8
  | i16 | u16 => 2 ^ 16
  | i32 | u32 => 2 ^ 32
  | i64 | u64 => 2 ^ 64
  end.

(** Smallest value of the type. *)
Definition lowest (t : ctype) : Z := if signed t then - (modulus t / 2) else 0.

Definition in_range (t : ctype) (z : Z) : Prop := lowest t ≤ z < lowest t + modulus t.

#[export] Instance in_range_dec t z : Decision (in_range t z).
Proof. unfold in_range; apply _. Defined.

(** Conversion to the type: reduction modulo [2^w] into the type's range (C++20). *)
Definition cast (t : ctype) (z : Z) : Z := (z - lowest t) mod modulus t + lowest t.

Lemma modulus_pos t : 0 < modulus t.
Proof. by destruct t. Qed.

Lemma modulus_sizeof t : modulus t = 2 ^ (8 * Z.of_nat (sizeof t)).
Proof. by destruct t. Qed.

Lemma cast_range t z : in_range t (cast t z).
Proof.
  unfold in_range, cast. pose proof (Z.mod_pos_bound (z - lowest t) _ (modulus_pos t)). lia.
Qed.

Lemma cast_id t z : in_range t z → cast t z = z.
Proof. unfold in_range, cast. intros H. rewrite Z.mod_small; lia. Qed.

(** Range goals at a concrete type. *)
Ltac eval_range :=
  unfold in_range in *;
  repeat match goal with
  | |- context [lowest ?t] => let v := eval vm_compute in (lowest t) in change (lowest t) with v
  | |- context [modulus ?t] => let v := eval vm_compute in (modulus t) in change (modulus t) with v
  | H : context [lowest ?t] |- _ =>
      let v := eval vm_compute in (lowest t) in change (lowest t) with v in H
  | H : context [modulus ?t] |- _ =>
      let v := eval vm_compute in (modulus t) in change (modulus t) with v in H
  end.
Ltac solve_range := eval_range; lia.

(** Two integers convert to the same value exactly when they agree modulo [2^w]. *)
Lemma cast_eq_mod t a b : cast t a = cast t b ↔ a mod modulus t = b mod modulus t.
Proof.
  unfold cast. pose proof (modulus_pos t) as Hm. split; intros H.
  - assert (H' : (a - lowest t) mod modulus t = (b - lowest t) mod modulus t) by lia.
    replace a with ((a - lowest t) + lowest t) by lia.
    replace b with ((b - lowest t) + lowest t) by lia.
    rewrite (Zplus_mod (a - _)), (Zplus_mod (b - _)), H'. done.
  - rewrite (Zminus_mod a), (Zminus_mod b), H. done.
Qed.

Lemma cast_mod t a : cast t (a mod modulus t) = cast t a.
Proof. apply cast_eq_mod. apply Z.mod_mod. pose proof (modulus_pos t). lia. Qed.

Lemma cast_mod_eq t a : cast t a mod modulus t = a mod modulus t.
Proof. apply cast_eq_mod. rewrite cast_id; [done | apply cast_range]. Qed.

Lemma cast_add_l t a b : cast t (cast t a + b) = cast t (a + b).
Proof.
  apply cast_eq_mod. rewrite Zplus_mod, cast_mod_eq, <- Zplus_mod. done.
Qed.

Lemma cast_add_r t a b : cast t (a + cast t b) = cast t (a + b).
Proof. rewrite (Z.add_comm a), cast_add_l. f_equal; lia. Qed.

Lemma cast_cast t a : cast t (cast t a) = cast t a.
Proof. apply cast_id, cast_range. Qed.

Create HintDb cint.
Create Rewrite HintDb cint.
#[export] Hint Rewrite cast_add_l cast_add_r cast_cast : cint.

(** Sum of sizes as a [size += ...] loop computes it in a 32-bit accumulator. *)
Definition sum_i32 (l : list Z) : Z := fold_left (fun acc z => cast i32 (acc + z)) l 0.

Definition Zsum (l : list Z) : Z := fold_right Z.add 0 l.

Lemma fold_sum_i32 l acc :
  cast i32 (fold_left (fun acc z => cast i32 (acc + z)) l acc) = cast i32 (acc + Zsum l).
Proof.
  revert acc; induction l as [|z l IH]; intros acc; simpl; [f_equal; lia|].
  rewrite IH, cast_add_l. f_equal; lia.
Qed.

(** ** Lists *)

Lemma Zsum_app l1 l2 : Zsum (l1 ++ l2) = Zsum l1 + Zsum l2.
Proof. induction l1; simpl; lia. Qed.

(** [List.length] as the [Z] the C++ [size()] is. *)
Definition zlen {A} (l : list A) : Z := Z.of_nat (length l).

Lemma zlen_app {A} (l1 l2 : list A) : zlen (l1 ++ l2) = zlen l1 + zlen l2.
Proof. unfold zlen. rewrite length_app. lia. Qed.

Lemma zlen_cons {A} (a : A) l : zlen (a :: l) = 1 + zlen l.
Proof. unfold zlen. simpl. lia. Qed.

Lemma zlen_map {A B} (f : A → B) l : zlen (map f l) = zlen l.
Proof. unfold zlen. by rewrite length_map. Qed.

Lemma zlen_nonneg {A} (l : list A) : 0 ≤ zlen l.
Proof. unfold zlen. lia. Qed.

Lemma zlen_nil {A} : zlen (@nil A) = 0.
Proof. done. Qed.

#[export] Hint Rewrite @zlen_app @zlen_cons @zlen_nil : cint.

Lemma zlen_concat {A} (ls : list (list A)) : zlen (concat ls) = Zsum (map zlen ls).
Proof. induction ls as [|l ls IH]; simpl; [done|]. rewrite zlen_app, IH. done. Qed.

(** Arithmetic on [int32_t]: the result has to fit. *)
Definition int32 (z : Z) : result Z := if decide (in_range i32 z) then Ok z else Err SignedOverflow.

Lemma int32_ok z : in_range i32 z → int32 z = Ok z.
Proof. intros H. unfold int32. by rewrite decide_True. Qed.

(** [table[i]] for a C array: an index outside it is undefined. *)
Definition array_at {A} (table : list A) (i : Z) : result A :=
  if decide (0 ≤ i) then match table !! Z.to_nat i with Some a => Ok a | None => Err OutOfBounds end
  else Err OutOfBounds.

Lemma Forall_filter_of {A} (P Q : A → Prop) `{!∀ x, Decision (Q x)} l : Forall P l → Forall P (filter Q l).
Proof. rewrite !Forall_forall. intros Hl x Hx. apply list_elem_of_filter in Hx as [_ Hx]. by apply Hl. Qed.

Lemma filter_all {A} (P : A → Prop) `{!∀ x, Decision (P x)} l : Forall P l → filter P l = l.
Proof. induction 1 as [|x l Hx _ IH]; [done|]. rewrite filter_cons_True by done. by rewrite IH. Qed.

Lemma filter_none {A} (P : A → Prop) `{!∀ x, Decision (P x)} l : Forall (fun x => ¬ P x) l → filter P l = [].
Proof. induction 1; [done|]. by rewrite filter_cons_False. Qed.

Lemma filter_ext_elem {A} (P Q : A → Prop) `{!∀ x, Decision (P x)} `{!∀ x, Decision (Q x)} l :
  Forall (fun x => P x ↔ Q x) l → filter P l = filter Q l.
Proof.
  induction 1 as [|x l Hx Hl IH]; [done|]. destruct (decide (P x)).
  - rewrite !filter_cons_True by tauto. by rewrite IH.
  - by rewrite !filter_cons_False by tauto.
Qed.

Lemma bool_decide_sym {A} `{EqDecision A} (x y : A) : bool_decide (x = y) = bool_decide (y = x).
Proof. apply bool_decide_ext. done. Qed.

Lemma bool_eqb_sym (x y : bool) : Bool.eqb x y = Bool.eqb y x.
Proof. by destruct x, y. Qed.

(** Congruence of integers that convert to the same value: sums kept in a machine integer are
    computed by rewriting modulo it. *)
Definition ceq (t : ctype) (a b : Z) : Prop := cast t a = cast t b.

#[export] Instance ceq_equiv t : Equivalence (ceq t).
Proof. unfold ceq. split; red; intros; congruence. Qed.

#[export] Instance ceq_add t : Proper (ceq t ==> ceq t ==> ceq t) Z.add.
Proof.
  unfold ceq. intros a a' Ha b b' Hb. rewrite <- (cast_add_l t a b), Ha, cast_add_l.
  by rewrite <- (cast_add_r t a' b), Hb, cast_add_r.
Qed.

Lemma ceq_cast t a : ceq t (cast t a) a.
Proof. apply cast_cast. Qed.

Ltac solve_ceq :=
  match goal with |- cast ?t ?a = cast ?t ?b => change (ceq t a b) end;
  rewrite ?ceq_cast; unfold ceq; f_equal.

(** Narrowing a value that went through a wider unsigned type. *)
Lemma cast_i32_u64 a : cast i32 (cast u64 a) = cast i32 a.
Proof.
  apply cast_eq_mod. pose proof (cast_mod_eq u64 a) as H.
  change (modulus u64) with (2 ^ 64) in H. change (modulus i32) with (2 ^ 32).
  rewrite (Znumtheory.Zmod_div_mod (2 ^ 32) (2 ^ 64) a), (Znumtheory.Zmod_div_mod (2 ^ 32) (2 ^ 64) (cast u64 a)), H;
    try done; by exists (2 ^ 32).
Qed.

(** ** Ordered sets

    [std::set] over a key type compared through an integer: a list sorted by it. *)
Section sset.
Context {A : Type} (key : A → Z).

Fixpoint sset_insert (a : A) (s : list A) : list A :=
  match s with
  | [] => [a]
  | b :: s' => if key a <? key b then a :: s
               else if key b <? key a then b :: sset_insert a s' else s
  end.

Definition sset_sorted (s : list A) : Prop := StronglySorted (fun a b => key a < key b) s.

Lemma sset_insert_last s a :
  Forall (fun b => key b < key a) s → sset_insert a s = s ++ [a].
Proof.
  induction 1 as [|b s Hb _ IH]; simpl; [done|].
  rewrite (proj2 (Z.ltb_ge (key a) (key b))), (proj2 (Z.ltb_lt _ _) Hb) by lia. by rewrite IH.
Qed.

(** Inserting the elements of a set in order rebuilds it. *)
Lemma sset_rebuild s : sset_sorted s → fold_left (fun acc a => sset_insert a acc) s [] = s.
Proof.
  intros Hs. change s with ([] ++ s) in Hs at 1. change s with ([] ++ s) at 2.
  generalize (@nil A) Hs. clear Hs. induction s as [|a s IH]; intros acc Hs; simpl.
  { by rewrite app_nil_r. }
  rewrite sset_insert_last.
  - rewrite (IH (acc ++ [a])); rewrite <- app_assoc; done.
  - apply Forall_forall. intros b Hb. apply list_elem_of_split in Hb as (l1 & l2 & ->).
    rewrite <- app_assoc in Hs. simpl in Hs. clear IH.
    induction l1 as [|c l1 IH]; simpl in Hs; apply StronglySorted_inv in Hs as [Hs Hf]; [|by apply IH].
    apply Forall_app in Hf as [_ Hf]. by apply Forall_cons in Hf as [? _].
Qed.
End sset.
