(* ===== verification/Bytes.v ===== *)
(** * Byte buffers and the serialization primitives

    Models [src/src/parser/type/serialize.h]: the [ReadBufAdv]/[WriteBufAdv] families that every
    on-disk format of the system (write-ahead log, catalog delta files, data blocks) is built
    from, and their non-advancing variants.

    A buffer is a list of bytes, each byte a [Z] in [0, 256).  A reader runs on the suffix of the
    buffer that starts at the current [char *&ptr]; an address is measured from the end of the
    buffer ([tell]), so pointer differences such as [ptr_end - ptr] are written as in the code.
    Reading past the end of the buffer is the error [OutOfBounds]. *)

From Stdlib Require Import ZArith Lia List.
From stdpp Require Import base list numbers gmap strings.
From S2P Require Import Prelude.
Local Open Scope Z_scope.

Abbreviation bytes := (list Z).

Definition byte_ok (b : Z) : Prop := 0 ≤ b < 256.

(** The bytes of a string literal. *)
Fixpoint str (s : string) : bytes :=
  match s with
  | EmptyString => []
  | String c s' => Z.of_N (Ascii.N_of_ascii c) :: str s'
  end.

(** ** Little-endian object representation *)

Fixpoint to_le (n : nat) (z : Z) : bytes :=
  match n with
  | O => []
  | S n' => z mod 256 :: to_le n' (z / 256)
  end.

Fixpoint of_le (bs : bytes) : Z :=
  match bs with
  | [] => 0
  | b :: bs' => b + 256 * of_le bs'
  end.

Lemma length_to_le n z : length (to_le n z) = n.
Proof. revert z; induction n; intros z; simpl; auto. Qed.

Lemma to_le_ok n z : Forall byte_ok (to_le n z).
Proof.
  revert z; induction n; intros z; simpl; constructor; auto.
  unfold byte_ok. apply Z.mod_pos_bound. lia.
Qed.

Lemma pow256_S n : 2 ^ (8 * Z.of_nat (S n)) = 256 * 2 ^ (8 * Z.of_nat n).
Proof.
  replace (8 * Z.of_nat (S n)) with (8 + 8 * Z.of_nat n) by lia.
  rewrite Z.pow_add_r by lia. done.
Qed.

Lemma of_to_le n z : of_le (to_le n z) = z mod 2 ^ (8 * Z.of_nat n).
Proof.
  revert z; induction n as [|n IH]; intros z.
  { simpl. by rewrite Z.mod_1_r. }
  rewrite pow256_S, Z.rem_mul_r by (try apply Z.pow_nonzero; lia).
  cbn [to_le of_le]. by rewrite IH.
Qed.

Lemma of_le_range bs : Forall byte_ok bs → 0 ≤ of_le bs < 2 ^ (8 * zlen bs).
Proof.
  unfold zlen. induction 1 as [|b bs Hb Hbs IH]; [done|].
  cbn [length of_le]. rewrite pow256_S. unfold byte_ok in Hb. lia.
Qed.

Lemma to_of_le bs : Forall byte_ok bs → to_le (length bs) (of_le bs) = bs.
Proof.
  induction 1 as [|b bs Hb Hbs IH]; [done|]. unfold byte_ok in Hb.
  cbn [length to_le of_le]. f_equal.
  - rewrite Z.mul_comm, Z_mod_plus_full. apply Z.mod_small. lia.
  - rewrite Z.mul_comm, Z.div_add by lia. rewrite (Z.div_small b) by lia. by rewrite Z.add_0_l.
Qed.

(** ** Readers *)

Definition Reader (A : Type) : Type := bytes → result (A * bytes).

Definition rret {A} (a : A) : Reader A := fun cur => Ok (a, cur).
Definition rfail {A} (e : error) : Reader A := fun _ => Err e.
Definition rbind {A B} (m : Reader A) (k : A → Reader B) : Reader B :=
  fun cur => match m cur with Ok (a, cur') => k a cur' | Err e => Err e end.

(** The current address. *)
Definition tell : Reader Z := fun cur => Ok (- zlen cur, cur).
Definition rcheck (b : bool) (e : error) : Reader unit := if b then rret tt else rfail e.

(** Run a fallible function inside a reader. *)
Definition rlift {A} (m : result A) : Reader A := fun cur => let? a := m in Ok (a, cur).

(** [maxbytes = ptr_end - ptr], kept in an [int32_t]. *)
Definition room (ptr_end ptr : Z) : Z := cast i32 (ptr_end - ptr).

Notation "'let!' x := m 'in' k" := (rbind m (fun x => k))
  (at level 10, x binder, m at level 100, k at level 200) : infinity_scope.
Notation "'check!' b 'orelse' e 'in' k" := (rbind (rcheck b e) (fun _ => k))
  (at level 10, b at level 100, e at level 100, k at level 200) : infinity_scope.

(** [n] times the body of a counted [for] loop that pushes what it reads. *)
Fixpoint rloop {A} (n : nat) (m : Reader A) : Reader (list A) :=
  match n with
  | O => rret []
  | S n' => let! a := m in let! l := rloop n' m in rret (a :: l)
  end.

Definition rfor {A} (n : Z) (m : Reader A) : Reader (list A) := rloop (Z.to_nat n) m.

(** The elements of a container written one after the other. *)
Definition write_all {A} (w : A → result bytes) : list A → result bytes :=
  fix go l :=
    match l with
    | [] => Ok []
    | a :: l' => let? b := w a in let? bs := go l' in Ok (b ++ bs)
    end.

Arguments write_all : simpl never.

Lemma write_all_nil {A} (w : A → result bytes) : write_all w [] = Ok [].
Proof. reflexivity. Qed.
Lemma write_all_cons {A} (w : A → result bytes) a l :
  write_all w (a :: l) = let? b := w a in let? bs := write_all w l in Ok (b ++ bs).
Proof. reflexivity. Qed.

(** ** The primitives of serialize.h *)

Definition read_bytes (n : Z) : Reader bytes := fun cur =>
  if decide (n ≤ zlen cur)
  then Ok (take (Z.to_nat n) cur, drop (Z.to_nat n) cur)
  else Err OutOfBounds.

Definition WriteBufAdv (t : ctype) (value : Z) : bytes := to_le (sizeof t) value.

Definition ReadBufAdv (t : ctype) : Reader Z :=
  let! bs := read_bytes (Z.of_nat (sizeof t)) in rret (cast t (of_le bs)).

(** For a string of less than 2^31 bytes; the length of a longer one does not fit its field. *)
Definition WriteBufAdv_string (value : bytes) : bytes :=
  let len := cast i32 (zlen value) in
  WriteBufAdv i32 len ++ value.

Definition ReadBufAdv_string : Reader bytes :=
  let! size := ReadBufAdv i32 in
  check! (0 <=? size) orelse LengthError in
  read_bytes size.

Definition GetSizeInBytes_string (value : bytes) : Z := cast i32 (4 + zlen value).

(** [T *ptr = (T * )buf; *ptr = value]: overwrite the buffer in place. *)
Definition store (buf : bytes) (off : Z) (src : bytes) : result bytes :=
  if decide (0 ≤ off ∧ off + zlen src ≤ zlen buf)
  then Ok (take (Z.to_nat off) buf ++ src ++ drop (Z.to_nat off + length src) buf)
  else Err OutOfBounds.

Definition load (t : ctype) (buf : bytes) (off : Z) : result Z :=
  if decide (0 ≤ off ∧ off + Z.of_nat (sizeof t) ≤ zlen buf)
  then Ok (cast t (of_le (take (sizeof t) (drop (Z.to_nat off) buf))))
  else Err OutOfBounds.

Definition WriteBuf (t : ctype) (buf : bytes) (value : Z) : result bytes :=
  store buf 0 (WriteBufAdv t value).

Definition ReadBuf (t : ctype) (buf : bytes) : result Z := load t buf 0.

Definition WriteBuf_string (buf : bytes) (value : bytes) : result bytes :=
  let len := cast i32 (zlen value) in
  let? buf1 := WriteBuf i32 buf len in
  store buf1 len value.

Definition ReadBuf_string (buf : bytes) : result bytes :=
  let? size := ReadBuf i32 buf in
  if decide (size < 0) then Err LengthError
  else match read_bytes size (drop 4 buf) with
       | Ok (str, _) => Ok str
       | Err e => Err e
       end.

(** [WriteBufCharsAdv]: the bytes as they are. *)
Definition WriteBufCharsAdv (data : bytes) : bytes := data.

(** ** Enumerations

    A C++ enumeration with a fixed underlying type may hold any value of that type; a value that
    is no enumerator is [Unnamed]. *)

Inductive cenum (E : Type) :=
| Enumerator (e : E)
| Unnamed (z : Z).
Arguments Enumerator {E} _.
Arguments Unnamed {E} _.

#[export] Instance cenum_eq_dec {E} `{EqDecision E} : EqDecision (cenum E).
Proof. solve_decision. Defined.

Class CEnum (E : Type) := {
  enum_ctype : ctype;
  enum_val : E → Z;
  enum_of : Z → option E;
  enum_of_val : ∀ e, enum_of (enum_val e) = Some e;
  enum_val_range : ∀ e, in_range enum_ctype (enum_val e);
}.

Definition cenum_val {E} `{CEnum E} (v : cenum E) : Z :=
  match v with Enumerator e => enum_val e | Unnamed z => z end.

Definition cenum_of {E} `{CEnum E} (z : Z) : cenum E :=
  match enum_of z with Some e => Enumerator e | None => Unnamed z end.

(** Values an object of the enumeration can hold, in canonical form. *)
Definition cenum_wf {E} `{CEnum E} (v : cenum E) : Prop :=
  match v with
  | Enumerator _ => True
  | Unnamed z => in_range enum_ctype z ∧ enum_of z = None
  end.

Definition WriteBufAdv_enum {E} `{CEnum E} (v : cenum E) : bytes :=
  WriteBufAdv enum_ctype (cenum_val v).

Definition ReadBufAdv_enum {E} `{CEnum E} : Reader (cenum E) :=
  let! z := ReadBufAdv enum_ctype in rret (cenum_of z).

(** ** Lemmas *)

Create HintDb reader.
Create HintDb advances.
#[export] Hint Resolve cast_range : reader.
Create Rewrite HintDb reader.
Create Rewrite HintDb wsize.

Lemma rbind_ret {A B} (a : A) (k : A → Reader B) cur : rbind (rret a) k cur = k a cur.
Proof. done. Qed.

Lemma rbind_fail {A B} e (k : A → Reader B) cur : rbind (rfail e) k cur = Err e.
Proof. done. Qed.

Lemma rbind_assoc {A B C} (m : Reader A) (k : A → Reader B) (k' : B → Reader C) cur :
  rbind (rbind m k) k' cur = rbind m (fun a => rbind (k a) k') cur.
Proof. unfold rbind. destruct (m cur) as [[a cur']|]; done. Qed.

Lemma rbind_tell {B} (k : Z → Reader B) cur : rbind tell k cur = k (- zlen cur) cur.
Proof. done. Qed.

Lemma rbind_check {B} b e (k : unit → Reader B) cur :
  b = true → rbind (rcheck b e) k cur = k tt cur.
Proof. by intros ->. Qed.

Lemma rbind_check_fail {B} b e (k : unit → Reader B) cur :
  b = false → rbind (rcheck b e) k cur = Err e.
Proof. by intros ->. Qed.

(** From a reader's equation to the rewriting rule for a reader followed by more code. *)
Lemma rbind_step {A B} (m : Reader A) (k : A → Reader B) cur a cur' :
  m cur = Ok (a, cur') → rbind m k cur = k a cur'.
Proof. unfold rbind. by intros ->. Qed.

Lemma rbind_lift {A B} (m : result A) (k : A → Reader B) cur a :
  m = Ok a → rbind (rlift m) k cur = k a cur.
Proof. by intros ->. Qed.

Lemma room_id ptr_end ptr : in_range i32 (ptr_end - ptr) → room ptr_end ptr = ptr_end - ptr.
Proof. apply cast_id. Qed.

Lemma in_i32 z : in_range i32 z ↔ -2147483648 ≤ z < 2147483648.
Proof. unfold in_range. change (lowest i32) with (-2147483648). change (modulus i32) with 4294967296. lia. Qed.

(** The length check after a field that fits the remaining room. *)
Lemma rbind_room {B} ptr_end ptr e (k : unit → Reader B) cur :
  0 ≤ ptr_end - ptr < 2 ^ 31 → rbind (rcheck (0 <=? room ptr_end ptr) e) k cur = k tt cur.
Proof.
  intros H. apply rbind_check. rewrite room_id by (apply in_i32; lia). apply Z.leb_le. lia.
Qed.

#[export] Hint Rewrite @rbind_ret @rbind_fail @rbind_assoc @rbind_tell : reader.

(** Two continuations that agree on what the reader can produce. *)
Lemma rbind_ext {A B} (m : Reader A) (k k' : A → Reader B) cur :
  (∀ a cur', m cur = Ok (a, cur') → k a cur' = k' a cur') → rbind m k cur = rbind m k' cur.
Proof. unfold rbind. destruct (m cur) as [[a cur']|]; [intros H; by apply H | done]. Qed.

(** A reader that never moves backwards. *)
Definition advances {A} (m : Reader A) : Prop :=
  ∀ cur a cur', m cur = Ok (a, cur') → (length cur' ≤ length cur)%nat.

Lemma advances_ret {A} (a : A) : advances (rret a).
Proof. intros ???. by intros [= <- <-]. Qed.
Lemma advances_fail {A} e : advances (@rfail A e).
Proof. intros ???. discriminate. Qed.
Lemma advances_tell : advances tell.
Proof. intros ???. by intros [= <- <-]. Qed.
Lemma advances_check b e : advances (rcheck b e).
Proof. destruct b; [apply advances_ret | apply advances_fail]. Qed.
Lemma advances_lift {A} (m : result A) : advances (rlift m).
Proof. intros cur a cur'. unfold rlift. destruct m; simpl; [by intros [= <- <-] | done]. Qed.
Lemma advances_bind {A B} (m : Reader A) (k : A → Reader B) :
  advances m → (∀ a, advances (k a)) → advances (rbind m k).
Proof.
  intros Hm Hk cur b cur'. unfold rbind. destruct (m cur) as [[a c]|] eqn:E; [|done].
  intros H. apply Hk in H. apply Hm in E. lia.
Qed.
Lemma advances_rfor {A} n (m : Reader A) : advances m → advances (rfor n m).
Proof.
  intros Hm. unfold rfor. induction (Z.to_nat n) as [|k IH]; simpl; [apply advances_ret|].
  apply advances_bind; [done|]. intros a. apply advances_bind; [done|]. intros; apply advances_ret.
Qed.
Lemma advances_read_bytes n : advances (read_bytes n).
Proof.
  intros cur a cur'. unfold read_bytes. case_decide; [|done]. intros [= <- <-].
  rewrite length_drop. lia.
Qed.
#[export] Hint Resolve advances_ret advances_fail advances_tell advances_check advances_lift
  advances_bind advances_rfor advances_read_bytes : advances.

Lemma advances_ReadBufAdv t : advances (ReadBufAdv t).
Proof. unfold ReadBufAdv. auto with advances. Qed.
Lemma advances_ReadBufAdv_string : advances ReadBufAdv_string.
Proof.
  unfold ReadBufAdv_string. repeat (apply advances_bind; [auto using advances_ReadBufAdv with advances|intros]).
  auto with advances.
Qed.
Lemma advances_ReadBufAdv_enum {E} `{CEnum E} : advances (ReadBufAdv_enum (E:=E)).
Proof. unfold ReadBufAdv_enum. auto using advances_ReadBufAdv with advances. Qed.
#[export] Hint Resolve advances_ReadBufAdv advances_ReadBufAdv_string advances_ReadBufAdv_enum : advances.

Ltac solve_advances :=
  repeat lazymatch goal with
  | |- advances (rbind _ _) => apply advances_bind; [|intros ?]
  | |- advances (rfor _ _) => apply advances_rfor
  | |- advances (match ?x with _ => _ end) => destruct x
  end; auto with advances.

(** A field of a fixed size moves exactly past it. *)
Lemma ReadBufAdv_length t cur z cur' :
  ReadBufAdv t cur = Ok (z, cur') → length cur = (sizeof t + length cur')%nat.
Proof.
  unfold ReadBufAdv, rbind, read_bytes. case_decide as Hd; [|done]. intros [= _ <-].
  rewrite length_drop, Nat2Z.id. unfold zlen in Hd. lia.
Qed.
Lemma ReadBufAdv_enum_length {E} `{CEnum E} cur (v : cenum E) cur' :
  ReadBufAdv_enum cur = Ok (v, cur') → length cur = (sizeof enum_ctype + length cur')%nat.
Proof.
  unfold ReadBufAdv_enum, rbind. destruct (ReadBufAdv _ _) as [[z c]|] eqn:E1; [|done].
  intros [= _ <-]. by eapply ReadBufAdv_length.
Qed.

(** Loop bodies that agree on the buffers the loop can meet. *)
Lemma rfor_ext {A} n (m m' : Reader A) cur :
  advances m → (∀ cur', (length cur' ≤ length cur)%nat → m cur' = m' cur') →
  rfor n m cur = rfor n m' cur.
Proof.
  intros Ha. unfold rfor. revert cur. induction (Z.to_nat n) as [|k IH]; intros cur Hm; simpl; [done|].
  unfold rbind. rewrite <- Hm by done. destruct (m cur) as [[a c]|] eqn:E; [|done].
  apply Ha in E. rewrite IH; [done|]. intros. apply Hm. lia.
Qed.

Lemma read_bytes_app n bs rest :
  zlen bs = n → read_bytes n (bs ++ rest) = Ok (bs, rest).
Proof.
  intros <-. unfold read_bytes. rewrite decide_True by (rewrite zlen_app; pose proof (zlen_nonneg rest); lia).
  unfold zlen. rewrite Nat2Z.id, take_app_length, drop_app_length. done.
Qed.

Lemma zlen_WriteBufAdv t z : zlen (WriteBufAdv t z) = Z.of_nat (sizeof t).
Proof. unfold zlen, WriteBufAdv. by rewrite length_to_le. Qed.

Lemma cast_of_to_le t z : cast t (of_le (to_le (sizeof t) z)) = cast t z.
Proof. rewrite of_to_le, <- modulus_sizeof. apply cast_mod. Qed.

Lemma ReadBufAdv_cast t z rest :
  ReadBufAdv t (WriteBufAdv t z ++ rest) = Ok (cast t z, rest).
Proof.
  unfold ReadBufAdv. erewrite rbind_step by (apply read_bytes_app, zlen_WriteBufAdv).
  unfold WriteBufAdv, rret. by rewrite cast_of_to_le.
Qed.

Lemma ReadBufAdv_write t z rest :
  in_range t z → ReadBufAdv t (WriteBufAdv t z ++ rest) = Ok (z, rest).
Proof. intros H. rewrite ReadBufAdv_cast. by rewrite cast_id. Qed.

Definition str_ok (s : bytes) : Prop := zlen s < 2 ^ 31.

Lemma str_len_range s : str_ok s → in_range i32 (zlen s).
Proof. unfold str_ok, in_range. pose proof (zlen_nonneg s). simpl. change (lowest i32) with (-2147483648). change (modulus i32) with 4294967296. lia. Qed.

Lemma zlen_WriteBufAdv_string s : zlen (WriteBufAdv_string s) = 4 + zlen s.
Proof. unfold WriteBufAdv_string. rewrite zlen_app, zlen_WriteBufAdv. done. Qed.

Lemma ReadBufAdv_string_write s rest :
  str_ok s → ReadBufAdv_string (WriteBufAdv_string s ++ rest) = Ok (s, rest).
Proof.
  intros H%str_len_range. unfold ReadBufAdv_string, WriteBufAdv_string.
  rewrite (cast_id _ _ H), <- app_assoc.
  erewrite rbind_step by (by apply ReadBufAdv_write).
  rewrite rbind_check by (apply Z.leb_le, zlen_nonneg).
  by apply read_bytes_app.
Qed.

Section enum_lemmas.
Context {E : Type} `{CEnum E}.

Lemma cenum_val_range (v : cenum E) : cenum_wf v → in_range enum_ctype (cenum_val v).
Proof. destruct v as [e|z]; simpl; [intros _; apply enum_val_range | tauto]. Qed.

Lemma cenum_of_val (v : cenum E) : cenum_wf v → cenum_of (cenum_val v) = v.
Proof.
  unfold cenum_of. destruct v as [e|z]; simpl; [by rewrite enum_of_val | by intros [_ ->]].
Qed.

Lemma ReadBufAdv_enum_write (v : cenum E) rest :
  cenum_wf v → ReadBufAdv_enum (WriteBufAdv_enum v ++ rest) = Ok (v, rest).
Proof.
  intros Hv. unfold ReadBufAdv_enum, WriteBufAdv_enum.
  erewrite rbind_step by (by apply ReadBufAdv_write, cenum_val_range).
  unfold rret. by rewrite cenum_of_val.
Qed.

Lemma zlen_WriteBufAdv_enum (v : cenum E) :
  zlen (WriteBufAdv_enum v) = Z.of_nat (sizeof enum_ctype).
Proof. apply zlen_WriteBufAdv. Qed.
End enum_lemmas.

#[export] Hint Rewrite zlen_WriteBufAdv zlen_WriteBufAdv_string @zlen_WriteBufAdv_enum
  @zlen_app @zlen_cons @zlen_nil : wsize.

(** A counted loop reads back what was written element by element. *)
Lemma rfor_write {A} (w : A → bytes) (m : Reader A) l n rest :
  n = zlen l →
  (∀ x, x ∈ l → ∀ rest, m (w x ++ rest) = Ok (x, rest)) →
  rfor n m (concat (map w l) ++ rest) = Ok (l, rest).
Proof.
  intros -> Hm. unfold rfor, zlen. rewrite Nat2Z.id.
  induction l as [|x l IH]; [done|]. cbn [length map concat rloop].
  rewrite <- app_assoc. erewrite rbind_step by (apply Hm; set_solver).
  erewrite rbind_step by (apply IH; set_solver). done.
Qed.

Lemma write_all_ok {A} (w : A → result bytes) l :
  Forall (fun x => ∃ b, w x = Ok b) l → ∃ bs, write_all w l = Ok bs.
Proof.
  induction 1 as [|x l [b Hb] _ [bs Hbs]]; [by eexists|]. rewrite write_all_cons, Hb, Hbs. by eexists.
Qed.

(** The same, with a writer that may raise and a reader that yields [f x] for a written [x].  The
    reader may depend on where it stands: it is asked about the buffers the loop meets. *)
Lemma write_all_map {A B} (w : B → result bytes) (w' : A → result bytes) (f : A → B) l :
  (∀ x, x ∈ l → w (f x) = w' x) → write_all w (map f l) = write_all w' l.
Proof.
  induction l as [|x l IH]; intros Hx; cbn [map]; rewrite ?write_all_cons, ?write_all_nil; [done|].
  rewrite Hx by set_solver. rewrite IH; [done|]. intros y Hy. apply Hx. set_solver.
Qed.

Lemma write_all_app {A} (w : A → result bytes) l1 l2 :
  write_all w (l1 ++ l2) = let? b1 := write_all w l1 in let? b2 := write_all w l2 in Ok (b1 ++ b2).
Proof.
  induction l1 as [|x l1 IH]; cbn [app]; rewrite ?write_all_nil, ?write_all_cons; cbn [res_bind].
  { by destruct (write_all w l2). }
  rewrite IH. destruct (w x) as [b|]; cbn [res_bind]; [|done]. destruct (write_all w l1) as [b1|]; [|done].
  cbn [res_bind]. destruct (write_all w l2); [|done]. cbn [res_bind]. by rewrite app_assoc.
Qed.

Lemma rfor_write_all {A B} (w : A → result bytes) (m : Reader B) (f : A → B) l bs n rest :
  write_all w l = Ok bs → n = zlen l →
  (∀ x b tail, x ∈ l → w x = Ok b → zlen b + zlen tail ≤ zlen bs →
     m (b ++ tail ++ rest) = Ok (f x, tail ++ rest)) →
  rfor n m (bs ++ rest) = Ok (map f l, rest).
Proof.
  intros Hw -> Hm. unfold rfor, zlen. rewrite Nat2Z.id.
  revert bs Hw Hm. induction l as [|x l IH]; intros bs Hw Hm;
    rewrite ?write_all_cons, ?write_all_nil in Hw; inv_ok; [done|].
  cbn [length map rloop].
  rewrite <- app_assoc. erewrite rbind_step by (apply (Hm x); [set_solver|done|by rewrite zlen_app]).
  erewrite rbind_step; [done|]. apply IH; [done|].
  intros y b tail Hy Hb Hlen. apply (Hm y); [set_solver|done|].
  rewrite zlen_app. pose proof (zlen_nonneg x0). lia.
Qed.

(** An [int32_t] size accumulated over a container is the number of bytes written for it. *)
Lemma fold_size_written {A} (w : A → result bytes) (sz : Z → A → result Z) l bs acc :
  (∀ x b acc, x ∈ l → w x = Ok b → sz (cast i32 acc) x = Ok (cast i32 (acc + zlen b))) →
  write_all w l = Ok bs →
  res_fold sz (cast i32 acc) l = Ok (cast i32 (acc + zlen bs)).
Proof.
  revert bs acc. induction l as [|x l IH]; intros bs acc Hx Hw;
    rewrite ?write_all_cons, ?write_all_nil in Hw; inv_ok; cbn [res_fold].
  { by rewrite Z.add_0_r. }
  erewrite (Hx x) by (try done; set_solver). cbn [res_bind].
  rewrite (IH x1); [|intros; apply Hx; set_solver|done]. rewrite zlen_app. by rewrite Z.add_assoc.
Qed.

(** One step of running a reader on what a writer wrote: take the leading field off the buffer.
    [read_side] discharges the side conditions (ranges, string lengths, pointer checks). *)
Ltac read_side :=
  solve [ eassumption | done | eauto with reader
        | unfold in_range, lowest; simpl; eauto with reader; lia ].

Ltac read_field :=
  first
  [ rewrite rbind_ret | rewrite rbind_assoc | rewrite rbind_tell
  | erewrite rbind_lift by eassumption
  | erewrite rbind_step by (apply ReadBufAdv_write; read_side)
  | erewrite rbind_step by (apply ReadBufAdv_string_write; read_side)
  | erewrite rbind_step by (apply ReadBufAdv_enum_write; read_side) ].

Ltac read_fields := rewrite <- ?app_assoc; repeat (read_field; cbv beta iota).

(** Arithmetic on the lengths of what was written. *)
Ltac zlen_facts :=
  repeat match goal with
  | |- context [zlen ?l] =>
      lazymatch goal with H : 0 ≤ zlen l |- _ => fail | _ => pose proof (zlen_nonneg l) end
  | _ : context [zlen ?l] |- _ =>
      lazymatch goal with H : 0 ≤ zlen l |- _ => fail | _ => pose proof (zlen_nonneg l) end
  end.
Ltac wsize_lia := autorewrite with wsize in *; simpl in *; zlen_facts; lia.

(** The [maxbytes] check at the end of a [ReadAdv]. *)
Ltac read_room := rewrite rbind_room by wsize_lia.

(** ** Enumerations whose enumerators count up from zero *)

Definition enum_index {E} (all : list E) (z : Z) : option E :=
  if decide (0 ≤ z) then all !! Z.to_nat z else None.

(** The two laws of [CEnum] for an enumeration, by cases on the enumerator. *)
Ltac enum_laws := intros []; first [reflexivity | apply (bool_decide_unpack _); vm_compute; exact I].

(** The same for a size that cannot raise. *)
Lemma fold_left_size {A} (w : A → bytes) (sz : A → Z) l acc :
  (∀ x, x ∈ l → ceq i32 (sz x) (zlen (w x))) →
  fold_left (fun acc x => cast i32 (acc + sz x)) l (cast i32 acc)
  = cast i32 (acc + zlen (concat (map w l))).
Proof.
  revert acc. induction l as [|x l IH]; intros acc H; cbn [fold_left map concat].
  { by rewrite Z.add_0_r. }
  rewrite cast_add_l, IH by set_solver. rewrite zlen_app.
  change (ceq i32 (acc + sz x + zlen (concat (map w l))) (acc + (zlen (w x) + zlen (concat (map w l))))).
  rewrite (H x) by set_solver. by rewrite Z.add_assoc.
Qed.

(** A container whose length fits the stored [i32]. *)
Definition len_ok {A} (l : list A) : Prop := zlen l < 2 ^ 31.

Lemma len_range {A} (l : list A) : len_ok l → in_range i32 (zlen l).
Proof. unfold len_ok. intros H. apply in_i32. pose proof (zlen_nonneg l). lia. Qed.

(** A counted list: its length, then its elements. *)
Lemma read_counted {A} (w : A → bytes) (m : Reader A) l rest :
  len_ok l → (∀ x, x ∈ l → ∀ rest, m (w x ++ rest) = Ok (x, rest)) →
  (let! n := ReadBufAdv i32 in rfor n m) (WriteBufAdv i32 (cast i32 (zlen l)) ++ concat (map w l) ++ rest)
  = Ok (l, rest).
Proof.
  intros Hl Hm. erewrite rbind_step by (apply ReadBufAdv_write, cast_range).
  rewrite (cast_id i32) by (by apply len_range). by apply rfor_write.
Qed.

Lemma rfor_0 {A} (m : Reader A) cur : rfor 0 m cur = Ok ([], cur).
Proof. reflexivity. Qed.

(** Enumerations with gaps: the enumerator of a value. *)
Definition enum_find {E} (val : E → Z) (all : list E) (z : Z) : option E :=
  List.find (fun e => val e =? z) all.

(** ** The codec interface

    What a component promises to the log formats that embed its values: [c_write] produces bytes
    that [c_read] takes back wherever they stand, and [c_size] announces their number. *)
Class Codec (A : Type) := {
  c_wf : A → Prop;
  c_exact : A → Prop;
  c_size : A → result Z;
  c_write : A → result bytes;
  c_read : Z → Reader A;
  c_stored : A → A;
  c_write_ok : ∀ a, c_wf a → ∃ bs, c_write a = Ok bs;
  c_size_written : ∀ a bs,
    c_wf a → c_exact a → c_write a = Ok bs → c_size a = Ok (cast i32 (zlen bs));
  c_read_write : ∀ a bs maxbytes rest,
    c_wf a → c_write a = Ok bs → zlen bs ≤ maxbytes < 2 ^ 31 →
    c_read maxbytes (bs ++ rest) = Ok (c_stored a, rest);
}.

(** The codec of a string: its length, then its characters. *)
#[refine] Definition string_codec : Codec bytes := {|
  c_wf := str_ok;
  c_exact _ := True;
  c_size s := Ok (GetSizeInBytes_string s);
  c_write s := Ok (WriteBufAdv_string s);
  c_read _ := ReadBufAdv_string;
  c_stored s := s;
|}.
Proof.
  - by eexists.
  - intros s bs _ _ [= <-]. unfold GetSizeInBytes_string. by rewrite zlen_WriteBufAdv_string.
  - intros s bs max rest Hs [= <-] _. by apply ReadBufAdv_string_write.
Defined.

Lemma take_zlen {A} (l : list A) n : zlen l ≤ n → take (Z.to_nat n) l = l.
Proof. unfold zlen. intros H. apply take_ge. lia. Qed.

Lemma drop_zlen_app {A} (l k : list A) n : n = zlen l → drop (Z.to_nat n) (l ++ k) = k.
Proof. intros ->. unfold zlen. rewrite Nat2Z.id. apply drop_app_length. Qed.

Lemma take_zlen_app {A} (l k : list A) n : n = zlen l → take (Z.to_nat n) (l ++ k) = l.
Proof. intros ->. unfold zlen. rewrite Nat2Z.id. apply take_app_length. Qed.

(** In-place access at the place a field was written. *)
Lemma store_app a b c src :
  zlen b = zlen src → store (a ++ b ++ c) (zlen a) src = Ok (a ++ src ++ c).
Proof.
  intros H. unfold store. rewrite decide_True by (rewrite !zlen_app; zlen_facts; lia).
  unfold zlen in *. rewrite Nat2Z.id, take_app_length. do 2 f_equal.
  rewrite (app_assoc a b c), drop_app_length' by (rewrite length_app; lia). done.
Qed.

Lemma load_app t z a c : load t (a ++ WriteBufAdv t z ++ c) (zlen a) = Ok (cast t z).
Proof.
  unfold load. rewrite decide_True by (rewrite !zlen_app, zlen_WriteBufAdv; zlen_facts; lia).
  unfold zlen. rewrite Nat2Z.id, drop_app_length, take_app_length' by (symmetry; apply length_to_le).
  unfold WriteBufAdv. by rewrite cast_of_to_le.
Qed.

Lemma load_at t z a c buf off :
  in_range t z → buf = a ++ WriteBufAdv t z ++ c → off = zlen a → load t buf off = Ok z.
Proof. intros Hz -> ->. by rewrite load_app, cast_id. Qed.

Lemma load_ok t buf off :
  0 ≤ off → off + Z.of_nat (sizeof t) ≤ zlen buf → ∃ v, load t buf off = Ok v.
Proof. intros H1 H2. unfold load. rewrite decide_True by done. by eexists. Qed.

Lemma store_at a b c src buf off :
  zlen b = zlen src → buf = a ++ b ++ c → off = zlen a → store buf off src = Ok (a ++ src ++ c).
Proof. intros H -> ->. by apply store_app. Qed.

Lemma WriteBufAdv_le t z : WriteBufAdv t z = to_le (sizeof t) z.
Proof. reflexivity. Qed.

(** Bit [r] of a little-endian number is bit [r mod 8] of its byte [r / 8]. *)
Lemma testbit_of_le bs r :
  Forall byte_ok bs → 0 ≤ r →
  Z.testbit (of_le bs) r = match bs !! Z.to_nat (r / 8) with Some b => Z.testbit b (r mod 8) | None => false end.
Proof.
  intros Hbs. revert r. induction Hbs as [|b bs Hb _ IH]; intros r Hr; cbn [of_le].
  { by rewrite Z.testbit_0_l. }
  unfold byte_ok in Hb. destruct (decide (r < 8)) as [Hlt|Hge].
  - rewrite Z.div_small, Z.mod_small by lia. simpl.
    rewrite <- (Z.mod_pow2_bits_low (b + 256 * of_le bs) 8) by lia. change (2 ^ 8) with 256.
    rewrite Z.mul_comm, Z_mod_plus_full, (Z.mod_small b) by lia. done.
  - replace r with ((r - 8) + 8) at 1 by lia. rewrite <- Z.div_pow2_bits by lia. change (2 ^ 8) with 256.
    rewrite Z.mul_comm, Z.div_add, (Z.div_small b), Z.add_0_l by lia.
    rewrite IH by lia. replace (Z.to_nat (r / 8)) with (S (Z.to_nat ((r - 8) / 8))) by div_lia.
    simpl. replace ((r - 8) mod 8) with (r mod 8) by div_lia. done.
Qed.

(** Clients reason with the lemmas above; evaluation is by [vm_compute]. *)
#[global] Opaque WriteBufAdv WriteBufAdv_string WriteBufAdv_enum ReadBufAdv ReadBufAdv_string
  ReadBufAdv_enum.
