(* ===== verification/Text.v ===== *)
(** * Numbers as text

    The standard library's conversions between integers and decimal text that the program uses:
    [std::stoi] and [std::stoll] on index parameters and file names, [fmt::format("{}", n)] for
    file names, and [std::string::rfind]. *)

From Stdlib Require Import ZArith Lia List.
From stdpp Require Import base list numbers strings.
From S2P Require Import Prelude Bytes.
Local Open Scope Z_scope.

Definition is_space (b : Z) : bool := (b =? 32) || ((9 <=? b) && (b <=? 13)).
Definition is_digit (b : Z) : bool := (48 <=? b) && (b <=? 57).

Fixpoint drop_spaces (s : bytes) : bytes :=
  match s with
  | b :: s' => if is_space b then drop_spaces s' else s
  | [] => []
  end.

(** The value of the longest run of digits at the front. *)
Fixpoint digits (acc : Z) (s : bytes) : Z :=
  match s with
  | b :: s' => if is_digit b then digits (10 * acc + (b - 48)) s' else acc
  | [] => acc
  end.

(** Leading white space, a sign, digits; anything after them is ignored.
    [std::invalid_argument] without a digit, [std::out_of_range] beyond the type. *)
Definition parse_int (t : ctype) (s : bytes) : result Z :=
  let s := drop_spaces s in
  let '(sign, s) :=
    match s with
    | 45 :: s' => (-1, s')
    | 43 :: s' => (1, s')
    | _ => (1, s)
    end in
  match s with
  | b :: _ =>
      if is_digit b then
        let v := sign * digits 0 s in
        if decide (in_range t v) then Ok v else Err StdException
      else Err StdException
  | [] => Err StdException
  end.

Definition stoi : bytes → result Z := parse_int i32.
Definition stoll : bytes → result Z := parse_int i64.

(** The decimal digits of an unsigned number in front of [acc]; 20 digits hold any [u64]. *)
Fixpoint dec_digits (fuel : nat) (n : Z) (acc : bytes) : bytes :=
  match fuel with
  | O => acc
  | S fuel' =>
      let acc := 48 + n mod 10 :: acc in
      if n / 10 =? 0 then acc else dec_digits fuel' (n / 10) acc
  end.

Definition print_u64 (n : Z) : bytes := dec_digits 20 n [].

(** Position of the last [c]. *)
Fixpoint rfind (c : Z) (s : bytes) : option nat :=
  match s with
  | [] => None
  | b :: s' =>
      match rfind c s' with
      | Some i => Some (S i)
      | None => if b =? c then Some O else None
      end
  end.

(** ** Lemmas *)

Lemma is_digit_of n : 0 ≤ n < 10 → is_digit (48 + n) = true.
Proof. intros H. unfold is_digit. rewrite !(proj2 (Z.leb_le _ _)) by lia. done. Qed.

Lemma mod10_range n : 0 ≤ n mod 10 < 10.
Proof. by apply Z.mod_pos_bound. Qed.

Lemma digits_dec_digits fuel : ∀ n acc,
  0 ≤ n < 10 ^ Z.of_nat fuel → fuel ≠ O → digits 0 (dec_digits fuel n acc) = digits n acc.
Proof.
  induction fuel as [|fuel IH]; intros n acc Hn Hf; [done|]. cbn [dec_digits].
  assert (Hstep : ∀ a, digits a (48 + n mod 10 :: acc) = digits (10 * a + n mod 10) acc).
  { intros a. cbn [digits]. rewrite is_digit_of by apply mod10_range. f_equal. lia. }
  pose proof (Z.div_mod n 10 ltac:(lia)) as Hdm. pose proof (mod10_range n).
  destruct (Z.eqb_spec (n / 10) 0) as [H0|H0].
  - rewrite Hstep. f_equal. lia.
  - rewrite Nat2Z.inj_succ, Z.pow_succ_r in Hn by lia.
    rewrite IH; [rewrite Hstep; f_equal; lia|lia|].
    intros ->. change (10 ^ Z.of_nat 0) with 1 in Hn. lia.
Qed.

Lemma dec_digits_Forall fuel : ∀ n acc,
  Forall (fun b => is_digit b = true) acc → Forall (fun b => is_digit b = true) (dec_digits fuel n acc).
Proof.
  induction fuel as [|fuel IH]; intros n acc Ha; cbn [dec_digits]; [done|].
  assert (Forall (fun b => is_digit b = true) (48 + n mod 10 :: acc)).
  { constructor; [|done]. apply is_digit_of, mod10_range. }
  destruct (n / 10 =? 0); [done|by apply IH].
Qed.

Lemma dec_digits_nonempty fuel : ∀ n acc, acc ≠ [] ∨ fuel ≠ O → dec_digits fuel n acc ≠ [].
Proof.
  induction fuel as [|fuel IH]; intros n acc Ha; cbn [dec_digits]; [naive_solver|].
  destruct (n / 10 =? 0); [done|]. apply IH. by left.
Qed.

Lemma parse_print t n :
  0 ≤ n < 2 ^ 64 →
  parse_int t (print_u64 n) = if decide (in_range t n) then Ok n else Err StdException.
Proof.
  intros Hn. unfold parse_int, print_u64.
  pose proof (dec_digits_Forall 20 n [] (Forall_nil_2 _)) as Hd.
  pose proof (dec_digits_nonempty 20 n [] (or_intror (Nat.neq_succ_0 19))) as Hne.
  pose proof (digits_dec_digits 20 n [] ltac:(change (2 ^ 64) with 18446744073709551616 in Hn;
    change (10 ^ Z.of_nat 20) with 100000000000000000000; lia) ltac:(done)) as Hv.
  destruct (dec_digits 20 n []) as [|b s]; [done|]. apply Forall_cons in Hd as [Hb _].
  assert (Hr : 48 ≤ b ≤ 57) by (unfold is_digit in Hb; lia).
  cbn [drop_spaces]. replace (is_space b) with false by (unfold is_space; lia).
  replace (match b with 45 => (-1, s) | 43 => (1, s) | _ => (1, b :: s) end) with (1, b :: s).
  2: { destruct (decide (b = 45)); [lia|]. destruct (decide (b = 43)); [lia|].
       destruct b as [|p|p]; try done. do 6 (destruct p as [p|p|]; try done). }
  rewrite Hb, Hv. cbn [digits]. by rewrite Z.mul_1_l.
Qed.

Lemma rfind_app_r c s t : c ∉ t → rfind c (s ++ c :: t) = Some (length s).
Proof.
  intros Ht. assert (Hn : rfind c t = None).
  { induction t as [|b t IH]; [done|]. apply not_elem_of_cons in Ht as [Hb Ht]. simpl.
    rewrite IH by done. by rewrite (proj2 (Z.eqb_neq _ _)). }
  induction s as [|b s IH]; simpl; [by rewrite Hn, Z.eqb_refl|by rewrite IH].
Qed.

Lemma dot_not_digit n : 46 ∉ print_u64 n.
Proof.
  intros H. apply (proj1 (Forall_forall _ _) (dec_digits_Forall 20 n [] (Forall_nil_2 _))) in H. done.
Qed.
