(* ===== verification/Crc.v ===== *)
(** * The checksum of log and catalog files

    Models [src/src/common/utility/crc.cppm]: the table constructor [CRCBase] and
    [CRC32IEEE::makeCRC].  The section of lemmas shows what the readers of the log rely on: two
    buffers that differ only inside a window of at most four bytes never have the same checksum. *)

From Stdlib Require Import ZArith Lia List.
From stdpp Require Import base list numbers gmap.
From S2P Require Import Prelude Bytes.
Local Open Scope Z_scope.

(** [for (j = 0; j < 8; ++j) c = c & 1 ? polynomial ^ (c >> 1) : c >> 1] *)
Definition crc_round (polynomial c : Z) : Z :=
  if Z.eqb (Z.land c 1) 0 then Z.shiftr c 1 else Z.lxor polynomial (Z.shiftr c 1).

Definition CRCBase (polynomial : Z) : list Z :=
  map (fun i => Nat.iter 8 (crc_round polynomial) (Z.of_nat i)) (seq 0 256).

Definition CRC32_IEEE : Z := 0xEDB88320.

Definition crc_tab : list Z := Eval vm_compute in CRCBase CRC32_IEEE.

Definition tab_at (tab : list Z) (i : Z) : Z := nth (Z.to_nat i) tab 0.

(** One iteration of the loop of [makeCRC]. *)
Definition crc_update (crc b : Z) : Z :=
  Z.lxor (tab_at crc_tab (Z.land (Z.lxor crc b) 0xff)) (Z.shiftr crc 8).

Definition makeCRC (buf : bytes) : Z :=
  Z.lxor (fold_left crc_update buf 0xFFFFFFFF) 0xFFFFFFFF.

(** ** Lemmas *)

Lemma crc_tab_is_base : crc_tab = CRCBase CRC32_IEEE.
Proof. vm_compute. reflexivity. Qed.

Definition u32_ok (z : Z) : Prop := 0 ≤ z < 2 ^ 32.

(** The top bytes of the table are a permutation of all bytes. *)
Definition tab_top (i : Z) : Z := Z.shiftr (tab_at crc_tab i) 24.

Definition all_bytes : list Z := map Z.of_nat (seq 0 256).

Lemma all_bytes_spec i : 0 ≤ i < 256 → i ∈ all_bytes.
Proof.
  intros Hi. unfold all_bytes. rewrite list_elem_of_fmap. exists (Z.to_nat i).
  split; [lia|]. rewrite elem_of_seq. lia.
Qed.

Lemma tab_range i : 0 ≤ i < 256 → u32_ok (tab_at crc_tab i).
Proof.
  intros Hi%all_bytes_spec.
  assert (H : forallb (fun i => (0 <=? tab_at crc_tab i) && (tab_at crc_tab i <? 2 ^ 32)) all_bytes = true)
    by (vm_compute; reflexivity).
  rewrite forallb_forall in H. apply list_elem_of_In in Hi. specialize (H _ Hi).
  unfold u32_ok. lia.
Qed.

Lemma tab_top_inj i j : 0 ≤ i < 256 → 0 ≤ j < 256 → tab_top i = tab_top j → i = j.
Proof.
  intros Hi%all_bytes_spec Hj%all_bytes_spec Hij.
  assert (H : forallb (fun i => forallb (fun j => implb (tab_top i =? tab_top j) (i =? j)) all_bytes)
                all_bytes = true) by (vm_compute; reflexivity).
  rewrite forallb_forall in H. apply list_elem_of_In in Hi. specialize (H _ Hi). cbv beta in H.
  rewrite forallb_forall in H. apply list_elem_of_In in Hj. specialize (H _ Hj). cbv beta in H.
  apply Z.eqb_eq in Hij. rewrite Hij in H. simpl in H. by apply Z.eqb_eq.
Qed.

Lemma land_ff z : Z.land z 0xff = z mod 256.
Proof. change 0xff with (Z.ones 8). by rewrite Z.land_ones. Qed.

Lemma land_ff_range z : 0 ≤ Z.land z 0xff < 256.
Proof. rewrite land_ff. by apply Z.mod_pos_bound. Qed.

Lemma u32_bits z : u32_ok z ↔ 0 ≤ z ∧ ∀ n, 32 ≤ n → Z.testbit z n = false.
Proof.
  unfold u32_ok. split.
  - intros [H0 H1]. split; [done|]. intros n Hn.
    destruct (Z.eq_dec z 0) as [->|]; [by rewrite Z.testbit_0_l|].
    apply Z.bits_above_log2; [done|].
    assert (Z.log2 z < 32) by (apply Z.log2_lt_pow2; lia). lia.
  - intros [H0 H1]. split; [done|].
    destruct (Z.eq_dec z 0) as [->|]; [done|].
    apply Z.log2_lt_pow2; [lia|].
    destruct (Z.lt_ge_cases (Z.log2 z) 32) as [|Hge]; [done|].
    specialize (H1 _ Hge). rewrite Z.bit_log2 in H1 by lia. done.
Qed.

Lemma u32_lxor a b : u32_ok a → u32_ok b → u32_ok (Z.lxor a b).
Proof.
  rewrite !u32_bits. intros [Ha Ha'] [Hb Hb']. split; [by apply Z.lxor_nonneg|].
  intros n Hn. by rewrite Z.lxor_spec, Ha', Hb'.
Qed.

Lemma shiftr_small z n : 0 ≤ z < 2 ^ n → 0 ≤ n → Z.shiftr z n = 0.
Proof. intros H Hn. rewrite Z.shiftr_div_pow2 by done. by apply Z.div_small. Qed.

Lemma u32_shiftr z n : 0 ≤ n → u32_ok z → u32_ok (Z.shiftr z n).
Proof.
  unfold u32_ok. intros Hn [H0 H1]. rewrite Z.shiftr_div_pow2 by done.
  assert (0 < 2 ^ n) by (by apply Z.pow_pos_nonneg).
  split; [by apply Z.div_pos|]. apply Z.div_lt_upper_bound; nia.
Qed.

Lemma crc_update_u32 x b : u32_ok x → u32_ok (crc_update x b).
Proof.
  intros Hx. unfold crc_update. apply u32_lxor; [apply tab_range, land_ff_range|].
  by apply u32_shiftr.
Qed.

Lemma fold_update_u32 bs x : u32_ok x → u32_ok (fold_left crc_update bs x).
Proof. revert x; induction bs; intros x Hx; simpl; auto using crc_update_u32. Qed.

(** Agreement of two updated remainders above bit [s], [s <= 24], fixes the table index and the
    remainders before the update above bit [s + 8]. *)
Lemma crc_update_inj x y b c s :
  0 ≤ s ≤ 24 → u32_ok x → u32_ok y →
  Z.shiftr (crc_update x b) s = Z.shiftr (crc_update y c) s →
  Z.land (Z.lxor x b) 0xff = Z.land (Z.lxor y c) 0xff ∧
  Z.shiftr x (8 + s) = Z.shiftr y (8 + s).
Proof.
  intros Hs Hx Hy H.
  assert (Htop : ∀ x b, u32_ok x →
            Z.shiftr (crc_update x b) 24 = tab_top (Z.land (Z.lxor x b) 0xff)).
  { intros x0 b0 Hx0. unfold crc_update, tab_top.
    rewrite Z.shiftr_lxor, Z.shiftr_shiftr by lia. change (8 + 24) with 32.
    rewrite (shiftr_small x0) by (unfold u32_ok in Hx0; lia). by rewrite Z.lxor_0_r. }
  assert (Hi : Z.land (Z.lxor x b) 0xff = Z.land (Z.lxor y c) 0xff).
  { apply tab_top_inj; [apply land_ff_range..|].
    rewrite <- !Htop by done.
    replace 24 with (s + (24 - s)) by lia.
    rewrite <- !Z.shiftr_shiftr by lia. by rewrite H. }
  split; [done|].
  unfold crc_update in H. rewrite Hi, !Z.shiftr_lxor, !Z.shiftr_shiftr in H by lia.
  apply (f_equal (Z.lxor (Z.shiftr (tab_at crc_tab (Z.land (Z.lxor y c) 0xff)) s))) in H.
  by rewrite <- !Z.lxor_assoc, Z.lxor_nilpotent, !Z.lxor_0_l in H.
Qed.

Lemma land_lxor_cancel x b c :
  byte_ok b → byte_ok c → Z.land (Z.lxor x b) 0xff = Z.land (Z.lxor x c) 0xff → b = c.
Proof.
  unfold byte_ok. intros Hb Hc H.
  assert (Hland : ∀ z w, Z.land (Z.lxor z w) 0xff = Z.lxor (Z.land z 0xff) (Z.land w 0xff)).
  { intros z w. apply Z.bits_inj'. intros n _. rewrite ?Z.land_spec, ?Z.lxor_spec, ?Z.land_spec.
    destruct (Z.testbit z n), (Z.testbit w n), (Z.testbit 0xff n); done. }
  rewrite !Hland in H. apply (f_equal (Z.lxor (Z.land x 0xff))) in H.
  rewrite <- !Z.lxor_assoc, Z.lxor_nilpotent, !Z.lxor_0_l, !land_ff, !Z.mod_small in H by lia.
  done.
Qed.

(** From one remainder, at most four bytes are determined by the remainder they lead to. *)
Lemma fold_update_window bs cs x :
  (length bs ≤ 4)%nat → length bs = length cs → Forall byte_ok bs → Forall byte_ok cs → u32_ok x →
  Z.shiftr (fold_left crc_update bs x) (8 * (4 - zlen bs)) =
  Z.shiftr (fold_left crc_update cs x) (8 * (4 - zlen bs)) →
  bs = cs.
Proof.
  revert cs. induction bs as [|b bs IH] using rev_ind; intros cs Hn Hlen Hbs Hcs Hx H.
  { by destruct cs. }
  destruct cs as [|c cs _] using rev_ind.
  { rewrite length_app in Hlen. simpl in Hlen. lia. }
  rewrite !length_app in Hlen; simpl in Hlen. rewrite length_app in Hn; simpl in Hn.
  apply Forall_app in Hbs as [Hbs Hb], Hcs as [Hcs Hc].
  apply Forall_inv in Hb, Hc.
  rewrite !fold_left_app in H. simpl in H. rewrite zlen_app, zlen_cons, zlen_nil in H.
  unfold zlen in H. apply crc_update_inj in H as [Hi Hrest]; [|lia|by apply fold_update_u32..].
  assert (bs = cs) as <-.
  { apply IH; [lia|lia|done..|].
    unfold zlen. replace (8 * (4 - Z.of_nat (length bs)))
      with (8 + 8 * (4 - (Z.of_nat (length bs) + (1 + 0)))) by lia. done. }
  do 2 f_equal. by eapply land_lxor_cancel.
Qed.

Lemma fold_update_tail_inj s x y :
  u32_ok x → u32_ok y → fold_left crc_update s x = fold_left crc_update s y → x = y.
Proof.
  revert x y. induction s as [|b s IH]; intros x y Hx Hy H; simpl in H; [done|].
  apply IH in H; [|by apply crc_update_u32..].
  apply (f_equal (fun z => Z.shiftr z 0)) in H.
  apply crc_update_inj in H as [Hi Hhi]; [|lia|done..].
  assert (Hlo : x mod 256 = y mod 256).
  { rewrite !land_ff in Hi. rewrite <- !land_ff in Hi |- *.
    assert (Hsplit : ∀ z w, Z.land z 0xff = Z.lxor (Z.land (Z.lxor z w) 0xff) (Z.land w 0xff)).
    { intros z w. apply Z.bits_inj'. intros n _. rewrite ?Z.land_spec, ?Z.lxor_spec, ?Z.land_spec, ?Z.lxor_spec.
      destruct (Z.testbit z n), (Z.testbit w n), (Z.testbit 0xff n); done. }
    by rewrite (Hsplit x b), (Hsplit y b), Hi. }
  change (8 + 0) with 8 in Hhi. rewrite !Z.shiftr_div_pow2 in Hhi by lia.
  change (2 ^ 8) with 256 in Hhi.
  rewrite (Z.div_mod x 256), (Z.div_mod y 256) by lia. lia.
Qed.

(** A corruption confined to a window of at most four bytes changes the checksum. *)
Lemma makeCRC_window p m1 m2 s :
  Forall byte_ok m1 → Forall byte_ok m2 →
  (length m1 ≤ 4)%nat → length m1 = length m2 → m1 ≠ m2 →
  makeCRC (p ++ m1 ++ s) ≠ makeCRC (p ++ m2 ++ s).
Proof.
  intros H1 H2 Hn Hlen Hne H. apply Hne. unfold makeCRC in H.
  apply (f_equal (fun z => Z.lxor z 0xFFFFFFFF)) in H.
  rewrite !Z.lxor_assoc, Z.lxor_nilpotent, !Z.lxor_0_r, !fold_left_app in H.
  assert (Hx : u32_ok (fold_left crc_update p 0xFFFFFFFF)) by (apply fold_update_u32; by split).
  apply fold_update_tail_inj in H; [|by apply fold_update_u32..].
  eapply fold_update_window; [done|done|done|done|exact Hx|]. by rewrite H.
Qed.

Lemma makeCRC_range bs : u32_ok (makeCRC bs).
Proof. unfold makeCRC. apply u32_lxor; [apply fold_update_u32|]; by split. Qed.
