(* ===== verification/DataTypes.v ===== *)
(** * Column types

    Models [src/src/parser/type]: the enumerations [LogicalType], [EmbeddingDataType] and
    [SparseStoreType], the [TypeInfo] classes of [info/], and the class [DataType] of
    [data_type.cpp] with its binary codec ([GetSizeInBytes], [WriteAdv], [ReadAdv]).

    Results: the codec round trips on every type the constructors can build, the announced size is
    the size written (with the one exception the code has), and [MaxDataType] does not depend on
    the order of its arguments. *)

From Stdlib Require Import ZArith Lia List.
From stdpp Require Import base list numbers gmap strings.
From S2P Require Import Prelude Bytes.
Local Open Scope Z_scope.

(** ** Enumerations *)

Inductive LogicalType :=
| kBoolean | kTinyInt | kSmallInt | kInteger | kBigInt | kHugeInt | kDecimal | kFloat | kDouble
| kVarchar | kDate | kTime | kDateTime | kTimestamp | kInterval | kArray | kTuple | kPoint | kLine
| kLineSeg | kBox | kCircle | kUuid | kEmbedding | kRowID | kMixed | kNull | kMissing | kTensor
| kTensorArray | kSparse | kEmptyArray | kInvalid.

#[export] Instance LogicalType_eq_dec : EqDecision LogicalType.
Proof. solve_decision. Defined.

Definition LogicalType_all : list LogicalType :=
  [kBoolean; kTinyInt; kSmallInt; kInteger; kBigInt; kHugeInt; kDecimal; kFloat; kDouble;
   kVarchar; kDate; kTime; kDateTime; kTimestamp; kInterval; kArray; kTuple; kPoint; kLine;
   kLineSeg; kBox; kCircle; kUuid; kEmbedding; kRowID; kMixed; kNull; kMissing; kTensor;
   kTensorArray; kSparse; kEmptyArray; kInvalid].

Definition LogicalType_val (t : LogicalType) : Z :=
  match t with
  | kBoolean => 0 | kTinyInt => 1 | kSmallInt => 2 | kInteger => 3 | kBigInt => 4 | kHugeInt => 5
  | kDecimal => 6 | kFloat => 7 | kDouble => 8 | kVarchar => 9 | kDate => 10 | kTime => 11
  | kDateTime => 12 | kTimestamp => 13 | kInterval => 14 | kArray => 15 | kTuple => 16
  | kPoint => 17 | kLine => 18 | kLineSeg => 19 | kBox => 20 | kCircle => 21 | kUuid => 22
  | kEmbedding => 23 | kRowID => 24 | kMixed => 25 | kNull => 26 | kMissing => 27 | kTensor => 28
  | kTensorArray => 29 | kSparse => 30 | kEmptyArray => 31 | kInvalid => 32
  end.

#[export, refine] Instance LogicalType_enum : CEnum LogicalType := {
  enum_ctype := i8;
  enum_val := LogicalType_val;
  enum_of := enum_index LogicalType_all;
}.
Proof. all: enum_laws. Defined.

Inductive EmbeddingDataType :=
| kElemBit | kElemInt8 | kElemInt16 | kElemInt32 | kElemInt64 | kElemFloat | kElemDouble
| kElemInvalid.

#[export] Instance EmbeddingDataType_eq_dec : EqDecision EmbeddingDataType.
Proof. solve_decision. Defined.

Definition EmbeddingDataType_val (t : EmbeddingDataType) : Z :=
  match t with
  | kElemBit => 0 | kElemInt8 => 1 | kElemInt16 => 2 | kElemInt32 => 3 | kElemInt64 => 4
  | kElemFloat => 5 | kElemDouble => 6 | kElemInvalid => 7
  end.

#[export, refine] Instance EmbeddingDataType_enum : CEnum EmbeddingDataType := {
  enum_ctype := i8;
  enum_val := EmbeddingDataType_val;
  enum_of := enum_index [kElemBit; kElemInt8; kElemInt16; kElemInt32; kElemInt64; kElemFloat;
                         kElemDouble; kElemInvalid];
}.
Proof. all: enum_laws. Defined.

Module SparseStore.
Inductive SparseStoreType := kSort | kNotSort | kInvalid.

#[export] Instance SparseStoreType_eq_dec : EqDecision SparseStoreType.
Proof. solve_decision. Defined.

#[export, refine] Instance SparseStoreType_enum : CEnum SparseStoreType := {
  enum_ctype := i8;
  enum_val t := match t with kSort => 0 | kNotSort => 1 | kInvalid => 2 end;
  enum_of := enum_index [kSort; kNotSort; kInvalid];
}.
Proof. all: enum_laws. Defined.
End SparseStore.
Export (hints) SparseStore.
Abbreviation SparseStoreType := SparseStore.SparseStoreType.

(** ** Type information *)

(** The subclasses of [TypeInfo].  An [ArrayInfo] owns a [DataType], whose three fields are
    spelled out here. *)
Inductive TypeInfo :=
| DecimalInfo (precision_ scale_ : Z)
| EmbeddingInfo (embedding_data_type_ : cenum EmbeddingDataType) (dimension_ : Z)
| SparseInfo (data_type_ index_type_ : cenum EmbeddingDataType) (dimension_ : Z)
    (store_type_ : cenum SparseStoreType)
| BitmapInfo (length_limit_ : Z)
| ArrayInfo (elem_type_ : cenum LogicalType) (elem_plain_ : bool) (elem_info_ : option TypeInfo).

Definition EMBEDDING_LIMIT_INTERNAL : Z := 65536.
Definition MAX_BITMAP_SIZE_INTERNAL : Z := 65536.

Definition DecimalInfo_Make (precision scale : Z) : result TypeInfo :=
  let '(precision, scale) :=
    if bool_decide (precision = 0) && bool_decide (scale = 0) then (38, 38) else (precision, scale) in
  if negb (scale <=? precision) then Err ParserError
  else if negb (precision <=? 38) then Err ParserError
  else Ok (DecimalInfo precision scale).

Definition EmbeddingInfo_Make (t : cenum EmbeddingDataType) (dimension : Z) : result TypeInfo :=
  if negb (dimension <=? EMBEDDING_LIMIT_INTERNAL) then Err ParserError
  else Ok (EmbeddingInfo t dimension).

Definition BitmapInfo_Make (limit : Z) : result TypeInfo :=
  if negb (Z.rem limit 8 =? 0) then Err ParserError
  else if negb ((1 <=? limit) && (limit <=? MAX_BITMAP_SIZE_INTERNAL)) then Err ParserError
  else Ok (BitmapInfo (cast u64 limit)).

(** The index type [SparseInfo::Make] picks for a dimension. *)
Definition SparseInfo_Make (data_type : cenum EmbeddingDataType) (dimension : Z)
    (store_type : cenum SparseStoreType) : result (option TypeInfo) :=
  if bool_decide (dimension = 0) || bool_decide (store_type = Enumerator SparseStore.kInvalid)
  then Ok None
  else
    let make index_type :=
      Ok (Some (SparseInfo data_type (Enumerator index_type) dimension store_type)) in
    if dimension <=? 127 + 1 then make kElemInt8
    else if dimension <=? 32767 + 1 then make kElemInt16
    else if dimension <=? 2147483647 + 1 then make kElemInt32
    else if dimension <=? 9223372036854775807 + 1 then make kElemInt64
    else Err ParserError.

(** [SparseInfo::ParseStoreType]: the last option wins. *)
Definition SparseInfo_ParseStoreType (options : list string) : SparseStoreType :=
  fold_left (fun _ param_name =>
    if bool_decide (param_name = "sort"%string) then SparseStore.kSort
    else if bool_decide (param_name = "notsort"%string) then SparseStore.kNotSort
    else SparseStore.kInvalid) options SparseStore.kSort.

(** The virtual [operator==].  [SparseInfo] does not compare the store type. *)
Fixpoint TypeInfo_eqb (this other : TypeInfo) : bool :=
  match this, other with
  | DecimalInfo p s, DecimalInfo p' s' => (p =? p') && (s =? s')
  | EmbeddingInfo t d, EmbeddingInfo t' d' => (d =? d') && bool_decide (t = t')
  | SparseInfo t i d _, SparseInfo t' i' d' _ =>
      bool_decide (t = t') && bool_decide (i = i') && (d =? d')
  | BitmapInfo l, BitmapInfo l' => l =? l'
  | ArrayInfo t p o, ArrayInfo t' p' o' =>
      if negb (bool_decide (t = t')) then false
      else if negb (Bool.eqb p p') then false
      else match o, o' with
           | None, None => true
           | Some a, Some b => TypeInfo_eqb a b
           | _, _ => false
           end
  | _, _ => false
  end.

(** ** Tables of logical_type.cpp *)

Definition type2name : list string :=
  ["Boolean"; "TinyInt"; "SmallInt"; "Integer"; "BigInt"; "HugeInt"; "Decimal"; "Float"; "Double";
   "Varchar"; "Date"; "Time"; "DateTime"; "Timestamp"; "Interval"; "Array"; "Tuple"; "Point";
   "Line"; "LineSegment"; "Box"; "Circle"; "UUID"; "Embedding"; "RowID"; "Heterogeneous"; "Null";
   "Missing"; "Tensor"; "TensorArray"; "Sparse"; "EmptyArray"; "Invalid"]%string.

Definition name2type : list (string * LogicalType) :=
  [("boolean", kBoolean); ("tinyint", kTinyInt); ("smallint", kSmallInt); ("integer", kInteger);
   ("bigint", kBigInt); ("hugeint", kHugeInt); ("decimal", kDecimal); ("float", kFloat);
   ("double", kDouble); ("varchar", kVarchar); ("date", kDate); ("time", kTime);
   ("datetime", kDateTime); ("timestamp", kTimestamp); ("interval", kInterval);
   ("array", kArray); ("tuple", kTuple); ("point", kPoint); ("line", kLine);
   ("linesegment", kLineSeg); ("box", kBox); ("circle", kCircle); ("uuid", kUuid);
   ("embedding", kEmbedding); ("rowid", kRowID); ("heterogeneous", kMixed); ("null", kNull);
   ("missing", kMissing); ("tensor", kTensor); ("tensorarray", kTensorArray);
   ("sparse", kSparse); ("emptyarray", kEmptyArray); ("invalid", kInvalid)]%string.

(** [sizeof(SparseType)]: the packed struct of an [int64_t] and two [uint32_t]. *)
Definition sizeof_SparseType : Z := 8 + 4 + 4.

Definition type_size : list Z :=
  [1; 1; 2; 4; 8; 16; 16; 4; 8; 16; 4; 4; 8; 8; 8; 8; 4; 16; 24; 32; 32; 24; 16; 8; 8; 16; 0; 0;
   8; 8; sizeof_SparseType; 0; 0].

Definition LogicalType2Str (logical_type : cenum LogicalType) : result string :=
  array_at type2name (cenum_val logical_type).

Definition Str2LogicalType (str : string) : LogicalType :=
  match list_find (fun kv => kv.1 = str) name2type with
  | Some (_, (_, t)) => t
  | None => kInvalid
  end.

Definition LogicalTypeWidth (logical_type : cenum LogicalType) : result Z :=
  array_at type_size (cenum_val logical_type).

(** [std::common_type_t] on the element types: the type itself when both agree, the usual
    arithmetic conversions otherwise (narrow integers promote to [int]). *)
Definition common_type (t u : EmbeddingDataType) : LogicalType :=
  let has x := bool_decide (t = x) || bool_decide (u = x) in
  if bool_decide (t = u) then
    match t with
    | kElemInt8 => kTinyInt | kElemInt16 => kSmallInt | kElemInt32 => kInteger
    | kElemInt64 => kBigInt | kElemFloat => kFloat | kElemDouble => kDouble
    | kElemBit | kElemInvalid => kInvalid
    end
  else if has kElemDouble then kDouble
  else if has kElemFloat then kFloat
  else if has kElemInt64 then kBigInt
  else kInteger.

(** An unnamed value reaches the end of the function without a [return]. *)
Definition GetCommonLogicalType (type1 type2 : cenum EmbeddingDataType) : result LogicalType :=
  match type1 with
  | Enumerator kElemBit | Enumerator kElemInvalid => Ok kInvalid
  | Enumerator t =>
      match type2 with
      | Enumerator kElemBit | Enumerator kElemInvalid => Ok kInvalid
      | Enumerator u => Ok (common_type t u)
      | Unnamed _ => Err OutOfBounds
      end
  | Unnamed _ => Err OutOfBounds
  end.

Definition embedding_type_width : list Z := [0; 1; 2; 4; 8; 4; 8].

Definition EmbeddingSize (t : cenum EmbeddingDataType) (dimension : Z) : result Z :=
  if bool_decide (t = Enumerator kElemInvalid) then Err ParserError
  else if bool_decide (t = Enumerator kElemBit)
  then Ok (Z.shiftr (cast u64 (dimension + 7)) 3)
  else let? width := array_at embedding_type_width (cenum_val t) in
       Ok (cast u64 (dimension * width)).

(** The virtual [Size]. *)
Definition TypeInfo_Size (this : TypeInfo) : result Z :=
  match this with
  | DecimalInfo _ _ => Ok 16
  | EmbeddingInfo t d => EmbeddingSize t d
  | SparseInfo _ _ _ _ => Ok sizeof_SparseType
  | BitmapInfo l => Ok l
  | ArrayInfo _ _ _ => Ok 8
  end.

(** ** DataType *)

Record DataType := mkDataType {
  type_ : cenum LogicalType;
  plain_type_ : bool;
  type_info_ : option TypeInfo;
}.

(** The switch of the constructor; [plain_type_] starts as [false]. *)
Definition plain_type (logical_type : cenum LogicalType) : bool :=
  match logical_type with
  | Enumerator t =>
      match t with
      | kBoolean => false
      | kTinyInt | kSmallInt | kInteger | kBigInt | kHugeInt | kDecimal | kFloat | kDouble | kDate
      | kTime | kDateTime | kTimestamp | kInterval | kPoint | kLine | kLineSeg | kBox | kCircle
      | kUuid | kEmbedding | kRowID => true
      | kMixed | kVarchar | kSparse | kTensor | kTensorArray | kArray | kTuple => false
      | kNull | kEmptyArray | kMissing => true
      | kInvalid => false
      end
  | Unnamed _ => false
  end.

Definition DataType_new (logical_type : cenum LogicalType) (type_info_ptr : option TypeInfo) : DataType :=
  mkDataType logical_type (plain_type logical_type) type_info_ptr.

Definition DataType_eqb (this other : DataType) : bool :=
  if negb (bool_decide (type_ this = type_ other)) then false
  else if negb (Bool.eqb (plain_type_ this) (plain_type_ other)) then false
  else match type_info_ this, type_info_ other with
       | None, None => true
       | Some a, Some b => TypeInfo_eqb a b
       | _, _ => false
       end.

Definition DataType_Size (this : DataType) : result Z :=
  if cenum_val (E:=LogicalType) (Enumerator kInvalid) <? cenum_val (type_ this) then Err ParserError
  else match type_info_ this with
       | Some info =>
           if bool_decide (type_ this ≠ Enumerator kTensor)
              && bool_decide (type_ this ≠ Enumerator kTensorArray)
           then TypeInfo_Size info
           else LogicalTypeWidth (type_ this)
       | None => LogicalTypeWidth (type_ this)
       end.

Definition IsNumeric (this : DataType) : bool :=
  match type_ this with
  | Enumerator (kTinyInt | kSmallInt | kInteger | kBigInt | kHugeInt | kFloat | kDouble
                | kDecimal) => true
  | _ => false
  end.

(** [*this = max( *this, right)]; the value is the new [*this]. *)
Definition MaxDataType (this right : DataType) : result DataType :=
  let has (d : DataType) t := bool_decide (type_ d = Enumerator t) in
  if DataType_eqb this right then Ok this
  else if has this kInvalid then Ok right
  else if has right kInvalid then Ok this
  else if IsNumeric this && IsNumeric right then
    if cenum_val (type_ right) <? cenum_val (type_ this) then Ok this else Ok right
  else if has this kVarchar then Ok this
  else if has right kVarchar then Ok right
  else if has this kDateTime && has right kTimestamp then Ok right
  else if has this kTimestamp && has right kDateTime then Ok this
  else Err ParserError.

(** *** Binary codec *)

Definition DataType_GetSizeInBytes (this : DataType) : result Z :=
  let size := 1 in
  match type_info_ this with
  | Some _ =>
      match type_ this with
      | Enumerator kArray => Err ParserError
      | Enumerator kDecimal => Ok (cast i32 (size + 8 * 2))
      | Enumerator (kTensor | kTensorArray | kEmbedding) => Ok (cast i32 (size + 1 + 4))
      | Enumerator kSparse => Ok (cast i32 (size + 1 * 2 + 8 + 1))
      | _ => Err ParserError
      end
  | None => Ok size
  end.

Definition DataType_WriteAdv (this : DataType) : result bytes :=
  let head := WriteBufAdv_enum (type_ this) in
  match type_ this with
  | Enumerator kArray => Err ParserError
  | Enumerator kDecimal =>
      let '(precision, scale) :=
        match type_info_ this with Some (DecimalInfo p s) => (p, s) | _ => (0, 0) end in
      Ok (head ++ WriteBufAdv i64 precision ++ WriteBufAdv i64 scale)
  | Enumerator (kTensor | kTensorArray | kEmbedding) =>
      match type_info_ this with
      | Some (EmbeddingInfo t d) => Ok (head ++ WriteBufAdv_enum t ++ WriteBufAdv i32 (cast i32 d))
      | _ => Err ParserError
      end
  | Enumerator kSparse =>
      match type_info_ this with
      | Some (SparseInfo t i d s) =>
          Ok (head ++ WriteBufAdv_enum t ++ WriteBufAdv_enum i ++ WriteBufAdv i64 (cast i64 d)
                   ++ WriteBufAdv_enum s)
      | _ => Err OutOfBounds
      end
  | _ => Ok head
  end.

Definition DataType_ReadAdv (maxbytes : Z) : Reader DataType :=
  let! ptr := tell in
  let ptr_end := ptr + maxbytes in
  let! type := ReadBufAdv_enum (E:=LogicalType) in
  let! type_info :=
    match type with
    | Enumerator kArray => rfail ParserError
    | Enumerator kDecimal =>
        let! precision := ReadBufAdv i64 in
        let! scale := ReadBufAdv i64 in
        let! info := rlift (DecimalInfo_Make precision scale) in
        rret (Some info)
    | Enumerator (kTensor | kTensorArray | kEmbedding) =>
        let! embedding_type := ReadBufAdv_enum (E:=EmbeddingDataType) in
        let! dimension := ReadBufAdv i32 in
        let! info := rlift (EmbeddingInfo_Make embedding_type (cast u64 dimension)) in
        rret (Some info)
    | Enumerator kSparse =>
        let! data_type := ReadBufAdv_enum (E:=EmbeddingDataType) in
        let! index_type := ReadBufAdv_enum (E:=EmbeddingDataType) in
        let! dimension := ReadBufAdv i64 in
        let! store_type := ReadBufAdv_enum (E:=SparseStoreType) in
        let! sparse_info := rlift (SparseInfo_Make data_type (cast u64 dimension) store_type) in
        match sparse_info with
        | Some (SparseInfo _ i _ _) =>
            check! bool_decide (index_type = i) orelse ParserError in
            rret sparse_info
        | _ => rfail OutOfBounds
        end
    | _ => rret None
    end in
  let! ptr' := tell in
  check! (0 <=? room ptr_end ptr') orelse ParserError in
  rret (DataType_new type type_info).

(** ** Types the constructors build *)

Definition info_wf (t : cenum LogicalType) (info : option TypeInfo) : Prop :=
  match t with
  | Enumerator kArray => False
  | Enumerator kDecimal =>
      match info with
      | None => True
      | Some i => ∃ p s, in_range i64 p ∧ in_range i64 s ∧ DecimalInfo_Make p s = Ok i
      end
  | Enumerator (kTensor | kTensorArray | kEmbedding) =>
      ∃ e d i, cenum_wf e ∧ 0 ≤ d ∧ EmbeddingInfo_Make e d = Ok i ∧ info = Some i
  | Enumerator kSparse =>
      ∃ e d s, cenum_wf e ∧ cenum_wf s ∧ in_range u64 d ∧ SparseInfo_Make e d s = Ok info ∧ info ≠ None
  | _ => info = None
  end.

Definition DataType_wf (dt : DataType) : Prop :=
  cenum_wf (type_ dt) ∧ plain_type_ dt = plain_type (type_ dt) ∧ info_wf (type_ dt) (type_info_ dt).

(** What a type becomes once stored: a decimal without info is stored as the default one. *)
Definition DataType_stored (dt : DataType) : DataType :=
  match type_ dt, type_info_ dt with
  | Enumerator kDecimal, None => DataType_new (type_ dt) (Some (DecimalInfo 38 38))
  | _, _ => dt
  end.

Lemma DecimalInfo_Make_again p s i :
  in_range i64 p → in_range i64 s → DecimalInfo_Make p s = Ok i →
  ∃ p' s', i = DecimalInfo p' s' ∧ in_range i64 p' ∧ in_range i64 s' ∧
           DecimalInfo_Make p' s' = Ok i.
Proof.
  intros Hp Hs H. unfold DecimalInfo_Make in *.
  destruct (bool_decide (p = 0) && bool_decide (s = 0)) eqn:E.
  - injection H as <-. exists 38, 38. repeat split; vm_compute; congruence.
  - destruct (negb (s <=? p)) eqn:E1; [done|]. destruct (negb (p <=? 38)) eqn:E2; [done|].
    injection H as <-. exists p, s. by rewrite E, E1, E2.
Qed.

Lemma EmbeddingInfo_Make_again e d i :
  0 ≤ d → EmbeddingInfo_Make e d = Ok i →
  i = EmbeddingInfo e d ∧ in_range i32 d ∧ cast u64 d = d ∧ EmbeddingInfo_Make e d = Ok i.
Proof.
  intros Hd H. pose proof H as H0. unfold EmbeddingInfo_Make in H.
  destruct (d <=? EMBEDDING_LIMIT_INTERNAL) eqn:E; [|done]. apply Z.leb_le in E.
  unfold EMBEDDING_LIMIT_INTERNAL in E. injection H as <-.
  split_and!; [done | solve_range | apply cast_id; solve_range | done].
Qed.

(** [SparseInfo::Make] with the dimension that went through the file: the same info, with the
    same index type. *)
Lemma SparseInfo_Make_again e d s info :
  in_range u64 d → SparseInfo_Make e d s = Ok info → info ≠ None →
  ∃ i, info = Some (SparseInfo e i d s) ∧ cenum_wf i ∧ cast u64 (cast i64 d) = d.
Proof.
  intros Hd H Hn. unfold SparseInfo_Make in H.
  assert (Hc : cast u64 (cast i64 d) = d).
  { rewrite <- (cast_id u64 d) at 2 by done. apply cast_eq_mod.
    change (modulus u64) with (modulus i64). apply cast_mod_eq. }
  repeat case_match; simplify_eq; eexists; repeat split; eauto.
Qed.

(** ** The codec *)

Ltac datatype_cases dt :=
  destruct dt as [[[]|?] plain info]; simpl in *.

Ltac destruct_wf :=
  repeat match goal with
  | H : ∃ _, _ |- _ => destruct H
  | H : _ ∧ _ |- _ => destruct H
  | H : EmbeddingInfo_Make _ _ = Ok ?i |- _ =>
      is_var i; apply EmbeddingInfo_Make_again in H as (-> & ? & ? & ?); [|assumption]
  | H : SparseInfo_Make _ _ _ = Ok ?i, H' : _ ≠ None |- _ =>
      is_var i; pose proof H; apply SparseInfo_Make_again in H as (? & -> & ? & ?); [clear H'|assumption..]
  | H : DecimalInfo_Make _ _ = Ok ?i |- _ =>
      is_var i; apply DecimalInfo_Make_again in H as (? & ? & -> & ? & ? & ?); [|assumption..]
  end; try subst.

Lemma DataType_WriteAdv_ok dt : DataType_wf dt → ∃ bs, DataType_WriteAdv dt = Ok bs.
Proof.
  intros (_ & _ & H). unfold DataType_WriteAdv.
  datatype_cases dt; try contradiction; try (eexists; reflexivity).
  all: try (destruct info as [[]|]; eauto; fail).
  all: destruct_wf; eauto.
Qed.

Lemma DataType_ReadAdv_write dt bs maxbytes rest :
  DataType_wf dt → DataType_WriteAdv dt = Ok bs → zlen bs ≤ maxbytes < 2 ^ 31 →
  DataType_ReadAdv maxbytes (bs ++ rest) = Ok (DataType_stored dt, rest).
Proof.
  intros (Ht & Hp & H) Hw Hmax.
  unfold DataType_ReadAdv, DataType_WriteAdv, DataType_stored in *.
  datatype_cases dt; try contradiction; subst; simplify_eq.
  all: try (read_fields; read_room; done).
  { destruct info as [i|]; simpl in *; destruct_wf; simplify_eq.
    - read_fields. read_room. done.
    - read_fields. erewrite rbind_lift by reflexivity. read_fields. read_room. done. }
  4: { destruct_wf. simplify_eq. read_fields.
    rewrite rbind_lift with (a := Some (SparseInfo x x2 x0 x1)) by congruence. cbv beta iota.
    rewrite rbind_assoc, rbind_check by (by apply bool_decide_eq_true).
    read_fields. read_room. done. }
  all: destruct_wf; simplify_eq; read_fields.
  all: rewrite (cast_id i32) by done.
  all: erewrite rbind_lift by (replace (cast u64 x0) with x0 by congruence; eassumption).
  all: read_fields; read_room; done.
Qed.

(** The size announced is the size written, for every type but a decimal without info. *)
Lemma DataType_size_written dt bs :
  DataType_wf dt → (type_ dt = Enumerator kDecimal → type_info_ dt ≠ None) →
  DataType_WriteAdv dt = Ok bs → DataType_GetSizeInBytes dt = Ok (zlen bs).
Proof.
  intros (_ & _ & H) Hd Hw. unfold DataType_WriteAdv, DataType_GetSizeInBytes in *.
  datatype_cases dt; try contradiction; subst; simplify_eq; autorewrite with wsize; try done.
  { destruct info as [i|]; [|by destruct (Hd eq_refl)].
    destruct_wf. simplify_eq. by autorewrite with wsize. }
  all: destruct_wf; simplify_eq; by autorewrite with wsize.
Qed.

Lemma DataType_size_bound dt bs : DataType_WriteAdv dt = Ok bs → zlen bs ≤ 17.
Proof.
  intros Hw. unfold DataType_WriteAdv in Hw.
  repeat case_match; simplify_eq; autorewrite with wsize; simpl; lia.
Qed.

(** ** Comparison *)

Lemma TypeInfo_eqb_sym a b : TypeInfo_eqb a b = TypeInfo_eqb b a.
Proof.
  revert a b. fix IH 1. intros [p s|t d|t i d s|l|t p o] [p' s'|t' d'|t' i' d' s'|l'|t' p' o'];
    simpl; try done.
  - by rewrite (Z.eqb_sym p), (Z.eqb_sym s).
  - by rewrite (Z.eqb_sym d), (bool_decide_sym t).
  - by rewrite (Z.eqb_sym d), (bool_decide_sym t), (bool_decide_sym i).
  - apply Z.eqb_sym.
  - rewrite (bool_decide_sym t), (bool_eqb_sym p). destruct o, o'; try done. by rewrite IH.
Qed.

Lemma DataType_eqb_sym a b : DataType_eqb a b = DataType_eqb b a.
Proof.
  unfold DataType_eqb. rewrite (bool_decide_sym (type_ a)), (bool_eqb_sym (plain_type_ a)).
  repeat case_match; try done. apply TypeInfo_eqb_sym.
Qed.

(** Two types built without info are equal exactly when their logical types are. *)
Lemma DataType_eqb_plain a b :
  DataType_wf a → DataType_wf b → type_ a = type_ b → type_info_ a = None → type_info_ b = None →
  DataType_eqb a b = true.
Proof.
  unfold DataType_eqb. intros (_ & Ha & _) (_ & Hb & _) Ht -> ->.
  rewrite bool_decide_eq_true_2 by done. simpl. rewrite Ha, Hb, Ht, Bool.eqb_reflx. done.
Qed.

Lemma info_None t info :
  info_wf t info → (∀ e, t = Enumerator e →
    e ∉ [kDecimal; kTensor; kTensorArray; kEmbedding; kSparse]) → info = None.
Proof.
  destruct t as [e|]; [|done]. intros H Hn. specialize (Hn e eq_refl).
  destruct e; simpl in H; try done; exfalso; apply Hn; set_solver.
Qed.

(** Distinct types the codec can hold, both with the logical type [t]: only the types that carry
    info have two values. *)
Lemma DataType_same_type a b t :
  DataType_wf a → DataType_wf b → DataType_eqb a b = false →
  type_ a = Enumerator t → type_ b = Enumerator t →
  t ∈ [kDecimal; kTensor; kTensorArray; kEmbedding; kSparse].
Proof.
  intros Ha Hb Hne Hta Htb. destruct (decide (t ∈ [kDecimal; kTensor; kTensorArray; kEmbedding; kSparse]))
    as [|Hn]; [done|]. exfalso. apply diff_false_true. rewrite <- Hne.
  apply DataType_eqb_plain; try done; [congruence|..].
  - destruct Ha as (_ & _ & Hi). apply (info_None _ _ Hi). intros e He. congruence.
  - destruct Hb as (_ & _ & Hi). apply (info_None _ _ Hi). intros e He. congruence.
Qed.

Lemma TypeInfo_eqb_refl a : TypeInfo_eqb a a = true.
Proof.
  revert a. fix IH 1. intros [p s|t d|t i d s|l|t p o]; simpl;
    rewrite ?Z.eqb_refl, ?bool_decide_eq_true_2, ?Bool.eqb_reflx by done; try done.
  destruct o; [apply IH | done].
Qed.

Lemma DataType_eqb_refl a : DataType_eqb a a = true.
Proof.
  unfold DataType_eqb. rewrite bool_decide_eq_true_2, Bool.eqb_reflx by done. simpl.
  case_match; [apply TypeInfo_eqb_refl | done].
Qed.

(** The two results of [MaxDataType] agree: both raise, or both hold equal types. *)
Definition same_max (x y : result DataType) : Prop :=
  match x, y with
  | Ok c, Ok d => DataType_eqb c d = true
  | Err _, Err _ => True
  | _, _ => False
  end.

Lemma same_max_refl x : same_max x x.
Proof. destruct x; [apply DataType_eqb_refl | done]. Qed.

Lemma numeric_total a b :
  DataType_wf a → DataType_wf b → DataType_eqb a b = false →
  ¬ (type_ a = Enumerator kDecimal ∧ type_ b = Enumerator kDecimal) →
  IsNumeric a && IsNumeric b = true →
  cenum_val (type_ b) <? cenum_val (type_ a) = negb (cenum_val (type_ a) <? cenum_val (type_ b)).
Proof.
  intros Ha Hb Hne Hd [Na Nb]%andb_prop.
  destruct (Z.eq_dec (cenum_val (type_ a)) (cenum_val (type_ b))) as [E|E].
  2: destruct (_ <? _) eqn:E1; destruct (cenum_val (type_ a) <? _) eqn:E2; try done; lia.
  exfalso. assert (Ht : type_ a = type_ b).
  { destruct Ha as (Ha & _), Hb as (Hb & _).
    rewrite <- (cenum_of_val (type_ a)), <- (cenum_of_val (type_ b)), E by done. done. }
  unfold IsNumeric in Na. destruct (type_ a) as [t|] eqn:Eta; [|done].
  pose proof (DataType_same_type a b t Ha Hb Hne Eta (eq_sym Ht)) as Hin.
  destruct t; try done; set_solver.
Qed.

(** ** Theorems *)

(** Every column type the constructors can build is written, and the bytes written read back
    as the same type wherever they stand in a buffer; [GetSizeInBytes] announces exactly the bytes
    written, unless the type is a decimal without type info. *)
Theorem datatype_codec dt (Hwf : DataType_wf dt) :
  ∃ bs, DataType_WriteAdv dt = Ok bs ∧
    (∀ maxbytes rest, zlen bs ≤ maxbytes < 2 ^ 31 →
       DataType_ReadAdv maxbytes (bs ++ rest) = Ok (DataType_stored dt, rest)) ∧
    ((type_ dt = Enumerator kDecimal → type_info_ dt ≠ None) →
       DataType_GetSizeInBytes dt = Ok (zlen bs) ∧ DataType_stored dt = dt).
Proof.
  destruct (DataType_WriteAdv_ok dt Hwf) as [bs Hbs]. exists bs. split_and!; [done|..].
  - intros. by apply DataType_ReadAdv_write.
  - intros Hd. split; [by apply DataType_size_written|].
    unfold DataType_stored. repeat case_match; try done. by destruct Hd.
Qed.

Example datatype_codec_witness :
  ∃ bs, DataType_WriteAdv (DataType_new (Enumerator kSparse)
          (Some (SparseInfo (Enumerator kElemFloat) (Enumerator kElemInt16) 30000
                            (Enumerator SparseStore.kSort)))) = Ok bs ∧ zlen bs = 12.
Proof.
  destruct (datatype_codec (DataType_new (Enumerator kSparse)
          (Some (SparseInfo (Enumerator kElemFloat) (Enumerator kElemInt16) 30000
                            (Enumerator SparseStore.kSort))))) as (bs & H1 & _ & H2).
  - split; [done|]. split; [done|]. exists (Enumerator kElemFloat), 30000, (Enumerator SparseStore.kSort).
    split_and!; done.
  - exists bs. split; [done|]. destruct H2 as [H2 _]; [done|]. by injection H2.
Defined.

(** A decimal column type without type info announces one byte and writes seventeen, so a
    buffer sized by [GetSizeInBytes] is overrun by sixteen bytes; read back, the type has become
    the default decimal(38, 38). *)
Theorem decimal_without_info_overruns :
  let dt := DataType_new (Enumerator kDecimal) None in
  DataType_GetSizeInBytes dt = Ok 1 ∧
  (∃ bs, DataType_WriteAdv dt = Ok bs ∧ zlen bs = 17 ∧
    ∀ rest, DataType_ReadAdv 17 (bs ++ rest) =
            Ok (DataType_new (Enumerator kDecimal) (Some (DecimalInfo 38 38)), rest)).
Proof.
  intros dt. split; [done|]. eexists. split; [reflexivity|]. split; [by autorewrite with wsize|].
  intros rest. by apply (DataType_ReadAdv_write dt).
Qed.

(** The common type of two columns does not depend on their order: [MaxDataType] raises for
    both orders or gives equal types, for any two types that are not both decimals. *)
Theorem max_datatype_comm a b (Ha : DataType_wf a) (Hb : DataType_wf b)
    (Hd : ¬ (type_ a = Enumerator kDecimal ∧ type_ b = Enumerator kDecimal)) :
  same_max (MaxDataType a b) (MaxDataType b a).
Proof.
  unfold MaxDataType. rewrite (DataType_eqb_sym b a), (andb_comm (IsNumeric b)).
  destruct (DataType_eqb a b) eqn:Hne; [done|].
  assert (Hex : ∀ t, t ∉ [kDecimal; kTensor; kTensorArray; kEmbedding; kSparse] →
                ¬ (type_ a = Enumerator t ∧ type_ b = Enumerator t)).
  { intros t Ht [H1 H2]. by apply Ht, (DataType_same_type a b). }
  pose proof (Hex kInvalid ltac:(set_solver)) as Hi.
  pose proof (Hex kVarchar ltac:(set_solver)) as Hv.
  repeat case_bool_decide; try tauto; try (simpl; apply DataType_eqb_refl).
  all: destruct (IsNumeric a && IsNumeric b) eqn:En;
    [ rewrite (numeric_total a b Ha Hb Hne Hd En); destruct (_ <? _); apply same_max_refl
    | simpl; first [apply DataType_eqb_refl | done | congruence] ].
Qed.

Example max_datatype_comm_witness :
  same_max (MaxDataType (DataType_new (Enumerator kInteger) None) (DataType_new (Enumerator kDouble) None))
           (MaxDataType (DataType_new (Enumerator kDouble) None) (DataType_new (Enumerator kInteger) None)).
Proof. apply max_datatype_comm; [done | done | by intros [? _]]. Defined.
