(* ===== verification/ConstExpr.v ===== *)
(** * Constant expressions

    Models [src/src/parser/expr/constant_expr.cpp]: the literals a column default is made of, with
    their binary codec.  A [double] is its 64-bit pattern; a [char *] is [None] when null and the
    bytes before the terminating NUL otherwise.

    [ReadAdv] recurses on nested arrays; the model recurses on a fuel that the length of the
    buffer bounds, and [ReadAdv_fuel_enough] shows that any larger fuel gives the same result. *)

From Stdlib Require Import ZArith Lia List.
From stdpp Require Import base list numbers gmap.
From S2P Require Import Prelude Bytes.
Local Open Scope Z_scope.

Module Literal.
Inductive LiteralType :=
| kBoolean | kDouble | kString | kInteger | kNull | kDate | kTime | kDateTime | kTimestamp
| kIntegerArray | kDoubleArray | kSubArrayArray | kInterval | kLongSparseArray
| kDoubleSparseArray | kEmptyArray.

#[export] Instance LiteralType_eq_dec : EqDecision LiteralType.
Proof. solve_decision. Defined.

#[export, refine] Instance LiteralType_enum : CEnum LiteralType := {
  enum_ctype := i32;
  enum_val t :=
    match t with
    | kBoolean => 0 | kDouble => 1 | kString => 2 | kInteger => 3 | kNull => 4 | kDate => 5
    | kTime => 6 | kDateTime => 7 | kTimestamp => 8 | kIntegerArray => 9 | kDoubleArray => 10
    | kSubArrayArray => 11 | kInterval => 12 | kLongSparseArray => 13 | kDoubleSparseArray => 14
    | kEmptyArray => 15
    end;
  enum_of := enum_index [kBoolean; kDouble; kString; kInteger; kNull; kDate; kTime; kDateTime;
    kTimestamp; kIntegerArray; kDoubleArray; kSubArrayArray; kInterval; kLongSparseArray;
    kDoubleSparseArray; kEmptyArray];
}.
Proof. all: enum_laws. Defined.
End Literal.
Export (hints) Literal.
Import Literal.

Inductive TimeUnit := kYear | kMonth | kDay | kHour | kMinute | kSecond | kInvalidUnit.

#[export] Instance TimeUnit_eq_dec : EqDecision TimeUnit.
Proof. solve_decision. Defined.

#[export, refine] Instance TimeUnit_enum : CEnum TimeUnit := {
  enum_ctype := i32;
  enum_val t :=
    match t with
    | kYear => 0 | kMonth => 1 | kDay => 2 | kHour => 3 | kMinute => 4 | kSecond => 5
    | kInvalidUnit => 6
    end;
  enum_of := enum_index [kYear; kMonth; kDay; kHour; kMinute; kSecond; kInvalidUnit];
}.
Proof. all: enum_laws. Defined.

(** ** The class *)

Inductive ConstantExpr := mkConstantExpr {
  literal_type_ : cenum LiteralType;
  bool_value_ : bool;
  integer_value_ : Z;
  double_value_ : Z;
  str_value_ : option bytes;
  interval_type_ : cenum TimeUnit;
  date_value_ : option bytes;
  long_array_ : list Z;
  double_array_ : list Z;
  sub_array_array_ : list ConstantExpr;
  long_sparse_array_ : list Z * list Z;
  double_sparse_array_ : list Z * list Z;
}.

(** The constructor: every field but the type at its default. *)
Definition ConstantExpr_new (literal_type : cenum LiteralType) : ConstantExpr :=
  mkConstantExpr literal_type false 0 0 None (Enumerator kInvalidUnit) None [] [] [] ([], []) ([], []).

Definition set_bool_value (b : bool) (e : ConstantExpr) : ConstantExpr :=
  let '(mkConstantExpr l _ i d s u dt la da sa ls ds) := e in
  mkConstantExpr l b i d s u dt la da sa ls ds.
Definition set_integer_value (i : Z) (e : ConstantExpr) : ConstantExpr :=
  let '(mkConstantExpr l b _ d s u dt la da sa ls ds) := e in
  mkConstantExpr l b i d s u dt la da sa ls ds.
Definition set_double_value (d : Z) (e : ConstantExpr) : ConstantExpr :=
  let '(mkConstantExpr l b i _ s u dt la da sa ls ds) := e in
  mkConstantExpr l b i d s u dt la da sa ls ds.
Definition set_str_value (s : option bytes) (e : ConstantExpr) : ConstantExpr :=
  let '(mkConstantExpr l b i d _ u dt la da sa ls ds) := e in
  mkConstantExpr l b i d s u dt la da sa ls ds.
Definition set_interval_type (u : cenum TimeUnit) (e : ConstantExpr) : ConstantExpr :=
  let '(mkConstantExpr l b i d s _ dt la da sa ls ds) := e in
  mkConstantExpr l b i d s u dt la da sa ls ds.
Definition set_date_value (dt : option bytes) (e : ConstantExpr) : ConstantExpr :=
  let '(mkConstantExpr l b i d s u _ la da sa ls ds) := e in
  mkConstantExpr l b i d s u dt la da sa ls ds.
Definition set_long_array (la : list Z) (e : ConstantExpr) : ConstantExpr :=
  let '(mkConstantExpr l b i d s u dt _ da sa ls ds) := e in
  mkConstantExpr l b i d s u dt la da sa ls ds.
Definition set_double_array (da : list Z) (e : ConstantExpr) : ConstantExpr :=
  let '(mkConstantExpr l b i d s u dt la _ sa ls ds) := e in
  mkConstantExpr l b i d s u dt la da sa ls ds.
Definition set_sub_array_array (sa : list ConstantExpr) (e : ConstantExpr) : ConstantExpr :=
  let '(mkConstantExpr l b i d s u dt la da _ ls ds) := e in
  mkConstantExpr l b i d s u dt la da sa ls ds.
Definition set_long_sparse_array (ls : list Z * list Z) (e : ConstantExpr) : ConstantExpr :=
  let '(mkConstantExpr l b i d s u dt la da sa _ ds) := e in
  mkConstantExpr l b i d s u dt la da sa ls ds.
Definition set_double_sparse_array (ds : list Z * list Z) (e : ConstantExpr) : ConstantExpr :=
  let '(mkConstantExpr l b i d s u dt la da sa ls _) := e in
  mkConstantExpr l b i d s u dt la da sa ls ds.

(** ** Writing *)

(** [std::string(p)] of a [char *]. *)
Definition string_of (p : option bytes) : result bytes :=
  match p with Some s => Ok s | None => Err OutOfBounds end.

Fixpoint ConstantExpr_GetSizeInBytes (this : ConstantExpr) : result Z :=
  let size := 4 in
  match literal_type_ this with
  | Enumerator kBoolean => Ok (cast i32 (size + 1))
  | Enumerator kDouble => Ok (cast i32 (size + 8))
  | Enumerator kString =>
      let? s := string_of (str_value_ this) in Ok (cast i32 (size + (4 + zlen s)))
  | Enumerator kInteger => Ok (cast i32 (size + 8))
  | Enumerator (kEmptyArray | kNull) => Ok size
  | Enumerator (kDate | kTime | kDateTime | kTimestamp) =>
      let? s := string_of (date_value_ this) in Ok (cast i32 (size + (4 + zlen s)))
  | Enumerator kIntegerArray => Ok (cast i32 (cast i32 (size + 8) + 8 * zlen (long_array_ this)))
  | Enumerator kDoubleArray => Ok (cast i32 (cast i32 (size + 8) + 8 * zlen (double_array_ this)))
  | Enumerator kSubArrayArray =>
      res_fold (fun size val =>
        let? n := ConstantExpr_GetSizeInBytes val in Ok (cast i32 (size + n)))
        (cast i32 (size + 8)) (sub_array_array_ this)
  | Enumerator kLongSparseArray =>
      Ok (cast i32 (cast i32 (size + (8 + 8 * zlen (long_sparse_array_ this).1))
                    + (8 + 8 * zlen (long_sparse_array_ this).2)))
  | Enumerator kDoubleSparseArray =>
      Ok (cast i32 (cast i32 (size + (8 + 8 * zlen (double_sparse_array_ this).1))
                    + (8 + 8 * zlen (double_sparse_array_ this).2)))
  | Enumerator kInterval => Ok (cast i32 (cast i32 (size + 4) + 8))
  | Unnamed _ => Ok size
  end.

(** The length of a vector as an [int64_t], then its elements. *)
Definition write_vector (t : ctype) (l : list Z) : bytes :=
  WriteBufAdv i64 (cast i64 (zlen l)) ++ concat (map (WriteBufAdv t) l).

Fixpoint ConstantExpr_WriteAdv (this : ConstantExpr) : result bytes :=
  let head := WriteBufAdv_enum (literal_type_ this) in
  match literal_type_ this with
  | Enumerator kBoolean => Ok (head ++ WriteBufAdv u8 (if bool_value_ this then 1 else 0))
  | Enumerator kDouble => Ok (head ++ WriteBufAdv u64 (double_value_ this))
  | Enumerator kString =>
      let? s := string_of (str_value_ this) in Ok (head ++ WriteBufAdv_string s)
  | Enumerator kInteger => Ok (head ++ WriteBufAdv i64 (integer_value_ this))
  | Enumerator (kEmptyArray | kNull) => Ok head
  | Enumerator (kDate | kTime | kDateTime | kTimestamp) =>
      let? s := string_of (date_value_ this) in Ok (head ++ WriteBufAdv_string s)
  | Enumerator kIntegerArray => Ok (head ++ write_vector i64 (long_array_ this))
  | Enumerator kDoubleArray => Ok (head ++ write_vector u64 (double_array_ this))
  | Enumerator kSubArrayArray =>
      let? subs := write_all ConstantExpr_WriteAdv (sub_array_array_ this) in
      Ok (head ++ WriteBufAdv i64 (cast i64 (zlen (sub_array_array_ this))) ++ subs)
  | Enumerator kInterval =>
      Ok (head ++ WriteBufAdv_enum (interval_type_ this) ++ WriteBufAdv i64 (integer_value_ this))
  | Enumerator kLongSparseArray =>
      Ok (head ++ write_vector i64 (long_sparse_array_ this).1
               ++ write_vector i64 (long_sparse_array_ this).2)
  | Enumerator kDoubleSparseArray =>
      Ok (head ++ write_vector i64 (double_sparse_array_ this).1
               ++ write_vector u64 (double_sparse_array_ this).2)
  | Unnamed _ => Ok head
  end.

(** ** Reading *)

(** [strdup(s.c_str())]: the bytes before the first NUL. *)
Fixpoint c_str (s : bytes) : bytes :=
  match s with
  | [] => []
  | b :: s' => if b =? 0 then [] else b :: c_str s'
  end.

(** [push_back] in a loop of [size_t len]. *)
Definition read_vector (t : ctype) : Reader (list Z) :=
  let! len := ReadBufAdv i64 in
  rfor (cast u64 len) (ReadBufAdv t).

(** [resize(len)], then assignments; [resize] raises beyond [max_size()]. *)
Definition vector_max_size : Z := (2 ^ 63 - 1) / 8.

Definition read_vector_resized (t : ctype) : Reader (list Z) :=
  let! len := ReadBufAdv i64 in
  check! (cast u64 len <=? vector_max_size) orelse LengthError in
  rfor (cast u64 len) (ReadBufAdv t).

Fixpoint ConstantExpr_ReadAdv_fuel (fuel : nat) (maxbytes : Z) : Reader ConstantExpr :=
  match fuel with
  | O => rfail OutOfBounds
  | S fuel' =>
      let! ptr := tell in
      let ptr_end := ptr + maxbytes in
      let! literal_type := ReadBufAdv_enum (E:=LiteralType) in
      let const_expr := ConstantExpr_new literal_type in
      let! const_expr :=
        match literal_type with
        | Enumerator kBoolean =>
            let! bool_value := ReadBufAdv u8 in
            rret (set_bool_value (negb (bool_value =? 0)) const_expr)
        | Enumerator kDouble =>
            let! double_value := ReadBufAdv u64 in
            rret (set_double_value double_value const_expr)
        | Enumerator kString =>
            let! str_value := ReadBufAdv_string in
            rret (set_str_value (Some (c_str str_value)) const_expr)
        | Enumerator kInteger =>
            let! integer_value := ReadBufAdv i64 in
            rret (set_integer_value integer_value const_expr)
        | Enumerator (kEmptyArray | kNull) => rret const_expr
        | Enumerator (kDate | kTime | kDateTime | kTimestamp) =>
            let! date_value := ReadBufAdv_string in
            rret (set_date_value (Some (c_str date_value)) const_expr)
        | Enumerator kIntegerArray =>
            let! l := read_vector i64 in rret (set_long_array l const_expr)
        | Enumerator kDoubleArray =>
            let! l := read_vector u64 in rret (set_double_array l const_expr)
        | Enumerator kSubArrayArray =>
            let! len := ReadBufAdv i64 in
            let! subs := rfor (cast u64 len)
              (let! ptr := tell in ConstantExpr_ReadAdv_fuel fuel' (room ptr_end ptr)) in
            rret (set_sub_array_array subs const_expr)
        | Enumerator kInterval =>
            let! interval_type := ReadBufAdv_enum (E:=TimeUnit) in
            let! integer_value := ReadBufAdv i64 in
            rret (set_integer_value integer_value (set_interval_type interval_type const_expr))
        | Enumerator kLongSparseArray =>
            let! first := read_vector_resized i64 in
            let! second := read_vector_resized i64 in
            rret (set_long_sparse_array (first, second) const_expr)
        | Enumerator kDoubleSparseArray =>
            let! first := read_vector_resized i64 in
            let! second := read_vector_resized u64 in
            rret (set_double_sparse_array (first, second) const_expr)
        | Unnamed _ => rret const_expr
        end in
      let! ptr' := tell in
      check! (0 <=? room ptr_end ptr') orelse ParserError in
      rret const_expr
  end.

(** Every nested literal is at least twelve bytes further on, so the buffer bounds the depth. *)
Definition ConstantExpr_ReadAdv (maxbytes : Z) : Reader ConstantExpr := fun cur =>
  ConstantExpr_ReadAdv_fuel (S (length cur)) maxbytes cur.

(** ** Well-formed literals *)

(** A non-null [char *] whose length fits the stored [int32_t]. *)
Definition cstr_ok (p : option bytes) : Prop :=
  match p with Some s => str_ok s ∧ Forall (fun b => b ≠ 0) s | None => False end.

Definition fields_ok (e : ConstantExpr) : Prop :=
  match literal_type_ e with
  | Enumerator (kBoolean | kEmptyArray | kNull | kSubArrayArray) => True
  | Enumerator kDouble => in_range u64 (double_value_ e)
  | Enumerator kString => cstr_ok (str_value_ e)
  | Enumerator kInteger => in_range i64 (integer_value_ e)
  | Enumerator (kDate | kTime | kDateTime | kTimestamp) => cstr_ok (date_value_ e)
  | Enumerator kIntegerArray => Forall (in_range i64) (long_array_ e)
  | Enumerator kDoubleArray => Forall (in_range u64) (double_array_ e)
  | Enumerator kInterval => cenum_wf (interval_type_ e) ∧ in_range i64 (integer_value_ e)
  | Enumerator kLongSparseArray =>
      Forall (in_range i64) (long_sparse_array_ e).1 ∧ Forall (in_range i64) (long_sparse_array_ e).2
  | Enumerator kDoubleSparseArray =>
      Forall (in_range i64) (double_sparse_array_ e).1 ∧ Forall (in_range u64) (double_sparse_array_ e).2
  | Unnamed z => True
  end.

Inductive ConstantExpr_wf : ConstantExpr → Prop :=
| ConstantExpr_wf_intro e :
    cenum_wf (literal_type_ e) → fields_ok e →
    (literal_type_ e = Enumerator kSubArrayArray → Forall ConstantExpr_wf (sub_array_array_ e)) →
    ConstantExpr_wf e.

(** What is stored of a literal: the fields its type selects. *)
Fixpoint ConstantExpr_stored (e : ConstantExpr) : ConstantExpr :=
  let blank := ConstantExpr_new (literal_type_ e) in
  match literal_type_ e with
  | Enumerator kBoolean => set_bool_value (bool_value_ e) blank
  | Enumerator kDouble => set_double_value (double_value_ e) blank
  | Enumerator kString => set_str_value (str_value_ e) blank
  | Enumerator kInteger => set_integer_value (integer_value_ e) blank
  | Enumerator (kEmptyArray | kNull) => blank
  | Enumerator (kDate | kTime | kDateTime | kTimestamp) => set_date_value (date_value_ e) blank
  | Enumerator kIntegerArray => set_long_array (long_array_ e) blank
  | Enumerator kDoubleArray => set_double_array (double_array_ e) blank
  | Enumerator kSubArrayArray =>
      set_sub_array_array (map ConstantExpr_stored (sub_array_array_ e)) blank
  | Enumerator kInterval =>
      set_integer_value (integer_value_ e) (set_interval_type (interval_type_ e) blank)
  | Enumerator kLongSparseArray => set_long_sparse_array (long_sparse_array_ e) blank
  | Enumerator kDoubleSparseArray => set_double_sparse_array (double_sparse_array_ e) blank
  | Unnamed _ => blank
  end.

(** ** Lemmas *)

(** Induction over nested literals. *)
Section ConstantExpr_induction.
Variable P : ConstantExpr → Prop.
Hypothesis step : ∀ e, (∀ x, x ∈ sub_array_array_ e → P x) → P e.

Lemma ConstantExpr_nested_ind e : P e.
Proof using step.
  revert e. fix IH 1. intros [l b i d s u dt la da sa ls ds]. apply step. simpl.
  induction sa as [|x sa IHsa]; [intros x Hx; destruct (not_elem_of_nil x Hx)|].
  intros y [->|Hy]%elem_of_cons; [apply IH | exact (IHsa y Hy)].
Qed.
End ConstantExpr_induction.

Lemma c_str_id s : Forall (fun b => b ≠ 0) s → c_str s = s.
Proof.
  induction 1 as [|b s Hb _ IH]; simpl; [done|]. rewrite (proj2 (Z.eqb_neq b 0) Hb). by f_equal.
Qed.

Lemma zlen_concat_fields t (l : list Z) :
  zlen (concat (map (WriteBufAdv t) l)) = Z.of_nat (sizeof t) * zlen l.
Proof.
  induction l as [|x l IH]; simpl; [by rewrite Z.mul_0_r|]. rewrite zlen_app, zlen_cons, IH.
  rewrite zlen_WriteBufAdv. lia.
Qed.

Lemma zlen_write_vector t l : zlen (write_vector t l) = 8 + Z.of_nat (sizeof t) * zlen l.
Proof. unfold write_vector. rewrite zlen_app, zlen_concat_fields, zlen_WriteBufAdv. done. Qed.
#[export] Hint Rewrite zlen_write_vector : wsize.

Lemma length_u64 {A} (l : list A) : zlen l < 2 ^ 31 → cast u64 (cast i64 (zlen l)) = zlen l.
Proof.
  intros H. pose proof (zlen_nonneg l). rewrite (cast_id i64) by solve_range.
  apply cast_id. solve_range.
Qed.

Lemma read_vector_write t l rest :
  Forall (in_range t) l → zlen l < 2 ^ 31 → read_vector t (write_vector t l ++ rest) = Ok (l, rest).
Proof.
  intros Hl Hn. unfold read_vector, write_vector. read_fields.
  rewrite length_u64 by done. apply rfor_write; [done|].
  intros x Hx r. apply ReadBufAdv_write. by eapply Forall_forall in Hx.
Qed.

Lemma read_vector_resized_write t l rest :
  Forall (in_range t) l → zlen l < 2 ^ 31 →
  read_vector_resized t (write_vector t l ++ rest) = Ok (l, rest).
Proof.
  intros Hl Hn. unfold read_vector_resized, write_vector. read_fields.
  rewrite length_u64 by done. rewrite rbind_check.
  - apply rfor_write; [done|].
    intros x Hx r. apply ReadBufAdv_write. by eapply Forall_forall in Hx.
  - apply Z.leb_le. unfold vector_max_size.
    assert (2 ^ 31 < (2 ^ 63 - 1) / 8) by (vm_compute; done). lia.
Qed.

Lemma write_min_size e bs : ConstantExpr_WriteAdv e = Ok bs → 4 ≤ zlen bs.
Proof.
  intros H. assert (Hh : ∀ x : bytes, 4 ≤ zlen (WriteBufAdv_enum (literal_type_ e) ++ x)).
  { intros x. autorewrite with wsize. simpl. pose proof (zlen_nonneg x). lia. }
  pose proof (Hh []) as H0. rewrite app_nil_r in H0.
  destruct e as [[[]|] b i d s u dt la da sa ls ds]; simpl in *; inv_ok; auto.
Qed.

Lemma write_all_min_size l bs :
  write_all ConstantExpr_WriteAdv l = Ok bs → 4 * zlen l ≤ zlen bs.
Proof.
  revert bs. induction l as [|x l IH]; intros bs; rewrite ?write_all_cons, ?write_all_nil.
  { intros [= <-]. done. }
  intros H. inv_ok. specialize (IH _ H1). apply write_min_size in H0.
  rewrite zlen_app, zlen_cons. lia.
Qed.

Ltac expr_cases e := destruct e as [[[]|?] b i d s u dt la da sa ls ds]; simpl in *.

Lemma ConstantExpr_wf_inv e :
  ConstantExpr_wf e →
  cenum_wf (literal_type_ e) ∧ fields_ok e ∧
  (literal_type_ e = Enumerator kSubArrayArray → ∀ x, x ∈ sub_array_array_ e → ConstantExpr_wf x).
Proof. intros [e' H1 H2 H3]. split_and!; [done..|]. intros ?. by apply Forall_forall, H3. Qed.

Lemma ConstantExpr_WriteAdv_ok e : ConstantExpr_wf e → ∃ bs, ConstantExpr_WriteAdv e = Ok bs.
Proof.
  induction e as [e IH] using ConstantExpr_nested_ind. intros (_ & Hf & Hs)%ConstantExpr_wf_inv.
  expr_cases e; try (eexists; reflexivity).
  all: unfold fields_ok in Hf; simpl in Hf.
  all: try (match type of Hf with cstr_ok ?p => destruct p; [eexists; reflexivity | done] end).
  destruct (write_all_ok ConstantExpr_WriteAdv sa) as [bs ->]; [|eexists; reflexivity].
  apply Forall_forall. intros x Hx. apply IH; [done|]. by apply Hs.
Qed.

(** *** Size *)

Lemma ConstantExpr_size_written e bs :
  ConstantExpr_WriteAdv e = Ok bs → ConstantExpr_GetSizeInBytes e = Ok (cast i32 (zlen bs)).
Proof.
  revert bs. induction e as [e IH] using ConstantExpr_nested_ind. intros bs Hw.
  expr_cases e; inv_ok; unfold string_of in *; repeat (case_match; simplify_eq/=);
    autorewrite with wsize cint; simpl.
  all: try (do 2 f_equal; lia).
  rewrite (fold_size_written ConstantExpr_WriteAdv _ sa x (4 + 8)); [do 2 f_equal; simpl; lia | | done].
  intros y b' acc Hy Hb. rewrite (IH y Hy b' Hb). cbn [res_bind]. by autorewrite with cint.
Qed.

(** *** Round trip *)

Lemma ReadAdv_fuel_write e : ∀ fuel bs maxbytes rest,
  ConstantExpr_wf e → ConstantExpr_WriteAdv e = Ok bs → zlen bs < Z.of_nat fuel →
  zlen bs ≤ maxbytes < 2 ^ 31 →
  ConstantExpr_ReadAdv_fuel fuel maxbytes (bs ++ rest) = Ok (ConstantExpr_stored e, rest).
Proof.
  induction e as [e IH] using ConstantExpr_nested_ind.
  intros [|fuel] bs maxbytes rest (Ht & Hf & Hs)%ConstantExpr_wf_inv Hw Hfuel Hmax; [zlen_facts; lia|].
  cbn [ConstantExpr_ReadAdv_fuel]. unfold fields_ok in Hf.
  expr_cases e; inv_ok; unfold string_of in *; repeat (case_match; simplify_eq/=).
  all: try match type of Hf with _ ∧ _ => destruct Hf end.
  all: try (read_fields; read_room; rewrite ?c_str_id by done; done).
  1,2: rewrite <- app_assoc; read_fields;
    erewrite rbind_step by (apply read_vector_write; [done|wsize_lia]);
    read_fields; read_room; done.
  2,3: rewrite <- !app_assoc; read_fields;
    do 2 (erewrite rbind_step by (apply read_vector_resized_write; [done|wsize_lia]); read_fields);
    read_room; rewrite <- ?surjective_pairing; done.
  pose proof (write_all_min_size _ _ H) as Hmin. rewrite <- !app_assoc. read_fields.
  rewrite length_u64 by wsize_lia.
  rewrite (rbind_step _ _ _ (map ConstantExpr_stored sa) rest); [read_fields; read_room; done|].
  apply (rfor_write_all _ _ ConstantExpr_stored _ _ _ _ H); [done|].
  intros y b' tail Hy Hb Hlen. rewrite rbind_tell, room_id.
  - apply IH; [done | by apply Hs | done | wsize_lia..].
  - apply in_i32. wsize_lia.
Qed.

(** *** Fuel *)

Lemma advances_ReadAdv_fuel fuel maxbytes : advances (ConstantExpr_ReadAdv_fuel fuel maxbytes).
Proof.
  revert maxbytes. induction fuel as [|fuel IH]; intros maxbytes; simpl; [auto with advances|].
  unfold read_vector, read_vector_resized. solve_advances.
Qed.

(** Fuel beyond the length of the buffer changes nothing: the recursion never runs out. *)
Lemma ReadAdv_fuel_enough n1 n2 maxbytes cur :
  (length cur < n1)%nat → (length cur < n2)%nat →
  ConstantExpr_ReadAdv_fuel n1 maxbytes cur = ConstantExpr_ReadAdv_fuel n2 maxbytes cur.
Proof.
  revert n2 maxbytes cur. induction n1 as [|n1 IH]; intros [|n2] maxbytes cur H1 H2; [lia..|].
  cbn [ConstantExpr_ReadAdv_fuel]. rewrite !rbind_tell. apply rbind_ext. intros lt cur1 Hlt.
  apply ReadBufAdv_enum_length in Hlt. simpl in Hlt.
  destruct lt as [[]|]; try done.
  rewrite !rbind_assoc. apply rbind_ext. intros len cur2 Hlen. apply ReadBufAdv_length in Hlen.
  simpl in Hlen. rewrite !rbind_assoc.
  unfold rbind at 1 4. erewrite rfor_ext; [done | |].
  - apply advances_bind; [auto with advances|]. intros. apply advances_ReadAdv_fuel.
  - intros cur' Hc. rewrite !rbind_tell. apply IH; lia.
Qed.

Lemma ConstantExpr_WriteAdv_stored e : ConstantExpr_WriteAdv (ConstantExpr_stored e) = ConstantExpr_WriteAdv e.
Proof.
  induction e as [e IH] using ConstantExpr_nested_ind.
  destruct e as [[[]|z] b i d s u dt la da sa ls ds]; try done. cbn in *.
  rewrite (write_all_map _ ConstantExpr_WriteAdv) by done. by rewrite zlen_map.
Qed.

Lemma ConstantExpr_ReadAdv_write e bs maxbytes rest :
  ConstantExpr_wf e → ConstantExpr_WriteAdv e = Ok bs → zlen bs ≤ maxbytes < 2 ^ 31 →
  ConstantExpr_ReadAdv maxbytes (bs ++ rest) = Ok (ConstantExpr_stored e, rest).
Proof.
  intros. unfold ConstantExpr_ReadAdv. apply ReadAdv_fuel_write; try done.
  unfold zlen. rewrite length_app. lia.
Qed.

(** ** Theorems *)

(** Every literal the parser can build, arrays of arrays to any depth included, is written;
    [GetSizeInBytes] is the number of bytes written (as an [int32_t]); and the bytes read back as
    the literal with the fields its type selects, leaving the rest of the buffer untouched. *)
Theorem constant_expr_codec e (Hwf : ConstantExpr_wf e) :
  ∃ bs, ConstantExpr_WriteAdv e = Ok bs ∧
    ConstantExpr_GetSizeInBytes e = Ok (cast i32 (zlen bs)) ∧
    ∀ maxbytes rest, zlen bs ≤ maxbytes < 2 ^ 31 →
      ConstantExpr_ReadAdv maxbytes (bs ++ rest) = Ok (ConstantExpr_stored e, rest).
Proof.
  destruct (ConstantExpr_WriteAdv_ok e Hwf) as [bs Hbs]. exists bs.
  split_and!; [done | by apply ConstantExpr_size_written |].
  intros. by apply ConstantExpr_ReadAdv_write.
Qed.

Definition nested_literal : ConstantExpr :=
  set_sub_array_array
    [set_long_array [1; -2; 3] (ConstantExpr_new (Enumerator kIntegerArray));
     set_sub_array_array [set_str_value (Some [104; 105]) (ConstantExpr_new (Enumerator kString))]
       (ConstantExpr_new (Enumerator kSubArrayArray))]
    (ConstantExpr_new (Enumerator kSubArrayArray)).

Example constant_expr_codec_witness :
  ∃ bs, ConstantExpr_WriteAdv nested_literal = Ok bs ∧
    ConstantExpr_ReadAdv 70 (bs ++ [7]) = Ok (nested_literal, [7]).
Proof.
  destruct (constant_expr_codec nested_literal) as (bs & H1 & H2 & H3).
  - constructor; [done..|]. intros _. repeat constructor; simpl; try done; try solve_range.
  - exists bs. split; [done|].
    assert (Hl : zlen bs = 70) by (vm_compute in H1; injection H1 as <-; reflexivity).
    rewrite (H3 70 [7]) by lia. reflexivity.
Defined.
