(* ===== verification/DateTime.v ===== *)
(** * Dates and times

    Models [src/src/parser/type/datetime]: [DateType] (days since 1970-01-01), [TimeType] (seconds of
    a day), [DateTimeType] and [IntervalType], their conversion to and from text, and their
    arithmetic.  Signed overflow is an error value; a read of a string past its buffer is
    [OutOfBounds].  The reference the calendar is compared with is the proleptic Gregorian calendar
    by its leap-year formula. *)

From Stdlib Require Import ZArith Lia List.
From stdpp Require Import base list numbers strings.
From S2P Require Import Prelude Bytes Text ConstExpr.
Local Open Scope Z_scope.

(** ** Constants and tables *)

Definition MIN_DATE_YEAR : Z := -1969.
Definition MIN_DATE_MONTH : Z := 1.
Definition MIN_DATE_DAY : Z := 1.
Definition MAX_DATE_YEAR : Z := 9999.
Definition MAX_DATE_MONTH : Z := 12.
Definition MAX_DATE_DAY : Z := 31.
Definition EPOCH_YEAR : Z := 1970.
Definition YEAR_LEAP : Z := 400.
Definition DAYS_PER_YEAR_LEAP : Z := 146097.
Definition DAY_HOUR : Z := 24.
Definition DAY_MINUTE : Z := DAY_HOUR * 60.
Definition DAY_SECOND : Z := DAY_MINUTE * 60.
Definition MINUTE_SECOND : Z := 60.
Definition HOUR_SECOND : Z := 60 * MINUTE_SECOND.

Definition NORMAL_DAYS : list Z :=
  [0; 31; 28; 31; 30; 31; 30; 31; 31; 30; 31; 30; 31].

Definition CUMULATIVE_DAYS : list Z :=
  [0; 31; 59; 90; 120; 151; 181; 212; 243; 273; 304; 334; 365].

Definition LEAP_DAYS : list Z :=
  [0; 31; 29; 31; 30; 31; 30; 31; 31; 30; 31; 30; 31].

Definition CUMULATIVE_LEAP_DAYS : list Z :=
  [0; 31; 60; 91; 121; 152; 182; 213; 244; 274; 305; 335; 366].

Definition MONTH_PER_DAY_OF_YEAR : list Z :=
  [1; 1; 1; 1; 1; 1; 1; 1; 1; 1; 1; 1; 1; 1; 1; 1; 1; 1; 1; 1; 1; 1; 1; 1; 1; 1; 1; 1; 1; 1; 1; 2; 2; 2; 2;
   2; 2; 2; 2; 2; 2; 2; 2; 2; 2; 2; 2; 2; 2; 2; 2; 2; 2; 2; 2; 2; 2; 2; 2; 3; 3; 3; 3; 3; 3; 3; 3; 3; 3; 3;
   3; 3; 3; 3; 3; 3; 3; 3; 3; 3; 3; 3; 3; 3; 3; 3; 3; 3; 3; 3; 4; 4; 4; 4; 4; 4; 4; 4; 4; 4; 4; 4; 4; 4; 4;
   4; 4; 4; 4; 4; 4; 4; 4; 4; 4; 4; 4; 4; 4; 4; 5; 5; 5; 5; 5; 5; 5; 5; 5; 5; 5; 5; 5; 5; 5; 5; 5; 5; 5; 5;
   5; 5; 5; 5; 5; 5; 5; 5; 5; 5; 5; 6; 6; 6; 6; 6; 6; 6; 6; 6; 6; 6; 6; 6; 6; 6; 6; 6; 6; 6; 6; 6; 6; 6; 6;
   6; 6; 6; 6; 6; 6; 7; 7; 7; 7; 7; 7; 7; 7; 7; 7; 7; 7; 7; 7; 7; 7; 7; 7; 7; 7; 7; 7; 7; 7; 7; 7; 7; 7; 7;
   7; 7; 8; 8; 8; 8; 8; 8; 8; 8; 8; 8; 8; 8; 8; 8; 8; 8; 8; 8; 8; 8; 8; 8; 8; 8; 8; 8; 8; 8; 8; 8; 8; 9; 9;
   9; 9; 9; 9; 9; 9; 9; 9; 9; 9; 9; 9; 9; 9; 9; 9; 9; 9; 9; 9; 9; 9; 9; 9; 9; 9; 9; 9; 10; 10; 10; 10; 10;
   10; 10; 10; 10; 10; 10; 10; 10; 10; 10; 10; 10; 10; 10; 10; 10; 10; 10; 10; 10; 10; 10; 10; 10; 10; 10;
   11; 11; 11; 11; 11; 11; 11; 11; 11; 11; 11; 11; 11; 11; 11; 11; 11; 11; 11; 11; 11; 11; 11; 11; 11; 11;
   11; 11; 11; 11; 12; 12; 12; 12; 12; 12; 12; 12; 12; 12; 12; 12; 12; 12; 12; 12; 12; 12; 12; 12; 12; 12;
   12; 12; 12; 12; 12; 12; 12; 12; 12].

Definition LEAP_MONTH_PER_DAY_OF_YEAR : list Z :=
  [1; 1; 1; 1; 1; 1; 1; 1; 1; 1; 1; 1; 1; 1; 1; 1; 1; 1; 1; 1; 1; 1; 1; 1; 1; 1; 1; 1; 1; 1; 1; 2; 2; 2; 2;
   2; 2; 2; 2; 2; 2; 2; 2; 2; 2; 2; 2; 2; 2; 2; 2; 2; 2; 2; 2; 2; 2; 2; 2; 2; 3; 3; 3; 3; 3; 3; 3; 3; 3; 3;
   3; 3; 3; 3; 3; 3; 3; 3; 3; 3; 3; 3; 3; 3; 3; 3; 3; 3; 3; 3; 3; 4; 4; 4; 4; 4; 4; 4; 4; 4; 4; 4; 4; 4; 4;
   4; 4; 4; 4; 4; 4; 4; 4; 4; 4; 4; 4; 4; 4; 4; 4; 5; 5; 5; 5; 5; 5; 5; 5; 5; 5; 5; 5; 5; 5; 5; 5; 5; 5; 5;
   5; 5; 5; 5; 5; 5; 5; 5; 5; 5; 5; 5; 6; 6; 6; 6; 6; 6; 6; 6; 6; 6; 6; 6; 6; 6; 6; 6; 6; 6; 6; 6; 6; 6; 6;
   6; 6; 6; 6; 6; 6; 6; 7; 7; 7; 7; 7; 7; 7; 7; 7; 7; 7; 7; 7; 7; 7; 7; 7; 7; 7; 7; 7; 7; 7; 7; 7; 7; 7; 7;
   7; 7; 7; 8; 8; 8; 8; 8; 8; 8; 8; 8; 8; 8; 8; 8; 8; 8; 8; 8; 8; 8; 8; 8; 8; 8; 8; 8; 8; 8; 8; 8; 8; 8; 9;
   9; 9; 9; 9; 9; 9; 9; 9; 9; 9; 9; 9; 9; 9; 9; 9; 9; 9; 9; 9; 9; 9; 9; 9; 9; 9; 9; 9; 9; 10; 10; 10; 10; 10;
   10; 10; 10; 10; 10; 10; 10; 10; 10; 10; 10; 10; 10; 10; 10; 10; 10; 10; 10; 10; 10; 10; 10; 10; 10; 10;
   11; 11; 11; 11; 11; 11; 11; 11; 11; 11; 11; 11; 11; 11; 11; 11; 11; 11; 11; 11; 11; 11; 11; 11; 11; 11;
   11; 11; 11; 11; 12; 12; 12; 12; 12; 12; 12; 12; 12; 12; 12; 12; 12; 12; 12; 12; 12; 12; 12; 12; 12; 12;
   12; 12; 12; 12; 12; 12; 12; 12; 12].

Definition CUMULATIVE_YEAR_DAYS : list Z :=
  [0; 365; 730; 1096; 1461; 1826; 2191; 2557; 2922; 3287; 3652; 4018; 4383; 4748; 5113; 5479; 5844; 6209;
   6574; 6940; 7305; 7670; 8035; 8401; 8766; 9131; 9496; 9862; 10227; 10592; 10957; 11323; 11688; 12053;
   12418; 12784; 13149; 13514; 13879; 14245; 14610; 14975; 15340; 15706; 16071; 16436; 16801; 17167; 17532;
   17897; 18262; 18628; 18993; 19358; 19723; 20089; 20454; 20819; 21184; 21550; 21915; 22280; 22645; 23011;
   23376; 23741; 24106; 24472; 24837; 25202; 25567; 25933; 26298; 26663; 27028; 27394; 27759; 28124; 28489;
   28855; 29220; 29585; 29950; 30316; 30681; 31046; 31411; 31777; 32142; 32507; 32872; 33238; 33603; 33968;
   34333; 34699; 35064; 35429; 35794; 36160; 36525; 36890; 37255; 37621; 37986; 38351; 38716; 39082; 39447;
   39812; 40177; 40543; 40908; 41273; 41638; 42004; 42369; 42734; 43099; 43465; 43830; 44195; 44560; 44926;
   45291; 45656; 46021; 46387; 46752; 47117; 47482; 47847; 48212; 48577; 48942; 49308; 49673; 50038; 50403;
   50769; 51134; 51499; 51864; 52230; 52595; 52960; 53325; 53691; 54056; 54421; 54786; 55152; 55517; 55882;
   56247; 56613; 56978; 57343; 57708; 58074; 58439; 58804; 59169; 59535; 59900; 60265; 60630; 60996; 61361;
   61726; 62091; 62457; 62822; 63187; 63552; 63918; 64283; 64648; 65013; 65379; 65744; 66109; 66474; 66840;
   67205; 67570; 67935; 68301; 68666; 69031; 69396; 69762; 70127; 70492; 70857; 71223; 71588; 71953; 72318;
   72684; 73049; 73414; 73779; 74145; 74510; 74875; 75240; 75606; 75971; 76336; 76701; 77067; 77432; 77797;
   78162; 78528; 78893; 79258; 79623; 79989; 80354; 80719; 81084; 81450; 81815; 82180; 82545; 82911; 83276;
   83641; 84006; 84371; 84736; 85101; 85466; 85832; 86197; 86562; 86927; 87293; 87658; 88023; 88388; 88754;
   89119; 89484; 89849; 90215; 90580; 90945; 91310; 91676; 92041; 92406; 92771; 93137; 93502; 93867; 94232;
   94598; 94963; 95328; 95693; 96059; 96424; 96789; 97154; 97520; 97885; 98250; 98615; 98981; 99346; 99711;
   100076; 100442; 100807; 101172; 101537; 101903; 102268; 102633; 102998; 103364; 103729; 104094; 104459;
   104825; 105190; 105555; 105920; 106286; 106651; 107016; 107381; 107747; 108112; 108477; 108842; 109208;
   109573; 109938; 110303; 110669; 111034; 111399; 111764; 112130; 112495; 112860; 113225; 113591; 113956;
   114321; 114686; 115052; 115417; 115782; 116147; 116513; 116878; 117243; 117608; 117974; 118339; 118704;
   119069; 119435; 119800; 120165; 120530; 120895; 121260; 121625; 121990; 122356; 122721; 123086; 123451;
   123817; 124182; 124547; 124912; 125278; 125643; 126008; 126373; 126739; 127104; 127469; 127834; 128200;
   128565; 128930; 129295; 129661; 130026; 130391; 130756; 131122; 131487; 131852; 132217; 132583; 132948;
   133313; 133678; 134044; 134409; 134774; 135139; 135505; 135870; 136235; 136600; 136966; 137331; 137696;
   138061; 138427; 138792; 139157; 139522; 139888; 140253; 140618; 140983; 141349; 141714; 142079; 142444;
   142810; 143175; 143540; 143905; 144271; 144636; 145001; 145366; 145732; 146097].

(** ** Dates *)

Definition IsLeapYear (year : Z) : bool :=
  (Z.rem year 4 =? 0) && (negb (Z.rem year 100 =? 0) || (Z.rem year 400 =? 0)).

Definition IsDateValid (year month day : Z) : result bool :=
  if (year <? MIN_DATE_YEAR)
     || ((year =? MIN_DATE_YEAR) && ((month <? MIN_DATE_MONTH) || ((month =? MIN_DATE_MONTH) && (day <? MIN_DATE_DAY))))
  then Ok false
  else if (MAX_DATE_YEAR <? year)
     || ((year =? MAX_DATE_YEAR) && ((MAX_DATE_MONTH <? month) || ((month =? MAX_DATE_MONTH) && (MAX_DATE_DAY <? day))))
  then Ok false
  else if (month <? 1) || (12 <? month) then Ok false
  else if day <? 1 then Ok false
  else
    let? days := array_at (if IsLeapYear year then LEAP_DAYS else NORMAL_DAYS) month in
    Ok (day <=? days).

(** The value of the date, or [None] for [false]. *)
Definition YMD2Date (year month day : Z) : result (option Z) :=
  let? valid := IsDateValid year month day in
  if negb valid then Ok None
  else
    let? before := array_at (if IsLeapYear year then CUMULATIVE_LEAP_DAYS else CUMULATIVE_DAYS) (month - 1) in
    let? result := int32 (before + (day - 1)) in
    if year <? 1970 then
      let? diff_from_base := int32 (1970 - year) in
      let year_index := 400 - Z.rem diff_from_base 400 in
      let fractions := Z.quot diff_from_base 400 in
      let? days := array_at CUMULATIVE_YEAR_DAYS year_index in
      let? result := int32 (result + days) in
      let? result := int32 (result - DAYS_PER_YEAR_LEAP) in
      let? all := int32 (fractions * DAYS_PER_YEAR_LEAP) in
      let? result := int32 (result - all) in
      Ok (Some result)
    else if 2370 <=? year then
      let diff_from_base := year - 2370 in
      let year_index := Z.rem diff_from_base 400 in
      let fractions := Z.quot diff_from_base 400 in
      let? days := array_at CUMULATIVE_YEAR_DAYS year_index in
      let? result := int32 (result + days) in
      let? result := int32 (result + DAYS_PER_YEAR_LEAP) in
      let? all := int32 (fractions * DAYS_PER_YEAR_LEAP) in
      let? result := int32 (result + all) in
      Ok (Some result)
    else
      let? days := array_at CUMULATIVE_YEAR_DAYS (year - 1970) in
      let? result := int32 (result + days) in
      Ok (Some result).

(** The three loops of [Date2YMD]. *)
Fixpoint days_up (fuel : nat) (days year : Z) : result (Z * Z) :=
  if days <? 0 then
    match fuel with
    | O => Err OutOfFuel
    | S fuel' =>
        let? days := int32 (days + DAYS_PER_YEAR_LEAP) in
        let? year := int32 (year - YEAR_LEAP) in
        days_up fuel' days year
    end
  else Ok (days, year).

Fixpoint days_down (fuel : nat) (days year : Z) : result (Z * Z) :=
  if DAYS_PER_YEAR_LEAP <=? days then
    match fuel with
    | O => Err OutOfFuel
    | S fuel' =>
        let? days := int32 (days - DAYS_PER_YEAR_LEAP) in
        let? year := int32 (year + YEAR_LEAP) in
        days_down fuel' days year
    end
  else Ok (days, year).

Fixpoint find_year (fuel : nat) (days year_offset : Z) : result Z :=
  let? before := array_at CUMULATIVE_YEAR_DAYS year_offset in
  if days <? before then
    match fuel with
    | O => Err OutOfFuel
    | S fuel' => find_year fuel' days (year_offset - 1)
    end
  else Ok year_offset.

(** Rounds of 400 years, and of one year within them, that are enough for every [int32_t]. *)
Definition rounds : nat := Z.to_nat 14700.

Definition Date2YMD (days : Z) : result (option (Z * Z * Z)) :=
  let? '(days, year) := days_up rounds days EPOCH_YEAR in
  let? '(days, year) := days_down rounds days year in
  let? year_offset := find_year 400 days (Z.quot days 365) in
  let? year := int32 (year + year_offset) in
  let? before := array_at CUMULATIVE_YEAR_DAYS year_offset in
  let day := days - before in
  let? month := array_at (if IsLeapYear year then LEAP_MONTH_PER_DAY_OF_YEAR else MONTH_PER_DAY_OF_YEAR) day in
  let? before := array_at (if IsLeapYear year then CUMULATIVE_LEAP_DAYS else CUMULATIVE_DAYS) (month - 1) in
  let day := day - before + 1 in
  let? valid := IsDateValid year month day in
  Ok (if valid then Some (year, month, day) else None).

(** *** Text of dates *)

(** [std::format("{:0<width>d}", z)]: zeros go between the sign and the digits. *)
Definition format_0d (width : nat) (z : Z) : bytes :=
  let sign := if z <? 0 then [45] else [] in
  let digits := print_u64 (Z.abs z) in
  sign ++ replicate (width - length sign - length digits) 48 ++ digits.

Definition DateType_ToString (value : Z) : result bytes :=
  let? ymd := Date2YMD value in
  match ymd with
  | None => Err ParserError
  | Some (year, month, day) => Ok (format_0d 4 year ++ 45 :: format_0d 2 month ++ 45 :: format_0d 2 day)
  end.

(** A position in a string: its index and the memory from there on. *)
Notation Cursor := (Z * bytes)%type.

(** [ptr[pos]]. *)
Definition peek (c : Cursor) : result Z := match c.2 with b :: _ => Ok b | [] => Err OutOfBounds end.
Definition advance (c : Cursor) : Cursor := (c.1 + 1, tail c.2).

(** [while (pos < length && std::isspace(ptr[pos])) ++pos]; [n] is [length - pos]. *)
Fixpoint skip_while (test : Z → bool) (n : nat) (c : Cursor) : result Cursor :=
  match n with
  | O => Ok c
  | S n' => let? b := peek c in if test b then skip_while test n' (advance c) else Ok c
  end.

(** The digits of a number that must not exceed [max]; [None] is the early [return false]. *)
Fixpoint read_number (max acc : Z) (n : nat) (c : Cursor) : result (option (Z * Cursor)) :=
  match n with
  | O => Ok (Some (acc, c))
  | S n' =>
      let? b := peek c in
      if is_digit b then
        let acc := acc * 10 + (b - 48) in
        if max <? acc then Ok None else read_number max acc n' (advance c)
      else Ok (Some (acc, c))
  end.

Definition left (length : Z) (c : Cursor) : nat := Z.to_nat (length - c.1).

(** [if (!f(...)) return false]. *)
Definition opt_bind {A B} (m : result (option A)) (k : A → result (option B)) : result (option B) :=
  let? o := m in match o with None => Ok None | Some a => k a end.

Notation "'let*' x := m 'in' k" := (opt_bind m (fun x => k)) (at level 200, x binder, k at level 200).

(** A separator; [None] when it is another character. *)
Definition separator (test : Z → bool) (c : Cursor) : result (option Cursor) :=
  let? b := peek c in Ok (if test b then Some (advance c) else None).

Definition date_separator (b : Z) : bool := (b =? 45) || (b =? 47).

(** The date and the length of what was read. *)
Definition DateType_ConvertFromString (date_ptr : bytes) (length : Z) : result (option (Z * Z)) :=
  let c := (0, date_ptr) in
  let? c := skip_while is_space (left length c) c in
  let? b := peek c in
  let negative_year := b =? 45 in
  let c := if negative_year then advance c else c in
  let* '(year, c) := read_number 9999 0 (left length c) c in
  let year := if negative_year then - year else year in
  let* c := separator date_separator c in
  let* '(month, c) := read_number 12 0 (left length c) c in
  let* c := separator date_separator c in
  let* '(day, c) := read_number 31 0 (left length c) c in
  let* date := YMD2Date year month day in
  Ok (Some (date, c.1)).

Definition DateType_FromString (date_ptr : bytes) (length : Z) : result (Z * Z) :=
  let? r := DateType_ConvertFromString date_ptr length in
  match r with None => Err ParserError | Some d => Ok d end.

(** *** Arithmetic on dates *)

Record IntervalType := mkInterval { unit_ : cenum TimeUnit; value_ : Z }.

(** The new value; [None] for [false]. *)
Definition DateType_Add (input : Z) (interval : IntervalType) : result (option Z) :=
  match unit_ interval with
  | Enumerator kYear =>
      let* '(year, month, day) := Date2YMD input in
      let? year := int32 (year + value_ interval) in
      YMD2Date year month day
  | Enumerator kMonth =>
      let* '(year, month, day) := Date2YMD input in
      let? month := int32 (month + value_ interval) in
      let? '(year, month) :=
        if 12 <? month then
          let? year := int32 (year + Z.quot (month - 1) 12) in Ok (year, 1 + Z.rem (month - 1) 12)
        else if month <? 1 then
          let? m12 := int32 (month - 12) in
          let? year := int32 (year + Z.quot m12 12) in Ok (year, 12 + Z.rem m12 12)
        else Ok (year, month) in
      let? days := array_at (if IsLeapYear year then LEAP_DAYS else NORMAL_DAYS) month in
      YMD2Date year month (Z.min day days)
  | Enumerator kDay => let? d := int32 (input + value_ interval) in Ok (Some d)
  | Enumerator kHour => let? d := int32 (input + Z.quot (value_ interval) DAY_HOUR) in Ok (Some d)
  | Enumerator kMinute => let? d := int32 (input + Z.quot (value_ interval) DAY_MINUTE) in Ok (Some d)
  | Enumerator kSecond => let? d := int32 (input + Z.quot (value_ interval) DAY_SECOND) in Ok (Some d)
  | Enumerator kInvalidUnit => Err ParserError
  | _ => Ok None
  end.

Definition negated (interval : IntervalType) : result IntervalType :=
  let? v := int32 (- value_ interval) in Ok (mkInterval (unit_ interval) v).

Definition DateType_Subtract (input : Z) (interval : IntervalType) : result (option Z) :=
  let? interval := negated interval in DateType_Add input interval.

Definition GetDatePart (input : Z) (unit : cenum TimeUnit) : result Z :=
  let? ymd := Date2YMD input in
  match ymd with
  | None => Err ParserError
  | Some (year, month, day) =>
      match unit with
      | Enumerator kYear => Ok year
      | Enumerator kMonth => Ok month
      | Enumerator kDay => Ok day
      | _ => Err ParserError
      end
  end.

(** ** Times of day *)

Definition IsTimeValid (hour minute second : Z) : bool :=
  (0 <=? hour) && (hour <=? 23) && (0 <=? minute) && (minute <=? 59) && (0 <=? second) && (second <=? 59).

Definition HMS2Time (hour minute second : Z) : result (option Z) :=
  if negb (IsTimeValid hour minute second) then Ok None
  else
    let? v := int32 (hour * HOUR_SECOND + minute * MINUTE_SECOND + second) in
    Ok (Some v).

Definition Time2HMS (seconds : Z) : option (Z * Z * Z) :=
  if (seconds <? 0) || (DAY_SECOND <=? seconds) then None
  else
    let hour := Z.quot seconds HOUR_SECOND in
    let seconds := Z.rem seconds HOUR_SECOND in
    Some (hour, Z.quot seconds MINUTE_SECOND, Z.rem seconds MINUTE_SECOND).

Definition TimeType_ToString (value : Z) : result bytes :=
  match Time2HMS value with
  | None => Err ParserError
  | Some (hour, minute, second) => Ok (format_0d 2 hour ++ 58 :: format_0d 2 minute ++ 58 :: format_0d 2 second)
  end.

Definition TimeType_ConvertFromString (time_ptr : bytes) (length : Z) : result (option Z) :=
  let c := (0, time_ptr) in
  let? c := skip_while is_space (left length c) c in
  let* '(hour, c) := read_number 23 0 (left length c) c in
  let* c := separator (Z.eqb 58) c in
  let* '(minute, c) := read_number 59 0 (left length c) c in
  let* c := separator (Z.eqb 58) c in
  let* '(second, c) := read_number 59 0 (left length c) c in
  HMS2Time hour minute second.

Definition TimeType_FromString (time_ptr : bytes) (length : Z) : result Z :=
  let? r := TimeType_ConvertFromString time_ptr length in
  match r with None => Err ParserError | Some t => Ok t end.

(** The sum in seconds of the day, and the days carried over; both overloads of [Add] compute it,
    and the one without [overflow_days] drops the second part. *)
Definition add_seconds (input value product : Z) : result (Z * Z) :=
  let? seconds := int32 (value * product) in
  let? tot := int32 (input + seconds) in
  let res := Z.rem (Z.rem tot DAY_SECOND + DAY_SECOND) DAY_SECOND in
  let? diff := int32 (tot - res) in
  Ok (res, Z.quot diff DAY_SECOND).

Definition TimeType_Add_overflow (input : Z) (interval : IntervalType) : result (option (Z * Z)) :=
  match unit_ interval with
  | Enumerator kYear | Enumerator kMonth | Enumerator kDay => Ok (Some (input, 0))
  | Enumerator kHour => let? r := add_seconds input (value_ interval) HOUR_SECOND in Ok (Some r)
  | Enumerator kMinute => let? r := add_seconds input (value_ interval) MINUTE_SECOND in Ok (Some r)
  | Enumerator kSecond => let? r := add_seconds input (value_ interval) 1 in Ok (Some r)
  | Enumerator kInvalidUnit => Err ParserError
  | _ => Ok None
  end.

Definition TimeType_Add (input : Z) (interval : IntervalType) : result (option Z) :=
  let calc product :=
    let? seconds := int32 (value_ interval * product) in
    let? tot := int32 (input + seconds) in
    Ok (Some (Z.rem (Z.rem tot DAY_SECOND + DAY_SECOND) DAY_SECOND)) in
  match unit_ interval with
  | Enumerator kYear | Enumerator kMonth | Enumerator kDay => Ok (Some input)
  | Enumerator kHour => calc HOUR_SECOND
  | Enumerator kMinute => calc MINUTE_SECOND
  | Enumerator kSecond => calc 1
  | Enumerator kInvalidUnit => Err ParserError
  | _ => Ok None
  end.

Definition TimeType_Subtract (input : Z) (interval : IntervalType) : result (option Z) :=
  let? interval := negated interval in TimeType_Add input interval.

Definition GetTimePart (input : Z) (unit : cenum TimeUnit) : result Z :=
  match Time2HMS input with
  | None => Err ParserError
  | Some (hour, minute, second) =>
      match unit with
      | Enumerator kHour => Ok hour
      | Enumerator kMinute => Ok minute
      | Enumerator kSecond => Ok second
      | _ => Err ParserError
      end
  end.

(** ** Dates with times *)

Record DateTimeType := mkDateTime { date_ : Z; time_ : Z }.

(** From seconds since 1970-01-01 00:00:00, a 64-bit number. *)
Definition DateTimeType_of_epoch (epoch_time : Z) : result DateTimeType :=
  let seconds := Z.rem epoch_time DAY_SECOND in
  let seconds := if seconds <? 0 then seconds + DAY_SECOND else seconds in
  if decide (in_range i64 (epoch_time - seconds)) then
    Ok (mkDateTime (cast i32 (Z.quot (epoch_time - seconds) DAY_SECOND)) seconds)
  else Err SignedOverflow.

(** The product is one of two 32-bit numbers. *)
Definition GetEpochTime (this : DateTimeType) : result Z :=
  let? seconds := int32 (date_ this * DAY_SECOND) in
  int32 (seconds + time_ this).

Definition DateTimeType_ToString (this : DateTimeType) : result bytes :=
  let? date := DateType_ToString (date_ this) in
  let? time := TimeType_ToString (time_ this) in
  Ok (date ++ 32 :: time).

Definition DateTimeType_FromString (datetime_ptr : bytes) (length : Z) : result DateTimeType :=
  let? '(date, date_length) := DateType_FromString datetime_ptr length in
  let c := (date_length, drop (Z.to_nat date_length) datetime_ptr) in
  let? '(date_length, rest) := skip_while (Z.eqb 32) (left length c) c in
  if date_length <? length then
    let? time := TimeType_FromString rest (length - date_length) in
    Ok (mkDateTime date time)
  else Ok (mkDateTime date 0).

(** A date that cannot be moved stays as it is: the result of [DateType::Add] is not looked at. *)
Definition moved_date (date : Z) (interval : IntervalType) : result Z :=
  let? r := DateType_Add date interval in Ok (default date r).

Definition DateTimeType_Add (input : DateTimeType) (interval : IntervalType) : result (option DateTimeType) :=
  match unit_ interval with
  | Enumerator kYear | Enumerator kMonth | Enumerator kDay =>
      let? date := moved_date (date_ input) interval in
      Ok (Some (mkDateTime date (time_ input)))
  | Enumerator kHour | Enumerator kMinute | Enumerator kSecond =>
      let? r := TimeType_Add_overflow (time_ input) interval in
      let '(time, overflow_days) := default (time_ input, 0) r in
      let? date :=
        if negb (overflow_days =? 0) then moved_date (date_ input) (mkInterval (Enumerator kDay) overflow_days)
        else Ok (date_ input) in
      Ok (Some (mkDateTime date time))
  | Enumerator kInvalidUnit => Err ParserError
  | _ => Ok None
  end.

Definition DateTimeType_Subtract (input : DateTimeType) (interval : IntervalType) : result (option DateTimeType) :=
  let? interval := negated interval in DateTimeType_Add input interval.

Definition GetDateTimePart (input : DateTimeType) (unit : cenum TimeUnit) : result Z :=
  match unit with
  | Enumerator kYear | Enumerator kMonth | Enumerator kDay => GetDatePart (date_ input) unit
  | Enumerator kHour | Enumerator kMinute | Enumerator kSecond => GetTimePart (time_ input) unit
  | _ => Err ParserError
  end.

(** ** The reference calendar *)

Definition leap (y : Z) : bool := (y mod 4 =? 0) && (negb (y mod 100 =? 0) || (y mod 400 =? 0)).

(** Leap years before [y], up to a constant. *)
Definition leaps (y : Z) : Z := (y - 1) / 4 - (y - 1) / 100 + (y - 1) / 400.

Definition days_before_year (y : Z) : Z := 365 * (y - 1970) + (leaps y - leaps 1970).

Definition month_length (l : bool) (m : Z) : Z :=
  if m =? 2 then (if l then 29 else 28) else if (m =? 4) || (m =? 6) || (m =? 9) || (m =? 11) then 30 else 31.

Definition days_before_month (l : bool) (m : Z) : Z :=
  Zsum (map (fun i => month_length l (Z.of_nat i)) (seq 1 (Z.to_nat (m - 1)))).

(** The day number of a date, with 1970-01-01 as day 0. *)
Definition civil_to_days (y m d : Z) : Z := days_before_year y + days_before_month (leap y) m + (d - 1).

Definition valid_civil (y m d : Z) : Prop :=
  MIN_DATE_YEAR ≤ y ≤ MAX_DATE_YEAR ∧ 1 ≤ m ≤ 12 ∧ 1 ≤ d ≤ month_length (leap y) m.

#[export] Instance valid_civil_dec y m d : Decision (valid_civil y m d).
Proof. unfold valid_civil. apply _. Defined.

(** The dates from 0001-01-01 to 9999-12-31. *)
Definition common_date (y m d : Z) : Prop := 1 ≤ y ≤ 9999 ∧ 1 ≤ m ≤ 12 ∧ 1 ≤ d ≤ month_length (leap y) m.

#[export] Instance common_date_dec y m d : Decision (common_date y m d).
Proof. unfold common_date. apply _. Defined.

(** ** Lemmas: the calendar *)

Lemma rem_zero_mod a n : 0 < n → (Z.rem a n =? 0) = (a mod n =? 0).
Proof.
  intros Hn. apply eq_true_iff_eq. rewrite !Z.eqb_eq, Z.rem_divide, Z.mod_divide by lia. done.
Qed.

Lemma IsLeapYear_leap y : IsLeapYear y = leap y.
Proof. unfold IsLeapYear, leap. by rewrite !rem_zero_mod by lia. Qed.

Lemma days_before_year_period y k : days_before_year (y + 400 * k) = days_before_year y + 146097 * k.
Proof. unfold days_before_year, leaps. div_lia. Qed.

Lemma leap_period y k : leap (y + 400 * k) = leap y.
Proof.
  unfold leap. rewrite (Z.mul_comm 400 k).
  replace ((y + k * 400) mod 4) with (y mod 4) by div_lia.
  replace ((y + k * 400) mod 100) with (y mod 100) by div_lia.
  by rewrite Z_mod_plus_full.
Qed.

Lemma year_length y : days_before_year (y + 1) = days_before_year y + 365 + (if leap y then 1 else 0).
Proof.
  unfold days_before_year, leaps, leap.
  destruct (Z.eqb_spec (y mod 4) 0), (Z.eqb_spec (y mod 100) 0), (Z.eqb_spec (y mod 400) 0); simpl; div_lia.
Qed.

Lemma years_apart y k : 0 ≤ k → days_before_year y + 365 * k ≤ days_before_year (y + k).
Proof.
  intros Hk. rewrite <- (Z2Nat.id k) by lia. generalize (Z.to_nat k). clear k Hk.
  induction n as [|n IH]; [change (Z.of_nat 0) with 0; rewrite (Z.add_0_r y); lia|].
  rewrite Nat2Z.inj_succ. replace (y + Z.succ (Z.of_nat n)) with (y + Z.of_nat n + 1) by lia.
  rewrite year_length. destruct (leap _); lia.
Qed.

(** A check of a table, entry by entry. *)
Lemma table_check (l : list Z) (f : Z → Z → bool) n :
  length l = n → forallb (fun i => match l !! i with Some v => f (Z.of_nat i) v | None => false end) (seq 0 n) = true →
  ∀ i, 0 ≤ i < Z.of_nat n → ∃ v, array_at l i = Ok v ∧ f i v = true.
Proof.
  intros Hl Hf i Hi. rewrite forallb_forall in Hf. specialize (Hf (Z.to_nat i)).
  rewrite in_seq in Hf. specialize (Hf ltac:(lia)). unfold array_at. rewrite decide_True by lia.
  destruct (l !! Z.to_nat i) as [v|]; [|done]. exists v. rewrite Z2Nat.id in Hf by lia. done.
Qed.

Lemma year_table i : 0 ≤ i ≤ 400 → array_at CUMULATIVE_YEAR_DAYS i = Ok (days_before_year (1970 + i)).
Proof.
  intros Hi. destruct (table_check CUMULATIVE_YEAR_DAYS (fun i v => v =? days_before_year (1970 + i)) 401 eq_refl
    ltac:(by vm_compute) i ltac:(lia)) as (v & Hv & He). apply Z.eqb_eq in He. by subst.
Qed.

Lemma month_days_table (l : bool) m : 1 ≤ m ≤ 12 → array_at (if l then LEAP_DAYS else NORMAL_DAYS) m = Ok (month_length l m).
Proof.
  intros Hm. destruct (table_check (if l then LEAP_DAYS else NORMAL_DAYS)
    (fun i v => (i =? 0) || (v =? month_length l i)) 13 ltac:(by destruct l) ltac:(by destruct l; vm_compute) m ltac:(lia))
    as (v & Hv & He).
  destruct (Z.eqb_spec m 0); [lia|]. apply Z.eqb_eq in He. by subst.
Qed.

Lemma month_before_table (l : bool) m :
  1 ≤ m ≤ 13 → array_at (if l then CUMULATIVE_LEAP_DAYS else CUMULATIVE_DAYS) (m - 1) = Ok (days_before_month l m).
Proof.
  intros Hm. destruct (table_check (if l then CUMULATIVE_LEAP_DAYS else CUMULATIVE_DAYS)
    (fun i v => v =? days_before_month l (i + 1)) 13 ltac:(by destruct l) ltac:(by destruct l; vm_compute) (m - 1) ltac:(lia))
    as (v & Hv & He).
  apply Z.eqb_eq in He. subst. rewrite Hv. do 2 f_equal. lia.
Qed.

Lemma month_of_day_table (l : bool) x :
  0 ≤ x < 365 + (if l then 1 else 0) →
  ∃ m, array_at (if l then LEAP_MONTH_PER_DAY_OF_YEAR else MONTH_PER_DAY_OF_YEAR) x = Ok m ∧
    1 ≤ m ≤ 12 ∧ days_before_month l m ≤ x < days_before_month l m + month_length l m.
Proof.
  intros Hx. destruct (table_check (if l then LEAP_MONTH_PER_DAY_OF_YEAR else MONTH_PER_DAY_OF_YEAR)
    (fun x m => (1 <=? m) && (m <=? 12) && (days_before_month l m <=? x) && (x <? days_before_month l m + month_length l m))
    (if l then 366 else 365)%nat ltac:(by destruct l) ltac:(by destruct l; vm_compute) x ltac:(destruct l; lia)) as (m & Hm & Hb).
  exists m. split; [done|]. lia.
Qed.

Lemma days_before_month_succ l m : 1 ≤ m → days_before_month l (m + 1) = days_before_month l m + month_length l m.
Proof.
  intros Hm. unfold days_before_month. replace (Z.to_nat (m + 1 - 1)) with (S (Z.to_nat (m - 1))) by lia.
  rewrite seq_S, map_app, Zsum_app. simpl. rewrite Z.add_0_r. do 2 f_equal. lia.
Qed.

Lemma month_length_range l m : 28 ≤ month_length l m ≤ 31.
Proof. unfold month_length. repeat case_match; lia. Qed.

Lemma days_before_month_mono l m m' : 1 ≤ m < m' → days_before_month l m + month_length l m ≤ days_before_month l m'.
Proof.
  intros [Hm Hlt]. replace m' with (m + 1 + Z.of_nat (Z.to_nat (m' - m - 1))) by lia.
  induction (Z.to_nat (m' - m - 1)) as [|n IH]; [rewrite Z.add_0_r, days_before_month_succ by lia; lia|].
  replace (m + 1 + Z.of_nat (S n)) with (m + 1 + Z.of_nat n + 1) by lia.
  rewrite (days_before_month_succ l (m + 1 + Z.of_nat n)) by lia. pose proof (month_length_range l (m + 1 + Z.of_nat n)). lia.
Qed.

Lemma day_of_year_range (l : bool) m d :
  1 ≤ m ≤ 12 → 1 ≤ d ≤ month_length l m →
  0 ≤ days_before_month l m + (d - 1) < 365 + (if l then 1 else 0).
Proof.
  intros Hm Hd. assert (H1 : days_before_month l 1 = 0) by done.
  assert (H13 : days_before_month l 13 = 365 + (if l then 1 else 0)) by (by destruct l).
  pose proof (days_before_month_mono l m 13 ltac:(lia)).
  destruct (decide (m = 1)) as [->|]; [lia|]. pose proof (days_before_month_mono l 1 m ltac:(lia)).
  pose proof (month_length_range l 1). lia.
Qed.

(** A day number determines its date. *)
Lemma civil_inj y m d y' m' d' :
  1 ≤ m ≤ 12 → 1 ≤ d ≤ month_length (leap y) m → 1 ≤ m' ≤ 12 → 1 ≤ d' ≤ month_length (leap y') m' →
  civil_to_days y m d = civil_to_days y' m' d' → y = y' ∧ m = m' ∧ d = d'.
Proof.
  intros Hm Hd Hm' Hd' H. unfold civil_to_days in H.
  pose proof (day_of_year_range (leap y) m d Hm Hd) as R. pose proof (day_of_year_range (leap y') m' d' Hm' Hd') as R'.
  assert (y = y') as <-.
  { destruct (Z.lt_trichotomy y y') as [Hlt|[?|Hlt]]; [|done|].
    - pose proof (years_apart (y + 1) (y' - (y + 1)) ltac:(lia)) as Ha.
      replace (y + 1 + (y' - (y + 1))) with y' in Ha by lia. rewrite year_length in Ha. lia.
    - pose proof (years_apart (y' + 1) (y - (y' + 1)) ltac:(lia)) as Ha.
      replace (y' + 1 + (y - (y' + 1))) with y in Ha by lia. rewrite year_length in Ha. lia. }
  split; [done|]. assert (m = m') as <-; [|lia].
  destruct (Z.lt_trichotomy m m') as [Hlt|[?|Hlt]]; [|done|].
  - pose proof (days_before_month_mono (leap y) m m' ltac:(lia)). lia.
  - pose proof (days_before_month_mono (leap y) m' m ltac:(lia)). lia.
Qed.

Lemma IsDateValid_civil y m d : IsDateValid y m d = Ok (bool_decide (valid_civil y m d)).
Proof.
  unfold IsDateValid. rewrite IsLeapYear_leap.
  destruct (decide (valid_civil y m d)) as [Hv|Hv]; [rewrite bool_decide_eq_true_2 by done|rewrite bool_decide_eq_false_2 by done].
  - destruct Hv as (Hy & Hm & Hd). unfold MIN_DATE_YEAR, MAX_DATE_YEAR, MIN_DATE_MONTH, MIN_DATE_DAY, MAX_DATE_MONTH, MAX_DATE_DAY in *.
    pose proof (month_length_range (leap y) m).
    repeat match goal with |- context [if ?b then _ else _] => replace b with false by lia end || rewrite month_days_table by lia.
    simpl. f_equal. lia.
  - unfold valid_civil, MIN_DATE_YEAR, MAX_DATE_YEAR, MIN_DATE_MONTH, MIN_DATE_DAY, MAX_DATE_MONTH, MAX_DATE_DAY in *.
    destruct (_ || _) eqn:E1; [done|]. destruct (_ || _) eqn:E2 in |- *; [done|].
    destruct (_ || _) eqn:E3 in |- *; [done|]. destruct (_ <? _) eqn:E4 in |- *; [done|].
    rewrite month_days_table by lia. simpl. f_equal. lia.
Qed.

(** Day numbers of valid dates are far inside [int32_t]. *)
Lemma days_before_year_range y : -2000 ≤ y ≤ 10000 → -2000000 ≤ days_before_year y ≤ 4000000.
Proof. intros Hy. unfold days_before_year, leaps. div_lia. Qed.

Lemma civil_range y m d : valid_civil y m d → -2000000 ≤ civil_to_days y m d ≤ 4000400.
Proof.
  intros (Hy & Hm & Hd). unfold MIN_DATE_YEAR, MAX_DATE_YEAR in Hy. unfold civil_to_days.
  pose proof (days_before_year_range y ltac:(lia)). pose proof (day_of_year_range (leap y) m d Hm Hd). destruct (leap y); lia.
Qed.

Ltac int32_steps := repeat (rewrite int32_ok by (unfold DAYS_PER_YEAR_LEAP in *; solve_range); cbn [res_bind]).

Lemma YMD2Date_civil y m d :
  YMD2Date y m d = Ok (if decide (valid_civil y m d) then Some (civil_to_days y m d) else None).
Proof.
  unfold YMD2Date. rewrite IsDateValid_civil. cbn [res_bind]. destruct (decide (valid_civil y m d)) as [Hv|Hv].
  2: by rewrite bool_decide_eq_false_2.
  rewrite bool_decide_eq_true_2 by done. cbn [negb]. rewrite IsLeapYear_leap.
  pose proof (civil_range y m d Hv) as Hr. destruct Hv as (Hy & Hm & Hd). unfold MIN_DATE_YEAR, MAX_DATE_YEAR in Hy.
  pose proof (day_of_year_range (leap y) m d Hm Hd) as Hdoy. unfold civil_to_days in *.
  assert (Hl : 365 + (if leap y then 1 else 0) ≤ 366) by (destruct (leap y); lia).
  rewrite month_before_table by lia. cbn [res_bind]. int32_steps.
  assert (Htable : ∀ i, 0 ≤ i ≤ 400 → 0 ≤ days_before_year (1970 + i) ≤ 146097).
  { intros i Hi. unfold days_before_year, leaps. div_lia. }
  destruct (Z.ltb_spec y 1970); [|destruct (Z.leb_spec 2370 y)].
  - int32_steps. rewrite Z.rem_mod_nonneg, Z.quot_div_nonneg by lia.
    pose proof (Z.mod_pos_bound (1970 - y) 400 ltac:(lia)). pose proof (Z.div_mod (1970 - y) 400 ltac:(lia)).
    set (q := (1970 - y) / 400) in *. set (i := 400 - (1970 - y) mod 400) in *.
    assert (0 ≤ q ≤ 10) by (unfold q; div_lia).
    rewrite year_table by lia. cbn [res_bind]. pose proof (Htable i ltac:(lia)).
    pose proof (days_before_year_period (1970 + i) (- (q + 1))) as Hp.
    replace (1970 + i + 400 * - (q + 1)) with y in Hp by lia. int32_steps. do 2 f_equal. unfold DAYS_PER_YEAR_LEAP. lia.
  - rewrite Z.rem_mod_nonneg, Z.quot_div_nonneg by lia.
    pose proof (Z.mod_pos_bound (y - 2370) 400 ltac:(lia)). pose proof (Z.div_mod (y - 2370) 400 ltac:(lia)).
    set (q := (y - 2370) / 400) in *. set (i := (y - 2370) mod 400) in *.
    assert (0 ≤ q ≤ 20) by (unfold q; div_lia).
    rewrite year_table by lia. cbn [res_bind]. pose proof (Htable i ltac:(lia)).
    pose proof (days_before_year_period (1970 + i) (q + 1)) as Hp.
    replace (1970 + i + 400 * (q + 1)) with y in Hp by lia. int32_steps. do 2 f_equal. unfold DAYS_PER_YEAR_LEAP. lia.
  - rewrite year_table by lia. cbn [res_bind]. replace (1970 + (y - 1970)) with y by lia. int32_steps. do 2 f_equal. lia.
Qed.

(** *** [Date2YMD] *)

Lemma days_up_spec fuel : ∀ days year,
  in_range i32 days → - 146097 * Z.of_nat fuel ≤ days → -2000000000 + 400 * Z.of_nat fuel ≤ year ≤ 2000000000 →
  days_up fuel days year = Ok (if days <? 0 then (days mod 146097, year + 400 * (days / 146097)) else (days, year)).
Proof.
  induction fuel as [|fuel IH]; intros days year Hr Hd Hy; cbn [days_up]; destruct (Z.ltb_spec days 0) as [Hn|Hn]; try done; [lia|].
  unfold DAYS_PER_YEAR_LEAP, YEAR_LEAP. rewrite int32_ok by solve_range. cbn [res_bind]. rewrite int32_ok by solve_range. cbn [res_bind].
  rewrite IH; [|solve_range|lia|lia]. f_equal. destruct (Z.ltb_spec (days + 146097) 0); f_equal; div_lia.
Qed.

Lemma days_down_spec fuel : ∀ days year,
  in_range i32 days → 0 ≤ days < 146097 * (Z.of_nat fuel + 1) → -2000000000 ≤ year ≤ 2000000000 - 400 * Z.of_nat fuel →
  days_down fuel days year = Ok (days mod 146097, year + 400 * (days / 146097)).
Proof.
  induction fuel as [|fuel IH]; intros days year Hr Hd Hy; cbn [days_down]; unfold DAYS_PER_YEAR_LEAP at 1;
    destruct (Z.leb_spec 146097 days) as [Hn|Hn]; try lia; try (f_equal; f_equal; div_lia).
  unfold DAYS_PER_YEAR_LEAP, YEAR_LEAP. rewrite int32_ok by solve_range. cbn [res_bind]. rewrite int32_ok by solve_range. cbn [res_bind].
  rewrite IH; [|solve_range|lia|lia]. f_equal. f_equal; div_lia.
Qed.

Lemma find_year_spec fuel : ∀ days off,
  0 ≤ off ≤ 400 → off ≤ Z.of_nat fuel → 0 ≤ days < 146097 → days < days_before_year (1970 + off + 1) →
  ∃ i, find_year fuel days off = Ok i ∧ 0 ≤ i < 400 ∧ days_before_year (1970 + i) ≤ days < days_before_year (1970 + i + 1).
Proof.
  induction fuel as [|fuel IH]; intros days off Ho Hf Hd Hlt; cbn [find_year]; rewrite year_table by done; cbn [res_bind].
  - assert (off = 0) as -> by lia. change (days_before_year (1970 + 0)) with 0. rewrite (proj2 (Z.ltb_ge _ _)) by lia.
    exists 0. split; [done|]. change (days_before_year (1970 + 0)) with 0. lia.
  - destruct (Z.ltb_spec days (days_before_year (1970 + off))) as [Hn|Hn].
    + assert (off ≠ 0) by (intros ->; change (days_before_year (1970 + 0)) with 0 in Hn; lia).
      apply IH; [lia|lia|done|]. by replace (1970 + (off - 1) + 1) with (1970 + off) by lia.
    + exists off. split; [done|]. split; [|done].
      assert (off ≠ 400); [|lia]. intros ->. change (days_before_year (1970 + 400)) with 146097 in Hn. lia.
Qed.

(** Every 32-bit day number has a date of the reference calendar, which [Date2YMD] finds. *)
Lemma Date2YMD_civil n :
  in_range i32 n →
  ∃ y m d, 1 ≤ m ≤ 12 ∧ 1 ≤ d ≤ month_length (leap y) m ∧ civil_to_days y m d = n ∧
    Date2YMD n = Ok (if decide (valid_civil y m d) then Some (y, m, d) else None).
Proof.
  intros Hn. assert (Hb : -2147483648 ≤ n < 2147483648) by (revert Hn; solve_range).
  assert (Hrounds : Z.of_nat rounds = 14700) by done.
  unfold Date2YMD, EPOCH_YEAR. rewrite days_up_spec; [|exact Hn|lia|lia]. cbn [res_bind].
  assert (Hdown : ∃ days year, (let '(days, year) := if n <? 0 then (n mod 146097, 1970 + 400 * (n / 146097)) else (n, 1970) in
    days_down rounds days year) = Ok (days, year) ∧ days = n mod 146097 ∧ year = 1970 + 400 * (n / 146097)).
  { destruct (Z.ltb_spec n 0).
    - pose proof (Z.mod_pos_bound n 146097 ltac:(lia)). rewrite days_down_spec; [|solve_range|lia|div_lia].
      do 2 eexists. split; [done|]. split; div_lia.
    - rewrite days_down_spec; [|exact Hn|lia|lia]. do 2 eexists. split; [reflexivity|]. split; reflexivity. }
  destruct Hdown as (days & year & Hdown & Hdays & Hyear).
  destruct (if n <? 0 then _ else _) as [days0 year0]. rewrite Hdown. cbn [res_bind]. clear Hdown days0 year0.
  assert (Hd : 0 ≤ days < 146097) by (subst days; apply Z.mod_pos_bound; lia).
  rewrite Z.quot_div_nonneg by lia.
  destruct (find_year_spec 400 days (days / 365)) as (i & Hi & Hir & Hid); [div_lia|div_lia|done| |].
  { pose proof (years_apart 1970 (days / 365 + 1) ltac:(div_lia)). change (days_before_year 1970) with 0 in *.
    replace (1970 + days / 365 + 1) with (1970 + (days / 365 + 1)) by lia. div_lia. }
  rewrite Hi. cbn [res_bind]. assert (Hy : -6000000 ≤ year ≤ 6000000) by (subst year; div_lia).
  rewrite int32_ok by solve_range. cbn [res_bind]. rewrite year_table by lia. cbn [res_bind].
  rewrite IsLeapYear_leap. set (y := year + i) in *.
  assert (Hyq : y = 1970 + i + 400 * (n / 146097)) by lia.
  pose proof (days_before_year_period (1970 + i) (n / 146097)) as Hp. rewrite <- Hyq in Hp.
  pose proof (year_length (1970 + i)) as Hlen. pose proof (leap_period (1970 + i) (n / 146097)) as Hleap. rewrite <- Hyq in Hleap.
  rewrite <- Hleap in Hlen.
  destruct (month_of_day_table (leap y) (days - days_before_year (1970 + i)) ltac:(lia)) as (m & Hm & Hmr & Hmd).
  rewrite Hm. cbn [res_bind]. rewrite month_before_table by lia. cbn [res_bind]. rewrite IsDateValid_civil. cbn [res_bind].
  exists y, m, (days - days_before_year (1970 + i) - days_before_month (leap y) m + 1).
  split; [done|]. split; [lia|]. split; [unfold civil_to_days; subst days; div_lia|].
  f_equal. by destruct (decide (valid_civil _ _ _)) as [H|H]; [rewrite bool_decide_eq_true_2|rewrite bool_decide_eq_false_2].
Qed.

(** ** Lemmas: text *)

Lemma digits_mono s : ∀ acc, 0 ≤ acc → Forall (fun b => is_digit b = true) s → acc ≤ digits acc s.
Proof.
  induction s as [|b s IH]; intros acc Ha Hs; simpl; [done|]. apply Forall_cons in Hs as [Hb Hs]. rewrite Hb.
  assert (48 ≤ b ≤ 57) by (unfold is_digit in Hb; lia). etransitivity; [|apply IH; [lia|done]]. lia.
Qed.

(** Where a number ends: at the end of the string or before another character. *)
Definition ends (n : nat) (s rest : bytes) : Prop :=
  (length s ≤ n)%nat ∧ (n = length s ∨ ∃ b r, rest = b :: r ∧ is_digit b = false).

Lemma read_number_digits max s : ∀ acc n pos rest,
  Forall (fun b => is_digit b = true) s → 0 ≤ acc → digits acc s ≤ max → ends n s rest →
  read_number max acc n (pos, s ++ rest) = Ok (Some (digits acc s, (pos + zlen s, rest))).
Proof.
  induction s as [|b s IH]; intros acc n pos rest Hs Ha Hmax (Hn & Hend); simpl.
  - rewrite zlen_nil, Z.add_0_r. destruct n as [|n]; [done|].
    destruct Hend as [?|(b & r & -> & Hb)]; [done|]. simpl. by rewrite Hb.
  - apply Forall_cons in Hs as [Hb Hs]. simpl in Hmax. rewrite Hb in Hmax |- *.
    destruct n as [|n]; [simpl in Hn; lia|]. simpl. rewrite Hb.
    replace (acc * 10 + (b - 48)) with (10 * acc + (b - 48)) by lia.
    assert (48 ≤ b ≤ 57) by (unfold is_digit in Hb; lia).
    pose proof (digits_mono s (10 * acc + (b - 48)) ltac:(lia) Hs). rewrite (proj2 (Z.ltb_ge _ _)) by lia.
    unfold advance. simpl. rewrite IH; [|done|lia|done|].
    + rewrite zlen_cons. by replace (pos + 1 + zlen s) with (pos + (1 + zlen s)) by lia.
    + simpl in Hn. split; [lia|]. destruct Hend as [Hend|?]; [left; simpl in Hend; lia|by right].
Qed.

(** Zeros in front and the digits of a number. *)
Definition padded (width : nat) (z : Z) : bytes := replicate (width - length (print_u64 z)) 48 ++ print_u64 z.

Lemma padded_digits width z : Forall (fun b => is_digit b = true) (padded width z).
Proof.
  unfold padded. apply Forall_app. split; [|apply dec_digits_Forall; constructor].
  apply Forall_replicate. done.
Qed.

Lemma padded_value width z : 0 ≤ z < 2 ^ 64 → digits 0 (padded width z) = z.
Proof.
  intros Hz. unfold padded. replace (digits 0 (replicate _ 48 ++ print_u64 z)) with (digits 0 (print_u64 z)).
  - unfold print_u64. rewrite digits_dec_digits; [done| |done].
    change (2 ^ 64) with 18446744073709551616 in Hz. change (10 ^ Z.of_nat 20) with 100000000000000000000. lia.
  - generalize (width - length (print_u64 z))%nat as n. induction n as [|n IH]; [done|].
    transitivity (digits 0 (replicate n 48 ++ print_u64 z)); [exact IH|reflexivity].
Qed.

Lemma padded_nonempty width z : padded width z ≠ [].
Proof. unfold padded. intros H. apply app_nil in H as [_ H]. by apply dec_digits_nonempty in H; [|right]. Qed.

Lemma padded_head width z : ∃ b s, padded width z = b :: s ∧ is_digit b = true.
Proof.
  pose proof (padded_digits width z) as Hd. pose proof (padded_nonempty width z).
  destruct (padded width z) as [|b s]; [done|]. apply Forall_cons in Hd as [??]. by exists b, s.
Qed.

Lemma format_nonneg width z : 0 ≤ z → format_0d width z = padded width z.
Proof. intros Hz. unfold format_0d, padded. rewrite (proj2 (Z.ltb_ge _ _)) by done. rewrite Z.abs_eq by done. simpl. by rewrite Nat.sub_0_r. Qed.

Lemma format_neg width z : z < 0 → format_0d width z = 45 :: padded (width - 1) (- z).
Proof. intros Hz. unfold format_0d, padded. rewrite (proj2 (Z.ltb_lt _ _)) by done. rewrite Z.abs_neq by lia. done. Qed.

Lemma read_padded max width z n pos rest :
  0 ≤ z ≤ max → z < 2 ^ 64 → ends n (padded width z) rest →
  read_number max 0 n (pos, padded width z ++ rest) = Ok (Some (z, (pos + zlen (padded width z), rest))).
Proof.
  intros Hz Hlt He. rewrite read_number_digits; rewrite ?padded_value by lia; [done|apply padded_digits|lia|lia|done].
Qed.

Lemma ends_before b r s n : is_digit b = false → (length s ≤ n)%nat → ends n s (b :: r).
Proof. intros Hb Hn. split; [done|right]. by exists b, r. Qed.

Lemma skip_none test n pos b r : test b = false → skip_while test n (pos, b :: r) = Ok (pos, b :: r).
Proof. intros Hb. destruct n; simpl; [done|]. by rewrite Hb. Qed.

Lemma advance_cons pos b r : advance (pos, b :: r) = (pos + 1, r).
Proof. done. Qed.

Lemma separator_ok test pos b r : test b = true → separator test (pos, b :: r) = Ok (Some (pos + 1, r)).
Proof. intros Hb. unfold separator. simpl. by rewrite Hb. Qed.

Lemma left_enough length pos (r s : bytes) : pos + zlen s ≤ length → (Datatypes.length s ≤ left length (pos, r))%nat.
Proof. unfold left, zlen. simpl. lia. Qed.

(** The last number of a text: it ends with the text or before another character. *)
Lemma ends_last length pos (r s rest : bytes) :
  pos + zlen s ≤ length → (length = pos + zlen s ∨ ∃ b r, rest = b :: r ∧ is_digit b = false) → ends (left length (pos, r)) s rest.
Proof. intros Hl He. split; [by apply left_enough|]. destruct He as [->|?]; [left; unfold left, zlen; simpl; lia|by right]. Qed.

(** Month and day, once the year is read. *)
Definition month_day_text (m d : Z) : bytes := 45 :: padded 2 m ++ 45 :: padded 2 d.

Definition read_month_day (year : Z) (c : Cursor) (length : Z) : result (option (Z * Z)) :=
  let* c := separator date_separator c in
  let* '(month, c) := read_number 12 0 (left length c) c in
  let* c := separator date_separator c in
  let* '(day, c) := read_number 31 0 (left length c) c in
  let* date := YMD2Date year month day in
  Ok (Some (date, c.1)).

Lemma read_month_day_text y m d pos rest length :
  valid_civil y m d → pos + zlen (month_day_text m d) ≤ length →
  (length = pos + zlen (month_day_text m d) ∨ ∃ b r, rest = b :: r ∧ is_digit b = false) →
  read_month_day y (pos, month_day_text m d ++ rest) length = Ok (Some (civil_to_days y m d, pos + zlen (month_day_text m d))).
Proof.
  intros Hv Hlen Hend. pose proof Hv as (_ & Hm & Hd). pose proof (month_length_range (leap y) m).
  unfold read_month_day, month_day_text in *. rewrite <- app_comm_cons, <- app_assoc, <- app_comm_cons.
  rewrite separator_ok by done. cbn [opt_bind res_bind].
  rewrite !zlen_cons, !zlen_app, !zlen_cons in *. zlen_facts.
  rewrite read_padded; [|lia|change (2 ^ 64) with 18446744073709551616; lia|apply ends_before; [done|apply left_enough; lia]].
  cbn [opt_bind res_bind]. rewrite separator_ok by done. cbn [opt_bind res_bind].
  rewrite read_padded; [|lia|change (2 ^ 64) with 18446744073709551616; lia|apply ends_last; [lia|]].
  2: destruct Hend; [left; lia|by right].
  cbn [opt_bind res_bind]. rewrite YMD2Date_civil, decide_True by done. cbn [opt_bind res_bind fst].
  do 3 f_equal. lia.
Qed.

(** A date in front of anything that does not go on with a digit. *)
Definition date_text (y m d : Z) : bytes := format_0d 4 y ++ 45 :: format_0d 2 m ++ 45 :: format_0d 2 d.

Lemma read_date y m d rest length :
  valid_civil y m d → zlen (date_text y m d) ≤ length →
  (length = zlen (date_text y m d) ∨ ∃ b r, rest = b :: r ∧ is_digit b = false) →
  DateType_ConvertFromString (date_text y m d ++ rest) length
  = Ok (Some (civil_to_days y m d, zlen (date_text y m d))).
Proof.
  intros Hv Hlen Hend. pose proof Hv as (Hy & Hm & Hd). unfold MIN_DATE_YEAR, MAX_DATE_YEAR in Hy.
  unfold date_text in *. rewrite (format_nonneg 2 m), (format_nonneg 2 d) in * by lia.
  fold (month_day_text m d) in *. rewrite <- app_assoc. unfold DateType_ConvertFromString.
  destruct (Z.ltb_spec y 0) as [Hn|Hn].
  - rewrite format_neg in * by done. change (4 - 1)%nat with 3%nat in *.
    rewrite <- app_comm_cons in *. repeat first [rewrite zlen_cons in * | rewrite zlen_app in *]. zlen_facts.
    rewrite skip_none by done. cbn [res_bind peek snd]. change (45 =? 45) with true. cbn iota. rewrite advance_cons.
    rewrite read_padded; [|lia|change (2 ^ 64) with 18446744073709551616; lia|apply ends_before; [done|apply left_enough; lia]].
    cbn [opt_bind res_bind]. rewrite Z.opp_involutive.
    pose proof (read_month_day_text y m d (0 + 1 + zlen (padded 3 (- y))) rest length Hv ltac:(lia)) as Hr.
    unfold read_month_day in Hr. rewrite Hr by (destruct Hend; [left; lia|by right]); do 3 f_equal; lia.
  - rewrite format_nonneg in * by done. rewrite zlen_app in *. zlen_facts.
    destruct (padded_head 4 y) as (b & s & Hs & Hb).
    assert (Hsp : is_space b = false ∧ (b =? 45) = false) by (unfold is_digit, is_space in *; lia).
    rewrite Hs, <- app_comm_cons, skip_none by apply Hsp. cbn [res_bind peek snd]. rewrite (proj2 Hsp).
    rewrite app_comm_cons, <- Hs.
    rewrite read_padded; [|lia|change (2 ^ 64) with 18446744073709551616; lia|apply ends_before; [done|apply left_enough; lia]].
    cbn [opt_bind res_bind].
    pose proof (read_month_day_text y m d (0 + zlen (padded 4 y)) rest length Hv ltac:(lia)) as Hr.
    unfold read_month_day in Hr. rewrite Hr by (destruct Hend; [left; lia|by right]); do 3 f_equal; lia.
Qed.

Definition time_text (h mi s : Z) : bytes := format_0d 2 h ++ 58 :: format_0d 2 mi ++ 58 :: format_0d 2 s.

Lemma HMS2Time_ok h mi s : 0 ≤ h ≤ 23 → 0 ≤ mi ≤ 59 → 0 ≤ s ≤ 59 → HMS2Time h mi s = Ok (Some (h * 3600 + mi * 60 + s)).
Proof.
  intros Hh Hm Hs. unfold HMS2Time, IsTimeValid. replace (negb _) with false by lia.
  change HOUR_SECOND with 3600. change MINUTE_SECOND with 60. rewrite int32_ok by solve_range. done.
Qed.

Lemma read_time h mi s rest :
  0 ≤ h ≤ 23 → 0 ≤ mi ≤ 59 → 0 ≤ s ≤ 59 →
  TimeType_ConvertFromString (time_text h mi s ++ rest) (zlen (time_text h mi s)) = Ok (Some (h * 3600 + mi * 60 + s)).
Proof.
  intros Hh Hm Hs. unfold TimeType_ConvertFromString, time_text. rewrite !format_nonneg by lia.
  assert (Hlen : zlen (padded 2 h ++ 58 :: padded 2 mi ++ 58 :: padded 2 s)
    = zlen (padded 2 h) + 1 + zlen (padded 2 mi) + 1 + zlen (padded 2 s)).
  { rewrite !zlen_app, !zlen_cons, !zlen_app, !zlen_cons. lia. }
  rewrite Hlen. set (length := _ + 1 + _ + 1 + _). rewrite <- app_assoc, <- app_comm_cons, <- app_assoc, <- app_comm_cons.
  zlen_facts. assert (Hu : ∀ z, z ≤ 59 → z < 2 ^ 64) by (change (2 ^ 64) with 18446744073709551616; lia).
  destruct (padded_head 2 h) as (b & t & Ht & Hb).
  rewrite Ht, <- app_comm_cons, skip_none by (unfold is_digit, is_space in *; lia). rewrite app_comm_cons, <- Ht. cbn [res_bind].
  rewrite read_padded; [|lia|apply Hu; lia|apply ends_before; [done|apply left_enough; lia]].
  cbn [opt_bind res_bind]. rewrite separator_ok by done. cbn [opt_bind res_bind].
  rewrite read_padded; [|lia|apply Hu; lia|apply ends_before; [done|apply left_enough; lia]].
  cbn [opt_bind res_bind]. rewrite separator_ok by done. cbn [opt_bind res_bind].
  rewrite read_padded; [|lia|apply Hu; lia|apply ends_last; [lia|left; lia]].
  cbn [opt_bind res_bind]. by apply HMS2Time_ok.
Qed.

Lemma Time2HMS_ok t :
  0 ≤ t < 86400 →
  ∃ h mi s, Time2HMS t = Some (h, mi, s) ∧ 0 ≤ h ≤ 23 ∧ 0 ≤ mi ≤ 59 ∧ 0 ≤ s ≤ 59 ∧ t = h * 3600 + mi * 60 + s.
Proof.
  intros Ht. unfold Time2HMS. change DAY_SECOND with 86400. change HOUR_SECOND with 3600. change MINUTE_SECOND with 60.
  replace (_ || _) with false by lia. do 3 eexists. split; [reflexivity|].
  rewrite !Z.rem_mod_nonneg, !Z.quot_div_nonneg by (try lia; rewrite Z.rem_mod_nonneg by lia; apply Z.mod_pos_bound; lia). div_lia.
Qed.

Lemma Time2HMS_some t r : Time2HMS t = Some r → 0 ≤ t < 86400.
Proof. unfold Time2HMS. change DAY_SECOND with 86400. destruct (_ || _) eqn:H; [done|]. lia. Qed.

(** A date that prints is a valid one. *)
Lemma date_ToString_inv n s :
  in_range i32 n → DateType_ToString n = Ok s → ∃ y m d, valid_civil y m d ∧ civil_to_days y m d = n ∧ s = date_text y m d.
Proof.
  intros Hn. unfold DateType_ToString. destruct (Date2YMD_civil n Hn) as (y & m & d & _ & _ & Hc & ->). cbn [res_bind].
  destruct (decide (valid_civil y m d)) as [Hv|]; [|done]. intros [= <-]. by exists y, m, d.
Qed.

Lemma time_ToString_inv t s :
  TimeType_ToString t = Ok s →
  ∃ h mi sec, 0 ≤ h ≤ 23 ∧ 0 ≤ mi ≤ 59 ∧ 0 ≤ sec ≤ 59 ∧ t = h * 3600 + mi * 60 + sec ∧ s = time_text h mi sec.
Proof.
  unfold TimeType_ToString. destruct (Time2HMS t) as [r|] eqn:Ht; [|done].
  destruct (Time2HMS_ok t (Time2HMS_some t r Ht)) as (h & mi & sec & He & Hh & Hm & Hs & Hv).
  assert (r = (h, mi, sec)) as -> by congruence. intros [= <-]. by exists h, mi, sec.
Qed.

(** ** Lemmas: arithmetic *)

Lemma rem_day tot :
  Z.rem (Z.rem tot DAY_SECOND + DAY_SECOND) DAY_SECOND = tot mod 86400.
Proof. change DAY_SECOND with 86400. Z.to_euclidean_division_equations. lia. Qed.

Lemma add_seconds_ok input value product :
  in_range i32 (value * product) → in_range i32 (input + value * product) → - 2 ^ 31 + 86400 ≤ input + value * product →
  add_seconds input value product = Ok ((input + value * product) mod 86400, (input + value * product) / 86400).
Proof.
  intros H1 H2 H3. change (2 ^ 31) with 2147483648 in H3. unfold add_seconds. rewrite !int32_ok by done. cbn [res_bind].
  rewrite int32_ok by done. cbn [res_bind].
  rewrite rem_day. set (tot := input + value * product) in *. pose proof (Z.mod_pos_bound tot 86400 ltac:(lia)).
  rewrite int32_ok by (revert H2; solve_range). cbn [res_bind]. do 2 f_equal. change DAY_SECOND with 86400.
  replace (tot - tot mod 86400) with (86400 * (tot / 86400)) by div_lia. rewrite Z.mul_comm. apply Z.quot_mul. lia.
Qed.

(** The seconds of an interval in hours, minutes or seconds. *)
Definition interval_seconds (interval : IntervalType) : option Z :=
  match unit_ interval with
  | Enumerator kHour => Some (value_ interval * 3600)
  | Enumerator kMinute => Some (value_ interval * 60)
  | Enumerator kSecond => Some (value_ interval)
  | _ => None
  end.

Definition datetime_wf (dt : DateTimeType) : Prop := in_range i32 (date_ dt) ∧ 0 ≤ time_ dt < 86400.

(** Seconds since 1970-01-01 00:00:00, exactly. *)
Definition epoch (dt : DateTimeType) : Z := date_ dt * 86400 + time_ dt.

Lemma epoch_inj dt dt' : 0 ≤ time_ dt < 86400 → 0 ≤ time_ dt' < 86400 → epoch dt = epoch dt' → dt = dt'.
Proof. destruct dt as [d t], dt' as [d' t']. unfold epoch. simpl. intros. assert (d = d') by lia. f_equal; lia. Qed.

Lemma DateTime_Add_seconds dt interval n :
  datetime_wf dt → interval_seconds interval = Some n → in_range i32 n → - 2 ^ 31 + 86400 ≤ time_ dt + n < 2 ^ 31 →
  in_range i32 ((epoch dt + n) / 86400) →
  DateTimeType_Add dt interval = Ok (Some (mkDateTime ((epoch dt + n) / 86400) ((epoch dt + n) mod 86400))).
Proof.
  intros [Hd Ht] Hi Hn Hsum Hr. change (2 ^ 31) with 2147483648 in Hsum.
  assert (Hadd : TimeType_Add_overflow (time_ dt) interval = Ok (Some ((time_ dt + n) mod 86400, (time_ dt + n) / 86400))).
  { unfold TimeType_Add_overflow, interval_seconds in *. change HOUR_SECOND with 3600. change MINUTE_SECOND with 60.
    destruct (unit_ interval) as [[]|]; try done; injection Hi as Hi; rewrite ?Z.mul_1_r, ?Hi;
      rewrite (add_seconds_ok _ _ _), ?Z.mul_1_r, ?Hi; rewrite ?Z.mul_1_r, ?Hi;
      try done; change (2 ^ 31) with 2147483648; try lia; solve_range. }
  assert (Hq : (epoch dt + n) / 86400 = date_ dt + (time_ dt + n) / 86400) by (unfold epoch; div_lia).
  assert (Hm : (epoch dt + n) mod 86400 = (time_ dt + n) mod 86400) by (unfold epoch; div_lia).
  rewrite Hq in *. rewrite Hm. unfold DateTimeType_Add, interval_seconds in *.
  destruct (unit_ interval) as [[]|]; try done; rewrite Hadd; cbn [res_bind default id];
    (destruct (Z.eqb_spec ((time_ dt + n) / 86400) 0) as [Hz|Hz]; cbn [negb];
     [rewrite Hz, Z.add_0_r; done|unfold moved_date, DateType_Add; simpl; by rewrite int32_ok by done]).
Qed.

Lemma time_text_head h mi s : 0 ≤ h → ∃ b t, time_text h mi s = b :: t ∧ is_digit b = true.
Proof.
  intros Hh. unfold time_text. rewrite (format_nonneg 2 h) by done.
  destruct (padded_head 2 h) as (b & t & -> & Hb). by exists b, (t ++ 58 :: format_0d 2 mi ++ 58 :: format_0d 2 s).
Qed.

Lemma skip_space pos h mi s rest :
  0 ≤ h → let r := time_text h mi s ++ rest in
  skip_while (Z.eqb 32) (left (pos + (1 + zlen (time_text h mi s))) (pos, 32 :: r)) (pos, 32 :: r) = Ok (pos + 1, r).
Proof.
  intros Hh. destruct (time_text_head h mi s Hh) as (b & t & -> & Hb). simpl. rewrite zlen_cons.
  replace (left _ _) with (S (Z.to_nat (1 + zlen t))) by (unfold left; cbn [fst]; zlen_facts; lia).
  cbn [skip_while peek res_bind snd]. change (32 =? 32) with true. cbn iota. rewrite advance_cons.
  apply skip_none. unfold is_digit in Hb. lia.
Qed.

(** Adding months: the month that many months away, the day clipped to its length. *)
Lemma DateType_Add_months y m d v :
  valid_civil y m d → - 2 ^ 31 + 12 ≤ m + v < 2 ^ 31 →
  let months := 12 * y + (m - 1) + v in
  let y' := months / 12 in let m' := months mod 12 + 1 in
  let d' := Z.min d (month_length (leap y') m') in
  DateType_Add (civil_to_days y m d) (mkInterval (Enumerator kMonth) v) =
  Ok (if decide (valid_civil y' m' d') then Some (civil_to_days y' m' d') else None).
Proof.
  intros Hv Hr months y' m' d'. change (2 ^ 31) with 2147483648 in Hr. pose proof (civil_range _ _ _ Hv) as Hcr.
  pose proof Hv as (Hy & Hm & Hd). unfold MIN_DATE_YEAR, MAX_DATE_YEAR in Hy.
  destruct (Date2YMD_civil (civil_to_days y m d)) as (y0 & m0 & d0 & Hm0 & Hd0 & Hc & He); [solve_range|].
  destruct (civil_inj y0 m0 d0 y m d Hm0 Hd0 Hm Hd Hc) as (-> & -> & ->).
  unfold DateType_Add. cbn [unit_ value_]. rewrite He, decide_True by done. unfold opt_bind. cbn [res_bind].
  rewrite int32_ok by solve_range. cbn [res_bind].
  assert (Hym : (if 12 <? m + v then
       let? year := int32 (y + Z.quot (m + v - 1) 12) in Ok (year, 1 + Z.rem (m + v - 1) 12)
     else if m + v <? 1 then
       let? m12 := int32 (m + v - 12) in
       let? year := int32 (y + Z.quot m12 12) in Ok (year, 12 + Z.rem m12 12)
     else Ok (y, m + v)) = Ok (y', m')).
  { subst y' m' months. destruct (Z.ltb_spec 12 (m + v)).
    - rewrite int32_ok by (Z.to_euclidean_division_equations; solve_range). cbn [res_bind]. do 2 f_equal; div_lia.
    - destruct (Z.ltb_spec (m + v) 1); [|do 2 f_equal; div_lia].
      rewrite int32_ok by solve_range. cbn [res_bind].
      rewrite int32_ok by (Z.to_euclidean_division_equations; solve_range). cbn [res_bind]. do 2 f_equal; div_lia. }
  rewrite Hym. cbn [res_bind]. rewrite IsLeapYear_leap, month_days_table by (subst m'; div_lia). cbn [res_bind].
  apply YMD2Date_civil.
Qed.

(** *** Seconds since the epoch *)

Lemma of_epoch_ok e :
  0 ≤ e < 86400 * 2 ^ 31 → DateTimeType_of_epoch e = Ok (mkDateTime (e / 86400) (e mod 86400)).
Proof.
  intros He. change (2 ^ 31) with 2147483648 in He. unfold DateTimeType_of_epoch. change DAY_SECOND with 86400.
  rewrite (Z.rem_mod_nonneg e 86400) by lia. pose proof (Z.mod_pos_bound e 86400 ltac:(lia)).
  rewrite (proj2 (Z.ltb_ge _ _)) by lia. rewrite decide_True by (assert (e mod 86400 ≤ e) by div_lia; solve_range).
  replace (e - e mod 86400) with (e / 86400 * 86400) by div_lia. rewrite Z.quot_mul by lia.
  by rewrite cast_id by (assert (0 ≤ e / 86400 < 2147483648) by div_lia; solve_range).
Qed.

(** ** Properties *)

Lemma common_valid y m d : 1 ≤ y → valid_civil y m d ↔ common_date y m d.
Proof. unfold valid_civil, common_date, MIN_DATE_YEAR, MAX_DATE_YEAR. lia. Qed.

Lemma Date2YMD_exact n :
  in_range i32 n → ∃ r, Date2YMD n = Ok r ∧ ∀ y m d, r = Some (y, m, d) ↔ valid_civil y m d ∧ civil_to_days y m d = n.
Proof.
  intros Hn. destruct (Date2YMD_civil n Hn) as (y & m & d & Hm & Hd & Hc & ->).
  eexists. split; [reflexivity|]. intros y' m' d'. split.
  - destruct (decide (valid_civil y m d)); [|done]. by intros [= <- <- <-].
  - intros [Hv Hc']. pose proof Hv as (_ & Hm' & Hd').
    destruct (civil_inj y m d y' m' d' Hm Hd Hm' Hd' ltac:(lia)) as (-> & -> & ->). by rewrite decide_True.
Qed.

(** C40. The calendar from the year 1.  For every year from 1 on, every month and day, [YMD2Date] accepts
    exactly the dates of the Gregorian calendar up to the year 9999 and gives their day number by the
    leap-year formula.  For every 32-bit day number, [Date2YMD] terminates without leaving its
    tables or overflowing, and gives a date of the years 1 to 9999 just when it is the one with that
    number. *)
Theorem date_calendar :
  (∀ y m d, 1 ≤ y → YMD2Date y m d = Ok (if decide (common_date y m d) then Some (civil_to_days y m d) else None)) ∧
  (∀ n, in_range i32 n → ∃ r, Date2YMD n = Ok r ∧
     ∀ y m d, 1 ≤ y → r = Some (y, m, d) ↔ common_date y m d ∧ civil_to_days y m d = n).
Proof.
  split.
  - intros y m d Hy. rewrite YMD2Date_civil. f_equal. apply decide_ext. by apply common_valid.
  - intros n Hn. destruct (Date2YMD_exact n Hn) as (r & Hr & Hall). exists r. split; [done|].
    intros y m d Hy. by rewrite Hall, common_valid.
Qed.

Lemma date_calendar_witness :
  YMD2Date 2024 2 29 = Ok (if decide (common_date 2024 2 29) then Some (civil_to_days 2024 2 29) else None) ∧
  common_date 2024 2 29 ∧ ∃ r, Date2YMD 19782 = Ok r ∧ (r = Some (2024, 2, 29) ↔ common_date 2024 2 29 ∧ civil_to_days 2024 2 29 = 19782).
Proof.
  split; [apply (proj1 date_calendar); lia|]. split; [by vm_compute|].
  destruct (proj2 date_calendar 19782 ltac:(by vm_compute)) as (r & Hr & Hall). exists r. split; [exact Hr|]. apply Hall. lia.
Defined.

(** Years before 1 are accepted too, down to -1969, where the comment on [MIN_DATE_YEAR] gives
    0001-01-01 as the first date. *)
Theorem early_dates_accepted y m d :
  -1969 ≤ y ≤ 0 → 1 ≤ m ≤ 12 → 1 ≤ d ≤ month_length (leap y) m → YMD2Date y m d = Ok (Some (civil_to_days y m d)).
Proof. intros Hy Hm Hd. rewrite YMD2Date_civil, decide_True; [done|]. unfold valid_civil, MIN_DATE_YEAR, MAX_DATE_YEAR. lia. Qed.

(** Dates, times and datetimes read back the text they print, whatever follows the text in
    memory. *)
Theorem datetime_text_roundtrip dt rest :
  datetime_wf dt →
  (∀ s, DateType_ToString (date_ dt) = Ok s → DateType_FromString (s ++ rest) (zlen s) = Ok (date_ dt, zlen s)) ∧
  (∃ s, TimeType_ToString (time_ dt) = Ok s ∧ TimeType_FromString (s ++ rest) (zlen s) = Ok (time_ dt)) ∧
  (∀ s, DateTimeType_ToString dt = Ok s → DateTimeType_FromString (s ++ rest) (zlen s) = Ok dt).
Proof.
  intros [Hd Ht]. split; [|split].
  - intros s Hs. destruct (date_ToString_inv _ s Hd Hs) as (y & m & d & Hv & Hc & ->).
    unfold DateType_FromString. rewrite read_date by (try done; by left). cbn [res_bind]. by rewrite Hc.
  - destruct (Time2HMS_ok _ Ht) as (h & mi & s & He & Hh & Hm & Hs & Hv). unfold TimeType_ToString. rewrite He.
    eexists. split; [reflexivity|]. unfold TimeType_FromString. fold (time_text h mi s). rewrite read_time by done.
    cbn [res_bind]. by rewrite Hv.
  - intros s Hs. unfold DateTimeType_ToString in Hs. inv_ok.
    match goal with H : DateType_ToString _ = Ok _ |- _ => destruct (date_ToString_inv _ _ Hd H) as (y & m & d & Hv & Hc & ->) end.
    match goal with H : TimeType_ToString _ = Ok _ |- _ => destruct (time_ToString_inv _ _ H) as (h & mi & sec & Hh & Hm & Hsec & Htv & ->) end.
    unfold DateTimeType_FromString, DateType_FromString. rewrite <- app_assoc, <- app_comm_cons.
    rewrite zlen_app, zlen_cons. zlen_facts.
    rewrite read_date; [|done|lia|right; by eexists _, _]. cbn [res_bind].
    rewrite drop_zlen_app, skip_space by (done || lia). cbn [res_bind].
    destruct (time_text_head h mi sec) as (b & t & Htt & _); [lia|].
    rewrite (proj2 (Z.ltb_lt _ _)) by (rewrite Htt, zlen_cons; zlen_facts; lia).
    unfold TimeType_FromString. replace (_ + (1 + zlen (time_text h mi sec)) - _) with (zlen (time_text h mi sec)) by lia.
    rewrite read_time by done. cbn [res_bind]. destruct dt as [dd tt]. simpl in *. congruence.
Qed.

Lemma datetime_text_roundtrip_witness :
  let dt := mkDateTime 19782 45296 in
  datetime_wf dt ∧ DateTimeType_ToString dt = Ok (str "2024-02-29 12:34:56") ∧
  DateTimeType_FromString (str "2024-02-29 12:34:56" ++ str "'") 19 = Ok dt.
Proof.
  intros dt. assert (Hwf : datetime_wf dt) by (unfold dt; split; cbn [date_ time_]; [solve_range|lia]).
  assert (Hs : DateTimeType_ToString dt = Ok (str "2024-02-29 12:34:56")) by (vm_compute; reflexivity).
  split; [done|]. split; [exact Hs|].
  destruct (datetime_text_roundtrip dt (str "'") Hwf) as (_ & _ & H). exact (H _ Hs).
Defined.

(** Adding months to a date moves it to the month that many months away and clips the day to
    the length of that month; outside the years -1969 to 9999 the addition reports failure. *)
Theorem date_add_months y m d v :
  valid_civil y m d → - 2 ^ 31 + 12 ≤ m + v < 2 ^ 31 →
  ∃ y' m' d', 12 * y' + (m' - 1) = 12 * y + (m - 1) + v ∧ 1 ≤ m' ≤ 12 ∧ d' = Z.min d (month_length (leap y') m') ∧
    DateType_Add (civil_to_days y m d) (mkInterval (Enumerator kMonth) v) =
    Ok (if decide (MIN_DATE_YEAR ≤ y' ≤ MAX_DATE_YEAR) then Some (civil_to_days y' m' d') else None).
Proof.
  intros Hv Hr. pose proof (DateType_Add_months y m d v Hv Hr) as H. cbv zeta in H.
  set (t := 12 * y + (m - 1) + v) in *. eexists (t / 12), (t mod 12 + 1), _. split; [div_lia|]. split; [div_lia|].
  split; [reflexivity|]. rewrite H. pose proof (month_length_range (leap (t / 12)) (t mod 12 + 1)).
  assert (1 ≤ t mod 12 + 1 ≤ 12) by div_lia. pose proof Hv as (_ & _ & Hd).
  destruct (decide (valid_civil _ _ _)) as [Hv'|Hv'], (decide (MIN_DATE_YEAR ≤ _ ≤ _)) as [Hy|Hy]; try done.
  - by destruct Hv' as [? _].
  - destruct Hv'. split; [done|]. split; [done|]. lia.
Qed.

Lemma date_add_months_witness :
  valid_civil 2024 1 31 ∧ DateType_Add (civil_to_days 2024 1 31) (mkInterval (Enumerator kMonth) 1) = Ok (Some (civil_to_days 2024 2 29)).
Proof.
  assert (Hv : valid_civil 2024 1 31) by (vm_compute; repeat split; discriminate). split; [exact Hv|].
  destruct (date_add_months 2024 1 31 1 Hv) as (y & m & d & Ht & Hm & Hd & He).
  - change (2 ^ 31) with 2147483648. lia.
  - assert (y = 2024) as -> by lia. assert (m = 2) as -> by lia. subst d. rewrite He. vm_compute. reflexivity.
Defined.

(** Adding an interval of hours, minutes or seconds to a datetime is exact addition of
    seconds, carried into the date; the time of day stays within the day; and [Subtract] of the
    same interval undoes it.  The bound on the interval is what the 32-bit sums of
    [TimeType::Add] admit. *)
Theorem datetime_add_seconds dt interval n :
  datetime_wf dt → interval_seconds interval = Some n → Z.abs n ≤ 2 ^ 31 - 172800 →
  in_range i32 ((epoch dt + n) / 86400) →
  ∃ dt', DateTimeType_Add dt interval = Ok (Some dt') ∧ epoch dt' = epoch dt + n ∧ datetime_wf dt' ∧
    DateTimeType_Subtract dt' interval = Ok (Some dt).
Proof.
  intros Hwf Hi Hn Hr. change (2 ^ 31) with 2147483648 in Hn. pose proof Hwf as [Hd Ht].
  set (dt' := mkDateTime ((epoch dt + n) / 86400) ((epoch dt + n) mod 86400)). exists dt'.
  assert (He : epoch dt' = epoch dt + n) by (unfold epoch at 1; simpl; div_lia).
  assert (Hwf' : datetime_wf dt') by (split; [exact Hr|apply Z.mod_pos_bound; lia]).
  split; [apply DateTime_Add_seconds; try done; [solve_range|change (2 ^ 31) with 2147483648; lia]|].
  split; [done|]. split; [done|]. pose proof Hwf' as [Hd' Ht'].
  assert (Hq : (epoch dt' + - n) / 86400 = date_ dt) by (rewrite He; unfold epoch; div_lia).
  assert (Hm : (epoch dt' + - n) mod 86400 = time_ dt) by (rewrite He; unfold epoch; div_lia).
  assert (Hv : in_range i32 (- value_ interval) ∧
    interval_seconds (mkInterval (unit_ interval) (- value_ interval)) = Some (- n)).
  { unfold interval_seconds in *. cbn [unit_ value_].
    destruct (unit_ interval) as [[]|]; try done; injection Hi as Hi; (split; [solve_range|f_equal; lia]). }
  destruct Hv as [Hv1 Hv2]. unfold DateTimeType_Subtract, negated. rewrite int32_ok by done. cbn [res_bind].
  rewrite (DateTime_Add_seconds dt' _ (- n)); try done.
  - rewrite Hq, Hm. by destruct dt.
  - solve_range.
  - change (2 ^ 31) with 2147483648. lia.
  - by rewrite Hq.
Qed.

Lemma datetime_add_seconds_witness :
  let interval := mkInterval (Enumerator kMinute) (-100) in
  DateTimeType_Subtract (mkDateTime (-1) 80400) interval = Ok (Some (mkDateTime 0 0)).
Proof.
  intros interval.
  destruct (datetime_add_seconds (mkDateTime 0 0) interval (-6000)) as (dt & Ha & _ & _ & Hs).
  - split; cbn [date_ time_]; [solve_range|lia].
  - reflexivity.
  - change (2 ^ 31) with 2147483648. lia.
  - change (in_range i32 (-1)). solve_range.
  - assert (E : DateTimeType_Add (mkDateTime 0 0) interval = Ok (Some (mkDateTime (-1) 80400))) by (vm_compute; reflexivity).
    rewrite E in Ha. injection Ha as <-. exact Hs.
Defined.

(** From seconds since the epoch to a datetime and back.  The datetime of [e] is right for
    every [e] up to the year 9999, but [GetEpochTime] computes the way back in 32 bits: it is
    exact before 2038-01-19 03:14:08 and overflows from there on. *)
Theorem epoch_time_2038 e :
  0 ≤ e < 253402300800 →
  ∃ dt, DateTimeType_of_epoch e = Ok dt ∧ datetime_wf dt ∧ epoch dt = e ∧
    GetEpochTime dt = if e <? 2 ^ 31 then Ok e else Err SignedOverflow.
Proof.
  intros He. eexists. split; [apply of_epoch_ok; change (2 ^ 31) with 2147483648; lia|].
  pose proof (Z.mod_pos_bound e 86400 ltac:(lia)) as Hm. assert (Hd : 0 ≤ e / 86400 < 2932897) by div_lia.
  assert (Hsum : e / 86400 * 86400 + e mod 86400 = e) by div_lia.
  split; [split; cbn [date_ time_]; [solve_range|exact Hm]|]. split; [exact Hsum|].
  unfold GetEpochTime. cbn [date_ time_]. change DAY_SECOND with 86400. change (2 ^ 31) with 2147483648.
  destruct (Z.ltb_spec e 2147483648).
  - rewrite int32_ok by solve_range. cbn [res_bind]. by rewrite Hsum, int32_ok by solve_range.
  - unfold int32. destruct (decide (in_range i32 (e / 86400 * 86400))); [|done]. cbn [res_bind]. rewrite Hsum.
    rewrite decide_False; [done|]. eval_range. lia.
Qed.

Lemma epoch_time_2038_witness :
  0 ≤ 4102444800 < 253402300800 ∧ DateTimeType_of_epoch 4102444800 = Ok (mkDateTime 47482 0) ∧
  GetEpochTime (mkDateTime 47482 0) = Err SignedOverflow.
Proof.
  split; [lia|]. destruct (epoch_time_2038 4102444800 ltac:(lia)) as (dt & He & _ & _ & Hg).
  assert (E : DateTimeType_of_epoch 4102444800 = Ok (mkDateTime 47482 0)) by (vm_compute; reflexivity).
  split; [exact E|]. rewrite E in He. injection He as <-. exact Hg.
Defined.
