(* ===== verification/Bitmask.v ===== *)
(** * Bitmasks

    Models [src/src/storage/column_vector/bitmask.cpp] and [bitmask_buffer.cpp]: the null masks of
    column vectors.  A mask is a count of rows and a shared pointer to a buffer of 64-bit units; a
    null pointer stands for "all true".  Buffers live in a heap, because [ShallowCopy] and [Merge]
    make two masks share one buffer: a later update of either shows through the other. *)

From Stdlib Require Import ZArith Lia List.
From stdpp Require Import base list numbers gmap.
From S2P Require Import Prelude Bytes.
Local Open Scope Z_scope.

Definition UNIT_BITS : Z := 64.
Definition BYTE_BITS : Z := 8.
Definition UNIT_MAX : Z := 2 ^ 64 - 1.

(** [(count & (count - 1)) != 0], in [size_t] arithmetic. *)
Definition not_power_of_2 (count : Z) : bool := negb (Z.land count (cast u64 (count - 1)) =? 0).

Definition UnitCount (capacity : Z) : Z := cast u64 (capacity + (UNIT_BITS - 1)) / UNIT_BITS.

(** ** State *)

Abbreviation loc := nat.
(** The [data_ptr_] arrays of the live buffers. *)
Abbreviation heap := (list (list Z)).

(** [data_ptr_] is [buffer_ptr->data_ptr_.get()] throughout, so one field stands for both. *)
Record Bitmask := mkBitmask { buffer_ptr : option loc; count_ : Z }.

Definition new_Bitmask : Bitmask := mkBitmask None 0.

(** [data_ptr_[i]] and [data_ptr_[i] = u]. *)
Definition get_unit (h : heap) (l : loc) (i : Z) : result Z :=
  match h !! l with Some us => array_at us i | None => Err OutOfBounds end.

Definition set_unit (h : heap) (l : loc) (i u : Z) : result heap :=
  match h !! l with
  | Some us =>
      if decide (0 ≤ i < zlen us) then Ok (<[l := <[Z.to_nat i := u]> us]> h) else Err OutOfBounds
  | None => Err OutOfBounds
  end.

(** ** BitmaskBuffer *)

Definition BitmaskBuffer_Make (count : Z) (h : heap) : result (loc * heap) :=
  if not_power_of_2 count then Err UnrecoverableError
  else Ok (length h, h ++ [replicate (Z.to_nat (UnitCount count)) UNIT_MAX]).

(** [Initialize(input_ptr, count)]: copies [unit_count] units. *)
Definition BitmaskBuffer_Make_from (input_ptr : loc) (count : Z) (h : heap) : result (loc * heap) :=
  if not_power_of_2 count then Err UnrecoverableError
  else match h !! input_ptr with
       | Some us =>
           if decide (UnitCount count ≤ zlen us)
           then Ok (length h, h ++ [take (Z.to_nat (UnitCount count)) us])
           else Err OutOfBounds
       | None => Err OutOfBounds
       end.

(** ** Bitmask *)

Definition Initialize (this : Bitmask) (count : Z) : result Bitmask :=
  if negb (count_ this =? 0) then Err UnrecoverableError
  else if not_power_of_2 count then Err UnrecoverableError
  else Ok (mkBitmask (buffer_ptr this) count).

Definition Bitmask_Make (count : Z) : result Bitmask := Initialize new_Bitmask count.

(** The loop over the first [n] units from unit [i] on. *)
Fixpoint all_units_max (h : heap) (l : loc) (i : Z) (n : nat) : result bool :=
  match n with
  | O => Ok true
  | S n' =>
      let? u := get_unit h l i in
      if u =? UNIT_MAX then all_units_max h l (i + 1) n' else Ok false
  end.

Definition IsAllTrue (h : heap) (this : Bitmask) : result bool :=
  match buffer_ptr this with
  | None => Ok true
  | Some l => all_units_max h l 0 (Z.to_nat (UnitCount (count_ this)))
  end.

Definition IsTrue (h : heap) (this : Bitmask) (row_index : Z) : result bool :=
  match buffer_ptr this with
  | None => Ok true
  | Some l =>
      let u64_index := row_index / UNIT_BITS in
      let index_in_u64 := row_index - u64_index * UNIT_BITS in
      let? u := get_unit h l u64_index in
      Ok (negb (Z.land u (Z.shiftl 1 index_in_u64) =? 0))
  end.

Definition SetTrue (h : heap) (this : Bitmask) (row_index : Z) : result (Bitmask * heap) :=
  match buffer_ptr this with
  | None => Ok (this, h)
  | Some l =>
      let u64_index := row_index / UNIT_BITS in
      let index_in_u64 := row_index - u64_index * UNIT_BITS in
      let? u := get_unit h l u64_index in
      let? h := set_unit h l u64_index (Z.lor u (Z.shiftl 1 index_in_u64)) in
      Ok (this, h)
  end.

(** Allocate the buffer of an all-true mask. *)
Definition ensure_buffer (h : heap) (this : Bitmask) : result (loc * Bitmask * heap) :=
  match buffer_ptr this with
  | Some l => Ok (l, this, h)
  | None =>
      let? '(l, h) := BitmaskBuffer_Make (count_ this) h in
      Ok (l, mkBitmask (Some l) (count_ this), h)
  end.

Definition SetFalse (h : heap) (this : Bitmask) (row_index : Z) : result (Bitmask * heap) :=
  let? '(l, this, h) := ensure_buffer h this in
  let u64_index := row_index / UNIT_BITS in
  let index_in_u64 := row_index - u64_index * UNIT_BITS in
  let? u := get_unit h l u64_index in
  let? h := set_unit h l u64_index (Z.land u (cast u64 (Z.lnot (Z.shiftl 1 index_in_u64)))) in
  Ok (this, h).

Definition Set_ (h : heap) (this : Bitmask) (row_index : Z) (valid : bool) : result (Bitmask * heap) :=
  if valid then SetTrue h this row_index else SetFalse h this row_index.

Definition SetAllTrue (this : Bitmask) : Bitmask := mkBitmask None (count_ this).

Fixpoint zero_units (h : heap) (l : loc) (i : Z) (n : nat) : result heap :=
  match n with
  | O => Ok h
  | S n' => let? h := set_unit h l i 0 in zero_units h l (i + 1) n'
  end.

Definition SetAllFalse (h : heap) (this : Bitmask) : result (Bitmask * heap) :=
  let? '(l, this, h) := ensure_buffer h this in
  let? h := zero_units h l 0 (Z.to_nat (UnitCount (count_ this))) in
  Ok (this, h).

Definition DeepCopy (h : heap) (ref : Bitmask) : result (Bitmask * heap) :=
  let? all_true := IsAllTrue h ref in
  match all_true, buffer_ptr ref with
  | false, Some l =>
      let? '(l', h) := BitmaskBuffer_Make_from l (count_ ref) h in
      Ok (mkBitmask (Some l') (count_ ref), h)
  | _, _ => Ok (mkBitmask None (count_ ref), h)
  end.

Definition ShallowCopy (h : heap) (ref : Bitmask) : result Bitmask :=
  let? all_true := IsAllTrue h ref in
  Ok (mkBitmask (if all_true : bool then None else buffer_ptr ref) (count_ ref)).

(** [memcpy] of [n] bytes from one array of units to another. *)
Definition units_bytes (us : list Z) : bytes := concat (map (WriteBufAdv u64) us).

Fixpoint units_of (n : nat) (bs : bytes) : list Z :=
  match n with
  | O => []
  | S n' => of_le (take 8 bs) :: units_of n' (drop 8 bs)
  end.

Definition memcpy_units (dst src : list Z) (n : Z) : result (list Z) :=
  if decide (n ≤ 8 * zlen dst ∧ n ≤ 8 * zlen src) then
    Ok (units_of (length dst)
          (take (Z.to_nat n) (units_bytes src) ++ drop (Z.to_nat n) (units_bytes dst)))
  else Err OutOfBounds.

Definition Resize (h : heap) (this : Bitmask) (new_count : Z) : result (Bitmask * heap) :=
  if not_power_of_2 new_count then Err UnrecoverableError
  else if new_count <? count_ this then Err UnrecoverableError
  else match buffer_ptr this with
       | None => Ok (mkBitmask None new_count, h)
       | Some l =>
           let? '(l', h) := BitmaskBuffer_Make new_count h in
           match h !! l, h !! l' with
           | Some src, Some dst =>
               let? dst := memcpy_units dst src (count_ this / BYTE_BITS) in
               Ok (mkBitmask (Some l') new_count, <[l' := dst]> h)
           | _, _ => Err OutOfBounds
           end
       end.

(** [while (elem) { elem &= elem - 1; ++count_true; }]: each round clears the lowest set bit, so
    64 rounds are enough. *)
Fixpoint count_ones (fuel : nat) (elem count_true : Z) : Z :=
  match fuel with
  | O => count_true
  | S fuel' =>
      if elem =? 0 then count_true
      else count_ones fuel' (Z.land elem (elem - 1)) (count_true + 1)
  end.

Fixpoint count_units (h : heap) (l : loc) (i : Z) (n : nat) (count_true : Z) : result Z :=
  match n with
  | O => Ok count_true
  | S n' =>
      let? u := get_unit h l i in
      let count_true :=
        if u =? UNIT_MAX then count_true + UNIT_BITS else count_ones 64 u count_true in
      count_units h l (i + 1) n' count_true
  end.

Definition CountTrue (h : heap) (this : Bitmask) : result Z :=
  match buffer_ptr this with
  | None => Ok (count_ this)
  | Some l => count_units h l 0 (Z.to_nat (UnitCount (count_ this))) 0
  end.

Definition CountFalse (h : heap) (this : Bitmask) : result Z :=
  let? n := CountTrue h this in Ok (cast u64 (count_ this - n)).

(** [data_ptr_[i] op= other.data_ptr_[i]]. *)
Fixpoint combine_units (op : Z → Z → Z) (h : heap) (l l' : loc) (i : Z) (n : nat) : result heap :=
  match n with
  | O => Ok h
  | S n' =>
      let? u := get_unit h l i in
      let? u' := get_unit h l' i in
      let? h := set_unit h l i (op u u') in
      combine_units op h l l' (i + 1) n'
  end.

(** The tail both merges share: same buffer, counts, loop. *)
Definition merge_units (op : Z → Z → Z) (h : heap) (this other : Bitmask) : result (Bitmask * heap) :=
  if bool_decide (buffer_ptr this = buffer_ptr other) then Ok (this, h)
  else if negb (count_ this =? count_ other) then Err UnrecoverableError
  else match buffer_ptr this, buffer_ptr other with
       | Some l, Some l' =>
           let? h := combine_units op h l l' 0 (Z.to_nat (UnitCount (count_ this))) in
           Ok (this, h)
       | _, _ => Err OutOfBounds
       end.

Definition Merge (h : heap) (this other : Bitmask) : result (Bitmask * heap) :=
  let? other_all := IsAllTrue h other in
  if other_all : bool then Ok (this, h)
  else
    let? this_all := IsAllTrue h this in
    let? this := if this_all : bool then ShallowCopy h other else Ok this in
    merge_units Z.land h this other.

Definition MergeOr (h : heap) (this other : Bitmask) : result (Bitmask * heap) :=
  let? this_all := IsAllTrue h this in
  if this_all : bool then Ok (this, h)
  else
    let? other_all := IsAllTrue h other in
    if other_all : bool then Ok (SetAllTrue this, h)
    else merge_units Z.lor h this other.

Fixpoint equal_units (h : heap) (l l' : loc) (i : Z) (n : nat) : result bool :=
  match n with
  | O => Ok true
  | S n' =>
      let? u := get_unit h l i in
      let? u' := get_unit h l' i in
      if u =? u' then equal_units h l l' (i + 1) n' else Ok false
  end.

Definition Bitmask_eqb (h : heap) (this other : Bitmask) : result bool :=
  if negb (count_ this =? count_ other) then Ok false
  else if bool_decide (buffer_ptr this = buffer_ptr other) then Ok true
  else match buffer_ptr this, buffer_ptr other with
       | Some l, Some l' => equal_units h l l' 0 (Z.to_nat (UnitCount (count_ this)))
       | _, _ => Ok false
       end.

(** *** Codec *)

Definition Bitmask_GetSizeInBytes (h : heap) (this : Bitmask) : result Z :=
  let? all_true := IsAllTrue h this in
  let size := cast i32 (if all_true : bool then 0 else UnitCount (count_ this) * 8) in
  Ok (cast i32 (size + (4 + 1))).

Definition Bitmask_WriteAdv (h : heap) (this : Bitmask) : result bytes :=
  let? all_true := IsAllTrue h this in
  let head := WriteBufAdv i32 (cast i32 (count_ this))
              ++ WriteBufAdv i8 (if all_true : bool then 1 else 0) in
  match all_true, buffer_ptr this with
  | false, Some l =>
      let n := cast i32 (UnitCount (count_ this) * 8) in
      match h !! l with
      | Some us =>
          if decide (0 ≤ n ≤ 8 * zlen us) then Ok (head ++ take (Z.to_nat n) (units_bytes us))
          else Err OutOfBounds
      | None => Err OutOfBounds
      end
  | _, _ => Ok head
  end.

(** The buffer of the mask read is a new one of the heap. *)
Definition Bitmask_ReadAdv (h : heap) : Reader (Bitmask * heap) :=
  let! count := ReadBufAdv i32 in
  let! bitmask := rlift (Bitmask_Make (cast u64 count)) in
  let! all_true := ReadBufAdv i8 in
  if all_true =? 0 then
    let n := cast i32 (UnitCount (cast u64 count) * 8) in
    let! '(bitmask, h) := rlift (SetAllFalse h bitmask) in
    match buffer_ptr bitmask with
    | Some l =>
        match h !! l with
        | Some us =>
            check! bool_decide (0 ≤ n ≤ 8 * zlen us) orelse OutOfBounds in
            let! bs := read_bytes n in
            rret (bitmask, <[l := units_of (length us) (bs ++ drop (Z.to_nat n) (units_bytes us))]> h)
        | None => rfail OutOfBounds
        end
    | None => rfail OutOfBounds
    end
  else rret (bitmask, h).

(** ** Bits of a machine word *)

Lemma land_bit u k : 0 ≤ k → negb (Z.land u (Z.shiftl 1 k) =? 0) = Z.testbit u k.
Proof.
  intros Hk. rewrite Z.shiftl_1_l. destruct (Z.testbit u k) eqn:E.
  - apply negb_true_iff, Z.eqb_neq. intros H.
    assert (Z.testbit (Z.land u (2 ^ k)) k = false) by (rewrite H; apply Z.testbit_0_l).
    rewrite Z.land_spec, E, Z.pow2_bits_true in H0 by done. done.
  - apply negb_false_iff, Z.eqb_eq. apply Z.bits_inj'. intros n Hn.
    rewrite Z.land_spec, Z.testbit_0_l. destruct (decide (n = k)) as [->|Hne]; [by rewrite E|].
    rewrite Z.pow2_bits_false by done. apply andb_false_r.
Qed.

Ltac u64_range :=
  unfold in_range in *; change (lowest u64) with 0 in *; change (modulus u64) with (2 ^ 64) in *.

Lemma u64_word a : in_range u64 a ↔ a mod 2 ^ 64 = a.
Proof.
  split; intros H.
  - apply Z.mod_small. u64_range. lia.
  - pose proof (Z.mod_pos_bound a (2 ^ 64) ltac:(lia)). rewrite H in H0. u64_range. lia.
Qed.

Lemma u64_land a b : in_range u64 a → in_range u64 (Z.land a b).
Proof.
  rewrite !u64_word, <- !Z.land_ones by lia. intros H.
  rewrite <- Z.land_assoc, (Z.land_comm b), Z.land_assoc, H. done.
Qed.

Lemma u64_lor a b : in_range u64 a → in_range u64 b → in_range u64 (Z.lor a b).
Proof.
  rewrite !u64_word, <- !Z.land_ones by lia. intros Ha Hb. by rewrite Z.land_lor_distr_l, Ha, Hb.
Qed.

Lemma u64_bit k : 0 ≤ k < 64 → in_range u64 (Z.shiftl 1 k).
Proof.
  intros Hk. rewrite Z.shiftl_1_l.
  assert (2 ^ k < 2 ^ 64) by (apply Z.pow_lt_mono_r; lia).
  pose proof (Z.pow_pos_nonneg 2 k ltac:(lia) ltac:(lia)).
  u64_range. lia.
Qed.

Lemma set_bit u k j : 0 ≤ k → 0 ≤ j →
  Z.testbit (Z.lor u (Z.shiftl 1 k)) j = if decide (j = k) then true else Z.testbit u j.
Proof.
  intros Hk Hj. rewrite Z.lor_spec, Z.shiftl_1_l. case_decide as H.
  - subst. rewrite Z.pow2_bits_true by done. apply orb_true_r.
  - rewrite Z.pow2_bits_false by done. apply orb_false_r.
Qed.

(** The conversion of [~x] to [u64] keeps its low 64 bits. *)
Lemma clear_bit u k j : 0 ≤ k < 64 → 0 ≤ j < 64 →
  Z.testbit (Z.land u (cast u64 (Z.lnot (Z.shiftl 1 k)))) j = if decide (j = k) then false else Z.testbit u j.
Proof.
  intros Hk Hj. rewrite Z.land_spec.
  assert (Hb : Z.testbit (cast u64 (Z.lnot (Z.shiftl 1 k))) j = Z.testbit (Z.lnot (Z.shiftl 1 k)) j).
  { unfold cast. change (lowest u64) with 0. rewrite Z.sub_0_r, Z.add_0_r.
    change (modulus u64) with (2 ^ 64). apply Z.mod_pow2_bits_low. lia. }
  rewrite Hb, Z.lnot_spec, Z.shiftl_1_l by lia. case_decide as H.
  - subst. rewrite Z.pow2_bits_true by lia. apply andb_false_r.
  - rewrite Z.pow2_bits_false by done. apply andb_true_r.
Qed.

Lemma unit_max_bit j : 0 ≤ j < 64 → Z.testbit UNIT_MAX j = true.
Proof. intros Hj. unfold UNIT_MAX. change (2 ^ 64 - 1) with (Z.ones 64). apply Z.ones_spec_low. lia. Qed.

Lemma unit_max_iff u : in_range u64 u → (u = UNIT_MAX ↔ ∀ j, 0 ≤ j < 64 → Z.testbit u j = true).
Proof.
  intros Hu. split; [intros -> j; apply unit_max_bit|].
  intros H. apply Z.bits_inj'. intros j Hj. destruct (decide (j < 64)) as [?|?].
  - rewrite H, unit_max_bit by lia. done.
  - assert (Hh : ∀ a, in_range u64 a → Z.testbit a j = false).
    { intros a Ha. apply u64_word in Ha. rewrite <- Ha. apply Z.mod_pow2_bits_high. lia. }
    rewrite !Hh; [done| |done]. unfold UNIT_MAX. solve_range.
Qed.

(** *** Population count *)

Fixpoint pop (n : nat) (u : Z) : Z :=
  match n with
  | O => 0
  | S n' => (if Z.testbit u (Z.of_nat n') then 1 else 0) + pop n' u
  end.

Lemma pop_range n u : 0 ≤ pop n u ≤ Z.of_nat n.
Proof. induction n as [|n IH]; simpl pop; [lia|]. destruct (Z.testbit u (Z.of_nat n)); lia. Qed.

Lemma pop_ext n u v : (∀ j, 0 ≤ j < Z.of_nat n → Z.testbit u j = Z.testbit v j) → pop n u = pop n v.
Proof.
  induction n as [|n IH]; intros H; simpl; [done|]. rewrite H, IH; [done| |lia]. intros. apply H. lia.
Qed.

Lemma pop_zero n : pop n 0 = 0.
Proof. induction n as [|n IH]; simpl; [done|]. by rewrite Z.testbit_0_l. Qed.

(** [u & (u - 1)] clears the lowest set bit. *)
Lemma land_pred u : 0 < u →
  ∃ k, 0 ≤ k ∧ Z.testbit u k = true ∧
    ∀ j, 0 ≤ j → Z.testbit (Z.land u (u - 1)) j = if decide (j = k) then false else Z.testbit u j.
Proof.
  intros Hu. destruct u as [|p|p]; try lia. clear Hu. induction p as [p _|p IH|].
  - exists 0. split_and!; [lia|done|]. intros j Hj.
    change (Z.pos p~1 - 1) with (Z.pos p~0). rewrite Z.land_spec.
    destruct (decide (j = 0)) as [->|Hne]; [done|].
    replace j with (Z.succ (j - 1)) by lia.
    change (Z.pos p~1) with (2 * Z.pos p + 1). change (Z.pos p~0) with (2 * Z.pos p).
    rewrite Z.testbit_odd_succ, Z.testbit_even_succ by lia. apply andb_diag.
  - destruct IH as (k & Hk & Hb & IH). exists (Z.succ k).
    change (Z.pos p~0) with (2 * Z.pos p). split_and!; [lia|by rewrite Z.testbit_even_succ|].
    intros j Hj. replace (2 * Z.pos p - 1) with (2 * (Z.pos p - 1) + 1) by lia. rewrite Z.land_spec.
    destruct (decide (j = 0)) as [->|Hne].
    { rewrite Z.testbit_even_0. rewrite decide_False by lia. done. }
    replace j with (Z.succ (j - 1)) by lia.
    rewrite Z.testbit_odd_succ, Z.testbit_even_succ, <- Z.land_spec, IH by lia.
    repeat case_decide; try lia; done.
  - exists 0. split_and!; [lia|done|]. intros j Hj. change (1 - 1) with 0. rewrite Z.land_0_r, Z.testbit_0_l.
    case_decide as H; [done|]. change 1 with (2 ^ 0). by rewrite Z.pow2_bits_false.
Qed.

Lemma pop_clear n u v k :
  0 ≤ k < Z.of_nat n → Z.testbit u k = true →
  (∀ j, 0 ≤ j → Z.testbit v j = if decide (j = k) then false else Z.testbit u j) →
  pop n u = 1 + pop n v.
Proof.
  intros Hk Hb Hv. induction n as [|n IH]; [lia|]. simpl pop.
  destruct (decide (k = Z.of_nat n)) as [->|Hne].
  - rewrite Hb, (Hv (Z.of_nat n)), decide_True by lia.
    rewrite (pop_ext n u v); [lia|]. intros j Hj. by rewrite Hv, decide_False by lia.
  - rewrite IH, (Hv (Z.of_nat n)), decide_False by lia. lia.
Qed.

Lemma u64_high u k : in_range u64 u → 0 ≤ k → Z.testbit u k = true → k < 64.
Proof.
  intros Hu Hk Hb. apply u64_word in Hu. destruct (decide (k < 64)) as [|Hn]; [done|].
  rewrite <- Hu, Z.mod_pow2_bits_high in Hb by lia. done.
Qed.

Lemma count_ones_pop fuel u acc :
  in_range u64 u → pop 64 u ≤ Z.of_nat fuel → count_ones fuel u acc = acc + pop 64 u.
Proof.
  revert u acc. induction fuel as [|fuel IH]; intros u acc Hu Hf.
  - pose proof (pop_range 64 u). cbn [count_ones]. lia.
  - cbn [count_ones]. destruct (u =? 0) eqn:E.
    { apply Z.eqb_eq in E as ->. rewrite pop_zero. lia. }
    apply Z.eqb_neq in E. assert (0 < u) by (u64_range; lia).
    destruct (land_pred u) as (k & Hk & Hb & Hc); [done|].
    pose proof (u64_high u k Hu Hk Hb).
    pose proof (pop_clear 64 u (Z.land u (u - 1)) k ltac:(lia) Hb Hc).
    rewrite IH by (try apply u64_land; auto; lia). lia.
Qed.

Lemma count_unit u acc :
  in_range u64 u →
  (if u =? UNIT_MAX then acc + UNIT_BITS else count_ones 64 u acc) = acc + pop 64 u.
Proof.
  intros Hu. destruct (u =? UNIT_MAX) eqn:E.
  - apply Z.eqb_eq in E as ->. reflexivity.
  - apply count_ones_pop; [done|]. apply pop_range.
Qed.

(** ** Well-formed masks *)

Definition units_ok (count : Z) (us : list Z) : Prop :=
  zlen us = UnitCount count ∧ Forall (in_range u64) us.

Definition bm_ok (h : heap) (b : Bitmask) : Prop :=
  0 ≤ count_ b < 2 ^ 31 ∧ not_power_of_2 (count_ b) = false ∧
  match buffer_ptr b with
  | None => True
  | Some l => ∃ us, h !! l = Some us ∧ units_ok (count_ b) us
  end.

(** Row [i] of the mask. *)
Definition row (h : heap) (b : Bitmask) (i : Z) : bool :=
  match buffer_ptr b with
  | None => true
  | Some l =>
      match h !! l with
      | Some us => match us !! Z.to_nat (i / 64) with Some u => Z.testbit u (i mod 64) | None => false end
      | None => false
      end
  end.

(** The rows a mask holds bits for: whole units. *)
Definition in_units (b : Bitmask) (i : Z) : Prop := 0 ≤ i < 64 * UnitCount (count_ b).

Lemma UnitCount_eq c : 0 ≤ c < 2 ^ 31 → UnitCount c = (c + 63) / 64.
Proof.
  intros Hc. unfold UnitCount, UNIT_BITS. rewrite cast_id; [done|].
  change (2 ^ 31) with 2147483648 in Hc. solve_range.
Qed.

Lemma UnitCount_bound c : 0 ≤ c < 2 ^ 31 → c ≤ 64 * UnitCount c ∧ 64 * UnitCount c < c + 64.
Proof. intros Hc. rewrite UnitCount_eq by done. div_lia. Qed.

Lemma row_in_units b i : 0 ≤ count_ b < 2 ^ 31 → 0 ≤ i < count_ b → in_units b i.
Proof. intros Hc Hi. unfold in_units. pose proof (UnitCount_bound _ Hc). lia. Qed.

Lemma get_unit_ok h l us i :
  h !! l = Some us → 0 ≤ i < zlen us → ∃ u, get_unit h l i = Ok u ∧ us !! Z.to_nat i = Some u.
Proof.
  intros Hl Hi. unfold get_unit, array_at. rewrite Hl, decide_True by lia.
  destruct (us !! Z.to_nat i) as [u|] eqn:E; [eauto|].
  apply lookup_ge_None in E. unfold zlen in Hi. lia.
Qed.

Lemma set_unit_ok h l us i u :
  h !! l = Some us → 0 ≤ i < zlen us → set_unit h l i u = Ok (<[l := <[Z.to_nat i := u]> us]> h).
Proof. intros Hl Hi. unfold set_unit. by rewrite Hl, decide_True. Qed.

Lemma unit_index b (us : list Z) i :
  zlen us = UnitCount (count_ b) → in_units b i → 0 ≤ i / UNIT_BITS < zlen us.
Proof. unfold in_units, UNIT_BITS. intros -> Hi. div_lia. Qed.

Lemma index_in_unit i : i - i / UNIT_BITS * UNIT_BITS = i mod 64.
Proof. unfold UNIT_BITS. div_lia. Qed.

Lemma IsTrue_row h b i : bm_ok h b → in_units b i → IsTrue h b i = Ok (row h b i).
Proof.
  intros (Hc & _ & Hb) Hi. unfold IsTrue, row. destruct (buffer_ptr b) as [l|] eqn:E; [|done].
  destruct Hb as (us & Hl & Hlen & _).
  destruct (get_unit_ok h l us (i / UNIT_BITS) Hl) as (u & -> & Hu); [by eapply unit_index|].
  rewrite Hl. change (i / 64) with (i / UNIT_BITS). rewrite Hu. simpl.
  rewrite index_in_unit, land_bit by div_lia. done.
Qed.

(** *** Updates of one buffer *)

Lemma lookup_insert_lt {A} (l : list A) i x : (i < length l)%nat → <[i := x]> l !! i = Some x.
Proof. apply list_lookup_insert_eq. Qed.

Lemma row_store h b l us us' :
  buffer_ptr b = Some l → h !! l = Some us →
  ∀ j, row (<[l := us']> h) b j =
       match us' !! Z.to_nat (j / 64) with Some u => Z.testbit u (j mod 64) | None => false end.
Proof.
  intros Hb Hl j. unfold row. rewrite Hb, list_lookup_insert_eq; [done|]. by eapply lookup_lt_Some.
Qed.

(** A mask on another buffer does not see the update. *)
Definition separate (b c : Bitmask) : Prop :=
  match buffer_ptr c with None => True | Some l => buffer_ptr b ≠ Some l end.

Lemma frame_store h b c l us' :
  buffer_ptr b = Some l → separate b c → bm_ok h c →
  bm_ok (<[l := us']> h) c ∧ ∀ j, row (<[l := us']> h) c j = row h c j.
Proof.
  unfold separate, bm_ok, row. intros Hb Hs (Hc & Hp & Hu).
  destruct (buffer_ptr c) as [l'|]; [|done]. rewrite list_lookup_insert_ne by congruence. done.
Qed.

(** Allocation keeps every mask. *)
Lemma frame_alloc h c us : bm_ok h c → bm_ok (h ++ [us]) c ∧ ∀ j, row (h ++ [us]) c j = row h c j.
Proof.
  unfold bm_ok, row. intros (Hc & Hp & Hu). destruct (buffer_ptr c) as [l'|]; [|done].
  destruct Hu as (us' & Hl & Hok). rewrite (lookup_app_l_Some _ _ _ _ Hl), Hl. eauto 10.
Qed.

Lemma row_None h c j : buffer_ptr c = None → row h c j = true.
Proof. unfold row. by intros ->. Qed.

(** What an operation on the rows of [b] leaves of every other mask. *)
Definition frame (h h' : heap) (b : Bitmask) : Prop :=
  ∀ c, bm_ok h c → separate b c → bm_ok h' c ∧ ∀ j, row h' c j = row h c j.

Lemma fresh_units count :
  0 ≤ count < 2 ^ 31 → units_ok count (replicate (Z.to_nat (UnitCount count)) UNIT_MAX).
Proof.
  intros Hc. split.
  - unfold zlen. rewrite length_replicate. pose proof (UnitCount_bound _ Hc). lia.
  - apply Forall_replicate. unfold UNIT_MAX. solve_range.
Qed.

Lemma fresh_row h count j :
  0 ≤ count < 2 ^ 31 → 0 ≤ j < 64 * UnitCount count →
  row (h ++ [replicate (Z.to_nat (UnitCount count)) UNIT_MAX]) (mkBitmask (Some (length h)) count) j = true.
Proof.
  intros Hc Hj. unfold row. simpl. rewrite list_lookup_middle by done.
  rewrite lookup_replicate_2 by div_lia. apply unit_max_bit. div_lia.
Qed.

Lemma ensure_buffer_ok h b :
  bm_ok h b → ∃ l b' h', ensure_buffer h b = Ok (l, b', h') ∧ bm_ok h' b' ∧
    buffer_ptr b' = Some l ∧ count_ b' = count_ b ∧
    (∀ j, in_units b j → row h' b' j = row h b j) ∧
    (∀ c, bm_ok h c → separate b c → bm_ok h' c ∧ separate b' c ∧ ∀ j, row h' c j = row h c j).
Proof.
  intros Hok. pose proof Hok as (Hc & Hp & Hb). unfold ensure_buffer.
  destruct (buffer_ptr b) as [l|] eqn:E.
  { exists l, b, h. split_and!; try done. }
  unfold BitmaskBuffer_Make. rewrite Hp. simpl. do 3 eexists. split; [reflexivity|].
  split_and!; try done.
  - split; [done|]. split; [done|]. eexists. split; [by apply list_lookup_middle|]. by apply fresh_units.
  - intros j Hj. rewrite fresh_row, row_None by done. done.
  - intros c Hokc Hs. destruct (frame_alloc h c (replicate (Z.to_nat (UnitCount (count_ b))) UNIT_MAX) Hokc).
    split_and!; try done. unfold separate. simpl. destruct Hokc as (_ & _ & Hu).
    destruct (buffer_ptr c) as [l'|]; [|done]. destruct Hu as (us & Hl & _). apply lookup_lt_Some in Hl.
    intros [= <-]. lia.
Qed.

(** Storing a word into the unit of row [i]. *)
Lemma store_row h b l i u :
  bm_ok h b → buffer_ptr b = Some l → in_units b i → in_range u64 u →
  ∃ h', set_unit h l (i / UNIT_BITS) u = Ok h' ∧ bm_ok h' b ∧
    (∀ j, in_units b j → row h' b j = if decide (j / 64 = i / 64) then Z.testbit u (j mod 64) else row h b j) ∧
    frame h h' b.
Proof.
  intros Hok Hb Hi Hu. pose proof Hok as (Hc & Hp & Hx). rewrite Hb in Hx. destruct Hx as (us & Hl & Hlen & Hus).
  pose proof (unit_index b us i Hlen Hi) as Hidx.
  exists (<[l := <[Z.to_nat (i / UNIT_BITS) := u]> us]> h). split; [by apply set_unit_ok|]. split_and!.
  - split; [done|]. split; [done|]. rewrite Hb. eexists. rewrite list_lookup_insert_eq by (by eapply lookup_lt_Some).
    split; [done|]. split; [by unfold zlen; rewrite length_insert|]. by apply Forall_insert.
  - intros j Hj. rewrite (row_store h b l us) by done. change UNIT_BITS with 64. case_decide as Hd.
    + rewrite Hd, lookup_insert_lt; [done|]. unfold zlen, UNIT_BITS in Hidx. lia.
    + rewrite list_lookup_insert_ne by (unfold in_units in *; div_lia). unfold row. by rewrite Hb, Hl.
  - intros c Hokc Hs. by apply (frame_store h b).
Qed.

Lemma unit_of_row h b l i :
  bm_ok h b → buffer_ptr b = Some l → in_units b i →
  ∃ u, get_unit h l (i / UNIT_BITS) = Ok u ∧ in_range u64 u ∧
    ∀ j, j / 64 = i / 64 → row h b j = Z.testbit u (j mod 64).
Proof.
  intros (Hc & Hp & Hx) Hb Hi. rewrite Hb in Hx. destruct Hx as (us & Hl & Hlen & Hus).
  destruct (get_unit_ok h l us (i / UNIT_BITS) Hl) as (u & Hg & Hu); [by eapply unit_index|].
  exists u. split_and!; [done| |].
  - eapply Forall_lookup_1; done.
  - intros j Hj. unfold row. rewrite Hb, Hl, Hj. change (i / 64) with (i / UNIT_BITS). by rewrite Hu.
Qed.

(** *** Setting rows *)

Lemma mod_inj i j : j / 64 = i / 64 → (j mod 64 = i mod 64 ↔ j = i).
Proof. intros H. split; [div_lia|]. by intros ->. Qed.

Lemma SetTrue_ok h b i :
  bm_ok h b → in_units b i → ∃ h', SetTrue h b i = Ok (b, h') ∧ bm_ok h' b ∧
    (∀ j, in_units b j → row h' b j = if decide (j = i) then true else row h b j) ∧ frame h h' b.
Proof.
  intros Hok Hi. unfold SetTrue. destruct (buffer_ptr b) as [l|] eqn:Hb.
  2: { exists h. split_and!; try done. intros j _. rewrite !row_None by done. by case_decide. }
  destruct (unit_of_row h b l i Hok Hb Hi) as (u & -> & Hu & Hr). cbn [res_bind].
  rewrite index_in_unit.
  destruct (store_row h b l i (Z.lor u (Z.shiftl 1 (i mod 64))) Hok Hb Hi) as (h' & -> & Hok' & Hrow & Hf).
  { apply u64_lor; [done|]. apply u64_bit. div_lia. }
  exists h'. split_and!; try done. intros j Hj. rewrite Hrow by done. case_decide as Hd.
  - rewrite set_bit, (Hr j Hd) by div_lia. pose proof (mod_inj i j Hd). repeat case_decide; tauto.
  - rewrite decide_False; [done|]. by intros ->.
Qed.

Lemma SetFalse_ok h b i :
  bm_ok h b → in_units b i → ∃ b' h', SetFalse h b i = Ok (b', h') ∧ bm_ok h' b' ∧
    count_ b' = count_ b ∧
    (∀ j, in_units b j → row h' b' j = if decide (j = i) then false else row h b j) ∧ frame h h' b.
Proof.
  intros Hok Hi. unfold SetFalse.
  destruct (ensure_buffer_ok h b Hok) as (l & b1 & h1 & -> & Hok1 & Hb1 & Hc1 & Hr1 & Hf1). cbn [res_bind].
  assert (Hi1 : in_units b1 i) by (unfold in_units in *; by rewrite Hc1).
  destruct (unit_of_row h1 b1 l i Hok1 Hb1 Hi1) as (u & -> & Hu & Hr). cbn [res_bind].
  rewrite index_in_unit.
  destruct (store_row h1 b1 l i (Z.land u (cast u64 (Z.lnot (Z.shiftl 1 (i mod 64))))) Hok1 Hb1 Hi1)
    as (h' & -> & Hok' & Hrow & Hf); [by apply u64_land|].
  exists b1, h'. split_and!; try done.
  - intros j Hj. assert (in_units b1 j) by (unfold in_units in *; by rewrite Hc1).
    rewrite Hrow by done. case_decide as Hd.
    + rewrite clear_bit, <- Hr1, (Hr j Hd) by (done || div_lia).
      pose proof (mod_inj i j Hd). repeat case_decide; tauto.
    + rewrite decide_False; [by apply Hr1|]. by intros ->.
  - intros c Hokc Hs. destruct (Hf1 c Hokc Hs) as (Hc2 & Hs2 & Hr2). destruct (Hf c Hc2 Hs2) as (? & Hr3).
    split; [done|]. intros j. by rewrite Hr3, Hr2.
Qed.

Lemma Set_ok h b i v :
  bm_ok h b → in_units b i → ∃ b' h', Set_ h b i v = Ok (b', h') ∧ bm_ok h' b' ∧
    count_ b' = count_ b ∧
    (∀ j, in_units b j → row h' b' j = if decide (j = i) then v else row h b j) ∧ frame h h' b.
Proof.
  intros Hok Hi. destruct v; simpl.
  - destruct (SetTrue_ok h b i Hok Hi) as (h' & ? & ? & ? & ?). eauto 10.
  - by apply SetFalse_ok.
Qed.

(** *** Loops over the units *)

Lemma in_unit_rows (b : Bitmask) i n j :
  0 ≤ i → i + Z.of_nat n ≤ UnitCount (count_ b) → 64 * i ≤ j < 64 * (i + Z.of_nat n) → in_units b j.
Proof. unfold in_units. lia. Qed.

Lemma all_units_max_spec h b l i n :
  bm_ok h b → buffer_ptr b = Some l → 0 ≤ i → i + Z.of_nat n ≤ UnitCount (count_ b) →
  ∃ r, all_units_max h l i n = Ok r ∧
    (r = true ↔ ∀ j, 64 * i ≤ j < 64 * (i + Z.of_nat n) → row h b j = true).
Proof.
  intros Hok Hb. revert i. induction n as [|n IH]; intros i Hi Hn; cbn [all_units_max].
  { exists true. split; [done|]. split; [intros _ j Hj; lia | done]. }
  destruct (unit_of_row h b l (64 * i) Hok Hb) as (u & Hg & Hu & Hr); [unfold in_units; lia|].
  replace (64 * i / UNIT_BITS) with i in Hg by (unfold UNIT_BITS; div_lia).
  rewrite Hg. cbn [res_bind].
  assert (Hunit : u = UNIT_MAX ↔ ∀ j, 64 * i ≤ j < 64 * i + 64 → row h b j = true).
  { rewrite unit_max_iff by done. split.
    - intros H j Hj. rewrite Hr by div_lia. apply H. div_lia.
    - intros H j Hj. specialize (H (64 * i + j) ltac:(lia)). rewrite Hr in H by div_lia.
      replace ((64 * i + j) mod 64) with j in H by div_lia. done. }
  destruct (u =? UNIT_MAX) eqn:E.
  - apply Z.eqb_eq in E. destruct (IH (i + 1)) as (r & -> & Hiff); [lia..|]. exists r. split; [done|].
    rewrite Hiff. split; intros H j Hj; [|apply H; lia].
    destruct (decide (j < 64 * i + 64)); [apply Hunit; [done|lia] | apply H; lia].
  - apply Z.eqb_neq in E. exists false. split; [done|]. split; [done|]. intros H. exfalso. apply E, Hunit.
    intros j Hj. apply H. lia.
Qed.

Lemma IsAllTrue_spec h b :
  bm_ok h b → ∃ r, IsAllTrue h b = Ok r ∧ (r = true ↔ ∀ j, in_units b j → row h b j = true).
Proof.
  intros Hok. unfold IsAllTrue. destruct (buffer_ptr b) as [l|] eqn:Hb.
  - pose proof Hok as (Hc & _ & _). pose proof (UnitCount_bound _ Hc).
    destruct (all_units_max_spec h b l 0 (Z.to_nat (UnitCount (count_ b))) Hok Hb) as (r & -> & Hr); [lia..|].
    exists r. split; [done|]. rewrite Hr. unfold in_units. split; intros Hx j Hj; apply Hx; lia.
  - exists true. split; [done|]. split; [intros _ j _; by apply row_None | done].
Qed.

(** *** Counting *)

(** The number of rows from [a] on, among [n], where [f] holds. *)
Fixpoint count_from (f : Z → bool) (a : Z) (n : nat) : Z :=
  match n with
  | O => 0
  | S n' => (if f a then 1 else 0) + count_from f (a + 1) n'
  end.

Lemma count_from_app f a m n :
  count_from f a (m + n) = count_from f a m + count_from f (a + Z.of_nat m) n.
Proof.
  revert a. induction m as [|m IH]; intros a; cbn [Nat.add count_from]; [by rewrite Z.add_0_r|].
  rewrite IH. replace (a + 1 + Z.of_nat m) with (a + Z.of_nat (S m)) by lia. lia.
Qed.

Lemma count_from_ext f g a b n :
  (∀ j, 0 ≤ j < Z.of_nat n → f (a + j) = g (b + j)) → count_from f a n = count_from g b n.
Proof.
  revert a b. induction n as [|n IH]; intros a b H; cbn [count_from]; [done|].
  pose proof (H 0 ltac:(lia)) as H0. rewrite !Z.add_0_r in H0. rewrite H0. f_equal. apply IH.
  intros j Hj. rewrite <- !Z.add_assoc. apply H. lia.
Qed.

Lemma count_from_range f a n : 0 ≤ count_from f a n ≤ Z.of_nat n.
Proof. revert a. induction n as [|n IH]; intros a; cbn [count_from]; [lia|]. specialize (IH (a + 1)). destruct (f a); lia. Qed.

Lemma pop_count n u : pop n u = count_from (Z.testbit u) 0 n.
Proof.
  induction n as [|n IH]; [done|]. replace (S n) with (n + 1)%nat at 2 by lia.
  rewrite count_from_app, <- IH. cbn [pop count_from]. rewrite Z.add_0_l. lia.
Qed.

Lemma count_units_spec h b l i n acc :
  bm_ok h b → buffer_ptr b = Some l → 0 ≤ i → i + Z.of_nat n ≤ UnitCount (count_ b) →
  count_units h l i n acc = Ok (acc + count_from (row h b) (64 * i) (64 * n)).
Proof.
  intros Hok Hb. revert i acc. induction n as [|n IH]; intros i acc Hi Hn; cbn [count_units].
  { by rewrite Z.add_0_r. }
  destruct (unit_of_row h b l (64 * i) Hok Hb) as (u & Hg & Hu & Hr); [unfold in_units; lia|].
  replace (64 * i / UNIT_BITS) with i in Hg by (unfold UNIT_BITS; div_lia).
  rewrite Hg. cbn [res_bind]. rewrite count_unit, IH by (done || lia).
  replace (64 * S n)%nat with (64 + 64 * n)%nat by lia. rewrite count_from_app. f_equal.
  replace (64 * i + Z.of_nat 64) with (64 * (i + 1)) by lia.
  rewrite pop_count, (count_from_ext (Z.testbit u) (row h b) 0 (64 * i)); [lia|].
  intros j Hj. rewrite Hr by div_lia. f_equal. div_lia.
Qed.

(** A count is a power of two, hence a multiple of every smaller one. *)
Lemma power_of_2_multiple c m :
  0 ≤ m → 2 ^ m ≤ c < 2 ^ 31 → not_power_of_2 c = false → ∃ q, c = 2 ^ m * q.
Proof.
  intros Hm Hc Hp. unfold not_power_of_2 in Hp. apply negb_false_iff, Z.eqb_eq in Hp.
  pose proof (Z.pow_pos_nonneg 2 m ltac:(lia) Hm).
  rewrite cast_id in Hp by (change (2 ^ 31) with 2147483648 in Hc; solve_range).
  destruct (land_pred c) as (k & Hk & Hb & Hz); [lia|].
  assert (Hck : c = 2 ^ k).
  { apply Z.bits_inj'. intros j Hj. specialize (Hz j Hj). rewrite Hp, Z.testbit_0_l in Hz.
    rewrite Z.pow2_bits_eqb by done. case_decide as Hd; [subst; by rewrite Z.eqb_refl|].
    rewrite <- Hz. symmetry. apply Z.eqb_neq. congruence. }
  assert (m ≤ k).
  { destruct (decide (m ≤ k)); [done|]. assert (2 ^ k < 2 ^ m) by (apply Z.pow_lt_mono_r; lia). lia. }
  exists (2 ^ (k - m)). rewrite <- Z.pow_add_r by lia. by replace (m + (k - m)) with k by lia.
Qed.

Lemma power_of_2_units c :
  64 ≤ c < 2 ^ 31 → not_power_of_2 c = false → 64 * UnitCount c = c.
Proof.
  intros Hc Hp. destruct (power_of_2_multiple c 6 ltac:(lia) Hc Hp) as [q Hq].
  change (2 ^ 6) with 64 in Hq. rewrite UnitCount_eq by lia. div_lia.
Qed.

Lemma power_of_2_bytes c :
  8 ≤ c < 2 ^ 31 → not_power_of_2 c = false → 8 * (c / 8) = c.
Proof.
  intros Hc Hp. destruct (power_of_2_multiple c 3 ltac:(lia) Hc Hp) as [q Hq].
  change (2 ^ 3) with 8 in Hq. div_lia.
Qed.

Lemma CountTrue_spec h b l :
  bm_ok h b → buffer_ptr b = Some l →
  CountTrue h b = Ok (count_from (row h b) 0 (Z.to_nat (count_ b))
    + count_from (row h b) (count_ b) (Z.to_nat (64 * UnitCount (count_ b) - count_ b))).
Proof.
  intros Hok Hb. pose proof Hok as (Hc & _ & _). pose proof (UnitCount_bound _ Hc).
  unfold CountTrue. rewrite Hb, (count_units_spec h b l) by (done || lia).
  rewrite Z.add_0_l. replace (64 * Z.to_nat (UnitCount (count_ b)))%nat
    with (Z.to_nat (count_ b) + Z.to_nat (64 * UnitCount (count_ b) - count_ b))%nat by lia.
  rewrite count_from_app. do 3 f_equal. lia.
Qed.

(** *** Merging *)

Section combine.
Context (op : Z → Z → Z) (f : bool → bool → bool).
Hypothesis op_bits : ∀ u v j, 0 ≤ j → Z.testbit (op u v) j = f (Z.testbit u j) (Z.testbit v j).
Hypothesis op_range : ∀ u v, in_range u64 u → in_range u64 v → in_range u64 (op u v).

Lemma combine_units_spec b c l l' n :
  buffer_ptr b = Some l → buffer_ptr c = Some l' → l ≠ l' → count_ b = count_ c →
  ∀ h i, bm_ok h b → bm_ok h c → 0 ≤ i → i + Z.of_nat n ≤ UnitCount (count_ b) →
  ∃ h', combine_units op h l l' i n = Ok h' ∧ bm_ok h' b ∧ frame h h' b ∧
    ∀ j, in_units b j →
      row h' b j = if decide (64 * i ≤ j < 64 * (i + Z.of_nat n)) then f (row h b j) (row h c j) else row h b j.
Proof using op_bits op_range.
  intros Hb Hc Hne Hcnt. induction n as [|n IH]; intros h i Hokb Hokc Hi Hn; cbn [combine_units].
  { exists h. split_and!; try done. intros j _. rewrite decide_False by lia. done. }
  assert (Hbi : in_units b (64 * i)) by (unfold in_units; lia).
  assert (Hci : in_units c (64 * i)) by (unfold in_units; rewrite <- Hcnt; lia).
  assert (Hdiv : 64 * i / UNIT_BITS = i) by (unfold UNIT_BITS; div_lia).
  destruct (unit_of_row h b l _ Hokb Hb Hbi) as (u & Hg & Hu & Hr).
  destruct (unit_of_row h c l' _ Hokc Hc Hci) as (v & Hg' & Hv & Hr').
  destruct (store_row h b l (64 * i) (op u v) Hokb Hb Hbi) as (h1 & Hs & Hok1 & Hrow & Hf); [by apply op_range|].
  rewrite Hdiv in Hg, Hg', Hs. rewrite Hg, Hg'. cbn [res_bind]. rewrite Hs. cbn [res_bind].
  assert (Hsep : separate b c) by (unfold separate; rewrite Hc, Hb; congruence).
  destruct (Hf c Hokc Hsep) as (Hokc1 & Hrc).
  destruct (IH h1 (i + 1) Hok1 Hokc1) as (h' & -> & Hok' & Hf' & Hr''); [lia..|].
  exists h'. split_and!; try done.
  - intros d Hd Hsd. destruct (Hf d Hd Hsd) as (Hd1 & Hrd1). destruct (Hf' d Hd1 Hsd) as (? & Hrd2).
    split; [done|]. intros j. by rewrite Hrd2, Hrd1.
  - intros j Hj. rewrite Hr'', Hrow, Hrc by done. repeat case_decide; try done; try (unfold in_units in *; div_lia).
    rewrite op_bits, Hr, Hr' by (done || div_lia). done.
Qed.

Lemma merge_units_spec h b c l l' :
  buffer_ptr b = Some l → buffer_ptr c = Some l' → (∀ x, f x x = x) → bm_ok h b → bm_ok h c →
  count_ b = count_ c →
  ∃ h', merge_units op h b c = Ok (b, h') ∧ bm_ok h' b ∧ frame h h' b ∧
    ∀ j, in_units b j → row h' b j = f (row h b j) (row h c j).
Proof using op_bits op_range.
  intros Hb Hc Hidem Hokb Hokc Hcnt. unfold merge_units. rewrite Hb, Hc, Hcnt, Z.eqb_refl.
  case_bool_decide as Heq; simpl.
  - exists h. split_and!; try done. intros j _. simplify_eq. unfold row. by rewrite Hb, Hc, Hidem.
  - pose proof Hokc as (Hr & _ & _). pose proof (UnitCount_bound _ Hr).
    destruct (combine_units_spec b c l l' (Z.to_nat (UnitCount (count_ c))) Hb Hc ltac:(congruence) Hcnt h 0)
      as (h' & -> & Hok' & Hf & Hrow); try done; [rewrite Hcnt; lia|].
    exists h'. split_and!; try done. intros j Hj. rewrite Hrow, decide_True; [done| |done].
    unfold in_units in Hj. rewrite Hcnt in Hj. lia.
Qed.
End combine.

Lemma not_all_true_buffer h b : IsAllTrue h b = Ok false → ∃ l, buffer_ptr b = Some l.
Proof. unfold IsAllTrue. destruct (buffer_ptr b); [eauto | done]. Qed.

Lemma Merge_ok h b c :
  bm_ok h b → bm_ok h c → count_ b = count_ c →
  ∃ b' h', Merge h b c = Ok (b', h') ∧ bm_ok h' b' ∧ count_ b' = count_ b ∧
    ∀ j, in_units b j → row h' b' j = row h b j && row h c j.
Proof.
  intros Hokb Hokc Hcnt. unfold Merge.
  destruct (IsAllTrue_spec h c Hokc) as (rc & -> & Hrc). cbn [res_bind].
  destruct rc.
  { exists b, h. split_and!; try done. intros j Hj. rewrite (proj1 Hrc eq_refl), andb_true_r; [done|].
    unfold in_units in *. by rewrite <- Hcnt. }
  destruct (IsAllTrue_spec h b Hokb) as (rb & Hb & Hrb). rewrite Hb. cbn [res_bind].
  destruct (IsAllTrue_spec h c Hokc) as (rc & Hc & Hrc').
  assert (rc = false) as -> by (destruct rc; [symmetry; apply Hrc, Hrc'; done | done]).
  destruct (not_all_true_buffer _ _ Hc) as [l' Hl'].
  destruct rb; cbn [res_bind].
  - unfold ShallowCopy. rewrite Hc. cbn [res_bind]. unfold merge_units. simpl.
    rewrite bool_decide_eq_true_2 by done. do 2 eexists. split; [reflexivity|].
    split_and!; try done. intros j Hj. rewrite (proj1 Hrb eq_refl) by done. unfold row. simpl. by rewrite Hl'.
  - destruct (not_all_true_buffer _ _ Hb) as [l Hl].
    destruct (merge_units_spec Z.land andb) with (h := h) (b := b) (c := c) (l := l) (l' := l')
      as (h' & -> & Hok' & _ & Hrow); try done.
    + intros. apply Z.land_spec.
    + intros. by apply u64_land.
    + apply andb_diag.
    + exists b, h'. done.
Qed.

Lemma MergeOr_ok h b c :
  bm_ok h b → bm_ok h c → count_ b = count_ c →
  ∃ b' h', MergeOr h b c = Ok (b', h') ∧ bm_ok h' b' ∧ count_ b' = count_ b ∧
    ∀ j, in_units b j → row h' b' j = row h b j || row h c j.
Proof.
  intros Hokb Hokc Hcnt. unfold MergeOr.
  destruct (IsAllTrue_spec h b Hokb) as (rb & Hb & Hrb). rewrite Hb. cbn [res_bind].
  destruct rb.
  { exists b, h. split_and!; try done. intros j Hj. by rewrite (proj1 Hrb eq_refl). }
  destruct (IsAllTrue_spec h c Hokc) as (rc & Hc & Hrc). rewrite Hc. cbn [res_bind].
  destruct rc.
  { do 2 eexists. split; [reflexivity|]. destruct Hokb as (? & ? & _). split_and!; try done.
    intros j Hj. rewrite row_None by done. rewrite (proj1 Hrc eq_refl), orb_true_r; [done|].
    unfold in_units in *. by rewrite <- Hcnt. }
  destruct (not_all_true_buffer _ _ Hb) as [l Hl]. destruct (not_all_true_buffer _ _ Hc) as [l' Hl'].
  destruct (merge_units_spec Z.lor orb) with (h := h) (b := b) (c := c) (l := l) (l' := l')
    as (h' & -> & Hok' & _ & Hrow); try done.
  - intros. apply Z.lor_spec.
  - intros. by apply u64_lor.
  - apply orb_diag.
  - exists b, h'. done.
Qed.

(** *** Copying bytes between buffers *)

Lemma units_bytes_cons u us : units_bytes (u :: us) = to_le 8 u ++ units_bytes us.
Proof. unfold units_bytes. cbn [map concat]. by rewrite WriteBufAdv_le. Qed.

Lemma length_units_bytes us : length (units_bytes us) = (8 * length us)%nat.
Proof.
  induction us as [|u us IH]; [done|].
  rewrite units_bytes_cons, length_app, length_to_le, IH. cbn [length]. lia.
Qed.

Lemma units_bytes_ok us : Forall byte_ok (units_bytes us).
Proof. induction us; [constructor|]. rewrite units_bytes_cons. apply Forall_app; split; [apply to_le_ok | done]. Qed.

(** Bit [j] of the array of units that the bytes [bs] hold. *)
Definition bit_at (bs : bytes) (j : Z) : bool :=
  match bs !! Z.to_nat (j / 8) with Some b => Z.testbit b (j mod 8) | None => false end.

Lemma units_of_bit n bs j :
  Forall byte_ok bs → length bs = (8 * n)%nat → 0 ≤ j < 64 * Z.of_nat n →
  match units_of n bs !! Z.to_nat (j / 64) with Some u => Z.testbit u (j mod 64) | None => false end
  = bit_at bs j.
Proof.
  revert bs j. induction n as [|n IH]; intros bs j Hbs Hlen Hj; [lia|]. cbn [units_of].
  destruct (decide (j < 64)) as [Hlt|Hge].
  - rewrite (Z.div_small j 64), (Z.mod_small j 64) by lia. simpl.
    rewrite testbit_of_le by (try apply Forall_take; done || lia). unfold bit_at.
    rewrite lookup_take_lt by div_lia. done.
  - replace (Z.to_nat (j / 64)) with (S (Z.to_nat ((j - 64) / 64))) by div_lia. simpl.
    replace (j mod 64) with ((j - 64) mod 64) by div_lia.
    rewrite IH; [|by apply Forall_drop|rewrite length_drop; lia|lia].
    unfold bit_at. rewrite lookup_drop. replace ((j - 64) mod 8) with (j mod 8) by div_lia.
    replace (8 + Z.to_nat ((j - 64) / 8))%nat with (Z.to_nat (j / 8)) by div_lia. done.
Qed.

Lemma units_of_ok n bs : Forall byte_ok bs → length bs = (8 * n)%nat →
  length (units_of n bs) = n ∧ Forall (in_range u64) (units_of n bs).
Proof.
  revert bs. induction n as [|n IH]; intros bs Hbs Hlen; cbn [units_of]; [done|].
  destruct (IH (drop 8 bs)) as [H1 H2]; [by apply Forall_drop|rewrite length_drop; lia|].
  split; [by simpl; rewrite H1|]. constructor; [|done].
  pose proof (of_le_range (take 8 bs) ltac:(by apply Forall_take)) as Hr.
  unfold zlen in Hr. rewrite length_take_le in Hr by lia. change (2 ^ (8 * Z.of_nat 8)) with (2 ^ 64) in Hr.
  u64_range. lia.
Qed.

Lemma units_of_units_bytes us : Forall (in_range u64) us → units_of (length us) (units_bytes us) = us.
Proof.
  induction 1 as [|u us Hu _ IH]; [done|]. cbn [length units_of]. rewrite units_bytes_cons.
  rewrite take_app_length' by (by rewrite length_to_le). rewrite drop_app_length' by (by rewrite length_to_le).
  rewrite IH, of_to_le. f_equal. change (2 ^ (8 * Z.of_nat 8)) with (2 ^ 64). by apply u64_word.
Qed.

Lemma unit_bit us j :
  Forall (in_range u64) us → 0 ≤ j < 64 * zlen us →
  match us !! Z.to_nat (j / 64) with Some u => Z.testbit u (j mod 64) | None => false end
  = bit_at (units_bytes us) j.
Proof.
  intros Hus Hj. rewrite <- (units_of_bit (length us)).
  - by rewrite units_of_units_bytes.
  - apply units_bytes_ok.
  - apply length_units_bytes.
  - done.
Qed.

(** [memcpy] of whole bytes replaces the bits below it. *)
Lemma memcpy_units_spec dst src n :
  Forall (in_range u64) dst → Forall (in_range u64) src → 0 ≤ n → n ≤ 8 * zlen dst → n ≤ 8 * zlen src →
  ∃ us, memcpy_units dst src n = Ok us ∧ length us = length dst ∧ Forall (in_range u64) us ∧
    ∀ j, 0 ≤ j < 64 * zlen dst →
      match us !! Z.to_nat (j / 64) with Some u => Z.testbit u (j mod 64) | None => false end
      = if decide (j < 8 * n) then bit_at (units_bytes src) j else bit_at (units_bytes dst) j.
Proof.
  intros Hd Hs Hn Hnd Hns. unfold memcpy_units. rewrite decide_True by done.
  set (bs := take (Z.to_nat n) (units_bytes src) ++ drop (Z.to_nat n) (units_bytes dst)).
  assert (Hl : length (take (Z.to_nat n) (units_bytes src)) = Z.to_nat n).
  { apply length_take_le. rewrite length_units_bytes. unfold zlen in Hns. lia. }
  assert (Hlen : length bs = (8 * length dst)%nat).
  { unfold bs. rewrite length_app, Hl, length_drop, length_units_bytes. unfold zlen in Hnd. lia. }
  assert (Hok : Forall byte_ok bs).
  { apply Forall_app; split; [apply Forall_take | apply Forall_drop]; apply units_bytes_ok. }
  eexists. split; [reflexivity|]. destruct (units_of_ok (length dst) bs Hok Hlen) as [H1 H2].
  split_and!; try done. intros j Hj. rewrite units_of_bit by done. unfold bit_at, bs. case_decide as Hlt.
  - rewrite lookup_app_l by (rewrite Hl; div_lia). rewrite lookup_take_lt by div_lia. done.
  - rewrite lookup_app_r by (rewrite Hl; div_lia). rewrite Hl, lookup_drop.
    replace (Z.to_nat n + (Z.to_nat (j / 8) - Z.to_nat n))%nat with (Z.to_nat (j / 8)) by div_lia. done.
Qed.

(** *** Resizing *)

Lemma UnitCount_mono a b : 0 ≤ a ≤ b → b < 2 ^ 31 → UnitCount a ≤ UnitCount b.
Proof. intros. rewrite !UnitCount_eq by lia. div_lia. Qed.

Lemma Resize_ok h b n :
  bm_ok h b → not_power_of_2 n = false → count_ b ≤ n < 2 ^ 31 →
  ∃ b' h', Resize h b n = Ok (b', h') ∧ bm_ok h' b' ∧ count_ b' = n ∧
    ∀ j, in_units b' j → row h' b' j = if decide (j < 8 * (count_ b / 8)) then row h b j else true.
Proof.
  intros Hok Hp Hn. pose proof Hok as (Hc & _ & Hb). unfold Resize.
  rewrite Hp, (proj2 (Z.ltb_ge _ _)) by lia. destruct (buffer_ptr b) as [l|] eqn:Eb.
  2: { do 2 eexists. split; [reflexivity|]. split_and!; [|done|].
       - split_and!; [simpl; lia..|done|done].
       - intros j _. rewrite !row_None by done. by case_decide. }
  destruct Hb as (src & Hl & Hlen & Hsrc). unfold BitmaskBuffer_Make. rewrite Hp. cbn [res_bind].
  set (dst := replicate (Z.to_nat (UnitCount n)) UNIT_MAX).
  rewrite (lookup_app_l_Some _ _ _ _ Hl), list_lookup_middle by done.
  destruct (fresh_units n ltac:(lia)) as [Hdlen Hdst].
  pose proof (UnitCount_bound _ Hc). pose proof (UnitCount_mono (count_ b) n ltac:(lia) ltac:(lia)).
  destruct (memcpy_units_spec dst src (count_ b / BYTE_BITS)) as (us & -> & Hul & Hus & Hbits);
    try done; [fold dst in Hdlen; unfold BYTE_BITS; rewrite ?Hdlen, ?Hlen; div_lia..|].
  cbn [res_bind]. do 2 eexists. split; [reflexivity|].
  assert (Hin : <[length h := us]> (h ++ [dst]) !! length h = Some us)
    by (apply list_lookup_insert_eq; rewrite length_app; simpl; lia).
  split_and!; [|done|].
  - split; [simpl; lia|]. split; [done|]. simpl. eexists. split; [exact Hin|].
    split; [|done]. unfold zlen in *. by rewrite Hul.
  - intros j Hj. unfold in_units in Hj. simpl in Hj. unfold row at 1. simpl. rewrite Hin.
    fold dst in Hdlen. rewrite Hbits by (rewrite Hdlen; lia). unfold BYTE_BITS. case_decide as Hlt.
    + unfold row. rewrite Eb, Hl, <- unit_bit; [done..|]. rewrite Hlen. div_lia.
    + rewrite <- unit_bit by (try done; rewrite Hdlen; lia). unfold dst.
      rewrite lookup_replicate_2 by div_lia. apply unit_max_bit. div_lia.
Qed.

(** *** Codec *)

Lemma count_cast b : 0 ≤ count_ b < 2 ^ 31 → cast u64 (cast i32 (count_ b)) = count_ b.
Proof.
  intros H. change (2 ^ 31) with 2147483648 in H.
  rewrite (cast_id i32) by solve_range. apply cast_id. solve_range.
Qed.

Lemma bytes_cast b : 0 ≤ count_ b < 2 ^ 31 → cast i32 (UnitCount (count_ b) * 8) = UnitCount (count_ b) * 8.
Proof.
  intros H. pose proof (UnitCount_bound _ H). change (2 ^ 31) with 2147483648 in H.
  apply cast_id. solve_range.
Qed.

(** What a mask is once stored and read: the same rows; all-true masks lose their buffer. *)
Lemma Bitmask_write_shape h b :
  bm_ok h b → ∃ bs all_true, Bitmask_WriteAdv h b = Ok bs ∧ IsAllTrue h b = Ok all_true ∧
    bs = WriteBufAdv i32 (cast i32 (count_ b)) ++ WriteBufAdv i8 (if all_true : bool then 1 else 0) ++
         (if all_true : bool then [] else
          match buffer_ptr b with
          | Some l => match h !! l with Some us => units_bytes us | None => [] end
          | None => [] end).
Proof.
  intros Hok. destruct (IsAllTrue_spec h b Hok) as (r & Hr & _). unfold Bitmask_WriteAdv. rewrite Hr.
  cbn [res_bind]. destruct r; [do 2 eexists; split; [done|split; [done|by rewrite app_nil_r]]|].
  destruct (not_all_true_buffer _ _ Hr) as [l Hl]. pose proof Hok as (Hc & _ & Hb). rewrite Hl in *.
  destruct Hb as (us & Hus & Hlen & _). rewrite Hus, bytes_cast by done.
  pose proof (UnitCount_bound _ Hc). rewrite decide_True by (rewrite Hlen; lia).
  do 2 eexists. split; [reflexivity|]. split; [done|]. rewrite <- app_assoc. do 2 f_equal.
  apply take_ge. rewrite length_units_bytes. unfold zlen in Hlen. lia.
Qed.

Lemma zero_units_spec n : ∀ h l us i,
  h !! l = Some us → 0 ≤ i → i + Z.of_nat n ≤ zlen us →
  ∃ us', zero_units h l i n = Ok (<[l := us']> h) ∧ length us' = length us ∧
    ∀ k, us' !! k = if decide (i ≤ Z.of_nat k < i + Z.of_nat n) then Some 0 else us !! k.
Proof.
  induction n as [|n IH]; intros h l us i Hl Hi Hn; cbn [zero_units].
  { exists us. rewrite list_insert_id by done. split_and!; try done. intros k. by rewrite decide_False by lia. }
  rewrite (set_unit_ok h l us) by (done || lia). cbn [res_bind].
  destruct (IH (<[l := <[Z.to_nat i := 0]> us]> h) l (<[Z.to_nat i := 0]> us) (i + 1)) as (us' & -> & Hlen & Hk).
  - apply list_lookup_insert_eq. by eapply lookup_lt_Some.
  - lia.
  - unfold zlen in *. rewrite length_insert. lia.
  - rewrite list_insert_insert_eq. exists us'. rewrite length_insert in Hlen. split_and!; try done. intros k. rewrite Hk.
    destruct (decide (k = Z.to_nat i)) as [->|Hne].
    + rewrite decide_False, decide_True by lia. apply list_lookup_insert_eq. unfold zlen in Hn. lia.
    + rewrite list_lookup_insert_ne by done. repeat case_decide; (done || lia).
Qed.

Lemma SetAllFalse_ok h b :
  bm_ok h b → ∃ b' h' l us, SetAllFalse h b = Ok (b', h') ∧ bm_ok h' b' ∧ count_ b' = count_ b ∧
    buffer_ptr b' = Some l ∧ h' !! l = Some us ∧ zlen us = UnitCount (count_ b) ∧
    (∀ j, in_units b j → row h' b' j = false) ∧ frame h h' b.
Proof.
  intros Hok. pose proof Hok as (Hc & Hp & _). unfold SetAllFalse.
  destruct (ensure_buffer_ok h b Hok) as (l & b1 & h1 & -> & Hok1 & Hb1 & Hc1 & _ & Hf1). cbn [res_bind].
  pose proof Hok1 as (_ & _ & Hx). rewrite Hb1 in Hx. destruct Hx as (us & Hl & Hlen & Hus).
  pose proof (UnitCount_bound _ Hc). rewrite Hc1 in *.
  destruct (zero_units_spec (Z.to_nat (UnitCount (count_ b))) h1 l us 0) as (us' & -> & Hlen' & Hk);
    [done|lia|lia|]. cbn [res_bind].
  assert (Hl' : <[l := us']> h1 !! l = Some us') by (apply list_lookup_insert_eq; by eapply lookup_lt_Some).
  assert (Hzero : ∀ k u, us' !! k = Some u → u = 0).
  { intros k u Hu. rewrite Hk in Hu. case_decide as Hd; [congruence|].
    apply lookup_lt_Some in Hu. unfold zlen in Hlen. lia. }
  exists b1, (<[l := us']> h1), l, us'. split_and!; try done.
  - split; [by rewrite Hc1|]. split; [by rewrite Hc1|]. rewrite Hb1, Hc1. exists us'. split; [done|].
    split; [unfold zlen in *; by rewrite Hlen'|]. apply Forall_lookup. intros k u Hu.
    rewrite (Hzero k u Hu). solve_range.
  - unfold zlen in *. by rewrite Hlen'.
  - intros j Hj. rewrite (row_store h1 b1 l us) by done. destruct (us' !! _) as [u|] eqn:Eu; [|done].
    rewrite (Hzero _ _ Eu). apply Z.testbit_0_l.
  - intros c Hokc Hs. destruct (Hf1 c Hokc Hs) as (Hc2 & Hs2 & Hr2).
    destruct (frame_store h1 b1 c l us' Hb1 Hs2 Hc2) as (? & Hr3). split; [done|]. intros j. by rewrite Hr3.
Qed.

Lemma Bitmask_ReadAdv_write hw h b bs rest :
  bm_ok hw b → Bitmask_WriteAdv hw b = Ok bs →
  ∃ b' h', Bitmask_ReadAdv h (bs ++ rest) = Ok ((b', h'), rest) ∧ bm_ok h' b' ∧ count_ b' = count_ b ∧
    (∀ j, in_units b j → row h' b' j = row hw b j) ∧
    (∀ c, bm_ok h c → bm_ok h' c ∧ ∀ j, row h' c j = row h c j).
Proof.
  intros Hok Hw. pose proof Hok as (Hc & Hp & Hb).
  destruct (Bitmask_write_shape hw b Hok) as (bs' & r & Hw' & Hr & ->). rewrite Hw in Hw'. injection Hw' as ->.
  destruct (IsAllTrue_spec hw b Hok) as (r' & Hr' & Hiff). rewrite Hr in Hr'. injection Hr' as <-.
  assert (Hok0 : bm_ok h (mkBitmask None (count_ b))) by done.
  unfold Bitmask_ReadAdv. rewrite <- !app_assoc. read_fields. rewrite count_cast, bytes_cast by done.
  rewrite (rbind_lift _ _ _ (mkBitmask None (count_ b))) by (unfold Bitmask_Make, Initialize; by rewrite Hp).
  erewrite rbind_step by (apply ReadBufAdv_write; destruct r; solve_range). destruct r.
  { exists (mkBitmask None (count_ b)), h. split; [done|]. split_and!; try done.
    intros j Hj. rewrite row_None by done. by rewrite (proj1 Hiff eq_refl). }
  destruct (not_all_true_buffer _ _ Hr) as [lw Hlw]. rewrite Hlw in *. destruct Hb as (usw & Husw & Hlenw & Hrw).
  rewrite Husw. destruct (SetAllFalse_ok h _ Hok0) as (b' & h1 & l & us & Hs & Hok1 & Hc1 & Hb1 & Hl & Hlen & _ & Hf).
  simpl in Hc1, Hlen. change (0 =? 0) with true. cbv beta iota zeta.
  erewrite rbind_lift by exact Hs. cbv beta iota zeta. rewrite Hb1, Hl.
  pose proof (UnitCount_bound _ Hc).
  rewrite rbind_check by (apply bool_decide_eq_true_2; rewrite Hlen; lia).
  erewrite rbind_step by (apply read_bytes_app; unfold zlen in *; rewrite length_units_bytes; lia).
  rewrite drop_ge, app_nil_r by (rewrite length_units_bytes; unfold zlen in *; lia).
  replace (length us) with (length usw) by (unfold zlen in *; lia). rewrite units_of_units_bytes by done.
  assert (Hl2 : <[l := usw]> h1 !! l = Some usw) by (apply list_lookup_insert_eq; by eapply lookup_lt_Some).
  do 2 eexists. split; [reflexivity|]. split_and!; [|done|..].
  - split; [by rewrite Hc1|]. split; [by rewrite Hc1|]. rewrite Hb1, Hc1. exists usw. done.
  - intros j Hj. rewrite (row_store h1 b' l us) by done. unfold row. by rewrite Hlw, Husw.
  - intros c Hokc. destruct (decide (buffer_ptr c = Some l)) as [Ec|Ec].
    + exfalso. destruct Hokc as (_ & _ & Hx). rewrite Ec in Hx. destruct Hx as (usc & Hlc & _).
      unfold SetAllFalse, ensure_buffer, BitmaskBuffer_Make in Hs. simpl in Hs. rewrite Hp in Hs.
      cbn [res_bind] in Hs. inv_ok. simplify_eq/=. apply lookup_lt_Some in Hlc. lia.
    + destruct (Hf c Hokc) as (Hc2 & Hr2); [unfold separate; destruct (buffer_ptr c); [discriminate|done]|].
      destruct (frame_store h1 b' c l usw Hb1) as (? & Hr3); [|done|].
      { unfold separate. destruct (buffer_ptr c); [rewrite Hb1; congruence|done]. }
      split; [done|]. intros j. by rewrite Hr3.
Qed.

(** ** Theorems *)

Section theorems.
Context (h : heap) (b : Bitmask).
Hypothesis Hok : bm_ok h b.

Lemma in_rows i : 0 ≤ i < count_ b → in_units b i.
Proof using Hok. apply row_in_units. apply Hok. Qed.

Lemma IsTrue_rows i : 0 ≤ i < count_ b → IsTrue h b i = Ok (row h b i).
Proof using Hok. intros. by apply IsTrue_row, in_rows. Qed.
End theorems.

(** Setting a row changes that row and no other row of the mask, keeps the mask well formed,
    and is invisible to every mask that does not share its buffer. *)
Theorem bitmask_set h b i v (Hok : bm_ok h b) (Hi : 0 ≤ i < count_ b) :
  ∃ b' h', Set_ h b i v = Ok (b', h') ∧ bm_ok h' b' ∧ count_ b' = count_ b ∧
    (∀ j, 0 ≤ j < count_ b → IsTrue h' b' j = if decide (j = i) then Ok v else IsTrue h b j) ∧
    (∀ c j, bm_ok h c → separate b c → 0 ≤ j < count_ c → IsTrue h' c j = IsTrue h c j).
Proof.
  destruct (Set_ok h b i v Hok) as (b' & h' & Hs & Hok' & Hc & Hr & Hf); [by apply (in_rows h)|].
  exists b', h'. split_and!; try done.
  - intros j Hj. rewrite (IsTrue_rows h' b' Hok') by (rewrite Hc; lia).
    rewrite Hr by (by apply (in_rows h)). rewrite (IsTrue_rows h b Hok) by done. by case_decide.
  - intros c j Hokc Hsep Hj. destruct (Hf c Hokc Hsep) as (Hokc' & Hrc).
    rewrite (IsTrue_rows h' c Hokc'), (IsTrue_rows h c Hokc), Hrc by done. done.
Qed.

Example bitmask_set_witness :
  ∃ b' h', Set_ [] (mkBitmask None 1024) 70 false = Ok (b', h') ∧ IsTrue h' b' 70 = Ok false ∧
    IsTrue h' b' 71 = Ok true.
Proof.
  destruct (bitmask_set [] (mkBitmask None 1024) 70 false) as (b' & h' & H1 & _ & _ & H2 & _);
    [split; [|done]; simpl; lia | simpl; lia |].
  exists b', h'. split; [done|].
  split; [rewrite H2 by (simpl; lia) | rewrite H2 by (simpl; lia)]; reflexivity.
Defined.

(** [Merge] is the conjunction and [MergeOr] the disjunction of two masks of the same length,
    row by row, whatever buffers they own or share. *)
Theorem bitmask_merge h b c (Hb : bm_ok h b) (Hc : bm_ok h c) (Hn : count_ b = count_ c) :
  (∃ b' h', Merge h b c = Ok (b', h') ∧ bm_ok h' b' ∧
     ∀ j, 0 ≤ j < count_ b → IsTrue h' b' j = Ok (row h b j && row h c j)) ∧
  (∃ b' h', MergeOr h b c = Ok (b', h') ∧ bm_ok h' b' ∧
     ∀ j, 0 ≤ j < count_ b → IsTrue h' b' j = Ok (row h b j || row h c j)).
Proof.
  destruct (Merge_ok h b c Hb Hc Hn) as (b1 & h1 & Hm & Hok1 & Hc1 & Hr1).
  destruct (MergeOr_ok h b c Hb Hc Hn) as (b2 & h2 & Ho & Hok2 & Hc2 & Hr2).
  split; [exists b1, h1 | exists b2, h2]; split_and!; try done; intros j Hj.
  - rewrite (IsTrue_rows h1 b1 Hok1), Hr1 by (by apply (in_rows h) || by rewrite Hc1). done.
  - rewrite (IsTrue_rows h2 b2 Hok2), Hr2 by (by apply (in_rows h) || by rewrite Hc2). done.
Qed.

Example bitmask_merge_witness :
  ∃ b' h', Merge [[6]; [3]] (mkBitmask (Some 0%nat) 64) (mkBitmask (Some 1%nat) 64) = Ok (b', h') ∧
    IsTrue h' b' 1 = Ok true.
Proof.
  destruct (bitmask_merge [[6]; [3]] (mkBitmask (Some 0%nat) 64) (mkBitmask (Some 1%nat) 64))
    as ((b' & h' & H1 & _ & H2) & _).
  - split; [simpl; lia|]. split; [done|]. exists [6]. repeat constructor; solve_range.
  - split; [simpl; lia|]. split; [done|]. exists [3]. repeat constructor; solve_range.
  - done.
  - exists b', h'. split; [done|]. rewrite H2 by (simpl; lia). reflexivity.
Defined.

(** [CountTrue] is the number of true rows of a mask of 64 rows or more (or of one without a
    buffer), and [CountFalse] the number of the others. *)
Theorem bitmask_count h b (Hok : bm_ok h b) (Hn : 64 ≤ count_ b ∨ buffer_ptr b = None) :
  CountTrue h b = Ok (count_from (row h b) 0 (Z.to_nat (count_ b))) ∧
  CountFalse h b = Ok (count_from (fun i => negb (row h b i)) 0 (Z.to_nat (count_ b))).
Proof.
  pose proof Hok as (Hc & Hp & _).
  assert (HT : CountTrue h b = Ok (count_from (row h b) 0 (Z.to_nat (count_ b)))).
  { destruct (buffer_ptr b) as [l|] eqn:Hb.
    - destruct Hn as [Hn|]; [|done]. rewrite (CountTrue_spec h b l), power_of_2_units by (done || lia).
      rewrite Z.sub_diag. simpl. by rewrite Z.add_0_r.
    - unfold CountTrue. rewrite Hb. f_equal. rewrite (count_from_ext _ (fun _ => true) 0 0).
      + rewrite <- (Z2Nat.id (count_ b)) at 1 by lia. induction (Z.to_nat (count_ b)) as [|n IH]; [done|].
        replace (S n) with (n + 1)%nat at 2 by lia. rewrite count_from_app, <- IH. simpl. lia.
      + intros. by apply row_None. }
  split; [done|]. unfold CountFalse. rewrite HT. cbn [res_bind]. f_equal.
  assert (Hsum : ∀ f n a, count_from f a n + count_from (fun i => negb (f i)) a n = Z.of_nat n).
  { intros f n. induction n as [|n IH]; intros a; cbn [count_from]; [done|].
    specialize (IH (a + 1)). destruct (f a); simpl; lia. }
  specialize (Hsum (row h b) (Z.to_nat (count_ b)) 0). pose proof (count_from_range (row h b) 0 (Z.to_nat (count_ b))).
  rewrite cast_id; [lia|]. change (2 ^ 31) with 2147483648 in Hc. solve_range.
Qed.

Example bitmask_count_witness :
  CountTrue [[11; 0]] (mkBitmask (Some 0%nat) 128) = Ok 3.
Proof.
  rewrite (proj1 (bitmask_count [[11; 0]] (mkBitmask (Some 0%nat) 128)
    ltac:(split; [simpl; lia|]; split; [done|]; exists [11; 0]; repeat constructor; solve_range)
    ltac:(left; simpl; lia))). reflexivity.
Defined.

(** A mask of fewer than 64 rows with one row set to false counts the unused bits of its unit:
    of 8 rows, 63 are true, and the number of false rows wraps around. *)
Theorem small_mask_counts_padding :
  ∃ b h, Bitmask_Make 8 = Ok (mkBitmask None 8) ∧ SetFalse [] (mkBitmask None 8) 0 = Ok (b, h) ∧
    CountTrue h b = Ok 63 ∧ CountFalse h b = Ok (2 ^ 64 - 55).
Proof. do 2 eexists. split; [reflexivity|]. split; [vm_compute; reflexivity|]. split; vm_compute; reflexivity. Qed.

(** Growing a mask keeps its rows and adds true rows, for every mask of 8 rows or more; a mask
    of 1, 2 or 4 rows with a buffer forgets its rows, because no whole byte is copied. *)
Theorem bitmask_resize h b n (Hok : bm_ok h b) (Hp : not_power_of_2 n = false)
    (Hn : count_ b ≤ n < 2 ^ 31) :
  ∃ b' h', Resize h b n = Ok (b', h') ∧ bm_ok h' b' ∧ count_ b' = n ∧
    (8 ≤ count_ b → ∀ j, 0 ≤ j < n →
       IsTrue h' b' j = if decide (j < count_ b) then IsTrue h b j else Ok true) ∧
    (count_ b < 8 → ∀ j, 0 ≤ j < n → IsTrue h' b' j = Ok true).
Proof.
  destruct (Resize_ok h b n Hok Hp Hn) as (b' & h' & Hr & Hok' & Hc & Hrow).
  exists b', h'. pose proof Hok as (Hcb & Hpb & _).
  split_and!; try done.
  - intros Hge j Hj. rewrite (IsTrue_rows h' b' Hok') by lia.
    rewrite Hrow, power_of_2_bytes by (try done; try apply (in_rows h' b' Hok'); lia).
    case_decide; [rewrite (IsTrue_rows h b Hok) by lia|]; done.
  - intros Hlt j Hj. rewrite (IsTrue_rows h' b' Hok') by lia.
    rewrite Hrow by (apply (in_rows h' b' Hok'); lia). rewrite decide_False; [done|]. div_lia.
Qed.

Example bitmask_resize_witness :
  ∃ b' h', Resize [[4]] (mkBitmask (Some 0%nat) 64) 128 = Ok (b', h') ∧
    IsTrue h' b' 2 = Ok true ∧ IsTrue h' b' 3 = Ok false ∧ IsTrue h' b' 64 = Ok true.
Proof.
  destruct (bitmask_resize [[4]] (mkBitmask (Some 0%nat) 64) 128) as (b' & h' & H1 & _ & _ & H2 & _).
  - split; [simpl; lia|]. split; [done|]. exists [4]. repeat constructor; solve_range.
  - done.
  - simpl; lia.
  - exists b', h'. split; [done|]. simpl in H2.
    split_and!; (rewrite H2 by lia); reflexivity.
Defined.

(** A mask is written with the size announced and reads back, into any heap, as a mask with
    the same rows; masks already in that heap keep theirs. *)
Theorem bitmask_codec hw h b (Hok : bm_ok hw b) :
  ∃ bs, Bitmask_WriteAdv hw b = Ok bs ∧ Bitmask_GetSizeInBytes hw b = Ok (zlen bs) ∧
    ∀ rest, ∃ b' h', Bitmask_ReadAdv h (bs ++ rest) = Ok ((b', h'), rest) ∧ bm_ok h' b' ∧
      count_ b' = count_ b ∧ (∀ j, 0 ≤ j < count_ b → IsTrue h' b' j = IsTrue hw b j) ∧
      (∀ c j, bm_ok h c → 0 ≤ j < count_ c → IsTrue h' c j = IsTrue h c j).
Proof.
  destruct (Bitmask_write_shape hw b Hok) as (bs & r & Hw & Hr & Hbs). exists bs. pose proof Hok as (Hc & _ & Hx).
  split_and!; [done| |].
  - unfold Bitmask_GetSizeInBytes. rewrite Hr. cbn [res_bind]. f_equal. subst bs. pose proof (UnitCount_bound _ Hc).
    autorewrite with wsize. destruct r; [done|]. rewrite bytes_cast by done.
    destruct (not_all_true_buffer _ _ Hr) as [l Hl]. rewrite Hl in *. destruct Hx as (us & -> & Hlen & _).
    rewrite cast_id; unfold zlen in *; rewrite ?length_units_bytes; simpl; [lia|].
    change (2 ^ 31) with 2147483648 in Hc. solve_range.
  - intros rest. destruct (Bitmask_ReadAdv_write hw h b bs rest Hok Hw) as (b' & h' & Hrd & Hok' & Hc' & Hrow & Hf).
    exists b', h'. split_and!; try done.
    + intros j Hj. rewrite (IsTrue_rows h' b' Hok') by (by rewrite Hc').
      rewrite Hrow, (IsTrue_rows hw b Hok) by (done || by apply (in_rows hw)). done.
    + intros c j Hokc Hj. destruct (Hf c Hokc) as (Hokc' & Hrc).
      rewrite (IsTrue_rows h' c Hokc'), (IsTrue_rows h c Hokc), Hrc by done. done.
Qed.

Example bitmask_codec_witness :
  ∃ bs, Bitmask_WriteAdv [[5]] (mkBitmask (Some 0%nat) 64) = Ok bs ∧ zlen bs = 13.
Proof.
  destruct (bitmask_codec [[5]] [] (mkBitmask (Some 0%nat) 64)) as (bs & H1 & H2 & _).
  - split; [simpl; lia|]. split; [done|]. exists [5]. repeat constructor; solve_range.
  - exists bs. split; [done|]. vm_compute in H2. injection H2. done.
Defined.

(** After merging a mask into an all-true one the two share a buffer: a row then set to false
    in the result is false in the mask merged from as well. *)
Theorem merge_shares_buffer h c i (Hok : bm_ok h c) (Hi : 0 ≤ i < count_ c)
    (Hnot : IsAllTrue h c = Ok false) :
  ∃ b' h1 b'' h2, Merge h (mkBitmask None (count_ c)) c = Ok (b', h1) ∧
    SetFalse h1 b' i = Ok (b'', h2) ∧ IsTrue h2 c i = Ok false.
Proof.
  destruct (not_all_true_buffer _ _ Hnot) as [l Hl].
  assert (Hm : Merge h (mkBitmask None (count_ c)) c = Ok (mkBitmask (Some l) (count_ c), h)).
  { unfold Merge, ShallowCopy. rewrite Hnot. cbn [res_bind IsAllTrue buffer_ptr]. rewrite Hl.
    unfold merge_units. simpl. by rewrite Hl, bool_decide_eq_true_2. }
  assert (Hc : mkBitmask (Some l) (count_ c) = c) by (destruct c; simpl in *; congruence).
  destruct (SetFalse_ok h (mkBitmask (Some l) (count_ c)) i) as (b'' & h2 & Hs & Hok2 & Hcnt & Hr & _);
    [by rewrite Hc | by rewrite Hc; apply (in_rows h) |].
  assert (b'' = c) as ->.
  { unfold SetFalse, ensure_buffer in Hs. simpl in Hs. inv_ok. congruence. }
  do 4 eexists. split; [exact Hm|]. split; [exact Hs|]. rewrite (IsTrue_rows h2 c Hok2) by done.
  rewrite Hr, decide_True; [done..|]. rewrite Hc. by apply (in_rows h).
Qed.

Example merge_shares_buffer_witness :
  ∃ b' h1 b'' h2, Merge [[6]] (mkBitmask None 64) (mkBitmask (Some 0%nat) 64) = Ok (b', h1) ∧
    SetFalse h1 b' 1 = Ok (b'', h2) ∧ IsTrue h2 (mkBitmask (Some 0%nat) 64) 1 = Ok false.
Proof.
  apply (merge_shares_buffer [[6]] (mkBitmask (Some 0%nat) 64) 1).
  - split; [simpl; lia|]. split; [done|]. exists [6]. repeat constructor; solve_range.
  - simpl; lia.
  - reflexivity.
Defined.
