(* ===== verification/TableDef.v ===== *)
(** * Column and table definitions

    Models [src/src/parser/definition/column_def.cpp] and
    [src/src/storage/definition/table_def.cpp]: the schema of a table and its binary codec, which
    the write-ahead log stores for CREATE TABLE. *)

From Stdlib Require Import ZArith Lia List.
From stdpp Require Import base list numbers gmap.
From S2P Require Import Prelude Bytes DataTypes ConstExpr.
Local Open Scope Z_scope.

Module Constraint.
Inductive ConstraintType := kNull | kNotNull | kPrimaryKey | kUnique | kInvalid.

#[export] Instance ConstraintType_eq_dec : EqDecision ConstraintType.
Proof. solve_decision. Defined.

(** The underlying type is [char], signed on the supported platforms. *)
#[export, refine] Instance ConstraintType_enum : CEnum ConstraintType := {
  enum_ctype := i8;
  enum_val t :=
    match t with kNull => 0 | kNotNull => 1 | kPrimaryKey => 2 | kUnique => 3 | kInvalid => 4 end;
  enum_of := enum_index [kNull; kNotNull; kPrimaryKey; kUnique; kInvalid];
}.
Proof. all: enum_laws. Defined.
End Constraint.
Export (hints) Constraint.
Abbreviation ConstraintType := Constraint.ConstraintType.

(** ** Column definitions *)

(** [default_expr_] is [None] when the expression is no [ConstantExpr]; the code then dereferences
    the null result of its [dynamic_cast]. *)
Record ColumnDef := mkColumnDef {
  id_ : Z;
  column_type_ : DataType;
  name_ : bytes;
  constraints_ : list (cenum ConstraintType);
  default_expr_ : option ConstantExpr;
  build_bloom_filter_ : bool;
}.

(** The constructor puts a NULL literal where no default is given. *)
Definition ColumnDef_new (id : Z) (column_type : DataType) (column_name : bytes)
    (constraints : list (cenum ConstraintType)) (default_expr : option ConstantExpr) : ColumnDef :=
  mkColumnDef id column_type column_name constraints
    (match default_expr with
     | Some e => Some e
     | None => Some (ConstantExpr_new (Enumerator Literal.kNull))
     end) false.

Definition ColumnDef_eqb (this other : ColumnDef) : bool :=
  if (id_ this =? id_ other) && bool_decide (name_ this = name_ other)
     && DataType_eqb (column_type_ this) (column_type_ other)
     && (zlen (constraints_ this) =? zlen (constraints_ other))
     && Bool.eqb (build_bloom_filter_ this) (build_bloom_filter_ other)
  then forallb (fun con => bool_decide (con ∈ constraints_ other)) (constraints_ this)
  else false.

(** ** Table definitions *)

Record TableDef := mkTableDef {
  schema_name_ : bytes;
  table_name_ : bytes;
  columns_ : list ColumnDef;
  column_name2id_ : gmap bytes Z;
}.

(** [column_name2id_[columns_[idx]->name()] = idx] from index [idx] on. *)
Fixpoint index_columns (idx : Z) (columns : list ColumnDef) (m : gmap bytes Z) : gmap bytes Z :=
  match columns with
  | [] => m
  | cd :: columns' => index_columns (idx + 1) columns' (<[name_ cd := idx]> m)
  end.

Definition TableDef_Make (schema table_name : bytes) (columns : list ColumnDef) : TableDef :=
  mkTableDef schema table_name columns (index_columns 0 columns ∅).

Definition UnionWith (this other : TableDef) : TableDef :=
  mkTableDef (schema_name_ this) (table_name_ this) (columns_ this ++ columns_ other)
    (index_columns (zlen (columns_ this)) (columns_ other) (column_name2id_ this)).

(** [SizeT -1] for an unknown name. *)
Definition GetColIdByName (this : TableDef) (name : bytes) : Z :=
  match column_name2id_ this !! name with
  | Some id => id
  | None => cast u64 (-1)
  end.

Definition TableDef_eqb (this other : TableDef) : bool :=
  if negb (bool_decide (schema_name_ this = schema_name_ other))
     || negb (bool_decide (table_name_ this = table_name_ other))
     || negb (zlen (columns_ this) =? zlen (columns_ other))
     || negb (bool_decide (size (column_name2id_ this) = size (column_name2id_ other)))
  then false
  else forallb (fun '(cd1, cd2) => ColumnDef_eqb cd1 cd2) (zip (columns_ this) (columns_ other)).

(** ** Codec *)

Definition default_expr (cd : ColumnDef) : result ConstantExpr :=
  match default_expr_ cd with Some e => Ok e | None => Err OutOfBounds end.

Definition ColumnDef_size (size : Z) (cd : ColumnDef) : result Z :=
  let size := cast i32 (size + 8) in
  let? n := DataType_GetSizeInBytes (column_type_ cd) in
  let size := cast i32 (size + n) in
  let size := cast i32 (size + (4 + zlen (name_ cd))) in
  let size := cast i32 (size + 4) in
  let size := cast i32 (size + zlen (constraints_ cd) * 1) in
  let? e := default_expr cd in
  let? n := ConstantExpr_GetSizeInBytes e in
  let size := cast i32 (size + n) in
  Ok (cast i32 (size + 1)).

Definition TableDef_GetSizeInBytes (this : TableDef) : result Z :=
  let size := cast i32 (4 + zlen (schema_name_ this)) in
  let size := cast i32 (size + (4 + zlen (table_name_ this))) in
  let size := cast i32 (size + 4) in
  res_fold ColumnDef_size size (columns_ this).

Definition ColumnDef_write (cd : ColumnDef) : result bytes :=
  let? column_type := DataType_WriteAdv (column_type_ cd) in
  let? e := default_expr cd in
  let? default_expr := ConstantExpr_WriteAdv e in
  let bf := if build_bloom_filter_ cd then 1 else 0 in
  Ok (WriteBufAdv i64 (id_ cd) ++ column_type ++ WriteBufAdv_string (name_ cd)
      ++ WriteBufAdv i32 (cast i32 (zlen (constraints_ cd)))
      ++ concat (map WriteBufAdv_enum (constraints_ cd)) ++ default_expr ++ WriteBufAdv u8 bf).

Definition TableDef_WriteAdv (this : TableDef) : result bytes :=
  let? columns := write_all ColumnDef_write (columns_ this) in
  Ok (WriteBufAdv_string (schema_name_ this) ++ WriteBufAdv_string (table_name_ this)
      ++ WriteBufAdv i32 (cast i32 (zlen (columns_ this))) ++ columns).

(** The body of the column loop.  The default expression is read with the [maxbytes] computed
    before the column type, not with what is left after it. *)
Definition ColumnDef_read (ptr_end : Z) : Reader ColumnDef :=
  let! id := ReadBufAdv i64 in
  let! ptr := tell in
  let maxbytes := room ptr_end ptr in
  check! (0 <? maxbytes) orelse UnrecoverableError in
  let! column_type := DataType_ReadAdv maxbytes in
  let! column_name := ReadBufAdv_string in
  let! constraints_size := ReadBufAdv i32 in
  let! cts := rfor constraints_size (ReadBufAdv_enum (E:=ConstraintType)) in
  let constraints := fold_left (fun s ct => sset_insert cenum_val ct s) cts [] in
  let! default_expr := ConstantExpr_ReadAdv maxbytes in
  let cd := ColumnDef_new id column_type column_name constraints (Some default_expr) in
  let! bf := ReadBufAdv u8 in
  rret (mkColumnDef (id_ cd) (column_type_ cd) (name_ cd) (constraints_ cd) (default_expr_ cd)
                    (negb (bf =? 0))).

Definition TableDef_ReadAdv (maxbytes : Z) : Reader TableDef :=
  let! ptr := tell in
  let ptr_end := ptr + maxbytes in
  check! (0 <? maxbytes) orelse UnrecoverableError in
  let! schema_name := ReadBufAdv_string in
  let! table_name := ReadBufAdv_string in
  let! columns_size := ReadBufAdv i32 in
  let! columns := rfor columns_size (ColumnDef_read ptr_end) in
  let! ptr' := tell in
  check! (0 <=? room ptr_end ptr') orelse UnrecoverableError in
  rret (TableDef_Make schema_name table_name columns).

(** ** Well-formed definitions *)

Definition ColumnDef_wf (cd : ColumnDef) : Prop :=
  in_range i64 (id_ cd) ∧ DataType_wf (column_type_ cd) ∧ str_ok (name_ cd) ∧
  sset_sorted cenum_val (constraints_ cd) ∧ Forall cenum_wf (constraints_ cd) ∧
  (∃ e, default_expr_ cd = Some e ∧ ConstantExpr_wf e).

Definition TableDef_wf (td : TableDef) : Prop :=
  str_ok (schema_name_ td) ∧ str_ok (table_name_ td) ∧ Forall ColumnDef_wf (columns_ td) ∧
  column_name2id_ td = index_columns 0 (columns_ td) ∅.

(** A column type whose announced size is exact. *)
Definition exact_size (cd : ColumnDef) : Prop :=
  type_ (column_type_ cd) = Enumerator kDecimal → type_info_ (column_type_ cd) ≠ None.

Definition ColumnDef_stored (cd : ColumnDef) : ColumnDef :=
  mkColumnDef (id_ cd) (DataType_stored (column_type_ cd)) (name_ cd) (constraints_ cd)
    (ConstantExpr_stored <$> default_expr_ cd) (build_bloom_filter_ cd).

Definition TableDef_stored (td : TableDef) : TableDef :=
  TableDef_Make (schema_name_ td) (table_name_ td) (map ColumnDef_stored (columns_ td)).

(** ** Lemmas *)

Lemma ColumnDef_write_ok cd : ColumnDef_wf cd → ∃ bs, ColumnDef_write cd = Ok bs.
Proof.
  intros (_ & Ht & _ & _ & _ & e & He & Hwf). unfold ColumnDef_write, default_expr.
  destruct (DataType_WriteAdv_ok _ Ht) as [b1 ->]. rewrite He. simpl.
  destruct (ConstantExpr_WriteAdv_ok e Hwf) as [b2 ->]. by eexists.
Qed.

Lemma zlen_concat_enum {E} `{CEnum E} (l : list (cenum E)) :
  zlen (concat (map WriteBufAdv_enum l)) = Z.of_nat (sizeof enum_ctype) * zlen l.
Proof.
  induction l as [|x l IH]; simpl; [by rewrite Z.mul_0_r|].
  rewrite zlen_app, zlen_cons, IH, zlen_WriteBufAdv_enum. lia.
Qed.

Lemma ColumnDef_size_written cd bs acc :
  ColumnDef_wf cd → exact_size cd → ColumnDef_write cd = Ok bs →
  ColumnDef_size (cast i32 acc) cd = Ok (cast i32 (acc + zlen bs)).
Proof.
  intros (_ & Ht & _) Hx Hw. unfold ColumnDef_write, ColumnDef_size in *. inv_ok.
  rewrite (DataType_size_written _ _ Ht Hx H), H0. cbn [res_bind].
  rewrite (ConstantExpr_size_written _ _ H1). cbn [res_bind].
  f_equal. solve_ceq. autorewrite with wsize. rewrite zlen_concat_enum. simpl. lia.
Qed.

Lemma ColumnDef_read_write cd bs ptr_end rest :
  ColumnDef_wf cd → ColumnDef_write cd = Ok bs → 0 ≤ ptr_end + zlen rest →
  ptr_end + zlen bs + zlen rest < 2 ^ 31 →
  ColumnDef_read ptr_end (bs ++ rest) = Ok (ColumnDef_stored cd, rest).
Proof.
  intros (Hid & Ht & Hn & Hs & Hc & e & He & Hwf) Hw Hend Hlt.
  unfold ColumnDef_write, ColumnDef_read, ColumnDef_stored, default_expr in *. rewrite He in *. inv_ok.
  assert (Hb : zlen (concat (map WriteBufAdv_enum (constraints_ cd))) = zlen (constraints_ cd))
    by (rewrite zlen_concat_enum; simpl; lia).
  rewrite <- !app_assoc. read_fields. rewrite room_id by (apply in_i32; wsize_lia).
  rewrite rbind_check by (apply Z.ltb_lt; wsize_lia).
  erewrite rbind_step by (apply DataType_ReadAdv_write; [done|done|wsize_lia]). read_fields.
  rewrite (cast_id i32) by (apply in_i32; wsize_lia).
  erewrite rbind_step
    by (apply rfor_write; [done|]; intros; apply ReadBufAdv_enum_write; by eapply Forall_forall in Hc).
  rewrite sset_rebuild by done.
  erewrite rbind_step by (apply ConstantExpr_ReadAdv_write; [done|done|wsize_lia]).
  erewrite rbind_step by (apply ReadBufAdv_write; destruct (build_bloom_filter_ cd); solve_range).
  unfold rret. simpl. destruct (build_bloom_filter_ cd); done.
Qed.

Lemma columns_min_size l bs : write_all ColumnDef_write l = Ok bs → zlen l ≤ zlen bs.
Proof.
  revert bs. induction l as [|x l IH]; intros bs Hw; rewrite ?write_all_cons, ?write_all_nil in Hw; inv_ok.
  { done. }
  specialize (IH _ H0). unfold ColumnDef_write in H. inv_ok. rewrite zlen_cons. wsize_lia.
Qed.

Lemma TableDef_WriteAdv_ok td : TableDef_wf td → ∃ bs, TableDef_WriteAdv td = Ok bs.
Proof.
  intros (_ & _ & Hc & _). unfold TableDef_WriteAdv.
  destruct (write_all_ok ColumnDef_write (columns_ td)) as [bs ->]; [|by eexists].
  eapply Forall_impl; [done|]. apply ColumnDef_write_ok.
Qed.

Lemma TableDef_size_written td bs :
  TableDef_wf td → Forall exact_size (columns_ td) → TableDef_WriteAdv td = Ok bs →
  TableDef_GetSizeInBytes td = Ok (cast i32 (zlen bs)).
Proof.
  intros (_ & _ & Hc & _) Hx Hw. unfold TableDef_WriteAdv, TableDef_GetSizeInBytes in *. inv_ok.
  erewrite fold_size_written; [| |done].
  - f_equal. solve_ceq. wsize_lia.
  - intros cd b acc Hcd Hb. apply ColumnDef_size_written; [| |done]; by eapply Forall_forall in Hcd.
Qed.

Lemma TableDef_ReadAdv_write td bs maxbytes rest :
  TableDef_wf td → TableDef_WriteAdv td = Ok bs → zlen bs ≤ maxbytes < 2 ^ 31 →
  TableDef_ReadAdv maxbytes (bs ++ rest) = Ok (TableDef_stored td, rest).
Proof.
  intros (Hs & Ht & Hc & _) Hw Hmax. unfold TableDef_WriteAdv, TableDef_ReadAdv in *. inv_ok.
  pose proof (columns_min_size _ _ H).
  rewrite rbind_tell, rbind_check by (apply Z.ltb_lt; wsize_lia). rewrite <- !app_assoc. read_fields.
  rewrite (cast_id i32) by (apply in_i32; wsize_lia).
  erewrite rbind_step.
  2: { apply (rfor_write_all _ _ ColumnDef_stored _ _ _ _ H); [done|].
       intros cd b tail Hcd Hb Hlen.
       apply ColumnDef_read_write; [by eapply Forall_forall in Hcd|done|wsize_lia..]. }
  read_fields. read_room. done.
Qed.

#[export] Instance TableDef_codec : Codec TableDef := {
  c_wf := TableDef_wf;
  c_exact td := Forall exact_size (columns_ td);
  c_size := TableDef_GetSizeInBytes;
  c_write := TableDef_WriteAdv;
  c_read := TableDef_ReadAdv;
  c_stored := TableDef_stored;
  c_write_ok := TableDef_WriteAdv_ok;
  c_size_written := TableDef_size_written;
  c_read_write := TableDef_ReadAdv_write;
}.

(** *** Comparison of what was stored *)

Lemma ColumnDef_eqb_stored cd : exact_size cd → ColumnDef_eqb (ColumnDef_stored cd) cd = true.
Proof.
  intros Hx. assert (Hd : DataType_stored (column_type_ cd) = column_type_ cd).
  { unfold DataType_stored. repeat case_match; try done. by destruct Hx. }
  unfold ColumnDef_eqb, ColumnDef_stored. simpl.
  rewrite Hd, !Z.eqb_refl, DataType_eqb_refl, Bool.eqb_reflx, bool_decide_eq_true_2 by done. simpl.
  apply forallb_forall. intros con Hcon. apply bool_decide_eq_true_2. by apply list_elem_of_In.
Qed.

Lemma index_columns_stored cds : ∀ idx m,
  index_columns idx (map ColumnDef_stored cds) m = index_columns idx cds m.
Proof. induction cds as [|cd cds IH]; intros idx m; simpl; [done | apply IH]. Qed.

Lemma TableDef_eqb_stored td :
  TableDef_wf td → Forall exact_size (columns_ td) → TableDef_eqb (TableDef_stored td) td = true.
Proof.
  intros (_ & _ & _ & Hi) Hx. unfold TableDef_eqb, TableDef_stored. simpl.
  rewrite index_columns_stored, <- Hi, !bool_decide_eq_true_2 by done.
  unfold zlen at 1. rewrite length_map. fold (zlen (columns_ td)). rewrite Z.eqb_refl. simpl. clear Hi.
  induction Hx as [|cd cds Hcd _ IH]; simpl; [done|]. by rewrite ColumnDef_eqb_stored.
Qed.

(** ** Theorems *)

(** A table definition is written and reads back as what the stored fields determine, with
    the name index rebuilt; when every column type has an exact size, the announced size is the
    size written and the definition read back compares equal to the original. *)
Theorem table_def_codec td (Hwf : TableDef_wf td) :
  ∃ bs, TableDef_WriteAdv td = Ok bs ∧
    (∀ maxbytes rest, zlen bs ≤ maxbytes < 2 ^ 31 →
       TableDef_ReadAdv maxbytes (bs ++ rest) = Ok (TableDef_stored td, rest)) ∧
    (Forall exact_size (columns_ td) →
       TableDef_GetSizeInBytes td = Ok (cast i32 (zlen bs)) ∧
       TableDef_eqb (TableDef_stored td) td = true).
Proof.
  destruct (TableDef_WriteAdv_ok td Hwf) as [bs Hbs]. exists bs. split_and!; [done|..].
  - intros. by apply TableDef_ReadAdv_write.
  - intros Hx. split; [by apply TableDef_size_written | by apply TableDef_eqb_stored].
Qed.

Definition sample_table : TableDef :=
  TableDef_Make [100; 98] [116]
    [ColumnDef_new 0 (DataType_new (Enumerator kInteger) None) [99; 49]
       [Enumerator Constraint.kNotNull; Enumerator Constraint.kPrimaryKey] None;
     ColumnDef_new 1 (DataType_new (Enumerator kEmbedding)
                        (Some (EmbeddingInfo (Enumerator kElemFloat) 128))) [99; 50] []
       (Some (set_integer_value 7 (ConstantExpr_new (Enumerator Literal.kInteger))))].

Example table_def_codec_witness :
  ∃ bs, TableDef_WriteAdv sample_table = Ok bs ∧
    TableDef_ReadAdv 200 (bs ++ [1]) = Ok (sample_table, [1]) ∧
    TableDef_eqb (TableDef_stored sample_table) sample_table = true.
Proof.
  destruct (table_def_codec sample_table) as (bs & H1 & H2 & H3).
  - split_and!; [done..| |done]. repeat constructor; simpl; try done; try solve_range.
    + eexists. split; [done|]. constructor; done.
    + exists (Enumerator kElemFloat), 128, (EmbeddingInfo (Enumerator kElemFloat) 128). done.
    + eexists. split; [done|]. constructor; [done| |done]. done.
  - exists bs. split; [done|]. split.
    + rewrite (H2 200 [1]); [reflexivity|]. vm_compute in H1. injection H1 as <-. done.
    + apply H3. by repeat constructor.
Defined.
