(* ===== verification/IndexDef.v ===== *)
(** * Index definitions

    Models [src/src/storage/definition/index_*.cpp]: the index classes, what [Make] accepts of the
    parameters of CREATE INDEX, the column type checks, and the binary codec with its dispatch on
    the index type. *)

From Stdlib Require Import ZArith Lia List.
From stdpp Require Import base list numbers gmap strings.
From S2P Require Import Prelude Bytes Text DataTypes.
Local Open Scope Z_scope.

(** ** Enumerations *)

Module Index.
Inductive IndexType := kIVFFlat | kHnsw | kBMP | kFullText | kSecondary | kEMVB | kInvalid.

#[export] Instance IndexType_eq_dec : EqDecision IndexType.
Proof. solve_decision. Defined.

#[export, refine] Instance IndexType_enum : CEnum IndexType := {
  enum_ctype := i32;
  enum_val t :=
    match t with
    | kIVFFlat => 0 | kHnsw => 1 | kBMP => 2 | kFullText => 3 | kSecondary => 4 | kEMVB => 5
    | kInvalid => 6
    end;
  enum_of := enum_index [kIVFFlat; kHnsw; kBMP; kFullText; kSecondary; kEMVB; kInvalid];
}.
Proof. all: enum_laws. Defined.
End Index.
Export (hints) Index.

Module Metric.
Inductive MetricType := kMetricCosine | kMetricInnerProduct | kMetricL2 | kInvalid.

#[export] Instance MetricType_eq_dec : EqDecision MetricType.
Proof. solve_decision. Defined.

#[export, refine] Instance MetricType_enum : CEnum MetricType := {
  enum_ctype := i32;
  enum_val t :=
    match t with kMetricCosine => 0 | kMetricInnerProduct => 1 | kMetricL2 => 2 | kInvalid => 3 end;
  enum_of := enum_index [kMetricCosine; kMetricInnerProduct; kMetricL2; kInvalid];
}.
Proof. all: enum_laws. Defined.
End Metric.
Export (hints) Metric.

Module HnswEncode.
Inductive HnswEncodeType := kPlain | kLVQ | kInvalid.

#[export] Instance HnswEncodeType_eq_dec : EqDecision HnswEncodeType.
Proof. solve_decision. Defined.

#[export, refine] Instance HnswEncodeType_enum : CEnum HnswEncodeType := {
  enum_ctype := i32;
  enum_val t := match t with kPlain => 0 | kLVQ => 1 | kInvalid => 2 end;
  enum_of := enum_index [kPlain; kLVQ; kInvalid];
}.
Proof. all: enum_laws. Defined.
End HnswEncode.
Export (hints) HnswEncode.

Module BMPCompress.
Inductive BMPCompressType := kRaw | kCompressed | kInvalid.

#[export] Instance BMPCompressType_eq_dec : EqDecision BMPCompressType.
Proof. solve_decision. Defined.

#[export, refine] Instance BMPCompressType_enum : CEnum BMPCompressType := {
  enum_ctype := i8;
  enum_val t := match t with kRaw => 0 | kCompressed => 1 | kInvalid => 2 end;
  enum_of := enum_index [kRaw; kCompressed; kInvalid];
}.
Proof. all: enum_laws. Defined.
End BMPCompress.
Export (hints) BMPCompress.

Abbreviation MetricType := Metric.MetricType.
Abbreviation HnswEncodeType := HnswEncode.HnswEncodeType.
Abbreviation BMPCompressType := BMPCompress.BMPCompressType.

Definition MetricTypeToString (metric_type : MetricType) : bytes :=
  match metric_type with
  | Metric.kMetricCosine => str "cos"
  | Metric.kMetricInnerProduct => str "ip"
  | Metric.kMetricL2 => str "l2"
  | Metric.kInvalid => str "Invalid"
  end.

Definition StringToMetricType (s : bytes) : MetricType :=
  if bool_decide (s = str "cos") then Metric.kMetricCosine
  else if bool_decide (s = str "ip") then Metric.kMetricInnerProduct
  else if bool_decide (s = str "l2") then Metric.kMetricL2
  else Metric.kInvalid.

Definition StringToHnswEncodeType (s : bytes) : HnswEncodeType :=
  if bool_decide (s = str "plain") then HnswEncode.kPlain
  else if bool_decide (s = str "lvq") then HnswEncode.kLVQ
  else HnswEncode.kInvalid.

Definition HnswEncodeTypeToString (encode_type : HnswEncodeType) : bytes :=
  match encode_type with
  | HnswEncode.kPlain => str "plain"
  | HnswEncode.kLVQ => str "lvq"
  | HnswEncode.kInvalid => str "invalid"
  end.

Definition BMCompressTypeFromString (s : bytes) : BMPCompressType :=
  if bool_decide (s = str "raww") then BMPCompress.kRaw
  else if bool_decide (s = str "compress") then BMPCompress.kCompressed
  else BMPCompress.kInvalid.

Definition BMCompressTypeToString (t : BMPCompressType) : bytes :=
  match t with
  | BMPCompress.kRaw => str "raw"
  | BMPCompress.kCompressed => str "compress"
  | BMPCompress.kInvalid => str "Invalid"
  end.

Definition IndexTypeToString (t : Index.IndexType) : result bytes :=
  match t with
  | Index.kIVFFlat => Ok (str "IVFFlat")
  | Index.kHnsw => Ok (str "HNSW")
  | Index.kFullText => Ok (str "FULLTEXT")
  | Index.kSecondary => Ok (str "SECONDARY")
  | Index.kEMVB => Ok (str "EMVB")
  | Index.kBMP => Ok (str "BMP")
  | Index.kInvalid => Err ParserError
  end.

Definition StringToIndexType (s : bytes) : Index.IndexType :=
  if bool_decide (s = str "IVFFlat") then Index.kIVFFlat
  else if bool_decide (s = str "HNSW") then Index.kHnsw
  else if bool_decide (s = str "FULLTEXT") then Index.kFullText
  else if bool_decide (s = str "SECONDARY") then Index.kSecondary
  else if bool_decide (s = str "EMVB") then Index.kEMVB
  else if bool_decide (s = str "BMP") then Index.kBMP
  else Index.kInvalid.

(** ** The index classes *)

(** The fields each subclass adds to [IndexBase]. *)
Inductive IndexParams :=
| IndexIVFFlat (centroids_count_ : Z) (metric_type_ : cenum MetricType)
| IndexHnsw (metric_type_ : cenum MetricType) (encode_type_ : cenum HnswEncodeType)
    (M_ ef_construction_ ef_ : Z)
| IndexFullText (analyzer_ : bytes) (flag_ : Z)
| IndexSecondary
| IndexEMVB (residual_pq_subspace_num_ residual_pq_subspace_bits_ : Z)
| IndexBMP (block_size_ : Z) (compress_type_ : cenum BMPCompressType).

Record IndexBase := mkIndexBase {
  index_name_ : bytes;
  file_name_ : bytes;
  column_names_ : list bytes;
  params_ : IndexParams;
}.

Definition index_type_ (this : IndexBase) : cenum Index.IndexType :=
  Enumerator match params_ this with
  | IndexIVFFlat _ _ => Index.kIVFFlat
  | IndexHnsw _ _ _ _ _ => Index.kHnsw
  | IndexFullText _ _ => Index.kFullText
  | IndexSecondary => Index.kSecondary
  | IndexEMVB _ _ => Index.kEMVB
  | IndexBMP _ _ => Index.kBMP
  end.

(** [IndexBase::operator==]: type and columns only. *)
Definition IndexBase_eqb (this other : IndexBase) : bool :=
  bool_decide (index_type_ this = index_type_ other)
  && bool_decide (column_names_ this = column_names_ other).

(** ** Codec *)

(** [IndexBase::GetSizeInBytes]. *)
Definition IndexBase_GetSizeInBytes (this : IndexBase) : Z :=
  let size := 4 in
  let size := cast i32 (size + 4) in
  let size := cast i32 (size + zlen (index_name_ this)) in
  let size := cast i32 (size + 4) in
  let size := cast i32 (size + zlen (file_name_ this)) in
  let size := cast i32 (size + 4) in
  fold_left (fun size column_name => cast i32 (size + (4 + zlen column_name)))
    (column_names_ this) size.

(** The virtual [GetSizeInBytes]: the subclasses add up in a [SizeT] and return an [i32]. *)
Definition Index_GetSizeInBytes (this : IndexBase) : Z :=
  let size := IndexBase_GetSizeInBytes this in
  match params_ this with
  | IndexIVFFlat _ _ => cast i32 (cast u64 (size + 8 + 4))
  | IndexHnsw _ _ _ _ _ => cast i32 (cast u64 (size + 4 + 4 + 8 + 8 + 8))
  | IndexFullText analyzer _ => cast i32 (cast u64 (size + (4 + zlen analyzer) + 1))
  | IndexSecondary => size
  | IndexEMVB _ _ => cast i32 (cast u64 (size + 4 + 4))
  | IndexBMP _ _ => cast i32 (cast i32 (size + 8) + 1)
  end.

(** [IndexBase::WriteAdv]. *)
Definition IndexBase_WriteAdv (this : IndexBase) : bytes :=
  WriteBufAdv_enum (index_type_ this) ++ WriteBufAdv_string (index_name_ this)
  ++ WriteBufAdv_string (file_name_ this)
  ++ WriteBufAdv i32 (cast i32 (zlen (column_names_ this)))
  ++ concat (map WriteBufAdv_string (column_names_ this)).

(** The virtual [WriteAdv]. *)
Definition Index_WriteAdv (this : IndexBase) : bytes :=
  IndexBase_WriteAdv this ++
  match params_ this with
  | IndexIVFFlat centroids_count metric_type =>
      WriteBufAdv u64 centroids_count ++ WriteBufAdv_enum metric_type
  | IndexHnsw metric_type encode_type M ef_construction ef =>
      WriteBufAdv_enum metric_type ++ WriteBufAdv_enum encode_type ++ WriteBufAdv u64 M
      ++ WriteBufAdv u64 ef_construction ++ WriteBufAdv u64 ef
  | IndexFullText analyzer flag => WriteBufAdv_string analyzer ++ WriteBufAdv u8 flag
  | IndexSecondary => []
  | IndexEMVB num bits => WriteBufAdv u32 num ++ WriteBufAdv u32 bits
  | IndexBMP block_size compress_type =>
      WriteBufAdv u64 block_size ++ WriteBufAdv_enum compress_type
  end.

Definition Index_ReadAdv (maxbytes : Z) : Reader IndexBase :=
  let! ptr := tell in
  let ptr_end := ptr + maxbytes in
  check! (0 <? maxbytes) orelse UnrecoverableError in
  let! index_type := ReadBufAdv_enum (E:=Index.IndexType) in
  let! index_name := ReadBufAdv_string in
  let! file_name := ReadBufAdv_string in
  let! column_names_size := ReadBufAdv i32 in
  let! column_names := rfor column_names_size ReadBufAdv_string in
  let! params :=
    match index_type with
    | Enumerator Index.kIVFFlat =>
        let! centroids_count := ReadBufAdv u64 in
        let! metric_type := ReadBufAdv_enum (E:=MetricType) in
        rret (IndexIVFFlat centroids_count metric_type)
    | Enumerator Index.kHnsw =>
        let! metric_type := ReadBufAdv_enum (E:=MetricType) in
        let! encode_type := ReadBufAdv_enum (E:=HnswEncodeType) in
        let! M := ReadBufAdv u64 in
        let! ef_construction := ReadBufAdv u64 in
        let! ef := ReadBufAdv u64 in
        rret (IndexHnsw metric_type encode_type M ef_construction ef)
    | Enumerator Index.kFullText =>
        let! analyzer := ReadBufAdv_string in
        let! flag := ReadBufAdv u8 in
        rret (IndexFullText analyzer flag)
    | Enumerator Index.kSecondary => rret IndexSecondary
    | Enumerator Index.kEMVB =>
        let! num := ReadBufAdv u32 in
        let! bits := ReadBufAdv u32 in
        rret (IndexEMVB num bits)
    | Enumerator Index.kBMP =>
        let! block_size := ReadBufAdv u64 in
        let! compress_type := ReadBufAdv_enum (E:=BMPCompressType) in
        rret (IndexBMP block_size compress_type)
    | Enumerator Index.kInvalid => rfail UnrecoverableError
    | Unnamed _ => rfail RecoverableError
    end in
  let! ptr' := tell in
  check! negb (ptr_end <? ptr') orelse UnrecoverableError in
  rret (mkIndexBase index_name file_name column_names params).

(** ** Creation from the parameters of CREATE INDEX *)

Record InitParameter := mkInitParameter { param_name_ : bytes; param_value_ : bytes }.

Section make.
Context (index_name file_name : bytes) (column_names : list bytes).
Let make (p : IndexParams) : IndexBase := mkIndexBase index_name file_name column_names p.

Definition IndexIVFFlat_Make (index_param_list : list InitParameter) : result IndexBase :=
  let? '(centroids_count, metric_type) :=
    res_fold (fun '(centroids_count, metric_type) para =>
      if bool_decide (param_name_ para = str "centroids_count") then
        let? v := stoi (param_value_ para) in Ok (cast u64 v, metric_type)
      else if bool_decide (param_name_ para = str "metric") then
        Ok (centroids_count, StringToMetricType (param_value_ para))
      else Ok (centroids_count, metric_type)) (0, Metric.kInvalid) index_param_list in
  if bool_decide (metric_type = Metric.kInvalid) then Err RecoverableError
  else Ok (make (IndexIVFFlat centroids_count (Enumerator metric_type))).

Definition HNSW_M : Z := 16.
Definition HNSW_EF_CONSTRUCTION : Z := 200.
Definition HNSW_EF : Z := 200.

Definition IndexHnsw_Make (index_param_list : list InitParameter) : result IndexBase :=
  let? '(M, ef_construction, ef, metric_type, encode_type) :=
    res_fold (fun '(M, ef_construction, ef, metric_type, encode_type) para =>
      if bool_decide (param_name_ para = str "M") then
        let? v := stoi (param_value_ para) in
        Ok (cast u64 v, ef_construction, ef, metric_type, encode_type)
      else if bool_decide (param_name_ para = str "ef_construction") then
        let? v := stoi (param_value_ para) in Ok (M, cast u64 v, ef, metric_type, encode_type)
      else if bool_decide (param_name_ para = str "ef") then
        let? v := stoi (param_value_ para) in
        Ok (M, ef_construction, cast u64 v, metric_type, encode_type)
      else if bool_decide (param_name_ para = str "metric") then
        Ok (M, ef_construction, ef, StringToMetricType (param_value_ para), encode_type)
      else if bool_decide (param_name_ para = str "encode") then
        Ok (M, ef_construction, ef, metric_type, StringToHnswEncodeType (param_value_ para))
      else Err RecoverableError)
      (HNSW_M, HNSW_EF_CONSTRUCTION, HNSW_EF, Metric.kInvalid, HnswEncode.kPlain)
      index_param_list in
  if bool_decide (metric_type = Metric.kInvalid) then Err RecoverableError
  else if bool_decide (encode_type = HnswEncode.kInvalid) then Err RecoverableError
  else Ok (make (IndexHnsw (Enumerator metric_type) (Enumerator encode_type) M ef_construction ef)).

Definition accepable_residual_pq_subspace_num : list Z := [1; 2; 4; 8; 16; 32; 64; 128].
Definition accepable_residual_pq_subspace_bits : list Z := [8; 16].

Definition IndexEMVB_Make (index_param_list : list InitParameter) : result IndexBase :=
  let? '(num, bits) :=
    res_fold (fun '(num, bits) para =>
      if bool_decide (param_name_ para = str "pq_subspace_num") then
        let? val := stoi (param_value_ para) in
        if val <=? 0 then Err RecoverableError else Ok (cast u32 val, bits)
      else if bool_decide (param_name_ para = str "pq_subspace_bits") then
        let? val := stoi (param_value_ para) in
        if val <=? 0 then Err RecoverableError else Ok (num, cast u32 val)
      else Err RecoverableError) (0, 0) index_param_list in
  if bool_decide (num ∉ accepable_residual_pq_subspace_num) then Err RecoverableError
  else if bool_decide (bits ∉ accepable_residual_pq_subspace_bits) then Err RecoverableError
  else Ok (make (IndexEMVB num bits)).

Definition BMP_BLOCK_SIZE : Z := 16.

Definition IndexBMP_Make (index_param_list : list InitParameter) : result IndexBase :=
  let? '(block_size, compress_type) :=
    res_fold (fun '(block_size, compress_type) para =>
      if bool_decide (param_name_ para = str "block_size") then
        let? v := stoi (param_value_ para) in
        let block_size := cast u64 v in
        if (block_size <=? 0) || (255 + 1 <? block_size) then Err RecoverableError
        else Ok (block_size, compress_type)
      else if bool_decide (param_name_ para = str "compress_type") then
        Ok (block_size, BMCompressTypeFromString (param_value_ para))
      else Err RecoverableError) (BMP_BLOCK_SIZE, BMPCompress.kCompressed) index_param_list in
  if bool_decide (compress_type = BMPCompress.kInvalid) then Err RecoverableError
  else Ok (make (IndexBMP block_size (Enumerator compress_type))).
End make.

(** ** Column type checks *)

(** [std::find] on the column names, then the type at that position. *)
Definition find_column (names : list bytes) (types : list DataType) (column_name : bytes) : result DataType :=
  match list_find (eq column_name) names with
  | None => Err RecoverableError
  | Some (column_id, _) =>
      match types !! column_id with Some t => Ok t | None => Err OutOfBounds end
  end.

Section validate.
Context (column_names_vector : list bytes) (column_types_vector : list DataType) (column_name : bytes).
Let find := find_column column_names_vector column_types_vector column_name.

Definition IndexHnsw_ValidateColumnDataType : result unit :=
  let? data_type := find in
  if negb (bool_decide (type_ data_type = Enumerator kEmbedding)) then Err RecoverableError else Ok tt.

Definition IndexIVFFlat_ValidateColumnDataType : result unit :=
  let? data_type := find in
  if negb (bool_decide (type_ data_type = Enumerator kEmbedding)) then Err RecoverableError else Ok tt.

Definition IndexFullText_ValidateColumnDataType : result unit :=
  let? data_type := find in
  if negb (bool_decide (type_ data_type = Enumerator kVarchar)) then Err RecoverableError else Ok tt.

Definition CanBuildSecondaryIndex (data_type : DataType) : bool :=
  match type_ data_type with
  | Enumerator (kTinyInt | kSmallInt | kInteger | kBigInt | kFloat | kDouble | kDate | kTime
               | kDateTime | kTimestamp | kVarchar) => true
  | _ => false
  end.

Definition IndexSecondary_ValidateColumnDataType : result unit :=
  let? data_type := find in
  if negb (CanBuildSecondaryIndex data_type) then Err RecoverableError else Ok tt.

(** The [static_cast] of the type info is undefined on any other class. *)
Definition IndexEMVB_ValidateColumnDataType : result unit :=
  let? data_type := find in
  if negb (bool_decide (type_ data_type = Enumerator kTensor)) then Err RecoverableError
  else match type_info_ data_type with
       | Some (EmbeddingInfo t _) =>
           if negb (bool_decide (t = Enumerator kElemFloat)) then Err RecoverableError else Ok tt
       | _ => Err OutOfBounds
       end.

Definition IndexBMP_ValidateColumnDataType : result unit :=
  let? data_type := find in
  if negb (bool_decide (type_ data_type = Enumerator kSparse)) then Err RecoverableError
  else match type_info_ data_type with
       | Some (SparseInfo t i _ _) =>
           if negb (bool_decide (t = Enumerator kElemFloat)) && negb (bool_decide (t = Enumerator kElemDouble))
           then Err RecoverableError
           else if negb (bool_decide (i = Enumerator kElemInt32)) && negb (bool_decide (i = Enumerator kElemInt16))
                   && negb (bool_decide (i = Enumerator kElemInt8))
           then Err RecoverableError
           else Ok tt
       | _ => Err OutOfBounds
       end.
End validate.

(** ** Well-formed indexes *)

Definition params_wf (p : IndexParams) : Prop :=
  match p with
  | IndexIVFFlat c m => in_range u64 c ∧ cenum_wf m
  | IndexHnsw m e M efc ef =>
      cenum_wf m ∧ cenum_wf e ∧ in_range u64 M ∧ in_range u64 efc ∧ in_range u64 ef
  | IndexFullText a f => str_ok a ∧ in_range u8 f
  | IndexSecondary => True
  | IndexEMVB n b => in_range u32 n ∧ in_range u32 b
  | IndexBMP n c => in_range u64 n ∧ cenum_wf c
  end.

Definition IndexBase_wf (i : IndexBase) : Prop :=
  str_ok (index_name_ i) ∧ str_ok (file_name_ i) ∧ Forall str_ok (column_names_ i) ∧
  params_wf (params_ i).

(** ** Lemmas *)

Lemma fold_strings l acc :
  fold_left (fun size s => cast i32 (size + (4 + zlen s))) l (cast i32 acc)
  = cast i32 (acc + zlen (concat (map WriteBufAdv_string l))).
Proof.
  revert acc. induction l as [|s l IH]; intros acc; simpl; [by rewrite Z.add_0_r|].
  rewrite cast_add_l, IH. autorewrite with wsize. f_equal. lia.
Qed.

Lemma IndexBase_size_written i :
  IndexBase_GetSizeInBytes i = cast i32 (zlen (IndexBase_WriteAdv i)).
Proof.
  unfold IndexBase_GetSizeInBytes, IndexBase_WriteAdv. rewrite fold_strings. solve_ceq. wsize_lia.
Qed.

Lemma Index_size_written i : Index_GetSizeInBytes i = cast i32 (zlen (Index_WriteAdv i)).
Proof.
  unfold Index_GetSizeInBytes, Index_WriteAdv. rewrite IndexBase_size_written.
  destruct (params_ i); rewrite ?cast_i32_u64; solve_ceq; wsize_lia.
Qed.

Lemma strings_min_size l : zlen l ≤ zlen (concat (map WriteBufAdv_string l)).
Proof. induction l as [|s l IH]; simpl; [done|]. wsize_lia. Qed.

Lemma Index_ReadAdv_write i maxbytes rest :
  IndexBase_wf i → zlen (Index_WriteAdv i) ≤ maxbytes < 2 ^ 31 →
  Index_ReadAdv maxbytes (Index_WriteAdv i ++ rest) = Ok (i, rest).
Proof.
  intros (Hn & Hf & Hc & Hp) Hmax. destruct i as [n f cols p]; simpl in *.
  unfold Index_ReadAdv, Index_WriteAdv, IndexBase_WriteAdv in *. simpl in *.
  pose proof (strings_min_size cols).
  rewrite rbind_tell, rbind_check by (apply Z.ltb_lt; wsize_lia). rewrite <- !app_assoc. read_fields.
  rewrite (cast_id i32) by (apply in_i32; wsize_lia).
  erewrite rbind_step
    by (apply rfor_write; [done|]; intros; apply ReadBufAdv_string_write; by eapply Forall_forall in Hc).
  destruct p; simpl in *; destruct_and?; rewrite <- ?app_assoc; read_fields;
    rewrite rbind_check by (apply negb_true_iff, Z.ltb_ge; wsize_lia); done.
Qed.

#[export, refine] Instance IndexBase_codec : Codec IndexBase := {
  c_wf := IndexBase_wf;
  c_exact _ := True;
  c_size i := Ok (Index_GetSizeInBytes i);
  c_write i := Ok (Index_WriteAdv i);
  c_read := Index_ReadAdv;
  c_stored i := i;
}.
Proof.
  - intros i _. by eexists.
  - intros i bs _ _ [= <-]. by rewrite Index_size_written.
  - intros i bs maxbytes rest Hwf [= <-]. by apply Index_ReadAdv_write.
Defined.

(** What [Make] guarantees beyond the ranges. *)
Definition params_valid (p : IndexParams) : Prop :=
  match p with
  | IndexIVFFlat _ m => m ≠ Enumerator Metric.kInvalid
  | IndexHnsw m e _ _ _ => m ≠ Enumerator Metric.kInvalid ∧ e ≠ Enumerator HnswEncode.kInvalid
  | IndexEMVB n b =>
      n ∈ accepable_residual_pq_subspace_num ∧ b ∈ accepable_residual_pq_subspace_bits
  | IndexBMP n c => 1 ≤ n ≤ 256 ∧ c ≠ Enumerator BMPCompress.kInvalid
  | IndexFullText _ _ | IndexSecondary => True
  end.

Section make_lemmas.
Context (n f : bytes) (cols : list bytes) (ps : list InitParameter) (i : IndexBase).

(** The parameters are sound and the names are those given. *)
Let made : Prop :=
  index_name_ i = n ∧ file_name_ i = f ∧ column_names_ i = cols ∧
  params_wf (params_ i) ∧ params_valid (params_ i).

Ltac make_step :=
  repeat case_bool_decide; inv_ok; simplify_eq/=; destruct_and?; split_and?; auto;
  try apply cast_range; try solve_range.

Lemma IVFFlat_made : IndexIVFFlat_Make n f cols ps = Ok i → made.
Proof.
  unfold IndexIVFFlat_Make. intros ([c m] & Hf & H)%res_bind_ok. case_bool_decide; inv_ok.
  split_and!; try done; [|by intros [= ->]].
  apply (res_fold_inv (fun s => in_range u64 s.1)) in Hf; [done| |simpl; solve_range].
  intros [c0 m0] p [c1 m1] Hs _ Hstep. simpl in *. make_step.
Qed.

Lemma Hnsw_made : IndexHnsw_Make n f cols ps = Ok i → made.
Proof.
  unfold IndexHnsw_Make. intros ([[[[M c] e] m] t] & Hf & H)%res_bind_ok.
  repeat case_bool_decide; inv_ok.
  apply (res_fold_inv (fun s => in_range u64 s.1.1.1.1 ∧ in_range u64 s.1.1.1.2 ∧ in_range u64 s.1.1.2)) in Hf.
  - destruct Hf as (? & ? & ?). split_and!; try done. split; congruence.
  - intros [[[[M0 c0] e0] m0] t0] p [[[[M1 c1] e1] m1] t1] (? & ? & ?) _ Hstep. simpl in *. make_step.
  - simpl. unfold HNSW_M, HNSW_EF_CONSTRUCTION, HNSW_EF. split_and!; solve_range.
Qed.

Lemma EMVB_made : IndexEMVB_Make n f cols ps = Ok i → made.
Proof.
  unfold IndexEMVB_Make. intros ([a b] & Hf & H)%res_bind_ok.
  repeat (case_bool_decide; try done). inv_ok.
  apply (res_fold_inv (fun s => in_range u32 s.1 ∧ in_range u32 s.2)) in Hf.
  - destruct Hf. split_and!; try done; by apply dec_stable.
  - intros [a0 b0] p [a1 b1] (? & ?) _ Hstep. simpl in *.
    repeat case_bool_decide; inv_ok; repeat case_match; simplify_eq/=; split; auto; apply cast_range.
  - simpl. split; solve_range.
Qed.

Lemma BMP_made : IndexBMP_Make n f cols ps = Ok i → made.
Proof.
  unfold IndexBMP_Make. intros ([s c] & Hf & H)%res_bind_ok. case_bool_decide; inv_ok.
  apply (res_fold_inv (fun s => 1 ≤ s.1 ≤ 256)) in Hf.
  - simpl in Hf. split_and!; try done; (split; [solve_range|]); [done|congruence].
  - intros [s0 c0] p [s1 c1] Hs _ Hstep. simpl in *.
    repeat case_bool_decide; inv_ok; repeat case_match; simplify_eq/=; try done; try lia.
  - simpl. unfold BMP_BLOCK_SIZE. lia.
Qed.
End make_lemmas.

(** ** Theorems *)

(** Every index definition is written with the size announced, and reads back as itself from
    any buffer, whatever its class: the stored index type selects the reader of the class that
    wrote it. *)
Theorem index_codec i (Hwf : IndexBase_wf i) :
  Index_GetSizeInBytes i = cast i32 (zlen (Index_WriteAdv i)) ∧
  ∀ maxbytes rest, zlen (Index_WriteAdv i) ≤ maxbytes < 2 ^ 31 →
    Index_ReadAdv maxbytes (Index_WriteAdv i ++ rest) = Ok (i, rest).
Proof. split; [apply Index_size_written | intros; by apply Index_ReadAdv_write]. Qed.

Example index_codec_witness :
  Index_ReadAdv 60 (Index_WriteAdv
    (mkIndexBase (str "idx") (str "f") [str "c1"]
       (IndexHnsw (Enumerator Metric.kMetricL2) (Enumerator HnswEncode.kLVQ) 16 200 200)) ++ [9])
  = Ok (mkIndexBase (str "idx") (str "f") [str "c1"]
       (IndexHnsw (Enumerator Metric.kMetricL2) (Enumerator HnswEncode.kLVQ) 16 200 200), [9]).
Proof.
  apply index_codec; [|done]. split_and!; simpl; repeat constructor; try solve_range.
Defined.

(** Whatever parameters CREATE INDEX is given, an index [Make] accepts carries the names given,
    has every field in the range its codec stores, a valid metric and encoding, a BMP block size
    from 1 to 256, and EMVB subspace parameters from the accepted lists. *)
Theorem index_make_sound n f cols ps i
    (Hmake : IndexIVFFlat_Make n f cols ps = Ok i ∨ IndexHnsw_Make n f cols ps = Ok i ∨
             IndexEMVB_Make n f cols ps = Ok i ∨ IndexBMP_Make n f cols ps = Ok i) :
  index_name_ i = n ∧ file_name_ i = f ∧ column_names_ i = cols ∧
  params_wf (params_ i) ∧ params_valid (params_ i).
Proof.
  destruct Hmake as [H|[H|[H|H]]];
    [eapply IVFFlat_made | eapply Hnsw_made | eapply EMVB_made | eapply BMP_made]; exact H.
Qed.

Example index_make_sound_witness :
  params_valid (IndexBMP 32 (Enumerator BMPCompress.kRaw)).
Proof.
  apply (index_make_sound (str "i") (str "f") [str "c"]
    [mkInitParameter (str "block_size") (str "32"); mkInitParameter (str "compress_type") (str "raww")]
    (mkIndexBase (str "i") (str "f") [str "c"] (IndexBMP 32 (Enumerator BMPCompress.kRaw)))).
  do 3 right. vm_compute. reflexivity.
Defined.

(** The name a BMP index shows for uncompressed postings, "raw", is rejected by CREATE INDEX,
    which expects "raww"; the names of metrics, encodings and index types are accepted back. *)
Theorem index_names_roundtrip :
  (∀ m, StringToMetricType (MetricTypeToString m) = m) ∧
  (∀ e, StringToHnswEncodeType (HnswEncodeTypeToString e) = e) ∧
  (∀ t s, IndexTypeToString t = Ok s → StringToIndexType s = t) ∧
  BMCompressTypeFromString (BMCompressTypeToString BMPCompress.kCompressed) = BMPCompress.kCompressed ∧
  BMCompressTypeFromString (BMCompressTypeToString BMPCompress.kRaw) = BMPCompress.kInvalid ∧
  ∀ n f cols, IndexBMP_Make n f cols
    [mkInitParameter (str "compress_type") (BMCompressTypeToString BMPCompress.kRaw)]
    = Err RecoverableError.
Proof.
  split_and!.
  - by intros [].
  - by intros [].
  - intros [] s [= <-]; reflexivity.
  - reflexivity.
  - reflexivity.
  - reflexivity.
Qed.
