(* ===== verification/LogFile.v ===== *)
(** * Files of the log and of the catalog

    Models [src/src/storage/wal/log_file.cpp] (the names of log files and catalog checkpoints, the
    choice of the checkpoint to start from, recycling) and the operations of
    [src/src/storage/io/local_file_system.cpp] it needs.

    The file system is a finite map from paths to contents.  Listing a directory is the operating
    system's: an interface that promises every regular file of the directory once, in any order. *)

From Stdlib Require Import ZArith Lia List.
From stdpp Require Import base list numbers gmap strings sorting.
From S2P Require Import Prelude Bytes Text.
Local Open Scope Z_scope.

(** ** The file system *)

Notation FileSystem := (gmap bytes bytes).

Record DirEntry := mkDirEntry { filename : bytes; is_regular_file : bool }.

#[export] Instance DirEntry_eq_dec : EqDecision DirEntry.
Proof. solve_decision. Defined.

Definition join (dir name : bytes) : bytes := dir ++ 47 :: name.

(** [None] is a path that is not a directory. *)
Class DirectoryListing := {
  directory_iterator : FileSystem → bytes → option (list DirEntry);
  listing_regular : ∀ fs dir l name,
    directory_iterator fs dir = Some l →
    mkDirEntry name true ∈ l ↔ is_Some (fs !! join dir name) ∧ 47 ∉ name;
  listing_nodup : ∀ fs dir l, directory_iterator fs dir = Some l → NoDup (map filename l);
}.

Definition Rename (fs : FileSystem) (old_path new_path : bytes) : result FileSystem :=
  match fs !! old_path with
  | None => Err UnrecoverableError
  | Some data => Ok (<[new_path := data]> (delete old_path fs))
  end.

(** A missing file is logged and ignored. *)
Definition DeleteFile (fs : FileSystem) (file_name : bytes) : FileSystem := delete file_name fs.

Definition Truncate (fs : FileSystem) (file_name : bytes) (length : Z) : result FileSystem :=
  match fs !! file_name with
  | None => Err UnrecoverableError
  | Some data =>
      Ok (<[file_name := take (Z.to_nat length) data ++ replicate (Z.to_nat (length - zlen data)) 0]> fs)
  end.

(** Everything below the directory goes; directories themselves have no entry, so that creating one
    changes nothing. *)
Definition CleanupDirectory (fs : FileSystem) (path : bytes) : FileSystem :=
  filter (λ kv, ¬ join path [] `prefix_of` kv.1) fs.

Section listing.
Context `{Dir : !DirectoryListing}.

Definition Exists (fs : FileSystem) (path : bytes) : bool :=
  bool_decide (is_Some (fs !! path)) || bool_decide (is_Some (directory_iterator fs path)).

Definition ListDirectory (fs : FileSystem) (path : bytes) : result (list DirEntry) :=
  match directory_iterator fs path with
  | None => Err UnrecoverableError
  | Some l => Ok l
  end.
End listing.

(** ** File names *)

(** The three structures of path and timestamp ([FullCatalogFileInfo], [DeltaCatalogFileInfo],
    [WalFileInfo]). *)
Record FileInfo := mkFileInfo { path_ : bytes; max_commit_ts_ : Z }.

#[export] Instance FileInfo_eq_dec : EqDecision FileInfo.
Proof. solve_decision. Defined.

Definition WAL_FILE_TEMP_FILE : bytes := str "wal.log".
Definition WAL_FILE_PREFIX : bytes := str "wal.log".

Definition FullCheckpoingFilename (max_commit_ts : Z) : bytes :=
  str "FULL." ++ print_u64 max_commit_ts ++ str ".json".

Definition TempFullCheckpointFilename (max_commit_ts : Z) : bytes :=
  str "_FULL." ++ print_u64 max_commit_ts ++ str ".json".

Definition DeltaCheckpointFilename (max_commit_ts : Z) : bytes :=
  str "DELTA." ++ print_u64 max_commit_ts.

Definition WalFilename (max_commit_ts : Z) : bytes :=
  WAL_FILE_PREFIX ++ str "." ++ print_u64 max_commit_ts.

Definition TempWalFilename : bytes := WAL_FILE_TEMP_FILE.

(** What one directory entry contributes; the timestamp parsed as [long long] is kept as [u64]. *)
Inductive catalog_file := FullFile (ts : Z) | DeltaFile (ts : Z).

Definition parse_catalog_filename (filename : bytes) : option catalog_file :=
  match rfind 46 filename with
  | None => None
  | Some dot_pos =>
      let suffix := drop (S dot_pos) filename in
      if bool_decide (suffix = str "json") then
        if bool_decide (dot_pos = O) then None
        else
          (* with no second dot, [npos + 1] is 0 and the prefix the whole name *)
          let '(number, file_prefix) :=
            match rfind 46 (take dot_pos filename) with
            | Some dot2_pos => (drop (S dot2_pos) (take dot_pos filename), take dot2_pos filename)
            | None => (take dot_pos filename, filename)
            end in
          match stoll number with
          | Err _ => None
          | Ok checkpoint_ts =>
              if bool_decide (file_prefix = str "FULL") then Some (FullFile (cast u64 checkpoint_ts)) else None
          end
      else
        match stoll (drop (S dot_pos) filename) with
        | Err _ => None
        | Ok checkpoint_ts =>
            if bool_decide (take dot_pos filename = str "DELTA")
            then Some (DeltaFile (cast u64 checkpoint_ts)) else None
        end
  end.

Definition parse_wal_filename (filename : bytes) : option Z :=
  match rfind 46 filename with
  | None => None
  | Some dot_pos =>
      match stoll (drop (S dot_pos) filename) with
      | Err _ => None
      | Ok checkpoint_ts =>
          if bool_decide (take dot_pos filename = WAL_FILE_PREFIX) then Some (cast u64 checkpoint_ts) else None
      end
  end.

(** ** Listing, choosing and recycling *)

Fixpoint drop_while {A} (p : A → bool) (l : list A) : list A :=
  match l with
  | [] => []
  | a :: l' => if p a then drop_while p l' else l
  end.

(** [while (!l.empty() && p(l.back())) l.pop_back()]. *)
Definition pop_back_while {A} (p : A → bool) (l : list A) : list A := rev (drop_while p (rev l)).

Definition ts_le (a b : FileInfo) : Prop := max_commit_ts_ a ≤ max_commit_ts_ b.

#[export] Instance ts_le_dec a b : Decision (ts_le a b) := Z_le_dec _ _.

Section operations.
Context `{Dir : !DirectoryListing}.

Definition ParseCheckpointFilenames_step (catalog_dir : bytes) (infos : list FileInfo * list FileInfo)
    (entry : DirEntry) : list FileInfo * list FileInfo :=
  let '(full_infos, delta_infos) := infos in
  if negb (is_regular_file entry) then infos
  else
    let path := join catalog_dir (filename entry) in
    match parse_catalog_filename (filename entry) with
    | None => infos
    | Some (FullFile ts) => (full_infos ++ [mkFileInfo path ts], delta_infos)
    | Some (DeltaFile ts) => (full_infos, delta_infos ++ [mkFileInfo path ts])
    end.

Definition ParseCheckpointFilenames (fs : FileSystem) (catalog_dir : bytes)
    : result (list FileInfo * list FileInfo) :=
  let? entries := ListDirectory fs catalog_dir in
  Ok (fold_left (ParseCheckpointFilenames_step catalog_dir) entries ([], [])).

Definition ParseValidCheckpointFilenames (fs : FileSystem) (catalog_dir : bytes) (max_checkpoint_ts : Z)
    : result (option (FileInfo * list FileInfo)) :=
  let? '(full_infos, delta_infos) := ParseCheckpointFilenames fs catalog_dir in
  let full_infos := merge_sort ts_le full_infos in
  let delta_infos := merge_sort ts_le delta_infos in
  let full_infos := pop_back_while (fun i => max_checkpoint_ts <? max_commit_ts_ i) full_infos in
  match last full_infos with
  | None => Ok None
  | Some last_full_info =>
      let delta_infos := pop_back_while (fun i => max_checkpoint_ts <? max_commit_ts_ i) delta_infos in
      let delta_infos :=
        drop_while (fun i => max_commit_ts_ i <=? max_commit_ts_ last_full_info) delta_infos in
      Ok (Some (last_full_info, delta_infos))
  end.

Definition RecycleCatalogFile (fs : FileSystem) (max_commit_ts : Z) (catalog_dir : bytes) : result FileSystem :=
  let? '(full_infos, delta_infos) := ParseCheckpointFilenames fs catalog_dir in
  let '(fs, found) :=
    fold_left (fun '(fs, found) full_info =>
      if max_commit_ts_ full_info <? max_commit_ts then (DeleteFile fs (path_ full_info), found)
      else if max_commit_ts_ full_info =? max_commit_ts then (fs, true)
      else (fs, found)) full_infos (fs, false) in
  if negb found then Err UnrecoverableError
  else
    Ok (fold_left (fun fs delta_info =>
          if max_commit_ts_ delta_info <=? max_commit_ts then DeleteFile fs (path_ delta_info) else fs)
        delta_infos fs).

Definition ParseWalFilenames_step (wal_dir : bytes) (infos : option bytes * list FileInfo) (entry : DirEntry)
    : result (option bytes * list FileInfo) :=
  let '(cur_wal_info, wal_infos) := infos in
  if negb (is_regular_file entry) then Ok infos
  else
    let path := join wal_dir (filename entry) in
    if bool_decide (filename entry = TempWalFilename) then
      match cur_wal_info with
      | Some _ => Err UnrecoverableError
      | None => Ok (Some path, wal_infos)
      end
    else
      match parse_wal_filename (filename entry) with
      | None => Ok infos
      | Some checkpoint_ts => Ok (cur_wal_info, wal_infos ++ [mkFileInfo path checkpoint_ts])
      end.

Definition ParseWalFilenames (fs : FileSystem) (wal_dir : bytes) : result (option bytes * list FileInfo) :=
  if negb (Exists fs wal_dir) then Ok (None, [])
  else
    let? entries := ListDirectory fs wal_dir in
    res_fold (ParseWalFilenames_step wal_dir) (None, []) entries.

Definition RecycleWalFile (fs : FileSystem) (max_commit_ts : Z) (wal_dir : bytes) : result FileSystem :=
  let? '(cur_wal_info, wal_infos) := ParseWalFilenames fs wal_dir in
  Ok (fold_left (fun fs wal_info =>
        if max_commit_ts_ wal_info <=? max_commit_ts then DeleteFile fs (path_ wal_info) else fs)
      wal_infos fs).
End operations.

(** ** Lemmas: file names *)

Lemma rfind_number prefix n : rfind 46 (prefix ++ 46 :: print_u64 n) = Some (length prefix).
Proof. apply rfind_app_r, dot_not_digit. Qed.

Lemma number_not_json n : print_u64 n ≠ str "json".
Proof.
  intros H. pose proof (dec_digits_Forall 20 n [] (Forall_nil_2 _)) as Hd.
  change (Forall (fun b => is_digit b = true) (print_u64 n)) in Hd. rewrite H in Hd.
  by apply Forall_cons in Hd as [Hd _].
Qed.

Lemma parse_named prefix n :
  drop (S (length prefix)) (prefix ++ 46 :: print_u64 n) = print_u64 n ∧
  take (length prefix) (prefix ++ 46 :: print_u64 n) = prefix.
Proof.
  split; [|by rewrite take_app_length].
  change (prefix ++ 46 :: print_u64 n) with (prefix ++ [46] ++ print_u64 n).
  rewrite app_assoc. apply drop_app_length'. rewrite length_app. simpl. lia.
Qed.

Lemma cast_u64_small n : 0 ≤ n < 2 ^ 64 → cast u64 n = n.
Proof. intros H. apply cast_id. solve_range. Qed.

Lemma parse_wal_WalFilename ts :
  0 ≤ ts < 2 ^ 64 →
  parse_wal_filename (WalFilename ts) = if decide (in_range i64 ts) then Some ts else None.
Proof.
  intros Hts. unfold parse_wal_filename, WalFilename. change (str "." ++ print_u64 ts) with (46 :: print_u64 ts).
  rewrite rfind_number. destruct (parse_named WAL_FILE_PREFIX ts) as [-> ->].
  unfold stoll. rewrite parse_print by done. destruct (decide _); [|done].
  rewrite bool_decide_eq_true_2 by done. by rewrite cast_u64_small.
Qed.

Lemma parse_wal_small ts : 0 ≤ ts < 2 ^ 63 → parse_wal_filename (WalFilename ts) = Some ts.
Proof.
  change (2 ^ 63) with 9223372036854775808. intros Hts.
  rewrite parse_wal_WalFilename by (change (2 ^ 64) with 18446744073709551616; lia).
  apply decide_True. unfold in_range. change (lowest i64) with (-9223372036854775808).
  change (modulus i64) with 18446744073709551616. lia.
Qed.

Lemma slash_not_in_WalFilename ts : 47 ∉ WalFilename ts.
Proof.
  unfold WalFilename. rewrite !elem_of_app. intros [H|[H|H]].
  1, 2: vm_compute in H; set_solver.
  apply (proj1 (Forall_forall _ _) (dec_digits_Forall 20 ts [] (Forall_nil_2 _))) in H. done.
Qed.

Lemma parse_catalog_Delta ts :
  0 ≤ ts < 2 ^ 64 →
  parse_catalog_filename (DeltaCheckpointFilename ts) = if decide (in_range i64 ts) then Some (DeltaFile ts) else None.
Proof.
  intros Hts. unfold parse_catalog_filename, DeltaCheckpointFilename.
  change (str "DELTA." ++ print_u64 ts) with (str "DELTA" ++ 46 :: print_u64 ts).
  rewrite rfind_number. destruct (parse_named (str "DELTA") ts) as [-> ->].
  rewrite bool_decide_eq_false_2 by apply number_not_json.
  unfold stoll. rewrite parse_print by done. destruct (decide _); [|done].
  rewrite bool_decide_eq_true_2 by done. by rewrite cast_u64_small.
Qed.

Lemma parse_catalog_json prefix ts :
  0 ≤ ts < 2 ^ 64 →
  parse_catalog_filename (prefix ++ 46 :: print_u64 ts ++ str ".json")
  = if decide (in_range i64 ts ∧ prefix = str "FULL") then Some (FullFile ts) else None.
Proof.
  intros Hts. unfold parse_catalog_filename.
  set (base := prefix ++ 46 :: print_u64 ts).
  assert (Hb : prefix ++ 46 :: print_u64 ts ++ str ".json" = base ++ 46 :: str "json")
    by (unfold base; by rewrite <- app_assoc).
  assert (Hp : take (length prefix) (base ++ 46 :: str "json") = prefix).
  { unfold base. rewrite <- app_assoc. by apply take_app_length. }
  rewrite Hb, (rfind_app_r 46 base (str "json")) by (vm_compute; set_solver).
  assert (Hd : drop (S (length base)) (base ++ 46 :: str "json") = str "json").
  { change (46 :: str "json") with ([46] ++ str "json"). rewrite app_assoc. apply drop_app_length'.
    rewrite length_app. simpl. lia. }
  rewrite Hd, bool_decide_eq_true_2, bool_decide_eq_false_2, take_app_length by
    (try done; unfold base; rewrite length_app; simpl; lia).
  unfold base at 1. rewrite rfind_number, Hp. destruct (parse_named prefix ts) as [Hn _].
  fold base in Hn. rewrite Hn. unfold stoll. rewrite parse_print by done.
  destruct (decide (in_range i64 ts)); [|rewrite decide_False by tauto; done].
  case_bool_decide; [rewrite decide_True by done|rewrite decide_False by tauto; done]. by rewrite cast_u64_small.
Qed.

(** ** Lemmas: sorted lists of files *)

#[export] Instance ts_le_trans : Transitive ts_le.
Proof. unfold ts_le. intros x y z. lia. Qed.

#[export] Instance ts_le_total : Total ts_le.
Proof. unfold ts_le. intros x y. lia. Qed.

Lemma drop_while_sorted m l :
  StronglySorted ts_le l →
  drop_while (fun i => max_commit_ts_ i <=? m) l = filter (fun i => m < max_commit_ts_ i) l.
Proof.
  induction 1 as [|a l Hs IH Hf]; [done|]. cbn [drop_while]. rewrite filter_cons.
  destruct (Z.leb_spec (max_commit_ts_ a) m); [by rewrite decide_False by lia|].
  rewrite decide_True by lia. f_equal. clear IH. induction Hf as [|b l Hb Hf IHf]; [done|].
  rewrite filter_cons, decide_True by (unfold ts_le in Hb; lia). f_equal. apply IHf. by inversion Hs.
Qed.

Lemma drop_while_app_last {A} (p : A → bool) l a :
  drop_while p (l ++ [a]) = if forallb p l then drop_while p [a] else drop_while p l ++ [a].
Proof. induction l as [|b l IH]; simpl; [done|]. by destruct (p b). Qed.

Lemma pop_back_while_cons {A} (p : A → bool) a l :
  pop_back_while p (a :: l) = if forallb p l then pop_back_while p [a] else a :: pop_back_while p l.
Proof.
  unfold pop_back_while. simpl. rewrite drop_while_app_last.
  assert (Hr : forallb p (rev l) = forallb p l).
  { induction l as [|b l IH]; [done|]. simpl. rewrite forallb_app, IH. simpl.
    rewrite andb_true_r. apply andb_comm. }
  rewrite Hr. destruct (forallb p l); [done|]. by rewrite rev_app_distr.
Qed.

Lemma pop_back_while_sorted m l :
  StronglySorted ts_le l →
  pop_back_while (fun i => m <? max_commit_ts_ i) l = filter (fun i => max_commit_ts_ i ≤ m) l.
Proof.
  induction 1 as [|a l Hs IH Hf]; [done|]. rewrite pop_back_while_cons, IH, filter_cons. clear IH.
  destruct (forallb _ l) eqn:Hall.
  - assert (Hnil : filter (fun i => max_commit_ts_ i ≤ m) l = []).
    { clear Hs Hf. induction l as [|b l IH]; [done|].
      apply andb_true_iff in Hall as [Hb Hall]. rewrite filter_cons, decide_False by lia. by apply IH. }
    rewrite Hnil. unfold pop_back_while. simpl.
    destruct (Z.ltb_spec m (max_commit_ts_ a)); [by rewrite decide_False by lia|by rewrite decide_True by lia].
  - rewrite decide_True; [done|]. apply Z.nlt_ge. intros Hlt.
    assert (forallb (fun i => m <? max_commit_ts_ i) l = true); [|congruence].
    apply forallb_forall. intros b Hb. apply list_elem_of_In in Hb.
    apply (proj1 (Forall_forall _ _) Hf) in Hb. unfold ts_le in Hb. lia.
Qed.

Lemma last_sorted_max l x : StronglySorted ts_le l → last l = Some x → ∀ i, i ∈ l → ts_le i x.
Proof.
  intros Hs Hl i Hi. apply last_Some in Hl as [l' ->].
  apply elem_of_app in Hi as [Hi|Hi]; [|apply list_elem_of_singleton in Hi as ->; unfold ts_le; lia].
  eapply StronglySorted_app_1_elem_of; [done|done|set_solver].
Qed.

Lemma sorted_filter (P : FileInfo → Prop) `{!∀ x, Decision (P x)} l :
  StronglySorted ts_le l → StronglySorted ts_le (filter P l).
Proof.
  induction 1 as [|a l Hs IH Hf]; [constructor|]. rewrite filter_cons. case_decide; [|done].
  constructor; [done|]. apply Forall_forall. intros b Hb. apply list_elem_of_filter in Hb as [_ Hb].
  by eapply Forall_forall in Hf.
Qed.

(** ** Lemmas: listings *)

Section listing_lemmas.
Context `{Dir : !DirectoryListing}.

(** The files of a directory that count as full checkpoint, delta checkpoint or swapped log file. *)
Definition is_full (fs : FileSystem) (dir : bytes) (i : FileInfo) : Prop :=
  ∃ name, path_ i = join dir name ∧ 47 ∉ name ∧ is_Some (fs !! path_ i) ∧
    parse_catalog_filename name = Some (FullFile (max_commit_ts_ i)).

Definition is_delta (fs : FileSystem) (dir : bytes) (i : FileInfo) : Prop :=
  ∃ name, path_ i = join dir name ∧ 47 ∉ name ∧ is_Some (fs !! path_ i) ∧
    parse_catalog_filename name = Some (DeltaFile (max_commit_ts_ i)).

Definition is_wal (fs : FileSystem) (dir : bytes) (i : FileInfo) : Prop :=
  ∃ name, path_ i = join dir name ∧ 47 ∉ name ∧ is_Some (fs !! path_ i) ∧
    parse_wal_filename name = Some (max_commit_ts_ i).

(** Collecting the entries a name parser accepts. *)
Definition collect (parse : bytes → option Z) (dir : bytes) (e : DirEntry) : option FileInfo :=
  if is_regular_file e then mkFileInfo (join dir (filename e)) <$> parse (filename e) else None.

Definition full_ts (name : bytes) : option Z :=
  match parse_catalog_filename name with Some (FullFile ts) => Some ts | _ => None end.
Definition delta_ts (name : bytes) : option Z :=
  match parse_catalog_filename name with Some (DeltaFile ts) => Some ts | _ => None end.

Lemma join_inj dir n1 n2 : join dir n1 = join dir n2 → n1 = n2.
Proof. unfold join. intros Hj. by simplify_list_eq. Qed.

Lemma elem_of_collect parse fs dir l i :
  directory_iterator fs dir = Some l →
  i ∈ omap (collect parse dir) l ↔
  ∃ name, path_ i = join dir name ∧ 47 ∉ name ∧ is_Some (fs !! path_ i) ∧ parse name = Some (max_commit_ts_ i).
Proof.
  intros Hl. rewrite list_elem_of_omap. split.
  - intros ([name reg] & He & Hc). unfold collect in Hc. simpl in Hc. destruct reg; [|done].
    apply fmap_Some in Hc as (ts & Hp & ->). apply (listing_regular _ _ _ _ Hl) in He as [He ?].
    exists name. done.
  - intros (name & Hi & Hs & Hex & Hp). exists (mkDirEntry name true). split.
    + apply (listing_regular _ _ _ _ Hl). split; [|done]. by rewrite <- Hi.
    + unfold collect. simpl. rewrite Hp. simpl. f_equal. destruct i. simpl in *. congruence.
Qed.

Lemma NoDup_collect parse fs dir l :
  directory_iterator fs dir = Some l → NoDup (omap (collect parse dir) l).
Proof.
  intros Hl. pose proof (listing_nodup _ _ _ Hl) as Hn. clear Hl.
  induction l as [|e l IH]; [constructor|]. simpl in *. apply NoDup_cons in Hn as [He Hn].
  destruct (collect parse dir e) as [i|] eqn:Hi; [|by apply IH].
  apply NoDup_cons. split; [|by apply IH]. intros Hin. apply list_elem_of_omap in Hin as (e' & He' & Hi').
  apply He. apply list_elem_of_fmap. exists e'. split; [|done].
  unfold collect in Hi, Hi'. destruct (is_regular_file e), (is_regular_file e'); try done.
  apply fmap_Some in Hi as (? & _ & ->). apply fmap_Some in Hi' as (? & _ & [= ? ?]). by eapply join_inj.
Qed.

Lemma omap_step {A B} (f : A → option B) a l :
  omap f (a :: l) = match f a with Some b => b :: omap f l | None => omap f l end.
Proof. done. Qed.

Lemma collect_step parse dir e :
  collect parse dir e
  = if is_regular_file e then mkFileInfo (join dir (filename e)) <$> parse (filename e) else None.
Proof. done. Qed.

Lemma ParseCheckpointFilenames_fold dir l : ∀ full_infos delta_infos,
  fold_left (ParseCheckpointFilenames_step dir) l (full_infos, delta_infos)
  = (full_infos ++ omap (collect full_ts dir) l, delta_infos ++ omap (collect delta_ts dir) l).
Proof.
  induction l as [|e l IH]; intros fi di; [simpl; by rewrite !app_nil_r|].
  rewrite !omap_step, !(collect_step _ _ e). cbn [fold_left]. unfold ParseCheckpointFilenames_step at 2.
  destruct (is_regular_file e); cbn [negb]; [|apply IH].
  rewrite (eq_refl : full_ts (filename e) = match parse_catalog_filename (filename e) with Some (FullFile ts) => Some ts | _ => None end),
    (eq_refl : delta_ts (filename e) = match parse_catalog_filename (filename e) with Some (DeltaFile ts) => Some ts | _ => None end).
  destruct (parse_catalog_filename (filename e)) as [[]|]; simpl; rewrite IH, <- ?app_assoc; done.
Qed.

Lemma ParseCheckpointFilenames_spec fs dir l :
  directory_iterator fs dir = Some l →
  ParseCheckpointFilenames fs dir = Ok (omap (collect full_ts dir) l, omap (collect delta_ts dir) l).
Proof.
  intros Hl. unfold ParseCheckpointFilenames, ListDirectory. rewrite Hl. cbn [res_bind].
  by rewrite ParseCheckpointFilenames_fold.
Qed.

(** The current log file, if any, and the swapped ones. *)
Lemma ParseWalFilenames_fold dir l : ∀ cur wal_infos,
  NoDup (map filename l) → (is_Some cur → Forall (fun e => filename e ≠ TempWalFilename) l) →
  res_fold (ParseWalFilenames_step dir) (cur, wal_infos) l
  = Ok (if decide (mkDirEntry TempWalFilename true ∈ l) then Some (join dir TempWalFilename) else cur,
        wal_infos ++ omap (collect parse_wal_filename dir) l).
Proof.
  induction l as [|e l IH]; intros cur wal_infos Hn Hc; cbn [res_fold].
  { rewrite decide_False by set_solver. by rewrite app_nil_r. }
  apply NoDup_cons in Hn as [He Hn]. unfold ParseWalFilenames_step at 1.
  destruct e as [name reg]. cbn [filename is_regular_file] in *.
  rewrite omap_step, collect_step. cbn [filename is_regular_file].
  assert (Hl : name = TempWalFilename → mkDirEntry TempWalFilename true ∉ l).
  { intros -> Hin. apply He. apply list_elem_of_fmap. by exists (mkDirEntry TempWalFilename true). }
  destruct reg; cbn [negb res_bind].
  2: { rewrite IH; [|done|intros Hs; by apply Forall_inv_tail in Hc].
       do 3 f_equal. apply decide_ext. rewrite elem_of_cons. naive_solver. }
  case_bool_decide as Hname.
  - subst name. destruct cur as [p|].
    { specialize (Hc ltac:(by eexists)). by apply Forall_cons in Hc as [? _]. }
    cbn [res_bind]. replace (parse_wal_filename TempWalFilename) with (@None Z) by (by vm_compute).
    rewrite IH; [|done|].
    + rewrite decide_False by auto. by rewrite decide_True by set_solver.
    + intros _. apply Forall_forall. intros e He' Hname. apply He. apply list_elem_of_fmap. by exists e.
  - assert (Hmem : mkDirEntry TempWalFilename true ∈ mkDirEntry name true :: l
                   ↔ mkDirEntry TempWalFilename true ∈ l) by (rewrite elem_of_cons; naive_solver).
    rewrite (decide_ext _ _ _ _ Hmem).
    destruct (parse_wal_filename name); cbn [res_bind fmap option_fmap option_map];
      (rewrite IH; [|done|intros Hs; by apply Forall_inv_tail in Hc]); by rewrite <- ?app_assoc.
Qed.

Lemma ParseWalFilenames_spec fs dir l :
  directory_iterator fs dir = Some l →
  ParseWalFilenames fs dir
  = Ok (if decide (is_Some (fs !! join dir TempWalFilename)) then Some (join dir TempWalFilename) else None,
        omap (collect parse_wal_filename dir) l).
Proof.
  intros Hl. unfold ParseWalFilenames, Exists, ListDirectory. rewrite Hl.
  rewrite (bool_decide_eq_true_2 (is_Some (Some l))) by (by eexists). rewrite orb_true_r. cbn [negb res_bind].
  rewrite ParseWalFilenames_fold; [|by eapply listing_nodup|intros []; discriminate].
  do 2 f_equal. apply decide_ext. rewrite (listing_regular _ _ _ _ Hl). split; [by intros []|].
  split; [done|]. by vm_compute; set_solver.
Qed.

Lemma is_full_iff fs dir l i :
  directory_iterator fs dir = Some l → i ∈ omap (collect full_ts dir) l ↔ is_full fs dir i.
Proof.
  intros Hl. rewrite elem_of_collect by done. unfold is_full, full_ts.
  split; intros (name & ? & ? & ? & Hp); exists name; repeat split; try done.
  - destruct (parse_catalog_filename name) as [[]|]; congruence.
  - by rewrite Hp.
Qed.

Lemma is_delta_iff fs dir l i :
  directory_iterator fs dir = Some l → i ∈ omap (collect delta_ts dir) l ↔ is_delta fs dir i.
Proof.
  intros Hl. rewrite elem_of_collect by done. unfold is_delta, delta_ts.
  split; intros (name & ? & ? & ? & Hp); exists name; repeat split; try done.
  - destruct (parse_catalog_filename name) as [[]|]; congruence.
  - by rewrite Hp.
Qed.
End listing_lemmas.

(** ** Lemmas: deleting files *)

Lemma fold_delete_Some (p : FileInfo → bool) l : ∀ fs q x,
  fold_left (fun fs i => if p i then DeleteFile fs (path_ i) else fs) l fs !! q = Some x ↔
  fs !! q = Some x ∧ ¬ ∃ i, i ∈ l ∧ p i = true ∧ path_ i = q.
Proof.
  unfold DeleteFile. induction l as [|i l IH]; intros fs q x; cbn [fold_left].
  { split; [|by intros []]. intros H. split; [done|]. intros (? & ? & _). set_solver. }
  rewrite IH. destruct (p i) eqn:Hp; [rewrite lookup_delete_Some|]; split.
  - intros [[Hne ?] Hn]. split; [done|]. intros (j & Hj & ? & ?). apply elem_of_cons in Hj as [->|Hj]; [done|].
    apply Hn. by exists j.
  - intros [? Hn]. split; [split; [|done]|]; [intros <-; apply Hn; exists i; set_solver|].
    intros (j & Hj & ? & ?). apply Hn. exists j. set_solver.
  - intros [? Hn]. split; [done|]. intros (j & Hj & ? & ?). apply elem_of_cons in Hj as [->|Hj]; [congruence|].
    apply Hn. by exists j.
  - intros [? Hn]. split; [done|]. intros (j & Hj & ? & ?). apply Hn. exists j. set_solver.
Qed.

Lemma recycle_full_fold m l : ∀ fs found,
  fold_left (fun '(fs, found) full_info =>
      if max_commit_ts_ full_info <? m then (DeleteFile fs (path_ full_info), found)
      else if max_commit_ts_ full_info =? m then (fs, true)
      else (fs, found)) l (fs, found)
  = (fold_left (fun fs i => if max_commit_ts_ i <? m then DeleteFile fs (path_ i) else fs) l fs,
     found || existsb (fun i => max_commit_ts_ i =? m) l).
Proof.
  induction l as [|i l IH]; intros fs found; cbn [fold_left existsb]; [by rewrite orb_false_r|].
  destruct (Z.ltb_spec (max_commit_ts_ i) m).
  - rewrite IH. by rewrite (proj2 (Z.eqb_neq _ _)) by lia.
  - destruct (max_commit_ts_ i =? m); rewrite IH; [|done]. by rewrite orb_true_r.
Qed.

(** ** Properties *)

Section properties.
Context `{Dir : !DirectoryListing}.

(** The checkpoint chosen for recovery.  Whatever the order of the directory,
    [ParseValidCheckpointFilenames] yields nothing exactly if every full checkpoint is newer than
    [max_checkpoint_ts]; otherwise it yields a newest full checkpoint up to that timestamp and, in
    ascending order and without repetition, precisely the delta checkpoints after it and up to
    that timestamp. *)
Theorem valid_checkpoint_files fs dir l max_checkpoint_ts :
  directory_iterator fs dir = Some l →
  ∃ r, ParseValidCheckpointFilenames fs dir max_checkpoint_ts = Ok r ∧
    match r with
    | None => ∀ i, is_full fs dir i → max_checkpoint_ts < max_commit_ts_ i
    | Some (full, deltas) =>
        is_full fs dir full ∧ max_commit_ts_ full ≤ max_checkpoint_ts ∧
        (∀ i, is_full fs dir i → max_commit_ts_ i ≤ max_checkpoint_ts → max_commit_ts_ i ≤ max_commit_ts_ full) ∧
        StronglySorted ts_le deltas ∧ NoDup deltas ∧
        (∀ i, i ∈ deltas ↔ is_delta fs dir i ∧ max_commit_ts_ full < max_commit_ts_ i ≤ max_checkpoint_ts)
    end.
Proof.
  intros Hl. unfold ParseValidCheckpointFilenames. rewrite (ParseCheckpointFilenames_spec _ _ _ Hl). cbn [res_bind].
  set (fulls := omap _ l). set (ds := omap _ l).
  pose proof (StronglySorted_merge_sort ts_le fulls) as Hsf.
  pose proof (StronglySorted_merge_sort ts_le ds) as Hsd.
  rewrite !pop_back_while_sorted by done. set (ff := filter _ _).
  assert (Hff : ∀ i, i ∈ ff ↔ is_full fs dir i ∧ max_commit_ts_ i ≤ max_checkpoint_ts).
  { intros i. unfold ff. rewrite list_elem_of_filter, merge_sort_Permutation. unfold fulls.
    rewrite (is_full_iff _ _ _ _ Hl). tauto. }
  assert (Hs : StronglySorted ts_le ff) by (by apply sorted_filter).
  destruct (last ff) as [full|] eqn:Hlast.
  - eexists. split; [done|]. assert (Hin : full ∈ ff) by (apply last_Some in Hlast as [? ->]; set_solver).
    apply Hff in Hin as [? ?]. split; [done|]. split; [done|]. split.
    { intros i Hi Hle. apply (last_sorted_max ff full Hs Hlast). by apply Hff. }
    rewrite drop_while_sorted by (by apply sorted_filter).
    split; [by repeat apply sorted_filter|]. split.
    { repeat apply NoDup_filter. rewrite merge_sort_Permutation. by eapply NoDup_collect. }
    intros i. rewrite !list_elem_of_filter, merge_sort_Permutation. unfold ds.
    rewrite (is_delta_iff _ _ _ _ Hl). intuition lia.
  - eexists. split; [done|]. cbn. intros i Hi. apply Z.nle_gt. intros Hle.
    apply last_None in Hlast. assert (i ∈ ff) by (by apply Hff). rewrite Hlast in *. set_solver.
Qed.

(** Recycling the catalog after a full checkpoint at [ts].  If that checkpoint is on disk,
    [RecycleCatalogFile] succeeds and removes exactly the older full checkpoints and the delta
    checkpoints up to [ts]; every checkpoint file that recovery could still choose for a timestamp
    from [ts] on stays what it was. *)
Theorem recycle_catalog_files fs dir l cur :
  directory_iterator fs dir = Some l → is_full fs dir cur →
  ∃ fs', RecycleCatalogFile fs (max_commit_ts_ cur) dir = Ok fs' ∧
    (∀ q x, fs' !! q = Some x ↔
       fs !! q = Some x ∧
       ¬ (∃ i, path_ i = q ∧ (is_full fs dir i ∧ max_commit_ts_ i < max_commit_ts_ cur ∨
                              is_delta fs dir i ∧ max_commit_ts_ i ≤ max_commit_ts_ cur))) ∧
    (∀ i, max_commit_ts_ cur ≤ max_commit_ts_ i → is_full fs' dir i ↔ is_full fs dir i) ∧
    (∀ i, max_commit_ts_ cur < max_commit_ts_ i → is_delta fs' dir i ↔ is_delta fs dir i).
Proof.
  intros Hl Hcur. unfold RecycleCatalogFile. rewrite (ParseCheckpointFilenames_spec _ _ _ Hl). cbn [res_bind].
  rewrite recycle_full_fold. rewrite (proj2 (existsb_exists _ _)).
  2: { exists cur. split; [by apply list_elem_of_In, (is_full_iff _ _ _ _ Hl)|apply Z.eqb_refl]. }
  cbn [orb negb]. eexists. split; [done|].
  assert (Hq : ∀ (fs' : FileSystem), (∀ q x, fs' !! q = Some x ↔
       fs !! q = Some x ∧
       ¬ (∃ i, path_ i = q ∧ (is_full fs dir i ∧ max_commit_ts_ i < max_commit_ts_ cur ∨
                              is_delta fs dir i ∧ max_commit_ts_ i ≤ max_commit_ts_ cur))) →
    (∀ i, max_commit_ts_ cur ≤ max_commit_ts_ i → is_full fs' dir i ↔ is_full fs dir i) ∧
    (∀ i, max_commit_ts_ cur < max_commit_ts_ i → is_delta fs' dir i ↔ is_delta fs dir i)).
  { intros fs' Hfs'. split; intros i Hi.
    all: split; intros (name & Hp & Hs & [x Hx] & Hts); exists name; repeat split; try done; exists x.
    1, 3: by apply Hfs' in Hx as [? _].
    all: apply Hfs'; split; [done|]; intros (j & Hj & Hcase).
    all: rewrite Hp in Hj; destruct Hcase as [[(n & Hn & _ & _ & Ht) ?]|[(n & Hn & _ & _ & Ht) ?]].
    all: rewrite Hj in Hn; apply join_inj in Hn as <-; rewrite Hts in Ht; simplify_eq; lia. }
  match goal with |- ?P ∧ _ => assert (HP : P); [|split; [exact HP|by apply Hq]] end.
  intros q x. rewrite !fold_delete_Some. split.
  - intros [[Hx Hf] Hd]. split; [done|]. intros (i & Hi & [[Hfi ?]|[Hdi ?]]).
    + apply Hf. exists i. rewrite (is_full_iff _ _ _ _ Hl). repeat split; try done. lia.
    + apply Hd. exists i. rewrite (is_delta_iff _ _ _ _ Hl). repeat split; try done. lia.
  - intros [Hx Hn]. repeat split; try done.
    + intros (i & Hi & ? & ?). apply Hn. exists i. rewrite (is_full_iff _ _ _ _ Hl) in Hi. split; [done|left]. split; [done|lia].
    + intros (i & Hi & ? & ?). apply Hn. exists i. rewrite (is_delta_iff _ _ _ _ Hl) in Hi. split; [done|right]. split; [done|lia].
Qed.

(** Recycling the log after a checkpoint up to [max_commit_ts] removes exactly the swapped log
    files whose name carries a timestamp up to it.  The file in use is kept, and so is every log
    file swapped at a later timestamp. *)
Theorem recycle_wal_files fs dir l max_commit_ts :
  directory_iterator fs dir = Some l →
  ∃ fs', RecycleWalFile fs max_commit_ts dir = Ok fs' ∧
    (∀ q x, fs' !! q = Some x ↔
       fs !! q = Some x ∧ ¬ (∃ i, is_wal fs dir i ∧ max_commit_ts_ i ≤ max_commit_ts ∧ path_ i = q)) ∧
    fs' !! join dir TempWalFilename = fs !! join dir TempWalFilename ∧
    (∀ ts, max_commit_ts < ts < 2 ^ 63 → 0 ≤ ts →
       fs' !! join dir (WalFilename ts) = fs !! join dir (WalFilename ts)).
Proof.
  intros Hl. unfold RecycleWalFile. rewrite (ParseWalFilenames_spec _ _ _ Hl). cbn [res_bind].
  eexists. split; [done|]. match goal with |- ?P ∧ _ => assert (HP : P) end.
  { intros q x. rewrite fold_delete_Some. split; intros [Hx Hn]; (split; [done|]).
    - intros (i & Hi & ? & ?). apply Hn. exists i. rewrite (elem_of_collect _ _ _ _ _ Hl). split; [done|]. split; [lia|done].
    - intros (i & Hi & ? & ?). apply Hn. exists i. rewrite (elem_of_collect _ _ _ _ _ Hl) in Hi. split; [done|]. split; [lia|done]. }
  split; [exact HP|].
  assert (Hkeep : ∀ name, (∀ ts, parse_wal_filename name = Some ts → max_commit_ts < ts) →
    ∀ x, fs !! join dir name = Some x ↔ fold_left (fun fs wal_info =>
        if max_commit_ts_ wal_info <=? max_commit_ts then DeleteFile fs (path_ wal_info) else fs)
      (omap (collect parse_wal_filename dir) l) fs !! join dir name = Some x).
  { intros name Hname x. rewrite HP. split; [|by intros []]. intros Hx. split; [done|].
    intros (i & (n & Hp & _ & _ & Hts) & Hle & Hi). rewrite Hi in Hp. apply join_inj in Hp as <-.
    apply Hname in Hts. lia. }
  split.
  - apply option_eq. intros x. symmetry. apply Hkeep. intros ts Hts. by vm_compute in Hts.
  - intros ts Hts H0. apply option_eq. intros x. symmetry. apply Hkeep.
    rewrite parse_wal_small by lia. intros ? [= <-]. lia.
Qed.
End properties.

(** The file names round trip: the timestamp printed into the name of a swapped log file, a
    full or a delta checkpoint is read back, unless it does not fit a [long long], when the file is
    ignored; the name of a checkpoint still being written and that of the log file in use are never
    taken for one of them. *)
Theorem log_filenames_roundtrip ts :
  0 ≤ ts < 2 ^ 64 →
  let visible {A} (a : A) := if decide (in_range i64 ts) then Some a else None in
  parse_wal_filename (WalFilename ts) = visible ts ∧
  parse_catalog_filename (FullCheckpoingFilename ts) = visible (FullFile ts) ∧
  parse_catalog_filename (DeltaCheckpointFilename ts) = visible (DeltaFile ts) ∧
  parse_catalog_filename (TempFullCheckpointFilename ts) = None ∧
  parse_wal_filename TempWalFilename = None.
Proof.
  intros Hts visible. repeat split.
  - by apply parse_wal_WalFilename.
  - pose proof (parse_catalog_json (str "FULL") ts Hts) as Hp. etransitivity; [exact Hp|].
    unfold visible. repeat case_decide; naive_solver.
  - by apply parse_catalog_Delta.
  - pose proof (parse_catalog_json (str "_FULL") ts Hts) as Hp. etransitivity; [exact Hp|].
    rewrite decide_False; [done|]. by intros [_ ?].
Qed.

(** ** Witnesses *)

(** A listing computed from the map of files. *)
Definition name_in (dir path : bytes) : option bytes :=
  let n := length dir in
  let name := drop (S n) path in
  if bool_decide (path = join dir name ∧ 47 ∉ name) then Some name else None.

Definition list_files (fs : FileSystem) (dir : bytes) : option (list DirEntry) :=
  Some (map (fun name => mkDirEntry name true) (omap (name_in dir) (map_to_list fs).*1)).

Lemma name_in_Some dir path name : name_in dir path = Some name ↔ path = join dir name ∧ 47 ∉ name.
Proof.
  assert (Hd : ∀ name, drop (S (length dir)) (join dir name) = name).
  { intros n. unfold join. change (47 :: n) with ([47] ++ n). rewrite app_assoc. apply drop_app_length'.
    rewrite length_app. simpl. lia. }
  unfold name_in. case_bool_decide as Hc; split.
  - by intros [= <-].
  - intros [-> _]. by rewrite Hd.
  - done.
  - intros [-> ?]. destruct Hc. by rewrite Hd.
Qed.

#[refine] Definition map_listing : DirectoryListing := {| directory_iterator := list_files |}.
Proof.
  - intros fs dir l name [= <-]. rewrite list_elem_of_fmap. split.
    + intros (n & [= <-] & Hn). apply list_elem_of_omap in Hn as (path & Hp & Hn).
      apply name_in_Some in Hn as [-> ?]. apply list_elem_of_fmap in Hp as ([k v] & Heq & Hp).
      apply elem_of_map_to_list in Hp. simpl in Heq. subst k. split; [by eexists|done].
    + intros [[x Hx] Hs]. exists name. split; [done|]. apply list_elem_of_omap. exists (join dir name).
      split; [|by apply name_in_Some]. apply list_elem_of_fmap. exists (join dir name, x).
      split; [done|by apply elem_of_map_to_list].
  - intros fs dir l [= <-]. rewrite map_map, map_id. pose proof (NoDup_fst_map_to_list fs) as Hn.
    induction ((map_to_list fs).*1) as [|p ps IH]; [constructor|]. apply NoDup_cons in Hn as [Hp Hn].
    rewrite omap_step. destruct (name_in dir p) as [n|] eqn:He; [|by apply IH].
    apply NoDup_cons. split; [|by apply IH]. intros Hin. apply list_elem_of_omap in Hin as (p' & Hp' & He').
    apply name_in_Some in He as [-> _]. by apply name_in_Some in He' as [-> _].
Defined.

Definition sample_dir : bytes := str "cat".
Definition sample_files : FileSystem :=
  list_to_map (map (fun name => (join sample_dir name, [0]))
    [FullCheckpoingFilename 4; FullCheckpoingFilename 10; FullCheckpoingFilename 30;
     TempFullCheckpointFilename 31; DeltaCheckpointFilename 7; DeltaCheckpointFilename 15;
     DeltaCheckpointFilename 12; DeltaCheckpointFilename 33; TempWalFilename; WalFilename 9;
     WalFilename 14; str "notes"]).

Lemma valid_checkpoint_files_witness :
  ∃ full deltas,
    ParseValidCheckpointFilenames (Dir := map_listing) sample_files sample_dir 20 = Ok (Some (full, deltas)) ∧
    map max_commit_ts_ deltas = [12; 15] ∧ is_full sample_files sample_dir full ∧ max_commit_ts_ full ≤ 20.
Proof.
  destruct (valid_checkpoint_files (Dir := map_listing) sample_files sample_dir _ 20 eq_refl) as (r & Hr & Hspec).
  pose proof Hr as Hc. vm_compute in Hc. injection Hc as <-. cbn [fst snd] in Hspec.
  destruct Hspec as (Hf & Hle & _). eexists _, _. split; [exact Hr|].
  split; [reflexivity|]. split; [exact Hf|exact Hle].
Defined.

Lemma recycle_catalog_files_witness :
  ∃ fs', RecycleCatalogFile (Dir := map_listing) sample_files 10 sample_dir = Ok fs' ∧
    (∀ i, 10 < max_commit_ts_ i → is_delta fs' sample_dir i ↔ is_delta sample_files sample_dir i).
Proof.
  pose (cur := mkFileInfo (join sample_dir (FullCheckpoingFilename 10)) 10).
  assert (Hcur : is_full sample_files sample_dir cur).
  { exists (FullCheckpoingFilename 10). split; [done|]. split; [by vm_compute; set_solver|].
    split; [vm_compute; by eexists|by vm_compute]. }
  destruct (recycle_catalog_files (Dir := map_listing) sample_files sample_dir _ cur eq_refl Hcur)
    as (fs' & Hfs' & _ & _ & Hd).
  exists fs'. split; [exact Hfs'|exact Hd].
Defined.

Lemma recycle_wal_files_witness :
  ∃ fs', RecycleWalFile (Dir := map_listing) sample_files 10 sample_dir = Ok fs' ∧
    fs' !! join sample_dir TempWalFilename = Some [0] ∧ fs' !! join sample_dir (WalFilename 14) = Some [0].
Proof.
  destruct (recycle_wal_files (Dir := map_listing) sample_files sample_dir _ 10 eq_refl)
    as (fs' & Hfs' & _ & Ht & Hk).
  exists fs'. split; [exact Hfs'|].
  assert (H14 : 10 < 14 < 2 ^ 63) by (split; [lia|exact eq_refl]). assert (H0 : 0 ≤ 14) by lia. split.
  - transitivity (sample_files !! join sample_dir TempWalFilename); [exact Ht|vm_compute; reflexivity].
  - transitivity (sample_files !! join sample_dir (WalFilename 14)); [exact (Hk 14 H14 H0)|vm_compute; reflexivity].
Defined.

Lemma log_filenames_roundtrip_witness : parse_wal_filename (WalFilename 12345) = Some 12345.
Proof. exact (proj1 (log_filenames_roundtrip 12345 ltac:(by vm_compute))). Defined.
