(* ===== verification/EntryKey.v ===== *)
(** * The keys of catalog entries

    [EncodeIndex] and [DecodeIndex] of the entries under [storage/meta/entry]: every database,
    table, segment, block, block column, index, segment index and chunk index of the catalog has a
    key, the path to it with the character # in front of each component.  The operations of a delta
    checkpoint are addressed by these keys.  [IdentifierValidation] of [logical_planner.cpp] is the
    check the planner makes on the names that go into them. *)

From Stdlib Require Import ZArith Lia List.
From stdpp Require Import base list numbers strings.
From S2P Require Import Prelude Bytes Text.
Local Open Scope Z_scope.

(** ** Names *)

(** The character #. *)
Definition delimiter : Z := 35.

Definition isalpha (c : Z) : bool := ((65 <=? c) && (c <=? 90)) || ((97 <=? c) && (c <=? 122)).
Definition isalnum (c : Z) : bool := isalpha c || is_digit c.

Inductive IdentifierValidationStatus := kOk | kEmpty | kExceedLimit | kInvalidName.

Definition MAX_IDENTIFIER_NAME_LENGTH : Z := 65536.

Definition IdentifierValidation (identifier : bytes) : IdentifierValidationStatus :=
  match identifier with
  | [] => kEmpty
  | c :: rest =>
      if MAX_IDENTIFIER_NAME_LENGTH <=? zlen identifier then kExceedLimit
      else if negb (isalpha c) && negb (c =? 95) then kInvalidName
      else if existsb (fun ch => negb (isalnum ch) && negb (ch =? 95)) rest then kInvalidName
      else kOk
  end.

(** ** Keys *)

Definition DBEntry_EncodeIndex (db_name : bytes) : bytes := delimiter :: db_name.

(** [fmt::format("{}#{}", parent->encode(), name)]. *)
Definition encode_child (parent : bytes) (name : bytes) : bytes := parent ++ delimiter :: name.

Definition TableEntry_EncodeIndex (table_name db_encode : bytes) : bytes := encode_child db_encode table_name.
Definition SegmentEntry_EncodeIndex (segment_id : Z) (table_encode : bytes) : bytes :=
  encode_child table_encode (print_u64 segment_id).
Definition BlockEntry_EncodeIndex (block_id : Z) (segment_encode : bytes) : bytes :=
  encode_child segment_encode (print_u64 block_id).
Definition BlockColumnEntry_EncodeIndex (column_id : Z) (block_encode : bytes) : bytes :=
  encode_child block_encode (print_u64 column_id).
Definition TableIndexEntry_EncodeIndex (index_name table_encode : bytes) : bytes :=
  encode_child table_encode index_name.
Definition SegmentIndexEntry_EncodeIndex (segment_id : Z) (index_encode : bytes) : bytes :=
  encode_child index_encode (print_u64 segment_id).
Definition ChunkIndexEntry_EncodeIndex (chunk_id : Z) (segment_index_encode : bytes) : bytes :=
  encode_child segment_index_encode (print_u64 chunk_id).

Definition DBEntry_DecodeIndex (encode : bytes) : result (list bytes) :=
  match encode with
  | c :: rest => if c =? delimiter then Ok [rest] else Err UnrecoverableError
  | [] => Err UnrecoverableError
  end.

(** The last component, and what [parent] makes of the rest. *)
Definition decode_child (parent : bytes → result (list bytes)) (encode : bytes) : result (list bytes) :=
  match rfind delimiter encode with
  | None => Err UnrecoverableError
  | Some delimiter_i =>
      let? decodes := parent (take delimiter_i encode) in
      Ok (decodes ++ [drop (S delimiter_i) encode])
  end.

Definition TableEntry_DecodeIndex : bytes → result (list bytes) := decode_child DBEntry_DecodeIndex.
Definition SegmentEntry_DecodeIndex : bytes → result (list bytes) := decode_child TableEntry_DecodeIndex.
Definition BlockEntry_DecodeIndex : bytes → result (list bytes) := decode_child SegmentEntry_DecodeIndex.
Definition BlockColumnEntry_DecodeIndex : bytes → result (list bytes) := decode_child BlockEntry_DecodeIndex.
Definition TableIndexEntry_DecodeIndex : bytes → result (list bytes) := decode_child TableEntry_DecodeIndex.
Definition SegmentIndexEntry_DecodeIndex : bytes → result (list bytes) := decode_child TableIndexEntry_DecodeIndex.
Definition ChunkIndexEntry_DecodeIndex : bytes → result (list bytes) := decode_child SegmentIndexEntry_DecodeIndex.

(** [std::from_chars] into an unsigned variable of type [t] that holds [value]: digits only, and the
    variable is left alone when there is none or when the number does not fit. *)
Definition from_chars (t : ctype) (s : bytes) (value : Z) : Z :=
  match s with
  | b :: _ => if is_digit b && bool_decide (in_range t (digits 0 s)) then digits 0 s else value
  | [] => value
  end.

(** ** Paths: the entries of the catalog *)

Inductive EntryPath :=
| DBPath (db : bytes)
| TablePath (db table : bytes)
| SegmentPath (db table : bytes) (segment_id : Z)
| BlockPath (db table : bytes) (segment_id block_id : Z)
| ColumnPath (db table : bytes) (segment_id block_id column_id : Z)
| IndexPath (db table index : bytes)
| SegmentIndexPath (db table index : bytes) (segment_id : Z)
| ChunkPath (db table index : bytes) (segment_id chunk_id : Z).

(** The key of an entry, composed as the constructors of the entries compose it. *)
Definition path_encode (p : EntryPath) : bytes :=
  let table_encode db table := TableEntry_EncodeIndex table (DBEntry_EncodeIndex db) in
  match p with
  | DBPath db => DBEntry_EncodeIndex db
  | TablePath db t => table_encode db t
  | SegmentPath db t s => SegmentEntry_EncodeIndex s (table_encode db t)
  | BlockPath db t s b => BlockEntry_EncodeIndex b (SegmentEntry_EncodeIndex s (table_encode db t))
  | ColumnPath db t s b c =>
      BlockColumnEntry_EncodeIndex c (BlockEntry_EncodeIndex b (SegmentEntry_EncodeIndex s (table_encode db t)))
  | IndexPath db t i => TableIndexEntry_EncodeIndex i (table_encode db t)
  | SegmentIndexPath db t i s => SegmentIndexEntry_EncodeIndex s (TableIndexEntry_EncodeIndex i (table_encode db t))
  | ChunkPath db t i s c =>
      ChunkIndexEntry_EncodeIndex c
        (SegmentIndexEntry_EncodeIndex s (TableIndexEntry_EncodeIndex i (table_encode db t)))
  end.

(** The decoding the replay of a delta operation does for an entry of this kind. *)
Definition path_decode (p : EntryPath) : bytes → result EntryPath :=
  let id t (s : option bytes) := from_chars t (default [] s) 0 in
  let name (s : option bytes) := default [] s in
  fun encode =>
  match p with
  | DBPath _ => let? d := DBEntry_DecodeIndex encode in Ok (DBPath (name (d !! 0%nat)))
  | TablePath _ _ =>
      let? d := TableEntry_DecodeIndex encode in Ok (TablePath (name (d !! 0%nat)) (name (d !! 1%nat)))
  | SegmentPath _ _ _ =>
      let? d := SegmentEntry_DecodeIndex encode in
      Ok (SegmentPath (name (d !! 0%nat)) (name (d !! 1%nat)) (id u32 (d !! 2%nat)))
  | BlockPath _ _ _ _ =>
      let? d := BlockEntry_DecodeIndex encode in
      Ok (BlockPath (name (d !! 0%nat)) (name (d !! 1%nat)) (id u32 (d !! 2%nat)) (id u16 (d !! 3%nat)))
  | ColumnPath _ _ _ _ _ =>
      let? d := BlockColumnEntry_DecodeIndex encode in
      Ok (ColumnPath (name (d !! 0%nat)) (name (d !! 1%nat)) (id u32 (d !! 2%nat)) (id u16 (d !! 3%nat))
            (id u64 (d !! 4%nat)))
  | IndexPath _ _ _ =>
      let? d := TableIndexEntry_DecodeIndex encode in
      Ok (IndexPath (name (d !! 0%nat)) (name (d !! 1%nat)) (name (d !! 2%nat)))
  | SegmentIndexPath _ _ _ _ =>
      let? d := SegmentIndexEntry_DecodeIndex encode in
      Ok (SegmentIndexPath (name (d !! 0%nat)) (name (d !! 1%nat)) (name (d !! 2%nat)) (id u32 (d !! 3%nat)))
  | ChunkPath _ _ _ _ _ =>
      let? d := ChunkIndexEntry_DecodeIndex encode in
      Ok (ChunkPath (name (d !! 0%nat)) (name (d !! 1%nat)) (name (d !! 2%nat)) (id u32 (d !! 3%nat))
            (id u32 (d !! 4%nat)))
  end.

(** The components of a path. *)
Definition components (p : EntryPath) : list bytes :=
  match p with
  | DBPath db => [db]
  | TablePath db t => [db; t]
  | SegmentPath db t s => [db; t; print_u64 s]
  | BlockPath db t s b => [db; t; print_u64 s; print_u64 b]
  | ColumnPath db t s b c => [db; t; print_u64 s; print_u64 b; print_u64 c]
  | IndexPath db t i => [db; t; i]
  | SegmentIndexPath db t i s => [db; t; i; print_u64 s]
  | ChunkPath db t i s c => [db; t; i; print_u64 s; print_u64 c]
  end.

(** The entry directly above. *)
Definition parent (p : EntryPath) : option EntryPath :=
  match p with
  | DBPath db => None
  | TablePath db t => Some (DBPath db)
  | SegmentPath db t s => Some (TablePath db t)
  | BlockPath db t s b => Some (SegmentPath db t s)
  | ColumnPath db t s b c => Some (BlockPath db t s b)
  | IndexPath db t i => Some (TablePath db t)
  | SegmentIndexPath db t i s => Some (IndexPath db t i)
  | ChunkPath db t i s c => Some (SegmentIndexPath db t i s)
  end.

(** [q] lies strictly below [p]. *)
Inductive below (p : EntryPath) : EntryPath → Prop :=
| below_parent q : parent q = Some p → below p q
| below_step q r : parent r = Some q → below p q → below p r.

Definition valid_name (s : bytes) : Prop := IdentifierValidation s = kOk.

Definition path_wf (p : EntryPath) : Prop :=
  match p with
  | DBPath db => valid_name db
  | TablePath db t => valid_name db ∧ valid_name t
  | SegmentPath db t s => valid_name db ∧ valid_name t ∧ in_range u32 s
  | BlockPath db t s b => valid_name db ∧ valid_name t ∧ in_range u32 s ∧ in_range u16 b
  | ColumnPath db t s b c => valid_name db ∧ valid_name t ∧ in_range u32 s ∧ in_range u16 b ∧ in_range u64 c
  | IndexPath db t i => valid_name db ∧ valid_name t ∧ valid_name i
  | SegmentIndexPath db t i s => valid_name db ∧ valid_name t ∧ valid_name i ∧ in_range u32 s
  | ChunkPath db t i s c => valid_name db ∧ valid_name t ∧ valid_name i ∧ in_range u32 s ∧ in_range u32 c
  end.

(** ** Lemmas *)

#[local] Arguments print_u64 : simpl never.
#[local] Arguments from_chars : simpl never.

(** A component: no # inside. *)
Definition component_ok (s : bytes) : Prop := delimiter ∉ s.

Definition join_components (l : list bytes) : bytes := concat (map (cons delimiter) l).

Lemma path_encode_join p : path_encode p = join_components (components p).
Proof.
  destruct p; unfold path_encode, TableEntry_EncodeIndex, SegmentEntry_EncodeIndex, BlockEntry_EncodeIndex,
    BlockColumnEntry_EncodeIndex, TableIndexEntry_EncodeIndex, SegmentIndexEntry_EncodeIndex,
    ChunkIndexEntry_EncodeIndex, encode_child, DBEntry_EncodeIndex, join_components; simpl;
    repeat (rewrite <- ?app_assoc; simpl); by rewrite ?app_nil_r.
Qed.

Lemma alnum_not_delimiter c : isalnum c || (c =? 95) = true → c ≠ delimiter.
Proof. intros H ->. done. Qed.

Lemma valid_name_shape s :
  valid_name s → component_ok s ∧ ∃ c rest, s = c :: rest ∧ is_digit c = false.
Proof.
  unfold valid_name, IdentifierValidation. destruct s as [|c rest]; [done|].
  destruct (_ <=? _); [done|]. destruct (negb (isalpha c) && negb (c =? 95)) eqn:Hc; [done|].
  destruct (existsb _ rest) eqn:Hr; [done|]. intros _. apply andb_false_iff in Hc.
  split; [|exists c, rest; split; [done|unfold isalpha, is_digit in *; lia]].
  apply not_elem_of_cons. split.
  - intros <-. destruct Hc as [Hc|Hc]; by vm_compute in Hc.
  - intros Hin. apply list_elem_of_In in Hin.
    assert (Ht : existsb (fun ch => negb (isalnum ch) && negb (ch =? 95)) rest = true); [|congruence].
    apply existsb_exists. by exists delimiter.
Qed.

Lemma print_component n : component_ok (print_u64 n).
Proof. intros H. by apply (proj1 (Forall_forall _ _) (dec_digits_Forall 20 n [] (Forall_nil_2 _))) in H. Qed.

Lemma print_head n : ∃ b s, print_u64 n = b :: s ∧ is_digit b = true.
Proof.
  unfold print_u64. pose proof (dec_digits_Forall 20 n [] (Forall_nil_2 _)) as Hd.
  pose proof (dec_digits_nonempty 20 n [] (or_intror (Nat.neq_succ_0 19))) as Hne.
  destruct (dec_digits 20 n []) as [|b s]; [done|]. exists b, s. split; [done|]. by inv Hd.
Qed.

Lemma digits_print n : 0 ≤ n < 2 ^ 64 → digits 0 (print_u64 n) = n.
Proof.
  intros Hn. unfold print_u64. rewrite digits_dec_digits; [done| |done].
  change (2 ^ 64) with 18446744073709551616 in Hn. change (10 ^ Z.of_nat 20) with 100000000000000000000. lia.
Qed.

Lemma from_chars_print t n v : in_range t n → 0 ≤ n < 2 ^ 64 → from_chars t (print_u64 n) v = n.
Proof.
  intros Hr Hn. unfold from_chars. destruct (print_head n) as (b & s & Hs & Hb).
  pose proof (digits_print n Hn) as Hd. rewrite Hs in *. rewrite Hb, Hd. simpl. by rewrite bool_decide_eq_true_2.
Qed.

Lemma id_u64 t n : t = u16 ∨ t = u32 ∨ t = u64 → in_range t n → 0 ≤ n < 2 ^ 64.
Proof. intros Ht Hr. change (2 ^ 64) with 18446744073709551616. destruct Ht as [->|[->| ->]]; solve_range. Qed.

Lemma print_inj m n : 0 ≤ m < 2 ^ 64 → 0 ≤ n < 2 ^ 64 → print_u64 m = print_u64 n → m = n.
Proof. intros Hm Hn H. by rewrite <- (digits_print m Hm), <- (digits_print n Hn), H. Qed.

Lemma decode_child_app parent s name :
  component_ok name →
  decode_child parent (s ++ delimiter :: name) = let? d := parent s in Ok (d ++ [name]).
Proof.
  intros Hn. unfold decode_child. rewrite rfind_app_r by done. rewrite take_app_length.
  replace (drop (S (length s)) (s ++ delimiter :: name)) with name; [done|].
  replace (S (length s)) with (length s + 1)%nat by lia. rewrite <- drop_drop, drop_app_length. done.
Qed.

(** *** Lists of components *)

Lemma join_app l1 l2 : join_components (l1 ++ l2) = join_components l1 ++ join_components l2.
Proof. unfold join_components. by rewrite map_app, concat_app. Qed.

(** What follows a component in a key is empty or starts with #. *)
Definition tail_ok (r : bytes) : Prop := r = [] ∨ ∃ r', r = delimiter :: r'.

Lemma join_tail_ok l : tail_ok (join_components l).
Proof. destruct l; [by left|right; by eexists]. Qed.

Lemma component_split s1 : ∀ s2 r1 r2,
  component_ok s1 → component_ok s2 → tail_ok r1 → tail_ok r2 →
  s1 ++ r1 = s2 ++ r2 → s1 = s2 ∧ r1 = r2.
Proof.
  induction s1 as [|b s1 IH]; intros [|c s2] r1 r2 H1 H2 T1 T2 H; simpl in H.
  - done.
  - destruct T1 as [->|[? ->]]; [done|]. injection H as <- _. by apply not_elem_of_cons in H2 as [??].
  - destruct T2 as [->|[? ->]]; [done|]. injection H as -> _. by apply not_elem_of_cons in H1 as [??].
  - injection H as -> H. apply not_elem_of_cons in H1 as [_ H1]. apply not_elem_of_cons in H2 as [_ H2].
    destruct (IH s2 r1 r2) as [-> ?]; done.
Qed.

Lemma join_prefix l1 : ∀ l2 rest,
  Forall component_ok l1 → Forall component_ok l2 → tail_ok rest →
  join_components l2 = join_components l1 ++ rest → ∃ l3, l2 = l1 ++ l3 ∧ join_components l3 = rest.
Proof.
  induction l1 as [|s l1 IH]; intros [|t l2] rest H1 H2 T H.
  - by exists [].
  - by exists (t :: l2).
  - done.
  - inv H1. inv H2. change (join_components (t :: l2)) with (delimiter :: (t ++ join_components l2)) in H.
    change (join_components (s :: l1)) with (delimiter :: (s ++ join_components l1)) in H. injection H as H.
    rewrite <- app_assoc in H. apply component_split in H as [-> H]; [|done|done|apply join_tail_ok|].
    2: { destruct l1; [done|]. right. by eexists. }
    destruct (IH l2 rest) as (l3 & -> & ?); [done..|]. by exists l3.
Qed.

Lemma join_components_inj l1 l2 : Forall component_ok l1 → Forall component_ok l2 → join_components l1 = join_components l2 → l1 = l2.
Proof.
  intros H1 H2 H. destruct (join_prefix l1 l2 []) as (l3 & -> & H3); [done|done|by left| |].
  - by rewrite app_nil_r.
  - destruct l3; [by rewrite app_nil_r|done].
Qed.

Lemma path_components_ok p : path_wf p → Forall component_ok (components p).
Proof.
  destruct p; simpl; intros H; destruct_and?; repeat constructor;
    first [apply print_component|by apply valid_name_shape].
Qed.

(** A name is not a number. *)
Lemma name_not_number s n : valid_name s → s ≠ print_u64 n.
Proof.
  intros Hs ->. destruct (valid_name_shape _ Hs) as (_ & c & r & Hc & Hd).
  destruct (print_head n) as (b & s & Hb & Hb'). congruence.
Qed.

Lemma components_inj p q : path_wf p → path_wf q → components p = components q → p = q.
Proof.
  intros Hp Hq H.
  destruct p, q; simpl in H; simplify_eq/=; destruct_and?;
    try (match goal with H : valid_name (print_u64 ?n) |- _ => by destruct (name_not_number _ n H) end);
    f_equal; by (eapply print_inj; [eapply id_u64; [|done]; tauto..|]).
Qed.

Lemma parent_components p q : parent q = Some p → ∃ x, components q = components p ++ [x].
Proof. destruct q; intros H; inv H; simpl; by eexists. Qed.

Lemma parent_wf p q : parent q = Some p → path_wf q → path_wf p.
Proof. destruct q; intros H; inv H; simpl; tauto. Qed.

Lemma components_nonempty p : components p ≠ [].
Proof. by destruct p. Qed.

Lemma below_components p q : below p q → ∃ x r, components q = components p ++ x :: r.
Proof.
  induction 1 as [q Hq|q r Hr _ (x & l & IH)].
  - apply parent_components in Hq as [x ->]. by exists x, [].
  - apply parent_components in Hr as [y ->]. exists x, (l ++ [y]). by rewrite IH, <- app_assoc.
Qed.

Lemma components_below p q x r :
  path_wf p → path_wf q → components q = components p ++ x :: r → below p q.
Proof.
  intros Hp. revert q. induction r as [|y r IH] using rev_ind; intros q Hq H.
  all: destruct (parent q) as [q'|] eqn:Hpar;
    [|destruct q; try done; simpl in H; pose proof (components_nonempty p);
      destruct (components p) as [|? [|??]]; done].
  all: destruct (parent_components _ _ Hpar) as [z Hz]; rewrite Hz in H.
  - apply app_inj_tail in H as [H _]. apply below_parent.
    rewrite (components_inj q' p) in Hpar; [done| |done|done]. by eapply parent_wf.
  - rewrite app_comm_cons, app_assoc in H. apply app_inj_tail in H as [H _].
    eapply below_step; [done|]. apply IH; [by eapply parent_wf|done].
Qed.

(** A key extends another one by # exactly when the entry lies below. *)
Lemma join_below p q :
  path_wf p → path_wf q → (join_components (components p) ++ [delimiter]) `prefix_of` join_components (components q) ↔ below p q.
Proof.
  intros Hp Hq. pose proof (path_components_ok p Hp). pose proof (path_components_ok q Hq). split.
  - intros [t Ht]. rewrite <- app_assoc in Ht. simpl in Ht.
    apply join_prefix in Ht as (l3 & Hl & Hj); [|done..|right; by eexists].
    destruct l3 as [|x r]; [done|]. by eapply components_below.
  - intros Hb. apply below_components in Hb as (x & r & ->). rewrite join_app.
    exists (x ++ join_components r). by rewrite <- app_assoc.
Qed.

(** ** Properties *)

(** The key of a catalog entry decodes to the entry: for every entry whose names pass the
    planner's validation and whose ids are in range, the decoding that the replay of its kind of
    operation uses gives back the names and, through [from_chars], the ids. *)
Theorem entry_key_roundtrip p : path_wf p → path_decode p (path_encode p) = Ok p.
Proof.
  intros Hp. pose proof (path_components_ok p Hp) as Hc.
  assert (Hid : ∀ t n, t = u16 ∨ t = u32 ∨ t = u64 → in_range t n → from_chars t (print_u64 n) 0 = n).
  { intros t n Ht Hn. apply from_chars_print; [done|]. by eapply id_u64. }
  destruct p; simpl in Hp; destruct_and?; simpl in Hc; decompose_Forall_hyps;
    unfold path_encode, TableEntry_EncodeIndex, SegmentEntry_EncodeIndex, BlockEntry_EncodeIndex,
      BlockColumnEntry_EncodeIndex, TableIndexEntry_EncodeIndex, SegmentIndexEntry_EncodeIndex,
      ChunkIndexEntry_EncodeIndex, encode_child, path_decode;
    unfold BlockColumnEntry_DecodeIndex, BlockEntry_DecodeIndex, SegmentEntry_DecodeIndex,
      ChunkIndexEntry_DecodeIndex, SegmentIndexEntry_DecodeIndex, TableIndexEntry_DecodeIndex, TableEntry_DecodeIndex;
    repeat rewrite decode_child_app by done; simpl; rewrite ?Hid by tauto; done.
Qed.

(** C38. Keys identify entries and show the hierarchy: two valid entries have the same key only when
    they are the same entry, and a key extends another one by # exactly when the entry lies below
    the other one in the catalog. *)
Theorem entry_keys_hierarchical p q :
  path_wf p → path_wf q →
  (path_encode p = path_encode q ↔ p = q) ∧
  ((path_encode p ++ [delimiter]) `prefix_of` path_encode q ↔ below p q).
Proof.
  intros Hp Hq. rewrite !path_encode_join. split; [|by apply join_below].
  split; [|by intros ->]. intros H. apply components_inj; [done..|].
  apply join_components_inj; [by apply path_components_ok..|done].
Qed.

(** ** Witnesses *)

Example entry_key_roundtrip_witness :
  path_decode (ChunkPath [] [] [] 0 0) (str "#db1#my_table#idx#0#42")
  = Ok (ChunkPath (str "db1") (str "my_table") (str "idx") 0 42).
Proof. apply (entry_key_roundtrip (ChunkPath (str "db1") (str "my_table") (str "idx") 0 42)). by vm_compute. Defined.

Example entry_keys_hierarchical_witness :
  ((path_encode (TablePath (str "db1") (str "t")) ++ [delimiter])
     `prefix_of` path_encode (BlockPath (str "db1") (str "t") 3 7)) ∧
  ¬ ((path_encode (TablePath (str "db1") (str "t")) ++ [delimiter])
       `prefix_of` path_encode (BlockPath (str "db1") (str "t2") 3 7)).
Proof.
  split.
  - apply (entry_keys_hierarchical (TablePath (str "db1") (str "t")) (BlockPath (str "db1") (str "t") 3 7));
      [by vm_compute..|].
    eapply below_step; [reflexivity|]. by apply below_parent.
  - intros H.
    apply (entry_keys_hierarchical (TablePath (str "db1") (str "t")) (BlockPath (str "db1") (str "t2") 3 7)) in H;
      [|by vm_compute..].
    apply below_components in H as (x & r & H). by vm_compute in H.
Defined.
