(* ===== verification/OrdMap.v ===== *)
(** * Ordered maps

    [std::map<std::string, V>] as the association list its iterators walk: the keys strictly
    increase in the order of [std::string], which compares characters as unsigned bytes.  [map_find],
    [map_erase] and [map_assign] are [find], [erase] and [m[k] = v]; [lower_bound] cuts the list
    before the first key that is not below the given one. *)

From Stdlib Require Import ZArith Lia Sorting.Sorted.
From stdpp Require Import base list numbers sets.
From S2P Require Import Prelude Bytes.
Local Open Scope Z_scope.

Fixpoint key_ltb (a b : bytes) : bool :=
  match a, b with
  | _, [] => false
  | [], _ :: _ => true
  | x :: a', y :: b' => if x <? y then true else if y <? x then false else key_ltb a' b'
  end.

Definition key_lt (a b : bytes) : Prop := key_ltb a b = true.

Section OrdMap.
Context {V : Type}.

Notation Map := (list (bytes * V)).

Fixpoint map_find (k : bytes) (m : Map) : option V :=
  match m with
  | [] => None
  | (k', v) :: m' => if bool_decide (k = k') then Some v else map_find k m'
  end.

Fixpoint map_erase (k : bytes) (m : Map) : Map :=
  match m with
  | [] => []
  | (k', v) :: m' => if bool_decide (k = k') then m' else (k', v) :: map_erase k m'
  end.

Fixpoint map_assign (k : bytes) (v : V) (m : Map) : Map :=
  match m with
  | [] => [(k, v)]
  | (k', v') :: m' =>
      if key_ltb k k' then (k, v) :: m
      else if bool_decide (k = k') then (k, v) :: m'
      else (k', v') :: map_assign k v m'
  end.

(** The entries before the bound, and the iterator's range from it. *)
Fixpoint lower_bound (k : bytes) (m : Map) : Map * Map :=
  match m with
  | [] => ([], [])
  | (k', v) :: m' =>
      if key_ltb k' k then let '(before, iter) := lower_bound k m' in ((k', v) :: before, iter)
      else ([], m)
  end.

Definition map_sorted (m : Map) : Prop := StronglySorted (fun a b => key_lt a.1 b.1) m.
End OrdMap.

(** ** The order *)

Lemma key_lt_irrefl a : ¬ key_lt a a.
Proof.
  unfold key_lt. induction a as [|x a IH]; simpl; [done|]. by rewrite Z.ltb_irrefl.
Qed.

Lemma key_lt_cons x y a b : key_lt (x :: a) (y :: b) ↔ x < y ∨ (x = y ∧ key_lt a b).
Proof.
  unfold key_lt. simpl. destruct (Z.ltb_spec x y), (Z.ltb_spec y x); (split; [intros ?|intros [?|[??]]]);
    try lia; try done; [by left..|right; split; [lia|done]].
Qed.

#[export] Instance key_lt_trans : Transitive key_lt.
Proof.
  intros a. induction a as [|x a IH]; intros [|y b] [|z c]; try done.
  rewrite !key_lt_cons. intros [?|[-> H1]] [?|[-> H2]]; try (left; lia). right. split; [done|by eapply IH].
Qed.

Lemma key_total a b : key_lt a b ∨ a = b ∨ key_lt b a.
Proof.
  revert b. induction a as [|x a IH]; intros [|y b]; try (by vm_compute; auto).
  rewrite !key_lt_cons. destruct (Z.lt_total x y) as [?|[->|?]]; [auto..|auto].
  destruct (IH b) as [?|[->|?]]; auto.
Qed.

Lemma key_not_lt a b : key_ltb a b = false → a = b ∨ key_lt b a.
Proof. intros H. destruct (key_total a b) as [H'|?]; [unfold key_lt in H'; congruence|done]. Qed.

Lemma prefix_not_above (e k : bytes) : e `prefix_of` k → ¬ key_lt k e.
Proof.
  intros [t ->] H. induction e as [|x e IH]; [by destruct t|].
  simpl in H. apply key_lt_cons in H as [?|[_ ?]]; [lia|by apply IH].
Qed.

(** Past a key that is above [e] and does not extend it, no key extends [e]. *)
Lemma prefix_range (e k k' : bytes) :
  key_lt e k → ¬ e `prefix_of` k → key_lt k k' → ¬ e `prefix_of` k'.
Proof.
  intros H1 H2 H3 [t ->]. revert k H1 H2 H3. induction e as [|x e IH]; intros [|y k] H1 H2 H3; try done.
  - by apply H2, prefix_nil.
  - simpl in H3. apply key_lt_cons in H1, H3.
    destruct H1 as [?|[-> H1]], H3 as [?|[? H3]]; try lia.
    eapply IH; [done| |done]. intros Hp. by apply H2, prefix_cons.
Qed.

(** ** The map *)

Section Lemmas.
Context {V : Type}.
Implicit Types (m : list (bytes * V)) (k : bytes) (v : V).

Lemma map_find_elem m k v : map_sorted m → map_find k m = Some v ↔ (k, v) ∈ m.
Proof.
  intros Hs. induction Hs as [|[k' v'] m Hs IH Hall]; simpl; [split; [done|]; intros H; inv H|].
  rewrite elem_of_cons, <- IH. case_bool_decide as Hk; [subst k'|naive_solver].
  split; [intros [= ->]; by left|]. intros [[= ->]|H]; [done|]. apply IH in H.
  rewrite Forall_forall in Hall. apply Hall in H. by destruct (key_lt_irrefl k).
Qed.

Lemma map_find_not m k : Forall (fun e => key_lt k e.1) m → map_find k m = None.
Proof.
  induction 1 as [|[k' v'] m H _ IH]; [done|]. simpl. case_bool_decide; [|done].
  subst. by destruct (key_lt_irrefl k').
Qed.

Lemma map_assign_sorted k v m : map_sorted m → map_sorted (map_assign k v m).
Proof.
  assert (Helem : ∀ m e, e ∈ map_assign k v m → e = (k, v) ∨ e ∈ m).
  { clear m. induction m as [|[k' v'] m IH]; intros e; simpl; [set_solver|].
    destruct (key_ltb k k'); [set_solver|]. case_bool_decide; set_solver. }
  induction 1 as [|[k' v'] m Hs IH Hall]; simpl; [by repeat constructor|].
  destruct (key_ltb k k') eqn:Hlt; [|case_bool_decide as Hk].
  - constructor; [by constructor|]. constructor; [done|].
    eapply Forall_impl; [done|]. intros e He. by transitivity k'.
  - subst. by constructor.
  - constructor; [done|]. apply Forall_forall. intros e He. apply Helem in He as [->|He].
    + simpl. destruct (key_not_lt k k' Hlt); [done|done].
    + rewrite Forall_forall in Hall. by apply Hall.
Qed.

Lemma map_find_assign k v m : map_find k (map_assign k v m) = Some v.
Proof.
  induction m as [|[k' v'] m IH]; simpl; [by rewrite bool_decide_eq_true_2|].
  destruct (key_ltb k k'); [simpl; by rewrite bool_decide_eq_true_2|].
  case_bool_decide; simpl; [by rewrite bool_decide_eq_true_2|by rewrite bool_decide_eq_false_2].
Qed.

Lemma map_find_assign_ne k k' v m : k ≠ k' → map_find k (map_assign k' v m) = map_find k m.
Proof.
  intros Hne. induction m as [|[k1 v1] m IH]; simpl; [by rewrite bool_decide_eq_false_2|].
  destruct (key_ltb k' k1); [simpl; by rewrite bool_decide_eq_false_2|].
  case_bool_decide; simpl.
  - subst. by rewrite !bool_decide_eq_false_2.
  - by rewrite IH.
Qed.

Lemma map_erase_sorted k m : map_sorted m → map_sorted (map_erase k m).
Proof.
  induction 1 as [|[k' v'] m Hs IH Hall]; simpl; [constructor|]. case_bool_decide; [done|].
  constructor; [done|]. rewrite Forall_forall in *. intros e He. apply Hall. revert He. clear.
  induction m as [|[k1 v1] m IH]; simpl; [done|]. case_bool_decide; set_solver.
Qed.

Lemma map_find_erase k m : map_sorted m → map_find k (map_erase k m) = None.
Proof.
  induction 1 as [|[k' v'] m Hs IH Hall]; simpl; [done|]. case_bool_decide as Hk.
  - subst. by apply map_find_not.
  - simpl. by rewrite bool_decide_eq_false_2.
Qed.

Lemma map_find_erase_ne k k' m : k ≠ k' → map_find k (map_erase k' m) = map_find k m.
Proof.
  intros Hne. induction m as [|[k1 v1] m IH]; simpl; [done|]. case_bool_decide; simpl.
  - subst. by rewrite bool_decide_eq_false_2.
  - by rewrite IH.
Qed.

Lemma map_filter_sorted (P : bytes * V → Prop) `{!∀ e, Decision (P e)} m : map_sorted m → map_sorted (filter P m).
Proof.
  induction 1 as [|e m Hs IH Hall]; [constructor|]. rewrite filter_cons. case_decide; [|done].
  constructor; [done|]. by apply Forall_filter_of.
Qed.

Lemma map_find_filter (P : bytes → Prop) `{!∀ k, Decision (P k)} m k :
  map_find k (filter (fun e => P e.1) m) = if decide (P k) then map_find k m else None.
Proof.
  induction m as [|[k1 v1] m IH]; [by case_decide|]. rewrite filter_cons. simpl.
  destruct (decide (P k1)) as [H1|H1]; simpl.
  - case_bool_decide; [|done]. subst. by rewrite decide_True.
  - rewrite IH. case_bool_decide; [|done]. subst. by rewrite !decide_False.
Qed.

Lemma lower_bound_split k m before iter :
  map_sorted m → lower_bound k m = (before, iter) →
  m = before ++ iter ∧ Forall (fun e => key_lt e.1 k) before ∧ Forall (fun e => ¬ key_lt e.1 k) iter ∧ map_sorted iter.
Proof.
  intros Hs. revert before iter. induction Hs as [|[k' v'] m Hs IH Hall]; simpl; intros before iter.
  { intros [= <- <-]. repeat constructor. }
  destruct (key_ltb k' k) eqn:Hlt.
  - destruct (lower_bound k m) as [b i]. intros [= <- <-]. destruct (IH b i) as (-> & ? & ? & ?); [done|].
    split; [done|]. split; [by constructor|]. done.
  - intros [= <- <-]. split; [done|]. split; [constructor|]. split; [|by constructor].
    assert (Hn : ¬ key_lt k' k) by (unfold key_lt; congruence).
    constructor; [done|]. eapply Forall_impl; [done|]. intros e He Hek. apply Hn. by transitivity e.1.
Qed.
End Lemmas.
