(* ===== verification/CatalogDelta.v ===== *)
(** * Catalog delta operations and entries

    Models the operations of [src/src/storage/wal/catalog_delta_entry.cpp] and their binary codec:
    a delta entry is the list of changes to the catalog that a delta checkpoint writes, with a
    header of size and checksum and the size repeated behind it.

    The pointers an operation keeps to live catalog entries ([block_entry_],
    [segment_index_entry_]) are not part of its value; they only serve to flush data before a
    checkpoint. *)

From Stdlib Require Import ZArith Lia List.
From stdpp Require Import base list numbers strings sets.
From S2P Require Import Prelude Bytes Crc DataTypes ConstExpr TableDef IndexDef.
Local Open Scope Z_scope.

Module DeltaOp.
Inductive CatalogDeltaOpType :=
| INVALID | ADD_DATABASE_ENTRY | ADD_TABLE_ENTRY | ADD_SEGMENT_ENTRY | ADD_BLOCK_ENTRY
| ADD_COLUMN_ENTRY | ADD_TABLE_INDEX_ENTRY | ADD_SEGMENT_INDEX_ENTRY | ADD_CHUNK_INDEX_ENTRY
| SET_SEGMENT_STATUS_SEALED | SET_BLOCK_STATUS_SEALED.

#[export] Instance CatalogDeltaOpType_eq_dec : EqDecision CatalogDeltaOpType.
Proof. solve_decision. Defined.

Definition CatalogDeltaOpType_val (t : CatalogDeltaOpType) : Z :=
  match t with
  | INVALID => 0 | ADD_DATABASE_ENTRY => 1 | ADD_TABLE_ENTRY => 2 | ADD_SEGMENT_ENTRY => 3
  | ADD_BLOCK_ENTRY => 4 | ADD_COLUMN_ENTRY => 5 | ADD_TABLE_INDEX_ENTRY => 11
  | ADD_SEGMENT_INDEX_ENTRY => 12 | ADD_CHUNK_INDEX_ENTRY => 13 | SET_SEGMENT_STATUS_SEALED => 21
  | SET_BLOCK_STATUS_SEALED => 22
  end.

#[export, refine] Instance CatalogDeltaOpType_enum : CEnum CatalogDeltaOpType := {
  enum_ctype := i8;
  enum_val := CatalogDeltaOpType_val;
  enum_of := enum_find CatalogDeltaOpType_val
    [INVALID; ADD_DATABASE_ENTRY; ADD_TABLE_ENTRY; ADD_SEGMENT_ENTRY; ADD_BLOCK_ENTRY;
     ADD_COLUMN_ENTRY; ADD_TABLE_INDEX_ENTRY; ADD_SEGMENT_INDEX_ENTRY; ADD_CHUNK_INDEX_ENTRY;
     SET_SEGMENT_STATUS_SEALED; SET_BLOCK_STATUS_SEALED];
}.
Proof. all: enum_laws. Defined.
End DeltaOp.

Module Merge.
Inductive MergeFlag := kInvalid | kDelete | kNew | kUpdate | kDeleteAndNew.

#[export] Instance MergeFlag_eq_dec : EqDecision MergeFlag.
Proof. solve_decision. Defined.

#[export, refine] Instance MergeFlag_enum : CEnum MergeFlag := {
  enum_ctype := u8;
  enum_val f := match f with kInvalid => 0 | kDelete => 1 | kNew => 2 | kUpdate => 3 | kDeleteAndNew => 4 end;
  enum_of := enum_index [kInvalid; kDelete; kNew; kUpdate; kDeleteAndNew];
}.
Proof. all: enum_laws. Defined.
End Merge.

Module Status.
Inductive SegmentStatus := kUnsealed | kSealed | kCompacting | kNoDelete | kDeprecated.

#[export] Instance SegmentStatus_eq_dec : EqDecision SegmentStatus.
Proof. solve_decision. Defined.

#[export, refine] Instance SegmentStatus_enum : CEnum SegmentStatus := {
  enum_ctype := u8;
  enum_val s :=
    match s with kUnsealed => 0 | kSealed => 1 | kCompacting => 2 | kNoDelete => 3 | kDeprecated => 4 end;
  enum_of := enum_index [kUnsealed; kSealed; kCompacting; kNoDelete; kDeprecated];
}.
Proof. all: enum_laws. Defined.
End Status.
Export (hints) DeltaOp Merge Status.
Import DeltaOp.
Notation MergeFlag := Merge.MergeFlag.
Notation SegmentStatus := Status.SegmentStatus.

(** ** Operations *)

Inductive OpBody :=
| AddDBEntryOp (db_entry_dir_ : bytes)
| AddTableEntryOp (table_entry_dir_ : bytes) (column_defs_ : list ColumnDef)
    (row_count_ unsealed_id_ next_segment_id_ : Z)
| AddSegmentEntryOp (status_ : cenum SegmentStatus)
    (column_count_ row_count_ actual_row_count_ row_capacity_ min_row_ts_ max_row_ts_ first_delete_ts_ deprecate_ts_ : Z)
    (segment_filter_binary_data_ : bytes)
| AddBlockEntryOp (row_capacity_ row_count_ min_row_ts_ max_row_ts_ checkpoint_ts_ checkpoint_row_count_ : Z)
    (block_filter_binary_data_ : bytes)
| AddColumnEntryOp (outline_infos_ : list (Z * Z))
| AddTableIndexEntryOp (index_dir_ : option bytes) (index_base_ : option IndexBase)
| AddSegmentIndexEntryOp (min_ts_ max_ts_ next_chunk_id_ : Z)
| AddChunkIndexEntryOp (base_name_ : bytes) (base_rowid_ row_count_ deprecate_ts_ : Z).

Record CatalogDeltaOperation := mkOp {
  begin_ts_ : Z;
  txn_id_ : Z;
  commit_ts_ : Z;
  merge_flag_ : cenum MergeFlag;
  encode_ : bytes;
  body_ : OpBody;
}.

Definition body_type (b : OpBody) : CatalogDeltaOpType :=
  match b with
  | AddDBEntryOp _ => ADD_DATABASE_ENTRY
  | AddTableEntryOp _ _ _ _ _ => ADD_TABLE_ENTRY
  | AddSegmentEntryOp _ _ _ _ _ _ _ _ _ _ => ADD_SEGMENT_ENTRY
  | AddBlockEntryOp _ _ _ _ _ _ _ => ADD_BLOCK_ENTRY
  | AddColumnEntryOp _ => ADD_COLUMN_ENTRY
  | AddTableIndexEntryOp _ _ => ADD_TABLE_INDEX_ENTRY
  | AddSegmentIndexEntryOp _ _ _ => ADD_SEGMENT_INDEX_ENTRY
  | AddChunkIndexEntryOp _ _ _ _ => ADD_CHUNK_INDEX_ENTRY
  end.

Definition GetType (this : CatalogDeltaOperation) : CatalogDeltaOpType := body_type (body_ this).

Definition is_delete (f : cenum MergeFlag) : bool := bool_decide (f = Enumerator Merge.kDelete).

(** *** Sizes *)

Definition GetBaseSizeInBytes (this : CatalogDeltaOperation) : Z :=
  let size := 8 + 1 + 8 + 8 in
  cast u64 (size + (4 + zlen (encode_ this))).

(** The columns of an ADD_TABLE_ENTRY; the accumulator is an [int]. *)
Definition OpColumn_size (total_size : Z) (cd : ColumnDef) : result Z :=
  let total_size := cast i32 (total_size + 8) in
  let? n := DataType_GetSizeInBytes (column_type_ cd) in
  let total_size := cast i32 (total_size + n) in
  let total_size := cast i32 (total_size + (4 + zlen (name_ cd))) in
  let total_size := cast i32 (total_size + 4) in
  let total_size := cast i32 (total_size + zlen (constraints_ cd) * 1) in
  let? e := default_expr cd in
  let? n := ConstantExpr_GetSizeInBytes e in
  Ok (cast i32 (total_size + n)).

Definition Op_GetSizeInBytes (this : CatalogDeltaOperation) : result Z :=
  let base := GetBaseSizeInBytes this in
  match body_ this with
  | AddDBEntryOp db_entry_dir => Ok (cast u64 (1 + base + (4 + zlen db_entry_dir)))
  | AddTableEntryOp table_entry_dir column_defs _ _ _ =>
      let total_size := cast i32 (1 + base) in
      let total_size := cast i32 (total_size + (4 + zlen table_entry_dir)) in
      let total_size := cast i32 (total_size + 4) in
      let? total_size := res_fold OpColumn_size total_size column_defs in
      let total_size := cast i32 (total_size + 8) in
      Ok (cast u64 (cast i32 (total_size + 4 * 2)))
  | AddSegmentEntryOp _ _ _ _ _ _ _ _ _ filter =>
      let total_size := cast i32 (1 + base) in
      Ok (cast u64 (cast i32 (total_size + (1 + 8 + 8 + 8 + 8 + 8 * 4 + (4 + zlen filter)))))
  | AddBlockEntryOp _ _ _ _ _ _ filter =>
      Ok (cast u64 (1 + base + (2 + 2 + 8 * 2) + (8 + 2) + (4 + zlen filter)))
  | AddColumnEntryOp outline_infos => Ok (cast u64 (1 + base + (4 + zlen outline_infos * (4 + 8))))
  | AddTableIndexEntryOp index_dir index_base =>
      if is_delete (merge_flag_ this) then Ok (cast u64 (1 + base))
      else
        match index_dir, index_base with
        | Some dir, Some ib => Ok (cast u64 (1 + base + (4 + zlen dir) + Index_GetSizeInBytes ib))
        | _, _ => Err OutOfBounds
        end
  | AddSegmentIndexEntryOp _ _ _ => Ok (cast u64 (1 + base + (8 + 8) + 4))
  | AddChunkIndexEntryOp base_name _ _ _ => Ok (cast u64 (1 + base + (4 + zlen base_name) + 8 + 4 + 8))
  end.

(** *** Writing *)

Definition WriteAdvBase (this : CatalogDeltaOperation) : bytes :=
  WriteBufAdv u64 (begin_ts_ this) ++ WriteBufAdv_enum (merge_flag_ this) ++ WriteBufAdv u64 (txn_id_ this)
  ++ WriteBufAdv u64 (commit_ts_ this) ++ WriteBufAdv_string (encode_ this).

(** Unlike [TableDef::WriteAdv], the bloom filter flag of a column is not written. *)
Definition OpColumn_write (cd : ColumnDef) : result bytes :=
  let? column_type := DataType_WriteAdv (column_type_ cd) in
  let? e := default_expr cd in
  let? default_expr := ConstantExpr_WriteAdv e in
  Ok (WriteBufAdv i64 (id_ cd) ++ column_type ++ WriteBufAdv_string (name_ cd)
      ++ WriteBufAdv i32 (cast i32 (zlen (constraints_ cd)))
      ++ concat (map WriteBufAdv_enum (constraints_ cd)) ++ default_expr).

Definition write_outline_infos (l : list (Z * Z)) : bytes :=
  WriteBufAdv u32 (cast u32 (zlen l))
  ++ concat (map (fun '(outline_buffer_count, last_chunk_offset) =>
       WriteBufAdv u32 outline_buffer_count ++ WriteBufAdv u64 last_chunk_offset) l).

Definition Op_WriteAdv (this : CatalogDeltaOperation) : result bytes :=
  let head := WriteBufAdv_enum (Enumerator (GetType this)) ++ WriteAdvBase this in
  match body_ this with
  | AddDBEntryOp db_entry_dir => Ok (head ++ WriteBufAdv_string db_entry_dir)
  | AddTableEntryOp table_entry_dir column_defs row_count unsealed_id next_segment_id =>
      let? columns := write_all OpColumn_write column_defs in
      Ok (head ++ WriteBufAdv_string table_entry_dir ++ WriteBufAdv i32 (cast i32 (zlen column_defs)) ++ columns
          ++ WriteBufAdv u64 row_count ++ WriteBufAdv u32 unsealed_id ++ WriteBufAdv u32 next_segment_id)
  | AddSegmentEntryOp status column_count row_count actual_row_count row_capacity min_row_ts max_row_ts
      first_delete_ts deprecate_ts filter =>
      Ok (head ++ WriteBufAdv_enum status ++ WriteBufAdv u64 column_count ++ WriteBufAdv u64 row_count
          ++ WriteBufAdv u64 actual_row_count ++ WriteBufAdv u64 row_capacity ++ WriteBufAdv u64 min_row_ts
          ++ WriteBufAdv u64 max_row_ts ++ WriteBufAdv u64 first_delete_ts ++ WriteBufAdv u64 deprecate_ts
          ++ WriteBufAdv_string filter)
  | AddBlockEntryOp row_capacity row_count min_row_ts max_row_ts checkpoint_ts checkpoint_row_count filter =>
      Ok (head ++ WriteBufAdv u16 row_count ++ WriteBufAdv u16 row_capacity ++ WriteBufAdv u64 min_row_ts
          ++ WriteBufAdv u64 max_row_ts ++ WriteBufAdv u64 checkpoint_ts ++ WriteBufAdv u16 checkpoint_row_count
          ++ WriteBufAdv_string filter)
  | AddColumnEntryOp outline_infos => Ok (head ++ write_outline_infos outline_infos)
  | AddTableIndexEntryOp index_dir index_base =>
      if is_delete (merge_flag_ this) then Ok head
      else
        match index_dir, index_base with
        | Some dir, Some ib => Ok (head ++ WriteBufAdv_string dir ++ Index_WriteAdv ib)
        | _, _ => Err OutOfBounds
        end
  | AddSegmentIndexEntryOp min_ts max_ts next_chunk_id =>
      Ok (head ++ WriteBufAdv u64 min_ts ++ WriteBufAdv u64 max_ts ++ WriteBufAdv u32 next_chunk_id)
  | AddChunkIndexEntryOp base_name base_rowid row_count deprecate_ts =>
      Ok (head ++ WriteBufAdv_string base_name ++ WriteBufAdv u64 base_rowid ++ WriteBufAdv u32 row_count
          ++ WriteBufAdv u64 deprecate_ts)
  end.

(** *** Reading *)

Definition ReadAdvBase : Reader (OpBody → CatalogDeltaOperation) :=
  let! begin_ts := ReadBufAdv u64 in
  let! merge_flag := ReadBufAdv_enum (E:=MergeFlag) in
  let! txn_id := ReadBufAdv u64 in
  let! commit_ts := ReadBufAdv u64 in
  let! encode := ReadBufAdv_string in
  rret (mkOp begin_ts txn_id commit_ts merge_flag encode).

(** [max_bytes] is a [SizeT]: the check only refuses zero. *)
Definition OpColumn_read (ptr_end : Z) : Reader ColumnDef :=
  let! id := ReadBufAdv i64 in
  let! ptr := tell in
  let max_bytes := cast u64 (ptr_end - ptr) in
  check! negb (max_bytes <=? 0) orelse UnrecoverableError in
  let! column_type := DataType_ReadAdv (cast i32 max_bytes) in
  let! column_name := ReadBufAdv_string in
  let! constraints_size := ReadBufAdv i32 in
  let! cts := rfor constraints_size (ReadBufAdv_enum (E:=ConstraintType)) in
  let constraints := fold_left (fun s ct => sset_insert cenum_val ct s) cts [] in
  let! default_expr := ConstantExpr_ReadAdv (cast i32 max_bytes) in
  rret (ColumnDef_new id column_type column_name constraints (Some default_expr)).

Definition read_outline_infos : Reader (list (Z * Z)) :=
  let! outline_infos_size := ReadBufAdv u32 in
  rfor outline_infos_size
    (let! outline_buffer_count := ReadBufAdv u32 in
     let! last_chunk_offset := ReadBufAdv u64 in
     rret (outline_buffer_count, last_chunk_offset)).

Definition Op_ReadAdv (max_bytes : Z) : Reader CatalogDeltaOperation :=
  let! ptr := tell in
  let ptr_end := ptr + max_bytes in
  let! operation_type := ReadBufAdv_enum (E:=CatalogDeltaOpType) in
  let! operation :=
    match operation_type with
    | Enumerator ADD_DATABASE_ENTRY =>
        let! mk := ReadAdvBase in
        let! db_entry_dir := ReadBufAdv_string in
        rret (mk (AddDBEntryOp db_entry_dir))
    | Enumerator ADD_TABLE_ENTRY =>
        let! mk := ReadAdvBase in
        let! table_entry_dir := ReadBufAdv_string in
        let! columns_size := ReadBufAdv i32 in
        let! columns := rfor columns_size (OpColumn_read ptr_end) in
        let! row_count := ReadBufAdv u64 in
        let! unsealed_id := ReadBufAdv u32 in
        let! next_segment_id := ReadBufAdv u32 in
        rret (mk (AddTableEntryOp table_entry_dir columns row_count unsealed_id next_segment_id))
    | Enumerator ADD_SEGMENT_ENTRY =>
        let! mk := ReadAdvBase in
        let! status := ReadBufAdv_enum (E:=SegmentStatus) in
        let! column_count := ReadBufAdv u64 in
        let! row_count := ReadBufAdv u64 in
        let! actual_row_count := ReadBufAdv u64 in
        let! row_capacity := ReadBufAdv u64 in
        let! min_row_ts := ReadBufAdv u64 in
        let! max_row_ts := ReadBufAdv u64 in
        let! first_delete_ts := ReadBufAdv u64 in
        let! deprecate_ts := ReadBufAdv u64 in
        let! filter := ReadBufAdv_string in
        rret (mk (AddSegmentEntryOp status column_count row_count actual_row_count row_capacity min_row_ts
                    max_row_ts first_delete_ts deprecate_ts filter))
    | Enumerator ADD_BLOCK_ENTRY =>
        let! mk := ReadAdvBase in
        let! row_count := ReadBufAdv u16 in
        let! row_capacity := ReadBufAdv u16 in
        let! min_row_ts := ReadBufAdv u64 in
        let! max_row_ts := ReadBufAdv u64 in
        let! checkpoint_ts := ReadBufAdv u64 in
        let! checkpoint_row_count := ReadBufAdv u16 in
        let! filter := ReadBufAdv_string in
        rret (mk (AddBlockEntryOp row_capacity row_count min_row_ts max_row_ts checkpoint_ts
                    checkpoint_row_count filter))
    | Enumerator ADD_COLUMN_ENTRY =>
        let! mk := ReadAdvBase in
        let! outline_infos := read_outline_infos in
        rret (mk (AddColumnEntryOp outline_infos))
    | Enumerator ADD_TABLE_INDEX_ENTRY =>
        let! mk := ReadAdvBase in
        if is_delete (merge_flag_ (mk (AddTableIndexEntryOp None None))) then rret (mk (AddTableIndexEntryOp None None))
        else
          let! index_dir := ReadBufAdv_string in
          let! ptr := tell in
          let! index_base := Index_ReadAdv (room ptr_end ptr) in
          rret (mk (AddTableIndexEntryOp (Some index_dir) (Some index_base)))
    | Enumerator ADD_SEGMENT_INDEX_ENTRY =>
        let! mk := ReadAdvBase in
        let! min_ts := ReadBufAdv u64 in
        let! max_ts := ReadBufAdv u64 in
        let! next_chunk_id := ReadBufAdv u32 in
        rret (mk (AddSegmentIndexEntryOp min_ts max_ts next_chunk_id))
    | Enumerator ADD_CHUNK_INDEX_ENTRY =>
        let! mk := ReadAdvBase in
        let! base_name := ReadBufAdv_string in
        let! base_rowid := ReadBufAdv u64 in
        let! row_count := ReadBufAdv u32 in
        let! deprecate_ts := ReadBufAdv u64 in
        rret (mk (AddChunkIndexEntryOp base_name base_rowid row_count deprecate_ts))
    | Enumerator (INVALID | SET_SEGMENT_STATUS_SEALED | SET_BLOCK_STATUS_SEALED) | Unnamed _ =>
        rfail UnrecoverableError
    end in
  let! ptr' := tell in
  check! (0 <=? room ptr_end ptr') orelse UnrecoverableError in
  rret operation.

(** ** Entries *)

Definition UNCOMMIT_TS : Z := 2 ^ 64 - 1.

Record CatalogDeltaEntry := mkCatalogDeltaEntry {
  txn_ids_ : list Z;
  max_commit_ts_ : Z;
  sequence_ : Z;
  operations_ : list CatalogDeltaOperation;
}.

Definition new_CatalogDeltaEntry : CatalogDeltaEntry := mkCatalogDeltaEntry [] UNCOMMIT_TS 0 [].

Definition delta_header_size : Z := 8.

Definition Entry_GetSizeInBytes (this : CatalogDeltaEntry) : result Z :=
  let size := cast i32 delta_header_size in
  let size := cast i32 (size + 8) in
  let size := cast i32 (size + 4) in
  let? size := res_fold (fun size operation => let? n := Op_GetSizeInBytes operation in Ok (cast i32 (size + n)))
                 size (operations_ this) in
  Ok (cast i32 (size + 4)).

(** One operation, with the check of the announced size. *)
Definition write_checked (operation : CatalogDeltaOperation) : result bytes :=
  let? n := Op_GetSizeInBytes operation in
  let exp_size := cast i32 n in
  let? bs := Op_WriteAdv operation in
  let act_size := cast i32 (zlen bs) in
  if negb (exp_size =? act_size) then Err UnrecoverableError else Ok bs.

(** The space of the header is skipped and filled at the end. *)
Definition Entry_WriteAdv (this : CatalogDeltaEntry) : result bytes :=
  let? operations := write_all write_checked (operations_ this) in
  let body := WriteBufAdv u64 (max_commit_ts_ this) ++ WriteBufAdv i32 (cast i32 (zlen (operations_ this)))
              ++ operations in
  let size := cast i32 (delta_header_size + zlen body + 4) in
  let body := body ++ WriteBufAdv i32 size in
  let buf := WriteBufAdv i32 size ++ WriteBufAdv u32 0 ++ body in
  let crc := makeCRC (take (Z.to_nat size) buf) in
  store buf 4 (WriteBufAdv u32 crc).

Fixpoint read_ops (ptr_end : Z) (cnt : nat) : Reader (list CatalogDeltaOperation) :=
  match cnt with
  | O => rret []
  | S cnt' =>
      let! ptr := tell in
      let max_bytes := room ptr_end ptr in
      check! negb (max_bytes <=? 0) orelse UnrecoverableError in
      let! operation := Op_ReadAdv max_bytes in
      let! rest := read_ops ptr_end cnt' in
      rret (operation :: rest)
  end.

(** The result is the entry or a null pointer, the buffer (the checksum is overwritten in place)
    and the new [ptr]. *)
Definition Entry_ReadAdv (buf : bytes) (ptr max_bytes : Z) : result (option CatalogDeltaEntry * bytes * Z) :=
  let ptr_start := ptr in
  let ptr_end := ptr + max_bytes in
  if max_bytes <=? 0 then Err UnrecoverableError
  else
    let? size := load i32 buf ptr in
    let? checksum := load u32 buf (ptr + 4) in
    let? size2 := load i32 buf (ptr_start + size - 4) in
    if negb (size =? size2) then Ok (None, buf, ptr + 8)
    else
      let? buf := store buf ptr_start (WriteBufAdv i32 size) in
      let? buf := store buf (ptr_start + 4) (WriteBufAdv u32 0) in
      if negb (bool_decide (0 ≤ size ∧ ptr_start + size ≤ zlen buf)) then Err OutOfBounds
      else
        let checksum2 := makeCRC (take (Z.to_nat size) (drop (Z.to_nat ptr_start) buf)) in
        if negb (checksum =? checksum2) then Err UnrecoverableError
        else
          let run :=
            (let! max_commit_ts := ReadBufAdv u64 in
             let! cnt := ReadBufAdv i32 in
             let! operations := read_ops (ptr_end - zlen buf) (Z.to_nat cnt) in
             rret (mkCatalogDeltaEntry [] max_commit_ts 0 operations)) in
          let? '(entry, cur) := run (drop (Z.to_nat (ptr_start + delta_header_size)) buf) in
          let ptr' := zlen buf - zlen cur + 4 in
          if cast i32 (ptr_end - ptr') <? 0 then Err UnrecoverableError else Ok (Some entry, buf, ptr').

Definition set_commit_ts_ (ts : Z) (op : CatalogDeltaOperation) : CatalogDeltaOperation :=
  mkOp (begin_ts_ op) (txn_id_ op) ts (merge_flag_ op) (encode_ op) (body_ op).

Definition SaveState (this : CatalogDeltaEntry) (txn_id commit_ts sequence : Z) : result CatalogDeltaEntry :=
  if negb (max_commit_ts_ this =? UNCOMMIT_TS) || negb (bool_decide (txn_ids_ this = [])) then Err UnrecoverableError
  else Ok (mkCatalogDeltaEntry [txn_id] commit_ts sequence (map (set_commit_ts_ commit_ts) (operations_ this))).

Definition AddOperation (this : CatalogDeltaEntry) (operation : CatalogDeltaOperation) : CatalogDeltaEntry :=
  mkCatalogDeltaEntry (txn_ids_ this) (max_commit_ts_ this) (sequence_ this) (operations_ this ++ [operation]).

(** ** Well-formed operations *)

Definition body_wf (flag : cenum MergeFlag) (b : OpBody) : Prop :=
  match b with
  | AddDBEntryOp dir => str_ok dir
  | AddTableEntryOp dir cds rows unsealed next =>
      str_ok dir ∧ Forall ColumnDef_wf cds ∧ Forall exact_size cds ∧ len_ok cds ∧
      in_range u64 rows ∧ in_range u32 unsealed ∧ in_range u32 next
  | AddSegmentEntryOp st a b c d e f g h filter =>
      cenum_wf st ∧ Forall (in_range u64) [a; b; c; d; e; f; g; h] ∧ str_ok filter
  | AddBlockEntryOp cap cnt mn mx ts n filter =>
      Forall (in_range u16) [cap; cnt; n] ∧ Forall (in_range u64) [mn; mx; ts] ∧ str_ok filter
  | AddColumnEntryOp l => zlen l < 2 ^ 32 ∧ Forall (fun '(n, off) => in_range u32 n ∧ in_range u64 off) l
  | AddTableIndexEntryOp dir ib =>
      flag = Enumerator Merge.kDelete ∨ ∃ d i, dir = Some d ∧ ib = Some i ∧ str_ok d ∧ IndexBase_wf i
  | AddSegmentIndexEntryOp mn mx n => in_range u64 mn ∧ in_range u64 mx ∧ in_range u32 n
  | AddChunkIndexEntryOp name row n ts => str_ok name ∧ in_range u64 row ∧ in_range u32 n ∧ in_range u64 ts
  end.

Definition Op_wf (op : CatalogDeltaOperation) : Prop :=
  in_range u64 (begin_ts_ op) ∧ in_range u64 (txn_id_ op) ∧ in_range u64 (commit_ts_ op) ∧
  cenum_wf (merge_flag_ op) ∧ str_ok (encode_ op) ∧ body_wf (merge_flag_ op) (body_ op).

(** What is read back: a column forgets whether to build a bloom filter, a deleted index its
    definition. *)
Definition OpColumn_stored (cd : ColumnDef) : ColumnDef :=
  mkColumnDef (id_ cd) (DataType_stored (column_type_ cd)) (name_ cd) (constraints_ cd)
    (ConstantExpr_stored <$> default_expr_ cd) false.

Definition body_stored (flag : cenum MergeFlag) (b : OpBody) : OpBody :=
  match b with
  | AddTableEntryOp dir cds rows unsealed next => AddTableEntryOp dir (map OpColumn_stored cds) rows unsealed next
  | AddTableIndexEntryOp dir ib => if is_delete flag then AddTableIndexEntryOp None None else b
  | _ => b
  end.

Definition Op_stored (op : CatalogDeltaOperation) : CatalogDeltaOperation :=
  mkOp (begin_ts_ op) (txn_id_ op) (commit_ts_ op) (merge_flag_ op) (encode_ op)
    (body_stored (merge_flag_ op) (body_ op)).

(** ** Lemmas: columns *)

Lemma OpColumn_write_ok cd : ColumnDef_wf cd → ∃ bs, OpColumn_write cd = Ok bs.
Proof.
  intros (_ & Ht & _ & _ & _ & e & He & Hwf). unfold OpColumn_write, default_expr.
  destruct (DataType_WriteAdv_ok _ Ht) as [b1 ->]. rewrite He. simpl.
  destruct (ConstantExpr_WriteAdv_ok e Hwf) as [b2 ->]. by eexists.
Qed.

Lemma OpColumn_size_written cd bs acc :
  ColumnDef_wf cd → exact_size cd → OpColumn_write cd = Ok bs →
  OpColumn_size (cast i32 acc) cd = Ok (cast i32 (acc + zlen bs)).
Proof.
  intros (_ & Ht & _) Hx Hw. unfold OpColumn_write, OpColumn_size in *. inv_ok.
  rewrite (DataType_size_written _ _ Ht Hx H), H0. cbn [res_bind].
  rewrite (ConstantExpr_size_written _ _ H1). cbn [res_bind].
  f_equal. solve_ceq. autorewrite with wsize. rewrite zlen_concat_enum. simpl. lia.
Qed.

Lemma u64_room n : 0 < n < 2 ^ 31 → cast u64 n = n ∧ cast i32 n = n.
Proof.
  change (2 ^ 31) with 2147483648. intros H. split; apply cast_id; [|apply in_i32; lia].
  unfold in_range. change (lowest u64) with 0. change (modulus u64) with 18446744073709551616. lia.
Qed.

Lemma OpColumn_read_write cd bs ptr_end rest :
  ColumnDef_wf cd → OpColumn_write cd = Ok bs → 0 ≤ ptr_end + zlen rest →
  ptr_end + zlen bs + zlen rest < 2 ^ 31 →
  OpColumn_read ptr_end (bs ++ rest) = Ok (OpColumn_stored cd, rest).
Proof.
  intros (Hid & Ht & Hn & Hs & Hc & e & He & Hwf) Hw Hend Hlt.
  unfold OpColumn_write, OpColumn_read, OpColumn_stored, default_expr in *. rewrite He in *. inv_ok.
  assert (Hb : zlen (concat (map WriteBufAdv_enum (constraints_ cd))) = zlen (constraints_ cd))
    by (rewrite zlen_concat_enum; simpl; lia).
  rewrite <- !app_assoc. read_fields. set (room := ptr_end - _).
  destruct (u64_room room) as [Hr1 Hr2]; [unfold room; wsize_lia|]. rewrite Hr1, Hr2.
  rewrite rbind_check by (apply negb_true_iff, Z.leb_gt; unfold room; wsize_lia).
  erewrite rbind_step by (apply DataType_ReadAdv_write; [done|done|unfold room; wsize_lia]). read_fields.
  rewrite (cast_id i32) by (apply in_i32; wsize_lia).
  erewrite rbind_step
    by (apply rfor_write; [done|]; intros; apply ReadBufAdv_enum_write; by eapply Forall_forall in Hc).
  rewrite sset_rebuild by done.
  erewrite rbind_step by (apply ConstantExpr_ReadAdv_write; [done|done|unfold room; wsize_lia]).
  done.
Qed.

Lemma op_columns_min_size l bs : write_all OpColumn_write l = Ok bs → zlen l ≤ zlen bs.
Proof.
  revert bs. induction l as [|x l IH]; intros bs Hw; rewrite ?write_all_cons, ?write_all_nil in Hw; inv_ok.
  { done. }
  specialize (IH _ H0). unfold OpColumn_write in H. inv_ok. rewrite zlen_cons. wsize_lia.
Qed.

Lemma zlen_outline_infos l : zlen (write_outline_infos l) = 4 + zlen l * (4 + 8).
Proof.
  unfold write_outline_infos. rewrite zlen_app, zlen_WriteBufAdv. simpl sizeof. f_equal.
  induction l as [|[n off] l IH]; simpl; [done|]. rewrite zlen_app, zlen_cons, IH. autorewrite with wsize. simpl. lia.
Qed.

Lemma read_outline_infos_write l rest :
  zlen l < 2 ^ 32 → Forall (fun '(n, off) => in_range u32 n ∧ in_range u64 off) l →
  read_outline_infos (write_outline_infos l ++ rest) = Ok (l, rest).
Proof.
  intros Hl Hf. unfold read_outline_infos, write_outline_infos. read_fields.
  rewrite (cast_id u32).
  2: { pose proof (zlen_nonneg l). unfold in_range. change (lowest u32) with 0. change (modulus u32) with (2 ^ 32). lia. }
  apply rfor_write; [done|]. intros [n off] Hx r. apply (proj1 (Forall_forall _ _) Hf) in Hx as [??]. by read_fields.
Qed.

(** ** Lemmas: operations *)

Lemma Op_WriteAdv_ok op : Op_wf op → ∃ bs, Op_WriteAdv op = Ok bs.
Proof.
  intros (_ & _ & _ & _ & _ & Hb). unfold Op_WriteAdv. destruct (body_ op); simpl in Hb; try (by eexists).
  - destruct (write_all_ok OpColumn_write column_defs_) as [cols ->]; [|by eexists].
    destruct Hb as (_ & Hc & _). eapply Forall_impl; [done|]. apply OpColumn_write_ok.
  - unfold is_delete. case_bool_decide; [by eexists|]. destruct Hb as [|(d & i & -> & -> & _)]; [done|]. by eexists.
Qed.

Lemma zlen_WriteAdvBase op : zlen (WriteAdvBase op) = 25 + (4 + zlen (encode_ op)).
Proof. unfold WriteAdvBase. autorewrite with wsize. simpl. lia. Qed.

Lemma cast_u64_pos n : 0 ≤ n < 2 ^ 31 → cast u64 n = n.
Proof.
  change (2 ^ 31) with 2147483648. intros H. apply cast_id.
  unfold in_range. change (lowest u64) with 0. change (modulus u64) with 18446744073709551616. lia.
Qed.

Lemma cast_i32_pos n : 0 ≤ n < 2 ^ 31 → cast i32 n = n.
Proof. change (2 ^ 31) with 2147483648. intros H. apply cast_id, in_i32. lia. Qed.

Lemma op_head_size op rest :
  zlen ((WriteBufAdv_enum (Enumerator (GetType op)) ++ WriteAdvBase op) ++ rest) = 30 + zlen (encode_ op) + zlen rest.
Proof. rewrite !zlen_app, zlen_WriteAdvBase. autorewrite with wsize. simpl. lia. Qed.

Lemma op_head_min op bs : Op_WriteAdv op = Ok bs → 30 + zlen (encode_ op) ≤ zlen bs.
Proof.
  intros Hw. unfold Op_WriteAdv in Hw. destruct (body_ op); inv_ok; rewrite ?op_head_size; zlen_facts; try lia.
  unfold is_delete in Hw. case_bool_decide; [|destruct index_dir_, index_base_]; inv_ok;
    rewrite ?op_head_size; zlen_facts; try lia.
  rewrite zlen_app, zlen_WriteAdvBase. autorewrite with wsize. simpl. lia.
Qed.

Lemma Op_size_written op bs :
  Op_wf op → Op_WriteAdv op = Ok bs → zlen bs < 2 ^ 31 → Op_GetSizeInBytes op = Ok (zlen bs).
Proof.
  intros (_ & _ & _ & _ & _ & Hb) Hw Hlt. pose proof (op_head_min op bs Hw) as Hmin.
  pose proof (zlen_nonneg (encode_ op)) as He. unfold Op_WriteAdv, Op_GetSizeInBytes, GetBaseSizeInBytes in *.
  rewrite (cast_u64_pos (_ + (4 + zlen (encode_ op)))) by lia.
  destruct (body_ op); simpl in Hb; try (injection Hw as <-; rewrite op_head_size in *;
    rewrite ?cast_add_l, ?cast_i32_pos, ?zlen_outline_infos in * by wsize_lia; rewrite cast_u64_pos by wsize_lia; f_equal; wsize_lia).
  - inv_ok. destruct Hb as (_ & Hc & Hx & _). rewrite op_head_size in *. rewrite !cast_add_l.
    erewrite (fold_size_written OpColumn_write); [| |done].
    + cbn [res_bind]. f_equal. match goal with |- _ = ?b => transitivity (cast u64 (cast i32 b)) end.
      * f_equal. solve_ceq. wsize_lia.
      * rewrite cast_i32_pos by wsize_lia. apply cast_u64_pos. wsize_lia.
    + intros cd b acc Hcd Hwb. apply OpColumn_size_written; [| |done]; by eapply Forall_forall in Hcd.
  - unfold is_delete in *. case_bool_decide.
    + injection Hw as <-. rewrite zlen_app, zlen_WriteAdvBase in *. autorewrite with wsize in *. simpl in *.
      rewrite cast_u64_pos by lia. done.
    + destruct Hb as [|(d & i & -> & -> & _)]; [done|]. injection Hw as <-. rewrite op_head_size in *.
      rewrite Index_size_written. rewrite (cast_i32_pos (zlen (Index_WriteAdv i))) by wsize_lia.
      rewrite cast_u64_pos by wsize_lia. f_equal. wsize_lia.
Qed.

#[local] Hint Rewrite zlen_WriteAdvBase zlen_outline_infos : wsize.

Lemma ReadAdvBase_write op rest :
  Op_wf op →
  ReadAdvBase (WriteAdvBase op ++ rest)
  = Ok (mkOp (begin_ts_ op) (txn_id_ op) (commit_ts_ op) (merge_flag_ op) (encode_ op), rest).
Proof. intros (? & ? & ? & ? & ? & _). unfold ReadAdvBase, WriteAdvBase. by read_fields. Qed.

Lemma Op_ReadAdv_write op bs max_bytes rest :
  Op_wf op → Op_WriteAdv op = Ok bs → zlen bs ≤ max_bytes < 2 ^ 31 →
  Op_ReadAdv max_bytes (bs ++ rest) = Ok (Op_stored op, rest).
Proof.
  intros Hwf Hw Hmax. pose proof (op_head_min op bs Hw) as Hmin. unfold Op_ReadAdv, Op_stored.
  assert (Hb : body_wf (merge_flag_ op) (body_ op)) by apply Hwf.
  assert (Hbase : ∀ {A} (k : (OpBody → CatalogDeltaOperation) → Reader A) r,
    rbind ReadAdvBase k (WriteAdvBase op ++ r)
    = k (mkOp (begin_ts_ op) (txn_id_ op) (commit_ts_ op) (merge_flag_ op) (encode_ op)) r).
  { intros A k r. by erewrite rbind_step by (by apply ReadAdvBase_write). }
  unfold Op_WriteAdv, GetType in *.
  destruct (body_ op) eqn:Hbody; cbn [body_type body_stored] in *; simpl in Hb; destruct_and?.
  all: repeat match goal with H : Forall _ (_ :: _) |- _ => apply Forall_cons in H as [??] end.
  all: try (injection Hw as <-; rewrite <- !app_assoc; read_fields; rewrite Hbase; read_fields).
  all: try (read_room; done).
  - inv_ok. pose proof (op_columns_min_size _ _ ltac:(eassumption)). rewrite <- !app_assoc. read_fields.
    rewrite Hbase. read_fields. rewrite (cast_id i32) by (by apply len_range).
    erewrite rbind_step.
    2: { eapply (rfor_write_all _ _ OpColumn_stored); [eassumption|done|].
         intros cd b tail Hcd Hwb Hlen.
         apply OpColumn_read_write; [by eapply Forall_forall in Hcd|done|wsize_lia..]. }
    read_fields. read_room. done.
  - erewrite rbind_step by (by apply read_outline_infos_write). read_fields. read_room. done.
  - unfold is_delete in *. case_bool_decide as Hd.
    + injection Hw as <-. rewrite <- !app_assoc. read_fields. rewrite Hbase. cbn [merge_flag_].
      rewrite bool_decide_eq_true_2 by done. read_fields. read_room. done.
    + destruct Hb as [|(d & i & -> & -> & Hs & Hi)]; [done|]. injection Hw as <-.
      rewrite <- !app_assoc. read_fields. rewrite Hbase. cbn [merge_flag_].
      rewrite bool_decide_eq_false_2 by done. read_fields.
      rewrite room_id by (apply in_i32; wsize_lia).
      erewrite rbind_step by (apply Index_ReadAdv_write; [done|wsize_lia]). read_fields. read_room. done.
Qed.

(** Storing what was stored writes the same bytes. *)
Lemma OpColumn_write_stored cd : ColumnDef_wf cd → exact_size cd → OpColumn_write (OpColumn_stored cd) = OpColumn_write cd.
Proof.
  intros (_ & _ & _ & _ & _ & e & He & _) Hx. unfold OpColumn_write, OpColumn_stored, default_expr. simpl.
  rewrite He. simpl. rewrite ConstantExpr_WriteAdv_stored.
  assert (Hd : DataType_stored (column_type_ cd) = column_type_ cd).
  { unfold DataType_stored. repeat case_match; try done. by destruct Hx. }
  by rewrite Hd.
Qed.

Lemma Op_WriteAdv_stored op : Op_wf op → Op_WriteAdv (Op_stored op) = Op_WriteAdv op.
Proof.
  intros (_ & _ & _ & _ & _ & Hb). unfold Op_WriteAdv, Op_stored, GetType, WriteAdvBase. cbn.
  destruct (body_ op); simpl in Hb |- *; try done.
  - destruct Hb as (_ & Hc & Hx & _). rewrite zlen_map. rewrite (write_all_map _ OpColumn_write); [done|].
    intros cd Hcd. apply OpColumn_write_stored; by eapply Forall_forall in Hcd.
  - by destruct (is_delete (merge_flag_ op)).
Qed.

Lemma OpColumn_size_stored acc cd :
  ColumnDef_wf cd → exact_size cd → OpColumn_size acc (OpColumn_stored cd) = OpColumn_size acc cd.
Proof.
  intros (_ & _ & _ & _ & _ & e & He & Hwf) Hx. unfold OpColumn_size, OpColumn_stored, default_expr. simpl.
  rewrite He. simpl. destruct (ConstantExpr_WriteAdv_ok e Hwf) as [bs Hbs].
  rewrite (ConstantExpr_size_written e bs Hbs), (ConstantExpr_size_written _ bs (eq_trans (ConstantExpr_WriteAdv_stored e) Hbs)).
  assert (Hd : DataType_stored (column_type_ cd) = column_type_ cd).
  { unfold DataType_stored. repeat case_match; try done. by destruct Hx. }
  by rewrite Hd.
Qed.

Lemma Op_size_stored op : Op_wf op → Op_GetSizeInBytes (Op_stored op) = Op_GetSizeInBytes op.
Proof.
  intros (_ & _ & _ & _ & _ & Hb). unfold Op_GetSizeInBytes, Op_stored, GetBaseSizeInBytes. cbn.
  destruct (body_ op); simpl in Hb |- *; try done.
  - destruct Hb as (_ & Hc & Hx & _).
    assert (Hf : ∀ acc, res_fold OpColumn_size acc (map OpColumn_stored column_defs_) = res_fold OpColumn_size acc column_defs_).
    { induction column_defs_ as [|cd l IH]; intros acc; [done|]. apply Forall_cons in Hc as [? Hc]. apply Forall_cons in Hx as [? Hx].
      cbn [map res_fold]. rewrite OpColumn_size_stored by done. destruct (OpColumn_size acc cd); [|done]. by apply IH. }
    by rewrite Hf.
  - by destruct (is_delete (merge_flag_ op)).
Qed.

(** ** Lemmas: entries *)

Definition Entry_wf (e : CatalogDeltaEntry) : Prop :=
  in_range u64 (max_commit_ts_ e) ∧ len_ok (operations_ e) ∧ Forall Op_wf (operations_ e) ∧
  (∀ ops, write_all Op_WriteAdv (operations_ e) = Ok ops → 24 + zlen ops < 2 ^ 31).

Definition Entry_stored (e : CatalogDeltaEntry) : CatalogDeltaEntry :=
  mkCatalogDeltaEntry [] (max_commit_ts_ e) 0 (map Op_stored (operations_ e)).

(** What follows the checksum, and the entry with checksum [crc]. *)
Definition delta_tail (e : CatalogDeltaEntry) (ops : bytes) : bytes :=
  WriteBufAdv u64 (max_commit_ts_ e) ++ WriteBufAdv i32 (cast i32 (zlen (operations_ e))) ++ ops
  ++ WriteBufAdv i32 (24 + zlen ops).

Definition delta_bytes (e : CatalogDeltaEntry) (ops : bytes) (crc : Z) : bytes :=
  WriteBufAdv i32 (24 + zlen ops) ++ WriteBufAdv u32 crc ++ delta_tail e ops.

Lemma zlen_delta_bytes e ops crc : zlen (delta_bytes e ops crc) = 24 + zlen ops.
Proof. unfold delta_bytes, delta_tail. autorewrite with wsize. simpl. lia. Qed.

Lemma ops_write_ok e : Entry_wf e → ∃ ops, write_all Op_WriteAdv (operations_ e) = Ok ops.
Proof.
  intros (_ & _ & Ho & _). apply write_all_ok. eapply Forall_impl; [done|]. apply Op_WriteAdv_ok.
Qed.

Lemma write_checked_all l ops :
  Forall Op_wf l → write_all Op_WriteAdv l = Ok ops → zlen ops < 2 ^ 31 → write_all write_checked l = Ok ops.
Proof.
  revert ops. induction l as [|op l IH]; intros ops Hwf Hw Hlt; rewrite ?write_all_cons, ?write_all_nil in *; [done|].
  inv_ok. apply Forall_cons in Hwf as [Hop Hwf]. rewrite zlen_app in Hlt. zlen_facts.
  unfold write_checked at 1. rewrite (Op_size_written op x) by (try done; lia). cbn [res_bind].
  rewrite H. cbn [res_bind]. rewrite Z.eqb_refl. cbn [negb res_bind]. rewrite (IH x0) by (try done; lia). done.
Qed.

Lemma Entry_WriteAdv_shape e ops :
  Entry_wf e → write_all Op_WriteAdv (operations_ e) = Ok ops →
  Entry_WriteAdv e = Ok (delta_bytes e ops (makeCRC (delta_bytes e ops 0))).
Proof.
  intros (_ & _ & Ho & Hlt) Hw. specialize (Hlt _ Hw). unfold Entry_WriteAdv. zlen_facts.
  rewrite (write_checked_all _ ops) by (try done; lia). cbn [res_bind].
  assert (Hn : cast i32 (delta_header_size + zlen (WriteBufAdv u64 (max_commit_ts_ e)
    ++ WriteBufAdv i32 (cast i32 (zlen (operations_ e))) ++ ops) + 4) = 24 + zlen ops).
  { unfold delta_header_size. autorewrite with wsize. simpl. rewrite cast_i32_pos by lia. lia. }
  rewrite Hn. rewrite <- !app_assoc. fold (delta_tail e ops). fold (delta_bytes e ops 0).
  rewrite take_zlen by (rewrite zlen_delta_bytes; lia).
  apply (store_at (WriteBufAdv i32 (24 + zlen ops)) (WriteBufAdv u32 0) (delta_tail e ops));
    [by autorewrite with wsize|done|by autorewrite with wsize].
Qed.

Lemma Entry_size_written e ops :
  Entry_wf e → write_all Op_WriteAdv (operations_ e) = Ok ops → Entry_GetSizeInBytes e = Ok (24 + zlen ops).
Proof.
  intros (_ & _ & Ho & Hlt) Hw. specialize (Hlt _ Hw). zlen_facts. unfold Entry_GetSizeInBytes.
  rewrite !cast_add_l. rewrite (fold_size_written Op_WriteAdv _ _ ops (delta_header_size + 8 + 4)).
  - cbn [res_bind]. rewrite cast_add_l. unfold delta_header_size. rewrite cast_i32_pos by lia. f_equal. lia.
  - assert (Hb : ∀ l ops', write_all Op_WriteAdv l = Ok ops' → ∀ op b, op ∈ l → Op_WriteAdv op = Ok b → zlen b ≤ zlen ops').
    { clear. induction l as [|y l IH]; intros ops' Hw op b Hin Hb; [set_solver|]. rewrite write_all_cons in Hw. inv_ok.
      rewrite zlen_app. zlen_facts. apply elem_of_cons in Hin as [->|Hin].
      - rewrite H in Hb. injection Hb as ->. lia.
      - specialize (IH _ H0 _ _ Hin Hb). lia. }
    intros op b acc Hin Hwb. specialize (Hb _ _ Hw _ _ Hin Hwb).
    rewrite (Op_size_written op b); [|by eapply Forall_forall|done|lia]. cbn [res_bind]. by rewrite cast_add_l.
  - done.
Qed.

Lemma read_ops_write l : ∀ ops ptr_end rest,
  Forall Op_wf l → write_all Op_WriteAdv l = Ok ops →
  0 < ptr_end + zlen rest → ptr_end + zlen ops + zlen rest < 2 ^ 31 →
  read_ops ptr_end (length l) (ops ++ rest) = Ok (map Op_stored l, rest).
Proof.
  induction l as [|op l IH]; intros ops ptr_end rest Hwf Hw H0 Hmax;
    rewrite ?write_all_cons, ?write_all_nil in Hw; inv_ok; cbn [length read_ops map]; [done|].
  apply Forall_cons in Hwf as [Ho Hwf]. rewrite rbind_tell, room_id by (apply in_i32; wsize_lia).
  rewrite rbind_check by (apply negb_true_iff, Z.leb_gt; wsize_lia). rewrite <- app_assoc.
  erewrite rbind_step by (apply Op_ReadAdv_write; [done|done|wsize_lia]).
  erewrite rbind_step by (apply IH; [done|done|wsize_lia..]). done.
Qed.

(** *** Reading an entry in place *)

Section in_place.
Context (e : CatalogDeltaEntry) (ops pre post : bytes).
Hypothesis Hwf : Entry_wf e.
Hypothesis Hops : write_all Op_WriteAdv (operations_ e) = Ok ops.
Let n := 24 + zlen ops.

Lemma delta_size_range : 24 ≤ n < 2 ^ 31 ∧ in_range i32 n.
Proof using Hwf Hops.
  destruct Hwf as (_ & _ & _ & Hlt). specialize (Hlt _ Hops). pose proof (zlen_nonneg ops).
  split; [unfold n; lia|]. apply in_i32. unfold n. lia.
Qed.

Lemma delta_split crc :
  pre ++ delta_bytes e ops crc ++ post
  = (pre ++ WriteBufAdv i32 n) ++ WriteBufAdv u32 crc ++ delta_tail e ops ++ post.
Proof using. unfold delta_bytes. by rewrite <- !app_assoc. Qed.

Lemma delta_read_ops max_bytes :
  n ≤ max_bytes < 2 ^ 31 →
  let buf := pre ++ delta_bytes e ops 0 ++ post in
  (let! max_commit_ts := ReadBufAdv u64 in
   let! cnt := ReadBufAdv i32 in
   let! operations := read_ops (zlen pre + max_bytes - zlen buf) (Z.to_nat cnt) in
   rret (mkCatalogDeltaEntry [] max_commit_ts 0 operations)) (drop (Z.to_nat (zlen pre + delta_header_size)) buf)
  = Ok (Entry_stored e, WriteBufAdv i32 n ++ post).
Proof using Hwf Hops.
  intros Hmax buf. destruct Hwf as (Hts & Hl & Ho & _).
  assert (Hz : zlen buf = zlen pre + n + zlen post).
  { unfold buf. rewrite !zlen_app, zlen_delta_bytes. fold n. lia. }
  rewrite Hz. unfold buf. rewrite delta_split.
  rewrite (app_assoc (pre ++ WriteBufAdv i32 n)), drop_zlen_app by (unfold delta_header_size; wsize_lia).
  unfold delta_tail. rewrite <- !app_assoc. read_fields. rewrite (cast_id i32) by (by apply len_range).
  unfold zlen at 4. rewrite Nat2Z.id.
  erewrite rbind_step by (apply read_ops_write; [done|done|unfold n in *; wsize_lia..]). done.
Qed.

Lemma Entry_ReadAdv_entry crc max_bytes :
  in_range u32 crc → n ≤ max_bytes < 2 ^ 31 →
  Entry_ReadAdv (pre ++ delta_bytes e ops crc ++ post) (zlen pre) max_bytes
  = if crc =? makeCRC (delta_bytes e ops 0)
    then Ok (Some (Entry_stored e), pre ++ delta_bytes e ops 0 ++ post, zlen pre + n)
    else Err UnrecoverableError.
Proof using Hwf Hops.
  intros Hcrc Hmax. destruct delta_size_range as [Hr Hn]. unfold Entry_ReadAdv.
  rewrite (proj2 (Z.leb_gt _ _)) by lia. rewrite delta_split.
  rewrite (load_at i32 n pre (WriteBufAdv u32 crc ++ delta_tail e ops ++ post)); [|done|by rewrite <- app_assoc|done].
  cbn [res_bind]. rewrite (load_at u32 crc (pre ++ WriteBufAdv i32 n) (delta_tail e ops ++ post)); [|done|done|wsize_lia].
  cbn [res_bind]. rewrite (load_at i32 n (pre ++ WriteBufAdv i32 n ++ WriteBufAdv u32 crc ++ WriteBufAdv u64 (max_commit_ts_ e)
    ++ WriteBufAdv i32 (cast i32 (zlen (operations_ e))) ++ ops) post);
    [|done|unfold delta_tail; by rewrite <- !app_assoc|unfold n; wsize_lia].
  cbn [res_bind]. rewrite Z.eqb_refl. cbn [negb].
  rewrite (store_at pre (WriteBufAdv i32 n) (WriteBufAdv u32 crc ++ delta_tail e ops ++ post));
    [|by autorewrite with wsize|by rewrite <- app_assoc|done].
  cbn [res_bind]. rewrite (store_at (pre ++ WriteBufAdv i32 n) (WriteBufAdv u32 crc) (delta_tail e ops ++ post));
    [|by autorewrite with wsize|by rewrite <- app_assoc|wsize_lia].
  cbn [res_bind]. rewrite <- delta_split. set (buf := pre ++ delta_bytes e ops 0 ++ post).
  assert (Hz : zlen buf = zlen pre + n + zlen post).
  { unfold buf. rewrite !zlen_app, zlen_delta_bytes. fold n. lia. }
  rewrite bool_decide_eq_true_2 by (rewrite Hz; zlen_facts; lia). cbn [negb].
  assert (Ht : take (Z.to_nat n) (drop (Z.to_nat (zlen pre)) buf) = delta_bytes e ops 0).
  { unfold buf. rewrite drop_zlen_app by done. apply take_zlen_app. by rewrite zlen_delta_bytes. }
  rewrite Ht. destruct (crc =? _); [|done]. cbn [negb].
  unfold buf at 1 2. rewrite (delta_read_ops max_bytes Hmax). cbn [res_bind]. fold buf.
  assert (Hp : zlen buf - zlen (WriteBufAdv i32 n ++ post) + 4 = zlen pre + n) by wsize_lia.
  rewrite Hp. rewrite (proj2 (Z.ltb_ge _ _)); [done|]. rewrite cast_i32_pos; lia.
Qed.
End in_place.

Lemma Entry_size_stored e : Entry_wf e → Entry_GetSizeInBytes (Entry_stored e) = Entry_GetSizeInBytes e.
Proof.
  intros (_ & _ & Ho & _). unfold Entry_GetSizeInBytes, Entry_stored. cbn [operations_].
  generalize (cast i32 (cast i32 (cast i32 delta_header_size + 8) + 4)) as acc.
  induction (operations_ e) as [|op l IH]; intros acc; [done|]. apply Forall_cons in Ho as [Hop Ho].
  cbn [map res_fold]. rewrite Op_size_stored by done. destruct (Op_GetSizeInBytes op); [|done]. by apply IH.
Qed.

(** ** Properties *)

(** C37. The codec of delta checkpoints.  A well-formed delta entry is written without error; its
    length is what [GetSizeInBytes] announced; wherever the bytes lie in a buffer, [ReadAdv] gives
    back the commit timestamp and every operation as stored, and moves the pointer past it.  With
    any other checksum in the header the read raises an unrecoverable error. *)
Theorem delta_entry_codec e :
  Entry_wf e →
  ∃ bs size crc tail,
    Entry_WriteAdv e = Ok bs ∧ zlen bs = size ∧ Entry_GetSizeInBytes e = Ok size ∧
    bs = WriteBufAdv i32 size ++ WriteBufAdv u32 crc ++ tail ∧
    (∀ pre post max_bytes, size ≤ max_bytes < 2 ^ 31 →
       Entry_ReadAdv (pre ++ bs ++ post) (zlen pre) max_bytes
       = Ok (Some (mkCatalogDeltaEntry [] (max_commit_ts_ e) 0 (map Op_stored (operations_ e))),
             pre ++ (WriteBufAdv i32 size ++ WriteBufAdv u32 0 ++ tail) ++ post, zlen pre + size)) ∧
    (∀ pre post max_bytes crc', size ≤ max_bytes < 2 ^ 31 → in_range u32 crc' → crc' ≠ crc →
       Entry_ReadAdv (pre ++ (WriteBufAdv i32 size ++ WriteBufAdv u32 crc' ++ tail) ++ post) (zlen pre) max_bytes
       = Err UnrecoverableError).
Proof.
  intros Hwf. destruct (ops_write_ok e Hwf) as [ops Ho].
  exists (delta_bytes e ops (makeCRC (delta_bytes e ops 0))), (24 + zlen ops), (makeCRC (delta_bytes e ops 0)), (delta_tail e ops).
  split; [by apply Entry_WriteAdv_shape|]. split; [apply zlen_delta_bytes|]. split; [by apply Entry_size_written|].
  split; [done|]. split.
  - intros pre post max_bytes Hmax. rewrite (Entry_ReadAdv_entry e ops) by (try done; apply makeCRC_range).
    by rewrite Z.eqb_refl.
  - intros pre post max_bytes crc' Hmax Hcrc Hne. fold (delta_bytes e ops crc').
    rewrite (Entry_ReadAdv_entry e ops) by done. by rewrite (proj2 (Z.eqb_neq _ _)).
Qed.

(** ** Witnesses *)

Definition sample_delta : CatalogDeltaEntry :=
  mkCatalogDeltaEntry [7] 12 3
    [mkOp 1 7 12 (Enumerator Merge.kNew) (str "#db1") (AddDBEntryOp (str "dir1"));
     mkOp 1 7 12 (Enumerator Merge.kNew) (str "#db1#t1")
       (AddTableEntryOp (str "t1_dir")
          [ColumnDef_new 0 (DataType_new (Enumerator kBigInt) None) (str "c1") [] None] 0 4294967295 0);
     mkOp 1 7 12 (Enumerator Merge.kUpdate) (str "#db1#t1#0")
       (AddSegmentEntryOp (Enumerator Status.kSealed) 1 5 5 8192 2 12 18446744073709551615 0 (str "filter"));
     mkOp 1 7 12 (Enumerator Merge.kDelete) (str "#db1#t1#idx") (AddTableIndexEntryOp None None)].

Lemma sample_delta_wf : Entry_wf sample_delta.
Proof.
  split; [by vm_compute|]. split; [by vm_compute|]. split.
  2: { intros ops H. vm_compute in H. injection H as <-. by vm_compute. }
  repeat (apply Forall_cons; split); [..|apply Forall_nil_2].
  all: split; [by vm_compute|]; split; [by vm_compute|]; split; [by vm_compute|]; split; [by vm_compute|];
    split; [by vm_compute|].
  - by vm_compute.
  - split; [by vm_compute|]. split; [|repeat split; try (by vm_compute); repeat constructor; by vm_compute].
    repeat constructor; simpl; try done; try solve_range. eexists. split; [done|]. constructor; done.
  - split; [by vm_compute|]. split; [repeat constructor; by vm_compute|by vm_compute].
  - by left.
Qed.

Example delta_entry_codec_witness :
  ∃ bs, Entry_WriteAdv sample_delta = Ok bs ∧
    ∃ buf, Entry_ReadAdv ([0; 0] ++ bs ++ [9]) 2 1000
           = Ok (Some (mkCatalogDeltaEntry [] 12 0 (map Op_stored (operations_ sample_delta))), buf, 2 + zlen bs).
Proof.
  destruct (delta_entry_codec sample_delta sample_delta_wf) as (bs & size & crc & tail & Hw & Hl & Hs & Hb & Hr & _).
  exists bs. split; [exact Hw|].
  assert (Hsize : size ≤ 1000). { vm_compute in Hs. injection Hs as <-. done. }
  rewrite Hl. eexists. apply (Hr [0; 0] [9] 1000). lia.
Defined.
