(* ===== verification/GlobalDelta.v ===== *)
(** * The global catalog delta

    Models [GlobalCatalogDeltaEntry] of [src/src/storage/wal/catalog_delta_entry.cpp]: the delta
    entries of committed transactions are put in sequence, their operations are merged by key into
    one ordered map, operations below a deleted entry are pruned, and a delta checkpoint takes the
    merged operations out.  The mutex is not modelled: every method runs as one step. *)

From Stdlib Require Import ZArith Lia Sorting.Sorted.
From stdpp Require Import base list numbers gmap strings sets sorting.
From S2P Require Import Prelude Bytes Text DataTypes ConstExpr TableDef IndexDef EntryKey OrdMap CatalogDelta.
Local Open Scope Z_scope.

(** ** Merging two operations on one entry *)

Module Prune.
Inductive PruneFlag := kInvalid | kPrune | kPruneSub | kKeep.
End Prune.
Notation PruneFlag := Prune.PruneFlag.

Definition ToPrune (old_merge_flag_opt : option (cenum MergeFlag)) (new_merge_flag : cenum MergeFlag) : result PruneFlag :=
  match old_merge_flag_opt with
  | None =>
      match new_merge_flag with
      | Enumerator Merge.kDelete | Enumerator Merge.kDeleteAndNew => Ok Prune.kPruneSub
      | Enumerator Merge.kNew | Enumerator Merge.kUpdate => Ok Prune.kKeep
      | _ => Err UnrecoverableError
      end
  | Some old_merge_flag =>
      match new_merge_flag with
      | Enumerator Merge.kDelete =>
          match old_merge_flag with
          | Enumerator Merge.kNew => Ok Prune.kPrune
          | Enumerator Merge.kUpdate | Enumerator Merge.kDeleteAndNew => Ok Prune.kPruneSub
          | _ => Err UnrecoverableError
          end
      | Enumerator Merge.kNew | Enumerator Merge.kUpdate => Ok Prune.kKeep
      | Enumerator Merge.kDeleteAndNew =>
          match old_merge_flag with
          | Enumerator Merge.kNew | Enumerator Merge.kUpdate | Enumerator Merge.kDeleteAndNew => Ok Prune.kPruneSub
          | _ => Err UnrecoverableError
          end
      | _ => Err UnrecoverableError
      end
  end.

Definition NextDeleteFlag (merge_flag new_merge_flag : cenum MergeFlag) : result (cenum MergeFlag) :=
  match merge_flag with
  | Enumerator Merge.kDelete =>
      match new_merge_flag with
      | Enumerator Merge.kNew => Ok (Enumerator Merge.kDeleteAndNew)
      | _ => Err UnrecoverableError
      end
  | Enumerator Merge.kNew =>
      match new_merge_flag with
      | Enumerator Merge.kUpdate | Enumerator Merge.kDeleteAndNew => Ok (Enumerator Merge.kNew)
      | _ => Err UnrecoverableError
      end
  | Enumerator Merge.kUpdate =>
      match new_merge_flag with
      | Enumerator Merge.kDelete => Ok (Enumerator Merge.kDelete)
      | Enumerator Merge.kUpdate => Ok (Enumerator Merge.kUpdate)
      | Enumerator Merge.kDeleteAndNew => Ok (Enumerator Merge.kNew)
      | _ => Err UnrecoverableError
      end
  | Enumerator Merge.kDeleteAndNew =>
      match new_merge_flag with
      | Enumerator Merge.kDelete => Ok (Enumerator Merge.kDelete)
      | Enumerator Merge.kUpdate | Enumerator Merge.kDeleteAndNew => Ok (Enumerator Merge.kDeleteAndNew)
      | _ => Err UnrecoverableError
      end
  | _ => Err UnrecoverableError
  end.

Definition set_merge_flag_ (flag : cenum MergeFlag) (op : CatalogDeltaOperation) : CatalogDeltaOperation :=
  mkOp (begin_ts_ op) (txn_id_ op) (commit_ts_ op) flag (encode_ op) (body_ op).

Definition set_body_ (body : OpBody) (op : CatalogDeltaOperation) : CatalogDeltaOperation :=
  mkOp (begin_ts_ op) (txn_id_ op) (commit_ts_ op) (merge_flag_ op) (encode_ op) body.

(** The filter data of the older operation is kept; both having some is an error. *)
Definition keep_filter (old new : bytes) : result bytes :=
  match old with
  | [] => Ok new
  | _ => match new with [] => Ok old | _ => Err UnrecoverableError end
  end.

(** The [Merge] methods: [this] takes over everything of [other], with the flag of the two
    together; operations on columns, segment indexes and chunk indexes take over the flag as well. *)
Definition Op_Merge (this other : CatalogDeltaOperation) : result CatalogDeltaOperation :=
  if negb (bool_decide (GetType other = GetType this)) then Err UnrecoverableError
  else
    match body_ this, body_ other with
    | AddSegmentEntryOp _ _ _ _ _ _ _ _ _ old,
      AddSegmentEntryOp status cols rows actual cap min_ts max_ts first_delete deprecate new =>
        let? flag := NextDeleteFlag (merge_flag_ this) (merge_flag_ other) in
        let? filter_data := keep_filter old new in
        Ok (set_merge_flag_ flag
              (set_body_ (AddSegmentEntryOp status cols rows actual cap min_ts max_ts first_delete deprecate filter_data)
                 other))
    | AddBlockEntryOp _ _ _ _ _ _ old, AddBlockEntryOp cap rows min_ts max_ts ckp_ts ckp_rows new =>
        let? flag := NextDeleteFlag (merge_flag_ this) (merge_flag_ other) in
        let? filter_data := keep_filter old new in
        Ok (set_merge_flag_ flag (set_body_ (AddBlockEntryOp cap rows min_ts max_ts ckp_ts ckp_rows filter_data) other))
    | AddColumnEntryOp _, _ | AddSegmentIndexEntryOp _ _ _, _ | AddChunkIndexEntryOp _ _ _ _, _ => Ok other
    | _, _ =>
        let? flag := NextDeleteFlag (merge_flag_ this) (merge_flag_ other) in
        Ok (set_merge_flag_ flag other)
    end.

(** ** Pruning *)

Notation DeltaOps := (list (bytes * CatalogDeltaOperation)).

(** [std::mismatch] on the characters of two strings: what is left of both at the first difference.
    Its second iterator runs past the end of a shorter second string. *)
Fixpoint mismatch (a b : bytes) : result (bytes * bytes) :=
  match a, b with
  | [], _ => Ok ([], b)
  | _ :: _, [] => Err OutOfBounds
  | x :: a', y :: b' => if x =? y then mismatch a' b' else Ok (a, b)
  end.

Fixpoint prune_loop (encode1 : bytes) (iter : DeltaOps) : result DeltaOps :=
  match iter with
  | [] => Ok []
  | (encode2, delta_op2) :: rest =>
      let? '(iter1, iter2) := mismatch encode1 encode2 in
      match iter1 with
      | _ :: _ => Ok iter
      | [] =>
          let? rest' := prune_loop encode1 rest in
          match iter2 with
          | [] => Ok ((encode2, delta_op2) :: rest')
          | c :: _ => if negb (c =? delimiter) then Ok ((encode2, delta_op2) :: rest') else Ok rest'
          end
      end
  end.

Definition PruneOpWithSamePrefix (encode1 : bytes) (delta_ops : DeltaOps) : result DeltaOps :=
  let '(before, iter) := lower_bound encode1 delta_ops in
  let? iter' := prune_loop encode1 iter in
  Ok (before ++ iter').

(** ** The state *)

Module Global.
Record GlobalCatalogDeltaEntry := mk {
  last_sequence_ : Z;
  sequence_heap_ : list Z;     (* the priority queue, smallest first *)
  delta_entry_map_ : gmap Z CatalogDeltaEntry;
  delta_ops_ : DeltaOps;
  txn_ids_ : gset Z;
  max_commit_ts_ : Z;
  last_full_ckp_ts_ : Z;
  wal_size_ : Z;
}.

Definition new : GlobalCatalogDeltaEntry := mk 0 [] ∅ [] ∅ 0 0 0.
End Global.
Notation GlobalCatalogDeltaEntry := Global.GlobalCatalogDeltaEntry.

Definition InitMaxCommitTS (max_commit_ts : Z) (g : GlobalCatalogDeltaEntry) : GlobalCatalogDeltaEntry :=
  Global.mk (Global.last_sequence_ g) (Global.sequence_heap_ g) (Global.delta_entry_map_ g) (Global.delta_ops_ g)
    (Global.txn_ids_ g) max_commit_ts (Global.last_full_ckp_ts_ g) (Global.wal_size_ g).

Definition InitFullCheckpointTs (last_full_ckp_ts : Z) (g : GlobalCatalogDeltaEntry) : GlobalCatalogDeltaEntry :=
  Global.mk (Global.last_sequence_ g) (Global.sequence_heap_ g) (Global.delta_entry_map_ g) (Global.delta_ops_ g)
    (Global.txn_ids_ g) (Global.max_commit_ts_ g) last_full_ckp_ts (Global.wal_size_ g).

Definition GetCheckpointState (g : GlobalCatalogDeltaEntry) : Z * Z := (Global.max_commit_ts_ g, Global.wal_size_ g).

Definition OpSize (g : GlobalCatalogDeltaEntry) : Z := zlen (Global.delta_ops_ g).

(** ** Adding entries *)

(** An operation that makes a segment deprecated counts as its deletion. *)
Definition deprecated_is_delete (new_op : CatalogDeltaOperation) : CatalogDeltaOperation :=
  match body_ new_op with
  | AddSegmentEntryOp (Enumerator Status.kDeprecated) _ _ _ _ _ _ _ _ _ => set_merge_flag_ (Enumerator Merge.kDelete) new_op
  | _ => new_op
  end.

(** One iteration of the loop of [AddDeltaEntryInner]. *)
Definition add_op (last_full_ckp_ts : Z) (delta_ops : DeltaOps) (new_op : CatalogDeltaOperation) : result DeltaOps :=
  let new_op := deprecated_is_delete new_op in
  let encode := encode_ new_op in
  if bool_decide (encode = []) then Err UnrecoverableError
  else
    let '(found, delta_ops) :=
      match map_find encode delta_ops with
      | Some op => if commit_ts_ op <=? last_full_ckp_ts then (None, map_erase encode delta_ops) else (Some op, delta_ops)
      | None => (None, delta_ops)
      end in
    match found with
    | Some op =>
        let? prune_flag := ToPrune (Some (merge_flag_ op)) (merge_flag_ new_op) in
        match prune_flag with
        | Prune.kPrune => PruneOpWithSamePrefix encode (map_erase encode delta_ops)
        | _ =>
            let? delta_ops :=
              match prune_flag with
              | Prune.kPruneSub => PruneOpWithSamePrefix encode delta_ops
              | _ => Ok delta_ops
              end in
            let? merged := Op_Merge op new_op in
            Ok (map_assign encode merged delta_ops)
        end
    | None =>
        let? prune_flag := ToPrune None (merge_flag_ new_op) in
        let delta_ops := map_assign encode new_op delta_ops in
        match prune_flag with
        | Prune.kPruneSub => PruneOpWithSamePrefix encode delta_ops
        | _ => Ok delta_ops
        end
    end.

Definition AddDeltaEntryInner (g : GlobalCatalogDeltaEntry) (delta_entry : CatalogDeltaEntry) : result GlobalCatalogDeltaEntry :=
  let max_commit_ts := max_commit_ts_ delta_entry in
  if max_commit_ts =? UNCOMMIT_TS then Err UnrecoverableError
  else if max_commit_ts <? Global.max_commit_ts_ g then Err UnrecoverableError
  else
    let? delta_ops := res_fold (add_op (Global.last_full_ckp_ts_ g)) (Global.delta_ops_ g) (operations_ delta_entry) in
    Ok (Global.mk (Global.last_sequence_ g) (Global.sequence_heap_ g) (Global.delta_entry_map_ g) delta_ops
          (Global.txn_ids_ g ∪ list_to_set (txn_ids_ delta_entry)) max_commit_ts (Global.last_full_ckp_ts_ g)
          (Global.wal_size_ g)).

Definition ReplayDeltaEntry (g : GlobalCatalogDeltaEntry) (delta_entry : CatalogDeltaEntry) : result GlobalCatalogDeltaEntry :=
  AddDeltaEntryInner g delta_entry.

(** *** The reorder buffer *)

Definition set_wal_size_ (n : Z) (g : GlobalCatalogDeltaEntry) : GlobalCatalogDeltaEntry :=
  Global.mk (Global.last_sequence_ g) (Global.sequence_heap_ g) (Global.delta_entry_map_ g) (Global.delta_ops_ g)
    (Global.txn_ids_ g) (Global.max_commit_ts_ g) (Global.last_full_ckp_ts_ g) n.

Definition set_buffer (last : Z) (heap : list Z) (entries : gmap Z CatalogDeltaEntry)
    (g : GlobalCatalogDeltaEntry) : GlobalCatalogDeltaEntry :=
  Global.mk last heap entries (Global.delta_ops_ g) (Global.txn_ids_ g) (Global.max_commit_ts_ g)
    (Global.last_full_ckp_ts_ g) (Global.wal_size_ g).

Fixpoint heap_push (n : Z) (heap : list Z) : list Z :=
  match heap with
  | [] => [n]
  | m :: heap' => if n <=? m then n :: heap else m :: heap_push n heap'
  end.

(** The [do] loop of [AddDeltaEntry]; every further round pops the heap. *)
Fixpoint deliver (heap : list Z) (delta_entry : CatalogDeltaEntry) (wal_size : Z) (g : GlobalCatalogDeltaEntry)
    : result GlobalCatalogDeltaEntry :=
  let g := set_wal_size_ (Z.max (Global.wal_size_ g) wal_size) g in
  let? g := AddDeltaEntryInner g delta_entry in
  let last := cast u64 (Global.last_sequence_ g + 1) in
  match heap with
  | top :: heap' =>
      if top =? cast u64 (last + 1) then
        match Global.delta_entry_map_ g !! top with
        | None => Err UnrecoverableError
        | Some delta_entry' =>
            deliver heap' delta_entry' wal_size (set_buffer last heap' (delete top (Global.delta_entry_map_ g)) g)
        end
      else Ok (set_buffer last heap (Global.delta_entry_map_ g) g)
  | [] => Ok (set_buffer last heap (Global.delta_entry_map_ g) g)
  end.

Definition AddDeltaEntry (g : GlobalCatalogDeltaEntry) (delta_entry : CatalogDeltaEntry) (wal_size : Z)
    : result GlobalCatalogDeltaEntry :=
  let entry_sequence := sequence_ delta_entry in
  if negb (entry_sequence =? cast u64 (Global.last_sequence_ g + 1)) then
    let entries := Global.delta_entry_map_ g in
    Ok (set_buffer (Global.last_sequence_ g) (heap_push entry_sequence (Global.sequence_heap_ g))
          (match entries !! entry_sequence with Some _ => entries | None => <[entry_sequence := delta_entry]> entries end) g)
  else deliver (Global.sequence_heap_ g) delta_entry wal_size g.

(** ** Taking the operations out *)

Definition type_le (a b : CatalogDeltaOperation) : Prop :=
  DeltaOp.CatalogDeltaOpType_val (GetType a) ≤ DeltaOp.CatalogDeltaOpType_val (GetType b).

#[export] Instance type_le_dec : RelDecision type_le.
Proof. intros a b. unfold type_le. apply _. Defined.

(** [std::sort] by type: some permutation in which the types do not decrease; operations of one
    type may come in any order. *)
Class TypeSort := {
  sort_by_type : list CatalogDeltaOperation → list CatalogDeltaOperation;
  sort_by_type_perm l : sort_by_type l ≡ₚ l;
  sort_by_type_sorted l : StronglySorted type_le (sort_by_type l);
}.

Section Pick.
Context `{Sort : !TypeSort}.

Definition PickFlushEntry (g : GlobalCatalogDeltaEntry) (max_commit_ts : Z) : CatalogDeltaEntry * GlobalCatalogDeltaEntry :=
  let delta_ops := map snd (Global.delta_ops_ g) in
  let fresh := filter (fun op => ¬ commit_ts_ op ≤ Global.last_full_ckp_ts_ g) delta_ops in
  (mkCatalogDeltaEntry (elements (Global.txn_ids_ g)) max_commit_ts 0 (sort_by_type fresh),
   Global.mk (Global.last_sequence_ g) (Global.sequence_heap_ g) (Global.delta_entry_map_ g) [] ∅
     (Global.max_commit_ts_ g) (Global.last_full_ckp_ts_ g) (Global.wal_size_ g)).
End Pick.

(** ** Lemmas: pruning *)

Lemma mismatch_spec e k :
  ¬ key_lt k e →
  (e `prefix_of` k ∧ ∃ t, k = e ++ t ∧ mismatch e k = Ok ([], t)) ∨
  (¬ e `prefix_of` k ∧ key_lt e k ∧ ∃ c e' t, mismatch e k = Ok (c :: e', t)).
Proof.
  revert k. induction e as [|x e IH]; intros k Hlt.
  { left. split; [apply prefix_nil|]. by exists k. }
  destruct k as [|y k]; [done|]. rewrite key_lt_cons in Hlt. simpl. destruct (Z.eqb_spec x y) as [->|Hne].
  - destruct (IH k) as [(Hp & t & -> & ->)|(Hn & Hlt' & c & e' & t & ->)]; [tauto|left|right].
    + split; [by apply prefix_cons|]. by exists t.
    + split; [intros Hp; by apply prefix_cons_inv_2 in Hp|]. split; [apply key_lt_cons; by right|]. by exists c, e', t.
  - right. split; [intros Hp; by apply prefix_cons_inv_1 in Hp|]. split; [apply key_lt_cons; left; lia|].
    by exists x, e, (y :: k).
Qed.

(** A key below [e] in the hierarchy. *)
Definition extends (e k : bytes) : Prop := (e ++ [delimiter]) `prefix_of` k.

#[export] Instance extends_dec : RelDecision extends.
Proof. intros e k. unfold extends. apply _. Defined.

Lemma extends_prefix e k : extends e k → e `prefix_of` k.
Proof. intros [t Ht]. exists (delimiter :: t). by rewrite Ht, <- app_assoc. Qed.

Lemma prune_loop_filter e iter :
  map_sorted iter → Forall (fun kv => ¬ key_lt kv.1 e) iter →
  prune_loop e iter = Ok (filter (fun kv => ¬ extends e kv.1) iter).
Proof.
  intros Hs. induction Hs as [|[k op] iter Hs IH Hall]; intros Hge; [done|]. inv Hge. cbn [prune_loop].
  destruct (mismatch_spec e k) as [(Hp & t & -> & ->)|(Hn & Hlt & c & e' & t & ->)]; [done|..]; cbn [res_bind].
  - rewrite IH by done. cbn [res_bind]. rewrite filter_cons.
    assert (Hx : extends e (e ++ t) ↔ ∃ t', t = delimiter :: t').
    { unfold extends. simpl. split.
      - intros [u Hu]. exists u. rewrite <- app_assoc in Hu. by apply app_inv_head in Hu.
      - intros [u ->]. exists u. by rewrite <- app_assoc. }
    destruct t as [|c t].
    + rewrite decide_True; [done|]. rewrite Hx. by intros [??].
    + destruct (Z.eqb_spec c delimiter) as [->|Hc]; simpl.
      * rewrite decide_False; [done|]. intros H. apply H, Hx. by exists t.
      * rewrite decide_True; [done|]. rewrite Hx. intros [? [=]]. done.
  - f_equal. symmetry. apply filter_all. apply Forall_cons. split.
    + intros He. by apply extends_prefix in He.
    + eapply Forall_impl; [exact Hall|]. intros [k' op'] Hk He. apply extends_prefix in He. simpl in *.
      exact (prefix_range e k k' Hlt Hn Hk He).
Qed.

Lemma find_pruned e (m : DeltaOps) k :
  map_find k (filter (fun kv => ¬ extends e kv.1) m) = if decide (extends e k) then None else map_find k m.
Proof.
  transitivity (if decide (¬ extends e k) then map_find k m else None).
  - exact (@map_find_filter _ (fun k => ¬ extends e k) _ m k).
  - destruct (decide (extends e k)); [rewrite decide_False by tauto|rewrite decide_True]; done.
Qed.

Lemma prune_filter e m :
  map_sorted m → PruneOpWithSamePrefix e m = Ok (filter (fun kv => ¬ extends e kv.1) m).
Proof.
  intros Hs. unfold PruneOpWithSamePrefix. destruct (lower_bound e m) as [before iter] eqn:Hb.
  destruct (lower_bound_split _ _ _ _ Hs Hb) as (-> & Hlt & Hge & Hs').
  rewrite prune_loop_filter by done. cbn [res_bind]. rewrite filter_app. do 2 f_equal. symmetry.
  apply filter_all. eapply Forall_impl; [done|]. intros kv Hk He. apply extends_prefix in He.
  by apply prefix_not_above in He.
Qed.

(** ** Lemmas: the reorder buffer *)

Lemma heap_push_elem n heap x : x ∈ heap_push n heap ↔ x = n ∨ x ∈ heap.
Proof. induction heap as [|m heap IH]; simpl; [set_solver|]. case_match; set_solver. Qed.

Lemma heap_push_sorted n heap :
  n ∉ heap → StronglySorted Z.lt heap → StronglySorted Z.lt (heap_push n heap).
Proof.
  intros Hn Hs. induction Hs as [|m heap Hs IH Hall]; simpl; [by repeat constructor|].
  apply not_elem_of_cons in Hn as [Hnm Hn]. destruct (Z.leb_spec n m).
  - constructor; [by constructor|]. constructor; [lia|]. eapply Forall_impl; [exact Hall|]. simpl. lia.
  - constructor; [by apply IH|]. apply Forall_forall. intros x [->|Hx]%heap_push_elem; [lia|].
    rewrite Forall_forall in Hall. by apply Hall.
Qed.

(** [AddDeltaEntryInner] does not look at the buffer or the size of the log. *)
Lemma Inner_set_buffer l h em w g e :
  AddDeltaEntryInner (set_wal_size_ w (set_buffer l h em g)) e
  = let? g' := AddDeltaEntryInner g e in Ok (set_wal_size_ w (set_buffer l h em g')).
Proof.
  unfold AddDeltaEntryInner. simpl. repeat case_match; try done. by destruct (res_fold _ _ _).
Qed.

Section Reorder.
Context (last0 : Z) (ordered : list CatalogDeltaEntry) (g0 : GlobalCatalogDeltaEntry).
Hypothesis Hlast : 0 ≤ last0 ∧ last0 + zlen ordered + 1 < 2 ^ 64.
Hypothesis Hseq : ∀ i e, ordered !! i = Some e → sequence_ e = last0 + 1 + Z.of_nat i.

(** The heap and the map hold the entries that arrived ahead of [ordered !! k]. *)
Definition buffered (k : nat) (heap : list Z) (entries : gmap Z CatalogDeltaEntry) : Prop :=
  StronglySorted Z.lt heap ∧
  (∀ s, s ∈ heap → ∃ i e, (k < i)%nat ∧ ordered !! i = Some e ∧ s = last0 + 1 + Z.of_nat i ∧ entries !! s = Some e) ∧
  (∀ s, s ∉ heap → entries !! s = None).

(** [k] entries are merged, the rest of the arrived ones are buffered. *)
Definition delivered (fed : list CatalogDeltaEntry) (k : nat) (g : GlobalCatalogDeltaEntry) : Prop :=
  ∃ gk w heap entries,
    (k ≤ length ordered)%nat ∧ res_fold AddDeltaEntryInner g0 (take k ordered) = Ok gk ∧
    g = set_wal_size_ w (set_buffer (last0 + Z.of_nat k) heap entries gk) ∧ buffered k heap entries ∧
    ∀ i e, ordered !! i = Some e → (e ∈ fed ↔ (i < k)%nat ∨ last0 + 1 + Z.of_nat i ∈ heap).

Lemma seq_cast k : (k ≤ length ordered)%nat → cast u64 (last0 + Z.of_nat k + 1) = last0 + Z.of_nat k + 1.
Proof. intros Hk. apply cast_id. unfold zlen in Hlast. change (2 ^ 64) with 18446744073709551616 in Hlast. solve_range. Qed.

Lemma ordered_inj i j e : ordered !! i = Some e → ordered !! j = Some e → i = j.
Proof. intros Hi Hj. apply Hseq in Hi, Hj. lia. Qed.

(** The prefix of [ordered] one entry longer. *)
Lemma fold_next k e gk :
  ordered !! k = Some e → res_fold AddDeltaEntryInner g0 (take k ordered) = Ok gk →
  res_fold AddDeltaEntryInner g0 (take (S k) ordered) = AddDeltaEntryInner gk e.
Proof.
  intros He Hk. rewrite (take_S_r _ _ _ He), res_fold_app, Hk. simpl. by destruct (AddDeltaEntryInner gk e).
Qed.

Lemma fold_prefix_err k err :
  res_fold AddDeltaEntryInner g0 (take k ordered) = Err err → res_fold AddDeltaEntryInner g0 ordered = Err err.
Proof. intros H. rewrite <- (take_drop k ordered), res_fold_app, H. done. Qed.

Definition outcome (fed : list CatalogDeltaEntry) (r : result GlobalCatalogDeltaEntry) : Prop :=
  match r with
  | Ok g => ∃ k, delivered fed k g
  | Err err => res_fold AddDeltaEntryInner g0 ordered = Err err
  end.

(** When the next entry is not at the top of the heap, it is not in the heap. *)
Lemma buffered_gap k heap entries :
  buffered k heap entries → (∀ top rest, heap = top :: rest → top ≠ last0 + 1 + Z.of_nat (S k)) →
  buffered (S k) heap entries.
Proof.
  intros (Hs & Hin & Hout) Hgap. split; [done|]. split; [|done].
  destruct heap as [|top heap]; [intros s H; by inv H|]. apply StronglySorted_inv in Hs as [_ Hall].
  assert (Htop : last0 + 1 + Z.of_nat (S k) < top).
  { specialize (Hgap top heap eq_refl). destruct (Hin top) as (i & e & Hi & _ & -> & _); [set_solver|]. lia. }
  intros s Hel. destruct (Hin s Hel) as (i & e & Hi & Hoi & -> & Hent). exists i, e. split; [|done].
  apply elem_of_cons in Hel as [Hel|Hel]; [lia|]. rewrite Forall_forall in Hall. specialize (Hall _ Hel). lia.
Qed.

(** Popping the next entry. *)
Lemma buffered_pop k top heap entries :
  buffered k (top :: heap) entries → top = last0 + 1 + Z.of_nat (S k) →
  ∃ e, ordered !! (S k) = Some e ∧ entries !! top = Some e ∧ buffered (S k) heap (delete top entries).
Proof.
  intros (Hs & Hin & Hout) Htop. apply StronglySorted_inv in Hs as [Hs' Hall]. rewrite Forall_forall in Hall.
  destruct (Hin top) as (i & e & Hi & Hoi & Ht & Hent); [set_solver|].
  assert (i = S k) as -> by lia. exists e. split; [done|]. split; [done|]. split; [done|]. split.
  - intros s Hel. destruct (Hin s) as (j & e' & Hj & Hoj & -> & Hent'); [set_solver|]. specialize (Hall _ Hel).
    exists j, e'. split; [lia|]. split; [done|]. split; [done|]. rewrite lookup_delete_ne by lia. done.
  - intros s Hel. destruct (decide (s = top)) as [->|Hne]; [apply lookup_delete_eq|].
    rewrite lookup_delete_ne by done. apply Hout. set_solver.
Qed.

Lemma deliver_outcome heap : ∀ k e gk w w' entries last_heap fed,
  ordered !! k = Some e → res_fold AddDeltaEntryInner g0 (take k ordered) = Ok gk → buffered k heap entries →
  (∀ i e, ordered !! i = Some e → (e ∈ fed ↔ (i ≤ k)%nat ∨ last0 + 1 + Z.of_nat i ∈ heap)) →
  outcome fed (deliver heap e w' (set_wal_size_ w (set_buffer (last0 + Z.of_nat k) last_heap entries gk))).
Proof.
  induction heap as [|top heap IH]; intros k e gk w w' entries last_heap fed He Hk Hb Hfed;
    pose proof (lookup_lt_Some _ _ _ He) as Hlt; cbn [deliver].
  all: change (set_wal_size_ _ (set_wal_size_ w (set_buffer ?l ?h ?m gk)))
         with (set_wal_size_ (Z.max w w') (set_buffer l h m gk)).
  all: rewrite Inner_set_buffer; pose proof (fold_next k e gk He Hk) as Hn;
    destruct (AddDeltaEntryInner gk e) as [g1|err]; cbn [res_bind]; [|by apply (fold_prefix_err (S k))].
  all: change (Global.last_sequence_ _) with (last0 + Z.of_nat k);
    change (Global.delta_entry_map_ _) with entries; rewrite !(seq_cast k) by lia.
  all: replace (last0 + Z.of_nat k + 1) with (last0 + Z.of_nat (S k)) by lia.
  - exists (S k), g1, (Z.max w w'), [], entries. split; [lia|]. split; [done|]. split; [done|].
    split; [by apply buffered_gap|]. intros i e' Hi. rewrite (Hfed i e' Hi), Nat.lt_succ_r. done.
  - rewrite (seq_cast (S k)) by lia.
    destruct (Z.eqb_spec top (last0 + Z.of_nat (S k) + 1)) as [Htop|Htop].
    + destruct (buffered_pop k top heap entries Hb ltac:(lia)) as (e' & He' & -> & Hb').
      apply (IH (S k) e' g1 (Z.max w w') w' (delete top entries) heap fed He' Hn Hb').
      intros i e1 Hi. rewrite (Hfed i e1 Hi), elem_of_cons. rewrite Htop, Nat.le_succ_r.
      assert (last0 + 1 + Z.of_nat i = last0 + Z.of_nat (S k) + 1 ↔ i = S k) by lia. tauto.
    + exists (S k), g1, (Z.max w w'), (top :: heap), entries. split; [lia|]. split; [done|]. split; [done|].
      split; [apply buffered_gap; [done|]; intros ? ? [= <- <-]; lia|].
      intros i e' Hi. rewrite (Hfed i e' Hi), Nat.lt_succ_r. done.
Qed.

Lemma AddDeltaEntry_outcome fed k g i e w :
  delivered fed k g → ordered !! i = Some e → e ∉ fed → outcome (fed ++ [e]) (AddDeltaEntry g e w).
Proof.
  intros (gk & w0 & heap & entries & Hk & Hf & -> & Hb & Hfed) He Hnew. unfold AddDeltaEntry.
  change (Global.last_sequence_ _) with (last0 + Z.of_nat k). change (Global.sequence_heap_ _) with heap.
  change (Global.delta_entry_map_ _) with entries.
  rewrite (Hseq i e He), (seq_cast k) by done.
  assert (Hi : (k ≤ i)%nat ∧ last0 + 1 + Z.of_nat i ∉ heap).
  { split; [apply Nat.nlt_ge|]; intros ?; apply Hnew, (Hfed i e He); [by left|by right]. }
  destruct Hi as [Hki Hheap].
  assert (Hnew' : ∀ j e', ordered !! j = Some e' → e' ∈ fed ++ [e] ↔ e' ∈ fed ∨ j = i).
  { intros j e' Hj. rewrite elem_of_app, list_elem_of_singleton. split; [|naive_solver].
    intros [?| ->]; [by left|right]. by eapply ordered_inj. }
  destruct (Z.eqb_spec (last0 + 1 + Z.of_nat i) (last0 + Z.of_nat k + 1)) as [Heq|Hne]; cbn [negb].
  - assert (i = k) as -> by lia. apply (deliver_outcome heap k e gk w0 w entries heap (fed ++ [e])); [done..|].
    intros j e' Hj. rewrite (Hnew' j e' Hj), (Hfed j e' Hj). rewrite Nat.le_lteq. tauto.
  - destruct Hb as (Hs & Hin & Hout). rewrite (Hout _ Hheap).
    exists k, gk, w0, (heap_push (last0 + 1 + Z.of_nat i) heap), (<[last0 + 1 + Z.of_nat i := e]> entries).
    split; [done|]. split; [done|]. split; [done|]. split; [split; [|split]|].
    + by apply heap_push_sorted.
    + intros s [->|Hel]%heap_push_elem.
      * exists i, e. split; [lia|]. split; [done|]. split; [done|]. apply lookup_insert_eq.
      * destruct (Hin s Hel) as (j & e' & Hj & Hoj & Hs' & Hent). exists j, e'. split; [done|]. split; [done|].
        split; [done|]. rewrite lookup_insert_ne; [done|]. intros <-. by apply Hheap.
    + intros s Hs'. rewrite heap_push_elem in Hs'. rewrite lookup_insert_ne by naive_solver. apply Hout. naive_solver.
    + intros j e' Hj. rewrite (Hnew' j e' Hj), (Hfed j e' Hj), heap_push_elem.
      assert (last0 + 1 + Z.of_nat j = last0 + 1 + Z.of_nat i ↔ j = i) by lia. tauto.
Qed.

Definition add_arrival (g : GlobalCatalogDeltaEntry) (a : CatalogDeltaEntry * Z) : result GlobalCatalogDeltaEntry :=
  AddDeltaEntry g a.1 a.2.

Lemma arrivals_outcome arrivals : ∀ fed k g,
  delivered fed k g → NoDup (fed ++ map fst arrivals) → (∀ a, a ∈ arrivals → a.1 ∈ ordered) →
  outcome (fed ++ map fst arrivals) (res_fold add_arrival g arrivals).
Proof.
  induction arrivals as [|[e w] arrivals IH]; intros fed k g Hd Hnd Hin; simpl.
  { rewrite app_nil_r. by exists k. }
  assert (He : e ∈ ordered) by (apply (Hin (e, w)); set_solver).
  apply list_elem_of_lookup in He as [i He]. simpl in Hnd.
  pose proof (AddDeltaEntry_outcome fed k g i e w Hd He) as Hstep. unfold add_arrival at 1. simpl.
  destruct (AddDeltaEntry g e w) as [g'|err]; simpl.
  - destruct Hstep as [k' Hk'].
    { intros Hf. apply NoDup_app in Hnd as (_ & Hnd & _). apply (Hnd e Hf). set_solver. }
    rewrite (cons_middle e fed). rewrite (app_assoc fed [e]). apply (IH (fed ++ [e]) k' g' Hk'); [by rewrite <- app_assoc|].
    intros a Ha. apply Hin. set_solver.
  - apply Hstep. intros Hf. apply NoDup_app in Hnd as (_ & Hnd & _). apply (Hnd e Hf). set_solver.
Qed.
End Reorder.

(** Whatever the order of arrival, the outcome is that of merging in sequence. *)
Lemma arrivals_in_sequence g ordered arrivals :
  0 ≤ Global.last_sequence_ g → Global.last_sequence_ g + zlen ordered + 1 < 2 ^ 64 →
  Global.sequence_heap_ g = [] → Global.delta_entry_map_ g = ∅ →
  (∀ i e, ordered !! i = Some e → sequence_ e = Global.last_sequence_ g + 1 + Z.of_nat i) →
  map fst arrivals ≡ₚ ordered →
  match res_fold AddDeltaEntryInner g ordered with
  | Ok g' => ∃ wal_size,
      res_fold add_arrival g arrivals
      = Ok (set_wal_size_ wal_size (set_buffer (Global.last_sequence_ g + zlen ordered) [] ∅ g'))
  | Err err => res_fold add_arrival g arrivals = Err err
  end.
Proof.
  intros Hl Hn Hh Hm Hseq Hperm. set (last0 := Global.last_sequence_ g) in *.
  assert (Hd : delivered last0 ordered g [] 0 g).
  { exists g, (Global.wal_size_ g), [], ∅. split; [lia|]. split; [done|].
    split; [destruct g; simpl in *; subst; unfold last0; simpl; unfold set_buffer, set_wal_size_; simpl; f_equal; lia|].
    split; [split; [constructor|]; split; [intros s H; by inv H|done]|].
    intros i e _. split; [intros H; by inv H|]. intros [?|H]; [lia|by inv H]. }
  assert (Hnd : NoDup ordered).
  { apply NoDup_alt. intros i j e Hi Hj. apply Hseq in Hi, Hj. lia. }
  pose proof (arrivals_outcome last0 ordered g (conj Hl Hn) Hseq arrivals [] 0 g Hd) as Hout. simpl in Hout.
  specialize (Hout ltac:(by rewrite Hperm)).
  assert (Hin : ∀ a, a ∈ arrivals → a.1 ∈ ordered).
  { intros a Ha. rewrite <- Hperm. apply list_elem_of_fmap. by exists a. }
  specialize (Hout Hin). destruct (res_fold add_arrival g arrivals) as [g'|err]; simpl in Hout; [|by rewrite Hout].
  destruct Hout as (k & gk & w & heap & entries & Hk & Hf & -> & (Hs & Hheap & Hmap) & Hfed).
  assert (k = length ordered) as ->.
  { destruct (decide (k = length ordered)); [done|exfalso].
    destruct (lookup_lt_is_Some_2 ordered k ltac:(lia)) as [e He].
    destruct (proj1 (Hfed k e He)) as [?|Hk']; [|lia|].
    - rewrite Hperm. by eapply list_elem_of_lookup_2.
    - apply Hheap in Hk' as (i & e' & Hi & _ & ? & _). lia. }
  assert (heap = []) as ->.
  { destruct heap as [|s heap]; [done|]. destruct (Hheap s) as (i & e & Hi & He & _); [set_solver|].
    apply lookup_lt_Some in He. lia. }
  assert (entries = ∅) as ->.
  { apply map_eq. intros s. rewrite lookup_empty. apply Hmap. apply not_elem_of_nil. }
  rewrite take_ge in Hf by lia. rewrite Hf. by exists w.
Qed.

(** ** Properties *)

(** C20. Delta entries are merged in commit order whatever order they arrive in: when the entries of
    the transactions [last_sequence_ + 1], [last_sequence_ + 2], ... reach [AddDeltaEntry] in any
    order, the outcome is that of merging them one after the other in sequence, the buffer is empty
    at the end, and an entry that cannot be merged raises the same error. *)
Theorem delta_entries_in_sequence g ordered arrivals :
  0 ≤ Global.last_sequence_ g → Global.last_sequence_ g + zlen ordered + 1 < 2 ^ 64 →
  Global.sequence_heap_ g = [] → Global.delta_entry_map_ g = ∅ →
  (∀ i e, ordered !! i = Some e → sequence_ e = Global.last_sequence_ g + 1 + Z.of_nat i) →
  map fst arrivals ≡ₚ ordered →
  match res_fold AddDeltaEntryInner g ordered with
  | Ok g' => ∃ wal_size,
      res_fold add_arrival g arrivals
      = Ok (set_wal_size_ wal_size (set_buffer (Global.last_sequence_ g + zlen ordered) [] ∅ g'))
  | Err err => res_fold add_arrival g arrivals = Err err
  end.
Proof. apply arrivals_in_sequence. Qed.

(** Pruning is exact: on the ordered map, the walk from [lower_bound] up to the first key without
    the prefix never reads past a key, and removes the operations whose key extends the given one
    by #, and nothing else. *)
Theorem prune_exact encode delta_ops :
  map_sorted delta_ops →
  ∃ delta_ops', PruneOpWithSamePrefix encode delta_ops = Ok delta_ops' ∧ map_sorted delta_ops' ∧
    ∀ k, map_find k delta_ops' = if decide ((encode ++ [delimiter]) `prefix_of` k) then None else map_find k delta_ops.
Proof.
  intros Hs. exists (filter (fun kv => ¬ extends encode kv.1) delta_ops). split; [by apply prune_filter|].
  split; [by apply map_filter_sorted|]. intros k. rewrite find_pruned. done.
Qed.

(** The planner does not validate index names, and a name that is a number collides: the key of
    the index equals the key of the segment with that number, and adding the operations that create
    both raises an unrecoverable error. *)
Theorem index_named_like_segment full table_encode id o1 o2 :
  encode_ o1 = SegmentEntry_EncodeIndex id table_encode → GetType o1 = DeltaOp.ADD_SEGMENT_ENTRY →
  deprecated_is_delete o1 = o1 → merge_flag_ o1 = Enumerator Merge.kNew → full < commit_ts_ o1 →
  encode_ o2 = TableIndexEntry_EncodeIndex (print_u64 id) table_encode →
  GetType o2 = DeltaOp.ADD_TABLE_INDEX_ENTRY → merge_flag_ o2 = Enumerator Merge.kNew →
  res_fold (add_op full) [] [o1; o2] = Err UnrecoverableError.
Proof.
  intros He1 Ht1 Hd1 Hf1 Hts He2 Ht2 Hf2.
  assert (Hd2 : deprecated_is_delete o2 = o2).
  { unfold deprecated_is_delete, GetType in *. by destruct (body_ o2). }
  assert (Hne : ∀ name, encode_child table_encode name ≠ []).
  { intros name H. by apply app_nil in H as [_ ?]. }
  unfold SegmentEntry_EncodeIndex in He1. unfold TableIndexEntry_EncodeIndex in He2.
  cbn [res_fold]. unfold add_op at 1. rewrite Hd1, He1, Hf1, bool_decide_eq_false_2 by apply Hne. cbn [map_find ToPrune res_bind map_assign].
  unfold add_op. rewrite Hd2, He2, Hf2, bool_decide_eq_false_2 by apply Hne. cbn [map_find].
  rewrite bool_decide_eq_true_2 by done. rewrite (proj2 (Z.leb_gt _ _)) by done. rewrite Hf1. cbn [ToPrune res_bind].
  unfold Op_Merge. rewrite Ht1, Ht2. done.
Qed.

(** ** Witnesses *)

Module SampleOps.
Definition segment_op (ts id : Z) : CatalogDeltaOperation :=
  mkOp ts ts ts (Enumerator Merge.kNew) (SegmentEntry_EncodeIndex id (str "#db#t"))
    (AddSegmentEntryOp (Enumerator Status.kUnsealed) 1 0 0 8192 1 9 18446744073709551615 0 []).

Definition index_op (ts : Z) (name : bytes) : CatalogDeltaOperation :=
  mkOp ts ts ts (Enumerator Merge.kNew) (TableIndexEntry_EncodeIndex name (str "#db#t")) (AddTableIndexEntryOp None None).

Definition entry (seq : Z) (op : CatalogDeltaOperation) : CatalogDeltaEntry := mkCatalogDeltaEntry [seq] (10 + seq) seq [op].
End SampleOps.

Example index_named_like_segment_witness :
  res_fold (add_op 0) [] [SampleOps.segment_op 5 0; SampleOps.index_op 6 (str "0")] = Err UnrecoverableError.
Proof. apply (index_named_like_segment 0 (str "#db#t") 0); by vm_compute. Defined.

Example delta_entries_in_sequence_witness :
  ∃ g wal_size,
    res_fold add_arrival Global.new
      [(SampleOps.entry 3 (SampleOps.segment_op 13 2), 300); (SampleOps.entry 1 (SampleOps.segment_op 11 0), 100);
       (SampleOps.entry 2 (SampleOps.segment_op 12 1), 200)]
    = Ok (set_wal_size_ wal_size (set_buffer 3 [] ∅ g)) ∧
    map fst (Global.delta_ops_ g) = [str "#db#t#0"; str "#db#t#1"; str "#db#t#2"].
Proof.
  pose proof (delta_entries_in_sequence Global.new
    [SampleOps.entry 1 (SampleOps.segment_op 11 0); SampleOps.entry 2 (SampleOps.segment_op 12 1);
     SampleOps.entry 3 (SampleOps.segment_op 13 2)]
    [(SampleOps.entry 3 (SampleOps.segment_op 13 2), 300); (SampleOps.entry 1 (SampleOps.segment_op 11 0), 100);
     (SampleOps.entry 2 (SampleOps.segment_op 12 1), 200)]) as H.
  destruct (res_fold AddDeltaEntryInner Global.new _) as [g|err] eqn:Hg; [|by vm_compute in Hg].
  destruct H as [wal_size H]; [done|by vm_compute|done|done| | |].
  - intros [|[|[|i]]] e He; simpl in He; [injection He as <-; done..|done].
  - simpl. apply (Permutation_cons_append [_; _]).
  - exists g, wal_size. split; [exact H|]. vm_compute in Hg. injection Hg as <-. by vm_compute.
Defined.

Example prune_exact_witness :
  PruneOpWithSamePrefix (str "#db#t")
    [(str "#db#t", SampleOps.index_op 1 []); (str "#db#t#0", SampleOps.segment_op 1 0); (str "#db#t2", SampleOps.index_op 1 [])]
  = Ok [(str "#db#t", SampleOps.index_op 1 []); (str "#db#t2", SampleOps.index_op 1 [])].
Proof.
  destruct (prune_exact (str "#db#t")
    [(str "#db#t", SampleOps.index_op 1 []); (str "#db#t#0", SampleOps.segment_op 1 0); (str "#db#t2", SampleOps.index_op 1 [])])
    as (m & Hm & _); [repeat constructor; by vm_compute|].
  rewrite Hm. vm_compute in Hm. injection Hm as <-. by vm_compute.
Defined.
