(* ===== verification/DeltaMerge.v ===== *)
(** * What a delta checkpoint means

    The abstract catalog is a tree of entries, each absent, retired (a deprecated segment or block,
    whose id is not used again) or live with the data of its last operation.  [apply_op] is the
    effect of one delta operation on it.  The theorem of this file is that merging: for every valid
    history of operations, the merged operations that [PickFlushEntry] hands to the checkpoint, read
    from top to bottom by type, turn the catalog of the last full checkpoint into the same live
    catalog as the history itself. *)

From Stdlib Require Import ZArith Lia Sorting.Sorted.
From stdpp Require Import base list numbers gmap strings sets sorting.
From S2P Require Import Prelude Bytes Text DataTypes ConstExpr TableDef IndexDef EntryKey OrdMap CatalogDelta GlobalDelta.
Local Open Scope Z_scope.
Import DeltaOp.

(** ** The tree of entries *)

#[export] Instance EntryPath_eq_dec : EqDecision EntryPath.
Proof. solve_decision. Defined.

Definition path_type (p : EntryPath) : CatalogDeltaOpType :=
  match p with
  | DBPath _ => ADD_DATABASE_ENTRY
  | TablePath _ _ => ADD_TABLE_ENTRY
  | SegmentPath _ _ _ => ADD_SEGMENT_ENTRY
  | BlockPath _ _ _ _ => ADD_BLOCK_ENTRY
  | ColumnPath _ _ _ _ _ => ADD_COLUMN_ENTRY
  | IndexPath _ _ _ => ADD_TABLE_INDEX_ENTRY
  | SegmentIndexPath _ _ _ _ => ADD_SEGMENT_INDEX_ENTRY
  | ChunkPath _ _ _ _ _ => ADD_CHUNK_INDEX_ENTRY
  end.

Definition ancestors (p : EntryPath) : list EntryPath :=
  match p with
  | DBPath db => []
  | TablePath db t => [DBPath db]
  | SegmentPath db t s => [TablePath db t; DBPath db]
  | BlockPath db t s b => [SegmentPath db t s; TablePath db t; DBPath db]
  | ColumnPath db t s b c => [BlockPath db t s b; SegmentPath db t s; TablePath db t; DBPath db]
  | IndexPath db t i => [TablePath db t; DBPath db]
  | SegmentIndexPath db t i s => [IndexPath db t i; TablePath db t; DBPath db]
  | ChunkPath db t i s c => [SegmentIndexPath db t i s; IndexPath db t i; TablePath db t; DBPath db]
  end.

Inductive slot := Absent | Retired | Live (b : OpBody).

Notation AbsCatalog := (EntryPath → slot).

Definition live (s : slot) : option OpBody := match s with Live b => Some b | _ => None end.

(** *** The filter data of segments and blocks *)

Definition filter_data (b : OpBody) : bytes :=
  match b with
  | AddSegmentEntryOp _ _ _ _ _ _ _ _ _ f => f
  | AddBlockEntryOp _ _ _ _ _ _ f => f
  | _ => []
  end.

Definition with_filter_data (f : bytes) (b : OpBody) : OpBody :=
  match b with
  | AddSegmentEntryOp status cols rows actual cap min_ts max_ts first_delete deprecate _ =>
      AddSegmentEntryOp status cols rows actual cap min_ts max_ts first_delete deprecate f
  | AddBlockEntryOp cap rows min_ts max_ts ckp_ts ckp_rows _ => AddBlockEntryOp cap rows min_ts max_ts ckp_ts ckp_rows f
  | _ => b
  end.

Definition first_filter (old new : bytes) : bytes := match old with [] => new | _ => old end.

(** An update replaces everything but filter data that is already there. *)
Definition updated (old : slot) (b : OpBody) : OpBody :=
  match old with
  | Live b0 => with_filter_data (first_filter (filter_data b0) (filter_data b)) b
  | _ => b
  end.

(** *** Operations on the abstract catalog *)

Definition removes (f : cenum MergeFlag) : bool :=
  match f with Enumerator Merge.kDelete | Enumerator Merge.kDeleteAndNew => true | _ => false end.

Definition removed (p : EntryPath) : slot :=
  match p with SegmentPath _ _ _ | BlockPath _ _ _ _ => Retired | _ => Absent end.

Definition apply_op (c : AbsCatalog) (h : EntryPath * CatalogDeltaOperation) : AbsCatalog :=
  let '(p, op) := h in
  let op := deprecated_is_delete op in
  fun x =>
    if decide (x = p) then
      match merge_flag_ op with
      | Enumerator Merge.kNew | Enumerator Merge.kDeleteAndNew => Live (body_ op)
      | Enumerator Merge.kUpdate => Live (updated (c p) (body_ op))
      | Enumerator Merge.kDelete => removed p
      | _ => c p
      end
    else if removes (merge_flag_ op) && bool_decide (p ∈ ancestors x) then Absent
    else c x.

Definition apply_ops (c : AbsCatalog) (l : list (EntryPath * CatalogDeltaOperation)) : AbsCatalog :=
  fold_left apply_op l c.

(** *** Valid histories *)

(** The operation is one on the entry [p]. *)
Definition op_on (p : EntryPath) (op : CatalogDeltaOperation) : Prop :=
  path_wf p ∧ encode_ op = path_encode p ∧ GetType op = path_type p.

(** Entries that operations can delete; columns, segment indexes and chunk indexes go with their parents. *)
Definition deletable (p : EntryPath) : Prop :=
  match p with ColumnPath _ _ _ _ _ | SegmentIndexPath _ _ _ _ | ChunkPath _ _ _ _ _ => False | _ => True end.

#[export] Instance deletable_dec p : Decision (deletable p).
Proof. destruct p; simpl; apply _. Defined.

(** Filter data is written once. *)
Definition filter_once (b : OpBody) (op : CatalogDeltaOperation) : Prop :=
  filter_data b = [] ∨ filter_data (body_ op) = [].

(** Entries that are recreated under their old name; segments and blocks have fresh ids. *)
Definition recreatable (p : EntryPath) : Prop :=
  match p with DBPath _ | TablePath _ _ | IndexPath _ _ _ => True | _ => False end.

(** [updates] are the entries an earlier operation of the history updates.  Operations that delete
    and recreate an entry come from earlier delta checkpoints; they must not follow an update of the
    entry, a case in which the merge goes wrong. *)
Definition valid_op (updates : list EntryPath) (c : AbsCatalog) (p : EntryPath) (op : CatalogDeltaOperation) : Prop :=
  let op := deprecated_is_delete op in
  op_on p op ∧
  match merge_flag_ op with
  | Enumerator Merge.kNew => c p = Absent
  | Enumerator Merge.kUpdate => ∃ b, c p = Live b ∧ filter_once b op
  | Enumerator Merge.kDelete => ∃ b, c p = Live b ∧ filter_once b op ∧ deletable p
  | Enumerator Merge.kDeleteAndNew => ∃ b, c p = Live b ∧ recreatable p ∧ p ∉ updates
  | _ => False
  end.

Definition next_updates (updates : list EntryPath) (p : EntryPath) (op : CatalogDeltaOperation) : list EntryPath :=
  if bool_decide (merge_flag_ (deprecated_is_delete op) = Enumerator Merge.kUpdate) then p :: updates else updates.

Fixpoint valid_history (updates : list EntryPath) (c : AbsCatalog) (l : list (EntryPath * CatalogDeltaOperation)) : Prop :=
  match l with
  | [] => True
  | (p, op) :: l' => valid_op updates c p op ∧ valid_history (next_updates updates p op) (apply_op c (p, op)) l'
  end.

(** Nothing lies below an entry that is not there. *)
Definition closed (c : AbsCatalog) : Prop := ∀ a x, a ∈ ancestors x → c a = Absent → c x = Absent.

(** ** Lemmas: the tree *)

Lemma below_ancestors a x : below a x ↔ a ∈ ancestors x.
Proof.
  split.
  - induction 1 as [x Hx|q x Hx _ IH]; destruct x; inv Hx; simpl in *; set_solver.
  - destruct x; simpl; rewrite ?elem_of_cons, ?elem_of_nil; intros H; destruct_or?; subst; try done;
      repeat (first [by apply below_parent|eapply below_step; [reflexivity|]]).
Qed.

Lemma ancestors_wf a x : a ∈ ancestors x → path_wf x → path_wf a.
Proof. destruct x; simpl; rewrite ?elem_of_cons, ?elem_of_nil; intros H ?; destruct_or?; subst; simpl; tauto. Qed.

Lemma ancestors_trans a b x : a ∈ ancestors b → b ∈ ancestors x → a ∈ ancestors x.
Proof.
  intros Ha Hb. destruct x; simpl in *; rewrite ?elem_of_cons, ?elem_of_nil in Hb; destruct_or?; subst;
    simpl in *; rewrite ?elem_of_cons, ?elem_of_nil in *; tauto.
Qed.

Lemma ancestors_irrefl a : a ∉ ancestors a.
Proof. destruct a; simpl; rewrite ?elem_of_cons, ?elem_of_nil; intros H; destruct_or?; done. Qed.

(** The ancestors of an entry form a chain. *)
Lemma ancestors_chain a b x :
  a ∈ ancestors x → b ∈ ancestors x → a = b ∨ a ∈ ancestors b ∨ b ∈ ancestors a.
Proof.
  intros Ha Hb. destruct x; simpl in *; rewrite ?elem_of_cons, ?elem_of_nil in Ha, Hb;
    destruct_or?; subst; simpl; rewrite ?elem_of_cons, ?elem_of_nil; tauto.
Qed.

Lemma ancestors_type a x :
  a ∈ ancestors x → CatalogDeltaOpType_val (path_type a) < CatalogDeltaOpType_val (path_type x).
Proof. destruct x; simpl; rewrite ?elem_of_cons, ?elem_of_nil; intros H; destruct_or?; subst; simpl; lia. Qed.

Lemma encode_inj p q : path_wf p → path_wf q → path_encode p = path_encode q → p = q.
Proof.
  intros Hp Hq. rewrite !path_encode_join. intros H. apply components_inj; [done..|].
  apply join_components_inj; [by apply path_components_ok..|done].
Qed.

Lemma extends_below p q : path_wf p → path_wf q → extends (path_encode p) (path_encode q) ↔ p ∈ ancestors q.
Proof.
  intros Hp Hq. rewrite <- below_ancestors. unfold extends. rewrite !path_encode_join.
  apply join_below; done.
Qed.

(** ** Lemmas: the merged map against the history *)

(** The merged operation on an entry, if any. *)
Definition merged_on (m : DeltaOps) (x : EntryPath) : option CatalogDeltaOperation := map_find (path_encode x) m.

Definition removes_opt (o : option CatalogDeltaOperation) : bool :=
  match o with Some op => removes (merge_flag_ op) | None => false end.

(** The entry a merged operation starts from: the one of the last full checkpoint [c0], or none
    below an entry that the merged operations remove. *)
Definition base (f : EntryPath → option CatalogDeltaOperation) (c0 : AbsCatalog) (x : EntryPath) : slot :=
  if existsb (fun a => removes_opt (f a)) (ancestors x) then Absent else c0 x.

Definition slot_ok (p : EntryPath) (base : slot) (o : option CatalogDeltaOperation) (s : slot) : Prop :=
  match o with
  | None => s = base ∨ (base = Absent ∧ s = Retired)
  | Some op =>
      match merge_flag_ op with
      | Enumerator Merge.kNew => s = Live (body_ op) ∧ base = Absent
      | Enumerator Merge.kUpdate => s = Live (updated base (body_ op))
      | Enumerator Merge.kDelete => s = removed p
      | Enumerator Merge.kDeleteAndNew => s = Live (body_ op)
      | _ => False
      end
  end.

Lemma existsb_ancestors (g : EntryPath → bool) x : existsb g (ancestors x) = true ↔ ∃ a, a ∈ ancestors x ∧ g a = true.
Proof. rewrite existsb_exists. by setoid_rewrite list_elem_of_In. Qed.

Lemma base_ext f f' c0 x :
  (∀ a, a ∈ ancestors x → removes_opt (f' a) = removes_opt (f a)) → base f' c0 x = base f c0 x.
Proof.
  intros Hf. unfold base.
  replace (existsb (fun a => removes_opt (f' a)) (ancestors x)) with (existsb (fun a => removes_opt (f a)) (ancestors x)); [done|].
  apply eq_true_iff_eq. rewrite !existsb_ancestors. split; intros (a & Ha & Hr); exists a; split; try done.
  - by rewrite Hf.
  - by rewrite <- Hf.
Qed.

(** Below a pruned entry: what counts is the operation on it and what lies above. *)
Lemma base_pruned f f' c0 p x :
  p ∈ ancestors x → (∀ a, a ∈ ancestors p → f' a = f a) → closed c0 →
  removes_opt (f' p) = true ∨ base f c0 p = Absent → base f' c0 x = Absent.
Proof.
  intros Hp Habove Hc Hrm. unfold base in *.
  destruct (existsb _ (ancestors x)) eqn:Hx; [done|]. apply not_true_iff_false in Hx. rewrite existsb_ancestors in Hx.
  destruct Hrm as [Hrm|Hrm]; [destruct Hx; by exists p|].
  destruct (existsb (fun a => removes_opt (f a)) (ancestors p)) eqn:Hfp; [|by apply (Hc p)].
  apply existsb_ancestors in Hfp as (a & Ha & Hra). destruct Hx. exists a. rewrite Habove by done.
  split; [by eapply ancestors_trans|done].
Qed.

(** *** Merging two operations on one entry *)

Definition has_filter (p : EntryPath) : Prop :=
  match p with SegmentPath _ _ _ | BlockPath _ _ _ _ => True | _ => False end.

Lemma no_filter p b : body_type b = path_type p → ¬ has_filter p → filter_data b = [] ∧ ∀ s, updated s b = b.
Proof. intros Ht Hn. destruct p, b; simpl in *; try done; split; try done; by intros []. Qed.

Lemma first_filter_assoc f1 f2 f3 : first_filter (first_filter f1 f2) f3 = first_filter f1 (first_filter f2 f3).
Proof. by destruct f1. Qed.

Lemma updated_assoc p s b1 b2 :
  body_type b1 = path_type p → body_type b2 = path_type p →
  updated (Live (updated s b1)) b2 = updated s (updated (Live b1) b2).
Proof.
  intros H1 H2. destruct s as [| |b0]; [done..|].
  destruct b1, b2; simpl in *; try done; try (destruct p; done); by rewrite first_filter_assoc.
Qed.

Lemma filter_once_updated s b op : filter_once (updated s b) op → filter_once b op.
Proof.
  unfold filter_once. intros [H|H]; [left|by right]. destruct s as [| |b0]; [done..|].
  simpl in H. destruct b; simpl in *; try done; by destruct (filter_data b0).
Qed.

Lemma Op_Merge_leaf p this other :
  op_on p this → op_on p other → ¬ deletable p → Op_Merge this other = Ok other.
Proof.
  intros (_ & _ & H1) (_ & _ & H2) Hd. unfold Op_Merge, GetType in *. rewrite H1, H2, bool_decide_eq_true_2 by done.
  simpl. by destruct p, (body_ this); simpl in *.
Qed.

Lemma Op_Merge_deletable p this other flag :
  op_on p this → op_on p other → deletable p → filter_once (body_ this) other →
  NextDeleteFlag (merge_flag_ this) (merge_flag_ other) = Ok flag →
  Op_Merge this other = Ok (set_merge_flag_ flag (set_body_ (updated (Live (body_ this)) (body_ other)) other)).
Proof.
  intros (_ & _ & H1) (_ & _ & H2) Hd Hf Hn. unfold Op_Merge, GetType in *. rewrite H1, H2, bool_decide_eq_true_2 by done.
  simpl. rewrite Hn. cbn [res_bind]. unfold filter_once in Hf.
  destruct p; try done; destruct (body_ this) eqn:E1, (body_ other) eqn:E2; simpl in *; try done.
  all: try (unfold set_merge_flag_, set_body_; simpl; by rewrite E2).
  all: by destruct Hf as [-> | ->]; [|destruct segment_filter_binary_data_ || destruct block_filter_binary_data_].
Qed.

Section Merging.
Context (full : Z) (c0 : AbsCatalog).
Hypothesis Hclosed : closed c0.

(** What holds of every merged operation. *)
Definition op_ok (k : bytes) (o : CatalogDeltaOperation) : Prop :=
  full < commit_ts_ o ∧
  ∃ p, op_on p o ∧ k = path_encode p ∧ deprecated_is_delete o = o ∧ (deletable p ∨ removes (merge_flag_ o) = false).

(** The merged map [m] stands for the changes from [c0] to [c]. *)
Definition merges (updates : list EntryPath) (c : AbsCatalog) (m : DeltaOps) : Prop :=
  map_sorted m ∧
  (∀ k o, map_find k m = Some o → op_ok k o) ∧
  (∀ x, path_wf x → slot_ok x (base (merged_on m) c0 x) (merged_on m x) (c x)) ∧
  (∀ x o, merged_on m x = Some o → merge_flag_ o = Enumerator Merge.kUpdate → path_wf x → x ∈ updates).

Lemma merges_op_on updates c m p o :
  merges updates c m → path_wf p → merged_on m p = Some o →
  full < commit_ts_ o ∧ op_on p o ∧ (deletable p ∨ removes (merge_flag_ o) = false).
Proof.
  intros (_ & Hops & _) Hp Hf. destruct (Hops _ _ Hf) as (Hts & q & Hon & He & _ & Hd).
  assert (p = q) as -> by (apply encode_inj; [done|by destruct Hon|done]). done.
Qed.

Lemma merges_assign updates updates' c c' m p o :
  merges updates c m → op_ok (path_encode p) o → path_wf p →
  removes (merge_flag_ o) = removes_opt (merged_on m p) →
  slot_ok p (base (merged_on m) c0 p) (Some o) (c' p) → (∀ x, x ≠ p → c' x = c x) →
  updates ⊆ updates' → (merge_flag_ o = Enumerator Merge.kUpdate → p ∈ updates') →
  merges updates' c' (map_assign (path_encode p) o m).
Proof.
  intros (Hs & Hops & Hslots & Hup) Ho Hp Hr Hslot Hc Hu Hup'.
  assert (Hm : ∀ x, path_wf x → merged_on (map_assign (path_encode p) o m) x = if decide (x = p) then Some o else merged_on m x).
  { intros x Hx. unfold merged_on. destruct (decide (x = p)) as [->|Hne]; [apply map_find_assign|].
    apply map_find_assign_ne. intros He. apply Hne. by apply encode_inj. }
  assert (Hb : ∀ x, path_wf x → base (merged_on (map_assign (path_encode p) o m)) c0 x = base (merged_on m) c0 x).
  { intros x Hx. apply base_ext. intros a Ha. rewrite (Hm a) by (by eapply ancestors_wf).
    by destruct (decide (a = p)) as [->|?]. }
  split; [by apply map_assign_sorted|]. split; [|split].
  - intros k o' Hk. destruct (decide (k = path_encode p)) as [->|Hne].
    + rewrite map_find_assign in Hk. by injection Hk as <-.
    + rewrite map_find_assign_ne in Hk by done. by apply Hops.
  - intros x Hx. rewrite Hb, Hm by done. destruct (decide (x = p)) as [->|Hne]; [done|]. rewrite Hc by done. by apply Hslots.
  - intros x o' Ho' Hfl Hx. rewrite Hm in Ho' by done. destruct (decide (x = p)) as [->|Hne].
    + injection Ho' as <-. by apply Hup'.
    + apply Hu. by eapply Hup.
Qed.

Lemma merges_prune updates c c' m m' v p :
  merges updates c m → path_wf p → map_sorted m' → (∀ k o, map_find k m' = Some o → op_ok k o) →
  (∀ x, path_wf x → merged_on m' x = if decide (x = p) then v else if decide (p ∈ ancestors x) then None else merged_on m x) →
  slot_ok p (base (merged_on m) c0 p) v (c' p) →
  (∀ x, x ≠ p → c' x = if decide (p ∈ ancestors x) then Absent else c x) →
  removes_opt v = true ∨ base (merged_on m) c0 p = Absent →
  (∀ o, v = Some o → merge_flag_ o ≠ Enumerator Merge.kUpdate) →
  merges updates c' m'.
Proof.
  intros (Hs & Hops & Hslots & Hup) Hp Hs' Hops' Hm Hslot Hc Hrm Hv. split; [done|]. split; [done|]. split.
  - intros x Hx. rewrite Hm by done. destruct (decide (x = p)) as [->|Hne].
    { erewrite base_ext; [done|]. intros a Ha. rewrite Hm by (by eapply ancestors_wf).
      destruct (decide (a = p)) as [->|_]; [by apply ancestors_irrefl in Ha|].
      rewrite decide_False; [done|]. intros Hpa. apply (ancestors_irrefl p). by eapply ancestors_trans. }
    rewrite Hc by done. destruct (decide (p ∈ ancestors x)) as [Hpx|Hpx].
    + left. symmetry. apply (base_pruned (merged_on m) _ _ p); [done| |done|].
      * intros a Ha. rewrite Hm by (by eapply ancestors_wf). rewrite !decide_False; [done|..].
        -- intros Hpa. apply (ancestors_irrefl p). by eapply ancestors_trans.
        -- intros ->. by apply ancestors_irrefl in Ha.
      * rewrite Hm by done. by rewrite decide_True.
    + erewrite base_ext; [by apply Hslots|]. intros a Ha. rewrite Hm by (by eapply ancestors_wf).
      rewrite decide_False by (intros ->; done).
      rewrite decide_False; [done|]. intros Hpa. apply Hpx. by eapply ancestors_trans.
  - intros x o Ho Hfl Hx. rewrite Hm in Ho by done. destruct (decide (x = p)); [by apply Hv in Ho|].
    destruct (decide (p ∈ ancestors x)); [done|]. by eapply Hup.
Qed.
(** *** The maps [add_op] builds *)

Lemma not_extends_self (k : bytes) : ¬ extends k k.
Proof. intros [t Ht]. rewrite <- app_assoc in Ht. apply (f_equal length) in Ht. rewrite !length_app in Ht. simpl in Ht. lia. Qed.

Lemma merged_pruned p m x :
  path_wf p → path_wf x →
  merged_on (filter (fun kv => ¬ extends (path_encode p) kv.1) m) x
  = if decide (p ∈ ancestors x) then None else merged_on m x.
Proof.
  intros Hp Hx. unfold merged_on. rewrite find_pruned. pose proof (extends_below p x Hp Hx).
  by destruct (decide (extends _ _)), (decide (p ∈ ancestors x)); try tauto.
Qed.

Lemma merged_assign p o m x :
  path_wf p → path_wf x → merged_on (map_assign (path_encode p) o m) x = if decide (x = p) then Some o else merged_on m x.
Proof.
  intros Hp Hx. unfold merged_on. destruct (decide (x = p)) as [->|Hne]; [apply map_find_assign|].
  apply map_find_assign_ne. intros He. apply Hne. by apply encode_inj.
Qed.

Lemma merged_erase p m x :
  map_sorted m → path_wf p → path_wf x →
  merged_on (map_erase (path_encode p) m) x = if decide (x = p) then None else merged_on m x.
Proof.
  intros Hs Hp Hx. unfold merged_on. destruct (decide (x = p)) as [->|Hne]; [by apply map_find_erase|].
  apply map_find_erase_ne. intros He. apply Hne. by apply encode_inj.
Qed.

Lemma find_pruned_ok p (m : DeltaOps) :
  (∀ k o, map_find k m = Some o → op_ok k o) →
  ∀ k o, map_find k (filter (fun kv => ¬ extends (path_encode p) kv.1) m) = Some o → op_ok k o.
Proof. intros Hops k o. rewrite find_pruned. case_decide; [done|]. apply Hops. Qed.

Lemma find_assign_ok k0 o0 (m : DeltaOps) :
  op_ok k0 o0 → (∀ k o, map_find k m = Some o → op_ok k o) →
  ∀ k o, map_find k (map_assign k0 o0 m) = Some o → op_ok k o.
Proof.
  intros H0 Hops k o. destruct (decide (k = k0)) as [->|Hne].
  - rewrite map_find_assign. by intros [= <-].
  - rewrite map_find_assign_ne by done. apply Hops.
Qed.

Lemma find_erase_ok k0 (m : DeltaOps) :
  map_sorted m → (∀ k o, map_find k m = Some o → op_ok k o) →
  ∀ k o, map_find k (map_erase k0 m) = Some o → op_ok k o.
Proof.
  intros Hs Hops k o. destruct (decide (k = k0)) as [->|Hne].
  - by rewrite map_find_erase.
  - rewrite map_find_erase_ne by done. apply Hops.
Qed.

(** An operation that removes, merged into (or put beside) what is there after pruning. *)
Lemma merges_prune_assign updates c c' m p o :
  merges updates c m → op_ok (path_encode p) o → path_wf p →
  slot_ok p (base (merged_on m) c0 p) (Some o) (c' p) →
  (∀ x, x ≠ p → c' x = if decide (p ∈ ancestors x) then Absent else c x) →
  removes (merge_flag_ o) = true ∨ base (merged_on m) c0 p = Absent →
  merge_flag_ o ≠ Enumerator Merge.kUpdate →
  merges updates c' (map_assign (path_encode p) o (filter (fun kv => ¬ extends (path_encode p) kv.1) m)) ∧
  merges updates c' (filter (fun kv => ¬ extends (path_encode p) kv.1) (map_assign (path_encode p) o m)).
Proof.
  intros Hm Ho Hp Hslot Hc Hrm Hfl. pose proof Hm as (Hs & Hops & _).
  split; (apply (merges_prune updates c c' m _ (Some o) p); [done|done|..|done|done|done|by intros ? [= <-]]).
  - by apply map_assign_sorted, map_filter_sorted.
  - apply find_assign_ok; [done|]. by apply find_pruned_ok.
  - intros x Hx. rewrite merged_assign, merged_pruned by done. done.
  - by apply map_filter_sorted, map_assign_sorted.
  - apply find_pruned_ok. by apply find_assign_ok.
  - intros x Hx. rewrite merged_pruned, merged_assign by done. destruct (decide (x = p)) as [->|Hne]; [|done].
    rewrite decide_False; [done|]. apply ancestors_irrefl.
Qed.

Lemma merges_prune_erase updates c c' m p :
  merges updates c m → path_wf p → base (merged_on m) c0 p = Absent → c' p = Absent ∨ c' p = Retired →
  (∀ x, x ≠ p → c' x = if decide (p ∈ ancestors x) then Absent else c x) →
  merges updates c' (filter (fun kv => ¬ extends (path_encode p) kv.1) (map_erase (path_encode p) m)).
Proof.
  intros Hm Hp Hb Hcp Hc. pose proof Hm as (Hs & Hops & _).
  apply (merges_prune updates c c' m _ None p); [done|done|..|done|by right|done].
  - by apply map_filter_sorted, map_erase_sorted.
  - apply find_pruned_ok. by apply find_erase_ok.
  - intros x Hx. rewrite merged_pruned, merged_erase by done. destruct (decide (x = p)) as [->|Hne]; [|done].
    by case_decide.
  - simpl. rewrite Hb. naive_solver.
Qed.
(** *** One operation *)

Definition pruned (p : EntryPath) (m : DeltaOps) : DeltaOps := filter (fun kv => ¬ extends (path_encode p) kv.1) m.

Lemma path_encode_nonempty p : path_encode p ≠ [].
Proof. rewrite path_encode_join. pose proof (components_nonempty p). by destruct (components p). Qed.

Lemma add_op_none m p op :
  map_sorted m → encode_ op = path_encode p → deprecated_is_delete op = op → merged_on m p = None →
  add_op full m op
  = let? prune_flag := ToPrune None (merge_flag_ op) in
    Ok (match prune_flag with
        | Prune.kPruneSub => pruned p (map_assign (path_encode p) op m)
        | _ => map_assign (path_encode p) op m
        end).
Proof.
  intros Hs He Hd Hf. unfold add_op. rewrite Hd, He, bool_decide_eq_false_2 by apply path_encode_nonempty.
  unfold merged_on in Hf. rewrite Hf. destruct (ToPrune None (merge_flag_ op)) as [[]|]; try done.
  simpl. rewrite prune_filter; [done|]. by apply map_assign_sorted.
Qed.

Lemma add_op_some m p op o :
  map_sorted m → encode_ op = path_encode p → deprecated_is_delete op = op → merged_on m p = Some o → full < commit_ts_ o →
  add_op full m op
  = let? prune_flag := ToPrune (Some (merge_flag_ o)) (merge_flag_ op) in
    match prune_flag with
    | Prune.kPrune => Ok (pruned p (map_erase (path_encode p) m))
    | _ =>
        let? merged := Op_Merge o op in
        Ok (map_assign (path_encode p) merged (match prune_flag with Prune.kPruneSub => pruned p m | _ => m end))
    end.
Proof.
  intros Hs He Hd Hf Hts. unfold add_op. rewrite Hd, He, bool_decide_eq_false_2 by apply path_encode_nonempty.
  unfold merged_on in Hf. rewrite Hf, (proj2 (Z.leb_gt _ _)) by done.
  destruct (ToPrune _ (merge_flag_ op)) as [[]|]; try done; simpl; rewrite ?prune_filter by first [done|by apply map_erase_sorted]; done.
Qed.

Lemma deprecated_idem op : deprecated_is_delete (deprecated_is_delete op) = deprecated_is_delete op.
Proof. destruct op as [bts tx cts fl en [| |[[]|]| | | | |]]; done. Qed.

(** The slot of the entry itself, and of the others, after an operation in normal form. *)
Lemma apply_op_other c p op x :
  deprecated_is_delete op = op → x ≠ p →
  apply_op c (p, op) x = if decide (p ∈ ancestors x) then (if removes (merge_flag_ op) then Absent else c x) else c x.
Proof.
  intros Hd Hx. unfold apply_op. rewrite Hd, decide_False by done.
  destruct (removes _), (decide (p ∈ ancestors x)); simpl; try done.
  - by rewrite bool_decide_eq_true_2.
  - by rewrite bool_decide_eq_false_2.
Qed.

Lemma op_ok_new p op :
  op_on p op → full < commit_ts_ op → deprecated_is_delete op = op → deletable p ∨ removes (merge_flag_ op) = false →
  op_ok (path_encode p) op.
Proof. intros. split; [done|]. by exists p. Qed.

(** Setting flag and filter data of an operation keeps what it is about. *)
Lemma op_on_merged p op flag s :
  op_on p op → op_on p (set_merge_flag_ flag (set_body_ (updated s (body_ op)) op)).
Proof.
  intros (Hp & He & Ht). split; [done|]. split; [done|]. unfold GetType in *. simpl. rewrite <- Ht.
  destruct s; [done..|]. by destruct (body_ op).
Qed.

Lemma normal_merged op flag s :
  deprecated_is_delete op = op → (merge_flag_ op = Enumerator Merge.kDelete → flag = Enumerator Merge.kDelete) →
  deprecated_is_delete (set_merge_flag_ flag (set_body_ (updated s (body_ op)) op))
  = set_merge_flag_ flag (set_body_ (updated s (body_ op)) op).
Proof.
  intros Hd Hf. unfold deprecated_is_delete in *. simpl.
  assert (Hb : updated s (body_ op) = body_ op ∨ ∃ f, updated s (body_ op) = with_filter_data f (body_ op)).
  { destruct s; [by left..|right]. by eexists. }
  destruct op as [bts tx cts fl en b]. simpl in *.
  destruct b as [| |st| | | | |]; try (destruct Hb as [->|[f ->]]; done).
  assert (Hst : st = Enumerator Status.kDeprecated → flag = Enumerator Merge.kDelete).
  { intros ->. apply Hf. by injection Hd. }
  destruct Hb as [->|[f ->]]; simpl; destruct st as [[]|]; try done; by rewrite Hst.
Qed.
Lemma apply_op_self c p op :
  deprecated_is_delete op = op →
  apply_op c (p, op) p
  = match merge_flag_ op with
    | Enumerator Merge.kNew | Enumerator Merge.kDeleteAndNew => Live (body_ op)
    | Enumerator Merge.kUpdate => Live (updated (c p) (body_ op))
    | Enumerator Merge.kDelete => removed p
    | _ => c p
    end.
Proof. intros Hd. unfold apply_op. by rewrite Hd, decide_True. Qed.

Lemma apply_op_keeps c p op x :
  deprecated_is_delete op = op → removes (merge_flag_ op) = false → x ≠ p → apply_op c (p, op) x = c x.
Proof. intros Hd Hr Hx. rewrite apply_op_other, Hr by done. by case_decide. Qed.

Lemma apply_op_prunes c p op x :
  deprecated_is_delete op = op → removes (merge_flag_ op) = true → x ≠ p →
  apply_op c (p, op) x = if decide (p ∈ ancestors x) then Absent else c x.
Proof. intros Hd Hr Hx. by rewrite apply_op_other, Hr by done. Qed.

Lemma next_updates_sub updates p op : updates ⊆ next_updates updates p op.
Proof. unfold next_updates. case_bool_decide; set_solver. Qed.

Lemma next_updates_other updates p op :
  deprecated_is_delete op = op → merge_flag_ op ≠ Enumerator Merge.kUpdate → next_updates updates p op = updates.
Proof. intros Hd Hf. unfold next_updates. by rewrite Hd, bool_decide_eq_false_2. Qed.

Lemma next_updates_update updates p op :
  deprecated_is_delete op = op → merge_flag_ op = Enumerator Merge.kUpdate → p ∈ next_updates updates p op.
Proof. intros Hd Hf. unfold next_updates. rewrite Hd, bool_decide_eq_true_2 by done. set_solver. Qed.

Lemma removed_dead p : removed p = Absent ∨ removed p = Retired.
Proof. destruct p; simpl; auto. Qed.

Lemma leaf_no_filter p : ¬ deletable p → ¬ has_filter p.
Proof. destruct p; simpl; tauto. Qed.

Lemma recreatable_no_filter p : recreatable p → ¬ has_filter p.
Proof. destruct p; simpl; tauto. Qed.

Lemma recreatable_deletable p : recreatable p → deletable p.
Proof. destruct p; simpl; tauto. Qed.

Lemma removed_no_filter p : Absent = removed p → ¬ has_filter p.
Proof. intros H Hf. destruct p; simpl in *; done. Qed.

Lemma step_none updates c m p op :
  merges updates c m → deprecated_is_delete op = op → full < commit_ts_ op → valid_op updates c p op →
  merged_on m p = None →
  ∃ m', add_op full m op = Ok m' ∧ merges (next_updates updates p op) (apply_op c (p, op)) m'.
Proof.
  intros Hm Hd Hts Hv Hf. unfold valid_op in Hv. rewrite Hd in Hv. destruct Hv as [Hon Hv].
  pose proof Hon as (Hp & He & _). pose proof Hm as (Hs & _ & Hslots & _).
  pose proof (Hslots p Hp) as Hslot. rewrite Hf in Hslot. simpl in Hslot.
  rewrite (add_op_none m p op) by done. pose proof (apply_op_self c p op Hd) as Hself.
  destruct (merge_flag_ op) as [[]|] eqn:Hfl; try done; cbn [ToPrune res_bind]; eexists; (split; [reflexivity|]).
  - destruct Hv as (b & Hb & Hone & Hdel). rewrite next_updates_other by (try done; by rewrite Hfl).
    apply (merges_prune_assign updates c); rewrite ?Hfl; try done; [by apply op_ok_new; auto|..].
    + simpl. by rewrite Hfl.
    + intros x Hx. apply apply_op_prunes; [done|by rewrite Hfl|done].
    + by left.
  - assert (Hb : base (merged_on m) c0 p = Absent) by (destruct Hslot as [Hx|[? Hx]]; congruence).
    apply (merges_assign updates _ c); rewrite ?Hfl, ?Hf; try done.
    + apply op_ok_new; try done. right. by rewrite Hfl.
    + simpl. by rewrite Hfl.
    + intros x Hx. apply apply_op_keeps; [done|by rewrite Hfl|done].
    + apply next_updates_sub.
  - destruct Hv as (b & Hb & Hone). assert (Hbase : base (merged_on m) c0 p = c p) by (destruct Hslot as [?|[? ?]]; congruence).
    apply (merges_assign updates _ c); rewrite ?Hfl, ?Hf; try done.
    + apply op_ok_new; try done. right. by rewrite Hfl.
    + simpl. rewrite Hfl, Hbase. done.
    + intros x Hx. apply apply_op_keeps; [done|by rewrite Hfl|done].
    + apply next_updates_sub.
    + intros _. by apply next_updates_update.
  - destruct Hv as (b & Hb & Hrec & Hnu). rewrite next_updates_other by (try done; by rewrite Hfl).
    apply (merges_prune_assign updates c); rewrite ?Hfl; try done.
    + apply op_ok_new; try done. left. by destruct p.
    + simpl. by rewrite Hfl.
    + intros x Hx. apply apply_op_prunes; [done|by rewrite Hfl|done].
    + by left.
Qed.
(** The merged operations on a live entry. *)
Lemma slot_live p s o b :
  slot_ok p s (Some o) (Live b) →
  (merge_flag_ o = Enumerator Merge.kNew ∧ b = body_ o ∧ s = Absent) ∨
  (merge_flag_ o = Enumerator Merge.kUpdate ∧ b = updated s (body_ o)) ∨
  (merge_flag_ o = Enumerator Merge.kDeleteAndNew ∧ b = body_ o).
Proof.
  unfold slot_ok. destruct (merge_flag_ o) as [[]|]; try done.
  - destruct (removed_dead p); congruence.
  - intros [[= ->] ->]. by left.
  - intros [= ->]. right. by left.
  - intros [= ->]. right. by right.
Qed.

Lemma slot_live_filter s o op b :
  (merge_flag_ o = Enumerator Merge.kNew ∧ b = body_ o ∧ s = Absent) ∨
  (merge_flag_ o = Enumerator Merge.kUpdate ∧ b = updated s (body_ o)) ∨
  (merge_flag_ o = Enumerator Merge.kDeleteAndNew ∧ b = body_ o) →
  filter_once b op → filter_once (body_ o) op.
Proof. intros [(_ & -> & _)|[(_ & ->)|(_ & ->)]]; [done|apply filter_once_updated|done]. Qed.

(** The result of merging [op] into [o]. *)
Definition merged_op (flag : MergeFlag) (o op : CatalogDeltaOperation) : CatalogDeltaOperation :=
  set_merge_flag_ (Enumerator flag) (set_body_ (updated (Live (body_ o)) (body_ op)) op).

Lemma merged_op_ok p flag o op :
  op_on p op → full < commit_ts_ op → deprecated_is_delete op = op → deletable p →
  (merge_flag_ op = Enumerator Merge.kDelete → flag = Merge.kDelete) →
  op_ok (path_encode p) (merged_op flag o op).
Proof.
  intros Hon Hts Hd Hdel Hfl. apply op_ok_new; [by apply op_on_merged|done| |by left].
  apply normal_merged; [done|]. intros H. by rewrite Hfl.
Qed.

Section Found.
Context (updates : list EntryPath) (c : AbsCatalog) (m : DeltaOps) (p : EntryPath) (op o : CatalogDeltaOperation).
Hypothesis Hm : merges updates c m.
Hypothesis Hd : deprecated_is_delete op = op.
Hypothesis Hts : full < commit_ts_ op.
Hypothesis Hon : op_on p op.
Hypothesis Hf : merged_on m p = Some o.

Lemma found_facts :
  path_wf p ∧ op_on p o ∧ (deletable p ∨ removes (merge_flag_ o) = false) ∧
  slot_ok p (base (merged_on m) c0 p) (Some o) (c p) ∧
  add_op full m op
  = let? prune_flag := ToPrune (Some (merge_flag_ o)) (merge_flag_ op) in
    match prune_flag with
    | Prune.kPrune => Ok (pruned p (map_erase (path_encode p) m))
    | _ =>
        let? merged := Op_Merge o op in
        Ok (map_assign (path_encode p) merged (match prune_flag with Prune.kPruneSub => pruned p m | _ => m end))
    end.
Proof.
  pose proof Hon as (Hp & He & _). pose proof Hm as (Hs & _ & Hslots & _).
  destruct (merges_op_on updates c m p o Hm Hp Hf) as (Ho & Hono & Hdel).
  split; [done|]. split; [done|]. split; [done|]. split; [rewrite <- Hf; by apply Hslots|]. by apply add_op_some.
Qed.

(** A new entry where the old one was deleted. *)
Lemma step_found_new :
  merge_flag_ op = Enumerator Merge.kNew → c p = Absent →
  ∃ m', add_op full m op = Ok m' ∧ merges (next_updates updates p op) (apply_op c (p, op)) m'.
Proof.
  intros Hfl Hc. destruct found_facts as (Hp & Hono & Hdel & Hslot & ->). rewrite Hfl, Hc in *. simpl in Hslot.
  destruct (merge_flag_ o) as [[]|] eqn:Hfo; try done; try (by destruct Hslot).
  destruct Hdel as [Hdel|]; [|done].
  destruct (no_filter p (body_ op)) as [Hfd Hup]; [apply Hon|by apply removed_no_filter|].
  cbn [ToPrune res_bind]. rewrite (Op_Merge_deletable p _ _ (Enumerator Merge.kDeleteAndNew)); try done.
  2: by right. 2: by rewrite Hfo, Hfl.
  eexists. split; [reflexivity|]. fold (merged_op Merge.kDeleteAndNew o op).
  apply (merges_assign updates _ c); try done.
  - apply merged_op_ok; try done. by rewrite Hfl.
  - by rewrite Hf; simpl; rewrite Hfo.
  - rewrite apply_op_self, Hfl by done. unfold merged_op. by rewrite (Hup (Live (body_ o))).
  - intros x Hx. apply apply_op_keeps; [done|by rewrite Hfl|done].
  - apply next_updates_sub.
Qed.

(** An update of an entry that was created, updated or recreated. *)
Lemma step_found_update b :
  merge_flag_ op = Enumerator Merge.kUpdate → c p = Live b → filter_once b op →
  ∃ m', add_op full m op = Ok m' ∧ merges (next_updates updates p op) (apply_op c (p, op)) m'.
Proof.
  intros Hfl Hc Hone. destruct found_facts as (Hp & Hono & Hdel & Hslot & ->).
  pose proof (apply_op_self c p op Hd) as Hself. rewrite Hfl, Hc in *. apply slot_live in Hslot.
  assert (Hkeep : ∀ x, x ≠ p → apply_op c (p, op) x = c x).
  { intros x Hx. apply apply_op_keeps; [done|by rewrite Hfl|done]. }
  cbn [ToPrune res_bind]. destruct (decide (deletable p)) as [Hdp|Hdp].
  - assert (Hfo : ∃ flag, merge_flag_ o = Enumerator flag ∧ NextDeleteFlag (Enumerator flag) (Enumerator Merge.kUpdate) = Ok (Enumerator flag)).
    { destruct Hslot as [(-> & _)|[(-> & _)|(-> & _)]]; by eexists. }
    destruct Hfo as (flag & Hfo & Hnext).
    rewrite (Op_Merge_deletable p _ _ (Enumerator flag)); try done; [|by eapply slot_live_filter|by rewrite Hfo, Hfl].
    eexists. split; [reflexivity|]. fold (merged_op flag o op). apply (merges_assign updates _ c); try done.
    + apply merged_op_ok; try done. by rewrite Hfl.
    + rewrite Hf. simpl. by rewrite Hfo.
    + rewrite Hself. destruct Hslot as [(Hn & -> & Hb)|[(Hn & ->)|(Hn & ->)]]; rewrite Hfo in Hn; injection Hn as ->.
      * done.
      * unfold slot_ok. change (Live (updated (Live (updated (base (merged_on m) c0 p) (body_ o))) (body_ op))
          = Live (updated (base (merged_on m) c0 p) (updated (Live (body_ o)) (body_ op)))).
        f_equal. apply (updated_assoc p); [apply Hono|apply Hon].
      * done.
    + apply next_updates_sub.
    + intros _. by apply next_updates_update.
  - rewrite (Op_Merge_leaf p) by done. eexists. split; [reflexivity|].
    destruct Hdel as [?|Hrm]; [done|].
    destruct (no_filter p (body_ op)) as [_ Hup]; [apply Hon|by apply leaf_no_filter|].
    apply (merges_assign updates _ c); try done.
    + apply op_ok_new; try done. right. by rewrite Hfl.
    + rewrite Hf, Hfl. simpl. by rewrite Hrm.
    + rewrite Hself, Hup. unfold slot_ok. by rewrite Hfl, Hup.
    + apply next_updates_sub.
    + intros _. by apply next_updates_update.
Qed.

(** Deleting an entry that was created since the checkpoint leaves nothing. *)
Lemma step_found_delete b :
  merge_flag_ op = Enumerator Merge.kDelete → c p = Live b → filter_once b op → deletable p →
  ∃ m', add_op full m op = Ok m' ∧ merges (next_updates updates p op) (apply_op c (p, op)) m'.
Proof.
  intros Hfl Hc Hone Hdp. destruct found_facts as (Hp & Hono & Hdel & Hslot & ->).
  pose proof (apply_op_self c p op Hd) as Hself.
  rewrite next_updates_other by (try done; by rewrite Hfl).
  assert (Hprune : ∀ x, x ≠ p → apply_op c (p, op) x = if decide (p ∈ ancestors x) then Absent else c x).
  { intros x Hx. apply apply_op_prunes; [done|by rewrite Hfl|done]. }
  rewrite Hfl, Hc in *. apply slot_live in Hslot.
  assert (Hbody : filter_once (body_ o) op) by (by eapply slot_live_filter).
  destruct Hslot as [(Hfo & _ & Hb)|Hslot].
  - rewrite Hfo. cbn [ToPrune res_bind]. eexists. split; [reflexivity|].
    apply (merges_prune_erase updates c); try done. rewrite Hself. apply removed_dead.
  - assert (Hto : ToPrune (Some (merge_flag_ o)) (Enumerator Merge.kDelete) = Ok Prune.kPruneSub ∧
      NextDeleteFlag (merge_flag_ o) (Enumerator Merge.kDelete) = Ok (Enumerator Merge.kDelete)).
    { by destruct Hslot as [(-> & _)|(-> & _)]. }
    destruct Hto as [-> Hnext]. cbn [res_bind].
    rewrite (Op_Merge_deletable p _ _ (Enumerator Merge.kDelete)); try done; [|by rewrite Hfl].
    eexists. split; [reflexivity|]. fold (merged_op Merge.kDelete o op).
    apply (merges_prune_assign updates c); try done; [by apply merged_op_ok|by left].
Qed.

(** Operations that delete and recreate come from merged checkpoints. *)
Lemma step_found_recreate b :
  merge_flag_ op = Enumerator Merge.kDeleteAndNew → c p = Live b → recreatable p → p ∉ updates →
  ∃ m', add_op full m op = Ok m' ∧ merges (next_updates updates p op) (apply_op c (p, op)) m'.
Proof.
  intros Hfl Hc Hrec Hnu. destruct found_facts as (Hp & Hono & Hdel & Hslot & ->).
  pose proof (apply_op_self c p op Hd) as Hself.
  rewrite next_updates_other by (try done; by rewrite Hfl).
  assert (Hprune : ∀ x, x ≠ p → apply_op c (p, op) x = if decide (p ∈ ancestors x) then Absent else c x).
  { intros x Hx. apply apply_op_prunes; [done|by rewrite Hfl|done]. }
  rewrite Hfl, Hc in *. apply slot_live in Hslot.
  pose proof (recreatable_deletable p Hrec) as Hdp.
  destruct (no_filter p (body_ op)) as [Hfd Hup]; [apply Hon|by apply recreatable_no_filter|].
  assert (Hbody : filter_once (body_ o) op) by (by right).
  pose proof Hm as (_ & _ & _ & Hupd).
  destruct Hslot as [(Hfo & _ & Hb)|[(Hfo & _)|(Hfo & _)]]; [|by destruct Hnu; eapply Hupd|].
  all: rewrite Hfo; cbn [ToPrune res_bind];
    rewrite (Op_Merge_deletable p _ _ (merge_flag_ o)) by (try done; by rewrite Hfo, Hfl);
    eexists; (split; [reflexivity|]); rewrite Hfo.
  - fold (merged_op Merge.kNew o op). apply (merges_prune_assign updates c); try done; [..|by right].
    + apply merged_op_ok; try done. by rewrite Hfl.
    + rewrite Hself. unfold merged_op. by rewrite (Hup (Live (body_ o))).
  - fold (merged_op Merge.kDeleteAndNew o op). apply (merges_prune_assign updates c); try done; [..|by left].
    + apply merged_op_ok; try done. by rewrite Hfl.
    + rewrite Hself. unfold merged_op. by rewrite (Hup (Live (body_ o))).
Qed.
End Found.
(** *** Histories *)

Lemma step_normal updates c m p op :
  merges updates c m → deprecated_is_delete op = op → full < commit_ts_ op → valid_op updates c p op →
  ∃ m', add_op full m op = Ok m' ∧ merges (next_updates updates p op) (apply_op c (p, op)) m'.
Proof.
  intros Hm Hd Hts Hv. destruct (merged_on m p) as [o|] eqn:Hf; [|by apply step_none].
  unfold valid_op in Hv. rewrite Hd in Hv. destruct Hv as [Hon Hv].
  destruct (merge_flag_ op) as [[]|] eqn:Hfl; try done.
  - destruct Hv as (b & Hc & Hone & Hdp). by eapply (step_found_delete _ _ _ _ _ o).
  - by eapply (step_found_new _ _ _ _ _ o).
  - destruct Hv as (b & Hc & Hone). by eapply (step_found_update _ _ _ _ _ o).
  - destruct Hv as (b & Hc & Hrec & Hnu). by eapply (step_found_recreate _ _ _ _ _ o).
Qed.

Lemma merges_step updates c m p op :
  merges updates c m → full < commit_ts_ op → valid_op updates c p op →
  ∃ m', add_op full m op = Ok m' ∧ merges (next_updates updates p op) (apply_op c (p, op)) m'.
Proof.
  intros Hm Hts Hv. pose proof (deprecated_idem op) as Hi.
  destruct (step_normal updates c m p (deprecated_is_delete op)) as (m' & Ha & Hm'); [done|done| | |].
  - unfold deprecated_is_delete. by repeat case_match.
  - unfold valid_op in *. by rewrite Hi.
  - exists m'. unfold add_op, next_updates, apply_op in *. by rewrite Hi in *.
Qed.

Lemma merges_init : merges [] c0 [].
Proof.
  split; [constructor|]. split; [done|]. split; [|done]. intros x _. left. unfold base.
  destruct (existsb _ _) eqn:H; [|done]. apply existsb_ancestors in H as (a & _ & H). done.
Qed.

Lemma merges_history l : ∀ updates c m,
  merges updates c m → valid_history updates c l → Forall (fun h => full < commit_ts_ h.2) l →
  ∃ m' updates', res_fold (add_op full) m (map snd l) = Ok m' ∧ merges updates' (apply_ops c l) m'.
Proof.
  induction l as [|[p op] l IH]; intros updates c m Hm Hv Hts; [by exists m, updates|].
  destruct Hv as [Hv Hl]. apply Forall_cons in Hts as [Ht Hts].
  destruct (merges_step updates c m p op Hm Ht Hv) as (m1 & Ha & Hm1).
  destruct (IH _ _ m1 Hm1 Hl Hts) as (m' & u' & Hf & Hm'). exists m', u'. split; [|done]. simpl. by rewrite Ha.
Qed.
End Merging.

(** ** Lemmas: reading the merged operations *)

Lemma apply_ops_outside l : ∀ c x,
  Forall (fun h => h.1 ≠ x ∧ deprecated_is_delete h.2 = h.2) l →
  apply_ops c l x
  = if existsb (fun h => removes (merge_flag_ h.2) && bool_decide (h.1 ∈ ancestors x)) l then Absent else c x.
Proof.
  induction l as [|[p op] l IH]; intros c x Hl; [done|]. apply Forall_cons in Hl as [[Hx Hd] Hl]. simpl in Hx, Hd.
  change (apply_ops c ((p, op) :: l)) with (apply_ops (apply_op c (p, op)) l). rewrite IH by done. simpl.
  destruct (existsb _ l); [by rewrite orb_true_r|]. rewrite orb_false_r. unfold apply_op. rewrite Hd, decide_False by done. done.
Qed.

Lemma apply_ops_at c l1 p op l2 :
  Forall (fun h => h.1 ≠ p ∧ deprecated_is_delete h.2 = h.2) (l1 ++ l2) →
  existsb (fun h => removes (merge_flag_ h.2) && bool_decide (h.1 ∈ ancestors p)) l2 = false →
  apply_ops c (l1 ++ (p, op) :: l2) p = apply_op (apply_ops c l1) (p, op) p.
Proof.
  intros Hl Hr. apply Forall_app in Hl as [Hl1 Hl2].
  transitivity (apply_ops (apply_op (apply_ops c l1) (p, op)) l2 p).
  - unfold apply_ops. by rewrite fold_left_app.
  - rewrite (apply_ops_outside l2) by done. by rewrite Hr.
Qed.

Lemma ops_paths ops :
  Forall (fun op => ∃ p, op_on p op) ops → ∃ l, map snd l = ops ∧ Forall (fun h => op_on h.1 h.2) l.
Proof.
  induction 1 as [|op ops [p Hp] _ (l & <- & Hl)]; [by exists []|]. exists ((p, op) :: l). split; [done|by constructor].
Qed.

(** What holds of the merged operations read in any order that puts ancestors first. *)
Section Reading.
Context (full : Z) (c0 : AbsCatalog) (updates : list EntryPath) (c : AbsCatalog) (m : DeltaOps).
Context (l : list (EntryPath * CatalogDeltaOperation)).
Hypothesis Hm : merges full c0 updates c m.
Hypothesis Hperm : map snd l ≡ₚ map snd m.
Hypothesis Hon : Forall (fun h => op_on h.1 h.2) l.
Hypothesis Hsort : StronglySorted type_le (map snd l).

Lemma read_normal : Forall (fun h => deprecated_is_delete h.2 = h.2) l.
Proof.
  destruct Hm as (Hs & Hops & _). apply Forall_forall. intros [p o] Hin.
  assert (Ho : o ∈ map snd m) by (rewrite <- Hperm; apply list_elem_of_fmap; by exists (p, o)).
  apply list_elem_of_fmap in Ho as ([k o'] & -> & Hk). apply map_find_elem in Hk; [|done].
  by destruct (Hops _ _ Hk) as (_ & q & _ & _ & ? & _).
Qed.

Lemma read_elem x o : path_wf x → (x, o) ∈ l ↔ merged_on m x = Some o.
Proof.
  intros Hx. destruct Hm as (Hs & Hops & _). rewrite Forall_forall in Hon. split.
  - intros Hin. pose proof (Hon _ Hin) as (_ & He & _). simpl in He.
    assert (Ho : o ∈ map snd m) by (rewrite <- Hperm; apply list_elem_of_fmap; by exists (x, o)).
    apply list_elem_of_fmap in Ho as ([k o'] & -> & Hk). apply map_find_elem in Hk; [|done].
    destruct (Hops _ _ Hk) as (_ & q & (_ & Heq & _) & -> & _). simpl in *. unfold merged_on. by rewrite <- He, Heq.
  - intros Hf. destruct (Hops _ _ Hf) as (_ & q & (Hq & Heq & _) & Hk & _).
    apply encode_inj in Hk as <-; [|done..]. apply map_find_elem in Hf; [|done].
    assert (Ho : o ∈ map snd l) by (rewrite Hperm; apply list_elem_of_fmap; by exists (path_encode x, o)).
    apply list_elem_of_fmap in Ho as ([p o'] & -> & Hp). pose proof (Hon _ Hp) as (Hwf & He & _). simpl in *.
    assert (p = x) as -> by (apply encode_inj; congruence). done.
Qed.

Lemma read_nodup : NoDup (map fst l).
Proof.
  destruct Hm as (Hs & Hops & _).
  assert (Hk : map encode_ (map snd m) = map fst m).
  { rewrite map_map. apply map_ext_in. intros [k o] Hin. apply list_elem_of_In in Hin. apply map_find_elem in Hin; [|done].
    destruct (Hops _ _ Hin) as (_ & q & (_ & He & _) & -> & _). done. }
  assert (Hnd : NoDup (map fst m)).
  { clear - Hs. induction Hs as [|[k o] m Hs IH Hall]; [constructor|]. simpl. constructor; [|done].
    intros ([k' o'] & -> & Hin)%list_elem_of_fmap. rewrite Forall_forall in Hall. apply Hall in Hin. by apply key_lt_irrefl in Hin. }
  apply (NoDup_fmap_1 path_encode). rewrite <- Hk in Hnd.
  assert (He : map path_encode (map fst l) = map encode_ (map snd l)).
  { rewrite !map_map. apply map_ext_in. intros [p o] Hin. apply list_elem_of_In in Hin. rewrite Forall_forall in Hon.
    by destruct (Hon _ Hin) as (_ & -> & _). }
  change (NoDup (map path_encode (map fst l))). rewrite He. by rewrite Hperm.
Qed.

(** The entry a part of [l] starts [x] from, when it holds every ancestor of [x] and not [x]. *)
Lemma read_base l' x :
  path_wf x → (∀ h, h ∈ l' → h ∈ l ∧ h.1 ≠ x) → (∀ h, h ∈ l → h.1 ∈ ancestors x → h ∈ l') →
  apply_ops c0 l' x = base (merged_on m) c0 x.
Proof.
  intros Hx Hsub Hanc. rewrite apply_ops_outside.
  2: { apply Forall_forall. intros h Hh. destruct (Hsub h Hh) as [Hl Hne]. split; [done|].
       by apply (proj1 (Forall_forall _ _) read_normal). }
  unfold base. match goal with |- (if ?a then _ else _) = (if ?b then _ else _) => assert (a = b) as ->; [|done] end.
  apply eq_true_iff_eq. rewrite existsb_ancestors, existsb_exists. split.
  - intros ([a o] & Hin & Hb). apply list_elem_of_In in Hin. apply andb_true_iff in Hb as [Hr Ha].
    apply bool_decide_eq_true in Ha. exists a. split; [done|]. destruct (Hsub _ Hin) as [Hl _].
    apply read_elem in Hl; [|by eapply ancestors_wf]. unfold removes_opt. by rewrite Hl.
  - intros (a & Ha & Hr). unfold removes_opt in Hr. destruct (merged_on m a) as [o|] eqn:Hf; [|done].
    apply read_elem in Hf; [|by eapply ancestors_wf]. exists (a, o). rewrite <- list_elem_of_In.
    split; [by apply Hanc|]. simpl. rewrite Hr. by apply bool_decide_eq_true.
Qed.

Lemma read_merged x : path_wf x → live (apply_ops c0 l x) = live (c x).
Proof.
  intros Hx. pose proof Hm as (_ & _ & Hslots & _). specialize (Hslots x Hx).
  destruct (merged_on m x) as [o|] eqn:Hf.
  - pose proof Hf as Hin. apply read_elem in Hin; [|done].
    destruct (list_elem_of_split _ _ Hin) as (l1 & l2 & Hl). pose proof read_nodup as Hnd. pose proof read_normal as Hno.
    pose proof Hon as Hon'. pose proof Hsort as Hs'.
    rewrite Hl, map_app in Hnd, Hs'. simpl in Hnd, Hs'. rewrite Hl in Hno, Hon'.
    apply NoDup_app in Hnd as (_ & Hn1 & Hn2). apply NoDup_cons in Hn2 as [Hn2 _].
    apply Forall_app in Hno as [Hno1 Hno2]. apply Forall_cons in Hno2 as [Hd Hno2]. simpl in Hd.
    assert (Hne : ∀ h, h ∈ l1 ∨ h ∈ l2 → h.1 ≠ x).
    { intros h [Hh|Hh] He; [apply (Hn1 x)|apply Hn2]; try set_solver; rewrite <- He; apply list_elem_of_fmap; by exists h. }
    assert (Hl2 : ∀ h, h ∈ l2 → h.1 ∉ ancestors x).
    { intros h Hh Ha. apply ancestors_type in Ha. apply StronglySorted_app_1_r in Hs'. apply StronglySorted_inv in Hs' as [_ Hall].
      rewrite Forall_forall in Hall. specialize (Hall h.2 ltac:(apply list_elem_of_fmap; by exists h)).
      rewrite Forall_forall in Hon'. destruct (Hon' (x, o)) as (_ & _ & Ht); [set_solver|].
      destruct (Hon' h) as (_ & _ & Ht'); [set_solver|]. unfold type_le in Hall. simpl in *. rewrite Ht, Ht' in Hall. lia. }
    rewrite Hl, apply_ops_at.
    + rewrite apply_op_self by done.
      rewrite (read_base l1 x Hx).
      * unfold slot_ok in Hslots. destruct (merge_flag_ o) as [[]|]; try done; [by rewrite Hslots|by destruct Hslots as [-> _]|by rewrite Hslots..].
      * intros h Hh. split; [rewrite Hl; set_solver|]. apply Hne. by left.
      * intros h Hh Ha. rewrite Hl in Hh. apply elem_of_app in Hh as [?|[->|Hh]%elem_of_cons]; [done|..].
        -- by apply ancestors_irrefl in Ha.
        -- by apply Hl2 in Ha.
    + apply Forall_app. split; apply Forall_forall; intros h Hh; (split; [apply Hne; auto|]).
      * by apply (proj1 (Forall_forall _ _) Hno1).
      * by apply (proj1 (Forall_forall _ _) Hno2).
    + apply not_true_iff_false. rewrite existsb_exists. intros (h & Hh & Hb). apply list_elem_of_In in Hh.
      apply andb_true_iff in Hb as [_ Ha]. apply bool_decide_eq_true in Ha. by apply Hl2 in Ha.
  - rewrite (read_base l x Hx); [|intros h Hh; split; [done|]|done].
    + simpl in Hslots. destruct Hslots as [->|[-> ->]]; done.
    + intros <-. destruct h as [p o]. simpl in *. apply read_elem in Hh; [congruence|done].
Qed.
End Reading.

Lemma Inner_fold entries : ∀ g m,
  StronglySorted Z.le (Global.max_commit_ts_ g :: map max_commit_ts_ entries) →
  Forall (fun e => max_commit_ts_ e ≠ UNCOMMIT_TS) entries →
  res_fold (add_op (Global.last_full_ckp_ts_ g)) (Global.delta_ops_ g) (concat (map operations_ entries)) = Ok m →
  ∃ g', res_fold AddDeltaEntryInner g entries = Ok g' ∧ Global.delta_ops_ g' = m ∧
    Global.last_full_ckp_ts_ g' = Global.last_full_ckp_ts_ g.
Proof.
  induction entries as [|e entries IH]; intros g m Hs Hc Hf; simpl in *.
  { injection Hf as <-. by exists g. }
  rewrite res_fold_app in Hf. inv_ok. apply StronglySorted_inv in Hs as [Hs Hle]. apply Forall_cons in Hle as [Hle _].
  apply Forall_cons in Hc as [Hne Hc]. unfold AddDeltaEntryInner at 1.
  rewrite (proj2 (Z.eqb_neq _ _) Hne), (proj2 (Z.ltb_ge _ _) Hle).
  match goal with H : res_fold _ _ (operations_ e) = Ok _ |- _ => rewrite H end. cbn [res_bind].
  match goal with |- context [res_fold _ ?g1 entries] => by apply (IH g1 m) end.
Qed.

(** ** Properties *)

Section Properties.
Context `{Sort : !TypeSort}.

(** C4. Merging delta operations loses nothing.  Take the catalog of the last full checkpoint and
    delta entries whose operations form a valid history of changes committed after it, with commit
    timestamps that do not decrease, added to an empty global delta.  The merge raises no error, and
    the operations [PickFlushEntry] then takes out, each read at the entry its key names and in the
    order of the checkpoint file, lead from that catalog to exactly the live entries the history
    leads to, with the same data: nothing dropped comes back, nothing created is lost, and updates
    meet the entries they were made on. *)
Theorem delta_merge_correct c0 g entries history max_commit_ts :
  closed c0 → Global.delta_ops_ g = [] →
  StronglySorted Z.le (Global.max_commit_ts_ g :: map max_commit_ts_ entries) →
  Forall (fun e => max_commit_ts_ e ≠ UNCOMMIT_TS) entries →
  concat (map operations_ entries) = map snd history →
  valid_history [] c0 history → Forall (fun h => Global.last_full_ckp_ts_ g < commit_ts_ h.2) history →
  ∃ g' picked,
    res_fold AddDeltaEntryInner g entries = Ok g' ∧
    operations_ (PickFlushEntry g' max_commit_ts).1 = map snd picked ∧
    Forall (fun h => op_on h.1 h.2) picked ∧
    ∀ x, path_wf x → live (apply_ops c0 picked x) = live (apply_ops c0 history x).
Proof.
  intros Hc Hg Hsorted Hcommit Hentries Hv Hts. set (full := Global.last_full_ckp_ts_ g) in *.
  destruct (merges_history full c0 Hc history [] c0 [] (merges_init full c0) Hv Hts) as (m & updates & Hf & Hm).
  rewrite <- Hentries, <- Hg in Hf.
  destruct (Inner_fold entries g m Hsorted Hcommit Hf) as (g' & Hg' & Hops' & Hfull').
  pose proof Hm as (Hs & Hops & _).
  assert (Hall : ∀ o, o ∈ map snd m → full < commit_ts_ o ∧ ∃ p, op_on p o).
  { intros o ([k o'] & -> & Hin)%list_elem_of_fmap. apply map_find_elem in Hin; [|done].
    destruct (Hops _ _ Hin) as (? & p & ? & _). split; [done|]. by exists p. }
  assert (Hfilter : filter (fun op => ¬ commit_ts_ op ≤ full) (map snd m) = map snd m).
  { apply filter_all, Forall_forall. intros o Ho. destruct (Hall o Ho). lia. }
  destruct (ops_paths (sort_by_type (map snd m))) as (picked & Hpicked & Hon).
  { apply Forall_forall. intros o Ho. rewrite sort_by_type_perm in Ho. by apply Hall. }
  exists g', picked. split; [done|]. split; [simpl; rewrite Hops', Hfull'; fold full; by rewrite Hfilter|]. split; [done|].
  intros x Hx. apply (read_merged full c0 updates _ m); [done| |done| |done].
  - rewrite Hpicked. apply sort_by_type_perm.
  - rewrite Hpicked. apply sort_by_type_sorted.
Qed.
End Properties.

(** ** Witnesses *)

(** A sort that satisfies the contract of [std::sort]. *)
#[refine] Definition merge_sort_by_type : TypeSort := {| sort_by_type := merge_sort type_le |}.
Proof.
  - intros l. apply merge_sort_Permutation.
  - intros l. apply StronglySorted_merge_sort.
    + intros x y z. unfold type_le. lia.
    + intros x y. unfold type_le. lia.
Defined.

Module Sample.
Definition db : EntryPath := DBPath (str "db").
Definition table : EntryPath := TablePath (str "db") (str "t").
Definition segment (id : Z) : EntryPath := SegmentPath (str "db") (str "t") id.

Definition segment_body (rows : Z) (filter_data : bytes) : OpBody :=
  AddSegmentEntryOp (Enumerator Status.kSealed) 1 rows rows 8192 1 9 18446744073709551615 0 filter_data.

(** A database with one table of one segment. *)
Definition c0 : AbsCatalog := fun x =>
  if decide (x = db) then Live (AddDBEntryOp (str "dir"))
  else if decide (x = table) then Live (AddTableEntryOp (str "t_dir") [] 0 0 1)
  else if decide (x = segment 0) then Live (segment_body 5 [])
  else Absent.

Definition op (ts : Z) (flag : MergeFlag) (p : EntryPath) (b : OpBody) : EntryPath * CatalogDeltaOperation :=
  (p, mkOp ts ts ts (Enumerator flag) (path_encode p) b).

(** The segment is updated; the table is dropped and created again with a new segment 0. *)
Definition history : list (EntryPath * CatalogDeltaOperation) :=
  [op 11 Merge.kUpdate (segment 0) (segment_body 6 (str "f"));
   op 12 Merge.kDelete table (AddTableEntryOp (str "t_dir") [] 0 0 1);
   op 13 Merge.kNew table (AddTableEntryOp (str "t_dir2") [] 0 0 1);
   op 13 Merge.kNew (segment 0) (segment_body 1 []);
   op 14 Merge.kUpdate (segment 0) (segment_body 2 (str "g"))].

Definition global : GlobalCatalogDeltaEntry := InitFullCheckpointTs 10 Global.new.

Definition entry (ts : Z) (l : list (EntryPath * CatalogDeltaOperation)) : CatalogDeltaEntry :=
  mkCatalogDeltaEntry [ts] ts 0 (map snd l).

Lemma c0_closed : closed c0.
Proof.
  intros a x Ha. unfold c0. destruct (decide (x = db)) as [->|_]; [by apply not_elem_of_nil in Ha|].
  destruct (decide (x = table)) as [->|_]; [|destruct (decide (x = segment 0)) as [->|_]; [|by intros]].
  all: simpl in Ha; rewrite ?elem_of_cons, elem_of_nil in Ha; destruct_or?; subst; by vm_compute.
Qed.

(** Two delta checkpoints: the first updates the table, in the second it is dropped and recreated. *)
Definition recreate_history : list (EntryPath * CatalogDeltaOperation) :=
  [op 11 Merge.kUpdate table (AddTableEntryOp (str "t_dir") [] 5 0 1);
   op 12 Merge.kDeleteAndNew table (AddTableEntryOp (str "t_dir2") [] 0 0 1)].
End Sample.

(** The case [valid_history] leaves out: merging a table's update with its later deletion and
    recreation, as replaying two delta checkpoints does, gives a plain creation.  Read back, the
    segment of the dropped table is live in the new one, although the two operations themselves
    remove it. *)
Theorem recreate_after_update_keeps_segments :
  res_fold (add_op 10) [] (map snd Sample.recreate_history)
  = Ok [(path_encode Sample.table, (Sample.op 12 Merge.kNew Sample.table (AddTableEntryOp (str "t_dir2") [] 0 0 1)).2)] ∧
  live (apply_ops Sample.c0 Sample.recreate_history (Sample.segment 0)) = None ∧
  live (apply_ops Sample.c0 [Sample.op 12 Merge.kNew Sample.table (AddTableEntryOp (str "t_dir2") [] 0 0 1)] (Sample.segment 0))
  = Some (Sample.segment_body 5 []).
Proof. split; [|split]; by vm_compute. Qed.

Example delta_merge_correct_witness :
  ∃ g' picked,
    res_fold AddDeltaEntryInner Sample.global [Sample.entry 14 Sample.history] = Ok g' ∧
    operations_ (PickFlushEntry (Sort := merge_sort_by_type) g' 14).1 = map snd picked ∧
    live (apply_ops Sample.c0 picked (Sample.segment 0)) = Some (Sample.segment_body 2 (str "g")).
Proof.
  destruct (delta_merge_correct (Sort := merge_sort_by_type) Sample.c0 Sample.global [Sample.entry 14 Sample.history]
              Sample.history 14 Sample.c0_closed) as (g' & picked & Hf & Hp & _ & Hx).
  - reflexivity.
  - repeat constructor; by vm_compute.
  - repeat constructor; by vm_compute.
  - reflexivity.
  - simpl. repeat match goal with |- valid_op _ _ _ _ ∧ _ => split; [split; [by vm_compute|]|] end; vm_compute; eauto.
  - repeat constructor; by vm_compute.
  - exists g', picked. split; [exact Hf|]. split; [exact Hp|].
    transitivity (live (apply_ops Sample.c0 Sample.history (Sample.segment 0))); [|by vm_compute].
    apply Hx. by vm_compute.
Defined.
