(* ===== verification/DeltaFile.v ===== *)
(** * Delta checkpoint files

    [Catalog::SaveDeltaCatalog], [Catalog::LoadFromFileDelta] and the loop of [Catalog::LoadFromFiles]
    over the delta checkpoints, from [src/src/storage/meta/catalog.cpp].  Writing out the data of
    blocks and segment indexes before the checkpoint is an argument ([flush_data]): it only has to
    come before the checkpoint file is written. *)

From Stdlib Require Import ZArith Lia.
From stdpp Require Import base list numbers gmap strings sets sorting.
From S2P Require Import Prelude Bytes Text Crc DataTypes ConstExpr TableDef IndexDef EntryKey OrdMap CatalogDelta GlobalDelta DeltaMerge LogFile.
Local Open Scope Z_scope.

Section DeltaFile.
Context `{Sort : !TypeSort}.
Context (flush_data : CatalogDeltaOperation → Z → FileSystem → FileSystem).

(** The operations whose data is flushed. *)
Definition flush_op (max_commit_ts : Z) (fs : FileSystem) (op : CatalogDeltaOperation) : FileSystem :=
  match GetType op with
  | DeltaOp.ADD_BLOCK_ENTRY | DeltaOp.ADD_SEGMENT_INDEX_ENTRY => flush_data op max_commit_ts fs
  | _ => fs
  end.

(** The result: whether there was nothing to save, the path, the files and the global delta. *)
Definition SaveDeltaCatalog (fs : FileSystem) (catalog_dir : bytes) (g : GlobalCatalogDeltaEntry) (max_commit_ts : Z)
    : result (bool * bytes * FileSystem * GlobalCatalogDeltaEntry) :=
  let delta_catalog_path := join catalog_dir (DeltaCheckpointFilename max_commit_ts) in
  let '(flush_delta_entry, g) := PickFlushEntry g max_commit_ts in
  match operations_ flush_delta_entry with
  | [] => Ok (true, delta_catalog_path, fs, g)
  | operations =>
      let fs := fold_left (flush_op max_commit_ts) operations fs in
      let? exp_size := Entry_GetSizeInBytes flush_delta_entry in
      let? buf := Entry_WriteAdv flush_delta_entry in
      if exp_size <? zlen buf then Err OutOfBounds
      else
        let act_size := zlen buf in
        if negb (exp_size =? act_size) then Err UnrecoverableError
        else Ok (false, delta_catalog_path, <[delta_catalog_path := buf]> fs, g)
  end.

Definition LoadFromFileDelta (fs : FileSystem) (catalog_path : bytes) : result CatalogDeltaEntry :=
  match fs !! catalog_path with
  | None => Err UnrecoverableError
  | Some data =>
      let file_size := cast i32 (zlen data) in
      if file_size <? 0 then Err LengthError
      else
        let buf := take (Z.to_nat file_size) data in
        let? '(catalog_delta_entry, _, _) := Entry_ReadAdv buf 0 file_size in
        match catalog_delta_entry with
        | None => Err UnrecoverableError
        | Some catalog_delta_entry =>
            let? n_bytes := Entry_GetSizeInBytes catalog_delta_entry in
            if negb (file_size =? n_bytes) then Err RecoverableError else Ok catalog_delta_entry
        end
  end.

(** The delta checkpoints of a recovery, merged in the order of the list; with the largest timestamp. *)
Definition load_delta (fs : FileSystem) (st : Z * GlobalCatalogDeltaEntry) (delta_ckp_info : FileInfo)
    : result (Z * GlobalCatalogDeltaEntry) :=
  let '(max_commit_ts, g) := st in
  let? catalog_delta_entry := LoadFromFileDelta fs (path_ delta_ckp_info) in
  let max_commit_ts := Z.max max_commit_ts (CatalogDelta.max_commit_ts_ catalog_delta_entry) in
  let? g := ReplayDeltaEntry g catalog_delta_entry in
  Ok (max_commit_ts, g).

Definition load_deltas (fs : FileSystem) (g : GlobalCatalogDeltaEntry) (delta_ckp_infos : list FileInfo)
    : result (Z * GlobalCatalogDeltaEntry) :=
  res_fold (load_delta fs) (0, g) delta_ckp_infos.

(** ** Lemmas *)

(** A file that holds a written entry loads as the entry. *)
Lemma load_written fs path e bs :
  Entry_wf e → Entry_WriteAdv e = Ok bs → fs !! path = Some bs → LoadFromFileDelta fs path = Ok (Entry_stored e).
Proof.
  intros Hwf Hw Hfs. destruct (ops_write_ok e Hwf) as [ops Ho].
  pose proof (Entry_WriteAdv_shape e ops Hwf Ho) as Hs. rewrite Hs in Hw. injection Hw as <-.
  pose proof (Entry_size_written e ops Hwf Ho) as Hsize. pose proof Hwf as (_ & _ & _ & Hlt). specialize (Hlt ops Ho).
  set (crc := makeCRC (delta_bytes e ops 0)) in *. unfold LoadFromFileDelta. rewrite Hfs.
  rewrite zlen_delta_bytes. zlen_facts. rewrite cast_i32_pos by lia. rewrite (proj2 (Z.ltb_ge _ _)) by lia.
  rewrite take_ge.
  2: { pose proof (zlen_delta_bytes e ops crc) as Hl. unfold zlen in Hl at 1. lia. }
  pose proof (Entry_ReadAdv_entry e ops [] [] Hwf Ho crc (24 + zlen ops) (makeCRC_range _)) as Hr.
  rewrite app_nil_r, Z.eqb_refl in Hr. simpl in Hr. change (zlen (@nil Z)) with 0 in Hr.
  rewrite Hr by lia. cbn [res_bind]. rewrite Entry_size_stored, Hsize by done. cbn [res_bind]. by rewrite Z.eqb_refl.
Qed.

(** ** Properties *)

(** C35. A delta checkpoint survives on disk: when there are operations to flush and they are well-formed, saving the
    delta catalog succeeds, leaves the global delta without operations, and loading the file it names
    gives the operations it took out, as stored ([Op_stored]: columns without the flag for a bloom
    filter, deleted indexes without their definition), with the timestamp of the checkpoint, whatever the
    data flushed before it. *)
Theorem delta_checkpoint_roundtrip fs catalog_dir g max_commit_ts :
  let e := (PickFlushEntry g max_commit_ts).1 in
  Entry_wf e → operations_ e ≠ [] →
  ∃ path fs' g',
    SaveDeltaCatalog fs catalog_dir g max_commit_ts = Ok (false, path, fs', g') ∧
    Global.delta_ops_ g' = [] ∧ Global.last_sequence_ g' = Global.last_sequence_ g ∧
    path = join catalog_dir (DeltaCheckpointFilename max_commit_ts) ∧
    LoadFromFileDelta fs' path = Ok (mkCatalogDeltaEntry [] max_commit_ts 0 (map Op_stored (operations_ e))).
Proof.
  unfold SaveDeltaCatalog. destruct (PickFlushEntry g max_commit_ts) as [e g'] eqn:Hp. cbn [fst]. intros Hwf Hne.
  assert (Hg : Global.delta_ops_ g' = [] ∧ Global.last_sequence_ g' = Global.last_sequence_ g ∧
    CatalogDelta.max_commit_ts_ e = max_commit_ts).
  { unfold PickFlushEntry in Hp. by injection Hp as <- <-. }
  destruct Hg as (Hg1 & Hg2 & Hts). destruct (ops_write_ok e Hwf) as [ops Ho].
  pose proof (Entry_WriteAdv_shape e ops Hwf Ho) as Hw. pose proof (Entry_size_written e ops Hwf Ho) as Hsize.
  destruct (operations_ e) as [|o l] eqn:Hops; [done|]. rewrite Hsize, Hw. cbn [res_bind].
  rewrite zlen_delta_bytes, Z.ltb_irrefl, Z.eqb_refl. cbn [negb].
  eexists _, _, g'. split; [reflexivity|]. split; [done|]. split; [done|]. split; [done|].
  rewrite <- Hops. erewrite load_written; [|done|exact Hw|by rewrite lookup_insert_eq].
  unfold Entry_stored. by rewrite Hts.
Qed.
End DeltaFile.

(** ** Witnesses *)

Example delta_checkpoint_roundtrip_witness :
  ∃ path fs' g',
    SaveDeltaCatalog (Sort := merge_sort_by_type) (fun _ _ fs => fs) ∅ (str "/c")
      (Global.mk 1 [] ∅ (map (fun op => (encode_ op, op)) (operations_ sample_delta)) ∅ 12 3 0) 12 = Ok (false, path, fs', g') ∧
    LoadFromFileDelta fs' path = Ok (mkCatalogDeltaEntry [] 12 0 (map Op_stored (operations_ sample_delta))).
Proof.
  destruct (delta_checkpoint_roundtrip (Sort := merge_sort_by_type) (fun _ _ fs => fs) ∅ (str "/c")
    (Global.mk 1 [] ∅ (map (fun op => (encode_ op, op)) (operations_ sample_delta)) ∅ 12 3 0) 12) as (path & fs' & g' & Hs & _ & _ & _ & Hl).
  - exact sample_delta_wf.
  - done.
  - exists path, fs', g'. split; [exact Hs|]. exact Hl.
Defined.
