(* ===== verification/WalEntry.v ===== *)
(** * Write-ahead log entries

    Models [src/src/storage/wal/wal_entry.cpp]: the commands a transaction logs, their binary
    codec, and the log entry with its header, checksum and trailing size.

    The block of rows an APPEND carries is a parameter of the file, used through the [Codec]
    interface; table and index definitions are the components of [TableDef] and [IndexDef]. *)

From Stdlib Require Import ZArith Lia List.
From stdpp Require Import base list numbers gmap strings.
From S2P Require Import Prelude Bytes Crc DataTypes TableDef IndexDef.
Local Open Scope Z_scope.

Module WalCommand.
Inductive WalCommandType :=
| INVALID | CREATE_DATABASE | DROP_DATABASE | CREATE_TABLE | DROP_TABLE | ALTER_INFO | CREATE_INDEX
| DROP_INDEX | IMPORT | APPEND | DELETE | SET_SEGMENT_STATUS_SEALED
| UPDATE_SEGMENT_BLOOM_FILTER_DATA | CHECKPOINT | COMPACT.

#[export] Instance WalCommandType_eq_dec : EqDecision WalCommandType.
Proof. solve_decision. Defined.

Definition WalCommandType_val (t : WalCommandType) : Z :=
  match t with
  | INVALID => 0 | CREATE_DATABASE => 1 | DROP_DATABASE => 2 | CREATE_TABLE => 3 | DROP_TABLE => 4
  | ALTER_INFO => 5 | CREATE_INDEX => 6 | DROP_INDEX => 7 | IMPORT => 20 | APPEND => 21
  | DELETE => 22 | SET_SEGMENT_STATUS_SEALED => 31 | UPDATE_SEGMENT_BLOOM_FILTER_DATA => 32
  | CHECKPOINT => 99 | COMPACT => 100
  end.

#[export, refine] Instance WalCommandType_enum : CEnum WalCommandType := {
  enum_ctype := i8;
  enum_val := WalCommandType_val;
  enum_of := enum_find WalCommandType_val
    [INVALID; CREATE_DATABASE; DROP_DATABASE; CREATE_TABLE; DROP_TABLE; ALTER_INFO; CREATE_INDEX;
     DROP_INDEX; IMPORT; APPEND; DELETE; SET_SEGMENT_STATUS_SEALED;
     UPDATE_SEGMENT_BLOOM_FILTER_DATA; CHECKPOINT; COMPACT];
}.
Proof. all: enum_laws. Defined.
End WalCommand.
Export (hints) WalCommand.
Import WalCommand.

(** ** Segment and block descriptions *)

Record WalBlockInfo := mkWalBlockInfo {
  block_id_ : Z;
  block_row_count_ : Z;
  block_row_capacity_ : Z;
  outline_infos_ : list (list (Z * Z));
}.

Record WalSegmentInfo := mkWalSegmentInfo {
  segment_id_ : Z;
  column_count_ : Z;
  row_count_ : Z;
  actual_row_count_ : Z;
  row_capacity_ : Z;
  block_infos_ : list WalBlockInfo;
}.

Definition WalBlockInfo_GetSizeInBytes (this : WalBlockInfo) : Z :=
  let size := cast i32 (2 + 2 + 2) in
  let size := cast i32 (size + 4) in
  fold_left (fun size (v : list (Z * Z)) => cast i32 (size + (4 + zlen v * (4 + 8)))) (outline_infos_ this) size.

Definition write_outline (outline_info : list (Z * Z)) : bytes :=
  WriteBufAdv i32 (cast i32 (zlen outline_info))
  ++ concat (map (fun '(idx, off) => WriteBufAdv u32 idx ++ WriteBufAdv u64 off) outline_info).

Definition WalBlockInfo_WriteBufferAdv (this : WalBlockInfo) : bytes :=
  WriteBufAdv u16 (block_id_ this) ++ WriteBufAdv u16 (block_row_count_ this)
  ++ WriteBufAdv u16 (block_row_capacity_ this)
  ++ WriteBufAdv i32 (cast i32 (zlen (outline_infos_ this)))
  ++ concat (map write_outline (outline_infos_ this)).

(** [resize] and the vector constructor take a [size_t]: a negative count raises. *)
Definition read_outline : Reader (list (Z * Z)) :=
  let! info_count := ReadBufAdv i32 in
  check! (0 <=? info_count) orelse LengthError in
  rfor info_count
    (let! buffer_cnt := ReadBufAdv u32 in
     let! last_chunk_offset := ReadBufAdv u64 in
     rret (buffer_cnt, last_chunk_offset)).

Definition WalBlockInfo_ReadBufferAdv : Reader WalBlockInfo :=
  let! block_id := ReadBufAdv u16 in
  let! row_count := ReadBufAdv u16 in
  let! row_capacity := ReadBufAdv u16 in
  let! count := ReadBufAdv i32 in
  check! (0 <=? count) orelse LengthError in
  let! outline_infos := rfor count read_outline in
  rret (mkWalBlockInfo block_id row_count row_capacity outline_infos).

Definition WalSegmentInfo_GetSizeInBytes (this : WalSegmentInfo) : Z :=
  let size := cast i32 (4 + 8 + 8 + 8 + 8) in
  let size := cast i32 (size + 4) in
  fold_left (fun size block_info => cast i32 (size + WalBlockInfo_GetSizeInBytes block_info))
    (block_infos_ this) size.

Definition WalSegmentInfo_WriteBufferAdv (this : WalSegmentInfo) : bytes :=
  WriteBufAdv u32 (segment_id_ this) ++ WriteBufAdv u64 (column_count_ this)
  ++ WriteBufAdv u64 (row_count_ this) ++ WriteBufAdv u64 (actual_row_count_ this)
  ++ WriteBufAdv u64 (row_capacity_ this)
  ++ WriteBufAdv i32 (cast i32 (zlen (block_infos_ this)))
  ++ concat (map WalBlockInfo_WriteBufferAdv (block_infos_ this)).

Definition WalSegmentInfo_ReadBufferAdv : Reader WalSegmentInfo :=
  let! segment_id := ReadBufAdv u32 in
  let! column_count := ReadBufAdv u64 in
  let! row_count := ReadBufAdv u64 in
  let! actual_row_count := ReadBufAdv u64 in
  let! row_capacity := ReadBufAdv u64 in
  let! count := ReadBufAdv i32 in
  let! block_infos := rfor count WalBlockInfo_ReadBufferAdv in
  rret (mkWalSegmentInfo segment_id column_count row_count actual_row_count row_capacity block_infos).

(** ** Commands *)

Section commands.
Context {B : Type} `{!Codec B}.

Inductive WalCmd :=
| WalCmdCreateDatabase (db_name_ db_dir_tail_ : bytes)
| WalCmdDropDatabase (db_name_ : bytes)
| WalCmdCreateTable (db_name_ table_dir_tail_ : bytes) (table_def_ : TableDef)
| WalCmdCreateIndex (db_name_ table_name_ index_dir_tail_ : bytes) (index_base_ : IndexBase)
| WalCmdDropTable (db_name_ table_name_ : bytes)
| WalCmdDropIndex (db_name_ table_name_ index_name_ : bytes)
| WalCmdImport (db_name_ table_name_ : bytes) (segment_info_ : WalSegmentInfo)
| WalCmdAppend (db_name_ table_name_ : bytes) (block_ : B)
| WalCmdDelete (db_name_ table_name_ : bytes) (row_ids_ : list Z)
| WalCmdSetSegmentStatusSealed (db_name_ table_name_ : bytes) (segment_id_ : Z)
    (segment_filter_binary_data_ : bytes) (block_filter_binary_data_ : list (Z * bytes))
| WalCmdUpdateSegmentBloomFilterData (db_name_ table_name_ : bytes) (segment_id_ : Z)
    (segment_filter_binary_data_ : bytes) (block_filter_binary_data_ : list (Z * bytes))
| WalCmdCheckpoint (max_commit_ts_ : Z) (is_full_checkpoint_ : bool) (catalog_path_ : bytes)
| WalCmdCompact (db_name_ table_name_ : bytes) (new_segment_infos_ : list WalSegmentInfo)
    (deprecated_segment_ids_ : list Z).

Definition GetType (this : WalCmd) : WalCommandType :=
  match this with
  | WalCmdCreateDatabase _ _ => CREATE_DATABASE
  | WalCmdDropDatabase _ => DROP_DATABASE
  | WalCmdCreateTable _ _ _ => CREATE_TABLE
  | WalCmdCreateIndex _ _ _ _ => CREATE_INDEX
  | WalCmdDropTable _ _ => DROP_TABLE
  | WalCmdDropIndex _ _ _ => DROP_INDEX
  | WalCmdImport _ _ _ => IMPORT
  | WalCmdAppend _ _ _ => APPEND
  | WalCmdDelete _ _ _ => DELETE
  | WalCmdSetSegmentStatusSealed _ _ _ _ _ => SET_SEGMENT_STATUS_SEALED
  | WalCmdUpdateSegmentBloomFilterData _ _ _ _ _ => UPDATE_SEGMENT_BLOOM_FILTER_DATA
  | WalCmdCheckpoint _ _ _ => CHECKPOINT
  | WalCmdCompact _ _ _ _ => COMPACT
  end.

(** The filter data of the blocks of a segment. *)
Definition block_filters_size (sz : Z) (l : list (Z * bytes)) : Z :=
  fold_left (fun sz data => cast i32 (sz + (2 + GetSizeInBytes_string data.2))) l sz.

Definition segment_filter_size (db_name table_name filter : bytes) (l : list (Z * bytes)) : Z :=
  let sz := cast i32 (1 + GetSizeInBytes_string db_name + GetSizeInBytes_string table_name + 4
                      + GetSizeInBytes_string filter) in
  block_filters_size (cast i32 (sz + 4)) l.

Definition WalCmd_GetSizeInBytes (this : WalCmd) : result Z :=
  match this with
  | WalCmdCreateDatabase db_name db_dir_tail => Ok (cast i32 (1 + 4 + zlen db_name + 4 + zlen db_dir_tail))
  | WalCmdDropDatabase db_name => Ok (cast i32 (1 + 4 + zlen db_name))
  | WalCmdCreateTable db_name table_dir_tail table_def =>
      let? n := c_size table_def in Ok (cast i32 (1 + 4 + zlen db_name + 4 + zlen table_dir_tail + n))
  | WalCmdCreateIndex db_name table_name index_dir_tail index_base =>
      let? n := c_size index_base in
      Ok (cast i32 (1 + 4 + zlen db_name + 4 + zlen table_name + 4 + zlen index_dir_tail + n))
  | WalCmdDropTable db_name table_name => Ok (cast i32 (1 + 4 + zlen db_name + 4 + zlen table_name))
  | WalCmdDropIndex db_name table_name index_name =>
      Ok (cast i32 (1 + 4 + zlen db_name + 4 + zlen table_name + 4 + zlen index_name))
  | WalCmdImport db_name table_name segment_info =>
      Ok (cast i32 (1 + 4 + zlen db_name + 4 + zlen table_name + WalSegmentInfo_GetSizeInBytes segment_info))
  | WalCmdAppend db_name table_name block =>
      let? n := c_size block in Ok (cast i32 (1 + 4 + zlen db_name + 4 + zlen table_name + n))
  | WalCmdDelete db_name table_name row_ids =>
      Ok (cast i32 (1 + 4 + zlen db_name + 4 + zlen table_name + 4 + zlen row_ids * 8))
  | WalCmdSetSegmentStatusSealed db_name table_name _ filter l =>
      Ok (segment_filter_size db_name table_name filter l)
  | WalCmdUpdateSegmentBloomFilterData db_name table_name _ filter l =>
      Ok (segment_filter_size db_name table_name filter l)
  | WalCmdCheckpoint _ _ catalog_path => Ok (cast i32 (1 + 8 + 1 + 4 + zlen catalog_path))
  | WalCmdCompact db_name table_name new_segment_infos deprecated_segment_ids =>
      let size := cast i32 (1 + 4 + zlen db_name + 4 + zlen table_name + 4) in
      let size := fold_left (fun size s => cast i32 (size + WalSegmentInfo_GetSizeInBytes s))
                    new_segment_infos size in
      Ok (cast i32 (size + 4 + zlen deprecated_segment_ids * 4))
  end.

Definition write_block_filters (l : list (Z * bytes)) : bytes :=
  WriteBufAdv i32 (cast i32 (zlen l))
  ++ concat (map (fun data => WriteBufAdv u16 data.1 ++ WriteBufAdv_string data.2) l).

Definition WalCmd_WriteAdv (this : WalCmd) : result bytes :=
  let head := WriteBufAdv_enum (Enumerator (GetType this)) in
  match this with
  | WalCmdCreateDatabase db_name db_dir_tail =>
      Ok (head ++ WriteBufAdv_string db_name ++ WriteBufAdv_string db_dir_tail)
  | WalCmdDropDatabase db_name => Ok (head ++ WriteBufAdv_string db_name)
  | WalCmdCreateTable db_name table_dir_tail table_def =>
      let? td := c_write table_def in
      Ok (head ++ WriteBufAdv_string db_name ++ WriteBufAdv_string table_dir_tail ++ td)
  | WalCmdCreateIndex db_name table_name index_dir_tail index_base =>
      let? ib := c_write index_base in
      Ok (head ++ WriteBufAdv_string db_name ++ WriteBufAdv_string table_name
          ++ WriteBufAdv_string index_dir_tail ++ ib)
  | WalCmdDropTable db_name table_name =>
      Ok (head ++ WriteBufAdv_string db_name ++ WriteBufAdv_string table_name)
  | WalCmdDropIndex db_name table_name index_name =>
      Ok (head ++ WriteBufAdv_string db_name ++ WriteBufAdv_string table_name
          ++ WriteBufAdv_string index_name)
  | WalCmdImport db_name table_name segment_info =>
      Ok (head ++ WriteBufAdv_string db_name ++ WriteBufAdv_string table_name
          ++ WalSegmentInfo_WriteBufferAdv segment_info)
  | WalCmdAppend db_name table_name block =>
      let? bl := c_write block in
      Ok (head ++ WriteBufAdv_string db_name ++ WriteBufAdv_string table_name ++ bl)
  | WalCmdDelete db_name table_name row_ids =>
      Ok (head ++ WriteBufAdv_string db_name ++ WriteBufAdv_string table_name
          ++ WriteBufAdv i32 (cast i32 (zlen row_ids)) ++ concat (map (WriteBufAdv u64) row_ids))
  | WalCmdSetSegmentStatusSealed db_name table_name segment_id filter l
  | WalCmdUpdateSegmentBloomFilterData db_name table_name segment_id filter l =>
      Ok (head ++ WriteBufAdv_string db_name ++ WriteBufAdv_string table_name
          ++ WriteBufAdv u32 segment_id ++ WriteBufAdv_string filter ++ write_block_filters l)
  | WalCmdCheckpoint max_commit_ts is_full_checkpoint catalog_path =>
      Ok (head ++ WriteBufAdv i64 max_commit_ts ++ WriteBufAdv i8 (if is_full_checkpoint : bool then 1 else 0)
          ++ WriteBufAdv_string catalog_path)
  | WalCmdCompact db_name table_name new_segment_infos deprecated_segment_ids =>
      Ok (head ++ WriteBufAdv_string db_name ++ WriteBufAdv_string table_name
          ++ WriteBufAdv i32 (cast i32 (zlen new_segment_infos))
          ++ concat (map WalSegmentInfo_WriteBufferAdv new_segment_infos)
          ++ WriteBufAdv i32 (cast i32 (zlen deprecated_segment_ids))
          ++ concat (map (WriteBufAdv u32) deprecated_segment_ids))
  end.

Definition read_block_filters : Reader (list (Z * bytes)) :=
  let! count := ReadBufAdv i32 in
  check! (0 <=? count) orelse LengthError in
  rfor count
    (let! first := ReadBufAdv u16 in
     let! second := ReadBufAdv_string in
     rret (first, second)).

Definition WalCmd_ReadAdv (max_bytes : Z) : Reader WalCmd :=
  let! ptr := tell in
  let ptr_end := ptr + max_bytes in
  let! cmd_type := ReadBufAdv_enum (E:=WalCommandType) in
  let! cmd :=
    match cmd_type with
    | Enumerator CREATE_DATABASE =>
        let! db_name := ReadBufAdv_string in
        let! db_dir_tail := ReadBufAdv_string in
        rret (WalCmdCreateDatabase db_name db_dir_tail)
    | Enumerator DROP_DATABASE =>
        let! db_name := ReadBufAdv_string in
        rret (WalCmdDropDatabase db_name)
    | Enumerator CREATE_TABLE =>
        let! db_name := ReadBufAdv_string in
        let! table_dir_tail := ReadBufAdv_string in
        let! ptr := tell in
        let! table_def := c_read (room ptr_end ptr) in
        rret (WalCmdCreateTable db_name table_dir_tail table_def)
    | Enumerator DROP_TABLE =>
        let! db_name := ReadBufAdv_string in
        let! table_name := ReadBufAdv_string in
        rret (WalCmdDropTable db_name table_name)
    | Enumerator IMPORT =>
        let! db_name := ReadBufAdv_string in
        let! table_name := ReadBufAdv_string in
        let! segment_info := WalSegmentInfo_ReadBufferAdv in
        rret (WalCmdImport db_name table_name segment_info)
    | Enumerator APPEND =>
        let! db_name := ReadBufAdv_string in
        let! table_name := ReadBufAdv_string in
        let! ptr := tell in
        let! block := c_read (room ptr_end ptr) in
        rret (WalCmdAppend db_name table_name block)
    | Enumerator DELETE =>
        let! db_name := ReadBufAdv_string in
        let! table_name := ReadBufAdv_string in
        let! cnt := ReadBufAdv i32 in
        let! row_ids := rfor cnt (ReadBufAdv u64) in
        rret (WalCmdDelete db_name table_name row_ids)
    | Enumerator SET_SEGMENT_STATUS_SEALED =>
        let! db_name := ReadBufAdv_string in
        let! table_name := ReadBufAdv_string in
        let! segment_id := ReadBufAdv u32 in
        let! filter := ReadBufAdv_string in
        let! l := read_block_filters in
        rret (WalCmdSetSegmentStatusSealed db_name table_name segment_id filter l)
    | Enumerator UPDATE_SEGMENT_BLOOM_FILTER_DATA =>
        let! db_name := ReadBufAdv_string in
        let! table_name := ReadBufAdv_string in
        let! segment_id := ReadBufAdv u32 in
        let! filter := ReadBufAdv_string in
        let! l := read_block_filters in
        rret (WalCmdUpdateSegmentBloomFilterData db_name table_name segment_id filter l)
    | Enumerator CHECKPOINT =>
        let! max_commit_ts := ReadBufAdv i64 in
        let! is_full_checkpoint := ReadBufAdv i8 in
        let! catalog_path := ReadBufAdv_string in
        rret (WalCmdCheckpoint max_commit_ts (negb (is_full_checkpoint =? 0)) catalog_path)
    | Enumerator CREATE_INDEX =>
        let! db_name := ReadBufAdv_string in
        let! table_name := ReadBufAdv_string in
        let! index_dir_tail := ReadBufAdv_string in
        let! ptr := tell in
        let! index_base := c_read (room ptr_end ptr) in
        rret (WalCmdCreateIndex db_name table_name index_dir_tail index_base)
    | Enumerator DROP_INDEX =>
        let! db_name := ReadBufAdv_string in
        let! table_name := ReadBufAdv_string in
        let! index_name := ReadBufAdv_string in
        rret (WalCmdDropIndex db_name table_name index_name)
    | Enumerator COMPACT =>
        let! db_name := ReadBufAdv_string in
        let! table_name := ReadBufAdv_string in
        let! new_segment_n := ReadBufAdv i32 in
        let! new_segment_infos := rfor new_segment_n WalSegmentInfo_ReadBufferAdv in
        let! deprecated_n := ReadBufAdv i32 in
        let! deprecated_segment_ids := rfor deprecated_n (ReadBufAdv u32) in
        rret (WalCmdCompact db_name table_name new_segment_infos deprecated_segment_ids)
    | Enumerator (INVALID | ALTER_INFO) | Unnamed _ => rfail UnrecoverableError
    end in
  let! ptr' := tell in
  check! (0 <=? room ptr_end ptr') orelse UnrecoverableError in
  rret cmd.

(** ** Entries *)

Record WalEntry := mkWalEntry {
  size_ : Z;
  checksum_ : Z;
  txn_id_ : Z;
  commit_ts_ : Z;
  cmds_ : list WalCmd;
}.

(** [sizeof(WalEntryHeader)] and the offset of its checksum. *)
Definition header_size : Z := 24.
Definition checksum_offset : Z := 4.

Definition WalEntry_GetSizeInBytes (this : WalEntry) : result Z :=
  let size := cast i32 (header_size + 4) in
  let? size := res_fold (fun size cmd => let? n := WalCmd_GetSizeInBytes cmd in Ok (cast i32 (size + n)))
                 size (cmds_ this) in
  Ok (cast i32 (size + 4)).

Definition WalEntryHeader_bytes (size checksum txn_id commit_ts : Z) : bytes :=
  WriteBufAdv i32 size ++ WriteBufAdv u32 checksum ++ WriteBufAdv i64 txn_id ++ WriteBufAdv u64 commit_ts.

(** The header is copied from the object first; size and checksum are filled in once the commands
    are written, the checksum over the entry with a zero checksum. *)
Definition WalEntry_WriteAdv (this : WalEntry) : result bytes :=
  let header := WalEntryHeader_bytes (size_ this) (checksum_ this) (txn_id_ this) (commit_ts_ this) in
  let? cmds := write_all WalCmd_WriteAdv (cmds_ this) in
  let buf := header ++ WriteBufAdv i32 (cast i32 (zlen (cmds_ this))) ++ cmds in
  let size := cast i32 (zlen buf + 4) in
  let buf := buf ++ WriteBufAdv i32 size in
  let? buf := store buf 0 (WriteBufAdv i32 size) in
  let? buf := store buf checksum_offset (WriteBufAdv u32 0) in
  let checksum := makeCRC (take (Z.to_nat size) buf) in
  store buf checksum_offset (WriteBufAdv u32 checksum).

(** The loop over the commands: [Ok None] is the early [return nullptr]. *)
Fixpoint read_cmds (ptr_end : Z) (cnt : nat) : Reader (option (list WalCmd)) :=
  match cnt with
  | O => rret (Some [])
  | S cnt' =>
      let! ptr := tell in
      let max_bytes := room ptr_end ptr in
      if max_bytes <=? 0 then rret None
      else
        let! cmd := WalCmd_ReadAdv max_bytes in
        let! rest := read_cmds ptr_end cnt' in
        rret (cons cmd <$> rest)
  end.

(** [buf] is the whole buffer and [ptr] an offset into it.  The result is the entry or a null
    pointer, the buffer (the header checksum is overwritten in place) and the new [ptr]. *)
Definition WalEntry_ReadAdv (buf : bytes) (ptr max_bytes : Z) : result (option WalEntry * bytes * Z) :=
  let ptr_end := ptr + max_bytes in
  if max_bytes <=? 0 then Ok (None, buf, ptr)
  else
    let? size := load i32 buf ptr in
    let? checksum := load u32 buf (ptr + 4) in
    let? txn_id := load i64 buf (ptr + 8) in
    let? commit_ts := load u64 buf (ptr + 16) in
    let? size2 := load i32 buf (ptr + size - 4) in
    if negb (size =? size2) then Ok (None, buf, ptr)
    else
      let? buf := store buf (ptr + checksum_offset) (WriteBufAdv u32 0) in
      if negb (bool_decide (0 ≤ size ∧ ptr + size ≤ zlen buf)) then Err OutOfBounds
      else
        let checksum2 := makeCRC (take (Z.to_nat size) (drop (Z.to_nat ptr) buf)) in
        if negb (checksum =? checksum2) then Ok (None, buf, ptr)
        else
          (* offsets of [buf] and the addresses of [tell] differ by the length of [buf] *)
          let run :=
            (let! cnt := ReadBufAdv i32 in
             read_cmds (ptr_end - zlen buf) (Z.to_nat cnt)) in
          let? '(cmds, cur) := run (drop (Z.to_nat (ptr + header_size)) buf) in
          match cmds with
          | None => Ok (None, buf, zlen buf - zlen cur)
          | Some cmds =>
              let ptr' := zlen buf - zlen cur + 4 in
              if cast i32 (ptr_end - ptr') <? 0 then Ok (None, buf, ptr')
              else Ok (Some (mkWalEntry size checksum txn_id commit_ts cmds), buf, ptr')
          end.

Definition IsCheckPoint (this : WalEntry) : bool :=
  existsb (fun cmd => bool_decide (GetType cmd = CHECKPOINT)) (cmds_ this).

(** [IsCheckPoint(replay_entries, checkpoint_cmd)]: the vector is a parameter by value, so the
    entry with the commands after the checkpoint is pushed to a copy; the result holds the vector
    and the pointer the caller is left with. *)
Fixpoint split_checkpoint (cmds : list WalCmd) : option (WalCmd * list WalCmd) :=
  match cmds with
  | [] => None
  | cmd :: tail => if bool_decide (GetType cmd = CHECKPOINT) then Some (cmd, tail) else split_checkpoint tail
  end.

Definition IsCheckPoint_replay (this : WalEntry) (replay_entries : list WalEntry)
    (checkpoint_cmd : option WalCmd) : bool * list WalEntry * option WalCmd :=
  match split_checkpoint (cmds_ this) with
  | None => (false, replay_entries, checkpoint_cmd)
  | Some (cmd, tail_cmds) =>
      let local_replay_entries :=
        match tail_cmds with
        | [] => replay_entries
        | _ => replay_entries ++ [mkWalEntry 0 0 (txn_id_ this) (commit_ts_ this) tail_cmds]
        end in
      let _ := local_replay_entries in
      (true, replay_entries, Some cmd)
  end.
End commands.
Arguments WalCmd : clear implicits.
Arguments WalEntry : clear implicits.

(** ** Well-formed commands *)

Definition outline_wf (l : list (Z * Z)) : Prop :=
  len_ok l ∧ Forall (fun '(idx, off) => in_range u32 idx ∧ in_range u64 off) l.

Definition WalBlockInfo_wf (b : WalBlockInfo) : Prop :=
  in_range u16 (block_id_ b) ∧ in_range u16 (block_row_count_ b) ∧ in_range u16 (block_row_capacity_ b) ∧
  len_ok (outline_infos_ b) ∧ Forall outline_wf (outline_infos_ b).

Definition WalSegmentInfo_wf (s : WalSegmentInfo) : Prop :=
  in_range u32 (segment_id_ s) ∧ in_range u64 (column_count_ s) ∧ in_range u64 (row_count_ s) ∧
  in_range u64 (actual_row_count_ s) ∧ in_range u64 (row_capacity_ s) ∧
  len_ok (block_infos_ s) ∧ Forall WalBlockInfo_wf (block_infos_ s).

Definition filters_wf (l : list (Z * bytes)) : Prop :=
  len_ok l ∧ Forall (fun data => in_range u16 data.1 ∧ str_ok data.2) l.

(** ** Lemmas: segment and block descriptions *)

Lemma read_outline_write l rest : outline_wf l → read_outline (write_outline l ++ rest) = Ok (l, rest).
Proof.
  intros [Hl Hf]. unfold read_outline, write_outline. read_fields.
  rewrite (cast_id i32) by (by apply len_range).
  rewrite rbind_check by (apply Z.leb_le, zlen_nonneg). apply rfor_write; [done|].
  intros [idx off] Hx r. apply (proj1 (Forall_forall _ _) Hf) in Hx as [??]. by read_fields.
Qed.

Lemma WalBlockInfo_ReadBufferAdv_write b rest :
  WalBlockInfo_wf b → WalBlockInfo_ReadBufferAdv (WalBlockInfo_WriteBufferAdv b ++ rest) = Ok (b, rest).
Proof.
  intros (? & ? & ? & Hl & Hf). destruct b; simpl in *.
  unfold WalBlockInfo_ReadBufferAdv, WalBlockInfo_WriteBufferAdv. simpl. read_fields.
  rewrite (cast_id i32) by (by apply len_range). rewrite rbind_check by (apply Z.leb_le, zlen_nonneg).
  erewrite rbind_step; [done|]. apply rfor_write; [done|].
  intros x Hx r. apply read_outline_write. by eapply Forall_forall in Hf.
Qed.

Lemma WalSegmentInfo_ReadBufferAdv_write s rest :
  WalSegmentInfo_wf s → WalSegmentInfo_ReadBufferAdv (WalSegmentInfo_WriteBufferAdv s ++ rest) = Ok (s, rest).
Proof.
  intros (? & ? & ? & ? & ? & Hl & Hf). destruct s; simpl in *.
  unfold WalSegmentInfo_ReadBufferAdv, WalSegmentInfo_WriteBufferAdv. simpl. read_fields.
  rewrite (cast_id i32) by (by apply len_range).
  erewrite rbind_step; [done|]. apply rfor_write; [done|].
  intros x Hx r. apply WalBlockInfo_ReadBufferAdv_write. by eapply Forall_forall in Hf.
Qed.

Lemma read_block_filters_write l rest :
  filters_wf l → read_block_filters (write_block_filters l ++ rest) = Ok (l, rest).
Proof.
  intros [Hl Hf]. unfold read_block_filters, write_block_filters. read_fields.
  rewrite (cast_id i32) by (by apply len_range). rewrite rbind_check by (apply Z.leb_le, zlen_nonneg).
  apply rfor_write; [done|]. intros [id s] Hx r. apply (proj1 (Forall_forall _ _) Hf) in Hx as [??]. by read_fields.
Qed.

Lemma zlen_pairs (l : list (Z * Z)) :
  zlen (concat (map (fun '(idx, off) => WriteBufAdv u32 idx ++ WriteBufAdv u64 off) l)) = zlen l * (4 + 8).
Proof.
  induction l as [|[idx off] l IH]; simpl; [done|]. rewrite zlen_app, zlen_cons, IH.
  autorewrite with wsize. simpl. lia.
Qed.

Lemma zlen_write_outline l : zlen (write_outline l) = 4 + zlen l * (4 + 8).
Proof. unfold write_outline. rewrite zlen_app, zlen_pairs, zlen_WriteBufAdv. done. Qed.

Lemma WalBlockInfo_size_written b :
  WalBlockInfo_GetSizeInBytes b = cast i32 (zlen (WalBlockInfo_WriteBufferAdv b)).
Proof.
  unfold WalBlockInfo_GetSizeInBytes, WalBlockInfo_WriteBufferAdv.
  rewrite (fold_left_size write_outline).
  - solve_ceq. wsize_lia.
  - intros l _. unfold ceq. by rewrite zlen_write_outline.
Qed.

Lemma WalSegmentInfo_size_written s :
  WalSegmentInfo_GetSizeInBytes s = cast i32 (zlen (WalSegmentInfo_WriteBufferAdv s)).
Proof.
  unfold WalSegmentInfo_GetSizeInBytes, WalSegmentInfo_WriteBufferAdv.
  rewrite (fold_left_size WalBlockInfo_WriteBufferAdv).
  - solve_ceq. wsize_lia.
  - intros b _. rewrite WalBlockInfo_size_written. apply ceq_cast.
Qed.

Lemma block_filters_size_written acc l :
  block_filters_size (cast i32 acc) l = cast i32 (acc + (zlen (write_block_filters l) - 4)).
Proof.
  unfold block_filters_size, write_block_filters.
  rewrite (fold_left_size (fun data => WriteBufAdv u16 data.1 ++ WriteBufAdv_string data.2)).
  - f_equal. autorewrite with wsize. simpl. lia.
  - intros [id s] _. unfold GetSizeInBytes_string. rewrite ceq_cast. unfold ceq. f_equal.
    simpl. autorewrite with wsize. simpl. lia.
Qed.

(** ** Lemmas: commands *)

Section command_lemmas.
Context {B : Type} `{!Codec B}.

Definition WalCmd_wf (cmd : WalCmd B) : Prop :=
  match cmd with
  | WalCmdCreateDatabase a b => str_ok a ∧ str_ok b
  | WalCmdDropDatabase a => str_ok a
  | WalCmdCreateTable a b td => str_ok a ∧ str_ok b ∧ c_wf td
  | WalCmdCreateIndex a b c ib => str_ok a ∧ str_ok b ∧ str_ok c ∧ c_wf ib
  | WalCmdDropTable a b => str_ok a ∧ str_ok b
  | WalCmdDropIndex a b c => str_ok a ∧ str_ok b ∧ str_ok c
  | WalCmdImport a b s => str_ok a ∧ str_ok b ∧ WalSegmentInfo_wf s
  | WalCmdAppend a b bl => str_ok a ∧ str_ok b ∧ c_wf bl
  | WalCmdDelete a b rows => str_ok a ∧ str_ok b ∧ len_ok rows ∧ Forall (in_range u64) rows
  | WalCmdSetSegmentStatusSealed a b s f l | WalCmdUpdateSegmentBloomFilterData a b s f l =>
      str_ok a ∧ str_ok b ∧ in_range u32 s ∧ str_ok f ∧ filters_wf l
  | WalCmdCheckpoint ts _ p => in_range i64 ts ∧ str_ok p
  | WalCmdCompact a b ss ids =>
      str_ok a ∧ str_ok b ∧ len_ok ss ∧ Forall WalSegmentInfo_wf ss ∧
      len_ok ids ∧ Forall (in_range u32) ids
  end.

(** Commands whose announced size is exact. *)
Definition WalCmd_exact (cmd : WalCmd B) : Prop :=
  match cmd with
  | WalCmdCreateTable _ _ td => c_exact td
  | WalCmdCreateIndex _ _ _ ib => c_exact ib
  | WalCmdAppend _ _ bl => c_exact bl
  | _ => True
  end.

Definition WalCmd_stored (cmd : WalCmd B) : WalCmd B :=
  match cmd with
  | WalCmdCreateTable a b td => WalCmdCreateTable a b (c_stored td)
  | WalCmdCreateIndex a b c ib => WalCmdCreateIndex a b c (c_stored ib)
  | WalCmdAppend a b bl => WalCmdAppend a b (c_stored bl)
  | _ => cmd
  end.

Lemma WalCmd_WriteAdv_ok cmd : WalCmd_wf cmd → ∃ bs, WalCmd_WriteAdv cmd = Ok bs.
Proof.
  intros H. destruct cmd; simpl in *; try (eexists; reflexivity); destruct_and?.
  - destruct (c_write_ok table_def_) as [bs Hbs]; [done|]. simpl in Hbs. rewrite Hbs. by eexists.
  - destruct (c_write_ok block_) as [bs Hbs]; [done|]. rewrite Hbs. by eexists.
Qed.

Lemma zlen_fields t (l : list Z) : zlen (concat (map (WriteBufAdv t) l)) = Z.of_nat (sizeof t) * zlen l.
Proof.
  induction l as [|x l IH]; simpl; [by rewrite Z.mul_0_r|]. rewrite zlen_app, zlen_cons, IH.
  rewrite zlen_WriteBufAdv. lia.
Qed.

Lemma WalCmd_size_written cmd bs :
  WalCmd_wf cmd → WalCmd_exact cmd → WalCmd_WriteAdv cmd = Ok bs →
  WalCmd_GetSizeInBytes cmd = Ok (cast i32 (zlen bs)).
Proof.
  intros Hwf Hx Hw. destruct cmd; cbn [WalCmd_WriteAdv WalCmd_GetSizeInBytes WalCmd_wf WalCmd_exact] in *;
    inv_ok; destruct_and?.
  all: try (rewrite (c_size_written _ _ ltac:(eassumption) ltac:(eassumption) ltac:(eassumption)); cbn [res_bind]).
  all: unfold segment_filter_size, GetSizeInBytes_string; f_equal.
  all: rewrite ?block_filters_size_written, ?WalSegmentInfo_size_written.
  all: try (solve_ceq; autorewrite with wsize; rewrite ?zlen_fields; simpl; lia).
  rewrite (fold_left_size WalSegmentInfo_WriteBufferAdv).
  - solve_ceq. autorewrite with wsize. rewrite zlen_fields. simpl. lia.
  - intros s _. rewrite WalSegmentInfo_size_written. apply ceq_cast.
Qed.

Ltac read_list :=
  rewrite (cast_id i32) by (by apply len_range);
  erewrite rbind_step by (apply rfor_write; [done|]; intros; 
    first [apply ReadBufAdv_write | apply WalSegmentInfo_ReadBufferAdv_write];
    match goal with H : Forall _ ?l, H' : _ ∈ ?l |- _ => exact (proj1 (Forall_forall _ _) H _ H') end).

Lemma WalCmd_ReadAdv_write cmd bs max_bytes rest :
  WalCmd_wf cmd → WalCmd_WriteAdv cmd = Ok bs → zlen bs ≤ max_bytes < 2 ^ 31 →
  WalCmd_ReadAdv max_bytes (bs ++ rest) = Ok (WalCmd_stored cmd, rest).
Proof.
  intros Hwf Hw Hmax. unfold WalCmd_ReadAdv.
  destruct cmd; cbn [WalCmd_WriteAdv WalCmd_wf WalCmd_stored GetType] in *; inv_ok; destruct_and?;
    read_fields.
  all: try (rewrite room_id by (apply in_i32; wsize_lia);
    erewrite rbind_step by (apply c_read_write; [done|done|wsize_lia]); read_fields).
  all: try (read_room; done).
  all: try (erewrite rbind_step by (by apply WalSegmentInfo_ReadBufferAdv_write); read_fields; read_room; done).
  all: try (erewrite rbind_step by (by apply read_block_filters_write); read_fields; read_room; done).
  - read_list. read_fields. read_room. done.
  - erewrite rbind_step by (apply ReadBufAdv_write; destruct is_full_checkpoint_; solve_range).
    read_fields. read_room. destruct is_full_checkpoint_; done.
  - read_list. read_fields. read_list. read_fields. read_room. done.
Qed.
End command_lemmas.

(** ** Lemmas: entries *)

Section entry_lemmas.
Context {B : Type} `{!Codec B}.

(** What follows the checksum in an entry whose commands are written as [cmds]. *)
Definition entry_tail (e : WalEntry B) (cmds : bytes) (size : Z) : bytes :=
  WriteBufAdv i64 (txn_id_ e) ++ WriteBufAdv u64 (commit_ts_ e)
  ++ WriteBufAdv i32 (cast i32 (zlen (cmds_ e))) ++ cmds ++ WriteBufAdv i32 size.

(** The entry with checksum [crc]. *)
Definition entry_bytes (e : WalEntry B) (cmds : bytes) (crc : Z) : bytes :=
  let size := 32 + zlen cmds in
  WriteBufAdv i32 size ++ WriteBufAdv u32 crc ++ entry_tail e cmds size.

Definition entry_crc (e : WalEntry B) (cmds : bytes) : Z := makeCRC (entry_bytes e cmds 0).

Lemma zlen_entry_bytes e cmds crc : zlen (entry_bytes e cmds crc) = 32 + zlen cmds.
Proof. unfold entry_bytes, entry_tail. autorewrite with wsize. simpl. lia. Qed.

Definition WalEntry_wf (e : WalEntry B) : Prop :=
  in_range i64 (txn_id_ e) ∧ in_range u64 (commit_ts_ e) ∧ len_ok (cmds_ e) ∧
  Forall WalCmd_wf (cmds_ e) ∧
  (∀ cmds, write_all WalCmd_WriteAdv (cmds_ e) = Ok cmds → 32 + zlen cmds < 2 ^ 31).

Lemma cmds_write_ok e : WalEntry_wf e → ∃ cmds, write_all WalCmd_WriteAdv (cmds_ e) = Ok cmds.
Proof.
  intros (_ & _ & _ & Hc & _). apply write_all_ok. eapply Forall_impl; [done|]. apply WalCmd_WriteAdv_ok.
Qed.

Lemma WalEntry_WriteAdv_shape e cmds :
  WalEntry_wf e → write_all WalCmd_WriteAdv (cmds_ e) = Ok cmds →
  WalEntry_WriteAdv e = Ok (entry_bytes e cmds (entry_crc e cmds)).
Proof.
  intros Hwf Hc. pose proof Hwf as (_ & _ & _ & _ & Hlt). specialize (Hlt _ Hc).
  unfold WalEntry_WriteAdv. rewrite Hc. cbn [res_bind].
  assert (Hn : cast i32 (zlen (WalEntryHeader_bytes (size_ e) (checksum_ e) (txn_id_ e) (commit_ts_ e)
                   ++ WriteBufAdv i32 (cast i32 (zlen (cmds_ e))) ++ cmds) + 4) = 32 + zlen cmds).
  { unfold WalEntryHeader_bytes. autorewrite with wsize. simpl. rewrite cast_id; [lia|].
    apply in_i32. zlen_facts. lia. }
  rewrite Hn. set (n := 32 + zlen cmds).
  erewrite (store_at [] (WriteBufAdv i32 (size_ e)) (WriteBufAdv u32 (checksum_ e) ++ entry_tail e cmds n));
    [|by autorewrite with wsize|unfold WalEntryHeader_bytes, entry_tail; by rewrite <- !app_assoc|done].
  cbn [res_bind]. erewrite (store_at (WriteBufAdv i32 n) (WriteBufAdv u32 (checksum_ e)) (entry_tail e cmds n));
    [|by autorewrite with wsize|done|by autorewrite with wsize].
  cbn [res_bind]. erewrite (store_at (WriteBufAdv i32 n) (WriteBufAdv u32 0) (entry_tail e cmds n));
    [|by autorewrite with wsize|done|by autorewrite with wsize].
  rewrite take_zlen; [done|]. pose proof (zlen_entry_bytes e cmds 0) as Hz. unfold entry_bytes in Hz. fold n in Hz. lia.
Qed.

Lemma read_cmds_write l : ∀ cmds ptr_end rest,
  Forall WalCmd_wf l → write_all WalCmd_WriteAdv l = Ok cmds →
  0 < ptr_end + zlen rest → ptr_end + zlen cmds + zlen rest < 2 ^ 31 →
  read_cmds ptr_end (length l) (cmds ++ rest) = Ok (Some (map WalCmd_stored l), rest).
Proof.
  induction l as [|c l IH]; intros cmds ptr_end rest Hwf Hw H0 Hmax;
    rewrite ?write_all_cons, ?write_all_nil in Hw; inv_ok; cbn [length read_cmds map]; [done|].
  apply Forall_cons in Hwf as [Hc Hwf]. rewrite rbind_tell, room_id by (apply in_i32; wsize_lia).
  rewrite (proj2 (Z.leb_gt _ _)) by wsize_lia. rewrite <- app_assoc.
  erewrite rbind_step by (apply WalCmd_ReadAdv_write; [done|done|wsize_lia]).
  erewrite rbind_step by (apply IH; [done|done|wsize_lia..]). done.
Qed.

Lemma WalEntry_size_written e cmds :
  WalEntry_wf e → Forall WalCmd_exact (cmds_ e) → write_all WalCmd_WriteAdv (cmds_ e) = Ok cmds →
  WalEntry_GetSizeInBytes e = Ok (32 + zlen cmds).
Proof.
  intros (_ & _ & _ & Hwf & Hlt) Hx Hc. specialize (Hlt _ Hc). zlen_facts.
  unfold WalEntry_GetSizeInBytes. rewrite (fold_size_written WalCmd_WriteAdv _ _ cmds (header_size + 4)); [|clear Hc|done].
  - cbn [res_bind]. rewrite cast_add_l, cast_id; [f_equal; unfold header_size; lia|].
    apply in_i32. unfold header_size. lia.
  - intros cmd b acc Hin Hw. rewrite (WalCmd_size_written cmd b); [|by eapply Forall_forall..|done].
    cbn [res_bind]. by rewrite cast_add_l, cast_add_r.
Qed.

(** *** Reading an entry in place *)

Section in_place.
Context (e : WalEntry B) (cmds pre post : bytes).
Hypothesis Hwf : WalEntry_wf e.
Hypothesis Hcmds : write_all WalCmd_WriteAdv (cmds_ e) = Ok cmds.
Let n := 32 + zlen cmds.
Let count := WriteBufAdv i32 (cast i32 (zlen (cmds_ e))).

Lemma entry_size_range : 32 ≤ n < 2 ^ 31 ∧ in_range i32 n.
Proof using Hwf Hcmds.
  destruct Hwf as (_ & _ & _ & _ & Hlt). specialize (Hlt _ Hcmds). pose proof (zlen_nonneg cmds).
  split; [unfold n; lia|]. apply in_i32. unfold n. lia.
Qed.

(** The entry in its buffer, split at the checksum. *)
Lemma entry_split crc :
  pre ++ entry_bytes e cmds crc ++ post
  = (pre ++ WriteBufAdv i32 n) ++ WriteBufAdv u32 crc ++ entry_tail e cmds n ++ post.
Proof using. unfold entry_bytes. by rewrite <- !app_assoc. Qed.

Lemma entry_loads crc :
  in_range u32 crc →
  let buf := pre ++ entry_bytes e cmds crc ++ post in
  load i32 buf (zlen pre) = Ok n ∧ load u32 buf (zlen pre + 4) = Ok crc ∧
  load i64 buf (zlen pre + 8) = Ok (txn_id_ e) ∧ load u64 buf (zlen pre + 16) = Ok (commit_ts_ e) ∧
  load i32 buf (zlen pre + n - 4) = Ok n.
Proof using Hwf Hcmds.
  intros Hcrc buf. destruct entry_size_range as [_ Hn]. destruct Hwf as (Ht & Hts & _ & _).
  set (P8 := (pre ++ WriteBufAdv i32 n) ++ WriteBufAdv u32 crc).
  assert (HP8 : zlen P8 = zlen pre + 8) by (unfold P8; wsize_lia).
  assert (Hb : buf = P8 ++ entry_tail e cmds n ++ post).
  { unfold buf, P8. by rewrite entry_split, <- !app_assoc. }
  unfold entry_tail in Hb. rewrite <- !app_assoc in Hb. split_and!.
  - eapply load_at; [done| |done]. unfold buf, entry_bytes. by rewrite <- !app_assoc.
  - eapply load_at; [done|apply entry_split|wsize_lia].
  - eapply load_at; [done|exact Hb|lia].
  - eapply (load_at _ _ (P8 ++ WriteBufAdv i64 (txn_id_ e))); [done|by rewrite Hb, <- !app_assoc|wsize_lia].
  - eapply (load_at _ _ (P8 ++ WriteBufAdv i64 (txn_id_ e) ++ WriteBufAdv u64 (commit_ts_ e) ++ count ++ cmds));
      [done|by rewrite Hb, <- !app_assoc|unfold n, count; wsize_lia].
Qed.

Lemma entry_clear crc :
  store (pre ++ entry_bytes e cmds crc ++ post) (zlen pre + checksum_offset) (WriteBufAdv u32 0)
  = Ok (pre ++ entry_bytes e cmds 0 ++ post).
Proof using.
  rewrite !entry_split. apply store_at with (b := WriteBufAdv u32 crc);
    [by autorewrite with wsize|done|unfold checksum_offset; wsize_lia].
Qed.

(** The commands, read from behind the header to the trailing size. *)
Lemma entry_read_cmds max_bytes :
  n ≤ max_bytes < 2 ^ 31 →
  let buf := pre ++ entry_bytes e cmds 0 ++ post in
  (let! cnt := ReadBufAdv i32 in read_cmds (zlen pre + max_bytes - zlen buf) (Z.to_nat cnt))
    (drop (Z.to_nat (zlen pre + header_size)) buf)
  = Ok (Some (map WalCmd_stored (cmds_ e)), WriteBufAdv i32 n ++ post).
Proof using Hwf Hcmds.
  intros Hmax buf. destruct Hwf as (_ & _ & Hl & Hc & _).
  assert (Hz : zlen buf = zlen pre + n + zlen post).
  { unfold buf. rewrite !zlen_app, zlen_entry_bytes. fold n. lia. }
  set (P24 := pre ++ WriteBufAdv i32 n ++ WriteBufAdv u32 0 ++ WriteBufAdv i64 (txn_id_ e)
              ++ WriteBufAdv u64 (commit_ts_ e)).
  assert (Hb : buf = P24 ++ count ++ cmds ++ WriteBufAdv i32 n ++ post).
  { unfold buf, P24, entry_bytes, entry_tail, count. fold n. by rewrite <- !app_assoc. }
  rewrite Hz. rewrite Hb, drop_zlen_app by (unfold P24, header_size; wsize_lia).
  erewrite rbind_step by (apply ReadBufAdv_write, cast_range).
  rewrite (cast_id i32) by (by apply len_range). unfold zlen at 4. rewrite Nat2Z.id.
  apply read_cmds_write; [done|done|..]; unfold n in *; wsize_lia.
Qed.

(** The checksum in the buffer decides; everything else is as written. *)
Lemma WalEntry_ReadAdv_entry crc max_bytes :
  in_range u32 crc → n ≤ max_bytes < 2 ^ 31 →
  WalEntry_ReadAdv (pre ++ entry_bytes e cmds crc ++ post) (zlen pre) max_bytes
  = if crc =? entry_crc e cmds
    then Ok (Some (mkWalEntry n crc (txn_id_ e) (commit_ts_ e) (map WalCmd_stored (cmds_ e))),
             pre ++ entry_bytes e cmds 0 ++ post, zlen pre + n)
    else Ok (None, pre ++ entry_bytes e cmds 0 ++ post, zlen pre).
Proof using Hwf Hcmds.
  intros Hcrc Hmax. destruct (entry_loads crc Hcrc) as (L0 & L1 & L2 & L3 & L4).
  destruct entry_size_range as [Hr _]. unfold WalEntry_ReadAdv. rewrite (proj2 (Z.leb_gt _ _)) by lia.
  rewrite L0. cbn [res_bind]. rewrite L1. cbn [res_bind]. rewrite L2. cbn [res_bind].
  rewrite L3. cbn [res_bind]. rewrite L4. cbn [res_bind]. rewrite Z.eqb_refl. cbn [negb].
  rewrite entry_clear. cbn [res_bind].
  set (buf := pre ++ entry_bytes e cmds 0 ++ post).
  assert (Hz : zlen buf = zlen pre + n + zlen post).
  { unfold buf. rewrite !zlen_app, zlen_entry_bytes. fold n. lia. }
  rewrite bool_decide_eq_true_2 by (rewrite Hz; zlen_facts; lia). cbn [negb].
  assert (Ht : take (Z.to_nat n) (drop (Z.to_nat (zlen pre)) buf) = entry_bytes e cmds 0).
  { unfold buf. rewrite drop_zlen_app by done. apply take_zlen_app. by rewrite zlen_entry_bytes. }
  rewrite Ht. fold (entry_crc e cmds). destruct (crc =? entry_crc e cmds); [|done]. cbn [negb].
  unfold buf at 1 2. rewrite (entry_read_cmds max_bytes Hmax). cbn [res_bind]. fold buf.
  assert (Hp : zlen buf - zlen (WriteBufAdv i32 n ++ post) + 4 = zlen pre + n) by wsize_lia.
  rewrite Hp. rewrite (proj2 (Z.ltb_ge _ _)); [done|]. rewrite cast_id; [lia|]. apply in_i32. lia.
Qed.
End in_place.

(** An image with an entry's frame whose checksum does not fit is refused. *)
Lemma WalEntry_ReadAdv_bad pre post n crc tail max_bytes :
  in_range i32 n → in_range u32 crc → 32 ≤ n → zlen tail = n - 8 → 0 < max_bytes →
  makeCRC (WriteBufAdv i32 n ++ WriteBufAdv u32 0 ++ tail) ≠ crc →
  ∃ buf', WalEntry_ReadAdv (pre ++ (WriteBufAdv i32 n ++ WriteBufAdv u32 crc ++ tail) ++ post)
            (zlen pre) max_bytes = Ok (None, buf', zlen pre).
Proof.
  intros Hn Hcrc H32 Ht Hmax Hne.
  assert (Hb : ∀ c, pre ++ (WriteBufAdv i32 n ++ WriteBufAdv u32 c ++ tail) ++ post
    = (pre ++ WriteBufAdv i32 n) ++ WriteBufAdv u32 c ++ tail ++ post) by (intros; by rewrite <- !app_assoc).
  set (img := fun c => pre ++ (WriteBufAdv i32 n ++ WriteBufAdv u32 c ++ tail) ++ post). fold (img crc).
  assert (Hz : ∀ c, zlen (img c) = zlen pre + n + zlen post) by (intros; unfold img; wsize_lia).
  unfold WalEntry_ReadAdv. rewrite (proj2 (Z.leb_gt _ _)) by lia.
  rewrite (load_at i32 n pre (WriteBufAdv u32 crc ++ tail ++ post));
    [|done|unfold img; by rewrite <- !app_assoc|done]. cbn [res_bind].
  rewrite (load_at u32 crc (pre ++ WriteBufAdv i32 n) (tail ++ post)); [|done|apply Hb|wsize_lia]. cbn [res_bind].
  specialize (Hz crc) as Hzc. zlen_facts.
  destruct (load_ok i64 (img crc) (zlen pre + 8)) as [v1 ->]; [lia|simpl; lia|].
  destruct (load_ok u64 (img crc) (zlen pre + 16)) as [v2 ->]; [lia|simpl; lia|].
  destruct (load_ok i32 (img crc) (zlen pre + n - 4)) as [v3 ->]; [lia|simpl; lia|].
  cbn [res_bind]. destruct (n =? v3); [|by eexists]. cbn [negb].
  rewrite (store_at (pre ++ WriteBufAdv i32 n) (WriteBufAdv u32 crc) (tail ++ post));
    [|by autorewrite with wsize|apply Hb|unfold checksum_offset; wsize_lia].
  cbn [res_bind]. rewrite <- Hb. fold (img 0).
  rewrite bool_decide_eq_true_2 by (rewrite Hz; lia). cbn [negb].
  unfold img at 1. rewrite drop_zlen_app, take_zlen_app by wsize_lia.
  rewrite (proj2 (Z.eqb_neq _ _)) by congruence. by eexists.
Qed.
End entry_lemmas.

(** ** Properties *)

Section properties.
Context {B : Type} `{!Codec B}.

(** C14. The log entry codec.  Writing a well-formed entry succeeds; the written length is the size
    that [GetSizeInBytes] announced if it is exact for every command (which [WalManager::Flush]
    insists on); and wherever the bytes lie in a buffer, [ReadAdv] gives back the entry with its
    size and checksum filled in and every command as stored, moves the pointer past it and changes
    nothing in the buffer but the checksum field, which it clears. *)
Theorem wal_entry_codec (e : WalEntry B) :
  WalEntry_wf e →
  ∃ bs size crc tail,
    WalEntry_WriteAdv e = Ok bs ∧ zlen bs = size ∧
    bs = WriteBufAdv i32 size ++ WriteBufAdv u32 crc ++ tail ∧
    (Forall WalCmd_exact (cmds_ e) → WalEntry_GetSizeInBytes e = Ok size) ∧
    ∀ pre post max_bytes, size ≤ max_bytes < 2 ^ 31 →
      WalEntry_ReadAdv (pre ++ bs ++ post) (zlen pre) max_bytes
      = Ok (Some (mkWalEntry size crc (txn_id_ e) (commit_ts_ e) (map WalCmd_stored (cmds_ e))),
            pre ++ (WriteBufAdv i32 size ++ WriteBufAdv u32 0 ++ tail) ++ post, zlen pre + size).
Proof.
  intros Hwf. destruct (cmds_write_ok e Hwf) as [cmds Hc].
  exists (entry_bytes e cmds (entry_crc e cmds)), (32 + zlen cmds), (entry_crc e cmds),
    (entry_tail e cmds (32 + zlen cmds)).
  split; [by apply WalEntry_WriteAdv_shape|]. split; [apply zlen_entry_bytes|]. split; [done|]. split.
  - intros Hx. by apply WalEntry_size_written.
  - intros pre post max_bytes Hmax. rewrite WalEntry_ReadAdv_entry by (try done; apply makeCRC_range).
    by rewrite Z.eqb_refl.
Qed.

(** Corruption of a written entry is detected.  If the stored checksum is replaced by any other
    value, or bytes after it change within a window of at most four bytes (up to 32 bits, a torn
    word), [ReadAdv] returns no entry and leaves the pointer where it was. *)
Theorem wal_entry_corruption (e : WalEntry B) bs pre post max_bytes :
  WalEntry_wf e → WalEntry_WriteAdv e = Ok bs → 0 < max_bytes →
  ∃ size crc tail,
    bs = WriteBufAdv i32 size ++ WriteBufAdv u32 crc ++ tail ∧
    (∀ crc', in_range u32 crc' → crc' ≠ crc →
       ∃ buf', WalEntry_ReadAdv (pre ++ (WriteBufAdv i32 size ++ WriteBufAdv u32 crc' ++ tail) ++ post)
                 (zlen pre) max_bytes = Ok (None, buf', zlen pre)) ∧
    (∀ a m m' c, tail = a ++ m ++ c → Forall byte_ok m → Forall byte_ok m' →
       length m' = length m → (length m ≤ 4)%nat → m' ≠ m →
       ∃ buf', WalEntry_ReadAdv
                 (pre ++ (WriteBufAdv i32 size ++ WriteBufAdv u32 crc ++ a ++ m' ++ c) ++ post)
                 (zlen pre) max_bytes = Ok (None, buf', zlen pre)).
Proof.
  intros Hwf Hw Hmax. destruct (cmds_write_ok e Hwf) as [cmds Hc].
  rewrite (WalEntry_WriteAdv_shape e cmds Hwf Hc) in Hw. injection Hw as <-.
  destruct (entry_size_range e cmds Hwf Hc) as [H32 Hn].
  assert (Ht : zlen (entry_tail e cmds (32 + zlen cmds)) = 32 + zlen cmds - 8).
  { unfold entry_tail. wsize_lia. }
  exists (32 + zlen cmds), (entry_crc e cmds), (entry_tail e cmds (32 + zlen cmds)). split; [done|]. split.
  - intros crc' Hcrc' Hne. apply WalEntry_ReadAdv_bad; try done; try lia.
  - intros a m m' c Htail Hm Hm' Hl H4 Hne. apply WalEntry_ReadAdv_bad; try done; try apply makeCRC_range; try lia.
    + rewrite Htail in Ht. rewrite !zlen_app in *. unfold zlen in *. rewrite Hl. lia.
    + unfold entry_crc, entry_bytes. rewrite Htail, !(app_assoc (WriteBufAdv u32 0) a),
        !(app_assoc (WriteBufAdv i32 _) (WriteBufAdv u32 0 ++ a)).
      apply makeCRC_window; try done. lia.
Qed.
End properties.

(** ** Witnesses *)

(** An entry whose appended block is a string. *)
Definition sample_entry : WalEntry bytes :=
  mkWalEntry 0 0 7 11
    [WalCmdCreateDatabase (str "db1") (str "db1_dir");
     WalCmdDelete (str "db1") (str "t1") [5; 4294967297];
     WalCmdAppend (str "db1") (str "t1") (str "rows");
     WalCmdCheckpoint 9 true (str "catalog/FULL.9.json")].

Lemma sample_entry_wf : WalEntry_wf (Codec0 := string_codec) sample_entry.
Proof.
  split; [by vm_compute|]. split; [by vm_compute|]. split; [by vm_compute|]. split.
  - repeat constructor; by vm_compute.
  - intros cmds H. vm_compute in H. injection H as <-. by vm_compute.
Qed.

Lemma wal_entry_codec_witness :
  ∃ bs size crc,
    WalEntry_WriteAdv (Codec0 := string_codec) sample_entry = Ok bs ∧
    WalEntry_ReadAdv (Codec0 := string_codec) ([1; 2] ++ bs ++ [3]) 2 size
    = Ok (Some (mkWalEntry size crc 7 11 (cmds_ sample_entry)),
          [1; 2] ++ (WriteBufAdv i32 size ++ WriteBufAdv u32 0 ++ drop 8 bs) ++ [3], 2 + size).
Proof.
  destruct (wal_entry_codec (Codec0 := string_codec) sample_entry sample_entry_wf)
    as (bs & size & crc & tail & Hw & Hz & Hbs & _ & Hr).
  exists bs, size, crc. split; [exact Hw|].
  assert (Hs : size ≤ size < 2 ^ 31) by (rewrite <- Hz; vm_compute in Hw; injection Hw as <-; by vm_compute).
  assert (Hd : drop 8 bs = tail) by (rewrite Hbs, app_assoc; by apply drop_app_length').
  rewrite Hd. exact (Hr [1; 2] [3] size Hs).
Defined.

Lemma wal_entry_corruption_witness :
  ∃ bs buf',
    WalEntry_WriteAdv (Codec0 := string_codec) sample_entry = Ok bs ∧
    WalEntry_ReadAdv (Codec0 := string_codec) (take 20 bs ++ [77; 99] ++ drop 22 bs) 0 200
    = Ok (None, buf', 0).
Proof.
  assert (Hw : ∃ bs, WalEntry_WriteAdv (Codec0 := string_codec) sample_entry = Ok bs)
    by (vm_compute; by eexists).
  destruct Hw as [bs Hw]. exists bs.
  destruct (wal_entry_corruption (Codec0 := string_codec) sample_entry bs [] [] 200 sample_entry_wf Hw
              ltac:(lia)) as (size & crc & tail & Hbs & _ & Hbad).
  assert (Ht : tail = drop 8 bs) by (rewrite Hbs, app_assoc; symmetry; by apply drop_app_length').
  assert (H8 : take 8 bs = WriteBufAdv i32 size ++ WriteBufAdv u32 crc)
    by (rewrite Hbs, app_assoc; by apply take_app_length').
  subst tail. pose proof Hw as Hc. vm_compute in Hc. injection Hc as Hc.
  edestruct (Hbad (take 12 (drop 8 bs)) (take 2 (drop 20 bs)) [77; 99] (drop 22 bs)) as [buf' Hb'];
    [rewrite <- Hc; by vm_compute | rewrite <- Hc; repeat constructor; by vm_compute
    | repeat constructor; by vm_compute | by rewrite <- Hc | rewrite <- Hc; simpl; lia | by rewrite <- Hc |].
  exists buf'. split; [exact Hw|].
  rewrite app_nil_r, (app_assoc (WriteBufAdv i32 size)), <- H8, (app_assoc (take 8 bs)) in Hb'.
  assert (H20 : take 8 bs ++ take 12 (drop 8 bs) = take 20 bs) by (rewrite <- Hc; by vm_compute).
  rewrite H20 in Hb'. exact Hb'.
Defined.
