(* ===== verification/WalReplay.v ===== *)
(** * Reading the log back

    Models the iterators of [src/src/storage/wal/wal_entry.cpp] ([WalEntryIterator],
    [WalListIterator] with the purge of bad entries) and [WalManager::ReplayWalFile] of
    [src/src/storage/wal/wal_manager.cpp].

    Replaying ends in calls on the catalog; the model returns the sequence of these calls. *)

From Stdlib Require Import ZArith Lia List.
From stdpp Require Import base list numbers gmap strings sorting.
From S2P Require Import Prelude Bytes Text Crc TableDef IndexDef LogFile WalEntry.
Import WalCommand.
Local Open Scope Z_scope.

Section replay.
Context {B : Type} `{Blk : !Codec B}.

(** ** Iterating over one file *)

Record WalEntryIterator := mkWalEntryIterator {
  is_backward_ : bool;
  off_ : Z;
  buf_ : bytes;
  wal_size_ : Z;
}.

Definition WalEntryIterator_new (buf : bytes) (wal_size : Z) (is_backward : bool) : WalEntryIterator :=
  mkWalEntryIterator is_backward (if is_backward then zlen buf else 0) buf wal_size.

Definition WalEntryIterator_Make (fs : FileSystem) (wal_path : bytes) (is_backward : bool)
    : result WalEntryIterator :=
  match fs !! wal_path with
  | None => Err UnrecoverableError
  | Some buf => Ok (WalEntryIterator_new buf (zlen buf) is_backward)
  end.

Definition HasNext (this : WalEntryIterator) : bool :=
  (is_backward_ this && (0 <? off_ this)) || (negb (is_backward_ this) && (off_ this <? zlen (buf_ this))).

(** [ReadAdv] works on the iterator's own copy of the file. *)
Definition Next (this : WalEntryIterator) : result (option (WalEntry B) * WalEntryIterator) :=
  let '(mkWalEntryIterator is_backward off buf wal_size) := this in
  if is_backward then
    let? entry_size := load i32 buf (off - 4) in
    if off <? cast u64 entry_size then Ok (None, this)
    else
      let? '(entry, buf, _) := WalEntry_ReadAdv buf (off - cast u64 entry_size) entry_size in
      match entry with
      | Some _ => Ok (entry, mkWalEntryIterator is_backward (cast u64 (off - entry_size)) buf wal_size)
      | None => Ok (None, mkWalEntryIterator is_backward off buf wal_size)
      end
  else
    let? entry_size := load i32 buf off in
    if zlen buf <? cast u64 (off + cast u64 entry_size) then Ok (None, this)
    else
      let? '(entry, buf, _) := WalEntry_ReadAdv buf off entry_size in
      match entry with
      | Some _ => Ok (entry, mkWalEntryIterator is_backward (cast u64 (off + cast u64 entry_size)) buf wal_size)
      | None => Ok (None, mkWalEntryIterator is_backward off buf wal_size)
      end.

(** ** Iterating over the files, newest first *)

Record WalListIterator := mkWalListIterator {
  wal_list_ : list bytes;
  iter_ : option WalEntryIterator;
}.

(** The inner loop of the purge: whether a checkpoint was met, and the offset of the first bad
    entry or -1. *)
Fixpoint scan (fuel : nat) (iter : WalEntryIterator) (found_checkpoint : bool) : result (bool * Z) :=
  match fuel with
  | O => Err OutOfFuel
  | S fuel' =>
      if HasNext iter then
        let? '(entry, iter) := Next iter in
        match entry with
        | Some entry => scan fuel' iter (found_checkpoint || IsCheckPoint entry)
        | None => Ok (found_checkpoint, off_ iter)
        end
      else Ok (found_checkpoint, -1)
  end.

(** [it] is the rest of [wal_list_] the outer loop has not reached. *)
Fixpoint PurgeBadEntriesAfterLatestCheckpoint (fs : FileSystem) (wal_list it : list bytes) (file_num : nat)
    (found_checkpoint : bool) : result (FileSystem * list bytes) :=
  match it with
  | [] => Ok (fs, wal_list)
  | path :: it' =>
      if found_checkpoint then Ok (fs, wal_list)
      else
        let? iter := WalEntryIterator_Make fs path false in
        let? '(found_checkpoint, bad_offset) := scan (S (length (buf_ iter))) iter found_checkpoint in
        if negb (bad_offset =? -1) then
          if bad_offset =? 0 then
            PurgeBadEntriesAfterLatestCheckpoint (DeleteFile fs path) (drop (S file_num) wal_list) it' 0
              found_checkpoint
          else
            let? fs := Truncate fs path bad_offset in
            PurgeBadEntriesAfterLatestCheckpoint fs (drop file_num wal_list) it' 1 found_checkpoint
        else PurgeBadEntriesAfterLatestCheckpoint fs wal_list it' (S file_num) found_checkpoint
  end.

Definition WalListIterator_new (fs : FileSystem) (wal_list : list bytes) : result (FileSystem * WalListIterator) :=
  let? '(fs, wal_list) := PurgeBadEntriesAfterLatestCheckpoint fs wal_list wal_list 0 false in
  match wal_list with
  | [] => Ok (fs, mkWalListIterator [] None)
  | path :: _ =>
      let? iter := WalEntryIterator_Make fs path true in
      Ok (fs, mkWalListIterator wal_list (Some iter))
  end.

(** The loop of [HasNext] that moves on to older files. *)
Fixpoint next_file (fs : FileSystem) (wal_list : list bytes) (iter : WalEntryIterator)
    : result (bool * WalListIterator) :=
  match wal_list with
  | _ :: ((path :: _) as wal_list') =>
      let? iter := WalEntryIterator_Make fs path true in
      if HasNext iter then Ok (true, mkWalListIterator wal_list' (Some iter))
      else next_file fs wal_list' iter
  | _ => Ok (false, mkWalListIterator wal_list (Some iter))
  end.

Definition WalListIterator_HasNext (fs : FileSystem) (this : WalListIterator) : result (bool * WalListIterator) :=
  match iter_ this with
  | None => Ok (false, this)
  | Some iter => if HasNext iter then Ok (true, this) else next_file fs (wal_list_ this) iter
  end.

Definition WalListIterator_Next (this : WalListIterator) : result (option (WalEntry B) * WalListIterator) :=
  match iter_ this with
  | None => Err OutOfBounds
  | Some iter =>
      let? '(entry, iter) := Next iter in
      Ok (entry, mkWalListIterator (wal_list_ this) (Some iter))
  end.

(** ** Replay *)

(** [Path(p).parent_path()]. *)
Definition parent_path (p : bytes) : bytes :=
  match rfind 47 p with
  | None => []
  | Some i =>
      match rev (drop_while (Z.eqb 47) (rev (take i p))) with
      | [] => [47]
      | dir => dir
      end
  end.

(** What phase 1 leaves behind. *)
Record Phase1 := mkPhase1 {
  ph_iterator : WalListIterator;
  ph_replay_entries : list (WalEntry B);
  ph_max_commit_ts : Z;
  ph_catalog_dir : bytes;
  ph_system_start_ts : Z;
}.

Fixpoint replay_phase1 (fuel : nat) (fs : FileSystem) (iterator : WalListIterator)
    (replay_entries : list (WalEntry B)) : result Phase1 :=
  match fuel with
  | O => Err OutOfFuel
  | S fuel' =>
      let? '(has_next, iterator) := WalListIterator_HasNext fs iterator in
      if negb has_next then Ok (mkPhase1 iterator replay_entries 0 [] 0)
      else
        let? '(wal_entry, iterator) := WalListIterator_Next iterator in
        match wal_entry with
        | None => Err UnrecoverableError
        | Some wal_entry =>
            match IsCheckPoint_replay wal_entry replay_entries None with
            | (true, replay_entries, Some (WalCmdCheckpoint max_commit_ts _ catalog_path)) =>
                Ok (mkPhase1 iterator replay_entries (cast u64 max_commit_ts) (parent_path catalog_path)
                      (commit_ts_ wal_entry))
            | (true, _, _) => Err OutOfBounds
            | (false, replay_entries, _) => replay_phase1 fuel' fs iterator (replay_entries ++ [wal_entry])
            end
        end
  end.

(** The entries to replay, or none if a bad one turned up. *)
Fixpoint replay_phase2 (fuel : nat) (fs : FileSystem) (iterator : WalListIterator) (max_commit_ts : Z)
    (replay_entries : list (WalEntry B)) : result (list (WalEntry B)) :=
  match fuel with
  | O => Err OutOfFuel
  | S fuel' =>
      let? '(has_next, iterator) := WalListIterator_HasNext fs iterator in
      if negb has_next then Ok replay_entries
      else
        let? '(wal_entry, iterator) := WalListIterator_Next iterator in
        match wal_entry with
        | None => Ok []
        | Some wal_entry =>
            if max_commit_ts <? commit_ts_ wal_entry
            then replay_phase2 fuel' fs iterator max_commit_ts (replay_entries ++ [wal_entry])
            else Ok replay_entries
        end
  end.

(** A call on the catalog: the command with its transaction and commit timestamp. *)
Definition CatalogCall : Type := WalCmd B * Z * Z.

Definition ReplayWalEntry_step (entry : WalEntry B) (calls : list CatalogCall) (cmd : WalCmd B)
    : result (list CatalogCall) :=
  match GetType cmd with
  | CREATE_DATABASE | DROP_DATABASE | CREATE_TABLE | DROP_TABLE | CREATE_INDEX | DROP_INDEX
  | IMPORT | APPEND | DELETE | COMPACT => Ok (calls ++ [(cmd, txn_id_ entry, commit_ts_ entry)])
  | ALTER_INFO => Err RecoverableError
  | CHECKPOINT => Ok calls
  | _ => Err UnrecoverableError
  end.

Definition ReplayWalEntry (entry : WalEntry B) : result (list CatalogCall) :=
  res_fold (ReplayWalEntry_step entry) [] (cmds_ entry).

(** Phase 3: the calls, the start timestamp and the last transaction. *)
Definition replay_phase3_step (max_commit_ts : Z) (st : list CatalogCall * Z * Z) (entry : WalEntry B)
    : result (list CatalogCall * Z * Z) :=
  let '(calls, system_start_ts, last_txn_id) := st in
  if commit_ts_ entry <? max_commit_ts then Err UnrecoverableError
  else
    let? more := ReplayWalEntry entry in
    Ok (calls ++ more, commit_ts_ entry, txn_id_ entry).

Definition replay_phase3 (max_commit_ts system_start_ts : Z) (replay_entries : list (WalEntry B))
    : result (list CatalogCall * Z * Z) :=
  res_fold (replay_phase3_step max_commit_ts) ([], system_start_ts, 0) replay_entries.

Inductive ReplayOutcome :=
| InitNewCatalog
| Replayed (full_catalog_fileinfo : FileInfo) (delta_catalog_fileinfos : list FileInfo)
    (calls : list CatalogCall) (next_txn_id max_commit_ts : Z).

(** Every [Next] that returns an entry consumes at least one byte of a file. *)
Definition replay_fuel (fs : FileSystem) (wal_list : list bytes) : nat :=
  S (length (concat (omap (fun path => fs !! path) wal_list))).

Definition ts_ge (a b : FileInfo) : Prop := ts_le b a.

#[export] Instance ts_ge_dec a b : Decision (ts_ge a b) := Z_le_dec _ _.

Definition replay_wal_list `{Dir : !DirectoryListing} (fs : FileSystem) (wal_dir : bytes) : result (list bytes) :=
  let? '(temp_wal_info, wal_infos) := ParseWalFilenames fs wal_dir in
  let wal_infos := merge_sort ts_ge wal_infos in
  Ok (option_list temp_wal_info ++ map path_ wal_infos).

Definition ReplayWalFile `{Dir : !DirectoryListing} (fs : FileSystem) (wal_dir : bytes)
    : result (FileSystem * ReplayOutcome * Z) :=
  let? wal_list := replay_wal_list fs wal_dir in
  match wal_list with
  | [] => Ok (fs, InitNewCatalog, 0)
  | _ =>
      let? '(fs, iterator) := WalListIterator_new fs wal_list in
      let fuel := replay_fuel fs wal_list in
      let? ph := replay_phase1 fuel fs iterator [] in
      let max_commit_ts := ph_max_commit_ts ph in
      let? replay_entries := replay_phase2 fuel fs (ph_iterator ph) max_commit_ts (ph_replay_entries ph) in
      if ph_system_start_ts ph =? 0 then Err UnrecoverableError
      else
        let? catalog_fileinfo := ParseValidCheckpointFilenames fs (ph_catalog_dir ph) max_commit_ts in
        match catalog_fileinfo with
        | None => Err UnrecoverableError
        | Some (full_catalog_fileinfo, delta_catalog_fileinfos) =>
            let? '(calls, system_start_ts, last_txn_id) :=
              replay_phase3 max_commit_ts (ph_system_start_ts ph) (rev replay_entries) in
            Ok (fs, Replayed full_catalog_fileinfo delta_catalog_fileinfos calls last_txn_id system_start_ts,
                cast i64 system_start_ts)
        end
  end.
End replay.

(** ** Lemmas: one entry *)

(** A bound on file sizes under which offsets do not wrap. *)
Definition file_limit : Z := 2 ^ 62.

Section entry.
Context {B : Type} `{Blk : !Codec B}.
Implicit Types (e : WalEntry B) (es : list (WalEntry B)).

(** The entry as it is read back. *)
Definition WalEntry_stored e : WalEntry B :=
  match write_all WalCmd_WriteAdv (cmds_ e) with
  | Ok cmds => mkWalEntry (32 + zlen cmds) (entry_crc e cmds) (txn_id_ e) (commit_ts_ e) (map WalCmd_stored (cmds_ e))
  | Err _ => e
  end.

Lemma GetType_stored (cmd : WalCmd B) : GetType (WalCmd_stored cmd) = GetType cmd.
Proof. by destruct cmd. Qed.

Lemma stored_commit_ts e : commit_ts_ (WalEntry_stored e) = commit_ts_ e.
Proof. unfold WalEntry_stored. by destruct (write_all _ _). Qed.

Lemma stored_txn_id e : txn_id_ (WalEntry_stored e) = txn_id_ e.
Proof. unfold WalEntry_stored. by destruct (write_all _ _). Qed.

Lemma stored_cmds e : WalEntry_wf e → cmds_ (WalEntry_stored e) = map WalCmd_stored (cmds_ e).
Proof. intros Hwf. unfold WalEntry_stored. by destruct (cmds_write_ok e Hwf) as [cmds ->]. Qed.

Lemma IsCheckPoint_stored e : WalEntry_wf e → IsCheckPoint (WalEntry_stored e) = IsCheckPoint e.
Proof.
  intros Hwf. unfold IsCheckPoint. rewrite stored_cmds by done.
  induction (cmds_ e) as [|c l IH]; [done|]. simpl. by rewrite IH, GetType_stored.
Qed.

Lemma entry_written e bs :
  WalEntry_wf e → WalEntry_WriteAdv e = Ok bs →
  ∃ cmds, write_all WalCmd_WriteAdv (cmds_ e) = Ok cmds ∧ bs = entry_bytes e cmds (entry_crc e cmds) ∧
    32 ≤ zlen bs < 2 ^ 31.
Proof.
  intros Hwf Hw. destruct (cmds_write_ok e Hwf) as [cmds Hc]. exists cmds. split; [done|].
  rewrite (WalEntry_WriteAdv_shape e cmds Hwf Hc) in Hw. injection Hw as <-. split; [done|].
  rewrite zlen_entry_bytes. apply (entry_size_range e cmds Hwf Hc).
Qed.

(** The size is the first and the last word of an entry. *)
Lemma entry_frame e bs :
  WalEntry_wf e → WalEntry_WriteAdv e = Ok bs →
  ∃ mid, bs = WriteBufAdv i32 (zlen bs) ++ mid ++ WriteBufAdv i32 (zlen bs) ∧ in_range i32 (zlen bs).
Proof.
  intros Hwf Hw. destruct (entry_written e bs Hwf Hw) as (cmds & Hc & -> & Hr).
  rewrite zlen_entry_bytes in *. eexists. split; [|apply in_i32; change (2 ^ 31) with 2147483648 in Hr; lia].
  unfold entry_bytes, entry_tail. rewrite !(app_assoc _ _ (WriteBufAdv i32 (32 + zlen cmds))). done.
Qed.

Lemma ReadAdv_image e bs pre post :
  WalEntry_wf e → WalEntry_WriteAdv e = Ok bs →
  ∃ bs', zlen bs' = zlen bs ∧
    WalEntry_ReadAdv (pre ++ bs ++ post) (zlen pre) (zlen bs)
    = Ok (Some (WalEntry_stored e), pre ++ bs' ++ post, zlen pre + zlen bs).
Proof.
  intros Hwf Hw. destruct (entry_written e bs Hwf Hw) as (cmds & Hc & -> & Hr).
  exists (entry_bytes e cmds 0). rewrite !zlen_entry_bytes in *. split; [done|].
  rewrite (WalEntry_ReadAdv_entry e cmds pre post Hwf Hc); [|apply makeCRC_range|lia].
  rewrite Z.eqb_refl. unfold WalEntry_stored. by rewrite Hc.
Qed.

Lemma cast_u64_id z : 0 ≤ z < 2 ^ 63 → cast u64 z = z.
Proof. intros H. apply cast_id. solve_range. Qed.

Lemma HasNext_forward off buf ws : HasNext (mkWalEntryIterator false off buf ws) = (off <? zlen buf).
Proof. done. Qed.

Lemma HasNext_backward off buf ws : HasNext (mkWalEntryIterator true off buf ws) = (0 <? off).
Proof. unfold HasNext. simpl. by rewrite orb_false_r. Qed.

Lemma Next_backward e bs pre post ws :
  WalEntry_wf e → WalEntry_WriteAdv e = Ok bs → zlen (pre ++ bs) < file_limit →
  ∃ bs', zlen bs' = zlen bs ∧
    Next (mkWalEntryIterator true (zlen (pre ++ bs)) (pre ++ bs ++ post) ws)
    = Ok (Some (WalEntry_stored e), mkWalEntryIterator true (zlen pre) (pre ++ bs' ++ post) ws).
Proof.
  intros Hwf Hw Hlim. destruct (ReadAdv_image e bs pre post Hwf Hw) as (bs' & Hz & Hr).
  exists bs'. split; [done|]. destruct (entry_frame e bs Hwf Hw) as (mid & Hf & Hn).
  destruct (entry_written e bs Hwf Hw) as (_ & _ & _ & Hsize).
  unfold Next. rewrite (load_at i32 (zlen bs) (pre ++ WriteBufAdv i32 (zlen bs) ++ mid) post).
  2: done.
  2: { rewrite Hf at 1. by rewrite <- !app_assoc. }
  2: { apply (f_equal zlen) in Hf. revert Hf. autorewrite with wsize. simpl. lia. }
  cbn [res_bind]. rewrite zlen_app in *. zlen_facts. unfold file_limit in Hlim.
  change (2 ^ 62) with 4611686018427387904 in Hlim. change (2 ^ 31) with 2147483648 in Hsize.
  rewrite (cast_u64_id (zlen bs)) by (change (2 ^ 63) with 9223372036854775808; lia).
  rewrite (proj2 (Z.ltb_ge _ _)) by lia.
  replace (zlen pre + zlen bs - zlen bs) with (zlen pre) by lia.
  rewrite Hr. cbn [res_bind]. by rewrite cast_u64_id by (change (2 ^ 63) with 9223372036854775808; lia).
Qed.

Lemma Next_forward e bs pre post ws :
  WalEntry_wf e → WalEntry_WriteAdv e = Ok bs → zlen (pre ++ bs ++ post) < file_limit →
  ∃ bs', zlen bs' = zlen bs ∧
    Next (mkWalEntryIterator false (zlen pre) (pre ++ bs ++ post) ws)
    = Ok (Some (WalEntry_stored e), mkWalEntryIterator false (zlen (pre ++ bs')) (pre ++ bs' ++ post) ws).
Proof.
  intros Hwf Hw Hlim. destruct (ReadAdv_image e bs pre post Hwf Hw) as (bs' & Hz & Hr).
  exists bs'. split; [done|]. destruct (entry_frame e bs Hwf Hw) as (mid & Hf & Hn).
  destruct (entry_written e bs Hwf Hw) as (_ & _ & _ & Hsize).
  unfold Next. rewrite (load_at i32 (zlen bs) pre (mid ++ WriteBufAdv i32 (zlen bs) ++ post)).
  2: done.
  2: { rewrite Hf at 1. by rewrite <- !app_assoc. }
  2: done.
  cbn [res_bind]. rewrite !zlen_app in *. zlen_facts. unfold file_limit in Hlim.
  change (2 ^ 62) with 4611686018427387904 in Hlim. change (2 ^ 31) with 2147483648 in Hsize.
  rewrite (cast_u64_id (zlen bs)) by (change (2 ^ 63) with 9223372036854775808; lia).
  rewrite cast_u64_id by (change (2 ^ 63) with 9223372036854775808; lia).
  rewrite (proj2 (Z.ltb_ge _ _)) by lia. rewrite Hr. cbn [res_bind]. by rewrite Hz.
Qed.
End entry.

(** ** Lemmas: bad tails *)

Section tails.
Context {B : Type} `{Blk : !Codec B}.
Implicit Types (e : WalEntry B) (es : list (WalEntry B)).

(** What may follow the last good entry of a file: an entry of which only a part was written (at
    least the size word), or an image whose checksum does not fit, with anything behind it. *)
Inductive BadTail : bytes → Prop :=
| TornEntry e bs t rest :
    WalEntry_wf e → WalEntry_WriteAdv e = Ok bs → bs = t ++ rest → rest ≠ [] → 4 ≤ zlen t → BadTail t
| CorruptEntry n crc tail rest :
    in_range i32 n → in_range u32 crc → 32 ≤ n → zlen tail = n - 8 →
    makeCRC (WriteBufAdv i32 n ++ WriteBufAdv u32 0 ++ tail) ≠ crc →
    BadTail ((WriteBufAdv i32 n ++ WriteBufAdv u32 crc ++ tail) ++ rest).

Lemma BadTail_nonempty t : BadTail t → 4 ≤ zlen t.
Proof. destruct 1; [done|]. wsize_lia. Qed.

Lemma take_4_word t rest bs n r :
  bs = t ++ rest → 4 ≤ zlen t → bs = WriteBufAdv i32 n ++ r →
  t = WriteBufAdv i32 n ++ drop 4 t.
Proof.
  intros -> H4 Hw. assert (Ht : t = take 4 t ++ drop 4 t) by (symmetry; apply take_drop).
  rewrite Ht at 1. f_equal. apply (f_equal (take 4)) in Hw.
  rewrite take_app_le in Hw by (unfold zlen in H4; lia). rewrite Hw. apply take_app_length'.
  pose proof (zlen_WriteBufAdv i32 n) as Hz. unfold zlen in Hz. simpl in Hz. lia.
Qed.

(** The iterator stops at a bad tail, which it does not consume. *)
Lemma Next_bad t pre ws :
  BadTail t → zlen (pre ++ t) < file_limit →
  ∃ it, Next (B := B) (mkWalEntryIterator false (zlen pre) (pre ++ t) ws) = Ok (None, it) ∧ off_ it = zlen pre.
Proof.
  unfold file_limit. change (2 ^ 62) with 4611686018427387904. intros Ht Hlim. zlen_facts.
  destruct Ht as [e bs t rest Hwf Hw Hbs Hne H4|n crc tail rest Hn Hcrc H32 Htail Hbad]; unfold Next.
  - destruct (entry_frame e bs Hwf Hw) as (mid & Hf & Hn).
    destruct (entry_written e bs Hwf Hw) as (_ & _ & _ & Hsize). change (2 ^ 31) with 2147483648 in Hsize.
    assert (Ht : t = WriteBufAdv i32 (zlen bs) ++ drop 4 t).
    { by eapply take_4_word. }
    rewrite (load_at i32 (zlen bs) pre (drop 4 t)); [|done|by rewrite <- Ht|done]. cbn [res_bind].
    rewrite zlen_app in *. zlen_facts.
    rewrite (cast_u64_id (zlen bs)) by (change (2 ^ 63) with 9223372036854775808; lia).
    rewrite (cast_u64_id (zlen pre + zlen bs)) by (change (2 ^ 63) with 9223372036854775808; lia).
    assert (zlen bs = zlen t + zlen rest) by (rewrite Hbs; apply zlen_app).
    assert (0 < zlen rest) by (destruct rest; [done|rewrite zlen_cons; zlen_facts; lia]).
    rewrite (proj2 (Z.ltb_lt _ _)) by lia. by eexists.
  - rewrite (load_at i32 n pre (WriteBufAdv u32 crc ++ tail ++ rest)); [|done|by rewrite <- !app_assoc|done].
    cbn [res_bind]. pose proof (proj1 (in_i32 n) Hn) as Hn'.
    rewrite (cast_u64_id n) by (change (2 ^ 63) with 9223372036854775808; lia).
    rewrite cast_u64_id by (revert Hlim; autorewrite with wsize; simpl; change (2 ^ 63) with 9223372036854775808; zlen_facts; lia).
    rewrite (proj2 (Z.ltb_ge _ _)) by wsize_lia.
    destruct (WalEntry_ReadAdv_bad (B := B) pre rest n crc tail n) as [buf' ->]; [done..|lia|done|].
    cbn [res_bind]. by eexists.
Qed.

(** ** Lemmas: the purge *)

Lemma scan_log es : ∀ bs pre t ws fuel found,
  Forall WalEntry_wf es → write_all WalEntry_WriteAdv es = Ok bs → t = [] ∨ BadTail t →
  zlen (pre ++ bs ++ t) < file_limit → (length bs < fuel)%nat →
  scan (B := B) fuel (mkWalEntryIterator false (zlen pre) (pre ++ bs ++ t) ws) found
  = Ok (found || existsb IsCheckPoint es, if decide (t = []) then -1 else zlen (pre ++ bs)).
Proof.
  induction es as [|e es IH]; intros bs pre t ws fuel found Hwf Hw Ht Hlim Hfuel;
    rewrite ?write_all_cons, ?write_all_nil in Hw; (destruct fuel as [|fuel]; [lia|]).
  - injection Hw as <-. cbn [app existsb]. rewrite orb_false_r, app_nil_r. cbn [scan]. rewrite HasNext_forward.
    destruct Ht as [->|Ht]; [by rewrite !app_nil_r, Z.ltb_irrefl|].
    pose proof (BadTail_nonempty t Ht) as H4. rewrite decide_False by (intros ->; done).
    rewrite (proj2 (Z.ltb_lt _ _)) by (rewrite zlen_app; lia).
    destruct (Next_bad t pre ws Ht Hlim) as (it & Hn & Ho). rewrite Hn. cbn [res_bind]. by rewrite Ho.
  - inv_ok. apply Forall_cons in Hwf as [He Hwf]. rename x into b. rename x0 into bs.
    destruct (entry_written e b He ltac:(done)) as (_ & _ & _ & Hsize).
    rewrite <- app_assoc in Hlim |- *.
    destruct (Next_forward e b pre (bs ++ t) ws He ltac:(done) Hlim) as (b' & Hz & Hn).
    cbn [scan existsb]. rewrite Hn, HasNext_forward. rewrite (proj2 (Z.ltb_lt _ _)).
    2: { rewrite !zlen_app. zlen_facts. lia. }
    cbn [res_bind]. rewrite (app_assoc pre b'). rewrite IH; try done.
    + rewrite IsCheckPoint_stored, orb_assoc by done. do 2 f_equal. case_decide; [done|].
      rewrite !zlen_app, Hz. lia.
    + rewrite !zlen_app in *. lia.
    + rewrite length_app in Hfuel. unfold zlen in Hsize. lia.
Qed.

(** Fewer than four bytes after the last entry have no size to read. *)
Lemma scan_short es : ∀ bs pre t ws fuel found,
  Forall WalEntry_wf es → write_all WalEntry_WriteAdv es = Ok bs → 0 < zlen t < 4 →
  zlen (pre ++ bs ++ t) < file_limit → (length bs < fuel)%nat →
  scan (B := B) fuel (mkWalEntryIterator false (zlen pre) (pre ++ bs ++ t) ws) found = Err OutOfBounds.
Proof.
  induction es as [|e es IH]; intros bs pre t ws fuel found Hwf Hw Ht Hlim Hfuel;
    rewrite ?write_all_cons, ?write_all_nil in Hw; (destruct fuel as [|fuel]; [lia|]).
  - injection Hw as <-. cbn [app scan]. rewrite HasNext_forward, (proj2 (Z.ltb_lt _ _)) by (rewrite zlen_app; lia).
    unfold Next, load. rewrite decide_False; [done|]. rewrite zlen_app. change (Z.of_nat (sizeof i32)) with 4. lia.
  - inv_ok. apply Forall_cons in Hwf as [He Hwf]. rename x into b. rename x0 into bs.
    destruct (entry_written e b He ltac:(done)) as (_ & _ & _ & Hsize). rewrite <- app_assoc in Hlim |- *.
    destruct (Next_forward e b pre (bs ++ t) ws He ltac:(done) Hlim) as (b' & Hz & Hn).
    cbn [scan]. rewrite Hn, HasNext_forward. rewrite (proj2 (Z.ltb_lt _ _)) by (rewrite !zlen_app; zlen_facts; lia).
    cbn [res_bind]. rewrite (app_assoc pre b'). rewrite IH; try done; [rewrite !zlen_app in *; lia|].
    rewrite length_app in Hfuel. unfold zlen in Hsize. lia.
Qed.

(** A log file that holds exactly the entries [es]. *)
Definition file_ok (fs : FileSystem) (f : bytes * list (WalEntry B)) : Prop :=
  Forall WalEntry_wf f.2 ∧ ∃ bs, fs !! f.1 = Some bs ∧ write_all WalEntry_WriteAdv f.2 = Ok bs ∧ zlen bs < file_limit.

Lemma image_empty es bs :
  Forall WalEntry_wf es → write_all WalEntry_WriteAdv es = Ok bs → zlen bs = 0 ↔ es = [].
Proof.
  intros Hwf Hw. destruct es as [|e es]; rewrite ?write_all_nil, ?write_all_cons in Hw; inv_ok; [done|].
  apply Forall_cons in Hwf as [He _]. rewrite zlen_app. zlen_facts.
  destruct (entry_written e x He ltac:(done)) as (_ & _ & _ & ?). split; [lia|done].
Qed.

Lemma purge_good fs log : ∀ wl k found,
  Forall (file_ok fs) log →
  PurgeBadEntriesAfterLatestCheckpoint (B := B) fs wl (map fst log) k found = Ok (fs, wl).
Proof.
  induction log as [|[p es] log IH]; intros wl k found Hok; cbn [map PurgeBadEntriesAfterLatestCheckpoint fst];
    [done|]. destruct found; [done|]. apply Forall_cons in Hok as [(Hwf & bs & Hfs & Hw & Hlim) Hok].
  cbn [fst snd] in *. unfold WalEntryIterator_Make. rewrite Hfs. cbn [res_bind].
  pose proof (scan_log es bs [] [] (zlen bs) (S (length bs)) false Hwf Hw) as Hscan.
  cbn [app] in Hscan. rewrite app_nil_r in Hscan. unfold WalEntryIterator_new. cbn [buf_].
  change (zlen []) with 0 in Hscan. rewrite Hscan by (try done; try lia; by left). cbn [res_bind].
  rewrite decide_True by done. by apply IH.
Qed.

(** A bad tail of the newest file is cut off; a file without a good entry is removed. *)
Lemma purge_bad fs p es bs t log :
  Forall WalEntry_wf es → write_all WalEntry_WriteAdv es = Ok bs → BadTail t →
  fs !! p = Some (bs ++ t) → zlen (bs ++ t) < file_limit → p ∉ map fst log → Forall (file_ok fs) log →
  PurgeBadEntriesAfterLatestCheckpoint (B := B) fs (p :: map fst log) (p :: map fst log) 0 false
  = Ok (if decide (es = []) then (delete p fs, map fst log) else (<[p := bs]> fs, p :: map fst log)).
Proof.
  intros Hwf Hw Ht Hfs Hlim Hp Hok. cbn [PurgeBadEntriesAfterLatestCheckpoint].
  unfold WalEntryIterator_Make. rewrite Hfs. cbn [res_bind]. unfold WalEntryIterator_new. cbn [buf_].
  pose proof (scan_log es bs [] t (zlen (bs ++ t)) (S (length (bs ++ t))) false Hwf Hw (or_intror Ht)) as Hscan.
  cbn [app] in Hscan. change (zlen []) with 0 in Hscan. rewrite Hscan; [|done|rewrite length_app; lia].
  cbn [res_bind]. pose proof (BadTail_nonempty t Ht) as H4. rewrite decide_False by (intros ->; done).
  zlen_facts. rewrite (proj2 (Z.eqb_neq _ _)) by lia. cbn [negb]. pose proof (image_empty es bs Hwf Hw) as He.
  assert (Hother : ∀ fs', (∀ q, q ≠ p → fs' !! q = fs !! q) → Forall (file_ok fs') log).
  { intros fs' Hfs'. apply Forall_forall. intros [q es'] Hq. pose proof (proj1 (Forall_forall _ _) Hok _ Hq) as (? & bs' & ? & ?).
    split; [done|]. exists bs'. split; [|done]. cbn [fst] in *. rewrite Hfs'; [done|].
    intros ->. apply Hp. apply list_elem_of_fmap. by exists (p, es'). }
  destruct (decide (es = [])) as [Hes|Hes].
  - rewrite (proj2 He Hes). cbn [Z.eqb drop]. rewrite purge_good; [done|]. apply Hother.
    intros q Hq. by apply lookup_delete_ne.
  - rewrite (proj2 (Z.eqb_neq _ _)) by naive_solver. unfold Truncate. rewrite Hfs. cbn [res_bind].
    rewrite (take_zlen_app bs t) by done.
    replace (Z.to_nat (zlen bs - zlen (bs ++ t))) with 0%nat by (rewrite zlen_app; lia).
    cbn [replicate drop]. rewrite app_nil_r, purge_good; [done|]. apply Hother.
    intros q Hq. by apply lookup_insert_ne.
Qed.

(** ** Lemmas: the list iterator *)

(** The entries of the files, from the newest to the oldest. *)
Definition newest_first (log : list (bytes * list (WalEntry B))) : list (WalEntry B) :=
  concat (map (fun f => rev f.2) log).

(** The iterator stands before the entries [es] of its current file, with [log] still to come. *)
Definition at_file (fs : FileSystem) (st : WalListIterator) es (log : list (bytes * list (WalEntry B))) : Prop :=
  ∃ p bs post ws,
    st = mkWalListIterator (p :: map fst log) (Some (mkWalEntryIterator true (zlen bs) (bs ++ post) ws)) ∧
    Forall WalEntry_wf es ∧ write_all WalEntry_WriteAdv es = Ok bs ∧ zlen bs < file_limit ∧
    Forall (file_ok fs) log.

(** The iterator will return the entries [l], in this order. *)
Definition yields (fs : FileSystem) (st : WalListIterator) (l : list (WalEntry B)) : Prop :=
  ∃ es log, at_file fs st es log ∧ l = rev es ++ newest_first log.

Lemma at_file_HasNext fs st es e log :
  at_file fs st (es ++ [e]) log → WalListIterator_HasNext fs st = Ok (true, st).
Proof.
  intros (p & bs & post & ws & -> & Hwf & Hw & _). unfold WalListIterator_HasNext. cbn [iter_].
  rewrite HasNext_backward. pose proof (image_empty _ bs Hwf Hw) as He. zlen_facts.
  rewrite (proj2 (Z.ltb_lt _ _)); [done|]. destruct (decide (zlen bs = 0)) as [H0|]; [|lia].
  apply He in H0. by destruct es.
Qed.

Lemma at_file_Next fs st es e log :
  at_file fs st (es ++ [e]) log →
  ∃ st', WalListIterator_Next st = Ok (Some (WalEntry_stored e), st') ∧ at_file fs st' es log.
Proof.
  intros (p & bs & post & ws & -> & Hwf & Hw & Hlim & Hok).
  rewrite write_all_app, write_all_cons, write_all_nil in Hw. inv_ok.
  apply Forall_app in Hwf as [Hwf He]. apply Forall_cons in He as [He _].
  rewrite app_nil_r in *. rename x into b1. destruct (Next_backward e x1 b1 post ws He) as (b' & Hz & Hn); [done|done|].
  unfold WalListIterator_Next. cbn [iter_ wal_list_]. rewrite <- app_assoc, Hn. cbn [res_bind].
  eexists. split; [done|]. exists p, b1, (b' ++ post), ws. repeat split; try done.
  rewrite zlen_app in Hlim. zlen_facts. lia.
Qed.

Lemma next_file_spec fs log : ∀ p iter,
  Forall (file_ok fs) log →
  ∃ st, next_file fs (p :: map fst log) iter = Ok (bool_decide (newest_first log ≠ []), st) ∧
    (newest_first log ≠ [] →
     ∃ es e log', at_file fs st (es ++ [e]) log' ∧ newest_first log = rev (es ++ [e]) ++ newest_first log').
Proof.
  induction log as [|[p' es] log IH]; intros p iter Hok; cbn [map fst next_file].
  { eexists. split; [done|]. by intros []. }
  apply Forall_cons in Hok as [(Hwf & bs & Hfs & Hw & Hlim) Hok]. cbn [fst snd] in *.
  unfold WalEntryIterator_Make. rewrite Hfs. cbn [res_bind]. unfold WalEntryIterator_new. rewrite HasNext_backward.
  pose proof (image_empty es bs Hwf Hw) as He. change (newest_first ((p', es) :: log)) with (rev es ++ newest_first log).
  destruct es as [|e es _] using rev_ind.
  - rewrite (proj2 He eq_refl). cbn [Z.ltb Z.compare]. by apply IH.
  - zlen_facts. rewrite (proj2 (Z.ltb_lt _ _)).
    2: { destruct (decide (zlen bs = 0)) as [H0|]; [|lia]. apply He in H0. by destruct es. }
    rewrite bool_decide_eq_true_2 by (by rewrite rev_app_distr). eexists. split; [done|]. intros _.
    exists es, e, log. split; [|done]. exists p', bs, [], (zlen bs). by rewrite app_nil_r.
Qed.

Lemma yields_step fs st l :
  yields fs st l →
  match l with
  | [] => ∃ st', WalListIterator_HasNext fs st = Ok (false, st')
  | e :: l' => ∃ st1 st2, WalListIterator_HasNext fs st = Ok (true, st1) ∧
      WalListIterator_Next st1 = Ok (Some (WalEntry_stored e), st2) ∧ yields fs st2 l'
  end.
Proof.
  assert (Hgo : ∀ st st1 es e log, WalListIterator_HasNext fs st = Ok (true, st1) → at_file fs st1 (es ++ [e]) log →
    ∃ st1 st2, WalListIterator_HasNext fs st = Ok (true, st1) ∧
      WalListIterator_Next st1 = Ok (Some (WalEntry_stored e), st2) ∧ yields fs st2 (rev es ++ newest_first log)).
  { intros ? st1 es e log Hh Hat. destruct (at_file_Next _ _ _ _ _ Hat) as (st2 & Hn & Hat2).
    exists st1, st2. split; [done|]. split; [done|]. by exists es, log. }
  intros (es & log & Hat & ->). destruct es as [|e es _] using rev_ind.
  - destruct Hat as (p & bs & post & ws & -> & _ & Hw & _ & Hok). rewrite write_all_nil in Hw. injection Hw as <-.
    cbn [rev app]. destruct (next_file_spec fs log p (mkWalEntryIterator true 0 post ws) Hok) as (st & Hst & Hy).
    assert (Hh : WalListIterator_HasNext fs (mkWalListIterator (p :: map fst log)
        (Some (mkWalEntryIterator true (zlen (@nil Z)) ([] ++ post) ws)))
      = Ok (bool_decide (newest_first log ≠ []), st)) by exact Hst.
    destruct (newest_first log) as [|e l] eqn:Hl; [by eexists|].
    destruct (Hy ltac:(done)) as (es & e' & log' & Hat & Heq). rewrite rev_app_distr in Heq. injection Heq as -> ->.
    by eapply Hgo.
  - rewrite rev_app_distr. cbn [rev app]. eapply Hgo; [by eapply at_file_HasNext|done].
Qed.
End tails.

(** ** Lemmas: the phases of the replay *)

Section phases.
Context {B : Type} `{Blk : !Codec B}.
Implicit Types (e c : WalEntry B) (es l : list (WalEntry B)).

Fixpoint take_while {A} (p : A → bool) (l : list A) : list A :=
  match l with
  | [] => []
  | a :: l' => if p a then a :: take_while p l' else []
  end.

Lemma split_checkpoint_stored (cmds : list (WalCmd B)) :
  split_checkpoint (map WalCmd_stored cmds) = prod_map WalCmd_stored (map WalCmd_stored) <$> split_checkpoint cmds.
Proof.
  induction cmds as [|cmd cmds IH]; [done|]. cbn [map split_checkpoint]. rewrite GetType_stored, IH.
  by case_bool_decide.
Qed.

Lemma split_checkpoint_None (cmds : list (WalCmd B)) :
  existsb (fun cmd => bool_decide (GetType cmd = CHECKPOINT)) cmds = false → split_checkpoint cmds = None.
Proof.
  induction cmds as [|cmd cmds IH]; [done|]. cbn [existsb split_checkpoint]. intros H.
  apply orb_false_iff in H as [-> H]. by apply IH.
Qed.

(** The checkpoint command that recovery takes from an entry. *)
Definition checkpoint_of c (max_commit_ts : Z) (catalog_path : bytes) : Prop :=
  ∃ is_full tail, split_checkpoint (cmds_ c) = Some (WalCmdCheckpoint max_commit_ts is_full catalog_path, tail).

Lemma phase1_spec fs max_commit_ts catalog_path c l2 l1 : ∀ fuel st acc,
  yields fs st (l1 ++ c :: l2) → Forall WalEntry_wf (l1 ++ [c]) →
  Forall (fun e => IsCheckPoint e = false) l1 → checkpoint_of c max_commit_ts catalog_path →
  (length l1 < fuel)%nat →
  ∃ st', replay_phase1 fuel fs st acc
    = Ok (mkPhase1 st' (acc ++ map WalEntry_stored l1) (cast u64 max_commit_ts) (parent_path catalog_path) (commit_ts_ c))
    ∧ yields fs st' l2.
Proof.
  induction l1 as [|e l1 IH]; intros fuel st acc Hy Hwf Hn Hc Hfuel; (destruct fuel as [|fuel]; [lia|]);
    apply yields_step in Hy as (st1 & st2 & Hh & Hx & Hy); cbn [replay_phase1]; rewrite Hh; cbn [res_bind negb];
    rewrite Hx; cbn [res_bind]; apply Forall_cons in Hwf as [He Hwf]; unfold IsCheckPoint_replay;
    rewrite stored_cmds, split_checkpoint_stored by done.
  - destruct Hc as (full & tail & ->). cbn. exists st2. split; [|done].
    by rewrite app_nil_r, stored_commit_ts.
  - apply Forall_cons in Hn as [Hne Hn]. rewrite split_checkpoint_None by done. cbn [fmap option_fmap option_map].
    destruct (IH fuel st2 (acc ++ [WalEntry_stored e]) Hy Hwf Hn Hc ltac:(simpl in Hfuel; lia)) as (st' & Hr & Hy').
    exists st'. split; [|done]. rewrite Hr. by rewrite <- app_assoc.
Qed.

Lemma phase2_spec fs max_commit_ts l : ∀ fuel st acc,
  yields fs st l → (length l < fuel)%nat →
  replay_phase2 fuel fs st max_commit_ts acc
  = Ok (acc ++ map WalEntry_stored (take_while (fun e => max_commit_ts <? commit_ts_ e) l)).
Proof.
  induction l as [|e l IH]; intros fuel st acc Hy Hfuel; (destruct fuel as [|fuel]; [simpl in Hfuel; lia|]);
    apply yields_step in Hy; cbn [replay_phase2 take_while].
  - destruct Hy as (st' & ->). cbn. by rewrite app_nil_r.
  - destruct Hy as (st1 & st2 & -> & Hx & Hy). cbn [res_bind negb]. rewrite Hx. cbn [res_bind].
    rewrite stored_commit_ts. destruct (max_commit_ts <? commit_ts_ e); [|cbn; by rewrite app_nil_r].
    rewrite (IH _ _ _ Hy) by (simpl in Hfuel; lia). by rewrite <- app_assoc.
Qed.

(** The commands that replay knows. *)
Definition replayable e : Prop :=
  Forall (fun cmd => GetType cmd ≠ SET_SEGMENT_STATUS_SEALED ∧ GetType cmd ≠ UPDATE_SEGMENT_BLOOM_FILTER_DATA) (cmds_ e).

(** The calls an entry stands for: every command but checkpoints, in order. *)
Definition calls_of e : list (CatalogCall (B := B)) :=
  map (fun cmd => (WalCmd_stored cmd, txn_id_ e, commit_ts_ e)) (filter (fun cmd => GetType cmd ≠ CHECKPOINT) (cmds_ e)).

Lemma ReplayWalEntry_fold e cmds : ∀ acc,
  Forall (fun cmd => GetType cmd ≠ SET_SEGMENT_STATUS_SEALED ∧ GetType cmd ≠ UPDATE_SEGMENT_BLOOM_FILTER_DATA) cmds →
  res_fold (ReplayWalEntry_step (WalEntry_stored e)) acc (map WalCmd_stored cmds)
  = Ok (acc ++ map (fun cmd => (WalCmd_stored cmd, txn_id_ e, commit_ts_ e))
                 (filter (fun cmd => GetType cmd ≠ CHECKPOINT) cmds)).
Proof.
  induction cmds as [|cmd cmds IH]; intros acc Hr; [cbn; by rewrite app_nil_r|].
  apply Forall_cons in Hr as [Hc Hr]. cbn [map res_fold]. unfold ReplayWalEntry_step at 1.
  rewrite GetType_stored, filter_cons, stored_commit_ts, stored_txn_id.
  destruct cmd; cbn [GetType] in Hc |- *; try (by destruct Hc as [[] ?]); try (by destruct Hc as [? []]);
    cbn [res_bind]; rewrite ?decide_True by done; try (rewrite IH by done; cbn [map]; by rewrite <- app_assoc).
  rewrite decide_False by naive_solver. by apply IH.
Qed.

Lemma ReplayWalEntry_spec e : WalEntry_wf e → replayable e → ReplayWalEntry (WalEntry_stored e) = Ok (calls_of e).
Proof.
  intros Hwf Hr. unfold ReplayWalEntry. rewrite stored_cmds by done. by apply ReplayWalEntry_fold.
Qed.

Lemma phase3_fold max_commit_ts es : ∀ acc ts0 txn0,
  Forall WalEntry_wf es → Forall replayable es → Forall (fun e => max_commit_ts ≤ commit_ts_ e) es →
  res_fold (replay_phase3_step max_commit_ts) (acc, ts0, txn0) (map WalEntry_stored es)
  = Ok (acc ++ concat (map calls_of es), default ts0 (commit_ts_ <$> last es), default txn0 (txn_id_ <$> last es)).
Proof.
  induction es as [|e es IH]; intros acc ts0 txn0 Hwf Hr Hge; [cbn; by rewrite app_nil_r|].
  apply Forall_cons in Hwf as [He Hwf]. apply Forall_cons in Hr as [Hre Hr]. apply Forall_cons in Hge as [Hg Hge].
  cbn [map res_fold concat]. unfold replay_phase3_step at 1.
  rewrite stored_commit_ts, (proj2 (Z.ltb_ge _ _)) by lia.
  rewrite ReplayWalEntry_spec, stored_txn_id by done. cbn [res_bind].
  rewrite IH by done. rewrite <- app_assoc. destruct es as [|e' es]; [done|].
  rewrite (last_cons e). destruct (last (e' :: es)) eqn:Hl; [done|]. by apply last_None in Hl.
Qed.
End phases.

(** ** The log on disk *)

Section disk.
Context {B : Type} `{Blk : !Codec B} `{Dir : !DirectoryListing}.
Implicit Types (e c : WalEntry B) (es l : list (WalEntry B)) (swapped : list (Z * list (WalEntry B))).

Definition swapped_files (dir : bytes) swapped : list (bytes * list (WalEntry B)) :=
  map (fun f => (join dir (WalFilename f.1), f.2)) swapped.

(** The directory [dir] holds the log file in use, if any, with entries and what follows the last
    good one, and the swapped files, newest first, under their timestamps; nothing else in it has
    the name of a log file. *)
Record log_on_disk (fs : FileSystem) (dir : bytes) (cur : option (list (WalEntry B) * bytes)) swapped : Prop := {
  log_listing : is_Some (directory_iterator fs dir);
  log_cur :
    match cur with
    | None => fs !! join dir TempWalFilename = None
    | Some (es, t) =>
        Forall WalEntry_wf es ∧ (t = [] ∨ BadTail (B := B) t) ∧
        ∃ bs, write_all WalEntry_WriteAdv es = Ok bs ∧ fs !! join dir TempWalFilename = Some (bs ++ t) ∧
          zlen (bs ++ t) < file_limit
    end;
  log_swapped : Forall (file_ok fs) (swapped_files dir swapped);
  log_ts : Forall (fun f => 0 ≤ f.1 < 2 ^ 63) swapped;
  log_order : StronglySorted (fun f g => g.1 < f.1) swapped;
  log_complete : ∀ i, is_wal fs dir i → ∃ f, f ∈ swapped ∧ i = mkFileInfo (join dir (WalFilename f.1)) f.1;
}.

(** All entries, in the order they were written. *)
Definition history (cur : option (list (WalEntry B) * bytes)) swapped : list (WalEntry B) :=
  concat (map snd (rev swapped)) ++ match cur with Some (es, _) => es | None => [] end.

(** What the purge leaves: a bad tail is cut off, a file with nothing else is gone. *)
Definition purged (fs : FileSystem) (dir : bytes) (cur : option (list (WalEntry B) * bytes)) : FileSystem :=
  match cur with
  | Some (es, _ :: _) =>
      match write_all WalEntry_WriteAdv es with
      | Ok bs => if decide (es = []) then delete (join dir TempWalFilename) fs
                 else <[join dir TempWalFilename := bs]> fs
      | Err _ => fs
      end
  | _ => fs
  end.

(** The files left to iterate over. *)
Definition live_files (dir : bytes) (cur : option (list (WalEntry B) * bytes)) swapped : list (bytes * list (WalEntry B)) :=
  match cur with
  | None | Some ([], _ :: _) => swapped_files dir swapped
  | Some (es, _) => (join dir TempWalFilename, es) :: swapped_files dir swapped
  end.

Lemma newest_first_history dir cur swapped : newest_first (live_files dir cur swapped) = rev (history cur swapped).
Proof.
  assert (Hs : newest_first (swapped_files dir swapped) = rev (concat (map snd (rev swapped)))).
  { unfold newest_first, swapped_files. rewrite map_map. cbn [snd].
    induction swapped as [|f s IH]; [done|]. cbn [map concat rev].
    rewrite map_app, concat_app, rev_app_distr, IH. cbn. by rewrite app_nil_r. }
  unfold history. rewrite rev_app_distr, <- Hs. destruct cur as [[es t]|]; [|done].
  by destruct es, t.
Qed.

Lemma temp_not_swapped dir swapped :
  Forall (fun f => 0 ≤ f.1 < 2 ^ 63) swapped → join dir TempWalFilename ∉ map fst (swapped_files dir swapped).
Proof.
  intros Hts Hin. unfold swapped_files in Hin. rewrite map_map in Hin. cbn [fst] in Hin.
  apply list_elem_of_fmap in Hin as (f & Hf & Hin). apply join_inj in Hf.
  apply (proj1 (Forall_forall _ _) Hts) in Hin. apply parse_wal_small in Hin. rewrite <- Hf in Hin.
  by vm_compute in Hin.
Qed.

Lemma swapped_infos fs dir cur swapped ents :
  log_on_disk fs dir cur swapped → directory_iterator fs dir = Some ents →
  merge_sort ts_ge (omap (collect parse_wal_filename dir) ents)
  = map (fun f => mkFileInfo (join dir (WalFilename f.1)) f.1) swapped.
Proof.
  intros [Hl Hcur Hok Hts Hord Hcomp] Hdir. set (infos := map _ swapped).
  assert (Hinj : ∀ x y, x ∈ infos → y ∈ infos → max_commit_ts_ x = max_commit_ts_ y → x = y).
  { intros x y Hx Hy. apply list_elem_of_fmap in Hx as (f & -> & _). apply list_elem_of_fmap in Hy as (g & -> & _).
    simpl. by intros ->. }
  assert (Hperm : omap (collect parse_wal_filename dir) ents ≡ₚ infos).
  { apply NoDup_Permutation; [by eapply NoDup_collect| |].
    - unfold infos. clear -Hord. induction Hord as [|f s Hs IH Hf]; [constructor|]. cbn [map]. apply NoDup_cons.
      split; [|done]. intros Hin. apply list_elem_of_fmap in Hin as (g & [= _ Heq] & Hg).
      apply (proj1 (Forall_forall _ _) Hf) in Hg. lia.
    - intros i. rewrite (elem_of_collect _ _ _ _ _ Hdir). split.
      + intros Hi. apply Hcomp in Hi as (f & Hf & ->). apply list_elem_of_fmap. by exists f.
      + intros Hi. apply list_elem_of_fmap in Hi as (f & -> & Hf). exists (WalFilename f.1). cbn [path_ max_commit_ts_].
        split; [done|]. split; [apply slash_not_in_WalFilename|]. split.
        * assert (Hf' : (join dir (WalFilename f.1), f.2) ∈ swapped_files dir swapped)
            by (apply list_elem_of_fmap; by exists f).
          apply (proj1 (Forall_forall _ _) Hok) in Hf' as (_ & bs & ? & _). by eexists.
        * apply parse_wal_small. by apply (proj1 (Forall_forall _ _) Hts). }
  apply (StronglySorted_unique_strong ts_ge).
  - intros x y Hx Hy Hxy Hyx. rewrite merge_sort_Permutation, Hperm in Hx. apply Hinj; [done..|].
    unfold ts_ge, ts_le in *. lia.
  - apply StronglySorted_merge_sort; unfold ts_ge, ts_le; intros ?; intros; lia.
  - unfold infos. clear -Hord. induction Hord as [|f s Hs IH Hf]; [constructor|]. cbn [map]. constructor; [done|].
    apply Forall_forall. intros i Hi. apply list_elem_of_fmap in Hi as (g & -> & Hg).
    apply (proj1 (Forall_forall _ _) Hf) in Hg. unfold ts_ge, ts_le. simpl. lia.
  - by rewrite merge_sort_Permutation.
Qed.

Lemma replay_wal_list_spec fs dir cur swapped :
  log_on_disk fs dir cur swapped →
  replay_wal_list fs dir
  = Ok ((if cur then [join dir TempWalFilename] else []) ++ map fst (swapped_files dir swapped)).
Proof.
  intros Hlog. pose proof (log_listing _ _ _ _ Hlog) as [ents Hdir]. unfold replay_wal_list.
  rewrite (ParseWalFilenames_spec _ _ _ Hdir). cbn [res_bind]. rewrite (swapped_infos _ _ _ _ _ Hlog Hdir).
  unfold swapped_files. rewrite !map_map. cbn [fst path_]. do 2 f_equal.
  pose proof (log_cur _ _ _ _ Hlog) as Hcur. destruct cur as [[es t]|].
  - destruct Hcur as (_ & _ & bs & _ & -> & _). by rewrite decide_True by (by eexists).
  - rewrite Hcur. by rewrite decide_False by (intros []; discriminate).
Qed.

Lemma purge_spec fs dir cur swapped :
  log_on_disk fs dir cur swapped →
  let wal_list := (if cur then [join dir TempWalFilename] else []) ++ map fst (swapped_files dir swapped) in
  PurgeBadEntriesAfterLatestCheckpoint (B := B) fs wal_list wal_list 0 false
  = Ok (purged fs dir cur, map fst (live_files dir cur swapped)) ∧
  Forall (file_ok (purged fs dir cur)) (live_files dir cur swapped).
Proof.
  intros [_ Hcur Hok Hts _ _] wal_list. unfold wal_list. pose proof (temp_not_swapped dir swapped Hts) as Hp.
  set (p := join dir TempWalFilename) in *.
  assert (Hother : ∀ (fs' : FileSystem), (∀ q, q ≠ p → fs' !! q = fs !! q) → Forall (file_ok fs') (swapped_files dir swapped)).
  { intros fs' Hfs'. apply Forall_forall. intros [q es'] Hq.
    pose proof (proj1 (Forall_forall _ _) Hok _ Hq) as (? & bs' & ? & ?).
    split; [done|]. exists bs'. split; [|done]. cbn [fst] in *. rewrite Hfs'; [done|].
    intros ->. apply Hp. apply list_elem_of_fmap. by exists (p, es'). }
  destruct cur as [[es t]|]; [|split; [by apply purge_good|done]].
  destruct Hcur as (Hwf & Ht & bs & Hw & Hfs & Hlim). destruct t as [|z t].
  - rewrite app_nil_r in *. assert (Hgood : Forall (file_ok fs) ((p, es) :: swapped_files dir swapped)).
    { constructor; [|done]. split; [done|]. by exists bs. }
    replace (live_files dir (Some (es, [])) swapped) with ((p, es) :: swapped_files dir swapped) by (by destruct es).
    split; [|done]. by rewrite (purge_good fs ((p, es) :: swapped_files dir swapped)).
  - destruct Ht as [|Ht]; [done|]. cbn [app]. rewrite (purge_bad fs p es bs (z :: t)) by done.
    unfold purged. rewrite Hw. fold p. destruct (decide (es = [])) as [->|Hne].
    + split; [done|]. apply Hother. intros q Hq. by apply lookup_delete_ne.
    + replace (live_files dir (Some (es, z :: t)) swapped) with ((p, es) :: swapped_files dir swapped) by (by destruct es).
      split; [done|]. constructor; [|apply Hother; intros q Hq; by apply lookup_insert_ne].
      split; [done|]. exists bs. cbn [fst snd]. rewrite lookup_insert_eq. repeat split; try done.
      rewrite zlen_app in Hlim. zlen_facts. lia.
Qed.

Lemma iterator_new_spec fs dir cur swapped :
  log_on_disk fs dir cur swapped → history cur swapped ≠ [] →
  ∃ st, WalListIterator_new (B := B) fs
      ((if cur then [join dir TempWalFilename] else []) ++ map fst (swapped_files dir swapped))
    = Ok (purged fs dir cur, st) ∧ yields (purged fs dir cur) st (rev (history cur swapped)).
Proof.
  intros Hlog Hne. destruct (purge_spec _ _ _ _ Hlog) as [Hpurge Hok]. unfold WalListIterator_new.
  rewrite Hpurge. cbn [res_bind]. pose proof (newest_first_history dir cur swapped) as Hh.
  destruct (live_files dir cur swapped) as [|[p es] log]; cbn [map fst].
  { destruct Hne. rewrite <- (rev_involutive (history cur swapped)), <- Hh. done. }
  apply Forall_cons in Hok as [(Hwf & bs & Hfs & Hw & Hlim) Hok]. cbn [fst snd] in *.
  unfold WalEntryIterator_Make. rewrite Hfs. cbn [res_bind]. eexists. split; [done|].
  exists es, log. split; [|by rewrite <- Hh]. exists p, bs, [], (zlen bs). by rewrite app_nil_r.
Qed.

Lemma image_length es bs :
  Forall WalEntry_wf es → write_all WalEntry_WriteAdv es = Ok bs → (length es ≤ length bs)%nat.
Proof.
  revert bs. induction es as [|e es IH]; intros bs Hwf Hw; [simpl; lia|].
  rewrite write_all_cons in Hw. inv_ok. apply Forall_cons in Hwf as [He Hwf].
  destruct (entry_written e x He ltac:(done)) as (_ & _ & _ & Hz). specialize (IH x0 Hwf ltac:(done)).
  rewrite length_app. unfold zlen in Hz. simpl. lia.
Qed.

Lemma live_bytes (fs : FileSystem) (log : list (bytes * list (WalEntry B))) :
  Forall (file_ok fs) log →
  (length (newest_first log) ≤ length (concat (omap (fun path => fs !! path) (map fst log))))%nat.
Proof.
  induction 1 as [|[p es] log (Hwf & bs & Hfs & Hw & _) Hok IH]; [done|]. cbn [fst snd map] in *.
  change (newest_first ((p, es) :: log)) with (rev es ++ newest_first log).
  rewrite omap_step, Hfs. cbn [concat]. rewrite !length_app, length_rev.
  pose proof (image_length es bs Hwf Hw). lia.
Qed.

Lemma fuel_spec fs dir cur swapped :
  log_on_disk fs dir cur swapped →
  (length (history cur swapped) < replay_fuel (purged fs dir cur)
     ((if cur then [join dir TempWalFilename] else []) ++ map fst (swapped_files dir swapped)))%nat.
Proof.
  intros Hlog. destruct (purge_spec _ _ _ _ Hlog) as [_ Hok]. apply live_bytes in Hok.
  rewrite newest_first_history, length_rev in Hok. unfold replay_fuel. apply Nat.lt_succ_r.
  etransitivity; [exact Hok|]. rewrite omap_app, concat_app, length_app.
  destruct cur as [[es t]|]; [|cbn; lia]. destruct es as [|e es]; [destruct t as [|z t]|].
  2: cbn [live_files]; lia.
  all: cbn [live_files map fst]; rewrite omap_step.
  all: change (omap (fun path => purged fs dir ?c !! path) [?p])
    with (match purged fs dir c !! p with Some b => b :: [] | None => [] end).
  all: destruct (_ !! _); cbn [concat]; rewrite ?length_app; cbn [length]; lia.
Qed.

Lemma history_wf fs dir cur swapped : log_on_disk fs dir cur swapped → Forall WalEntry_wf (history cur swapped).
Proof.
  intros Hlog. destruct (purge_spec _ _ _ _ Hlog) as [_ Hok].
  rewrite <- (rev_involutive (history _ _)), <- (newest_first_history dir). apply Forall_rev.
  induction Hok as [|f log [Hwf _] _ IH]; [constructor|]. apply Forall_app. split; [by apply Forall_rev|done].
Qed.

Lemma take_while_sorted m l :
  StronglySorted (fun a b => commit_ts_ a ≤ commit_ts_ b) l →
  rev (take_while (fun e => m <? commit_ts_ e) (rev l)) = filter (fun e => m < commit_ts_ e) l.
Proof.
  induction l as [|e l IH] using rev_ind; [done|]. intros Hs.
  rewrite rev_app_distr, filter_app. cbn [rev app take_while].
  assert (Hl : StronglySorted (fun a b => commit_ts_ a ≤ commit_ts_ b) l) by (by eapply StronglySorted_app_1_l).
  rewrite filter_cons. destruct (Z.ltb_spec m (commit_ts_ e)).
  - cbn [rev]. by rewrite IH, decide_True.
  - rewrite decide_False by lia. rewrite app_nil_r. symmetry. clear IH.
    assert (Hle : ∀ x, x ∈ l → commit_ts_ x ≤ m).
    { intros x Hx. transitivity (commit_ts_ e); [|done]. 
      apply (StronglySorted_app_1_elem_of (fun a b => commit_ts_ a ≤ commit_ts_ b) l [e]); [done|done|set_solver]. }
    clear Hs Hl. induction l as [|x l IH]; [done|]. rewrite filter_cons, decide_False.
    + apply IH. set_solver.
    + specialize (Hle x ltac:(set_solver)). lia.
Qed.

Lemma split_checkpoint_elem (cmds : list (WalCmd B)) cmd tail :
  split_checkpoint cmds = Some (cmd, tail) → cmd ∈ cmds.
Proof.
  induction cmds as [|x cmds IH]; [done|]. cbn [split_checkpoint]. case_bool_decide; [intros [= -> _]; left|].
  intros Hs. right. by apply IH.
Qed.

Lemma checkpoint_ts_u64 c m path : WalEntry_wf c → checkpoint_of c m path → 0 ≤ m → cast u64 m = m.
Proof.
  intros (_ & _ & _ & Hwf & _) (full & tail & Hs) H0. apply split_checkpoint_elem in Hs.
  apply (proj1 (Forall_forall _ _) Hwf) in Hs as [Hr _]. revert Hr. unfold in_range.
  change (lowest i64) with (-9223372036854775808). change (modulus i64) with 18446744073709551616.
  intros Hr. apply cast_id. unfold in_range. change (lowest u64) with 0. change (modulus u64) with 18446744073709551616. lia.
Qed.

(** ** Properties *)

(** C1. Recovery from the log.  Let the directory hold the log files, the one in use possibly ending
    in an entry of which four bytes or more were written or whose checksum does not fit, and let [c] be the last entry written with a checkpoint (up to
    [m]).  Then [ReplayWalFile] cuts off the bad tail and nothing else, attaches the catalog
    checkpoint found for [m], and calls the catalog with exactly the commands (checkpoints aside) of
    the entries before [c] that committed after [m] and of all entries after [c], each once and in
    the order they were written; it starts the system at the last of their commit timestamps. *)
Theorem wal_recovery fs dir cur swapped older c newer m path full deltas :
  log_on_disk fs dir cur swapped →
  history cur swapped = older ++ c :: newer →
  StronglySorted (fun a b => commit_ts_ a ≤ commit_ts_ b) older →
  Forall (fun e => IsCheckPoint e = false ∧ m ≤ commit_ts_ e) newer →
  checkpoint_of c m path → 0 ≤ m → 0 < commit_ts_ c →
  Forall replayable (older ++ newer) →
  ParseValidCheckpointFilenames (purged fs dir cur) (parent_path path) m = Ok (Some (full, deltas)) →
  let entries := filter (fun e => m < commit_ts_ e) older ++ newer in
  let start := default (commit_ts_ c) (commit_ts_ <$> last entries) in
  ReplayWalFile fs dir
  = Ok (purged fs dir cur,
        Replayed full deltas (concat (map calls_of entries)) (default 0 (txn_id_ <$> last entries)) start,
        cast i64 start).
Proof.
  intros Hlog Hh Hsort Hnew Hc H0 Hts Hrep Hcat entries start.
  pose proof (history_wf _ _ _ _ Hlog) as Hwf. pose proof (fuel_spec _ _ _ _ Hlog) as Hfuel.
  destruct (iterator_new_spec _ _ _ _ Hlog) as (st & Hnew_it & Hy); [rewrite Hh; by destruct older|].
  unfold ReplayWalFile. rewrite (replay_wal_list_spec _ _ _ _ Hlog). cbn [res_bind].
  set (wl := (if cur then _ else _) ++ map fst _) in *. rewrite Hh in Hwf, Hfuel, Hy. rewrite rev_app_distr in Hy. cbn [rev] in Hy.
  rewrite <- app_assoc in Hy. rewrite length_app in Hfuel. cbn [length] in Hfuel.
  apply Forall_app in Hwf as [Hwo Hwf]. apply Forall_cons in Hwf as [Hwc Hwn].
  destruct wl as [|w0 wl'] eqn:Hwl.
  { injection Hnew_it as _ <-. by destruct Hy as (? & ? & (? & ? & ? & ? & ? & _) & _). }
  rewrite <- Hwl in *. rewrite Hnew_it. cbn [res_bind].
  destruct (phase1_spec (purged fs dir cur) m path c (rev older) (rev newer) (replay_fuel (purged fs dir cur) wl) st [] Hy)
    as (st' & -> & Hy').
  { apply Forall_app. split; [by apply Forall_rev|by constructor]. }
  { apply Forall_rev. eapply Forall_impl; [exact Hnew|]. by intros ? []. }
  { done. }
  { rewrite length_rev. lia. }
  cbn [res_bind ph_iterator ph_replay_entries ph_max_commit_ts ph_catalog_dir ph_system_start_ts app].
  rewrite (checkpoint_ts_u64 c m path) by done. rewrite (phase2_spec _ _ _ _ _ _ Hy') by (rewrite length_rev; lia).
  cbn [res_bind]. rewrite (proj2 (Z.eqb_neq _ _)) by lia. rewrite Hcat. cbn [res_bind].
  rewrite <- map_app, <- map_rev, rev_app_distr, rev_involutive, take_while_sorted by done. fold entries.
  apply Forall_app in Hrep as [Hro Hrn]. unfold replay_phase3. rewrite phase3_fold; [done|..].
  - apply Forall_app. split; [by apply Forall_filter_of|done].
  - apply Forall_app. split; [by apply Forall_filter_of|done].
  - apply Forall_app. split; [|eapply Forall_impl; [exact Hnew|]; by intros ? []].
    apply Forall_forall. intros e He. apply list_elem_of_filter in He as [? _]. lia.
Qed.
End disk.

(** C28. A torn entry of fewer than four bytes is read beyond its end: the purge reads the size of an entry
    where the newest file has one to three bytes left, beyond the end of its buffer. *)
Theorem short_tail_overruns {B : Type} `{Blk : !Codec B} `{Dir : !DirectoryListing} fs dir (es : list (WalEntry B)) bs t path older :
  Forall WalEntry_wf es → write_all WalEntry_WriteAdv es = Ok bs → 0 < zlen t < 4 →
  replay_wal_list fs dir = Ok (path :: older) → fs !! path = Some (bs ++ t) → zlen (bs ++ t) < file_limit →
  ReplayWalFile (B := B) fs dir = Err OutOfBounds.
Proof.
  intros Hwf Hw Ht Hlist Hfs Hlim. unfold ReplayWalFile. rewrite Hlist. cbn [res_bind]. unfold WalListIterator_new.
  cbn [PurgeBadEntriesAfterLatestCheckpoint]. unfold WalEntryIterator_Make, WalEntryIterator_new. rewrite Hfs. cbn [res_bind buf_].
  pose proof (scan_short es bs [] t (zlen (bs ++ t)) (S (length (bs ++ t))) false Hwf Hw Ht) as Hscan. cbn [app] in Hscan. change (zlen []) with 0 in Hscan.
  rewrite Hscan; [done|done|]. rewrite length_app. lia.
Qed.

(** ** Witnesses *)

Module Sample.
(** Blocks are strings; two log files, the newer one torn, and a full checkpoint at 3. *)
#[local] Existing Instance string_codec.
#[local] Existing Instance map_listing.

Definition e1 : WalEntry bytes := mkWalEntry 0 0 1 2 [WalCmdCreateDatabase (str "db1") (str "d1")].
Definition e2 : WalEntry bytes := mkWalEntry 0 0 2 4 [WalCmdDropDatabase (str "db1")].
Definition c : WalEntry bytes := mkWalEntry 0 0 3 5 [WalCmdCheckpoint 3 true (str "cat/FULL.3.json")].
Definition e3 : WalEntry bytes := mkWalEntry 0 0 4 6 [WalCmdAppend (str "db2") (str "t") (str "rows")].
Definition e4 : WalEntry bytes := mkWalEntry 0 0 5 7 [WalCmdDropDatabase (str "db2")].

Definition image (es : list (WalEntry bytes)) : bytes :=
  match write_all WalEntry_WriteAdv es with Ok bs => bs | Err _ => [] end.

Definition dir : bytes := str "wal".
Definition torn : bytes := take 20 (image [e4]).
Definition files : list (bytes * bytes) :=
  [(join dir (WalFilename 4), image [e1; e2]); (join dir TempWalFilename, image [c; e3] ++ torn);
   (str "cat/FULL.3.json", [])].
Definition fs : FileSystem := list_to_map files.
Definition cur : option (list (WalEntry bytes) * bytes) := Some ([c; e3], torn).
Definition swapped : list (Z * list (WalEntry bytes)) := [(4, [e1; e2])].

Ltac solve_wf :=
  split; [by vm_compute|]; split; [by vm_compute|]; split; [by vm_compute|]; split;
    [repeat constructor; by vm_compute|];
  intros cmds Hcmds; vm_compute in Hcmds; injection Hcmds as <-; by vm_compute.

Lemma entries_wf : Forall WalEntry_wf [e1; e2; c; e3; e4].
Proof. repeat (apply Forall_cons; split; [solve_wf|]). apply Forall_nil_2. Qed.

Lemma torn_bad : BadTail (B := bytes) torn.
Proof.
  apply (TornEntry e4 (image [e4]) torn (drop 20 (image [e4]))).
  - pose proof entries_wf as H. by do 4 apply Forall_inv_tail in H; apply Forall_inv in H.
  - by vm_compute.
  - symmetry. apply take_drop.
  - by vm_compute.
  - by vm_compute.
Qed.

Lemma files_complete i : is_wal fs dir i → i = mkFileInfo (join dir (WalFilename 4)) 4.
Proof.
  intros (name & Hp & Hs & [x Hx] & Hts). apply elem_of_list_to_map_2 in Hx.
  destruct i as [path ts]. cbn [path_ max_commit_ts_] in *. unfold files in Hx.
  apply elem_of_cons in Hx as [Hx|Hx]; [|apply elem_of_cons in Hx as [Hx|Hx]; [|apply list_elem_of_singleton in Hx]];
    injection Hx as Hx _; subst path.
  - apply join_inj in Hx as ->. rewrite parse_wal_small in Hts by (split; [lia|exact eq_refl]). by injection Hts as <-.
  - apply join_inj in Hx as ->. by vm_compute in Hts.
  - by vm_compute in Hx.
Qed.

Lemma disk : log_on_disk fs dir cur swapped.
Proof.
  pose proof entries_wf as Hwf. split.
  - by eexists.
  - split; [|split; [right; apply torn_bad|]].
    + do 2 apply Forall_inv_tail in Hwf. apply Forall_cons in Hwf as [? Hwf]. apply Forall_cons in Hwf as [? _].
      constructor; [done|constructor; [done|constructor]].
    + exists (image [c; e3]). split; [by vm_compute|]. split; by vm_compute.
  - apply Forall_singleton. split.
    + apply Forall_cons in Hwf as [? Hwf]. apply Forall_cons in Hwf as [? _]. constructor; [done|constructor; [done|constructor]].
    + exists (image [e1; e2]). split; [by vm_compute|]. split; by vm_compute.
  - apply Forall_singleton. by split; [|exact eq_refl].
  - repeat constructor.
  - intros i Hi. exists (4, [e1; e2]). split; [by left|]. by apply files_complete.
Qed.
End Sample.

Lemma wal_recovery_witness :
  ∃ fs' full,
    ReplayWalFile (Blk := string_codec) (Dir := map_listing) Sample.fs Sample.dir
    = Ok (fs', Replayed full []
                 [(WalCmdDropDatabase (str "db1"), 2, 4); (WalCmdAppend (str "db2") (str "t") (str "rows"), 4, 6)] 4 6, 6).
Proof.
  eexists _, (mkFileInfo (str "cat/FULL.3.json") 3).
  refine (wal_recovery (Blk := string_codec) (Dir := map_listing) Sample.fs Sample.dir Sample.cur Sample.swapped
    [Sample.e1; Sample.e2] Sample.c [Sample.e3] 3 (str "cat/FULL.3.json") _ [] Sample.disk eq_refl _ _ _ _ _ _ _).
  - repeat constructor; by vm_compute.
  - repeat constructor; by vm_compute.
  - by eexists _, _.
  - lia.
  - by vm_compute.
  - repeat constructor; by vm_compute.
  - by vm_compute.
Defined.

(** The same log with the last entry torn after two bytes. *)
Lemma short_tail_overruns_witness :
  ReplayWalFile (Blk := string_codec) (Dir := map_listing)
    (<[join Sample.dir TempWalFilename := Sample.image [Sample.c; Sample.e3] ++ take 2 Sample.torn]> Sample.fs) Sample.dir = Err OutOfBounds.
Proof.
  apply (short_tail_overruns (Blk := string_codec) (Dir := map_listing) _ _ [Sample.c; Sample.e3] (Sample.image [Sample.c; Sample.e3]) (take 2 Sample.torn)
    (join Sample.dir TempWalFilename) [join Sample.dir (WalFilename 4)]).
  - pose proof Sample.entries_wf as H. do 2 apply Forall_inv_tail in H. apply Forall_cons in H as [? H]. apply Forall_cons in H as [? _]. constructor; [done|constructor; [done|constructor]].
  - by vm_compute.
  - by vm_compute.
  - by vm_compute.
  - apply lookup_insert_eq.
  - by vm_compute.
Defined.
