(* ===== verification/FileIO.v ===== *)
(** * Open files

    [LocalFileSystem::OpenFile], [Read], [Write] and [GetFileSize] of
    [src/src/storage/io/local_file_system.cpp] on an open file: its bytes and the position of the
    descriptor.  [read(2)] and [write(2)] may transfer fewer bytes than asked for; how many is up to
    the system ([Posix]), and the loops of [Read] and [Write] make up for it. *)

From Stdlib Require Import ZArith Lia List.
From stdpp Require Import base list numbers gmap.
From S2P Require Import Prelude Bytes LogFile.
Local Open Scope Z_scope.

Record FileHandler := mkHandler { content : bytes; pos : nat }.

(** How many of the [n] bytes asked for a call transfers, at least one.  The first argument tells
    calls apart. *)
Class Posix := {
  transferred : nat → nat → nat;
  transferred_range k n : (0 < n)%nat → (1 ≤ transferred k n ≤ n)%nat;
}.

(** A file that is written from its start: created when it does not exist, not truncated when it
    does. *)
Definition OpenFile_write (fs : FileSystem) (path : bytes) : FileHandler :=
  mkHandler (default [] (fs !! path)) 0.

Definition OpenFile_read (fs : FileSystem) (path : bytes) : option FileHandler :=
  match fs !! path with Some data => Some (mkHandler data 0) | None => None end.

Definition GetFileSize (h : FileHandler) : Z := zlen (content h).

(** [pwrite] of [data] at [p]: bytes of the file after it stay. *)
Definition overwrite (file : bytes) (p : nat) (data : bytes) : bytes :=
  take p file ++ data ++ drop (p + length data) file.

Section IO.
Context `{!Posix}.

(** One iteration writes what the system takes of the rest of [data]; [n] bounds the iterations. *)
Fixpoint write_loop (n : nat) (h : FileHandler) (data : bytes) : FileHandler :=
  match n, data with
  | S n', _ :: _ =>
      let count := transferred n (length data) in
      let chunk := take count data in
      write_loop n' (mkHandler (overwrite (content h) (pos h) chunk) (pos h + count)) (drop count data)
  | _, _ => h
  end.

Definition Write (h : FileHandler) (data : bytes) : FileHandler := write_loop (length data) h data.

(** What was read, at most [nbytes] bytes; the loop stops at the end of the file. *)
Fixpoint read_loop (n : nat) (h : FileHandler) (nbytes : nat) (readen : bytes) : bytes * FileHandler :=
  match n with
  | O => (readen, h)
  | S n' =>
      let left := Nat.min (nbytes - length readen) (length (content h) - pos h) in
      match left with
      | O => (readen, h)
      | _ =>
          let count := transferred n left in
          read_loop n' (mkHandler (content h) (pos h + count)) nbytes
            (readen ++ take count (drop (pos h) (content h)))
      end
  end.

Definition Read (h : FileHandler) (nbytes : Z) : bytes * FileHandler :=
  read_loop (Z.to_nat nbytes) h (Z.to_nat nbytes) [].

(** ** The loops transfer everything *)

Definition written (h : FileHandler) (data : bytes) : FileHandler :=
  mkHandler (overwrite (content h) (pos h) data) (pos h + length data).

Lemma overwrite_app file p a b :
  (p ≤ length file)%nat → overwrite (overwrite file p a) (p + length a) b = overwrite file p (a ++ b).
Proof.
  intros Hp. unfold overwrite. assert (Hl : length (take p file ++ a) = (p + length a)%nat) by (rewrite length_app, length_take; lia).
  rewrite (app_assoc (take p file) a (drop _ _)), (take_app_length' _ _ _ (eq_sym Hl)), <- !app_assoc. do 3 f_equal.
  rewrite app_assoc, drop_app_ge by lia. rewrite Hl, drop_drop, length_app. f_equal. lia.
Qed.

Lemma overwrite_nil file p : overwrite file p [] = file.
Proof. unfold overwrite. simpl. rewrite Nat.add_0_r. apply take_drop. Qed.

Lemma length_overwrite file p data :
  (p ≤ length file)%nat → length (overwrite file p data) = Nat.max (length file) (p + length data).
Proof. intros. unfold overwrite. rewrite !length_app, length_take, length_drop. lia. Qed.

Lemma write_loop_written n : ∀ h data,
  (pos h ≤ length (content h))%nat → (length data ≤ n)%nat → write_loop n h data = written h data.
Proof.
  induction n as [|n IH]; intros h data Hp Hn.
  - destruct data; [|simpl in Hn; lia]. unfold written. rewrite overwrite_nil. simpl. rewrite Nat.add_0_r. by destruct h.
  - destruct data as [|b data]; [unfold written; rewrite overwrite_nil; simpl; rewrite Nat.add_0_r; by destruct h|].
    cbn [write_loop]. set (d := b :: data) in *. pose proof (transferred_range (S n) (length d)) as Hc.
    set (count := transferred (S n) (length d)) in *. assert (0 < length d)%nat by (simpl; lia).
    assert (Ht : length (take count d) = count) by (rewrite length_take; lia).
    rewrite IH; cbn [content pos].
    + unfold written. cbn [content pos]. rewrite length_drop. f_equal; [|lia].
      rewrite <- (take_drop count d) at 3. rewrite <- overwrite_app by done. by rewrite Ht.
    + rewrite length_overwrite by done. lia.
    + rewrite length_drop. lia.
Qed.

Lemma Write_written h data : (pos h ≤ length (content h))%nat → Write h data = written h data.
Proof. intros. by apply write_loop_written. Qed.

Lemma read_loop_all n : ∀ h nbytes readen,
  (nbytes - length readen ≤ n)%nat →
  read_loop n h nbytes readen =
  let got := take (nbytes - length readen) (drop (pos h) (content h)) in
  (readen ++ got, mkHandler (content h) (pos h + length got)).
Proof.
  assert (Hstop : ∀ h nbytes (readen : bytes),
    Nat.min (nbytes - length readen) (length (content h) - pos h) = 0%nat →
    (readen, h) = let got := take (nbytes - length readen) (drop (pos h) (content h)) in
      (readen ++ got, mkHandler (content h) (pos h + length got))).
  { intros h nbytes readen Hl. cbn zeta. assert (Hz : take (nbytes - length readen) (drop (pos h) (content h)) = []).
    { apply nil_length_inv. rewrite length_take, length_drop. lia. }
    rewrite Hz, app_nil_r, Nat.add_0_r. by destruct h. }
  induction n as [|n IH]; intros h nbytes readen Hn; cbn [read_loop]; [apply Hstop; lia|].
  destruct (Nat.min _ _) as [|left'] eqn:Hl; [by apply Hstop|]. set (left := S left') in *.
  pose proof (transferred_range (S n) left ltac:(subst left; lia)) as Hc. set (count := transferred (S n) left) in *.
  assert (Ht : length (take count (drop (pos h) (content h))) = count) by (rewrite length_take, length_drop; lia).
  rewrite IH; [|rewrite length_app, Ht; lia]. cbn [content pos]. cbn zeta. rewrite length_app, Ht.
  assert (Hs : take (nbytes - length readen) (drop (pos h) (content h)) =
    take count (drop (pos h) (content h)) ++ take (nbytes - (length readen + count)) (drop (pos h + count) (content h))).
  { rewrite <- (take_drop count (take (nbytes - length readen) _)). rewrite take_take, skipn_firstn_comm, drop_drop.
    rewrite Nat.min_l by lia. do 2 f_equal. lia. }
  rewrite Hs, app_assoc, length_app, Ht. f_equal. f_equal. lia.
Qed.

Lemma Read_all h nbytes :
  Read h nbytes = let got := take (Z.to_nat nbytes) (drop (pos h) (content h)) in
    (got, mkHandler (content h) (pos h + length got)).
Proof. unfold Read. rewrite read_loop_all by (simpl; lia). cbn [length app]. by rewrite Nat.sub_0_r. Qed.

(** Writing at the end of what has been written so far, over [old]. *)
Lemma written_at done old data :
  written (mkHandler (done ++ old) (length done)) data =
  mkHandler ((done ++ data) ++ drop (length data) old) (length (done ++ data)).
Proof.
  unfold written, overwrite. cbn [content pos]. rewrite take_app_length, length_app, <- app_assoc. do 3 f_equal.
  rewrite drop_app_ge by lia. f_equal. lia.
Qed.

Lemma Write_at done old data :
  Write (mkHandler (done ++ old) (length done)) data =
  mkHandler ((done ++ data) ++ drop (length data) old) (length (done ++ data)).
Proof. rewrite Write_written; [apply written_at|]. cbn [content pos]. rewrite length_app. lia. Qed.

Lemma Read_at done data rest :
  Read (mkHandler (done ++ data ++ rest) (length done)) (zlen data) =
  (data, mkHandler (done ++ data ++ rest) (length (done ++ data))).
Proof.
  rewrite Read_all. cbn [content pos]. cbn zeta. unfold zlen. rewrite Nat2Z.id, drop_app_length, take_app_length.
  by rewrite length_app.
Qed.

End IO.

(** Calls that transfer everything. *)
Program Definition Posix_full : Posix := {| transferred _ n := n |}.
Next Obligation. intros. lia. Qed.
