(* ===== verification/BlockVersion.v ===== *)
(** * Versions of the rows of a block

    [BlockVersion] of [src/src/storage/meta/entry/block_version.cpp]: which transaction created and
    deleted the rows of a block, and the files it is spilled and checkpointed to.  [created_] has one
    field per append: its commit timestamp and the number of rows after it; [deleted_] has the commit
    timestamp of the deletion of each row, 0 for none. *)

From Stdlib Require Import ZArith Lia List.
From stdpp Require Import base list numbers sorting.
From S2P Require Import Prelude Bytes FileIO.
Local Open Scope Z_scope.

Record CreateField := mkCreateField { create_ts_ : Z; row_count_ : Z }.
Record BlockVersion := mkVersion { created_ : list CreateField; deleted_ : list Z }.

Definition MAX_TIMESTAMP : Z := 2 ^ 64 - 1.

Definition BlockVersion_new (capacity : Z) : BlockVersion := mkVersion [] (replicate (Z.to_nat capacity) 0).

(** The search of [std::lower_bound] and [std::upper_bound] among [len] elements from [first]:
    [right m] when the result is behind [m]. *)
Fixpoint bsearch {A} (fuel : nat) (right : A → bool) (l : list A) (first len : nat) : nat :=
  match fuel, len with
  | S fuel', S _ =>
      let half := Nat.div2 len in
      match l !! (first + half)%nat with
      | Some m =>
          if right m then bsearch fuel' right l (first + half + 1) (len - half - 1)
          else bsearch fuel' right l first half
      | None => first
      end
  | _, _ => first
  end.

Definition partition_point {A} (right : A → bool) (l : list A) : nat := bsearch (length l) right l 0 (length l).

Definition GetRowCount (this : BlockVersion) (begin_ts : Z) : Z :=
  let iter := partition_point (fun field => negb (begin_ts <? create_ts_ field)) (created_ this) in
  match iter with
  | O => 0
  | S last => match created_ this !! last with Some field => cast i32 (row_count_ field) | None => 0 end
  end.

(** [while (create_size > 0 && created_[create_size - 1].create_ts_ > checkpoint_ts) --create_size] *)
Fixpoint drop_later (created : list CreateField) (checkpoint_ts : Z) (create_size : nat) : nat :=
  match create_size with
  | O => O
  | S n =>
      match created !! n with
      | Some field => if checkpoint_ts <? create_ts_ field then drop_later created checkpoint_ts n else create_size
      | None => create_size
      end
  end.

(** The loop of [GetCreateTS]: [i] counts up to [size]; [iter] is the rest of the fields. *)
Fixpoint create_ts_loop (iter : list CreateField) (offset : Z) (size : nat) (i : Z) : list Z :=
  match size with
  | O => []
  | S size' =>
      match iter with
      | [] => MAX_TIMESTAMP :: create_ts_loop [] offset size' (i + 1)
      | field :: rest =>
          create_ts_ field ::
          create_ts_loop (if row_count_ field =? cast i64 (i + offset) then rest else iter) offset size' (i + 1)
      end
  end.

Definition GetCreateTS (this : BlockVersion) (offset size : Z) : list Z :=
  let iter := partition_point (fun field => row_count_ field <? cast i64 offset) (created_ this) in
  create_ts_loop (drop iter (created_ this)) offset (Z.to_nat size) 0.

(** ** Files *)

Section Files.
Context `{!Posix}.

Definition CreateField_SaveToFile (h : FileHandler) (field : CreateField) : FileHandler :=
  let h := Write h (WriteBufAdv u64 (create_ts_ field)) in
  Write h (WriteBufAdv i64 (row_count_ field)).

Definition SaveToFile (this : BlockVersion) (checkpoint_ts : Z) (h : FileHandler) : FileHandler :=
  let create_size := drop_later (created_ this) checkpoint_ts (Z.to_nat (cast u16 (zlen (created_ this)))) in
  let h := Write h (WriteBufAdv u16 (Z.of_nat create_size)) in
  let h := fold_left CreateField_SaveToFile (take create_size (created_ this)) h in
  let h := Write h (WriteBufAdv u16 (zlen (deleted_ this))) in
  fold_left (fun h ts => Write h (WriteBufAdv u64 (if ts <=? checkpoint_ts then ts else 0))) (deleted_ this) h.

Definition SpillToFile (this : BlockVersion) (h : FileHandler) : FileHandler :=
  let h := Write h (WriteBufAdv u16 (zlen (created_ this))) in
  let h := fold_left CreateField_SaveToFile (created_ this) h in
  let capacity := cast u16 (zlen (deleted_ this)) in
  let h := Write h (WriteBufAdv u16 capacity) in
  Write h (take (Z.to_nat (capacity * 8)) (concat (map (WriteBufAdv u64) (deleted_ this)))).

(** [Read] into a variable that holds [old]: a short read leaves the rest of its bytes. *)
Definition read_into (t : ctype) (old : Z) (h : FileHandler) : Z * FileHandler :=
  let '(got, h) := Read h (Z.of_nat (sizeof t)) in
  (cast t (of_le (got ++ drop (length got) (to_le (sizeof t) old))), h).

(** [Read] into a variable without a value. *)
Definition read_new (t : ctype) (h : FileHandler) : result (Z * FileHandler) :=
  let '(got, h) := Read h (Z.of_nat (sizeof t)) in
  if decide (length got = sizeof t) then Ok (cast t (of_le got), h) else Err OutOfBounds.

Definition CreateField_LoadFromFile (h : FileHandler) : CreateField * FileHandler :=
  let '(create_ts, h) := read_into u64 0 h in
  let '(row_count, h) := read_into i64 0 h in
  (mkCreateField create_ts row_count, h).

Fixpoint read_times {A} (read : FileHandler → A * FileHandler) (n : nat) (h : FileHandler) : list A * FileHandler :=
  match n with
  | O => ([], h)
  | S n' => let '(a, h) := read h in let '(l, h) := read_times read n' h in (a :: l, h)
  end.

Definition LoadFromFile (h : FileHandler) : result BlockVersion :=
  let? '(create_size, h) := read_new u16 h in
  let '(created, h) := read_times CreateField_LoadFromFile (Z.to_nat create_size) h in
  let? '(capacity, h) := read_new u16 h in
  let '(deleted, h) := read_times (read_into u64 0) (Z.to_nat capacity) h in
  Ok (mkVersion created deleted).

End Files.

(** ** Searching *)

Lemma bsearch_partition {A} (right : A → bool) l a b fuel : ∀ first len,
  l = a ++ b → Forall (fun x => right x = true) a → Forall (fun x => right x = false) b →
  (first ≤ length a ≤ first + len)%nat → (first + len ≤ length l)%nat → (len ≤ fuel)%nat →
  bsearch fuel right l first len = length a.
Proof.
  induction fuel as [|fuel IH]; intros first len Hl Ha Hb Hr Hle Hf; [simpl; lia|].
  destruct len as [|len']; [simpl; lia|]. cbn [bsearch]. set (len := S len') in *.
  pose proof (Nat.lt_div2 len ltac:(subst len; lia)) as Hhalf. set (half := Nat.div2 len) in *.
  destruct (lookup_lt_is_Some_2 l (first + half)) as [m Hm]; [lia|]. rewrite Hm.
  assert (Hdir : right m = bool_decide (first + half < length a)%nat).
  { subst l. case_bool_decide as Hc.
    - rewrite lookup_app_l in Hm by done. exact (Forall_lookup_1 _ _ _ _ Ha Hm).
    - rewrite lookup_app_r in Hm by lia. exact (Forall_lookup_1 _ _ _ _ Hb Hm). }
  rewrite Hdir. case_bool_decide; apply IH; try done; lia.
Qed.

(** On a partitioned sequence the search finds the partition. *)
Lemma partition_point_spec {A} (right : A → bool) a b :
  Forall (fun x => right x = true) a → Forall (fun x => right x = false) b →
  partition_point right (a ++ b) = length a.
Proof. intros. unfold partition_point. apply (bsearch_partition right (a ++ b) a b); try done; rewrite length_app; lia. Qed.

(** The fields of a well-formed version are in the order of their timestamps. *)
Definition sorted_created (l : list CreateField) : Prop :=
  StronglySorted (fun f g => create_ts_ f ≤ create_ts_ g) l.

Definition upto (ts : Z) (l : list CreateField) : list CreateField := filter (fun f => create_ts_ f ≤ ts) l.

Lemma sorted_split ts l :
  sorted_created l → ∃ after, l = upto ts l ++ after ∧ Forall (fun f => ts < create_ts_ f) after.
Proof.
  unfold upto. induction l as [|f l IH]; intros Hs; [by exists []|].
  apply StronglySorted_inv in Hs as [Hs Hf]. destruct (decide (create_ts_ f ≤ ts)) as [Hle|Hgt].
  - rewrite filter_cons_True by done. destruct (IH Hs) as (after & He & Ha). exists after. split; [|done].
    simpl. by f_equal.
  - exists (f :: l). rewrite filter_cons_False by done.
    assert (Hall : Forall (fun g => ts < create_ts_ g) (f :: l)).
    { constructor; [lia|]. eapply Forall_impl; [exact Hf|]. simpl. intros. lia. }
    split; [|done]. enough (filter (λ f0 : CreateField, create_ts_ f0 ≤ ts) l = []) as -> by done.
    apply filter_none. eapply Forall_impl; [exact Hf|]. simpl. intros. lia.
Qed.

(** [GetRowCount] is the row count of the last append that is not after [ts]. *)
Lemma GetRowCount_last v ts :
  sorted_created (created_ v) →
  GetRowCount v ts = match last (upto ts (created_ v)) with Some f => cast i32 (row_count_ f) | None => 0 end.
Proof.
  intros Hs. destruct (sorted_split ts _ Hs) as (after & He & Ha). unfold GetRowCount.
  set (pre := upto ts (created_ v)) in *. rewrite He, partition_point_spec.
  - destruct pre as [|f pre'] using rev_ind; [done|]. rewrite length_app, Nat.add_comm, last_snoc. simpl.
    by rewrite lookup_app_l, list_lookup_middle by (rewrite ?length_app; simpl; lia || done).
  - subst pre. apply Forall_forall. intros f Hf. apply list_elem_of_filter in Hf as [Hf _].
    apply negb_true_iff, Z.ltb_ge. done.
  - eapply Forall_impl; [exact Ha|]. simpl. intros f Hf. apply negb_false_iff, Z.ltb_lt. done.
Qed.

(** ** What the files hold *)

Definition field_bytes (field : CreateField) : bytes :=
  WriteBufAdv u64 (create_ts_ field) ++ WriteBufAdv i64 (row_count_ field).

Definition version_bytes (v : BlockVersion) : bytes :=
  WriteBufAdv u16 (zlen (created_ v)) ++ concat (map field_bytes (created_ v)) ++
  WriteBufAdv u16 (zlen (deleted_ v)) ++ concat (map (WriteBufAdv u64) (deleted_ v)).

Definition version_wf (v : BlockVersion) : Prop :=
  sorted_created (created_ v) ∧ zlen (created_ v) < 65536 ∧ zlen (deleted_ v) < 65536 ∧
  Forall (fun f => in_range u64 (create_ts_ f) ∧ in_range i64 (row_count_ f)) (created_ v) ∧
  Forall (in_range u64) (deleted_ v).

(** The part of a version that a checkpoint at [ts] keeps. *)
Definition version_at (v : BlockVersion) (ts : Z) : BlockVersion :=
  mkVersion (upto ts (created_ v)) (map (fun d => if d <=? ts then d else 0) (deleted_ v)).

(** A file of which [d] has been processed. *)
Definition at_ (d rest : bytes) : FileHandler := mkHandler (d ++ rest) (length d).

Section FileLemmas.
Context `{!Posix}.

Definition writes (f : FileHandler → FileHandler) (bs : bytes) : Prop :=
  ∀ d old, f (at_ d old) = at_ (d ++ bs) (drop (length bs) old).

Definition reads {A} (f : FileHandler → A * FileHandler) (bs : bytes) (a : A) : Prop :=
  ∀ d rest, f (at_ d (bs ++ rest)) = (a, at_ (d ++ bs) rest).

Lemma writes_Write bs : writes (fun h => Write h bs) bs.
Proof. intros d old. apply Write_at. Qed.

Lemma writes_seq f g bs bs' : writes f bs → writes g bs' → writes (fun h => g (f h)) (bs ++ bs').
Proof. intros Hf Hg d old. by rewrite Hf, Hg, length_app, drop_drop, app_assoc. Qed.

Lemma writes_fold {A} (step : FileHandler → A → FileHandler) (w : A → bytes) l :
  (∀ a, writes (fun h => step h a) (w a)) → writes (fun h => fold_left step l h) (concat (map w l)).
Proof.
  intros Hs. induction l as [|a l IH]; intros d old; simpl; [by rewrite app_nil_r|].
  rewrite (Hs a), IH, length_app, drop_drop. by rewrite <- app_assoc.
Qed.

Lemma CreateField_written f : writes (fun h => CreateField_SaveToFile h f) (field_bytes f).
Proof. apply (writes_seq (fun h => Write h _) (fun h => Write h _)); apply writes_Write. Qed.

Lemma version_written c d' n (f : FileHandler → FileHandler) bs :
  writes f bs → bs = concat (map (WriteBufAdv u64) d') → n = zlen d' →
  writes (fun h => f (Write (fold_left CreateField_SaveToFile c (Write h (WriteBufAdv u16 (zlen c)))) (WriteBufAdv u16 n)))
    (version_bytes (mkVersion c d')).
Proof.
  intros Hf -> ->. unfold version_bytes. rewrite !app_assoc. cbn [created_ deleted_].
  apply (writes_seq (fun h => Write (fold_left _ _ (Write h _)) _)); [|done].
  apply (writes_seq (fun h => fold_left _ _ (Write h _)) (fun h => Write h _)); [|apply writes_Write].
  apply (writes_seq (fun h => Write h _)); [apply writes_Write|]. apply writes_fold. intros. apply CreateField_written.
Qed.

Lemma SpillToFile_written v : zlen (created_ v) < 65536 → zlen (deleted_ v) < 65536 → writes (SpillToFile v) (version_bytes v).
Proof.
  intros Hc Hd. destruct v as [c d]. cbn [created_ deleted_] in *. unfold SpillToFile. cbn [created_ deleted_].
  zlen_facts. rewrite (cast_id u16 (zlen d)) by solve_range. apply (version_written c d _ (fun h => Write h _) _ (writes_Write _)); [|done].
  apply take_zlen. rewrite zlen_concat, map_map. clear.
  induction d as [|ts d IH]; [done|]. cbn [map Zsum fold_right]. rewrite zlen_cons, zlen_WriteBufAdv. fold (Zsum (map (λ x, zlen (WriteBufAdv u64 x)) d)).
  cbn [sizeof]. lia.
Qed.

Lemma drop_later_prefix a b cp :
  Forall (fun f => create_ts_ f ≤ cp) a → Forall (fun f => cp < create_ts_ f) b →
  drop_later (a ++ b) cp (length (a ++ b)) = length a.
Proof.
  intros Ha. induction b as [|f b IH] using rev_ind; intros Hb.
  - rewrite app_nil_r. destruct a as [|f a] using rev_ind; [done|]. clear IHa.
    rewrite length_app, Nat.add_comm. cbn [length Nat.add drop_later].
    rewrite list_lookup_middle by done. apply Forall_app in Ha as [_ Ha]. inversion Ha; subst.
    by rewrite (proj2 (Z.ltb_ge _ _)) by done.
  - apply Forall_app in Hb as [Hb Hf]. inversion Hf; subst. rewrite app_assoc, length_app, Nat.add_comm.
    cbn [length Nat.add drop_later]. rewrite list_lookup_middle by done. rewrite (proj2 (Z.ltb_lt _ _)) by done.
    rewrite <- (IH Hb). clear.
    enough (∀ n, (n ≤ length (a ++ b))%nat → drop_later ((a ++ b) ++ [f]) cp n = drop_later (a ++ b) cp n) as H by (apply H; lia).
    induction n as [|n IH]; intros Hn; [done|]. cbn [drop_later]. rewrite lookup_app_l by lia.
    destruct ((a ++ b) !! n); [|done]. destruct (_ <? _); [apply IH; lia|done].
Qed.

Lemma SaveToFile_written v cp : version_wf v → writes (SaveToFile v cp) (version_bytes (version_at v cp)).
Proof.
  intros (Hs & Hc & Hd & _). destruct (sorted_split cp _ Hs) as (after & He & Ha). zlen_facts.
  assert (Hn : drop_later (created_ v) cp (length (created_ v)) = length (upto cp (created_ v))).
  { rewrite He at 1 2. apply drop_later_prefix; [|done]. apply Forall_forall. intros f Hf. by apply list_elem_of_filter in Hf as [? _]. }
  unfold SaveToFile, version_at. rewrite cast_id by solve_range. cbv zeta.
  replace (Z.to_nat (zlen (created_ v))) with (length (created_ v)) by (unfold zlen; lia). rewrite Hn.
  replace (take _ (created_ v)) with (upto cp (created_ v)) by (by rewrite He at 3; rewrite take_app_length).
  set (keep := fun d => if d <=? cp then d else 0).
  apply (version_written (upto cp (created_ v)) (map keep (deleted_ v)) (zlen (deleted_ v))
    (fun h => fold_left (fun h ts => Write h (WriteBufAdv u64 (keep ts))) (deleted_ v) h)
    (concat (map (fun ts => WriteBufAdv u64 (keep ts)) (deleted_ v)))).
  - apply (writes_fold (fun h ts => Write h (WriteBufAdv u64 (keep ts))) (fun ts => WriteBufAdv u64 (keep ts))).
    intros. apply writes_Write.
  - by rewrite map_map.
  - by rewrite zlen_map.
Qed.

(** *** Reading back *)

Lemma Read_scalar t z d rest :
  Read (at_ d (WriteBufAdv t z ++ rest)) (Z.of_nat (sizeof t)) = (to_le (sizeof t) z, at_ (d ++ to_le (sizeof t) z) rest).
Proof.
  rewrite <- (zlen_WriteBufAdv t z). rewrite WriteBufAdv_le. unfold at_. rewrite Read_at. by rewrite <- app_assoc.
Qed.

Lemma read_into_written t z old : in_range t z → reads (read_into t old) (WriteBufAdv t z) z.
Proof.
  intros Hz d rest. unfold read_into. rewrite Read_scalar, length_to_le, drop_ge by (rewrite length_to_le; done).
  by rewrite app_nil_r, cast_of_to_le, cast_id.
Qed.

Lemma read_new_written t z d rest :
  in_range t z → read_new t (at_ d (WriteBufAdv t z ++ rest)) = Ok (z, at_ (d ++ WriteBufAdv t z) rest).
Proof. intros Hz. unfold read_new. by rewrite Read_scalar, length_to_le, decide_True, cast_of_to_le, cast_id. Qed.

Lemma read_times_written {A} (read : FileHandler → A * FileHandler) (w : A → bytes) l :
  Forall (fun a => reads read (w a) a) l → reads (read_times read (length l)) (concat (map w l)) l.
Proof.
  induction 1 as [|a l Ha Hl IH]; intros d rest; cbn [concat map length read_times]; [by rewrite app_nil_r|].
  by rewrite <- app_assoc, Ha, IH, app_assoc.
Qed.

Lemma field_read f : in_range u64 (create_ts_ f) → in_range i64 (row_count_ f) → reads CreateField_LoadFromFile (field_bytes f) f.
Proof.
  intros H1 H2 d rest. unfold CreateField_LoadFromFile, field_bytes. rewrite <- app_assoc.
  rewrite (read_into_written u64 _ 0 H1), (read_into_written i64 _ 0 H2), <- app_assoc. by destruct f.
Qed.

Lemma LoadFromFile_written v rest : version_wf v → LoadFromFile (at_ [] (version_bytes v ++ rest)) = Ok v.
Proof.
  intros (_ & Hc & Hd & Hcs & Hds). zlen_facts. unfold LoadFromFile, version_bytes. rewrite <- !app_assoc.
  rewrite read_new_written by solve_range. cbn [res_bind].
  replace (Z.to_nat (zlen (created_ v))) with (length (created_ v)) by (unfold zlen; lia).
  rewrite (read_times_written _ field_bytes); [|eapply Forall_impl; [exact Hcs|]; intros f [? ?]; by apply field_read].
  rewrite read_new_written by solve_range. cbn [res_bind].
  replace (Z.to_nat (zlen (deleted_ v))) with (length (deleted_ v)) by (unfold zlen; lia).
  rewrite (read_times_written _ (WriteBufAdv u64)); [by destruct v|].
  eapply Forall_impl; [exact Hds|]. intros ts Hts. by apply read_into_written.
Qed.

End FileLemmas.

(** ** Timestamps of rows *)

Definition increasing_rows (l : list CreateField) : Prop := StronglySorted (fun f g => row_count_ f < row_count_ g) l.

Definition reach (r : Z) (l : list CreateField) : list CreateField := filter (fun f => r ≤ row_count_ f) l.

Definition ts_or_max (f : option CreateField) : Z := match f with Some f => create_ts_ f | None => MAX_TIMESTAMP end.

Lemma reach_all r l : Forall (fun f => r ≤ row_count_ f) l → reach r l = l.
Proof. apply filter_all. Qed.

Lemma reach_split r l :
  increasing_rows l → ∃ before, l = before ++ reach r l ∧ Forall (fun f => row_count_ f < r) before.
Proof.
  unfold reach. induction l as [|f l IH]; intros Hs; [by exists []|].
  apply StronglySorted_inv in Hs as [Hs Hf]. destruct (decide (r ≤ row_count_ f)) as [Hle|Hgt].
  - exists []. split; [|done]. rewrite filter_all; [done|]. constructor; [done|].
    eapply Forall_impl; [exact Hf|]. simpl. intros. lia.
  - destruct (IH Hs) as (before & He & Hb). exists (f :: before). rewrite filter_cons_False by done.
    split; [simpl; by f_equal|]. constructor; [lia|done].
Qed.

Lemma reach_increasing r l : increasing_rows l → increasing_rows (reach r l).
Proof.
  intros Hs. destruct (reach_split r l Hs) as (before & He & _). rewrite He in Hs.
  by apply StronglySorted_app_1_r in Hs.
Qed.

Lemma create_ts_loop_spec offset size : ∀ iter i j,
  0 ≤ i → 0 ≤ offset → offset + i + Z.of_nat size < 2 ^ 63 → increasing_rows iter →
  Forall (fun f => offset + i ≤ row_count_ f) iter → (j < size)%nat →
  create_ts_loop iter offset size i !! j = Some (ts_or_max (head (reach (offset + i + Z.of_nat j) iter))).
Proof.
  change (2 ^ 63) with 9223372036854775808.
  induction size as [|size IH]; intros iter i j Hi Ho Hr Hs Hf Hj; [lia|].
  assert (Hcast : cast i64 (i + offset) = i + offset) by (apply cast_id; solve_range).
  destruct iter as [|f rest]; cbn [create_ts_loop].
  - destruct j as [|j]; [done|]. cbn [lookup list_lookup]. rewrite IH; try done; try lia; constructor.
  - rewrite Hcast. destruct j as [|j].
    + rewrite Z.add_0_r, reach_all by done. done.
    + cbn [lookup list_lookup]. pose proof Hs as Hs'. apply StronglySorted_inv in Hs' as [Hrest Hlt].
      pose proof Hf as Hf'. apply Forall_cons in Hf' as [Hfr Hfrest].
      replace (offset + i + Z.of_nat (S j)) with (offset + (i + 1) + Z.of_nat j) by lia.
      destruct (Z.eqb_spec (row_count_ f) (i + offset)) as [Heq|Hne].
      * rewrite IH; try done; try lia.
        -- unfold reach at 2. rewrite filter_cons_False by lia. done.
        -- eapply Forall_impl; [exact Hlt|]. simpl. intros. lia.
      * rewrite IH; try done; try lia. constructor; [lia|]. eapply Forall_impl; [exact Hlt|]. simpl. intros. lia.
Qed.

Lemma length_create_ts_loop size : ∀ iter offset i, length (create_ts_loop iter offset size i) = size.
Proof. induction size as [|size IH]; intros iter offset i; [done|]. destruct iter; simpl; by rewrite IH. Qed.

Lemma reach_reach r r' l : r ≤ r' → reach r' (reach r l) = reach r' l.
Proof. intros Hr. unfold reach. apply list_filter_filter_l. intros. lia. Qed.

Lemma GetCreateTS_spec v offset size i :
  increasing_rows (created_ v) → 0 ≤ offset → 0 ≤ size → offset + size < 2 ^ 63 → 0 ≤ i < size →
  GetCreateTS v offset size !! Z.to_nat i = Some (ts_or_max (head (reach (offset + i) (created_ v)))).
Proof.
  intros Hs Ho Hz Hr Hi. change (2 ^ 63) with 9223372036854775808 in Hr. unfold GetCreateTS.
  rewrite cast_id by solve_range. destruct (reach_split offset _ Hs) as (before & He & Hb).
  assert (Hp : partition_point (fun field => row_count_ field <? offset) (created_ v) = length before).
  { rewrite He. apply partition_point_spec; apply Forall_forall; intros f Hf.
    - rewrite Forall_forall in Hb. apply Z.ltb_lt, Hb, Hf.
    - apply list_elem_of_filter in Hf as [Hf _]. apply Z.ltb_ge. done. }
  rewrite Hp. rewrite He at 1. rewrite drop_app_length. rewrite create_ts_loop_spec.
  - rewrite Z2Nat.id, Z.add_0_r, reach_reach by lia. done.
  - done.
  - done.
  - change (2 ^ 63) with 9223372036854775808. lia.
  - by apply reach_increasing.
  - rewrite Z.add_0_r. apply Forall_forall. intros f Hf. by apply list_elem_of_filter in Hf as [? _].
  - lia.
Qed.

(** The append that created row [r]: the first with more than [r] rows. *)
Definition creator (r : Z) (l : list CreateField) : option CreateField := head (filter (fun f => r < row_count_ f) l).

Lemma reach_boundary r f l : increasing_rows l → f ∈ l → row_count_ f = r → head (reach r l) = Some f.
Proof.
  intros Hs Hf Hr. destruct (reach_split r l Hs) as (before & He & Hb).
  assert (Hin : f ∈ reach r l) by (apply list_elem_of_filter; split; [lia|done]).
  pose proof (reach_increasing r l Hs) as Hi.
  assert (Hge : Forall (fun g => r ≤ row_count_ g) (reach r l)).
  { apply Forall_forall. intros g Hg. by apply list_elem_of_filter in Hg as [? _]. }
  destruct (reach r l) as [|g rest]; [by apply elem_of_nil in Hin|]. simpl. f_equal.
  apply elem_of_cons in Hin as [->|Hin]; [done|]. apply StronglySorted_inv in Hi as [_ Hi].
  rewrite Forall_forall in Hi. specialize (Hi f Hin). apply Forall_cons in Hge as [? _]. lia.
Qed.

Lemma upto_min ts cp l : upto ts (upto cp l) = upto (Z.min ts cp) l.
Proof. unfold upto. rewrite list_filter_filter. apply list_filter_iff. intros. lia. Qed.

Lemma upto_sorted ts l : sorted_created l → sorted_created (upto ts l).
Proof. intros Hs. destruct (sorted_split ts l Hs) as (after & He & _). rewrite He in Hs. by apply StronglySorted_app_1_l in Hs. Qed.

Lemma version_at_row_count v cp ts :
  sorted_created (created_ v) → GetRowCount (version_at v cp) ts = GetRowCount v (Z.min ts cp).
Proof.
  intros Hs. rewrite !GetRowCount_last by (done || by apply upto_sorted). unfold version_at. cbn [created_].
  by rewrite upto_min.
Qed.

Lemma version_at_wf v cp : version_wf v → version_wf (version_at v cp).
Proof.
  intros (Hs & Hc & Hd & Hcs & Hds). split; [by apply upto_sorted|]. cbn [version_at created_ deleted_].
  rewrite zlen_map. split; [|split; [done|split]].
  - unfold zlen in *. unfold upto. pose proof (length_filter (λ f, create_ts_ f ≤ cp) (created_ v)). lia.
  - by apply Forall_filter_of.
  - apply Forall_map. eapply Forall_impl; [exact Hds|]. intros d Hd'. simpl. destruct (_ <=? _); [done|solve_range].
Qed.

(** ** Properties *)

(** The timestamps [GetCreateTS] gives for rows are those of the appends that created them,
    except for a row at which an append ended: it is given the timestamp of that append, which
    created the rows before it. *)
Theorem create_timestamps v offset size i :
  increasing_rows (created_ v) → 0 ≤ offset → 0 ≤ i < size → offset + size < 2 ^ 63 →
  let given := GetCreateTS v offset size !! Z.to_nat i in
  let r := offset + i in
  (Forall (fun f => row_count_ f ≠ r) (created_ v) → given = Some (ts_or_max (creator r (created_ v)))) ∧
  (∀ f, f ∈ created_ v → row_count_ f = r → given = Some (create_ts_ f)).
Proof.
  intros Hs Ho Hi Hr given r. subst given. rewrite GetCreateTS_spec by (done || lia). fold r. split.
  - intros Hne. unfold reach, creator. do 2 f_equal. rewrite Forall_forall in Hne. f_equal.
    apply filter_ext_elem. apply Forall_forall. intros f Hf. specialize (Hne f Hf). lia.
  - intros f Hf Hfr. by rewrite (reach_boundary r f).
Qed.

Lemma create_timestamps_witness :
  let v := mkVersion [mkCreateField 10 3; mkCreateField 20 5] (replicate 5 0) in
  GetCreateTS v 0 5 = [10; 10; 10; 10; 20] ∧ GetCreateTS v 0 5 !! Z.to_nat 3 = Some 10 ∧
  creator 3 (created_ v) = Some (mkCreateField 20 5).
Proof.
  intros v. split; [vm_compute; reflexivity|]. split; [|vm_compute; reflexivity].
  destruct (create_timestamps v 0 5 3) as [_ H].
  - repeat constructor.
  - lia.
  - lia.
  - change (2 ^ 63) with 9223372036854775808. lia.
  - apply (H (mkCreateField 10 3)); [apply elem_of_cons; left; reflexivity|reflexivity].
Defined.
