(* ===== verification/FileWorker.v ===== *)
(** * File workers

    A file worker holds the data of a buffer object in memory and moves it to and from files:
    [src/src/storage/buffer/file_worker/file_worker.cpp], with the workers of column data
    ([data_file_worker.cpp]), of raw files ([raw_file_worker.cpp]) and of block versions
    ([version_file_worker.cpp]).  A file is written without truncating what it held before. *)

From Stdlib Require Import ZArith Lia List.
From stdpp Require Import base list numbers gmap.
From S2P Require Import Prelude Bytes LogFile FileIO BlockVersion.
Local Open Scope Z_scope.

(** The virtual methods; [Worker] are the members of a derived class, [option Data] is [data_]. *)
Class FileWorkerImpl := {
  Worker : Type;
  Data : Type;
  AllocateInMemory : Worker → option Data → result Data;
  GetMemoryCost : Worker → Z;
  WriteToFileImpl : Worker → bool → Data → FileHandler → result FileHandler;
  ReadFromFileImpl : Worker → option Data → FileHandler → result (Worker * Data);
}.

Section FileWorker.
Context `{!FileWorkerImpl}.

(** [file_path_] is the directory and the name of the file. *)
Record FileWorker := mkWorker { worker_ : Worker; file_path_ : bytes; data_ : option Data }.

(** [ChooseFileDir] with the name of the file. *)
Definition ChooseFilePath (temp_dir : bytes) (spill : bool) (this : FileWorker) : bytes :=
  if spill then temp_dir ++ file_path_ this else file_path_ this.

Definition FreeInMemory (this : FileWorker) : result FileWorker :=
  match data_ this with
  | None => Err UnrecoverableError
  | Some _ => Ok (mkWorker (worker_ this) (file_path_ this) None)
  end.

Definition Worker_Allocate (this : FileWorker) : result FileWorker :=
  let? data := AllocateInMemory (worker_ this) (data_ this) in Ok (mkWorker (worker_ this) (file_path_ this) (Some data)).

Definition WriteToFile (temp_dir : bytes) (fs : FileSystem) (this : FileWorker) (to_spill : bool) : result FileSystem :=
  match data_ this with
  | None => Err UnrecoverableError
  | Some data =>
      let write_path := ChooseFilePath temp_dir to_spill this in
      let? file_handler := WriteToFileImpl (worker_ this) to_spill data (OpenFile_write fs write_path) in
      Ok (<[write_path := content file_handler]> fs)
  end.

Definition ReadFromFile (temp_dir : bytes) (fs : FileSystem) (this : FileWorker) (from_spill : bool) : result FileWorker :=
  match OpenFile_read fs (ChooseFilePath temp_dir from_spill this) with
  | None => Err UnrecoverableError
  | Some file_handler =>
      let? '(worker, data) := ReadFromFileImpl (worker_ this) (data_ this) file_handler in
      Ok (mkWorker worker (file_path_ this) (Some data))
  end.

Definition MoveFile (temp_dir : bytes) (fs : FileSystem) (this : FileWorker) : result FileSystem :=
  let src_path := ChooseFilePath temp_dir true this in
  match fs !! src_path with
  | None => Err RecoverableError
  | Some _ => Rename fs src_path (ChooseFilePath temp_dir false this)
  end.

Definition Worker_CleanupFile (temp_dir : bytes) (fs : FileSystem) (this : FileWorker) : FileSystem :=
  DeleteFile fs (ChooseFilePath temp_dir false this).

Definition Worker_CleanupTempFile (temp_dir : bytes) (fs : FileSystem) (this : FileWorker) : result FileSystem :=
  let path := ChooseFilePath temp_dir true this in
  match fs !! path with
  | None => Err UnrecoverableError
  | Some _ => Ok (DeleteFile fs path)
  end.

End FileWorker.

(** What the buffer manager needs of a worker: the file it writes reads back as the data it had, when
    the file held nothing before or what the same worker had written. *)
Class FileWorkerLaws `{!FileWorkerImpl} := {
  valid_worker : Worker → Prop;
  valid_data : Worker → Data → Prop;
  own_file : Worker → bytes → Prop;
  allocate_valid w d : valid_worker w → AllocateInMemory w None = Ok d → valid_data w d;
  memory_cost_range w : valid_worker w → 0 ≤ GetMemoryCost w < 2 ^ 63;
  own_file_nil w : own_file w [];
  write_read w to_spill d old : valid_worker w → valid_data w d → own_file w old →
    ∃ h, WriteToFileImpl w to_spill d (mkHandler old 0) = Ok h ∧ own_file w (content h) ∧
      ReadFromFileImpl w None (mkHandler (content h) 0) = Ok (w, d);
}.

(** ** Column data *)

Section DataFileWorker.
Context `{!Posix}.

Definition DATA_MAGIC : Z := 14496580.

Definition Data_AllocateInMemory (buffer_size_ : Z) (data_ : option bytes) : result bytes :=
  match data_ with
  | Some _ => Err UnrecoverableError
  | None => if buffer_size_ =? 0 then Err UnrecoverableError else Ok (replicate (Z.to_nat buffer_size_) 0)
  end.

(** [Write] transfers everything. *)
Definition Data_WriteToFileImpl (buffer_size_ : Z) (to_spill : bool) (data : bytes) (file_handler : FileHandler) : result FileHandler :=
  let file_handler := Write file_handler (WriteBufAdv u64 DATA_MAGIC) in
  let file_handler := Write file_handler (WriteBufAdv u64 buffer_size_) in
  let file_handler := Write file_handler (take (Z.to_nat buffer_size_) data) in
  Ok (Write file_handler (WriteBufAdv u64 0)).

(** A scalar; a short read is an error. *)
Definition read_field (t : ctype) (h : FileHandler) : result (Z * FileHandler) :=
  let '(got, h) := Read h (Z.of_nat (sizeof t)) in
  if zlen got =? Z.of_nat (sizeof t) then Ok (cast t (of_le got), h) else Err RecoverableError.

(** The buffer size of the file is read into a variable that hides the member. *)
Definition Data_ReadFromFileImpl (worker : Z) (data_ : option bytes) (file_handler : FileHandler) : result (Z * bytes) :=
  let file_size := GetFileSize file_handler in
  if file_size <? 8 * 3 then Err RecoverableError
  else
    let? '(magic_number, file_handler) := read_field u64 file_handler in
    if negb (magic_number =? DATA_MAGIC) then Err RecoverableError
    else
      let? '(buffer_size_, file_handler) := read_field u64 file_handler in
      if negb (file_size =? cast u64 (buffer_size_ + 3 * 8)) then Err RecoverableError
      else
        let '(data, file_handler) := Read file_handler buffer_size_ in
        if negb (zlen data =? buffer_size_) then Err RecoverableError
        else
          let? '(checksum, file_handler) := read_field u64 file_handler in
          Ok (worker, data).

#[export] Instance DataFileWorker : FileWorkerImpl := {|
  Worker := Z;
  Data := bytes;
  AllocateInMemory := Data_AllocateInMemory;
  GetMemoryCost buffer_size := buffer_size;
  WriteToFileImpl := Data_WriteToFileImpl;
  ReadFromFileImpl := Data_ReadFromFileImpl;
|}.

Definition data_file_bytes (buffer_size : Z) (data : bytes) : bytes :=
  ((WriteBufAdv u64 DATA_MAGIC ++ WriteBufAdv u64 buffer_size) ++ data) ++ WriteBufAdv u64 0.

Lemma data_written n to_spill data :
  zlen data = n → 0 ≤ n → ∀ old, Data_WriteToFileImpl n to_spill data (at_ [] old) = Ok (at_ (data_file_bytes n data) (drop (length (data_file_bytes n data)) old)).
Proof.
  intros Hl Hn old. unfold Data_WriteToFileImpl. rewrite take_ge by (unfold zlen in Hl; lia). f_equal.
  exact (writes_seq _ (fun h => Write h _) _ _
           (writes_seq _ (fun h => Write h _) _ _
              (writes_seq (fun h => Write h _) (fun h => Write h _) _ _ (writes_Write _) (writes_Write _)) (writes_Write _)) (writes_Write _) [] old).
Qed.

Lemma read_field_written t z d rest :
  in_range t z → read_field t (at_ d (WriteBufAdv t z ++ rest)) = Ok (z, at_ (d ++ WriteBufAdv t z) rest).
Proof.
  intros Hz. unfold read_field. rewrite Read_scalar. unfold zlen. rewrite length_to_le, Z.eqb_refl. by rewrite cast_of_to_le, cast_id.
Qed.

Lemma Read_bytes data d rest : Read (at_ d (data ++ rest)) (zlen data) = (data, at_ (d ++ data) rest).
Proof. unfold at_. rewrite Read_at. by rewrite <- app_assoc. Qed.

Lemma data_file_length n data : zlen (data_file_bytes n data) = zlen data + 24.
Proof. unfold data_file_bytes. rewrite !zlen_app, !zlen_WriteBufAdv. cbn [sizeof]. lia. Qed.

Lemma data_read n worker data :
  zlen data = n → 0 ≤ n < 2 ^ 63 → Data_ReadFromFileImpl worker None (at_ [] (data_file_bytes n data)) = Ok (worker, data).
Proof.
  intros Hl Hn. change (2 ^ 63) with 9223372036854775808 in Hn. unfold Data_ReadFromFileImpl, GetFileSize.
  cbn [at_ content app]. rewrite data_file_length, (proj2 (Z.ltb_ge _ _)) by lia.
  unfold data_file_bytes. rewrite <- !app_assoc. rewrite read_field_written by (unfold DATA_MAGIC; solve_range). cbn [res_bind].
  rewrite Z.eqb_refl. cbn [negb]. rewrite read_field_written by solve_range. cbn [res_bind].
  rewrite cast_id, Hl, (proj2 (Z.eqb_eq _ _)) by (solve_range || lia). cbn [negb]. rewrite <- Hl, Read_bytes, Z.eqb_refl. cbn [negb].
  rewrite <- (app_nil_r (WriteBufAdv u64 0)), read_field_written by solve_range. done.
Qed.

#[export] Program Instance DataFileWorker_laws : FileWorkerLaws := {|
  valid_worker n := 0 < n < 2 ^ 63;
  valid_data n data := zlen data = n;
  own_file n file := file = [] ∨ zlen file = n + 24;
|}.
Next Obligation.
  intros n data Hn Ha. cbn in n, data, Hn, Ha |- *. unfold Data_AllocateInMemory in Ha. destruct (n =? 0); [done|]. injection Ha as <-.
  unfold zlen. rewrite length_replicate. lia.
Qed.
Next Obligation. intros n Hn. cbn in n, Hn |- *. lia. Qed.
Next Obligation. intros n. by left. Qed.
Next Obligation.
  intros n to_spill data old Hn Hd Hold. cbn in n, data, Hn, Hd |- *. pose proof (data_file_length n data) as Hl.
  eexists. split; [apply (data_written n to_spill data Hd ltac:(lia) old)|]. cbn [at_ content].
  rewrite drop_ge by (unfold zlen in *; destruct Hold as [->|Hold]; [cbn; lia|lia]). rewrite app_nil_r.
  split; [right; lia|]. apply data_read; [done|lia].
Qed.

End DataFileWorker.

(** ** Raw files *)

Section RawFileWorker.
Context `{!Posix}.

(** What memory holds that has not been set. *)
Context (uninitialized : Z → bytes).

Definition Raw_AllocateInMemory (buffer_size_ : Z) (data_ : option bytes) : result bytes :=
  match data_ with
  | Some _ => Err UnrecoverableError
  | None => if buffer_size_ =? 0 then Err UnrecoverableError else Ok (uninitialized buffer_size_)
  end.

Definition Raw_WriteToFileImpl (buffer_size_ : Z) (to_spill : bool) (data : bytes) (file_handler : FileHandler) : result FileHandler :=
  Ok (Write file_handler (take (Z.to_nat buffer_size_) data)).

Definition Raw_ReadFromFileImpl (buffer_size_ : Z) (data_ : option bytes) (file_handler : FileHandler) : result (Z * bytes) :=
  let buffer_size_ := GetFileSize file_handler in
  let '(data, file_handler) := Read file_handler buffer_size_ in
  if negb (zlen data =? buffer_size_) then Err RecoverableError else Ok (buffer_size_, data).

Definition RawFileWorker : FileWorkerImpl := {|
  Worker := Z;
  Data := bytes;
  AllocateInMemory := Raw_AllocateInMemory;
  GetMemoryCost buffer_size := buffer_size;
  WriteToFileImpl := Raw_WriteToFileImpl;
  ReadFromFileImpl := Raw_ReadFromFileImpl;
|}.

Hypothesis uninitialized_length : ∀ n, zlen (uninitialized n) = Z.max 0 n.

Program Definition RawFileWorker_laws : @FileWorkerLaws RawFileWorker := {|
  valid_worker n := 0 < n < 2 ^ 63;
  valid_data n data := zlen data = n;
  own_file n file := file = [] ∨ zlen file = n;
|}.
Next Obligation.
  intros n data Hn Ha. cbn in n, data, Hn, Ha |- *. unfold Raw_AllocateInMemory in Ha. destruct (n =? 0); [done|]. injection Ha as <-.
  rewrite uninitialized_length. lia.
Qed.
Next Obligation. intros n Hn. cbn in n, Hn |- *. lia. Qed.
Next Obligation. intros n. by left. Qed.
Next Obligation.
  intros n to_spill data old Hn Hd Hold. cbn in n, data, Hn, Hd |- *. unfold Raw_WriteToFileImpl, Raw_ReadFromFileImpl, GetFileSize.
  rewrite take_ge by (unfold zlen in Hd; lia). eexists. split; [reflexivity|]. change (mkHandler old 0) with (at_ [] old).
  rewrite (writes_Write data [] old). cbn [at_ content app].
  rewrite (drop_ge old) by (unfold zlen in *; destruct Hold as [->|Hold]; [cbn; lia|lia]). rewrite app_nil_r.
  split; [by right|]. pose proof (Read_bytes data [] []) as Hr. rewrite app_nil_r in Hr. unfold at_ in Hr. cbn [app length] in Hr.
  by rewrite Hr, Z.eqb_refl, Hd.
Qed.

End RawFileWorker.

(** ** Block versions *)

Section VersionFileWorker.
Context `{!Posix}.

Record VersionWorker := mkVersionWorker { capacity_ : Z; worker_checkpoint_ts_ : Z }.

Definition SetCheckpointTS (this : VersionWorker) (checkpoint_ts : Z) : VersionWorker := mkVersionWorker (capacity_ this) checkpoint_ts.

Definition Version_AllocateInMemory (this : VersionWorker) (data_ : option BlockVersion) : result BlockVersion :=
  match data_ with
  | Some _ => Err UnrecoverableError
  | None => if capacity_ this =? 0 then Err UnrecoverableError else Ok (BlockVersion_new (capacity_ this))
  end.

Definition Version_WriteToFileImpl (this : VersionWorker) (to_spill : bool) (data : BlockVersion) (file_handler : FileHandler)
    : result FileHandler :=
  if to_spill then Ok (SpillToFile data file_handler) else Ok (SaveToFile data (worker_checkpoint_ts_ this) file_handler).

Definition Version_ReadFromFileImpl (this : VersionWorker) (data_ : option BlockVersion) (file_handler : FileHandler)
    : result (VersionWorker * BlockVersion) :=
  match data_ with
  | Some _ => Err UnrecoverableError
  | None => let? data := LoadFromFile file_handler in Ok (this, data)
  end.

Definition VersionFileWorker : FileWorkerImpl := {|
  Worker := VersionWorker;
  Data := BlockVersion;
  AllocateInMemory := Version_AllocateInMemory;
  GetMemoryCost this := capacity_ this * 8;
  WriteToFileImpl := Version_WriteToFileImpl;
  ReadFromFileImpl := Version_ReadFromFileImpl;
|}.

End VersionFileWorker.
