(* ===== verification/Buffer.v ===== *)
(** * The buffer manager

    [BufferManager], [BufferObj] and [BufferHandle] of [src/src/storage/buffer/]: objects that are
    loaded from their files, kept in memory while handles refer to them, evicted when memory is needed
    (to a file in the temporary directory when they have been changed) and cleaned up.

    An object is named by the path of its file, which is its key in [buffer_map_].  Every method is one
    step; whether another thread holds the lock of an object, so that [Free] does not get it, is an
    argument.  [gc_list_] with the iterators of [gc_map_] is a list without duplicates. *)

From Stdlib Require Import ZArith Lia List.
From stdpp Require Import base list numbers gmap sets.
From S2P Require Import Prelude Bytes LogFile FileIO BlockVersion FileWorker.
Local Open Scope Z_scope.

Module BufferStatus.
Inductive t := kLoaded | kUnloaded | kFreed | kClean | kNew.
End BufferStatus.
Notation BufferStatus := BufferStatus.t.

#[export] Instance BufferStatus_eq_dec : EqDecision BufferStatus.
Proof. solve_decision. Defined.

Module BufferType.
Inductive t := kPersistent | kEphemeral | kTemp.
End BufferType.
Notation BufferType := BufferType.t.

#[export] Instance BufferType_eq_dec : EqDecision BufferType.
Proof. solve_decision. Defined.

Section Buffer.
Context `{!FileWorkerImpl}.
Import BufferStatus BufferType.

Record BufferObj := mkObj { file_worker_ : FileWorker; buffer_status : BufferStatus; buffer_type : BufferType; rc_ : Z }.

Record BufferManager := mkManager {
  temp_dir_ : bytes;
  memory_limit_ : Z;
  current_memory_size_ : Z;
  buffer_map_ : gmap bytes BufferObj;
  gc_list_ : list bytes;
  clean_list_ : list bytes;
  temp_set_ : gset bytes;
  clean_temp_set_ : gset bytes;
  files : FileSystem;
}.

Definition with_memory (m : BufferManager) (size : Z) : BufferManager :=
  mkManager (temp_dir_ m) (memory_limit_ m) size (buffer_map_ m) (gc_list_ m) (clean_list_ m) (temp_set_ m) (clean_temp_set_ m) (files m).

Definition with_map (m : BufferManager) (objects : gmap bytes BufferObj) : BufferManager :=
  mkManager (temp_dir_ m) (memory_limit_ m) (current_memory_size_ m) objects (gc_list_ m) (clean_list_ m) (temp_set_ m) (clean_temp_set_ m) (files m).

Definition with_gc (m : BufferManager) (gc : list bytes) : BufferManager :=
  mkManager (temp_dir_ m) (memory_limit_ m) (current_memory_size_ m) (buffer_map_ m) gc (clean_list_ m) (temp_set_ m) (clean_temp_set_ m) (files m).

Definition with_clean (m : BufferManager) (clean : list bytes) : BufferManager :=
  mkManager (temp_dir_ m) (memory_limit_ m) (current_memory_size_ m) (buffer_map_ m) (gc_list_ m) clean (temp_set_ m) (clean_temp_set_ m) (files m).

Definition with_temps (m : BufferManager) (temp clean_temp : gset bytes) : BufferManager :=
  mkManager (temp_dir_ m) (memory_limit_ m) (current_memory_size_ m) (buffer_map_ m) (gc_list_ m) (clean_list_ m) temp clean_temp (files m).

Definition with_files (m : BufferManager) (fs : FileSystem) : BufferManager :=
  mkManager (temp_dir_ m) (memory_limit_ m) (current_memory_size_ m) (buffer_map_ m) (gc_list_ m) (clean_list_ m) (temp_set_ m) (clean_temp_set_ m) fs.

(** ** The manager *)

Definition BufferManager_new (memory_limit : Z) (temp_dir : bytes) (fs : FileSystem) : BufferManager :=
  mkManager temp_dir memory_limit 0 ∅ [] [] ∅ ∅ (CleanupDirectory fs temp_dir).

(** Dereferencing the pointer to an object. *)
Definition get_obj (m : BufferManager) (p : bytes) : result BufferObj :=
  match buffer_map_ m !! p with Some o => Ok o | None => Err OutOfBounds end.

Definition put (m : BufferManager) (p : bytes) (o : BufferObj) : BufferManager := with_map m (<[p := o]> (buffer_map_ m)).

Definition BufferObj_new (is_ephemeral : bool) (file_worker : FileWorker) : BufferObj :=
  if is_ephemeral then mkObj file_worker kNew kEphemeral 0 else mkObj file_worker kFreed kPersistent 0.

Definition GetBufferSize (o : BufferObj) : Z := GetMemoryCost (worker_ (file_worker_ o)).

Definition AllocateBufferObject (m : BufferManager) (file_worker : FileWorker) : result BufferManager :=
  match buffer_map_ m !! file_path_ file_worker with
  | Some _ => Err UnrecoverableError
  | None => Ok (put m (file_path_ file_worker) (BufferObj_new true file_worker))
  end.

Definition GetBufferObject (m : BufferManager) (file_worker : FileWorker) : BufferManager :=
  match buffer_map_ m !! file_path_ file_worker with
  | Some _ => m
  | None => put m (file_path_ file_worker) (BufferObj_new false file_worker)
  end.

Definition RemoveFromGCQueueInner (m : BufferManager) (p : bytes) : bool * BufferManager :=
  if decide (p ∈ gc_list_ m) then (true, with_gc m (filter (fun q => q ≠ p) (gc_list_ m))) else (false, m).

Definition PushGCQueue (m : BufferManager) (p : bytes) : BufferManager :=
  with_gc m (filter (fun q => q ≠ p) (gc_list_ m) ++ [p]).

Definition AddToCleanList (m : BufferManager) (p : bytes) (size : Z) (do_free : bool) : result BufferManager :=
  let m := with_clean m (clean_list_ m ++ [p]) in
  if do_free then
    let m := with_memory m (cast u64 (current_memory_size_ m - size)) in
    let '(removed, m) := RemoveFromGCQueueInner m p in
    if (removed : bool) then Ok m else Err UnrecoverableError
  else Ok m.

Definition AddTemp (m : BufferManager) (p : bytes) : result BufferManager :=
  if decide (p ∈ temp_set_ m) then Err UnrecoverableError
  else Ok (with_temps m ({[p]} ∪ temp_set_ m) (clean_temp_set_ m ∖ {[p]})).

Definition RemoveTemp (m : BufferManager) (p : bytes) : result BufferManager :=
  if decide (p ∈ temp_set_ m) then
    if decide (p ∈ clean_temp_set_ m) then Err UnrecoverableError
    else Ok (with_temps m (temp_set_ m ∖ {[p]}) ({[p]} ∪ clean_temp_set_ m))
  else Err UnrecoverableError.

Definition MoveTemp (m : BufferManager) (p : bytes) : result BufferManager :=
  if decide (p ∈ temp_set_ m) then Ok (with_temps m (temp_set_ m ∖ {[p]}) (clean_temp_set_ m)) else Err UnrecoverableError.

(** ** Objects *)

(** [locked] tells that the lock of the object is not free. *)
Definition Free (m : BufferManager) (p : bytes) (locked : bool) : result (bool * BufferManager) :=
  if locked then Ok (false, m)
  else
    let? o := get_obj m p in
    match buffer_status o with
    | kUnloaded =>
        let? '(type, m) :=
          match buffer_type o with
          | kEphemeral =>
              let? fs := WriteToFile (temp_dir_ m) (files m) (file_worker_ o) true in
              let? m := AddTemp (with_files m fs) p in
              Ok (kTemp, m)
          | type => Ok (type, m)
          end in
        let? file_worker := FreeInMemory (file_worker_ o) in
        Ok (true, put m p (mkObj file_worker kFreed type (rc_ o)))
    | _ => Err UnrecoverableError
    end.

(** The loop of [RequestSpace] from [iter] on. *)
Fixpoint request_loop (m : BufferManager) (iter : list bytes) (need_size : Z) (locked : bytes → bool) : result BufferManager :=
  match iter with
  | [] => Ok m
  | p :: iter' =>
      if memory_limit_ m <? cast u64 (current_memory_size_ m + need_size) then
        let? '(freed, m) := Free m p (locked p) in
        if (freed : bool) then
          let? o := get_obj m p in
          let m := with_memory m (cast u64 (current_memory_size_ m - GetBufferSize o)) in
          request_loop (with_gc m (filter (fun q => q ≠ p) (gc_list_ m))) iter' need_size locked
        else request_loop m iter' need_size locked
      else Ok m
  end.

Definition RequestSpace (m : BufferManager) (need_size : Z) (locked : bytes → bool) : result BufferManager :=
  let? m := request_loop m (gc_list_ m) need_size locked in
  if memory_limit_ m <? cast u64 (current_memory_size_ m + need_size) then Err UnrecoverableError
  else Ok (with_memory m (cast u64 (current_memory_size_ m + need_size))).

(** What makes the data of an object available. *)
Definition load_data (m : BufferManager) (p : bytes) (locked : bytes → bool) : result (FileWorker * BufferType * BufferManager) :=
  let? o := get_obj m p in
  match buffer_status o with
  | kLoaded => Ok (file_worker_ o, buffer_type o, m)
  | kUnloaded =>
      let '(removed, m) := RemoveFromGCQueueInner m p in
      if (removed : bool) then Ok (file_worker_ o, buffer_type o, m) else Err UnrecoverableError
  | kFreed =>
      let? m := RequestSpace m (GetBufferSize o) locked in
      match buffer_type o with
      | kEphemeral => Err UnrecoverableError
      | type =>
          let from_spill := match type with kPersistent => false | _ => true end in
          let? file_worker := ReadFromFile (temp_dir_ m) (files m) (file_worker_ o) from_spill in
          Ok (file_worker, type, m)
      end
  | kNew =>
      let? m := RequestSpace m (GetBufferSize o) locked in
      let? file_worker := Worker_Allocate (file_worker_ o) in
      Ok (file_worker, buffer_type o, m)
  | kClean => Err UnrecoverableError
  end.

(** The data that the handle refers to. *)
Definition Load (m : BufferManager) (p : bytes) (locked : bytes → bool) : result (option Data * BufferManager) :=
  let? o := get_obj m p in
  let? '(file_worker, type, m) := load_data m p locked in
  Ok (data_ file_worker, put m p (mkObj file_worker kLoaded type (rc_ o + 1))).

Definition LoadInner (m : BufferManager) (p : bytes) : result BufferManager :=
  let? o := get_obj m p in
  match buffer_status o with
  | kLoaded => Ok (put m p (mkObj (file_worker_ o) kLoaded (buffer_type o) (rc_ o + 1)))
  | _ => Err UnrecoverableError
  end.

Definition UnloadInner (m : BufferManager) (p : bytes) : result BufferManager :=
  let? o := get_obj m p in
  match buffer_status o with
  | kLoaded =>
      let rc := rc_ o - 1 in
      if rc =? 0 then Ok (put (PushGCQueue m p) p (mkObj (file_worker_ o) kUnloaded (buffer_type o) rc))
      else Ok (put m p (mkObj (file_worker_ o) kLoaded (buffer_type o) rc))
  | _ => Err UnrecoverableError
  end.

Definition GetMutPointer (m : BufferManager) (p : bytes) : result BufferManager :=
  let? o := get_obj m p in
  let? m := match buffer_type o with kTemp => RemoveTemp m p | _ => Ok m end in
  Ok (put m p (mkObj (file_worker_ o) (buffer_status o) kEphemeral (rc_ o))).

Definition Save (m : BufferManager) (p : bytes) : result (bool * BufferManager) :=
  let? o := get_obj m p in
  let? '(write, m) :=
    match buffer_type o with
    | kEphemeral =>
        match buffer_status o with
        | kLoaded | kUnloaded =>
            let? fs := WriteToFile (temp_dir_ m) (files m) (file_worker_ o) false in Ok (true, with_files m fs)
        | kFreed => let? fs := MoveFile (temp_dir_ m) (files m) (file_worker_ o) in Ok (false, with_files m fs)
        | _ => Err UnrecoverableError
        end
    | kTemp =>
        let? m := MoveTemp m p in
        let? fs := MoveFile (temp_dir_ m) (files m) (file_worker_ o) in
        Ok (false, with_files m fs)
    | kPersistent => Ok (false, m)
    end in
  Ok (write, put m p (mkObj (file_worker_ o) (buffer_status o) kPersistent (rc_ o))).

Definition PickForCleanup (m : BufferManager) (p : bytes) : result BufferManager :=
  let? o := get_obj m p in
  let? '(file_worker, m) :=
    match buffer_status o with
    | kNew | kFreed => let? m := AddToCleanList m p (GetBufferSize o) false in Ok (file_worker_ o, m)
    | kUnloaded =>
        let? file_worker := FreeInMemory (file_worker_ o) in
        let? m := AddToCleanList m p (GetBufferSize o) true in
        Ok (file_worker, m)
    | _ => Err UnrecoverableError
    end in
  let m := put m p (mkObj file_worker kClean (buffer_type o) (rc_ o)) in
  match buffer_type o with kTemp => RemoveTemp m p | _ => Ok m end.

Definition CleanupFile (m : BufferManager) (p : bytes) : result BufferManager :=
  let? o := get_obj m p in
  match buffer_status o, data_ (file_worker_ o) with
  | kClean, None => Ok (with_files m (Worker_CleanupFile (temp_dir_ m) (files m) (file_worker_ o)))
  | _, _ => Err UnrecoverableError
  end.

Definition CleanupTempFile (m : BufferManager) (p : bytes) : result BufferManager :=
  let? o := get_obj m p in
  match buffer_type o with
  | kTemp => Ok m
  | _ => let? fs := Worker_CleanupTempFile (temp_dir_ m) (files m) (file_worker_ o) in Ok (with_files m fs)
  end.

Definition erase_object (m : BufferManager) (p : bytes) : result BufferManager :=
  match buffer_map_ m !! p with
  | None => Err UnrecoverableError
  | Some _ => Ok (with_map m (delete p (buffer_map_ m)))
  end.

Definition RemoveClean (m : BufferManager) : result BufferManager :=
  let clean_list := clean_list_ m in
  let? m := res_fold CleanupFile (with_clean m []) clean_list in
  let clean_temp_set := clean_temp_set_ m in
  let? m := res_fold CleanupTempFile (with_temps m (temp_set_ m) ∅) (elements clean_temp_set) in
  let m := with_gc m (filter (fun q => q ∉ clean_list) (gc_list_ m)) in
  res_fold erase_object m clean_list.

(** [CheckState] of an object. *)
Definition CheckState (o : BufferObj) : result unit :=
  match buffer_status o with
  | kLoaded => if rc_ o =? 0 then Err UnrecoverableError else Ok tt
  | kUnloaded | kFreed | kClean => if 0 <? rc_ o then Err UnrecoverableError else Ok tt
  | kNew =>
      match buffer_type o with
      | kEphemeral => if 0 <? rc_ o then Err UnrecoverableError else Ok tt
      | _ => Err UnrecoverableError
      end
  end.

(** ** Handles: the object a handle refers to, if any *)

Definition Handle_copy (m : BufferManager) (other : option bytes) : result (option bytes * BufferManager) :=
  match other with
  | None => Err OutOfBounds
  | Some p => let? m := LoadInner m p in Ok (Some p, m)
  end.

Definition Handle_release (m : BufferManager) (this : option bytes) : result BufferManager :=
  match this with None => Ok m | Some p => UnloadInner m p end.

Definition Handle_assign (m : BufferManager) (this other : option bytes) : result (option bytes * BufferManager) :=
  let? m := Handle_release m this in Handle_copy m other.

Definition Handle_move_assign (m : BufferManager) (this other : option bytes) : result (option bytes * option bytes * BufferManager) :=
  let? m := Handle_release m this in Ok (other, None, m).

(** [GetDataMut] and writing [d] through the pointer. *)
Definition Handle_write (m : BufferManager) (p : bytes) (d : Data) : result BufferManager :=
  let? m := GetMutPointer m p in
  let? o := get_obj m p in
  match data_ (file_worker_ o) with
  | None => Err OutOfBounds
  | Some _ =>
      Ok (put m p (mkObj (mkWorker (worker_ (file_worker_ o)) (file_path_ (file_worker_ o)) (Some d)) (buffer_status o) (buffer_type o) (rc_ o)))
  end.

(** Assigning the only handle of an object to itself releases the object first and then fails. *)
Lemma self_assignment_raises m p o :
  buffer_map_ m !! p = Some o → buffer_status o = kLoaded → rc_ o = 1 → Handle_assign m (Some p) (Some p) = Err UnrecoverableError.
Proof.
  intros Hp Hs Hrc. unfold Handle_assign, Handle_release, UnloadInner, get_obj. rewrite Hp. cbn [res_bind]. rewrite Hs, Hrc. change (1 - 1 =? 0) with true. cbn [res_bind].
  unfold Handle_copy, LoadInner, get_obj. cbn [put with_map buffer_map_]. by rewrite lookup_insert_eq.
Qed.

End Buffer.

(** Evaluate the fields of a manager that an operation has changed. *)
Ltac mgr :=
  cbn [put PushGCQueue with_memory with_map with_gc with_clean with_temps with_files temp_dir_ memory_limit_ current_memory_size_ buffer_map_ gc_list_
       clean_list_ temp_set_ clean_temp_set_ files].
