(* ===== verification/BufferSpec.v ===== *)
(** * What the buffer manager promises

    Its clients see a map from paths to data: an object holds what was last written through a handle,
    wherever the manager keeps it.  The steps of [Buffer] implement this for every worker whose files
    read back what was written. *)

From Stdlib Require Import ZArith Lia List.
From stdpp Require Import base list numbers gmap sets strings.
From S2P Require Import Prelude Bytes LogFile FileIO BlockVersion FileWorker Buffer.
Local Open Scope Z_scope.

Section BufferSpec.
Context `{Impl : !FileWorkerImpl, Laws : !FileWorkerLaws}.
Import BufferStatus BufferType.

(** The memory limit of the manager. *)
Context (limit : Z).

(** ** The relation *)

Definition path (m : BufferManager) (spill : bool) (p : bytes) : bytes := if spill then temp_dir_ m ++ p else p.

(** The file of [w] holds [d]. *)
Definition stored (fs : FileSystem) (file : bytes) (w : Worker) (d : Data) : Prop :=
  ∃ bs, fs !! file = Some bs ∧ ReadFromFileImpl w None (mkHandler bs 0) = Ok (w, d).

Definition backed (m : BufferManager) (p : bytes) (w : Worker) (type : BufferType) (d : Data) : Prop :=
  match type with
  | kEphemeral => True
  | kPersistent => stored (files m) (path m false p) w d
  | kTemp => stored (files m) (path m true p) w d
  end.

Definition own_files (m : BufferManager) (p : bytes) (w : Worker) : Prop :=
  ∀ spill bs, files m !! path m spill p = Some bs → own_file w bs.

(** What the object [o] at [p] holds. *)
Definition obj_rel (m : BufferManager) (p : bytes) (o : BufferObj) (c : option Data) : Prop :=
  let w := worker_ (file_worker_ o) in
  file_path_ (file_worker_ o) = p ∧ valid_worker w ∧
  match buffer_status o with
  | kClean => c = None ∧ data_ (file_worker_ o) = None ∧ rc_ o = 0
  | kNew =>
      data_ (file_worker_ o) = None ∧ rc_ o = 0 ∧ buffer_type o = kEphemeral ∧ own_files m p w ∧
      ∃ d, c = Some d ∧ AllocateInMemory w None = Ok d
  | kFreed =>
      data_ (file_worker_ o) = None ∧ rc_ o = 0 ∧ buffer_type o ≠ kEphemeral ∧ own_files m p w ∧
      ∃ d, c = Some d ∧ valid_data w d ∧ backed m p w (buffer_type o) d
  | kUnloaded =>
      rc_ o = 0 ∧ own_files m p w ∧
      ∃ d, c = Some d ∧ data_ (file_worker_ o) = Some d ∧ valid_data w d ∧ backed m p w (buffer_type o) d
  | kLoaded =>
      0 < rc_ o ∧ own_files m p w ∧
      ∃ d, c = Some d ∧ data_ (file_worker_ o) = Some d ∧ valid_data w d ∧ backed m p w (buffer_type o) d
  end.

Definition has_status (s : BufferStatus) (o : BufferObj) : Prop := buffer_status o = s.

Definition spilled (o : BufferObj) : Prop := buffer_type o = kTemp ∧ buffer_status o ≠ kClean.

(** The memory that an object takes. *)
Definition mem_cost (o : BufferObj) : Z := match data_ (file_worker_ o) with Some _ => GetBufferSize o | None => 0 end.

(** The sum of [cost] over the objects. *)
Definition total_cost (cost : bytes → BufferObj → Z) (objects : gmap bytes BufferObj) : Z := map_fold (fun p o n => cost p o + n) 0 objects.

Definition usage : gmap bytes BufferObj → Z := total_cost (fun _ => mem_cost).

(** Whether [P] holds of the object at [p]. *)
Definition at_obj (m : BufferManager) (p : bytes) (P : BufferObj → Prop) : Prop := ∃ o, buffer_map_ m !! p = Some o ∧ P o.

Record sim (m : BufferManager) (held : gmap bytes Data) : Prop := {
  sim_obj : ∀ p o, buffer_map_ m !! p = Some o → obj_rel m p o (held !! p);
  sim_dom : ∀ p, buffer_map_ m !! p = None → held !! p = None;
  sim_outside : ∀ p, is_Some (buffer_map_ m !! p) → ¬ temp_dir_ m `prefix_of` p;
  sim_gc_nodup : NoDup (gc_list_ m);
  sim_gc : ∀ p, p ∈ gc_list_ m ↔ at_obj m p (has_status kUnloaded);
  sim_clean_nodup : NoDup (clean_list_ m);
  sim_clean : ∀ p, p ∈ clean_list_ m ↔ at_obj m p (has_status kClean);
  sim_temp : ∀ p, p ∈ temp_set_ m ↔ at_obj m p spilled;
  sim_clean_temp : ∀ p, p ∈ clean_temp_set_ m → p ∉ temp_set_ m ∧ is_Some (buffer_map_ m !! p) ∧ is_Some (files m !! path m true p);
  sim_memory : current_memory_size_ m = usage (buffer_map_ m);
  sim_limit : current_memory_size_ m ≤ memory_limit_ m < 2 ^ 63;
  sim_bound : memory_limit_ m = limit;
}.

Lemma total_insert cost objects p o :
  total_cost cost (<[p := o]> objects) = total_cost cost objects - match objects !! p with Some o' => cost p o' | None => 0 end + cost p o.
Proof.
  assert (Hnew : ∀ (M : gmap bytes BufferObj), M !! p = None → ∀ o, total_cost cost (<[p := o]> M) = cost p o + total_cost cost M).
  { intros M HM o'. unfold total_cost. rewrite map_fold_insert_L; [done|intros; lia|done]. }
  destruct (objects !! p) as [o'|] eqn:Hp; [|rewrite Hnew by done; lia].
  rewrite <- (insert_delete_id objects p o') at 2 by done. rewrite <- (insert_delete_eq objects p o).
  rewrite !Hnew by apply lookup_delete_eq. lia.
Qed.

Lemma total_delete cost objects p o :
  objects !! p = Some o → total_cost cost (delete p objects) = total_cost cost objects - cost p o.
Proof.
  intros Hp. rewrite <- (insert_delete_id objects p o) at 2 by done. rewrite total_insert, lookup_delete_eq. lia.
Qed.

Lemma total_ext cost cost' objects :
  (∀ p o, objects !! p = Some o → cost p o = cost' p o) → total_cost cost objects = total_cost cost' objects.
Proof.
  induction objects as [|p o objects Hp IH] using map_ind; intros H; [done|].
  rewrite !total_insert, Hp, IH, (H p o); [done|apply lookup_insert_eq|].
  intros q oq Hq. apply H. rewrite lookup_insert_ne; [done|]. intros ->. congruence.
Qed.

Lemma total_nonneg cost objects : (∀ p o, objects !! p = Some o → 0 ≤ cost p o) → 0 ≤ total_cost cost objects.
Proof.
  induction objects as [|p o objects Hp IH] using map_ind; intros H; [done|].
  rewrite total_insert, Hp. assert (0 ≤ cost p o) by (apply (H p); apply lookup_insert_eq).
  enough (0 ≤ total_cost cost objects) by lia. apply IH. intros q oq Hq. apply (H q). rewrite lookup_insert_ne; [done|].
  intros ->. congruence.
Qed.

(** ** Paths *)

Lemma sim_paths m held : sim m held → ∀ p q, is_Some (buffer_map_ m !! p) → is_Some (buffer_map_ m !! q) → p ≠ temp_dir_ m ++ q.
Proof. intros Hsim p q Hp _ ->. apply (sim_outside _ _ Hsim _ Hp). by exists q. Qed.

Section Paths.
Context (m : BufferManager) (held : gmap bytes Data) (Hsim : sim m held).

Lemma path_inj p q a b :
  is_Some (buffer_map_ m !! p) → is_Some (buffer_map_ m !! q) → path m a p = path m b q → a = b ∧ p = q.
Proof using Hsim.
  intros Hp Hq. unfold path. destruct a, b; intros He.
  - by apply app_inv_head in He.
  - by destruct (sim_paths _ _ Hsim q p Hq Hp).
  - by destruct (sim_paths _ _ Hsim p q Hp Hq).
  - done.
Qed.

End Paths.

(** The relation of an object depends on its own files only. *)
Lemma obj_rel_frame m m' p o c :
  (∀ spill, files m' !! path m' spill p = files m !! path m spill p) → obj_rel m p o c → obj_rel m' p o c.
Proof.
  intros Hf (Hpath & Hw & H). split; [done|]. split; [done|].
  assert (Ho : own_files m p (worker_ (file_worker_ o)) → own_files m' p (worker_ (file_worker_ o))).
  { intros Hown spill bs. rewrite Hf. apply Hown. }
  assert (Hb : ∀ t d, backed m p (worker_ (file_worker_ o)) t d → backed m' p (worker_ (file_worker_ o)) t d).
  { intros [] d; unfold backed, stored; rewrite ?Hf; done. }
  destruct (buffer_status o); naive_solver.
Qed.

(** Changing one object: the conditions on its entries in the lists and sets. *)
Lemma sim_update m held m' held' p o o' :
  sim m held → buffer_map_ m !! p = Some o →
  temp_dir_ m' = temp_dir_ m → memory_limit_ m' = memory_limit_ m → buffer_map_ m' = <[p := o']> (buffer_map_ m) →
  (∀ file, file ≠ path m false p → file ≠ path m true p → files m' !! file = files m !! file) →
  (∀ q, q ≠ p → held' !! q = held !! q) → obj_rel m' p o' (held' !! p) →
  NoDup (gc_list_ m') → (∀ q, q ∈ gc_list_ m' ↔ (q ≠ p ∧ q ∈ gc_list_ m) ∨ (q = p ∧ buffer_status o' = kUnloaded)) →
  NoDup (clean_list_ m') → (∀ q, q ∈ clean_list_ m' ↔ (q ≠ p ∧ q ∈ clean_list_ m) ∨ (q = p ∧ buffer_status o' = kClean)) →
  (∀ q, q ∈ temp_set_ m' ↔ (q ≠ p ∧ q ∈ temp_set_ m) ∨ (q = p ∧ spilled o')) →
  (∀ q, q ∈ clean_temp_set_ m' → (q ≠ p ∧ q ∈ clean_temp_set_ m) ∨ (q = p ∧ ¬ spilled o' ∧ is_Some (files m' !! path m true p))) →
  current_memory_size_ m' = current_memory_size_ m - mem_cost o + mem_cost o' → current_memory_size_ m' ≤ memory_limit_ m →
  sim m' held'.
Proof.
  intros Hsim Hp Htd Hlim Hmap Hfiles Hheld Hobj Hgcn Hgc Hcn Hc Ht Hct Hmem Hle.
  assert (Hat : ∀ q P, at_obj m' q P ↔ (q ≠ p ∧ at_obj m q P) ∨ (q = p ∧ P o')).
  { intros q P. unfold at_obj. rewrite Hmap. destruct (decide (q = p)) as [->|Hne].
    - rewrite lookup_insert_eq. naive_solver.
    - rewrite lookup_insert_ne by done. naive_solver. }
  assert (Hpath : ∀ spill q, path m' spill q = path m spill q) by (intros; unfold path; by rewrite Htd).
  assert (Hdom : ∀ q, is_Some (buffer_map_ m' !! q) → is_Some (buffer_map_ m !! q)).
  { intros q. rewrite Hmap. destruct (decide (q = p)) as [->|Hne]; [by rewrite Hp|by rewrite lookup_insert_ne]. }
  assert (Hother : ∀ q spill, q ≠ p → is_Some (buffer_map_ m !! q) → files m' !! path m spill q = files m !! path m spill q).
  { intros q spill Hne Hq. apply Hfiles; intros He; by destruct (path_inj _ _ Hsim q p _ _ Hq ltac:(by eexists) He). }
  constructor.
  - intros q oq Hq. rewrite Hmap in Hq. destruct (decide (q = p)) as [->|Hne].
    + rewrite lookup_insert_eq in Hq. by injection Hq as <-.
    + rewrite lookup_insert_ne in Hq by done. rewrite Hheld by done. eapply obj_rel_frame; [|by eapply sim_obj].
      intros spill. rewrite Hpath. apply Hother; [done|by eexists].
  - intros q. rewrite Hmap. intros [Hq Hne]%lookup_insert_None. rewrite Hheld by done. by eapply sim_dom.
  - intros q Hq. rewrite Htd. by apply (sim_outside _ _ Hsim), Hdom.
  - done.
  - intros q. rewrite Hgc, Hat, (sim_gc _ _ Hsim). done.
  - done.
  - intros q. rewrite Hc, Hat, (sim_clean _ _ Hsim). done.
  - intros q. rewrite Ht, Hat, (sim_temp _ _ Hsim). done.
  - intros q Hq. rewrite Hpath. destruct (Hct q Hq) as [[Hne Hq']|(-> & Hns & Hf)].
    + destruct (sim_clean_temp _ _ Hsim q Hq') as (Hnt & Hd & Hf). split; [rewrite Ht; naive_solver|].
      split; [by rewrite Hmap, lookup_insert_ne|]. by rewrite Hother.
    + split; [rewrite Ht; naive_solver|]. split; [rewrite Hmap, lookup_insert_eq; by eexists|done].
  - unfold usage. rewrite Hmap, total_insert, Hp. rewrite Hmem, (sim_memory _ _ Hsim). done.
  - rewrite Hlim. split; [done|]. apply (sim_limit _ _ Hsim).
  - rewrite Hlim. apply (sim_bound _ _ Hsim).
Qed.

(** ** Memory *)

Lemma mem_cost_range m held p o : sim m held → buffer_map_ m !! p = Some o → 0 ≤ mem_cost o ≤ current_memory_size_ m.
Proof.
  intros Hsim Hp. assert (Hnn : ∀ q oq, buffer_map_ m !! q = Some oq → 0 ≤ mem_cost oq).
  { intros q oq Hq. destruct (sim_obj _ _ Hsim q oq Hq) as (_ & Hw & _). unfold mem_cost, GetBufferSize.
    pose proof (memory_cost_range _ Hw). destruct (data_ _); lia. }
  split; [by eapply Hnn|]. rewrite (sim_memory _ _ Hsim). unfold usage.
  pose proof (total_delete (fun _ => mem_cost) _ _ _ Hp) as Hd. cbn beta in Hd.
  assert (0 ≤ total_cost (fun _ => mem_cost) (delete p (buffer_map_ m))); [|lia].
  apply total_nonneg. intros q oq [_ Hq]%lookup_delete_Some. by eapply Hnn.
Qed.

Lemma in_filter_ne (p q : bytes) (l : list bytes) : q ∈ filter (fun r => r ≠ p) l ↔ q ≠ p ∧ q ∈ l.
Proof. rewrite list_elem_of_filter. done. Qed.

(** Writing the data of an object to one of its files. *)
Lemma WriteToFile_ok m p o spill d :
  own_files m p (worker_ (file_worker_ o)) → valid_worker (worker_ (file_worker_ o)) → file_path_ (file_worker_ o) = p →
  data_ (file_worker_ o) = Some d → valid_data (worker_ (file_worker_ o)) d →
  ∃ bs, WriteToFile (temp_dir_ m) (files m) (file_worker_ o) spill = Ok (<[path m spill p := bs]> (files m)) ∧
    own_file (worker_ (file_worker_ o)) bs ∧ ReadFromFileImpl (worker_ (file_worker_ o)) None (mkHandler bs 0) = Ok (worker_ (file_worker_ o), d).
Proof.
  intros Hown Hw Hp Hd Hv. unfold WriteToFile. rewrite Hd. unfold ChooseFilePath. rewrite Hp. fold (path m spill p).
  unfold OpenFile_write. destruct (write_read (worker_ (file_worker_ o)) spill d (default [] (files m !! path m spill p)) Hw Hv) as (h & He & Hh & Hr).
  { destruct (files m !! path m spill p) as [bs|] eqn:Hf; [by eapply Hown|apply own_file_nil]. }
  rewrite He. cbn [res_bind]. by exists (content h).
Qed.

Lemma sub_range cur n max : 0 ≤ n ≤ cur → cur ≤ max < 2 ^ 63 → cast u64 (cur - n) = cur - n.
Proof. change (2 ^ 63) with 9223372036854775808. intros. apply cast_id. solve_range. Qed.

(** One round of [RequestSpace] that frees an object. *)
Definition evicted (m m1 : BufferManager) (p : bytes) (size : Z) : BufferManager :=
  let m2 := with_memory m1 (cast u64 (current_memory_size_ m1 - size)) in
  with_gc m2 (filter (fun q => q ≠ p) (gc_list_ m2)).

Section Evict.
Context (m : BufferManager) (held : gmap bytes Data) (p : bytes) (o : BufferObj).
Hypothesis Hsim : sim m held.
Hypothesis Hp : buffer_map_ m !! p = Some o.
Hypothesis Hs : buffer_status o = kUnloaded.

Let w := worker_ (file_worker_ o).

(** The evicted object has its data in one of its files. *)
Lemma evict_update m' type :
  temp_dir_ m' = temp_dir_ m → memory_limit_ m' = memory_limit_ m → clean_list_ m' = clean_list_ m →
  buffer_map_ m' = <[p := mkObj (mkWorker w p None) kFreed type 0]> (buffer_map_ m) →
  gc_list_ m' = filter (fun q => q ≠ p) (gc_list_ m) → current_memory_size_ m' = current_memory_size_ m - mem_cost o →
  (∀ file, file ≠ path m false p → file ≠ path m true p → files m' !! file = files m !! file) →
  (∀ q, q ≠ p → q ∈ temp_set_ m' ↔ q ∈ temp_set_ m) → (p ∈ temp_set_ m' ↔ type = kTemp) →
  (∀ q, q ≠ p → q ∈ clean_temp_set_ m' → q ∈ clean_temp_set_ m) →
  (p ∈ clean_temp_set_ m' → type ≠ kTemp ∧ is_Some (files m' !! path m true p)) →
  type ≠ kEphemeral → own_files m' p w → (∀ d, held !! p = Some d → backed m' p w type d) →
  sim m' held.
Proof using Hsim Hp Hs.
  intros Htd Hlim Hcl Hmap Hgc Hmem Hfiles Htemp Htemp' Hct Hct' Hty Hown Hback.
  pose proof (sim_obj _ _ Hsim p o Hp) as (Hpath & Hw & Hrel). rewrite Hs in Hrel. destruct Hrel as (Hrc & _ & d0 & Hheld & Hd & Hv & _).
  pose proof (mem_cost_range _ _ _ _ Hsim Hp) as Hcost. pose proof (sim_limit _ _ Hsim) as Hlimit.
  eapply (sim_update m held m' held p o); try done.
  - split; [done|]. split; [done|]. cbn. split; [done|]. split; [done|]. split; [done|]. split; [done|]. exists d0. split_and!; auto.
  - rewrite Hgc. apply NoDup_filter, (sim_gc_nodup _ _ Hsim).
  - intros q. rewrite Hgc, in_filter_ne. cbn. naive_solver.
  - rewrite Hcl. apply (sim_clean_nodup _ _ Hsim).
  - intros q. rewrite Hcl. cbn. split; [|naive_solver]. intros Hq. left. split; [|done]. intros ->.
    apply (sim_clean _ _ Hsim) in Hq as (o' & Ho' & Hst). unfold has_status in Hst. congruence.
  - intros q. unfold spilled. cbn. destruct (decide (q = p)) as [->|Hne]; [rewrite Htemp'; naive_solver|]. rewrite Htemp by done. naive_solver.
  - intros q Hq. unfold spilled. cbn. destruct (decide (q = p)) as [->|Hne]; [|left; auto]. right. destruct (Hct' Hq). split_and!; try done. naive_solver.
  - rewrite Hmem. change (mem_cost (mkObj (mkWorker w p None) kFreed type 0)) with 0. lia.
  - lia.
Qed.

Lemma evict_ok :
  ∃ m1 o1, Free m p false = Ok (true, m1) ∧ get_obj m1 p = Ok o1 ∧ GetBufferSize o1 = GetBufferSize o ∧
    let m2 := evicted m m1 p (GetBufferSize o) in
    sim m2 held ∧ gc_list_ m2 = filter (fun q => q ≠ p) (gc_list_ m) ∧ current_memory_size_ m2 = current_memory_size_ m - mem_cost o ∧
    memory_limit_ m2 = memory_limit_ m ∧ temp_dir_ m2 = temp_dir_ m ∧ buffer_map_ m2 = <[p := o1]> (buffer_map_ m) ∧ buffer_status o1 = kFreed.
Proof using Hsim Hp Hs.
  pose proof (sim_obj _ _ Hsim p o Hp) as (Hpath & Hw & Hrel). rewrite Hs in Hrel.
  destruct Hrel as (Hrc & Hown & d0 & Hheld & Hd & Hv & Hb).
  pose proof (mem_cost_range _ _ _ _ Hsim Hp) as Hcost. pose proof (sim_limit _ _ Hsim) as Hlimit.
  assert (Hmem : mem_cost o = GetBufferSize o) by (unfold mem_cost; by rewrite Hd).
  assert (Hsub : cast u64 (current_memory_size_ m - GetBufferSize o) = current_memory_size_ m - mem_cost o).
  { rewrite <- Hmem. by apply (sub_range _ _ (memory_limit_ m)). }
  assert (Htemp : p ∈ temp_set_ m ↔ buffer_type o = kTemp).
  { rewrite (sim_temp _ _ Hsim). split; [intros (o' & Ho' & Hty & _); congruence|]. intros Hty. exists o. unfold spilled. by rewrite Hs. }
  assert (Hfree : FreeInMemory (file_worker_ o) = Ok (mkWorker w p None)) by (unfold FreeInMemory; by rewrite Hd, Hpath).
  unfold Free, get_obj. rewrite Hp. cbn [res_bind]. rewrite Hs. destruct (decide (buffer_type o = kEphemeral)) as [Hty|Hty].
  - rewrite Hty. destruct (WriteToFile_ok m p o true d0 Hown Hw Hpath Hd Hv) as (bs & -> & Hob & Hr). cbn [res_bind].
    unfold AddTemp. cbn [with_files temp_set_]. rewrite decide_False by (rewrite Htemp, Hty; done). cbn [res_bind]. rewrite Hfree. cbn [res_bind].
    eexists _, _. split; [reflexivity|]. mgr. rewrite lookup_insert_eq. split; [reflexivity|]. split; [done|].
    unfold evicted. cbn zeta. mgr.
    rewrite Hsub. split; [|done]. apply (evict_update _ kTemp); try done; cbn; rewrite ?Hrc; try done.
    + intros file _ Hne. by rewrite lookup_insert_ne.
    + set_solver.
    + set_solver.
    + set_solver.
    + set_solver.
    + intros spill bs'. unfold own_files, path in *. cbn. destruct spill.
      * rewrite lookup_insert_eq. by intros [= <-].
      * destruct (decide (temp_dir_ m ++ p = p)) as [He|Hne]; [by destruct (sim_paths _ _ Hsim p p)|].
        rewrite lookup_insert_ne by done. apply (Hown false).
    + intros d1 Hd1. exists bs. split; [apply lookup_insert_eq|]. rewrite Hheld in Hd1. by injection Hd1 as <-.
  - assert (Hcase : match buffer_type o with
      | kEphemeral => let? fs := WriteToFile (temp_dir_ m) (files m) (file_worker_ o) true in
          let? m0 := AddTemp (with_files m fs) p in Ok (kTemp, m0)
      | type => Ok (type, m) end = Ok (buffer_type o, m)) by (by destruct (buffer_type o)).
    rewrite Hcase. cbn [res_bind]. rewrite Hfree. cbn [res_bind].
    eexists _, _. split; [reflexivity|]. mgr. rewrite lookup_insert_eq. split; [reflexivity|]. split; [done|].
    unfold evicted. cbn zeta. mgr.
    rewrite Hsub. split; [|done]. apply (evict_update _ (buffer_type o)); try done; cbn; rewrite ?Hrc; try done.
    + intros Hin. destruct (sim_clean_temp _ _ Hsim p Hin) as (Hn & _ & Hf). split; [naive_solver|done].
    + intros d1 Hd1. rewrite Hheld in Hd1. injection Hd1 as <-. done.
Qed.

End Evict.

(** ** Making room *)

(** The memory that cannot be freed: objects that handles refer to, and those whose lock is held. *)
Definition pin_cost (locked : bytes → bool) (p : bytes) (o : BufferObj) : Z :=
  match buffer_status o with
  | kLoaded => mem_cost o
  | kUnloaded => if locked p then mem_cost o else 0
  | _ => 0
  end.

Definition pinned (m : BufferManager) (locked : bytes → bool) : Z := total_cost (pin_cost locked) (buffer_map_ m).

(** What [RequestSpace] may do to a manager. *)
Record made_room (m m' : BufferManager) (held : gmap bytes Data) (locked : bytes → bool) : Prop := {
  room_sim : sim m' held;
  room_limit : memory_limit_ m' = memory_limit_ m;
  room_dir : temp_dir_ m' = temp_dir_ m;
  room_others : ∀ q, q ∉ gc_list_ m → buffer_map_ m' !! q = buffer_map_ m !! q;
  room_gc : ∀ q, q ∈ gc_list_ m' → q ∈ gc_list_ m;
  room_pinned : pinned m' locked = pinned m locked;
}.

Lemma made_room_refl m held locked : sim m held → made_room m m held locked.
Proof. by constructor. Qed.

Lemma request_loop_ok need locked iter : ∀ m held,
  sim m held → NoDup iter → (∀ q, q ∈ iter → q ∈ gc_list_ m) → 0 ≤ need < 2 ^ 63 →
  ∃ m', request_loop m iter need locked = Ok m' ∧ made_room m m' held locked ∧
    (memory_limit_ m < current_memory_size_ m' + need → ∀ q, q ∈ iter → q ∈ gc_list_ m' → locked q = true).
Proof.
  induction iter as [|p iter IH]; intros m held Hsim Hnd Hin Hneed; cbn [request_loop].
  { exists m. split; [done|]. split; [by apply made_room_refl|]. intros _ q Hq. by apply not_elem_of_nil in Hq. }
  pose proof (sim_limit _ _ Hsim) as Hlimit. change (2 ^ 63) with 9223372036854775808 in *.
  assert (Hcur : 0 ≤ current_memory_size_ m).
  { rewrite (sim_memory _ _ Hsim). apply total_nonneg. intros q o Hq. by destruct (mem_cost_range _ _ _ _ Hsim Hq). }
  rewrite (cast_id u64) by solve_range.
  destruct (Z.ltb_spec (memory_limit_ m) (current_memory_size_ m + need)) as [Hover|Hfit].
  2:{ exists m. split; [done|]. split; [by apply made_room_refl|]. lia. }
  apply NoDup_cons in Hnd as [Hnin Hnd]. destruct (locked p) eqn:Hlock.
  - cbn [Free res_bind]. destruct (IH m held Hsim Hnd) as (m' & He & Hr & Hl); [set_solver|done|]. exists m'. split; [done|]. split; [done|].
    intros Hov q Hq. apply elem_of_cons in Hq as [->|Hq]; [done|]. by apply Hl.
  - destruct (proj1 (sim_gc _ _ Hsim p)) as (o & Hp & Hs); [apply Hin; set_solver|].
    destruct (evict_ok m held p o Hsim Hp Hs) as (m1 & o1 & -> & Ho1 & Hsize & Hsim2 & Hgc2 & Hmem2 & Hlim2 & Hdir2 & Hmap2 & Hs1).
    cbn [res_bind]. rewrite Ho1. cbn [res_bind]. rewrite Hsize. fold (evicted m m1 p (GetBufferSize o)). set (m2 := evicted m m1 p (GetBufferSize o)) in *.
    destruct (IH m2 held Hsim2 Hnd) as (m' & He & Hr & Hl); [|done|].
    { intros q Hq. rewrite Hgc2, in_filter_ne. set_solver. }
    exists m'. split; [exact He|]. destruct Hr as [R1 R2 R3 R4 R5 R6]. split.
    + constructor; [done|congruence|congruence| | |].
      * intros q Hq. rewrite R4 by (rewrite Hgc2, in_filter_ne; tauto). rewrite Hmap2, lookup_insert_ne; [done|].
        intros ->. apply Hq, Hin. set_solver.
      * intros q Hq. apply R5 in Hq. rewrite Hgc2, in_filter_ne in Hq. tauto.
      * rewrite R6. unfold pinned. rewrite Hmap2, total_insert, Hp. unfold pin_cost. rewrite Hs, Hs1, Hlock. lia.
    + intros Hov q Hq Hq'. rewrite Hlim2 in Hl. apply elem_of_cons in Hq as [->|Hq]; [|by apply Hl].
      apply R5 in Hq'. rewrite Hgc2, in_filter_ne in Hq'. tauto.
Qed.

Lemma total_le cost cost' objects :
  (∀ p o, objects !! p = Some o → cost p o ≤ cost' p o) → total_cost cost objects ≤ total_cost cost' objects.
Proof.
  induction objects as [|p o objects Hp IH] using map_ind; intros H; [done|].
  rewrite !total_insert, Hp. pose proof (H p o (lookup_insert_eq _ _ _)).
  enough (total_cost cost objects ≤ total_cost cost' objects) by lia. apply IH. intros q oq Hq. apply H. rewrite lookup_insert_ne; [done|].
  intros ->. congruence.
Qed.

Lemma pinned_le m held locked : sim m held → pinned m locked ≤ current_memory_size_ m.
Proof.
  intros Hsim. rewrite (sim_memory _ _ Hsim). apply total_le. intros p o Hp. pose proof (mem_cost_range _ _ _ _ Hsim Hp).
  unfold pin_cost. destruct (buffer_status o), (locked p); lia.
Qed.

(** [RequestSpace] succeeds exactly when the memory that cannot be freed leaves room. *)
Lemma RequestSpace_ok m held need locked :
  sim m held → 0 ≤ need < 2 ^ 63 →
  (∃ m', RequestSpace m need locked = Ok (with_memory m' (current_memory_size_ m' + need)) ∧ made_room m m' held locked ∧
     current_memory_size_ m' + need ≤ memory_limit_ m ∧ pinned m locked + need ≤ memory_limit_ m) ∨
  (RequestSpace m need locked = Err UnrecoverableError ∧ memory_limit_ m < pinned m locked + need).
Proof.
  intros Hsim Hneed. unfold RequestSpace.
  destruct (request_loop_ok need locked (gc_list_ m) m held Hsim (sim_gc_nodup _ _ Hsim) ltac:(done) Hneed) as (m' & -> & Hr & Hl).
  cbn [res_bind]. pose proof Hr as [R1 R2 R3 R4 R5 R6]. pose proof (sim_limit _ _ R1) as Hlimit.
  change (2 ^ 63) with 9223372036854775808 in *.
  assert (Hcur : 0 ≤ current_memory_size_ m').
  { rewrite (sim_memory _ _ R1). apply total_nonneg. intros q o Hq. by destruct (mem_cost_range _ _ _ _ R1 Hq). }
  rewrite (cast_id u64) by solve_range. rewrite R2 in *.
  destruct (Z.ltb_spec (memory_limit_ m) (current_memory_size_ m' + need)) as [Hover|Hfit]; [right|left; exists m'; rewrite <- R6; pose proof (pinned_le m' held locked R1); split_and!; try done; lia].
  split; [done|]. rewrite <- R6. replace (pinned m' locked) with (current_memory_size_ m'); [done|].
  rewrite (sim_memory _ _ R1). unfold usage, pinned. apply total_ext. intros p o Hp. unfold pin_cost.
  destruct (sim_obj _ _ R1 p o Hp) as (_ & _ & Hrel). unfold mem_cost. destruct (buffer_status o) eqn:Hs; try done.
  - assert (Hin : p ∈ gc_list_ m') by (apply (sim_gc _ _ R1); by exists o). rewrite (Hl Hover p (R5 p Hin) Hin). done.
  - destruct Hrel as (-> & _). done.
  - destruct Hrel as (_ & -> & _). done.
  - destruct Hrel as (-> & _). done.
Qed.

(** ** Steps on one object *)

Lemma entry_same {C} `{ElemOf bytes C} (X : C) (p : bytes) (P : Prop) :
  (p ∈ X ↔ P) → ∀ q, q ∈ X ↔ (q ≠ p ∧ q ∈ X) ∨ (q = p ∧ P).
Proof. intros HX q. destruct (decide (q = p)) as [->|]; naive_solver. Qed.

Section Step.
Context (m : BufferManager) (held : gmap bytes Data) (p : bytes) (o : BufferObj).
Hypothesis Hsim : sim m held.
Hypothesis Hp : buffer_map_ m !! p = Some o.

Lemma at_this P : at_obj m p P ↔ P o.
Proof using Hp. unfold at_obj. rewrite Hp. naive_solver. Qed.

Lemma in_gc : p ∈ gc_list_ m ↔ buffer_status o = kUnloaded.
Proof using Hsim Hp. by rewrite (sim_gc _ _ Hsim), at_this. Qed.

Lemma in_clean : p ∈ clean_list_ m ↔ buffer_status o = kClean.
Proof using Hsim Hp. by rewrite (sim_clean _ _ Hsim), at_this. Qed.

Lemma in_temp : p ∈ temp_set_ m ↔ spilled o.
Proof using Hsim Hp. by rewrite (sim_temp _ _ Hsim), at_this. Qed.

(** A spilled object has a file in the temporary directory, with what it holds. *)
Lemma spilled_file : spilled o →
  ∃ bs d, files m !! path m true p = Some bs ∧ own_file (worker_ (file_worker_ o)) bs ∧ held !! p = Some d ∧
    ReadFromFileImpl (worker_ (file_worker_ o)) None (mkHandler bs 0) = Ok (worker_ (file_worker_ o), d).
Proof using Hsim Hp.
  intros [Ht Hc]. destruct (sim_obj _ _ Hsim p o Hp) as (_ & _ & Hrel).
  assert (Hb : own_files m p (worker_ (file_worker_ o)) ∧ ∃ d, held !! p = Some d ∧ backed m p (worker_ (file_worker_ o)) (buffer_type o) d).
  { destruct (buffer_status o); [| | |done|].
    - destruct Hrel as (_ & Hown & d & ? & _ & _ & ?). split; [done|]. by exists d.
    - destruct Hrel as (_ & Hown & d & ? & _ & _ & ?). split; [done|]. by exists d.
    - destruct Hrel as (_ & _ & _ & Hown & d & ? & _ & ?). split; [done|]. by exists d.
    - destruct Hrel as (_ & _ & He & _). congruence. }
  destruct Hb as (Hown & d & Hheld & Hb). rewrite Ht in Hb. destruct Hb as (bs & Hf & Hr). exists bs, d.
  split; [done|]. split; [by eapply (Hown true)|done].
Qed.

(** A change that leaves the files, the status and the type as they are. *)
Lemma sim_put held' o' :
  buffer_status o' = buffer_status o → buffer_type o' = buffer_type o → mem_cost o' = mem_cost o →
  (∀ q, q ≠ p → held' !! q = held !! q) → obj_rel m p o' (held' !! p) → sim (put m p o') held'.
Proof using Hsim Hp.
  intros Hs Ht Hm Hheld Hobj. assert (Hsp : spilled o' ↔ spilled o) by (unfold spilled; by rewrite Hs, Ht).
  apply (sim_update m held _ held' p o o'); try done; mgr.
  - apply (sim_gc_nodup _ _ Hsim).
  - apply entry_same. by rewrite in_gc, Hs.
  - apply (sim_clean_nodup _ _ Hsim).
  - apply entry_same. by rewrite in_clean, Hs.
  - apply entry_same. by rewrite in_temp, Hsp.
  - intros q Hq. destruct (decide (q = p)) as [->|]; [right|by left]. rewrite Hsp, <- in_temp.
    destruct (sim_clean_temp _ _ Hsim p Hq) as (? & _ & ?). done.
  - lia.
  - apply (sim_limit _ _ Hsim).
Qed.

End Step.

Section Steps.
Context (m : BufferManager) (held : gmap bytes Data) (p : bytes) (o : BufferObj).
Hypothesis Hsim : sim m held.
Hypothesis Hp : buffer_map_ m !! p = Some o.

(** Entries of the lists and sets that a step leaves alone. *)
Ltac keep :=
  match goal with
  | |- NoDup (gc_list_ m) => apply (sim_gc_nodup _ _ Hsim)
  | |- NoDup (clean_list_ m) => apply (sim_clean_nodup _ _ Hsim)
  | |- ∀ q, q ∈ gc_list_ m ↔ _ => apply entry_same; rewrite (in_gc _ _ _ _ Hsim Hp); cbn; naive_solver congruence
  | |- ∀ q, q ∈ clean_list_ m ↔ _ => apply entry_same; rewrite (in_clean _ _ _ _ Hsim Hp); cbn; naive_solver congruence
  | |- ∀ q, q ∈ temp_set_ m ↔ _ => apply entry_same; rewrite (in_temp _ _ _ _ Hsim Hp); unfold spilled; cbn; naive_solver congruence
  | |- ∀ q, q ∈ clean_temp_set_ m → _ =>
      let q := fresh "q" in let Hq := fresh "Hq" in intros q Hq; destruct (decide (q = p)) as [->|]; [right|by left];
      let Hnt := fresh "Hnt" in destruct (sim_clean_temp _ _ Hsim p Hq) as (Hnt & _ & ?); rewrite (in_temp _ _ _ _ Hsim Hp) in Hnt; unfold spilled in *; cbn;
      (split; [done|split; [naive_solver congruence|done]])
  | |- _ ≤ memory_limit_ m => apply (sim_limit _ _ Hsim)
  | |- current_memory_size_ m = current_memory_size_ m - mem_cost o + mem_cost _ => unfold mem_cost, GetBufferSize; cbn; lia
  end.

Lemma LoadInner_ok : buffer_status o = kLoaded → ∃ m', LoadInner m p = Ok m' ∧ sim m' held.
Proof using Hsim Hp.
  intros Hs. unfold LoadInner, get_obj. rewrite Hp. cbn [res_bind]. rewrite Hs. eexists. split; [reflexivity|].
  apply (sim_put m held p o Hsim Hp); try done. destruct (sim_obj _ _ Hsim p o Hp) as (? & ? & Hrel). rewrite Hs in Hrel.
  split; [done|]. split; [done|]. cbn. destruct Hrel as (? & Hrest). split; [lia|exact Hrest].
Qed.

Lemma UnloadInner_ok : buffer_status o = kLoaded → ∃ m', UnloadInner m p = Ok m' ∧ sim m' held.
Proof using Hsim Hp.
  intros Hs. unfold UnloadInner, get_obj. rewrite Hp. cbn [res_bind]. rewrite Hs.
  destruct (sim_obj _ _ Hsim p o Hp) as (? & ? & Hrel). rewrite Hs in Hrel. destruct Hrel as (Hrc & Hrest).
  destruct (Z.eqb_spec (rc_ o - 1) 0) as [Hz|Hnz]; eexists; (split; [reflexivity|]).
  - apply (sim_update m held _ held p o (mkObj (file_worker_ o) kUnloaded (buffer_type o) (rc_ o - 1))); try done; mgr; try keep.
    + apply NoDup_app. split; [apply NoDup_filter, (sim_gc_nodup _ _ Hsim)|]. split; [|apply NoDup_singleton].
      intros q Hq. rewrite in_filter_ne in Hq. rewrite list_elem_of_singleton. tauto.
    + intros q. rewrite elem_of_app, in_filter_ne, list_elem_of_singleton. cbn. tauto.
  - apply (sim_put m held p o Hsim Hp); try done. split; [done|]. split; [done|]. cbn. split; [lia|exact Hrest].
Qed.

Lemma GetMutPointer_ok : buffer_status o = kLoaded →
  ∃ m', GetMutPointer m p = Ok m' ∧ sim m' held ∧
    buffer_map_ m' = <[p := mkObj (file_worker_ o) kLoaded kEphemeral (rc_ o)]> (buffer_map_ m).
Proof using Hsim Hp.
  intros Hs. unfold GetMutPointer, get_obj. rewrite Hp. cbn [res_bind].
  destruct (sim_obj _ _ Hsim p o Hp) as (? & ? & Hrel). rewrite Hs in Hrel. destruct Hrel as (Hrc & Hown & d & Hheld & Hd & Hv & Hb).
  assert (Hnew : ∀ m', temp_dir_ m' = temp_dir_ m → files m' = files m → obj_rel m' p (mkObj (file_worker_ o) kLoaded kEphemeral (rc_ o)) (held !! p)).
  { intros m' Htd Hf. apply (obj_rel_frame m); [intros; unfold path; by rewrite Htd, Hf|].
    split; [done|]. split; [done|]. cbn. split; [done|]. split; [done|]. by exists d. }
  assert (Hns : ¬ spilled (mkObj (file_worker_ o) kLoaded kEphemeral (rc_ o))) by (intros [? _]; done).
  destruct (decide (buffer_type o = kTemp)) as [Ht|Ht].
  - rewrite Ht. unfold RemoveTemp. assert (Hsp : spilled o) by (split; [done|by rewrite Hs]). apply (in_temp _ _ _ _ Hsim Hp) in Hsp as Hin.
    rewrite decide_True by done. rewrite decide_False by (intros Hct; by destruct (sim_clean_temp _ _ Hsim p Hct)). cbn [res_bind].
    eexists. split; [reflexivity|]. rewrite Hs. split; [|done].
    apply (sim_update m held _ held p o (mkObj (file_worker_ o) kLoaded kEphemeral (rc_ o))); try done; mgr; try keep.
    + by apply Hnew.
    + set_solver.
    + intros q Hq. destruct (decide (q = p)) as [->|]; [right|left; set_solver]. split; [done|]. split; [done|].
      rewrite Ht in Hb. destruct Hb as (bs & Hf & _). by exists bs.
  - assert (Hcase : match buffer_type o with kTemp => RemoveTemp m p | _ => Ok m end = Ok m) by (by destruct (buffer_type o)).
    rewrite Hcase. cbn [res_bind]. eexists. split; [reflexivity|]. rewrite Hs. split; [|done].
    apply (sim_update m held _ held p o (mkObj (file_worker_ o) kLoaded kEphemeral (rc_ o))); try done; mgr; try keep.
    by apply Hnew.
Qed.

Lemma Handle_write_ok d : buffer_status o = kLoaded → valid_data (worker_ (file_worker_ o)) d →
  ∃ m', Handle_write m p d = Ok m' ∧ sim m' (<[p := d]> held).
Proof using Hsim Hp.
  intros Hs Hv. unfold Handle_write. destruct (GetMutPointer_ok Hs) as (m' & -> & Hsim' & Hmap). cbn [res_bind].
  unfold get_obj. rewrite Hmap, lookup_insert_eq. cbn [res_bind file_worker_].
  destruct (sim_obj _ _ Hsim p o Hp) as (Hpath & Hw & Hrel). rewrite Hs in Hrel. destruct Hrel as (Hrc & _ & d0 & _ & Hd & _).
  rewrite Hd. eexists. split; [reflexivity|]. assert (Hp' : buffer_map_ m' !! p = Some (mkObj (file_worker_ o) kLoaded kEphemeral (rc_ o))).
  { rewrite Hmap. apply lookup_insert_eq. }
  eapply (sim_put m' held p _ Hsim' Hp'); try done.
  - unfold mem_cost. cbn. by rewrite Hd.
  - intros q Hne. by rewrite lookup_insert_ne.
  - rewrite lookup_insert_eq. destruct (sim_obj _ _ Hsim' p _ Hp') as (_ & _ & _ & Hown & _).
    split; [done|]. split; [done|]. cbn. split; [done|]. split; [done|]. by exists d.
Qed.

Lemma Save_ok : buffer_status o ≠ kNew → buffer_status o ≠ kClean →
  ∃ write m', Save m p = Ok (write, m') ∧ sim m' held.
Proof using Hsim Hp.
  intros Hn Hc. unfold Save, get_obj. rewrite Hp. cbn [res_bind]. pose proof (sim_obj _ _ Hsim p o Hp) as (Hpath & Hw & Hrel).
  assert (Hne : temp_dir_ m ++ p ≠ p) by (intros He; by apply (sim_paths _ _ Hsim p p)).
  destruct (buffer_type o) eqn:Ht.
  - cbn [res_bind]. eexists _, _. split; [reflexivity|]. by apply (sim_put m held p o Hsim Hp).
  - assert (Hmem : ∃ d, own_files m p (worker_ (file_worker_ o)) ∧ data_ (file_worker_ o) = Some d ∧ valid_data (worker_ (file_worker_ o)) d ∧ held !! p = Some d ∧
      (buffer_status o = kLoaded ∨ buffer_status o = kUnloaded)).
    { destruct (buffer_status o); naive_solver. }
    destruct Hmem as (d & Hown & Hd & Hv & Hheld & Hs).
    destruct (WriteToFile_ok m p o false d Hown Hw Hpath Hd Hv) as (bs & HW & Hob & Hr).
    assert (Hcase : match buffer_status o with
      | kLoaded | kUnloaded => let? fs := WriteToFile (temp_dir_ m) (files m) (file_worker_ o) false in Ok (true, with_files m fs)
      | kFreed => let? fs := MoveFile (temp_dir_ m) (files m) (file_worker_ o) in Ok (false, with_files m fs)
      | _ => Err UnrecoverableError
      end = Ok (true, with_files m (<[path m false p := bs]> (files m)))) by (rewrite HW; by destruct Hs as [->| ->]).
    rewrite Hcase. cbn [res_bind]. eexists _, _. split; [reflexivity|].
    apply (sim_update m held _ held p o (mkObj (file_worker_ o) (buffer_status o) kPersistent (rc_ o))); try done; mgr; try keep.
    + intros file Hf _. by rewrite lookup_insert_ne.
    + assert (Hst : stored (<[path m false p := bs]> (files m)) p (worker_ (file_worker_ o)) d) by (exists bs; by rewrite lookup_insert_eq).
      assert (Hown' : ∀ spill bs', <[path m false p := bs]> (files m) !! path m spill p = Some bs' → own_file (worker_ (file_worker_ o)) bs').
      { intros [] bs'; [|rewrite lookup_insert_eq; by intros [= <-]]. unfold path at 1 2. rewrite lookup_insert_ne by done. apply (Hown true). }
      split; [done|]. split; [done|]. cbn. destruct Hs as [Hs|Hs]; rewrite Hs in *; (split; [apply Hrel|]; split; [exact Hown'|]; by exists d).
    + intros q Hq. destruct (decide (q = p)) as [->|]; [right|by left]. destruct (sim_clean_temp _ _ Hsim p Hq) as (_ & _ & Hf).
      split; [done|]. split; [by intros [? _]|]. unfold path at 1. by rewrite lookup_insert_ne by done.
  - assert (Hsp : spilled o) by done. apply (in_temp _ _ _ _ Hsim Hp) in Hsp as Hin. unfold MoveTemp. rewrite decide_True by done. cbn [res_bind].
    destruct (spilled_file m held p o Hsim Hp Hsp) as (bs & d & Hf & Hob & Hheld & Hr).
    unfold MoveFile, ChooseFilePath, Rename. mgr. rewrite Hpath. unfold path in Hf. rewrite Hf. cbn [res_bind].
    eexists _, _. split; [reflexivity|].
    apply (sim_update m held _ held p o (mkObj (file_worker_ o) (buffer_status o) kPersistent (rc_ o))); try done; mgr; try keep.
    + intros file Hf1 Hf2. unfold path in *. rewrite lookup_insert_ne, lookup_delete_ne by done. done.
    + set (fs := <[p := bs]> (delete (temp_dir_ m ++ p) (files m))).
      assert (Hst : stored fs p (worker_ (file_worker_ o)) d) by (exists bs; split; [apply lookup_insert_eq|done]).
      assert (Hown' : ∀ (spill : bool) bs', fs !! (if spill then temp_dir_ m ++ p else p) = Some bs' → own_file (worker_ (file_worker_ o)) bs').
      { intros [] bs'; unfold fs; [|rewrite lookup_insert_eq; by intros [= <-]]. rewrite lookup_insert_ne, lookup_delete_eq by done. done. }
      split; [done|]. split; [done|]. cbn. destruct (buffer_status o); try done;
        destruct Hrel as (H1 & H2 & Hrel); decompose [and ex] Hrel; repeat (split; [done|]); eexists; split_and!; try done; simplify_eq; done.
    + intros q. destruct (decide (q = p)) as [->|]; [|set_solver]. unfold spilled. cbn. set_solver.
Qed.

(** The manager after [AddToCleanList], with the object marked. *)
Let o' := mkObj (mkWorker (worker_ (file_worker_ o)) p None) kClean (buffer_type o) 0.
Let m1 := mkManager (temp_dir_ m) (memory_limit_ m) (current_memory_size_ m - mem_cost o) (<[p := o']> (buffer_map_ m))
  (filter (fun q => q ≠ p) (gc_list_ m)) (clean_list_ m ++ [p]) (temp_set_ m) (clean_temp_set_ m) (files m).

Lemma pick_data : buffer_status o ≠ kLoaded → buffer_status o ≠ kClean → ∃ fw m0,
  match buffer_status o with
  | kNew | kFreed => let? m := AddToCleanList m p (GetBufferSize o) false in Ok (file_worker_ o, m)
  | kUnloaded => let? file_worker := FreeInMemory (file_worker_ o) in
      let? m := AddToCleanList m p (GetBufferSize o) true in Ok (file_worker, m)
  | _ => Err UnrecoverableError
  end = Ok (fw, m0) ∧ put m0 p (mkObj fw kClean (buffer_type o) (rc_ o)) = m1.
Proof using Hsim Hp.
  intros Hl Hc. pose proof (sim_obj _ _ Hsim p o Hp) as (Hpath & Hw & Hrel).
  pose proof (mem_cost_range _ _ _ _ Hsim Hp) as Hcost. pose proof (sim_limit _ _ Hsim) as Hlimit.
  assert (Hout : buffer_status o ≠ kUnloaded → data_ (file_worker_ o) = None → rc_ o = 0 →
    put (with_clean m (clean_list_ m ++ [p])) p (mkObj (file_worker_ o) kClean (buffer_type o) (rc_ o)) = m1).
  { intros Hs Hd Hrc. unfold m1, o', mem_cost. mgr. rewrite Hd, Hrc, Z.sub_0_r. rewrite filter_all.
    - destruct (file_worker_ o) as [w fp dat]; cbn in *. by subst.
    - apply Forall_forall. intros q Hq ->. by apply Hs, (in_gc _ _ _ _ Hsim Hp). }
  destruct (buffer_status o) eqn:Hs; try done; cbn [AddToCleanList res_bind]; [|eexists _, _; split; [reflexivity|]; apply Hout; naive_solver..].
  destruct Hrel as (Hrc & _ & d & _ & Hd & _). unfold FreeInMemory. rewrite Hd. cbn [res_bind].
  assert (Hin : p ∈ gc_list_ m) by (by apply (in_gc _ _ _ _ Hsim Hp)).
  unfold AddToCleanList, RemoveFromGCQueueInner. mgr. rewrite decide_True by done. cbn [res_bind]. eexists _, _. split; [reflexivity|].
  unfold m1, o'. mgr. rewrite Hpath, Hrc. unfold mem_cost in Hcost |- *. rewrite Hd in Hcost |- *. by rewrite (sub_range _ _ (memory_limit_ m)).
Qed.

Lemma pick_update m' : buffer_status o ≠ kClean →
  temp_dir_ m' = temp_dir_ m → memory_limit_ m' = memory_limit_ m → current_memory_size_ m' = current_memory_size_ m1 →
  buffer_map_ m' = buffer_map_ m1 → gc_list_ m' = gc_list_ m1 → clean_list_ m' = clean_list_ m1 → files m' = files m →
  (∀ q, q ∈ temp_set_ m' ↔ (q ≠ p ∧ q ∈ temp_set_ m) ∨ (q = p ∧ spilled o')) →
  (∀ q, q ∈ clean_temp_set_ m' → (q ≠ p ∧ q ∈ clean_temp_set_ m) ∨ (q = p ∧ is_Some (files m !! path m true p))) → sim m' (delete p held).
Proof using Hsim Hp.
  pose proof (sim_obj _ _ Hsim p o Hp) as (Hpath & Hw & Hrel).
  pose proof (mem_cost_range _ _ _ _ Hsim Hp) as Hcost. pose proof (sim_limit _ _ Hsim) as Hlimit.
  intros Hc E1 E2 E3 E4 E5 E6 E7 Ht Hct. apply (sim_update m held _ _ p o o'); try done.
  - intros. by rewrite E7.
  - intros q Hq. by rewrite lookup_delete_ne.
  - rewrite lookup_delete_eq. done.
  - rewrite E5. apply NoDup_filter, (sim_gc_nodup _ _ Hsim).
  - intros q. rewrite E5. cbn. rewrite in_filter_ne. naive_solver.
  - rewrite E6. cbn. apply NoDup_app. split; [apply (sim_clean_nodup _ _ Hsim)|]. split; [|apply NoDup_singleton].
    intros q Hq. rewrite list_elem_of_singleton. intros ->. by apply Hc, (in_clean _ _ _ _ Hsim Hp).
  - intros q. rewrite E6. cbn. rewrite elem_of_app, list_elem_of_singleton. destruct (decide (q = p)) as [->|]; [|naive_solver].
    rewrite (in_clean _ _ _ _ Hsim Hp). naive_solver.
  - intros q Hq. rewrite E7. destruct (Hct q Hq) as [|[-> Hf]]; [by left|]. right. split; [done|]. split; [|done]. by intros [_ ?].
  - rewrite E3. cbn. change (mem_cost o') with 0. lia.
  - rewrite E3. cbn. lia.
Qed.

Lemma PickForCleanup_ok : buffer_status o ≠ kLoaded → buffer_status o ≠ kClean →
  ∃ m', PickForCleanup m p = Ok m' ∧ sim m' (delete p held).
Proof using Hsim Hp.
  intros Hl Hc. unfold PickForCleanup, get_obj. rewrite Hp. cbn [res_bind].
  destruct (pick_data Hl Hc) as (fw & m0 & -> & Hput). cbn [res_bind]. rewrite Hput.
  assert (Hns : ¬ spilled o') by (by intros [_ ?]).
  destruct (decide (buffer_type o = kTemp)) as [Ht|Ht].
  - rewrite Ht. unfold RemoveTemp. assert (Hsp : spilled o) by done. apply (in_temp _ _ _ _ Hsim Hp) in Hsp as Hin.
    change (temp_set_ m1) with (temp_set_ m). change (clean_temp_set_ m1) with (clean_temp_set_ m).
    rewrite decide_True by done. rewrite decide_False by (intros Hct; by destruct (sim_clean_temp _ _ Hsim p Hct)).
    eexists. split; [reflexivity|]. apply pick_update; try done; mgr.
    + intros q. destruct (decide (q = p)) as [->|]; set_solver.
    + intros q Hq. destruct (decide (q = p)) as [->|]; [right|left; set_solver]. split; [done|].
      destruct (spilled_file m held p o Hsim Hp Hsp) as (bs & ? & ? & _). by exists bs.
  - assert (Hcase : match buffer_type o with kTemp => RemoveTemp m1 p | _ => Ok m1 end = Ok m1) by (by destruct (buffer_type o)).
    rewrite Hcase. eexists. split; [reflexivity|]. apply pick_update; try done.
    + apply entry_same. rewrite (in_temp _ _ _ _ Hsim Hp). unfold spilled. cbn. naive_solver.
    + intros q Hq. destruct (decide (q = p)) as [->|]; [right|by left]. by destruct (sim_clean_temp _ _ Hsim p Hq) as (_ & _ & ?).
Qed.

End Steps.

(** ** Loading *)

(** An object that is not in memory. *)
Definition needs_memory (o : BufferObj) : Prop := buffer_status o = kFreed ∨ buffer_status o = kNew.

Section Loading.
Context (m : BufferManager) (held : gmap bytes Data) (p : bytes) (o : BufferObj) (d : Data).
Hypothesis Hsim : sim m held.
Hypothesis Hp : buffer_map_ m !! p = Some o.
Hypothesis Hheld : held !! p = Some d.

(** An object that is brought into memory, with [m1] the manager that made room for it. *)
Lemma load_update m1 locked :
  made_room m m1 held locked → buffer_status o = kFreed ∨ buffer_status o = kNew → valid_data (worker_ (file_worker_ o)) d →
  current_memory_size_ m1 + GetBufferSize o ≤ memory_limit_ m →
  sim (put (with_memory m1 (current_memory_size_ m1 + GetBufferSize o)) p
    (mkObj (mkWorker (worker_ (file_worker_ o)) p (Some d)) kLoaded (buffer_type o) (rc_ o + 1))) held.
Proof using Hsim Hp Hheld.
  intros [R1 R2 R3 R4 R5 R6] Hs Hv Hroom.
  assert (Hp1 : buffer_map_ m1 !! p = Some o) by (rewrite R4; [done|]; rewrite (in_gc _ _ _ _ Hsim Hp); destruct Hs as [->| ->]; done).
  pose proof (sim_obj _ _ R1 p o Hp1) as (Hpath & Hw & Hrel).
  assert (Hdata : data_ (file_worker_ o) = None ∧ rc_ o = 0 ∧ own_files m1 p (worker_ (file_worker_ o)) ∧ backed m1 p (worker_ (file_worker_ o)) (buffer_type o) d).
  { destruct Hs as [Hs|Hs]; rewrite Hs in Hrel.
    - destruct Hrel as (? & ? & _ & ? & d' & Hd' & _ & ?). replace d with d' by congruence. done.
    - destruct Hrel as (? & ? & Ht & ? & _). rewrite Ht. done. }
  destruct Hdata as (Hd & Hrc & Hown & Hb).
  apply (sim_update m1 held _ held p o (mkObj (mkWorker (worker_ (file_worker_ o)) p (Some d)) kLoaded (buffer_type o) (rc_ o + 1))); try done; mgr.
  - split; [done|]. split; [done|]. cbn. split; [lia|]. split; [done|]. by exists d.
  - apply (sim_gc_nodup _ _ R1).
  - apply entry_same. rewrite (in_gc _ _ _ _ R1 Hp1). cbn. destruct Hs as [->| ->]; done.
  - apply (sim_clean_nodup _ _ R1).
  - apply entry_same. rewrite (in_clean _ _ _ _ R1 Hp1). cbn. destruct Hs as [->| ->]; done.
  - apply entry_same. rewrite (in_temp _ _ _ _ R1 Hp1). unfold spilled. cbn. destruct Hs as [->| ->]; naive_solver.
  - intros q Hq. destruct (decide (q = p)) as [->|]; [right|by left]. destruct (sim_clean_temp _ _ R1 p Hq) as (Hnt & _ & ?).
    split; [done|]. split; [|done]. rewrite (in_temp _ _ _ _ R1 Hp1) in Hnt. unfold spilled in *. cbn. destruct Hs as [Hs|Hs]; rewrite Hs in Hnt; naive_solver.
  - unfold mem_cost. rewrite Hd. cbn. unfold GetBufferSize. cbn. lia.
  - by rewrite R2.
Qed.

Lemma Load_ok locked :
  (∃ m', Load m p locked = Ok (Some d, m') ∧ sim m' held ∧ (needs_memory o → pinned m locked + GetBufferSize o ≤ memory_limit_ m)) ∨
  (Load m p locked = Err UnrecoverableError ∧ needs_memory o ∧ memory_limit_ m < pinned m locked + GetBufferSize o).
Proof using Hsim Hp Hheld.
  unfold Load, load_data, get_obj. rewrite Hp. cbn [res_bind]. pose proof (sim_obj _ _ Hsim p o Hp) as (Hpath & Hw & Hrel).
  pose proof (memory_cost_range _ Hw) as Hcost. fold (GetBufferSize o) in Hcost. destruct (buffer_status o) eqn:Hs.
  - left. cbn [res_bind]. destruct Hrel as (Hrc & Hown & d' & Hd' & Hd & Hrest). replace d' with d in * by congruence. rewrite Hd. eexists.
    split; [reflexivity|]. split; [|intros [?|?]; congruence]. apply (sim_put m held p o Hsim Hp); try done. split; [done|]. split; [done|]. cbn. split; [lia|]. split; [done|]. by exists d.
  - left. destruct Hrel as (Hrc & Hown & d' & Hd' & Hd & Hrest). replace d' with d in * by congruence.
    assert (Hin : p ∈ gc_list_ m) by (by apply (in_gc _ _ _ _ Hsim Hp)). unfold RemoveFromGCQueueInner. rewrite decide_True by done.
    cbn [res_bind]. rewrite Hd. eexists. split; [reflexivity|]. split; [|intros [?|?]; congruence].
    apply (sim_update m held _ held p o (mkObj (file_worker_ o) kLoaded (buffer_type o) (rc_ o + 1))); try done; mgr.
    + split; [done|]. split; [done|]. cbn. split; [lia|]. split; [done|]. by exists d.
    + apply NoDup_filter, (sim_gc_nodup _ _ Hsim).
    + intros q. rewrite in_filter_ne. cbn. naive_solver.
    + apply (sim_clean_nodup _ _ Hsim).
    + apply entry_same. by rewrite (in_clean _ _ _ _ Hsim Hp), Hs.
    + apply entry_same. rewrite (in_temp _ _ _ _ Hsim Hp). unfold spilled. rewrite Hs. cbn. naive_solver.
    + intros q Hq. destruct (decide (q = p)) as [->|]; [right|by left]. destruct (sim_clean_temp _ _ Hsim p Hq) as (Hnt & _ & ?).
      split; [done|]. split; [|done]. rewrite (in_temp _ _ _ _ Hsim Hp) in Hnt. unfold spilled in *. rewrite Hs in Hnt. cbn. naive_solver.
    + unfold mem_cost, GetBufferSize. cbn. lia.
    + apply (sim_limit _ _ Hsim).
  - destruct Hrel as (Hd & Hrc & Hty & Hown & d' & Hd' & Hv & Hb). replace d' with d in * by congruence.
    destruct (RequestSpace_ok m held (GetBufferSize o) locked Hsim Hcost) as [(m1 & -> & Hr & Hroom & Hpin)|[-> ?]]; [left|right; unfold needs_memory; by auto].
    cbn [res_bind]. pose proof (load_update m1 locked Hr (or_introl Hs) Hv Hroom) as Hfinal.
    destruct Hr as [R1 R2 R3 R4 _ _]. assert (Hp1 : buffer_map_ m1 !! p = Some o) by (rewrite R4; [done|]; by rewrite (in_gc _ _ _ _ Hsim Hp), Hs).
    destruct (sim_obj _ _ R1 p o Hp1) as (_ & _ & Hrel1). rewrite Hs in Hrel1. destruct Hrel1 as (_ & _ & _ & _ & d1 & Hd1 & _ & Hb1).
    replace d1 with d in * by congruence.
    assert (Hread : ∀ spill, stored (files m1) (path m1 spill p) (worker_ (file_worker_ o)) d →
      ReadFromFile (temp_dir_ m1) (files m1) (file_worker_ o) spill = Ok (mkWorker (worker_ (file_worker_ o)) p (Some d))).
    { intros spill (bs & Hf & HR). unfold ReadFromFile, ChooseFilePath, OpenFile_read. rewrite Hpath. fold (path m1 spill p). rewrite Hf, Hd, HR. done. }
    mgr. destruct (buffer_type o) eqn:Ht; [|done|]; rewrite (Hread _ Hb1); cbn [res_bind data_]; by eexists.
  - naive_solver.
  - destruct Hrel as (Hd & Hrc & Hty & Hown & d' & Hd' & Ha). replace d' with d in * by congruence.
    destruct (RequestSpace_ok m held (GetBufferSize o) locked Hsim Hcost) as [(m1 & -> & Hr & Hroom & Hpin)|[-> ?]]; [left|right; unfold needs_memory; by auto].
    cbn [res_bind]. pose proof (load_update m1 locked Hr (or_intror Hs) (allocate_valid _ _ Hw Ha) Hroom) as Hfinal.
    unfold Worker_Allocate. rewrite Hd, Ha, Hpath. cbn [res_bind data_]. by eexists.
Qed.

End Loading.

(** ** New objects *)

(** A path that no object has, outside the temporary directory. *)
Definition fresh_path (m : BufferManager) (p : bytes) : Prop := buffer_map_ m !! p = None ∧ ¬ temp_dir_ m `prefix_of` p.

Lemma sim_insert m held p o d :
  sim m held → fresh_path m p → obj_rel m p o (Some d) → data_ (file_worker_ o) = None →
  buffer_status o ≠ kUnloaded → buffer_type o ≠ kTemp → sim (put m p o) (<[p := d]> held).
Proof.
  intros Hsim [Hp Hfresh] Hobj Hd Hs Ht.
  assert (Hc : buffer_status o ≠ kClean) by (destruct Hobj as (_ & _ & Hrel); intros Hc; rewrite Hc in Hrel; by destruct Hrel).
  assert (Hat : ∀ q P, ¬ P o → at_obj (put m p o) q P ↔ at_obj m q P).
  { intros q P HP. unfold at_obj. mgr. destruct (decide (q = p)) as [->|]; [|by rewrite lookup_insert_ne].
    rewrite lookup_insert_eq, Hp. naive_solver. }
  assert (Hdom : ∀ q, is_Some (buffer_map_ (put m p o) !! q) → q = p ∨ is_Some (buffer_map_ m !! q)).
  { intros q. mgr. destruct (decide (q = p)) as [->|]; [by left|]. rewrite lookup_insert_ne by done. by right. }
  constructor; try apply Hsim.
  - intros q oq. mgr. destruct (decide (q = p)) as [->|]; [rewrite !lookup_insert_eq; by intros [= <-]|].
    rewrite !lookup_insert_ne by done. intros Hq. eapply obj_rel_frame; [|by eapply sim_obj]. done.
  - intros q. mgr. intros [Hq Hne]%lookup_insert_None. rewrite lookup_insert_ne by done. by eapply sim_dom.
  - intros q [->|Hq]%Hdom; mgr; [done|]. by apply (sim_outside _ _ Hsim).
  - intros q. rewrite Hat by done. apply (sim_gc _ _ Hsim).
  - intros q. rewrite Hat by done. apply (sim_clean _ _ Hsim).
  - intros q. rewrite Hat by (by intros [? _]). apply (sim_temp _ _ Hsim).
  - intros q Hq. destruct (sim_clean_temp _ _ Hsim q Hq) as (? & Hin & ?). split; [done|]. split; [|done].
    mgr. destruct (decide (q = p)) as [->|]; [rewrite lookup_insert_eq; by eexists|by rewrite lookup_insert_ne].
  - mgr. unfold usage. rewrite total_insert, Hp. unfold mem_cost at 2. rewrite Hd. fold usage. rewrite (sim_memory _ _ Hsim). lia.
Qed.

(** ** Cleaning up *)

Lemma CleanupFile_fold l : ∀ m,
  (∀ p, p ∈ l → ∃ o, buffer_map_ m !! p = Some o ∧ buffer_status o = kClean ∧ data_ (file_worker_ o) = None ∧ file_path_ (file_worker_ o) = p) →
  ∃ fs, res_fold CleanupFile m l = Ok (with_files m fs) ∧ ∀ k, k ∉ l → fs !! k = files m !! k.
Proof.
  induction l as [|p l IH]; intros m Hl; cbn [res_fold]; [exists (files m); split; [by destruct m|done]|].
  destruct (Hl p) as (o & Hp & Hs & Hd & Hpath); [set_solver|]. unfold CleanupFile at 1, get_obj. rewrite Hp. cbn [res_bind]. rewrite Hs, Hd. cbn [res_bind].
  unfold Worker_CleanupFile, ChooseFilePath. rewrite Hpath.
  destruct (IH (with_files m (DeleteFile (files m) p))) as (fs & -> & Hfs); [intros q Hq; apply Hl; set_solver|]. exists fs. split; [done|].
  intros k Hk. apply not_elem_of_cons in Hk as [Hk1 Hk2]. rewrite Hfs by done. mgr. unfold DeleteFile. by rewrite lookup_delete_ne.
Qed.

Lemma CleanupTempFile_fold l : ∀ m,
  NoDup l → (∀ p, p ∈ l → ∃ o, buffer_map_ m !! p = Some o ∧ file_path_ (file_worker_ o) = p ∧ is_Some (files m !! (temp_dir_ m ++ p))) →
  ∃ fs, res_fold CleanupTempFile m l = Ok (with_files m fs) ∧
    ∀ k, fs !! k = files m !! k ∨ ∃ p o, p ∈ l ∧ buffer_map_ m !! p = Some o ∧ buffer_type o ≠ kTemp ∧ k = temp_dir_ m ++ p ∧ fs !! k = None.
Proof.
  induction l as [|p l IH]; intros m Hnd Hl; cbn [res_fold]; [exists (files m); split; [by destruct m|by left]|].
  apply NoDup_cons in Hnd as [Hnin Hnd]. destruct (Hl p) as (o & Hp & Hpath & [bs Hf]); [set_solver|].
  unfold CleanupTempFile at 1, get_obj. rewrite Hp. cbn [res_bind]. destruct (decide (buffer_type o = kTemp)) as [Ht|Ht].
  - rewrite Ht. cbn [res_bind]. destruct (IH m Hnd) as (fs & -> & Hfs); [intros q Hq; apply Hl; set_solver|]. exists fs. split; [done|].
    intros k. destruct (Hfs k) as [|(q & oq & Hq & Hrest)]; [by left|right]. exists q, oq. split; [set_solver|exact Hrest].
  - set (m2 := with_files m (DeleteFile (files m) (temp_dir_ m ++ p))).
    assert (Hcase : match buffer_type o with
      | kTemp => Ok m
      | _ => let? fs := Worker_CleanupTempFile (temp_dir_ m) (files m) (file_worker_ o) in Ok (with_files m fs)
      end = Ok m2).
    { unfold Worker_CleanupTempFile, ChooseFilePath. rewrite Hpath, Hf. by destruct (buffer_type o). }
    rewrite Hcase. cbn [res_bind]. destruct (IH m2 Hnd) as (fs & -> & Hfs).
    { intros q Hq. destruct (Hl q) as (oq & Hoq & Hpq & Hfq); [set_solver|]. exists oq. split; [done|]. split; [done|]. cbn. unfold DeleteFile.
      rewrite lookup_delete_ne; [done|]. intros He%app_inv_head. apply Hnin. by rewrite He. }
    exists fs. split; [done|]. intros k. destruct (Hfs k) as [Hk|(q & oq & Hq & Hrest)]; [|right; exists q, oq; split; [set_solver|exact Hrest]].
    destruct (decide (k = temp_dir_ m ++ p)) as [->|Hne].
    + right. exists p, o. split; [set_solver|]. split; [done|]. split; [done|]. split; [done|]. rewrite Hk. apply lookup_delete_eq.
    + left. rewrite Hk. cbn. unfold DeleteFile. by rewrite lookup_delete_ne.
Qed.

Lemma erase_fold l : ∀ m,
  NoDup l → (∀ p, p ∈ l → is_Some (buffer_map_ m !! p)) →
  ∃ objects, res_fold erase_object m l = Ok (with_map m objects) ∧
    (∀ q, objects !! q = if decide (q ∈ l) then None else buffer_map_ m !! q) ∧
    ((∀ p o, p ∈ l → buffer_map_ m !! p = Some o → mem_cost o = 0) → usage objects = usage (buffer_map_ m)).
Proof.
  induction l as [|p l IH]; intros m Hnd Hl; cbn [res_fold].
  { exists (buffer_map_ m). split; [by destruct m|]. split; [|done]. intros q. rewrite decide_False by apply not_elem_of_nil. done. }
  apply NoDup_cons in Hnd as [Hnin Hnd]. destruct (Hl p) as [o Hp]; [set_solver|]. unfold erase_object at 1. rewrite Hp. cbn [res_bind].
  destruct (IH (with_map m (delete p (buffer_map_ m))) Hnd) as (objects & -> & Hq & Hu).
  { intros q Hq. mgr. rewrite lookup_delete_ne by (by intros ->). apply Hl. set_solver. }
  exists objects. split; [done|]. split.
  - intros q. rewrite Hq. mgr. destruct (decide (q = p)) as [->|Hne].
    + rewrite lookup_delete_eq, (decide_True (P := p ∈ p :: l)) by set_solver. by destruct (decide _).
    + rewrite lookup_delete_ne by done. destruct (decide (q ∈ l)); [rewrite decide_True by set_solver|rewrite decide_False by set_solver]; done.
  - intros Hz. rewrite Hu.
    + mgr. unfold usage. rewrite (total_delete _ _ _ _ Hp), (Hz p o); [lia|set_solver|done].
    + intros q oq Hin. mgr. intros [_ Hoq]%lookup_delete_Some. eapply Hz; [|done]. set_solver.
Qed.

(** An object that is not in the temporary directory does not need its file there. *)
Lemma obj_rel_drop m m' p o c :
  path m' false p = path m false p → path m' true p = path m true p → files m' !! path m false p = files m !! path m false p →
  files m' !! path m true p = files m !! path m true p ∨ (files m' !! path m true p = None ∧ buffer_type o ≠ kTemp) →
  obj_rel m p o c → obj_rel m' p o c.
Proof.
  intros Hp1 Hp2 Hf Ht (Hpath & Hw & Hrel). split; [done|]. split; [done|].
  assert (Ho : own_files m p (worker_ (file_worker_ o)) → own_files m' p (worker_ (file_worker_ o))).
  { intros Hown [] bs; rewrite ?Hp1, ?Hp2; [|rewrite Hf; apply (Hown false)]. destruct Ht as [->|[-> _]]; [apply (Hown true)|done]. }
  assert (Hb : ∀ d, backed m p (worker_ (file_worker_ o)) (buffer_type o) d → backed m' p (worker_ (file_worker_ o)) (buffer_type o) d).
  { intros d. unfold backed, stored. rewrite Hp1, Hp2, Hf. destruct (buffer_type o); try done. destruct Ht as [->|[_ ?]]; done. }
  destruct (buffer_status o); naive_solver.
Qed.

Lemma RemoveClean_ok m held : sim m held → ∃ m', RemoveClean m = Ok m' ∧ sim m' held.
Proof.
  intros Hsim. unfold RemoveClean. set (l := clean_list_ m).
  assert (Hclean : ∀ p, p ∈ l → ∃ o, buffer_map_ m !! p = Some o ∧ buffer_status o = kClean ∧ data_ (file_worker_ o) = None ∧ file_path_ (file_worker_ o) = p).
  { intros p Hp. apply (sim_clean _ _ Hsim) in Hp as (o & Ho & Hs). exists o. unfold has_status in Hs.
    destruct (sim_obj _ _ Hsim p o Ho) as (Hpath & _ & Hrel). rewrite Hs in Hrel. naive_solver. }
  destruct (CleanupFile_fold l (with_clean m []) Hclean) as (fs1 & -> & Hfs1). cbn [res_bind]. mgr.
  destruct (CleanupTempFile_fold (elements (clean_temp_set_ m)) (with_temps (with_files (with_clean m []) fs1) (temp_set_ m) ∅)) as (fs2 & -> & Hfs2).
  { apply NoDup_elements. }
  { intros p Hp%elem_of_elements. destruct (sim_clean_temp _ _ Hsim p Hp) as (_ & [o Ho] & Hf). exists o. split; [done|].
    destruct (sim_obj _ _ Hsim p o Ho) as (Hpath & _). split; [done|]. mgr. rewrite Hfs1; [done|].
    intros Hin. destruct (Hclean _ Hin) as (o' & Ho' & _). by apply (sim_paths _ _ Hsim (temp_dir_ m ++ p) p). }
  cbn [res_bind]. mgr. set (m2 := with_gc _ _).
  destruct (erase_fold l m2 (sim_clean_nodup _ _ Hsim)) as (objects & -> & Hobj & Hu).
  { intros p Hp. destruct (Hclean p Hp) as (o & Ho & _). by exists o. }
  eexists. split; [reflexivity|]. change (buffer_map_ m2) with (buffer_map_ m) in *.
  assert (Hat : ∀ q P, (∀ o, P o → buffer_status o ≠ kClean) → at_obj (with_map m2 objects) q P ↔ at_obj m q P).
  { intros q P HP. unfold at_obj. mgr. rewrite Hobj. destruct (decide (q ∈ l)) as [Hin|]; [|done].
    destruct (Hclean q Hin) as (o & Ho & Hs & _). rewrite Ho. naive_solver. }
  constructor; mgr; try apply Hsim.
  - intros p o Hp. rewrite Hobj in Hp. destruct (decide (p ∈ l)) as [|Hnin]; [done|]. apply (obj_rel_drop m); try done; [| |by eapply sim_obj].
    + destruct (Hfs2 (path m false p)) as [E|(q & oq & Hq & Hoq & _ & E & _)]; [|by destruct (path_inj _ _ Hsim p q false true) as [? _]].
      change (fs2 !! path m false p = files m !! path m false p). rewrite E. apply Hfs1. done.
    + mgr. destruct (Hfs2 (path m true p)) as [E|(q & oq & Hq & Hoq & Ht & E & En)].
      * left. change (fs2 !! path m true p = files m !! path m true p). rewrite E. apply Hfs1. intros Hin. destruct (Hclean _ Hin) as (o' & Ho' & _). by apply (sim_paths _ _ Hsim (temp_dir_ m ++ p) p).
      * right. split; [done|]. apply app_inv_head in E. cbn in Hoq. subst q. congruence.
  - intros p. rewrite Hobj. destruct (decide (p ∈ l)) as [Hin|]; [|apply (sim_dom _ _ Hsim)]. intros _.
    destruct (Hclean p Hin) as (o & Ho & Hs & _). destruct (sim_obj _ _ Hsim p o Ho) as (_ & _ & Hrel). rewrite Hs in Hrel. by destruct Hrel.
  - intros p. rewrite Hobj. intros Hp. apply (sim_outside _ _ Hsim). destruct (decide (p ∈ l)); [by destruct Hp|done].
  - apply NoDup_filter, (sim_gc_nodup _ _ Hsim).
  - intros p. rewrite Hat by (unfold has_status; intros; congruence).
    change (gc_list_ m2) with (filter (fun q => q ∉ l) (gc_list_ m)). rewrite list_elem_of_filter, <- (sim_gc _ _ Hsim). split; [tauto|]. intros Hin. split; [|done].
    intros Hl. destruct (Hclean p Hl) as (o & Ho & Hs & _). apply (in_gc _ _ _ _ Hsim Ho) in Hin. congruence.
  - apply NoDup_nil_2.
  - intros p. split; [by intros ?%not_elem_of_nil|]. intros (o & Ho & Hs). cbn in Ho. rewrite Hobj in Ho. destruct (decide (p ∈ l)) as [|Hnin]; [done|].
    exfalso. apply Hnin, (sim_clean _ _ Hsim). by exists o.
  - intros p. rewrite Hat by (by intros o [_ ?]). apply (sim_temp _ _ Hsim).
  - set_solver.
  - rewrite Hu; [apply (sim_memory _ _ Hsim)|]. intros p o Hin Ho. destruct (Hclean p Hin) as (o' & Ho' & _ & Hd & _).
    unfold mem_cost. replace o with o' by congruence. by rewrite Hd.
Qed.

(** ** Clients *)

Inductive op :=
| Allocate (worker : FileWorker)
| Get (worker : FileWorker) (d : Data)   (** [d]: what the file holds *)
| LoadHandle (p : bytes) (locked : bytes → bool)
| CopyHandle (p : bytes)
| ReleaseHandle (p : bytes)
| WriteHandle (p : bytes) (d : Data)
| SaveObject (p : bytes)
| PickObject (p : bytes)
| Clean.

Definition run_op (m : BufferManager) (o : op) : result (option Data * BufferManager) :=
  match o with
  | Allocate worker => let? m := AllocateBufferObject m worker in Ok (None, m)
  | Get worker _ => Ok (None, GetBufferObject m worker)
  | LoadHandle p locked => Load m p locked
  | CopyHandle p => let? '(_, m) := Handle_copy m (Some p) in Ok (None, m)
  | ReleaseHandle p => let? m := Handle_release m (Some p) in Ok (None, m)
  | WriteHandle p d => let? m := Handle_write m p d in Ok (None, m)
  | SaveObject p => let? '(_, m) := Save m p in Ok (None, m)
  | PickObject p => let? m := PickForCleanup m p in Ok (None, m)
  | Clean => let? m := RemoveClean m in Ok (None, m)
  end.

(** The same on a map from paths to data. *)
Definition spec_op (held : gmap bytes Data) (o : op) : option Data * gmap bytes Data :=
  match o with
  | Allocate worker =>
      (None, match AllocateInMemory (worker_ worker) None with Ok d => <[file_path_ worker := d]> held | Err _ => held end)
  | Get worker d => (None, match held !! file_path_ worker with Some _ => held | None => <[file_path_ worker := d]> held end)
  | LoadHandle p _ => (held !! p, held)
  | WriteHandle p d => (None, <[p := d]> held)
  | PickObject p => (None, delete p held)
  | CopyHandle _ | ReleaseHandle _ | SaveObject _ | Clean => (None, held)
  end.

(** What clients keep to: new objects have paths of their own and no files of others; only an object
    that is loaded has handles to copy, release and write through; an object is saved after it has been
    loaded, and picked for cleanup when no handle refers to it. *)
Definition protocol (m : BufferManager) (held : gmap bytes Data) (o : op) : Prop :=
  match o with
  | Allocate worker =>
      fresh_path m (file_path_ worker) ∧ valid_worker (worker_ worker) ∧ data_ worker = None ∧ is_ok (AllocateInMemory (worker_ worker) None) ∧
      own_files m (file_path_ worker) (worker_ worker)
  | Get worker d =>
      is_Some (held !! file_path_ worker) ∨
      (fresh_path m (file_path_ worker) ∧ valid_worker (worker_ worker) ∧ data_ worker = None ∧ valid_data (worker_ worker) d ∧
       own_files m (file_path_ worker) (worker_ worker) ∧ stored (files m) (file_path_ worker) (worker_ worker) d)
  | LoadHandle p _ => is_Some (held !! p)
  | CopyHandle p | ReleaseHandle p => at_obj m p (has_status kLoaded)
  | WriteHandle p d => at_obj m p (fun o => has_status kLoaded o ∧ valid_data (worker_ (file_worker_ o)) d)
  | SaveObject p => at_obj m p (fun o => buffer_status o ≠ kNew ∧ buffer_status o ≠ kClean)
  | PickObject p => at_obj m p (fun o => buffer_status o ≠ kLoaded ∧ buffer_status o ≠ kClean)
  | Clean => True
  end.

(** Too little memory: what cannot be freed leaves no room for the object. *)
Definition out_of_memory (m : BufferManager) (o : op) : Prop :=
  match o with
  | LoadHandle p locked => at_obj m p (fun o => needs_memory o ∧ memory_limit_ m < pinned m locked + GetBufferSize o)
  | _ => False
  end.

Lemma held_obj m held p d : sim m held → held !! p = Some d → ∃ o, buffer_map_ m !! p = Some o.
Proof. intros Hsim Hd. destruct (buffer_map_ m !! p) as [o|] eqn:Hp; [by exists o|]. rewrite (sim_dom _ _ Hsim p Hp) in Hd. done. Qed.

Lemma op_ok m held o :
  sim m held → protocol m held o →
  (∃ m', run_op m o = Ok ((spec_op held o).1, m') ∧ sim m' (spec_op held o).2 ∧ ¬ out_of_memory m o) ∨ (run_op m o = Err UnrecoverableError ∧ out_of_memory m o).
Proof.
  intros Hsim Hpr. destruct o as [w|w d|p locked|p|p|p d|p|p|]; cbn [run_op spec_op protocol out_of_memory fst snd] in *.
  - left. destruct Hpr as (Hfresh & Hw & Hd & Ha & Hown). destruct (AllocateInMemory (worker_ w) None) as [d|] eqn:Hal; [|done].
    unfold AllocateBufferObject. rewrite (proj1 Hfresh). cbn [res_bind]. eexists. split; [reflexivity|]. split; [|by intros []]. apply sim_insert; try done.
    split; [done|]. split; [done|]. cbn. split_and!; try done. by exists d.
  - left. unfold GetBufferObject. destruct (held !! file_path_ w) as [d'|] eqn:Hh.
    + destruct (held_obj _ _ _ _ Hsim Hh) as [o ->]. eexists; split; [reflexivity|]; split; [done|by intros []].
    + destruct Hpr as [[]|(Hfresh & Hw & Hd & Hv & Hown & Hst)]; [done|]. rewrite (proj1 Hfresh). eexists. split; [reflexivity|]. split; [|by intros []].
      apply sim_insert; try done. split; [done|]. split; [done|]. cbn. split_and!; try done. by exists d.
  - destruct Hpr as [d Hd]. destruct (held_obj _ _ _ _ Hsim Hd) as [o Ho]. rewrite Hd.
    destruct (Load_ok m held p o d Hsim Ho Hd locked) as [(m' & ? & ? & Hroom)|(? & ? & ?)].
    + left. exists m'. split; [done|]. split; [done|]. intros (o' & Ho' & Hn & Hlt). replace o' with o in * by congruence. specialize (Hroom Hn). lia.
    + right. split; [done|]. by exists o.
  - left. destruct Hpr as (o & Ho & Hs). unfold Handle_copy. destruct (LoadInner_ok m held p o Hsim Ho Hs) as (m' & -> & ?). cbn [res_bind]. eexists; split; [reflexivity|]; split; [done|by intros []].
  - left. destruct Hpr as (o & Ho & Hs). unfold Handle_release. destruct (UnloadInner_ok m held p o Hsim Ho Hs) as (m' & -> & ?). cbn [res_bind]. eexists; split; [reflexivity|]; split; [done|by intros []].
  - left. destruct Hpr as (o & Ho & Hs & Hv). destruct (Handle_write_ok m held p o Hsim Ho d Hs Hv) as (m' & -> & ?). cbn [res_bind]. eexists; split; [reflexivity|]; split; [done|by intros []].
  - left. destruct Hpr as (o & Ho & Hn & Hc). destruct (Save_ok m held p o Hsim Ho Hn Hc) as (b & m' & -> & ?). cbn [res_bind]. eexists; split; [reflexivity|]; split; [done|by intros []].
  - left. destruct Hpr as (o & Ho & Hn & Hc). destruct (PickForCleanup_ok m held p o Hsim Ho Hn Hc) as (m' & -> & ?). cbn [res_bind]. eexists; split; [reflexivity|]; split; [done|by intros []].
  - left. destruct (RemoveClean_ok m held Hsim) as (m' & -> & ?). cbn [res_bind]. eexists; split; [reflexivity|]; split; [done|by intros []].
Qed.

(** *** Sequences of operations *)

Fixpoint run_ops (m : BufferManager) (ops : list op) : result (list (option Data) * BufferManager) :=
  match ops with
  | [] => Ok ([], m)
  | o :: ops' => let? '(out, m) := run_op m o in let? '(outs, m) := run_ops m ops' in Ok (out :: outs, m)
  end.

Fixpoint spec_ops (held : gmap bytes Data) (ops : list op) : list (option Data) * gmap bytes Data :=
  match ops with
  | [] => ([], held)
  | o :: ops' => let '(out, held) := spec_op held o in let '(outs, held) := spec_ops held ops' in (out :: outs, held)
  end.

Fixpoint follows (m : BufferManager) (held : gmap bytes Data) (ops : list op) : Prop :=
  match ops with
  | [] => True
  | o :: ops' => protocol m held o ∧ match run_op m o with Ok (_, m') => follows m' (spec_op held o).2 ops' | Err _ => True end
  end.

Lemma BufferManager_new_sim temp_dir fs : 0 ≤ limit < 2 ^ 63 → sim (BufferManager_new limit temp_dir fs) ∅.
Proof.
  intros Hl. constructor; mgr; unfold BufferManager_new; cbn; try done.
  - by intros p [].
  - apply NoDup_nil_2.
  - intros p. split; [by intros ?%not_elem_of_nil|by intros (o & ? & _)].
  - apply NoDup_nil_2.
  - intros p. split; [by intros ?%not_elem_of_nil|by intros (o & ? & _)].
  - intros p. split; [set_solver|by intros (o & ? & _)].
Qed.

Lemma run_ops_ok ops : ∀ m held outs m',
  sim m held → follows m held ops → run_ops m ops = Ok (outs, m') →
  outs = (spec_ops held ops).1 ∧ sim m' (spec_ops held ops).2.
Proof.
  induction ops as [|o ops IH]; intros m held outs m' Hsim Hf Hr; cbn [run_ops spec_ops follows] in *; [by injection Hr as <- <-|].
  destruct Hf as [Hpr Hf]. destruct (op_ok m held o Hsim Hpr) as [(m1 & He & Hsim1 & _)|[He _]]; rewrite He in *; [|done]. cbn [res_bind] in Hr.
  destruct (run_ops m1 ops) as [[outs1 m2]|] eqn:Hr1; [|done]. cbn [res_bind] in Hr. injection Hr as <- <-.
  destruct (IH m1 _ outs1 m2 Hsim1 Hf Hr1) as (-> & Hsim2). destruct (spec_op held o) as [out held1]. cbn [fst snd] in *.
  by destruct (spec_ops held1 ops).
Qed.

Lemma CheckState_ok m held p o : sim m held → buffer_map_ m !! p = Some o → CheckState o = Ok tt.
Proof.
  intros Hsim Hp. destruct (sim_obj _ _ Hsim p o Hp) as (_ & _ & Hrel). unfold CheckState. destruct (buffer_status o).
  - destruct Hrel as (? & _). by rewrite (proj2 (Z.eqb_neq _ _)) by lia.
  - destruct Hrel as (-> & _). done.
  - destruct Hrel as (_ & -> & _). done.
  - destruct Hrel as (_ & _ & ->). done.
  - destruct Hrel as (_ & -> & -> & _). done.
Qed.

(** ** Properties *)

(** C8. The buffer manager is transparent.  Clients that keep to the protocol see, in every load, what
    was last written to the object: evictions to the temporary directory, saves, moves of spilled files
    and cleanups of other objects change nothing that is held.  The memory in use is the cost of the
    objects in memory and stays within the limit, and [CheckState] accepts every object. *)
Theorem buffer_refines temp_dir fs ops outs m :
  0 ≤ limit < 2 ^ 63 → follows (BufferManager_new limit temp_dir fs) ∅ ops →
  run_ops (BufferManager_new limit temp_dir fs) ops = Ok (outs, m) →
  outs = (spec_ops ∅ ops).1 ∧ current_memory_size_ m = usage (buffer_map_ m) ∧ current_memory_size_ m ≤ limit ∧
  ∀ p o, buffer_map_ m !! p = Some o → CheckState o = Ok tt.
Proof.
  intros Hl Hf Hr. destruct (run_ops_ok ops _ _ _ _ (BufferManager_new_sim temp_dir fs Hl) Hf Hr) as [Ho Hsim].
  split; [done|]. split; [apply (sim_memory _ _ Hsim)|]. split; [rewrite <- (sim_bound _ _ Hsim); apply (sim_limit _ _ Hsim)|].
  intros p o Hp. by eapply CheckState_ok.
Qed.

(** C36. The only error of the buffer manager is the lack of memory.  After any operations of clients
    that keep to the protocol, the next one succeeds: none of the manager's assertions fails and no
    file is missing or does not fit.  A load of an object that is not in memory
    fails exactly when the objects that handles refer to and those whose lock is held leave no room
    for it within the limit. *)
Theorem buffer_errors temp_dir fs ops outs m o :
  0 ≤ limit < 2 ^ 63 → follows (BufferManager_new limit temp_dir fs) ∅ ops →
  run_ops (BufferManager_new limit temp_dir fs) ops = Ok (outs, m) → protocol m (spec_ops ∅ ops).2 o →
  (¬ out_of_memory m o → is_ok (run_op m o)) ∧ (out_of_memory m o → run_op m o = Err UnrecoverableError).
Proof.
  intros Hl Hf Hr Hp. destruct (run_ops_ok ops _ _ _ _ (BufferManager_new_sim temp_dir fs Hl) Hf Hr) as [_ Hsim].
  destruct (op_ok m _ o Hsim Hp) as [(m' & -> & _ & ?)|[-> ?]]; done.
Qed.

End BufferSpec.

(** ** Examples: two pages of 4 bytes with memory for one *)

#[local] Existing Instance Posix_full.

Definition page (path : string) : @FileWorker DataFileWorker := @mkWorker DataFileWorker 4 (str path) None.

Definition unlocked : bytes → bool := fun _ => false.

Definition two_pages : list (@op DataFileWorker) :=
  [Allocate (page "/d/a"); LoadHandle (str "/d/a") unlocked; WriteHandle (Impl := DataFileWorker) (str "/d/a") [1; 2; 3; 4]; ReleaseHandle (str "/d/a");
   Allocate (page "/d/b"); LoadHandle (str "/d/b") unlocked; ReleaseHandle (str "/d/b")].

(** The protocol as a check, for operations on pages. *)
Definition loaded (m : @BufferManager DataFileWorker) (p : bytes) : bool :=
  match buffer_map_ m !! p with Some o => bool_decide (buffer_status o = BufferStatus.kLoaded) | None => false end.

Definition protocol_check (m : @BufferManager DataFileWorker) (held : gmap bytes bytes) (o : @op DataFileWorker) : bool :=
  match o with
  | Allocate w =>
      match buffer_map_ m !! file_path_ w, data_ w, Data_AllocateInMemory (worker_ w) None, files m !! file_path_ w, files m !! (temp_dir_ m ++ file_path_ w) with
      | None, None, Ok _, None, None => bool_decide (¬ temp_dir_ m `prefix_of` file_path_ w) && (0 <? worker_ w) && (worker_ w <? 2 ^ 63)
      | _, _, _, _, _ => false
      end
  | LoadHandle p _ => bool_decide (is_Some (held !! p))
  | CopyHandle p | ReleaseHandle p => loaded m p
  | WriteHandle p d =>
      match buffer_map_ m !! p with
      | Some o => bool_decide (buffer_status o = BufferStatus.kLoaded) && (zlen (d : bytes) =? worker_ (file_worker_ o))
      | None => false
      end
  | _ => false
  end.

Lemma protocol_check_sound m held o : protocol_check m held o = true → protocol m held o.
Proof.
  assert (Hl : ∀ p, loaded m p = true → at_obj m p (has_status BufferStatus.kLoaded)).
  { intros p. unfold loaded. destruct (buffer_map_ m !! p) as [o'|] eqn:Hp; [|done]. intros Hs%bool_decide_eq_true. by exists o'. }
  destruct o as [w|w d|p locked|p|p|p d|p|p|]; cbn [protocol_check protocol]; try done; [| |exact (Hl p)|exact (Hl p)|].
  - destruct (buffer_map_ m !! file_path_ w) eqn:Hp; [done|]. destruct (data_ w) eqn:Hd; [done|].
    destruct (Data_AllocateInMemory (worker_ w) None) eqn:Ha; [|done]. destruct (files m !! file_path_ w) eqn:Hf1; [done|].
    destruct (files m !! (temp_dir_ m ++ file_path_ w)) eqn:Hf2; [done|]. intros [[Hpre%bool_decide_eq_true H0%Z.ltb_lt]%andb_prop H1%Z.ltb_lt]%andb_prop.
    split; [done|]. split; [done|]. split; [done|]. split; [change (is_ok (Data_AllocateInMemory (worker_ w) None)); by rewrite Ha|]. intros [] bs Hbs; unfold path in Hbs; congruence.
  - intros Hb%bool_decide_eq_true. done.
  - destruct (buffer_map_ m !! p) as [o'|] eqn:Hp; [|done]. intros [Hs%bool_decide_eq_true Hz%Z.eqb_eq]%andb_prop. by exists o'.
Qed.

Fixpoint follows_check (m : @BufferManager DataFileWorker) (held : gmap bytes bytes) (ops : list (@op DataFileWorker)) : bool :=
  match ops with
  | [] => true
  | o :: ops' => protocol_check m held o && match run_op m o with Ok (_, m') => follows_check m' (spec_op held o).2 ops' | Err _ => false end
  end.

Lemma follows_check_sound ops : ∀ m held, follows_check m held ops = true → follows m held ops ∧ is_ok (run_ops m ops).
Proof.
  induction ops as [|o ops IH]; intros m held H; [done|]. cbn [follows_check follows run_ops] in *. apply andb_prop in H as [Hp H].
  destruct (run_op m o) as [[out m']|]; [|done]. destruct (IH _ _ H) as [Hf Hr]. cbn [res_bind]. split; [split; [by apply protocol_check_sound|done]|].
  by destruct (run_ops m' ops) as [[? ?]|].
Qed.

Lemma buffer_refines_witness :
  ∃ outs m, run_ops (BufferManager_new 4 (str "/t") ∅) (two_pages ++ [LoadHandle (str "/d/a") unlocked]) = Ok (outs, m) ∧
    last outs = Some (Some [1; 2; 3; 4]) ∧ current_memory_size_ m ≤ 4.
Proof.
  assert (Hc : follows_check (BufferManager_new 4 (str "/t") ∅) ∅ (two_pages ++ [LoadHandle (str "/d/a") unlocked]) = true) by (vm_compute; reflexivity).
  apply follows_check_sound in Hc as [Hf Hok].
  destruct (run_ops (BufferManager_new 4 (str "/t") ∅) (two_pages ++ [LoadHandle (str "/d/a") unlocked])) as [[outs m]|] eqn:Hr; [|destruct Hok].
  exists outs, m. split; [reflexivity|].
  destruct (buffer_refines 4 (str "/t") ∅ _ outs m ltac:(lia) Hf Hr) as (-> & _ & Hle & _). split; [vm_compute; reflexivity|exact Hle].
Defined.

(** Loading the first page again while the second one is in use. *)
Lemma buffer_errors_witness :
  ∃ outs m, run_ops (BufferManager_new 4 (str "/t") ∅) (take 6 two_pages) = Ok (outs, m) ∧
    (¬ out_of_memory m (LoadHandle (str "/d/a") unlocked) → is_ok (run_op m (LoadHandle (str "/d/a") unlocked))).
Proof.
  assert (Hc : follows_check (BufferManager_new 4 (str "/t") ∅) ∅ (take 6 two_pages) = true) by (vm_compute; reflexivity).
  apply follows_check_sound in Hc as [Hf Hok].
  destruct (run_ops (BufferManager_new 4 (str "/t") ∅) (take 6 two_pages)) as [[outs m]|] eqn:Hr; [|destruct Hok].
  exists outs, m. split; [reflexivity|].
  apply (buffer_errors 4 (str "/t") ∅ _ outs m (LoadHandle (str "/d/a") unlocked) ltac:(lia) Hf Hr).
  apply (bool_decide_unpack _). vm_compute. exact I.
Defined.
