(* ===== verification/BlockEntry.v ===== *)
(** * Blocks

    [BlockEntry] of [src/src/storage/meta/entry/block_entry.cpp]: appending and deleting rows on
    behalf of a transaction, committing, and the rows a reader sees at a timestamp.  [version_] is
    what the buffer object [block_version_] holds in memory.  The columns are behind an interface
    ([ColumnStore]). *)

From Stdlib Require Import ZArith Lia List.
From stdpp Require Import base list numbers gmap sets sorting strings.
From S2P Require Import Prelude Bytes Bitmask FileIO BlockVersion.
Local Open Scope Z_scope.

Definition UNCOMMIT_TS : Z := 2 ^ 64 - 1.
Definition DEFAULT_BLOCK_CAPACITY : Z := 8192.

(** What [BlockColumnEntry::Append] does with [n] rows of a vector from [offset] on. *)
Class ColumnStore := {
  Column : Type;
  Vector : Type;
  Column_Append : Column → Vector → Z → Z → result Column;
}.

Section BlockEntry.
Context `{!ColumnStore}.

Record BlockEntry := mkBlock {
  block_id_ : Z;
  block_row_count_ : Z;
  row_capacity_ : Z;
  version_ : BlockVersion;
  columns_ : list Column;
  min_row_ts_ : Z;
  max_row_ts_ : Z;
  checkpoint_ts_ : Z;
  checkpoint_row_count_ : Z;
  using_txn_id_ : Z;
  commit_ts_ : Z;
}.

Definition NewBlockEntry (block_id : Z) (columns : list Column) : BlockEntry :=
  mkBlock block_id 0 DEFAULT_BLOCK_CAPACITY (BlockVersion_new DEFAULT_BLOCK_CAPACITY) columns UNCOMMIT_TS 0 0 0 0 UNCOMMIT_TS.

(** Another transaction is changing the block. *)
Definition in_use (this : BlockEntry) (txn_id : Z) : bool :=
  negb (using_txn_id_ this =? 0) && negb (using_txn_id_ this =? txn_id).

Definition set_rows (this : BlockEntry) (txn_id row_count : Z) (version : BlockVersion) (columns : list Column) : BlockEntry :=
  mkBlock (block_id_ this) row_count (row_capacity_ this) version columns (min_row_ts_ this) (max_row_ts_ this)
    (checkpoint_ts_ this) (checkpoint_row_count_ this) txn_id (commit_ts_ this).

Fixpoint append_columns (columns : list Column) (column_vectors : list Vector) (offset rows : Z) : result (list Column) :=
  match columns with
  | [] => Ok []
  | column :: columns' =>
      match column_vectors with
      | [] => Err OutOfBounds
      | vector :: vectors' =>
          let? column := Column_Append column vector offset rows in
          let? columns' := append_columns columns' vectors' offset rows in
          Ok (column :: columns')
      end
  end.

(** The number of rows taken, and the block. *)
Definition AppendData (this : BlockEntry) (txn_id commit_ts : Z) (column_vectors : list Vector) (input_block_offset append_rows : Z)
    : result (Z * BlockEntry) :=
  if in_use this txn_id then Err UnrecoverableError
  else
    let actual_copied :=
      if row_capacity_ this <? block_row_count_ this + append_rows
      then cast u16 (row_capacity_ this - block_row_count_ this) else append_rows in
    let? columns := append_columns (columns_ this) column_vectors input_block_offset actual_copied in
    let row_count := cast u16 (block_row_count_ this + actual_copied) in
    let version := mkVersion (created_ (version_ this) ++ [mkCreateField commit_ts row_count]) (deleted_ (version_ this)) in
    Ok (actual_copied, set_rows this txn_id row_count version columns).

Definition delete_row (commit_ts : Z) (deleted : list Z) (block_offset : Z) : result (list Z) :=
  let? d := array_at deleted block_offset in
  if negb (d =? 0) then Err UnrecoverableError else Ok (<[Z.to_nat block_offset := commit_ts]> deleted).

Definition DeleteData (this : BlockEntry) (txn_id commit_ts : Z) (rows : list Z) : result (Z * BlockEntry) :=
  if in_use this txn_id then Err UnrecoverableError
  else
    let? deleted := res_fold (delete_row commit_ts) (deleted_ (version_ this)) rows in
    Ok (zlen rows, set_rows this txn_id (block_row_count_ this) (mkVersion (created_ (version_ this)) deleted) (columns_ this)).

Definition CommitBlock (this : BlockEntry) (txn_id commit_ts : Z) : result BlockEntry :=
  if in_use this txn_id then Err UnrecoverableError
  else if commit_ts <? max_row_ts_ this then Err UnrecoverableError
  else
    Ok (mkBlock (block_id_ this) (block_row_count_ this) (row_capacity_ this) (version_ this) (columns_ this)
          (Z.min (min_row_ts_ this) commit_ts) commit_ts (checkpoint_ts_ this) (checkpoint_row_count_ this) 0
          (if commit_ts_ this =? UNCOMMIT_TS then commit_ts else commit_ts_ this)).

Definition GetAvailableCapacity (this : BlockEntry) : Z := row_capacity_ this - block_row_count_ this.

(** ** What a reader sees *)

Definition row_count (this : BlockEntry) (check_ts : Z) : Z :=
  if max_row_ts_ this <=? check_ts then block_row_count_ this
  else cast u64 (GetRowCount (version_ this) check_ts).

(** [deleted[i] != 0 && deleted[i] <= begin_ts] *)
Definition is_deleted (deleted : list Z) (begin_ts i : Z) : result bool :=
  let? d := array_at deleted i in Ok (negb (d =? 0) && (d <=? begin_ts)).

(** The first row from [i] on, before [i + n], that is deleted ([stop = true]) or not
    ([stop = false]); [i + n] without one. *)
Fixpoint scan_deleted (deleted : list Z) (begin_ts : Z) (stop : bool) (n : nat) (i : Z) : result Z :=
  match n with
  | O => Ok i
  | S n' =>
      let? d := is_deleted deleted begin_ts i in
      if Bool.eqb d stop then Ok i else scan_deleted deleted begin_ts stop n' (i + 1)
  end.

Definition GetVisibleRange (this : BlockEntry) (begin_ts block_offset_begin : Z) : result (Z * Z) :=
  let begin_ts := Z.min begin_ts (max_row_ts_ this) in
  let deleted := deleted_ (version_ this) in
  let block_offset_end := cast u16 (GetRowCount (version_ this) begin_ts) in
  let? block_offset_begin := scan_deleted deleted begin_ts false (Z.to_nat (block_offset_end - block_offset_begin)) block_offset_begin in
  let? row_idx := scan_deleted deleted begin_ts true (Z.to_nat (block_offset_end - block_offset_begin)) block_offset_begin in
  Ok (block_offset_begin, row_idx).

Definition CheckRowVisible (this : BlockEntry) (block_offset check_ts : Z) (check_append : bool) : result bool :=
  if check_append && (GetRowCount (version_ this) check_ts <=? block_offset) then Ok false
  else
    let? d := array_at (deleted_ (version_ this)) block_offset in
    Ok ((d =? 0) || (check_ts <? d)).

(** [for (offset = from; offset < to; ++offset) bitmask.SetFalse(offset)]; [n] is [to - from]. *)
Fixpoint set_false_rows (h : heap) (bitmask : Bitmask) (from : Z) (n : nat) : result (Bitmask * heap) :=
  match n with
  | O => Ok (bitmask, h)
  | S n' => let? '(bitmask, h) := SetFalse h bitmask from in set_false_rows h bitmask (from + 1) n'
  end.

(** The [while (true)] loop: the offset reached, the mask. *)
Fixpoint delete_mask_loop (fuel : nat) (this : BlockEntry) (query_ts : Z) (h : heap) (bitmask : Bitmask) (read_offset : Z)
    : result (Z * Bitmask * heap) :=
  match fuel with
  | O => Err OutOfFuel
  | S fuel' =>
      let? '(row_begin, row_end) := GetVisibleRange this query_ts read_offset in
      if row_begin =? row_end then Ok (read_offset, bitmask, h)
      else
        let? '(bitmask, h) := set_false_rows h bitmask read_offset (Z.to_nat (row_begin - read_offset)) in
        delete_mask_loop fuel' this query_ts h bitmask row_end
  end.

(** A round of the loop reads past at least one row, and a block has fewer than 65536. *)
Definition SetDeleteBitmask (this : BlockEntry) (query_ts : Z) (h : heap) (bitmask : Bitmask) : result (Bitmask * heap) :=
  let? '(read_offset, bitmask, h) := delete_mask_loop (Z.to_nat 65537) this query_ts h bitmask 0 in
  set_false_rows h bitmask read_offset (Z.to_nat (block_row_count_ this - read_offset)).

Definition GetCreateTSVector (this : BlockEntry) (offset size : Z) : list Z := GetCreateTS (version_ this) offset size.

Fixpoint delete_ts_loop (deleted : list Z) (i : Z) (n : nat) : result (list Z) :=
  match n with
  | O => Ok []
  | S n' => let? d := array_at deleted i in let? l := delete_ts_loop deleted (i + 1) n' in Ok (d :: l)
  end.

Definition GetDeleteTSVector (this : BlockEntry) (offset size : Z) : result (list Z) :=
  delete_ts_loop (deleted_ (version_ this)) offset (Z.to_nat size).

(** ** The rows of a block, abstractly *)

Inductive row_op := RowAppend (n : Z) | RowDelete (rows : list Z).

(** How many rows there are, and which of them are deleted. *)
Record Rows := mkRows { total : Z; dead : gset Z }.

Definition apply_op (capacity : Z) (s : Rows) (op : row_op) : Rows :=
  match op with
  | RowAppend n => mkRows (total s + Z.min n (capacity - total s)) (dead s)
  | RowDelete rows => mkRows (total s) (list_to_set rows ∪ dead s)
  end.

(** Only rows that are there and not deleted yet are deleted. *)
Definition valid_op (s : Rows) (op : row_op) : Prop :=
  match op with
  | RowAppend n => 0 ≤ n < 65536
  | RowDelete rows => NoDup rows ∧ Forall (fun r => 0 ≤ r < total s ∧ r ∉ dead s) rows
  end.

(** Operations with the commit timestamps of their transactions; the rows after those up to [ts]. *)
Notation event := (Z * row_op)%type.

Definition rows_at (capacity ts : Z) (events : list event) : Rows :=
  fold_left (apply_op capacity) (map snd (filter (fun e => e.1 ≤ ts) events)) (mkRows 0 ∅).

(** A row that is there and not deleted. *)
Definition alive (s : Rows) (r : Z) : bool := (0 <=? r) && (r <? total s) && bool_decide (r ∉ dead s).

Lemma rows_at_snoc capacity ts events c op :
  rows_at capacity ts (events ++ [(c, op)]) =
  if decide (c ≤ ts) then apply_op capacity (rows_at capacity ts events) op else rows_at capacity ts events.
Proof.
  unfold rows_at. rewrite filter_app. destruct (decide (c ≤ ts)).
  - rewrite filter_cons_True by done. simpl. by rewrite map_app, fold_left_app.
  - rewrite filter_cons_False by done. simpl. by rewrite app_nil_r.
Qed.

Lemma rows_at_after capacity ts ts' events :
  Forall (fun e => e.1 ≤ ts) events → ts ≤ ts' → rows_at capacity ts' events = rows_at capacity ts events.
Proof.
  intros He Hts. unfold rows_at. rewrite !filter_all; [done| |]; [done|].
  eapply Forall_impl; [exact He|]. simpl. intros. lia.
Qed.

(** ** The invariant of a block

    [events] happened to the block, none of them after [bound]. *)
Record block_inv (b : BlockEntry) (events : list event) (bound : Z) : Prop := {
  inv_capacity : 0 < row_capacity_ b < 65536;
  inv_bound : Forall (fun e => 0 < e.1 ≤ bound) events;
  inv_rows : block_row_count_ b = total (rows_at (row_capacity_ b) bound events);
  inv_total : 0 ≤ block_row_count_ b ≤ row_capacity_ b;
  inv_range : ∀ ts, 0 ≤ total (rows_at (row_capacity_ b) ts events) ≤ block_row_count_ b;
  inv_length : zlen (deleted_ (version_ b)) = row_capacity_ b;
  inv_sorted : sorted_created (created_ (version_ b));
  inv_created : Forall (fun f => create_ts_ f ≤ bound) (created_ (version_ b));
  inv_count : ∀ ts, GetRowCount (version_ b) ts = total (rows_at (row_capacity_ b) ts events);
  inv_dead : ∀ r d, deleted_ (version_ b) !! r = Some d → 0 ≤ d ≤ Z.max 0 bound ∧
    ∀ ts, (d ≠ 0 ∧ d ≤ ts) ↔ Z.of_nat r ∈ dead (rows_at (row_capacity_ b) ts events);
}.

Lemma inv_events b events bound : block_inv b events bound → Forall (fun e => e.1 ≤ bound) events.
Proof. intros Hi. eapply Forall_impl; [apply (inv_bound _ _ _ Hi)|]. simpl. intros. lia. Qed.

Lemma inv_new block_id columns : block_inv (NewBlockEntry block_id columns) [] 0.
Proof.
  unfold NewBlockEntry, DEFAULT_BLOCK_CAPACITY. constructor; cbn [row_capacity_ block_row_count_ version_]; try done.
  - by constructor.
  - intros r d. unfold BlockVersion_new. cbn [deleted_]. rewrite lookup_replicate. intros [-> _].
    split; [lia|]. intros ts. unfold rows_at. simpl. set_solver.
Qed.

(** A version that changes nothing for readers before [c], when [c] is not before [bound]. *)
Lemma rows_at_now b events bound ts :
  block_inv b events bound → bound ≤ ts → rows_at (row_capacity_ b) ts events = rows_at (row_capacity_ b) bound events.
Proof. intros Hi Hts. apply rows_at_after; [by eapply inv_events|done]. Qed.

Lemma upto_snoc ts l c n : upto ts (l ++ [mkCreateField c n]) = if decide (c ≤ ts) then upto ts l ++ [mkCreateField c n] else upto ts l.
Proof.
  unfold upto. rewrite filter_app. destruct (decide (c ≤ ts)).
  - by rewrite filter_cons_True by done.
  - by rewrite filter_cons_False, app_nil_r by done.
Qed.

Lemma sorted_snoc l c n :
  sorted_created l → Forall (fun f => create_ts_ f ≤ c) l → sorted_created (l ++ [mkCreateField c n]).
Proof.
  intros Hs Hf. apply StronglySorted_app_2; [|done|by repeat constructor].
  intros x1 x2 H1 H2. apply list_elem_of_singleton in H2 as ->. rewrite Forall_forall in Hf. by apply Hf.
Qed.

Lemma cast_u16 z : 0 ≤ z < 65536 → cast u16 z = z.
Proof. intros. apply cast_id. solve_range. Qed.

Lemma bound_snoc events bound c op :
  Forall (fun e : event => 0 < e.1 ≤ bound) events → bound ≤ c → 0 < c →
  Forall (fun e : event => 0 < e.1 ≤ c) (events ++ [(c, op)]).
Proof.
  intros He Hc Hp. apply Forall_app. split; [|constructor; [simpl; lia|done]].
  eapply Forall_impl; [exact He|]. simpl. intros. lia.
Qed.

(** *** Appending *)

Lemma append_inv b events bound txn c vectors offset n columns :
  block_inv b events bound → bound ≤ c → 0 < c → 0 ≤ n < 65536 → in_use b txn = false →
  let m := Z.min n (row_capacity_ b - block_row_count_ b) in
  append_columns (columns_ b) vectors offset m = Ok columns →
  ∃ b', AppendData b txn c vectors offset n = Ok (m, b') ∧ block_inv b' (events ++ [(c, RowAppend n)]) c ∧
    b' = set_rows b txn (block_row_count_ b + m)
           (mkVersion (created_ (version_ b) ++ [mkCreateField c (block_row_count_ b + m)]) (deleted_ (version_ b))) columns.
Proof.
  intros Hi Hc Hp Hn Hu m Hcols. pose proof (inv_capacity _ _ _ Hi). pose proof (inv_total _ _ _ Hi).
  unfold AppendData. rewrite Hu.
  assert (Hm : (if row_capacity_ b <? block_row_count_ b + n then cast u16 (row_capacity_ b - block_row_count_ b) else n) = m).
  { subst m. destruct (Z.ltb_spec (row_capacity_ b) (block_row_count_ b + n)); [rewrite cast_u16 by lia|]; lia. }
  rewrite Hm, Hcols. cbn [res_bind]. rewrite cast_u16 by lia. eexists. split; [reflexivity|]. split; [|done].
  assert (Hnow : ∀ ts, c ≤ ts → rows_at (row_capacity_ b) ts events = rows_at (row_capacity_ b) bound events).
  { intros. apply (rows_at_now b); [done|lia]. }
  pose proof (inv_rows _ _ _ Hi) as Hrows.
  assert (Hs : sorted_created (created_ (version_ b) ++ [mkCreateField c (block_row_count_ b + m)])).
  { apply sorted_snoc; [apply Hi|]. eapply Forall_impl; [apply Hi|]. simpl. intros. lia. }
  constructor; cbn [set_rows row_capacity_ block_row_count_ version_ created_ deleted_]; try apply Hi.
  - by apply (bound_snoc _ bound); [apply Hi| |].
  - rewrite rows_at_snoc, decide_True, Hnow by done. cbn [apply_op total]. lia.
  - lia.
  - intros ts. pose proof (inv_range _ _ _ Hi ts). rewrite rows_at_snoc. destruct (decide (c ≤ ts)); [|lia].
    rewrite Hnow by done. cbn [apply_op total]. lia.
  - done.
  - apply Forall_app. split; [|by repeat constructor]. eapply Forall_impl; [apply Hi|]. simpl. intros. lia.
  - intros ts. rewrite GetRowCount_last by done. cbn [created_]. rewrite upto_snoc, rows_at_snoc.
    destruct (decide (c ≤ ts)).
    + rewrite last_snoc, Hnow by done. cbn [row_count_ apply_op total]. rewrite cast_id by solve_range. lia.
    + rewrite <- (inv_count _ _ _ Hi ts), GetRowCount_last by apply Hi. done.
  - intros r d Hd. destruct (inv_dead _ _ _ Hi r d Hd) as [Hr Hts]. split; [lia|]. intros ts. rewrite Hts, rows_at_snoc.
    by destruct (decide (c ≤ ts)).
Qed.

(** *** Deleting *)

Lemma array_at_nat {A} (l : list A) r x : 0 ≤ r → l !! Z.to_nat r = Some x → array_at l r = Ok x.
Proof. intros Hr Hx. unfold array_at. by rewrite decide_True, Hx by done. Qed.

Lemma delete_rows_spec c rows : ∀ dl,
  NoDup rows → Forall (fun r => 0 ≤ r ∧ dl !! Z.to_nat r = Some 0) rows →
  ∃ dl', res_fold (delete_row c) dl rows = Ok dl' ∧ length dl' = length dl ∧
    ∀ i d, dl' !! i = Some d ↔ (Z.of_nat i ∈ rows ∧ d = c) ∨ (Z.of_nat i ∉ rows ∧ dl !! i = Some d).
Proof.
  induction rows as [|r rows IH]; intros dl Hnd Hz.
  - exists dl. split; [done|]. split; [done|]. intros i d. set_solver.
  - apply NoDup_cons in Hnd as [Hr Hnd]. apply Forall_cons in Hz as [[Hr0 Hz] Hrest].
    cbn [res_fold]. unfold delete_row at 1. rewrite (array_at_nat _ _ _ Hr0 Hz). cbn [res_bind].
    assert (Hlt : (Z.to_nat r < length dl)%nat) by (by eapply lookup_lt_Some).
    destruct (IH (<[Z.to_nat r := c]> dl) Hnd) as (dl' & He & Hl & Hspec).
    { rewrite Forall_forall in Hrest |- *. intros r' Hr'. destruct (Hrest r' Hr') as [? ?]. split; [done|].
      rewrite list_lookup_insert_ne; [done|]. intros Heq. assert (r = r') by lia. by subst. }
    exists dl'. split; [done|]. split; [by rewrite Hl, length_insert|]. intros i d. rewrite Hspec, elem_of_cons.
    destruct (decide (i = Z.to_nat r)) as [->|Hne].
    + rewrite list_lookup_insert_eq, Z2Nat.id by done. split.
      * intros [[? ?]|[? [= ->]]]; [done|]. left. split; [by left|done].
      * intros [[_ ->]|[Hn _]]; [|exfalso; apply Hn; by left]. right. by split.
    + rewrite list_lookup_insert_ne by done. assert (Z.of_nat i ≠ r) by lia. split.
      * intros [[? ?]|[? ?]]; [left; split; [by right|done]|]. right. split; [|done]. intros [?|?]; done.
      * intros [[[?|?] ?]|[Hn ?]]; [done|left; done|]. right. split; [|done]. intros ?. apply Hn. by right.
Qed.

Lemma delete_inv b events bound txn c rows :
  block_inv b events bound → bound ≤ c → 0 < c → in_use b txn = false →
  valid_op (rows_at (row_capacity_ b) bound events) (RowDelete rows) →
  ∃ b', DeleteData b txn c rows = Ok (zlen rows, b') ∧ block_inv b' (events ++ [(c, RowDelete rows)]) c ∧
    ∃ dl, b' = set_rows b txn (block_row_count_ b) (mkVersion (created_ (version_ b)) dl) (columns_ b).
Proof.
  intros Hi Hc Hp Hu [Hnd Hv]. pose proof (inv_capacity _ _ _ Hi). pose proof (inv_total _ _ _ Hi) as Htot.
  rewrite <- (inv_rows _ _ _ Hi) in Hv.
  assert (Hz : Forall (fun r => 0 ≤ r ∧ deleted_ (version_ b) !! Z.to_nat r = Some 0) rows).
  { eapply Forall_impl; [exact Hv|]. intros r [Hr Hd]. split; [lia|].
    destruct (lookup_lt_is_Some_2 (deleted_ (version_ b)) (Z.to_nat r)) as [d Hd'].
    { pose proof (inv_length _ _ _ Hi). unfold zlen in *. lia. }
    destruct (inv_dead _ _ _ Hi _ _ Hd') as [Hdb Hdead]. rewrite Z2Nat.id in Hdead by lia.
    destruct (decide (d = 0)) as [->|Hnz]; [done|]. exfalso. apply Hd, Hdead. split; [done|].
    assert (Z.max 0 bound = bound); lia. }
  destruct (delete_rows_spec c rows _ Hnd Hz) as (dl & He & Hl & Hspec).
  unfold DeleteData. rewrite Hu, He. cbn [res_bind]. eexists. split; [reflexivity|]. split; [|by exists dl].
  assert (Hnow : ∀ ts, c ≤ ts → rows_at (row_capacity_ b) ts events = rows_at (row_capacity_ b) bound events).
  { intros. apply (rows_at_now b); [done|lia]. }
  constructor; cbn [set_rows row_capacity_ block_row_count_ version_ created_ deleted_]; try apply Hi.
  - by apply (bound_snoc _ bound); [apply Hi| |].
  - rewrite rows_at_snoc, decide_True, Hnow by done. apply Hi.
  - intros ts. pose proof (inv_range _ _ _ Hi ts). rewrite rows_at_snoc. by destruct (decide (c ≤ ts)).
  - unfold zlen. rewrite Hl. apply Hi.
  - eapply Forall_impl; [apply Hi|]. simpl. intros. lia.
  - intros ts. unfold GetRowCount. cbn [created_]. fold (GetRowCount (version_ b) ts). rewrite (inv_count _ _ _ Hi), rows_at_snoc.
    by destruct (decide (c ≤ ts)).
  - intros r d Hd. apply Hspec in Hd as [[Hr ->]|[Hr Hd]].
    + split; [lia|]. intros ts. rewrite rows_at_snoc. destruct (decide (c ≤ ts)) as [Hts|Hts].
      * cbn [apply_op dead]. set_solver by lia.
      * split; [lia|]. intros Hdead. exfalso.
        rewrite Forall_forall in Hz. destruct (Hz _ Hr) as [_ Hzr]. rewrite Nat2Z.id in Hzr.
        destruct (inv_dead _ _ _ Hi _ _ Hzr) as [_ Hd]. by apply Hd in Hdead as [? _].
    + destruct (inv_dead _ _ _ Hi r d Hd) as [Hrange Hts]. split; [lia|]. intros ts. rewrite Hts, rows_at_snoc.
      destruct (decide (c ≤ ts)); [|done]. cbn [apply_op dead]. rewrite elem_of_union, elem_of_list_to_set. tauto.
Qed.

(** *** Committing *)

Lemma inv_later b events bound c : block_inv b events bound → bound ≤ c → block_inv b events c.
Proof.
  intros Hi Hc. constructor; try apply Hi.
  - eapply Forall_impl; [apply Hi|]. simpl. intros. lia.
  - rewrite (inv_rows _ _ _ Hi). symmetry. f_equal. by apply (rows_at_now b).
  - eapply Forall_impl; [apply Hi|]. simpl. intros. lia.
  - intros r d Hd. destruct (inv_dead _ _ _ Hi r d Hd) as [? ?]. split; [lia|done].
Qed.

Lemma commit_inv b events bound txn c :
  block_inv b events bound → bound ≤ c → in_use b txn = false → max_row_ts_ b ≤ c →
  ∃ b', CommitBlock b txn c = Ok b' ∧ block_inv b' events c ∧ using_txn_id_ b' = 0 ∧ max_row_ts_ b' = c ∧
    row_capacity_ b' = row_capacity_ b ∧ columns_ b' = columns_ b ∧ version_ b' = version_ b.
Proof.
  intros Hi Hc Hu Hm. unfold CommitBlock. rewrite Hu, (proj2 (Z.ltb_ge _ _)) by done.
  eexists. split; [reflexivity|]. split; [|done].
  pose proof (inv_later b events bound c Hi Hc) as Hl. by constructor; apply Hl.
Qed.

(** ** Reading *)

Section Reading.
Context (b : BlockEntry) (events : list event) (bound : Z).
Hypothesis Hinv : block_inv b events bound.

Notation at_ts ts := (rows_at (row_capacity_ b) ts events).

Lemma deleted_row ts r : 0 ≤ r < row_capacity_ b →
  ∃ d, array_at (deleted_ (version_ b)) r = Ok d ∧ (negb (d =? 0) && (d <=? ts) = bool_decide (r ∈ dead (at_ts ts))).
Proof using Hinv.
  intros Hr. destruct (lookup_lt_is_Some_2 (deleted_ (version_ b)) (Z.to_nat r)) as [d Hd].
  { pose proof (inv_length _ _ _ Hinv). unfold zlen in *. lia. }
  exists d. split; [apply array_at_nat; [lia|done]|]. destruct (inv_dead _ _ _ Hinv _ _ Hd) as [_ Hdead].
  rewrite Z2Nat.id in Hdead by lia. specialize (Hdead ts).
  case_bool_decide as Hb; [apply Hdead in Hb; lia|].
  destruct (Z.eqb_spec d 0); [done|]. destruct (Z.leb_spec d ts); [|done]. exfalso. apply Hb, Hdead. lia.
Qed.

Lemma alive_row s r : 0 ≤ r < total s → alive s r = negb (bool_decide (r ∈ dead s)).
Proof using.
  intros Hr. unfold alive. rewrite (proj2 (Z.leb_le _ _)), (proj2 (Z.ltb_lt _ _)) by lia. simpl.
  by rewrite bool_decide_not.
Qed.

Lemma not_alive_beyond s r : total s ≤ r → alive s r = false.
Proof using. intros. unfold alive. rewrite (proj2 (Z.ltb_ge _ _)) by lia. by rewrite andb_false_r. Qed.

Lemma CheckRowVisible_alive ts r :
  0 ≤ r < row_capacity_ b → CheckRowVisible b r ts true = Ok (alive (at_ts ts) r).
Proof using Hinv.
  intros Hr. unfold CheckRowVisible. rewrite (inv_count _ _ _ Hinv). cbn [andb].
  destruct (Z.leb_spec (total (at_ts ts)) r); [by rewrite not_alive_beyond|].
  destruct (deleted_row ts r Hr) as (d & -> & Hd). cbn [res_bind]. rewrite alive_row, <- Hd by lia.
  f_equal. rewrite negb_andb, negb_involutive. f_equal. lia.
Qed.

Lemma row_count_total ts : bound ≤ max_row_ts_ b → row_count b ts = total (at_ts ts).
Proof using Hinv.
  intros Hm. unfold row_count. pose proof (inv_range _ _ _ Hinv ts). pose proof (inv_capacity _ _ _ Hinv). pose proof (inv_total _ _ _ Hinv).
  destruct (Z.leb_spec (max_row_ts_ b) ts).
  - rewrite (inv_rows _ _ _ Hinv). f_equal. symmetry. apply (rows_at_now b); [done|lia].
  - rewrite (inv_count _ _ _ Hinv). apply cast_id. solve_range.
Qed.

(** The scan stops at the first row that is deleted, or not. *)
Lemma scan_deleted_spec ts stop n : ∀ i, 0 ≤ i → i + Z.of_nat n ≤ row_capacity_ b →
  ∃ j, scan_deleted (deleted_ (version_ b)) ts stop n i = Ok j ∧ i ≤ j ≤ i + Z.of_nat n ∧
    (∀ k, i ≤ k < j → bool_decide (k ∈ dead (at_ts ts)) = negb stop) ∧
    (j < i + Z.of_nat n → bool_decide (j ∈ dead (at_ts ts)) = stop).
Proof using Hinv.
  induction n as [|n IH]; intros i Hi Hn; cbn [scan_deleted].
  - exists i. split; [done|]. split; [lia|]. split; intros; lia.
  - unfold is_deleted. destruct (deleted_row ts i) as (d & -> & Hd); [lia|]. cbn [res_bind]. rewrite Hd.
    destruct (Bool.eqb_spec (bool_decide (i ∈ dead (at_ts ts))) stop) as [He|He].
    + exists i. split; [done|]. split; [lia|]. split; [intros; lia|done].
    + destruct (IH (i + 1)) as (j & Hj & Hr & Hb & Ha); [lia|lia|]. exists j. split; [done|]. split; [lia|].
      split; [|intros; apply Ha; lia]. intros k Hk. destruct (decide (k = i)) as [->|]; [|apply Hb; lia].
      destruct (bool_decide _), stop; done.
Qed.

(** A visible range from [i] on: rows before it are not alive, the rows in it are; without one, no
    row is alive from [i] on. *)
Lemma GetVisibleRange_spec ts i :
  0 ≤ i → let s := at_ts (Z.min ts (max_row_ts_ b)) in
  ∃ j k, GetVisibleRange b ts i = Ok (j, k) ∧ i ≤ j ≤ k ∧ k ≤ Z.max i (total s) ∧
    (∀ r, i ≤ r < j → alive s r = false) ∧ (∀ r, j ≤ r < k → alive s r = true) ∧
    (j = k → ∀ r, i ≤ r → alive s r = false) ∧ alive s k = false.
Proof using Hinv.
  intros Hi s. unfold GetVisibleRange. set (ts' := Z.min ts (max_row_ts_ b)) in *. rewrite (inv_count _ _ _ Hinv).
  pose proof (inv_range _ _ _ Hinv ts') as Hr. pose proof (inv_capacity _ _ _ Hinv). pose proof (inv_total _ _ _ Hinv). fold s in Hr |- *.
  rewrite cast_u16 by lia. destruct (Z.le_gt_cases (total s) i) as [Hge|Hlt].
  - rewrite Z2Nat.nonpos by lia. cbn [scan_deleted res_bind]. rewrite Z2Nat.nonpos by lia. cbn [scan_deleted res_bind].
    exists i, i. split; [done|]. split; [lia|]. split; [lia|]. split; [intros; lia|]. split; [intros; lia|].
    split; [intros _ r Hr'|]; apply not_alive_beyond; lia.
  - destruct (scan_deleted_spec ts' false (Z.to_nat (total s - i)) i) as (j & -> & Hj & Hb & Ha); [lia|lia|].
    rewrite Z2Nat.id in Hj, Ha by lia. cbn [res_bind].
    destruct (scan_deleted_spec ts' true (Z.to_nat (total s - j)) j) as (k & -> & Hk & Hb' & Ha'); [lia|lia|].
    rewrite Z2Nat.id in Hk, Ha' by lia. cbn [res_bind]. fold s in Hb, Ha, Hb', Ha'.
    exists j, k. split; [done|]. split; [lia|]. split; [lia|]. split; [|split; [|split]].
    + intros r Hr'. rewrite alive_row, Hb by lia. done.
    + intros r Hr'. rewrite alive_row, Hb' by lia. done.
    + intros <- r Hr'. destruct (Z.lt_ge_cases r j); [rewrite alive_row, Hb by lia; done|].
      destruct (Z.lt_ge_cases j (total s)); [|apply not_alive_beyond; lia].
      exfalso. rewrite Ha in Ha' by lia. specialize (Ha' ltac:(lia)). done.
    + destruct (Z.lt_ge_cases k (total s)); [|apply not_alive_beyond; lia]. rewrite alive_row, Ha' by lia. done.
Qed.

Lemma set_false_rows_spec n : ∀ h m from, bm_ok h m → 0 ≤ from → from + Z.of_nat n ≤ count_ m →
  ∃ m' h', set_false_rows h m from n = Ok (m', h') ∧ bm_ok h' m' ∧ count_ m' = count_ m ∧
    ∀ r, 0 ≤ r < count_ m → row h' m' r = row h m r && negb (bool_decide (from ≤ r < from + Z.of_nat n)).
Proof using.
  induction n as [|n IH]; intros h m from Hok Hf Hn; cbn [set_false_rows].
  - exists m, h. split; [done|]. split; [done|]. split; [done|]. intros r _.
    rewrite bool_decide_false by lia. by rewrite andb_true_r.
  - destruct (SetFalse_ok h m from Hok) as (m1 & h1 & -> & Hok1 & Hc1 & Hr1 & _); [apply (in_rows h); [done|lia]|].
    cbn [res_bind]. destruct (IH h1 m1 (from + 1)) as (m' & h' & He & Hok' & Hc' & Hr'); [done|lia|lia|].
    exists m', h'. split; [done|]. split; [done|]. split; [by rewrite Hc'|]. intros r Hr.
    rewrite Hr', Hr1 by (rewrite ?Hc1; try apply (in_rows h); done || lia).
    destruct (decide (r = from)) as [->|Hne]; [rewrite (bool_decide_true (from ≤ from < _)) by lia; by rewrite andb_false_r|].
    do 2 f_equal. apply bool_decide_ext. lia.
Qed.

Lemma delete_mask_loop_spec ts fuel : ∀ h m i,
  let s := at_ts (Z.min ts (max_row_ts_ b)) in
  bm_ok h m → total s ≤ count_ m → 0 ≤ i → total s - i < Z.of_nat fuel → (0 < fuel)%nat →
  ∃ j m' h', delete_mask_loop fuel b ts h m i = Ok (j, m', h') ∧ i ≤ j ≤ Z.max i (total s) ∧ bm_ok h' m' ∧ count_ m' = count_ m ∧
    (∀ r, j ≤ r → alive s r = false) ∧
    ∀ r, 0 ≤ r < count_ m → row h' m' r = row h m r && ((r <? i) || (j <=? r) || alive s r).
Proof using Hinv.
  induction fuel as [|fuel IH]; intros h m i s Hok Hm Hi Hfuel Hpos; [lia|]. cbn [delete_mask_loop].
  destruct (GetVisibleRange_spec ts i Hi) as (j & k & -> & Hjk & Hk & Hdead & Halive & Hnone & _). fold s in Hk, Hdead, Halive, Hnone.
  cbn [res_bind]. destruct (Z.eqb_spec j k) as [->|Hne].
  - exists i, m, h. split; [done|]. split; [lia|]. split; [done|]. split; [done|]. split; [by apply Hnone|].
    intros r _. assert ((r <? i) || (i <=? r) = true) as -> by lia. by rewrite andb_true_r.
  - destruct (set_false_rows_spec (Z.to_nat (j - i)) h m i Hok Hi) as (m1 & h1 & -> & Hok1 & Hc1 & Hr1).
    { lia. }
    rewrite Z2Nat.id in Hr1 by lia. cbn [res_bind].
    destruct (IH h1 m1 k) as (j' & m' & h' & He & Hj' & Hok' & Hc' & Hend & Hr'); [done|subst s; lia|lia|subst s; lia|lia|].
    fold s in Hj', Hend, Hr'. exists j', m', h'. split; [done|]. split; [lia|]. split; [done|]. split; [by rewrite Hc'|]. split; [done|].
    intros r Hr. rewrite Hr', Hr1 by lia. rewrite <- andb_assoc. f_equal.
    destruct (Z.lt_ge_cases r i).
    { rewrite bool_decide_false by lia. by rewrite (proj2 (Z.ltb_lt r i)), (proj2 (Z.ltb_lt r k)) by lia. }
    destruct (Z.lt_ge_cases r j).
    { rewrite bool_decide_true, Hdead by lia. by rewrite (proj2 (Z.ltb_ge r i)), (proj2 (Z.leb_gt j' r)) by lia. }
    rewrite bool_decide_false by lia. cbn [negb andb].
    destruct (Z.lt_ge_cases r k); [rewrite Halive by lia; by rewrite !orb_true_r|].
    assert ((r <? k) = false) as -> by lia. assert ((r <? i) = false) as -> by lia. done.
Qed.

(** The mask of a query loses the rows it does not see; [SetDeleteBitmask] terminates. *)
Lemma SetDeleteBitmask_spec ts h m :
  let s := at_ts (Z.min ts (max_row_ts_ b)) in
  bm_ok h m → block_row_count_ b ≤ count_ m →
  ∃ m' h', SetDeleteBitmask b ts h m = Ok (m', h') ∧ bm_ok h' m' ∧ count_ m' = count_ m ∧
    ∀ r, 0 ≤ r < count_ m → row h' m' r = row h m r && (alive s r || (block_row_count_ b <=? r)).
Proof using Hinv.
  intros s Hok Hm. pose proof (inv_total _ _ _ Hinv). pose proof (inv_capacity _ _ _ Hinv).
  pose proof (inv_range _ _ _ Hinv (Z.min ts (max_row_ts_ b))) as Hrange. fold s in Hrange.
  unfold SetDeleteBitmask. set (fuel := Z.to_nat 65537). assert (Hfuel : Z.of_nat fuel = 65537) by (subst fuel; lia).
  destruct (delete_mask_loop_spec ts fuel h m 0) as (j & m1 & h1 & -> & Hj & Hok1 & Hc1 & Hend & Hr1); [done|subst s; lia|lia|subst s; lia|lia|].
  fold s in Hj, Hend, Hr1. cbn [res_bind].
  destruct (set_false_rows_spec (Z.to_nat (block_row_count_ b - j)) h1 m1 j) as (m' & h' & He & Hok' & Hc' & Hr'); [done|lia|lia|].
  rewrite Z2Nat.id in Hr' by lia. exists m', h'. split; [done|]. split; [done|]. split; [by rewrite Hc'|].
  intros r Hr. rewrite Hr', Hr1 by lia. rewrite <- andb_assoc. f_equal.
  assert ((r <? 0) = false) as -> by lia. cbn [orb]. destruct (Z.lt_ge_cases r j).
  - rewrite bool_decide_false by lia. assert ((j <=? r) = false) as -> by lia. assert ((block_row_count_ b <=? r) = false) as -> by lia.
    cbn [orb negb]. by rewrite andb_true_r, orb_false_r.
  - rewrite Hend by lia. assert ((j <=? r) = true) as -> by lia. cbn [orb andb].
    destruct (Z.leb_spec (block_row_count_ b) r); [rewrite bool_decide_false by lia|rewrite bool_decide_true by lia]; done.
Qed.

End Reading.

(** ** Transactions

    A transaction appends and deletes rows and commits; transactions change a block one at a time,
    in the order of their commit timestamps. *)

Inductive request :=
| Append (column_vectors : list Vector) (offset rows : Z)
| Delete (rows : list Z).

Record Transaction := mkTxn { txn_id_ : Z; txn_commit_ts : Z; requests : list request }.

Definition run_request (txn_id commit_ts : Z) (b : BlockEntry) (req : request) : result BlockEntry :=
  match req with
  | Append vectors offset n => let? '(_, b) := AppendData b txn_id commit_ts vectors offset n in Ok b
  | Delete rows => let? '(_, b) := DeleteData b txn_id commit_ts rows in Ok b
  end.

Definition run_txn (b : BlockEntry) (t : Transaction) : result BlockEntry :=
  let? b := res_fold (run_request (txn_id_ t) (txn_commit_ts t)) b (requests t) in
  CommitBlock b (txn_id_ t) (txn_commit_ts t).

Definition op_of (req : request) : row_op := match req with Append _ _ n => RowAppend n | Delete rows => RowDelete rows end.

Definition apply_txn (capacity : Z) (s : Rows) (t : Transaction) : Rows :=
  fold_left (apply_op capacity) (map op_of (requests t)) s.

(** The rows that the transactions committed up to [ts] leave. *)
Definition snapshot (capacity : Z) (txns : list Transaction) (ts : Z) : Rows :=
  fold_left (apply_txn capacity) (filter (fun t => txn_commit_ts t ≤ ts) txns) (mkRows 0 ∅).

(** A request carries a vector for every column. *)
Definition fits (columns : nat) (req : request) : Prop :=
  match req with Append vectors _ _ => length vectors = columns | Delete _ => True end.

Fixpoint valid_requests (columns : nat) (capacity : Z) (s : Rows) (reqs : list request) : Prop :=
  match reqs with
  | [] => True
  | req :: reqs' => valid_op s (op_of req) ∧ fits columns req ∧ valid_requests columns capacity (apply_op capacity s (op_of req)) reqs'
  end.

Fixpoint valid_txns (columns : nat) (capacity : Z) (s : Rows) (bound : Z) (txns : list Transaction) : Prop :=
  match txns with
  | [] => True
  | t :: txns' =>
      0 < txn_commit_ts t ∧ bound ≤ txn_commit_ts t ∧ valid_requests columns capacity s (requests t) ∧
      valid_txns columns capacity (apply_txn capacity s t) (txn_commit_ts t) txns'
  end.

Definition events_of (t : Transaction) : list event := map (fun req => (txn_commit_ts t, op_of req)) (requests t).

Lemma filter_events_of ts t :
  filter (fun e => e.1 ≤ ts) (events_of t) = if decide (txn_commit_ts t ≤ ts) then events_of t else [].
Proof.
  destruct (decide _); [apply filter_all|apply filter_none]; unfold events_of; apply Forall_map, Forall_true; intros; simpl; lia.
Qed.

Lemma snapshot_events capacity txns ts : rows_at capacity ts (concat (map events_of txns)) = snapshot capacity txns ts.
Proof.
  unfold rows_at, snapshot. generalize (mkRows 0 ∅). induction txns as [|t txns IH]; intros s; [done|].
  cbn [map concat]. rewrite filter_app, filter_events_of, map_app, fold_left_app, IH.
  destruct (decide (txn_commit_ts t ≤ ts)); [rewrite filter_cons_True by done|by rewrite filter_cons_False by done].
  cbn [fold_left]. f_equal. unfold apply_txn, events_of. by rewrite map_map.
Qed.

(** The columns accept every append. *)
Section Run.
Hypothesis Columns_ok : ∀ column vector offset n, is_ok (Column_Append column vector offset n).

Lemma append_columns_ok columns : ∀ vectors offset n,
  length vectors = length columns → ∃ columns', append_columns columns vectors offset n = Ok columns' ∧ length columns' = length columns.
Proof using Columns_ok.
  induction columns as [|c columns IH]; intros vectors offset n Hl; [by exists []|].
  destruct vectors as [|v vectors]; [done|]. injection Hl as Hl. simpl.
  specialize (Columns_ok c v offset n). destruct (Column_Append c v offset n) as [c'|]; [|done].
  destruct (IH vectors offset n Hl) as (cs & -> & Hcs). simpl. exists (c' :: cs). simpl. by rewrite Hcs.
Qed.

Definition current (b : BlockEntry) (events : list event) (bound : Z) : Rows := rows_at (row_capacity_ b) bound events.

(** A request of the transaction that holds the block, or of any when none does. *)
Lemma run_request_ok b events bound txn c req :
  block_inv b events bound → bound ≤ c → 0 < c → in_use b txn = false →
  valid_op (current b events bound) (op_of req) → fits (length (columns_ b)) req →
  ∃ b', run_request txn c b req = Ok b' ∧ block_inv b' (events ++ [(c, op_of req)]) c ∧ using_txn_id_ b' = txn ∧
    max_row_ts_ b' = max_row_ts_ b ∧ row_capacity_ b' = row_capacity_ b ∧ length (columns_ b') = length (columns_ b).
Proof using Columns_ok.
  intros Hi Hc Hp Hu Hv Hf. destruct req as [vectors offset n|rows]; cbn [op_of run_request fits] in *.
  - destruct (append_columns_ok (columns_ b) vectors offset (Z.min n (row_capacity_ b - block_row_count_ b)) Hf) as (cols & Hcols & Hl).
    destruct (append_inv b events bound txn c vectors offset n cols Hi Hc Hp Hv Hu Hcols) as (b' & -> & Hi' & ->).
    cbn [res_bind]. eexists. split; [reflexivity|]. split_and!; done.
  - destruct (delete_inv b events bound txn c rows Hi Hc Hp Hu Hv) as (b' & -> & Hi' & dl & ->).
    cbn [res_bind]. eexists. split; [reflexivity|]. split_and!; done.
Qed.

Lemma in_use_self b txn : using_txn_id_ b = txn → in_use b txn = false.
Proof using. intros <-. unfold in_use. rewrite Z.eqb_refl. by rewrite andb_false_r. Qed.

Lemma current_snoc b events bound c op :
  block_inv b events bound → bound ≤ c →
  rows_at (row_capacity_ b) c (events ++ [(c, op)]) = apply_op (row_capacity_ b) (current b events bound) op.
Proof using. intros Hi Hc. rewrite rows_at_snoc, decide_True by done. f_equal. by apply (rows_at_now b). Qed.

Lemma run_requests_ok txn c reqs : ∀ b events bound,
  block_inv b events bound → bound ≤ c → 0 < c → in_use b txn = false →
  valid_requests (length (columns_ b)) (row_capacity_ b) (current b events bound) reqs →
  ∃ b', res_fold (run_request txn c) b reqs = Ok b' ∧ block_inv b' (events ++ map (fun req => (c, op_of req)) reqs) c ∧
    in_use b' txn = false ∧ max_row_ts_ b' = max_row_ts_ b ∧ row_capacity_ b' = row_capacity_ b ∧
    length (columns_ b') = length (columns_ b).
Proof using Columns_ok.
  induction reqs as [|req reqs IH]; intros b events bound Hi Hc Hp Hu Hv.
  - exists b. simpl. rewrite app_nil_r. split; [done|]. split; [|done]. by apply (inv_later b events bound c).
  - destruct Hv as (Hop & Hfit & Hv).
    destruct (run_request_ok b events bound txn c req Hi Hc Hp Hu Hop Hfit) as (b1 & Hr & Hi1 & Hu1 & Hm1 & Hcap1 & Hl1).
    cbn [res_fold]. rewrite Hr. cbn [res_bind].
    destruct (IH b1 (events ++ [(c, op_of req)]) c) as (b' & He & Hi' & Hu' & Hm' & Hcap' & Hl'); [done|lia|done|by apply in_use_self| |].
    + unfold current. rewrite Hcap1, Hl1, (current_snoc b _ bound) by done. done.
    + exists b'. split; [done|]. rewrite <- app_assoc in Hi'. split; [done|]. split; [done|]. split_and!; congruence.
Qed.

Lemma fold_ops_current c ops : ∀ capacity events,
  rows_at capacity c (events ++ map (pair c) ops) = fold_left (apply_op capacity) ops (rows_at capacity c events).
Proof using.
  induction ops as [|op ops IH]; intros capacity events; [by rewrite app_nil_r|].
  cbn [map fold_left]. rewrite (cons_middle (c, op)), app_assoc, IH, rows_at_snoc, decide_True by done. done.
Qed.

Lemma run_txns_ok txns : ∀ b events,
  block_inv b events (max_row_ts_ b) → using_txn_id_ b = 0 →
  valid_txns (length (columns_ b)) (row_capacity_ b) (current b events (max_row_ts_ b)) (max_row_ts_ b) txns →
  ∃ b', res_fold run_txn b txns = Ok b' ∧ block_inv b' (events ++ concat (map events_of txns)) (max_row_ts_ b') ∧
    using_txn_id_ b' = 0 ∧ row_capacity_ b' = row_capacity_ b ∧ length (columns_ b') = length (columns_ b).
Proof using Columns_ok.
  induction txns as [|t txns IH]; intros b events Hi Hu Hv.
  - exists b. simpl. rewrite app_nil_r. done.
  - destruct Hv as (Hp & Hb & Hreq & Hv). set (c := txn_commit_ts t) in *.
    assert (Huse : in_use b (txn_id_ t) = false) by (unfold in_use; by rewrite Hu).
    destruct (run_requests_ok (txn_id_ t) c (requests t) b events (max_row_ts_ b) Hi Hb Hp Huse Hreq)
      as (b1 & Hr & Hi1 & Hu1 & Hm1 & Hcap1 & Hl1).
    destruct (commit_inv b1 _ c (txn_id_ t) c Hi1 ltac:(lia) Hu1 ltac:(lia)) as (b2 & Hcm & Hi2 & Hu2 & Hm2 & Hcap2 & Hcol2 & _).
    cbn [res_fold]. unfold run_txn at 1. fold c. rewrite Hr. cbn [res_bind]. rewrite Hcm. cbn [res_bind].
    assert (Hi2' : block_inv b2 (events ++ events_of t) (max_row_ts_ b2)) by (rewrite Hm2; exact Hi2).
    destruct (IH b2 _ Hi2' Hu2) as (b' & He & Hi' & Hu' & Hcap' & Hl').
    + rewrite Hcol2, Hl1, Hcap2, Hcap1, Hm2. unfold current. rewrite Hcap2, Hcap1.
      unfold events_of. fold c. rewrite <- (map_map op_of (pair c)), fold_ops_current, (rows_at_now b events (max_row_ts_ b) c) by done. exact Hv.
    + exists b'. split; [done|]. cbn [map concat]. rewrite app_assoc. split; [exact Hi'|]. split_and!; congruence.
Qed.

Lemma run_new_ok block_id columns txns :
  let b0 := NewBlockEntry block_id columns in
  valid_txns (length columns) DEFAULT_BLOCK_CAPACITY (mkRows 0 ∅) 0 txns →
  ∃ b, res_fold run_txn b0 txns = Ok b ∧ block_inv b (concat (map events_of txns)) (max_row_ts_ b) ∧
    using_txn_id_ b = 0 ∧ row_capacity_ b = DEFAULT_BLOCK_CAPACITY ∧ length (columns_ b) = length columns.
Proof using Columns_ok. intros b0 Hv. apply (run_txns_ok txns b0 []); [apply inv_new|done|exact Hv]. Qed.

(** ** Properties *)

(** C7. Snapshot reads of a block.  Valid transactions run one after the other on a new block
    without an error, and a reader at [ts] then sees exactly the rows that the transactions
    committed up to [ts] leave, by [CheckRowVisible] and by [row_count]; the requests of a later
    transaction that has not committed change nothing for a reader before its commit timestamp. *)
Theorem block_snapshot block_id columns txns :
  valid_txns (length columns) DEFAULT_BLOCK_CAPACITY (mkRows 0 ∅) 0 txns →
  ∃ b, res_fold run_txn (NewBlockEntry block_id columns) txns = Ok b ∧
    (∀ ts r, 0 ≤ r < DEFAULT_BLOCK_CAPACITY →
       CheckRowVisible b r ts true = Ok (alive (snapshot DEFAULT_BLOCK_CAPACITY txns ts) r) ∧
       row_count b ts = total (snapshot DEFAULT_BLOCK_CAPACITY txns ts)) ∧
    (∀ txn c reqs, 0 < c → max_row_ts_ b ≤ c →
       valid_requests (length columns) DEFAULT_BLOCK_CAPACITY (snapshot DEFAULT_BLOCK_CAPACITY txns (max_row_ts_ b)) reqs →
       ∃ b', res_fold (run_request txn c) b reqs = Ok b' ∧
         ∀ ts r, ts < c → 0 ≤ r < DEFAULT_BLOCK_CAPACITY →
           CheckRowVisible b' r ts true = Ok (alive (snapshot DEFAULT_BLOCK_CAPACITY txns ts) r)).
Proof using Columns_ok.
  intros Hv. destruct (run_new_ok block_id columns txns Hv) as (b & He & Hi & Hu & Hcap & Hl). exists b. split; [done|]. split.
  - intros ts r Hr. rewrite <- !snapshot_events, <- Hcap. split.
    + apply (CheckRowVisible_alive b _ _ Hi). lia.
    + apply (row_count_total b _ _ Hi). done.
  - intros txn c reqs Hp Hm Hreq. assert (Huse : in_use b txn = false) by (unfold in_use; by rewrite Hu).
    destruct (run_requests_ok txn c reqs b _ (max_row_ts_ b) Hi Hm Hp Huse) as (b' & Hr & Hi' & _ & _ & Hcap' & _).
    + unfold current. by rewrite Hl, Hcap, snapshot_events.
    + exists b'. split; [done|]. intros ts r Hts Hrr. rewrite (CheckRowVisible_alive b' _ _ Hi') by lia.
      rewrite Hcap', Hcap. do 2 f_equal. rewrite <- snapshot_events. unfold rows_at. do 2 f_equal.
      rewrite filter_app, (filter_none _ (map _ reqs)), app_nil_r; [done|].
      apply Forall_map, Forall_true. intros. simpl. lia.
Qed.

(** The delete mask of a query.  [SetDeleteBitmask] terminates and clears exactly the rows of the
    block that a reader at the query's timestamp does not see. *)
Theorem delete_bitmask block_id columns txns ts h m :
  valid_txns (length columns) DEFAULT_BLOCK_CAPACITY (mkRows 0 ∅) 0 txns → bm_ok h m → DEFAULT_BLOCK_CAPACITY ≤ count_ m →
  ∃ b m' h', res_fold run_txn (NewBlockEntry block_id columns) txns = Ok b ∧
    SetDeleteBitmask b ts h m = Ok (m', h') ∧ count_ m' = count_ m ∧
    ∀ r, 0 ≤ r < count_ m →
      IsTrue h' m' r = let? old := IsTrue h m r in
        Ok (old && (alive (snapshot DEFAULT_BLOCK_CAPACITY txns ts) r || (block_row_count_ b <=? r))).
Proof using Columns_ok.
  intros Hv Hok Hm. destruct (run_new_ok block_id columns txns Hv) as (b & He & Hi & Hu & Hcap & Hl).
  set (s := rows_at (row_capacity_ b) (Z.min ts (max_row_ts_ b)) (concat (map events_of txns))).
  assert (Hs : s = snapshot DEFAULT_BLOCK_CAPACITY txns ts).
  { subst s. rewrite <- snapshot_events, Hcap. destruct (Z.min_spec ts (max_row_ts_ b)) as [[_ ->]|[Hle ->]]; [done|].
    rewrite <- Hcap. symmetry. by apply (rows_at_now b). }
  pose proof (inv_total _ _ _ Hi) as Htot.
  destruct (SetDeleteBitmask_spec b _ _ Hi ts h m Hok) as (m' & h' & Hset & Hok' & Hc & Hrow); [lia|].
  exists b, m', h'. split; [done|]. split; [done|]. split; [done|]. intros r Hr. fold s in Hrow. rewrite Hs in Hrow.
  rewrite (IsTrue_rows h' m' Hok') by (rewrite Hc; lia). rewrite (IsTrue_rows h m Hok) by done. cbn [res_bind]. by rewrite Hrow.
Qed.

End Run.

Definition with_version (b : BlockEntry) (v : BlockVersion) : BlockEntry :=
  set_rows b (using_txn_id_ b) (block_row_count_ b) v (columns_ b).

Definition reopen (h : FileHandler) : FileHandler := mkHandler (content h) 0.

Lemma array_at_map {A B} (f : A → B) l i : array_at (map f l) i = let? a := array_at l i in Ok (f a).
Proof. unfold array_at. destruct (decide _); [|done]. rewrite list_lookup_fmap. by destruct (l !! _). Qed.

(** Readers of a version that was cut off at [cp]. *)
Lemma version_at_visible v cp b r ts check_append :
  version_wf v →
  CheckRowVisible (with_version b (version_at v cp)) r ts check_append = CheckRowVisible (with_version b v) r (Z.min ts cp) check_append.
Proof.
  intros Hwf. pose proof Hwf as (Hs & _). unfold CheckRowVisible. cbn [with_version set_rows version_]. rewrite version_at_row_count by done.
  destruct (_ && _); [done|]. cbn [version_at deleted_]. rewrite array_at_map.
  destruct (array_at (deleted_ v) r) as [d|]; [|done]. cbn [res_bind]. f_equal. destruct (Z.leb_spec d cp); lia.
Qed.

(** Version files.  Spilling a version and loading it gives it back, whatever the file held
    before; a checkpoint at [checkpoint_ts] loads as a version that shows every reader what the
    original shows at the checkpoint, or before it for a reader before it. *)
Theorem version_files `{!Posix} v checkpoint_ts old :
  version_wf v →
  LoadFromFile (reopen (SpillToFile v (mkHandler old 0))) = Ok v ∧
  ∃ v', LoadFromFile (reopen (SaveToFile v checkpoint_ts (mkHandler old 0))) = Ok v' ∧
    ∀ b r ts check_append,
      CheckRowVisible (with_version b v') r ts check_append =
      CheckRowVisible (with_version b v) r (Z.min ts checkpoint_ts) check_append.
Proof.
  intros Hwf. pose proof Hwf as (Hs & Hc & Hd & _). change (mkHandler old 0) with (at_ [] old).
  assert (Hre : ∀ v, reopen (at_ (version_bytes v) (drop (length (version_bytes v)) old)) =
    at_ [] (version_bytes v ++ drop (length (version_bytes v)) old)) by done.
  rewrite SpillToFile_written by done. cbn [app]. rewrite Hre. split; [by apply LoadFromFile_written|].
  exists (version_at v checkpoint_ts). rewrite SaveToFile_written by done. cbn [app]. rewrite Hre.
  split; [apply LoadFromFile_written; by apply version_at_wf|]. intros b r ts check_append. by apply version_at_visible.
Qed.

End BlockEntry.

(** Columns of values: appending copies [n] of them from [offset] on. *)
Definition list_columns (V : Type) : ColumnStore := {|
  Column := list V;
  Vector := list V;
  Column_Append column vector offset n := Ok (column ++ take (Z.to_nat n) (drop (Z.to_nat offset) vector));
|}.

(** ** Examples: one column of numbers *)

#[local] Instance number_column : ColumnStore := list_columns Z.

Definition sample_txns : list Transaction := [
  mkTxn 1 10 [Append [[1; 2; 3; 4; 5]] 0 5];
  mkTxn 2 20 [Delete [1; 3]; Append [[6; 7]] 0 2]].

Lemma sample_valid : valid_txns 1 DEFAULT_BLOCK_CAPACITY (mkRows 0 ∅) 0 sample_txns.
Proof.
  cbn [valid_txns valid_requests sample_txns txn_commit_ts requests op_of valid_op fits].
  split_and!; try done; try lia.
  all: apply (bool_decide_unpack _); vm_compute; exact I.
Qed.

Lemma block_snapshot_witness :
  ∃ b, res_fold run_txn (NewBlockEntry 0 [[]]) sample_txns = Ok b ∧
    CheckRowVisible b 1 15 true = Ok true ∧ CheckRowVisible b 1 20 true = Ok false ∧ CheckRowVisible b 6 15 true = Ok false.
Proof.
  destruct (block_snapshot ltac:(intros; exact I) 0 [[]] sample_txns sample_valid) as (b & He & Hr & _). exists b. split; [exact He|].
  unfold DEFAULT_BLOCK_CAPACITY in Hr. split; [|split].
  - rewrite (proj1 (Hr 15 1 ltac:(lia))). vm_compute. reflexivity.
  - rewrite (proj1 (Hr 20 1 ltac:(lia))). vm_compute. reflexivity.
  - rewrite (proj1 (Hr 15 6 ltac:(lia))). vm_compute. reflexivity.
Defined.

Lemma delete_bitmask_witness :
  ∃ b m' h', res_fold run_txn (NewBlockEntry 0 [[]]) sample_txns = Ok b ∧
    SetDeleteBitmask b 20 [] (mkBitmask None 8192) = Ok (m', h') ∧ IsTrue h' m' 3 = Ok false ∧ IsTrue h' m' 4 = Ok true.
Proof.
  destruct (delete_bitmask ltac:(intros; exact I) 0 [[]] sample_txns 20 [] (mkBitmask None 8192) sample_valid)
    as (b & m' & h' & He & Hs & _ & Hr).
  - split; [simpl; lia|done].
  - unfold DEFAULT_BLOCK_CAPACITY. simpl. lia.
  - exists b, m', h'. split; [exact He|]. split; [exact Hs|].
    assert (E : res_fold run_txn (NewBlockEntry 0 [[]]) sample_txns = Ok b) by exact He. vm_compute in E. injection E as <-.
    split; [rewrite (Hr 3 ltac:(simpl; lia))|rewrite (Hr 4 ltac:(simpl; lia))]; vm_compute; reflexivity.
Defined.

#[local] Existing Instance Posix_full.

Lemma version_files_witness :
  let v := mkVersion [mkCreateField 10 5; mkCreateField 20 7] [0; 20; 0; 15; 0; 0; 0; 0] in
  LoadFromFile (reopen (SpillToFile v (mkHandler (str "an older, longer file") 0))) = Ok v.
Proof.
  intros v. apply (version_files v 15 (str "an older, longer file")).
  split; [repeat constructor; vm_compute; discriminate|]. split; [done|]. split; [done|].
  split; repeat constructor; simpl; solve_range.
Defined.
