(* ===== verification/VersionFlush.v ===== *)
(** * Flushing the versions of a block

    [BlockEntry::FlushVersion] of [src/src/storage/meta/entry/block_entry.cpp] writes the versions of a
    block up to a checkpoint through the buffer object that holds all of them. *)

From Stdlib Require Import ZArith Lia List.
From stdpp Require Import base list numbers gmap sets strings.
From S2P Require Import Prelude Bytes LogFile FileIO BlockVersion FileWorker Buffer BlockEntry.
Local Open Scope Z_scope.

Section VersionFlush.
Context `{Px : !Posix, Store : !ColumnStore}.
#[local] Existing Instance VersionFileWorker.

(** [SetCheckpointTS] on the worker of the buffer object. *)
Definition set_checkpoint (o : BufferObj) (checkpoint_ts : Z) : BufferObj :=
  let fw := file_worker_ o in
  mkObj (mkWorker (SetCheckpointTS (worker_ fw) checkpoint_ts) (file_path_ fw) (data_ fw)) (buffer_status o) (buffer_type o) (rc_ o).

(** [block_version_] names the buffer object. *)
Definition FlushVersion (this : BlockEntry) (m : BufferManager) (block_version_ : bytes) (checkpoint_ts : Z) : result (bool * BufferManager) :=
  if negb (max_row_ts_ this =? 0) && ((max_row_ts_ this <=? checkpoint_ts_ this) || (checkpoint_ts <? min_row_ts_ this)) then Ok (false, m)
  else
    let? o := get_obj m block_version_ in
    let? '(_, m) := Save (put m block_version_ (set_checkpoint o checkpoint_ts)) block_version_ in
    Ok (true, m).

(** What a manager reads when it loads the freed object [p] from its file. *)
Definition reloaded (m : BufferManager) (p : bytes) : result (option BlockVersion) :=
  let? o := get_obj m p in
  let? fw := ReadFromFile (temp_dir_ m) (files m) (file_worker_ o) false in
  Ok (data_ fw).

(** C34. A checkpoint loses later versions.  When the versions of a block are flushed at a checkpoint
    after which rows have been appended or deleted, the buffer object is marked persistent with only
    the part up to the checkpoint in its file.  Evicting it writes nothing, and loading it again gives
    the versions up to the checkpoint: every reader then sees the block as of the checkpoint. *)
Theorem flush_loses_versions this m p w v cp :
  version_wf v → max_row_ts_ this ≠ 0 → checkpoint_ts_ this < max_row_ts_ this → min_row_ts_ this ≤ cp →
  buffer_map_ m !! p = Some (mkObj (mkWorker w p (Some v)) BufferStatus.kUnloaded BufferType.kEphemeral 0) →
  ∃ m1 m2, FlushVersion this m p cp = Ok (true, m1) ∧ Free m1 p false = Ok (true, m2) ∧ files m2 = files m1 ∧
    reloaded m2 p = Ok (Some (version_at v cp)) ∧
    ∀ r ts check_append,
      CheckRowVisible (with_version this (version_at v cp)) r ts check_append = CheckRowVisible (with_version this v) r (Z.min ts cp) check_append.
Proof.
  intros Hwf Hm0 Hlast Hmin Hp. pose proof Hwf as (Hs & Hc & Hd & _).
  assert (Hskip : negb (max_row_ts_ this =? 0) && ((max_row_ts_ this <=? checkpoint_ts_ this) || (cp <? min_row_ts_ this)) = false).
  { rewrite (proj2 (Z.leb_gt _ _)), (proj2 (Z.ltb_ge _ _)) by lia. apply andb_false_r. }
  unfold FlushVersion. rewrite Hskip. unfold get_obj at 1. rewrite Hp. cbn [res_bind]. unfold Save, get_obj. cbn [put with_map buffer_map_].
  rewrite lookup_insert_eq. cbn [res_bind set_checkpoint buffer_type buffer_status file_worker_ worker_ file_path_ data_ rc_].
  set (bs := version_bytes (version_at v cp) ++ drop (length (version_bytes (version_at v cp))) (default [] (files m !! p))).
  assert (Hwrite : WriteToFile (temp_dir_ m) (files m) (mkWorker (SetCheckpointTS w cp) p (Some v)) false = Ok (<[p := bs]> (files m))).
  { unfold WriteToFile, OpenFile_write, ChooseFilePath. cbn [data_ worker_ file_path_ WriteToFileImpl VersionFileWorker Version_WriteToFileImpl SetCheckpointTS worker_checkpoint_ts_].
    change (mkHandler ?old 0) with (at_ [] old). rewrite SaveToFile_written by done. done. }
  cbn [with_map temp_dir_ files]. setoid_rewrite Hwrite. cbn [res_bind]. eexists. eexists. split; [reflexivity|].
  unfold Free, get_obj. cbn [put with_map with_files buffer_map_]. rewrite lookup_insert_eq. cbn [res_bind buffer_status buffer_type file_worker_ FreeInMemory data_ worker_ file_path_ rc_].
  split; [reflexivity|]. split; [done|]. split; [|intros; by apply version_at_visible].
  unfold reloaded, get_obj. cbn [put with_map with_files buffer_map_]. rewrite lookup_insert_eq.
  cbn [res_bind file_worker_]. unfold ReadFromFile, OpenFile_read, ChooseFilePath. mgr. cbn [file_path_ data_ worker_].
  rewrite lookup_insert_eq. cbn [ReadFromFileImpl VersionFileWorker Version_ReadFromFileImpl].
  change (mkHandler bs 0) with (at_ [] bs). unfold bs. rewrite LoadFromFile_written by (by apply version_at_wf). done.
Qed.

End VersionFlush.

(** ** Example: a row deleted at 30 is back after a checkpoint at 20 *)

#[local] Existing Instance Posix_full.
#[local] Existing Instance VersionFileWorker.
#[local] Instance flush_columns : ColumnStore := list_columns Z.

Definition flushed_version : BlockVersion := mkVersion [mkCreateField 10 2] [30; 0].

Definition flushed_block : BlockEntry := mkBlock 0 2 2 flushed_version [[7; 8]] 10 30 0 0 0 10.

Definition flushed_manager : BufferManager :=
  mkManager (str "/t") 100 16 {[str "/d/version" := mkObj (mkWorker (mkVersionWorker 2 0) (str "/d/version") (Some flushed_version))
    BufferStatus.kUnloaded BufferType.kEphemeral 0]} [str "/d/version"] [] ∅ ∅ ∅.

Lemma flush_loses_versions_witness :
  ∃ m1 m2 v, FlushVersion flushed_block flushed_manager (str "/d/version") 20 = Ok (true, m1) ∧
    Free m1 (str "/d/version") false = Ok (true, m2) ∧ reloaded m2 (str "/d/version") = Ok (Some v) ∧
    CheckRowVisible flushed_block 0 30 true = Ok false ∧ CheckRowVisible (with_version flushed_block v) 0 30 true = Ok true.
Proof.
  destruct (flush_loses_versions flushed_block flushed_manager (str "/d/version") (mkVersionWorker 2 0) flushed_version 20)
    as (m1 & m2 & H1 & H2 & _ & H3 & H4).
  - split; [repeat constructor|]. split; [done|]. split; [done|]. split; repeat apply Forall_cons_2; try apply Forall_nil_2; try split; cbn; solve_range.
  - discriminate.
  - reflexivity.
  - discriminate.
  - apply lookup_singleton_eq.
  - exists m1, m2, (version_at flushed_version 20). split; [exact H1|]. split; [exact H2|]. split; [exact H3|].
    split; [vm_compute; reflexivity|]. rewrite H4. vm_compute. reflexivity.
Defined.
