(* ===== verification/SegmentEntry.v ===== *)
(** * Segments

    [SegmentEntry] of [src/src/storage/meta/entry/segment_entry.cpp]: a list of blocks that rows are
    appended to, the states a segment goes through when it is sealed and compacted, and the protocol
    between transactions that delete rows and a compaction; and [TableEntry::Append] of
    [src/src/storage/meta/entry/table_entry.cpp], which fills segment after segment.  Columns are
    lists of values. *)

From Stdlib Require Import ZArith Lia List.
From stdpp Require Import base list numbers gmap sets sorting.
From S2P Require Import Prelude Bytes CatalogDelta BlockVersion BlockEntry.
Local Open Scope Z_scope.

Definition DEFAULT_SEGMENT_CAPACITY : Z := 1024 * 8192.

Section SegmentEntry.
Context {V : Type}.
#[local] Existing Instance list_columns.
Notation Block := (@BlockEntry (list_columns V)).

(** [to_delete_] is the entry of this segment in the [to_delete_] of the compaction that
    [compact_state_data_] points to, or pointed to last. *)
Record SegmentEntry := mkSegment {
  segment_id_ : Z;
  seg_row_capacity_ : Z;
  column_count_ : nat;
  seg_row_count_ : Z;
  actual_row_count_ : Z;
  seg_min_row_ts_ : Z;
  seg_max_row_ts_ : Z;
  first_delete_ts_ : Z;
  deprecate_ts_ : Z;
  seg_commit_ts_ : Z;
  block_entries_ : list Block;
  compact_state_data_ : bool;
  to_delete_ : list Z;
  status_ : SegmentStatus;
  delete_txns_ : gset Z;
}.

Definition with_blocks (s : SegmentEntry) (blocks : list Block) (row_count actual : Z) : SegmentEntry :=
  mkSegment (segment_id_ s) (seg_row_capacity_ s) (column_count_ s) row_count actual (seg_min_row_ts_ s)
    (seg_max_row_ts_ s) (first_delete_ts_ s) (deprecate_ts_ s) (seg_commit_ts_ s) blocks (compact_state_data_ s)
    (to_delete_ s) (status_ s) (delete_txns_ s).

Definition with_status (s : SegmentEntry) (status : SegmentStatus) (compact : bool) (to_delete : list Z) (deprecate_ts : Z)
    : SegmentEntry :=
  mkSegment (segment_id_ s) (seg_row_capacity_ s) (column_count_ s) (seg_row_count_ s) (actual_row_count_ s)
    (seg_min_row_ts_ s) (seg_max_row_ts_ s) (first_delete_ts_ s) deprecate_ts (seg_commit_ts_ s) (block_entries_ s)
    compact to_delete status (delete_txns_ s).

Definition with_deletes (s : SegmentEntry) (txns : gset Z) (first_delete_ts : Z) (to_delete : list Z) : SegmentEntry :=
  mkSegment (segment_id_ s) (seg_row_capacity_ s) (column_count_ s) (seg_row_count_ s) (actual_row_count_ s)
    (seg_min_row_ts_ s) (seg_max_row_ts_ s) first_delete_ts (deprecate_ts_ s) (seg_commit_ts_ s) (block_entries_ s)
    (compact_state_data_ s) to_delete (status_ s) txns.

Definition with_commit (s : SegmentEntry) (min_ts max_ts commit_ts : Z) (blocks : list Block) : SegmentEntry :=
  mkSegment (segment_id_ s) (seg_row_capacity_ s) (column_count_ s) (seg_row_count_ s) (actual_row_count_ s) min_ts max_ts
    (first_delete_ts_ s) (deprecate_ts_ s) commit_ts blocks (compact_state_data_ s) (to_delete_ s) (status_ s) (delete_txns_ s).

Definition NewSegmentEntry (segment_id : Z) (column_count : nat) : SegmentEntry :=
  mkSegment segment_id DEFAULT_SEGMENT_CAPACITY column_count 0 0 UNCOMMIT_TS 0 UNCOMMIT_TS UNCOMMIT_TS UNCOMMIT_TS [] false []
    Status.kUnsealed ∅.

(** ** States *)

Definition SetSealed (this : SegmentEntry) : bool * SegmentEntry :=
  match status_ this with
  | Status.kUnsealed =>
      (true, with_status this Status.kSealed (compact_state_data_ this) (to_delete_ this) (deprecate_ts_ this))
  | _ => (false, this)
  end.

(** [compact_state_data] tells whether the pointer is not null; a new compaction has no rows to
    delete yet. *)
Definition TrySetCompacting (this : SegmentEntry) (compact_state_data : bool) : bool * SegmentEntry :=
  match status_ this with
  | Status.kSealed => (true, with_status this Status.kCompacting compact_state_data [] (deprecate_ts_ this))
  | _ => (false, this)
  end.

Definition SetNoDelete (this : SegmentEntry) : result (bool * SegmentEntry) :=
  match status_ this with
  | Status.kCompacting | Status.kNoDelete =>
      if decide (delete_txns_ this = ∅)
      then Ok (true, with_status this Status.kNoDelete false (to_delete_ this) (deprecate_ts_ this))
      else Ok (false, with_status this Status.kNoDelete (compact_state_data_ this) (to_delete_ this) (deprecate_ts_ this))
  | _ => Err UnrecoverableError
  end.

Definition SetDeprecated (this : SegmentEntry) (deprecate_ts : Z) : result SegmentEntry :=
  match status_ this with
  | Status.kNoDelete => Ok (with_status this Status.kDeprecated (compact_state_data_ this) (to_delete_ this) deprecate_ts)
  | _ => Err UnrecoverableError
  end.

Definition RollbackCompact (this : SegmentEntry) : result SegmentEntry :=
  match status_ this with
  | Status.kNoDelete => Ok (with_status this Status.kSealed (compact_state_data_ this) (to_delete_ this) UNCOMMIT_TS)
  | _ => Err UnrecoverableError
  end.

Definition no_delete (this : SegmentEntry) : bool :=
  match status_ this with Status.kDeprecated | Status.kNoDelete => true | _ => false end.

(** The segments a transaction deletes rows of; [true] for a conflict. *)
Definition CheckDeleteConflict (segments : list SegmentEntry) (txn_id : Z) : bool * list SegmentEntry :=
  if existsb no_delete segments then (true, segments)
  else (false, map (fun s => with_deletes s ({[txn_id]} ∪ delete_txns_ s) (first_delete_ts_ s) (to_delete_ s)) segments).

Definition CheckDeprecate (this : SegmentEntry) (check_ts : Z) : bool :=
  match status_ this with Status.kDeprecated => deprecate_ts_ this <? check_ts | _ => false end.

Definition CheckAnyDelete (this : SegmentEntry) (check_ts : Z) : bool := first_delete_ts_ this <? check_ts.

Definition GetBlockEntryByID (this : SegmentEntry) (block_id : Z) : option Block := block_entries_ this !! Z.to_nat block_id.

Definition Segment_CheckRowVisible (this : SegmentEntry) (segment_offset check_ts : Z) (check_append : bool) : result bool :=
  let block_id := cast u16 (segment_offset / DEFAULT_BLOCK_CAPACITY) in
  let block_offset := cast u16 (segment_offset mod DEFAULT_BLOCK_CAPACITY) in
  match GetBlockEntryByID this block_id with
  | None => Ok false
  | Some block_entry =>
      if check_ts <? commit_ts_ block_entry then Ok false
      else CheckRowVisible block_entry block_offset check_ts check_append
  end.

Definition Segment_row_count (this : SegmentEntry) (check_ts : Z) : Z :=
  match status_ this with
  | Status.kDeprecated =>
      if deprecate_ts_ this <? check_ts then 0 else Zsum (map (fun b => row_count b check_ts) (block_entries_ this))
  | Status.kSealed => seg_row_count_ this
  | _ => Zsum (map (fun b => row_count b check_ts) (block_entries_ this))
  end.

(** ** Deleting and committing *)

Definition DecreaseRemainRow (this : SegmentEntry) (n : Z) : result SegmentEntry :=
  if actual_row_count_ this <? n then Err UnrecoverableError
  else Ok (with_blocks this (block_entries_ this) (seg_row_count_ this) (actual_row_count_ this - n)).

(** One block of the rows to delete; a block that is not there raises [std::out_of_range]. *)
Definition delete_in_block (txn_id commit_ts : Z) (st : SegmentEntry * Z) (rows : Z * list Z) : result (SegmentEntry * Z) :=
  let '(this, delete_row_n) := st in
  let '(block_id, delete_rows) := rows in
  match GetBlockEntryByID this block_id with
  | None => Err StdException
  | Some block_entry =>
      let? '(n, block_entry) := DeleteData block_entry txn_id commit_ts delete_rows in
      if row_capacity_ block_entry <? zlen delete_rows then Err UnrecoverableError
      else
        Ok (with_blocks this (<[Z.to_nat block_id := block_entry]> (block_entries_ this)) (seg_row_count_ this)
              (actual_row_count_ this), delete_row_n + n)
  end.

Definition Segment_DeleteData (this : SegmentEntry) (txn_id commit_ts : Z) (block_row_hashmap : list (Z * list Z))
    : result (Z * SegmentEntry) :=
  let? '(this, delete_row_n) := res_fold (delete_in_block txn_id commit_ts) (this, 0) block_row_hashmap in
  let? this := DecreaseRemainRow this delete_row_n in
  Ok (delete_row_n, this).

(** [block_id * DEFAULT_BLOCK_CAPACITY + block_offset] of every row. *)
Definition segment_offsets (block_row_hashmap : list (Z * list Z)) : list Z :=
  concat (map (fun '(block_id, offsets) => map (fun o => cast u32 (block_id * DEFAULT_BLOCK_CAPACITY + o)) offsets) block_row_hashmap).

(** The part of [CommitSegment] for the rows that the transaction deletes here. *)
Definition commit_delete (this : SegmentEntry) (txn_id commit_ts : Z) (block_row_hashmap : list (Z * list Z)) : result SegmentEntry :=
  let first_delete_ts := if first_delete_ts_ this =? UNCOMMIT_TS then commit_ts else first_delete_ts_ this in
  let delete_txns := delete_txns_ this ∖ {[txn_id]} in
  if compact_state_data_ this then
    match status_ this with
    | Status.kCompacting | Status.kNoDelete =>
        Ok (with_deletes this delete_txns first_delete_ts (to_delete_ this ++ segment_offsets block_row_hashmap))
    | _ => Err UnrecoverableError
    end
  else Ok (with_deletes this delete_txns first_delete_ts (to_delete_ this)).

Definition commit_block (txn_id commit_ts : Z) (blocks : list Block) (block_id : Z) : result (list Block) :=
  match blocks !! Z.to_nat block_id with
  | None => Err OutOfBounds
  | Some b => let? b := CommitBlock b txn_id commit_ts in Ok (<[Z.to_nat block_id := b]> blocks)
  end.

(** [delete_rows] are the rows of this segment in the delete state, if there is one for it;
    [blocks] the blocks of the segment store. *)
Definition CommitSegment (this : SegmentEntry) (txn_id commit_ts : Z) (blocks : list Z) (delete_rows : option (list (Z * list Z)))
    : result SegmentEntry :=
  match status_ this with
  | Status.kDeprecated => Err UnrecoverableError
  | _ =>
      let? this := match delete_rows with Some rows => commit_delete this txn_id commit_ts rows | None => Ok this end in
      if commit_ts <? seg_max_row_ts_ this then Err UnrecoverableError
      else
        let? block_entries := res_fold (commit_block txn_id commit_ts) (block_entries_ this) blocks in
        Ok (with_commit this (Z.min (seg_min_row_ts_ this) commit_ts) commit_ts
              (if seg_commit_ts_ this =? UNCOMMIT_TS then commit_ts else seg_commit_ts_ this) block_entries)
  end.

(** ** Deletes against a compaction

    The steps of transactions and of a compaction on one segment.  A transaction deletes rows after
    [CheckDeleteConflict] let it, and commits later; a compaction starts with [TrySetCompacting],
    copies the rows it sees, calls [SetNoDelete] until it returns [true] ([ready]), applies the
    deletes in [to_delete_] to the new segment, and deprecates the old one or rolls back. *)

Inductive label :=
| Seal
| Compact
| NoDelete
| Deprecate (ts : Z)
| Rollback
| Check (txn_id : Z)
| CommitDelete (txn_id commit_ts : Z) (blocks : list Z) (rows : list (Z * list Z)).

Inductive step : SegmentEntry * bool → label → SegmentEntry * bool → Prop :=
| step_seal s ready s' : SetSealed s = (true, s') → step (s, ready) Seal (s', ready)
| step_compact s ready s' : TrySetCompacting s true = (true, s') → step (s, ready) Compact (s', false)
| step_no_delete s ready s' : SetNoDelete s = Ok (ready, s') → step (s, false) NoDelete (s', ready)
| step_deprecate s ts s' : SetDeprecated s ts = Ok s' → step (s, true) (Deprecate ts) (s', true)
| step_rollback s s' : RollbackCompact s = Ok s' → step (s, true) Rollback (s', false)
| step_check s ready txn s' : CheckDeleteConflict [s] txn = (false, [s']) → step (s, ready) (Check txn) (s', ready)
| step_commit s ready txn commit_ts blocks rows s' :
    txn ∈ delete_txns_ s → CommitSegment s txn commit_ts blocks (Some rows) = Ok s' →
    step (s, ready) (CommitDelete txn commit_ts blocks rows) (s', ready).

Inductive reach : list label → SegmentEntry * bool → Prop :=
| reach_new segment_id column_count : reach [] (NewSegmentEntry segment_id column_count, false)
| reach_step trace s l s' : reach trace s → step s l s' → reach (trace ++ [l]) s'.

(** The rows whose deletion was committed since the last compaction started. *)
Definition since_step (rows : list Z) (l : label) : list Z :=
  match l with
  | Compact => []
  | CommitDelete _ _ _ deleted => rows ++ segment_offsets deleted
  | _ => rows
  end.

Definition deleted_since (trace : list label) : list Z := fold_left since_step trace [].

Definition protocol_inv (trace : list label) (s : SegmentEntry) (ready : bool) : Prop :=
  match status_ s with
  | Status.kUnsealed | Status.kSealed => compact_state_data_ s = false ∧ ready = false
  | Status.kCompacting => compact_state_data_ s = true ∧ ready = false ∧ to_delete_ s = deleted_since trace
  | Status.kNoDelete =>
      compact_state_data_ s = negb ready ∧ to_delete_ s = deleted_since trace ∧ (ready = true → delete_txns_ s = ∅)
  | Status.kDeprecated => to_delete_ s = deleted_since trace ∧ delete_txns_ s = ∅
  end.

Lemma deleted_since_snoc trace l : deleted_since (trace ++ [l]) = since_step (deleted_since trace) l.
Proof. unfold deleted_since. by rewrite fold_left_app. Qed.

Lemma CommitSegment_delete s txn commit_ts blocks rows s' :
  CommitSegment s txn commit_ts blocks (Some rows) = Ok s' →
  ∃ s1, commit_delete s txn commit_ts rows = Ok s1 ∧ status_ s ≠ Status.kDeprecated ∧ status_ s' = status_ s1 ∧
    to_delete_ s' = to_delete_ s1 ∧ delete_txns_ s' = delete_txns_ s1 ∧ compact_state_data_ s' = compact_state_data_ s1.
Proof.
  unfold CommitSegment. destruct (status_ s) eqn:Hs; try done; (destruct (commit_delete s txn commit_ts rows) as [s1|] eqn:Hd; [|done]);
    cbn [res_bind]; (destruct (commit_ts <? _); [done|]); (destruct (res_fold _ _ _) as [bs|]; [|done]); intros [= <-];
    exists s1; by rewrite ?Hs.
Qed.

Lemma commit_delete_fields s txn commit_ts rows s1 :
  commit_delete s txn commit_ts rows = Ok s1 →
  status_ s1 = status_ s ∧ compact_state_data_ s1 = compact_state_data_ s ∧ delete_txns_ s1 = delete_txns_ s ∖ {[txn]} ∧
  to_delete_ s1 = if compact_state_data_ s then to_delete_ s ++ segment_offsets rows else to_delete_ s.
Proof.
  unfold commit_delete. destruct (compact_state_data_ s) eqn:Hc.
  - destruct (status_ s) eqn:Hs; try done; intros [= <-]; cbn; by rewrite Hs, Hc.
  - intros [= <-]. cbn. by rewrite Hc.
Qed.

Lemma protocol_step trace s ready l s' ready' :
  protocol_inv trace s ready → step (s, ready) l (s', ready') → protocol_inv (trace ++ [l]) s' ready'.
Proof.
  intros Hi Hstep. unfold protocol_inv in *.
  inversion Hstep as [? ? ? H1|? ? ? H1|? ? ? H1|? ? ? H1|? ? H1|? ? ? ? H1|? ? ? ? ? ? ? Hin H1]; subst; clear Hstep;
    rewrite deleted_since_snoc; cbn [since_step].
  - unfold SetSealed in H1. destruct (status_ s); try done. injection H1 as <-. done.
  - unfold TrySetCompacting in H1. destruct (status_ s); try done. by injection H1 as <-.
  - unfold SetNoDelete in H1. destruct (status_ s) eqn:Hs; try done; (case_decide; injection H1 as <- <-; cbn; naive_solver).
  - unfold SetDeprecated in H1. destruct (status_ s); try done. injection H1 as <-. cbn. naive_solver.
  - unfold RollbackCompact in H1. destruct (status_ s); try done. injection H1 as <-. cbn. naive_solver.
  - unfold CheckDeleteConflict, no_delete in H1. cbn [existsb map] in H1.
    destruct (status_ s) eqn:Hs; cbn [orb] in H1; try done; injection H1 as <-; cbn; by rewrite Hs.
  - destruct (CommitSegment_delete _ _ _ _ _ _ H1) as (s1 & Hd & Hne & -> & -> & -> & ->).
    destruct (commit_delete_fields _ _ _ _ _ Hd) as (-> & -> & -> & ->).
    destruct (status_ s) eqn:Hs; try done.
    + destruct Hi as (Hc & Hr & Ht). rewrite Hc, Ht. done.
    + destruct Hi as (Hc & Ht & Hr). destruct ready'; [set_solver|]. rewrite Hc, Ht. done.
Qed.

Lemma reach_inv trace s ready : reach trace (s, ready) → protocol_inv trace s ready.
Proof.
  intros Hr. remember (s, ready) as st eqn:Hst. revert s ready Hst.
  induction Hr as [|trace [s0 r0] l [s1 r1] Hr IH Hstep]; intros s ready [= <- <-]; [done|].
  eapply protocol_step; [by apply IH|done].
Qed.

Inductive steps : SegmentEntry * bool → list label → SegmentEntry * bool → Prop :=
| steps_refl s : steps s [] s
| steps_next s l s' trace s'' : step s l s' → steps s' trace s'' → steps s (l :: trace) s''.

(** Only its commit takes a transaction out of [delete_txns_]. *)
Lemma pending_step s ready l s' ready' txn :
  step (s, ready) l (s', ready') → txn ∈ delete_txns_ s → (∀ c blocks rows, l ≠ CommitDelete txn c blocks rows) → txn ∈ delete_txns_ s'.
Proof.
  intros Hstep Hin Hl.
  inversion Hstep as [? ? ? H1|? ? ? H1|? ? ? H1|? ? ? H1|? ? H1|? ? ? ? H1|? ? t ? ? ? ? _ H1]; subst; clear Hstep.
  - unfold SetSealed in H1. destruct (status_ s); try done. by injection H1 as <-.
  - unfold TrySetCompacting in H1. destruct (status_ s); try done. by injection H1 as <-.
  - unfold SetNoDelete in H1. destruct (status_ s); try done; (case_decide; by injection H1 as <- <-).
  - unfold SetDeprecated in H1. destruct (status_ s); try done. by injection H1 as <-.
  - unfold RollbackCompact in H1. destruct (status_ s); try done. by injection H1 as <-.
  - unfold CheckDeleteConflict in H1. destruct (existsb _ _); [done|]. injection H1 as <-. cbn. set_solver.
  - destruct (CommitSegment_delete _ _ _ _ _ _ H1) as (s1 & Hd & _ & _ & _ & -> & _).
    destruct (commit_delete_fields _ _ _ _ _ Hd) as (_ & _ & -> & _). destruct (decide (t = txn)) as [->|]; [|set_solver].
    by destruct (Hl commit_ts blocks rows).
Qed.

(** ** Properties *)

(** C17. A compaction loses no delete.  While a segment is compacted, [to_delete_] holds exactly the
    rows whose deletion was committed since the compaction started; once [SetNoDelete] has returned
    [true] no transaction has a delete pending and none can start one, so the list is complete when
    the compaction applies it; and committing a delete never fails the segment's assertions. *)
Theorem compaction_keeps_deletes trace s ready :
  reach trace (s, ready) →
  (status_ s = Status.kCompacting ∨ status_ s = Status.kNoDelete ∨ status_ s = Status.kDeprecated → to_delete_ s = deleted_since trace) ∧
  (ready = true → delete_txns_ s = ∅ ∧ ∀ txn, CheckDeleteConflict [s] txn = (true, [s])) ∧
  (∀ txn commit_ts rows, txn ∈ delete_txns_ s → is_ok (commit_delete s txn commit_ts rows)).
Proof.
  intros Hr. apply reach_inv in Hr. unfold protocol_inv in Hr. split; [|split].
  - intros [Hs|[Hs|Hs]]; rewrite Hs in Hr; tauto.
  - intros ->. unfold CheckDeleteConflict, no_delete. cbn [existsb].
    destruct (status_ s); [naive_solver..| |]; (split; [tauto|]); done.
  - intros txn commit_ts rows Hin. unfold commit_delete. destruct (compact_state_data_ s); [|done].
    destruct (status_ s); try done; [naive_solver..|]. destruct Hr as [_ Hr]. set_solver.
Qed.

(** A delete that is rolled back blocks compaction for good.  A transaction that passed
    [CheckDeleteConflict] leaves [delete_txns_] only when it commits: as long as it does not,
    [SetNoDelete] never returns [true], whatever else happens to the segment. *)
Theorem rolled_back_delete_blocks_compaction trace s ready txn trace' s' ready' :
  reach trace (s, ready) → txn ∈ delete_txns_ s → steps (s, ready) trace' (s', ready') →
  Forall (fun l => ∀ c blocks rows, l ≠ CommitDelete txn c blocks rows) trace' →
  ready' = false ∧ ∀ r s'', SetNoDelete s' = Ok (r, s'') → r = false.
Proof.
  intros Hr Hin Hsteps. remember (s, ready) as a eqn:Ha. remember (s', ready') as b eqn:Hb.
  revert trace s ready s' ready' Hr Hin Ha Hb. induction Hsteps as [a|a l [s1 r1] tr b Hstep Hsteps IH];
    intros trace s ready s' ready' Hr Hin -> Hb Hl.
  - injection Hb as <- <-. apply reach_inv in Hr. unfold protocol_inv in Hr. split.
    + destruct ready; [|done]. destruct (status_ s); [naive_solver..| |]; set_solver.
    + unfold SetNoDelete. intros r s''. destruct (status_ s); try done; (case_decide; [set_solver|by intros [= <- _]]).
  - apply Forall_cons in Hl as [Hl Htr]. eapply IH; [|by eapply pending_step|done|done|done].
    eapply reach_step; [exact Hr|exact Hstep].
Qed.

End SegmentEntry.

(** ** Examples *)

Notation sample_segment := (NewSegmentEntry (V := Z) 0 1).

Definition sealed_segment := (SetSealed sample_segment).2.
Definition deleting_segment := default sealed_segment (head (CheckDeleteConflict [sealed_segment] 7).2).
Definition compacting_segment := (TrySetCompacting deleting_segment true).2.

Lemma reach_compacting : reach [Seal; Check 7; Compact] (compacting_segment, false).
Proof.
  apply (reach_step [Seal; Check 7] (deleting_segment, false)); [|by constructor].
  apply (reach_step [Seal] (sealed_segment, false)); [|by constructor].
  apply (reach_step [] (sample_segment, false)); [constructor|by constructor].
Qed.

Lemma compaction_keeps_deletes_witness :
  ∃ s : @SegmentEntry Z, reach [Seal; Check 7; Compact; CommitDelete 7 20 [] [(0, [3; 5])]] (s, false) ∧ to_delete_ s = [3; 5].
Proof.
  destruct (CommitSegment compacting_segment 7 20 [] (Some [(0, [3; 5])])) as [s|] eqn:Hs; [|discriminate].
  assert (Hr : reach ([Seal; Check 7; Compact] ++ [CommitDelete 7 20 [] [(0, [3; 5])]]) (s, false)).
  { apply (reach_step _ (compacting_segment, false)); [apply reach_compacting|]. constructor; [|exact Hs].
    apply (bool_decide_unpack _). vm_compute. exact I. }
  exists s. split; [exact Hr|]. destruct (compaction_keeps_deletes _ _ _ Hr) as [H _]. rewrite H; [reflexivity|].
  left. vm_compute in Hs. injection Hs as <-. reflexivity.
Defined.

Lemma rolled_back_delete_blocks_compaction_witness :
  7 ∈ delete_txns_ compacting_segment ∧ ∀ r s, SetNoDelete compacting_segment = Ok (r, s) → r = false.
Proof.
  assert (Hin : 7 ∈ delete_txns_ compacting_segment) by (apply (bool_decide_unpack _); vm_compute; exact I).
  split; [exact Hin|].
  exact (proj2 (rolled_back_delete_blocks_compaction _ _ _ 7 [] _ _ reach_compacting Hin (steps_refl _) (Forall_nil_2 _))).
Defined.
