(* ===== verification/SegmentAppend.v ===== *)
(** * Appending rows to a table

    [SegmentEntry::AppendData] of [src/src/storage/meta/entry/segment_entry.cpp] and
    [TableEntry::Append] of [src/src/storage/meta/entry/table_entry.cpp]: the data blocks of a
    transaction are copied into the last block of the last segment, and new blocks and segments are
    started when these are full.  An [AppendState] keeps the place in the input. *)

From Stdlib Require Import ZArith Lia List.
From stdpp Require Import base list numbers gmap sets sorting.
From S2P Require Import Prelude Bytes CatalogDelta BlockVersion BlockEntry SegmentEntry.
Local Open Scope Z_scope.

Section SegmentAppend.
Context {V : Type}.
#[local] Existing Instance list_columns.
Notation Block := (@BlockEntry (list_columns V)).
Notation Segment := (@SegmentEntry V).

Record DataBlock := mkDataBlock { column_vectors : list (list V); data_row_count : Z }.

Record AppendRange := mkRange { range_segment_id : Z; range_block_id : Z; start_offset : Z; range_row_count : Z }.

Record AppendState := mkAppendState {
  blocks_ : list DataBlock;
  total_count_ : Z;
  current_count_ : Z;
  current_block_ : nat;
  current_block_offset_ : Z;
  append_ranges_ : list AppendRange;
}.

Definition AppendState_new (blocks : list DataBlock) : AppendState :=
  mkAppendState blocks (Zsum (map data_row_count blocks)) 0 0 0 [].

Definition Finished (st : AppendState) : bool := current_count_ st =? total_count_ st.

(** A new block has an empty column per column of the table. *)
Definition last_block (this : Segment) : list Block * Block :=
  let blocks := block_entries_ this in
  let fresh := @NewBlockEntry (list_columns V) (zlen blocks) (replicate (column_count_ this) []) in
  match last blocks with
  | Some b => if GetAvailableCapacity b <=? 0 then (blocks, fresh) else (removelast blocks, b)
  | None => (blocks, fresh)
  end.

(** [mut_blocks.push_back] unless the block is there already. *)
Definition add_mut_block (mut_blocks : list Z) (block_id : Z) : list Z :=
  match last mut_blocks with
  | Some id => if id =? block_id then mut_blocks else mut_blocks ++ [block_id]
  | None => [block_id]
  end.

(** One iteration of the inner loop: how many rows the last block took. *)
Definition append_step (txn_id commit_ts : Z) (this : Segment) (st : AppendState) (mut_blocks : list Z) (input_block : DataBlock)
    (to_append_rows : Z) : result (Z * Segment * AppendState * list Z) :=
  let '(blocks, last_block_entry) := last_block this in
  let range_block_start_row := block_row_count_ last_block_entry in
  let? '(actual_appended, b) :=
    AppendData last_block_entry txn_id commit_ts (column_vectors input_block) (current_block_offset_ st) to_append_rows in
  if to_append_rows <? actual_appended then Err UnrecoverableError
  else
    let range := mkRange (segment_id_ this) (block_id_ last_block_entry) range_block_start_row actual_appended in
    Ok (actual_appended,
        with_blocks this (blocks ++ [b]) (seg_row_count_ this + actual_appended) (actual_row_count_ this + actual_appended),
        mkAppendState (blocks_ st) (total_count_ st) (current_count_ st + actual_appended) (current_block_ st)
          (cast u16 (current_block_offset_ st + actual_appended)) (append_ranges_ st ++ [range]),
        add_mut_block mut_blocks (block_id_ last_block_entry)).

(** The inner loop; an iteration takes at least one row. *)
Fixpoint append_rows (fuel : nat) (txn_id commit_ts : Z) (this : Segment) (st : AppendState) (mut_blocks : list Z)
    (input_block : DataBlock) (to_append_rows total_copied : Z) : result (Z * Z * Segment * AppendState * list Z) :=
  if to_append_rows =? 0 then Ok (to_append_rows, total_copied, this, st, mut_blocks)
  else
    match fuel with
    | O => Err OutOfFuel
    | S fuel' =>
        let? '(actual, this, st, mut_blocks) := append_step txn_id commit_ts this st mut_blocks input_block to_append_rows in
        let to_append_rows := to_append_rows - actual in
        let total_copied := total_copied + actual in
        if seg_row_count_ this =? seg_row_capacity_ this then Ok (to_append_rows, total_copied, this, st, mut_blocks)
        else if seg_row_capacity_ this <? seg_row_count_ this then Err UnrecoverableError
        else append_rows fuel' txn_id commit_ts this st mut_blocks input_block to_append_rows total_copied
    end.

Definition next_block (st : AppendState) : AppendState :=
  mkAppendState (blocks_ st) (total_count_ st) (current_count_ st) (S (current_block_ st)) 0 (append_ranges_ st).

(** The outer loop, over the blocks of the input from the current one on; [n] is their number. *)
Fixpoint append_blocks (n : nat) (txn_id commit_ts : Z) (this : Segment) (st : AppendState) (mut_blocks : list Z) (total_copied : Z)
    : result (Z * Segment * AppendState * list Z) :=
  match blocks_ st !! current_block_ st with
  | Some input_block =>
      if seg_row_count_ this <? seg_row_capacity_ this then
        match n with
        | O => Err OutOfFuel
        | S n' =>
            let to_append_rows := cast u16 (data_row_count input_block - current_block_offset_ st) in
            let? '(to_append_rows, total_copied, this, st, mut_blocks) :=
              append_rows (Z.to_nat to_append_rows) txn_id commit_ts this st mut_blocks input_block to_append_rows total_copied in
            append_blocks n' txn_id commit_ts this (if to_append_rows =? 0 then next_block st else st) mut_blocks total_copied
        end
      else Ok (total_copied, this, st, mut_blocks)
  | None => Ok (total_copied, this, st, mut_blocks)
  end.

(** The rows copied, the segment, the append state and the blocks that changed. *)
Definition Segment_AppendData (this : Segment) (txn_id commit_ts : Z) (st : AppendState) : result (Z * Segment * AppendState * list Z) :=
  match status_ this with
  | Status.kUnsealed =>
      if seg_row_capacity_ this <=? seg_row_count_ this then Err UnrecoverableError
      else append_blocks (S (length (blocks_ st) - current_block_ st)) txn_id commit_ts this st [] 0
  | _ => Err UnrecoverableError
  end.

(** ** Tables *)

(** The segments before the unsealed one, the unsealed one, and those to be sealed at the commit. *)
Record TableEntry := mkTable {
  table_columns : nat;
  full_segments_ : list Segment;
  unsealed_segment_ : option Segment;
  next_segment_id_ : Z;
  set_sealed_segments_ : list Z;
  table_row_count_ : Z;
}.

Definition Room (s : Segment) : Z := cast i32 (seg_row_capacity_ s - seg_row_count_ s).

(** A segment with room to append to. *)
Definition open_segment (t : TableEntry) : list Segment * Segment * Z * list Z :=
  let fresh := NewSegmentEntry (next_segment_id_ t) (table_columns t) in
  match unsealed_segment_ t with
  | None => (full_segments_ t, fresh, next_segment_id_ t + 1, set_sealed_segments_ t)
  | Some s =>
      if Room s <=? 0
      then (full_segments_ t ++ [s], fresh, next_segment_id_ t + 1, set_sealed_segments_ t ++ [segment_id_ s])
      else (full_segments_ t, s, next_segment_id_ t, set_sealed_segments_ t)
  end.

Fixpoint append_segments (fuel : nat) (txn_id commit_ts : Z) (t : TableEntry) (st : AppendState) (row_count : Z)
    : result (TableEntry * AppendState) :=
  if Finished st then
    Ok (mkTable (table_columns t) (full_segments_ t) (unsealed_segment_ t) (next_segment_id_ t) (set_sealed_segments_ t)
          (table_row_count_ t + row_count), st)
  else
    match fuel with
    | O => Err OutOfFuel
    | S fuel' =>
        let '(full, s, next_id, sealed) := open_segment t in
        let? '(actual_appended, s, st, _) := Segment_AppendData s txn_id commit_ts st in
        append_segments fuel' txn_id commit_ts (mkTable (table_columns t) full (Some s) next_id sealed (table_row_count_ t)) st
          (row_count + actual_appended)
    end.

Definition add_rows (t : TableEntry) (n : Z) : TableEntry :=
  mkTable (table_columns t) (full_segments_ t) (unsealed_segment_ t) (next_segment_id_ t) (set_sealed_segments_ t) (table_row_count_ t + n).

(** [TableEntry::AppendData]; an iteration takes at least one row.  [flushed_segments] are those that an
    import of the transaction has written.  The insertion of the new rows into the memory indexes is
    left out. *)
Definition Table_AppendData (t : TableEntry) (deleted : bool) (txn_id commit_ts : Z) (flushed_segments : list Segment) (st : AppendState)
    : result (TableEntry * AppendState) :=
  if deleted then Err UnrecoverableError
  else if Finished st then
    match blocks_ st with
    | [] => Ok (fold_left (fun t s => add_rows t (seg_row_count_ s)) flushed_segments t, st)
    | _ => Ok (t, st)
    end
  else append_segments (Z.to_nat (total_count_ st)) txn_id commit_ts t st 0.

(** ** Well-formed segments and inputs *)

Notation bcap := DEFAULT_BLOCK_CAPACITY.

Definition block_ok (columns : nat) (b : Block) : Prop :=
  row_capacity_ b = bcap ∧ 0 ≤ block_row_count_ b ≤ bcap ∧ length (columns_ b) = columns ∧
  Forall (fun c : list V => zlen c = block_row_count_ b) (columns_ b).

(** All blocks but the last are full; capacities are whole blocks. *)
Record seg_ok (s : Segment) : Prop := {
  ok_blocks : Forall (block_ok (column_count_ s)) (block_entries_ s);
  ok_full : Forall (fun b => block_row_count_ b = bcap) (removelast (block_entries_ s));
  ok_ids : ∀ i b, block_entries_ s !! i = Some b → block_id_ b = Z.of_nat i;
  ok_count : seg_row_count_ s = Zsum (map block_row_count_ (block_entries_ s));
  ok_capacity : ∃ n, seg_row_capacity_ s = bcap * n;
  ok_room : seg_row_count_ s ≤ seg_row_capacity_ s < 2 ^ 31;
}.

(** The transaction may write to the last block. *)
Definition writable (s : Segment) (txn_id : Z) : Prop := ∀ b, last (block_entries_ s) = Some b → in_use b txn_id = false.

Definition block_column (j : nat) (b : Block) : list V := default [] (columns_ b !! j).
Definition seg_column (s : Segment) (j : nat) : list V := concat (map (block_column j) (block_entries_ s)).

Definition data_column (j : nat) (d : DataBlock) : list V := default [] (column_vectors d !! j).

Definition data_ok (columns : nat) (d : DataBlock) : Prop :=
  0 ≤ data_row_count d < 65536 ∧ length (column_vectors d) = columns ∧
  Forall (fun c : list V => zlen c = data_row_count d) (column_vectors d).

(** The rest of column [j] of the input. *)
Definition remaining (st : AppendState) (j : nat) : list V :=
  drop (Z.to_nat (current_block_offset_ st)) (concat (map (data_column j) (drop (current_block_ st) (blocks_ st)))).

(** How many rows are left. *)
Definition rows_left (st : AppendState) : Z :=
  Zsum (map data_row_count (drop (current_block_ st) (blocks_ st))) - current_block_offset_ st.

Definition state_ok (columns : nat) (st : AppendState) : Prop :=
  Forall (data_ok columns) (blocks_ st) ∧ total_count_ st - current_count_ st = rows_left st ∧ 0 ≤ current_block_offset_ st ∧
  match blocks_ st !! current_block_ st with
  | Some d => current_block_offset_ st ≤ data_row_count d
  | None => current_block_offset_ st = 0
  end.

(** ** One step *)

Lemma append_columns_list cols : ∀ vecs offset n,
  length vecs = length cols →
  @append_columns (list_columns V) cols vecs offset n = Ok (zip_with (fun c v => c ++ take (Z.to_nat n) (drop (Z.to_nat offset) v)) cols vecs).
Proof.
  induction cols as [|c cols IH]; intros vecs offset n Hl; [by destruct vecs|].
  destruct vecs as [|v vecs]; [done|]. injection Hl as Hl. cbn [append_columns]. cbn. rewrite IH by done. done.
Qed.

Lemma last_block_ok s txn blocks b :
  seg_ok s → writable s txn → seg_row_count_ s < seg_row_capacity_ s → last_block s = (blocks, b) →
  block_ok (column_count_ s) b ∧ block_row_count_ b < bcap ∧ in_use b txn = false ∧
  Forall (block_ok (column_count_ s)) blocks ∧ Forall (fun b => block_row_count_ b = bcap) blocks ∧
  seg_row_count_ s = Zsum (map block_row_count_ blocks) + block_row_count_ b ∧
  (∀ i b', (blocks ++ [b]) !! i = Some b' → block_id_ b' = Z.of_nat i) ∧
  ∀ j, seg_column s j = concat (map (block_column j) blocks) ++ block_column j b.
Proof.
  intros Hs Hw Hr. unfold last_block.
  set (fresh := @NewBlockEntry (list_columns V) (zlen (block_entries_ s)) (replicate (column_count_ s) [])).
  assert (Hfresh : block_ok (column_count_ s) fresh).
  { split; [done|]. split; [cbn; unfold bcap; lia|]. cbn. split; [apply length_replicate|]. apply Forall_replicate. done. }
  assert (Hcol : ∀ j, block_column j fresh = []).
  { intros j. unfold block_column, fresh. cbn. destruct (replicate _ _ !! j) as [c|] eqn:Hc; [|done].
    by apply lookup_replicate in Hc as [-> _]. }
  pose proof (ok_ids _ Hs) as Hid.
  assert (Hids : ∀ i b', (block_entries_ s ++ [fresh]) !! i = Some b' → block_id_ b' = Z.of_nat i).
  { intros i b' Hi. apply lookup_app_Some in Hi as [Hi|[Hge Hi]]; [by apply Hid|].
    apply list_lookup_singleton_Some in Hi as [Hz <-]. cbn. unfold zlen. lia. }
  pose proof (ok_blocks _ Hs) as Hb. pose proof (ok_full _ Hs) as Hf. pose proof (ok_count _ Hs) as Hc.
  destruct (last (block_entries_ s)) as [l|] eqn:Hl.
  - apply last_Some in Hl as Hl'. destruct Hl' as [bs Hbs]. unfold seg_column. rewrite Hbs in *. rewrite removelast_last in *.
    apply Forall_app in Hb as [Hbs' Hbl]. apply Forall_cons in Hbl as [Hbl _].
    rewrite map_app, Zsum_app in Hc. cbn [map Zsum fold_right] in Hc. pose proof Hbl as (Hcap & Hrange & _).
    destruct (Z.leb_spec (GetAvailableCapacity l) 0) as [Hfull|Hroom]; intros [= <- <-]; unfold GetAvailableCapacity in *.
    + split; [done|]. split; [cbn; unfold bcap; lia|]. split; [done|]. split; [apply Forall_app; split; [done|by constructor]|].
      split; [apply Forall_app; split; [done|constructor; [lia|done]]|].
      split; [rewrite map_app, Zsum_app; cbn; lia|]. split; [done|]. intros j. by rewrite Hcol, app_nil_r.
    + split; [done|]. split; [lia|]. split; [apply Hw; by rewrite Hbs|]. split; [done|]. split; [done|]. split; [lia|]. split; [done|].
      intros j. rewrite map_app, concat_app. cbn. by rewrite app_nil_r.
  - intros [= <- <-]. apply last_None in Hl as Hnil. unfold seg_column. rewrite Hnil in *. cbn in *.
    split; [done|]. split; [unfold bcap; lia|]. split; [done|]. split; [done|]. split; [done|]. split; [lia|]. split; [exact Hids|].
    intros j. by rewrite Hcol.
Qed.

Lemma AppendData_list b txn c vecs offset n :
  in_use b txn = false → row_capacity_ b = bcap → 0 ≤ block_row_count_ b ≤ bcap → 0 ≤ n < 65536 → length vecs = length (columns_ b) →
  let m := Z.min n (bcap - block_row_count_ b) in
  @AppendData (list_columns V) b txn c vecs offset n =
  Ok (m, set_rows b txn (block_row_count_ b + m)
           (mkVersion (created_ (version_ b) ++ [mkCreateField c (block_row_count_ b + m)]) (deleted_ (version_ b)))
           (zip_with (fun c v => c ++ take (Z.to_nat m) (drop (Z.to_nat offset) v)) (columns_ b) vecs)).
Proof.
  intros Hu Hcap Hr Hn Hl m. unfold AppendData. rewrite Hu, Hcap. unfold bcap in *.
  assert (Hm : (if 8192 <? block_row_count_ b + n then cast u16 (8192 - block_row_count_ b) else n) = m).
  { subst m. destruct (Z.ltb_spec 8192 (block_row_count_ b + n)); [rewrite cast_u16 by lia|]; lia. }
  rewrite Hm, append_columns_list by done. cbn [res_bind]. rewrite cast_u16 by lia. done.
Qed.

Lemma zip_column (cols vecs : list (list V)) n o j :
  length cols = length vecs →
  default [] (zip_with (fun c v => c ++ take n (drop o v)) cols vecs !! j) = default [] (cols !! j) ++ take n (drop o (default [] (vecs !! j))).
Proof.
  intros Hl. rewrite lookup_zip_with.
  destruct (cols !! j) as [c|] eqn:Hc, (vecs !! j) as [v|] eqn:Hv; cbn; [done| | |by rewrite drop_nil, take_nil].
  - apply lookup_lt_Some in Hc. apply lookup_ge_None in Hv. lia.
  - apply lookup_lt_Some in Hv. apply lookup_ge_None in Hc. lia.
Qed.

Lemma Zsum_full (blocks : list Block) :
  Forall (fun b => block_row_count_ b = bcap) blocks → Zsum (map block_row_count_ blocks) = bcap * zlen blocks.
Proof. induction 1 as [|b blocks Hb Hbs IH]; [done|]. rewrite zlen_cons. cbn [map Zsum fold_right]. fold (Zsum (map block_row_count_ blocks)). lia. Qed.

Definition range_begin (r : AppendRange) : Z := range_block_id r * bcap + start_offset r.

(** What a step does: [n] more rows of the current input block are at the end of the segment. *)
Lemma append_step_ok s txn c st mut d k :
  seg_ok s → writable s txn → seg_row_count_ s < seg_row_capacity_ s → data_ok (column_count_ s) d →
  0 ≤ current_block_offset_ st → current_block_offset_ st + k ≤ data_row_count d → 0 < k →
  ∃ n s' r mut', append_step txn c s st mut d k =
      Ok (n, s', mkAppendState (blocks_ st) (total_count_ st) (current_count_ st + n) (current_block_ st)
                   (current_block_offset_ st + n) (append_ranges_ st ++ [r]), mut') ∧
    0 < n ≤ k ∧ seg_ok s' ∧ writable s' txn ∧ seg_row_count_ s' = seg_row_count_ s + n ∧
    seg_row_capacity_ s' = seg_row_capacity_ s ∧ segment_id_ s' = segment_id_ s ∧ column_count_ s' = column_count_ s ∧
    status_ s' = status_ s ∧ range_segment_id r = segment_id_ s ∧ range_begin r = seg_row_count_ s ∧ range_row_count r = n ∧
    ∀ j, seg_column s' j = seg_column s j ++ take (Z.to_nat n) (drop (Z.to_nat (current_block_offset_ st)) (data_column j d)).
Proof.
  intros Hs Hw Hr (Hd & Hdc & Hdl) Ho Hk Hpos. unfold append_step. destruct (last_block s) as [blocks b] eqn:Hlast.
  destruct (last_block_ok s txn blocks b Hs Hw Hr Hlast) as ((Hcap & Hbr & Hbc & Hbl) & Hroom & Hu & Hbs & Hfull & Hcount & Hids & Hcol).
  rewrite (AppendData_list b txn c _ _ k Hu Hcap Hbr ltac:(lia) (eq_trans Hdc (eq_sym Hbc))). cbn [res_bind].
  set (n := Z.min k (bcap - block_row_count_ b)). rewrite (proj2 (Z.ltb_ge k n)) by lia. rewrite cast_u16 by lia.
  set (b' := set_rows b txn _ _ _).
  assert (Hn : 0 < n ≤ k) by lia.
  assert (Hb' : block_ok (column_count_ s) b').
  { split; [done|]. split; [cbn; lia|]. cbn [b' set_rows columns_ block_row_count_]. split; [etrans; [apply length_zip_with_l_eq|exact Hbc]; exact (eq_trans Hbc (eq_sym Hdc))|].
    apply (Forall_zip_with_fst _ (fun c : list V => zlen c = block_row_count_ b)); [done|].
    eapply Forall_impl; [exact Hdl|]. intros v Hv col Hcl. unfold zlen in *. rewrite length_app, length_take, length_drop. lia. }
  destruct (ok_capacity _ Hs) as [N HN]. pose proof (ok_room _ Hs) as [_ Hmax]. pose proof (Zsum_full blocks Hfull) as Hsum.
  assert (Hlen : zlen blocks < N) by (unfold bcap in *; lia).
  eexists n, _, _, _. split; [reflexivity|]. split; [done|]. split; [|split; [|split_and!; try done]].
  - constructor; cbn [with_blocks block_entries_ column_count_ seg_row_count_ seg_row_capacity_].
    + apply Forall_app. split; [done|]. by constructor.
    + by rewrite removelast_last.
    + intros i b1 Hi. apply lookup_app_Some in Hi as [Hi|[Hge Hi]]; [apply Hids; by rewrite lookup_app_l by (by eapply lookup_lt_Some)|].
      apply list_lookup_singleton_Some in Hi as [Hz <-]. apply (Hids i b). rewrite lookup_app_r by done. by rewrite Hz.
    + rewrite map_app, Zsum_app. cbn [map Zsum fold_right b' set_rows block_row_count_]. lia.
    + apply Hs.
    + unfold bcap in *. lia.
  - intros b1. cbn [with_blocks block_entries_]. rewrite last_snoc. intros [= <-]. by apply in_use_self.
  - unfold range_begin. cbn [range_block_id start_offset]. rewrite (Hids (length blocks) b) by (by rewrite list_lookup_middle).
    fold (zlen blocks). lia.
  - intros j. unfold seg_column at 1. cbn [with_blocks block_entries_]. rewrite map_app, concat_app, Hcol, <- app_assoc. f_equal.
    cbn [map concat]. rewrite app_nil_r. unfold block_column, data_column. cbn [b' set_rows columns_].
    apply zip_column. exact (eq_trans Hbc (eq_sym Hdc)).
Qed.

(** ** The loops *)

(** [n] rows more, whose columns are [rows]. *)
Record grown (s s' : Segment) (txn n : Z) (rows : nat → list V) : Prop := {
  grown_ok : seg_ok s';
  grown_writable : writable s' txn;
  grown_count : seg_row_count_ s' = seg_row_count_ s + n;
  grown_capacity : seg_row_capacity_ s' = seg_row_capacity_ s;
  grown_id : segment_id_ s' = segment_id_ s;
  grown_columns : column_count_ s' = column_count_ s;
  grown_status : status_ s' = status_ s;
  grown_rows : ∀ j, (j < column_count_ s)%nat → seg_column s' j = seg_column s j ++ rows j;
}.

(** Ranges of rows of segment [id], one after the other, from [lo] to [hi]. *)
Fixpoint ranges_cover (id lo : Z) (ranges : list AppendRange) (hi : Z) : Prop :=
  match ranges with
  | [] => lo = hi
  | r :: ranges' =>
      range_segment_id r = id ∧ range_begin r = lo ∧ 0 < range_row_count r ∧ ranges_cover id (lo + range_row_count r) ranges' hi
  end.

Lemma grown_refl s txn : seg_ok s → writable s txn → grown s s txn 0 (fun _ => []).
Proof. intros Hs Hw. constructor; try done; [lia|]. intros. by rewrite app_nil_r. Qed.

Lemma grown_trans s s1 s2 txn n1 n2 r1 r2 rows :
  grown s s1 txn n1 r1 → grown s1 s2 txn n2 r2 → (∀ j, (j < column_count_ s)%nat → rows j = r1 j ++ r2 j) → grown s s2 txn (n1 + n2) rows.
Proof.
  intros H1 H2 Hr. destruct H1, H2. constructor; try done; try congruence; [lia|].
  intros j Hj. rewrite grown_rows1, grown_rows0, Hr, app_assoc by congruence. done.
Qed.

Lemma ranges_cover_app id ranges : ∀ lo mid hi ranges',
  ranges_cover id lo ranges mid → ranges_cover id mid ranges' hi → ranges_cover id lo (ranges ++ ranges') hi.
Proof.
  induction ranges as [|r ranges IH]; intros lo mid hi ranges' H1 H2; [by simpl in H1; subst|].
  destruct H1 as (? & ? & ? & H1). cbn [app ranges_cover]. split_and!; try done. by eapply IH.
Qed.

Definition advance_state (st : AppendState) (n : Z) (ranges : list AppendRange) : AppendState :=
  mkAppendState (blocks_ st) (total_count_ st) (current_count_ st + n) (current_block_ st) (current_block_offset_ st + n)
    (append_ranges_ st ++ ranges).

Lemma take_add {A} (l : list A) n m : take (n + m) l = take n l ++ take m (drop n l).
Proof. rewrite <- (take_drop n (take (n + m) l)). rewrite take_take, skipn_firstn_comm. f_equal; f_equal; lia. Qed.

Lemma append_rows_ok txn c d fuel : ∀ s st mut k tot,
  seg_ok s → writable s txn → seg_row_count_ s < seg_row_capacity_ s → data_ok (column_count_ s) d →
  0 ≤ current_block_offset_ st → 0 ≤ k → current_block_offset_ st + k = data_row_count d → k ≤ Z.of_nat fuel →
  ∃ n s' ranges mut', append_rows fuel txn c s st mut d k tot = Ok (k - n, tot + n, s', advance_state st n ranges, mut') ∧
    0 ≤ n ≤ k ∧ (0 < k → 0 < n) ∧ (n = k ∨ seg_row_count_ s' = seg_row_capacity_ s') ∧
    grown s s' txn n (fun j => take (Z.to_nat n) (drop (Z.to_nat (current_block_offset_ st)) (data_column j d))) ∧
    ranges_cover (segment_id_ s) (seg_row_count_ s) ranges (seg_row_count_ s').
Proof.
  induction fuel as [|fuel IH]; intros s st mut k tot Hs Hw Hr Hd Ho Hk Hod Hfuel; cbn [append_rows].
  - assert (k = 0) as -> by lia. exists 0, s, [], mut. cbn [Z.eqb]. unfold advance_state. rewrite app_nil_r, !Z.add_0_r.
    split; [by destruct st|]. split; [lia|]. split; [lia|]. split; [by left|]. split; [by apply grown_refl|done].
  - destruct (Z.eqb_spec k 0) as [->|Hne].
    { exists 0, s, [], mut. unfold advance_state. rewrite app_nil_r, !Z.add_0_r.
      split; [by destruct st|]. split; [lia|]. split; [lia|]. split; [by left|]. split; [by apply grown_refl|done]. }
    destruct (append_step_ok s txn c st mut d k Hs Hw Hr Hd Ho ltac:(lia) ltac:(lia))
      as (n & s1 & r & mut1 & -> & Hn & Hs1 & Hw1 & Hc1 & Hcap1 & Hid1 & Hcols1 & Hst1 & Hrid & Hrb & Hrn & Hcol1).
    cbn [res_bind]. fold (advance_state st n [r]).
    assert (Hg1 : grown s s1 txn n (fun j => take (Z.to_nat n) (drop (Z.to_nat (current_block_offset_ st)) (data_column j d)))).
    { by constructor. }
    assert (Hcov : ranges_cover (segment_id_ s) (seg_row_count_ s) [r] (seg_row_count_ s1)) by (cbn; split_and!; try done; lia).
    destruct (Z.eqb_spec (seg_row_count_ s1) (seg_row_capacity_ s1)) as [Hfull|Hroom].
    { exists n, s1, [r], mut1. split; [done|]. split; [lia|]. split; [lia|]. split; [by right|]. done. }
    pose proof (ok_room _ Hs1) as [Hle _]. rewrite (proj2 (Z.ltb_ge _ _)) by lia.
    destruct (IH s1 (advance_state st n [r]) mut1 (k - n) (tot + n)) as (n2 & s2 & rs & mut2 & -> & Hn2 & _ & Hend & Hg2 & Hcov2);
      try done; try (cbn; lia); [by rewrite Hcols1|].
    exists (n + n2), s2, (r :: rs), mut2. split.
    { unfold advance_state. cbn [blocks_ total_count_ current_count_ current_block_ current_block_offset_ append_ranges_].
      rewrite <- app_assoc, <- !Z.add_assoc. by replace (k - n - n2) with (k - (n + n2)) by lia. }
    split; [lia|]. split; [lia|]. split; [destruct Hend; [left; lia|by right]|]. split.
    + eapply grown_trans; [exact Hg1|exact Hg2|]. intros j _. cbn [advance_state current_block_offset_].
      rewrite !Z2Nat.inj_add, take_add by lia. by rewrite drop_drop.
    + rewrite Hid1 in Hcov2. by apply (ranges_cover_app _ [r] _ (seg_row_count_ s1)).
Qed.

Lemma column_length (cols : list (list V)) j n :
  (j < length cols)%nat → Forall (fun c => zlen c = n) cols → zlen (default [] (cols !! j)) = n.
Proof.
  intros Hj Hf. destruct (lookup_lt_is_Some_2 cols j Hj) as [v Hv]. rewrite Hv. exact (Forall_lookup_1 _ _ _ _ Hf Hv).
Qed.

Lemma data_column_length columns d j : data_ok columns d → (j < columns)%nat → zlen (data_column j d) = data_row_count d.
Proof. intros (_ & Hl & Hf) Hj. apply column_length; [lia|done]. Qed.

Lemma rest_of_input (st : AppendState) d :
  blocks_ st !! current_block_ st = Some d → drop (current_block_ st) (blocks_ st) = d :: drop (S (current_block_ st)) (blocks_ st).
Proof. intros. by apply drop_S. Qed.

(** After [n] rows of the current block: the rows left and the place in the input. *)
Lemma advance_ok columns st d n ranges :
  state_ok columns st → blocks_ st !! current_block_ st = Some d → 0 ≤ n ≤ data_row_count d - current_block_offset_ st →
  let st' := advance_state st n ranges in
  let st' := if data_row_count d - current_block_offset_ st - n =? 0 then next_block st' else st' in
  state_ok columns st' ∧ rows_left st' = rows_left st - n ∧ blocks_ st' = blocks_ st ∧
  append_ranges_ st' = append_ranges_ st ++ ranges ∧ total_count_ st' = total_count_ st ∧
  ∀ j, (j < columns)%nat → remaining st' j = drop (Z.to_nat n) (remaining st j) ∧
    take (Z.to_nat n) (drop (Z.to_nat (current_block_offset_ st)) (data_column j d)) = take (Z.to_nat n) (remaining st j).
Proof.
  intros (Hb & Htot & Ho & Hcur) Hd Hn st1 st'. rewrite Hd in Hcur. pose proof (rest_of_input st d Hd) as Hrest.
  pose proof (Forall_lookup_1 _ _ _ _ Hb Hd) as Hdok.
  assert (Hleft : rows_left st = data_row_count d + Zsum (map data_row_count (drop (S (current_block_ st)) (blocks_ st))) - current_block_offset_ st).
  { unfold rows_left. by rewrite Hrest. }
  assert (Htake : ∀ j, (j < columns)%nat →
    take (Z.to_nat n) (drop (Z.to_nat (current_block_offset_ st)) (data_column j d)) = take (Z.to_nat n) (remaining st j)).
  { intros j Hj. pose proof (data_column_length _ _ j Hdok Hj) as Hl. unfold zlen in Hl. unfold remaining. rewrite Hrest. cbn [map concat].
    rewrite drop_app_le by lia. rewrite take_app_le; [done|]. rewrite length_drop. lia. }
  subst st' st1. destruct (Z.eqb_spec (data_row_count d - current_block_offset_ st - n) 0) as [Hz|Hz].
  - assert (Hleft' : rows_left (next_block (advance_state st n ranges)) = rows_left st - n).
    { rewrite Hleft. unfold rows_left. cbn [next_block advance_state blocks_ current_block_ current_block_offset_]. lia. }
    split; [|split; [done|split; [done|split; [done|split; [done|]]]]].
    + split; [done|]. cbn [next_block advance_state total_count_ current_count_ current_block_offset_ blocks_ current_block_].
      rewrite Hleft'. split; [lia|]. split; [done|]. destruct (blocks_ st !! S (current_block_ st)) eqn:Hnext; [|done].
      by destruct (Forall_lookup_1 _ _ _ _ Hb Hnext) as [[? _] _].
    + intros j Hj. split; [|by apply Htake]. pose proof (data_column_length _ _ j Hdok Hj) as Hl. unfold zlen in Hl.
      unfold remaining. cbn [next_block advance_state blocks_ current_block_ current_block_offset_]. rewrite Hrest. cbn [map concat]. rewrite drop_drop, drop_app_ge by lia.
      by replace (_ - _)%nat with 0%nat by lia.
  - assert (Hleft' : rows_left (advance_state st n ranges) = rows_left st - n) by (unfold rows_left; cbn [advance_state blocks_ current_block_ current_block_offset_]; lia).
    split; [|split; [done|split; [done|split; [done|split; [done|]]]]].
    + split; [done|]. cbn [advance_state total_count_ current_count_ current_block_offset_ blocks_ current_block_].
      rewrite Hleft'. split; [lia|]. split; [lia|]. rewrite Hd. lia.
    + intros j Hj. split; [|by apply Htake]. unfold remaining. cbn [advance_state blocks_ current_block_ current_block_offset_].
      rewrite drop_drop. f_equal. lia.
Qed.

Lemma rows_left_none columns st : state_ok columns st → blocks_ st !! current_block_ st = None → rows_left st = 0.
Proof.
  intros (_ & _ & _ & Hc) Hn. rewrite Hn in Hc. unfold rows_left. rewrite drop_ge by (by apply lookup_ge_None). cbn. lia.
Qed.

(** As many rows as there are, or fit, went from the input to the end of the segment. *)
Definition appended (txn : Z) (s : Segment) (st : AppendState) (tot : Z) (res : result (Z * Segment * AppendState * list Z)) : Prop :=
  ∃ n s' st' ranges mut', res = Ok (tot + n, s', st', mut') ∧
    0 ≤ n ∧ n = Z.min (rows_left st) (seg_row_capacity_ s - seg_row_count_ s) ∧
    grown s s' txn n (fun j => take (Z.to_nat n) (remaining st j)) ∧ ranges_cover (segment_id_ s) (seg_row_count_ s) ranges (seg_row_count_ s') ∧
    state_ok (column_count_ s) st' ∧ rows_left st' = rows_left st - n ∧ blocks_ st' = blocks_ st ∧
    append_ranges_ st' = append_ranges_ st ++ ranges ∧ total_count_ st' = total_count_ st ∧
    ∀ j, (j < column_count_ s)%nat → remaining st' j = drop (Z.to_nat n) (remaining st j).

Lemma appended_none txn s st mut tot :
  seg_ok s → writable s txn → state_ok (column_count_ s) st → 0 = Z.min (rows_left st) (seg_row_capacity_ s - seg_row_count_ s) →
  appended txn s st tot (Ok (tot, s, st, mut)).
Proof.
  intros Hs Hw Hst Hz. exists 0, s, st, [], mut. rewrite Z.add_0_r, app_nil_r. split_and!; try done; try lia. by apply grown_refl.
Qed.

Lemma append_blocks_ok txn c m : ∀ s st mut tot,
  seg_ok s → writable s txn → state_ok (column_count_ s) st → (length (blocks_ st) < m + current_block_ st)%nat →
  appended txn s st tot (append_blocks m txn c s st mut tot).
Proof.
  induction m as [|m IH]; intros s st mut tot Hs Hw Hst Hm; cbn [append_blocks];
    (destruct (blocks_ st !! current_block_ st) as [d|] eqn:Hd;
      [|apply appended_none; try done; rewrite (rows_left_none _ st Hst Hd); pose proof (ok_room _ Hs); lia]);
    pose proof (ok_room _ Hs) as [Hroom _].
  { apply lookup_lt_Some in Hd. lia. }
  pose proof Hst as (Hb & Htot & Ho & Hcur). rewrite Hd in Hcur. pose proof (Forall_lookup_1 _ _ _ _ Hb Hd) as Hdok.
  assert (Hleft : data_row_count d - current_block_offset_ st ≤ rows_left st).
  { unfold rows_left. rewrite (rest_of_input st d Hd). cbn [map Zsum fold_right].
    enough (0 ≤ Zsum (map data_row_count (drop (S (current_block_ st)) (blocks_ st)))) as H by (unfold Zsum in H; lia).
    apply (Forall_drop _ (S (current_block_ st))) in Hb. revert Hb. generalize (drop (S (current_block_ st)) (blocks_ st)). clear.
    intros l Hl. induction Hl as [|x l [[? _] _] _ IH]; [done|]. cbn [map Zsum fold_right]. unfold Zsum in IH. lia. }
  destruct (Z.ltb_spec (seg_row_count_ s) (seg_row_capacity_ s)) as [Hlt|Hge].
  2: { apply appended_none; try done. lia. }
  pose proof Hdok as [Hdr _]. rewrite cast_u16 by lia. set (k := data_row_count d - current_block_offset_ st) in *.
  destruct (append_rows_ok txn c d (Z.to_nat k) s st mut k tot Hs Hw Hlt Hdok Ho ltac:(lia) ltac:(lia) ltac:(lia))
    as (n & s1 & rs & mut1 & -> & Hn & Hpos & Hend & Hg & Hcov).
  cbn [res_bind]. destruct (advance_ok _ st d n rs Hst Hd Hn) as (Hst1 & Hl1 & Hb1 & Hr1 & Ht1 & Hrem).
  fold k in Hst1, Hl1, Hb1, Hr1, Ht1, Hrem. set (st1 := if k - n =? 0 then _ else _) in *.
  rewrite <- (grown_columns _ _ _ _ _ Hg) in Hst1.
  destruct (Z.eqb_spec (k - n) 0) as [Hz|Hz].
  - destruct (IH s1 st1 mut1 (tot + n)) as (n2 & s2 & st2 & rs2 & mut2 & -> & Hn2 & Hmin & Hg2 & Hcov2 & Hst2 & Hl2 & Hb2 & Hr2 & Ht2 & Hrem2);
      [apply Hg|apply Hg|done|subst st1; cbn; lia|].
    rewrite (grown_count _ _ _ _ _ Hg), (grown_capacity _ _ _ _ _ Hg) in Hmin. rewrite (grown_id _ _ _ _ _ Hg) in Hcov2.
    rewrite (grown_columns _ _ _ _ _ Hg) in Hst2, Hrem2.
    exists (n + n2), s2, st2, (rs ++ rs2), mut2. split; [by rewrite Z.add_assoc|]. split; [lia|].
    split; [pose proof (ok_room _ (grown_ok _ _ _ _ _ Hg)) as [Hroom1 _]; rewrite (grown_count _ _ _ _ _ Hg), (grown_capacity _ _ _ _ _ Hg) in Hroom1; lia|].
    split; [eapply grown_trans; [exact Hg|exact Hg2|]|split_and!; try done; try congruence].
    + intros j Hj. destruct (Hrem j Hj) as [-> ->]. by rewrite Z2Nat.inj_add, take_add by lia.
    + by eapply ranges_cover_app.
    + lia.
    + by rewrite Hr2, Hr1, app_assoc.
    + intros j Hj. rewrite Hrem2 by done. destruct (Hrem j Hj) as [-> _]. rewrite drop_drop. f_equal. lia.
  - destruct Hend as [Hend|Hend]; [lia|].
    assert (He : append_blocks m txn c s1 st1 mut1 (tot + n) = Ok (tot + n, s1, st1, mut1)).
    { subst st1. destruct m; cbn [append_blocks]; cbn [advance_state blocks_ current_block_]; rewrite Hd, Hend, Z.ltb_irrefl; done. }
    rewrite He. rewrite (grown_columns _ _ _ _ _ Hg) in Hst1. exists n, s1, st1, rs, mut1.
    rewrite (grown_count _ _ _ _ _ Hg), (grown_capacity _ _ _ _ _ Hg) in Hend.
    split_and!; try done; try lia.
    + destruct Hg. constructor; try done. intros j Hj. destruct (Hrem j Hj) as [_ <-]. by apply grown_rows0.
    + intros j Hj. by apply Hrem.
Qed.

Lemma Segment_AppendData_ok s txn c st :
  seg_ok s → writable s txn → state_ok (column_count_ s) st → status_ s = Status.kUnsealed → seg_row_count_ s < seg_row_capacity_ s →
  appended txn s st 0 (Segment_AppendData s txn c st).
Proof.
  intros Hs Hw Hst Hu Hr. unfold Segment_AppendData. rewrite Hu, (proj2 (Z.leb_gt _ _)) by done.
  apply append_blocks_ok; try done. destruct Hst as (_ & _ & _ & Hc).
  destruct (blocks_ st !! current_block_ st) eqn:Hd; [apply lookup_lt_Some in Hd|apply lookup_ge_None in Hd]; lia.
Qed.

(** The rows of a range are those of the segment it names. *)
Definition range_rows (column : list V) (r : AppendRange) : list V :=
  take (Z.to_nat (range_row_count r)) (drop (Z.to_nat (range_begin r)) column).

Lemma ranges_cover_le id ranges : ∀ lo hi, ranges_cover id lo ranges hi → lo ≤ hi.
Proof.
  induction ranges as [|r ranges IH]; intros lo hi H; [by simpl in H; subst|].
  destruct H as (_ & _ & Hn & H). apply IH in H. lia.
Qed.

Lemma ranges_cover_rows id column ranges : ∀ lo hi,
  0 ≤ lo → ranges_cover id lo ranges hi → concat (map (range_rows column) ranges) = take (Z.to_nat (hi - lo)) (drop (Z.to_nat lo) column).
Proof.
  induction ranges as [|r ranges IH]; intros lo hi Hlo H.
  - simpl in H. subst. by rewrite Z.sub_diag.
  - destruct H as (_ & Hb & Hn & H). pose proof (ranges_cover_le _ _ _ _ H). cbn [map concat].
    rewrite (IH (lo + range_row_count r) hi ltac:(lia) H). unfold range_rows. rewrite Hb.
    replace (Z.to_nat (hi - lo)) with (Z.to_nat (range_row_count r) + Z.to_nat (hi - (lo + range_row_count r)))%nat by lia.
    rewrite take_add, drop_drop. do 3 f_equal. lia.
Qed.

(** ** Tables *)

Definition segments (t : TableEntry) : list Segment := full_segments_ t ++ option_list (unsealed_segment_ t).

Definition table_column (t : TableEntry) (j : nat) : list V := concat (map (fun s => seg_column s j) (segments t)).

(** The segment to append to is well formed and open to the transaction. *)
Definition table_ok (t : TableEntry) (txn : Z) : Prop :=
  match unsealed_segment_ t with
  | None => True
  | Some s => seg_ok s ∧ writable s txn ∧ status_ s = Status.kUnsealed ∧ column_count_ s = table_columns t
  end.

Lemma NewSegmentEntry_ok id columns txn :
  let s := NewSegmentEntry (V := V) id columns in
  seg_ok s ∧ writable s txn ∧ status_ s = Status.kUnsealed ∧ column_count_ s = columns ∧ seg_row_count_ s < seg_row_capacity_ s ∧
  ∀ j, seg_column s j = [].
Proof.
  cbn. split; [|split_and!; try done; by intros b].
  constructor; cbn; try done.
  exists 1024. done.
Qed.

Lemma open_segment_ok t txn full s next_id sealed :
  table_ok t txn → open_segment t = (full, s, next_id, sealed) →
  seg_ok s ∧ writable s txn ∧ status_ s = Status.kUnsealed ∧ column_count_ s = table_columns t ∧ seg_row_count_ s < seg_row_capacity_ s ∧
  ∀ j, concat (map (fun s => seg_column s j) full) ++ seg_column s j = table_column t j.
Proof.
  intros Ht. unfold open_segment, table_ok, table_column, segments in *.
  pose proof (NewSegmentEntry_ok (next_segment_id_ t) (table_columns t) txn) as (Hok & Hw & Hu & Hc & Hr & Hcol). cbn zeta in *.
  destruct (unsealed_segment_ t) as [s0|].
  - destruct Ht as (Hs0 & Hw0 & Hu0 & Hc0). pose proof (ok_room _ Hs0) as [Hle Hmax]. change (2 ^ 31) with 2147483648 in Hmax.
    assert (0 ≤ seg_row_count_ s0).
    { rewrite (ok_count _ Hs0). pose proof (ok_blocks _ Hs0) as Hb. clear -Hb.
      induction Hb as [|b l (_ & ? & _) _ IH]; [done|]. cbn [map Zsum fold_right]. unfold Zsum in IH. lia. }
    assert (HRoom : Room s0 = seg_row_capacity_ s0 - seg_row_count_ s0) by (apply cast_id; solve_range).
    rewrite HRoom. destruct (Z.leb_spec (seg_row_capacity_ s0 - seg_row_count_ s0) 0); intros [= <- <- <- <-].
    + split_and!; try done. intros j. by rewrite Hcol, app_nil_r.
    + split_and!; try done; [lia|]. intros j. rewrite map_app, concat_app. cbn. by rewrite app_nil_r.
  - intros [= <- <- <- <-]. split_and!; try done. intros j. rewrite map_app, concat_app. by rewrite Hcol.
Qed.

Lemma Finished_left columns st : state_ok columns st → Finished st = (rows_left st =? 0).
Proof. intros (_ & Ht & _). unfold Finished. lia. Qed.

Lemma rows_left_nonneg columns st : state_ok columns st → 0 ≤ rows_left st.
Proof.
  intros (Hb & _ & Ho & Hc). unfold rows_left. destruct (blocks_ st !! current_block_ st) as [d|] eqn:Hd.
  - rewrite (rest_of_input st d Hd). cbn [map Zsum fold_right].
    enough (0 ≤ fold_right Z.add 0 (map data_row_count (drop (S (current_block_ st)) (blocks_ st)))) by lia.
    apply (Forall_drop _ (S (current_block_ st))) in Hb. revert Hb. generalize (drop (S (current_block_ st)) (blocks_ st)). clear.
    intros l Hl. induction Hl as [|x l [[? _] _] _ IH]; [done|]. cbn [map fold_right]. lia.
  - rewrite drop_ge by (by apply lookup_ge_None). cbn. lia.
Qed.

Lemma append_segments_ok txn c fuel : ∀ t st rows,
  table_ok t txn → state_ok (table_columns t) st → rows_left st ≤ Z.of_nat fuel →
  ∃ t' st', append_segments fuel txn c t st rows = Ok (t', st') ∧ table_ok t' txn ∧ Finished st' = true ∧
    table_columns t' = table_columns t ∧ table_row_count_ t' = table_row_count_ t + rows + rows_left st ∧
    ∀ j, (j < table_columns t)%nat → table_column t' j = table_column t j ++ take (Z.to_nat (rows_left st)) (remaining st j).
Proof.
  induction fuel as [|fuel IH]; intros t st rows Ht Hst Hfuel; pose proof (rows_left_nonneg _ _ Hst) as Hnn;
    cbn [append_segments]; rewrite (Finished_left _ _ Hst);
    (destruct (Z.eqb_spec (rows_left st) 0) as [Hz|Hz];
      [eexists _, _; split; [reflexivity|]; rewrite (Finished_left _ _ Hst), Hz; split_and!; try done; cbn; [lia|]; intros; by rewrite app_nil_r|]); [lia|].
  destruct (open_segment t) as [[[full s] next_id] sealed] eqn:Hopen.
  destruct (open_segment_ok t txn full s next_id sealed Ht Hopen) as (Hs & Hw & Hu & Hc & Hr & Hcol).
  rewrite <- Hc in Hst.
  destruct (Segment_AppendData_ok s txn c st Hs Hw Hst Hu Hr) as (n & s' & st' & rs & mut & -> & Hn & Hmin & Hg & _ & Hst' & Hl' & _ & _ & _ & Hrem).
  cbn [res_bind]. destruct Hg as [Hgok Hgw Hgc Hgcap Hgid Hgcols Hgst Hgrows].
  destruct (IH (mkTable (table_columns t) full (Some s') next_id sealed (table_row_count_ t)) st' (rows + (0 + n))) as (t' & st2 & -> & Ht' & Hl2 & Hc2 & Hrc2 & Hcol2).
  - cbn. split_and!; try done; congruence.
  - cbn. by rewrite <- Hc.
  - lia.
  - exists t', st2. split; [done|]. split; [done|]. split; [done|]. cbn in Hc2, Hrc2. split; [done|]. split; [lia|].
    intros j Hj. rewrite Hcol2 by done. rewrite <- Hc in Hj. unfold table_column at 1, segments. cbn [full_segments_ unsealed_segment_].
    change (option_list (Some s')) with [s']. rewrite map_app, concat_app. cbn [map concat]. rewrite app_nil_r, Hgrows, app_assoc, Hcol, Hrem, <- app_assoc by done. f_equal.
    rewrite Hl'. replace (Z.to_nat (rows_left st)) with (Z.to_nat n + Z.to_nat (rows_left st - n))%nat by lia. by rewrite take_add.
Qed.

Lemma AppendState_new_ok columns blocks : Forall (data_ok columns) blocks → state_ok columns (AppendState_new blocks).
Proof.
  intros Hb. split; [done|]. split; [unfold rows_left; cbn [AppendState_new total_count_ current_count_ current_block_ blocks_ current_block_offset_]; rewrite drop_0; lia|]. split; [done|].
  destruct blocks as [|d blocks]; cbn; [done|]. apply Forall_cons in Hb as [[[? _] _] _]. done.
Qed.

Lemma seg_column_length s j : seg_ok s → (j < column_count_ s)%nat → zlen (seg_column s j) = seg_row_count_ s.
Proof.
  intros Hs Hj. rewrite (ok_count _ Hs). unfold seg_column. rewrite zlen_concat, map_map. f_equal.
  apply map_ext_Forall. eapply Forall_impl; [apply (ok_blocks _ Hs)|]. intros b (_ & _ & Hl & Hf).
  apply column_length; [|exact Hf]. eapply Nat.lt_le_trans; [exact Hj|]. apply Nat.eq_le_incl. symmetry. exact Hl.
Qed.

Lemma add_flushed_rows (flushed : list Segment) : ∀ t : TableEntry,
  let t' := fold_left (fun t s => add_rows t (seg_row_count_ s)) flushed t in
  unsealed_segment_ t' = unsealed_segment_ t ∧ full_segments_ t' = full_segments_ t ∧ table_columns t' = table_columns t ∧
  table_row_count_ t' = table_row_count_ t + Zsum (map seg_row_count_ flushed).
Proof.
  induction flushed as [|s flushed IH]; intros t; cbn [fold_left map Zsum fold_right]; [split_and!; try done; lia|].
  destruct (IH (add_rows t (seg_row_count_ s))) as (-> & -> & -> & ->). unfold Zsum. cbn. split_and!; try done. lia.
Qed.

(** ** Properties *)

(** Appending to a segment.  [AppendData] takes as many rows as are left in the input or fit in
    the segment, in order, behind the rows that are there; all blocks but the last stay full; the
    append state moves on by as many rows; and [append_ranges_] names, in order, the rows of the
    segment that hold the rows taken. *)
Theorem segment_append s txn c st :
  seg_ok s → writable s txn → state_ok (column_count_ s) st → status_ s = Status.kUnsealed → seg_row_count_ s < seg_row_capacity_ s →
  ∃ n s' st' ranges mut_blocks, Segment_AppendData s txn c st = Ok (n, s', st', mut_blocks) ∧
    n = Z.min (rows_left st) (seg_row_capacity_ s - seg_row_count_ s) ∧ seg_ok s' ∧ seg_row_count_ s' = seg_row_count_ s + n ∧
    state_ok (column_count_ s) st' ∧ append_ranges_ st' = append_ranges_ st ++ ranges ∧
    ∀ j, (j < column_count_ s)%nat →
      seg_column s' j = seg_column s j ++ take (Z.to_nat n) (remaining st j) ∧
      remaining st' j = drop (Z.to_nat n) (remaining st j) ∧
      concat (map (range_rows (seg_column s' j)) ranges) = take (Z.to_nat n) (remaining st j).
Proof.
  intros Hs Hw Hst Hu Hr. destruct (Segment_AppendData_ok s txn c st Hs Hw Hst Hu Hr)
    as (n & s' & st' & rs & mut & He & Hn & Hmin & Hg & Hcov & Hst' & _ & _ & Hranges & _ & Hrem).
  exists n, s', st', rs, mut. split; [exact He|]. split; [exact Hmin|]. split; [apply Hg|]. split; [apply Hg|].
  split; [exact Hst'|]. split; [exact Hranges|]. intros j Hj. pose proof (grown_rows _ _ _ _ _ Hg j Hj) as Hcol.
  split; [exact Hcol|]. split; [by apply Hrem|]. pose proof (seg_column_length s j Hs Hj) as Hlen.
  assert (Hlo : 0 ≤ seg_row_count_ s) by (rewrite <- Hlen; apply zlen_nonneg).
  rewrite (ranges_cover_rows _ _ _ _ _ Hlo Hcov), Hcol, (grown_count _ _ _ _ _ Hg).
  rewrite (drop_zlen_app _ _ _ (eq_sym Hlen)). apply take_ge. rewrite length_take. lia.
Qed.

(** C24. Appending to a table terminates, starting new segments as the last one fills up; every column
    then holds what it held before and the rows of the input blocks in their order, and the row count
    grows by their number, or by the rows of the imported segments when there is no input block.
    Appending to a deleted table is an error. *)
Theorem table_append t txn c flushed blocks :
  table_ok t txn → Forall (data_ok (table_columns t)) blocks →
  Table_AppendData t true txn c flushed (AppendState_new blocks) = Err UnrecoverableError ∧
  ∃ t' st', Table_AppendData t false txn c flushed (AppendState_new blocks) = Ok (t', st') ∧ Finished st' = true ∧ table_ok t' txn ∧
    table_row_count_ t' = table_row_count_ t +
      (if decide (blocks = []) then Zsum (map seg_row_count_ flushed) else Zsum (map data_row_count blocks)) ∧
    ∀ j, (j < table_columns t)%nat → table_column t' j = table_column t j ++ concat (map (data_column j) blocks).
Proof.
  intros Ht Hb. split; [done|]. set (st := AppendState_new blocks). pose proof (AppendState_new_ok _ _ Hb) as Hst. fold st in Hst.
  assert (Hleft : rows_left st = Zsum (map data_row_count blocks)) by (unfold rows_left; cbn [st AppendState_new current_block_ blocks_ current_block_offset_]; rewrite drop_0; lia).
  assert (Hall : ∀ j, (j < table_columns t)%nat → take (Z.to_nat (rows_left st)) (remaining st j) = concat (map (data_column j) blocks)).
  { intros j Hj. unfold remaining. cbn [st AppendState_new current_block_offset_ current_block_ blocks_]. rewrite drop_0, drop_0, Hleft. apply take_zlen.
    rewrite zlen_concat, map_map. apply Z.eq_le_incl. f_equal. apply map_ext_Forall. eapply Forall_impl; [exact Hb|].
    intros d Hd. by eapply data_column_length. }
  unfold Table_AppendData. destruct (Finished st) eqn:Hf.
  - change (blocks_ st) with blocks. destruct blocks as [|d blocks'].
    + destruct (add_flushed_rows flushed t) as (Hu & Hfull & Hcs & Hrc). eexists _, st. split; [reflexivity|]. split; [done|].
      unfold table_ok, table_column, segments. rewrite Hu, Hfull, Hcs. split; [exact Ht|].
      split; [exact Hrc|]. intros j Hj. by rewrite app_nil_r.
    + exists t, st. rewrite (Finished_left _ _ Hst) in Hf. apply Z.eqb_eq in Hf. split; [done|].
      split; [by rewrite (Finished_left _ _ Hst), Hf|]. split; [done|]. rewrite decide_False by done. split; [lia|].
      intros j Hj. rewrite <- (Hall j Hj), Hf. by rewrite app_nil_r.
  - destruct (append_segments_ok txn c (Z.to_nat (total_count_ st)) t st 0 Ht Hst) as (t' & st' & He & Ht' & Hl & Hcs & Hrc & Hcol).
    { pose proof (rows_left_nonneg _ _ Hst). cbn [st AppendState_new total_count_]. lia. }
    exists t', st'. split; [exact He|]. split; [exact Hl|]. split; [exact Ht'|]. rewrite decide_False by (by intros ->). split; [lia|].
    intros j Hj. by rewrite Hcol, Hall by done.
Qed.

End SegmentAppend.

(** ** Examples *)

Definition sample_input : list (DataBlock (V := Z)) := [mkDataBlock [[1; 2; 3]] 3; mkDataBlock [[4]] 1].

Lemma sample_input_ok : Forall (data_ok 1) sample_input.
Proof. repeat constructor; cbn; lia. Qed.

Lemma segment_append_witness :
  ∃ s' st' mut_blocks, Segment_AppendData (NewSegmentEntry (V := Z) 5 1) 7 10 (AppendState_new sample_input) = Ok (4, s', st', mut_blocks) ∧
    seg_column s' 0 = [1; 2; 3; 4].
Proof.
  pose proof (NewSegmentEntry_ok (V := Z) 5 1 7) as (Hs & Hw & Hu & _ & Hr & _).
  destruct (segment_append (NewSegmentEntry 5 1) 7 10 (AppendState_new sample_input) Hs Hw (AppendState_new_ok _ _ sample_input_ok) Hu Hr)
    as (n & s' & st' & ranges & mut & He & Hn & _ & _ & _ & _ & Hcol).
  assert (E : n = 4) by (rewrite Hn; vm_compute; reflexivity). rewrite E in *.
  exists s', st', mut. split; [exact He|]. rewrite (proj1 (Hcol 0%nat ltac:(cbn; lia))). vm_compute. reflexivity.
Defined.

Lemma table_append_witness :
  ∃ t' st', Table_AppendData (mkTable (V := Z) 1 [] None 0 [] 0) false 7 10 [] (AppendState_new sample_input) = Ok (t', st') ∧
    table_row_count_ t' = 4 ∧ table_column t' 0 = [1; 2; 3; 4].
Proof.
  destruct (table_append (mkTable (V := Z) 1 [] None 0 [] 0) 7 10 [] sample_input I sample_input_ok) as (_ & t' & st' & He & _ & _ & Hr & Hc).
  exists t', st'. split; [exact He|]. split; [rewrite Hr; reflexivity|]. rewrite (Hc 0%nat ltac:(cbn; lia)). reflexivity.
Defined.
