(* ===== verification/CompactPlan.v ===== *)
(** * Which segments a compaction takes together

    The generator of groups of segments and [PhysicalCompact::Init] and [PlanCompact], of
    [src/src/executor/operator/physical_compact.cpp]. *)

From Stdlib Require Import ZArith Lia List.
From stdpp Require Import base list numbers gmap sets sorting.
From S2P Require Import Prelude Bytes CatalogDelta SegmentEntry SegmentAppend.
Local Open Scope Z_scope.

Section CompactPlan.
Context {V : Type}.
Notation Segment := (@SegmentEntry V).

(** A [MultiMap] as the list of its entries in the order of their keys. *)
Notation MultiMap := (list (Z * Segment)).

(** The entries before the iterator that [upper_bound] returns. *)
Fixpoint upper_bound (key : Z) (m : MultiMap) : nat :=
  match m with
  | [] => O
  | (k, _) :: m' => if key <? k then O else S (upper_bound key m')
  end.

Definition emplace (key : Z) (s : Segment) (m : MultiMap) : MultiMap :=
  take (upper_bound key m) m ++ (key, s) :: drop (upper_bound key m) m.

Definition is_sealed (s : Segment) : bool := match status_ s with Status.kSealed => true | _ => false end.

(** The constructor. *)
Definition Generator_new (block_index : list Segment) : MultiMap :=
  fold_left (fun m s => if is_sealed s then emplace (actual_row_count_ s) s m else m) block_index [].

(** The inner loop of [generate]: the largest segment that still fits, again and again. *)
Fixpoint fill (fuel : nat) (segments_ : MultiMap) (segment_size : Z) (result : list Segment) : Prelude.result (list Segment * MultiMap) :=
  match fuel with
  | O => Err OutOfFuel
  | S fuel' =>
      match upper_bound segment_size segments_ with
      | O => Ok (result, segments_)
      | S iter =>
          match segments_ !! iter with
          | None => Ok (result, segments_)
          | Some (row_count, segment_entry) =>
              fill fuel' (delete iter segments_) (cast u64 (segment_size - row_count)) (result ++ [segment_entry])
          end
      end
  end.

(** [result.size() == 1 && result[0]->actual_row_count() == result[0]->row_count()] *)
Definition not_worth (result : list Segment) : bool :=
  match result with [s] => actual_row_count_ s =? seg_row_count_ s | _ => false end.

Fixpoint generate (fuel : nat) (segments_ : MultiMap) (max_segment_size : Z) : Prelude.result (list Segment * MultiMap) :=
  match fuel with
  | O => Err OutOfFuel
  | S fuel' =>
      let? '(result, segments_) := fill (S (length segments_)) segments_ max_segment_size [] in
      if not_worth result then generate fuel' segments_ max_segment_size else Ok (result, segments_)
  end.

(** The loop of [Init]. *)
Fixpoint generate_groups (fuel : nat) (segments_ : MultiMap) (max_segment_size : Z) (group : list (list Segment))
    : Prelude.result (list (list Segment)) :=
  match fuel with
  | O => Err OutOfFuel
  | S fuel' =>
      let? '(compactible_segments, segments_) := generate (S (length segments_)) segments_ max_segment_size in
      match compactible_segments with
      | [] => Ok group
      | _ => generate_groups fuel' segments_ max_segment_size (group ++ [compactible_segments])
      end
  end.

(** [compact_prepare] is what [CompactPrepare] of the table returns. *)
Definition Init (manual compact_prepare : bool) (block_index : list Segment) : Prelude.result (list (list Segment)) :=
  if manual then
    if compact_prepare then
      let segments_ := Generator_new block_index in
      generate_groups (S (length segments_)) segments_ DEFAULT_SEGMENT_CAPACITY []
    else Ok []
  else Ok [List.filter is_sealed block_index].

(** [result[i % parallel_count].push_back(group)] *)
Definition PlanCompact (parallel_count : nat) (groups : list (list Segment)) : list (list (list Segment)) :=
  snd (fold_left (fun '(i, result) group => (S i, alter (fun l => l ++ [group]) (i mod parallel_count)%nat result))
         groups (O, replicate parallel_count [])).

(** ** Lemmas *)

Definition group_rows (l : list Segment) : Z := Zsum (map actual_row_count_ l).

(** Keys are the row counts, in order. *)
Definition map_ok (m : MultiMap) : Prop :=
  StronglySorted (fun a b => a.1 ≤ b.1) m ∧ Forall (fun e => e.1 = actual_row_count_ e.2 ∧ 0 ≤ e.1) m.

Lemma upper_bound_spec key m : StronglySorted (fun a b => a.1 ≤ b.1) m →
  Forall (fun e => e.1 ≤ key) (take (upper_bound key m) m) ∧ Forall (fun e => key < e.1) (drop (upper_bound key m) m) ∧
  (upper_bound key m <= length m)%nat.
Proof.
  induction m as [|[k s] m IH]; intros Hs; [done|]. apply StronglySorted_inv in Hs as [Hs Hk]. cbn [upper_bound].
  destruct (Z.ltb_spec key k) as [Hlt|Hge].
  - cbn [take drop length]. split; [done|]. split; [|lia]. constructor; [done|]. eapply Forall_impl; [exact Hk|]. simpl. intros. lia.
  - destruct (IH Hs) as (H1 & H2 & H3). cbn [take drop length]. split; [by constructor|]. split; [done|lia].
Qed.

Lemma emplace_perm key s m : emplace key s m ≡ₚ (key, s) :: m.
Proof. unfold emplace. rewrite <- Permutation_middle. by rewrite take_drop. Qed.

Lemma emplace_ok s m : map_ok m → 0 ≤ actual_row_count_ s → map_ok (emplace (actual_row_count_ s) s m).
Proof.
  intros [Hs Hm] H0. split; [|rewrite emplace_perm; by constructor].
  destruct (upper_bound_spec (actual_row_count_ s) m Hs) as (H1 & H2 & _). unfold emplace.
  rewrite <- (take_drop (upper_bound (actual_row_count_ s) m) m) in Hs. revert H1 H2 Hs.
  generalize (take (upper_bound (actual_row_count_ s) m) m), (drop (upper_bound (actual_row_count_ s) m) m). intros a b H1 H2 Hs.
  induction a as [|e a IH]; cbn [app] in *.
  - constructor; [done|]. eapply Forall_impl; [exact H2|]. simpl. intros. lia.
  - apply StronglySorted_inv in Hs as [Hs He]. apply Forall_cons in H1 as [? H1]. apply Forall_app in He as [Ha Hb].
    constructor; [by apply IH|]. apply Forall_app. split; [done|]. by constructor.
Qed.

Lemma Generator_new_ok block_index :
  Forall (fun s => 0 ≤ actual_row_count_ s) block_index →
  map_ok (Generator_new block_index) ∧ map snd (Generator_new block_index) ≡ₚ List.filter is_sealed block_index.
Proof.
  intros H. unfold Generator_new.
  assert (Hg : ∀ m, map_ok m → let m' := fold_left (fun m s => if is_sealed s then emplace (actual_row_count_ s) s m else m) block_index m in
    map_ok m' ∧ map snd m' ≡ₚ map snd m ++ List.filter is_sealed block_index).
  { induction H as [|s l Hs Hl IH]; intros m Hm; cbn [fold_left List.filter]; [by rewrite app_nil_r|].
    destruct (is_sealed s) eqn:Hsealed; [|by apply IH]. destruct (IH _ (emplace_ok s m Hm Hs)) as [H1 H2]. split; [exact H1|].
    rewrite H2, emplace_perm. cbn [map snd]. by rewrite <- Permutation_middle. }
  apply Hg. split; [constructor|done].
Qed.

Lemma map_ok_delete m i e :
  map_ok m → m !! i = Some e → map_ok (delete i m) ∧ m ≡ₚ e :: delete i m.
Proof.
  intros [Hs Hm] Hi. rewrite delete_take_drop. assert (He : m = take i m ++ e :: drop (S i) m) by (symmetry; by apply take_drop_middle).
  split; [|rewrite He at 1; by rewrite Permutation_middle]. rewrite He in Hs, Hm.
  apply StronglySorted_app in Hs as (Hx & Ha & Hb). apply StronglySorted_inv in Hb as [Hb _].
  apply Forall_app in Hm as [Hma Hmb]. apply Forall_cons in Hmb as [_ Hmb]. split; [|by apply Forall_app].
  apply StronglySorted_app. split; [|done]. intros x1 x2 H1 H2. apply Hx; [done|]. by apply elem_of_cons; right.
Qed.

Lemma fill_ok fuel : ∀ m size result,
  map_ok m → (length m < fuel)%nat → 0 ≤ size < 2 ^ 64 →
  ∃ l m', fill fuel m size result = Ok (result ++ l, m') ∧ map snd m ≡ₚ l ++ map snd m' ∧ map_ok m' ∧ group_rows l ≤ size ∧
    (l = [] → Forall (fun e => size < e.1) m').
Proof.
  change (2 ^ 64) with 18446744073709551616.
  induction fuel as [|fuel IH]; intros m size result Hm Hf Hsize; [lia|]. cbn [fill].
  destruct (upper_bound_spec size m (proj1 Hm)) as (Hle & Hgt & Hlen). destruct (upper_bound size m) as [|i] eqn:Hu.
  - exists [], m. rewrite app_nil_r. rewrite drop_0 in Hgt. split_and!; try done. unfold group_rows. cbn. lia.
  - destruct (lookup_lt_is_Some_2 m i) as [[k s] Hi]; [lia|]. rewrite Hi.
    destruct (map_ok_delete m i (k, s) Hm Hi) as [Hdel Hperm].
    assert (Hk : k ≤ size ∧ k = actual_row_count_ s ∧ 0 ≤ k).
    { split; [|destruct Hm as [_ Hm]; by apply (Forall_lookup_1 _ _ _ _ Hm Hi)].
      apply (Forall_lookup_1 (fun e => e.1 ≤ size) (take (S i) m) i (k, s) Hle). rewrite lookup_take_lt by lia. done. }
    rewrite cast_id by solve_range.
    destruct (IH (delete i m) (size - k) (result ++ [s]) Hdel) as (l & m' & He & Hp & Hm' & Hrows & _);
      [rewrite length_delete by (by eexists); lia|lia|].
    exists (s :: l), m'. rewrite He, <- app_assoc. split; [done|]. split; [rewrite Hperm; cbn [map snd app]; by rewrite Hp|].
    split; [done|]. split; [|done]. unfold group_rows, Zsum in *. cbn [map fold_right]. lia.
Qed.

(** Segments that [generate] drops: nothing else fits beside them, and none of their rows is deleted. *)
Definition full_size (s : Segment) : Prop := actual_row_count_ s = seg_row_count_ s.

Lemma generate_ok fuel size : ∀ m,
  map_ok m → (length m < fuel)%nat → 0 ≤ size < 2 ^ 64 →
  ∃ l skipped m', generate fuel m size = Ok (l, m') ∧ map snd m ≡ₚ l ++ skipped ++ map snd m' ∧ map_ok m' ∧ group_rows l ≤ size ∧
    Forall full_size skipped ∧ not_worth l = false ∧ (l = [] → Forall (fun e => size < e.1) m').
Proof.
  induction fuel as [|fuel IH]; intros m Hm Hf Hsize; [lia|]. cbn [generate].
  destruct (fill_ok (S (length m)) m size [] Hm ltac:(lia) Hsize) as (l & m1 & -> & Hp & Hm1 & Hrows & Hnil). cbn [res_bind app].
  destruct (not_worth l) eqn:Hw.
  - destruct l as [|s [|]]; try discriminate Hw. apply Z.eqb_eq in Hw.
    destruct (IH m1 Hm1) as (l & skipped & m' & He & Hp' & Hm' & Hr & Hsk & Hnw & Hn); [|done|].
    { apply Permutation_length in Hp. rewrite length_app, !length_map in Hp. simpl in Hp. lia. }
    exists l, (s :: skipped), m'. split; [done|]. split; [rewrite Hp; cbn [app]; rewrite Hp'; by rewrite Permutation_middle|].
    split_and!; try done. by constructor.
  - exists l, [], m1. by split_and!.
Qed.

Lemma generate_groups_ok fuel size : ∀ m groups,
  map_ok m → (length m < fuel)%nat → 0 ≤ size < 2 ^ 64 →
  ∃ groups' skipped large, generate_groups fuel m size groups = Ok (groups ++ groups') ∧
    map snd m ≡ₚ concat groups' ++ skipped ++ large ∧
    Forall (fun g => g ≠ [] ∧ group_rows g ≤ size ∧ not_worth g = false) groups' ∧
    Forall full_size skipped ∧ Forall (fun s => size < actual_row_count_ s) large.
Proof.
  induction fuel as [|fuel IH]; intros m groups Hm Hf Hsize; [lia|]. cbn [generate_groups].
  destruct (generate_ok (S (length m)) size m Hm ltac:(lia) Hsize) as (l & skipped & m1 & -> & Hp & Hm1 & Hrows & Hsk & Hnw & Hnil). cbn [res_bind].
  destruct l as [|s l].
  - exists [], skipped, (map snd m1). rewrite app_nil_r. split; [done|]. split; [done|]. split; [done|]. split; [done|].
    apply Forall_map. destruct Hm1 as [_ Hm1]. specialize (Hnil eq_refl). rewrite Forall_forall in Hnil, Hm1 |- *.
    intros e He. specialize (Hnil e He). destruct (Hm1 e He). simpl. lia.
  - destruct (IH m1 (groups ++ [s :: l]) Hm1) as (groups' & skipped' & large & He & Hp' & Hg & Hsk' & Hl); [|done|].
    { apply Permutation_length in Hp. rewrite !length_app, !length_map in Hp. simpl in Hp. lia. }
    exists ((s :: l) :: groups'), (skipped ++ skipped'), large. rewrite He, <- app_assoc. split; [done|]. split.
    + rewrite Hp, Hp'. cbn [concat]. rewrite <- !app_assoc. apply Permutation_app_head. rewrite !app_assoc. do 2 apply Permutation_app_tail.
      apply Permutation_app_comm.
    + split; [by constructor|]. split; [by apply Forall_app|done].
Qed.

Lemma alter_concat {A} (r : list (list A)) (g : A) : ∀ i, (i < length r)%nat →
  concat (alter (fun l => l ++ [g]) i r) ≡ₚ g :: concat r.
Proof.
  induction r as [|l r IH]; intros i Hi; [simpl in Hi; lia|]. destruct i as [|i]; cbn [alter list_alter concat length] in *.
  - rewrite <- app_assoc. cbn [app]. by rewrite Permutation_middle.
  - change (concat (l :: alter (fun l => l ++ [g]) i r) ≡ₚ g :: l ++ concat r). cbn [concat]. rewrite IH by lia. by rewrite Permutation_middle.
Qed.

(** Every group is in one of the plans. *)
Lemma PlanCompact_perm parallel_count groups : (0 < parallel_count)%nat → concat (PlanCompact parallel_count groups) ≡ₚ groups.
Proof.
  intros Hpc. unfold PlanCompact.
  assert (Hg : ∀ i r, length r = parallel_count →
    concat (fold_left (fun '(i, result) (group : list Segment) => (S i, alter (fun l => l ++ [group]) (i mod parallel_count)%nat result)) groups (i, r)).2
      ≡ₚ concat r ++ groups).
  { induction groups as [|g groups IH]; intros i r Hr; cbn [fold_left]; [by rewrite app_nil_r|].
    rewrite IH, alter_concat; [cbn [app]; by rewrite Permutation_middle| |by rewrite length_alter].
    rewrite Hr. apply Nat.mod_upper_bound. lia. }
  rewrite Hg by apply length_replicate. clear. induction parallel_count as [|n IH]; done.
Qed.

(** ** Properties *)

(** C39. The groups of a manual compaction.  [Init] terminates; every group is not empty and has at most
    [DEFAULT_SEGMENT_CAPACITY] rows that are not deleted, so that its copy fits in one segment; a
    sealed segment is in exactly one group, except for segments without deleted rows that would have
    been compacted alone, and segments above the capacity; no other segment is taken; and [PlanCompact]
    hands out every group once. *)
Theorem compaction_groups block_index parallel_count :
  Forall (fun s => 0 ≤ actual_row_count_ s) block_index → (0 < parallel_count)%nat →
  ∃ groups skipped large, Init true true block_index = Ok groups ∧
    List.filter is_sealed block_index ≡ₚ concat groups ++ skipped ++ large ∧
    Forall (fun g => g ≠ [] ∧ group_rows g ≤ DEFAULT_SEGMENT_CAPACITY ∧ not_worth g = false) groups ∧
    Forall full_size skipped ∧ Forall (fun s => DEFAULT_SEGMENT_CAPACITY < actual_row_count_ s) large ∧
    concat (PlanCompact parallel_count groups) ≡ₚ groups.
Proof.
  intros H Hpc. destruct (Generator_new_ok block_index H) as [Hm Hp]. unfold Init.
  destruct (generate_groups_ok (S (length (Generator_new block_index))) DEFAULT_SEGMENT_CAPACITY _ [] Hm) as (groups & skipped & large & He & Hp' & Hg & Hs & Hl);
    [lia|done|]. exists groups, skipped, large. rewrite <- Hp. split_and!; try done. by apply PlanCompact_perm.
Qed.

End CompactPlan.

(** ** Example: two small segments are compacted, a full one and an open one are not *)

Definition sized_segment (id rows actual : Z) (sealed : bool) : @SegmentEntry Z :=
  let s := with_blocks (NewSegmentEntry id 1) [] rows actual in if sealed then (SetSealed s).2 else s.

Definition sample_index : list (@SegmentEntry Z) :=
  [sized_segment 0 20 10 true; sized_segment 1 8388600 8388600 true; sized_segment 2 50 50 false; sized_segment 3 30 30 true].

Lemma compaction_groups_witness :
  ∃ groups skipped large, Init true true sample_index = Ok groups ∧
    List.filter is_sealed sample_index ≡ₚ concat groups ++ skipped ++ large ∧ map (map segment_id_) groups = [[3; 0]].
Proof.
  destruct (compaction_groups sample_index 2) as (groups & skipped & large & He & Hp & _); [repeat constructor; cbn; lia|lia|].
  exists groups, skipped, large. split; [exact He|]. split; [exact Hp|]. vm_compute in He. injection He as <-. reflexivity.
Defined.
