(* ===== verification/Compact.v ===== *)
(** * Compaction

    [PhysicalCompact::Execute] of [src/src/executor/operator/physical_compact.cpp] copies the rows
    that the compaction's transaction sees into a new segment and remembers, in a [RowIDRemap] of
    [src/src/function/table/compact_state_data.cppm], where they went; [ApplyDeletes] of
    [src/src/executor/operator/physical_compact_finish.cpp] looks up the rows that were deleted in
    the meantime to delete them in the new segment. *)

From Stdlib Require Import ZArith Lia List.
From stdpp Require Import base list numbers gmap sets sorting.
From S2P Require Import Prelude Bytes CatalogDelta BlockVersion BlockEntry SegmentEntry SegmentAppend.
Local Open Scope Z_scope.

Section Compact.
Context {V : Type}.
#[local] Existing Instance list_columns.
Notation Block := (@BlockEntry (list_columns V)).
Notation Segment := (@SegmentEntry V).

Record RowID := mkRowID { row_segment_id : Z; row_segment_offset : Z }.

(** By segment and block; an entry holds the first row of a range with its new row id. *)
Notation RowIDRemap := (gmap (Z * Z) (list (Z * RowID))).

Definition AddMap (m : RowIDRemap) (segment_id block_id block_offset : Z) (new_row_id : RowID) : RowIDRemap :=
  <[(segment_id, block_id) := default [] (m !! (segment_id, block_id)) ++ [(block_offset, new_row_id)]]> m.

Definition GetNewRowID (m : RowIDRemap) (segment_id block_id block_offset : Z) : result RowID :=
  match m !! (segment_id, block_id) with
  | None => Err StdException
  | Some block_vec =>
      match partition_point (fun pair => negb (block_offset <? pair.1)) block_vec with
      | O => Err UnrecoverableError
      | S iter =>
          match block_vec !! iter with
          | None => Err UnrecoverableError
          | Some (first, rtn) =>
              Ok (mkRowID (row_segment_id rtn) (cast u32 (row_segment_offset rtn + (first - block_offset))))
          end
      end
  end.

Definition GetNewRowID_of (m : RowIDRemap) (old_row_id : RowID) : result RowID :=
  GetNewRowID m (row_segment_id old_row_id) (cast u16 (row_segment_offset old_row_id / DEFAULT_BLOCK_CAPACITY))
    (cast u16 (row_segment_offset old_row_id mod DEFAULT_BLOCK_CAPACITY)).

(** [BlockEntry::AppendBlock]. *)
Definition AppendBlock (b : Block) (column_vectors : list (list V)) (row_begin read_size : Z) : result Block :=
  if row_capacity_ b <? read_size + block_row_count_ b then Err UnrecoverableError
  else
    let? columns := @append_columns (list_columns V) (columns_ b) column_vectors row_begin read_size in
    Ok (set_rows b (using_txn_id_ b) (cast u16 (block_row_count_ b + read_size)) (version_ b) columns).

(** [SegmentEntry::AppendBlockEntry]. *)
Definition AppendBlockEntry (s : Segment) (b : Block) : Segment :=
  with_blocks s (block_entries_ s ++ [b]) (seg_row_count_ s + block_row_count_ b) (actual_row_count_ s + block_row_count_ b).

Record Progress := mkProgress { new_segment : Segment; new_block : Block; remapper : RowIDRemap }.

Definition fresh_block (s : Segment) (column_count : nat) : Block :=
  @NewBlockEntry (list_columns V) (zlen (block_entries_ s)) (replicate column_count []).

(** The lambda [block_entry_append]; the offset read up to. *)
Definition block_entry_append (p : Progress) (segment_id block_id : Z) (input_column_vectors : list (list V))
    (row_begin read_size1 read_offset : Z) : result (Progress * Z) :=
  if read_size1 =? 0 then Ok (p, read_offset)
  else
    let? b := AppendBlock (new_block p) input_column_vectors row_begin read_size1 in
    let new_row_id :=
      mkRowID (segment_id_ (new_segment p)) (cast u32 (block_id_ b * DEFAULT_BLOCK_CAPACITY + block_row_count_ b)) in
    Ok (mkProgress (new_segment p) b (AddMap (remapper p) segment_id block_id row_begin new_row_id), row_begin + read_size1).

(** One round of the loop over the visible ranges of a block. *)
Definition copy_range (p : Progress) (column_count : nat) (segment_id block_id : Z) (input_column_vectors : list (list V))
    (row_begin read_size read_offset : Z) : result (Progress * Z) :=
  if DEFAULT_BLOCK_CAPACITY <? read_size + block_row_count_ (new_block p) then
    let read_size1 := DEFAULT_BLOCK_CAPACITY - block_row_count_ (new_block p) in
    let? '(p, read_offset) := block_entry_append p segment_id block_id input_column_vectors row_begin read_size1 read_offset in
    let s := AppendBlockEntry (new_segment p) (new_block p) in
    let p := mkProgress s (fresh_block s column_count) (remapper p) in
    block_entry_append p segment_id block_id input_column_vectors (row_begin + read_size1) (read_size - read_size1) read_offset
  else block_entry_append p segment_id block_id input_column_vectors row_begin read_size read_offset.

Fixpoint copy_block (fuel : nat) (p : Progress) (column_count : nat) (begin_ts segment_id : Z) (block_entry : Block) (read_offset : Z)
    : result Progress :=
  match fuel with
  | O => Err OutOfFuel
  | S fuel' =>
      let? '(row_begin, row_end) := @GetVisibleRange (list_columns V) block_entry begin_ts (cast u16 read_offset) in
      let read_size := row_end - row_begin in
      if read_size =? 0 then Ok p
      else
        let? '(p, read_offset) :=
          copy_range p column_count segment_id (block_id_ block_entry) (columns_ block_entry) row_begin read_size read_offset in
        copy_block fuel' p column_count begin_ts segment_id block_entry read_offset
  end.

(** The blocks of a segment are those of the compaction's snapshot ([block_map_]). *)
Definition copy_segment (column_count : nat) (begin_ts : Z) (p : Progress) (segment_info : Segment * list Block) : result Progress :=
  let '(segment, block_map) := segment_info in
  res_fold (fun p b => copy_block (Z.to_nat 65537) p column_count begin_ts (segment_id_ segment) b 0) p block_map.

(** The segments of a group that can be compacted, marked as compacting. *)
Definition pick_segments (candidates : list (Segment * list Block)) : list (Segment * list Block) :=
  omap (fun '(s, block_map) => let '(ok, s) := TrySetCompacting s true in if (ok : bool) then Some (s, block_map) else None) candidates.

Definition PhysicalCompact_Execute (column_count : nat) (new_segment_id begin_ts : Z) (remapper0 : RowIDRemap)
    (candidates : list (Segment * list Block)) : result (Segment * RowIDRemap * list (Segment * list Block)) :=
  let compactible_segments := pick_segments candidates in
  let segment := NewSegmentEntry new_segment_id column_count in
  let? p := res_fold (copy_segment column_count begin_ts)
              (mkProgress segment (fresh_block segment column_count) remapper0) compactible_segments in
  let segment := if 0 <? block_row_count_ (new_block p) then AppendBlockEntry (new_segment p) (new_block p) else new_segment p in
  Ok (segment, remapper p, compactible_segments).

(** ** Deletes since the compaction started *)

(** The first loop of [ApplyDeletes]. *)
Fixpoint set_no_delete_all (old_segments : list Segment) : result (bool * list Segment) :=
  match old_segments with
  | [] => Ok (true, [])
  | old_segment :: rest =>
      let? '(ok, old_segment) := SetNoDelete old_segment in
      if (ok : bool) then let? '(ok, rest) := set_no_delete_all rest in Ok (ok, old_segment :: rest)
      else Ok (false, old_segment :: rest)
  end.

Definition remap_deletes (m : RowIDRemap) (row_ids : list RowID) (old_segment : Segment) : result (list RowID) :=
  res_fold (fun row_ids offset =>
      let? new_row_id := GetNewRowID_of m (mkRowID (segment_id_ old_segment) offset) in Ok (row_ids ++ [new_row_id]))
    row_ids (to_delete_ old_segment).

(** [ApplyDeletes]: the rows that the compaction's transaction deletes, or [None] when it gives up. *)
Definition ApplyDeletes (m : RowIDRemap) (old_segments : list Segment) : result (option (list RowID) * list Segment) :=
  let? '(ok, old_segments) := set_no_delete_all old_segments in
  if (ok : bool) then let? row_ids := res_fold (remap_deletes m) [] old_segments in Ok (Some row_ids, old_segments)
  else Ok (None, old_segments).

(** ** Progress *)

Definition prog_column (p : Progress) (j : nat) : list V := seg_column (new_segment p) j ++ block_column j (new_block p).
Definition prog_rows (p : Progress) : Z := seg_row_count_ (new_segment p) + block_row_count_ (new_block p).

Notation bcap := DEFAULT_BLOCK_CAPACITY.

(** The blocks of the new segment are full; the new block is the next one. *)
Record prog_ok (columns : nat) (p : Progress) : Prop := {
  prog_blocks : Forall (block_ok columns) (block_entries_ (new_segment p));
  prog_full : Forall (fun b => block_row_count_ b = bcap) (block_entries_ (new_segment p));
  prog_count : seg_row_count_ (new_segment p) = bcap * zlen (block_entries_ (new_segment p));
  prog_columns : column_count_ (new_segment p) = columns;
  prog_new : block_ok columns (new_block p);
  prog_id : block_id_ (new_block p) = zlen (block_entries_ (new_segment p));
}.

(** A range of [c_rows] rows from [c_begin] on, copied to the rows from [c_new] on. *)
Record Chunk := mkChunk { c_begin : Z; c_rows : Z; c_new : Z }.

(** A range of rows that all satisfy [f], as long as that and the block of the new segment allow. *)
Record whole (f : Z → bool) (c : Chunk) : Prop := {
  whole_rows : ∀ r, c_begin c ≤ r < c_begin c + c_rows c → f r = true;
  whole_fits : c_new c mod bcap + c_rows c ≤ bcap;
  whole_begin : f (c_begin c - 1) = false ∨ c_new c mod bcap = 0;
  whole_end : f (c_begin c + c_rows c) = false ∨ (c_new c + c_rows c) mod bcap = 0;
}.

Definition chunk_values (column : list V) (c : Chunk) : list V := take (Z.to_nat (c_rows c)) (drop (Z.to_nat (c_begin c)) column).

Definition chunk_entry (segment_id : Z) (c : Chunk) : Z * RowID := (c_begin c, mkRowID segment_id (c_new c + c_rows c)).

Fixpoint chunks_at (q : Z) (chunks : list Chunk) : Prop :=
  match chunks with [] => True | c :: chunks' => c_new c = q ∧ 0 < c_rows c ∧ chunks_at (q + c_rows c) chunks' end.

Definition chunks_rows (chunks : list Chunk) : Z := Zsum (map c_rows chunks).

Definition entry (m : RowIDRemap) (key : Z * Z) : list (Z * RowID) := default [] (m !! key).

(** What copying [chunks] of a block does. *)
Record copied (columns : nat) (cols : list (list V)) (key : Z * Z) (p p' : Progress) (chunks : list Chunk) : Prop := {
  copied_ok : prog_ok columns p';
  copied_id : segment_id_ (new_segment p') = segment_id_ (new_segment p);
  copied_rows : prog_rows p' = prog_rows p + chunks_rows chunks;
  copied_at : chunks_at (prog_rows p) chunks;
  copied_values : ∀ j, prog_column p' j = prog_column p j ++ concat (map (chunk_values (default [] (cols !! j))) chunks);
  copied_entry : entry (remapper p') key = entry (remapper p) key ++ map (chunk_entry (segment_id_ (new_segment p))) chunks;
  copied_other : ∀ key', key' ≠ key → remapper p' !! key' = remapper p !! key';
}.

Lemma chunks_at_app chunks1 : ∀ q chunks2,
  chunks_at q chunks1 → chunks_at (q + chunks_rows chunks1) chunks2 → chunks_at q (chunks1 ++ chunks2).
Proof.
  induction chunks1 as [|c chunks1 IH]; intros q chunks2 H1 H2; [by rewrite Z.add_0_r in H2|].
  destruct H1 as (? & ? & H1). cbn [app chunks_at]. split_and!; try done. apply IH; [done|].
  unfold chunks_rows in *. cbn [map Zsum fold_right] in H2. by rewrite <- Z.add_assoc.
Qed.

Lemma copied_refl columns cols key p : prog_ok columns p → copied columns cols key p p [].
Proof. intros Hp. constructor; try done; [cbn; lia|intros; by rewrite app_nil_r|by rewrite app_nil_r]. Qed.

Lemma copied_trans columns cols key p1 p2 p3 c1 c2 :
  copied columns cols key p1 p2 c1 → copied columns cols key p2 p3 c2 → copied columns cols key p1 p3 (c1 ++ c2).
Proof.
  intros [_ Hid1 Hr1 Ha1 Hv1 He1 Ho1] [Hok Hid2 Hr2 Ha2 Hv2 He2 Ho2]. constructor; try done.
  - congruence.
  - unfold chunks_rows in *. rewrite map_app, Zsum_app. lia.
  - apply chunks_at_app; [done|]. by rewrite <- Hr1.
  - intros j. by rewrite Hv2, Hv1, map_app, concat_app, app_assoc.
  - by rewrite He2, He1, map_app, app_assoc, Hid1.
  - intros key' Hne. by rewrite Ho2, Ho1.
Qed.

Lemma fresh_block_ok s columns : block_ok columns (fresh_block s columns) ∧ ∀ j, block_column j (fresh_block s columns) = [].
Proof.
  split.
  - split; [done|]. split; [cbn; unfold bcap; lia|]. cbn. split; [apply length_replicate|]. by apply Forall_replicate.
  - intros j. unfold block_column, fresh_block. cbn. destruct (replicate _ _ !! j) as [c|] eqn:Hc; [|done].
    by apply lookup_replicate in Hc as [-> _].
Qed.

Lemma entry_AddMap_eq m sid bid off rid : entry (AddMap m sid bid off rid) (sid, bid) = entry m (sid, bid) ++ [(off, rid)].
Proof. unfold entry, AddMap. by rewrite lookup_insert_eq. Qed.

(** [n] rows from [first] on that fit in the new block. *)
Lemma block_entry_append_ok columns p sid bid cols first n off :
  prog_ok columns p → length cols = columns → Forall (fun c => first + n ≤ zlen c) cols → 0 ≤ first → 0 < n →
  n + block_row_count_ (new_block p) ≤ bcap → prog_rows p + n < 2 ^ 32 →
  ∃ p', block_entry_append p sid bid cols first n off = Ok (p', first + n) ∧
    copied columns cols (sid, bid) p p' [mkChunk first n (prog_rows p)] ∧ block_row_count_ (new_block p') = block_row_count_ (new_block p) + n.
Proof.
  intros [Hb Hf Hc Hcc Hnb Hid] Hl Hcols Hfirst Hn Hfit Hmax. change (2 ^ 32) with 4294967296 in Hmax.
  pose proof Hnb as (Hcap & Hr & Hnl & Hnf). unfold prog_rows in *.
  unfold block_entry_append, AppendBlock. rewrite (proj2 (Z.eqb_neq n 0)), Hcap, (proj2 (Z.ltb_ge bcap _)) by lia.
  rewrite append_columns_list by exact (eq_trans Hl (eq_sym Hnl)). cbn [res_bind].
  rewrite cast_u16 by (unfold bcap in *; lia). set (b := set_rows (new_block p) _ _ _ _).
  assert (Hrid : cast u32 (block_id_ b * bcap + block_row_count_ b) = seg_row_count_ (new_segment p) + block_row_count_ (new_block p) + n).
  { cbn [b set_rows block_id_ block_row_count_]. rewrite Hid, Hc. unfold bcap in *. zlen_facts. rewrite cast_id; [lia|]. solve_range. }
  rewrite Hrid. eexists. split; [reflexivity|]. split; [|done].
  assert (Hbok : block_ok columns b).
  { split; [done|]. split; [cbn [b set_rows block_row_count_]; lia|]. cbn [b set_rows columns_ block_row_count_].
    split; [etrans; [apply length_zip_with_l_eq|exact Hnl]; exact (eq_trans Hnl (eq_sym Hl))|].
    apply (Forall_zip_with_fst _ (fun c : list V => zlen c = block_row_count_ (new_block p))); [done|].
    eapply Forall_impl; [exact Hcols|]. intros v Hv col Hcl. unfold zlen in *. rewrite length_app, length_take, length_drop. lia. }
  constructor; cbn [new_segment new_block remapper]; try done.
  - unfold prog_rows, chunks_rows. cbn [new_segment new_block b set_rows block_row_count_ map Zsum fold_right c_rows]. lia.
  - intros j. unfold prog_column. cbn [new_segment new_block map concat]. rewrite app_nil_r, <- app_assoc. f_equal.
    unfold block_column, chunk_values. cbn [b set_rows columns_ c_rows c_begin]. apply zip_column. exact (eq_trans Hnl (eq_sym Hl)).
  - apply entry_AddMap_eq.
  - intros key' Hne. unfold AddMap. by rewrite lookup_insert_ne.
Qed.

(** Starting the next block when the new block is full. *)
Lemma next_new_block_ok columns p :
  prog_ok columns p → block_row_count_ (new_block p) = bcap →
  let seg := AppendBlockEntry (new_segment p) (new_block p) in
  let p' := mkProgress seg (fresh_block seg columns) (remapper p) in
  prog_ok columns p' ∧ prog_rows p' = prog_rows p ∧ segment_id_ (new_segment p') = segment_id_ (new_segment p) ∧
  ∀ j, prog_column p' j = prog_column p j.
Proof.
  intros [Hb Hf Hc Hcc Hnb Hid] Hfull seg p'. pose proof (fresh_block_ok seg columns) as [Hfok Hfcol].
  split; [constructor; cbn [p' seg AppendBlockEntry with_blocks new_segment new_block block_entries_ seg_row_count_ column_count_]|].
  - apply Forall_app. split; [done|by constructor].
  - apply Forall_app. split; [done|by constructor].
  - rewrite Hfull, Hc, zlen_app. unfold zlen. cbn [length]. lia.
  - done.
  - done.
  - done.
  - split; [|split; [done|]].
    + unfold prog_rows. cbn. lia.
    + intros j. unfold prog_column, p', seg. cbn [new_segment new_block]. rewrite Hfcol, app_nil_r. unfold seg_column.
      cbn [AppendBlockEntry with_blocks block_entries_]. rewrite map_app, concat_app. cbn [map concat]. by rewrite app_nil_r.
Qed.

(** Chunks one after the other, from row [lo] to row [hi]. *)
Fixpoint spans (lo : Z) (chunks : list Chunk) (hi : Z) : Prop :=
  match chunks with [] => lo = hi | c :: chunks' => c_begin c = lo ∧ spans (lo + c_rows c) chunks' hi end.

Lemma prog_position columns p : prog_ok columns p → block_row_count_ (new_block p) < bcap → prog_rows p mod bcap = block_row_count_ (new_block p).
Proof. intros [_ _ Hc _ (_ & Hr & _) _] Hlt. unfold prog_rows. rewrite Hc. unfold bcap in *. div_lia. Qed.

Lemma copy_range_ok columns p sid bid cols first n off (f : Z → bool) :
  prog_ok columns p → length cols = columns → Forall (fun c => first + n ≤ zlen c) cols → 0 ≤ first → 0 < n ≤ bcap →
  prog_rows p + n < 2 ^ 32 → (∀ r, first ≤ r < first + n → f r = true) → f (first - 1) = false → f (first + n) = false →
  ∃ p' chunks, copy_range p columns sid bid cols first n off = Ok (p', first + n) ∧
    copied columns cols (sid, bid) p p' chunks ∧ spans first chunks (first + n) ∧ Forall (whole f) chunks.
Proof.
  intros Hp Hl Hcols Hfirst Hn Hmax Hrun Hbefore Hafter. unfold copy_range. pose proof (prog_new _ _ Hp) as (_ & Hr & _). pose proof (prog_position _ _ Hp) as Hpos.
  destruct (Z.ltb_spec bcap (n + block_row_count_ (new_block p))) as [Hover|Hfit].
  - set (n1 := bcap - block_row_count_ (new_block p)).
    assert (Hfirst_part : ∃ p1 off1 chunks1, block_entry_append p sid bid cols first n1 off = Ok (p1, off1) ∧
      copied columns cols (sid, bid) p p1 chunks1 ∧ spans first chunks1 (first + n1) ∧ block_row_count_ (new_block p1) = bcap ∧ Forall (whole f) chunks1).
    { destruct (decide (n1 = 0)) as [Hz|Hnz].
      - exists p, off, []. unfold block_entry_append. rewrite Hz. split; [done|]. split; [by apply copied_refl|]. split; [cbn; lia|]. split; [lia|done].
      - destruct (block_entry_append_ok columns p sid bid cols first n1 off) as (p1 & He & Hc1 & Hr1); try done; try lia.
        { eapply Forall_impl; [exact Hcols|]. simpl. intros. lia. }
        eexists p1, _, _. split; [exact He|]. split; [exact Hc1|]. split; [cbn; done|]. split; [lia|]. constructor; [|done]. specialize (Hpos ltac:(lia)).
        split; cbn; [intros; apply Hrun; lia|lia|by left|right]. unfold bcap in *. div_lia. }
    destruct Hfirst_part as (p1 & off1 & chunks1 & -> & Hc1 & Hs1 & Hfull & Hw1). cbn [res_bind].
    destruct (next_new_block_ok columns p1 (copied_ok _ _ _ _ _ _ Hc1) Hfull) as (Hp2 & Hr2 & Hid2 & Hcol2). cbn zeta in *.
    set (p2 := mkProgress _ _ _) in *.
    assert (Hrows : prog_rows p1 = prog_rows p + n1).
    { rewrite (copied_rows _ _ _ _ _ _ Hc1). f_equal. clear -Hs1. unfold chunks_rows.
      assert (∀ chunks lo hi, spans lo chunks hi → Zsum (map c_rows chunks) = hi - lo) as H.
      { induction chunks as [|c chunks IH]; intros lo hi Hs; [simpl in *; lia|]. destruct Hs as [_ Hs]. apply IH in Hs.
        cbn [map Zsum fold_right]. unfold Zsum in Hs. lia. }
      rewrite (H _ _ _ Hs1). lia. }
    destruct (block_entry_append_ok columns p2 sid bid cols (first + n1) (n - n1) off1) as (p3 & He & Hc3 & _); try done; try lia.
    { eapply Forall_impl; [exact Hcols|]. simpl. intros. lia. }
    { cbn [p2 new_block fresh_block NewBlockEntry block_row_count_]. lia. }
    assert (Hc2 : copied columns cols (sid, bid) p p2 chunks1).
    { destruct Hc1. constructor; try done; try congruence. }
    exists p3, (chunks1 ++ [mkChunk (first + n1) (n - n1) (prog_rows p2)]). rewrite He.
    split; [do 2 f_equal; lia|]. split; [by eapply copied_trans|].
    split; [|apply Forall_app; split; [done|]; constructor; [|done]].
    2:{ pose proof (prog_position columns p2 Hp2) as Hpos2. cbn [p2 new_block fresh_block NewBlockEntry block_row_count_] in Hpos2. specialize (Hpos2 ltac:(unfold bcap; lia)).
        split; cbn [c_begin c_rows c_new]; [intros; apply Hrun; lia|lia|by right|left; replace (first + n1 + (n - n1)) with (first + n) by lia; done]. }
    assert (∀ chunks lo, spans lo chunks (first + n1) → spans lo (chunks ++ [mkChunk (first + n1) (n - n1) (prog_rows p2)]) (first + n)) as H.
    { induction chunks as [|c chunks IH]; intros lo Hs; [simpl in *; subst; split; [done|lia]|]. destruct Hs as [? Hs]. split; [done|]. by apply IH. }
    by apply H.
  - destruct (block_entry_append_ok columns p sid bid cols first n off) as (p1 & He & Hc1 & _); try done; try lia.
    eexists p1, _. split; [exact He|]. split; [exact Hc1|]. split; [cbn; done|]. constructor; [|done]. specialize (Hpos ltac:(lia)).
    split; cbn; [done|lia|by left|by left].
Qed.

(** ** Live rows *)

(** The values of the rows for which [f] holds, from row [i] on. *)
Fixpoint live (f : Z → bool) (i : Z) (column : list V) : list V :=
  match column with
  | [] => []
  | v :: column' => (if f i then [v] else []) ++ live f (i + 1) column'
  end.

Lemma live_app f a : ∀ i b, live f i (a ++ b) = live f i a ++ live f (i + zlen a) b.
Proof.
  induction a as [|v a IH]; intros i b; [by rewrite Z.add_0_r|]. cbn [app live]. rewrite IH, zlen_cons, app_assoc.
  by rewrite (Z.add_assoc i 1).
Qed.

Lemma live_all f a : ∀ i, (∀ r, i ≤ r < i + zlen a → f r = true) → live f i a = a.
Proof.
  induction a as [|v a IH]; intros i H; [done|]. rewrite zlen_cons in H. zlen_facts. cbn [live]. rewrite H by lia.
  rewrite IH; [done|]. intros. apply H. lia.
Qed.

Lemma live_none f a : ∀ i, (∀ r, i ≤ r < i + zlen a → f r = false) → live f i a = [].
Proof.
  induction a as [|v a IH]; intros i H; [done|]. rewrite zlen_cons in H. zlen_facts. cbn [live]. rewrite H by lia.
  rewrite IH; [done|]. intros. apply H. lia.
Qed.

(** Dead rows up to [j], then a live range up to [k]. *)
Lemma live_range f column i j k :
  0 ≤ i ≤ j → j ≤ k ≤ zlen column → (∀ r, i ≤ r < j → f r = false) → (∀ r, j ≤ r < k → f r = true) →
  live f i (drop (Z.to_nat i) column) = take (Z.to_nat (k - j)) (drop (Z.to_nat j) column) ++ live f k (drop (Z.to_nat k) column).
Proof.
  intros Hij Hjk Hdead Halive. unfold zlen in Hjk.
  rewrite <- (take_drop (Z.to_nat (j - i)) (drop (Z.to_nat i) column)), drop_drop, live_app.
  assert (Hl1 : zlen (take (Z.to_nat (j - i)) (drop (Z.to_nat i) column)) = j - i) by (unfold zlen; rewrite length_take, length_drop; lia).
  rewrite live_none by (rewrite Hl1; intros; apply Hdead; lia). rewrite Hl1. cbn [app].
  replace (Z.to_nat i + Z.to_nat (j - i))%nat with (Z.to_nat j) by lia. replace (i + (j - i)) with j by lia.
  rewrite <- (take_drop (Z.to_nat (k - j)) (drop (Z.to_nat j) column)) at 1. rewrite drop_drop, live_app.
  assert (Hl2 : zlen (take (Z.to_nat (k - j)) (drop (Z.to_nat j) column)) = k - j) by (unfold zlen; rewrite length_take, length_drop; lia).
  rewrite live_all by (rewrite Hl2; intros; apply Halive; lia). rewrite Hl2. do 2 f_equal; [lia|]. f_equal. lia.
Qed.

Lemma live_ext f g column : ∀ i, (∀ r, i ≤ r < i + zlen column → f r = g r) → live f i column = live g i column.
Proof.
  induction column as [|v column IH]; intros i H; [done|]. rewrite zlen_cons in H. zlen_facts. cbn [live]. rewrite H by lia.
  f_equal. apply IH. intros. apply H. lia.
Qed.

Lemma spans_values column chunks : ∀ lo hi,
  0 ≤ lo → spans lo chunks hi → Forall (fun c => 0 < c_rows c) chunks →
  lo ≤ hi ∧ concat (map (chunk_values column) chunks) = take (Z.to_nat (hi - lo)) (drop (Z.to_nat lo) column).
Proof.
  induction chunks as [|c chunks IH]; intros lo hi Hlo Hs Hp.
  - simpl in Hs. subst. split; [lia|]. by rewrite Z.sub_diag.
  - destruct Hs as [Hb Hs]. apply Forall_cons in Hp as [Hc Hp]. destruct (IH (lo + c_rows c) hi ltac:(lia) Hs Hp) as [Hle He].
    split; [lia|]. cbn [map concat]. rewrite He. unfold chunk_values. rewrite Hb.
    replace (Z.to_nat (hi - lo)) with (Z.to_nat (c_rows c) + Z.to_nat (hi - (lo + c_rows c)))%nat by lia.
    rewrite take_add, drop_drop. do 3 f_equal. lia.
Qed.

(** ** Blocks *)

(** Chunks in the order of their rows, from [lo] on. *)
Fixpoint sorted_chunks (lo : Z) (chunks : list Chunk) : Prop :=
  match chunks with [] => True | c :: chunks' => lo ≤ c_begin c ∧ 0 < c_rows c ∧ sorted_chunks (c_begin c + c_rows c) chunks' end.

Definition in_chunk (x : Z) (c : Chunk) : Prop := c_begin c ≤ x < c_begin c + c_rows c.

Lemma chunks_at_positive chunks : ∀ q, chunks_at q chunks → Forall (fun c => 0 < c_rows c) chunks.
Proof. induction chunks as [|c chunks IH]; intros q H; [done|]. destruct H as (_ & ? & H). constructor; [done|by eapply IH]. Qed.

Lemma spans_sorted chunks : ∀ lo hi rest,
  spans lo chunks hi → Forall (fun c => 0 < c_rows c) chunks → sorted_chunks hi rest → sorted_chunks lo (chunks ++ rest).
Proof.
  induction chunks as [|c chunks IH]; intros lo hi rest Hs Hp Hr; [by simpl in Hs; subst|].
  destruct Hs as [Hb Hs]. apply Forall_cons in Hp as [Hc Hp]. cbn [app sorted_chunks]. split; [lia|]. split; [done|].
  rewrite Hb. by eapply IH.
Qed.

Lemma spans_bounds chunks : ∀ lo hi,
  spans lo chunks hi → Forall (fun c => 0 < c_rows c) chunks → Forall (fun c => lo ≤ c_begin c ∧ c_begin c + c_rows c ≤ hi) chunks.
Proof.
  induction chunks as [|c chunks IH]; intros lo hi Hs Hp; [done|]. destruct Hs as [Hb Hs]. apply Forall_cons in Hp as [Hc Hp].
  pose proof (IH _ _ Hs Hp) as H. constructor; [|eapply Forall_impl; [exact H|]; simpl; intros; lia].
  split; [lia|]. destruct chunks as [|c' chunks]; [simpl in Hs; lia|]. apply Forall_cons in H as [H _].
  apply Forall_cons in Hp as [? _]. lia.
Qed.

Lemma spans_cover chunks : ∀ lo hi x, spans lo chunks hi → lo ≤ x < hi → ∃ c, c ∈ chunks ∧ in_chunk x c.
Proof.
  induction chunks as [|c chunks IH]; intros lo hi x Hs Hx; [simpl in Hs; lia|]. destruct Hs as [Hb Hs].
  destruct (Z.lt_ge_cases x (lo + c_rows c)).
  - exists c. split; [by left|]. unfold in_chunk. lia.
  - destruct (IH _ _ x Hs) as (c' & ? & ?); [lia|]. exists c'. split; [by right|done].
Qed.

Lemma sorted_chunks_mono chunks lo lo' : lo' ≤ lo → sorted_chunks lo chunks → sorted_chunks lo' chunks.
Proof. destruct chunks; [done|]. intros ? (? & ? & ?). split; [lia|done]. Qed.

Section Block.
Context (columns : nat) (begin_ts sid : Z) (b : Block) (events : list (Z * row_op)) (bound : Z).
Hypothesis Hinv : block_inv b events bound.
Hypothesis Hok : block_ok columns b.

Notation rows := (rows_at (row_capacity_ b) (Z.min begin_ts (max_row_ts_ b)) events).

(** Column [j] of the block. *)
Notation col j := (block_column j b).

Lemma copy_block_ok fuel : ∀ p i,
  prog_ok columns p → 0 ≤ i < 65536 → total rows - i < Z.of_nat fuel → (0 < fuel)%nat → prog_rows p + Z.max 0 (total rows - i) < 2 ^ 32 →
  i = 0 ∨ alive rows i = false →
  ∃ p' chunks, copy_block fuel p columns begin_ts sid b i = Ok p' ∧ copied columns (columns_ b) (sid, block_id_ b) p p' chunks ∧
    chunks_rows chunks ≤ Z.max 0 (total rows - i) ∧ sorted_chunks i chunks ∧
    Forall (fun c => 0 ≤ c_begin c ∧ c_begin c + c_rows c ≤ block_row_count_ b) chunks ∧
    (∀ x, i ≤ x → alive rows x = true → ∃ c, c ∈ chunks ∧ in_chunk x c) ∧ Forall (whole (alive rows)) chunks ∧
    ∀ j, (j < columns)%nat → concat (map (chunk_values (col j)) chunks) = live (alive rows) i (drop (Z.to_nat i) (col j)).
Proof using Hinv Hok.
  induction fuel as [|fuel IH]; intros p i Hp Hi Hfuel Hpos Hmax Hstart; [lia|]. cbn [copy_block]. rewrite cast_u16 by lia.
  destruct (GetVisibleRange_spec b events bound Hinv begin_ts i ltac:(lia)) as (j & k & -> & Hjk & Hk & Hdead & Halive & Hnone & Hstop).
  cbn [res_bind]. pose proof (inv_range _ _ _ Hinv (Z.min begin_ts (max_row_ts_ b))) as Hrange.
  pose proof Hok as (Hcap & Hr & Hlen & Hcols). change DEFAULT_BLOCK_CAPACITY with 8192 in *.
  destruct (Z.eqb_spec (k - j) 0) as [Hz|Hnz].
  - exists p, []. split; [done|]. split; [by apply copied_refl|]. split; [cbn; lia|]. split; [done|]. split; [done|]. split.
    + intros x Hx Hax. rewrite Hnone in Hax by lia. done.
    + split; [done|]. intros j' _. symmetry. apply live_none. intros r Hr'. apply Hnone; lia.
  - destruct (copy_range_ok columns p sid (block_id_ b) (columns_ b) j (k - j) i (alive rows) Hp Hlen) as (p1 & chunks1 & He1 & Hc1 & Hs1 & Hw1);
      [|lia|change bcap with 8192; lia|lia|intros; apply Halive; lia| |by replace (j + (k - j)) with k by lia|].
    { eapply Forall_impl; [exact Hcols|]. simpl. intros. lia. }
    { destruct (Z.eq_dec j i) as [->|]; [|apply Hdead; lia]. destruct Hstart as [->|Hd]; [done|]. rewrite Halive in Hd by lia. done. }
    rewrite He1. cbn [res_bind]. replace (j + (k - j)) with k in * by lia.
    pose proof (chunks_at_positive _ _ (copied_at _ _ _ _ _ _ Hc1)) as Hpos1.
    assert (Hrows1 : chunks_rows chunks1 = k - j).
    { clear -Hs1. revert Hs1. generalize j. unfold chunks_rows. induction chunks1 as [|c cs IH]; intros lo Hs; [simpl in *; lia|].
      destruct Hs as [_ Hs]. apply IH in Hs. cbn [map Zsum fold_right]. unfold Zsum in Hs. lia. }
    pose proof (copied_rows _ _ _ _ _ _ Hc1) as Hpr1.
    destruct (IH p1 k (copied_ok _ _ _ _ _ _ Hc1)) as (p2 & chunks2 & He2 & Hc2 & Hcr2 & Hs2 & Hb2 & Hcov2 & Hw2 & Hval2); [lia|lia|lia|lia|by right|].
    exists p2, (chunks1 ++ chunks2). split; [done|]. split; [by eapply copied_trans|].
    split; [unfold chunks_rows in *; rewrite map_app, Zsum_app; lia|]. split.
    + apply (sorted_chunks_mono _ j); [lia|]. by eapply spans_sorted.
    + split; [apply Forall_app; split; [|done]; eapply Forall_impl; [exact (spans_bounds _ _ _ Hs1 Hpos1)|]; simpl; intros; lia|]. split.
      * intros x Hx Hax. destruct (Z.lt_ge_cases x k).
        -- destruct (Z.lt_ge_cases x j); [rewrite Hdead in Hax by lia; done|].
           destruct (spans_cover chunks1 j k x Hs1) as (c & Hc & Hin); [lia|]. exists c. split; [set_solver|done].
        -- destruct (Hcov2 x) as (c & Hc & Hin); [lia|done|]. exists c. split; [set_solver|done].
      * split; [by apply Forall_app|]. intros j' Hj'. rewrite map_app, concat_app, Hval2 by done.
        rewrite (proj2 (spans_values (col j') chunks1 j k ltac:(lia) Hs1 Hpos1)). symmetry.
        assert (Hcl : zlen (col j') = block_row_count_ b).
        { apply column_length; [|exact Hcols]. eapply Nat.lt_le_trans; [exact Hj'|]. apply Nat.eq_le_incl. symmetry. exact Hlen. }
        apply live_range; [lia|rewrite Hcl; lia|done|done].
Qed.

End Block.

(** ** The remapper *)

Lemma sorted_chunks_later chunks : ∀ lo, sorted_chunks lo chunks → Forall (fun c => lo ≤ c_begin c) chunks.
Proof.
  induction chunks as [|c chunks IH]; intros lo H; [done|]. destruct H as (Hlo & Hc & H). constructor; [done|].
  eapply Forall_impl; [by apply IH|]. simpl. intros. lia.
Qed.

Lemma sorted_chunks_split chunks1 : ∀ lo c chunks2, sorted_chunks lo (chunks1 ++ c :: chunks2) →
  Forall (fun c' => c_begin c' ≤ c_begin c) chunks1 ∧ Forall (fun c' => c_begin c + c_rows c ≤ c_begin c') chunks2.
Proof.
  induction chunks1 as [|c1 chunks1 IH]; intros lo c chunks2 H; destruct H as (Hlo & Hc & H).
  - split; [done|]. by apply sorted_chunks_later.
  - destruct (IH _ _ _ H) as [H1 H2]. split; [|done]. constructor; [|done].
    apply sorted_chunks_later in H. rewrite Forall_app, Forall_cons in H. destruct H as (_ & H & _). lia.
Qed.

(** The row id that the map gives for a row of a chunk. *)
Lemma GetNewRowID_chunk m sid bid chunks lo id c x :
  m !! (sid, bid) = Some (map (chunk_entry id) chunks) → sorted_chunks lo chunks → c ∈ chunks → in_chunk x c →
  GetNewRowID m sid bid x = Ok (mkRowID id (cast u32 (c_new c + c_rows c + (c_begin c - x)))).
Proof.
  intros Hm Hs Hc Hx. unfold GetNewRowID, in_chunk in *. rewrite Hm. apply list_elem_of_split in Hc as (l1 & l2 & ->).
  destruct (sorted_chunks_split _ _ _ _ Hs) as [H1 H2]. rewrite map_app. cbn [map].
  change (map (chunk_entry id) l1 ++ chunk_entry id c :: map (chunk_entry id) l2)
    with (map (chunk_entry id) l1 ++ [chunk_entry id c] ++ map (chunk_entry id) l2). rewrite app_assoc.
  rewrite partition_point_spec, length_app, Nat.add_comm; cbn [length Nat.add].
  - rewrite lookup_app_l, list_lookup_middle; [done|done|rewrite length_app; simpl; lia].
  - apply Forall_app. split; [|constructor; [|done]].
    + apply Forall_map. eapply Forall_impl; [exact H1|]. simpl. intros. apply negb_true_iff, Z.ltb_ge. lia.
    + simpl. apply negb_true_iff, Z.ltb_ge. lia.
  - apply Forall_map. eapply Forall_impl; [exact H2|]. simpl. intros. apply negb_false_iff, Z.ltb_lt. lia.
Qed.

Lemma chunk_at_range chunks : ∀ q c,
  chunks_at q chunks → c ∈ chunks → q ≤ c_new c ∧ c_new c + c_rows c ≤ q + chunks_rows chunks.
Proof.
  unfold chunks_rows. induction chunks as [|c' chunks IH]; intros q c Hat Hc; [by apply not_elem_of_nil in Hc|].
  destruct Hat as (Hnew & Hpos & Hat). cbn [map Zsum fold_right].
  assert (Hrest : 0 ≤ Zsum (map c_rows chunks)).
  { apply chunks_at_positive in Hat. clear -Hat. induction Hat; [done|]. unfold Zsum in *. cbn [map fold_right]. lia. }
  unfold Zsum in *. apply elem_of_cons in Hc as [->|Hc]; [lia|]. destruct (IH _ c Hat Hc). lia.
Qed.

(** Where the values of a chunk are among the copied values. *)
Lemma chunk_lookup column chunks : ∀ q c x,
  chunks_at q chunks → Forall (fun c => 0 ≤ c_begin c ∧ c_begin c + c_rows c ≤ zlen column) chunks → c ∈ chunks → in_chunk x c →
  concat (map (chunk_values column) chunks) !! Z.to_nat (c_new c - q + (x - c_begin c)) = column !! Z.to_nat x.
Proof.
  unfold in_chunk. induction chunks as [|c' chunks IH]; intros q c x Hat Hb Hc Hx; [by apply not_elem_of_nil in Hc|].
  destruct Hat as (Hnew & Hpos & Hat). apply Forall_cons in Hb as [Hb Hbs]. cbn [map concat].
  assert (Hl : length (chunk_values column c') = Z.to_nat (c_rows c')).
  { unfold chunk_values, zlen in *. rewrite length_take, length_drop. lia. }
  apply elem_of_cons in Hc as [->|Hc].
  - rewrite lookup_app_l by lia. unfold chunk_values. rewrite lookup_take_lt, lookup_drop by lia. f_equal. lia.
  - destruct (chunk_at_range chunks _ c Hat Hc). rewrite lookup_app_r, <- (IH _ c x Hat Hbs Hc Hx) by lia. f_equal. lia.
Qed.

(** ** Where ranges go *)

(** How many of the rows from [lo] up to [hi] satisfy [f]. *)
Definition count_rows (f : Z → bool) (lo hi : Z) : Z := zlen (filter (fun r => f r = true) (seqZ lo (hi - lo))).

Lemma count_rows_split f lo mid hi : lo ≤ mid ≤ hi → count_rows f lo hi = count_rows f lo mid + count_rows f mid hi.
Proof.
  intros H. unfold count_rows. replace (hi - lo) with ((mid - lo) + (hi - mid)) by lia. rewrite seqZ_app, filter_app, zlen_app by lia.
  by replace (lo + (mid - lo)) with mid by lia.
Qed.

Lemma count_rows_all f lo hi : lo ≤ hi → (∀ r, lo ≤ r < hi → f r = true) → count_rows f lo hi = hi - lo.
Proof.
  intros H Hf. unfold count_rows. rewrite filter_all; [unfold zlen; rewrite length_seqZ; lia|]. apply Forall_forall. intros r Hr%elem_of_seqZ. apply Hf. lia.
Qed.

Lemma count_rows_none f lo hi : (∀ r, lo ≤ r < hi → f r = false) → count_rows f lo hi = 0.
Proof.
  intros Hf. unfold count_rows. rewrite filter_none; [done|]. apply Forall_forall. intros r Hr%elem_of_seqZ. rewrite Hf by lia. done.
Qed.

(** Chunks that have all rows of [f] go to the rows in order. *)
Lemma chunks_rank f chunks : ∀ lo q hi,
  sorted_chunks lo chunks → chunks_at q chunks → Forall (whole f) chunks → lo ≤ hi → Forall (fun c => c_begin c + c_rows c ≤ hi) chunks →
  (∀ x, lo ≤ x → f x = true → ∃ c, c ∈ chunks ∧ in_chunk x c) →
  chunks_rows chunks = count_rows f lo hi ∧ Forall (fun c => c_new c = q + count_rows f lo (c_begin c)) chunks.
Proof.
  unfold in_chunk. induction chunks as [|c chunks IH]; intros lo q hi Hs Hat Hw Hhi Hend Hcov.
  { split; [|done]. symmetry. apply count_rows_none. intros r Hr. destruct (f r) eqn:E; [|done]. destruct (Hcov r) as (c & Hc & _); [lia|done|by apply not_elem_of_nil in Hc]. }
  destruct Hs as (Hlo & Hpos & Hs), Hat as (Hnew & _ & Hat). apply Forall_cons in Hw as [Hc Hw]. apply Forall_cons in Hend as [He Hend].
  pose proof (sorted_chunks_later _ _ Hs) as Hlater. rewrite Forall_forall in Hlater.
  assert (H0 : count_rows f lo (c_begin c) = 0).
  { apply count_rows_none. intros r Hr. destruct (f r) eqn:E; [|done]. destruct (Hcov r) as (c' & Hc' & Hin); [lia|done|].
    apply elem_of_cons in Hc' as [->|Hc']; [lia|]. specialize (Hlater c' Hc'). cbn in Hlater. lia. }
  pose proof (count_rows_all f (c_begin c) (c_begin c + c_rows c) ltac:(lia) (whole_rows _ _ Hc)) as H1.
  destruct (IH (c_begin c + c_rows c) (q + c_rows c) hi) as [Hsum Hrank]; try done.
  { intros x Hx Hfx. destruct (Hcov x) as (c' & Hc' & Hin); [lia|done|]. apply elem_of_cons in Hc' as [->|Hc']; [lia|]. by exists c'. }
  split.
  - unfold chunks_rows in *. cbn [map Zsum fold_right]. unfold Zsum in *. rewrite Hsum.
    rewrite (count_rows_split f lo (c_begin c) hi), (count_rows_split f (c_begin c) (c_begin c + c_rows c) hi) by lia. lia.
  - constructor; [lia|]. apply Forall_forall. intros c' Hc'. rewrite Forall_forall in Hrank. rewrite (Hrank c' Hc'). specialize (Hlater c' Hc'). cbn in Hlater.
    rewrite (count_rows_split f lo (c_begin c) (c_begin c')), (count_rows_split f (c_begin c) (c_begin c + c_rows c) (c_begin c')) by lia. lia.
Qed.

(** Ranges that go to the same rows and have a row in common are not longer one than the other. *)
Lemma whole_within f c c' x :
  whole f c → whole f c' → in_chunk x c → in_chunk x c' → c_new c - c_begin c = c_new c' - c_begin c' →
  c_begin c' ≤ c_begin c ∧ c_begin c + c_rows c ≤ c_begin c' + c_rows c'.
Proof.
  unfold in_chunk. intros Hc Hc' Hx Hx' Hshift. pose proof (whole_fits _ _ Hc) as Hfit. pose proof (whole_rows _ _ Hc) as Hrows.
  split; apply Z.nlt_ge; intros Hlt.
  - destruct (whole_begin _ _ Hc') as [Hf|Hf]; [rewrite Hrows in Hf by lia; done|]. unfold bcap in *.
    replace (c_new c') with (c_new c + (c_begin c' - c_begin c)) in Hf by lia. div_lia.
  - destruct (whole_end _ _ Hc') as [Hf|Hf]; [rewrite Hrows in Hf by lia; done|]. unfold bcap in *.
    replace (c_new c' + c_rows c') with (c_new c + (c_begin c' + c_rows c' - c_begin c)) in Hf by lia. div_lia.
Qed.

(** The rows [c] of a block are copied together, when [base] rows were copied before the block. *)
Record range_of (f : Z → bool) (base : Z) (c : Chunk) : Prop := {
  range_whole : whole f c;
  range_begin : 0 ≤ c_begin c;
  range_new : c_new c = base + count_rows f 0 (c_begin c);
}.

Lemma range_unique f base c c' x : range_of f base c → range_of f base c' → in_chunk x c → in_chunk x c' → c = c'.
Proof.
  intros [Hw H0 Hn] [Hw' H0' Hn'] Hx Hx'. assert (Hpos : ∀ c, whole f c → 0 ≤ c_begin c → in_chunk x c → count_rows f 0 x = count_rows f 0 (c_begin c) + (x - c_begin c)).
  { clear. unfold in_chunk. intros c Hw H0 Hx. rewrite (count_rows_split f 0 (c_begin c) x) by lia.
    rewrite (count_rows_all f (c_begin c) x); [done|lia|]. intros r Hr. apply (whole_rows _ _ Hw). lia. }
  pose proof (Hpos c Hw H0 Hx). pose proof (Hpos c' Hw' H0' Hx').
  destruct (whole_within f c c' x Hw Hw' Hx Hx' ltac:(lia)). destruct (whole_within f c' c x Hw' Hw Hx' Hx ltac:(lia)).
  destruct c, c'; cbn in *. f_equal; lia.
Qed.

Lemma range_ext f g base c : (∀ r, f r = g r) → range_of f base c → range_of g base c.
Proof.
  intros Heq [[Hr Hf Hb He] H0 Hn]. split; [split; [intros r Hrow; rewrite <- Heq; auto|done|by rewrite <- Heq|by rewrite <- Heq]|done|].
  rewrite Hn. f_equal. unfold count_rows. f_equal. apply list_filter_iff. intros r. by rewrite Heq.
Qed.

(** ** All blocks *)

(** What the transaction of the compaction sees of a block. *)
Definition visible (b : Block) (ts x : Z) : bool :=
  match @CheckRowVisible (list_columns V) b x ts true with Ok v => v | Err _ => false end.

(** A block whose transactions have committed. *)
Definition source_ok (columns : nat) (b : Block) : Prop := block_ok columns b ∧ ∃ events, block_inv b events (max_row_ts_ b).

Lemma visible_alive b events ts x :
  block_inv b events (max_row_ts_ b) → visible b ts x = alive (rows_at (row_capacity_ b) (Z.min ts (max_row_ts_ b)) events) x.
Proof.
  intros Hinv. replace (rows_at (row_capacity_ b) (Z.min ts (max_row_ts_ b)) events) with (rows_at (row_capacity_ b) ts events).
  2:{ destruct (Z.le_gt_cases (max_row_ts_ b) ts); [|by rewrite Z.min_l by lia].
      rewrite Z.min_r by lia. apply rows_at_after; [by eapply inv_events|done]. }
  unfold visible. destruct (decide (0 ≤ x < row_capacity_ b)) as [Hx|Hx]; [by rewrite (CheckRowVisible_alive b events _ Hinv)|].
  unfold CheckRowVisible. rewrite (inv_count _ _ _ Hinv). cbn [andb]. pose proof (inv_range _ _ _ Hinv ts). pose proof (inv_total _ _ _ Hinv).
  destruct (Z.leb_spec (total (rows_at (row_capacity_ b) ts events)) x); [by rewrite not_alive_beyond|].
  unfold array_at. rewrite decide_False by lia. cbn [res_bind]. unfold alive. by rewrite (proj2 (Z.leb_gt 0 x)) by lia.
Qed.

(** How many rows of a block are copied. *)
Definition visible_rows (ts : Z) (b : Block) : Z := count_rows (visible b ts) 0 (block_row_count_ b).

(** Where the rows of a range of a block are, and where the remapper says they are. *)
Definition remapped (columns : nat) (column : nat → list V) (m : RowIDRemap) (new_id ts base sid : Z) (b : Block) : Prop :=
  ∀ c x, range_of (visible b ts) base c → in_chunk x c →
    (∀ j, (j < columns)%nat → ∃ v, block_column j b !! Z.to_nat x = Some v ∧ column j !! Z.to_nat (c_new c + (x - c_begin c)) = Some v) ∧
    GetNewRowID m sid (block_id_ b) x = Ok (mkRowID new_id (c_new c + c_rows c - (x - c_begin c))).

Lemma remapped_later columns column column' m m' new_id ts base sid b :
  (∀ j, ∃ l, column' j = column j ++ l) → m' !! (sid, block_id_ b) = m !! (sid, block_id_ b) →
  remapped columns column m new_id ts base sid b → remapped columns column' m' new_id ts base sid b.
Proof.
  intros Hcol Hm Hre c x Hrange Hx. destruct (Hre c x Hrange Hx) as [Hv Hid]. split.
  - intros j Hj. destruct (Hv j Hj) as (v & Hb & Hc). exists v. split; [done|]. destruct (Hcol j) as [l ->]. by apply lookup_app_l_Some.
  - unfold GetNewRowID in *. by rewrite Hm.
Qed.

Lemma block_column_length columns (b : Block) j : block_ok columns b → (j < columns)%nat → zlen (block_column j b) = block_row_count_ b.
Proof.
  intros (_ & _ & Hlen & Hcols) Hj. apply column_length; [|exact Hcols]. eapply Nat.lt_le_trans; [exact Hj|].
  apply Nat.eq_le_incl. symmetry. exact Hlen.
Qed.

Lemma prog_column_length columns p j : prog_ok columns p → (j < columns)%nat → zlen (prog_column p j) = prog_rows p.
Proof.
  intros [Hb Hf Hc _ Hnb _] Hj. unfold prog_column, prog_rows. rewrite zlen_app, (block_column_length columns) by done. f_equal.
  rewrite Hc. unfold seg_column. clear Hc. induction (block_entries_ (new_segment p)) as [|b bs IH]; [done|].
  apply Forall_cons in Hb as [Hb Hbs], Hf as [Hf Hfs]. cbn [map concat].
  rewrite zlen_app, zlen_cons, IH, (block_column_length columns) by done. lia.
Qed.

Lemma chunks_rows_nonneg chunks q : chunks_at q chunks → 0 ≤ chunks_rows chunks.
Proof.
  intros H%chunks_at_positive. unfold chunks_rows, Zsum. induction H; [done|]. cbn [map fold_right]. lia.
Qed.

Lemma entry_Some m key l : entry m key = l → l ≠ [] → m !! key = Some l.
Proof. unfold entry. destruct (m !! key); simpl; congruence. Qed.

(** A row of a copied chunk, when the remapper did not know the block. *)
Lemma copied_chunk columns sid b p p' chunks c x :
  block_ok columns b → prog_ok columns p → copied columns (columns_ b) (sid, block_id_ b) p p' chunks → remapper p !! (sid, block_id_ b) = None →
  sorted_chunks 0 chunks → Forall (fun c => 0 ≤ c_begin c ∧ c_begin c + c_rows c ≤ block_row_count_ b) chunks →
  0 ≤ prog_rows p → prog_rows p' < 2 ^ 32 → c ∈ chunks → in_chunk x c →
  (∀ j, (j < columns)%nat → ∃ v, block_column j b !! Z.to_nat x = Some v ∧ prog_column p' j !! Z.to_nat (c_new c + (x - c_begin c)) = Some v) ∧
  GetNewRowID (remapper p') sid (block_id_ b) x = Ok (mkRowID (segment_id_ (new_segment p)) (c_new c + c_rows c - (x - c_begin c))).
Proof.
  intros Hok Hp Hc Hnone Hs Hb Hp0 Hmax Hcin Hxc. change (2 ^ 32) with 4294967296 in Hmax.
  pose proof (copied_at _ _ _ _ _ _ Hc) as Hat. pose proof (copied_rows _ _ _ _ _ _ Hc) as Hrows.
  assert (Hwhere : prog_rows p ≤ c_new c ∧ c_new c + c_rows c ≤ prog_rows p + chunks_rows chunks).
  { apply (chunk_at_range chunks); done. }
  pose proof Hxc as Hxc'. unfold in_chunk in Hxc'. split.
  - intros j Hj. pose proof (block_column_length _ _ j Hok Hj) as Hcl.
    pose proof (chunk_lookup (block_column j b) chunks _ c x Hat) as Hlook. rewrite Hcl in Hlook. specialize (Hlook Hb Hcin Hxc).
    destruct (lookup_lt_is_Some_2 (block_column j b) (Z.to_nat x)) as [v Hv].
    { rewrite Forall_forall in Hb. destruct (Hb c Hcin). unfold zlen in Hcl. lia. }
    exists v. split; [done|]. rewrite (copied_values _ _ _ _ _ _ Hc).
    pose proof (prog_column_length columns p j Hp Hj) as Hpl. unfold zlen in Hpl. rewrite lookup_app_r by lia.
    change (default [] (columns_ b !! j)) with (block_column j b). rewrite <- Hv, <- Hlook. f_equal. lia.
  - pose proof (copied_entry _ _ _ _ _ _ Hc) as Hentry. unfold entry at 2 in Hentry. rewrite Hnone in Hentry. cbn [default app] in Hentry.
    apply entry_Some in Hentry; [|destruct chunks; [by apply not_elem_of_nil in Hcin|done]].
    rewrite (GetNewRowID_chunk _ _ _ _ _ _ _ _ Hentry Hs Hcin Hxc), cast_id by solve_range. do 2 f_equal. lia.
Qed.

(** A block, into a remapper that does not know it. *)
Lemma copy_source_ok columns begin_ts sid b p :
  source_ok columns b → prog_ok columns p → 0 ≤ prog_rows p → prog_rows p + block_row_count_ b < 2 ^ 32 → remapper p !! (sid, block_id_ b) = None →
  ∃ p', copy_block (Z.to_nat 65537) p columns begin_ts sid b 0 = Ok p' ∧ prog_ok columns p' ∧
    segment_id_ (new_segment p') = segment_id_ (new_segment p) ∧ prog_rows p' = prog_rows p + visible_rows begin_ts b ∧ 0 ≤ visible_rows begin_ts b ≤ block_row_count_ b ∧
    (∀ key, key ≠ (sid, block_id_ b) → remapper p' !! key = remapper p !! key) ∧
    (∀ j, ∃ l, prog_column p' j = prog_column p j ++ l ∧ ((j < columns)%nat → l = live (visible b begin_ts) 0 (block_column j b))) ∧
    remapped columns (prog_column p') (remapper p') (segment_id_ (new_segment p)) begin_ts (prog_rows p) sid b.
Proof.
  intros [Hok [events Hinv]] Hp Hp0 Hmax Hnone. change (2 ^ 32) with 4294967296 in Hmax.
  pose proof (inv_range _ _ _ Hinv (Z.min begin_ts (max_row_ts_ b))) as Hr. pose proof (inv_capacity _ _ _ Hinv). pose proof (inv_total _ _ _ Hinv).
  destruct (copy_block_ok columns begin_ts sid b events _ Hinv Hok (Z.to_nat 65537) p 0) as (p' & chunks & He & Hc & Hn & Hs & Hb & Hcov & Hw & Hval);
    [done|lia|lia|lia|change (2 ^ 32) with 4294967296; lia|by left|].
  pose proof (copied_rows _ _ _ _ _ _ Hc) as Hrows. pose proof (chunks_rows_nonneg _ _ (copied_at _ _ _ _ _ _ Hc)) as Hpos.
  set (f := alive (rows_at (row_capacity_ b) (Z.min begin_ts (max_row_ts_ b)) events)) in *.
  assert (Hvis : ∀ x, visible b begin_ts x = f x) by (intros x; by apply visible_alive).
  destruct (chunks_rank f chunks 0 (prog_rows p) (block_row_count_ b) Hs (copied_at _ _ _ _ _ _ Hc) Hw) as [Hsum Hrank].
  { destruct Hok as (_ & ? & _). lia. }
  { eapply Forall_impl; [exact Hb|]. cbn. intros. lia. }
  { intros x Hx Hfx. by apply Hcov. }
  assert (Hrows' : visible_rows begin_ts b = chunks_rows chunks).
  { rewrite Hsum. unfold visible_rows, count_rows. f_equal. apply list_filter_iff. intros r. by rewrite Hvis. }
  exists p'. split; [done|]. split; [apply Hc|]. split; [apply Hc|]. split; [lia|]. split; [lia|]. split; [apply Hc|]. split.
  - intros j. eexists. split; [apply (copied_values _ _ _ _ _ _ Hc)|]. intros Hj. change (default [] (columns_ b !! j)) with (block_column j b).
    rewrite Hval by done. rewrite drop_0. apply live_ext. intros r _. by rewrite Hvis.
  - intros c x Hrange Hxc. assert (Hf : range_of f (prog_rows p) c) by (by apply (range_ext (visible b begin_ts))).
    assert (Hfx : f x = true) by (apply (whole_rows _ _ (range_whole _ _ _ Hf)); exact Hxc).
    pose proof (range_begin _ _ _ Hf). unfold in_chunk in Hxc.
    destruct (Hcov x) as (c' & Hcin & Hxc'); [lia|done|]. rewrite Forall_forall in Hw, Hrank, Hb.
    assert (c = c') as -> by (apply (range_unique f (prog_rows p) c c' x Hf); [split; [by apply Hw|by apply Hb|by apply Hrank]|exact Hxc|exact Hxc']).
    eapply copied_chunk; try done; [by apply Forall_forall|]. change (2 ^ 32) with 4294967296. lia.
Qed.

(** The blocks of the segments, with the segment ids, in the order in which they are copied. *)
Definition sources (segments : list (Segment * list Block)) : list (Z * Block) :=
  concat (map (fun '(s, block_map) => map (pair (segment_id_ s)) block_map) segments).

Definition source_key (source : Z * Block) : Z * Z := (source.1, block_id_ source.2).

Definition source_rows (srcs : list (Z * Block)) : Z := Zsum (map (fun source => block_row_count_ source.2) srcs).

(** How many rows of some blocks are copied. *)
Definition rows_before (begin_ts : Z) (srcs : list (Z * Block)) : Z := Zsum (map (fun source => visible_rows begin_ts source.2) srcs).

Definition copy_source (columns : nat) (begin_ts : Z) (p : Progress) (source : Z * Block) : result Progress :=
  copy_block (Z.to_nat 65537) p columns begin_ts source.1 source.2 0.

Lemma copy_segments_flat columns begin_ts segments : ∀ p,
  res_fold (copy_segment columns begin_ts) p segments = res_fold (copy_source columns begin_ts) p (sources segments).
Proof.
  induction segments as [|[s bs] segments IH]; intros p; [done|]. unfold sources. cbn [map concat]. rewrite res_fold_app. cbn [res_fold copy_segment].
  assert (Hb : ∀ bs p, res_fold (fun p b => copy_block (Z.to_nat 65537) p columns begin_ts (segment_id_ s) b 0) p bs =
    res_fold (copy_source columns begin_ts) p (map (pair (segment_id_ s)) bs)).
  { clear. induction bs as [|b bs IH]; intros p; [done|]. cbn [map res_fold]. unfold copy_source at 1. cbn [fst snd].
    destruct (copy_block _ _ _ _ _ _); cbn [res_bind]; [apply IH|done]. }
  rewrite Hb. destruct (res_fold _ p _); cbn [res_bind]; [apply IH|done].
Qed.

Lemma copy_sources_ok columns begin_ts srcs : ∀ p,
  Forall (fun source => source_ok columns source.2) srcs → NoDup (map source_key srcs) → prog_ok columns p → 0 ≤ prog_rows p →
  prog_rows p + source_rows srcs < 2 ^ 32 → Forall (fun source => remapper p !! source_key source = None) srcs →
  ∃ p', res_fold (copy_source columns begin_ts) p srcs = Ok p' ∧ prog_ok columns p' ∧
    segment_id_ (new_segment p') = segment_id_ (new_segment p) ∧
    (∀ key, key ∉ map source_key srcs → remapper p' !! key = remapper p !! key) ∧
    (∀ j, ∃ l, prog_column p' j = prog_column p j ++ l ∧
      ((j < columns)%nat → l = concat (map (fun source => live (visible source.2 begin_ts) 0 (block_column j source.2)) srcs))) ∧
    ∀ before sid b after, srcs = before ++ (sid, b) :: after →
      remapped columns (prog_column p') (remapper p') (segment_id_ (new_segment p)) begin_ts (prog_rows p + rows_before begin_ts before) sid b.
Proof.
  unfold source_rows. induction srcs as [|[sid b] srcs IH]; intros p Hok Hnd Hp Hp0 Hmax Hnew; cbn [map concat res_fold].
  { exists p. split_and!; try done; [|intros before ??? H; by destruct before]. intros j. exists []. by rewrite app_nil_r. }
  apply Forall_cons in Hok as [Hb Hok]. apply NoDup_cons in Hnd as [Hnin Hnd]. apply Forall_cons in Hnew as [Hnb Hnew].
  change (2 ^ 32) with 4294967296 in *. cbn [map Zsum fold_right snd] in Hmax.
  assert (Hrest : 0 ≤ Zsum (map (fun source : Z * Block => block_row_count_ source.2) srcs)).
  { clear -Hok. unfold Zsum. induction Hok as [|[? ?] ? [(_ & ? & _) _]]; [done|]. cbn [map fold_right snd] in *. lia. }
  unfold Zsum in *.
  destruct (copy_source_ok columns begin_ts sid b p Hb Hp Hp0) as (p1 & He1 & Hp1 & Hid1 & Hr1 & Hvr & Hother1 & Hcol1 & Hre1);
    [change (2 ^ 32) with 4294967296; lia|done|].
  destruct (IH p1 Hok Hnd Hp1) as (p2 & He2 & Hp2 & Hid2 & Hother2 & Hcol2 & Hre2); [lia|lia|..].
  { apply Forall_forall. intros [sid' b'] Hin. rewrite Hother1; [by eapply Forall_forall in Hnew|]. intros Heq. apply Hnin.
    change (source_key (sid, b)) with (sid, block_id_ b). rewrite <- Heq. apply list_elem_of_fmap. by eexists. }
  exists p2. unfold copy_source at 1. cbn [fst snd]. rewrite He1. cbn [res_bind]. split; [done|]. split; [done|]. split; [congruence|].
  split; [|split].
  - intros key Hk. apply not_elem_of_cons in Hk as [Hk Hk']. rewrite Hother2 by done. by apply Hother1.
  - intros j. destruct (Hcol1 j) as (l1 & Hc1 & Hl1), (Hcol2 j) as (l2 & Hc2 & Hl2). exists (l1 ++ l2).
    split; [by rewrite Hc2, Hc1, app_assoc|]. intros Hj. by rewrite Hl1, Hl2.
  - intros [|[sid0 b0] before] sid' b' after Heq; injection Heq as -> -> Heq.
    + subst. unfold rows_before. cbn [map Zsum fold_right]. rewrite Z.add_0_r. eapply remapped_later; [| |exact Hre1]; [|by apply Hother2].
      intros j. destruct (Hcol2 j) as (l2 & Hc2 & _). by exists l2.
    + rewrite <- Hid1. replace (prog_rows p + rows_before begin_ts ((sid0, b0) :: before)) with (prog_rows p1 + rows_before begin_ts before); [by eapply Hre2|].
      unfold rows_before. cbn [map Zsum fold_right snd]. unfold Zsum. lia.
Qed.

(** The blocks of the segments that are compacted. *)
Definition compacted (candidates : list (Segment * list Block)) : list (Z * Block) := sources (pick_segments candidates).

Lemma Execute_ok columns new_id begin_ts candidates :
  let srcs := compacted candidates in
  Forall (fun source => source_ok columns source.2) srcs → NoDup (map source_key srcs) → source_rows srcs < 2 ^ 32 →
  ∃ s m, PhysicalCompact_Execute columns new_id begin_ts ∅ candidates = Ok (s, m, pick_segments candidates) ∧
    (∀ j, (j < columns)%nat →
      seg_column s j = concat (map (fun source => live (visible source.2 begin_ts) 0 (block_column j source.2)) srcs)) ∧
    ∀ before sid b after, srcs = before ++ (sid, b) :: after → remapped columns (seg_column s) m new_id begin_ts (rows_before begin_ts before) sid b.
Proof.
  intros srcs Hok Hnd Hmax. unfold PhysicalCompact_Execute. rewrite copy_segments_flat. set (seg := NewSegmentEntry new_id columns).
  set (p := mkProgress seg (fresh_block seg columns) ∅). pose proof (fresh_block_ok seg columns) as [Hfok Hfcol].
  destruct (copy_sources_ok columns begin_ts srcs p Hok Hnd) as (p' & He & Hp' & Hid & _ & Hcol & Hre); [by constructor|done|done|..].
  { apply Forall_forall. intros. apply lookup_empty. }
  fold (compacted candidates). fold srcs. rewrite He. cbn [res_bind]. eexists _, _. split; [reflexivity|].
  assert (Hfinal : ∀ j, seg_column (if 0 <? block_row_count_ (new_block p') then AppendBlockEntry (new_segment p') (new_block p') else new_segment p') j
    = prog_column p' j ∨ (columns <= j)%nat).
  { intros j. destruct (Nat.le_gt_cases columns j) as [|Hj]; [by right|left]. unfold prog_column. destruct (Z.ltb_spec 0 (block_row_count_ (new_block p'))).
    - unfold seg_column. cbn [AppendBlockEntry with_blocks block_entries_]. rewrite map_app, concat_app. cbn [map concat]. by rewrite app_nil_r.
    - pose proof (block_column_length _ _ j (prog_new _ _ Hp') Hj) as Hl. pose proof (prog_new _ _ Hp') as (_ & Hr & _).
      destruct (block_column j (new_block p')); [by rewrite app_nil_r|]. rewrite zlen_cons in Hl. zlen_facts. lia. }
  split.
  - intros j Hj. destruct (Hfinal j) as [->|]; [|lia]. destruct (Hcol j) as (l & -> & Hl). rewrite <- (Hl Hj).
    unfold prog_column, p. cbn [new_segment new_block]. by rewrite Hfcol.
  - intros before sid b after Heq c x Hrange Hx. destruct (Hre before sid b after Heq c x Hrange Hx) as [Hv Hg].
    split; [|done]. intros j Hj. destruct (Hfinal j) as [->|]; [|lia]. by apply Hv.
Qed.

(** ** Properties *)

(** C18. A compaction copies what its transaction sees.  On blocks whose transactions have committed,
    [PhysicalCompact::Execute] terminates without an error, and each column of the new segment holds
    the values of the rows that are visible at the transaction's begin timestamp, block after block
    in their order, whatever the ranges of deleted rows are and wherever a block of the new segment
    becomes full. *)
Theorem compaction_copies columns new_id begin_ts candidates :
  let srcs := compacted candidates in
  Forall (fun source => source_ok columns source.2) srcs → NoDup (map source_key srcs) → source_rows srcs < 2 ^ 32 →
  ∃ s m, PhysicalCompact_Execute columns new_id begin_ts ∅ candidates = Ok (s, m, pick_segments candidates) ∧
    ∀ j, (j < columns)%nat →
      seg_column s j = concat (map (fun source => live (visible source.2 begin_ts) 0 (block_column j source.2)) srcs).
Proof.
  intros srcs Hok Hnd Hmax. destruct (Execute_ok columns new_id begin_ts candidates Hok Hnd Hmax) as (s & m & He & Hc & _). by exists s, m.
Qed.

(** C33. The row ids of a compaction are mirrored.  Let the rows of [c] be a range of a block that is
    copied at once: all are visible, and it ends where the row before or after is not, or where a
    block of the new segment begins or ends.  Its row [x] is at row [c_new c + (x - c_begin c)] of the
    new segment, after all rows copied before.  But a delete of it that was committed during the
    compaction is applied to row [c_new c + c_rows c - (x - c_begin c)]: the remapper holds the end of
    the range instead of its start, and subtracts the distance instead of adding it.  So the delete
    of the first row of a range goes to the row behind the range, and the others are mirrored. *)
Theorem compaction_remap columns new_id begin_ts candidates :
  let srcs := compacted candidates in
  Forall (fun source => source_ok columns source.2) srcs → NoDup (map source_key srcs) → source_rows srcs < 2 ^ 32 →
  ∃ s m, PhysicalCompact_Execute columns new_id begin_ts ∅ candidates = Ok (s, m, pick_segments candidates) ∧
    ∀ before sid b after c x, srcs = before ++ (sid, b) :: after → 0 ≤ block_id_ b < 2 ^ 16 →
      range_of (visible b begin_ts) (rows_before begin_ts before) c → in_chunk x c →
      (∀ j, (j < columns)%nat → ∃ v, block_column j b !! Z.to_nat x = Some v ∧ seg_column s j !! Z.to_nat (c_new c + (x - c_begin c)) = Some v) ∧
      ∀ old, segment_id_ old = sid → status_ old = Status.kCompacting → delete_txns_ old = ∅ →
        to_delete_ old = [block_id_ b * DEFAULT_BLOCK_CAPACITY + x] →
        ∃ old', ApplyDeletes m [old] = Ok (Some [mkRowID new_id (c_new c + c_rows c - (x - c_begin c))], [old']).
Proof.
  intros srcs Hok Hnd Hmax. destruct (Execute_ok columns new_id begin_ts candidates Hok Hnd Hmax) as (s & m & He & _ & Hre).
  exists s, m. split; [done|]. intros before sid b after c x Heq Hid Hrange Hxc. destruct (Hre before sid b after Heq c x Hrange Hxc) as [Hv Hg].
  split; [done|]. intros old Hsid Hstatus Htxns Hdel. pose proof (whole_rows _ _ (range_whole _ _ _ Hrange) x Hxc) as Hx.
  fold srcs in Heq. rewrite Heq in Hok. apply Forall_app in Hok as [_ [[(Hcap & _) [events Hinv]] _]%Forall_cons]. cbn [snd] in *.
  assert (Hxr : 0 ≤ x < 8192).
  { rewrite (visible_alive _ events) in Hx by done. pose proof (inv_range _ _ _ Hinv (Z.min begin_ts (max_row_ts_ b))).
    pose proof (inv_total _ _ _ Hinv). rewrite Hcap in *. unfold bcap, alive in *. destruct (Z.leb_spec 0 x); [|done].
    destruct (Z.ltb_spec x (total (rows_at 8192 (Z.min begin_ts (max_row_ts_ b)) events))); [lia|done]. }
  unfold ApplyDeletes. cbn [set_no_delete_all]. unfold SetNoDelete. rewrite Hstatus, decide_True by done. cbn [res_bind res_fold].
  unfold remap_deletes. cbn [with_status to_delete_ segment_id_]. rewrite Hdel, Hsid. cbn [res_fold].
  unfold GetNewRowID_of. cbn [row_segment_id row_segment_offset]. unfold bcap. change (2 ^ 16) with 65536 in Hid.
  replace ((block_id_ b * 8192 + x) / 8192) with (block_id_ b) by div_lia.
  replace ((block_id_ b * 8192 + x) mod 8192) with x by div_lia. rewrite !cast_u16 by lia. rewrite Hg. cbn [res_bind app]. by eexists.
Qed.

End Compact.

(** ** Examples: two rows of one block *)

#[local] Instance number_columns : ColumnStore := list_columns Z.

Definition old_txns : list (@Transaction (list_columns Z)) := [mkTxn 1 10 [Append (H := list_columns Z) [[7; 8]] 0 2]].

Definition old_block : @BlockEntry (list_columns Z) :=
  match res_fold run_txn (NewBlockEntry 0 [[]]) old_txns with
  | Ok b => b
  | Err _ => NewBlockEntry 0 []
  end.

Lemma old_block_ok : source_ok 1 old_block.
Proof.
  split.
  - split; [reflexivity|]. split; [split; discriminate|]. split; [reflexivity|]. repeat constructor.
  - destruct (run_new_ok ltac:(intros; exact I) 0 [[]] old_txns) as (b & He & Hi & _).
    { cbn [old_txns valid_txns valid_requests txn_commit_ts requests op_of valid_op fits]. split_and!; try done; try lia.
      all: apply (bool_decide_unpack _); vm_compute; exact I. }
    eexists. unfold old_block. rewrite He. exact Hi.
Qed.

Definition old_segment : @SegmentEntry Z := (SetSealed (with_blocks (NewSegmentEntry 3 1) [old_block] 2 2)).2.

Lemma old_sources : compacted [(old_segment, [old_block])] = [(3, old_block)].
Proof. reflexivity. Qed.

Lemma compaction_copies_witness :
  ∃ s m srcs, PhysicalCompact_Execute 1 4 20 ∅ [(old_segment, [old_block])] = Ok (s, m, srcs) ∧ seg_column s 0 = [7; 8].
Proof.
  destruct (compaction_copies 1 4 20 [(old_segment, [old_block])]) as (s & m & He & Hc).
  - rewrite old_sources. constructor; [exact old_block_ok|done].
  - rewrite old_sources. apply NoDup_singleton.
  - rewrite old_sources. reflexivity.
  - exists s, m, (pick_segments [(old_segment, [old_block])]). split; [exact He|]. rewrite (Hc 0%nat ltac:(lia)). vm_compute. reflexivity.
Defined.

(** The delete of the first row goes to a row that does not exist. *)
Lemma compaction_remap_witness :
  ∃ s m srcs old', PhysicalCompact_Execute 1 4 20 ∅ [(old_segment, [old_block])] = Ok (s, m, srcs) ∧ seg_column s 0 !! 0%nat = Some 7 ∧
    ApplyDeletes m [with_status old_segment Status.kCompacting true [0] 0] = Ok (Some [mkRowID 4 2], [old']).
Proof.
  destruct (compaction_remap 1 4 20 [(old_segment, [old_block])]) as (s & m & He & Hre).
  - rewrite old_sources. constructor; [exact old_block_ok|done].
  - rewrite old_sources. apply NoDup_singleton.
  - rewrite old_sources. reflexivity.
  - destruct (Hre [] 3 old_block [] (mkChunk 0 2 0) 0) as [Hv Ha]; [reflexivity|split; [discriminate|reflexivity]| |split; [discriminate|reflexivity]|].
    { split; [split|discriminate|reflexivity].
      - intros r Hr. cbn in Hr. assert (r = 0 ∨ r = 1) as [-> | ->] by lia; vm_compute; reflexivity.
      - discriminate.
      - left. vm_compute. reflexivity.
      - left. vm_compute. reflexivity. }
    destruct (Ha (with_status old_segment Status.kCompacting true [0] 0)) as [old' Ho]; [reflexivity..|].
    exists s, m, (pick_segments [(old_segment, [old_block])]), old'. split; [exact He|]. split; [|exact Ho].
    destruct (Hv 0%nat ltac:(lia)) as (v & Hb & Hs). exact (eq_trans Hs (eq_sym Hb)).
Defined.
