(* ===== verification/DataBlock.v ===== *)
(** * Data blocks

    [DataBlock] (src/storage/data_block.cpp, data_block.cppm) over [ColumnVector]
    (src/storage/column_vector): the columns of rows that operators hand to each other and that a
    transaction collects before it commits.  A column vector is the list of its values; how a value is
    laid out in the buffers of a vector is not modelled. *)

From Stdlib Require Import ZArith Lia List.
From stdpp Require Import base list numbers.
From S2P Require Import Prelude Bytes DataTypes.
Local Open Scope Z_scope.

Definition DEFAULT_VECTOR_SIZE : Z := 8192.

Module VectorType.
Inductive ColumnVectorType := kInvalid | kFlat | kConstant | kCompactBit | kHeterogeneous.

#[export] Instance ColumnVectorType_eq_dec : EqDecision ColumnVectorType.
Proof. solve_decision. Defined.
End VectorType.
Import (hints) VectorType.
Notation ColumnVectorType := VectorType.ColumnVectorType.

Section Blocks.
Context {V : Type}.

(** ** Column vectors *)

(** [tail_index_] is the length of [values_]. *)
Record ColumnVector := mkVector {
  vector_type_ : ColumnVectorType;
  data_type_ : DataType;
  values_ : list V;
  vector_capacity_ : Z;
  vector_initialized : bool;
}.

Implicit Types (v other : ColumnVector).

Definition Size v : Z := zlen (values_ v).

Definition ColumnVector_new (data_type : DataType) : ColumnVector := mkVector VectorType.kInvalid data_type [] 0 false.

Definition is_type (dt : DataType) (t : LogicalType) : bool := bool_decide (type_ dt = Enumerator t).

(** [ColumnVector::Initialize(vector_type, capacity)] *)
Definition Initialize v (vector_type : ColumnVectorType) (capacity : Z) : result ColumnVector :=
  if vector_initialized v then Err UnrecoverableError
  else if is_type (data_type_ v) kInvalid then Err UnrecoverableError
  else match vector_type with
  | VectorType.kInvalid => Err UnrecoverableError
  | _ =>
      let vector_type :=
        match vector_type with
        | VectorType.kFlat => if is_type (data_type_ v) kBoolean then VectorType.kCompactBit else VectorType.kFlat
        | t => t
        end in
      if is_type (data_type_ v) kNull || is_type (data_type_ v) kMissing then Err UnrecoverableError
      else Ok (mkVector vector_type (data_type_ v) [] capacity true)
  end.

(** How [AppendWith] copies the values of a type; [None] for types that are not copied. *)
Inductive copying := PlainCopy | ValueCopy.

Definition copying_of (dt : DataType) : option copying :=
  match type_ dt with
  | Enumerator (kBoolean | kVarchar | kTensor | kTensorArray | kSparse | kEmbedding) => Some PlainCopy
  | Enumerator (kTinyInt | kSmallInt | kInteger | kBigInt | kHugeInt | kFloat | kDouble | kDecimal | kDate | kTime | kDateTime
               | kTimestamp | kInterval | kPoint | kLine | kLineSeg | kBox | kCircle | kUuid | kRowID | kMixed) => Some ValueCopy
  | _ => None
  end.

(** The values [from .. from + count); a constant vector repeats its value for the types that
    [CopyValue] copies. *)
Definition copied_values other (how : copying) (from count : Z) : result (list V) :=
  match how, vector_type_ other, values_ other with
  | ValueCopy, VectorType.kConstant, [_] =>
      match values_ other !! Z.to_nat from with
      | Some x => Ok (replicate (Z.to_nat count) x)
      | None => Err OutOfBounds
      end
  | _, _, _ =>
      if Size other <? from + count then Err OutOfBounds
      else Ok (take (Z.to_nat count) (drop (Z.to_nat from) (values_ other)))
  end.

Definition Vector_AppendWith v other (from count : Z) : result ColumnVector :=
  if count =? 0 then Ok v
  else if negb (DataType_eqb (data_type_ v) (data_type_ other)) then Err UnrecoverableError
  else if vector_capacity_ v <? Size v + count then Err UnrecoverableError
  else match copying_of (data_type_ v) with
  | None => Err UnrecoverableError
  | Some how =>
      let? vals := copied_values other how from count in
      Ok (mkVector (vector_type_ v) (data_type_ v) (values_ v ++ vals) (vector_capacity_ v) (vector_initialized v))
  end.

Definition Vector_Reset v : ColumnVector := mkVector VectorType.kInvalid (data_type_ v) [] 0 false.

(** ** Blocks *)

Record DataBlock := mkData {
  column_vectors : list ColumnVector;
  row_count_ : Z;
  column_count_ : Z;
  capacity_ : Z;
  initialized : bool;
  finalized : bool;
}.

Implicit Types (d o : DataBlock).

Definition DataBlock_Make : DataBlock := mkData [] 0 0 0 false false.

Definition init_vector (type : DataType) (capacity : Z) : result ColumnVector :=
  Initialize (ColumnVector_new type) (if is_type type kBoolean then VectorType.kCompactBit else VectorType.kFlat) capacity.

Fixpoint init_vectors (types : list DataType) (capacity : Z) : result (list ColumnVector) :=
  match types with
  | [] => Ok []
  | type :: types => let? v := init_vector type capacity in let? vs := init_vectors types capacity in Ok (v :: vs)
  end.

(** [DataBlock::Init(types, capacity)] *)
Definition Init_types d (types : list DataType) (capacity : Z) : result DataBlock :=
  if initialized d then Err UnrecoverableError
  else match types with
  | [] => Err UnrecoverableError
  | _ => let? vs := init_vectors types capacity in Ok (mkData (column_vectors d ++ vs) (row_count_ d) (zlen types) capacity true (finalized d))
  end.

(** The loop of [Finalize]; [seen] is [first_flat_column_vector]. *)
Fixpoint count_rows (vs : list ColumnVector) (seen : bool) (row_count : Z) : result Z :=
  match vs with
  | [] => Ok row_count
  | v :: vs =>
      match vector_type_ v with
      | VectorType.kConstant => count_rows vs seen row_count
      | _ => if seen && negb (row_count =? Size v) then Err UnrecoverableError else count_rows vs true (Size v)
      end
  end.

Definition Finalize d : result DataBlock :=
  if finalized d then Ok d
  else
    let? row_count := count_rows (column_vectors d) false 0 in
    Ok (mkData (column_vectors d) (cast u16 row_count) (column_count_ d) (capacity_ d) (initialized d) true).

(** [DataBlock::Init(column_vectors)] *)
Definition Init_vectors d (input_vectors : list ColumnVector) : result DataBlock :=
  match input_vectors with
  | [] => Err UnrecoverableError
  | v :: _ => Finalize (mkData input_vectors (row_count_ d) (zlen input_vectors) (vector_capacity_ v) true (finalized d))
  end.

Definition UnInit d : DataBlock :=
  if initialized d then mkData [] 0 (column_count_ d) (capacity_ d) false false else d.

Fixpoint reset_vectors (vs : list ColumnVector) (capacity : Z) : result (list ColumnVector) :=
  match vs with
  | [] => Ok []
  | v :: vs =>
      let? v := Initialize (Vector_Reset v) (vector_type_ v) capacity in
      let? vs := reset_vectors vs capacity in
      Ok (v :: vs)
  end.

Definition Reset d : result DataBlock :=
  if initialized d then
    let? vs := reset_vectors (column_vectors d) DEFAULT_VECTOR_SIZE in
    Ok (mkData vs 0 (column_count_ d) (capacity_ d) (initialized d) false)
  else Err UnrecoverableError.

Definition row_count d : result Z :=
  if finalized d then Ok (row_count_ d)
  else if row_count_ d =? 0 then Ok 0
  else Err UnrecoverableError.

Fixpoint append_vectors (vs others : list ColumnVector) (from count : Z) : result (list ColumnVector) :=
  match vs, others with
  | v :: vs, other :: others =>
      let? v := Vector_AppendWith v other from count in
      let? vs := append_vectors vs others from count in
      Ok (v :: vs)
  | [], _ => Ok []
  | _, [] => Err OutOfBounds
  end.

(** [DataBlock::AppendWith(other, from, count)] *)
Definition AppendWith d o (from count : Z) : result DataBlock :=
  if negb (column_count_ o =? column_count_ d) then Err UnrecoverableError
  else if capacity_ d <? row_count_ d + count then Err UnrecoverableError
  else
    let? vs := append_vectors (column_vectors d) (column_vectors o) from count in
    Ok (mkData vs (row_count_ d) (column_count_ d) (capacity_ d) (initialized d) (finalized d)).

Definition UnionWith d o : result DataBlock :=
  if negb (row_count_ d =? row_count_ o) then Err UnrecoverableError
  else if negb (capacity_ d =? capacity_ o) then Err UnrecoverableError
  else if negb (initialized d) || negb (initialized o) then Err UnrecoverableError
  else if negb (Bool.eqb (finalized d) (finalized o)) then Err UnrecoverableError
  else Ok (mkData (column_vectors d ++ column_vectors o) (row_count_ d) (column_count_ d + column_count_ o) (capacity_ d) (initialized d) (finalized d)).

(** ** Well-formed blocks *)

(** Flat vectors of the same length. *)
Definition vector_ok (n capacity : Z) v : Prop :=
  vector_type_ v ≠ VectorType.kConstant ∧ Size v = n ∧ vector_capacity_ v = capacity ∧ is_Some (copying_of (data_type_ v)).

Definition columns_ok (n : Z) d : Prop :=
  initialized d = true ∧ column_vectors d ≠ [] ∧ column_count_ d = zlen (column_vectors d) ∧ 0 ≤ n ≤ capacity_ d ∧ capacity_ d < 2 ^ 16 ∧
  Forall (vector_ok n (capacity_ d)) (column_vectors d).

(** What callers expect of a block they receive: the count is that of the columns. *)
Definition counted (n : Z) d : Prop := columns_ok n d ∧ finalized d = true ∧ row_count_ d = n.

Definition block_types d : list DataType := map data_type_ (column_vectors d).

Lemma count_rows_ok vs n capacity seen :
  Forall (vector_ok n capacity) vs → count_rows vs seen n = Ok n.
Proof.
  intros H. revert seen. induction H as [|v vs (Ht & Hn & _) _ IH]; intros seen; [done|]. cbn [count_rows].
  rewrite Hn, Z.eqb_refl, andb_false_r, IH. by destruct (vector_type_ v).
Qed.

Lemma count_rows_start vs n capacity : vs ≠ [] → Forall (vector_ok n capacity) vs → count_rows vs false 0 = Ok n.
Proof.
  intros Hne H. destruct H as [|v vs (Ht & Hn & _) H]; [done|]. cbn [count_rows]. rewrite Hn.
  cbn [andb]. rewrite (count_rows_ok vs n capacity true H). by destruct (vector_type_ v).
Qed.

Lemma Finalize_ok n d : columns_ok n d → finalized d = false →
  Finalize d = Ok (mkData (column_vectors d) n (column_count_ d) (capacity_ d) (initialized d) true).
Proof.
  intros (_ & Hne & _ & Hn & Hc & Hv) Hf. unfold Finalize. rewrite Hf, (count_rows_start _ n (capacity_ d)) by done. cbn [res_bind].
  rewrite cast_id; [done|]. change (2 ^ 16) with 65536 in Hc. solve_range.
Qed.

(** Nothing is counted again. *)
Lemma Finalize_again d : finalized d = true → Finalize d = Ok d.
Proof. unfold Finalize. by intros ->. Qed.

Lemma copied_plain other how from count n capacity :
  vector_ok n capacity other → 0 ≤ from → 0 ≤ count → from + count ≤ n →
  copied_values other how from count = Ok (take (Z.to_nat count) (drop (Z.to_nat from) (values_ other))).
Proof.
  intros (Ht & Hn & _) ? ? ?. unfold copied_values.
  assert (Size other <? from + count = false) as -> by lia. by destruct how, (vector_type_ other).
Qed.

Definition same_types (vs others : list ColumnVector) : Prop :=
  Forall2 (λ v other, DataType_eqb (data_type_ v) (data_type_ other) = true) vs others.

Definition add_values (from count : Z) v other : ColumnVector :=
  mkVector (vector_type_ v) (data_type_ v) (values_ v ++ take (Z.to_nat count) (drop (Z.to_nat from) (values_ other))) (vector_capacity_ v) (vector_initialized v).

Lemma append_vectors_ok vs others n m capacity capacity' from count :
  Forall (vector_ok n capacity) vs → Forall (vector_ok m capacity') others → same_types vs others →
  0 ≤ from → 0 ≤ count → from + count ≤ m → n + count ≤ capacity →
  append_vectors vs others from count = Ok (zip_with (add_values from count) vs others).
Proof.
  intros Hv Ho Hs Hf Hc Hm Hn. induction Hs as [|v other vs others Ht Hs IH]; [done|]. inv Hv. inv Ho. cbn [append_vectors].
  match goal with H : vector_ok n capacity v |- _ => pose proof H as (Hvt & Hsz & Hcap & [how Hhow]) end.
  assert (Vector_AppendWith v other from count = Ok (add_values from count v other)) as ->.
  { unfold Vector_AppendWith, add_values. destruct (Z.eqb_spec count 0) as [->|]; [rewrite app_nil_r; by destruct v|].
    rewrite Ht, Hhow. cbn [negb]. assert (vector_capacity_ v <? Size v + count = false) as -> by lia.
    by rewrite (copied_plain other how from count m capacity'). }
  cbn [res_bind]. by rewrite IH.
Qed.

Lemma add_values_ok n m capacity capacity' from count v other :
  vector_ok n capacity v → vector_ok m capacity' other → 0 ≤ from → 0 ≤ count → from + count ≤ m → vector_ok (n + count) capacity (add_values from count v other).
Proof.
  intros (? & Hn & ? & ?) (_ & Hm & _) ? ? ?. split; [done|]. split; [|done]. unfold Size, add_values, zlen in *. simpl.
  rewrite length_app, length_take, length_drop. lia.
Qed.

(** [AppendWith] adds the rows to every column, and leaves the count as it was. *)
Lemma AppendWith_ok n m d o from count :
  columns_ok n d → columns_ok m o → same_types (column_vectors d) (column_vectors o) →
  0 ≤ from → 0 ≤ count → from + count ≤ m → n + count ≤ capacity_ d → row_count_ d ≤ n →
  let d' := mkData (zip_with (add_values from count) (column_vectors d) (column_vectors o)) (row_count_ d) (column_count_ d) (capacity_ d) (initialized d) (finalized d) in
  AppendWith d o from count = Ok d' ∧ columns_ok (n + count) d'.
Proof.
  intros (Hi & Hne & Hcc & Hn & Hcap & Hv) (_ & _ & Hcc' & Hm & _ & Ho) Hs Hf Hc Hfm Hnc Hr d'.
  pose proof (Forall2_length Hs) as Hlen. split.
  - unfold AppendWith. rewrite Hcc, Hcc'. unfold zlen. rewrite Hlen, Z.eqb_refl. cbn [negb].
    assert (capacity_ d <? row_count_ d + count = false) as -> by lia. rewrite (append_vectors_ok _ _ n m (capacity_ d) (capacity_ o)) by done. cbn [res_bind].
    subst d'. by rewrite Hcc, <- Hlen.
  - unfold columns_ok, d'. simpl. split_and!; try done; try lia.
    + destruct (column_vectors d), (column_vectors o); done.
    + rewrite Hcc. unfold zlen. rewrite length_zip_with. lia.
    + apply Forall_lookup. intros i v Hi'. apply lookup_zip_with_Some in Hi' as (v1 & v2 & -> & H1 & H2).
      rewrite Forall_lookup in Hv, Ho. eapply add_values_ok; eauto.
Qed.

(** ** Fresh blocks *)

Definition storable (dt : DataType) : Prop :=
  is_Some (copying_of dt).

Lemma init_vector_ok dt capacity : storable dt → ∃ v, init_vector dt capacity = Ok v ∧ vector_ok 0 capacity v ∧ data_type_ v = dt ∧ values_ v = [].
Proof.
  intros [how Hh]. unfold init_vector, Initialize, ColumnVector_new, is_type. simpl. unfold storable, copying_of in Hh.
  destruct (type_ dt) as [t|z] eqn:Ht; [|done].
  destruct t; try done; (eexists; split; [reflexivity|]); (split; [|done]); (split; [done|]); (split; [done|]); (split; [done|]); simpl; unfold copying_of; rewrite Ht; eauto.
Qed.

Lemma init_vectors_ok types capacity : Forall storable types →
  ∃ vs, init_vectors types capacity = Ok vs ∧ Forall (vector_ok 0 capacity) vs ∧ map data_type_ vs = types ∧ Forall (λ v, values_ v = []) vs.
Proof.
  induction 1 as [|dt types Hdt _ (vs & IH & Hv & Ht & Hz)]; [by exists []|]. destruct (init_vector_ok dt capacity Hdt) as (v & Hi & Hvok & <- & Hvz).
  exists (v :: vs). cbn [init_vectors]. rewrite Hi, IH. cbn [res_bind]. split; [done|]. split; [by constructor|]. split; [simpl; by f_equal|by constructor].
Qed.

Lemma Init_types_ok types capacity : types ≠ [] → Forall storable types → 0 ≤ capacity < 2 ^ 16 →
  ∃ d, Init_types DataBlock_Make types capacity = Ok d ∧ columns_ok 0 d ∧ block_types d = types ∧ capacity_ d = capacity ∧ finalized d = false ∧ row_count_ d = 0 ∧
    Forall (λ v, values_ v = []) (column_vectors d).
Proof.
  intros Hne Hs Hc. destruct (init_vectors_ok types capacity Hs) as (vs & Hi & Hv & Ht & Hz). unfold Init_types. simpl. rewrite Hi.
  destruct types as [|dt types]; [done|]. cbn [res_bind]. eexists. split; [done|]. unfold columns_ok, block_types. simpl. split_and!; try done; try lia.
  - by destruct vs.
  - rewrite <- Ht. unfold zlen. by rewrite length_map.
Qed.
End Blocks.
Arguments ColumnVector V : clear implicits.
Arguments DataBlock V : clear implicits.
