(* ===== verification/TxnManager.v ===== *)
(** * Transactions

    [src/src/storage/txn/txn_manager.cpp], [txn.cpp], [txn_context.cppm]: transactions get their
    timestamps from one clock, check for conflicts with those that finished or are finishing, hand
    their log entry to the log in the order of their commit timestamps, wait for the flush thread of
    [WalManager] to write it and to install their changes, and are forgotten when nobody that began
    before their end is left.

    [TxnManager]'s methods run under its lock and are functions on its record.  [Txn::Commit],
    [Txn::Rollback] and [WalManager::Flush] run in several threads; [exec] cuts them where they touch
    what threads share, so that a list of events is an interleaving.  A transaction is its id: a
    pointer to it is good as long as [txn_map_] owns it, and following it afterwards is an error.  What
    a transaction has collected and the catalog it changes are behind the interface [TxnStoreOps]. *)

From Stdlib Require Import ZArith Lia List Sorted.
From stdpp Require Import base list numbers gmap sets.
From S2P Require Import Prelude Bytes WalEntry CatalogDelta.
Local Open Scope Z_scope.

Module TxnState.
Inductive t := kNotStarted | kStarted | kCommitting | kCommitted | kRollbacking | kRollbacked | kInvalid.
End TxnState.
Notation TxnState := TxnState.t.

#[export] Instance TxnState_eq_dec : EqDecision TxnState.
Proof. solve_decision. Defined.

Module TxnType.
Inductive t := kRead | kWrite | kInvalid.
End TxnType.
Notation TxnType := TxnType.t.

#[export] Instance TxnType_eq_dec : EqDecision TxnType.
Proof. solve_decision. Defined.

(** ** The context of a transaction *)

Module Ctx.
Record TxnContext := mk {
  begin_ts_ : Z;
  commit_ts_ : Z;
  committed_ts_ : Z;
  state_ : TxnState;
  type_ : TxnType;
}.
End Ctx.
Notation TxnContext := Ctx.TxnContext.

Section Context_.
Import TxnState.
Implicit Type c : TxnContext.

Definition TxnContext_new (begin_ts : Z) : TxnContext := Ctx.mk begin_ts 0 0 kStarted TxnType.kInvalid.

Definition SetTxnRollbacking (c : TxnContext) (rollback_ts : Z) : result TxnContext :=
  match Ctx.state_ c with
  | kCommitting | kStarted => Ok (Ctx.mk (Ctx.begin_ts_ c) rollback_ts (Ctx.committed_ts_ c) kRollbacking (Ctx.type_ c))
  | _ => Err UnrecoverableError
  end.

Definition SetTxnRollbacked (c : TxnContext) : TxnContext :=
  Ctx.mk (Ctx.begin_ts_ c) (Ctx.commit_ts_ c) (Ctx.committed_ts_ c) kRollbacked (Ctx.type_ c).

Definition SetTxnCommitted (c : TxnContext) (committed_ts : Z) : result TxnContext :=
  match Ctx.state_ c with
  | kCommitting => Ok (Ctx.mk (Ctx.begin_ts_ c) (Ctx.commit_ts_ c) committed_ts kCommitted (Ctx.type_ c))
  | _ => Err UnrecoverableError
  end.

Definition SetTxnCommitting (c : TxnContext) (commit_ts : Z) : result TxnContext :=
  match Ctx.state_ c with
  | kStarted => Ok (Ctx.mk (Ctx.begin_ts_ c) commit_ts (Ctx.committed_ts_ c) kCommitting (Ctx.type_ c))
  | _ => Err UnrecoverableError
  end.

Definition SetTxnType (c : TxnContext) (type : TxnType) : TxnContext :=
  Ctx.mk (Ctx.begin_ts_ c) (Ctx.commit_ts_ c) (Ctx.committed_ts_ c) (Ctx.state_ c) type.
End Context_.

(** ** What a transaction collects: [TxnStore] and the catalog it changes

    The operations that change the catalog may raise an error of their own. *)

Class TxnStoreOps := {
  TxnStore : Type;
  Catalog : Type;
  TxnStore_new : TxnStore;
  ReadOnly : TxnStore → bool;
  store_CheckConflict : TxnStore → TxnStore → bool;
  store_PrepareCommit1 : Z → TxnStore → Catalog → result (TxnStore * Catalog);
  store_PrepareCommit : Z → Z → TxnStore → Catalog → result (TxnStore * Catalog);
  store_CommitBottom : Z → Z → TxnStore → Catalog → result (TxnStore * Catalog);
  store_AddDeltaOp : Z → TxnStore → Catalog → result (list CatalogDeltaOperation * Catalog);
  store_MaintainCompactionAlg : TxnStore → Catalog → result (TxnStore * Catalog);
  store_Rollback : Z → Z → TxnStore → Catalog → result (TxnStore * Catalog);
}.

(** Committing does not change what others are checked against.  It may change what the transaction
    itself would be checked for: inserting into a memory index opens a store for the index. *)
Definition same_target `{!TxnStoreOps} (s s' : TxnStore) : Prop := ∀ other, store_CheckConflict other s' = store_CheckConflict other s.

Class TxnStoreLaws `{!TxnStoreOps} := {
  PrepareCommit1_target : ∀ ts s c s' c', store_PrepareCommit1 ts s c = Ok (s', c') → same_target s s';
  PrepareCommit_target : ∀ id ts s c s' c', store_PrepareCommit id ts s c = Ok (s', c') → same_target s s';
  CommitBottom_target : ∀ id ts s c s' c', store_CommitBottom id ts s c = Ok (s', c') → same_target s s';
  MaintainCompactionAlg_target : ∀ s c s' c', store_MaintainCompactionAlg s c = Ok (s', c') → same_target s s';
}.

Section Txns.
Context {B : Type} `{Ops : !TxnStoreOps}.
Import TxnState.

Notation WalEntry := (WalEntry B).

Record Txn := mkTxn {
  txn_context_ : TxnContext;
  txn_store_ : TxnStore;
  wal_entry_ : option WalEntry;                      (* a null pointer after a conflict *)
  local_catalog_delta_ops_entry_ : option CatalogDeltaEntry;  (* moved away after the commit *)
  done_bottom_ : bool;
}.

Definition BeginTS (t : Txn) : Z := Ctx.begin_ts_ (txn_context_ t).
Definition CommitTS (t : Txn) : Z := Ctx.commit_ts_ (txn_context_ t).
Definition CommittedTS (t : Txn) : Z := Ctx.committed_ts_ (txn_context_ t).
Definition Txn_State (t : Txn) : TxnState := Ctx.state_ (txn_context_ t).
Definition GetTxnType (t : Txn) : TxnType := Ctx.type_ (txn_context_ t).

Definition with_context (t : Txn) (c : TxnContext) : Txn :=
  mkTxn c (txn_store_ t) (wal_entry_ t) (local_catalog_delta_ops_entry_ t) (done_bottom_ t).
Definition with_store (t : Txn) (s : TxnStore) : Txn :=
  mkTxn (txn_context_ t) s (wal_entry_ t) (local_catalog_delta_ops_entry_ t) (done_bottom_ t).
Definition with_wal (t : Txn) (w : option WalEntry) : Txn :=
  mkTxn (txn_context_ t) (txn_store_ t) w (local_catalog_delta_ops_entry_ t) (done_bottom_ t).
Definition with_delta (t : Txn) (d : option CatalogDeltaEntry) : Txn :=
  mkTxn (txn_context_ t) (txn_store_ t) (wal_entry_ t) d (done_bottom_ t).
Definition with_done (t : Txn) : Txn :=
  mkTxn (txn_context_ t) (txn_store_ t) (wal_entry_ t) (local_catalog_delta_ops_entry_ t) true.

Definition WalEntry_new : WalEntry := mkWalEntry 0 0 0 0 [].

Definition Txn_new (begin_ts : Z) : Txn :=
  mkTxn (TxnContext_new begin_ts) TxnStore_new (Some WalEntry_new) (Some new_CatalogDeltaEntry) false.

(** [Txn::SetTxnCommitting]: the context, and the timestamp of the log entry. *)
Definition Txn_SetTxnCommitting (t : Txn) (commit_ts : Z) : result Txn :=
  let? c := SetTxnCommitting (txn_context_ t) commit_ts in
  match wal_entry_ t with
  | None => Err OutOfBounds
  | Some e => Ok (with_wal (with_context t c) (Some (mkWalEntry (size_ e) (checksum_ e) (WalEntry.txn_id_ e) commit_ts (cmds_ e))))
  end.

Definition Txn_SetTxnCommitted (t : Txn) (committed_ts : Z) : result Txn :=
  let? c := SetTxnCommitted (txn_context_ t) committed_ts in Ok (with_context t c).

Definition Txn_CheckConflict (t txn : Txn) : bool := store_CheckConflict (txn_store_ t) (txn_store_ txn).

Definition CancelCommitBottom (t : Txn) : Txn := with_done (with_context t (SetTxnRollbacked (txn_context_ t))).

(** ** The manager *)

(** [wait_flush_] and [wal_running_] are the queue and the flag of [WalManager]; entries of the log are
    pointers into their transactions. *)
Record TxnManager := mkManager {
  next_txn_id_ : Z;                               (* of the catalog *)
  txn_map_ : gmap Z Txn;
  beginned_txns_ : list Z;
  finishing_txns_ : gset Z;
  finished_txns_ : list (Z * Z);
  wait_conflict_ck_ : list (Z * option Z);        (* by commit timestamp *)
  start_ts_ : Z;
  is_running_ : bool;
  enable_compaction_ : bool;
  next_sequence_ : Z;
  wait_flush_ : list Z;
  wal_running_ : bool;
}.

Implicit Type m : TxnManager.

Definition with_txns m (txns : gmap Z Txn) : TxnManager :=
  mkManager (next_txn_id_ m) txns (beginned_txns_ m) (finishing_txns_ m) (finished_txns_ m) (wait_conflict_ck_ m) (start_ts_ m) (is_running_ m)
    (enable_compaction_ m) (next_sequence_ m) (wait_flush_ m) (wal_running_ m).
Definition with_ts m (ts : Z) : TxnManager :=
  mkManager (next_txn_id_ m) (txn_map_ m) (beginned_txns_ m) (finishing_txns_ m) (finished_txns_ m) (wait_conflict_ck_ m) ts (is_running_ m)
    (enable_compaction_ m) (next_sequence_ m) (wait_flush_ m) (wal_running_ m).
Definition with_begun m (next : Z) (begun : list Z) : TxnManager :=
  mkManager next (txn_map_ m) begun (finishing_txns_ m) (finished_txns_ m) (wait_conflict_ck_ m) (start_ts_ m) (is_running_ m)
    (enable_compaction_ m) (next_sequence_ m) (wait_flush_ m) (wal_running_ m).
Definition with_finish m (finishing : gset Z) (finished : list (Z * Z)) : TxnManager :=
  mkManager (next_txn_id_ m) (txn_map_ m) (beginned_txns_ m) finishing finished (wait_conflict_ck_ m) (start_ts_ m) (is_running_ m)
    (enable_compaction_ m) (next_sequence_ m) (wait_flush_ m) (wal_running_ m).
Definition with_log m (ck : list (Z * option Z)) (flush : list Z) : TxnManager :=
  mkManager (next_txn_id_ m) (txn_map_ m) (beginned_txns_ m) (finishing_txns_ m) (finished_txns_ m) ck (start_ts_ m) (is_running_ m)
    (enable_compaction_ m) (next_sequence_ m) flush (wal_running_ m).
Definition with_running m (running : bool) (seq : Z) : TxnManager :=
  mkManager (next_txn_id_ m) (txn_map_ m) (beginned_txns_ m) (finishing_txns_ m) (finished_txns_ m) (wait_conflict_ck_ m) (start_ts_ m) running
    (enable_compaction_ m) seq (wait_flush_ m) (wal_running_ m).

Definition put m (id : Z) (t : Txn) : TxnManager := with_txns m (<[id := t]> (txn_map_ m)).

Definition TxnManager_new (start_txn_id start_ts : Z) (enable_compaction : bool) : TxnManager :=
  mkManager start_txn_id ∅ [] ∅ [] [] start_ts false enable_compaction 0 [] true.

Definition Start m : TxnManager := with_running m true (next_sequence_ m).

(** [++start_ts_]. *)
Definition tick m : Z * TxnManager := let ts := cast u64 (start_ts_ m + 1) in (ts, with_ts m ts).

(** Following a pointer to a transaction. *)
Definition deref m (id : Z) : result Txn := match txn_map_ m !! id with Some t => Ok t | None => Err OutOfBounds end.

Definition BeginTxn m : result (Z * TxnManager) :=
  if negb (is_running_ m) then Err UnrecoverableError
  else
    let new_txn_id := cast u64 (next_txn_id_ m + 1) in
    let '(ts, m) := tick m in
    let m := put m new_txn_id (Txn_new ts) in
    Ok (new_txn_id, with_begun m new_txn_id (beginned_txns_ m ++ [new_txn_id])).

Definition GetTxn m (txn_id : Z) : result Txn := match txn_map_ m !! txn_id with Some t => Ok t | None => Err StdException end.

Definition GetTxnState m (txn_id : Z) : TxnState :=
  match txn_map_ m !! txn_id with None => kCommitted | Some t => Txn_State t end.

Definition CheckIfCommitting m (txn_id begin_ts : Z) : bool :=
  match txn_map_ m !! txn_id with
  | None => true
  | Some t =>
      match Txn_State t with
      | kCommitting | kCommitted => CommitTS t <? begin_ts
      | _ => false
      end
  end.

Definition GetCommitTimeStampR m (id : Z) : result (Z * TxnManager) :=
  let '(commit_ts, m) := tick m in
  let? t := deref m id in
  Ok (commit_ts, put m id (with_context t (SetTxnType (txn_context_ t) TxnType.kRead))).

(** [wait_conflict_ck_.emplace], [at] and [erase]. *)
Fixpoint ck_emplace (ts : Z) (w : option Z) (ck : list (Z * option Z)) : list (Z * option Z) :=
  match ck with
  | [] => [(ts, w)]
  | (k, v) :: ck' => if ts <? k then (ts, w) :: ck else if k <? ts then (k, v) :: ck_emplace ts w ck' else ck
  end.

Fixpoint ck_assign (ts : Z) (w : option Z) (ck : list (Z * option Z)) : result (list (Z * option Z)) :=
  match ck with
  | [] => Err StdException
  | (k, v) :: ck' => if k =? ts then Ok ((k, w) :: ck') else let? ck' := ck_assign ts w ck' in Ok ((k, v) :: ck')
  end.

Definition ck_erase (ts : Z) (ck : list (Z * option Z)) : list (Z * option Z) := filter (fun e => e.1 ≠ ts) ck.

Definition GetCommitTimeStampW m (id : Z) : result (Z * TxnManager) :=
  let '(commit_ts, m) := tick m in
  let m := with_log m (ck_emplace commit_ts None (wait_conflict_ck_ m)) (wait_flush_ m) in
  let m := with_finish m ({[id]} ∪ finishing_txns_ m) (finished_txns_ m) in
  let? t := deref m id in
  Ok (commit_ts, put m id (with_context t (SetTxnType (txn_context_ t) TxnType.kWrite))).

(** The candidates [CheckConflict] collects under the lock. *)
Definition is_candidate (begin_ts commit_ts : Z) (finishing_txn : Txn) : bool :=
  match Txn_State finishing_txn with
  | kCommitted => begin_ts <? CommittedTS finishing_txn
  | kCommitting => CommitTS finishing_txn <? commit_ts
  | _ => false
  end.

Definition candidate_txns m (txn : Txn) : result (list Z) :=
  res_fold (fun candidates id =>
      let? finishing_txn := deref m id in
      Ok (if is_candidate (BeginTS txn) (CommitTS txn) finishing_txn then candidates ++ [id] else candidates))
    [] (elements (finishing_txns_ m)).

(** The [do]-[while] of [SendToWAL]: the entries at the front whose transactions have been checked. *)
Fixpoint ready (ck : list (Z * option Z)) : list Z * list (Z * option Z) :=
  match ck with
  | (_, Some w) :: ck' => let '(wal_entries, rest) := ready ck' in (w :: wal_entries, rest)
  | _ => ([], ck)
  end.

Definition PutEntries m (wal_entries : list Z) : TxnManager :=
  if wal_running_ m then with_log m (wait_conflict_ck_ m) (wait_flush_ m ++ wal_entries) else m.

Definition SendToWAL m (id : Z) : result TxnManager :=
  if negb (is_running_ m) then Err UnrecoverableError
  else
    let? t := deref m id in
    let commit_ts := CommitTS t in
    match wait_conflict_ck_ m with
    | [] => Err UnrecoverableError
    | (first, _) :: _ =>
        if commit_ts <? first then Err UnrecoverableError
        else
          let? ck :=
            match wal_entry_ t with
            | Some _ => ck_assign commit_ts (Some id) (wait_conflict_ck_ m)
            | None => Ok (ck_erase commit_ts (wait_conflict_ck_ m))
            end in
          let '(wal_entries, ck) := ready ck in
          let m := with_log m ck (wait_flush_ m) in
          Ok (match wal_entries with [] => m | _ => PutEntries m wal_entries end)
    end.

(** [GetCleanupScanTS]: transactions whose pointer has expired leave the front of [beginned_txns_]. *)
Fixpoint first_alive (txns : gmap Z Txn) (default_ts : Z) (begun : list Z) : Z * list Z :=
  match begun with
  | [] => (default_ts, [])
  | id :: begun' => match txns !! id with Some t => (BeginTS t, begun) | None => first_alive txns default_ts begun' end
  end.

Definition GetCleanupScanTS m (checkpointed_ts : Z) : Z * TxnManager :=
  let '(ts, begun) := first_alive (txn_map_ m) (start_ts_ m) (beginned_txns_ m) in
  (Z.min ts checkpointed_ts, with_begun m (next_txn_id_ m) begun).

(** The loops of [FinishTxn]: the oldest transaction that has not finished, and the finished ones that
    ended before it began. *)
Fixpoint first_unfinished (txns : gmap Z Txn) (default_ts : Z) (begun : list Z) : Z * list Z :=
  match begun with
  | [] => (default_ts, [])
  | id :: begun' =>
      match txns !! id with
      | None => first_unfinished txns default_ts begun'
      | Some t =>
          match Txn_State t with
          | kCommitted | kRollbacked => first_unfinished txns default_ts begun'
          | _ => (BeginTS t, begun)
          end
      end
  end.

Fixpoint forget_finished m (least_uncommitted_begin_ts : Z) (finished : list (Z * Z)) : result TxnManager :=
  match finished with
  | [] => Ok (with_finish m (finishing_txns_ m) [])
  | (finished_ts, id) :: finished' =>
      let? t := deref m id in
      match Txn_State t with
      | kCommitted | kRollbacked =>
          if least_uncommitted_begin_ts <? finished_ts then Ok (with_finish m (finishing_txns_ m) finished)
          else
            let m := with_finish m (finishing_txns_ m ∖ {[id]}) (finished_txns_ m) in
            match txn_map_ m !! id with
            | None => Err UnrecoverableError
            | Some _ => forget_finished (with_txns m (delete id (txn_map_ m))) least_uncommitted_begin_ts finished'
            end
      | _ => Ok (with_finish m (finishing_txns_ m) finished)
      end
  end.

Definition FinishTxn m (id : Z) : result TxnManager :=
  let? t := deref m id in
  match GetTxnType t with
  | TxnType.kInvalid => Err UnrecoverableError
  | TxnType.kRead => Ok (with_txns m (delete id (txn_map_ m)))
  | TxnType.kWrite =>
      let '(finished_ts, m) := tick m in
      let m := with_finish m (finishing_txns_ m) (finished_txns_ m ++ [(finished_ts, id)]) in
      let? t :=
        match Txn_State t with
        | kCommitting => Txn_SetTxnCommitted t finished_ts
        | kRollbacking => Ok (with_context t (SetTxnRollbacked (txn_context_ t)))
        | _ => Ok t
        end in
      let m := put m id t in
      let '(least_uncommitted_begin_ts, begun) :=
        first_unfinished (txn_map_ m) (cast u64 (CommitTS t + 1)) (beginned_txns_ m) in
      forget_finished (with_begun m (next_txn_id_ m) begun) least_uncommitted_begin_ts (finished_txns_ m)
  end.

(** Every transaction is cancelled and destroyed. *)
Definition Stop m : TxnManager :=
  if is_running_ m then
    let m := with_running m false (next_sequence_ m) in
    let m := with_txns m (CancelCommitBottom <$> txn_map_ m) in
    with_txns m ∅
  else m.

(** [TxnManager::AddDeltaEntry]: the task that is submitted. *)
Definition AddDeltaEntry m (delta_entry : CatalogDeltaEntry) : result CatalogDeltaEntry :=
  if negb (is_running_ m) then Err UnrecoverableError else Ok delta_entry.

(** ** The parts of a commit *)

Implicit Type cat : Catalog.

(** [Txn::CommitBottom], run by the flush thread. *)
Definition CommitBottom m cat (id : Z) : result (TxnManager * Catalog) :=
  let? t := GetTxn m id in
  let commit_ts := CommitTS t in
  let? '(store, cat) := store_PrepareCommit id commit_ts (txn_store_ t) cat in
  let? '(store, cat) := store_CommitBottom id commit_ts store cat in
  match local_catalog_delta_ops_entry_ t with
  | None => Err OutOfBounds
  | Some local =>
      let? '(operations, cat) := store_AddDeltaOp commit_ts store cat in
      let local := fold_left AddOperation operations local in
      let? '(local, m) :=
        match operations_ local with
        | [] => Ok (local, m)
        | _ =>
            let sequence := cast u64 (next_sequence_ m + 1) in
            let? local := SaveState local id commit_ts sequence in
            Ok (local, with_running m (is_running_ m) sequence)
        end in
      Ok (put m id (with_done (with_delta (with_store t store) (Some local))), cat)
  end.

(** [Txn::Rollback] once it has its timestamp. *)
Definition Rollback m cat (id abort_ts : Z) : result (TxnManager * Catalog) :=
  let? t := deref m id in
  let? c := SetTxnRollbacking (txn_context_ t) abort_ts in
  let? '(store, cat) := store_Rollback id abort_ts (txn_store_ t) cat in
  Ok (put m id (with_store (with_context t c) store), cat).

(** What [Txn::Commit] does after the flush thread has woken it. *)
Definition after_bottom m cat (id : Z) (submitted : list CatalogDeltaEntry) : result (TxnManager * Catalog * list CatalogDeltaEntry) :=
  let? t := deref m id in
  let? '(store, cat) :=
    if enable_compaction_ m then store_MaintainCompactionAlg (txn_store_ t) cat else Ok (txn_store_ t, cat) in
  let t := with_store t store in
  match local_catalog_delta_ops_entry_ t with
  | None => Err OutOfBounds
  | Some local =>
      match operations_ local with
      | [] => Ok (put m id t, cat, submitted)
      | _ =>
          let? task := AddDeltaEntry m local in
          Ok (put m id (with_delta t None), cat, submitted ++ [task])
      end
  end.

(** ** Threads *)

(** Where the client of a transaction is in [TxnManager::CommitTxn] or [RollBackTxn]. *)
Inductive stage :=
| Running                  (* has not called either *)
| StampedR (ts : Z)        (* [Commit] of a reader, with its timestamp *)
| CommittedR               (* ..., about to call [FinishTxn] *)
| StampedW (ts : Z)        (* [Commit] of a writer, with its timestamp *)
| Committing               (* ..., in state [kCommitting] *)
| Prepared                 (* ..., after [PrepareCommit1] *)
| Checking (candidate_txns : list Z)
| Sending                  (* about to call [SendToWAL] *)
| Failed                   (* [Commit] has raised for a conflict *)
| Waiting                  (* for the flush thread *)
| Finishing                (* about to call [FinishTxn] *)
| StampedAbort (ts : Z)    (* [Rollback] of a running transaction, with its timestamp *)
| RolledBack               (* about to call [FinishTxn] *)
| Done.

(** [written_] is what the flush thread has put into the log file, [log_batch_] the entries of its batch
    whose transactions it has not installed yet; [submitted_] are the tasks given to the background
    processor.  The last three fields keep what has happened, and no code reads them: the transactions
    that have finished, the stores as they were when the candidates for a conflict were collected, and
    the transactions as [CommitBottom] left them, in the order of its calls. *)
Record System := mkSystem {
  mgr : TxnManager;
  catalog_ : Catalog;
  stages : gmap Z stage;
  log_batch_ : list Z;
  written_ : list WalEntry;
  submitted_ : list CatalogDeltaEntry;
  history_ : gmap Z Txn;
  checked_ : gmap Z TxnStore;
  installed_ : list (Z * Txn);
}.

Implicit Type s : System.

Definition with_mgr s (m : TxnManager) : System :=
  mkSystem m (catalog_ s) (stages s) (log_batch_ s) (written_ s) (submitted_ s) (history_ s) (checked_ s) (installed_ s).
Definition with_cat s (cat : Catalog) : System :=
  mkSystem (mgr s) cat (stages s) (log_batch_ s) (written_ s) (submitted_ s) (history_ s) (checked_ s) (installed_ s).
Definition goto s (id : Z) (g : stage) : System :=
  mkSystem (mgr s) (catalog_ s) (<[id := g]> (stages s)) (log_batch_ s) (written_ s) (submitted_ s) (history_ s) (checked_ s) (installed_ s).
Definition with_batch s (batch : list Z) (written : list WalEntry) : System :=
  mkSystem (mgr s) (catalog_ s) (stages s) batch written (submitted_ s) (history_ s) (checked_ s) (installed_ s).
Definition with_submitted s (submitted : list CatalogDeltaEntry) : System :=
  mkSystem (mgr s) (catalog_ s) (stages s) (log_batch_ s) (written_ s) submitted (history_ s) (checked_ s) (installed_ s).
Definition remember s (id : Z) (t : Txn) : System :=
  mkSystem (mgr s) (catalog_ s) (stages s) (log_batch_ s) (written_ s) (submitted_ s) (<[id := t]> (history_ s)) (checked_ s) (installed_ s).
Definition note_checked s (id : Z) (t : Txn) : System :=
  mkSystem (mgr s) (catalog_ s) (stages s) (log_batch_ s) (written_ s) (submitted_ s) (history_ s) (<[id := txn_store_ t]> (checked_ s)) (installed_ s).
Definition note_installed s (id : Z) : System :=
  mkSystem (mgr s) (catalog_ s) (stages s) (log_batch_ s) (written_ s) (submitted_ s) (history_ s) (checked_ s)
    (installed_ s ++ match txn_map_ (mgr s) !! id with Some t => [(id, t)] | None => [] end).

(** How [FinishTxn] leaves the transaction. *)
Definition finished m (t : Txn) : Txn :=
  match GetTxnType t, Txn_State t with
  | TxnType.kWrite, kCommitting =>
      with_context t (Ctx.mk (BeginTS t) (CommitTS t) (cast u64 (start_ts_ m + 1)) kCommitted TxnType.kWrite)
  | TxnType.kWrite, kRollbacking => with_context t (SetTxnRollbacked (txn_context_ t))
  | _, _ => t
  end.

Definition finish s (id : Z) : result System :=
  let? t := deref (mgr s) id in
  let? m := FinishTxn (mgr s) id in
  Ok (remember (goto (with_mgr s m) id Done) id (finished (mgr s) t)).

Definition update s (id : Z) (g : stage) (t : Txn) : System := goto (with_mgr s (put (mgr s) id t)) id g.

(** The next step of the client of transaction [id]; [None] when it is blocked. *)
Definition thread s (id : Z) : option (result System) :=
  match stages s !! id with
  | None | Some Running | Some Done => None
  | Some (StampedR ts) => Some (
      let? t := deref (mgr s) id in
      let? t := Txn_SetTxnCommitting t ts in
      let? t := Txn_SetTxnCommitted t ts in
      Ok (update s id CommittedR t))
  | Some (StampedW ts) => Some (
      let? t := deref (mgr s) id in
      let? t := Txn_SetTxnCommitting t ts in
      Ok (update s id Committing t))
  | Some Committing => Some (
      let? t := deref (mgr s) id in
      let? '(store, cat) := store_PrepareCommit1 (CommitTS t) (txn_store_ t) (catalog_ s) in
      Ok (with_cat (update s id Prepared (with_store t store)) cat))
  | Some Prepared => Some (
      let? t := deref (mgr s) id in
      let? candidates := candidate_txns (mgr s) t in
      Ok (goto (note_checked s id t) id (Checking candidates)))
  | Some (Checking (candidate :: candidates)) => Some (
      let? t := deref (mgr s) id in
      let? candidate_txn := deref (mgr s) candidate in
      if Txn_CheckConflict t candidate_txn then Ok (update s id Sending (with_wal t None))
      else Ok (goto s id (Checking candidates)))
  | Some (Checking []) => Some (
      let? t := deref (mgr s) id in
      match wal_entry_ t with
      | None => Err OutOfBounds
      | Some e => Ok (update s id Sending (with_wal t (Some (mkWalEntry (size_ e) (checksum_ e) id (WalEntry.commit_ts_ e) (cmds_ e)))))
      end)
  | Some Sending => Some (
      let? t := deref (mgr s) id in
      let? m := SendToWAL (mgr s) id in
      Ok (goto (with_mgr s m) id (match wal_entry_ t with Some _ => Waiting | None => Failed end)))
  | Some Failed => Some (
      let? t := deref (mgr s) id in
      match Txn_State t with
      | kCommitting =>
          let? '(m, cat) := Rollback (mgr s) (catalog_ s) id (CommitTS t) in
          Ok (with_cat (goto (with_mgr s m) id RolledBack) cat)
      | _ => Err UnrecoverableError
      end)
  | Some Waiting =>
      match deref (mgr s) id with
      | Err e => Some (Err e)
      | Ok t =>
          if done_bottom_ t then Some (
            let? '(m, cat, submitted) := after_bottom (mgr s) (catalog_ s) id (submitted_ s) in
            Ok (with_submitted (with_cat (goto (with_mgr s m) id Finishing) cat) submitted))
          else None
      end
  | Some (StampedAbort ts) => Some (
      let? '(m, cat) := Rollback (mgr s) (catalog_ s) id ts in
      Ok (with_cat (goto (with_mgr s m) id RolledBack) cat))
  | Some (CommittedR | Finishing | RolledBack) => Some (finish s id)
  end.

(** What the flush thread writes for an entry: nothing when it has no commands. *)
Definition flush_entry m (written : list WalEntry) (id : Z) : result (list WalEntry) :=
  let? t := deref m id in
  match wal_entry_ t with
  | None => Err OutOfBounds
  | Some e => Ok (match cmds_ e with [] => written | _ => written ++ [e] end)
  end.

Inductive event :=
| Begin
| Write (id : Z) (cmds : list (WalCmd B)) (store : TxnStore) (cat : Catalog)   (* a statement of the client *)
| Commit (id : Z)
| Abort (id : Z)
| Thread (id : Z)
| Flush                    (* the flush thread takes the queue and writes it *)
| Bottom                   (* the flush thread installs the next transaction of its batch *)
| Scan (checkpointed_ts : Z).  (* the cleanup thread asks for its timestamp *)

Definition exec s (e : event) : option (result System) :=
  match e with
  | Begin => Some (
      let? '(id, m) := BeginTxn (mgr s) in
      Ok (goto (with_mgr s m) id Running))
  | Write id cmds store cat =>
      match stages s !! id with
      | Some Running => Some (
          let? t := deref (mgr s) id in
          match wal_entry_ t with
          | None => Err OutOfBounds
          | Some e =>
              let e := mkWalEntry (size_ e) (checksum_ e) (WalEntry.txn_id_ e) (WalEntry.commit_ts_ e) (cmds_ e ++ cmds) in
              Ok (with_cat (update s id Running (with_wal (with_store t store) (Some e))) cat)
          end)
      | _ => None
      end
  | Commit id =>
      match stages s !! id with
      | Some Running => Some (
          let? t := deref (mgr s) id in
          match wal_entry_ t with
          | None => Err OutOfBounds
          | Some e =>
              if bool_decide (cmds_ e = []) && ReadOnly (txn_store_ t) then
                let? '(ts, m) := GetCommitTimeStampR (mgr s) id in Ok (goto (with_mgr s m) id (StampedR ts))
              else
                let? '(ts, m) := GetCommitTimeStampW (mgr s) id in Ok (goto (with_mgr s m) id (StampedW ts))
          end)
      | _ => None
      end
  | Abort id =>
      match stages s !! id with
      | Some Running => Some (
          let? t := deref (mgr s) id in
          match Txn_State t with
          | kStarted => let? '(ts, m) := GetCommitTimeStampR (mgr s) id in Ok (goto (with_mgr s m) id (StampedAbort ts))
          | _ => Err UnrecoverableError
          end)
      | _ => None
      end
  | Thread id => thread s id
  | Flush =>
      match log_batch_ s, wait_flush_ (mgr s) with
      | [], _ :: _ => Some (
          let? written := res_fold (flush_entry (mgr s)) (written_ s) (wait_flush_ (mgr s)) in
          let batch := wait_flush_ (mgr s) in
          Ok (with_batch (with_mgr s (with_log (mgr s) (wait_conflict_ck_ (mgr s)) [])) batch written))
      | _, _ => None
      end
  | Bottom =>
      match log_batch_ s with
      | [] => None
      | id :: batch => Some (
          let? '(m, cat) := CommitBottom (mgr s) (catalog_ s) id in
          Ok (note_installed (with_batch (with_cat (with_mgr s m) cat) batch (written_ s)) id))
      end
  | Scan checkpointed_ts => Some (Ok (with_mgr s (GetCleanupScanTS (mgr s) checkpointed_ts).2))
  end.
End Txns.
Arguments Txn B {_}.
Arguments TxnManager B {_}.
Arguments System B {_}.
Arguments event B {_}.

#[export] Instance stage_eq_dec : EqDecision stage.
Proof. solve_decision. Defined.
