(* ===== verification/TxnInv.v ===== *)
(** * Reachable states of the transaction manager

    Invariants of every interleaving of [TxnManager.exec]: which transactions the manager owns and in
    which state ([core]), and where their log entries are ([logs]).  They show that no thread follows a
    pointer to a transaction that has been destroyed, that no assertion of the manager fails, and that
    the log is written in the order of commit timestamps, before a commit returns. *)

From Stdlib Require Import ZArith Lia List Sorted.
From stdpp Require Import base list numbers gmap sets sorting.
From S2P Require Import Prelude Bytes WalEntry CatalogDelta TxnManager.
Local Open Scope Z_scope.

Ltac sys :=
  cbn [update goto with_mgr with_cat with_batch with_submitted remember note_checked note_installed with_txns with_ts with_begun with_finish with_log with_running put
       mgr catalog_ stages log_batch_ written_ submitted_ history_ checked_ installed_
       next_txn_id_ txn_map_ beginned_txns_ finishing_txns_ finished_txns_ wait_conflict_ck_ start_ts_ is_running_ enable_compaction_
       next_sequence_ wait_flush_ wal_running_ fst snd] in *.

Ltac txn :=
  unfold Txn_State, CommitTS, BeginTS, CommittedTS, GetTxnType in *;
  cbn [with_context with_store with_wal with_delta with_done txn_context_ txn_store_ wal_entry_ local_catalog_delta_ops_entry_ done_bottom_
       Ctx.begin_ts_ Ctx.commit_ts_ Ctx.committed_ts_ Ctx.state_ Ctx.type_ SetTxnType SetTxnRollbacked TxnContext_new Txn_new] in *.

Definition max_clock : Z := 2 ^ 64 - 2.

Lemma StronglySorted_weaken {A} (R R' : A → A → Prop) l :
  StronglySorted R l → (∀ a b, a ∈ l → b ∈ l → R a b → R' a b) → StronglySorted R' l.
Proof.
  induction 1 as [|a l Hs IH Hall]; intros H; constructor.
  - apply IH. intros; apply H; [by right..|done].
  - rewrite Forall_forall in *. intros b Hb. apply H; [by left|by right|by apply Hall].
Qed.

Lemma key_unique {V} (l : list (Z * V)) k v w :
  StronglySorted (λ a b, a.1 < b.1) l → (k, v) ∈ l → (k, w) ∈ l → v = w.
Proof.
  induction 1 as [|[k' v'] l Hs IH Hall]; intros Hv Hw; [by apply not_elem_of_nil in Hv|]. rewrite Forall_forall in Hall.
  apply elem_of_cons in Hv as [?|Hv]; apply elem_of_cons in Hw as [?|Hw]; simplify_eq; [done|..|by apply IH].
  - apply Hall in Hw. simpl in Hw. lia.
  - apply Hall in Hv. simpl in Hv. lia.
Qed.

Section Inv.
Context {B : Type} `{Ops : !TxnStoreOps}.
Import TxnState.

Notation Txn := (Txn B).
Notation System := (System B).
Implicit Types (s : System) (t : Txn) (T : gmap Z Txn) (G : gmap Z stage) (hist : gmap Z Txn).

(** The clocks have not run out. *)
Definition fresh s : Prop :=
  start_ts_ (mgr s) < max_clock ∧ next_txn_id_ (mgr s) < max_clock ∧ next_sequence_ (mgr s) < max_clock.

Definition initial (start_txn_id start_ts : Z) (enable_compaction : bool) (cat : Catalog) : System :=
  mkSystem (Start (TxnManager_new start_txn_id start_ts enable_compaction)) cat ∅ [] [] [] ∅ ∅ [].

Inductive reach : System → Prop :=
| reach_initial start_txn_id start_ts enable_compaction cat :
    0 ≤ start_txn_id → 0 ≤ start_ts → reach (initial start_txn_id start_ts enable_compaction cat)
| reach_step s e s' : reach s → fresh s → exec s e = Some (Ok s') → reach s'.

(** ** Transactions and their stages *)

Definition final (st : TxnState) : bool := match st with kCommitted | kRollbacked => true | _ => false end.

(** Nothing has been saved in the delta entry yet. *)
Definition delta_fresh t : Prop :=
  ∃ d, local_catalog_delta_ops_entry_ t = Some d ∧ max_commit_ts_ d = UNCOMMIT_TS ∧ txn_ids_ d = [] ∧ operations_ d = [].

(** The log entry says what it should. *)
Definition wal_ok (id : Z) t : Prop :=
  ∃ e, wal_entry_ t = Some e ∧ WalEntry.commit_ts_ e = CommitTS t ∧ WalEntry.txn_id_ e = id.

Definition committing t : Prop := Txn_State t = kCommitting ∧ GetTxnType t = TxnType.kWrite ∧ BeginTS t < CommitTS t.

Definition stage_ok (start : Z) (g : stage) (id : Z) t : Prop :=
  0 ≤ BeginTS t ≤ start ∧ CommitTS t ≤ start ∧
  match g with
  | Running => Txn_State t = kStarted ∧ GetTxnType t = TxnType.kInvalid ∧ is_Some (wal_entry_ t) ∧ delta_fresh t ∧ done_bottom_ t = false
  | StampedR ts | StampedAbort ts =>
      Txn_State t = kStarted ∧ GetTxnType t = TxnType.kRead ∧ is_Some (wal_entry_ t) ∧ ts ≤ start
  | CommittedR => Txn_State t = kCommitted ∧ GetTxnType t = TxnType.kRead
  | StampedW ts =>
      Txn_State t = kStarted ∧ GetTxnType t = TxnType.kWrite ∧ BeginTS t < ts ≤ start ∧ is_Some (wal_entry_ t) ∧ delta_fresh t ∧ done_bottom_ t = false
  | Committing | Prepared | Checking _ =>
      committing t ∧ (∃ e, wal_entry_ t = Some e ∧ WalEntry.commit_ts_ e = CommitTS t) ∧ delta_fresh t ∧ done_bottom_ t = false
  | Sending => committing t ∧ (wal_entry_ t = None ∨ wal_ok id t) ∧ delta_fresh t ∧ done_bottom_ t = false
  | Failed => committing t
  | Waiting => committing t ∧ wal_ok id t ∧ (if done_bottom_ t then is_Some (local_catalog_delta_ops_entry_ t) else delta_fresh t)
  | Finishing => committing t ∧ wal_ok id t
  | RolledBack => Txn_State t = kRollbacking ∧ GetTxnType t ≠ TxnType.kInvalid
  | Done =>
      GetTxnType t = TxnType.kWrite ∧
      (Txn_State t = kRollbacked ∨ Txn_State t = kCommitted ∧ wal_ok id t ∧ BeginTS t < CommitTS t < CommittedTS t ∧ CommittedTS t ≤ start)
  end.

Lemma stage_ok_mono start start' g id t : stage_ok start g id t → start ≤ start' → stage_ok start' g id t.
Proof.
  intros (? & ? & Hg) Hle. split; [lia|]. split; [lia|]. destruct g; try done; try (destruct_and? Hg; split_and?; done || lia).
  destruct Hg as [? [?|Hg]]; split; [done|by left|done|right; destruct_and? Hg; split_and?; done || lia].
Qed.

Definition live T G (id : Z) (g : stage) t : Prop := G !! id = Some g ∧ T !! id = Some t.

(** What the manager owns.  [begun], [finishing] and [fin] are [beginned_txns_], [finishing_txns_] and
    [finished_txns_]. *)
Record core (start next : Z) T G (begun : list Z) (finishing : gset Z) (fin : list (Z * Z)) (hist : gmap Z Txn) : Prop := {
  core_clock : 0 ≤ start ∧ 0 ≤ next;
  core_stage : ∀ id t, T !! id = Some t → is_Some (G !! id);
  core_alive : ∀ id g, G !! id = Some g → g ≠ Done → is_Some (T !! id);
  core_ids : ∀ id g, G !! id = Some g → id ≤ next;
  core_ok : ∀ id g t, live T G id g t → stage_ok start g id t;
  core_order : ∀ id1 t1 id2 t2, T !! id1 = Some t1 → T !! id2 = Some t2 → id1 < id2 → BeginTS t1 < BeginTS t2;
  core_begun : ∀ id g t, live T G id g t → final (Txn_State t) = false → id ∈ begun;
  core_begun_sorted : StronglySorted Z.lt begun ∧ Forall (λ id, id ≤ next) begun;
  core_finishing : ∀ id, id ∈ finishing ↔ ∃ t, T !! id = Some t ∧ GetTxnType t = TxnType.kWrite;
  core_fin_sorted : StronglySorted (λ a b, a.1 < b.1) fin ∧ NoDup fin.*2;
  core_fin : ∀ ts id, (ts, id) ∈ fin → ts ≤ start ∧ ∃ t, live T G id Done t ∧ (Txn_State t = kCommitted → CommittedTS t = ts);
  core_fin_all : ∀ id t, live T G id Done t → ∃ ts, (ts, id) ∈ fin;
  core_hist : ∀ id, is_Some (hist !! id) ↔ G !! id = Some Done;
  core_hist_live : ∀ id t, live T G id Done t → hist !! id = Some t;
  core_hist_ok : ∀ id t, hist !! id = Some t → GetTxnType t = TxnType.kWrite → stage_ok start Done id t;
  core_gone : ∀ id1 t1 id2 g2 t2, hist !! id1 = Some t1 → GetTxnType t1 = TxnType.kWrite → Txn_State t1 = kCommitted → T !! id1 = None →
    live T G id2 g2 t2 → final (Txn_State t2) = false → CommittedTS t1 ≤ BeginTS t2;
  core_candidates : ∀ id t l c, live T G id (Checking l) t → c ∈ l →
    ∃ gc tc, live T G c gc tc ∧ GetTxnType tc = TxnType.kWrite ∧ (gc = Done → ∃ ts, (ts, c) ∈ fin ∧ BeginTS t < ts);
}.

Arguments core_clock {_ _ _ _ _ _ _ _} _.
Arguments core_stage {_ _ _ _ _ _ _ _} _.
Arguments core_alive {_ _ _ _ _ _ _ _} _.
Arguments core_ids {_ _ _ _ _ _ _ _} _.
Arguments core_ok {_ _ _ _ _ _ _ _} _.
Arguments core_order {_ _ _ _ _ _ _ _} _.
Arguments core_begun {_ _ _ _ _ _ _ _} _.
Arguments core_begun_sorted {_ _ _ _ _ _ _ _} _.
Arguments core_finishing {_ _ _ _ _ _ _ _} _.
Arguments core_fin_sorted {_ _ _ _ _ _ _ _} _.
Arguments core_fin {_ _ _ _ _ _ _ _} _.
Arguments core_fin_all {_ _ _ _ _ _ _ _} _.
Arguments core_hist {_ _ _ _ _ _ _ _} _.
Arguments core_hist_live {_ _ _ _ _ _ _ _} _.
Arguments core_hist_ok {_ _ _ _ _ _ _ _} _.
Arguments core_gone {_ _ _ _ _ _ _ _} _.
Arguments core_candidates {_ _ _ _ _ _ _ _} _.

Definition core_of s : Prop :=
  let m := mgr s in
  core (start_ts_ m) (next_txn_id_ m) (txn_map_ m) (stages s) (beginned_txns_ m) (finishing_txns_ m) (finished_txns_ m) (history_ s) ∧
  is_running_ m = true ∧ wal_running_ m = true.

Lemma live_update T G id g t j g' t' :
  live (<[id := t]> T) (<[id := g]> G) j g' t' ↔ (j = id ∧ g' = g ∧ t' = t) ∨ (j ≠ id ∧ live T G j g' t').
Proof.
  unfold live. destruct (decide (j = id)) as [->|Hne]; [rewrite !lookup_insert_eq|rewrite !lookup_insert_ne by done]; naive_solver.
Qed.

Lemma live_fun T G id g t g' t' : live T G id g t → live T G id g' t' → g' = g ∧ t' = t.
Proof. unfold live. intros [? ?] [? ?]. by simplify_eq. Qed.

(** A step of one transaction that does not finish it. *)
Lemma core_update start start' next T G begun finishing fin hist id g t g' t' :
  core start next T G begun finishing fin hist → live T G id g t → g ≠ Done → g' ≠ Done →
  start ≤ start' → stage_ok start' g' id t' → BeginTS t' = BeginTS t →
  (final (Txn_State t) = true → final (Txn_State t') = true) →
  (GetTxnType t = TxnType.kWrite → GetTxnType t' = TxnType.kWrite) →
  (∀ l c, g' = Checking l → c ∈ l →
     ∃ gc tc, live T G c gc tc ∧ GetTxnType tc = TxnType.kWrite ∧ (gc = Done → ∃ ts, (ts, c) ∈ fin ∧ BeginTS t < ts)) →
  core start' next (<[id := t']> T) (<[id := g']> G) begun
    (match GetTxnType t' with TxnType.kWrite => {[id]} ∪ finishing | _ => finishing end) fin hist.
Proof.
  intros C Hl Hg Hg' Hs Hok Hb Hf Hw Hc. destruct Hl as [HG HT]. split.
  - pose proof (core_clock C). lia.
  - intros j tj. destruct (decide (j = id)) as [->|?]; [rewrite !lookup_insert_eq; eauto|rewrite !lookup_insert_ne by done; apply (core_stage C)].
  - intros j gj. destruct (decide (j = id)) as [->|?]; [rewrite !lookup_insert_eq; eauto|rewrite !lookup_insert_ne by done; apply (core_alive C)].
  - intros j gj. destruct (decide (j = id)) as [->|?]; [intros _; by eapply (core_ids C)|rewrite lookup_insert_ne by done; apply (core_ids C)].
  - intros j gj tj [(-> & -> & ->)|[? Hj]]%live_update; [done|]. eapply stage_ok_mono; [by apply (core_ok C)|done].
  - intros j1 t1 j2 t2 H1 H2 Hlt. apply lookup_insert_Some in H1 as [[<- <-]|[? H1]]; apply lookup_insert_Some in H2 as [[<- <-]|[? H2]]; [lia| | |].
    + rewrite Hb. by eapply (core_order C).
    + rewrite Hb. by eapply (core_order C).
    + by eapply (core_order C).
  - intros j gj tj [(-> & -> & ->)|[? Hj]]%live_update Hfj; [|by eapply (core_begun C)]. apply (core_begun C id g t); [done|].
    destruct (final (Txn_State t)); [by rewrite Hf in Hfj|done].
  - apply (core_begun_sorted C).
  - intros j. assert (HC := core_finishing C j). destruct (decide (j = id)) as [->|Hne].
    + rewrite lookup_insert_eq. destruct (GetTxnType t') eqn:Ht'.
      * split; [|intros (? & [= <-] & ?); congruence]. intros (t0 & ? & ?)%HC. discriminate Hw. congruence.
      * split; [eauto|]. intros _. apply elem_of_union. left. by apply elem_of_singleton.
      * split; [|intros (? & [= <-] & ?); congruence]. intros (t0 & ? & ?)%HC. discriminate Hw. congruence.
    + rewrite lookup_insert_ne, <- HC by done. destruct (GetTxnType t'); [done| |done]. rewrite elem_of_union, elem_of_singleton.
      split; [by intros [?|?]|by right].
  - apply (core_fin_sorted C).
  - intros ts j Hj. destruct (core_fin C ts j Hj) as (? & tj & Hlj & ?). split; [lia|]. exists tj. split; [|done].
    apply live_update. right. split; [|done]. intros ->. destruct Hlj. congruence.
  - intros j tj [(-> & <- & ->)|[? Hj]]%live_update; [done|by eapply (core_fin_all C)].
  - intros j. rewrite (core_hist C j). destruct (decide (j = id)) as [->|?]; [|by rewrite lookup_insert_ne].
    rewrite lookup_insert_eq, HG. split; intros [= ?]; done.
  - intros j tj [(-> & <- & ->)|[? Hj]]%live_update; [done|by apply (core_hist_live C)].
  - intros j tj Hj Ht. eapply stage_ok_mono; [by apply (core_hist_ok C)|done].
  - intros j1 t1 j2 g2 t2 H1 Ht Hst Hn H2 Hnf. destruct (decide (j1 = id)) as [->|?]; [by rewrite lookup_insert_eq in Hn|].
    rewrite lookup_insert_ne in Hn by done. apply live_update in H2 as [(-> & -> & ->)|[? H2]]; [|by eapply (core_gone C)].
    rewrite Hb. eapply (core_gone C j1 t1 id g t); try done.
    destruct (final (Txn_State t)); [by rewrite Hf in Hnf|done].
  - intros j tj l c Hj Hcl.
    assert (∃ gc tc, live T G c gc tc ∧ GetTxnType tc = TxnType.kWrite ∧ (gc = Done → ∃ ts, (ts, c) ∈ fin ∧ BeginTS tj < ts)) as (gc & tc & Hlc & Hwc & Hd).
    { apply live_update in Hj as [(-> & <- & ->)|[? Hj]]; [rewrite Hb; by eapply Hc|by eapply (core_candidates C)]. }
    destruct (decide (c = id)) as [->|Hne].
    + exists g', t'. destruct (live_fun _ _ _ _ _ _ _ (conj HG HT) Hlc) as [-> ->]. split; [apply live_update; by left|].
      split; [by apply Hw|done].
    + exists gc, tc. split; [apply live_update; by right|done].
Qed.

Lemma core_begin start next T G begun finishing fin hist t :
  core start next T G begun finishing fin hist → stage_ok (start + 1) Running (next + 1) t → BeginTS t = start + 1 →
  core (start + 1) (next + 1) (<[next + 1 := t]> T) (<[next + 1 := Running]> G) (begun ++ [next + 1]) finishing fin hist.
Proof.
  intros C Hok Hb. set (id := next + 1) in *.
  assert (HG : G !! id = None). { destruct (G !! id) eqn:E; [|done]. apply (core_ids C) in E. lia. }
  assert (HT : T !! id = None). { destruct (T !! id) eqn:E; [|done]. apply (core_stage C) in E as [? E]. congruence. }
  assert (Hbegin : ∀ j tj, T !! j = Some tj → BeginTS tj ≤ start).
  { intros j tj Hj. destruct (core_stage C _ _ Hj) as [gj HGj]. pose proof (core_ok C j gj tj (conj HGj Hj)) as (? & _). lia. }
  assert (Hlt : ∀ j tj, T !! j = Some tj → j ≤ next).
  { intros j tj Hj. destruct (core_stage C _ _ Hj) as [gj HGj]. by apply (core_ids C) in HGj. }
  split.
  - pose proof (core_clock C). lia.
  - intros j tj. destruct (decide (j = id)) as [->|?]; [rewrite !lookup_insert_eq; eauto|rewrite !lookup_insert_ne by done; apply (core_stage C)].
  - intros j gj. destruct (decide (j = id)) as [->|?]; [rewrite !lookup_insert_eq; eauto|rewrite !lookup_insert_ne by done; apply (core_alive C)].
  - intros j gj Hj. apply lookup_insert_Some in Hj as [[<- _]|[_ Hj]]; [lia|]. apply (core_ids C) in Hj. lia.
  - intros j gj tj [(-> & -> & ->)|[? Hj]]%live_update; [done|]. eapply stage_ok_mono; [by apply (core_ok C)|lia].
  - intros j1 t1 j2 t2 H1 H2 ?. apply lookup_insert_Some in H1 as [[<- <-]|[? H1]]; apply lookup_insert_Some in H2 as [[<- <-]|[? H2]].
    + lia.
    + apply Hlt in H2. lia.
    + apply Hbegin in H1. lia.
    + by eapply (core_order C).
  - intros j gj tj [(-> & -> & ->)|[? Hj]]%live_update ?; apply elem_of_app; [right; by apply list_elem_of_singleton|left; by eapply (core_begun C)].
  - destruct (core_begun_sorted C) as [Hs Hf]. split.
    + apply StronglySorted_app; split_and!; [|done|repeat constructor]. intros x1 x2 H1 ->%list_elem_of_singleton.
      rewrite Forall_forall in Hf. apply Hf in H1. lia.
    + apply Forall_app. split; [eapply Forall_impl; [done|]; simpl; lia|]. apply Forall_singleton. lia.
  - intros j. rewrite (core_finishing C j). destruct (decide (j = id)) as [->|?]; [|by rewrite lookup_insert_ne].
    rewrite lookup_insert_eq, HT. destruct Hok as (_ & _ & _ & ? & _). split; [by intros (? & ? & _)|]. intros (? & [= <-] & ?). congruence.
  - apply (core_fin_sorted C).
  - intros ts j Hj. destruct (core_fin C ts j Hj) as (? & tj & Hlj & ?). split; [lia|]. exists tj. split; [|done].
    apply live_update. right. split; [|done]. intros ->. destruct Hlj. congruence.
  - intros j tj [(-> & [=] & ->)|[? Hj]]%live_update. by eapply (core_fin_all C).
  - intros j. rewrite (core_hist C j). destruct (decide (j = id)) as [->|?]; [|by rewrite lookup_insert_ne]. by rewrite lookup_insert_eq, HG.
  - intros j tj [(-> & [=] & ->)|[? Hj]]%live_update. by apply (core_hist_live C).
  - intros j tj Hj ?. eapply stage_ok_mono; [by apply (core_hist_ok C)|lia].
  - intros j1 t1 j2 g2 t2 H1 Ht Hst Hn H2 Hnf. assert (j1 ≠ id) by (intros ->; by rewrite lookup_insert_eq in Hn).
    rewrite lookup_insert_ne in Hn by done. apply live_update in H2 as [(-> & -> & ->)|[? H2]]; [|by eapply (core_gone C)].
    destruct (core_hist_ok C _ _ H1 Ht) as (_ & _ & _ & [?|(_ & _ & _ & ?)]); [congruence|lia].
  - intros j tj l c [(-> & [=] & ->)|[? Hj]]%live_update Hc. destruct (core_candidates C _ _ _ _ Hj Hc) as (gc & tc & Hlc & ?).
    exists gc, tc. split; [|done]. apply live_update. right. split; [|done]. intros ->. destruct Hlc. congruence.
Qed.

(** A reader is destroyed when it finishes. *)
Lemma core_finish_read start next T G begun finishing fin hist id g t :
  core start next T G begun finishing fin hist → live T G id g t → g ≠ Done → GetTxnType t = TxnType.kRead →
  core start next (delete id T) (<[id := Done]> G) begun finishing fin (<[id := t]> hist).
Proof.
  intros C [HG HT] Hg Htype.
  assert (Hlive : ∀ j gj tj, live (delete id T) (<[id := Done]> G) j gj tj ↔ j ≠ id ∧ live T G j gj tj).
  { intros j gj tj. unfold live. destruct (decide (j = id)) as [->|?]; [rewrite lookup_delete_eq; naive_solver|].
    rewrite lookup_delete_ne, lookup_insert_ne by done. naive_solver. }
  split.
  - apply (core_clock C).
  - intros j tj [? Hj]%lookup_delete_Some. rewrite lookup_insert_ne by done. by eapply (core_stage C).
  - intros j gj Hj ?. apply lookup_insert_Some in Hj as [[<- <-]|[? Hj]]; [done|]. rewrite lookup_delete_ne by done. by eapply (core_alive C).
  - intros j gj Hj. apply lookup_insert_Some in Hj as [[<- _]|[_ Hj]]; by eapply (core_ids C).
  - intros j gj tj [? Hj]%Hlive. by apply (core_ok C).
  - intros j1 t1 j2 t2 [_ ?]%lookup_delete_Some [_ ?]%lookup_delete_Some. by apply (core_order C).
  - intros j gj tj [? Hj]%Hlive. by eapply (core_begun C).
  - apply (core_begun_sorted C).
  - intros j. rewrite (core_finishing C j). split.
    + intros (tj & Hj & ?). exists tj. split; [|done]. apply lookup_delete_Some. split; [|done]. intros <-. congruence.
    + intros (tj & [_ Hj]%lookup_delete_Some & ?). by exists tj.
  - apply (core_fin_sorted C).
  - intros ts j Hj. destruct (core_fin C ts j Hj) as (? & tj & Hlj & ?). split; [done|]. exists tj. split; [|done].
    apply Hlive. split; [|done]. intros ->. destruct Hlj. congruence.
  - intros j tj [? Hj]%Hlive. by eapply (core_fin_all C).
  - intros j. destruct (decide (j = id)) as [->|?]; [rewrite !lookup_insert_eq; naive_solver|]. rewrite !lookup_insert_ne by done. apply (core_hist C).
  - intros j tj [? Hj]%Hlive. rewrite lookup_insert_ne by done. by apply (core_hist_live C).
  - intros j tj Hj ?. apply lookup_insert_Some in Hj as [[<- <-]|[? Hj]]; [congruence|by apply (core_hist_ok C)].
  - intros j1 t1 j2 g2 t2 H1 Ht Hst Hn [? H2]%Hlive Hnf. apply lookup_insert_Some in H1 as [[<- <-]|[? H1]]; [congruence|].
    rewrite lookup_delete_ne in Hn by done. by eapply (core_gone C).
  - intros j tj l c [? Hj]%Hlive Hc. destruct (core_candidates C _ _ _ _ Hj Hc) as (gc & tc & Hlc & Hw & ?).
    exists gc, tc. split; [|done]. apply Hlive. split; [|done]. intros ->. destruct Hlc. congruence.
Qed.

(** A writer that finishes is kept for the conflict checks of those that began before. *)
Lemma core_finish_write start next T G begun finishing fin hist id g t t' :
  core start next T G begun finishing fin hist → live T G id g t → g ≠ Done → GetTxnType t = TxnType.kWrite →
  stage_ok (start + 1) Done id t' → BeginTS t' = BeginTS t → (Txn_State t' = kCommitted → CommittedTS t' = start + 1) →
  core (start + 1) next (<[id := t']> T) (<[id := Done]> G) begun finishing (fin ++ [(start + 1, id)]) (<[id := t']> hist).
Proof.
  intros C [HG HT] Hg Htype Hok Hb Hcts.
  assert (Hfin : id ∉ fin.*2).
  { intros ([ts j] & Hj & Hin)%list_elem_of_fmap. simpl in Hj. subst j. destruct (core_fin C ts id Hin) as (_ & tj & [Hd _] & _). congruence. }
  assert (Hfinal : final (Txn_State t') = true) by (destruct Hok as (_ & _ & _ & [->|[-> _]]); done).
  split.
  - pose proof (core_clock C). lia.
  - intros j tj. destruct (decide (j = id)) as [->|?]; [rewrite !lookup_insert_eq; eauto|rewrite !lookup_insert_ne by done; apply (core_stage C)].
  - intros j gj. destruct (decide (j = id)) as [->|?]; [rewrite !lookup_insert_eq; eauto|rewrite !lookup_insert_ne by done; apply (core_alive C)].
  - intros j gj Hj. apply lookup_insert_Some in Hj as [[<- _]|[_ Hj]]; by eapply (core_ids C).
  - intros j gj tj [(-> & -> & ->)|[? Hj]]%live_update; [done|]. eapply stage_ok_mono; [by apply (core_ok C)|lia].
  - intros j1 t1 j2 t2 H1 H2 ?. apply lookup_insert_Some in H1 as [[<- <-]|[? H1]]; apply lookup_insert_Some in H2 as [[<- <-]|[? H2]];
      rewrite ?Hb; [lia|by eapply (core_order C)..].
  - intros j gj tj [(-> & -> & ->)|[? Hj]]%live_update ?; [congruence|by eapply (core_begun C)].
  - apply (core_begun_sorted C).
  - intros j. rewrite (core_finishing C j). destruct (decide (j = id)) as [->|?]; [|by rewrite lookup_insert_ne].
    rewrite lookup_insert_eq. destruct Hok as (_ & _ & ? & _). split; eauto.
  - destruct (core_fin_sorted C) as [Hs Hnd]. split.
    + apply StronglySorted_app; split_and!; [|done|repeat constructor]. intros [ts j] x2 H1 ->%list_elem_of_singleton. simpl.
      apply (core_fin C) in H1 as [? _]. lia.
    + rewrite fmap_app. apply NoDup_app. split; [done|]. split; [|apply NoDup_singleton]. intros j Hj ->%list_elem_of_singleton. done.
  - intros ts j [Hj|[= -> ->]%list_elem_of_singleton]%elem_of_app.
    + destruct (core_fin C ts j Hj) as (? & tj & Hlj & ?). split; [lia|]. exists tj. split; [|done].
      apply live_update. right. split; [|done]. intros ->. destruct Hlj. congruence.
    + split; [lia|]. exists t'. split; [apply live_update; by left|done].
  - intros j tj [(-> & _ & ->)|[? Hj]]%live_update.
    + exists (start + 1). apply elem_of_app. right. by apply list_elem_of_singleton.
    + destruct (core_fin_all C _ _ Hj) as [ts Hts]. exists ts. apply elem_of_app. by left.
  - intros j. destruct (decide (j = id)) as [->|?]; [rewrite !lookup_insert_eq; naive_solver|]. rewrite !lookup_insert_ne by done. apply (core_hist C).
  - intros j tj [(-> & _ & ->)|[? Hj]]%live_update; [by rewrite lookup_insert_eq|]. rewrite lookup_insert_ne by done. by apply (core_hist_live C).
  - intros j tj Hj ?. apply lookup_insert_Some in Hj as [[<- <-]|[? Hj]]; [done|]. eapply stage_ok_mono; [by apply (core_hist_ok C)|lia].
  - intros j1 t1 j2 g2 t2 H1 Ht Hst Hn H2 Hnf. assert (j1 ≠ id) by (intros ->; by rewrite lookup_insert_eq in Hn).
    rewrite lookup_insert_ne in H1, Hn by done. apply live_update in H2 as [(-> & -> & ->)|[? H2]]; [congruence|by eapply (core_gone C)].
  - intros j tj l c [(-> & [=] & ->)|[? Hj]]%live_update Hc. destruct (core_candidates C _ _ _ _ Hj Hc) as (gc & tc & Hlc & Hw & Hd).
    destruct (decide (c = id)) as [->|?].
    + exists Done, t'. split; [apply live_update; by left|]. split; [by destruct Hok as (_ & _ & ? & _)|]. intros _. exists (start + 1).
      split; [apply elem_of_app; right; by apply list_elem_of_singleton|]. pose proof (core_ok C _ _ _ Hj) as (? & _). lia.
    + exists gc, tc. split; [apply live_update; by right|]. split; [done|]. intros Hgc. destruct (Hd Hgc) as (ts & ? & ?).
      exists ts. split; [apply elem_of_app; by left|done].
Qed.

Lemma first_unfinished_spec T d begun :
  (∀ id1 t1 id2 t2, T !! id1 = Some t1 → T !! id2 = Some t2 → id1 < id2 → BeginTS t1 < BeginTS t2) →
  StronglySorted Z.lt begun → (∀ id t, T !! id = Some t → final (Txn_State t) = false → id ∈ begun) →
  let '(least, begun') := first_unfinished T d begun in
  begun' `suffix_of` begun ∧
  ∀ id t, T !! id = Some t → final (Txn_State t) = false → id ∈ begun' ∧ least ≤ BeginTS t.
Proof.
  intros Ho. induction begun as [|id begun IH]; intros Hs Hin; cbn [first_unfinished].
  { split; [done|]. intros j tj Hj Hf. by destruct (not_elem_of_nil j (Hin j tj Hj Hf)). }
  apply StronglySorted_inv in Hs as [Hs Hall].
  assert (Hskip : (∀ t, T !! id = Some t → final (Txn_State t) = true) →
     let '(least, begun') := first_unfinished T d begun in
     begun' `suffix_of` id :: begun ∧ ∀ j t, T !! j = Some t → final (Txn_State t) = false → j ∈ begun' ∧ least ≤ BeginTS t).
  { intros Hid. destruct (first_unfinished T d begun). destruct IH as [? ?]; [done| |].
    - intros j tj Hj Hf. pose proof (Hin j tj Hj Hf) as [->|?]%elem_of_cons; [|done]. apply Hid in Hj. congruence.
    - split; [by apply suffix_cons_r|done]. }
  destruct (T !! id) as [t|] eqn:Ht; [|by apply Hskip].
  destruct (final (Txn_State t)) eqn:Hf.
  - specialize (Hskip ltac:(by intros ? [= <-])). by destruct (Txn_State t).
  - assert (Hstop : id :: begun `suffix_of` id :: begun ∧
      ∀ j tj, T !! j = Some tj → final (Txn_State tj) = false → j ∈ id :: begun ∧ BeginTS t ≤ BeginTS tj).
    { split; [done|]. intros j tj Hj Hfj. pose proof (Hin j tj Hj Hfj) as Hel. split; [done|].
      apply elem_of_cons in Hel as [->|Hel]; [replace tj with t by congruence; lia|].
      rewrite Forall_forall in Hall. apply Hall in Hel. pose proof (Ho _ _ _ _ Ht Hj Hel). lia. }
    destruct (Txn_State t); done.
Qed.

(** Forgetting one transaction that ended before every unfinished one began. *)
Lemma core_forget start next T G begun finishing fin hist ts id :
  core start next T G begun finishing ((ts, id) :: fin) hist →
  (∀ j g t, live T G j g t → final (Txn_State t) = false → ts ≤ BeginTS t) →
  core start next (delete id T) G begun (finishing ∖ {[id]}) fin hist.
Proof.
  intros C Hleast. destruct (core_fin C ts id ltac:(by left)) as (_ & t & [HG HT] & Hcts).
  assert (Hlive : ∀ j gj tj, live (delete id T) G j gj tj ↔ j ≠ id ∧ live T G j gj tj).
  { intros j gj tj. unfold live. destruct (decide (j = id)) as [->|?]; [rewrite lookup_delete_eq; naive_solver|].
    rewrite lookup_delete_ne by done. naive_solver. }
  destruct (core_fin_sorted C) as [Hs Hnd]. rewrite fmap_cons in Hnd. apply NoDup_cons in Hnd as [Hnew Hnd].
  assert (Hother : ∀ ts' j, (ts', j) ∈ fin → j ≠ id).
  { intros ts' j Hj ->. apply Hnew, list_elem_of_fmap. by exists (ts', id). }
  split.
  - apply (core_clock C).
  - intros j tj [? Hj]%lookup_delete_Some. by eapply (core_stage C).
  - intros j gj Hj Hgj. rewrite lookup_delete_ne by congruence. by eapply (core_alive C).
  - apply (core_ids C).
  - intros j gj tj [? Hj]%Hlive. by apply (core_ok C).
  - intros j1 t1 j2 t2 [_ ?]%lookup_delete_Some [_ ?]%lookup_delete_Some. by apply (core_order C).
  - intros j gj tj [? Hj]%Hlive. by eapply (core_begun C).
  - apply (core_begun_sorted C).
  - intros j. rewrite elem_of_difference, (core_finishing C j), elem_of_singleton. split.
    + intros [(tj & Hj & ?) ?]. exists tj. split; [|done]. by apply lookup_delete_Some.
    + intros (tj & [? Hj]%lookup_delete_Some & ?). split; [by exists tj|done].
  - apply StronglySorted_inv in Hs as [? _]. done.
  - intros ts' j Hj. destruct (core_fin C ts' j ltac:(by right)) as (? & tj & Hlj & ?). split; [done|]. exists tj. split; [|done].
    apply Hlive. split; [by eapply Hother|done].
  - intros j tj [? Hj]%Hlive. destruct (core_fin_all C _ _ Hj) as [ts' [[= -> ->]|?]%elem_of_cons]; [done|by exists ts'].
  - apply (core_hist C).
  - intros j tj [? Hj]%Hlive. by apply (core_hist_live C).
  - apply (core_hist_ok C).
  - intros j1 t1 j2 g2 t2 H1 Ht Hst Hn [? H2]%Hlive Hnf. destruct (decide (j1 = id)) as [->|?].
    + rewrite (core_hist_live C _ _ (conj HG HT)) in H1. injection H1 as <-. rewrite (Hcts Hst). by eapply Hleast.
    + rewrite lookup_delete_ne in Hn by done. by eapply (core_gone C).
  - intros j tj l c [? Hj]%Hlive Hc. destruct (core_candidates C _ _ _ _ Hj Hc) as (gc & tc & Hlc & Hw & Hd).
    pose proof (core_ok C _ _ _ Hj) as (_ & _ & (Hst & _) & _).
    assert (Hcid : c ≠ id).
    { intros ->. destruct (live_fun _ _ _ _ _ _ _ (conj HG HT) Hlc) as [-> ->]. destruct (Hd eq_refl) as (ts' & [[= ->]|Hin]%elem_of_cons & ?).
      - assert (ts ≤ BeginTS tj); [|lia]. apply (Hleast j (Checking l) tj Hj). by rewrite Hst.
      - by apply Hother in Hin. }
    exists gc, tc. split; [by apply Hlive|]. split; [done|]. intros Hgc. destruct (Hd Hgc) as (ts' & [[= -> ->]|?]%elem_of_cons & ?); [done|by exists ts'].
Qed.

Implicit Type m : TxnManager B.

Definition core_m m G hist : Prop :=
  core (start_ts_ m) (next_txn_id_ m) (txn_map_ m) G (beginned_txns_ m) (finishing_txns_ m) (finished_txns_ m) hist.

(** What finishing a transaction leaves alone. *)
Record unchanged m m' : Prop := {
  unchanged_next : next_txn_id_ m' = next_txn_id_ m;
  unchanged_ck : wait_conflict_ck_ m' = wait_conflict_ck_ m;
  unchanged_flush : wait_flush_ m' = wait_flush_ m;
  unchanged_seq : next_sequence_ m' = next_sequence_ m;
  unchanged_running : is_running_ m' = is_running_ m ∧ wal_running_ m' = wal_running_ m ∧ enable_compaction_ m' = enable_compaction_ m;
}.

Lemma forget_finished_ok G hist least fin : ∀ m,
  core (start_ts_ m) (next_txn_id_ m) (txn_map_ m) G (beginned_txns_ m) (finishing_txns_ m) fin hist →
  (∀ j g t, live (txn_map_ m) G j g t → final (Txn_State t) = false → least ≤ BeginTS t) →
  ∃ m', forget_finished m least fin = Ok m' ∧ core_m m' G hist ∧ unchanged m m' ∧ start_ts_ m' = start_ts_ m ∧
    ∀ j, G !! j ≠ Some Done → txn_map_ m' !! j = txn_map_ m !! j.
Proof.
  induction fin as [|[ts id] fin IH]; intros m C Hleast; cbn [forget_finished].
  { eexists. split; [done|]. split; [done|]. split; [done|]. done. }
  destruct (core_fin C ts id ltac:(by left)) as (_ & t & [HG HT] & _). unfold deref. rewrite HT. cbn [res_bind].
  assert (Hkeep : ∃ m', Ok (with_finish m (finishing_txns_ m) ((ts, id) :: fin)) = Ok m' ∧ core_m m' G hist ∧ unchanged m m' ∧
    start_ts_ m' = start_ts_ m ∧ ∀ j, G !! j ≠ Some Done → txn_map_ m' !! j = txn_map_ m !! j).
  { eexists. split; [done|]. split; [done|]. split; [done|]. done. }
  destruct (Z.ltb_spec least ts) as [Hlt|Hle]; [by destruct (Txn_State t)|].
  assert (Hdrop : ∃ m', match txn_map_ (with_finish m (finishing_txns_ m ∖ {[id]}) (finished_txns_ m)) !! id with
      | None => Err UnrecoverableError
      | Some _ => forget_finished (with_txns (with_finish m (finishing_txns_ m ∖ {[id]}) (finished_txns_ m)) (delete id (txn_map_ m))) least fin
      end = Ok m' ∧ core_m m' G hist ∧ unchanged m m' ∧ start_ts_ m' = start_ts_ m ∧ ∀ j, G !! j ≠ Some Done → txn_map_ m' !! j = txn_map_ m !! j).
  { sys. rewrite HT. destruct (IH (with_txns (with_finish m (finishing_txns_ m ∖ {[id]}) (finished_txns_ m)) (delete id (txn_map_ m))))
      as (m' & -> & HC & [] & Hst & Hmap); sys.
    - eapply core_forget; [done|]. intros j gj tj Hj Hf. etrans; [done|]. by eapply Hleast.
    - intros j gj tj [? [_ ?]%lookup_delete_Some] Hf. by eapply Hleast.
    - exists m'. split; [done|]. split; [done|]. split; [by constructor|]. split; [done|]. intros j Hj. rewrite Hmap by done.
      apply lookup_delete_ne. congruence. }
  by destruct (Txn_State t).
Qed.

Lemma tick_ok m : 0 ≤ start_ts_ m < max_clock → tick m = (start_ts_ m + 1, with_ts m (start_ts_ m + 1)).
Proof.
  unfold tick, max_clock. intros H. rewrite cast_id; [done|]. change (2 ^ 64) with 18446744073709551616 in H. solve_range.
Qed.

Lemma core_suffix start next T G begun begun' finishing fin hist :
  core start next T G begun finishing fin hist → begun' `suffix_of` begun →
  (∀ id g t, live T G id g t → final (Txn_State t) = false → id ∈ begun') →
  core start next T G begun' finishing fin hist.
Proof.
  intros [] [l ->] Hin. split; try done. destruct core_begun_sorted0 as [Hs Hf].
  split; [by apply StronglySorted_app_1_r in Hs|by apply Forall_app in Hf as [_ ?]].
Qed.

Lemma finished_ok m start id g t :
  start = start_ts_ m → 0 ≤ start < max_clock → stage_ok start g id t → g = Finishing ∨ g = RolledBack → GetTxnType t = TxnType.kWrite →
  finished m t = match Txn_State t with
                 | kCommitting => with_context t (Ctx.mk (BeginTS t) (CommitTS t) (start + 1) kCommitted TxnType.kWrite)
                 | _ => with_context t (SetTxnRollbacked (txn_context_ t))
                 end ∧
  (Txn_State t = kCommitting ∨ Txn_State t = kRollbacking) ∧
  stage_ok (start + 1) Done id (finished m t) ∧ BeginTS (finished m t) = BeginTS t ∧ CommitTS (finished m t) = CommitTS t ∧
  (Txn_State (finished m t) = kCommitted → CommittedTS (finished m t) = start + 1).
Proof.
  intros -> Hc Hok Hg Hw. unfold finished. rewrite Hw. destruct Hok as (Hb & Hct & Hok).
  replace (cast u64 (start_ts_ m + 1)) with (start_ts_ m + 1).
  2: { symmetry. apply cast_id. unfold max_clock in Hc. change (2 ^ 64) with 18446744073709551616 in Hc. solve_range. }
  destruct Hg as [-> | ->].
  - destruct Hok as ((-> & _ & Hlt) & (e & Hwal & ? & ?)). split; [done|]. split; [by left|]. split; [|done].
    split; [txn; lia|]. split; [txn; lia|]. split; [done|]. right. split; [done|]. split; [by exists e|]. txn. lia.
  - destruct Hok as (-> & _). split; [done|]. split; [by right|]. split; [|done]. split; [txn; lia|]. split; [txn; lia|].
    split; [done|]. by left.
Qed.

Lemma FinishTxn_ok m G hist id g t :
  core_m m G hist → live (txn_map_ m) G id g t → start_ts_ m < max_clock →
  g = CommittedR ∨ g = Finishing ∨ g = RolledBack →
  ∃ m', FinishTxn m id = Ok m' ∧ core_m m' (<[id := Done]> G) (<[id := finished m t]> hist) ∧ unchanged m m' ∧
    start_ts_ m ≤ start_ts_ m' ≤ start_ts_ m + 1 ∧
    ∀ j, j ≠ id → G !! j ≠ Some Done → txn_map_ m' !! j = txn_map_ m !! j.
Proof.
  intros C Hl Hmax Hg. pose proof (core_ok C _ _ _ Hl) as Hok. pose proof (proj1 (core_clock C)) as H0. destruct Hl as [HG HT].
  unfold FinishTxn, deref. rewrite HT. cbn [res_bind]. destruct (GetTxnType t) eqn:Htype.
  - eexists. split; [done|]. split; [|split; [done|]; split; [sys; lia|]; intros j ? _; sys; by apply lookup_delete_ne].
    assert (finished m t = t) as -> by (unfold finished; by rewrite Htype). by apply (core_finish_read _ _ _ _ _ _ _ _ id g); [|done|naive_solver|].
  - rewrite tick_ok by lia. destruct (finished_ok m _ id g t eq_refl ltac:(lia) Hok) as (Hfin & Hst & Hok' & Hb & Hct & Hcts); [|done|].
    { destruct Hg as [-> |?]; [|done]. destruct Hok as (_ & _ & _ & ?). congruence. }
    assert (HC : core (start_ts_ m + 1) (next_txn_id_ m) (<[id := finished m t]> (txn_map_ m)) (<[id := Done]> G) (beginned_txns_ m) (finishing_txns_ m)
              (finished_txns_ m ++ [(start_ts_ m + 1, id)]) (<[id := finished m t]> hist)).
    { by apply (core_finish_write _ _ _ _ _ _ _ _ id g t); [| |naive_solver|..]. }
    match goal with |- context [res_bind ?x ?k] => replace x with (Ok (A := Txn) (finished m t)) end.
    2: { rewrite Hfin. unfold Txn_SetTxnCommitted, SetTxnCommitted. destruct Hst as [Hst|Hst]; rewrite Hst; [|done].
         unfold Txn_State in Hst. rewrite Hst. cbn [res_bind]. unfold GetTxnType in Htype. by rewrite Htype. }
    cbn [res_bind]. sys. set (d := cast u64 (CommitTS (finished m t) + 1)).
    pose proof (first_unfinished_spec (<[id := finished m t]> (txn_map_ m)) d (beginned_txns_ m) (core_order HC) (proj1 (core_begun_sorted HC))) as Hfu.
    destruct (first_unfinished _ d _) as [least begun]. destruct Hfu as [Hsuf Hleast].
    { intros j tj Hj Hf. destruct (core_stage HC j tj Hj) as [gj HGj]. by eapply (core_begun HC). }
    edestruct (forget_finished_ok (<[id := Done]> G) (<[id := finished m t]> hist) least (finished_txns_ m ++ [(start_ts_ m + 1, id)]))
      as (m' & Hm' & HC' & [] & Hts & Hmap); [..|exists m'; split; [exact Hm'|]]; sys.
    + eapply core_suffix; [done..|]. intros j gj tj [_ Hj] Hf. by apply (Hleast j tj).
    + intros j gj tj [_ Hj] Hf. by apply (Hleast j tj).
    + split; [done|]. split; [by constructor|]. split; [lia|]. intros j Hj Hd. rewrite Hmap by (by rewrite lookup_insert_ne).
      by apply lookup_insert_ne.
  - exfalso. destruct Hg as [-> |[-> | ->]]; destruct Hok as (_ & _ & Hok); unfold committing in Hok; destruct_and? Hok; congruence.
Qed.

Lemma candidate_txns_ok m G hist t :
  core_m m G hist →
  ∃ l, candidate_txns m t = Ok l ∧ (length l ≤ size (finishing_txns_ m))%nat ∧
    ∀ c, c ∈ l ↔ ∃ tc, txn_map_ m !! c = Some tc ∧ GetTxnType tc = TxnType.kWrite ∧ is_candidate (BeginTS t) (CommitTS t) tc = true.
Proof.
  intros C. unfold candidate_txns.
  assert (∀ ids acc, (∀ c, c ∈ ids → is_Some (txn_map_ m !! c)) →
    ∃ l, res_fold (fun candidates id => let? f := deref m id in
           Ok (if is_candidate (BeginTS t) (CommitTS t) f then candidates ++ [id] else candidates)) acc ids = Ok (acc ++ l) ∧ (length l ≤ length ids)%nat ∧
      ∀ c, c ∈ l ↔ c ∈ ids ∧ ∃ tc, txn_map_ m !! c = Some tc ∧ is_candidate (BeginTS t) (CommitTS t) tc = true) as Hfold.
  { induction ids as [|id ids IH]; intros acc Hids; cbn [res_fold].
    { exists []. rewrite app_nil_r. split; [done|]. split; [done|]. intros c. rewrite elem_of_nil. tauto. }
    destruct (Hids id ltac:(by left)) as [f Hf]. unfold deref at 1. rewrite Hf. cbn [res_bind].
    destruct (is_candidate (BeginTS t) (CommitTS t) f) eqn:Hc.
    - destruct (IH (acc ++ [id])) as (l & -> & Hn & Hl); [intros; apply Hids; by right|]. exists (id :: l). rewrite <- app_assoc. split; [done|].
      split; [simpl; lia|].
      intros c. rewrite !elem_of_cons, Hl. split; [|naive_solver]. intros [-> |?]; [|naive_solver]. split; [by left|eauto].
    - destruct (IH acc) as (l & -> & Hn & Hl); [intros; apply Hids; by right|]. exists l. split; [done|]. split; [simpl; lia|].
      intros c. rewrite elem_of_cons, Hl. split; [naive_solver|]. intros [[-> |?] (tc & ? & ?)]; [congruence|eauto]. }
  destruct (Hfold (elements (finishing_txns_ m)) []) as (l & -> & Hn & Hl).
  { intros c (tc & ? & _)%elem_of_elements%(core_finishing C). eauto. }
  exists l. split; [done|]. split; [done|]. intros c. rewrite Hl, elem_of_elements, (core_finishing C). split.
  - intros [(tc & ? & ?) (tc' & ? & ?)]. simplify_eq. by exists tc.
  - intros (tc & ? & ? & ?). split; by exists tc.
Qed.

(** ** Log entries *)

(** The timestamp of a writer that has not sent its entry. *)
Definition unsent (g : stage) t : option Z :=
  match g with
  | StampedW ts => Some ts
  | Committing | Prepared | Checking _ | Sending => Some (CommitTS t)
  | _ => None
  end.

(** A transaction whose log entry has been or will be written. *)
Definition accepted T G (hist : gmap Z Txn) (id : Z) t : Prop :=
  (∃ g, live T G id g t ∧ (g = Waiting ∨ g = Finishing)) ∨
  hist !! id = Some t ∧ GetTxnType t = TxnType.kWrite ∧ Txn_State t = kCommitted.

(** The flush thread has written its entry. *)
Definition flushed T G hist (batch : list Z) (id : Z) t : Prop :=
  (live T G id Waiting t ∧ (id ∈ batch ∨ done_bottom_ t = true)) ∨ live T G id Finishing t ∨
  hist !! id = Some t ∧ GetTxnType t = TxnType.kWrite ∧ Txn_State t = kCommitted.

Definition ts_before T (a b : Z) : Prop := ∀ ta tb, T !! a = Some ta → T !! b = Some tb → CommitTS ta < CommitTS tb.

(** Where the entries are, [ck], [flush] and [batch] being [wait_conflict_ck_], [wait_flush_] and the
    batch of the flush thread. *)
Record logs (start : Z) T G (ck : list (Z * option Z)) (flush batch : list Z) (written : list (WalEntry B)) hist : Prop := {
  ck_sorted : StronglySorted (λ a b, a.1 < b.1) ck;
  ck_bound : ∀ ts w, (ts, w) ∈ ck → ts ≤ start;
  ck_none : ∀ ts, (ts, None) ∈ ck → ∃ id g t, live T G id g t ∧ unsent g t = Some ts;
  ck_unsent : ∀ id g t ts, live T G id g t → unsent g t = Some ts → (ts, None) ∈ ck;
  ck_some : ∀ ts id, (ts, Some id) ∈ ck → ∃ t, live T G id Waiting t ∧ done_bottom_ t = false ∧ CommitTS t = ts;
  unsent_inj : ∀ id1 g1 t1 id2 g2 t2 ts,
    live T G id1 g1 t1 → live T G id2 g2 t2 → unsent g1 t1 = Some ts → unsent g2 t2 = Some ts → id1 = id2;
  queue_live : ∀ id, id ∈ batch ++ flush → ∃ t, live T G id Waiting t ∧ done_bottom_ t = false;
  queue_all : ∀ id t, live T G id Waiting t → done_bottom_ t = false → id ∈ batch ++ flush ∨ (CommitTS t, Some id) ∈ ck;
  queue_order : StronglySorted (ts_before T) (batch ++ flush);
  queue_ck : ∀ id t ts w, id ∈ batch ++ flush → T !! id = Some t → (ts, w) ∈ ck → CommitTS t < ts;
  written_sorted : StronglySorted (λ a b, WalEntry.commit_ts_ a < WalEntry.commit_ts_ b) written;
  written_bound : ∀ e, e ∈ written → WalEntry.commit_ts_ e ≤ start;
  written_flush : ∀ e id t, e ∈ written → id ∈ flush → T !! id = Some t → WalEntry.commit_ts_ e < CommitTS t;
  written_ck : ∀ e ts w, e ∈ written → (ts, w) ∈ ck → WalEntry.commit_ts_ e < ts;
  written_sound : ∀ e, e ∈ written → ∃ t, accepted T G hist (WalEntry.txn_id_ e) t ∧ wal_entry_ t = Some e;
  written_complete : ∀ id t e, flushed T G hist batch id t → wal_entry_ t = Some e → cmds_ e ≠ [] → e ∈ written;
}.
Arguments ck_sorted {_ _ _ _ _ _ _ _} _.
Arguments ck_bound {_ _ _ _ _ _ _ _} _.
Arguments ck_none {_ _ _ _ _ _ _ _} _.
Arguments ck_unsent {_ _ _ _ _ _ _ _} _.
Arguments ck_some {_ _ _ _ _ _ _ _} _.
Arguments unsent_inj {_ _ _ _ _ _ _ _} _.
Arguments queue_live {_ _ _ _ _ _ _ _} _.
Arguments queue_all {_ _ _ _ _ _ _ _} _.
Arguments queue_order {_ _ _ _ _ _ _ _} _.
Arguments queue_ck {_ _ _ _ _ _ _ _} _.
Arguments written_sorted {_ _ _ _ _ _ _ _} _.
Arguments written_bound {_ _ _ _ _ _ _ _} _.
Arguments written_flush {_ _ _ _ _ _ _ _} _.
Arguments written_ck {_ _ _ _ _ _ _ _} _.
Arguments written_sound {_ _ _ _ _ _ _ _} _.
Arguments written_complete {_ _ _ _ _ _ _ _} _.

(** The first entry that waits has not been checked. *)
Definition head_unsent (ck : list (Z * option Z)) : Prop := match ck with (_, Some _) :: _ => False | _ => True end.

Definition logs_m m G batch written hist : Prop :=
  logs (start_ts_ m) (txn_map_ m) G (wait_conflict_ck_ m) (wait_flush_ m) batch written hist ∧ head_unsent (wait_conflict_ck_ m).

(** A step that moves no entry: all but one transaction stay as they are. *)
Lemma logs_frame start start' T T' G G' ck flush batch written hist hist' id :
  logs start T G ck flush batch written hist → start ≤ start' →
  (∀ j g t, j ≠ id → g ≠ Done → live T' G' j g t ↔ live T G j g t) →
  (∀ ts, (∃ g t, live T G id g t ∧ unsent g t = Some ts) ↔ (∃ g t, live T' G' id g t ∧ unsent g t = Some ts)) →
  (∀ t, live T G id Waiting t → done_bottom_ t = true) → (∀ t, live T' G' id Waiting t → done_bottom_ t = true) →
  (∀ t, accepted T G hist id t → ∃ t', accepted T' G' hist' id t' ∧ wal_entry_ t' = wal_entry_ t) →
  (∀ t, flushed T' G' hist' batch id t → ∃ t', flushed T G hist batch id t' ∧ wal_entry_ t' = wal_entry_ t) →
  (∀ j, j ≠ id → hist' !! j = hist !! j) →
  logs start' T' G' ck flush batch written hist'.
Proof.
  intros L Hs Hlive Hun Hw Hw' Hacc Hfl Hh.
  assert (Hun_done : ∀ g t ts, unsent g t = Some ts → g ≠ Done) by (by intros [] ? ?).
  assert (Hwait : ∀ j t, (live T G j Waiting t ∧ done_bottom_ t = false) ↔ (live T' G' j Waiting t ∧ done_bottom_ t = false)).
  { intros j t. destruct (decide (j = id)) as [->|?]; [|by rewrite Hlive].
    split; intros [Hl ?]; [apply Hw in Hl|apply Hw' in Hl]; congruence. }
  assert (Hqid : ∀ j, j ∈ batch ++ flush → ∃ t, T !! j = Some t ∧ T' !! j = Some t).
  { intros j (t & Ht)%(queue_live L). pose proof Ht as [[_ ?] _]. apply Hwait in Ht as [[_ ?] _]. by exists t. }
  assert (Hunsent : ∀ ts, (∃ j g t, live T G j g t ∧ unsent g t = Some ts) ↔ (∃ j g t, live T' G' j g t ∧ unsent g t = Some ts)).
  { intros ts. split; intros (j & g & t & Hl & Hu).
    - destruct (decide (j = id)) as [->|?]; [exists id; apply Hun; eauto|]. exists j, g, t. split; [apply Hlive; eauto|done].
    - destruct (decide (j = id)) as [->|?]; [exists id; apply Hun; eauto|]. exists j, g, t. split; [apply Hlive; eauto|done]. }
  split.
  - apply (ck_sorted L).
  - intros ts w Hin. apply (ck_bound L) in Hin. lia.
  - intros ts Hin. by apply Hunsent, (ck_none L).
  - intros j g t ts Hl Hu. destruct (proj2 (Hunsent ts)) as (j' & g' & t' & Hl' & Hu'); [eauto|]. by apply (ck_unsent L j' g' t').
  - intros ts j (t & Hl & Hd & Hc)%(ck_some L). exists t. by destruct (proj1 (Hwait j t)).
  - intros j1 g1 t1 j2 g2 t2 ts H1 H2 U1 U2.
    assert (∀ j g t, live T' G' j g t → unsent g t = Some ts → ∃ g' t', live T G j g' t' ∧ unsent g' t' = Some ts) as Hback.
    { intros j g t Hl Hu. destruct (decide (j = id)) as [->|?]; [apply Hun; eauto|]. exists g, t. split; [apply Hlive; eauto|done]. }
    destruct (Hback _ _ _ H1 U1) as (? & ? & ? & ?), (Hback _ _ _ H2 U2) as (? & ? & ? & ?). by eapply (unsent_inj L).
  - intros j (t & Ht)%(queue_live L). exists t. by apply Hwait.
  - intros j t Hl Hd. apply (queue_all L); by destruct (proj2 (Hwait j t)).
  - eapply StronglySorted_weaken; [apply (queue_order L)|].
    intros a b Ha Hb Hab ta tb Hta Htb. destruct (Hqid a Ha) as (? & ? & ?), (Hqid b Hb) as (? & ? & ?). simplify_eq. by apply Hab.
  - intros j t ts w Hj Ht. destruct (Hqid j Hj) as (? & ? & ?). simplify_eq. by eapply (queue_ck L).
  - apply (written_sorted L).
  - intros e He%(written_bound L). lia.
  - intros e j t He Hj Ht. destruct (Hqid j) as (? & ? & ?); [apply elem_of_app; by right|]. simplify_eq. by eapply (written_flush L).
  - apply (written_ck L).
  - intros e He. destruct (written_sound L e He) as (t & Ha & Hwal). destruct (decide (WalEntry.txn_id_ e = id)) as [Hid|Hid].
    + rewrite Hid in *. destruct (Hacc t Ha) as (t' & ? & ?). exists t'. split; [done|congruence].
    + exists t. split; [|done]. destruct Ha as [(g & Hl & Hg)|[Hhist ?]]; [left; exists g; split; [|done]; apply Hlive; naive_solver|].
      right. by rewrite Hh.
  - intros j t e Hf Hwal Hc. destruct (decide (j = id)) as [->|Hid].
    + destruct (Hfl t Hf) as (t' & ? & ?). apply (written_complete L id t'); congruence.
    + apply (written_complete L j t); [|done..]. unfold flushed in *. rewrite !Hlive, Hh in Hf by done. done.
Qed.

Lemma ck_emplace_last ts w ck : (∀ k v, (k, v) ∈ ck → k < ts) → ck_emplace ts w ck = ck ++ [(ts, w)].
Proof.
  induction ck as [|[k v] ck IH]; intros H; cbn [ck_emplace app]; [done|].
  assert (k < ts) by (apply (H k v); by left). rewrite (proj2 (Z.ltb_ge ts k)), (proj2 (Z.ltb_lt k ts)) by lia.
  rewrite IH; [done|]. intros k' v' ?. apply (H k' v'). by right.
Qed.

(** A writer gets its timestamp. *)
Lemma logs_stamp start T G ck flush batch written hist id g t t' :
  logs start T G ck flush batch written hist → live T G id g t → unsent g t = None → g ≠ Waiting → g ≠ Finishing → g ≠ Done →
  (∀ j gj tj, live T G j gj tj → CommitTS tj ≤ start) → hist !! id = None →
  logs (start + 1) (<[id := t']> T) (<[id := StampedW (start + 1)]> G) (ck_emplace (start + 1) None ck) flush batch written hist.
Proof.
  intros L [HG HT] Hun Hg1 Hg2 Hg3 Hct Hh. rewrite ck_emplace_last by (intros k v Hk; apply (ck_bound L) in Hk; lia).
  assert (Hwait : ∀ j tj, live (<[id := t']> T) (<[id := StampedW (start + 1)]> G) j Waiting tj ↔ live T G j Waiting tj).
  { intros j tj. rewrite live_update. split; [naive_solver|]. intros Hl. right. split; [|done]. intros ->. destruct Hl. congruence. }
  assert (Hq : ∀ j, j ∈ batch ++ flush → j ≠ id ∧ ∃ tj, T !! j = Some tj ∧ CommitTS tj ≤ start).
  { intros j (tj & Hl & _)%(queue_live L). pose proof Hl as [? ?]. split; [intros ->; congruence|]. exists tj. split; [done|by eapply Hct]. }
  split.
  - apply StronglySorted_app; split_and!; [|apply (ck_sorted L)|repeat constructor]. intros [k v] x Hk ->%list_elem_of_singleton. simpl.
    apply (ck_bound L) in Hk. lia.
  - intros k v [Hk|[= -> ->]%list_elem_of_singleton]%elem_of_app; [apply (ck_bound L) in Hk; lia|lia].
  - intros ts [Hk|[= ->]%list_elem_of_singleton]%elem_of_app.
    + destruct (ck_none L ts Hk) as (j & gj & tj & Hl & Hu). exists j, gj, tj. split; [|done]. apply live_update. right. split; [|done].
      intros ->. destruct (live_fun _ _ _ _ _ _ _ (conj HG HT) Hl) as [-> ->]. congruence.
    + exists id, (StampedW (start + 1)), t'. split; [apply live_update; by left|done].
  - intros j gj tj ts [(-> & -> & ->)|[? Hl]]%live_update Hu; apply elem_of_app.
    + injection Hu as <-. right. by apply list_elem_of_singleton.
    + left. by eapply (ck_unsent L).
  - intros ts j [(tj & Hl & ?)%(ck_some L)|[=]%list_elem_of_singleton]%elem_of_app. exists tj. split; [by apply Hwait|done].
  - assert (Hold : ∀ j gj tj ts, live T G j gj tj → unsent gj tj = Some ts → ts ≤ start).
    { intros j gj tj ts Hl Hu. eapply (ck_bound L). by eapply (ck_unsent L). }
    intros j1 g1 t1 j2 g2 t2 ts [(-> & -> & ->)|[? H1]]%live_update [(-> & -> & ->)|[? H2]]%live_update U1 U2; [done|..].
    + injection U1 as <-. pose proof (Hold _ _ _ _ H2 U2). lia.
    + injection U2 as <-. pose proof (Hold _ _ _ _ H1 U1). lia.
    + by eapply (unsent_inj L).
  - intros j (tj & Hl & ?)%(queue_live L). exists tj. split; [by apply Hwait|done].
  - intros j tj Hl%Hwait Hd. destruct (queue_all L _ _ Hl Hd) as [?|?]; [by left|right; apply elem_of_app; by left].
  - eapply StronglySorted_weaken; [apply (queue_order L)|]. intros a b [Ha _]%Hq [Hb _]%Hq Hab ta tb Hta Htb.
    rewrite lookup_insert_ne in Hta, Htb by done. by apply Hab.
  - intros j tj ts w Hj Htj Hk. destruct (Hq j Hj) as (? & t0 & ? & ?). rewrite lookup_insert_ne in Htj by done. simplify_eq.
    apply elem_of_app in Hk as [Hk|[= -> ->]%list_elem_of_singleton]; [by eapply (queue_ck L)|lia].
  - apply (written_sorted L).
  - intros e He%(written_bound L). lia.
  - intros e j tj He Hj Htj. destruct (Hq j) as (? & t0 & ? & ?); [apply elem_of_app; by right|]. rewrite lookup_insert_ne in Htj by done.
    by eapply (written_flush L).
  - intros e ts w He [Hk|[= -> ->]%list_elem_of_singleton]%elem_of_app; [by eapply (written_ck L)|]. apply (written_bound L) in He. lia.
  - intros e (t0 & Ha & ?)%(written_sound L). exists t0. split; [|done]. destruct Ha as [(g0 & Hl & Hg0)|?]; [left|by right].
    exists g0. split; [|done]. apply live_update. right. split; [|done]. intros Hid. rewrite Hid in Hl.
    destruct (live_fun _ _ _ _ _ _ _ (conj HG HT) Hl) as [-> _]. by destruct Hg0.
  - intros j tj e Hf. apply (written_complete L j tj). unfold flushed in *. rewrite Hwait in Hf. rewrite live_update in Hf.
    destruct Hf as [?|[[(_ & [=] & _)|[_ ?]]|?]]; [by left|right; by left|right; by right].
Qed.

Lemma ck_assign_spec ts w ck :
  StronglySorted (λ a b, a.1 < b.1) ck → (ts, None) ∈ ck →
  ∃ ck', ck_assign ts w ck = Ok ck' ∧ StronglySorted (λ a b, a.1 < b.1) ck' ∧ ∀ e, e ∈ ck' ↔ (e ∈ ck ∧ e.1 ≠ ts) ∨ e = (ts, w).
Proof.
  induction 1 as [|[k v] ck Hs IH Hall]; intros Hin; [by apply not_elem_of_nil in Hin|]. rewrite Forall_forall in Hall. cbn [ck_assign].
  destruct (Z.eqb_spec k ts) as [-> |Hne].
  - exists ((ts, w) :: ck). split; [done|]. split; [constructor; [done|by rewrite Forall_forall]|].
    intros e. rewrite !elem_of_cons. split.
    + intros [-> |He]; [by right|]. left. split; [by right|]. apply Hall in He. simpl in He. lia.
    + intros [[[-> |?] ?]| ->]; [done|by right|by left].
  - apply elem_of_cons in Hin as [[= ? _]|Hin]; [congruence|]. destruct (IH Hin) as (ck' & -> & Hs' & Hel). eexists. split; [done|].
    split.
    + constructor; [done|]. rewrite Forall_forall. intros e [[He _]| ->]%Hel; [by apply Hall|]. by apply Hall in Hin.
    + intros e. rewrite !elem_of_cons, Hel. split; [|naive_solver]. intros [-> |[[? ?]| ->]]; [left; simpl; auto|left; auto|by right].
Qed.

Lemma ck_erase_spec ts ck :
  StronglySorted (λ a b, a.1 < b.1) ck → StronglySorted (λ a b, a.1 < b.1) (ck_erase ts ck) ∧ ∀ e, e ∈ ck_erase ts ck ↔ e ∈ ck ∧ e.1 ≠ ts.
Proof.
  intros Hs. split; [|intros e; unfold ck_erase; rewrite list_elem_of_filter; tauto]. unfold ck_erase.
  induction Hs as [|e ck Hs IH Hall]; [constructor|]. rewrite filter_cons. case_decide; [|done].
  constructor; [done|]. by apply Forall_filter_of.
Qed.

Lemma live_goto T G id t g j g' t' :
  T !! id = Some t → live T (<[id := g]> G) j g' t' ↔ (j = id ∧ g' = g ∧ t' = t) ∨ (j ≠ id ∧ live T G j g' t').
Proof. intros HT. rewrite <- live_update. by rewrite (insert_id T id t HT). Qed.

(** A checked writer hands in its entry, or takes back its place when it failed. *)
Lemma logs_sent start T G ck ck' flush batch written hist id t g' :
  logs start T G ck flush batch written hist → live T G id Sending t → hist !! id = None → done_bottom_ t = false →
  g' = Waiting ∨ g' = Failed → StronglySorted (λ a b, a.1 < b.1) ck' →
  (∀ e, e ∈ ck' ↔ (e ∈ ck ∧ e.1 ≠ CommitTS t) ∨ (g' = Waiting ∧ e = (CommitTS t, Some id))) →
  logs start T (<[id := g']> G) ck' flush batch written hist.
Proof.
  intros L Hl Hh Hd Hg' Hs Hck. pose proof Hl as [HG HT].
  pose proof (ck_unsent L id Sending t _ Hl eq_refl) as Hct.
  assert (Hwait : ∀ j tj, live T (<[id := g']> G) j Waiting tj ↔ (j = id ∧ g' = Waiting ∧ tj = t) ∨ live T G j Waiting tj).
  { intros j tj. rewrite (live_goto T G id t) by done. split; [naive_solver|]. intros [?|Hw]; [naive_solver|]. right. split; [|done].
    intros ->. destruct (live_fun _ _ _ _ _ _ _ Hl Hw). done. }
  assert (Hsub : ∀ ts w, (ts, w) ∈ ck' → ∃ w', (ts, w') ∈ ck).
  { intros ts w [[? _]|[_ [= -> ->]]]%Hck; eauto. }
  assert (Hstage : ∀ g t0, g = Waiting ∨ g = Finishing → ¬ live T G id g t0).
  { intros g t0 Hg Hlg. destruct (live_fun _ _ _ _ _ _ _ Hl Hlg) as [-> _]. by destruct Hg. }
  split.
  - done.
  - intros ts w [w' Hin]%Hsub. by eapply (ck_bound L).
  - intros ts [[Hin Hne]|[_ [=]]]%Hck. destruct (ck_none L ts Hin) as (j & gj & tj & Hlj & Hu). exists j, gj, tj. split; [|done].
    apply (live_goto T G id t); [done|]. right. split; [|done]. intros ->. destruct (live_fun _ _ _ _ _ _ _ Hl Hlj) as [-> ->].
    injection Hu as <-. done.
  - intros j gj tj ts Hlj Hu. apply (live_goto T G id t) in Hlj as [(-> & -> & ->)|[Hne Hlj]]; [by destruct Hg' as [-> | ->]| |done].
    apply Hck. left. split; [by eapply (ck_unsent L)|]. simpl. intros ->. apply Hne. by eapply (unsent_inj L j gj tj id Sending t).
  - intros ts j [[Hin Hne]|[-> [= -> ->]]]%Hck.
    + destruct (ck_some L ts j Hin) as (tj & ? & ?). exists tj. split; [apply Hwait; by right|done].
    + exists t. split; [apply Hwait; by left|done].
  - intros j1 g1 t1 j2 g2 t2 ts H1 H2 U1 U2.
    apply (live_goto T G id t) in H1 as [(-> & -> & ->)|[? H1]]; [by destruct Hg' as [-> | ->]| |done].
    apply (live_goto T G id t) in H2 as [(-> & -> & ->)|[? H2]]; [by destruct Hg' as [-> | ->]| |done]. by eapply (unsent_inj L).
  - intros j (tj & ? & ?)%(queue_live L). exists tj. split; [apply Hwait; by right|done].
  - intros j tj [(-> & -> & ->)|Hlj]%Hwait Hdj; [right; apply Hck; by right|].
    destruct (queue_all L _ _ Hlj Hdj) as [?|Hin]; [by left|right]. apply Hck. left. split; [done|]. simpl. intros Heq. rewrite Heq in Hin.
    by pose proof (key_unique _ _ _ _ (ck_sorted L) Hin Hct).
  - apply (queue_order L).
  - intros j tj ts w Hj Htj [w' Hin]%Hsub. by eapply (queue_ck L).
  - apply (written_sorted L).
  - apply (written_bound L).
  - apply (written_flush L).
  - intros e ts w He [w' Hin]%Hsub. by eapply (written_ck L).
  - intros e (t0 & Ha & ?)%(written_sound L). exists t0. split; [|done]. destruct Ha as [(g0 & Hl0 & Hg0)|?]; [left|by right].
    exists g0. split; [|done]. apply (live_goto T G id t); [done|]. right. split; [|done]. intros Hid. rewrite Hid in Hl0. by eapply Hstage.
  - intros j tj e Hf. destruct (decide (j = id)) as [->|Hne].
    + exfalso. destruct Hf as [[Hlw Hb]|[Hlf|[Hhist _]]]; [| |congruence].
      * apply Hwait in Hlw as [(_ & _ & ->)|Hlw]; [|by eapply (Hstage Waiting); [left|]]. destruct Hb as [Hb|?]; [|congruence].
        destruct (queue_live L id) as (t0 & Hl0 & _); [apply elem_of_app; by left|]. by eapply (Hstage Waiting); [left|].
      * apply (live_goto T G id t) in Hlf as [(_ & Hgf & _)|[? _]]; [|done|done]. by destruct Hg' as [-> | ->].
    + apply (written_complete L j tj). unfold flushed in *. rewrite !(live_goto T G id t) in Hf by done.
      destruct Hf as [[[(? & _)|[_ ?]] ?]|[[(? & _)|[_ ?]]|?]]; [done|by left|done|right; by left|right; by right].
Qed.

Lemma logs_deliver start T G ts w ck flush batch written hist :
  logs start T G ((ts, Some w) :: ck) flush batch written hist → logs start T G ck (flush ++ [w]) batch written hist.
Proof.
  intros L. destruct (ck_some L ts w ltac:(by left)) as (t & Hl & Hd & Hct). pose proof Hl as [_ HT].
  pose proof (ck_sorted L) as Hs. apply StronglySorted_inv in Hs as [Hs Hall]. rewrite Forall_forall in Hall.
  assert (Hq : ∀ j, j ∈ batch ++ flush ++ [w] ↔ j ∈ batch ++ flush ∨ j = w).
  { intros j. rewrite app_assoc, elem_of_app, list_elem_of_singleton. done. }
  split.
  - done.
  - intros ts' w' Hin. apply (ck_bound L ts' w'). by right.
  - intros ts' Hin. apply (ck_none L). by right.
  - intros j gj tj ts' Hlj Hu. by pose proof (ck_unsent L _ _ _ _ Hlj Hu) as [[=]|?]%elem_of_cons.
  - intros ts' j Hin. apply (ck_some L). by right.
  - apply (unsent_inj L).
  - intros j [?| ->]%Hq; [by apply (queue_live L)|by exists t].
  - intros j tj Hlj Hdj. rewrite Hq. destruct (queue_all L _ _ Hlj Hdj) as [?|[[= _ ->]|?]%elem_of_cons]; [by left; left|left; by right|by right].
  - rewrite app_assoc. apply StronglySorted_app. split_and!; [|apply (queue_order L)|repeat constructor].
    intros a b Ha ->%list_elem_of_singleton ta tb Hta Htb. simplify_eq. eapply (queue_ck L); [done..|by left].
  - intros j tj ts' w' [Hj| ->]%Hq Htj Hin; [eapply (queue_ck L); [done..|by right]|]. simplify_eq. by apply (Hall (ts', w')).
  - apply (written_sorted L).
  - apply (written_bound L).
  - intros e j tj He [Hj|Hj%list_elem_of_singleton]%elem_of_app Htj; [by eapply (written_flush L)|]. simplify_eq. eapply (written_ck L); [done|by left].
  - intros e ts' w' He Hin. apply (written_ck L e ts' w'); [done|by right].
  - apply (written_sound L).
  - apply (written_complete L).
Qed.

Lemma logs_ready start T G ck flush batch written hist :
  logs start T G ck flush batch written hist →
  let '(ws, rest) := ready ck in logs start T G rest (flush ++ ws) batch written hist ∧ head_unsent rest.
Proof.
  revert flush. induction ck as [|[ts [w|]] ck IH]; intros flush L; cbn [ready]; [by rewrite app_nil_r| |by rewrite app_nil_r].
  apply logs_deliver, IH in L. destruct (ready ck) as [ws rest]. by rewrite <- app_assoc in L.
Qed.

(** The flush thread writes the entry of the first transaction of the queue. *)
Lemma logs_flush_one start T G ck id flush batch written hist t e :
  logs start T G ck (id :: flush) batch written hist → live T G id Waiting t → CommitTS t ≤ start →
  wal_entry_ t = Some e → WalEntry.commit_ts_ e = CommitTS t → WalEntry.txn_id_ e = id → hist !! id = None →
  logs start T G ck flush (batch ++ [id]) (match cmds_ e with [] => written | _ => written ++ [e] end) hist.
Proof.
  intros L Hl Hct Hwal Hec Heid Hh. pose proof Hl as [HG HT]. set (written' := match cmds_ e with [] => _ | _ => _ end).
  assert (Hw' : ∀ x, x ∈ written' ↔ x ∈ written ∨ (x = e ∧ cmds_ e ≠ [])).
  { intros x. unfold written'. destruct (cmds_ e); [naive_solver|]. rewrite elem_of_app, list_elem_of_singleton. naive_solver. }
  assert (Hq : (batch ++ [id]) ++ flush = batch ++ id :: flush) by (by rewrite <- app_assoc).
  assert (Hafter : ∀ j tj, j ∈ flush → T !! j = Some tj → CommitTS t < CommitTS tj).
  { intros j tj Hj Htj. pose proof (queue_order L) as Hs. apply StronglySorted_app in Hs as (_ & _ & Hs).
    apply StronglySorted_inv in Hs as [_ Hall]. rewrite Forall_forall in Hall. by apply (Hall j Hj t tj). }
  split; rewrite ?Hq; try apply L.
  - unfold written'. destruct (cmds_ e); [apply L|]. apply StronglySorted_app. split_and!; [|apply L|repeat constructor].
    intros a b Ha ->%list_elem_of_singleton. rewrite Hec. eapply (written_flush L); [done|by left|done].
  - intros x [Hx|[-> _]]%Hw'; [by apply (written_bound L)|lia].
  - intros x j tj [Hx|[-> _]]%Hw' Hj Htj; [eapply (written_flush L); [done|by right|done]|]. rewrite Hec. by eapply Hafter.
  - intros x ts w [Hx|[-> _]]%Hw' Hin; [by eapply (written_ck L)|]. rewrite Hec. eapply (queue_ck L id t); [|done..].
    apply elem_of_app. right. by left.
  - intros x [Hx|[-> _]]%Hw'; [by apply (written_sound L)|]. exists t. split; [|done]. rewrite Heid. left. exists Waiting. auto.
  - intros j tj x Hf Hxw Hc. apply Hw'. destruct (decide (j = id)) as [->|Hne].
    + right. destruct Hf as [[Hlj _]|[Hlj|[? _]]]; [| |congruence]; destruct (live_fun _ _ _ _ _ _ _ Hl Hlj) as [? ->]; [|done].
      assert (x = e) as -> by congruence. done.
    + left. apply (written_complete L j tj); [|done..]. destruct Hf as [[Hlj Hb]|[Hlj|?]]; [left|right; by left|right; by right].
      split; [done|]. destruct Hb as [[?|?%list_elem_of_singleton]%elem_of_app|?]; [by left|done|by right].
Qed.

Lemma flush_ok m G hist : ∀ flush batch written,
  core_m m G hist → logs (start_ts_ m) (txn_map_ m) G (wait_conflict_ck_ m) flush batch written hist →
  ∃ written', res_fold (flush_entry m) written flush = Ok written' ∧
    logs (start_ts_ m) (txn_map_ m) G (wait_conflict_ck_ m) [] (batch ++ flush) written' hist.
Proof.
  induction flush as [|id flush IH]; intros batch written C L; cbn [res_fold]; [exists written; by rewrite app_nil_r|].
  destruct (queue_live L id) as (t & Hl & Hd); [apply elem_of_app; right; by left|].
  pose proof (core_ok C _ _ _ Hl) as (_ & Hct & _ & (e & Hwal & Hec & Heid) & _).
  unfold flush_entry at 1, deref. rewrite (proj2 Hl). cbn [res_bind]. rewrite Hwal. cbn [res_bind].
  apply logs_flush_one with (t := t) (e := e) in L; try done.
  - apply IH in L as (written' & -> & L); [|done]. exists written'. split; [done|]. by rewrite <- app_assoc in L.
  - apply eq_None_not_Some. intros ?%(core_hist C). destruct Hl. congruence.
Qed.

(** The flush thread installs the first transaction of its batch. *)
Lemma logs_bottom start T G ck flush id batch written hist t t' :
  logs start T G ck flush (id :: batch) written hist → live T G id Waiting t → hist !! id = None →
  CommitTS t' = CommitTS t → wal_entry_ t' = wal_entry_ t → done_bottom_ t' = true →
  logs start (<[id := t']> T) G ck flush batch written hist.
Proof.
  intros L Hl Hh Hct Hwal Hd'. pose proof Hl as [HG HT].
  assert (Hlive : ∀ j gj tj, live (<[id := t']> T) G j gj tj ↔ (j = id ∧ gj = Waiting ∧ tj = t') ∨ (j ≠ id ∧ live T G j gj tj)).
  { intros j gj tj. rewrite <- live_update. by rewrite (insert_id G id Waiting HG). }
  pose proof (queue_order L) as Hs. simpl in Hs. apply StronglySorted_inv in Hs as [Hs Hall]. rewrite Forall_forall in Hall.
  destruct (queue_live L id ltac:(by left)) as (t0 & Hl0 & Hd). destruct (live_fun _ _ _ _ _ _ _ Hl Hl0) as [_ ->].
  assert (Hnew : id ∉ batch ++ flush). { intros Hin. specialize (Hall id Hin t t HT HT). lia. }
  assert (Hout : ∀ j tj, j ∈ batch ++ flush → (<[id := t']> T) !! j = Some tj → T !! j = Some tj).
  { intros j tj Hj. rewrite lookup_insert_ne; [done|]. intros <-. done. }
  split.
  - apply L.
  - apply (ck_bound L).
  - intros ts (j & gj & tj & Hlj & Hu)%(ck_none L). exists j, gj, tj. split; [|done]. apply Hlive. right. split; [|done].
    intros ->. destruct (live_fun _ _ _ _ _ _ _ Hl Hlj) as [-> _]. done.
  - intros j gj tj ts [(-> & -> & ->)|[? Hlj]]%Hlive Hu; [done|by eapply (ck_unsent L)].
  - intros ts j Hin. destruct (ck_some L ts j Hin) as (tj & Hlj & Hdj & Hctj). exists tj. split; [|done]. apply Hlive. right. split; [|done].
    intros ->. pose proof (queue_ck L id t ts (Some id) ltac:(by left) HT Hin) as Hlt. destruct (live_fun _ _ _ _ _ _ _ Hl Hlj) as [_ ->]. lia.
  - intros j1 g1 t1 j2 g2 t2 ts [(-> & -> & ->)|[? H1]]%Hlive [(-> & -> & ->)|[? H2]]%Hlive U1 U2; try done. by eapply (unsent_inj L).
  - intros j Hj. destruct (queue_live L j) as (tj & Hlj & ?); [by right|]. exists tj. split; [|done]. apply Hlive. right. split; [|done].
    intros ->. done.
  - intros j tj [(-> & _ & ->)|[Hne Hlj]]%Hlive Hdj; [congruence|]. destruct (queue_all L _ _ Hlj Hdj) as [[?|?]%elem_of_cons|?]; [done|by left|by right].
  - eapply StronglySorted_weaken; [done|]. intros a b Ha Hb Hab ta tb Hta Htb. apply Hab; by apply Hout.
  - intros j tj ts w Hj Htj. eapply (queue_ck L); [by right|by apply Hout].
  - apply L.
  - apply (written_bound L).
  - intros e j tj He Hj Htj. eapply (written_flush L); [done..|]. apply Hout; [apply elem_of_app; by right|done].
  - apply (written_ck L).
  - intros e (t0 & Ha & ?)%(written_sound L). destruct Ha as [(g0 & Hl0' & Hg0)|?]; [|by exists t0; split; [right|]].
    destruct (decide (WalEntry.txn_id_ e = id)) as [Hid|Hid].
    + exists t'. rewrite Hid in *. destruct (live_fun _ _ _ _ _ _ _ Hl Hl0') as [-> ->]. split; [|congruence]. left. exists Waiting.
      split; [apply Hlive; by left|by left].
    + exists t0. split; [|done]. left. exists g0. split; [apply Hlive; by right|done].
  - intros j tj e Hf Hxw Hc. destruct (decide (j = id)) as [->|Hne].
    + apply (written_complete L id t); [|destruct Hf as [[Hlj _]|[Hlj|[? _]]]; [| |congruence];
        apply Hlive in Hlj as [(_ & ? & ->)|[? _]]; congruence|done]. left. split; [done|left; by left].
    + apply (written_complete L j tj); [|done..]. destruct Hf as [[[(? & _)|[_ Hlj]]%Hlive Hb]|[[(? & _)|[_ Hlj]]%Hlive|?]]; try done.
      * left. split; [done|]. destruct Hb; [left; by right|by right].
      * right. by left.
      * right. by right.
Qed.

(** ** Steps *)

Lemma step_local start start' next T G begun finishing fin hist ck flush batch written id g t g' t' :
  core start next T G begun finishing fin hist → logs start T G ck flush batch written hist →
  live T G id g t → start ≤ start' → stage_ok start' g' id t' → BeginTS t' = BeginTS t → GetTxnType t' = GetTxnType t ∨ g = Running ∧ GetTxnType t' = TxnType.kRead →
  (final (Txn_State t) = true → final (Txn_State t') = true) →
  (∀ l c, g' = Checking l → c ∈ l →
     ∃ gc tc, live T G c gc tc ∧ GetTxnType tc = TxnType.kWrite ∧ (gc = Done → ∃ ts, (ts, c) ∈ fin ∧ BeginTS t < ts)) →
  unsent g' t' = unsent g t → (g = Waiting → done_bottom_ t = true ∧ wal_entry_ t' = wal_entry_ t ∧ g' = Finishing) →
  g' ≠ Waiting → (g' = Finishing → g = Waiting) → g ≠ Finishing → g ≠ Done → g' ≠ Done →
  core start' next (<[id := t']> T) (<[id := g']> G) begun finishing fin hist ∧
  logs start' (<[id := t']> T) (<[id := g']> G) ck flush batch written hist.
Proof.
  intros C L Hl Hs Hok Hb Htype Hfin Hcand Hun Hw Hg'w Hg'f Hgf Hg Hg'.
  pose proof (core_ok C _ _ _ Hl) as Hok0. split.
  - assert (Hfi : finishing = match GetTxnType t' with TxnType.kWrite => {[id]} ∪ finishing | _ => finishing end).
    { destruct (GetTxnType t') eqn:Ht'; try done. destruct Htype as [Htype|[_ ?]]; [|done].
      assert (id ∈ finishing). { apply (core_finishing C). exists t. split; [apply Hl|done]. }
      symmetry. apply leibniz_equiv, subseteq_union. intros x ->%elem_of_singleton. done. }
    rewrite Hfi. eapply core_update; try done. intros Hwt. destruct Htype as [?|[-> _]]; [congruence|].
    destruct Hok0 as (_ & _ & _ & ? & _). congruence.
  - assert (Hh : hist !! id = None). { apply eq_None_not_Some. intros ?%(core_hist C). destruct Hl. congruence. }
    apply (logs_frame start start' T _ G _ ck flush batch written hist hist id); try done.
    + intros j gj tj Hj _. rewrite live_update. naive_solver.
    + intros ts. split; intros (g0 & t0 & Hl0 & Hu).
      * destruct (live_fun _ _ _ _ _ _ _ Hl Hl0) as [-> ->]. exists g', t'. split; [apply live_update; by left|congruence].
      * apply live_update in Hl0 as [(_ & -> & ->)|[? _]]; [|done]. exists g, t. split; [done|congruence].
    + intros t0 Hl0. destruct (live_fun _ _ _ _ _ _ _ Hl Hl0) as [Hgw ->]. by apply Hw.
    + intros t0 [(_ & ? & _)|[? _]]%live_update; congruence.
    + intros t0 [(g0 & Hl0 & Hg0)|[? _]]; [|congruence]. destruct (live_fun _ _ _ _ _ _ _ Hl Hl0) as [-> ->]. destruct Hg0 as [-> |?]; [|done].
      destruct (Hw eq_refl) as (_ & ? & ->). exists t'. split; [|done]. left. exists Finishing. split; [apply live_update; by left|by right].
    + intros t0 [[[(_ & ? & _)|[? _]]%live_update _]|[[(_ & Hgf' & ->)|[? _]]%live_update|[? _]]]; try done; [|congruence].
      symmetry in Hgf'. pose proof (Hg'f Hgf') as ->. destruct (Hw eq_refl) as (? & ? & _). exists t. split; [|congruence]. left. split; [done|by right].
Qed.

Definition inv s : Prop :=
  core_m (mgr s) (stages s) (history_ s) ∧ logs_m (mgr s) (stages s) (log_batch_ s) (written_ s) (history_ s) ∧
  is_running_ (mgr s) = true ∧ wal_running_ (mgr s) = true.

Lemma initial_inv start_txn_id start_ts enable_compaction cat :
  0 ≤ start_txn_id → 0 ≤ start_ts → inv (initial start_txn_id start_ts enable_compaction cat).
Proof.
  intros Hid Hts. unfold inv, core_m, logs_m, initial, Start, TxnManager_new. sys.
  assert (Hno : ∀ id g t, ¬ live (∅ : gmap Z Txn) (∅ : gmap Z stage) id g t) by (intros id g t [H _]; by rewrite lookup_empty in H).
  split; [|split; [|done]].
  - assert (Hnil : ∀ A (x : A), ¬ x ∈ []) by (intros; apply not_elem_of_nil).
    split; try (intros; match goal with H : live _ _ _ _ _ |- _ => by destruct (Hno _ _ _ H) end); try done.
    + split; constructor.
    + intros id. split; [set_solver|]. intros (t & H & _). by rewrite lookup_empty in H.
    + split; constructor.
    + intros ts id H. by apply Hnil in H.
    + intros id. rewrite !lookup_empty. split; [by intros []|done].
  - split; [|done]. split; try (intros; match goal with H : live _ _ _ _ _ |- _ => by destruct (Hno _ _ _ H) end); try apply SSorted_nil; try (intros ? H; by apply not_elem_of_nil in H);
      try (intros ? ? H; by apply not_elem_of_nil in H); try (intros ? ? ? H; by apply not_elem_of_nil in H).
    + intros ? ? ? ? H. by apply not_elem_of_nil in H.
    + intros id t e [[Hl _]|[Hl|[H _]]]; [by destruct (Hno _ _ _ Hl)..|by rewrite lookup_empty in H].
Qed.

(** [s'] is [s] with one transaction moved on. *)
Definition moved s s' (id : Z) (g' : stage) t' : Prop :=
  txn_map_ (mgr s') = <[id := t']> (txn_map_ (mgr s)) ∧ stages s' = <[id := g']> (stages s) ∧
  next_txn_id_ (mgr s') = next_txn_id_ (mgr s) ∧ beginned_txns_ (mgr s') = beginned_txns_ (mgr s) ∧
  finishing_txns_ (mgr s') = finishing_txns_ (mgr s) ∧ finished_txns_ (mgr s') = finished_txns_ (mgr s) ∧ history_ s' = history_ s ∧
  wait_conflict_ck_ (mgr s') = wait_conflict_ck_ (mgr s) ∧ wait_flush_ (mgr s') = wait_flush_ (mgr s) ∧ log_batch_ s' = log_batch_ s ∧
  written_ s' = written_ s ∧ is_running_ (mgr s') = is_running_ (mgr s) ∧ wal_running_ (mgr s') = wal_running_ (mgr s).

Lemma inv_local s s' id g t g' t' :
  inv s → live (txn_map_ (mgr s)) (stages s) id g t → moved s s' id g' t' → start_ts_ (mgr s) ≤ start_ts_ (mgr s') →
  stage_ok (start_ts_ (mgr s')) g' id t' → BeginTS t' = BeginTS t →
  GetTxnType t' = GetTxnType t ∨ g = Running ∧ GetTxnType t' = TxnType.kRead →
  (final (Txn_State t) = true → final (Txn_State t') = true) →
  (∀ l c, g' = Checking l → c ∈ l →
     ∃ gc tc, live (txn_map_ (mgr s)) (stages s) c gc tc ∧ GetTxnType tc = TxnType.kWrite ∧
       (gc = Done → ∃ ts, (ts, c) ∈ finished_txns_ (mgr s) ∧ BeginTS t < ts)) →
  unsent g' t' = unsent g t → (g = Waiting → done_bottom_ t = true ∧ wal_entry_ t' = wal_entry_ t ∧ g' = Finishing) →
  g' ≠ Waiting → (g' = Finishing → g = Waiting) → g ≠ Finishing → g ≠ Done → g' ≠ Done → inv s'.
Proof.
  intros (C & [L Hhead] & Hr) Hl (HT & HG & Hn & Hb & Hf & Hfd & Hh & Hck & Hfl & Hba & Hwr & Hr1 & Hr2) Hs Hok Hbt Hty Hfi Hca Hu Hw H1 H2 H3 H4 H5.
  destruct (step_local _ (start_ts_ (mgr s')) _ _ _ _ _ _ _ _ _ _ _ id g t g' t' C L) as [C' L']; try done.
  unfold inv, core_m, logs_m. rewrite HT, HG, Hn, Hb, Hf, Hfd, Hh, Hck, Hfl, Hba, Hwr, Hr1, Hr2. done.
Qed.

Ltac moved := unfold moved; sys; by split_and!.
Ltac local := try done; try (by left); try (by right); try moved; try (sys; lia).
Ltac solve_fresh := unfold fresh, max_clock in *; change (2 ^ 64) with 18446744073709551616 in *; lia.

Lemma begin_inv s r : inv s → fresh s → exec s Begin = Some r → ∃ s', r = Ok s' ∧ inv s'.
Proof.
  intros (C & [L Hhead] & Hr & Hr2) (Hts & Hid & _) [= <-]. pose proof (core_clock C) as [H0 H1].
  unfold BeginTxn. rewrite Hr. cbn [negb]. rewrite tick_ok by lia. cbn [res_bind].
  assert (cast u64 (next_txn_id_ (mgr s) + 1) = next_txn_id_ (mgr s) + 1) as ->.
  { apply cast_id. unfold max_clock in Hid. change (2 ^ 64) with 18446744073709551616 in Hid. solve_range. }
  eexists. split; [done|]. set (m := mgr s) in *. set (id := next_txn_id_ m + 1).
  assert (HG : stages s !! id = None). { destruct (stages s !! id) eqn:E; [|done]. apply (core_ids C) in E. unfold id in E. lia. }
  assert (Hno : ∀ g t, ¬ live (txn_map_ m) (stages s) id g t) by (intros g t [? _]; congruence).
  assert (Hnew : stage_ok (start_ts_ m + 1) Running id (Txn_new (B := B) (start_ts_ m + 1))).
  { split; [txn; lia|]. split; [txn; lia|]. split_and!; try done. by exists new_CatalogDeltaEntry. }
  unfold inv, core_m, logs_m. sys. split; [by apply (core_begin (start_ts_ m) (next_txn_id_ m))|]. split; [|done]. split; [|done].
  apply (logs_frame (start_ts_ m) _ (txn_map_ m) _ (stages s) _ _ _ _ _ (history_ s) _ id); try done.
  - lia.
  - intros j gj tj Hj _. rewrite live_update. naive_solver.
  - intros ts. split; intros (g0 & t0 & Hl0 & Hu); [by destruct (Hno _ _ Hl0)|]. apply live_update in Hl0 as [(_ & -> & ->)|[? _]]; done.
  - intros t0 Hl0. by destruct (Hno _ _ Hl0).
  - intros t0 [(_ & [=] & _)|[? _]]%live_update. done.
  - intros t0 [(g0 & Hl0 & _)|Hh]; [by destruct (Hno _ _ Hl0)|]. exists t0. split; [by right|done].
  - intros t0 [[[(_ & [=] & _)|[? _]]%live_update _]|[[(_ & [=] & _)|[? _]]%live_update|Hh]]; try done. exists t0. split; [|done]. right. by right.
Qed.

Lemma client_inv s e r :
  match e with Write _ _ _ _ | Abort _ => True | _ => False end →
  inv s → fresh s → exec s e = Some r → ∃ s', r = Ok s' ∧ inv s'.
Proof.
  intros He I (Hts & _). pose proof I as (C & _). pose proof (core_clock C) as [H0 _].
  assert (Hrun : ∀ id, stages s !! id = Some Running → ∃ t, live (txn_map_ (mgr s)) (stages s) id Running t ∧ stage_ok (start_ts_ (mgr s)) Running id t).
  { intros id HG. destruct (core_alive C _ _ HG) as [t HT]; [done|]. exists t. split; [done|]. by apply (core_ok C). }
  destruct e as [|id cmds store cat|id|id|id| | |ts0]; try done; cbn [exec]; destruct (stages s !! id) as [[]|] eqn:HG; try done; intros [= <-];
    destruct (Hrun id HG) as (t & Hl & Hb & Hct & Hst & Hty & [e He'] & Hd & Hdone); unfold deref; rewrite (proj2 Hl); cbn [res_bind].
  - rewrite He'. eexists. split; [done|]. eapply (inv_local s _ id Running t Running); local.
  - rewrite Hst. unfold GetCommitTimeStampR. rewrite tick_ok by lia. unfold deref. sys. rewrite (proj2 Hl). cbn [res_bind].
    eexists. split; [done|]. eapply (inv_local s _ id Running t (StampedAbort (start_ts_ (mgr s) + 1))); local.
    split; [sys; txn; lia|]. split; [sys; txn; lia|]. split_and!; by txn.
Qed.

Lemma not_in_history s id g t : inv s → live (txn_map_ (mgr s)) (stages s) id g t → g ≠ Done → history_ s !! id = None.
Proof. intros (C & _) [? _] ?. apply eq_None_not_Some. intros ?%(core_hist C). congruence. Qed.

Lemma Commit_inv s id r : inv s → fresh s → exec s (Commit id) = Some r → ∃ s', r = Ok s' ∧ inv s'.
Proof.
  intros I (Hts & _). pose proof I as (C & [L Hhead] & Hr). pose proof (core_clock C) as [H0 _]. cbn [exec].
  destruct (stages s !! id) as [[]|] eqn:HG; try done. intros [= <-].
  destruct (core_alive C _ _ HG) as [t HT]; [done|]. assert (Hl : live (txn_map_ (mgr s)) (stages s) id Running t) by done.
  destruct (core_ok C _ _ _ Hl) as (Hb & Hct & Hst & Hty & [e He] & Hd & Hdone).
  unfold deref. rewrite HT. cbn [res_bind]. rewrite He. destruct (bool_decide _ && _).
  - unfold GetCommitTimeStampR. rewrite tick_ok by lia. unfold deref. sys. rewrite HT. cbn [res_bind].
    eexists. split; [done|]. eapply (inv_local s _ id Running t (StampedR (start_ts_ (mgr s) + 1))); local.
    split; [sys; txn; lia|]. split; [sys; txn; lia|]. split_and!; by txn.
  - unfold GetCommitTimeStampW. rewrite tick_ok by lia. unfold deref. sys. rewrite HT. cbn [res_bind]. eexists. split; [done|].
    set (t' := with_context t _). unfold inv, core_m, logs_m. sys.
    assert (Hok : stage_ok (start_ts_ (mgr s) + 1) (StampedW (start_ts_ (mgr s) + 1)) id t').
    { split; [unfold t'; txn; lia|]. split; [unfold t'; txn; lia|]. split_and!; unfold t'; try (by txn); txn; lia. }
    split; [|split; [split|done]].
    + change ({[id]} ∪ finishing_txns_ (mgr s)) with (match GetTxnType t' with TxnType.kWrite => {[id]} ∪ finishing_txns_ (mgr s) | _ => finishing_txns_ (mgr s) end).
      apply (core_update (start_ts_ (mgr s)) _ _ _ _ _ _ _ _ id Running t); try done; lia.
    + eapply logs_stamp; try done; [|by eapply not_in_history]. intros j gj tj Hj. apply (core_ok C _ _ _ Hj).
    + rewrite ck_emplace_last; [by destruct (wait_conflict_ck_ (mgr s)) as [|[? []] ?]|]. intros k v Hk. apply (ck_bound L) in Hk. lia.
Qed.

Lemma flush_inv s r : inv s → exec s Flush = Some r → ∃ s', r = Ok s' ∧ inv s'.
Proof.
  intros (C & [L Hhead] & Hr). cbn [exec]. destruct (log_batch_ s) eqn:Hb; [|done]. destruct (wait_flush_ (mgr s)) as [|i q] eqn:Hq; [done|].
  intros [= <-].
  destruct (flush_ok (mgr s) (stages s) (history_ s) (i :: q) [] (written_ s) C L) as (written' & Hw & L'). cbn [res_fold] in Hw. rewrite Hw.
  eexists. split; [done|]. unfold inv, core_m, logs_m. by sys.
Qed.

(** The error [err] that a step raises is one of the store of the transaction or of the catalog. *)
Definition raised s (e : event B) (err : error) : Prop :=
  match e with
  | Thread id => ∃ t, txn_map_ (mgr s) !! id = Some t ∧
      match stages s !! id with
      | Some Committing => store_PrepareCommit1 (CommitTS t) (txn_store_ t) (catalog_ s) = Err err
      | Some Failed => store_Rollback id (CommitTS t) (txn_store_ t) (catalog_ s) = Err err
      | Some (StampedAbort ts) => store_Rollback id ts (txn_store_ t) (catalog_ s) = Err err
      | Some Waiting => store_MaintainCompactionAlg (txn_store_ t) (catalog_ s) = Err err
      | _ => False
      end
  | Bottom => ∃ id t, head (log_batch_ s) = Some id ∧ txn_map_ (mgr s) !! id = Some t ∧
      (store_PrepareCommit id (CommitTS t) (txn_store_ t) (catalog_ s) = Err err ∨
       ∃ store cat, store_PrepareCommit id (CommitTS t) (txn_store_ t) (catalog_ s) = Ok (store, cat) ∧
         (store_CommitBottom id (CommitTS t) store cat = Err err ∨
          ∃ store' cat', store_CommitBottom id (CommitTS t) store cat = Ok (store', cat') ∧ store_AddDeltaOp (CommitTS t) store' cat' = Err err))
  | _ => False
  end.

Definition outcome s (e : event B) (r : result System) : Prop := (∃ s', r = Ok s' ∧ inv s') ∨ ∃ err, r = Err err ∧ raised s e err.

Lemma bottom_inv s r : inv s → fresh s → exec s Bottom = Some r → outcome s Bottom r.
Proof.
  intros I (_ & _ & Hseq). pose proof I as (C & [L Hhead] & Hr & Hr'). cbn [exec]. destruct (log_batch_ s) as [|id batch] eqn:Hb; [done|]. intros [= <-].
  destruct (queue_live L id ltac:(by left)) as (t & Hl & Hdone). pose proof Hl as [HG HT].
  pose proof (core_ok C _ _ _ Hl) as (Hbt & Hct & Hcm & Hwal & Hd). rewrite Hdone in Hd. destruct Hd as (d & Hd & Hmax & Hids & Hops).
  unfold CommitBottom, GetTxn. rewrite HT. cbn [res_bind]. 
  destruct (store_PrepareCommit _ _ _ _) as [[store1 cat1]|err] eqn:H1; cbn [res_bind]; [|right; exists err; split; [done|]; exists id, t; rewrite Hb; by auto].
  destruct (store_CommitBottom _ _ _ _) as [[store cat0]|err] eqn:H2; cbn [res_bind]; [|right; exists err; split; [done|]; exists id, t; rewrite Hb; split_and!; eauto 6].
  rewrite Hd. destruct (store_AddDeltaOp _ _ _) as [[ops cat]|err] eqn:H3; cbn [res_bind]; [left|right; exists err; split; [done|]; exists id, t; rewrite Hb; split_and!; eauto 10]. set (local := fold_left AddOperation _ d).
  assert (Hlocal : max_commit_ts_ local = UNCOMMIT_TS ∧ txn_ids_ local = []).
  { unfold local. clear -Hmax Hids. revert d Hmax Hids.
    induction ops as [|op l IH]; intros d Hmax Hids; [done|]. by apply IH. }
  assert (Hfin : ∀ m' d', txn_map_ m' = txn_map_ (mgr s) → is_running_ m' = true → wal_running_ m' = true →
     (start_ts_ m', next_txn_id_ m', beginned_txns_ m', finishing_txns_ m', finished_txns_ m', wait_conflict_ck_ m', wait_flush_ m') =
     (start_ts_ (mgr s), next_txn_id_ (mgr s), beginned_txns_ (mgr s), finishing_txns_ (mgr s), finished_txns_ (mgr s), wait_conflict_ck_ (mgr s), wait_flush_ (mgr s)) →
     inv (with_batch (with_cat (with_mgr s (put m' id (with_done (with_delta (with_store t store) (Some d'))))) cat) batch (written_ s))).
  { intros m' d' Hm Hr1 Hr2 [= E1 E2 E3 E4 E5 E6 E7]. unfold inv, core_m, logs_m. sys. rewrite Hm, E1, E2, E3, E4, E5, E6, E7. set (t' := with_done _). split_and!; try done.
    - assert (Hfi : finishing_txns_ (mgr s) = match GetTxnType t' with TxnType.kWrite => {[id]} ∪ finishing_txns_ (mgr s) | _ => finishing_txns_ (mgr s) end).
      { destruct (GetTxnType t') eqn:Ht'; try done. assert (id ∈ finishing_txns_ (mgr s)) by (apply (core_finishing C); exists t; done).
        symmetry. apply leibniz_equiv, subseteq_union. intros x ->%elem_of_singleton. done. }
      rewrite Hfi. rewrite <- (insert_id (stages s) id Waiting HG). eapply (core_update (start_ts_ (mgr s)) _ _ _ _ _ _ _ _ id Waiting t); try done.
      split; [done|]. split; [done|]. split; [done|]. split; [done|]. by exists d'.
    - eapply logs_bottom; try done. by eapply not_in_history. }
  destruct (operations_ local).
  - cbn [res_bind]. eexists. split; [done|]. by apply Hfin.
  - unfold SaveState. rewrite (proj1 Hlocal), (proj2 Hlocal). cbn [Z.eqb negb]. rewrite Z.eqb_refl. cbn [negb orb bool_decide]. rewrite bool_decide_true by done. cbn [negb res_bind].
    eexists. split; [done|]. by apply Hfin.
Qed.

Lemma send_inv s id t :
  inv s → live (txn_map_ (mgr s)) (stages s) id Sending t →
  ∃ m, SendToWAL (mgr s) id = Ok m ∧
    inv (goto (with_mgr s m) id (match wal_entry_ t with Some _ => Waiting | None => Failed end)).
Proof.
  intros I Hl. pose proof I as (C & [L Hhead] & Hr & Hr'). pose proof Hl as [HG HT].
  pose proof (core_ok C _ _ _ Hl) as (Hb & Hct & Hcm & Hwal & Hd & Hdone). pose proof (ck_unsent L id Sending t _ Hl eq_refl) as Hin.
  unfold SendToWAL, deref. rewrite Hr, HT. cbn [negb res_bind]. destruct (wait_conflict_ck_ (mgr s)) as [|[first w0] ck0] eqn:Hck; [by apply not_elem_of_nil in Hin|].
  assert (Hfirst : first ≤ CommitTS t).
  { pose proof (ck_sorted L) as Hs. apply StronglySorted_inv in Hs as [_ Hall]. rewrite Forall_forall in Hall.
    apply elem_of_cons in Hin as [[= <- _]|Hin]; [lia|]. apply Hall in Hin. simpl in Hin. lia. }
  rewrite (proj2 (Z.ltb_ge _ _) Hfirst). rewrite <- Hck in *.
  set (g' := match wal_entry_ t with Some _ => Waiting | None => Failed end).
  assert (∃ ck1, match wal_entry_ t with
                 | Some _ => ck_assign (CommitTS t) (Some id) (wait_conflict_ck_ (mgr s))
                 | None => Ok (ck_erase (CommitTS t) (wait_conflict_ck_ (mgr s)))
                 end = Ok ck1 ∧ StronglySorted (λ a b, a.1 < b.1) ck1 ∧
     ∀ e, e ∈ ck1 ↔ (e ∈ wait_conflict_ck_ (mgr s) ∧ e.1 ≠ CommitTS t) ∨ (g' = Waiting ∧ e = (CommitTS t, Some id))) as (ck1 & -> & Hs1 & Hel).
  { unfold g'. destruct (wal_entry_ t).
    - destruct (ck_assign_spec (CommitTS t) (Some id) _ (ck_sorted L) Hin) as (ck1 & ? & ? & Hel). exists ck1. split_and!; try done. intros e. rewrite Hel. tauto.
    - eexists. split; [done|]. destruct (ck_erase_spec (CommitTS t) _ (ck_sorted L)) as [? Hel]. split; [done|]. intros e. rewrite Hel. naive_solver. }
  cbn [res_bind]. assert (Hok' : stage_ok (start_ts_ (mgr s)) g' id t).
  { split; [done|]. split; [done|]. unfold g'. destruct (wal_entry_ t) eqn:Hwt; [|done]. destruct Hwal as [?|?]; [done|]. rewrite Hdone. done. }
  assert (HC : core_m (mgr s) (<[id := g']> (stages s)) (history_ s)).
  { destruct (core_alive C _ _ HG) as [t0 _]; [done|].
    assert (Hfi : finishing_txns_ (mgr s) = match GetTxnType t with TxnType.kWrite => {[id]} ∪ finishing_txns_ (mgr s) | _ => finishing_txns_ (mgr s) end).
    { destruct Hcm as (_ & -> & _). assert (id ∈ finishing_txns_ (mgr s)) by (apply (core_finishing C); exists t; split; [done|]; apply (core_ok C _ _ _ Hl)).
      symmetry. apply leibniz_equiv, subseteq_union. intros x ->%elem_of_singleton. done. }
    unfold core_m. rewrite Hfi. rewrite <- (insert_id (txn_map_ (mgr s)) id t HT).
    eapply (core_update (start_ts_ (mgr s)) _ _ _ _ _ _ _ _ id Sending t); try done; unfold g'; by destruct (wal_entry_ t). }
  pose proof (logs_sent _ _ _ _ ck1 _ _ _ _ id t g' L Hl (not_in_history s id Sending t I Hl ltac:(done)) Hdone ltac:(unfold g'; destruct (wal_entry_ t); auto) Hs1 Hel) as L1.
  apply logs_ready in L1. destruct (ready ck1) as [ws rest]. destruct L1 as [L1 Hh].
  eexists. split; [done|]. unfold PutEntries. sys. rewrite Hr'. unfold inv, core_m, logs_m. destruct ws as [|w ws]; sys; [|done].
  by rewrite app_nil_r in L1.
Qed.

Lemma finish_inv s id g t :
  inv s → fresh s → live (txn_map_ (mgr s)) (stages s) id g t → g = CommittedR ∨ g = Finishing ∨ g = RolledBack →
  ∃ s', finish s id = Ok s' ∧ inv s'.
Proof.
  intros I (Hts & _) Hl Hg. pose proof I as (C & [L Hhead] & Hr & Hr'). pose proof Hl as [HG HT]. pose proof (core_ok C _ _ _ Hl) as Hok.
  destruct (FinishTxn_ok (mgr s) (stages s) (history_ s) id g t C Hl Hts Hg) as (m' & Hm & C' & [Hn Hck Hfl Hsq (Hu1 & Hu2 & Hu3)] & [Hst _] & Hmap).
  unfold finish, deref. rewrite HT. cbn [res_bind]. rewrite Hm. cbn [res_bind]. eexists. split; [done|].
  unfold inv, core_m, logs_m. sys. split; [done|]. rewrite Hck, Hfl, Hu1, Hu2. split; [|done]. split; [|done].
  assert (Hgn : g ≠ Waiting) by naive_solver. assert (Hgd : g ≠ Done) by naive_solver.
  assert (Hgo : ∀ j gj tj, live (txn_map_ m') (<[id := Done]> (stages s)) j gj tj → gj ≠ Done → j ≠ id).
  { intros j gj tj [Hj _] ? ->. rewrite lookup_insert_eq in Hj. congruence. }
  apply (logs_frame (start_ts_ (mgr s)) _ (txn_map_ (mgr s)) _ (stages s) _ _ _ _ _ (history_ s) _ id); try done.
  - intros j gj tj Hj Hgj. unfold live. rewrite lookup_insert_ne by done. split; intros [HGj HTj]; (split; [done|]).
    + rewrite Hmap in HTj; [done|done|congruence].
    + rewrite Hmap; [done|done|congruence].
  - intros ts. split; intros (g0 & t0 & Hl0 & Hu).
    + destruct (live_fun _ _ _ _ _ _ _ Hl Hl0) as [-> ->]. by destruct Hg as [-> |[-> | ->]].
    + exfalso. apply (Hgo _ _ _ Hl0); [|done]. by destruct g0.
  - intros t0 Hl0. destruct (live_fun _ _ _ _ _ _ _ Hl Hl0). congruence.
  - intros t0 Hl0. by destruct (Hgo _ _ _ Hl0).
  - intros t0 [(g0 & Hl0 & Hg0)|[Hh _]]; [|rewrite (not_in_history s id g t I Hl Hgd) in Hh; done].
    destruct (live_fun _ _ _ _ _ _ _ Hl Hl0) as [-> ->]. destruct Hg0 as [-> | ->]; [done|]. destruct Hok as (Hb & Hct & (Hs & Hw & ?) & _).
    exists (finished (mgr s) t). unfold finished. rewrite Hw, Hs. split; [|done]. right. by rewrite lookup_insert_eq.
  - intros t0 [[Hl0 _]|[Hl0|(Hh & Hw0 & Hs0)]]; [by destruct (Hgo _ _ _ Hl0)..|]. rewrite lookup_insert_eq in Hh. injection Hh as <-.
    exists t. assert (g = Finishing) as ->.
    { destruct Hg as [-> |[-> | ->]]; [|done|].
      - destruct Hok as (_ & _ & _ & Htr). unfold finished in Hw0. rewrite Htr in Hw0. congruence.
      - destruct Hok as (_ & _ & Htr & Hnr). unfold finished in Hs0. destruct (GetTxnType t) eqn:Hty; [congruence| |congruence]. by rewrite Htr in Hs0. }
    destruct Hok as (_ & _ & (Hs & Hw & ?) & _). split; [right; by left|]. unfold finished. by rewrite Hw, Hs.
  - intros j Hj. by rewrite lookup_insert_ne.
Qed.

Lemma thread_inv s id r : inv s → fresh s → thread s id = Some r → outcome s (Thread id) r.
Proof.
  intros I Hf. pose proof I as (C & [L _] & Hr & _). unfold thread. destruct (stages s !! id) as [g|] eqn:HG; [|done].
  destruct (decide (g = Running ∨ g = Done)) as [[-> | ->]|Hgd]; [done..|].
  destruct (core_alive C _ _ HG) as [t HT]; [naive_solver|]. assert (Hl : live (txn_map_ (mgr s)) (stages s) id g t) by done.
  pose proof (core_ok C _ _ _ Hl) as Hok. pose proof Hok as (Hb & Hct & Hg).
  unfold deref. rewrite HT. destruct g as [|ts| |ts| | |[|c l]| | | | |ts| |]; try (by destruct Hgd; auto); cbn [res_bind].
  - (* a reader *) intros [= <-]. destruct Hg as (Hst & Hty & [e He] & Hts). unfold Txn_SetTxnCommitting, SetTxnCommitting. unfold Txn_State in Hst. rewrite Hst, He. cbn [res_bind].
    unfold Txn_SetTxnCommitted. txn. left. eexists. split; [done|]. eapply (inv_local s _ id (StampedR ts) t CommittedR); local.
  - intros [= <-]. left. apply (finish_inv s id CommittedR t); auto.
  - (* a writer *) intros [= <-]. destruct Hg as (Hst & Hty & Hts & [e He] & Hd & Hdone). unfold Txn_SetTxnCommitting, SetTxnCommitting. unfold Txn_State in Hst. rewrite Hst, He. cbn [res_bind].
    left. eexists. split; [done|]. eapply (inv_local s _ id (StampedW ts) t Committing); local; [|txn; by rewrite Hst].
    split; [sys; txn; lia|]. split; [sys; txn; lia|]. split; [split_and!; txn; try done; lia|]. split; [eexists; split; [done|]; by txn|done].
  - intros [= <-]. destruct (store_PrepareCommit1 _ _ _) as [[store cat]|err] eqn:Hs; cbn [res_bind]; [|right; exists err; split; [done|]; exists t; by rewrite HG]. left. eexists. split; [done|]. eapply (inv_local s _ id Committing t Prepared); local.
  - intros [= <-]. destruct (candidate_txns_ok (mgr s) (stages s) (history_ s) t C) as (l & -> & _ & Hcand). cbn [res_bind]. left. eexists. split; [done|].
    eapply (inv_local s _ id Prepared t (Checking l) t); local; [unfold moved; sys; split_and!; try done; by rewrite insert_id|].
    intros l' c [= <-] (tc & Htc & Hw & Hc)%Hcand. destruct (core_stage C _ _ Htc) as [gc HGc]. exists gc, tc. split; [done|]. split; [done|].
    intros ->. destruct (core_fin_all C c tc) as [ts Hts]; [done|]. exists ts. split; [done|].
    destruct (core_fin C _ _ Hts) as (_ & tc' & Hlc & Hcts). destruct (live_fun _ _ _ _ _ _ _ (conj HGc Htc) Hlc) as [_ ->].
    destruct (core_ok C _ _ _ Hlc) as (_ & _ & _ & [Hst|(Hst & _)]); unfold is_candidate in Hc; rewrite Hst in Hc; [done|].
    rewrite (Hcts Hst) in Hc. lia.
  - intros [= <-]. destruct Hg as (Hcm & (e & He & Hec) & Hd & Hdone). rewrite He. left. eexists. split; [done|].
    eapply (inv_local s _ id (Checking []) t Sending); local. split; [done|]. split; [done|]. split; [done|]. split; [|done].
    right. eexists. split; [done|]. by txn.
  - destruct (core_candidates C id t _ c Hl ltac:(by left)) as (gc & tc & [HGc HTc] & Hwc & Hdc). rewrite HTc. cbn [res_bind]. intros [= <-].
    destruct (Txn_CheckConflict t tc); (left; eexists; split; [done|]).
    + destruct Hg as (Hcm & _ & Hd & Hdone). eapply (inv_local s _ id (Checking (c :: l)) t Sending); local.
      split; [done|]. split; [done|]. split; [done|]. split; [by left|done].
    + eapply (inv_local s _ id (Checking (c :: l)) t (Checking l) t); local; [unfold moved; sys; split_and!; try done; by rewrite insert_id|].
      intros l' c' [= <-] Hc'. apply (core_candidates C id t (c :: l) c' Hl). by right.
  - destruct (send_inv s id t I Hl) as (m & -> & I'). intros [= <-]. cbn [res_bind]. left. eexists. by split.
  - destruct Hg as (Hst & Hty & Hlt). intros [= <-]. rewrite Hst. unfold Rollback, deref. rewrite HT. cbn [res_bind]. unfold SetTxnRollbacking. unfold Txn_State in Hst. rewrite Hst. cbn [res_bind].
    destruct (store_Rollback _ _ _ _) as [[store cat]|err] eqn:Hs; cbn [res_bind]; [|right; exists err; split; [done|]; exists t; by rewrite HG]. left. eexists. split; [done|].
    eapply (inv_local s _ id Failed t RolledBack); local; [|txn; by rewrite Hst]. split; [sys; txn; lia|]. split; [sys; txn; lia|]. split; [done|]. txn. congruence.
  - destruct (done_bottom_ t) eqn:Hdone; [|done]. destruct Hg as (Hcm & (e & Hwal & Hec & Hei) & [d Hd]). intros [= <-]. unfold after_bottom, deref. rewrite HT. cbn [res_bind].
    destruct (if enable_compaction_ (mgr s) then _ else _) as [[store cat]|err] eqn:Hs; cbn [res_bind];
      [|right; exists err; split; [done|]; exists t; rewrite HG; destruct (enable_compaction_ (mgr s)); by split]. cbn [with_store local_catalog_delta_ops_entry_]. rewrite Hd.
    unfold AddDeltaEntry. rewrite Hr. cbn [negb res_bind].
    destruct (operations_ d); cbn [res_bind]; (left; eexists; split; [done|]; eapply (inv_local s _ id Waiting t Finishing); local).
    all: split; [done|]; split; [done|]; split; [done|]; exists e; by txn.
  - intros [= <-]. left. apply (finish_inv s id Finishing t); auto.
  - destruct Hg as (Hst & Hty & _ & Hts). unfold Rollback, deref. rewrite HT. cbn [res_bind]. unfold SetTxnRollbacking. unfold Txn_State in Hst. rewrite Hst. cbn [res_bind]. intros [= <-].
    destruct (store_Rollback _ _ _ _) as [[store cat]|err] eqn:Hs; cbn [res_bind]; [|right; exists err; split; [done|]; exists t; by rewrite HG]. left. eexists. split; [done|].
    eapply (inv_local s _ id (StampedAbort ts) t RolledBack); local; [|txn; by rewrite Hst]. split; [sys; txn; lia|]. split; [sys; txn; lia|]. split; [done|]. txn. congruence.
  - intros [= <-]. left. apply (finish_inv s id RolledBack t); auto.
Qed.

Lemma first_alive_spec T d begun :
  (∀ id1 t1 id2 t2, T !! id1 = Some t1 → T !! id2 = Some t2 → id1 < id2 → BeginTS t1 < BeginTS t2) → StronglySorted Z.lt begun →
  let '(least, begun') := first_alive T d begun in
  begun' `suffix_of` begun ∧ ∀ id t, T !! id = Some t → id ∈ begun → id ∈ begun' ∧ least ≤ BeginTS t.
Proof.
  intros Ho. induction 1 as [|id begun Hs IH Hall]; cbn [first_alive]; [split; [done|]; intros j tj _ []%not_elem_of_nil|].
  destruct (T !! id) as [t|] eqn:HT.
  - split; [done|]. intros j tj Hj Hin. split; [done|]. apply elem_of_cons in Hin as [->|Hin]; [simplify_eq; lia|].
    rewrite Forall_forall in Hall. apply Z.lt_le_incl, (Ho id t j tj); [done..|by apply Hall].
  - destruct (first_alive T d begun) as [least begun']. destruct IH as [Hsuf IH]. split; [by apply suffix_cons_r|].
    intros j tj Hj [->|Hin]%elem_of_cons; [congruence|by apply IH].
Qed.

Lemma first_alive_clock T d begun : (first_alive T d begun).1 = d ∨ ∃ id t, T !! id = Some t ∧ (first_alive T d begun).1 = BeginTS t.
Proof. induction begun as [|id begun IH]; cbn [first_alive]; [by left|]. destruct (T !! id) as [t|] eqn:HT; [right; by exists id, t|done]. Qed.

Lemma scan_inv s ts r : inv s → exec s (Scan ts) = Some r → ∃ s', r = Ok s' ∧ inv s'.
Proof.
  intros (C & L & Hr & Hr') [= <-]. eexists. split; [done|]. unfold GetCleanupScanTS.
  pose proof (first_alive_spec (txn_map_ (mgr s)) (start_ts_ (mgr s)) (beginned_txns_ (mgr s)) (core_order C) (proj1 (core_begun_sorted C))) as Hf.
  destruct (first_alive _ _ _) as [least begun]. destruct Hf as [Hsuf Hf]. unfold inv, core_m, logs_m in *. sys. split; [|done].
  eapply core_suffix; [done..|]. intros j gj tj Hl Hfin. apply (Hf j tj); [apply Hl|by eapply (core_begun C)].
Qed.

(** Nothing fails but the catalog: every other step a thread can take leads to a good state. *)
Lemma exec_inv s e r : inv s → fresh s → exec s e = Some r → outcome s e r.
Proof.
  intros I Hf. destruct e; [| | | |by apply thread_inv| |by apply bottom_inv|]; intros H; left.
  - by eapply begin_inv.
  - by refine (client_inv _ _ _ _ I Hf H).
  - by eapply Commit_inv.
  - by refine (client_inv _ _ _ _ I Hf H).
  - by eapply flush_inv.
  - by eapply scan_inv.
Qed.

Lemma reach_system_inv s : reach s → inv s.
Proof.
  induction 1 as [? ? ? ? Hid Hts|s e s' _ I Hf He]; [by apply initial_inv|].
  by destruct (exec_inv s e _ I Hf He) as [(s1 & [= <-] & ?)|(err & [=] & _)].
Qed.
End Inv.

Arguments core_clock {_ _ _ _ _ _ _ _ _ _} _.
Arguments core_stage {_ _ _ _ _ _ _ _ _ _} _.
Arguments core_alive {_ _ _ _ _ _ _ _ _ _} _.
Arguments core_ids {_ _ _ _ _ _ _ _ _ _} _.
Arguments core_ok {_ _ _ _ _ _ _ _ _ _} _.
Arguments core_order {_ _ _ _ _ _ _ _ _ _} _.
Arguments core_begun {_ _ _ _ _ _ _ _ _ _} _.
Arguments core_begun_sorted {_ _ _ _ _ _ _ _ _ _} _.
Arguments core_finishing {_ _ _ _ _ _ _ _ _ _} _.
Arguments core_fin_sorted {_ _ _ _ _ _ _ _ _ _} _.
Arguments core_fin {_ _ _ _ _ _ _ _ _ _} _.
Arguments core_fin_all {_ _ _ _ _ _ _ _ _ _} _.
Arguments core_hist {_ _ _ _ _ _ _ _ _ _} _.
Arguments core_hist_live {_ _ _ _ _ _ _ _ _ _} _.
Arguments core_hist_ok {_ _ _ _ _ _ _ _ _ _} _.
Arguments core_gone {_ _ _ _ _ _ _ _ _ _} _.
Arguments core_candidates {_ _ _ _ _ _ _ _ _ _} _.
Arguments ck_sorted {_ _ _ _ _ _ _ _ _ _} _.
Arguments ck_bound {_ _ _ _ _ _ _ _ _ _} _.
Arguments ck_none {_ _ _ _ _ _ _ _ _ _} _.
Arguments ck_unsent {_ _ _ _ _ _ _ _ _ _} _.
Arguments ck_some {_ _ _ _ _ _ _ _ _ _} _.
Arguments unsent_inj {_ _ _ _ _ _ _ _ _ _} _.
Arguments queue_live {_ _ _ _ _ _ _ _ _ _} _.
Arguments queue_all {_ _ _ _ _ _ _ _ _ _} _.
Arguments queue_order {_ _ _ _ _ _ _ _ _ _} _.
Arguments queue_ck {_ _ _ _ _ _ _ _ _ _} _.
Arguments written_sorted {_ _ _ _ _ _ _ _ _ _} _.
Arguments written_bound {_ _ _ _ _ _ _ _ _ _} _.
Arguments written_flush {_ _ _ _ _ _ _ _ _ _} _.
Arguments written_ck {_ _ _ _ _ _ _ _ _ _} _.
Arguments written_sound {_ _ _ _ _ _ _ _ _ _} _.
Arguments written_complete {_ _ _ _ _ _ _ _ _ _} _.
