(* ===== verification/TxnConflict.v ===== *)
(** * Conflicts between transactions

    What [TxnManager::CheckConflict] achieves.  When every transaction that has drawn its commit
    timestamp has also entered the state [kCommitting] before a later one collects its candidates, two
    transactions that both commit either do not overlap in time or do not conflict.  The code does not
    ensure the premise: [GetCommitTimeStampW] and [SetTxnCommitting] are two steps, and in between a
    conflict is missed. *)

From Stdlib Require Import ZArith Lia List Sorted.
From stdpp Require Import base list numbers gmap sets sorting.
From S2P Require Import Prelude Bytes WalEntry CatalogDelta TxnManager TxnInv.
Local Open Scope Z_scope.

Section Conflicts.
Context {B : Type} `{Ops : !TxnStoreOps} `{Laws : !TxnStoreLaws}.
Import TxnState.

Notation Txn := (Txn B).
Notation System := (System B).
Implicit Types (s : System) (t : Txn) (T : gmap Z Txn) (G : gmap Z stage) (hist : gmap Z Txn).

(** ** The steps, as changes of one transaction *)

(** [t'] differs from [t] in nothing that matters to others. *)
Definition keeps t t' : Prop := txn_context_ t' = txn_context_ t ∧ same_target (txn_store_ t) (txn_store_ t').

Lemma same_target_trans (s1 s2 s3 : TxnStore) : same_target s1 s2 → same_target s2 s3 → same_target s1 s3.
Proof. intros H1 H2 o. by rewrite H2. Qed.

(** The store is noted when the candidates are collected. *)
Definition noted (g : stage) (id : Z) t (K : gmap Z TxnStore) : gmap Z TxnStore :=
  match g with Prepared => <[id := txn_store_ t]> K | _ => K end.

Inductive trans (start : Z) T : stage → Txn → stage → Txn → Prop :=
| trans_write t t' : BeginTS t' = BeginTS t → trans start T Running t Running t'
| trans_stamp t g' t' :
    g' = StampedR (start + 1) ∨ g' = StampedAbort (start + 1) ∨ g' = StampedW (start + 1) →
    BeginTS t' = BeginTS t → CommitTS t' = CommitTS t → trans start T Running t g' t'
| trans_reader ts t t' : trans start T (StampedR ts) t CommittedR t'
| trans_commit ts t t' : CommitTS t' = ts → BeginTS t' = BeginTS t → trans start T (StampedW ts) t Committing t'
| trans_prepare t t' : keeps t t' → trans start T Committing t Prepared t'
| trans_gather t l :
    (length l ≤ size T)%nat →
    (∀ c, c ∈ l ↔ ∃ tc, T !! c = Some tc ∧ GetTxnType tc = TxnType.kWrite ∧ is_candidate (BeginTS t) (CommitTS t) tc = true) →
    trans start T Prepared t (Checking l) t
| trans_pass c l t tc : T !! c = Some tc → Txn_CheckConflict t tc = false → trans start T (Checking (c :: l)) t (Checking l) t
| trans_conflict c l t t' : wal_entry_ t' = None → keeps t t' → trans start T (Checking (c :: l)) t Sending t'
| trans_checked t t' : is_Some (wal_entry_ t') → keeps t t' → trans start T (Checking []) t Sending t'
| trans_sent t : is_Some (wal_entry_ t) → trans start T Sending t Waiting t
| trans_failed t : wal_entry_ t = None → trans start T Sending t Failed t
| trans_rollback ts g t t' : g = Failed ∨ g = StampedAbort ts → trans start T g t RolledBack t'
| trans_bottom t t' : keeps t t' → done_bottom_ t = false → done_bottom_ t' = true → trans start T Waiting t Waiting t'
| trans_finishing t t' : keeps t t' → done_bottom_ t = true → trans start T Waiting t Finishing t'.

(** The entries on their way to the log and through the flush thread. *)
Definition sent (ck : list (Z * option Z)) : nat := length (filter (λ e, is_Some e.2) ck).
Definition pending s : nat := 3 * sent (wait_conflict_ck_ (mgr s)) + 2 * length (wait_flush_ (mgr s)) + length (log_batch_ s).

(** Every step moves the clocks by at most one. *)
Definition pace s s' : Prop :=
  start_ts_ (mgr s) ≤ start_ts_ (mgr s') ≤ start_ts_ (mgr s) + 1 ∧ (next_sequence_ (mgr s') = next_sequence_ (mgr s) ∨ next_sequence_ (mgr s') = cast u64 (next_sequence_ (mgr s) + 1)) ∧
  next_txn_id_ (mgr s') = next_txn_id_ (mgr s).

(** What is written for the catalog: nothing, except that [CommitBottom] numbers the operations of a
    transaction and that its thread submits them. *)
Definition quiet s s' : Prop :=
  installed_ s' = installed_ s ∧ submitted_ s' = submitted_ s ∧ next_sequence_ (mgr s') = next_sequence_ (mgr s).

Definition numbered (from to ts : Z) (d : CatalogDeltaEntry) : Prop :=
  match operations_ d with [] => to = from | _ => to = cast u64 (from + 1) ∧ sequence_ d = to ∧ max_commit_ts_ d = ts end.

Definition settles s s' (id : Z) t (g' : stage) t' : Prop :=
  match g' with
  | Waiting =>
      head (log_batch_ s) = Some id ∧ installed_ s' = installed_ s ++ [(id, t')] ∧ submitted_ s' = submitted_ s ∧
      ∃ d, local_catalog_delta_ops_entry_ t' = Some d ∧ numbered (next_sequence_ (mgr s)) (next_sequence_ (mgr s')) (CommitTS t) d
  | _ =>
      installed_ s' = installed_ s ∧ next_sequence_ (mgr s') = next_sequence_ (mgr s) ∧
      ∃ d, local_catalog_delta_ops_entry_ t = Some d ∧ submitted_ s' = submitted_ s ++ match operations_ d with [] => [] | _ => [d] end
  end.

(** The steps of commits and aborts: clients start no transaction and no statement, and no timestamp is
    asked for. *)
Definition ending (e : event B) : Prop := match e with Begin | Write _ _ _ _ | Scan _ => False | _ => True end.

Inductive view s (e : event B) : System → Prop :=
| view_local s' id g t g' t' :
    pace s s' → (ending e → g = Running → g' ≠ Running) → (pending s' ≤ pending s + (match g with Sending => 3 | _ => 0 end))%nat → (g = Waiting → g' = Waiting → (pending s' < pending s)%nat) →
    live (txn_map_ (mgr s)) (stages s) id g t → match g with Waiting => settles s s' id t g' t' | _ => quiet s s' end →
    trans (start_ts_ (mgr s)) (txn_map_ (mgr s)) g t g' t' →
    txn_map_ (mgr s') = <[id := t']> (txn_map_ (mgr s)) → stages s' = <[id := g']> (stages s) → history_ s' = history_ s → checked_ s' = noted g id t (checked_ s) → view s e s'
| view_begin s' id t' :
    ¬ ending e → stages s !! id = None → quiet s s' → start_ts_ (mgr s) ≤ start_ts_ (mgr s') → txn_map_ (mgr s') = <[id := t']> (txn_map_ (mgr s)) → stages s' = <[id := Running]> (stages s) →
    history_ s' = history_ s → checked_ s' = checked_ s → view s e s'
| view_flush s' :
    pace s s' → quiet s s' → (ending e → (pending s' < pending s)%nat) →
    txn_map_ (mgr s') = txn_map_ (mgr s) → stages s' = stages s → history_ s' = history_ s → checked_ s' = checked_ s → view s e s'
| view_finish s' id g t :
    pace s s' → quiet s s' → pending s' = pending s →
    live (txn_map_ (mgr s)) (stages s) id g t → g = CommittedR ∨ g = Finishing ∨ g = RolledBack →
    stages s' = <[id := Done]> (stages s) → history_ s' = <[id := finished (mgr s) t]> (history_ s) → checked_ s' = checked_ s →
    (∀ j, j ≠ id → stages s !! j ≠ Some Done → txn_map_ (mgr s') !! j = txn_map_ (mgr s) !! j) → view s e s'.

Lemma GetCommitTimeStampR_ok m id t :
  txn_map_ m !! id = Some t → 0 ≤ start_ts_ m < max_clock →
  GetCommitTimeStampR (B := B) m id = Ok (start_ts_ m + 1, put (with_ts m (start_ts_ m + 1)) id (with_context t (SetTxnType (txn_context_ t) TxnType.kRead))).
Proof. intros HT Hts. unfold GetCommitTimeStampR. rewrite tick_ok by done. unfold deref. sys. by rewrite HT. Qed.

Lemma CommitBottom_view m cat id m' cat' :
  CommitBottom (B := B) m cat id = Ok (m', cat') →
  ∃ t t' d, txn_map_ m !! id = Some t ∧ txn_map_ m' = <[id := t']> (txn_map_ m) ∧ keeps t t' ∧ done_bottom_ t' = true ∧
    local_catalog_delta_ops_entry_ t' = Some d ∧ numbered (next_sequence_ m) (next_sequence_ m') (CommitTS t) d ∧
    start_ts_ m' = start_ts_ m ∧ next_txn_id_ m' = next_txn_id_ m ∧ wait_conflict_ck_ m' = wait_conflict_ck_ m ∧ wait_flush_ m' = wait_flush_ m ∧
    (next_sequence_ m' = next_sequence_ m ∨ next_sequence_ m' = cast u64 (next_sequence_ m + 1)).
Proof.
  unfold CommitBottom, GetTxn. destruct (txn_map_ m !! id) as [t|] eqn:HT; [|done]. cbn [res_bind].
  intros ([store1 cat1] & H1%PrepareCommit_target & H0)%res_bind_ok. apply res_bind_ok in H0 as ([store2 cat2] & H2%CommitBottom_target & H0). revert H0.
  destruct (local_catalog_delta_ops_entry_ t) as [d|]; [|done]. intros ([ops cat3] & _ & H0)%res_bind_ok. revert H0. set (local := fold_left _ _ _).
  intros ([local' m1] & Hl & H)%res_bind_ok. exists t. eexists _, local'. split; [done|].
  assert ((m1 = m ∨ m1 = with_running m (is_running_ m) (cast u64 (next_sequence_ m + 1))) ∧ numbered (next_sequence_ m) (next_sequence_ m1) (CommitTS t) local') as [Hm1 Hnum].
  { unfold numbered. destruct (operations_ local) eqn:Hops; [injection Hl as <- <-; rewrite Hops; by split; [left|]|].
    apply res_bind_ok in Hl as (d' & Hd' & Hl). injection Hl as <- <-. split; [by right|]. unfold SaveState in Hd'. destruct (negb _ || _); [done|].
    injection Hd' as <-. rewrite Hops. done. }
  injection H as <- _. sys. assert (keeps t (with_done (with_delta (with_store t store2) (Some local')))) as Hk.
  { split; [done|]. by eapply same_target_trans. }
  destruct Hm1 as [-> | ->]; sys; split_and!; try done; [by left|by right].
Qed.

Definition pending_m (m : TxnManager B) : nat := 3 * sent (wait_conflict_ck_ m) + 2 * length (wait_flush_ m).

Lemma ready_sent ck : let '(ws, rest) := ready ck in sent ck = (length ws + sent rest)%nat.
Proof.
  induction ck as [|[ts [w|]] ck IH]; cbn [ready]; [done| |done]. destruct (ready ck) as [ws rest]. unfold sent in *.
  rewrite filter_cons_True by done. simpl. lia.
Qed.

Lemma ck_assign_sent ts w ck ck' : ck_assign ts (Some w) ck = Ok ck' → (sent ck' ≤ sent ck + 1)%nat.
Proof.
  revert ck'. induction ck as [|[k v] ck IH]; intros ck'; cbn [ck_assign]; [done|]. destruct (k =? ts).
  - intros [= <-]. unfold sent. rewrite !filter_cons. do 2 case_decide; simpl; lia.
  - intros (ck1 & H1%IH & [= <-])%res_bind_ok. unfold sent in *. rewrite !filter_cons. case_decide; simpl; lia.
Qed.

Lemma ck_emplace_sent ts ck : sent (ck_emplace ts None ck) = sent ck.
Proof.
  unfold sent. induction ck as [|[k v] ck IH]; cbn [ck_emplace]; [done|]. destruct (ts <? k); [rewrite filter_cons_False; [done|]; by intros []|].
  destruct (k <? ts); [|done]. rewrite !filter_cons. case_decide; simpl; congruence.
Qed.

Lemma ck_erase_sent ts ck : (sent (ck_erase ts ck) ≤ sent ck)%nat.
Proof.
  unfold sent, ck_erase. induction ck as [|e ck IH]; [done|]. rewrite !filter_cons. do 2 case_decide; rewrite ?filter_cons; repeat case_decide; simpl; try lia; done.
Qed.

Lemma SendToWAL_view m id m' :
  SendToWAL m id = Ok m' → txn_map_ m' = txn_map_ m ∧ (pending_m m' ≤ pending_m m + 3)%nat ∧ start_ts_ m' = start_ts_ m ∧
  next_sequence_ m' = next_sequence_ m ∧ next_txn_id_ m' = next_txn_id_ m.
Proof.
  unfold SendToWAL. destruct (negb _); [done|]. intros (t & _ & Hm)%res_bind_ok. destruct (wait_conflict_ck_ m) as [|[f v] ck0] eqn:Hck; [done|].
  destruct (_ <? f); [done|]. apply res_bind_ok in Hm as (ck1 & H1 & Hm). rewrite <- Hck in *.
  assert (Hs : (sent ck1 ≤ sent (wait_conflict_ck_ m) + 1)%nat).
  { destruct (wal_entry_ t); [by eapply ck_assign_sent|]. injection H1 as <-. etrans; [apply ck_erase_sent|lia]. }
  pose proof (ready_sent ck1) as Hr. destruct (ready ck1) as [ws rest]. injection Hm as <-.
  unfold pending_m, PutEntries. destruct ws as [|w ws]; sys; [split_and!; try done; simpl in Hr; lia|]. destruct (wal_running_ m); sys; split_and!; try done.
  - rewrite length_app. lia.
  - simpl in Hr. lia.
Qed.

Ltac pace := unfold pace, pending; sys; first [done|lia|split_and!; (done || lia || by left)].
Ltac view_local g' := eapply (view_local _ _ _ _ _ _ g'); [pace|try done; by intros []|pace|done|done|done|..]; sys; [|done..].
Ltac same_txn HT := rewrite (insert_id _ _ _ HT).

Lemma finishing_size s : inv s → (size (finishing_txns_ (mgr s)) ≤ size (txn_map_ (mgr s)))%nat.
Proof.
  intros (C & _). rewrite <- size_dom. apply subseteq_size. intros id (t & ? & _)%(core_finishing C). apply elem_of_dom. eauto.
Qed.

Lemma thread_view s id s' : inv s → fresh s → thread s id = Some (Ok s') → view s (Thread id) s'.
Proof.
  intros I Hf. pose proof I as (C & [L _] & Hr & _). unfold thread. destruct (stages s !! id) as [g|] eqn:HG; [|done].
  destruct (decide (g = Running ∨ g = Done)) as [[-> | ->]|Hgd]; [done..|].
  destruct (core_alive C _ _ HG) as [t HT]; [naive_solver|]. assert (Hl : live (txn_map_ (mgr s)) (stages s) id g t) by done.
  pose proof (core_ok C _ _ _ Hl) as (Hb & Hct & Hg).
  assert (Hfin : g = CommittedR ∨ g = Finishing ∨ g = RolledBack → Some (finish s id) = Some (Ok s') → view s (Thread id) s').
  { intros Hgf [= Hs]. unfold finish, deref in Hs. rewrite HT in Hs. cbn [res_bind] in Hs. apply res_bind_ok in Hs as (m' & Hm & [= <-]).
    destruct (FinishTxn_ok (mgr s) (stages s) (history_ s) id g t C Hl (proj1 Hf) Hgf) as (m1 & Hm1 & _ & [Hn Hck Hfl Hsq _] & Hts & Hmap).
    rewrite Hm in Hm1. injection Hm1 as <-. eapply (view_finish s _ _ id g t); sys; try done; unfold pace, pending; sys; rewrite ?Hck, ?Hfl; [split; [lia|]; split; [by left|done]|done]. }
  unfold deref. rewrite HT. destruct g as [|ts| |ts| | |[|c l]| | | | |ts| |]; try (by destruct Hgd; auto); try (by apply Hfin; auto); cbn [res_bind].
  - destruct Hg as (Hst & Hty & [e He] & Hts). unfold Txn_SetTxnCommitting, SetTxnCommitting. unfold Txn_State in Hst. rewrite Hst, He. cbn [res_bind].
    unfold Txn_SetTxnCommitted. txn. intros [= <-]. view_local CommittedR. constructor.
  - destruct Hg as (Hst & Hty & Hts & [e He] & Hd & Hdone). unfold Txn_SetTxnCommitting, SetTxnCommitting. unfold Txn_State in Hst. rewrite Hst, He. cbn [res_bind].
    intros [= <-]. view_local Committing. by constructor.
  - intros [= ([store cat] & Hs%PrepareCommit1_target & [= <-])%res_bind_ok].
    view_local Prepared. by constructor.
  - destruct (candidate_txns_ok (mgr s) (stages s) (history_ s) t C) as (l & -> & Hn & Hcand). cbn [res_bind]. intros [= <-].
    eapply (view_local _ _ _ id Prepared t (Checking l) t); [pace|done|pace|done|done|done| |sys; by same_txn HT|done|done|done].
    constructor; [|done]. pose proof (finishing_size s I). lia.
  - destruct Hg as (Hcm & (e & He & Hec) & Hd & Hdone). rewrite He. intros [= <-]. view_local Sending. by constructor.
  - destruct (core_candidates C id t _ c Hl ltac:(by left)) as (gc & tc & [HGc HTc] & Hwc & Hdc). rewrite HTc. cbn [res_bind].
    destruct (Txn_CheckConflict t tc) eqn:Hcf; intros [= <-].
    + view_local Sending. by constructor.
    + eapply (view_local _ _ _ id (Checking (c :: l)) t (Checking l) t); [pace|done|pace|done|done|done|by econstructor|sys; by same_txn HT|done|done|done].
  - destruct (send_inv s id t I Hl) as (m & Hm & _). rewrite Hm. cbn [res_bind]. intros [= <-].
    destruct (SendToWAL_view _ _ _ Hm) as (Hmap & Hp & Hts & Hsq & Hn). unfold pending_m in Hp.
    destruct (wal_entry_ t) eqn:Hwal.
    + eapply (view_local _ _ _ id Sending t Waiting t); [pace|done|pace|done|done|done|constructor; by rewrite Hwal| |done|done|done]. sys. by rewrite Hmap, (insert_id _ _ _ HT).
    + eapply (view_local _ _ _ id Sending t Failed t); [pace|done|pace|done|done|done|by constructor| |done|done|done]. sys. by rewrite Hmap, (insert_id _ _ _ HT).
  - destruct Hg as (Hst & Hty & Hlt). rewrite Hst. unfold Rollback, deref. rewrite HT. cbn [res_bind]. unfold SetTxnRollbacking. unfold Txn_State in Hst. rewrite Hst. cbn [res_bind].
    destruct (store_Rollback _ _ _ _) as [[store cat]|]; cbn [res_bind]; intros [= <-]. view_local RolledBack. apply (trans_rollback _ _ 0). by left.
  - destruct (done_bottom_ t) eqn:Hdone; [|done]. destruct Hg as (Hcm & _ & [d Hd]). unfold after_bottom, deref. rewrite HT. cbn [res_bind].
    intros [= ([[m' cat'] submitted'] & ([store cat] & Hcf & Hm)%res_bind_ok & [= <-])%res_bind_ok]. revert Hm.
    assert (same_target (txn_store_ t) store). { destruct (enable_compaction_ (mgr s)); [by eapply MaintainCompactionAlg_target|by injection Hcf as <- _]. }
    cbn [with_store local_catalog_delta_ops_entry_ fst] in *. rewrite Hd.
    unfold AddDeltaEntry. rewrite Hr. cbn [negb res_bind].
    destruct (operations_ d) eqn:Hops; cbn [res_bind]; intros [= <- _ <-]; (eapply (view_local _ _ _ id Waiting t Finishing); [pace|done|pace|done|done|..]; sys; [| |done..]); try by constructor.
    all: cbn [settles]; sys; split; [done|]; split; [done|]; exists d; rewrite Hops; by rewrite ?app_nil_r.
  - unfold Rollback, deref. rewrite HT. cbn [res_bind]. unfold SetTxnRollbacking. destruct Hg as (Hst & _). unfold Txn_State in Hst. rewrite Hst. cbn [res_bind].
    destruct (store_Rollback _ _ _ _) as [[store cat]|]; cbn [res_bind]; intros [= <-]. view_local RolledBack. apply (trans_rollback _ _ ts). by right.
Qed.

Lemma exec_view s e s' : inv s → fresh s → exec s e = Some (Ok s') → view s e s'.
Proof.
  intros I Hf. pose proof I as (C & [L _] & Hr & _). pose proof (core_clock C) as [H0 _]. pose proof Hf as (Hts & Hid & _).
  assert (Hrun : ∀ id, stages s !! id = Some Running → ∃ t, live (txn_map_ (mgr s)) (stages s) id Running t ∧ stage_ok (start_ts_ (mgr s)) Running id t).
  { intros id HG. destruct (core_alive C _ _ HG) as [t HT]; [done|]. exists t. split; [done|]. by apply (core_ok C). }
  destruct e as [|id cmds store cat|id|id|id| | |ts0]; cbn [exec].
  - unfold BeginTxn. rewrite Hr. cbn [negb]. rewrite tick_ok by lia. cbn [res_bind]. intros [= <-].
    eapply (view_begin s _ _ (cast u64 (next_txn_id_ (mgr s) + 1))); sys; try done; [by intros []| |lia].
    rewrite cast_id by (unfold max_clock in Hid; change (2 ^ 64) with 18446744073709551616 in Hid; pose proof (core_clock C); solve_range).
    destruct (stages s !! _) eqn:E; [|done]. apply (core_ids C) in E. lia.
  - destruct (stages s !! id) as [[]|] eqn:HG; try done. destruct (Hrun id HG) as (t & Hl & Hb & Hct & Hst & Hty & [e He'] & _).
    unfold deref. rewrite (proj2 Hl). cbn [res_bind]. rewrite He'. intros [= <-]. view_local Running. by constructor.
  - destruct (stages s !! id) as [[]|] eqn:HG; try done. destruct (Hrun id HG) as (t & Hl & Hb & Hct & Hst & Hty & [e He'] & _).
    unfold deref. rewrite (proj2 Hl). cbn [res_bind]. rewrite He'. destruct (bool_decide _ && _).
    + rewrite (GetCommitTimeStampR_ok _ _ t) by (apply Hl || lia). cbn [res_bind]. intros [= <-].
      view_local (StampedR (start_ts_ (mgr s) + 1)). apply trans_stamp; auto.
    + unfold GetCommitTimeStampW. rewrite tick_ok by lia. unfold deref. sys. rewrite (proj2 Hl). cbn [res_bind]. intros [= <-].
      pose proof (ck_emplace_sent (start_ts_ (mgr s) + 1) (wait_conflict_ck_ (mgr s))). view_local (StampedW (start_ts_ (mgr s) + 1)). apply trans_stamp; auto.
  - destruct (stages s !! id) as [[]|] eqn:HG; try done. destruct (Hrun id HG) as (t & Hl & Hb & Hct & Hst & Hty & [e He'] & _).
    unfold deref. rewrite (proj2 Hl). cbn [res_bind]. rewrite Hst. rewrite (GetCommitTimeStampR_ok _ _ t) by (apply Hl || lia). cbn [res_bind]. intros [= <-].
    view_local (StampedAbort (start_ts_ (mgr s) + 1)). apply trans_stamp; auto.
  - by apply thread_view.
  - destruct (log_batch_ s) eqn:Hlb; [|done]. destruct (wait_flush_ (mgr s)) eqn:Hwf; [done|]. intros [= Hs]. apply res_bind_ok in Hs as (w & _ & [= <-]).
    apply view_flush; [pace|done| |done..]. intros _. unfold pending. sys. rewrite Hlb, Hwf. simpl. lia.
  - destruct (log_batch_ s) as [|id batch] eqn:Hb; [done|]. intros [= Hs]. apply res_bind_ok in Hs as ([m' cat'] & Hm & [= <-]).
    destruct (queue_live L id ltac:(by left)) as (t & Hl & Hdone). apply CommitBottom_view in Hm as (t0 & t' & d & HT & Hm' & Hk & Hd' & Hdl & Hnum & Hst & Hnx & Hck & Hfl & Hsq).
    assert (t0 = t) as -> by (destruct Hl; congruence).
    eapply (view_local s _ _ id Waiting t Waiting t'); [|done| | |done| |by constructor|done| |done|done]; [split; sys; [lia|done]| | | |sys; by rewrite (insert_id _ _ _ (proj1 Hl))].
    3:{ cbn [settles]. sys. rewrite Hb, Hm', lookup_insert_eq. split; [done|]. split; [done|]. split; [done|]. by exists d. }
    all: unfold pending; sys; rewrite Hb, Hck, Hfl; simpl; lia.
  - intros [= <-]. unfold GetCleanupScanTS. destruct (first_alive _ _ _) as [least begun]. apply view_flush; [pace|done|by intros []|done..].
Qed.

(** ** Who may still commit, and who has been checked *)

Definition committed hist (id : Z) t : Prop := hist !! id = Some t ∧ GetTxnType t = TxnType.kWrite ∧ Txn_State t = kCommitted.

Definition contender (g : stage) t : Prop :=
  match g with
  | Committing | Prepared | Checking _ | Waiting | Finishing => True
  | Sending => is_Some (wal_entry_ t)
  | _ => False
  end.

Definition passed (g : stage) t (l : list Z) : Prop :=
  match g with
  | Checking l' => l = l'
  | Sending => is_Some (wal_entry_ t) ∧ l = []
  | Waiting | Finishing => l = []
  | _ => False
  end.

Definition known T G hist (id : Z) t : Prop := (∃ g, live T G id g t ∧ contender g t) ∨ committed hist id t.

(** [l] are the candidates that have not been compared yet. *)
Definition checked T G hist (id : Z) t (l : list Z) : Prop := (∃ g, live T G id g t ∧ passed g t l) ∨ (committed hist id t ∧ l = []).

Definition no_conflict (K : gmap Z TxnStore) (l : list Z) (id1 : Z) t1 (id2 : Z) t2 : Prop :=
  id1 ∈ l ∨ (Txn_State t1 = kCommitted ∧ CommittedTS t1 ≤ BeginTS t2) ∨
  ∃ store, K !! id2 = Some store ∧ store_CheckConflict store (txn_store_ t1) = false.

Record conf T G hist (K : gmap Z TxnStore) : Prop := {
  conf_checked : ∀ id1 t1 id2 t2 l,
    known T G hist id1 t1 → checked T G hist id2 t2 l → CommitTS t1 < CommitTS t2 → no_conflict K l id1 t1 id2 t2;
  conf_stamped : ∀ id1 ts t1 id2 t2 l, live T G id1 (StampedW ts) t1 → checked T G hist id2 t2 l → CommitTS t2 < ts;
  conf_noted : ∀ id l t, live T G id (Checking l) t → K !! id = Some (txn_store_ t);
}.

Definition conf_of s : Prop := conf (txn_map_ (mgr s)) (stages s) (history_ s) (checked_ s).

(** Whoever collects candidates in the step finds every transaction with an earlier timestamp in the
    state [kCommitting]. *)
Definition stamps_first s s' : Prop := ∀ id l t j ts,
  stages s !! id = Some Prepared → stages s' !! id = Some (Checking l) → txn_map_ (mgr s) !! id = Some t →
  stages s !! j = Some (StampedW ts) → CommitTS t < ts.

Inductive careful : System → Prop :=
| careful_initial start_txn_id start_ts enable_compaction cat :
    0 ≤ start_txn_id → 0 ≤ start_ts → careful (initial start_txn_id start_ts enable_compaction cat)
| careful_step s e s' : careful s → fresh s → exec s e = Some (Ok s') → stamps_first s s' → careful s'.

Lemma careful_reach s : careful s → reach s.
Proof. induction 1; [by constructor|by econstructor]. Qed.

(** A transaction that changed in nothing that matters. *)
Definition alike t t' : Prop :=
  BeginTS t' = BeginTS t ∧ CommitTS t' = CommitTS t ∧
  (Txn_State t = kCommitted → Txn_State t' = kCommitted ∧ CommittedTS t' = CommittedTS t) ∧ same_target (txn_store_ t) (txn_store_ t').

Lemma keeps_alike t t' : keeps t t' → alike t t'.
Proof. intros [Hc Hs]. unfold alike, BeginTS, CommitTS, Txn_State, CommittedTS. by rewrite Hc. Qed.

Lemma alike_refl t : alike t t.
Proof. done. Qed.

Lemma no_conflict_alike K l id1 t1 id2 t2 t1' t2' :
  no_conflict K l id1 t1 id2 t2 → alike t1 t1' → alike t2 t2' → no_conflict K l id1 t1' id2 t2'.
Proof.
  intros H (_ & _ & Hc1 & Hs1) (Hb2 & _). destruct H as [?|[[Hst ?]|(st & Hst & Hn)]]; [by left|right; left|right; right].
  - destruct (Hc1 Hst) as [-> ->]. by rewrite Hb2.
  - exists st. by rewrite Hs1.
Qed.

Lemma conf_mono T G hist T' G' hist' K :
  conf T G hist K →
  (∀ id t', known T' G' hist' id t' → (∃ t, known T G hist id t ∧ alike t t') ∨ ∀ id2 t2 l, checked T' G' hist' id2 t2 l → CommitTS t2 ≤ CommitTS t') →
  (∀ id t' l, checked T' G' hist' id t' l → ∃ t, checked T G hist id t l ∧ alike t t') →
  (∀ id ts t', live T' G' id (StampedW ts) t' → (∃ t, live T G id (StampedW ts) t) ∨ ∀ id2 t2 l, checked T G hist id2 t2 l → CommitTS t2 < ts) →
  (∀ id l t', live T' G' id (Checking l) t' → live T G id (Checking l) t') →
  conf T' G' hist' K.
Proof.
  intros [H1 H2 H3] HK HP HS HN. split.
  - intros id1 t1 id2 t2 l N P Hlt. destruct (HK _ _ N) as [(t1' & N' & A1)|Hle]; [|specialize (Hle _ _ _ P); lia].
    destruct (HP _ _ _ P) as (t2' & P' & A2). apply (no_conflict_alike K l id1 t1' id2 t2'); [|done..].
    apply (H1 id1 t1' id2 t2' l N' P'). destruct A1 as (_ & E1 & _), A2 as (_ & E2 & _). lia.
  - intros id1 ts t1 id2 t2 l Hs P. destruct (HP _ _ _ P) as (t2' & P' & (_ & -> & _)). destruct (HS _ _ _ Hs) as [[t1' Hs']|Hlt]; [by eapply H2|by eapply Hlt].
  - intros id l t Hl. by eapply H3, HN.
Qed.

Section Update.
Variables (T : gmap Z Txn) (G : gmap Z stage) (hist : gmap Z Txn) (id : Z) (g' : stage) (t' : Txn).
Hypothesis Hh : hist !! id = None.

Lemma known_update j tj :
  known (<[id := t']> T) (<[id := g']> G) hist j tj ↔ (j = id ∧ tj = t' ∧ contender g' t') ∨ (j ≠ id ∧ known T G hist j tj).
Proof.
  unfold known, committed. destruct (decide (j = id)) as [->|Hne].
  - rewrite Hh. split; [|intros [(_ & -> & ?)|[? _]]; [|done]; left; exists g'; split; [by apply live_update; left|done]].
    intros [(g & [(_ & -> & ->)|[? _]]%live_update & ?)|[[=] _]]; [by left|done].
  - setoid_rewrite live_update. naive_solver.
Qed.

Lemma checked_update j tj l :
  checked (<[id := t']> T) (<[id := g']> G) hist j tj l ↔ (j = id ∧ tj = t' ∧ passed g' t' l) ∨ (j ≠ id ∧ checked T G hist j tj l).
Proof.
  unfold checked, committed. destruct (decide (j = id)) as [->|Hne].
  - rewrite Hh. split; [|intros [(_ & -> & ?)|[? _]]; [|done]; left; exists g'; split; [by apply live_update; left|done]].
    intros [(g & [(_ & -> & ->)|[? _]]%live_update & ?)|[[[=] _] _]]; [by left|done].
  - setoid_rewrite live_update. naive_solver.
Qed.
End Update.

(** A step of one transaction that brings no new contender and no new check. *)
Lemma conf_local T G hist K id g t g' t' :
  conf T G hist K → (∀ l, g' ≠ Checking l) → live T G id g t → hist !! id = None → alike t t' ∨ ¬ contender g' t' →
  (contender g' t' → contender g t) → (∀ l, passed g' t' l → passed g t l) →
  (∀ ts, g' = StampedW ts → ∀ id2 t2 l, checked T G hist id2 t2 l → CommitTS t2 < ts) →
  conf (<[id := t']> T) (<[id := g']> G) hist K.
Proof.
  intros Hconf Hng Hl Hh Ha Hc Hp Hs. apply (conf_mono T G hist); [done|..].
  - intros j tj [(-> & -> & Hcj)|[? Hk]]%known_update; [|left; by exists tj|done]. left. exists t. split; [|by destruct Ha].
    left. exists g. split; [done|by apply Hc].
  - intros j tj l [(-> & -> & Hpj)|[? Hk]]%checked_update; [|by exists tj|done]. exists t. split; [left; exists g; split; [done|by apply Hp]|].
    destruct Ha as [?|Hnc]; [done|]. destruct Hnc. destruct g'; try done. by destruct Hpj.
  - intros j ts tj [(-> & <- & ->)|[? Hk]]%live_update; [right; by eapply Hs|left; by exists tj].
  - intros j l tj [(-> & Hg & _)|[? Hk]]%live_update; [by destruct (Hng l)|done].
Qed.

Lemma checked_bound s id t l : inv s → checked (txn_map_ (mgr s)) (stages s) (history_ s) id t l → CommitTS t ≤ start_ts_ (mgr s).
Proof.
  intros (C & _) [(g & Hl & _)|[(Hh & Hw & _) _]].
  - by apply (core_ok C _ _ _ Hl).
  - by apply (core_hist_ok C _ _ Hh Hw).
Qed.

Lemma no_conflict_other K l id1 t1 id2 t2 id store :
  id2 ≠ id → no_conflict K l id1 t1 id2 t2 → no_conflict (<[id := store]> K) l id1 t1 id2 t2.
Proof. intros Hne [?|[?|(st & ? & ?)]]; [by left|right; by left|right; right; exists st]. by rewrite lookup_insert_ne. Qed.

(** Collecting the candidates: nobody who may still commit before is left out. *)
Lemma conf_gather s id t l :
  inv s → conf_of s → live (txn_map_ (mgr s)) (stages s) id Prepared t →
  (∀ c, c ∈ l ↔ ∃ tc, txn_map_ (mgr s) !! c = Some tc ∧ GetTxnType tc = TxnType.kWrite ∧ is_candidate (BeginTS t) (CommitTS t) tc = true) →
  (∀ j ts, stages s !! j = Some (StampedW ts) → CommitTS t < ts) →
  conf (txn_map_ (mgr s)) (<[id := Checking l]> (stages s)) (history_ s) (<[id := txn_store_ t]> (checked_ s)).
Proof.
  intros I [H1 H2 H3] Hl Hcand Hst. pose proof I as (C & _). pose proof (not_in_history s id _ t I Hl ltac:(done)) as Hh. pose proof Hl as [HG HT].
  rewrite <- (insert_id (txn_map_ (mgr s)) id t HT). split.
  - intros id1 t1 id2 t2 l2 [(-> & -> & _)|[Hne1 K]]%(known_update _ _ _ _ _ _ Hh) [(-> & -> & Hp)|[Hne2 P]]%(checked_update _ _ _ _ _ _ Hh) Hlt; [lia| | |].
    + apply no_conflict_other; [done|]. eapply H1; [left; exists Prepared; done|done|done].
    + simpl in Hp. subst l2. unfold no_conflict. destruct K as [(g1 & Hl1 & Hc1)|(Hh1 & Hw1 & Hs1)].
      * left. apply Hcand. exists t1. split; [apply Hl1|]. pose proof (core_ok C _ _ _ Hl1) as (_ & _ & Hok1).
        assert (committing t1) as (Hs1 & Hw1 & _) by (destruct g1; try done; by destruct Hok1). split; [done|].
        unfold is_candidate. rewrite Hs1. lia.
      * destruct (txn_map_ (mgr s) !! id1) as [t1'|] eqn:HT1.
        -- destruct (core_stage C _ _ HT1) as [g1 HG1]. assert (g1 = Done) as -> by (pose proof (proj1 (core_hist C id1) (mk_is_Some _ _ Hh1)); congruence).
           pose proof (core_hist_live C id1 t1' (conj HG1 HT1)) as Hh1'. assert (t1' = t1) as -> by congruence.
           destruct (Z.ltb_spec (BeginTS t) (CommittedTS t1)) as [Hov|Hov]; [left|right; by left].
           apply Hcand. exists t1. split; [done|]. split; [done|]. unfold is_candidate. rewrite Hs1. by apply Z.ltb_lt.
        -- right. left. split; [done|]. apply (core_gone C id1 t1 id Prepared t); try done.
           by destruct (core_ok C _ _ _ Hl) as (_ & _ & (-> & _) & _).
    + apply no_conflict_other; [done|]. by eapply H1.
  - intros id1 ts t1 id2 t2 l2 [(-> & [=] & _)|[_ Hl1]]%live_update [(-> & -> & _)|[_ P]]%(checked_update _ _ _ _ _ _ Hh); [|by eapply H2].
    by apply (Hst id1), Hl1.
  - intros j l' tj [(-> & _ & ->)|[? Hk]]%live_update; [apply lookup_insert_eq|]. rewrite lookup_insert_ne by done. by eapply H3.
Qed.

Ltac no_contender g := eapply (conf_local _ _ _ _ _ g); first [done|right; by intros []|by intros []|by intros ? []].

Lemma conf_step s e s' : inv s → conf_of s → view s e s' → stamps_first s s' → conf_of s'.
Proof.
  intros I Hconf Hv Hq. pose proof I as (C & _).
  assert (Hbound : ∀ id2 t2 l, checked (txn_map_ (mgr s)) (stages s) (history_ s) id2 t2 l → CommitTS t2 < start_ts_ (mgr s) + 1).
  { intros id2 t2 l P%(checked_bound s); [lia|done]. }
  unfold conf_of. destruct Hv as [s' id g t g' t' _ _ _ _ Hl _ Htr HT HG Hh HK|s' id t' _ HGn _ _ HT HG Hh HK|s' _ _ _ HT HG Hh HK|s' id g t _ _ _ Hl Hg HG Hh HK Hmap]; rewrite ?HT, ?HG, ?Hh, ?HK; cbn [noted].
  - pose proof Hl as [HGid HTid]. assert (Hnd : g ≠ Done) by (intros ->; inversion Htr; naive_solver).
    pose proof (not_in_history s id g t I Hl Hnd) as Hhid.
    destruct Htr as [t t' Hb|t g' t' Hg' Hb Hct|ts t t'|ts t t' Hct Hb|t t' Hk|t l _ Hcand|c l t tc Hc Hcf|c l t t' Hw Hk|t t' Hw Hk|t Hw|t Hw|ts g t t' Hg|t t' Hk Hd Hd'|t t' Hk Hd].
    + no_contender Running.
    + destruct Hg' as [-> |[-> | ->]]; [no_contender Running..|]. eapply (conf_local _ _ _ _ id Running t); first [done|right; by intros []|by intros []|by intros ? []|idtac]. intros ts [= <-] id2 t2 l P. by eapply Hbound.
    + no_contender (StampedR ts).
    + (* a new contender *) apply (conf_mono _ _ _ _ _ _ _ Hconf).
      * intros j tj [(-> & -> & _)|[? Hk]]%(known_update _ _ _ _ _ _ Hhid); [right|left; by exists tj].
        intros id2 t2 l [(-> & -> & [])|[? P]]%(checked_update _ _ _ _ _ _ Hhid). apply Z.lt_le_incl. rewrite Hct. by eapply (conf_stamped _ _ _ _ Hconf id ts t).
      * intros j tj l [(-> & -> & [])|[? P]]%(checked_update _ _ _ _ _ _ Hhid). by exists tj.
      * intros j ts' tj [(-> & [=] & ->)|[? Hk]]%live_update. left. by exists tj.
      * by intros j l tj [(-> & [=] & ->)|[? Hk]]%live_update.
    + eapply (conf_local _ _ _ _ id Committing t); try done. left. by apply keeps_alike.
    + (* the candidates *) rewrite (insert_id _ _ _ HTid). eapply conf_gather; try done. intros j ts Hj. eapply (Hq id l t j ts); try done. rewrite HG. apply lookup_insert_eq.
    + (* a candidate without a conflict *) rewrite (insert_id _ _ _ HTid). destruct Hconf as [H1 H2 H3]. rewrite <- (insert_id (txn_map_ (mgr s)) id t HTid). split.
      * intros id1 t1 id2 t2 l2 [(-> & -> & _)|[Hne1 K]]%(known_update _ _ _ _ _ _ Hhid) [(-> & -> & Hp)|[Hne2 P]]%(checked_update _ _ _ _ _ _ Hhid) Hlt; [lia| | |by eapply H1].
        -- eapply H1; [left; exists (Checking (c :: l)); done|done|done].
        -- simpl in Hp. subst l2. destruct (H1 id1 t1 id t (c :: l) K) as [[-> |?]%elem_of_cons|?]; [|done| |by left|by right].
           { left. exists (Checking (c :: l)). done. }
           right. right. exists (txn_store_ t). split; [by apply (H3 id (c :: l) t)|]. assert (t1 = tc) as ->; [|done]. destruct K as [(g1 & [_ ?] & _)|(Hh1 & _)]; [congruence|].
           destruct (core_stage C _ _ Hc) as [gc HGc]. pose proof (proj1 (core_hist C c) (mk_is_Some _ _ Hh1)).
           assert (gc = Done) as -> by congruence. pose proof (core_hist_live C c tc (conj HGc Hc)). congruence.
      * intros id1 ts t1 id2 t2 l2 [(-> & [=] & _)|[_ Hl1]]%live_update [(-> & -> & Hp)|[_ P]]%(checked_update _ _ _ _ _ _ Hhid); [|by eapply H2].
        eapply (H2 id1 ts t1 id t (c :: l) Hl1). left. by exists (Checking (c :: l)).
      * intros j l' tj [(-> & _ & ->)|[? Hk]]%live_update; [by apply (H3 id (c :: l) t)|by eapply H3].
    + eapply (conf_local _ _ _ _ id (Checking (c :: l)) t); first [done|right; intros [? ?]; congruence|intros ? [[? ?] _]; congruence].
    + eapply (conf_local _ _ _ _ id (Checking []) t); try done; [left; by apply keeps_alike|]. by intros l [_ ->].
    + eapply (conf_local _ _ _ _ id Sending t); first [done|by left|by intros l ->].
    + no_contender Sending.
    + destruct Hg as [-> | ->]; [no_contender Failed|no_contender (StampedAbort ts)].
    + eapply (conf_local _ _ _ _ id Waiting t); try done. left. by apply keeps_alike.
    + eapply (conf_local _ _ _ _ id Waiting t); try done. left. by apply keeps_alike.
  - assert (Hhid : history_ s !! id = None). { apply eq_None_not_Some. intros ?%(core_hist C). congruence. }
    apply (conf_mono _ _ _ _ _ _ _ Hconf).
    + intros j tj [(-> & -> & [])|[? Hk]]%(known_update _ _ _ _ _ _ Hhid). left. by exists tj.
    + intros j tj l [(-> & -> & [])|[? P]]%(checked_update _ _ _ _ _ _ Hhid). by exists tj.
    + intros j ts tj [(-> & [=] & ->)|[? Hk]]%live_update. left. by exists tj.
    + by intros j l tj [(-> & [=] & ->)|[? Hk]]%live_update.
  - done.
  - pose proof Hl as [HGid HTid]. assert (Hnd : g ≠ Done) by naive_solver. pose proof (not_in_history s id g t I Hl Hnd) as Hhid.
    pose proof (core_ok C _ _ _ Hl) as Hok.
    assert (Hlive : ∀ j gj tj, gj ≠ Done → live (txn_map_ (mgr s')) (<[id := Done]> (stages s)) j gj tj → j ≠ id ∧ live (txn_map_ (mgr s)) (stages s) j gj tj).
    { intros j gj tj Hgj [HGj HTj]. destruct (decide (j = id)) as [->|?]; [rewrite lookup_insert_eq in HGj; congruence|].
      rewrite lookup_insert_ne in HGj by done. split; [done|]. split; [done|]. rewrite Hmap in HTj; [done..|congruence]. }
    assert (Hcom : ∀ j tj, committed (<[id := finished (mgr s) t]> (history_ s)) j tj →
      (j = id ∧ g = Finishing ∧ alike t tj) ∨ committed (history_ s) j tj).
    { intros j tj (Hj & Hw & Hs). apply lookup_insert_Some in Hj as [[<- <-]|[? Hj]]; [left|by right]. split; [done|].
      destruct Hg as [-> |[-> | ->]]; destruct Hok as (_ & _ & Hok).
      - destruct Hok as [_ Hr]. unfold finished in Hw. rewrite Hr in Hw. congruence.
      - destruct Hok as [(Hs' & Hw' & _) _]. split; [done|]. unfold finished. rewrite Hs', Hw'. split_and!; try done. congruence.
      - destruct Hok as [Hr _]. unfold finished in Hs. destruct (GetTxnType t); rewrite ?Hr in Hs; txn; congruence. }
    apply (conf_mono _ _ _ _ _ _ _ Hconf).
    + intros j tj [(gj & Hlj & Hc)|[(-> & -> & Ha)|Hcm]%Hcom]; left.
      * apply Hlive in Hlj as [? Hlj]; [|by destruct gj]. exists tj. split; [left; by exists gj|done].
      * exists t. split; [left; by exists Finishing|done].
      * exists tj. split; [by right|done].
    + intros j tj l [(gj & Hlj & Hc)|[[(-> & -> & Ha)|Hcm]%Hcom ->]].
      * apply Hlive in Hlj as [? Hlj]; [|by destruct gj]. exists tj. split; [left; by exists gj|done].
      * exists t. split; [left; by exists Finishing|done].
      * exists tj. split; [by right|done].
    + intros j ts tj [? Hlj]%Hlive; [|done]. left. by exists tj.
    + by intros j l tj [? Hlj]%Hlive.
Qed.

Lemma careful_conf s : careful s → conf_of s.
Proof.
  induction 1 as [|s e s' Hc IH Hf He Hq].
  - unfold conf_of, initial, Start. sys. split.
    + intros id1 t1 id2 t2 l [(g & [Hg _] & _)|(Hh & _)]; [by rewrite lookup_empty in Hg|by rewrite lookup_empty in Hh].
    + intros id1 ts t1 id2 t2 l [Hg _]. by rewrite lookup_empty in Hg.
    + intros id1 l t1 [Hg _]. by rewrite lookup_empty in Hg.
  - pose proof (reach_system_inv _ (careful_reach _ Hc)) as I. eapply conf_step; try done. by eapply exec_view.
Qed.
End Conflicts.
