(* ===== verification/TxnLive.v ===== *)
(** * Transactions finish

    Once clients only commit or abort, every transaction comes to its end whatever the order in which
    the threads run: every step shortens the way to the end, and as long as a transaction has not
    finished some thread can go on. *)

From Stdlib Require Import ZArith Lia List Sorted.
From stdpp Require Import base list numbers gmap sets sorting.
From S2P Require Import Prelude Bytes WalEntry CatalogDelta TxnManager TxnInv TxnConflict.
Local Open Scope Z_scope.

Section Live.
Context {B : Type} `{Ops : !TxnStoreOps} `{Laws : !TxnStoreLaws}.
Import TxnState.

Notation Txn := (Txn B).
Notation System := (System B).
Implicit Types (s : System) (t : Txn) (G : gmap Z stage).

(** The steps a transaction has before it, [n] being the number of transactions. *)
Definition rank (n : nat) (g : stage) : nat :=
  match g with
  | Done => 0
  | CommittedR | Finishing | RolledBack => 1
  | StampedR _ | StampedAbort _ | Failed | Waiting => 2
  | Sending => 10
  | Checking l => 11 + length l
  | Prepared => 12 + n
  | Committing => 13 + n
  | StampedW _ => 14 + n
  | Running => 15 + n
  end.

Definition total (n : nat) G : nat := sum_list_with (λ e, rank n e.2) (map_to_list G).

Definition steps_left s : nat := total (size (stages s)) (stages s) + pending s.

Lemma total_rank_delete n G id g : G !! id = Some g → total n G = (rank n g + total n (delete id G))%nat.
Proof. intros H. unfold total. by rewrite <- (map_to_list_delete G id g H). Qed.

Lemma total_rank_insert n G id g g' : G !! id = Some g → (total n (<[id := g']> G) + rank n g = total n G + rank n g')%nat.
Proof.
  intros H. rewrite (total_rank_delete n G id g H), (total_rank_delete n (<[id := g']> G) id g') by apply lookup_insert_eq.
  rewrite delete_insert_eq. lia.
Qed.

Lemma size_insert_same G id g g' : G !! id = Some g → size (<[id := g']> G) = size G.
Proof. intros H. apply map_size_insert_Some. by rewrite H. Qed.

Lemma size_txns s : inv s → (size (txn_map_ (mgr s)) ≤ size (stages s))%nat.
Proof.
  intros (C & _). rewrite <- !size_dom. apply subseteq_size. intros id [t Ht]%elem_of_dom. apply elem_of_dom. by eapply (core_stage C).
Qed.

(** Every step towards the end shortens the way. *)
Lemma ending_step s e s' :
  inv s → fresh s → ending e → exec s e = Some (Ok s') → (steps_left s' < steps_left s)%nat ∧ pace s s'.
Proof.
  intros I Hf He Hs. pose proof (exec_view s e s' I Hf Hs) as Hv. unfold steps_left.
  destruct Hv as [s' id g t g' t' Hp Hrun Hpd Hpw Hl _ Htr HT HG Hh _|s' id t' Hne|s' Hp _ Hpd HT HG Hh|s' id g t Hp _ Hpd Hl Hg HG Hh _ Hmap].
  - split; [|done]. pose proof (total_rank_insert (size (stages s)) (stages s) id g g' (proj1 Hl)) as Ht. specialize (Hrun He).
    rewrite HG, (size_insert_same _ _ g) by apply Hl. pose proof (size_txns s I) as Hn. unfold rank in Ht.
    destruct Htr as [| t g' t' Hg'| | | | | | | | | |ts g t t' Hg| |]; try (simpl in Ht; lia).
    + by destruct Hrun.
    + destruct Hg' as [-> |[-> | ->]]; lia.
    + destruct Hg as [-> | ->]; lia.
    + specialize (Hpw eq_refl eq_refl). lia.
  - done.
  - rewrite HG. specialize (Hpd He). split; [lia|done].
  - split; [|done]. pose proof (total_rank_insert (size (stages s)) (stages s) id g Done (proj1 Hl)) as Ht.
    rewrite HG, (size_insert_same _ _ g) by apply Hl. destruct Hg as [-> |[-> | ->]]; simpl in Ht; lia.
Qed.

Definition all_done s : Prop := map_Forall (λ _ g, g = Done) (stages s).

#[export] Instance all_done_dec s : Decision (all_done s).
Proof. unfold all_done. apply _. Defined.

(** No deadlock: some thread can go on. *)
Lemma progress s : inv s → ¬ all_done s → ∃ e, ending e ∧ is_Some (exec s e).
Proof.
  intros (C & [L Hh] & _) (id & g & HG & Hg)%map_not_Forall; [|apply _].
  assert (Hunsent : ∀ j gj tj ts, live (txn_map_ (mgr s)) (stages s) j gj tj → unsent gj tj = Some ts → is_Some (thread s j)).
  { intros j gj tj ts [HGj _] Hu. unfold thread. rewrite HGj. destruct gj as [| | | | | |[]| | | | | | |]; try done; eauto. }
  destruct (decide (g = Running)) as [->|Hr]; [exists (Commit id); split; [done|]; cbn [exec]; rewrite HG; eauto|].
  destruct (decide (g = Waiting)) as [->|Hw].
  2:{ exists (Thread id). split; [done|]. cbn [exec]. unfold thread. rewrite HG. destruct g as [| | | | | |[]| | | | | | |]; try done; eauto. }
  destruct (core_alive C _ _ HG) as [t HT]; [done|]. destruct (done_bottom_ t) eqn:Hd.
  { exists (Thread id). split; [done|]. cbn [exec]. unfold thread, deref. rewrite HG, HT, Hd. eauto. }
  destruct (log_batch_ s) as [|b batch] eqn:Hb; [|exists Bottom; split; [done|]; cbn [exec]; rewrite Hb; eauto].
  destruct (wait_flush_ (mgr s)) as [|f flush] eqn:Hfl; [|exists Flush; split; [done|]; cbn [exec]; rewrite Hb, Hfl; eauto].
  destruct (queue_all L id t (conj HG HT) Hd) as [[]%not_elem_of_nil|Hin].
  destruct (wait_conflict_ck_ (mgr s)) as [|[ts [w|]] ck] eqn:Hck; [by apply not_elem_of_nil in Hin|done|].
  destruct (ck_none L ts ltac:(by left)) as (j & gj & tj & Hlj & Hu). exists (Thread j). split; [done|]. by eapply Hunsent.
Qed.

(** Whatever the threads do, [P] holds after at most [n] steps. *)
Fixpoint within (n : nat) (P : System → Prop) s : Prop :=
  P s ∨
  match n with
  | O => False
  | S n => (∃ e, ending e ∧ is_Some (exec s e)) ∧
           ∀ e r, ending e → exec s e = Some r → ∃ s', r = Ok s' ∧ within n P s'
  end.

(** The clocks have room for [n] steps. *)
Definition room (n : nat) s : Prop :=
  start_ts_ (mgr s) + Z.of_nat n < max_clock ∧ next_txn_id_ (mgr s) < max_clock ∧ next_sequence_ (mgr s) + Z.of_nat n < max_clock.

Lemma seq_nonneg s : reach s → 0 ≤ next_sequence_ (mgr s).
Proof.
  induction 1 as [|s e s' Hr IH Hf Hs]; [done|].
  assert (Hq : next_sequence_ (mgr s') = next_sequence_ (mgr s) ∨ next_sequence_ (mgr s') = cast u64 (next_sequence_ (mgr s) + 1)).
  { by destruct (exec_view s e s' (reach_system_inv _ Hr) Hf Hs) as [? ? ? ? ? ? (_ & Hq & _)|? ? ? ? ? (_ & _ & Hq)|? (_ & Hq & _)|? ? ? ? (_ & Hq & _)]; [|left|..]. }
  destruct Hq as [-> | ->]; [done|]. by destruct (cast_range u64 (next_sequence_ (mgr s) + 1)).
Qed.

(** The operations of the store and the catalog raise no error. *)
Definition sound_catalog : Prop := ∀ s e err, ¬ raised s e err.

Lemma exec_ok s e r : sound_catalog → inv s → fresh s → exec s e = Some r → ∃ s', r = Ok s' ∧ inv s'.
Proof. intros Hc I Hf Hs. destruct (exec_inv s e r I Hf Hs) as [?|(err & _ & []%Hc)]. done. Qed.

Lemma inevitable n s : sound_catalog → reach s → room n s → (steps_left s ≤ n)%nat → within n all_done s.
Proof.
  intros Hcat. revert s. induction n as [|n IH]; intros s Hr (Hts & Hid & Hsq) Hn.
  all: destruct (decide (all_done s)) as [?|Hnd]; [by left|]; right; pose proof (reach_system_inv _ Hr) as I.
  all: destruct (progress s I Hnd) as (e & He & [r Hs]); assert (Hf : fresh s) by (unfold fresh; lia).
  - destruct (exec_ok s e r Hcat I Hf Hs) as (s' & -> & _). apply ending_step in Hs as [Hlt _]; [lia|done..].
  - split; [by exists e|]. clear e He r Hs. intros e r He Hs. destruct (exec_ok s e r Hcat I Hf Hs) as (s' & -> & _). exists s'. split; [done|].
    pose proof (seq_nonneg s Hr) as H0. pose proof Hs as Hs'. apply ending_step in Hs' as [Hlt (Hst & Hsq' & Hid')]; [|done..].
    apply IH; [by econstructor| |lia]. split; [lia|]. split; [lia|]. unfold max_clock in *. destruct Hsq' as [-> | ->]; [lia|].
    rewrite cast_id; [lia|]. change (2 ^ 64) with 18446744073709551616 in *. solve_range.
Qed.
End Live.
