(* ===== verification/TxnDelta.v ===== *)
(** * From transactions to the catalog delta

    The flush thread installs transactions in the order of their commit timestamps and numbers those
    that changed the catalog 1, 2, ...  Each hands its operations over once, in any order; the global
    delta puts them back into that order. *)

From Stdlib Require Import ZArith Lia List Sorted.
From stdpp Require Import base list numbers gmap sets sorting.
From S2P Require Import Prelude Bytes WalEntry CatalogDelta GlobalDelta TxnManager TxnInv TxnConflict TxnLive.
Local Open Scope Z_scope.

Section Delta.
Context {B : Type} `{Ops : !TxnStoreOps} `{Laws : !TxnStoreLaws}.
Import TxnState.

Notation Txn := (Txn B).
Notation System := (System B).
Implicit Types (s : System) (t : Txn) (T : gmap Z Txn) (G : gmap Z stage).

(** The operations a transaction has for the catalog. *)
Definition delta_of t : list CatalogDeltaEntry :=
  match local_catalog_delta_ops_entry_ t with
  | Some d => match operations_ d with [] => [] | _ => [d] end
  | None => []
  end.

(** In the order of installation. *)
Definition deltas (installed : list (Z * Txn)) : list CatalogDeltaEntry := concat (map (λ e, delta_of e.2) installed).

(** The timestamp at which a transaction may still be installed. *)
Definition due (g : stage) t : option Z :=
  match g with
  | Waiting => if done_bottom_ t then None else Some (CommitTS t)
  | _ => unsent g t
  end.

Definition waits T G (id : Z) (d : CatalogDeltaEntry) : Prop :=
  ∃ t, live T G id Waiting t ∧ done_bottom_ t = true ∧ d ∈ delta_of t.

(** The operations that wait are those of the installed transactions that are not handed over. *)
Definition holds T G (submitted all : list CatalogDeltaEntry) : Prop :=
  ∃ held : list (Z * CatalogDeltaEntry), NoDup held.*1 ∧ submitted ++ held.*2 ≡ₚ all ∧ ∀ id d, (id, d) ∈ held ↔ waits T G id d.

Record delivered s : Prop := {
  installed_sorted : StronglySorted (λ a b, CommitTS a.2 < CommitTS b.2) (installed_ s);
  installed_bound : ∀ e, e ∈ installed_ s → CommitTS e.2 ≤ start_ts_ (mgr s);
  installed_due : ∀ e id g t ts,
    e ∈ installed_ s → live (txn_map_ (mgr s)) (stages s) id g t → due g t = Some ts → CommitTS e.2 < ts;
  deltas_numbered : ∀ i d, deltas (installed_ s) !! i = Some d → sequence_ d = 1 + Z.of_nat i;
  deltas_count : next_sequence_ (mgr s) = zlen (deltas (installed_ s)) ∧ next_sequence_ (mgr s) ≤ max_clock;
  deltas_held : holds (txn_map_ (mgr s)) (stages s) (submitted_ s) (deltas (installed_ s));
}.

Lemma delta_of_1 t : delta_of t = [] ∨ ∃ d, delta_of t = [d] ∧ local_catalog_delta_ops_entry_ t = Some d ∧ operations_ d ≠ [].
Proof. unfold delta_of. destruct (local_catalog_delta_ops_entry_ t) as [d|]; [|by left]. destruct (operations_ d) eqn:E; [by left|right; exists d; by rewrite E]. Qed.

Lemma deltas_app l1 l2 : deltas (l1 ++ l2) = deltas l1 ++ deltas l2.
Proof. unfold deltas. by rewrite map_app, concat_app. Qed.

(** Nothing that can still be installed appears with an earlier timestamp. *)
Lemma due_trans start T g t g' t' ts :
  trans start T g t g' t' → due g' t' = Some ts → due g t = Some ts ∨ ts = start + 1.
Proof.
  intros Htr. assert (Hk : ∀ t t', keeps t t' → CommitTS t' = CommitTS t) by (intros ? ? [Hc _]; unfold CommitTS; by rewrite Hc).
  destruct Htr as [| t g' t' Hg'| |ts' t t' Hct| t t' Hkp| | | c l t t' _ Hkp|t t' _ Hkp| | |ts' g t t' Hg|t t' Hkp Hd Hd'|]; simpl; intros Hdue; try done; try by left.
  - destruct Hg' as [-> |[-> | ->]]; simpl in Hdue; [done..|right; congruence].
  - left. congruence.
  - left. by rewrite <- (Hk _ _ Hkp).
  - left. by rewrite <- (Hk _ _ Hkp).
  - left. by rewrite <- (Hk _ _ Hkp).
  - left. by case_match.
  - by rewrite Hd' in Hdue.
Qed.

Lemma quiet_deltas s s' : quiet s s' → delivered s → start_ts_ (mgr s) ≤ start_ts_ (mgr s') →
  (∀ id g t ts, live (txn_map_ (mgr s')) (stages s') id g t → due g t = Some ts →
     start_ts_ (mgr s) < ts ∨ ∃ g0 t0, live (txn_map_ (mgr s)) (stages s) id g0 t0 ∧ due g0 t0 = Some ts) →
  (∀ id d, waits (txn_map_ (mgr s')) (stages s') id d ↔ waits (txn_map_ (mgr s)) (stages s) id d) →
  delivered s'.
Proof.
  intros (Hi & Hs & Hq) [D1 D2 D3 D4 D5 D6] Hst Hdue Hw. split; rewrite ?Hi, ?Hs, ?Hq; try done.
  - intros e He. specialize (D2 e He). lia.
  - intros e id g t ts He Hl Ht. destruct (Hdue id g t ts Hl Ht) as [?|(g0 & t0 & Hl0 & Ht0)]; [specialize (D2 e He); lia|by eapply D3].
  - destruct D6 as (held & ? & ? & Hh). exists held. split; [done|]. split; [done|]. intros id d. by rewrite Hh, Hw.
Qed.

(** What is due in the log is after the transaction that is installed next. *)
Lemma due_after s id t j g tj ts :
  inv s → head (log_batch_ s) = Some id → txn_map_ (mgr s) !! id = Some t → j ≠ id →
  live (txn_map_ (mgr s)) (stages s) j g tj → due g tj = Some ts → CommitTS t < ts.
Proof.
  intros (C & [L _] & _) Hb HT Hne Hl Hd. destruct (log_batch_ s) as [|i batch] eqn:Hbatch; [done|]. injection Hb as ->.
  assert (Hck : ∀ ts w, (ts, w) ∈ wait_conflict_ck_ (mgr s) → CommitTS t < ts).
  { intros ts' w Hin. eapply (queue_ck L id); [by left|done|done]. }
  destruct (decide (g = Waiting)) as [->|Hg].
  - simpl in Hd. destruct (done_bottom_ tj) eqn:Hdn; [done|]. injection Hd as <-.
    destruct (queue_all L j tj Hl Hdn) as [[-> |Hin]%elem_of_cons|Hin]; [done| |by eapply Hck].
    pose proof (queue_order L) as Ho. apply StronglySorted_inv in Ho as [_ Ho]. rewrite Forall_forall in Ho.
    apply (Ho j Hin t tj); [done|apply Hl].
  - apply (Hck ts None). eapply (ck_unsent L j g tj); [done|]. by destruct g.
Qed.

Lemma waits_update T G id g' t' j d :
  (waits (<[id := t']> T) (<[id := g']> G) j d ↔ (j = id ∧ g' = Waiting ∧ done_bottom_ t' = true ∧ d ∈ delta_of t') ∨ (j ≠ id ∧ waits T G j d)).
Proof.
  unfold waits. setoid_rewrite live_update. split.
  - intros (tj & [(-> & <- & ->)|[? ?]] & ? & ?); [by left|right; split; [done|by exists tj]].
  - intros [(-> & -> & ? & ?)|[? (tj & ? & ? & ?)]]; [exists t'; split; [by left|done]|exists tj; split; [by right|done]].
Qed.

Lemma waits_own T G id g t d : live T G id g t → waits T G id d ↔ g = Waiting ∧ done_bottom_ t = true ∧ d ∈ delta_of t.
Proof.
  intros Hl. split; [|intros (-> & ? & ?); by exists t]. intros (t' & Hl' & ? & ?). by destruct (live_fun _ _ _ _ _ _ _ Hl Hl') as [<- ->].
Qed.

Lemma holds_bottom T G id t t' submitted all :
  holds T G submitted all → live T G id Waiting t → done_bottom_ t = false → done_bottom_ t' = true →
  holds (<[id := t']> T) (<[id := Waiting]> G) submitted (all ++ delta_of t').
Proof.
  intros (held & Hnd & Hperm & Hheld) Hl Hd Hd'. exists (held ++ map (pair id) (delta_of t')).
  assert (Hid : id ∉ held.*1).
  { intros ([j d'] & -> & Hin)%list_elem_of_fmap. apply Hheld, (waits_own _ _ _ _ _ _ Hl) in Hin as (_ & ? & _). congruence. }
  split; [|split].
  - rewrite fmap_app. apply NoDup_app. split; [done|]. destruct (delta_of_1 t') as [-> |(d & -> & _)]; simpl; [split; [intros ? ? []%not_elem_of_nil|constructor]|].
    split; [|apply NoDup_singleton]. by intros x Hx ->%list_elem_of_singleton.
  - rewrite fmap_app, <- Hperm, app_assoc. f_equiv. by destruct (delta_of_1 t') as [-> |(d & -> & _)].
  - intros j d. rewrite waits_update, elem_of_app, Hheld. rewrite (list_elem_of_fmap (pair id)). split.
    + intros [Hw|(d' & [= -> ->] & Hin)]; [|by left]. right. split; [|done]. intros ->. by apply (waits_own _ _ _ _ _ _ Hl) in Hw as (_ & ? & _); congruence.
    + intros [(-> & _ & _ & Hin)|[_ Hw]]; [right; by exists d|by left].
Qed.

Lemma holds_submit T G id t t' submitted all :
  holds T G submitted all → live T G id Waiting t → done_bottom_ t = true →
  holds (<[id := t']> T) (<[id := Finishing]> G) (submitted ++ delta_of t) all.
Proof.
  intros (held & Hnd & Hperm & Hheld) Hl Hd. destruct (delta_of_1 t) as [Hno|(d & Hone & _)].
  - exists held. rewrite Hno, app_nil_r. split; [done|]. split; [done|]. intros j d. rewrite waits_update, Hheld. split; [|naive_solver].
    intros Hw. right. split; [|done]. intros ->. apply (waits_own _ _ _ _ _ _ Hl) in Hw as (_ & _ & Hin). rewrite Hno in Hin. by apply not_elem_of_nil in Hin.
  - assert (Hin : (id, d) ∈ held). { apply Hheld, (waits_own _ _ _ _ _ _ Hl). rewrite Hone. split; [done|]. split; [done|]. by left. }
    apply elem_of_Permutation in Hin as [held' Hp]. exists held'. rewrite Hp in Hnd, Hperm. simpl in *. apply NoDup_cons in Hnd as [Hid Hnd].
    split; [done|]. split; [by rewrite Hone, <- app_assoc|]. intros j d'. rewrite waits_update, <- Hheld, Hp, elem_of_cons. split; [|naive_solver].
    intros Hj. right. split; [|by right]. intros ->. apply Hid, list_elem_of_fmap. by exists (id, d').
Qed.

(** [CommitBottom] of the next transaction. *)
Lemma delivered_bottom s s' id t t' :
  inv s → fresh s → delivered s → live (txn_map_ (mgr s)) (stages s) id Waiting t →
  CommitTS t' = CommitTS t → done_bottom_ t = false → done_bottom_ t' = true → settles s s' id t Waiting t' →
  start_ts_ (mgr s) ≤ start_ts_ (mgr s') →
  txn_map_ (mgr s') = <[id := t']> (txn_map_ (mgr s)) → stages s' = <[id := Waiting]> (stages s) → delivered s'.
Proof.
  intros I Hf [D1 D2 D3 D4 [D5 D5'] D6] Hl Hct Hd Hd' (Hb & Hi & Hs & d & Hdl & Hnum) Hst HT HG.
  pose proof I as (C & _). pose proof (core_ok C _ _ _ Hl) as (_ & Hcb & _).
  assert (Hlast : ∀ e, e ∈ installed_ s → CommitTS e.2 < CommitTS t).
  { intros e He. apply (D3 e id Waiting t _ He Hl). simpl. by rewrite Hd. }
  assert (Hone : delta_of t' = match operations_ d with [] => [] | _ => [d] end) by (unfold delta_of; by rewrite Hdl).
  assert (Hds : deltas (installed_ s') = deltas (installed_ s) ++ delta_of t'). { rewrite Hi, deltas_app. unfold deltas at 2. simpl. by rewrite app_nil_r. }
  assert (Hnum' : next_sequence_ (mgr s') = zlen (deltas (installed_ s')) ∧ next_sequence_ (mgr s') ≤ max_clock ∧ ∀ d', d' ∈ delta_of t' → delta_of t' = [d'] ∧ sequence_ d' = next_sequence_ (mgr s')).
  { rewrite Hds, Hone. unfold numbered in Hnum. destruct (operations_ d); [rewrite app_nil_r, Hnum; split_and!; [done|done|]; intros d' Hin; by apply not_elem_of_nil in Hin|].
    destruct Hnum as (-> & Hsq & _). destruct Hf as (_ & _ & Hf). unfold max_clock in *. change (2 ^ 64) with 18446744073709551616 in *.
    rewrite cast_id in * by (unfold zlen in *; solve_range). unfold zlen in *. rewrite length_app. simpl. split; [lia|]. split; [lia|]. intros d' ->%list_elem_of_singleton. done. }
  destruct Hnum' as (Hn1 & Hn2 & Hn3). split.
  - rewrite Hi. apply StronglySorted_app_2; [|done|by repeat constructor]. intros a b Ha ->%list_elem_of_singleton. simpl. rewrite Hct. by apply Hlast.
  - rewrite Hi. intros e [He| ->%list_elem_of_singleton]%elem_of_app; [specialize (D2 e He); lia|simpl; lia].
  - rewrite HT, HG, Hi. intros e j g tj ts He Hlj Hts. apply live_update in Hlj as [(-> & -> & ->)|[Hne Hlj]]; [simpl in Hts; by rewrite Hd' in Hts|].
    apply elem_of_app in He as [He| ->%list_elem_of_singleton]; [by eapply D3|]. simpl. rewrite Hct. eapply due_after; try done. apply Hl.
  - rewrite Hds. intros i d' [Hi'|[Hge Hi']]%lookup_app_Some; [by apply D4|]. destruct (Hn3 d' ltac:(by eapply list_elem_of_lookup_2)) as [He Hsq].
    rewrite He in Hi'. apply list_lookup_singleton_Some in Hi' as [Hi' _]. rewrite Hsq, Hn1, Hds, He. unfold zlen. rewrite length_app. simpl. lia.
  - done.
  - rewrite Hs, HT, HG, Hds. by apply (holds_bottom _ _ id t).
Qed.

Lemma delivered_step s e s' : inv s → fresh s → delivered s → view s e s' → delivered s'.
Proof.
  intros I Hf D Hv. pose proof I as (C & _). pose proof (deltas_held _ D) as D6.
  destruct Hv as [s' id g t g' t' (Hst & _) _ _ _ Hl Hset Htr HT HG _ _|s' id t' _ HGn Hq Hst HT HG _ _|s' (Hst & _) Hq _ HT HG _ _|s' id g t (Hst & _) Hq _ Hl Hg HG _ _ Hmap].
  - destruct (decide (g = Waiting)) as [->|Hg].
    + assert (Hk : ∀ t', keeps t t' → CommitTS t' = CommitTS t) by (intros ? [Hc _]; unfold CommitTS; by rewrite Hc).
      inversion Htr as [| | | | | | | | | | | |? ? Hkp Hd Hd'|? ? Hkp Hd]; subst; [naive_solver|eapply (delivered_bottom s s' id t t'); try done; [by apply Hk|lia]|].
      destruct Hset as (Hi & Hsq & d & Hdl & Hs). destruct D as [D1 D2 D3 D4 D5 _]. split; rewrite ?Hi, ?Hsq; try done.
      * intros e0 He. specialize (D2 e0 He). lia.
      * rewrite HT, HG. intros e0 j gj tj ts He [(-> & -> & ->)|[Hne Hlj]]%live_update Hts; [done|by eapply D3].
      * rewrite HT, HG, Hs. pose proof (holds_submit _ _ id t t' _ _ D6 Hl Hd) as Hh. unfold delta_of in Hh. by rewrite Hdl in Hh.
    + assert (Hq : quiet s s') by (by destruct g). eapply quiet_deltas; [done|done|lia|..]; rewrite HT, HG.
      * intros j gj tj ts [(-> & -> & ->)|[Hne Hlj]]%live_update Hts; [|right; by exists gj, tj].
        destruct (due_trans _ _ _ _ _ _ _ Htr Hts) as [? | ->]; [right; by exists g, t|left; lia].
      * intros j d. rewrite waits_update. split; [|intros Hw; right; split; [|done]; intros ->; by apply (waits_own _ _ _ _ _ _ Hl) in Hw as (? & _)].
        intros [(-> & -> & Hd & _)|[_ ?]]; [|done]. inversion Htr as [|? ? ? [?|[?|?]]| | | | | | | | | | | |]; subst; try done. by destruct (core_ok C _ _ _ Hl) as (_ & _ & _ & _ & _ & ?); congruence.
  - eapply quiet_deltas; [done|done|done|..]; rewrite HT, HG.
    + intros j gj tj ts [(-> & -> & ->)|[Hne Hlj]]%live_update Hts; [done|right; by exists gj, tj].
    + intros j d. rewrite waits_update. split; [intros [(_ & [=] & _)|[_ ?]]; done|]. intros Hw. right. split; [|done]. intros ->. destruct Hw as (? & [? _] & _). congruence.
  - eapply quiet_deltas; [done|done|lia|..]; rewrite HT, HG; [|done]. intros; right; eauto.
  - assert (Hlive : ∀ j gj tj, gj ≠ Done → live (txn_map_ (mgr s')) (<[id := Done]> (stages s)) j gj tj ↔ j ≠ id ∧ live (txn_map_ (mgr s)) (stages s) j gj tj).
    { intros j gj tj Hgj. unfold live. destruct (decide (j = id)) as [->|Hne]; [rewrite lookup_insert_eq; naive_solver|]. rewrite lookup_insert_ne by done.
      split; [intros [? ?]|intros (_ & ? & ?)]; split_and!; try done; [rewrite <- Hmap|rewrite Hmap]; congruence. }
    eapply quiet_deltas; [done|done|lia|..]; rewrite HG.
    + intros j gj tj ts Hlj Hts. right. exists gj, tj. apply Hlive in Hlj as [_ ?]; [done|]. by intros ->.
    + intros j d. unfold waits. split; intros (tj & Hlj & Hw); exists tj; (split; [|done]); [by apply Hlive in Hlj as [_ ?]|].
      apply Hlive; [done|]. split; [|done]. intros ->. destruct Hlj, Hl. naive_solver.
Qed.

Lemma reach_delivered s : reach s → delivered s.
Proof.
  induction 1 as [|s e s' Hr IH Hf Hs]; [|apply (delivered_step s e); [by apply reach_system_inv|done..|by apply exec_view; [apply reach_system_inv|..]]].
  assert (Hno : ∀ id g t, ¬ live (∅ : gmap Z Txn) (∅ : gmap Z stage) id g t) by (intros id g t [Hl _]; by rewrite lookup_empty in Hl).
  unfold initial, Start. split; sys.
  - constructor.
  - intros e []%not_elem_of_nil.
  - intros e id g t ts []%not_elem_of_nil.
  - done.
  - done.
  - exists []. split; [constructor|]. split; [done|]. intros id d. split; [intros []%not_elem_of_nil|]. by intros (t & []%Hno & _).
Qed.

(** Once all transactions have finished, every delta entry has been handed over. *)
Lemma all_submitted s : reach s → all_done s → submitted_ s ≡ₚ deltas (installed_ s).
Proof.
  intros Hr Hd. destruct (deltas_held _ (reach_delivered s Hr)) as (held & _ & <- & Hheld).
  destruct held as [|[id d] held]; [by rewrite app_nil_r|]. destruct (proj1 (Hheld id d)) as (t & [HG _] & _); [by left|]. by apply Hd in HG.
Qed.
End Delta.
