(* ===== verification/TxnStore.v ===== *)
(** * What a transaction collects before it commits

    [TxnTableStore] and [TxnStore] (src/storage/txn/txn_store.cpp, txn_store.cppm): the rows appended
    and deleted, the segments imported or compacted, the indexes, tables and databases created or
    dropped.  Entries of the catalog are pointers here; what the catalog does is behind
    [CatalogOps].  The store is an instance of the interface that [TxnManager] has for it. *)

From Stdlib Require Import ZArith Lia List.
From stdpp Require Import base list numbers gmap sets sorting.
From S2P Require Import Prelude Bytes DataTypes CatalogDelta DataBlock TxnManager.
Local Open Scope Z_scope.

Definition DEFAULT_BLOCK_CAPACITY : Z := 8192.

(** ** Pointers and hash maps *)

(** A pointer to a database, table or index entry; the name of an entry does not change. *)
Record NamedPtr := mkNamed { address_ : Z; entry_name : bytes }.

(** A pointer to a segment, block, segment index or chunk index entry, with the id of the entry. *)
Record NumberedPtr := mkNumbered { number_address : Z; number_id : Z }.

#[export] Instance NamedPtr_eq_dec : EqDecision NamedPtr.
Proof. solve_decision. Defined.
#[export] Instance NamedPtr_countable : Countable NamedPtr.
Proof. refine (inj_countable' (λ p, (address_ p, entry_name p)) (λ p, mkNamed p.1 p.2) _). by intros []. Defined.
#[export] Instance NumberedPtr_eq_dec : EqDecision NumberedPtr.
Proof. solve_decision. Defined.
#[export] Instance NumberedPtr_countable : Countable NumberedPtr.
Proof. refine (inj_countable' (λ p, (number_address p, number_id p)) (λ p, mkNumbered p.1 p.2) _). by intros []. Defined.

(** The order in which a hash map is iterated is up to the library. *)
Class HashOrder := {
  iter : ∀ {K V : Type} `{Countable K}, gmap K V → list (K * V);
  iter_perm : ∀ {K V : Type} `{Countable K} (m : gmap K V), iter m ≡ₚ map_to_list m;
}.

Lemma elem_of_iter `{!HashOrder} {K V} `{Countable K} (m : gmap K V) k v : (k, v) ∈ iter m ↔ m !! k = Some v.
Proof. by rewrite iter_perm, elem_of_map_to_list. Qed.

(** The same for a hash set. *)
Definition iter_set `{!HashOrder} {K} `{Countable K} (X : gset K) : list K := map fst (iter (set_to_map (λ k, (k, ())) X : gmap K ())).

(** [std::sort] by the second component. *)
Definition before {A} (a b : A * Z) : Prop := a.2 ≤ b.2.

#[export] Instance before_dec {A} : RelDecision (@before A).
Proof. intros a b. unfold before. apply _. Defined.

Definition by_second {A} (l : list (A * Z)) : list (A * Z) := merge_sort before l.

(** [DeleteState::rows_]: the offsets deleted in each block of each segment. *)
Notation DeleteRows := (gmap Z (gmap Z (list Z))).

Section Store.
Context {V : Type} `{!HashOrder}.

Notation DataBlock := (DataBlock V).

(** ** The records *)

Record TxnSegmentStore := mkSegmentStore { segment_entry_ : NumberedPtr; block_entries_ : gmap Z NumberedPtr }.

Record TxnIndexStore := mkIndexStore {
  table_index_entry_ : NamedPtr;
  index_entry_map_ : gmap Z NumberedPtr;
  chunk_index_entries_ : list NumberedPtr;
  optimize_data_ : list (NumberedPtr * NumberedPtr * list NumberedPtr);
}.

Inductive CompactStatementType := kAuto | kManual | kInvalid.

Record TxnCompactStore := mkCompactStore {
  compact_data_ : list (TxnSegmentStore * list NumberedPtr);
  compact_type_ : CompactStatementType;
}.

(** [append_state_] is set from [blocks_] when the commit is prepared; the rows it counts are those of
    the blocks. *)
Record TxnTableStore := mkTableStore {
  txn_segments_store_ : gmap Z TxnSegmentStore;
  flushed_segments_ : list NumberedPtr;
  set_sealed_segments_ : gset NumberedPtr;
  index_seq_n_ : Z;
  txn_indexes_ : gmap NamedPtr Z;
  txn_indexes_store_ : gmap bytes TxnIndexStore;
  compact_state_ : TxnCompactStore;
  blocks_ : list DataBlock;
  append_state_ : option (list DataBlock);
  delete_state_ : DeleteRows;
  current_block_id_ : Z;
  table_entry_ : NamedPtr;
  has_update_ : bool;
}.

Implicit Type t : TxnTableStore.

Definition set_segments t (l : gmap Z TxnSegmentStore) : TxnTableStore :=
  mkTableStore l (flushed_segments_ t) (set_sealed_segments_ t) (index_seq_n_ t) (txn_indexes_ t) (txn_indexes_store_ t) (compact_state_ t)
    (blocks_ t) (append_state_ t) (delete_state_ t) (current_block_id_ t) (table_entry_ t) true.
Definition set_flushed t (l : list NumberedPtr) : TxnTableStore :=
  mkTableStore (txn_segments_store_ t) l (set_sealed_segments_ t) (index_seq_n_ t) (txn_indexes_ t) (txn_indexes_store_ t) (compact_state_ t)
    (blocks_ t) (append_state_ t) (delete_state_ t) (current_block_id_ t) (table_entry_ t) true.
Definition set_sealed t (l : gset NumberedPtr) : TxnTableStore :=
  mkTableStore (txn_segments_store_ t) (flushed_segments_ t) l (index_seq_n_ t) (txn_indexes_ t) (txn_indexes_store_ t) (compact_state_ t)
    (blocks_ t) (append_state_ t) (delete_state_ t) (current_block_id_ t) (table_entry_ t) true.
Definition set_indexes t (n : Z) (l : gmap NamedPtr Z) (stores : gmap bytes TxnIndexStore) : TxnTableStore :=
  mkTableStore (txn_segments_store_ t) (flushed_segments_ t) (set_sealed_segments_ t) n l stores (compact_state_ t)
    (blocks_ t) (append_state_ t) (delete_state_ t) (current_block_id_ t) (table_entry_ t) true.
Definition set_compact t (c : TxnCompactStore) : TxnTableStore :=
  mkTableStore (txn_segments_store_ t) (flushed_segments_ t) (set_sealed_segments_ t) (index_seq_n_ t) (txn_indexes_ t) (txn_indexes_store_ t) c
    (blocks_ t) (append_state_ t) (delete_state_ t) (current_block_id_ t) (table_entry_ t) true.
Definition set_blocks t (bs : list DataBlock) (id : Z) (update : bool) : TxnTableStore :=
  mkTableStore (txn_segments_store_ t) (flushed_segments_ t) (set_sealed_segments_ t) (index_seq_n_ t) (txn_indexes_ t) (txn_indexes_store_ t) (compact_state_ t)
    bs (append_state_ t) (delete_state_ t) id (table_entry_ t) update.
Definition set_append t (st : option (list DataBlock)) : TxnTableStore :=
  mkTableStore (txn_segments_store_ t) (flushed_segments_ t) (set_sealed_segments_ t) (index_seq_n_ t) (txn_indexes_ t) (txn_indexes_store_ t) (compact_state_ t)
    (blocks_ t) st (delete_state_ t) (current_block_id_ t) (table_entry_ t) (has_update_ t).
Definition set_deletes t (rows : DeleteRows) : TxnTableStore :=
  mkTableStore (txn_segments_store_ t) (flushed_segments_ t) (set_sealed_segments_ t) (index_seq_n_ t) (txn_indexes_ t) (txn_indexes_store_ t) (compact_state_ t)
    (blocks_ t) (append_state_ t) rows (current_block_id_ t) (table_entry_ t) true.
Definition set_update t : TxnTableStore :=
  mkTableStore (txn_segments_store_ t) (flushed_segments_ t) (set_sealed_segments_ t) (index_seq_n_ t) (txn_indexes_ t) (txn_indexes_store_ t) (compact_state_ t)
    (blocks_ t) (append_state_ t) (delete_state_ t) (current_block_id_ t) (table_entry_ t) true.

(** [seq] is what [ptr_seq_n_] holds, which the constructor does not set. *)
Definition TxnTableStore_new (seq : Z) (table_entry : NamedPtr) : TxnTableStore :=
  mkTableStore ∅ [] ∅ seq ∅ ∅ (mkCompactStore [] kInvalid) [] None ∅ 0 table_entry false.

Record TxnStore := mkTxnStore {
  ptr_seq_n_ : Z;
  txn_dbs_ : gmap NamedPtr Z;
  txn_tables_ : gmap NamedPtr Z;
  txn_tables_store_ : gmap bytes TxnTableStore;
}.

Implicit Type s : TxnStore.

Definition Store_new : TxnStore := mkTxnStore 0 ∅ ∅ ∅.

(** ** Collecting *)

(** [TxnSegmentStore::AddSegmentStore]; [blocks] are the blocks of the segment. *)
Definition SegmentStore_new (segment_entry : NumberedPtr) (blocks : list NumberedPtr) : TxnSegmentStore :=
  mkSegmentStore segment_entry (fold_left (λ m b, match m !! number_id b with Some _ => m | None => <[number_id b := b]> m end) blocks ∅).

Definition AddSegmentStore t (segment_entry : NumberedPtr) (blocks : list NumberedPtr) : result TxnTableStore :=
  match txn_segments_store_ t !! number_id segment_entry with
  | Some _ => Err UnrecoverableError
  | None => Ok (set_segments t (<[number_id segment_entry := SegmentStore_new segment_entry blocks]> (txn_segments_store_ t)))
  end.

Definition AddBlockStore t (segment_entry block_entry : NumberedPtr) : TxnTableStore :=
  let store := default (mkSegmentStore segment_entry ∅) (txn_segments_store_ t !! number_id segment_entry) in
  let blocks :=
    match block_entries_ store !! number_id block_entry with
    | Some _ => block_entries_ store
    | None => <[number_id block_entry := block_entry]> (block_entries_ store)
    end in
  set_segments t (<[number_id segment_entry := mkSegmentStore (segment_entry_ store) blocks]> (txn_segments_store_ t)).

Definition AddSealedSegment t (segment_entry : NumberedPtr) : TxnTableStore := set_sealed t ({[segment_entry]} ∪ set_sealed_segments_ t).

(** [unordered_map::emplace] keeps the value of a key that is there. *)
Definition emplace `{Countable K} {A} (k : K) (x : A) (m : gmap K A) : gmap K A := match m !! k with Some _ => m | None => <[k := x]> m end.

Definition AddIndexStore t (e : NamedPtr) : TxnTableStore :=
  set_indexes t (cast i32 (index_seq_n_ t + 1)) (emplace e (index_seq_n_ t) (txn_indexes_ t)) (txn_indexes_store_ t).

(** [GetIndexStore] for reading; a new store is recorded when the caller writes it back. *)
Definition index_store t (e : NamedPtr) : TxnIndexStore :=
  default (mkIndexStore e ∅ [] []) (txn_indexes_store_ t !! entry_name e).

Definition put_index_store t (e : NamedPtr) (store : TxnIndexStore) : TxnTableStore :=
  set_indexes t (index_seq_n_ t) (txn_indexes_ t) (<[entry_name e := store]> (txn_indexes_store_ t)).

Definition GetIndexStore t (e : NamedPtr) : TxnIndexStore * TxnTableStore :=
  match txn_indexes_store_ t !! entry_name e with
  | Some store => (store, t)
  | None => (index_store t e, put_index_store t e (index_store t e))
  end.

Definition add_segment_index (store : TxnIndexStore) (segment_index_entry : NumberedPtr) : result TxnIndexStore :=
  match index_entry_map_ store !! number_id segment_index_entry with
  | Some _ => Err UnrecoverableError
  | None => Ok (mkIndexStore (table_index_entry_ store) (<[number_id segment_index_entry := segment_index_entry]> (index_entry_map_ store))
                  (chunk_index_entries_ store) (optimize_data_ store))
  end.

Definition AddSegmentIndexesStore t (e : NamedPtr) (segment_index_entries : list NumberedPtr) : result TxnTableStore :=
  let? store := res_fold add_segment_index (index_store t e) segment_index_entries in
  Ok (put_index_store t e store).

Definition AddChunkIndexStore t (e : NamedPtr) (chunk_index_entry : NumberedPtr) : TxnTableStore :=
  let store := index_store t e in
  put_index_store t e
    (mkIndexStore (table_index_entry_ store) (index_entry_map_ store) (chunk_index_entries_ store ++ [chunk_index_entry]) (optimize_data_ store)).

(** The caller of [table_index_entry->Cleanup()] is told whether to call it. *)
Definition DropIndexStore t (e : NamedPtr) : bool * TxnTableStore :=
  match txn_indexes_ t !! e with
  | Some _ => (true, set_indexes t (index_seq_n_ t) (delete e (txn_indexes_ t)) (delete (entry_name e) (txn_indexes_store_ t)))
  | None => (false, set_indexes t (cast i32 (index_seq_n_ t + 1)) (<[e := index_seq_n_ t]> (txn_indexes_ t)) (txn_indexes_store_ t))
  end.

Record RowID := mkRowID { row_segment_id : Z; row_segment_offset : Z }.

Definition row_block (r : RowID) : Z := cast u16 (row_segment_offset r / DEFAULT_BLOCK_CAPACITY).
Definition row_offset (r : RowID) : Z := cast u16 (row_segment_offset r mod DEFAULT_BLOCK_CAPACITY).

Definition offsets_of (rows : DeleteRows) (segment_id block_id : Z) : list Z :=
  default [] (default ∅ (rows !! segment_id) !! block_id).

Definition delete_row (rows : DeleteRows) (r : RowID) : result DeleteRows :=
  let block_vec := offsets_of rows (row_segment_id r) (row_block r) ++ [row_offset r] in
  if DEFAULT_BLOCK_CAPACITY <? zlen block_vec then Err UnrecoverableError
  else Ok (<[row_segment_id r := <[row_block r := block_vec]> (default ∅ (rows !! row_segment_id r))]> rows).

Definition Delete t (row_ids : list RowID) : result TxnTableStore :=
  let? rows := res_fold delete_row (delete_state_ t) row_ids in
  Ok (set_deletes t rows).

(** *** Appended rows *)

Inductive AppendStatus := AppendOK | ColumnCountMismatch | DataTypeMismatch.

Fixpoint types_match (column_types : list DataType) (vs : list (ColumnVector V)) : result bool :=
  match column_types, vs with
  | [], _ => Ok true
  | dt :: dts, v :: vs => if DataType_eqb dt (data_type_ v) then types_match dts vs else Ok false
  | _, [] => Err OutOfBounds
  end.

Definition new_block (column_types : list DataType) : result DataBlock := Init_types DataBlock_Make column_types DEFAULT_VECTOR_SIZE.

(** The part of [Append] that fills the current block and starts another one when it is full. *)
Definition append_current t (column_types : list DataType) (input_block : DataBlock) (blocks : list DataBlock) (current_block_id : Z)
    : result TxnTableStore :=
  match blocks !! Z.to_nat current_block_id with
  | None => Err OutOfBounds
  | Some current_block =>
      let? current_rows := row_count current_block in
      let? input_rows := row_count input_block in
      if capacity_ current_block <? current_rows + input_rows then
        let to_append := capacity_ current_block - current_rows in
        let? full := AppendWith current_block input_block 0 to_append in
        let? full := Finalize full in
        let? fresh := new_block column_types in
        let? fresh := AppendWith fresh input_block to_append (input_rows - to_append) in
        let? fresh := Finalize fresh in
        Ok (set_blocks t (<[Z.to_nat current_block_id := full]> blocks ++ [fresh]) (current_block_id + 1) true)
      else
        let? current_block := AppendWith current_block input_block 0 input_rows in
        let? current_block := Finalize current_block in
        Ok (set_blocks t (<[Z.to_nat current_block_id := current_block]> blocks) current_block_id true)
  end.

Definition Append t (column_types : list DataType) (input_block : DataBlock) : result (AppendStatus * TxnTableStore) :=
  if negb (column_count_ input_block =? zlen column_types) then Ok (ColumnCountMismatch, t)
  else
    let? same := types_match column_types (column_vectors input_block) in
    if negb same then Ok (DataTypeMismatch, t)
    else
      let? '(blocks, current_block_id) :=
        match blocks_ t with
        | [] => let? b := new_block column_types in Ok ([b], 0)
        | bs => Ok (bs, current_block_id_ t)
        end in
      let? t := append_current t column_types input_block blocks current_block_id in
      Ok (AppendOK, t).

(** *** Databases and tables *)

Definition AddDBStore s (e : NamedPtr) : TxnStore :=
  mkTxnStore (cast i32 (ptr_seq_n_ s + 1)) (emplace e (ptr_seq_n_ s) (txn_dbs_ s)) (txn_tables_ s) (txn_tables_store_ s).

Definition DropDBStore s (e : NamedPtr) : bool * TxnStore :=
  match txn_dbs_ s !! e with
  | Some _ => (true, mkTxnStore (ptr_seq_n_ s) (delete e (txn_dbs_ s)) (txn_tables_ s) (txn_tables_store_ s))
  | None => (false, mkTxnStore (cast i32 (ptr_seq_n_ s + 1)) (<[e := ptr_seq_n_ s]> (txn_dbs_ s)) (txn_tables_ s) (txn_tables_store_ s))
  end.

Definition AddTableStore s (e : NamedPtr) : TxnStore :=
  mkTxnStore (cast i32 (ptr_seq_n_ s + 1)) (txn_dbs_ s) (emplace e (ptr_seq_n_ s) (txn_tables_ s)) (txn_tables_store_ s).

Definition DropTableStore s (e : NamedPtr) : bool * TxnStore :=
  match txn_tables_ s !! e with
  | Some _ => (true, mkTxnStore (ptr_seq_n_ s) (txn_dbs_ s) (delete e (txn_tables_ s)) (delete (entry_name e) (txn_tables_store_ s)))
  | None => (false, mkTxnStore (cast i32 (ptr_seq_n_ s + 1)) (txn_dbs_ s) (<[e := ptr_seq_n_ s]> (txn_tables_ s)) (txn_tables_store_ s))
  end.

Definition put_table s (name : bytes) t : TxnStore := mkTxnStore (ptr_seq_n_ s) (txn_dbs_ s) (txn_tables_ s) (<[name := t]> (txn_tables_store_ s)).

(** [seq] is what a new store has in its [ptr_seq_n_]. *)
Definition GetTxnTableStore s (seq : Z) (e : NamedPtr) : TxnTableStore * TxnStore :=
  match txn_tables_store_ s !! entry_name e with
  | Some t => (t, s)
  | None => (TxnTableStore_new seq e, put_table s (entry_name e) (TxnTableStore_new seq e))
  end.

Definition Store_ReadOnly s : bool :=
  let read_only := bool_decide (txn_dbs_ s = ∅) in
  let read_only := if bool_decide (txn_tables_ s = ∅) then read_only else false in
  if existsb (λ e, has_update_ e.2) (iter (txn_tables_store_ s)) then false else read_only.

(** ** Conflicts *)

(** The inner loop of [TxnTableStore::CheckConflict]; [others] are the offsets from [j] on. *)
Fixpoint skip_less (block_offset : Z) (others : list Z) : list Z :=
  match others with
  | [] => []
  | y :: rest => if y <? block_offset then skip_less block_offset rest else others
  end.

Fixpoint offsets_conflict (block_offsets others : list Z) : bool :=
  match block_offsets with
  | [] => false
  | x :: rest =>
      match skip_less x others with
      | [] => false
      | y :: others' => if y =? x then true else offsets_conflict rest (y :: others')
      end
  end.

Definition rows_conflict (rows others : DeleteRows) : bool :=
  existsb (λ '(segment_id, block_map),
    match others !! segment_id with
    | None => false
    | Some other_map =>
        existsb (λ '(block_id, block_offsets),
          match other_map !! block_id with
          | None => false
          | Some other_block_offsets => offsets_conflict block_offsets other_block_offsets
          end) (iter block_map)
    end) (iter rows).

Definition names_index (e : NamedPtr * Z) (name : bytes) : bool := bool_decide (name = entry_name e.1).

Definition Table_CheckConflict t (other : TxnTableStore) : bool :=
  if existsb (λ '(index_name, _), existsb (λ e, names_index e index_name) (iter (txn_indexes_ other))) (iter (txn_indexes_store_ t)) then true
  else if bool_decide (delete_state_ t = ∅) || bool_decide (delete_state_ other = ∅) then false
  else rows_conflict (delete_state_ t) (delete_state_ other).

Definition Store_CheckConflict s (other : TxnStore) : bool :=
  existsb (λ '(table_name, table_store),
    if existsb (λ e, names_index e table_name) (iter (txn_tables_ other)) then true
    else match txn_tables_store_ other !! table_name with
    | None => false
    | Some other_table_store => Table_CheckConflict table_store other_table_store
    end) (iter (txn_tables_store_ s)).
End Store.
Arguments TxnTableStore V : clear implicits.
Arguments TxnStore V : clear implicits.

(** ** What the store asks of the catalog

    [Table_Import], [Catalog_Append] and [Catalog_Delete] call back into the store: they add segments,
    blocks and index stores to it. *)

Inductive DeltaItem :=
| DBOp (db_entry : NamedPtr)
| TableOp (table_entry : NamedPtr)
| TableIndexOp (table_index_entry : NamedPtr)
| SegmentIndexOp (segment_index_entry : NumberedPtr)
| ChunkIndexOp (chunk_index_entry : NumberedPtr)
| SegmentOp (segment_entry : NumberedPtr) (sealed : bool)
| BlockOp (block_entry : NumberedPtr) (sealed : bool)
| ColumnOp (column_entry : NumberedPtr).

Class CatalogOps (V : Type) := {
  Cat : Type;
  column_types : Cat → NamedPtr → list DataType;
  segment_blocks : Cat → NumberedPtr → list NumberedPtr;
  block_columns : Cat → NumberedPtr → list NumberedPtr;
  Table_Import : NamedPtr → NumberedPtr → TxnTableStore V → Cat → result (TxnTableStore V * Cat);
  AddCompactNew : NamedPtr → NumberedPtr → Cat → result Cat;
  CommitFlushed : NumberedPtr → Z → Cat → result Cat;
  Catalog_Append : NamedPtr → Z → Z → TxnTableStore V → Cat → result (TxnTableStore V * Cat);
  Catalog_CommitCompact : NamedPtr → Z → Z → TxnCompactStore → Cat → result Cat;
  Catalog_Delete : NamedPtr → Z → Z → TxnTableStore V → Cat → result (TxnTableStore V * Cat);
  CommitOptimize : NumberedPtr * NumberedPtr * list NumberedPtr → Z → Cat → result Cat;
  Segment_SetSealed : NumberedPtr → Cat → bool * Cat;
  Catalog_CommitWrite : NamedPtr → Z → Z → gmap Z TxnSegmentStore → DeleteRows → Cat → result Cat;
  CommitCreateIndex : TxnIndexStore → Z → Cat → result Cat;
  CommitSegmentIndex : NumberedPtr → Z → Z → Cat → result Cat;
  Chunk_Committed : Cat → NumberedPtr → bool;
  Chunk_Commit : NumberedPtr → Z → Cat → result Cat;
  Entry_Commit : NamedPtr → Z → Cat → result Cat;
  Entry_Cleanup : NamedPtr → Cat → result Cat;
  Catalog_RollbackAppend : NamedPtr → Z → Z → Cat → result Cat;
  Catalog_RollbackCompact : NamedPtr → Z → Z → TxnCompactStore → Cat → result Cat;
  RemoveIndexEntry : NamedPtr → Z → Cat → result Cat;
  RemoveTableEntry : NamedPtr → Z → Cat → result Cat;
  RemoveDBEntry : NamedPtr → Z → Cat → result Cat;
  AddSegmentToCompactionAlg : NamedPtr → NumberedPtr → Cat → result Cat;
  AddDeleteToCompactionAlg : NamedPtr → Z → Cat → result Cat;
  ExecuteOnNewSealedSegment : NumberedPtr → Z → Cat → result Cat;
  delta_op : Cat → Z → DeltaItem → CatalogDeltaOperation;
}.

(** The catalog does not touch what conflicts are checked against. *)
Definition keeps_rows {V} (t t' : TxnTableStore V) : Prop := delete_state_ t' = delete_state_ t ∧ txn_indexes_ t' = txn_indexes_ t.

Class CatalogLaws (V : Type) `{!CatalogOps V} := {
  Append_keeps : ∀ e id ts t c t' c', Catalog_Append e id ts t c = Ok (t', c') → keeps_rows t t';
  Delete_keeps : ∀ e id ts t c t' c', Catalog_Delete e id ts t c = Ok (t', c') → keeps_rows t t';
}.

(** An error of the catalog ends the loop that calls it. *)
Definition each {A C} (f : A → C → result C) (l : list A) (c : C) : result C := res_fold (λ c a, f a c) c l.

Section Commit.
Context {V : Type} `{!HashOrder} `{!CatalogOps V}.
Implicit Types (t : TxnTableStore V) (s : TxnStore V) (c : Cat).

(** *** Collecting, continued *)

Definition Import t (segment_entry : NumberedPtr) c : result (TxnTableStore V * Cat) :=
  let? t := AddSegmentStore t segment_entry (segment_blocks c segment_entry) in
  let t := AddSealedSegment t segment_entry in
  let t := set_flushed t (flushed_segments_ t ++ [segment_entry]) in
  let? '(t, c) := Table_Import (table_entry_ t) segment_entry t c in
  Ok (set_update t, c).

Definition compact_segment (tc : TxnTableStore V * Cat) (data : NumberedPtr * list NumberedPtr) : result (TxnTableStore V * Cat) :=
  let '(t, c) := tc in
  let '(new_segment, old_segments) := data in
  let store := SegmentStore_new new_segment (segment_blocks c new_segment) in
  let t := set_compact t (mkCompactStore (compact_data_ (compact_state_ t) ++ [(store, old_segments)]) (compact_type_ (compact_state_ t))) in
  let? t := AddSegmentStore t new_segment (segment_blocks c new_segment) in
  let t := AddSealedSegment t new_segment in
  let t := set_flushed t (flushed_segments_ t ++ [new_segment]) in
  let? c := AddCompactNew (table_entry_ t) new_segment c in
  Ok (t, c).

Definition Compact t (segment_data : list (NumberedPtr * list NumberedPtr)) (type : CompactStatementType) c : result (TxnTableStore V * Cat) :=
  match compact_type_ (compact_state_ t) with
  | kInvalid =>
      let? '(t, c) := res_fold compact_segment (set_compact t (mkCompactStore [] type), c) segment_data in
      Ok (set_update t, c)
  | _ => Err UnrecoverableError
  end.

(** *** Committing a table *)

Definition Table_PrepareCommit1 (commit_ts : Z) t c : result Cat :=
  each (λ segment_entry c, CommitFlushed segment_entry commit_ts c) (flushed_segments_ t) c.

Definition Index_PrepareCommit (commit_ts : Z) (store : TxnIndexStore) c : result Cat :=
  each (λ data c, CommitOptimize data commit_ts c) (optimize_data_ store) c.

Definition seal (segment_entry : NumberedPtr) c : result Cat :=
  let '(done, c) := Segment_SetSealed segment_entry c in if done then Ok c else Err UnrecoverableError.

Definition Table_PrepareCommit (txn_id commit_ts : Z) t c : result (TxnTableStore V * Cat) :=
  let t := set_append t (Some (blocks_ t)) in
  let? '(t, c) := Catalog_Append (table_entry_ t) txn_id commit_ts t c in
  let? c :=
    match compact_type_ (compact_state_ t) with
    | kInvalid => Ok c
    | _ => Catalog_CommitCompact (table_entry_ t) txn_id commit_ts (compact_state_ t) c
    end in
  let? '(t, c) := Catalog_Delete (table_entry_ t) txn_id commit_ts t c in
  let? c := each (λ e c, Index_PrepareCommit commit_ts e.2 c) (iter (txn_indexes_store_ t)) c in
  let? c := each seal (iter_set (set_sealed_segments_ t)) c in
  Ok (t, c).

Definition Index_Commit (txn_id commit_ts : Z) (store : TxnIndexStore) c : result Cat :=
  let? c := each (λ e c, CommitSegmentIndex e.2 txn_id commit_ts c) (iter (index_entry_map_ store)) c in
  each (λ chunk c, if Chunk_Committed c chunk then Ok c else Chunk_Commit chunk commit_ts c) (chunk_index_entries_ store) c.

Definition Table_Commit (txn_id commit_ts : Z) t c : result Cat :=
  let? c := Catalog_CommitWrite (table_entry_ t) txn_id commit_ts (txn_segments_store_ t) (delete_state_ t) c in
  let? c := each (λ e c, let? c := CommitCreateIndex e.2 commit_ts c in Index_Commit txn_id commit_ts e.2 c) (iter (txn_indexes_store_ t)) c in
  each (λ e c, Entry_Commit e.1 commit_ts c) (iter (txn_indexes_ t)) c.

Definition Table_MaintainCompactionAlg t c : result (TxnTableStore V * Cat) :=
  let? c := each (λ segment c, AddSegmentToCompactionAlg (table_entry_ t) segment c) (iter_set (set_sealed_segments_ t)) c in
  let? c := each (λ e c, AddDeleteToCompactionAlg (table_entry_ t) e.1 c) (iter (delete_state_ t)) c in
  Ok (set_update t, c).

Definition Table_Rollback (txn_id abort_ts : Z) t c : result (TxnTableStore V * Cat) :=
  let? c := match append_state_ t with Some _ => Catalog_RollbackAppend (table_entry_ t) txn_id abort_ts c | None => Ok c end in
  let? c := Catalog_RollbackCompact (table_entry_ t) txn_id abort_ts (compact_state_ t) c in
  let t := set_blocks t [] (current_block_id_ t) (has_update_ t) in
  let? c := each (λ e c, let? c := Entry_Cleanup e.1 c in RemoveIndexEntry e.1 txn_id c) (iter (txn_indexes_ t)) c in
  Ok (t, c).

(** *** Operations for the catalog delta *)

Definition add_item (commit_ts : Z) (item : DeltaItem) (st : list CatalogDeltaOperation * Cat) : list CatalogDeltaOperation * Cat :=
  (st.1 ++ [delta_op st.2 commit_ts item], st.2).

Definition add_items (commit_ts : Z) (items : list DeltaItem) (st : list CatalogDeltaOperation * Cat) : list CatalogDeltaOperation * Cat :=
  fold_left (λ st item, add_item commit_ts item st) items st.

Definition block_items c (sealed : bool) (blocks : list NumberedPtr) : list DeltaItem :=
  concat (map (λ b, BlockOp b sealed :: map ColumnOp (block_columns c b)) blocks).

Definition Segment_AddDeltaOp (commit_ts : Z) (sealed : bool) (store : TxnSegmentStore) (st : list CatalogDeltaOperation * Cat)
    : result (list CatalogDeltaOperation * Cat) :=
  let? c := if sealed then ExecuteOnNewSealedSegment (segment_entry_ store) commit_ts st.2 else Ok st.2 in
  Ok (add_items commit_ts (SegmentOp (segment_entry_ store) sealed :: block_items c sealed (map snd (iter (block_entries_ store)))) (st.1, c)).

Definition index_items (store : TxnIndexStore) : list DeltaItem :=
  map (λ e, SegmentIndexOp e.2) (iter (index_entry_map_ store)) ++ map ChunkIndexOp (chunk_index_entries_ store).

Definition Table_AddDeltaOp (commit_ts : Z) (added : bool) t (st : list CatalogDeltaOperation * Cat) : result (list CatalogDeltaOperation * Cat) :=
  if negb (has_update_ t) then Ok st
  else
    let st := if added then st else add_item commit_ts (TableOp (table_entry_ t)) st in
    let st := add_items commit_ts (map (λ e, TableIndexOp e.1) (by_second (iter (txn_indexes_ t)))) st in
    let st := add_items commit_ts (concat (map (λ e, index_items e.2) (iter (txn_indexes_store_ t)))) st in
    each (λ e st, Segment_AddDeltaOp commit_ts (bool_decide (segment_entry_ e.2 ∈ set_sealed_segments_ t)) e.2 st) (iter (txn_segments_store_ t)) st.

Definition Store_AddDeltaOp (commit_ts : Z) s c : result (list CatalogDeltaOperation * Cat) :=
  let st := add_items commit_ts (map (λ e, DBOp e.1) (by_second (iter (txn_dbs_ s)))) ([], c) in
  let st := add_items commit_ts (map (λ e, TableOp e.1) (by_second (iter (txn_tables_ s)))) st in
  each (λ e st, Table_AddDeltaOp commit_ts (bool_decide (is_Some (txn_tables_ s !! table_entry_ e.2))) e.2 st) (iter (txn_tables_store_ s)) st.

(** *** Committing all tables *)

Definition each_table (f : TxnTableStore V → Cat → result (TxnTableStore V * Cat)) s c : result (TxnStore V * Cat) :=
  res_fold (λ '(s, c) e, let? '(t, c) := f e.2 c in Ok (put_table s e.1 t, c)) (s, c) (iter (txn_tables_store_ s)).

Definition Store_PrepareCommit1 (commit_ts : Z) s c : result (TxnStore V * Cat) :=
  let? c := each (λ e c, Table_PrepareCommit1 commit_ts e.2 c) (iter (txn_tables_store_ s)) c in
  Ok (s, c).

Definition Store_PrepareCommit (txn_id commit_ts : Z) s c : result (TxnStore V * Cat) :=
  each_table (Table_PrepareCommit txn_id commit_ts) s c.

Definition Store_CommitBottom (txn_id commit_ts : Z) s c : result (TxnStore V * Cat) :=
  let? c := each (λ e c, Table_Commit txn_id commit_ts e.2 c) (iter (txn_tables_store_ s)) c in
  let? c := each (λ e c, Entry_Commit e.1 commit_ts c) (iter (txn_dbs_ s)) c in
  let? c := each (λ e c, Entry_Commit e.1 commit_ts c) (iter (txn_tables_ s)) c in
  Ok (s, c).

Definition Store_MaintainCompactionAlg s c : result (TxnStore V * Cat) := each_table Table_MaintainCompactionAlg s c.

Definition Store_Rollback (txn_id abort_ts : Z) s c : result (TxnStore V * Cat) :=
  let? '(s, c) := each_table (Table_Rollback txn_id abort_ts) s c in
  let? c := each (λ e c, let? c := Entry_Cleanup e.1 c in RemoveTableEntry e.1 txn_id c) (iter (txn_tables_ s)) c in
  let? c := each (λ e c, let? c := Entry_Cleanup e.1 c in RemoveDBEntry e.1 txn_id c) (iter (txn_dbs_ s)) c in
  Ok (s, c).

#[export] Instance txn_store_ops : TxnStoreOps := {|
  TxnManager.TxnStore := TxnStore V;
  Catalog := Cat;
  TxnStore_new := Store_new;
  ReadOnly := Store_ReadOnly;
  store_CheckConflict := Store_CheckConflict;
  store_PrepareCommit1 := Store_PrepareCommit1;
  store_PrepareCommit := Store_PrepareCommit;
  store_CommitBottom := Store_CommitBottom;
  store_AddDeltaOp := Store_AddDeltaOp;
  store_MaintainCompactionAlg := Store_MaintainCompactionAlg;
  store_Rollback := Store_Rollback;
|}.
End Commit.
