(* ===== verification/TxnStoreSpec.v ===== *)
(** * What the store of a transaction promises

    That it is an instance of the interface of [TxnManager]; when two stores conflict; what deletes and
    appends record. *)

From Stdlib Require Import ZArith Lia List Sorted.
From stdpp Require Import base list numbers gmap sets sorting strings.
From S2P Require Import Prelude Bytes DataTypes CatalogDelta GlobalDelta SegmentAppend DataBlock TxnManager TxnStore.
Local Open Scope Z_scope.

Section Spec.
Context {V : Type} `{HO : !HashOrder}.
Implicit Types (t : TxnTableStore V) (s o : TxnStore V).

Lemma existsb_iter `{Countable K} {A} (f : K * A → bool) (m : gmap K A) :
  existsb f (iter m) = true ↔ ∃ k x, m !! k = Some x ∧ f (k, x) = true.
Proof.
  rewrite existsb_exists. split.
  - intros ([k x] & Hin & Hf). exists k, x. split; [|done]. apply elem_of_iter. by apply list_elem_of_In.
  - intros (k & x & Hk & Hf). exists (k, x). split; [|done]. apply list_elem_of_In. by apply elem_of_iter.
Qed.

(** ** What is checked against *)

(** [s'] is checked against like [s]. *)
Definition same_targets s s' : Prop :=
  txn_tables_ s' = txn_tables_ s ∧
  ∀ name, (λ t, (txn_indexes_ t, delete_state_ t)) <$> txn_tables_store_ s' !! name = (λ t, (txn_indexes_ t, delete_state_ t)) <$> txn_tables_store_ s !! name.

Lemma existsb_eq {A} (f g : A → bool) l : (∀ x, f x = g x) → existsb f l = existsb g l.
Proof. intros H. induction l; simpl; congruence. Qed.

Lemma Table_conflict_target t t1 t2 : txn_indexes_ t1 = txn_indexes_ t2 → delete_state_ t1 = delete_state_ t2 → Table_CheckConflict t t1 = Table_CheckConflict t t2.
Proof. unfold Table_CheckConflict. by intros -> ->. Qed.

Lemma same_targets_conflict s s' o : same_targets s s' → Store_CheckConflict o s' = Store_CheckConflict o s.
Proof.
  intros [Ht Hs]. unfold Store_CheckConflict. apply existsb_eq. intros [name t]. rewrite Ht. destruct (existsb _ _); [done|].
  specialize (Hs name). destruct (txn_tables_store_ s' !! name), (txn_tables_store_ s !! name); try done. injection Hs as H1 H2. by apply Table_conflict_target.
Qed.

Section Committing.
Context `{CO : !CatalogOps V}.

Lemma fold_tables_target (f : TxnTableStore V → Cat → result (TxnTableStore V * Cat)) l s0 : (∀ t c t' c', f t c = Ok (t', c') → keeps_rows t t') →
  (∀ e, e ∈ l → txn_tables_store_ s0 !! e.1 = Some e.2) → ∀ s c s' c', same_targets s0 s →
  res_fold (λ '(s, c) e, let? '(t, c) := f e.2 c in Ok (put_table s e.1 t, c)) (s, c) l = Ok (s', c') → same_targets s0 s'.
Proof.
  intros Hf Hin. induction l as [|[name t] l IH]; intros s c s' c' Hsame; cbn [res_fold]; [by intros [= <- _]|].
  intros ([s2 c2] & H2 & H)%res_bind_ok. apply res_bind_ok in H2 as ([t' c1] & [Hd Hi]%Hf & [= <- <-]).
  eapply IH; [intros e He; apply Hin; by right| |exact H].
  destruct Hsame as [Hs1 Hs2]. split; [done|]. intros name'. cbn [put_table txn_tables_store_].
  destruct (decide (name' = name)) as [->|Hne]; [rewrite lookup_insert_eq|rewrite lookup_insert_ne by done; apply Hs2].
  pose proof (Hin (name, t) ltac:(by left)) as Hname. simpl in *. rewrite Hname. simpl. by rewrite Hd, Hi.
Qed.

Lemma each_table_target (f : TxnTableStore V → Cat → result (TxnTableStore V * Cat)) s c s' c' :
  (∀ t c t' c', f t c = Ok (t', c') → keeps_rows t t') → each_table f s c = Ok (s', c') → same_targets s s'.
Proof. intros Hf. apply fold_tables_target; [done| |done]. intros [name t] Hin. by apply elem_of_iter. Qed.

Context `{CL : !CatalogLaws V}.

Lemma Table_PrepareCommit_keeps txn_id commit_ts t (c : Cat) t' c' : Table_PrepareCommit txn_id commit_ts t c = Ok (t', c') → keeps_rows t t'.
Proof.
  unfold Table_PrepareCommit. intros ([t1 c1] & [H1 H1']%Append_keeps & H)%res_bind_ok. apply res_bind_ok in H as (c2 & _ & H).
  apply res_bind_ok in H as ([t3 c3] & [H3 H3']%Delete_keeps & H). apply res_bind_ok in H as (c4 & _ & H). apply res_bind_ok in H as (c5 & _ & [= <- _]).
  split; [by rewrite H3, H1|by rewrite H3', H1'].
Qed.

#[export] Instance txn_store_laws : TxnStoreLaws (H := txn_store_ops).
Proof.
  split; cbn [TxnManager.TxnStore store_PrepareCommit1 store_PrepareCommit store_CommitBottom store_MaintainCompactionAlg txn_store_ops].
  - intros ts s c s' c' (c1 & _ & [= <- _])%res_bind_ok. done.
  - intros id ts s c s' c' H other. apply same_targets_conflict. eapply each_table_target; [|exact H]. apply Table_PrepareCommit_keeps.
  - intros id ts s c s' c' (c1 & _ & H)%res_bind_ok. apply res_bind_ok in H as (c2 & _ & H). by apply res_bind_ok in H as (c3 & _ & [= <- _]).
  - intros s c s' c' H other. apply same_targets_conflict. eapply each_table_target; [|exact H]. clear. intros t c t' c' (c1 & _ & H)%res_bind_ok.
    by apply res_bind_ok in H as (c2 & _ & [= <- _]).
Qed.
End Committing.

(** ** Conflicting deletes *)

Definition ordered (l : list Z) : Prop := StronglySorted Z.le l.

Lemma skip_less_suffix x l : ∃ skipped, l = skipped ++ skip_less x l ∧ Forall (λ y, y < x) skipped.
Proof.
  induction l as [|y l (skipped & IH & Hf)]; [by exists []|]. cbn [skip_less]. destruct (Z.ltb_spec y x).
  - exists (y :: skipped). split; [simpl; by f_equal|by constructor].
  - by exists [].
Qed.

Lemma skip_less_head x l y rest : skip_less x l = y :: rest → x ≤ y.
Proof. induction l as [|z l IH]; [done|]. cbn [skip_less]. destruct (Z.ltb_spec z x); [done|]. by intros [= <- _]. Qed.

Lemma offsets_conflict_sound xs ys : offsets_conflict xs ys = true → ∃ x, x ∈ xs ∧ x ∈ ys.
Proof.
  revert ys. induction xs as [|x xs IH]; intros ys; [done|]. cbn [offsets_conflict].
  destruct (skip_less_suffix x ys) as (skipped & Hys & _). destruct (skip_less x ys) as [|y rest]; [done|]. destruct (Z.eqb_spec y x) as [->|].
  - intros _. exists x. rewrite Hys. set_solver.
  - intros (z & Hz & Hin)%IH. exists z. rewrite Hys. set_solver.
Qed.

Lemma offsets_conflict_complete xs ys x : ordered xs → ordered ys → x ∈ xs → x ∈ ys → offsets_conflict xs ys = true.
Proof.
  intros Hxs. revert ys. induction Hxs as [|a xs Hxs IH Hall]; intros ys Hys Hx Hy; [by apply not_elem_of_nil in Hx|]. cbn [offsets_conflict].
  rewrite Forall_forall in Hall. assert (Hax : a ≤ x) by (apply elem_of_cons in Hx as [->|?]; [lia|by apply Hall]).
  destruct (skip_less_suffix a ys) as (skipped & Heq & Hsk). rewrite Forall_forall in Hsk.
  assert (Hin : x ∈ skip_less a ys). { rewrite Heq in Hy. apply elem_of_app in Hy as [Hin|?]; [apply Hsk in Hin; lia|done]. }
  assert (Hord : ordered (skip_less a ys)) by (rewrite Heq in Hys; by apply StronglySorted_app_1_r in Hys).
  destruct (skip_less a ys) as [|y rest] eqn:Hsl; [by apply not_elem_of_nil in Hin|]. destruct (Z.eqb_spec y a) as [|Hne]; [done|].
  pose proof (skip_less_head a ys y rest Hsl) as Hle. apply IH; [done| |done].
  apply elem_of_cons in Hx as [->|?]; [|done]. exfalso. apply StronglySorted_inv in Hord as [_ Hr]. rewrite Forall_forall in Hr.
  apply elem_of_cons in Hin as [?|Hin]; [lia|]. apply Hr in Hin. lia.
Qed.

Definition deletes (rows : DeleteRows) (segment_id block_id offset : Z) : Prop := offset ∈ offsets_of rows segment_id block_id.

Definition rows_ordered (rows : DeleteRows) : Prop := ∀ segment_id block_id, ordered (offsets_of rows segment_id block_id).

Lemma rows_conflict_blocks (rows others : DeleteRows) :
  rows_conflict rows others = true ↔ ∃ segment_id block_id, offsets_conflict (offsets_of rows segment_id block_id) (offsets_of others segment_id block_id) = true.
Proof.
  assert (Hnil : ∀ l, offsets_conflict l [] = false) by (by intros []).
  unfold rows_conflict. rewrite existsb_iter. split.
  - intros (seg & blocks & Hseg & Hc). destruct (others !! seg) as [others_map|] eqn:Ho; [|done]. apply existsb_iter in Hc as (blk & offsets & Hblk & Hc).
    destruct (others_map !! blk) as [other_offsets|] eqn:Hb; [|done]. exists seg, blk. unfold offsets_of. rewrite Hseg, Ho. simpl. by rewrite Hblk, Hb.
  - intros (seg & blk & Hc). unfold offsets_of in Hc. exists seg.
    destruct (rows !! seg) as [blocks|]; simpl in Hc; [|by rewrite lookup_empty in Hc]. exists blocks. split; [done|].
    destruct (others !! seg) as [others_map|]; simpl in Hc; [|rewrite lookup_empty in Hc; simpl in Hc; by rewrite Hnil in Hc].
    apply existsb_iter. exists blk. destruct (blocks !! blk) as [offsets|]; simpl in Hc; [|done]. exists offsets. split; [done|].
    destruct (others_map !! blk); simpl in Hc; [done|by rewrite Hnil in Hc].
Qed.

(** Both transactions delete the row. *)
Definition common_row (rows others : DeleteRows) : Prop := ∃ segment_id block_id offset, deletes rows segment_id block_id offset ∧ deletes others segment_id block_id offset.

Lemma rows_conflict_sound rows others : rows_conflict rows others = true → common_row rows others.
Proof. intros (seg & blk & (off & ? & ?)%offsets_conflict_sound)%rows_conflict_blocks. by exists seg, blk, off. Qed.

Lemma rows_conflict_complete rows others : rows_ordered rows → rows_ordered others → common_row rows others → rows_conflict rows others = true.
Proof. intros H1 H2 (seg & blk & off & Ha & Hb). apply rows_conflict_blocks. exists seg, blk. by eapply offsets_conflict_complete. Qed.

Lemma common_row_empty rows others : common_row rows others → rows ≠ ∅ ∧ others ≠ ∅.
Proof.
  intros (seg & blk & off & Ha & Hb). unfold deletes, offsets_of in *. split; intros ->; rewrite lookup_empty in *; simpl in *; rewrite lookup_empty in *; by apply not_elem_of_nil in Ha || by apply not_elem_of_nil in Hb.
Qed.

(** What a conflict on a table is: one works on an index that the other creates or drops, or they delete
    the same row. *)
Definition table_conflict t (t' : TxnTableStore V) : Prop :=
  (∃ e n, txn_indexes_ t' !! e = Some n ∧ is_Some (txn_indexes_store_ t !! entry_name e)) ∨ common_row (delete_state_ t) (delete_state_ t').

(** One works on a table that the other creates or drops, or they conflict on a table. *)
Definition store_conflict s o : Prop := ∃ name t, txn_tables_store_ s !! name = Some t ∧
  ((∃ e n, txn_tables_ o !! e = Some n ∧ entry_name e = name) ∨ ∃ t', txn_tables_store_ o !! name = Some t' ∧ table_conflict t t').

Definition deletes_ordered s : Prop := ∀ name t, txn_tables_store_ s !! name = Some t → rows_ordered (delete_state_ t).

Lemma names_iter (m : gmap NamedPtr Z) name : existsb (λ e, names_index e name) (iter m) = true ↔ ∃ e n, m !! e = Some n ∧ entry_name e = name.
Proof.
  rewrite existsb_iter. unfold names_index. setoid_rewrite bool_decide_eq_true. simpl. naive_solver.
Qed.

Lemma Table_CheckConflict_iff t t' :
  Table_CheckConflict t t' = true ↔
  (∃ e n, txn_indexes_ t' !! e = Some n ∧ is_Some (txn_indexes_store_ t !! entry_name e)) ∨
  delete_state_ t ≠ ∅ ∧ delete_state_ t' ≠ ∅ ∧ rows_conflict (delete_state_ t) (delete_state_ t') = true.
Proof.
  unfold Table_CheckConflict. destruct (existsb _ (iter (txn_indexes_store_ t))) eqn:Hi.
  - split; [intros _; left|done]. apply existsb_iter in Hi as (name & store & Hn & (e & n & He & <-)%names_iter). eauto.
  - assert (Hno : ¬ ∃ e n, txn_indexes_ t' !! e = Some n ∧ is_Some (txn_indexes_store_ t !! entry_name e)).
    { intros (e & n & He & [store Hs]). apply not_true_iff_false in Hi. apply Hi, existsb_iter. exists (entry_name e), store. split; [done|]. apply names_iter. eauto. }
    destruct (bool_decide_reflect (delete_state_ t = ∅)), (bool_decide_reflect (delete_state_ t' = ∅)); simpl; naive_solver.
Qed.

Lemma Table_CheckConflict_sound t t' : Table_CheckConflict t t' = true → table_conflict t t'.
Proof. intros [?|(_ & _ & ?%rows_conflict_sound)]%Table_CheckConflict_iff; [by left|by right]. Qed.

Lemma Table_CheckConflict_complete t t' :
  rows_ordered (delete_state_ t) → rows_ordered (delete_state_ t') → table_conflict t t' → Table_CheckConflict t t' = true.
Proof.
  intros H1 H2 H. apply Table_CheckConflict_iff. destruct H as [?|Hc]; [by left|right]. destruct (common_row_empty _ _ Hc). split; [done|]. split; [done|]. by apply rows_conflict_complete.
Qed.

Lemma Store_CheckConflict_iff s o :
  Store_CheckConflict s o = true ↔ ∃ name t, txn_tables_store_ s !! name = Some t ∧
  ((∃ e n, txn_tables_ o !! e = Some n ∧ entry_name e = name) ∨ ∃ t', txn_tables_store_ o !! name = Some t' ∧ Table_CheckConflict t t' = true).
Proof.
  unfold Store_CheckConflict. rewrite existsb_iter. split; intros (name & t & Hn & Hc); exists name, t; (split; [done|]); revert Hc.
  - destruct (existsb _ _) eqn:Hi; [intros _; left; by apply names_iter|]. destruct (txn_tables_store_ o !! name); [|done]. intros ?. right. eauto.
  - intros [He|(t' & Ht' & Hc)]; [by rewrite (proj2 (names_iter _ _) He)|]. rewrite Ht'. by destruct (existsb _ _).
Qed.

(** ** Deletes *)

(** The rows of a block among [row_ids]. *)
Definition rows_in (segment_id block_id : Z) (row_ids : list RowID) : list RowID :=
  filter (λ r, row_segment_id r = segment_id ∧ row_block r = block_id) row_ids.

Definition recorded (rows : DeleteRows) (row_ids : list RowID) (segment_id block_id : Z) : list Z :=
  offsets_of rows segment_id block_id ++ map row_offset (rows_in segment_id block_id row_ids).

Lemma delete_row_ok rows r rows' : delete_row rows r = Ok rows' → ∀ segment_id block_id, offsets_of rows' segment_id block_id = recorded rows [r] segment_id block_id.
Proof.
  unfold delete_row. destruct (_ <? _); [done|]. intros [= <-] seg blk. unfold recorded, rows_in. rewrite filter_cons. unfold offsets_of at 1.
  destruct (decide (row_segment_id r = seg)) as [<-|Hs].
  - rewrite lookup_insert_eq. simpl. destruct (decide (row_block r = blk)) as [<-|Hb].
    + rewrite lookup_insert_eq. rewrite decide_True by done. done.
    + rewrite lookup_insert_ne by done. rewrite decide_False by (by intros [_ ?]). simpl. by rewrite app_nil_r.
  - rewrite lookup_insert_ne by done. rewrite decide_False by (by intros [? _]). simpl. by rewrite app_nil_r.
Qed.

Lemma recorded_app rows r row_ids rows' segment_id block_id :
  (∀ segment_id block_id, offsets_of rows' segment_id block_id = recorded rows [r] segment_id block_id) →
  recorded rows' row_ids segment_id block_id = recorded rows (r :: row_ids) segment_id block_id.
Proof.
  intros H. unfold recorded at 1. rewrite H. unfold recorded, rows_in. rewrite !filter_cons. destruct (decide _); simpl; by rewrite <- ?app_assoc, ?app_nil_r.
Qed.

Lemma delete_rows_ok row_ids rows :
  match res_fold delete_row rows row_ids with
  | Ok rows' => ∀ segment_id block_id, offsets_of rows' segment_id block_id = recorded rows row_ids segment_id block_id
  | Err e => e = UnrecoverableError ∧ ∃ segment_id block_id, DEFAULT_BLOCK_CAPACITY < zlen (recorded rows row_ids segment_id block_id)
  end.
Proof.
  revert rows. induction row_ids as [|r row_ids IH]; intros rows; cbn [res_fold].
  { intros seg blk. unfold recorded. by rewrite app_nil_r. }
  destruct (delete_row rows r) as [rows1|e] eqn:Hr; cbn [res_bind].
  - pose proof (delete_row_ok _ _ _ Hr) as H1. specialize (IH rows1). destruct (res_fold delete_row rows1 row_ids) as [rows'|e].
    + intros seg blk. by rewrite IH, (recorded_app rows r row_ids rows1).
    + destruct IH as (-> & seg & blk & Hlen). split; [done|]. exists seg, blk. by rewrite <- (recorded_app rows r row_ids rows1).
  - unfold delete_row in Hr. destruct (Z.ltb_spec DEFAULT_BLOCK_CAPACITY (zlen (offsets_of rows (row_segment_id r) (row_block r) ++ [row_offset r]))) as [Hlt|]; [|done].
    injection Hr as <-. split; [done|]. exists (row_segment_id r), (row_block r). unfold recorded, rows_in. rewrite filter_cons, decide_True by done.
    rewrite !zlen_app in *. unfold zlen in *. simpl in *. lia.
Qed.

Lemma row_address r : 0 ≤ row_segment_offset r < 2 ^ 29 → row_segment_offset r = row_block r * DEFAULT_BLOCK_CAPACITY + row_offset r ∧ 0 ≤ row_offset r < DEFAULT_BLOCK_CAPACITY.
Proof.
  intros H. change (2 ^ 29) with 536870912 in H. unfold row_block, row_offset, DEFAULT_BLOCK_CAPACITY.
  pose proof (Z.mod_pos_bound (row_segment_offset r) 8192 ltac:(lia)). pose proof (Z.div_mod (row_segment_offset r) 8192 ltac:(lia)).
  assert (0 ≤ row_segment_offset r / 8192 < 65536) by (split; [apply Z.div_pos|apply Z.div_lt_upper_bound]; lia).
  rewrite !cast_id by solve_range. lia.
Qed.

(** ** Appended rows *)

Notation DataBlock := (DataBlock V).
Implicit Types (input b : DataBlock) (cts : list DataType).

(** A block that an operator hands over for a table with columns of the types [cts]. *)
Definition input_ok cts (m : Z) input : Prop :=
  counted m input ∧ Forall2 (λ dt v, DataType_eqb dt (data_type_ v) = true) cts (column_vectors input).

Definition table_types cts : Prop := cts ≠ [] ∧ Forall storable cts.

(** A local block whose columns have [n] rows, of which [r] are counted. *)
Definition local_block cts (n r : Z) b : Prop :=
  columns_ok n b ∧ block_types b = cts ∧ capacity_ b = DEFAULT_VECTOR_SIZE ∧ row_count_ b = r ∧ r ≤ n.

Definition column (j : nat) b : list V := default [] (values_ <$> column_vectors b !! j).

Lemma types_match_ok cts vs : Forall2 (λ dt v, DataType_eqb dt (data_type_ v) = true) cts vs → types_match (V := V) cts vs = Ok true.
Proof. induction 1 as [|dt v cts vs H _ IH]; [done|]. cbn [types_match]. by rewrite H. Qed.

Lemma input_types cts m input : input_ok cts m input → column_count_ input = zlen cts ∧ types_match cts (column_vectors input) = Ok true ∧ row_count input = Ok m.
Proof.
  intros [[(_ & _ & Hcc & _) [Hf Hr]] Ht]. split; [|split; [by apply types_match_ok|unfold row_count; by rewrite Hf, Hr]].
  rewrite Hcc. unfold zlen. by rewrite (Forall2_length _ _ _ Ht).
Qed.

Lemma new_block_ok cts : table_types cts → ∃ b, new_block cts = Ok b ∧ local_block cts 0 0 b ∧ finalized b = false ∧ ∀ j, column j b = [].
Proof.
  intros [Hne Hs]. destruct (Init_types_ok (V := V) cts DEFAULT_VECTOR_SIZE Hne Hs ltac:(unfold DEFAULT_VECTOR_SIZE; lia)) as (b & Hb & Hc & Ht & Hcap & Hf & Hr & Hz).
  exists b. split; [done|]. split; [by split_and!|]. split; [done|]. intros j. unfold column. destruct (column_vectors b !! j) as [v|] eqn:Hj; [|done].
  rewrite Forall_lookup in Hz. simpl. by eapply Hz.
Qed.

(** Rows [from .. from + count) of the input go to the end of every column; the count of the block is
    taken only the first time. *)
Lemma append_block cts n r m b input from count :
  local_block cts n r b → input_ok cts m input → 0 ≤ from → 0 ≤ count → from + count ≤ m → n + count ≤ DEFAULT_VECTOR_SIZE →
  ∃ b', (let? b := AppendWith b input from count in Finalize b) = Ok b' ∧ local_block cts (n + count) (if finalized b then r else n + count) b' ∧ finalized b' = true ∧
    ∀ j, (j < length cts)%nat → column j b' = column j b ++ take (Z.to_nat count) (drop (Z.to_nat from) (column j input)).
Proof.
  intros (Hb & Ht & Hcap & Hr & Hrn) [[Hi _] Hts] Hf Hc Hm Hn.
  assert (Hs : same_types (column_vectors b) (column_vectors input)).
  { unfold same_types. rewrite <- Ht in Hts. unfold block_types in Hts. by rewrite Forall2_fmap_l in Hts. }
  destruct (AppendWith_ok n m b input from count Hb Hi Hs Hf Hc Hm ltac:(by rewrite Hcap) ltac:(by rewrite Hr)) as [Ha Hok].
  pose proof (Forall2_length _ _ _ Hs) as Hlen.
  set (d := mkData _ _ _ _ _ _) in *. rewrite Ha. cbn [res_bind].
  assert (Hbt : block_types d = cts).
  { unfold block_types, d. simpl. rewrite <- Ht. unfold block_types. clear -Hlen. revert Hlen. generalize (column_vectors input).
    induction (column_vectors b) as [|v vs IH]; intros [|o os] Hl; try done. simpl. f_equal. apply IH. simpl in Hl. lia. }
  assert (Hcol : ∀ j, (j < length cts)%nat → column j d = column j b ++ take (Z.to_nat count) (drop (Z.to_nat from) (column j input))).
  { intros j Hj. rewrite <- Ht in Hj. unfold block_types in Hj. rewrite length_map in Hj. unfold column, d. simpl. rewrite lookup_zip_with.
    destruct (lookup_lt_is_Some_2 (column_vectors b) j Hj) as [v ->]. destruct (lookup_lt_is_Some_2 (column_vectors input) j ltac:(lia)) as [o ->]. done. }
  destruct (finalized b) eqn:Hfin.
  - exists d. rewrite Finalize_again by done. split; [done|]. split; [|done]. split_and!; try done. simpl. lia.
  - rewrite (Finalize_ok (n + count) d) by done. eexists. split; [done|]. split; [|done]. split_and!; try done.
Qed.

Lemma input_column_length cts m input j : input_ok cts m input → (j < length cts)%nat → length (column j input) = Z.to_nat m.
Proof.
  intros [[(_ & _ & _ & _ & _ & Hv) _] Hts] Hj. rewrite (Forall2_length _ _ _ Hts) in Hj. destruct (lookup_lt_is_Some_2 _ _ Hj) as [v Hvj]. unfold column. rewrite Hvj. simpl.
  rewrite Forall_lookup in Hv. destruct (Hv _ _ Hvj) as (_ & <- & _). unfold Size, zlen. lia.
Qed.

Lemma input_size cts m input : input_ok cts m input → 0 ≤ m.
Proof. intros [[(_ & _ & _ & ? & _) _] _]. lia. Qed.

Lemma block_size cts n r b : local_block cts n r b → 0 ≤ n ≤ DEFAULT_VECTOR_SIZE.
Proof. intros ((_ & _ & _ & ? & _) & _ & <- & _). lia. Qed.

Lemma local_row_count cts n r b : local_block cts n r b → finalized b = true → row_count b = Ok r.
Proof. intros (_ & _ & _ & Hr & _) Hf. unfold row_count. by rewrite Hf, Hr. Qed.

Lemma insert_last (bs : list DataBlock) b b' : <[length bs := b']> (bs ++ [b]) = bs ++ [b'].
Proof. by rewrite <- (Nat.add_0_r (length bs)), insert_app_r. Qed.

(** The first append of a transaction. *)
Lemma Append_first t cts m input :
  blocks_ t = [] → table_types cts → input_ok cts m input → m ≤ DEFAULT_VECTOR_SIZE →
  ∃ b, Append t cts input = Ok (AppendOK, set_blocks t [b] 0 true) ∧ local_block cts m m b ∧ finalized b = true ∧
    ∀ j, (j < length cts)%nat → column j b = column j input.
Proof.
  intros Hb Hc Hi Hm. destruct (new_block_ok cts Hc) as (b0 & Hnew & Hl & Hf0 & Hz). pose proof (input_size _ _ _ Hi) as H0.
  destruct (append_block cts 0 0 m b0 input 0 m Hl Hi) as (b & Hab & Hbl & Hbf & Hcol); [lia..|]. rewrite Hf0 in Hbl.
  destruct (input_types cts m input Hi) as (Hcc & Htm & Hrc). apply res_bind_ok in Hab as (b1 & Hab & Hfin).
  assert (Hr0 : row_count b0 = Ok 0) by (destruct Hl as (_ & _ & _ & Hr & _); unfold row_count; by rewrite Hf0, Hr).
  exists b. split; [|split; [done|split; [done|]]].
  - unfold Append. rewrite Hcc, Z.eqb_refl, Htm, Hb, Hnew. cbn [negb res_bind]. unfold append_current. simpl lookup. cbv beta iota. rewrite Hr0, Hrc. cbn [res_bind].
    assert (capacity_ b0 <? 0 + m = false) as -> by (destruct Hl as (_ & _ & -> & _); lia). rewrite Hab. cbn [res_bind]. by rewrite Hfin.
  - intros j Hj. rewrite (Hcol j Hj), Hz. simpl. rewrite drop_0, take_ge; [done|]. by rewrite (input_column_length cts m).
Qed.

(** A later append, to a block that has been counted: the rows arrive, the count stays. *)
Lemma Append_next t cts bs b n m input :
  blocks_ t = bs ++ [b] → current_block_id_ t = zlen bs → local_block cts n n b → finalized b = true → table_types cts → input_ok cts m input → m ≤ DEFAULT_VECTOR_SIZE →
  if n + m <=? DEFAULT_VECTOR_SIZE then
    ∃ b', Append t cts input = Ok (AppendOK, set_blocks t (bs ++ [b']) (zlen bs) true) ∧ local_block cts (n + m) n b' ∧
      ∀ j, (j < length cts)%nat → column j b' = column j b ++ column j input
  else
    ∃ full fresh, Append t cts input = Ok (AppendOK, set_blocks t (bs ++ [full; fresh]) (zlen bs + 1) true) ∧ local_block cts DEFAULT_VECTOR_SIZE n full ∧
      local_block cts (n + m - DEFAULT_VECTOR_SIZE) (n + m - DEFAULT_VECTOR_SIZE) fresh ∧
      ∀ j, (j < length cts)%nat → column j full ++ column j fresh = column j b ++ column j input.
Proof.
  intros Hb Hid Hl Hf Hc Hi Hm. destruct (input_types cts m input Hi) as (Hcc & Htm & Hrc). pose proof (input_size _ _ _ Hi) as H0. pose proof (block_size _ _ _ _ Hl) as Hn.
  pose proof (local_row_count _ _ _ _ Hl Hf) as Hr. assert (Hcap : capacity_ b = DEFAULT_VECTOR_SIZE) by apply Hl.
  assert (Hcur : (bs ++ [b]) !! Z.to_nat (zlen bs) = Some b) by (unfold zlen; by rewrite Nat2Z.id, list_lookup_middle).
  assert (Hins : ∀ b', <[Z.to_nat (zlen bs) := b']> (bs ++ [b]) = bs ++ [b']) by (intros; unfold zlen; by rewrite Nat2Z.id, insert_last).
  assert (Happ : Append t cts input = let? t := append_current t cts input (bs ++ [b]) (zlen bs) in Ok (AppendOK, t)).
  { unfold Append. rewrite Hcc, Z.eqb_refl, Htm, Hb, Hid. cbn [negb res_bind]. by destruct bs. }
  rewrite Happ. unfold append_current. rewrite Hcur, Hr, Hrc, Hcap. cbn [res_bind]. clear Happ Hcur.
  destruct (Z.leb_spec (n + m) DEFAULT_VECTOR_SIZE) as [Hle|Hgt].
  - assert (DEFAULT_VECTOR_SIZE <? n + m = false) as -> by lia. destruct (append_block cts n n m b input 0 m Hl Hi) as (b' & Hab & Hbl & Hbf & Hcol); [lia..|].
    apply res_bind_ok in Hab as (b1 & -> & Hfin). cbn [res_bind]. rewrite Hfin. cbn [res_bind]. rewrite Hins. rewrite Hf in Hbl. exists b'. split; [done|]. split; [done|]. intros j Hj. rewrite (Hcol j Hj), drop_0, take_ge; [done|].
    by rewrite (input_column_length cts m).
  - assert (DEFAULT_VECTOR_SIZE <? n + m = true) as -> by lia. cbv zeta. set (k := DEFAULT_VECTOR_SIZE - n) in *.
    destruct (append_block cts n n m b input 0 k Hl Hi) as (full & Hab & Hbl & Hbf & Hcol); [lia..|]. apply res_bind_ok in Hab as (b1 & -> & Hfin). cbn [res_bind]. rewrite Hfin. rewrite Hf in Hbl. cbn [res_bind].
    destruct (new_block_ok cts Hc) as (b0 & -> & Hl0 & Hf0 & Hz). cbn [res_bind].
    destruct (append_block cts 0 0 m b0 input k (m - k) Hl0 Hi) as (fresh & Hab & Hbl' & Hbf' & Hcol'); [lia..|]. apply res_bind_ok in Hab as (b2 & -> & Hfin'). cbn [res_bind]. rewrite Hfin'. rewrite Hf0 in Hbl'. cbn [res_bind]. rewrite Hins, <- app_assoc.
    exists full, fresh. split; [done|]. replace (n + k) with DEFAULT_VECTOR_SIZE in Hbl by lia. replace (0 + (m - k)) with (n + m - DEFAULT_VECTOR_SIZE) in Hbl' by lia.
    split; [done|]. split; [done|]. intros j Hj. rewrite (Hcol j Hj), (Hcol' j Hj), Hz. simpl. rewrite drop_0, <- app_assoc. f_equal.
    rewrite (take_ge (drop _ _)); [apply take_drop|]. rewrite length_drop, (input_column_length cts m) by done. lia.
Qed.

(** ** Transactions that only read *)

Section Collecting.
Context `{CO : !CatalogOps V}.

(** What statements do to the store of a table. *)
Inductive table_step t : TxnTableStore V → Prop :=
| step_import e (c : Cat) t' c' : Import t e c = Ok (t', c') → table_step t t'
| step_append cts input st t' : Append t cts input = Ok (st, t') → table_step t t'
| step_delete row_ids t' : Delete t row_ids = Ok t' → table_step t t'
| step_compact data type (c : Cat) t' c' : Compact t data type c = Ok (t', c') → table_step t t'
| step_index e : table_step t (AddIndexStore t e)
| step_segment_indexes e l t' : AddSegmentIndexesStore t e l = Ok t' → table_step t t'
| step_chunk_index e chunk : table_step t (AddChunkIndexStore t e chunk)
| step_drop_index e : table_step t (DropIndexStore t e).2
| step_get_index e : table_step t (GetIndexStore t e).2
| step_segment e blocks t' : AddSegmentStore t e blocks = Ok t' → table_step t t'
| step_block e block : table_step t (AddBlockStore t e block)
| step_sealed e : table_step t (AddSealedSegment t e).

Inductive collecting : TxnStore V → Prop :=
| collecting_new : collecting Store_new
| collecting_db s e : collecting s → collecting (AddDBStore s e)
| collecting_drop_db s e : collecting s → collecting (DropDBStore s e).2
| collecting_table s e : collecting s → collecting (AddTableStore s e)
| collecting_drop_table s e : collecting s → collecting (DropTableStore s e).2
| collecting_open s seq e : collecting s → collecting (GetTxnTableStore s seq e).2
| collecting_step s name t t' : collecting s → txn_tables_store_ s !! name = Some t → table_step t t' → collecting (put_table s name t').

Definition untouched t : Prop := ∃ seq e, t = TxnTableStore_new seq e.

Lemma table_step_updates t t' : table_step t t' → t' = t ∨ has_update_ t' = true.
Proof.
  destruct 1 as [e c t' c' H|cts input st t' H|row_ids t' H|data type c t' c' H|e|e l t' H|e chunk|e|e|e blocks t' H|e b|e]; try (by right).
  - unfold Import in H. apply res_bind_ok in H as (t1 & _ & H). apply res_bind_ok in H as ([t2 c2] & _ & [= <- _]). by right.
  - unfold Append in H. destruct (negb _); [injection H as _ <-; by left|]. apply res_bind_ok in H as (same & _ & H). destruct (negb same); [injection H as _ <-; by left|].
    apply res_bind_ok in H as ([bs id] & _ & H). apply res_bind_ok in H as (t1 & H & [= _ <-]). right. unfold append_current in H. destruct (bs !! _); [|done].
    apply res_bind_ok in H as (r1 & _ & H). apply res_bind_ok in H as (r2 & _ & H). destruct (_ <? _);
      repeat (apply res_bind_ok in H as (? & _ & H)); by injection H as <-.
  - unfold Delete in H. apply res_bind_ok in H as (rows & _ & [= <-]). by right.
  - unfold Compact in H. destruct (compact_type_ _); try done. apply res_bind_ok in H as ([t2 c2] & _ & [= <- _]). by right.
  - unfold AddSegmentIndexesStore in H. apply res_bind_ok in H as (st & _ & [= <-]). by right.
  - unfold DropIndexStore. destruct (txn_indexes_ t !! e); by right.
  - unfold GetIndexStore. destruct (txn_indexes_store_ t !! entry_name e); [by left|by right].
  - unfold AddSegmentStore in H. destruct (_ !! _); [done|]. injection H as <-. by right.
Qed.

Lemma collecting_updates s : collecting s → ∀ name t, txn_tables_store_ s !! name = Some t → untouched t ∨ has_update_ t = true.
Proof.
  induction 1 as [|s e Hs IH|s e Hs IH|s e Hs IH|s e Hs IH|s seq e Hs IH|s name t t' Hs IH Hn Ht]; intros name1 t1 H1; try done; try (by eapply IH).
  - eapply IH. revert H1. unfold DropDBStore. by destruct (txn_dbs_ s !! e).
  - revert H1. unfold DropTableStore. destruct (txn_tables_ s !! e); simpl; [|by apply IH]. intros [_ H1]%lookup_delete_Some. by eapply IH.
  - revert H1. unfold GetTxnTableStore. destruct (txn_tables_store_ s !! entry_name e); simpl; [by apply IH|].
    intros [[_ <-]|[_ H1]]%lookup_insert_Some; [left; by eexists _, _|by eapply IH].
  - simpl in H1. apply lookup_insert_Some in H1 as [[_ <-]|[_ H1]]; [|by eapply IH]. destruct (table_step_updates _ _ Ht) as [-> |?]; [by eapply IH|by right].
Qed.

Lemma read_only_stores s : Store_ReadOnly s = true → txn_dbs_ s = ∅ ∧ txn_tables_ s = ∅ ∧ ∀ name t, txn_tables_store_ s !! name = Some t → has_update_ t = false.
Proof.
  unfold Store_ReadOnly. destruct (existsb _ _) eqn:He; [done|]. cbv zeta. destruct (bool_decide_reflect (txn_tables_ s = ∅)); [|done]. intros ?%bool_decide_eq_true. split; [done|]. split; [done|]. intros name t Hn.
  apply not_true_iff_false. intros Hu. apply not_true_iff_false in He. apply He, existsb_iter. by exists name, t.
Qed.
End Collecting.
End Spec.

(** ** A catalog that accepts everything, or raises an error when an entry commits *)

Module SampleStore.
#[export] Instance hash_order : HashOrder := {| iter := λ K V _ _ m, map_to_list m; iter_perm := λ K V _ _ m, reflexivity _ |}.

Definition catalog (committing : result ()) : CatalogOps Z := {|
  Cat := ();
  column_types := λ _ _, [];
  segment_blocks := λ _ _, [];
  block_columns := λ _ _, [];
  Table_Import := λ _ _ t c, Ok (t, c);
  AddCompactNew := λ _ _ c, Ok c;
  CommitFlushed := λ _ _ _, committing;
  Catalog_Append := λ _ _ _ t c, Ok (t, c);
  Catalog_CommitCompact := λ _ _ _ _ c, Ok c;
  Catalog_Delete := λ _ _ _ t c, Ok (t, c);
  CommitOptimize := λ _ _ c, Ok c;
  Segment_SetSealed := λ _ c, (true, c);
  Catalog_CommitWrite := λ _ _ _ _ _ c, Ok c;
  CommitCreateIndex := λ _ _ c, Ok c;
  CommitSegmentIndex := λ _ _ _ c, Ok c;
  Chunk_Committed := λ _ _, true;
  Chunk_Commit := λ _ _ c, Ok c;
  Entry_Commit := λ _ _ _, committing;
  Entry_Cleanup := λ _ c, Ok c;
  Catalog_RollbackAppend := λ _ _ _ c, Ok c;
  Catalog_RollbackCompact := λ _ _ _ _ c, Ok c;
  RemoveIndexEntry := λ _ _ c, Ok c;
  RemoveTableEntry := λ _ _ c, Ok c;
  RemoveDBEntry := λ _ _ c, Ok c;
  AddSegmentToCompactionAlg := λ _ _ c, Ok c;
  AddDeleteToCompactionAlg := λ _ _ c, Ok c;
  ExecuteOnNewSealedSegment := λ _ _ c, Ok c;
  delta_op := λ _ ts _, SampleOps.segment_op ts 0;
|}.

#[export] Instance catalog_laws committing : CatalogLaws Z (CatalogOps0 := catalog committing).
Proof. split; by intros ? ? ? ? ? ? ? [= <- _]. Qed.

#[export] Instance good_catalog : CatalogOps Z := catalog (Ok ()).
#[export] Instance good_laws : CatalogLaws Z := catalog_laws (Ok ()).

Definition table : NamedPtr := mkNamed 1 (str "t").

(** The store of a transaction that has deleted the rows. *)
Definition deleting (rows : list RowID) : TxnStore Z :=
  match Delete (TxnTableStore_new 0 table) rows with
  | Ok t => put_table Store_new (str "t") t
  | Err _ => Store_new
  end.

End SampleStore.

(** ** Properties *)

Section StoreProps.
Context {V : Type} `{HO : !HashOrder}.
Implicit Types (t : TxnTableStore V) (s o : TxnStore V).

(** C16. [CheckConflict] finds exactly the conflicts when the deleted offsets of each block are in order:
    the later transaction works on a table or index that the other creates or drops, or both delete the
    same row. *)
Theorem check_conflict_exact s o : deletes_ordered s → deletes_ordered o → Store_CheckConflict s o = true ↔ store_conflict s o.
Proof.
  intros Hs Ho. rewrite Store_CheckConflict_iff. split; intros (name & t & Hn & [?|(t' & Ht' & Hc)]); exists name, t; (split; [done|]); try (by left); right; exists t'; (split; [done|]).
  - by apply Table_CheckConflict_sound.
  - apply Table_CheckConflict_complete; [by eapply Hs|by eapply Ho|done].
Qed.

(** Two transactions that delete the same row [x] are not found to conflict when one of them has
    deleted a later row of the block before it: [CheckConflict] merges the two lists of offsets as if
    they were in order, but [Delete] appends them in the order of the statements. *)
Theorem unordered_deletes_missed e x y t1 t2 :
  0 ≤ x < y → y < DEFAULT_BLOCK_CAPACITY →
  Delete (TxnTableStore_new (V := V) 0 e) [mkRowID 0 y; mkRowID 0 x] = Ok t1 → Delete (TxnTableStore_new (V := V) 0 e) [mkRowID 0 x] = Ok t2 →
  common_row (delete_state_ t1) (delete_state_ t2) ∧ Table_CheckConflict t1 t2 = false.
Proof.
  intros Hx Hy H1 H2. unfold DEFAULT_BLOCK_CAPACITY in Hy.
  assert (Hrow : ∀ z, 0 ≤ z < 8192 → row_block (mkRowID 0 z) = 0 ∧ row_offset (mkRowID 0 z) = z).
  { intros z Hz. unfold row_block, row_offset, DEFAULT_BLOCK_CAPACITY. simpl. rewrite Z.div_small, Z.mod_small by lia. rewrite !cast_id by solve_range. done. }
  destruct (Hrow x ltac:(lia)) as [Hbx Hox], (Hrow y ltac:(lia)) as [Hby Hoy].
  assert (Hoff : ∀ rows t, Delete (TxnTableStore_new (V := V) 0 e) rows = Ok t → ∀ seg blk, offsets_of (delete_state_ t) seg blk = map row_offset (rows_in seg blk rows)).
  { intros rows t H seg blk. unfold Delete in H. apply res_bind_ok in H as (rows' & Hf & [= <-]). pose proof (delete_rows_ok rows (delete_state_ (TxnTableStore_new (V := V) 0 e))) as Hd.
    rewrite Hf in Hd. simpl. rewrite Hd. unfold recorded. simpl. unfold offsets_of. by rewrite lookup_empty. }
  assert (O1 : ∀ seg blk, offsets_of (delete_state_ t1) seg blk = if decide (seg = 0 ∧ blk = 0) then [y; x] else []).
  { intros seg blk. rewrite (Hoff _ _ H1). unfold rows_in. rewrite !filter_cons. simpl. rewrite Hbx, Hby. repeat case_decide; simpl; rewrite ?Hox, ?Hoy; naive_solver. }
  assert (O2 : ∀ seg blk, offsets_of (delete_state_ t2) seg blk = if decide (seg = 0 ∧ blk = 0) then [x] else []).
  { intros seg blk. rewrite (Hoff _ _ H2). unfold rows_in. rewrite !filter_cons. simpl. rewrite Hbx. repeat case_decide; simpl; rewrite ?Hox; naive_solver. }
  split.
  - exists 0, 0, x. unfold deletes. rewrite O1, O2, !decide_True by done. set_solver.
  - apply not_true_iff_false. intros [(e' & n & He & _)|(_ & _ & (seg & blk & Hc)%rows_conflict_blocks)]%Table_CheckConflict_iff.
    + unfold Delete in H2. apply res_bind_ok in H2 as (rows' & _ & [= <-]). simpl in He. by rewrite lookup_empty in He.
    + rewrite O1, O2 in Hc. case_decide; [|done]. simpl in Hc. assert (x <? y = true) as Hlt by lia. by rewrite Hlt in Hc.
Qed.

(** [Delete] records every row id once, in the block it lies in and at the end of what was recorded
    for that block; it raises an error exactly when a block would get more offsets than it has rows. *)
Theorem deletes_recorded t row_ids :
  match Delete t row_ids with
  | Ok t' => has_update_ t' = true ∧ ∀ segment_id block_id, offsets_of (delete_state_ t') segment_id block_id = recorded (delete_state_ t) row_ids segment_id block_id
  | Err err => err = UnrecoverableError ∧ ∃ segment_id block_id, DEFAULT_BLOCK_CAPACITY < zlen (recorded (delete_state_ t) row_ids segment_id block_id)
  end.
Proof.
  unfold Delete. pose proof (delete_rows_ok row_ids (delete_state_ t)) as H. destruct (res_fold delete_row _ _) as [rows|err]; cbn [res_bind]; [|done]. by split.
Qed.

(** What [AppendState] takes from the local blocks when the transaction commits. *)
Definition handed_over t : AppendState := AppendState_new (map (λ b, mkDataBlock (map values_ (column_vectors b)) (row_count_ b)) (blocks_ t)).

(** C25. The first append of a transaction to a table keeps every row of the input in order, and the
    commit appends all of them. *)
Theorem first_append_kept t cts m input :
  blocks_ t = [] → table_types cts → input_ok cts m input → m ≤ DEFAULT_VECTOR_SIZE →
  ∃ t' b, Append t cts input = Ok (AppendOK, t') ∧ blocks_ t' = [b] ∧ (∀ j, (j < length cts)%nat → column j b = column j input) ∧ total_count_ (handed_over t') = m.
Proof.
  intros Hb Hc Hi Hm. destruct (Append_first t cts m input Hb Hc Hi Hm) as (b & Ha & (_ & _ & _ & Hr & _) & _ & Hcol).
  eexists _, b. split; [done|]. split; [done|]. split; [done|]. simpl. rewrite Hr. unfold Zsum. simpl. lia.
Qed.

(** C29. Rows of a second append are lost.  All rows arrive in the local blocks, but [Finalize] does not
    count a block again: the rows that still fit in the block of the first append are not counted.
    The commit appends the rows of the first append and those that overflowed into a new block. *)
Theorem second_append_lost t cts n m input1 input2 :
  blocks_ t = [] → table_types cts → input_ok cts n input1 → input_ok cts m input2 → n ≤ DEFAULT_VECTOR_SIZE → m ≤ DEFAULT_VECTOR_SIZE →
  ∃ t1 t2, Append t cts input1 = Ok (AppendOK, t1) ∧ Append t1 cts input2 = Ok (AppendOK, t2) ∧
    (∀ j, (j < length cts)%nat → concat (map (column j) (blocks_ t2)) = column j input1 ++ column j input2) ∧
    total_count_ (handed_over t2) = n + m - Z.min m (DEFAULT_VECTOR_SIZE - n).
Proof.
  intros Hb Hc H1 H2 Hn Hm. destruct (Append_first t cts n input1 Hb Hc H1 Hn) as (b1 & Ha1 & Hl1 & Hf1 & Hcol1).
  pose proof (input_size _ _ _ H1) as H0. pose proof (Append_next (set_blocks t [b1] 0 true) cts [] b1 n m input2 eq_refl eq_refl Hl1 Hf1 Hc H2 Hm) as Hnext.
  destruct (Z.leb_spec (n + m) DEFAULT_VECTOR_SIZE).
  - destruct Hnext as (b2 & Ha2 & (_ & _ & _ & Hr & _) & Hcol2). eexists _, _. split; [done|]. split; [done|].
    split; [intros j Hj; simpl; by rewrite app_nil_r, (Hcol2 j Hj), (Hcol1 j Hj)|]. simpl. rewrite Hr. unfold Zsum. simpl. lia.
  - destruct Hnext as (full & fresh & Ha2 & (_ & _ & _ & Hr & _) & (_ & _ & _ & Hr' & _) & Hcol2). eexists _, _. split; [done|]. split; [done|].
    split; [intros j Hj; simpl; by rewrite app_nil_r, (Hcol2 j Hj), (Hcol1 j Hj)|]. simpl. rewrite Hr, Hr'. unfold Zsum. simpl. lia.
Qed.

Context `{CO : !CatalogOps V}.

(** A transaction whose store says it is read-only has written nothing: no database or table was
    created or dropped, and no statement has changed the store of a table. *)
Theorem read_only_untouched s :
  collecting s → Store_ReadOnly s = true →
  txn_dbs_ s = ∅ ∧ txn_tables_ s = ∅ ∧ ∀ name t, txn_tables_store_ s !! name = Some t → untouched t.
Proof.
  intros Hc (Hd & Ht & Hs)%read_only_stores. split; [done|]. split; [done|]. intros name t Hn.
  destruct (collecting_updates s Hc name t Hn) as [?|Hu]; [done|]. by rewrite (Hs name t Hn) in Hu.
Qed.
End StoreProps.

(** ** Examples *)

Module StoreExamples.
Import SampleStore.

Fixpoint orderedb (l : list Z) : bool :=
  match l with
  | [] => true
  | x :: l => forallb (λ y, x <=? y) l && orderedb l
  end.

Lemma orderedb_ok l : orderedb l = true → ordered l.
Proof.
  induction l as [|x l IH]; simpl; [constructor|]. intros [Hx Hl]%andb_true_iff. constructor; [by apply IH|].
  rewrite forallb_forall in Hx. apply Forall_forall. intros y Hy. apply Z.leb_le, Hx. by apply list_elem_of_In.
Qed.

Definition store_orderedb (s : TxnStore Z) : bool :=
  forallb (λ e, forallb (λ f, forallb (λ g, orderedb g.2) (map_to_list f.2)) (map_to_list (delete_state_ e.2))) (map_to_list (txn_tables_store_ s)).

Lemma store_orderedb_ok s : store_orderedb s = true → deletes_ordered s.
Proof.
  assert (Hin : ∀ K `{Countable K} A (P : K * A → bool) (m : gmap K A) k x, forallb P (map_to_list m) = true → m !! k = Some x → P (k, x) = true).
  { intros K ? ? A P m k x Hf Hk. rewrite forallb_forall in Hf. apply Hf. apply list_elem_of_In. by apply elem_of_map_to_list. }
  intros Hs name t Hn seg blk. apply orderedb_ok. apply (Hin _ _ _ _ _ _ _ _ Hs) in Hn. simpl in Hn. unfold offsets_of.
  destruct (delete_state_ t !! seg) as [blocks|] eqn:Hseg; simpl; [|by rewrite lookup_empty]. apply (Hin _ _ _ _ _ _ _ _ Hn) in Hseg. simpl in Hseg.
  destruct (blocks !! blk) as [offs|] eqn:Hblk; simpl; [|done]. by apply (Hin _ _ _ _ _ _ _ _ Hseg) in Hblk.
Qed.

Definition integers : DataType := DataType_new (Enumerator kInteger) None.

Definition rows (values : list Z) : DataBlock Z :=
  mkData [mkVector VectorType.kFlat integers values DEFAULT_VECTOR_SIZE true] (zlen values) 1 DEFAULT_VECTOR_SIZE true true.

Lemma rows_ok values : zlen values ≤ DEFAULT_VECTOR_SIZE → input_ok [integers] (zlen values) (rows values).
Proof.
  intros H. split; [|by repeat constructor]. split; [|done]. unfold columns_ok, DEFAULT_VECTOR_SIZE in *. simpl.
  split_and!; try done; try (unfold zlen in *; lia). repeat constructor; try done; by exists ValueCopy.
Qed.

Lemma integers_ok : table_types [integers].
Proof. split; [done|]. repeat constructor; by exists ValueCopy. Qed.
End StoreExamples.
Import StoreExamples.
Import (hints) SampleStore.

Example check_conflict_exact_witness :
  Store_CheckConflict (SampleStore.deleting [mkRowID 0 5]) (SampleStore.deleting [mkRowID 0 3; mkRowID 0 5; mkRowID 1 7]) = true ∧
  store_conflict (SampleStore.deleting [mkRowID 0 5]) (SampleStore.deleting [mkRowID 0 3; mkRowID 0 5; mkRowID 1 7]).
Proof.
  split; [by vm_compute|]. apply (check_conflict_exact (SampleStore.deleting [mkRowID 0 5]) (SampleStore.deleting [mkRowID 0 3; mkRowID 0 5; mkRowID 1 7])); [apply store_orderedb_ok; by vm_compute..|by vm_compute].
Defined.

Example unordered_deletes_missed_witness :
  ∃ t1 t2 : TxnTableStore Z,
    Delete (TxnTableStore_new 0 SampleStore.table) [mkRowID 0 5; mkRowID 0 3] = Ok t1 ∧ Delete (TxnTableStore_new 0 SampleStore.table) [mkRowID 0 3] = Ok t2 ∧
    common_row (delete_state_ t1) (delete_state_ t2) ∧ Table_CheckConflict t1 t2 = false.
Proof.
  destruct (Delete (TxnTableStore_new (V := Z) 0 SampleStore.table) [mkRowID 0 5; mkRowID 0 3]) as [t1|] eqn:H1; [|by vm_compute in H1].
  destruct (Delete (TxnTableStore_new (V := Z) 0 SampleStore.table) [mkRowID 0 3]) as [t2|] eqn:H2; [|by vm_compute in H2].
  exists t1, t2. split; [done|]. split; [done|]. apply (unordered_deletes_missed SampleStore.table 3 5 t1 t2); [lia|unfold DEFAULT_BLOCK_CAPACITY; lia|exact H1|exact H2].
Defined.

Example first_append_kept_witness :
  ∃ t' b, Append (TxnTableStore_new 0 SampleStore.table) [integers] (rows [1; 2; 3]) = Ok (AppendOK, t') ∧ blocks_ t' = [b] ∧
    column 0 b = [1; 2; 3] ∧ total_count_ (handed_over t') = 3.
Proof.
  destruct (first_append_kept (TxnTableStore_new 0 SampleStore.table) [integers] 3 (rows [1; 2; 3])) as (t' & b & Ha & Hb & Hc & Ht);
    [done|apply integers_ok|by apply (rows_ok [1; 2; 3])|by vm_compute|].
  exists t', b. split; [exact Ha|]. split; [exact Hb|]. split; [|exact Ht]. apply (Hc 0%nat). simpl. lia.
Defined.

Example second_append_lost_witness :
  ∃ t1 t2, Append (TxnTableStore_new 0 SampleStore.table) [integers] (rows [1; 2; 3]) = Ok (AppendOK, t1) ∧
    Append t1 [integers] (rows [4; 5]) = Ok (AppendOK, t2) ∧ concat (map (column 0) (blocks_ t2)) = [1; 2; 3; 4; 5] ∧ total_count_ (handed_over t2) = 3.
Proof.
  destruct (second_append_lost (TxnTableStore_new 0 SampleStore.table) [integers] 3 2 (rows [1; 2; 3]) (rows [4; 5])) as (t1 & t2 & Ha & Hb & Hd & Ht);
    [done|apply integers_ok|by apply (rows_ok [1; 2; 3])|by apply (rows_ok [4; 5])|by vm_compute|by vm_compute|].
  exists t1, t2. split; [exact Ha|]. split; [exact Hb|]. split; [|exact Ht]. apply (Hd 0%nat). simpl. lia.
Defined.

Example read_only_untouched_witness :
  ∀ name t, txn_tables_store_ (GetTxnTableStore Store_new 0 SampleStore.table).2 !! name = Some t → untouched (V := Z) t.
Proof.
  apply (read_only_untouched (GetTxnTableStore Store_new 0 SampleStore.table).2); [apply collecting_open, collecting_new|by vm_compute].
Defined.

(** A third append may find the local block fuller than its count says, and raise an error in the middle
    of the statement: 5000, 3000 and 3000 rows. *)
Example third_append_fails :
  (let? '(_, t) := Append (TxnTableStore_new 0 SampleStore.table) [integers] (rows (replicate (Z.to_nat 5000) 1)) in
   let? '(_, t) := Append t [integers] (rows (replicate (Z.to_nat 3000) 2)) in
   Append t [integers] (rows (replicate (Z.to_nat 3000) 3))) = Err UnrecoverableError.
Proof. by vm_compute. Qed.
