(* ===== verification/TxnProps.v ===== *)
(** * Properties of transactions

    The theorems about [TxnManager] and the store of a transaction, with runs of the system on concrete
    transactions. *)

From Stdlib Require Import ZArith Lia List Sorted.
From stdpp Require Import base list numbers gmap sets sorting strings.
From S2P Require Import Prelude Bytes DataTypes WalEntry CatalogDelta GlobalDelta DataBlock TxnManager TxnInv TxnConflict TxnLive TxnDelta TxnStore TxnStoreSpec.
Local Open Scope Z_scope.

(** ** Running the system *)

Section Runs.
Context {B : Type} `{Ops : !TxnStoreOps} `{Laws : !TxnStoreLaws}.

Notation System := (System B).
Notation Txn := (Txn B).
Notation event := (event B).
Implicit Types (s : System) (t : Txn) (e : event).

#[export] Instance fresh_dec s : Decision (fresh s).
Proof. unfold fresh. apply _. Defined.
#[export] Instance room_dec n s : Decision (room n s).
Proof. unfold room. apply _. Defined.

(** Whoever collects candidates in the step has the smallest timestamp of those not yet committing. *)
Definition stamps_firstb s s' : bool :=
  forallb (λ '(id, g), match g, stages s' !! id, txn_map_ (mgr s) !! id with
    | Prepared, Some (Checking _), Some t =>
        forallb (λ '(_, g), match g with StampedW ts => CommitTS t <? ts | _ => true end) (map_to_list (stages s))
    | _, _, _ => true
    end) (map_to_list (stages s)).

Lemma stamps_firstb_ok s s' : stamps_firstb s s' = true → stamps_first s s'.
Proof.
  unfold stamps_firstb. rewrite forallb_forall. intros H id l t j ts HG HG' HT Hj.
  specialize (H (id, Prepared)). cbn beta iota in H. rewrite HG', HT in H. rewrite forallb_forall in H.
  assert (Hin : ∀ i g, stages s !! i = Some g → In (i, g) (map_to_list (stages s))) by (intros i g Hi; apply list_elem_of_In; by apply elem_of_map_to_list).
  specialize (H (Hin _ _ HG) (j, StampedW ts) (Hin _ _ Hj)). cbn beta iota in H. lia.
Qed.

(** The state after a sequence of steps that all succeed; [gate] says which steps are allowed. *)
Fixpoint run (gate : System → System → bool) s (es : list event) : option System :=
  match es with
  | [] => Some s
  | e :: es =>
      if bool_decide (fresh s) then
        match exec s e with
        | Some (Ok s') => if gate s s' then run gate s' es else None
        | _ => None
        end
      else None
  end.

Lemma run_reach gate s es s' : reach s → run gate s es = Some s' → reach s'.
Proof.
  revert s. induction es as [|e es IH]; intros s Hr; cbn [run]; [by intros [= <-]|]. case_bool_decide as Hf; [|done].
  destruct (exec s e) as [[s1|]|] eqn:He; try done. destruct (gate s s1); [|done]. apply IH. by econstructor.
Qed.

Lemma run_careful s es s' : careful s → run stamps_firstb s es = Some s' → careful s'.
Proof.
  revert s. induction es as [|e es IH]; intros s Hr; cbn [run]; [by intros [= <-]|]. case_bool_decide as Hf; [|done].
  destruct (exec s e) as [[s1|]|] eqn:He; try done. destruct (stamps_firstb s s1) eqn:Hs; [|done]. apply IH. econstructor; try done. by apply stamps_firstb_ok.
Qed.
End Runs.

(** ** Properties *)

Section Props.
Context {B : Type} `{Ops : !TxnStoreOps} `{Laws : !TxnStoreLaws}.
Import TxnState.

Notation System := (System B).
Notation Txn := (Txn B).
Notation event := (event B).
Implicit Types (s : System) (t : Txn) (e : event).

(** C5. The transaction manager raises no error of its own.  Whatever the clients do and however the
    threads interleave, as long as the 64-bit clocks have not run out, every step of a commit or an abort
    succeeds unless the store or the catalog raises the error: no transaction is looked up after it was
    destroyed, no context changes from a wrong state, no timestamp is missing in [wait_conflict_ck_]. *)
Theorem txn_steps_succeed s e err : reach s → fresh s → exec s e = Some (Err err) → raised s e err.
Proof. intros Hr Hf Hs. destruct (exec_inv s e _ (reach_system_inv _ Hr) Hf Hs) as [(s' & [=] & _)|(err' & [= <-] & ?)]. done. Qed.

(** C6. The log is written in commit order and ahead of the commits: at every moment its entries have
    increasing commit timestamps, each is the entry of a transaction that passed its conflict check, and
    every transaction that has committed changes is in it. *)
Theorem log_in_commit_order s :
  reach s →
  StronglySorted (λ a b, WalEntry.commit_ts_ a < WalEntry.commit_ts_ b) (written_ s) ∧
  (∀ entry, entry ∈ written_ s →
     ∃ t, accepted (txn_map_ (mgr s)) (stages s) (history_ s) (WalEntry.txn_id_ entry) t ∧ wal_entry_ t = Some entry ∧ WalEntry.commit_ts_ entry = CommitTS t) ∧
  (∀ id t entry, committed (history_ s) id t → wal_entry_ t = Some entry → cmds_ entry ≠ [] → entry ∈ written_ s).
Proof.
  intros Hr. pose proof (reach_system_inv _ Hr) as (C & [L _] & _). split; [apply (written_sorted L)|split].
  - intros entry (t & Ha & Hw)%(written_sound L). exists t. split; [done|]. split; [done|].
    assert (wal_ok (WalEntry.txn_id_ entry) t) as (e' & He' & <- & _); [|congruence].
    destruct Ha as [(g & Hl & Hg)|(Hh & Hty & Hs)].
    + destruct (core_ok C _ _ _ Hl) as (_ & _ & Hok). destruct Hg as [-> | ->]; [by destruct Hok as (_ & ? & _)|by destruct Hok as (_ & ?)].
    + destruct (core_hist_ok C _ _ Hh Hty) as (_ & _ & _ & [?|(_ & ? & _)]); [congruence|done].
  - intros id t entry (Hh & Hty & Hs) Hw Hc. apply (written_complete L id t entry); [right; by right|done|done].
Qed.

(** C2. First committer wins, when every transaction that has drawn its commit timestamp enters the state
    [kCommitting] before a later one collects its candidates: of two transactions that commit, the later
    one either began after the earlier one had committed, or its store did not conflict with it. *)
Theorem first_committer_wins s id1 t1 id2 t2 :
  careful s →
  accepted (txn_map_ (mgr s)) (stages s) (history_ s) id1 t1 → accepted (txn_map_ (mgr s)) (stages s) (history_ s) id2 t2 →
  CommitTS t1 < CommitTS t2 →
  (Txn_State t1 = kCommitted ∧ CommittedTS t1 ≤ BeginTS t2) ∨
  ∃ store, checked_ s !! id2 = Some store ∧ store_CheckConflict store (txn_store_ t1) = false.
Proof.
  intros Hc H1 H2 Hlt. destruct (conf_checked _ _ _ _ (careful_conf s Hc) id1 t1 id2 t2 []) as [[]%not_elem_of_nil|?]; [| |done|done].
  - destruct H1 as [(g & Hl & Hg)|?]; [left; exists g; split; [done|]|by right]. by destruct Hg as [-> | ->].
  - destruct H2 as [(g & Hl & Hg)|?]; [left; exists g; split; [done|]|by right]. by destruct Hg as [-> | ->].
Qed.

(** C9. Every transaction comes to its end.  From every state that can be reached, when clients only
    commit or abort (no transaction begins or writes any more), the store and the catalog raise no
    error ([sound_catalog]) and the clocks have room ([room]), all transactions have finished after at most
    [steps_left] steps, whatever the order of the steps; until then some thread can go on. *)
Theorem transactions_finish s : sound_catalog (B := B) → reach s → room (steps_left s) s → within (steps_left s) all_done s.
Proof. intros Hc Hr Hroom. by apply inevitable. Qed.

(** C15. The changes of the catalog are merged in commit order.  Transactions are installed in the order
    of their commit timestamps; once all have finished, the delta entries they submitted, in whatever
    order they reach the global delta, are merged as those of the installed transactions one after the
    other, and none waits in the reorder buffer. *)
Theorem deltas_in_commit_order s arrivals :
  reach s → all_done s → map fst arrivals ≡ₚ submitted_ s →
  StronglySorted (λ a b, CommitTS a.2 < CommitTS b.2) (installed_ s) ∧
  match res_fold AddDeltaEntryInner Global.new (deltas (installed_ s)) with
  | Ok g => ∃ wal_size,
      res_fold add_arrival Global.new arrivals = Ok (set_wal_size_ wal_size (set_buffer (zlen (deltas (installed_ s))) [] ∅ g))
  | Err err => res_fold add_arrival Global.new arrivals = Err err
  end.
Proof.
  intros Hr Hd Hp. pose proof (reach_delivered s Hr) as D. split; [apply (installed_sorted _ D)|].
  destruct (deltas_count _ D) as [Hn Hmax]. unfold max_clock in Hmax.
  apply (arrivals_in_sequence Global.new (deltas (installed_ s)) arrivals); try done.
  - simpl. lia.
  - intros i d Hi. apply (deltas_numbered _ D) in Hi. simpl. lia.
  - rewrite Hp. by apply all_submitted.
Qed.

(** C26. Cleaning up is safe: the timestamp up to which dropped entries may be removed is at most the
    begin timestamp of every transaction that has not finished, and at most the current clock, so of
    every later one too. *)
Theorem cleanup_timestamp s checkpointed_ts :
  reach s →
  let ts := (GetCleanupScanTS (mgr s) checkpointed_ts).1 in
  ts ≤ checkpointed_ts ∧ ts ≤ start_ts_ (mgr s) ∧
  ∀ id t, txn_map_ (mgr s) !! id = Some t → final (Txn_State t) = false → ts ≤ BeginTS t.
Proof.
  intros Hr. pose proof (reach_system_inv _ Hr) as (C & _). unfold GetCleanupScanTS.
  pose proof (first_alive_spec (txn_map_ (mgr s)) (start_ts_ (mgr s)) (beginned_txns_ (mgr s)) (core_order C) (proj1 (core_begun_sorted C))) as Hf.
  pose proof (first_alive_clock (txn_map_ (mgr s)) (start_ts_ (mgr s)) (beginned_txns_ (mgr s))) as Hclock.
  destruct (first_alive _ _ _) as [least begun]. destruct Hf as [_ Hf]. simpl in *. split; [lia|]. split.
  - destruct Hclock as [-> |(id & t & Ht & ->)]; [lia|]. destruct (core_stage C _ _ Ht) as [g Hg].
    destruct (core_ok C id g t (conj Hg Ht)) as (? & _). lia.
  - intros id t Ht Hfin. destruct (core_stage C _ _ Ht) as [g Hg]. destruct (Hf id t Ht) as [_ ?]; [by apply (core_begun C id g t)|]. lia.
Qed.
End Props.

(** ** Examples *)

Module SampleTxns.
Import SampleStore.
Notation event := (event ()).
Notation System := (System ()).

Definition start : System := initial 0 0 true ().

(** A statement that deletes the rows. *)
Definition delete_rows (id : Z) (rows : list RowID) : event := Write id [WalCmdDelete (str "db") (str "t") []] (deleting rows) ().

Definition always (s s' : System) : bool := true.

Definition begun : list event := [Begin; Begin].

(** Both transactions commit, the first with the earlier timestamp; up to the queue of the log. *)
Definition queued (rows1 rows2 : list RowID) : list event :=
  begun ++ [delete_rows 1 rows1; delete_rows 2 rows2; Commit 1; Thread 1; Commit 2; Thread 2; Thread 1; Thread 2;
            Thread 1; Thread 2; Thread 2; Thread 2; Thread 1; Thread 2; Thread 1].

Definition flushed : list event := [Flush; Bottom; Bottom; Thread 2; Thread 1; Thread 2; Thread 1].

Definition both : list event := queued [mkRowID 0 5] [mkRowID 0 6] ++ flushed.

(** The second transaction collects its candidates between the two steps of the first. *)
Definition racing : list event :=
  begun ++ [delete_rows 1 [mkRowID 0 5]; delete_rows 2 [mkRowID 0 5]; Commit 1; Commit 2; Thread 2; Thread 2; Thread 2; Thread 2; Thread 2;
            Thread 1; Thread 1; Thread 1; Thread 1; Thread 1] ++ flushed.

Definition after (gate : System → System → bool) (es : list event) : System := default start (run gate start es).

Lemma start_reach : reach start.
Proof. by constructor. Qed.

Lemma start_careful : careful start.
Proof. by constructor. Qed.

Definition runs (gate : System → System → bool) (es : list event) : bool := if run gate start es then true else false.

Lemma after_reach gate es : runs gate es = true → reach (after gate es).
Proof. unfold after, runs. intros H. destruct (run gate start es) as [s|] eqn:Hs; [|done]. apply (run_reach gate start es); [apply start_reach|done]. Qed.

Lemma after_careful es : runs stamps_firstb es = true → careful (after stamps_firstb es).
Proof. unfold after, runs. intros H. destruct (run stamps_firstb start es) as [s|] eqn:Hs; [|done]. apply (run_careful start es); [apply start_careful|done]. Qed.

(** No operation of the store raises an error when those of the catalog do not. *)
Lemma each_ok {A C} (f : A → C → result C) l c : (∀ a c, ∃ c', f a c = Ok c') → ∃ c', each f l c = Ok c'.
Proof. intros Hf. unfold each. revert c. induction l as [|a l IH]; intros c; cbn [res_fold]; [by exists c|]. destruct (Hf a c) as [c1 ->]. apply IH. Qed.

Lemma each_table_ok (f : TxnTableStore Z → () → result (TxnTableStore Z * ())) s c : (∀ t c, ∃ r, f t c = Ok r) → ∃ r, each_table f s c = Ok r.
Proof.
  intros Hf. unfold each_table. generalize (iter (txn_tables_store_ s)) as l. intros l. revert s c. induction l as [|e l IH]; intros s c; cbn [res_fold]; [by eexists|].
  destruct (Hf e.2 c) as [[t c1] Hr]. rewrite Hr. cbn [res_bind]. apply IH.
Qed.

Ltac succeeds :=
  repeat (cbv beta; match goal with
  | |- ∃ r, _ = Ok r => solve [eexists; reflexivity]
  | |- ∃ r, res_bind ?m _ = Ok r => let H := fresh in assert (∃ r, m = Ok r) as [? H]; [|rewrite H; clear H; cbn [res_bind]]
  | |- ∃ r, each_table _ _ _ = Ok r => apply each_table_ok; intros ? ?
  | |- ∃ r, each ?f ?l ?c = Ok r => apply each_ok; intros ? ?
  | |- ∃ r, (if ?b then _ else _) = Ok r => destruct b
  | |- ∃ r, match ?x with _ => _ end = Ok r => destruct x
  end).

Lemma sample_sound : sound_catalog (B := ()).
Proof.
  assert (Herr : ∀ A (m : result A) err, (∃ r, m = Ok r) → m = Err err → False) by (intros A m err [r ->]; done).
  assert (H1 : ∀ ts s c, ∃ r, Store_PrepareCommit1 (V := Z) ts s c = Ok r).
  { intros ts s c. unfold Store_PrepareCommit1, Table_PrepareCommit1. succeeds. }
  assert (H2 : ∀ id ts s c, ∃ r, Store_PrepareCommit (V := Z) id ts s c = Ok r).
  { intros id ts s c. unfold Store_PrepareCommit, Table_PrepareCommit, Index_PrepareCommit. succeeds. }
  assert (H3 : ∀ id ts s c, ∃ r, Store_CommitBottom (V := Z) id ts s c = Ok r).
  { intros id ts s c. unfold Store_CommitBottom, Table_Commit, Index_Commit. succeeds. }
  assert (H4 : ∀ s c, ∃ r, Store_MaintainCompactionAlg (V := Z) s c = Ok r).
  { intros s c. unfold Store_MaintainCompactionAlg, Table_MaintainCompactionAlg. succeeds. }
  assert (H5 : ∀ id ts s c, ∃ r, Store_Rollback (V := Z) id ts s c = Ok r).
  { intros id ts s c. unfold Store_Rollback, Table_Rollback. succeeds. }
  assert (H6 : ∀ ts s c, ∃ r, Store_AddDeltaOp (V := Z) ts s c = Ok r).
  { intros ts s c. unfold Store_AddDeltaOp, Table_AddDeltaOp, Segment_AddDeltaOp. cbv zeta. succeeds. }
  intros s e err Hr. destruct e; try done; cbn [raised] in Hr.
  - destruct Hr as (t & _ & Hr). destruct (stages s !! id) as [[]|]; try done; revert Hr; apply Herr; first [apply H1|apply H4|apply H5].
  - destruct Hr as (id & t & _ & _ & [Hr|(st & c & _ & [Hr|(st' & c' & _ & Hr)])]); revert Hr; apply Herr; [apply H2|apply H3|apply H6].
Qed.
End SampleTxns.
Import SampleTxns.
Import (hints) SampleStore.


(** Both of two conflicting transactions can commit.  [Txn::Commit] draws its timestamp with
    [GetCommitTimeStampW] and enters the state [kCommitting] in a second step.  A transaction with a later
    timestamp that collects its candidates in between does not find the earlier one, which in turn
    ignores the later one: here two transactions that overlap delete the same row, and both commit. *)
Theorem racing_commits :
  ∃ (s : System) t1 t2, reach s ∧ committed (history_ s) 1 t1 ∧ committed (history_ s) 2 t2 ∧
    BeginTS t2 < CommitTS t1 ∧ CommitTS t1 < CommitTS t2 ∧ store_CheckConflict (txn_store_ t2) (txn_store_ t1) = true.
Proof.
  set (s := after always racing).
  assert (Hb : match history_ s !! 1, history_ s !! 2 with
               | Some t1, Some t2 =>
                   bool_decide (GetTxnType t1 = TxnType.kWrite ∧ Txn_State t1 = TxnState.kCommitted ∧ GetTxnType t2 = TxnType.kWrite ∧ Txn_State t2 = TxnState.kCommitted ∧
                     BeginTS t2 < CommitTS t1 ∧ CommitTS t1 < CommitTS t2 ∧ store_CheckConflict (txn_store_ t2) (txn_store_ t1) = true)
               | _, _ => false
               end = true) by (vm_compute; reflexivity).
  destruct (history_ s !! 1) as [t1|] eqn:H1; [|done]. destruct (history_ s !! 2) as [t2|] eqn:H2; [|done]. apply bool_decide_eq_true in Hb.
  exists s, t1, t2. split; [apply after_reach; by vm_compute|]. unfold committed. tauto.
Qed.

(** A catalog that fails when an imported segment is committed. *)
Module FailingTxns.
#[export] Instance bad_catalog : CatalogOps Z := SampleStore.catalog (Err UnrecoverableError).
#[export] Instance bad_laws : CatalogLaws Z := SampleStore.catalog_laws (Err UnrecoverableError).

Definition importing : TxnStore Z := put_table Store_new (str "t") (set_flushed (TxnTableStore_new 0 SampleStore.table) [mkNumbered 7 0]).

Definition steps : list (TxnManager.event ()) := [Begin; Write 1 [] importing (); Commit 1; Thread 1].

Definition stopped : TxnManager.System () := default (initial 0 0 true ()) (run (λ _ _, true) (initial 0 0 true ()) steps).

Lemma stopped_reach : reach stopped.
Proof.
  assert (H : (if run (λ _ _, true) (initial 0 0 true ()) steps then true else false) = true) by (by vm_compute).
  unfold stopped. destruct (run _ _ steps) as [s|] eqn:Hs; [|done]. eapply run_reach; [|exact Hs]. by constructor.
Qed.
End FailingTxns.

Example txn_steps_succeed_witness : raised FailingTxns.stopped (Thread 1) UnrecoverableError.
Proof.
  assert (Hf : bool_decide (fresh FailingTxns.stopped) = true) by (vm_compute; reflexivity).
  assert (He : match exec FailingTxns.stopped (Thread 1) with Some (Err UnrecoverableError) => true | _ => false end = true) by (vm_compute; reflexivity).
  apply (txn_steps_succeed FailingTxns.stopped (Thread 1) UnrecoverableError); [apply FailingTxns.stopped_reach|by apply bool_decide_eq_true in Hf|].
  destruct (exec FailingTxns.stopped (Thread 1)) as [[?|[]]|]; done.
Defined.

Example log_in_commit_order_witness :
  map WalEntry.commit_ts_ (written_ (after always both)) = [3; 4] ∧
  StronglySorted (λ a b, WalEntry.commit_ts_ a < WalEntry.commit_ts_ b) (written_ (after always both)).
Proof. split; [by vm_compute|]. apply (log_in_commit_order (after always both)). apply after_reach. by vm_compute. Defined.

Example first_committer_wins_witness :
  ∃ t1 t2, committed (history_ (after stamps_firstb both)) 1 t1 ∧ committed (history_ (after stamps_firstb both)) 2 t2 ∧
    ((Txn_State t1 = TxnState.kCommitted ∧ CommittedTS t1 ≤ BeginTS t2) ∨
     ∃ store, checked_ (after stamps_firstb both) !! 2 = Some store ∧ store_CheckConflict store (txn_store_ t1) = false).
Proof.
  set (s := after stamps_firstb both).
  assert (Hb : match history_ s !! 1, history_ s !! 2 with
               | Some t1, Some t2 =>
                   bool_decide (GetTxnType t1 = TxnType.kWrite ∧ Txn_State t1 = TxnState.kCommitted ∧ GetTxnType t2 = TxnType.kWrite ∧ Txn_State t2 = TxnState.kCommitted ∧
                     CommitTS t1 < CommitTS t2)
               | _, _ => false
               end = true) by (vm_compute; reflexivity).
  destruct (history_ s !! 1) as [t1|] eqn:H1; [|done]. destruct (history_ s !! 2) as [t2|] eqn:H2; [|done]. apply bool_decide_eq_true in Hb as (Hw1 & Hs1 & Hw2 & Hs2 & Hlt).
  assert (Hc : careful s) by (apply after_careful; by vm_compute). clearbody s.
  exists t1, t2. split; [done|]. split; [done|]. apply (first_committer_wins s 1 t1 2 t2); [exact Hc|by right|by right|exact Hlt].
Defined.

Example transactions_finish_witness :
  within (steps_left (after always (queued [mkRowID 0 5] [mkRowID 0 6]))) all_done (after always (queued [mkRowID 0 5] [mkRowID 0 6])).
Proof.
  assert (Hroom : bool_decide (room (steps_left (after always (queued [mkRowID 0 5] [mkRowID 0 6]))) (after always (queued [mkRowID 0 5] [mkRowID 0 6]))) = true) by (vm_compute; reflexivity).
  apply transactions_finish; [apply sample_sound|apply after_reach; by vm_compute|by apply bool_decide_eq_true in Hroom].
Defined.

Example deltas_in_commit_order_witness :
  let s := after always both in
  length (submitted_ s) = 2%nat ∧
  match res_fold AddDeltaEntryInner Global.new (deltas (installed_ s)) with
  | Ok g => ∃ wal_size,
      res_fold add_arrival Global.new (map (λ d, (d, 0)) (rev (submitted_ s))) = Ok (set_wal_size_ wal_size (set_buffer (zlen (deltas (installed_ s))) [] ∅ g))
  | Err err => res_fold add_arrival Global.new (map (λ d, (d, 0)) (rev (submitted_ s))) = Err err
  end.
Proof.
  assert (Hd : bool_decide (all_done (after always both)) = true) by (vm_compute; reflexivity).
  split; [by vm_compute|]. apply (deltas_in_commit_order (after always both) (map (λ d, (d, 0)) (rev (submitted_ (after always both)))));
    [apply after_reach; by vm_compute|by apply bool_decide_eq_true in Hd|].
  rewrite map_map, map_id. symmetry. apply Permutation_rev.
Defined.

Example cleanup_timestamp_witness :
  ∃ t, txn_map_ (mgr (after always begun)) !! 1 = Some t ∧ (GetCleanupScanTS (mgr (after always begun)) 100).1 ≤ BeginTS t.
Proof.
  assert (Hb : match txn_map_ (mgr (after always begun)) !! 1 with Some t => negb (final (Txn_State t)) | None => false end = true) by (vm_compute; reflexivity).
  assert (Hr : reach (after always begun)) by (apply after_reach; by vm_compute). generalize dependent (after always begun). intros s Hb Hr.
  destruct (txn_map_ (mgr s) !! 1) as [t|] eqn:Ht; [|done]. exists t. split; [done|]. apply (cleanup_timestamp s 100 Hr) with (id := 1); [exact Ht|]. by apply negb_true_iff in Hb.
Defined.

(** [Stop] destroys every transaction while the log still has pointers to their entries: with two
    transactions in the queue, the next step of the flush thread reads what was destroyed. *)
Example stop_leaves_dangling_entries :
  match exec (with_mgr (after always (queued [mkRowID 0 5] [mkRowID 0 6])) (Stop (mgr (after always (queued [mkRowID 0 5] [mkRowID 0 6]))))) Flush with
  | Some (Err OutOfBounds) => true
  | _ => false
  end = true.
Proof. by vm_compute. Qed.
