(* ===== verification/EntryList.v ===== *)
(** * Versions of a catalog entry

    [EntryList] ([storage/meta/entry/entry_list.cppm]) keeps the versions of one database, table or
    index under its name, the newest in front: a version is a [BaseEntry]
    ([storage/meta/entry/base_entry.cppm]) that creates the object or, with [deleted_], drops it.  A
    transaction pushes its version with the commit timestamp [UNCOMMIT_TS], installs its timestamp
    when it commits and removes its versions when it rolls back; a reader takes the first version
    that is its own or was committed when it began; the cleanup task erases versions no reader can
    reach.  [MetaMap] ([storage/meta/meta_map.cppm]) maps names to such lists.

    What an entry holds is the parameter [P]; the transaction manager's [GetTxnState] is an argument
    of the operations that ask it. *)

From Stdlib Require Import ZArith Lia List Sorted.
From stdpp Require Import base list numbers gmap.
From S2P Require Import Prelude Bytes TxnManager.
Local Open Scope Z_scope.

Definition UNCOMMIT_TS : Z := 2 ^ 64 - 1.

Module EntryType.
Inductive t := kDatabase | kTable | kTableIndex.
End EntryType.
Notation EntryType := EntryType.t.

#[export] Instance EntryType_eq_dec : EqDecision EntryType.
Proof. solve_decision. Defined.

Module ConflictType.
Inductive t := kInvalid | kIgnore | kError | kReplace.
End ConflictType.
Notation ConflictType := ConflictType.t.

#[export] Instance ConflictType_eq_dec : EqDecision ConflictType.
Proof. solve_decision. Defined.

(** The statuses the operations of the catalog return. *)
Inductive Status :=
| OK
| Ignore
| DuplicateName (entry_type : EntryType)
| NotExist (entry_type : EntryType)
| TxnConflict
| InvalidEntry
| NotFoundEntry.

#[export] Instance Status_eq_dec : EqDecision Status.
Proof. solve_decision. Defined.

Definition status_ok (s : Status) : bool := match s with OK => true | _ => false end.

Module FindResult.
Inductive t := kFound | kNotFound | kUncommitted | kUncommittedDelete | kConflict.
End FindResult.
Notation FindResult := FindResult.t.

#[export] Instance FindResult_eq_dec : EqDecision FindResult.
Proof. solve_decision. Defined.

Section EntryList.
Context {P : Type}.

(** [address_] stands for the pointer that identifies the entry. *)
Record BaseEntry := mkEntry {
  address_ : Z;
  txn_id_ : Z;
  begin_ts_ : Z;
  commit_ts_ : Z;
  deleted_ : bool;
  payload_ : P }.

Definition set_commit_ts (entry : BaseEntry) (commit_ts : Z) : BaseEntry :=
  mkEntry (address_ entry) (txn_id_ entry) (begin_ts_ entry) commit_ts (deleted_ entry) (payload_ entry).

Definition set_payload (entry : BaseEntry) (payload : P) : BaseEntry :=
  mkEntry (address_ entry) (txn_id_ entry) (begin_ts_ entry) (commit_ts_ entry) (deleted_ entry) payload.

Definition Committed (entry : BaseEntry) : bool := negb (commit_ts_ entry =? UNCOMMIT_TS).

(** The assertions of [BaseEntry::Commit] are its error. *)
Definition Commit (entry : BaseEntry) (commit_ts : Z) : result BaseEntry :=
  if (negb (Committed entry) || (commit_ts_ entry =? commit_ts)) && negb (commit_ts =? UNCOMMIT_TS)
  then Ok (set_commit_ts entry commit_ts) else Err UnrecoverableError.

Implicit Types entry_list : list BaseEntry.

(** ** Reading *)
Fixpoint FindEntry (state : Z → TxnState) (txn_id begin_ts : Z) entry_list : result FindResult :=
  match entry_list with
  | [] => Ok FindResult.kNotFound
  | entry :: rest =>
      if Committed entry then
        if commit_ts_ entry <=? begin_ts then
          Ok (if deleted_ entry then FindResult.kNotFound else FindResult.kFound)
        else Ok FindResult.kConflict
      else
        match state (txn_id_ entry) with
        | TxnState.kStarted =>
            if txn_id_ entry =? txn_id then
              Ok (if deleted_ entry then FindResult.kUncommittedDelete else FindResult.kUncommitted)
            else Ok FindResult.kConflict
        | TxnState.kCommitting | TxnState.kCommitted => Ok FindResult.kConflict
        | TxnState.kRollbacking | TxnState.kRollbacked => FindEntry state txn_id begin_ts rest
        | _ => Err UnrecoverableError
        end
  end.

Definition FindEntryReplay (txn_id begin_ts : Z) entry_list : FindResult :=
  match entry_list with
  | entry :: _ =>
      if true || (commit_ts_ entry <=? begin_ts) || (txn_id =? txn_id_ entry) then
        if deleted_ entry then FindResult.kNotFound else FindResult.kFound
      else FindResult.kConflict
  | [] => FindResult.kNotFound
  end.

Fixpoint GetEntryInner1 (txn_id begin_ts : Z) entry_list : option BaseEntry * FindResult :=
  match entry_list with
  | [] => (None, FindResult.kNotFound)
  | entry :: rest =>
      let found := if deleted_ entry then (None, FindResult.kNotFound) else (Some entry, FindResult.kFound) in
      if Committed entry then
        if commit_ts_ entry <=? begin_ts then found else GetEntryInner1 txn_id begin_ts rest
      else if txn_id =? txn_id_ entry then found else GetEntryInner1 txn_id begin_ts rest
  end.

Definition GetEntryInner2 (entry_type : EntryType) (entry_ptr : option BaseEntry) (find_res : FindResult)
  : result (option BaseEntry * Status) :=
  match find_res with
  | FindResult.kNotFound => Ok (None, NotExist entry_type)
  | FindResult.kFound => Ok (entry_ptr, OK)
  | _ => Err UnrecoverableError
  end.

Definition GetEntry (entry_type : EntryType) (txn_id begin_ts : Z) entry_list : result (option BaseEntry * Status) :=
  let '(entry_ptr, find_res) := GetEntryInner1 txn_id begin_ts entry_list in
  GetEntryInner2 entry_type entry_ptr find_res.

Definition GetEntryReplay (txn_id begin_ts : Z) entry_list : option BaseEntry * Status :=
  match entry_list with
  | entry :: _ =>
      if (true || ((commit_ts_ entry <=? begin_ts) || (txn_id =? txn_id_ entry))) && negb (deleted_ entry)
      then (Some entry, OK) else (None, NotFoundEntry)
  | [] => (None, NotFoundEntry)
  end.

(** ** Writing *)

(** [init_func] makes the new entry for the transaction, or raises. *)
Definition AddEntry (state : Z → TxnState) (entry_type : EntryType) (init_func : Z → Z → result BaseEntry)
    (txn_id begin_ts : Z) (conflict_type : ConflictType) entry_list
  : result (option BaseEntry * Status * list BaseEntry) :=
  let? find_res := FindEntry state txn_id begin_ts entry_list in
  match find_res with
  | FindResult.kUncommittedDelete | FindResult.kNotFound =>
      let? entry := init_func txn_id begin_ts in
      Ok (Some entry, OK, entry :: entry_list)
  | FindResult.kUncommitted | FindResult.kFound =>
      match conflict_type with
      | ConflictType.kIgnore => Ok (None, Ignore, entry_list)
      | _ => Ok (None, DuplicateName entry_type, entry_list)
      end
  | FindResult.kConflict => Ok (None, TxnConflict, entry_list)
  end.

Definition DropEntry (state : Z → TxnState) (entry_type : EntryType) (init_func : Z → Z → BaseEntry)
    (txn_id begin_ts : Z) (conflict_type : ConflictType) entry_list
  : result (option BaseEntry * Status * list BaseEntry) :=
  let? find_res := FindEntry state txn_id begin_ts entry_list in
  match find_res with
  | FindResult.kUncommittedDelete | FindResult.kNotFound =>
      match conflict_type with
      | ConflictType.kIgnore => Ok (None, Ignore, entry_list)
      | _ => Ok (None, NotExist entry_type, entry_list)
      end
  | FindResult.kUncommitted =>
      match entry_list with
      | uncommitted_entry :: rest => Ok (Some uncommitted_entry, OK, rest)
      | [] => Err OutOfBounds
      end
  | FindResult.kFound =>
      let drop_entry := init_func txn_id begin_ts in
      Ok (Some drop_entry, OK, drop_entry :: entry_list)
  | FindResult.kConflict => Ok (None, TxnConflict, entry_list)
  end.

Definition AddEntryReplay (init_func : Z → Z → BaseEntry) (txn_id begin_ts : Z) entry_list
  : option BaseEntry * Status * list BaseEntry :=
  let entry := init_func txn_id begin_ts in
  match FindEntryReplay txn_id begin_ts entry_list with
  | FindResult.kNotFound => (Some entry, OK, entry :: entry_list)
  | FindResult.kFound => (Some entry, OK, entry :: tail entry_list)
  | _ => (None, InvalidEntry, entry_list)
  end.

Definition UpdateEntryReplay (update_func : BaseEntry → Z → Z → BaseEntry) (txn_id begin_ts : Z) entry_list
  : Status * list BaseEntry :=
  match FindEntryReplay txn_id begin_ts entry_list, entry_list with
  | FindResult.kFound, src :: rest => (OK, update_func src txn_id begin_ts :: rest)
  | FindResult.kNotFound, _ => (NotFoundEntry, entry_list)
  | _, _ => (InvalidEntry, entry_list)
  end.

Definition DropEntryReplay (init_entry : Z → Z → BaseEntry) (txn_id begin_ts : Z) entry_list
  : option BaseEntry * Status * list BaseEntry :=
  match FindEntryReplay txn_id begin_ts entry_list with
  | FindResult.kNotFound => (None, NotFoundEntry, entry_list)
  | FindResult.kFound =>
      let dropped_entry := init_entry txn_id begin_ts in
      (Some dropped_entry, OK, dropped_entry :: entry_list)
  | _ => (None, InvalidEntry, entry_list)
  end.

(** ** Removing *)
Definition DeleteEntry (txn_id : Z) entry_list : list BaseEntry :=
  filter (fun entry => txn_id_ entry ≠ txn_id) entry_list.

(** [PickCleanup] passes entries to [CleanupScanner::AddEntry], which keeps them as [C]. *)
Context {C : Type} (scanner_AddEntry : BaseEntry → C).

(** The second loop of [PickCleanup]: committed versions behind the one that is kept go, those that
    hold data to the scanner. *)
Fixpoint pick_older entry_list : list BaseEntry * list C :=
  match entry_list with
  | [] => ([], [])
  | entry :: rest =>
      let '(kept, picked) := pick_older rest in
      if Committed entry then (kept, if deleted_ entry then picked else scanner_AddEntry entry :: picked)
      else (entry :: kept, picked)
  end.

(** The first loop finds the newest version committed before [visible_ts]: it is erased when it is a
    drop, otherwise kept and its own content cleaned by [pick]. *)
Fixpoint PickCleanup (pick : P → P * list C) (visible_ts : Z) entry_list : list BaseEntry * list C :=
  match entry_list with
  | [] => ([], [])
  | entry :: rest =>
      if commit_ts_ entry <? visible_ts then
        let '(kept, picked) := pick_older rest in
        if deleted_ entry then (kept, picked)
        else
          let '(payload, inner) := pick (payload_ entry) in
          (set_payload entry payload :: kept, inner ++ picked)
      else
        let '(kept, picked) := PickCleanup pick visible_ts rest in (entry :: kept, picked)
  end.

Definition is_empty entry_list : bool := match entry_list with [] => true | _ => false end.
End EntryList.
Arguments BaseEntry : clear implicits.

(** ** Names *)
Section MetaMap.
Context {P : Type}.

(** A meta object is its list of versions; its name is the key. *)
Notation MetaMap := (gmap bytes (list (BaseEntry P))).
Implicit Types meta_map : MetaMap.

Definition GetMeta meta_map (name : bytes) : list (BaseEntry P) * MetaMap :=
  match meta_map !! name with
  | Some meta => (meta, meta_map)
  | None => ([], <[name := []]> meta_map)
  end.

Definition GetExistMeta (entry_type : EntryType) meta_map (name : bytes) (conflict_type : ConflictType)
  : option (list (BaseEntry P)) * Status :=
  match meta_map !! name with
  | Some meta => (Some meta, OK)
  | None => if decide (conflict_type = ConflictType.kIgnore) then (None, Ignore) else (None, NotExist entry_type)
  end.

(** [DBMeta::CreateEntryReplay], [DBMeta::DropEntryReplay] and their counterparts for tables. *)
Definition CreateEntryReplay (init_entry : Z → Z → BaseEntry P) (txn_id begin_ts : Z) (l : list (BaseEntry P))
  : result (list (BaseEntry P)) :=
  let '(_, status, l') := AddEntryReplay init_entry txn_id begin_ts l in
  if status_ok status then Ok l' else Err UnrecoverableError.

Definition Meta_DropEntryReplay (init_entry : Z → Z → BaseEntry P) (txn_id begin_ts : Z) (l : list (BaseEntry P))
  : result (list (BaseEntry P)) :=
  let '(_, status, l') := DropEntryReplay init_entry txn_id begin_ts l in
  if status_ok status then Ok l' else Err UnrecoverableError.

Definition Meta_GetEntryReplay (txn_id begin_ts : Z) (l : list (BaseEntry P)) : result (BaseEntry P) :=
  match GetEntryReplay txn_id begin_ts l with
  | (Some entry, OK) => Ok entry
  | _ => Err UnrecoverableError
  end.

(** What each kind of catalog entry does with the map of the names below it: find the meta object,
    making it or not, and call it. *)
Definition create_in (state : Z → TxnState) (entry_type : EntryType) meta_map (name : bytes)
    (init_func : Z → Z → result (BaseEntry P)) (txn_id begin_ts : Z) (conflict_type : ConflictType)
  : result (option (BaseEntry P) * Status * MetaMap) :=
  let '(meta, meta_map) := GetMeta meta_map name in
  let? '(entry, status, meta) := AddEntry state entry_type init_func txn_id begin_ts conflict_type meta in
  Ok (entry, status, <[name := meta]> meta_map).

Definition drop_in (state : Z → TxnState) (entry_type : EntryType) meta_map (name : bytes)
    (init_func : Z → Z → BaseEntry P) (txn_id begin_ts : Z) (conflict_type : ConflictType)
  : result (option (BaseEntry P) * Status * MetaMap) :=
  match GetExistMeta entry_type meta_map name conflict_type with
  | (Some meta, _) =>
      let? '(entry, status, meta) := DropEntry state entry_type init_func txn_id begin_ts conflict_type meta in
      Ok (entry, status, <[name := meta]> meta_map)
  | (None, status) => Ok (None, status, meta_map)
  end.

Definition get_in (entry_type : EntryType) meta_map (name : bytes) (txn_id begin_ts : Z)
  : result (option (BaseEntry P) * Status) :=
  match GetExistMeta entry_type meta_map name ConflictType.kError with
  | (Some meta, _) => GetEntry entry_type txn_id begin_ts meta
  | (None, status) => Ok (None, status)
  end.

(** Every name's visible entry, for the lists of databases and tables. *)
Definition visible_in (entry_type : EntryType) meta_map (txn_id begin_ts : Z) : list (BaseEntry P) :=
  omap (fun '(_, meta) =>
          match GetEntry entry_type txn_id begin_ts meta with Ok (Some entry, OK) => Some entry | _ => None end)
       (map_to_list meta_map).

Definition remove_in (entry_type : EntryType) meta_map (name : bytes) (txn_id : Z) : result MetaMap :=
  match GetExistMeta entry_type meta_map name ConflictType.kError with
  | (Some meta, _) => Ok (<[name := DeleteEntry txn_id meta]> meta_map)
  | (None, _) => Err UnrecoverableError
  end.

Definition create_replay_in meta_map (name : bytes) (init_entry : Z → Z → BaseEntry P) (txn_id begin_ts : Z)
  : result MetaMap :=
  let '(meta, meta_map) := GetMeta meta_map name in
  let? meta := CreateEntryReplay init_entry txn_id begin_ts meta in
  Ok (<[name := meta]> meta_map).

Definition drop_replay_in (entry_type : EntryType) meta_map (name : bytes) (init_entry : Z → Z → BaseEntry P)
    (txn_id begin_ts : Z) : result MetaMap :=
  match GetExistMeta entry_type meta_map name ConflictType.kError with
  | (Some meta, _) =>
      let? meta := Meta_DropEntryReplay init_entry txn_id begin_ts meta in
      Ok (<[name := meta]> meta_map)
  | (None, _) => Err UnrecoverableError
  end.

Definition get_replay_in (entry_type : EntryType) meta_map (name : bytes) (txn_id begin_ts : Z) : result (BaseEntry P) :=
  match GetExistMeta entry_type meta_map name ConflictType.kError with
  | (Some meta, _) => Meta_GetEntryReplay txn_id begin_ts meta
  | (None, _) => Err UnrecoverableError
  end.

(** A change inside the entry at [address]. *)
Definition update_entry (address : Z) (f : P → P) (entry : BaseEntry P) : BaseEntry P :=
  if address_ entry =? address then set_payload entry (f (payload_ entry)) else entry.

Definition update_payload (address : Z) (f : P → P) (versions : list (BaseEntry P)) : list (BaseEntry P) :=
  map (update_entry address f) versions.

Definition update_in meta_map (name : bytes) (address : Z) (f : P → P) : MetaMap :=
  alter (update_payload address f) name meta_map.

Definition MetaMap_PickCleanup {C} (add : BaseEntry P → C) (pick : P → P * list C) (visible_ts : Z) meta_map
  : MetaMap * list C :=
  let cleaned := PickCleanup add pick visible_ts <$> meta_map in
  let metas := fst <$> cleaned in
  let picked := concat (map (fun '(_, c) => snd c) (map_to_list cleaned)) in
  let may_empty := existsb (fun '(_, meta) => is_empty meta) (map_to_list metas) in
  (if may_empty then filter (fun '(_, meta) => is_empty meta = false) metas else metas, picked).
End MetaMap.
Notation MetaMap P := (gmap bytes (list (BaseEntry P))).
