(* ===== verification/EntrySpec.v ===== *)
(** * What the versions of a catalog entry promise

    One name of the catalog as transactions use it: [Name] is the list of its versions with the
    transactions' states, [exec] runs the operations of [EntryList] in any interleaving with the steps
    that begin, stamp, install, abort and finish transactions and with the cleanup task.  [Spec] is
    the contract: a history of committed values by commit timestamp and at most one writer, with no
    uncommitted, rolled back or erased versions.  A simulation shows that every step of the list
    is the step of the specification, with the same result, and that the operations never raise
    ([EntrySim]). *)

From Stdlib Require Import ZArith Lia List Sorted.
From stdpp Require Import base list numbers gmap.
From S2P Require Import Prelude Bytes TxnManager EntryList.
Local Open Scope Z_scope.

(** ** The specification *)

(** The value of a name is the entry it stands for, or nothing. *)
Notation value := (option Z).

(** The value at a time: that of the first version of the history, newest first, not after it. *)
Fixpoint version_at (history : list (Z * value)) (t : Z) : value :=
  match history with
  | [] => None
  | (c, v) :: rest => if c <=? t then v else version_at rest t
  end.

Definition newer (history : list (Z * value)) (t : Z) : bool := existsb (fun '(c, _) => t <? c) history.

Record Spec := mkSpec {
  s_clock : Z;
  s_begin : gmap Z Z;
  s_commit : gmap Z Z;
  s_history : list (Z * value);
  s_writer : option (Z * value) }.

(** What happens: a transaction begins, uses the name, takes its commit timestamp, makes its versions
    visible and is done; or it is aborted, its versions removed, and it is done.  [Clean] is the
    cleanup task, [Inner] a change to what an entry contains. *)
Inductive event {P : Type} :=
| Begin (id : Z)
| Read (id : Z)
| Add (id : Z) (conflict_type : ConflictType) (address : Z) (p : P)
| Drop (id : Z) (conflict_type : ConflictType) (address : Z) (p : P)
| Stamp (id : Z)
| Install (id : Z)
| Finish (id : Z)
| Abort (id : Z)
| Remove (id : Z)
| RolledBack (id : Z)
| Clean (visible_ts : Z)
| Inner (address : Z) (f : P → P).
Arguments event : clear implicits.

Inductive output :=
| Done
| Got (v : value) (s : Status)
| Wrote (s : Status).

Section Spec.
Context {P : Type} (entry_type : EntryType).
Implicit Types a : Spec.

Definition spec_begin a (id : Z) : Z := default 0 (s_begin a !! id).
Definition spec_commit a (id : Z) : Z := default 0 (s_commit a !! id).

Definition writes a (id : Z) : option value :=
  match s_writer a with Some (id', v) => if id' =? id then Some v else None | None => None end.

(** A transaction sees its own write, otherwise what was committed when it began. *)
Definition visible a (id : Z) : value :=
  match writes a id with Some v => v | None => version_at (s_history a) (spec_begin a id) end.

(** The first writer wins: another writer, or a version committed since the transaction began. *)
Definition blocked a (id : Z) : bool :=
  match writes a id with
  | Some _ => false
  | None => bool_decide (is_Some (s_writer a)) || newer (s_history a) (spec_begin a id)
  end.

Definition set_writer a (w : option (Z * value)) : Spec :=
  mkSpec (s_clock a) (s_begin a) (s_commit a) (s_history a) w.

Definition spec_add a (id : Z) (conflict_type : ConflictType) (address : Z) : Status * Spec :=
  if blocked a id then (TxnConflict, a)
  else match visible a id with
       | Some _ => (if decide (conflict_type = ConflictType.kIgnore) then Ignore else DuplicateName entry_type, a)
       | None => (OK, set_writer a (Some (id, Some address)))
       end.

(** A drop of what the transaction itself created leaves no write. *)
Definition spec_drop a (id : Z) (conflict_type : ConflictType) : Status * Spec :=
  if blocked a id then (TxnConflict, a)
  else match visible a id with
       | None => (if decide (conflict_type = ConflictType.kIgnore) then Ignore else NotExist entry_type, a)
       | Some _ =>
           (OK, set_writer a (match version_at (s_history a) (spec_begin a id) with
                              | Some _ => Some (id, None)
                              | None => None
                              end))
       end.

Definition spec_install a (id : Z) : Spec :=
  match writes a id with
  | Some v => mkSpec (s_clock a) (s_begin a) (s_commit a) ((spec_commit a id, v) :: s_history a) None
  | None => a
  end.

Definition spec_abort a (id : Z) : Spec :=
  match writes a id with Some _ => set_writer a None | None => a end.

Definition spec_step a (e : event P) : Spec * output :=
  match e with
  | Begin id =>
      (mkSpec (s_clock a + 1) (<[id := s_clock a + 1]> (s_begin a)) (s_commit a) (s_history a) (s_writer a), Done)
  | Read id =>
      (a, match visible a id with Some v => Got (Some v) OK | None => Got None (NotExist entry_type) end)
  | Add id conflict_type address _ => let '(s, a') := spec_add a id conflict_type address in (a', Wrote s)
  | Drop id conflict_type _ _ => let '(s, a') := spec_drop a id conflict_type in (a', Wrote s)
  | Stamp id =>
      (mkSpec (s_clock a + 1) (s_begin a) (<[id := s_clock a + 1]> (s_commit a)) (s_history a) (s_writer a), Done)
  | Install id => (spec_install a id, Done)
  | Abort id => (spec_abort a id, Done)
  | _ => (a, Done)
  end.

Fixpoint spec_run a (es : list (event P)) : list output :=
  match es with
  | [] => []
  | e :: rest => let '(a', o) := spec_step a e in o :: spec_run a' rest
  end.
End Spec.

Definition spec_start : Spec := mkSpec 0 ∅ ∅ [] None.

(** ** The list under transactions *)
Record Writer := mkWriter { w_begin : Z; w_state : TxnState; w_commit : Z; w_installed : bool }.

Record Name {P : Type} := mkName {
  n_versions : list (BaseEntry P);
  n_txns : gmap Z Writer;
  n_clock : Z;
  n_low : Z }.
Arguments Name : clear implicits.

Section Name.
Context {P : Type} (entry_type : EntryType) (pick : P → P * list Z).
Implicit Types n : Name P.

(** [TxnManager::GetTxnState] *)
Definition state_of (txns : gmap Z Writer) (id : Z) : TxnState :=
  match txns !! id with Some w => w_state w | None => TxnState.kCommitted end.

Definition set_versions n (versions : list (BaseEntry P)) : Name P :=
  mkName P versions (n_txns n) (n_clock n) (n_low n).

Definition set_txn n (id : Z) (w : Writer) : Name P :=
  mkName P (n_versions n) (<[id := w]> (n_txns n)) (n_clock n) (n_low n).

Definition new_entry (address : Z) (deleted : bool) (p : P) (txn_id begin_ts : Z) : BaseEntry P :=
  mkEntry address txn_id begin_ts UNCOMMIT_TS deleted p.

(** [Txn::CommitBottom] commits each entry of the transaction. *)
Fixpoint install (id commit_ts : Z) (versions : list (BaseEntry P)) : result (list (BaseEntry P)) :=
  match versions with
  | [] => Ok []
  | entry :: rest =>
      let? entry' := (if txn_id_ entry =? id then Commit entry commit_ts else Ok entry) in
      let? rest' := install id commit_ts rest in
      Ok (entry' :: rest')
  end.

Definition running (w : Writer) : bool :=
  match w_state w with
  | TxnState.kStarted | TxnState.kCommitting | TxnState.kRollbacking => true
  | _ => false
  end.

Definition started (w : Writer) : bool := match w_state w with TxnState.kStarted => true | _ => false end.
Definition committing (w : Writer) : bool := match w_state w with TxnState.kCommitting => true | _ => false end.
Definition rollbacking (w : Writer) : bool := match w_state w with TxnState.kRollbacking => true | _ => false end.

(** Transaction [id] does [k] if it is in a state where [guard] holds. *)
Definition with_txn n (id : Z) (guard : Writer → bool) {A} (k : Writer → result A) : option (result A) :=
  match n_txns n !! id with
  | Some w => if guard w then Some (k w) else None
  | None => None
  end.

Definition exec n (e : event P) : option (result (Name P * output)) :=
  match e with
  | Begin id =>
      if bool_decide (n_txns n !! id = None) && (n_clock n + 1 <? UNCOMMIT_TS) then
        let ts := n_clock n + 1 in
        Some (Ok (mkName P (n_versions n) (<[id := mkWriter ts TxnState.kStarted 0 false]> (n_txns n)) ts (n_low n), Done))
      else None
  | Read id =>
      with_txn n id started (fun w =>
        let? r := GetEntry entry_type id (w_begin w) (n_versions n) in
        Ok (n, Got (address_ <$> r.1) r.2))
  | Add id conflict_type address p =>
      with_txn n id started (fun w =>
        let? r := AddEntry (state_of (n_txns n)) entry_type (fun t b => Ok (new_entry address false p t b)) id (w_begin w) conflict_type (n_versions n) in
        Ok (set_versions n r.2, Wrote r.1.2))
  | Drop id conflict_type address p =>
      with_txn n id started (fun w =>
        let? r := DropEntry (state_of (n_txns n)) entry_type (new_entry address true p) id (w_begin w) conflict_type (n_versions n) in
        Ok (set_versions n r.2, Wrote r.1.2))
  | Stamp id =>
      if n_clock n + 1 <? UNCOMMIT_TS then
        with_txn n id started (fun w =>
          let ts := n_clock n + 1 in
          Ok (mkName P (n_versions n) (<[id := mkWriter (w_begin w) TxnState.kCommitting ts false]> (n_txns n)) ts (n_low n), Done))
      else None
  | Install id =>
      with_txn n id (fun w => committing w && negb (w_installed w)) (fun w =>
        let? versions := install id (w_commit w) (n_versions n) in
        Ok (set_txn (set_versions n versions) id (mkWriter (w_begin w) (w_state w) (w_commit w) true), Done))
  | Finish id =>
      with_txn n id (fun w => committing w && w_installed w) (fun w =>
        Ok (set_txn n id (mkWriter (w_begin w) TxnState.kCommitted (w_commit w) true), Done))
  | Abort id =>
      with_txn n id (fun w => started w || (committing w && negb (w_installed w))) (fun w =>
        Ok (set_txn n id (mkWriter (w_begin w) TxnState.kRollbacking (w_commit w) false), Done))
  | Remove id =>
      with_txn n id rollbacking (fun w => Ok (set_versions n (DeleteEntry id (n_versions n)), Done))
  | RolledBack id =>
      with_txn n id (fun w => rollbacking w && forallb (fun entry => negb (txn_id_ entry =? id)) (n_versions n)) (fun w =>
        Ok (set_txn n id (mkWriter (w_begin w) TxnState.kRollbacked (w_commit w) false), Done))
  | Clean visible_ts =>
      if (visible_ts <=? n_clock n + 1) &&
         bool_decide (map_Forall (fun _ w => running w = true → visible_ts ≤ w_begin w) (n_txns n)) then
        Some (Ok (mkName P (PickCleanup (fun entry => address_ entry) pick visible_ts (n_versions n)).1
                    (n_txns n) (n_clock n) (Z.max (n_low n) visible_ts), Done))
      else None
  | Inner address f => Some (Ok (set_versions n (update_payload address f (n_versions n)), Done))
  end.

Fixpoint run n (es : list (event P)) : option (result (list output * Name P)) :=
  match es with
  | [] => Some (Ok ([], n))
  | e :: rest =>
      match exec n e with
      | Some (Ok (n', o)) =>
          match run n' rest with
          | Some (Ok (os, n'')) => Some (Ok (o :: os, n''))
          | r => r
          end
      | Some (Err x) => Some (Err x)
      | None => None
      end
  end.
End Name.

Definition name_start {P} : Name P := mkName P [] ∅ 0 0.

(** ** How the list represents the specification *)
Section Represents.
Context {P : Type}.
Implicit Types (e : BaseEntry P) (l com mine rest : list (BaseEntry P)) (n : Name P) (a : Spec).

Definition value_of e : value := if deleted_ e then None else Some (address_ e).
Definition stamped com : list (Z * value) := map (fun e => (commit_ts_ e, value_of e)) com.
Definition latest com : value := match com with [] => None | e :: _ => value_of e end.

Definition dead (s : TxnState) : bool :=
  match s with TxnState.kRollbacking | TxnState.kRollbacked => true | _ => false end.

(** A version counts unless its transaction is being rolled back. *)
Definition alive (txns : gmap Z Writer) e : bool := Committed e || negb (dead (state_of txns (txn_id_ e))).

Definition live (txns : gmap Z Writer) l : list (BaseEntry P) := filter (fun e => alive txns e = true) l.

(** A transaction that may hold uncommitted versions as a writer. *)
Definition active (w : Writer) : bool := started w || (committing w && negb (w_installed w)).

Definition txn_ok n a (id : Z) (w : Writer) : Prop :=
  w_begin w ≤ n_clock n ∧ s_begin a !! id = Some (w_begin w) ∧ (running w = true → n_low n ≤ w_begin w) ∧
  match w_state w with
  | TxnState.kStarted => w_installed w = false
  | TxnState.kCommitting => w_begin w < w_commit w ≤ n_clock n ∧ s_commit a !! id = Some (w_commit w)
  | TxnState.kCommitted => w_installed w = true
  | TxnState.kRollbacking | TxnState.kRollbacked => w_installed w = false
  | _ => False
  end.

(** [old] are the transactions of the versions recovered at start. *)
Definition entry_ok (old : Z → Prop) n e : Prop :=
  if Committed e then
    commit_ts_ e ≤ n_clock n ∧
    (old (txn_id_ e) ∨ ∃ w, n_txns n !! txn_id_ e = Some w ∧ w_installed w = true)
  else ∃ w, n_txns n !! txn_id_ e = Some w ∧ w_installed w = false ∧ running w = true.

Definition agree (low : Z) com (history : list (Z * value)) : Prop :=
  ∀ t, low ≤ t → version_at (stamped com) t = version_at history t ∧ newer (stamped com) t = newer history t.

Definition newest_first (e e' : BaseEntry P) : Prop := commit_ts_ e' ≤ commit_ts_ e.

(** The versions of the writer: what it created, its drop of the committed version, or both. *)
Definition own_versions com mine (v : value) : Prop :=
  match mine with
  | [e] => value_of e = v ∧ (is_Some (latest com) ↔ v = None)
  | [e; d] => deleted_ e = false ∧ v = Some (address_ e) ∧ deleted_ d = true ∧ is_Some (latest com)
  | _ => False
  end.

Record holds (txns : gmap Z Writer) (id : Z) (v : value) mine com : Prop := {
  hold_txn : ∃ w, txns !! id = Some w ∧ active w = true ∧ Forall (fun e => commit_ts_ e ≤ w_begin w) com;
  hold_own : Forall (fun e => txn_id_ e = id ∧ Committed e = false) mine;
  hold_shape : own_versions com mine v }.

Definition written (txns : gmap Z Writer) a mine com : Prop :=
  match s_writer a with
  | None => mine = []
  | Some (id, v) => holds txns id v mine com
  end.

Record rep_list n a mine rest com : Prop := {
  list_split : n_versions n = mine ++ rest;
  list_live : live (n_txns n) rest = com;
  list_committed : Forall (fun e => Committed e = true) com;
  list_sorted : StronglySorted newest_first com;
  list_agree : agree (n_low n) com (s_history a);
  list_written : written (n_txns n) a mine com }.

Record rep (old : Z → Prop) n a : Prop := {
  rep_clock : s_clock a = n_clock n ∧ 0 ≤ n_clock n < UNCOMMIT_TS ∧ n_low n ≤ n_clock n + 1;
  rep_txn : ∀ id w, n_txns n !! id = Some w → txn_ok n a id w ∧ ¬ old id;
  rep_entry : Forall (entry_ok old n) (n_versions n);
  rep_lists : ∃ mine rest com, rep_list n a mine rest com }.

(** *** Reading the committed versions *)
Lemma version_latest com t : Forall (fun e => commit_ts_ e ≤ t) com → version_at (stamped com) t = latest com.
Proof. destruct com as [|e com]; [done|]. intros [He _]%Forall_cons. cbn. by destruct (Z.leb_spec (commit_ts_ e) t); [|lia]. Qed.

Lemma newer_head com t :
  StronglySorted newest_first com →
  newer (stamped com) t = match com with [] => false | e :: _ => t <? commit_ts_ e end.
Proof.
  destruct com as [|e com]; [done|]. intros [_ Hall]%StronglySorted_inv. cbn.
  destruct (Z.ltb_spec t (commit_ts_ e)); [done|]. cbn. unfold newest_first in Hall.
  induction Hall; cbn; [done|]. by destruct (Z.ltb_spec t (commit_ts_ x)); [lia|].
Qed.

Lemma newer_old com t :
  StronglySorted newest_first com → newer (stamped com) t = false ↔ Forall (fun e => commit_ts_ e ≤ t) com.
Proof.
  intros Hs. rewrite newer_head by done. destruct com as [|e com]; [done|].
  apply StronglySorted_inv in Hs as [_ Hall]. rewrite Forall_cons, Z.ltb_ge. unfold newest_first in Hall.
  split; [|by intros []]. intros He. split; [done|]. eapply Forall_impl; [exact Hall|]. cbn. lia.
Qed.

(** *** Versions that do not count *)
Lemma dead_running (txns : gmap Z Writer) id w :
  txns !! id = Some w → running w = true → dead (state_of txns id) = true → w_state w = TxnState.kRollbacking.
Proof. unfold state_of. intros ->. unfold running, dead. by destruct (w_state w). Qed.

Lemma state_running (txns : gmap Z Writer) id w :
  txns !! id = Some w → running w = true → dead (state_of txns id) = false →
  state_of txns id = TxnState.kStarted ∨ state_of txns id = TxnState.kCommitting.
Proof. unfold state_of. intros ->. unfold running, dead. destruct (w_state w); naive_solver. Qed.

Lemma FindEntry_live old n id t l :
  Forall (entry_ok old n) l →
  FindEntry (state_of (n_txns n)) id t l = FindEntry (state_of (n_txns n)) id t (live (n_txns n) l).
Proof.
  induction 1 as [|e l He _ IH]; [done|]. unfold live. rewrite filter_cons. fold (live (n_txns n) l).
  unfold entry_ok in He. unfold alive. cbn [FindEntry]. destruct (Committed e) eqn:Hc; cbn [orb].
  { rewrite decide_True by done. cbn [FindEntry]. by rewrite Hc. }
  destruct He as (w & Hw & Hi & Hr). destruct (dead (state_of (n_txns n) (txn_id_ e))) eqn:Hd; cbn [negb].
  - rewrite decide_False by done. unfold state_of at 1. rewrite Hw.
    by rewrite (dead_running _ _ _ Hw Hr Hd).
  - rewrite decide_True by done. cbn [FindEntry]. rewrite Hc.
    by destruct (state_running _ _ _ Hw Hr Hd) as [-> | ->].
Qed.

Lemma GetEntry_live old n id w t l :
  n_txns n !! id = Some w → started w = true → Forall (entry_ok old n) l →
  GetEntryInner1 id t l = GetEntryInner1 id t (live (n_txns n) l).
Proof.
  intros Hid Hst. induction 1 as [|e l He _ IH]; [done|]. unfold live. rewrite filter_cons.
  fold (live (n_txns n) l). unfold entry_ok in He. unfold alive. cbn [GetEntryInner1].
  destruct (Committed e) eqn:Hc; cbn [orb].
  { rewrite decide_True by done. cbn [GetEntryInner1]. rewrite Hc. by rewrite IH. }
  destruct He as (w' & Hw & Hi & Hr). destruct (dead (state_of (n_txns n) (txn_id_ e))) eqn:Hd; cbn [negb].
  - rewrite decide_False by done. pose proof (dead_running _ _ _ Hw Hr Hd) as Hrb.
    destruct (Z.eqb_spec id (txn_id_ e)) as [->|]; [|done]. simplify_eq. unfold started in Hst. by rewrite Hrb in Hst.
  - rewrite decide_True by done. cbn [GetEntryInner1]. rewrite Hc. by rewrite IH.
Qed.

Lemma own_alive txns id v mine com : holds txns id v mine com → live txns mine = mine.
Proof.
  intros [(w & Hw & Ha & _) Hown _]. unfold live. induction Hown as [|e mine [Hid Hc] _ IH]; [done|].
  rewrite filter_cons, decide_True; [by f_equal|]. unfold alive, state_of.
  rewrite Hc, Hid, Hw. unfold active, started, committing in Ha. unfold dead. by destruct (w_state w).
Qed.

Lemma live_versions n a mine rest com : rep_list n a mine rest com → live (n_txns n) (n_versions n) = mine ++ com.
Proof.
  intros [Hs Hl _ _ _ Hw]. rewrite Hs. unfold live. rewrite filter_app. fold (live (n_txns n) mine) (live (n_txns n) rest).
  rewrite Hl. f_equal. unfold written in Hw. destruct (s_writer a) as [[id v]|]; [by eapply own_alive|by subst].
Qed.
End Represents.

(** ** The operations find what the specification says *)
Section Find.
Context {P : Type}.
Implicit Types (e : BaseEntry P) (l com mine rest : list (BaseEntry P)) (n : Name P) (a : Spec).

Definition spec_find a (id : Z) : FindResult :=
  if blocked a id then FindResult.kConflict
  else match writes a id, visible a id with
       | Some _, Some _ => FindResult.kUncommitted
       | Some _, None => FindResult.kUncommittedDelete
       | None, Some _ => FindResult.kFound
       | None, None => FindResult.kNotFound
       end.

Lemma own_head txns id v mine com :
  holds txns id v mine com →
  ∃ e mine', mine = e :: mine' ∧ txn_id_ e = id ∧ Committed e = false ∧ value_of e = v.
Proof.
  intros [_ Hown Hs]. destruct mine as [|e mine']; [done|]. apply Forall_cons in Hown as [[Hid Hc] _].
  exists e, mine'. split_and!; try done. unfold own_versions in Hs. destruct mine' as [|d [|]]; [naive_solver| |done].
  destruct Hs as (Hd & -> & _). unfold value_of. by rewrite Hd.
Qed.

Lemma spec_begin_ok n a id w : txn_ok n a id w → spec_begin a id = w_begin w.
Proof. intros (_ & Hb & _). unfold spec_begin. by rewrite Hb. Qed.

Lemma started_low n a id w : txn_ok n a id w → started w = true → n_low n ≤ w_begin w.
Proof. intros (_ & _ & Hl & _) Hst. apply Hl. unfold running, started in *. by destruct (w_state w). Qed.

Lemma find_committed com (state : Z → TxnState) id t :
  Forall (fun e => Committed e = true) com → StronglySorted newest_first com →
  FindEntry state id t com
  = Ok (if newer (stamped com) t then FindResult.kConflict
        else match version_at (stamped com) t with Some _ => FindResult.kFound | None => FindResult.kNotFound end).
Proof.
  intros Hc Hs. rewrite newer_head by done. destruct com as [|e com]; [done|]. apply Forall_cons in Hc as [Hc _].
  cbn. rewrite Hc. unfold value_of. destruct (Z.ltb_spec t (commit_ts_ e)), (Z.leb_spec (commit_ts_ e) t); try lia; [done|].
  by destruct (deleted_ e).
Qed.

Lemma FindEntry_spec old n a id w :
  rep old n a → n_txns n !! id = Some w → started w = true →
  FindEntry (state_of (n_txns n)) id (w_begin w) (n_versions n) = Ok (spec_find a id).
Proof.
  intros Hrep Hid Hst. destruct (rep_txn _ _ _ Hrep _ _ Hid) as [Htxn _].
  destruct (rep_lists _ _ _ Hrep) as (mine & rest & com & HL).
  rewrite (FindEntry_live old) by apply Hrep. rewrite (live_versions _ _ _ _ _ HL).
  unfold spec_find, blocked, visible. rewrite (spec_begin_ok _ _ _ _ Htxn).
  destruct HL as [_ _ Hc Hs Hag Hw]. unfold written in Hw. unfold writes.
  destruct (Hag _ (started_low _ _ _ _ Htxn Hst)) as [Hv Hn]. destruct (s_writer a) as [[id' v]|].
  - destruct (own_head _ _ _ _ _ Hw) as (e & mine' & -> & He & Hce & Hve). cbn [app FindEntry]. rewrite Hce, He.
    destruct (hold_txn _ _ _ _ _ Hw) as (w' & Hw' & Ha & _). unfold value_of in Hve.
    destruct (Z.eqb_spec id' id) as [->|Hne].
    + unfold state_of. rewrite Hid. unfold started in Hst. destruct (w_state w); try done.
      subst v. by destruct (deleted_ e).
    + unfold state_of. rewrite Hw'. unfold active, started, committing in Ha.
      by destruct (w_state w').
  - subst mine. cbn [app]. rewrite find_committed by done. rewrite Hv, Hn. by destruct (newer _ _), (version_at _ _).
Qed.

Lemma get_committed com id t :
  Forall (fun e => Committed e = true) com →
  ∃ r, GetEntryInner1 id t com = (r, match r with Some _ => FindResult.kFound | None => FindResult.kNotFound end) ∧
    address_ <$> r = version_at (stamped com) t.
Proof.
  induction 1 as [|e com Hc _ IH]; [by exists None|]. cbn. rewrite Hc. unfold value_of.
  destruct (commit_ts_ e <=? t); [|done]. destruct (deleted_ e); [by exists None|by exists (Some e)].
Qed.

Lemma GetEntry_spec old n a id w :
  rep old n a → n_txns n !! id = Some w → started w = true →
  ∃ r, GetEntryInner1 id (w_begin w) (n_versions n)
       = (r, match r with Some _ => FindResult.kFound | None => FindResult.kNotFound end) ∧
    address_ <$> r = visible a id.
Proof.
  intros Hrep Hid Hst. destruct (rep_txn _ _ _ Hrep _ _ Hid) as [Htxn _].
  destruct (rep_lists _ _ _ Hrep) as (mine & rest & com & HL).
  rewrite (GetEntry_live old n id w) by (done || apply Hrep). rewrite (live_versions _ _ _ _ _ HL).
  unfold visible. rewrite (spec_begin_ok _ _ _ _ Htxn).
  destruct HL as [_ _ Hc Hs Hag Hw]. unfold written in Hw. unfold writes.
  destruct (Hag _ (started_low _ _ _ _ Htxn Hst)) as [Hv _]. rewrite <- Hv. destruct (s_writer a) as [[id' v]|]; [|subst mine; by apply get_committed].
  destruct (Z.eqb_spec id' id) as [->|Hne].
  - destruct (own_head _ _ _ _ _ Hw) as (e & mine' & -> & He & Hce & Hve). cbn [app GetEntryInner1].
    rewrite Hce, He, Z.eqb_refl. unfold value_of in Hve. subst v. destruct (deleted_ e); [by exists None|by exists (Some e)].
  - assert (GetEntryInner1 id (w_begin w) (mine ++ com) = GetEntryInner1 id (w_begin w) com) as ->.
    { destruct Hw as [_ Hown _]. induction Hown as [|e mine [He Hce] _ IH]; [done|]. cbn. rewrite Hce, He.
      by destruct (Z.eqb_spec id id'); [congruence|]. }
    by apply get_committed.
Qed.
End Find.
