(* ===== verification/EntrySim.v ===== *)
(** * The versions of a catalog entry refine their specification

    Each event of [EntrySpec.exec] keeps the list a representation of the specification's state, which
    makes the same step with the same result ([simulation]). *)

From Stdlib Require Import ZArith Lia List Sorted.
From stdpp Require Import base list numbers gmap.
From S2P Require Import Prelude Bytes TxnManager EntryList EntrySpec.
Local Open Scope Z_scope.

Section Steps.
Context {P : Type} (entry_type : EntryType) (pick : P → P * list Z) (old : Z → Prop).
Implicit Types (e : BaseEntry P) (l com mine rest : list (BaseEntry P)) (n : Name P) (a : Spec).

(** ** The versions of a transaction that is not done *)
Lemma active_txn w : active w = true → w_installed w = false ∨ w_state w = TxnState.kStarted.
Proof. unfold active, started, committing. destruct (w_state w), (w_installed w); naive_solver. Qed.

Lemma active_open n a id w : txn_ok n a id w → active w = true → w_installed w = false.
Proof.
  intros (_ & _ & _ & Hs) Ha. unfold active, started, committing in Ha.
  destruct (w_state w), (w_installed w); naive_solver.
Qed.

Lemma committed_other n a id w e :
  rep old n a → n_txns n !! id = Some w → w_installed w = false →
  entry_ok old n e → Committed e = true → txn_id_ e ≠ id.
Proof.
  intros Hrep Hid Hi He Hc <-. unfold entry_ok in He. rewrite Hc in He.
  destruct He as (_ & [Ho|(w' & Hw & ?)]); [by eapply rep_txn|congruence].
Qed.

Lemma alive_active (txns : gmap Z Writer) id w e :
  txns !! id = Some w → active w = true → txn_id_ e = id → alive txns e = true.
Proof.
  intros Hid Ha He. unfold alive, state_of. rewrite He, Hid. apply orb_true_iff. right.
  unfold active, started, committing in Ha. unfold dead. by destruct (w_state w).
Qed.

Lemma rest_other n a mine rest com id w :
  rep old n a → rep_list n a mine rest com → n_txns n !! id = Some w → active w = true →
  Forall (fun e => txn_id_ e ≠ id) rest.
Proof.
  intros Hrep HL Hid Ha. apply Forall_forall. intros e He Heq.
  pose proof (rep_entry _ _ _ Hrep) as Hall. rewrite (list_split _ _ _ _ _ HL) in Hall.
  apply Forall_app in Hall as [_ Hall]. rewrite Forall_forall in Hall. specialize (Hall _ He).
  assert (Committed e = true) as Hc.
  { pose proof (list_committed _ _ _ _ _ HL) as Hcom. rewrite <- (list_live _ _ _ _ _ HL), Forall_forall in Hcom.
    apply Hcom. unfold live. rewrite list_elem_of_filter. split; [by eapply alive_active|done]. }
  destruct (rep_txn _ _ _ Hrep _ _ Hid) as [Htxn _]. by eapply committed_other; eauto using active_open.
Qed.

(** A transaction that is not the writer has no versions, while it is active. *)
Lemma versions_other n a id w :
  rep old n a → n_txns n !! id = Some w → active w = true → writes a id = None →
  Forall (fun e => txn_id_ e ≠ id) (n_versions n).
Proof.
  intros Hrep Hid Ha Hw. destruct (rep_lists _ _ _ Hrep) as (mine & rest & com & HL).
  rewrite (list_split _ _ _ _ _ HL). apply Forall_app. split; [|by eapply rest_other].
  pose proof (list_written _ _ _ _ _ HL) as Hwr. unfold written in Hwr. unfold writes in Hw.
  destruct (s_writer a) as [[id' v]|]; [|by subst]. destruct (Z.eqb_spec id' id); [done|].
  eapply Forall_impl; [apply Hwr|]. by intros e [-> _].
Qed.

(** ** Reading and writing *)
Lemma latest_history n a mine rest com id v :
  rep old n a → rep_list n a mine rest com → s_writer a = Some (id, v) →
  version_at (s_history a) (spec_begin a id) = latest com.
Proof.
  intros Hrep HL Hw. pose proof (list_written _ _ _ _ _ HL) as Hwr. unfold written in Hwr. rewrite Hw in Hwr.
  destruct (hold_txn _ _ _ _ _ Hwr) as (w & Hid & Ha & Hold). destruct (rep_txn _ _ _ Hrep _ _ Hid) as [Htxn _].
  rewrite (spec_begin_ok _ _ _ _ Htxn). destruct Htxn as (_ & _ & Hl & _).
  destruct (list_agree _ _ _ _ _ HL (w_begin w)) as [<- _]; [|by apply version_latest].
  apply Hl. unfold active, started, committing in Ha. unfold running. by destruct (w_state w).
Qed.

Lemma rep_write n a id w l writer mine rest com :
  rep old n a → n_txns n !! id = Some w → started w = true →
  rep_list n a mine rest com →
  Forall (entry_ok old n) l →
  (∃ mine', l = mine' ++ rest ∧ written (n_txns n) (set_writer a writer) mine' com) →
  rep old (set_versions n l) (set_writer a writer).
Proof.
  intros [Hclk Htxn Hent _] Hid Hst [Hs Hl Hc Hso Hag Hw] Hok (mine' & -> & Hw'). split; [exact Hclk|exact Htxn|exact Hok|].
  exists mine', rest, com. split; [done|exact Hl|done|done|exact Hag|exact Hw'].
Qed.

Lemma new_entry_ok n a id w address deleted p t :
  rep old n a → n_txns n !! id = Some w → started w = true → entry_ok old n (new_entry address deleted p id t).
Proof.
  intros Hrep Hid Hst. destruct (rep_txn _ _ _ Hrep _ _ Hid) as [(_ & _ & _ & Hs) _].
  unfold entry_ok. cbn. exists w. split; [done|]. unfold started in Hst. unfold running. by destruct (w_state w).
Qed.

Lemma rep_push n a id w (deleted : bool) address p t :
  rep old n a → n_txns n !! id = Some w → started w = true → blocked a id = false →
  let v := if deleted then None else Some address in
  (if deleted then writes a id = None ∧ is_Some (visible a id) else visible a id = None) →
  rep old (set_versions n (new_entry address deleted p id t :: n_versions n)) (set_writer a (Some (id, v))).
Proof.
  intros Hrep Hid Hst Hb v Hv. destruct (rep_lists _ _ _ Hrep) as (mine & rest & com & HL).
  eapply rep_write; try done; [constructor; [by eapply new_entry_ok|apply Hrep]|].
  rewrite (list_split _ _ _ _ _ HL). exists (new_entry address deleted p id t :: mine). split; [done|].
  pose proof (list_written _ _ _ _ _ HL) as Hwr. destruct (rep_txn _ _ _ Hrep _ _ Hid) as [Htxn _].
  assert (active w = true) as Ha by (unfold active; by rewrite Hst).
  unfold written in *. cbn [s_writer set_writer]. unfold blocked, visible in *.
  destruct (writes a id) as [u|] eqn:Hw; unfold writes in Hw.
  - destruct deleted; [by destruct Hv|]. destruct (s_writer a) as [[id' u']|] eqn:Hwa; [|done].
    destruct (Z.eqb_spec id' id) as [->|]; [|done]. simplify_eq. destruct Hwr as [Ht Hown Hsh].
    split; [done|by constructor|]. unfold own_versions in *. destruct mine as [|e [|d [|]]]; try done; [|naive_solver].
    destruct Hsh as [He Hl]. split_and!; try done; [|by apply Hl]. unfold value_of in He. by destruct (deleted_ e).
  - apply orb_false_iff in Hb as [Hwn Hn].
    assert (s_writer a = None) as Hwa by (apply eq_None_not_Some; by apply bool_decide_eq_false in Hwn).
    rewrite Hwa in Hwr. subst mine. rewrite (spec_begin_ok _ _ _ _ Htxn) in *.
    destruct (list_agree _ _ _ _ _ HL (w_begin w)) as [Hv1 Hn1]; [by eapply started_low|].
    rewrite <- Hn1 in Hn. apply newer_old in Hn; [|by eapply list_sorted].
    rewrite <- Hv1, version_latest in Hv by done.
    split; [by exists w|by repeat constructor|]. unfold v, own_versions, value_of. cbn. destruct deleted.
    + by destruct Hv as [_ ?].
    + rewrite Hv. split; [done|]. split; [by intros []|done].
Qed.

Lemma rep_pop n a id w u :
  rep old n a → n_txns n !! id = Some w → started w = true → writes a id = Some (Some u) →
  ∃ e l, n_versions n = e :: l ∧
    rep old (set_versions n l)
      (set_writer a (match version_at (s_history a) (spec_begin a id) with Some _ => Some (id, None) | None => None end)).
Proof.
  intros Hrep Hid Hst Hw. destruct (rep_lists _ _ _ Hrep) as (mine & rest & com & HL). unfold writes in Hw.
  destruct (s_writer a) as [[id' u']|] eqn:Hwa; [|done]. destruct (Z.eqb_spec id' id) as [->|]; [|done]. simplify_eq.
  rewrite (latest_history _ _ _ _ _ _ _ Hrep HL Hwa).
  pose proof (list_written _ _ _ _ _ HL) as Hwr. unfold written in Hwr. rewrite Hwa in Hwr.
  destruct (own_head _ _ _ _ _ Hwr) as (e & mine' & -> & _). destruct Hwr as [Ht Hown Hsh].
  exists e, (mine' ++ rest). split; [apply (list_split _ _ _ _ _ HL)|].
  pose proof (rep_entry _ _ _ Hrep) as Hall. rewrite (list_split _ _ _ _ _ HL) in Hall. apply Forall_cons in Hall as [_ Hall].
  eapply rep_write; try done. exists mine'. split; [done|]. unfold written. cbn [s_writer set_writer].
  apply Forall_cons in Hown as [_ Hown]. unfold own_versions in Hsh. destruct mine' as [|d [|]]; [| |done].
  - destruct Hsh as [_ Hl]. destruct (latest com); [|done]. discriminate (proj1 Hl (mk_is_Some _ _ eq_refl)).
  - destruct Hsh as (_ & _ & Hd & x & Hx). rewrite Hx. split; [done..|]. unfold own_versions, value_of.
    by rewrite Hd, Hx.
Qed.

(** ** Transactions change state *)

(** The versions of [id] stay well-formed when its record becomes [w']. *)
Definition suits n (id : Z) (w' : Writer) e : Prop :=
  txn_id_ e ≠ id ∨
  ∃ w, n_txns n !! id = Some w ∧ w_installed w' = w_installed w ∧
    (w_installed w = false → running w = true → running w' = true).

Lemma entry_change n id w' clock low l e :
  entry_ok old n e → suits n id w' e → n_clock n ≤ clock →
  entry_ok old (mkName P l (<[id := w']> (n_txns n)) clock low) e.
Proof.
  unfold entry_ok, suits. cbn. intros He Hs Hclk. destruct (decide (txn_id_ e = id)) as [Heq|Hne].
  - destruct Hs as [?|(w & Hid & Hi & Hr)]; [done|]. rewrite Heq, lookup_insert_eq in *. destruct (Committed e).
    + destruct He as [? [Ho|(w0 & Hw0 & ?)]]; split; [lia|by left|lia|right; exists w'; split; [done|congruence]].
    + destruct He as (w0 & Hw0 & Hi0 & Hr0). simplify_eq. exists w'. rewrite Hi. auto.
  - rewrite lookup_insert_ne by done. destruct (Committed e); [|done]. destruct He; split; [lia|done].
Qed.

Lemma live_writers_ext (txns txns' : gmap Z Writer) l :
  Forall (fun e => alive txns e = alive txns' e) l → live txns l = live txns' l.
Proof. unfold live. induction 1 as [|e l He _ IH]; [done|]. by rewrite !filter_cons, IH, He. Qed.

Lemma live_change (txns : gmap Z Writer) id w' l :
  Forall (fun e => txn_id_ e = id → Committed e = true ∨ dead (w_state w') = dead (state_of txns id)) l →
  live (<[id := w']> txns) l = live txns l.
Proof.
  intros Hl. apply live_writers_ext. eapply Forall_impl; [exact Hl|]. intros e He. cbn. unfold alive.
  destruct (decide (txn_id_ e = id)) as [Heq|Hne].
  - destruct (He Heq) as [-> | Hd]; [done|]. rewrite Heq. unfold state_of at 1. rewrite lookup_insert_eq. by rewrite Hd.
  - unfold state_of. by rewrite lookup_insert_ne by done.
Qed.

Lemma txns_change n a id w' clock a' :
  rep old n a → ¬ old id → n_clock n ≤ clock →
  (∀ id', id' ≠ id → s_begin a' !! id' = s_begin a !! id' ∧ s_commit a' !! id' = s_commit a !! id') →
  let n' := mkName P (n_versions n) (<[id := w']> (n_txns n)) clock (n_low n) in
  txn_ok n' a' id w' →
  ∀ id0 w0, n_txns n' !! id0 = Some w0 → txn_ok n' a' id0 w0 ∧ ¬ old id0.
Proof.
  intros Hrep Hold Hclk Ha' n' Hok id0 w0. unfold n'. cbn. destruct (decide (id0 = id)) as [->|Hne].
  { rewrite lookup_insert_eq. intros [= <-]. done. }
  rewrite lookup_insert_ne by done. intros Hid0. destruct (rep_txn _ _ _ Hrep _ _ Hid0) as [(Hb & Hsb & Hl & Hs) ?].
  destruct (Ha' _ Hne) as [Hb' Hc']. split; [|done]. unfold txn_ok. cbn. rewrite Hb', Hc'.
  split_and!; [lia|done|done|]. destruct (w_state w0); try done. destruct Hs; split; [lia|done].
Qed.

Lemma holds_change (txns : gmap Z Writer) id w' id0 v mine com :
  holds txns id0 v mine com →
  (id0 = id → ∃ w, txns !! id = Some w ∧ w_begin w' = w_begin w ∧ active w' = true) →
  holds (<[id := w']> txns) id0 v mine com.
Proof.
  intros [(w0 & Hw0 & Ha & Hc) Hown Hsh] Hid. split; [|done..]. destruct (decide (id0 = id)) as [->|Hne].
  - destruct (Hid eq_refl) as (w & Hw & Hb & Ha'). simplify_eq. exists w'. rewrite lookup_insert_eq, Hb. done.
  - exists w0. by rewrite lookup_insert_ne.
Qed.

Lemma rep_change n a id w' clock a' :
  rep old n a → ¬ old id → n_clock n ≤ clock < UNCOMMIT_TS →
  s_clock a' = clock → s_history a' = s_history a → s_writer a' = s_writer a →
  (∀ id', id' ≠ id → s_begin a' !! id' = s_begin a !! id' ∧ s_commit a' !! id' = s_commit a !! id') →
  let n' := mkName P (n_versions n) (<[id := w']> (n_txns n)) clock (n_low n) in
  txn_ok n' a' id w' →
  (dead (w_state w') = dead (state_of (n_txns n) id) ∨ Forall (fun e => txn_id_ e ≠ id) (n_versions n)) →
  Forall (suits n id w') (n_versions n) →
  (∀ v, s_writer a = Some (id, v) → ∃ w, n_txns n !! id = Some w ∧ w_begin w' = w_begin w ∧ active w' = true) →
  rep old n' a'.
Proof.
  intros Hrep Hold Hclk Hca Hha Hwa Ha' n' Hok Hd Hs Hwr. split.
  - destruct (rep_clock _ _ _ Hrep) as (? & ? & ?). unfold n'. cbn. lia.
  - apply (txns_change n a); try done. lia.
  - pose proof (rep_entry _ _ _ Hrep) as He. unfold n'. cbn [n_versions].
    apply Forall_forall. intros e Hin. rewrite Forall_forall in He, Hs. apply entry_change; [auto..|lia].
  - destruct (rep_lists _ _ _ Hrep) as (mine & rest & com & [Hsp Hl Hc Hso Hag Hw]). exists mine, rest, com.
    split; try done.
    + cbn. rewrite live_change; [done|]. apply Forall_forall. intros e He Hid. destruct Hd as [Hd|Hne]; [auto|].
      rewrite Hsp in Hne. apply Forall_app in Hne as [_ Hne]. rewrite Forall_forall in Hne. by destruct (Hne _ He).
    + by rewrite Hha.
    + unfold written in *. rewrite Hwa. destruct (s_writer a) as [[id0 v]|]; [|done].
      apply holds_change; [done|]. intros ->. by eapply Hwr.
Qed.

Lemma suits_other n id w' l : Forall (fun e => txn_id_ e ≠ id) l → Forall (suits n id w') l.
Proof. intros Hl. eapply Forall_impl; [exact Hl|]. by left. Qed.

Lemma writes_Some a id v : writes a id = Some v → s_writer a = Some (id, v).
Proof.
  unfold writes. destruct (s_writer a) as [[id' v']|]; [|done]. destruct (Z.eqb_spec id' id) as [->|]; [|done].
  by intros [= ->].
Qed.

Lemma writes_None a id v : writes a id = None → s_writer a ≠ Some (id, v).
Proof. unfold writes. intros Hw Hs. by rewrite Hs, Z.eqb_refl in Hw. Qed.

Lemma running_active w : active w = true → running w = true.
Proof. unfold active, started, committing, running. by destruct (w_state w). Qed.

(** ** Rolling back *)
Lemma rep_abort n a id w :
  rep old n a → n_txns n !! id = Some w → active w = true →
  rep old (set_txn n id (mkWriter (w_begin w) TxnState.kRollbacking (w_commit w) false)) (spec_abort a id).
Proof.
  intros Hrep Hid Ha. destruct (rep_txn _ _ _ Hrep _ _ Hid) as [Htxn Hold].
  destruct (rep_clock _ _ _ Hrep) as (Hca & Hclk & Hlow).
  set (w' := mkWriter _ _ _ _). assert (∀ a', s_begin a' = s_begin a → txn_ok (set_txn n id w') a' id w') as Hok.
  { intros a' Hb. destruct Htxn as (? & ? & Hl & _). unfold txn_ok. cbn. rewrite Hb. split_and!; try done.
    intros _. by apply Hl, running_active. }
  unfold spec_abort. destruct (writes a id) as [v|] eqn:Hw.
  - pose proof (writes_Some _ _ _ Hw) as Hwa. pose proof (active_open _ _ _ _ Htxn Ha) as Hi. split.
    + done.
    + by apply (txns_change n a); [done..|apply Hok].
    + pose proof (rep_entry _ _ _ Hrep) as He. eapply Forall_impl; [exact He|]. cbn. intros e Hent.
      apply entry_change; [done| |lia]. right. exists w. split_and!; [done|done|done].
    + destruct (rep_lists _ _ _ Hrep) as (mine & rest & com & HL). pose proof (rest_other _ _ _ _ _ _ _ Hrep HL Hid Ha) as Hother.
      destruct HL as [Hsp Hl Hc Hso Hag Hwr]. unfold written in Hwr. rewrite Hwa in Hwr. destruct Hwr as [_ Hown _].
      exists [], (n_versions n), com. split; try done. cbn [n_txns set_txn]. rewrite Hsp. unfold live.
      rewrite filter_app. fold (live (<[id:=w']> (n_txns n)) mine) (live (<[id:=w']> (n_txns n)) rest).
      rewrite (live_change _ _ _ rest) by (eapply Forall_impl; [exact Hother|done]). rewrite Hl.
      assert (live (<[id:=w']> (n_txns n)) mine = []) as ->; [|done].
      clear -Hown. induction Hown as [|e mine [He Hce] _ IH]; [done|]. unfold live. rewrite filter_cons, decide_False; [done|].
      unfold alive, state_of. by rewrite Hce, He, lookup_insert_eq.
  - pose proof (versions_other _ _ _ _ Hrep Hid Ha Hw) as Hother.
    apply rep_change with (a := a); try done; [lia|by apply Hok|by right|by apply suits_other|].
    intros v Hv. by destruct (writes_None _ _ v Hw).
Qed.

Lemma rep_remove n a id w :
  rep old n a → n_txns n !! id = Some w → rollbacking w = true →
  rep old (set_versions n (DeleteEntry id (n_versions n))) a.
Proof.
  intros Hrep Hid Hrb. destruct (rep_txn _ _ _ Hrep _ _ Hid) as [Htxn Hold].
  assert (w_state w = TxnState.kRollbacking) as Hs by (unfold rollbacking in Hrb; by destruct (w_state w)).
  assert (w_installed w = false) as Hi by (destruct Htxn as (_ & _ & _ & H); by rewrite Hs in H).
  pose proof (rep_entry _ _ _ Hrep) as He. destruct (rep_lists _ _ _ Hrep) as (mine & rest & com & [Hsp Hl Hc Hso Hag Hw]).
  split; [apply Hrep|exact (rep_txn _ _ _ Hrep)| |].
  { cbn. apply Forall_forall. intros e [_ Hin]%list_elem_of_filter. by rewrite Forall_forall in He; apply He. }
  exists mine, (DeleteEntry id rest), com. split; try done; cbn [n_versions n_txns set_versions].
  - unfold DeleteEntry. rewrite Hsp, filter_app. f_equal. unfold written in Hw.
    destruct (s_writer a) as [[id0 v]|]; [|by subst]. destruct Hw as [(w0 & Hw0 & Ha & _) Hown _].
    clear -Hown Hid Hw0 Ha Hs. induction Hown as [|e mine [Heq _] _ IH]; [done|]. rewrite filter_cons, decide_True; [by f_equal|].
    rewrite Heq. intros ->. simplify_eq. unfold active, started, committing in Ha. by rewrite Hs in Ha.
  - rewrite <- Hl. rewrite Hsp in He. apply Forall_app in He as [_ He]. clear -He Hid Hs Hi Hrep.
    induction He as [|e rest He _ IH]; [done|]. unfold DeleteEntry, live in *. rewrite !filter_cons.
    destruct (decide (txn_id_ e = id)) as [Heq|Hne]; cbn.
    + assert (alive (n_txns n) e ≠ true) as Hal.
      { unfold alive, state_of. rewrite Heq, Hid, Hs. cbn. destruct (Committed e) eqn:Hce; [|done].
        by destruct (committed_other _ _ _ _ _ Hrep Hid Hi He Hce). }
      rewrite decide_False by auto. by rewrite (decide_False _ _ Hal).
    + rewrite decide_True by done. rewrite filter_cons. by rewrite IH.
Qed.

(** ** Committing *)
Definition with_commit (id commit_ts : Z) e : BaseEntry P :=
  if txn_id_ e =? id then set_commit_ts e commit_ts else e.

Lemma install_ok id commit_ts l :
  Forall (fun e => txn_id_ e = id → Committed e = false) l → commit_ts ≠ UNCOMMIT_TS →
  install id commit_ts l = Ok (map (with_commit id commit_ts) l).
Proof.
  intros Hl Hts. induction Hl as [|e l He _ IH]; [done|]. cbn [install map]. unfold with_commit at 1.
  destruct (Z.eqb_spec (txn_id_ e) id) as [Heq|]; [|by rewrite IH].
  unfold Commit. rewrite (He Heq). cbn. destruct (Z.eqb_spec commit_ts UNCOMMIT_TS); [done|]. cbn. by rewrite IH.
Qed.

Lemma with_commit_other id commit_ts l :
  Forall (fun e => txn_id_ e ≠ id) l → map (with_commit id commit_ts) l = l.
Proof.
  induction 1 as [|e l He _ IH]; [done|]. cbn. rewrite IH. unfold with_commit. by destruct (Z.eqb_spec (txn_id_ e) id).
Qed.

Lemma with_commit_own id commit_ts mine :
  Forall (fun e => txn_id_ e = id ∧ Committed e = false) mine →
  map (with_commit id commit_ts) mine = map (fun e => set_commit_ts e commit_ts) mine.
Proof.
  induction 1 as [|e l [He _] _ IH]; [done|]. cbn. rewrite IH. unfold with_commit. by rewrite He, Z.eqb_refl.
Qed.

Lemma agree_install low com history mine v c :
  agree low com history → own_versions com mine v →
  agree low (map (fun e => set_commit_ts e c) mine ++ com) ((c, v) :: history).
Proof.
  intros Hag Hown t Ht. destruct (Hag t Ht) as [Hv Hn]. unfold stamped, newer in *.
  unfold own_versions in Hown. destruct mine as [|e [|d [|]]]; try done; cbn.
  - destruct Hown as [He _]. unfold value_of in *. cbn in *. rewrite He, Hv, Hn. done.
  - destruct Hown as (He & -> & _). unfold value_of in *. cbn in *. rewrite He, Hv, Hn.
    destruct (c <=? t), (t <? c); done.
Qed.

Lemma sorted_install com mine c :
  StronglySorted newest_first com → Forall (fun e => commit_ts_ e ≤ c) com →
  StronglySorted newest_first (map (fun e => set_commit_ts e c) mine ++ com).
Proof.
  intros Hs Hc. induction mine as [|e mine IH]; [done|]. cbn. constructor; [done|]. unfold newest_first. cbn.
  apply Forall_app. split; [|done]. apply Forall_map, Forall_true. intros x. cbn. lia.
Qed.

Lemma committing_txn n a id w :
  txn_ok n a id w → committing w = true →
  w_state w = TxnState.kCommitting ∧ w_begin w < w_commit w ≤ n_clock n ∧ spec_commit a id = w_commit w.
Proof.
  intros (_ & _ & _ & Hs) Hc. unfold committing in Hc. destruct (w_state w); try done. destruct Hs as [? Hsc].
  unfold spec_commit. by rewrite Hsc.
Qed.

Lemma installed_txn_ok n a id w a' :
  txn_ok n a id w → committing w = true → s_begin a' = s_begin a → s_commit a' = s_commit a → ∀ l txns,
  txn_ok (mkName P l txns (n_clock n) (n_low n)) a' id (mkWriter (w_begin w) (w_state w) (w_commit w) true).
Proof.
  intros (Hb & Hsb & Hl & Hs) Hc Hb' Hc' l txns. unfold committing in Hc. unfold txn_ok. cbn. rewrite Hb', Hc'.
  split_and!; try done. by destruct (w_state w).
Qed.

Lemma rep_install_writer n a id w v :
  rep old n a → n_txns n !! id = Some w → committing w = true → w_installed w = false → writes a id = Some v →
  install id (w_commit w) (n_versions n) = Ok (map (with_commit id (w_commit w)) (n_versions n)) ∧
  rep old (set_txn (set_versions n (map (with_commit id (w_commit w)) (n_versions n))) id
             (mkWriter (w_begin w) (w_state w) (w_commit w) true)) (spec_install a id).
Proof.
  intros Hrep Hid Hc Hi Hw. destruct (rep_txn _ _ _ Hrep _ _ Hid) as [Htxn Hold].
  destruct (committing_txn _ _ _ _ Htxn Hc) as (Hst & Hts & Hsc).
  assert (active w = true) as Ha by (unfold active; rewrite Hc, Hi; by destruct (started w)).
  destruct (rep_clock _ _ _ Hrep) as (Hca & Hclk & Hlow). pose proof (rep_entry _ _ _ Hrep) as Hent.
  destruct (rep_lists _ _ _ Hrep) as (mine & rest & com & HL). pose proof (rest_other _ _ _ _ _ _ _ Hrep HL Hid Ha) as Hother.
  destruct HL as [Hsp Hl Hcom Hso Hag Hwr]. unfold written in Hwr. rewrite (writes_Some _ _ _ Hw) in Hwr.
  destruct Hwr as [(w0 & Hw0 & _ & Hle) Hown Hsh]. assert (w0 = w) as -> by congruence.
  set (w' := mkWriter _ _ _ _). set (c := w_commit w) in *. set (mine' := map (fun e => set_commit_ts e c) mine).
  assert (map (with_commit id c) (n_versions n) = mine' ++ rest) as Hmap.
  { by rewrite Hsp, map_app, (with_commit_own _ _ _ Hown), (with_commit_other _ _ _ Hother). }
  assert (∀ e, Committed (set_commit_ts e c) = true) as Hcc.
  { intros e. unfold Committed. cbn. destruct (Z.eqb_spec c UNCOMMIT_TS); [lia|done]. }
  split.
  { apply install_ok; [|lia]. rewrite Hsp. apply Forall_app. split; [eapply Forall_impl; [exact Hown|naive_solver]|].
    eapply Forall_impl; [exact Hother|done]. }
  rewrite Hmap. unfold spec_install. rewrite Hw, Hsc. split; [done| | |].
  - apply (txns_change n a); [done..|]. by apply installed_txn_ok with (a := a).
  - cbn. rewrite Hsp in Hent. apply Forall_app in Hent as [_ Hent]. apply Forall_app. split.
    + unfold mine'. apply Forall_map. eapply Forall_impl; [exact Hown|]. intros e [He _]. cbn. unfold entry_ok.
      rewrite Hcc. cbn. split; [lia|]. right. exists w'. by rewrite He, lookup_insert_eq.
    + apply Forall_forall. intros e He. rewrite Forall_forall in Hent, Hother.
      apply (entry_change n); [by apply Hent|by left; apply Hother|done].
  - exists [], (mine' ++ rest), (mine' ++ com). split; try done.
    + cbn [n_txns set_txn set_versions]. unfold live. rewrite filter_app.
      fold (live (<[id:=w']> (n_txns n)) mine') (live (<[id:=w']> (n_txns n)) rest).
      rewrite (live_change _ _ _ rest) by (eapply Forall_impl; [exact Hother|done]). rewrite Hl. f_equal.
      unfold live, mine'. clear -Hcc. induction mine as [|e mine IH]; [done|]. cbn [map]. rewrite filter_cons, decide_True; [by f_equal|].
      unfold alive. by rewrite Hcc.
    + apply Forall_app. split; [|done]. apply Forall_map, Forall_true. intros e. apply Hcc.
    + apply sorted_install; [done|]. eapply Forall_impl; [exact Hle|]. cbn. lia.
    + by apply agree_install.
Qed.

Lemma rep_install n a id w :
  rep old n a → n_txns n !! id = Some w → committing w = true → w_installed w = false →
  ∃ l, install id (w_commit w) (n_versions n) = Ok l ∧
    rep old (set_txn (set_versions n l) id (mkWriter (w_begin w) (w_state w) (w_commit w) true)) (spec_install a id).
Proof.
  intros Hrep Hid Hc Hi. destruct (writes a id) as [v|] eqn:Hw.
  { eexists. by eapply rep_install_writer. }
  destruct (rep_txn _ _ _ Hrep _ _ Hid) as [Htxn Hold]. destruct (committing_txn _ _ _ _ Htxn Hc) as (Hst & Hts & Hsc).
  destruct (rep_clock _ _ _ Hrep) as (Hca & Hclk & Hlow).
  assert (active w = true) as Ha by (unfold active; rewrite Hc, Hi; by destruct (started w)).
  pose proof (versions_other _ _ _ _ Hrep Hid Ha Hw) as Hother. exists (n_versions n). split.
  { rewrite install_ok; [by rewrite with_commit_other| |lia]. eapply Forall_impl; [exact Hother|done]. }
  unfold spec_install. rewrite Hw. apply (rep_change n a id _ (n_clock n) a); try done; [| |by right|by apply suits_other|].
  - split; [done|lia].
  - by apply installed_txn_ok with (a := a).
  - intros v Hv. by destruct (writes_None _ _ v Hw).
Qed.

(** ** Cleaning up *)
Notation picked l ts := (PickCleanup (fun e : BaseEntry P => address_ e) pick ts l).1.
Notation older l := (pick_older (fun e : BaseEntry P => address_ e) l).1.

(** What is left of the versions that count. *)
Fixpoint cleaned (visible_ts : Z) com : list (BaseEntry P) :=
  match com with
  | [] => []
  | e :: rest =>
      if commit_ts_ e <? visible_ts then
        if deleted_ e then [] else [set_payload e (pick (payload_ e)).1]
      else e :: cleaned visible_ts rest
  end.

Lemma pick_older_cons e l :
  older (e :: l) = if Committed e then older l else e :: older l.
Proof. cbn. destruct (pick_older _ l). by destruct (Committed e). Qed.

Lemma PickCleanup_cons e l ts :
  picked (e :: l) ts
  = if commit_ts_ e <? ts then
      if deleted_ e then older l else set_payload e (pick (payload_ e)).1 :: older l
    else e :: picked l ts.
Proof.
  cbn. destruct (commit_ts_ e <? ts).
  - destruct (pick_older _ l), (pick (payload_ e)). by destruct (deleted_ e).
  - by destruct (PickCleanup _ _ _ l).
Qed.

Lemma uncommitted_late e ts : Committed e = false → ts ≤ UNCOMMIT_TS → (commit_ts_ e <? ts) = false.
Proof. unfold Committed. intros Hc Hts. apply negb_false_iff, Z.eqb_eq in Hc. apply Z.ltb_ge. lia. Qed.

Lemma live_cons (txns : gmap Z Writer) e l :
  live txns (e :: l) = if alive txns e then e :: live txns l else live txns l.
Proof. unfold live. rewrite filter_cons. by destruct (alive txns e). Qed.

Lemma live_older (txns : gmap Z Writer) l :
  Forall (fun e => Committed e = true) (live txns l) → live txns (older l) = [].
Proof.
  induction l as [|e l IH]; [done|]. rewrite live_cons, pick_older_cons. intros Hl.
  destruct (Committed e) eqn:Hc.
  - unfold alive in Hl. rewrite Hc in Hl. apply Forall_cons in Hl as [_ Hl]. by apply IH.
  - rewrite live_cons. destruct (alive txns e); [apply Forall_cons in Hl as [? _]; congruence|by apply IH].
Qed.

Lemma live_picked (txns : gmap Z Writer) l ts :
  Forall (fun e => Committed e = true) (live txns l) → ts ≤ UNCOMMIT_TS →
  live txns (picked l ts) = cleaned ts (live txns l).
Proof.
  intros Hl Hts. induction l as [|e l IH]; [done|]. rewrite PickCleanup_cons. rewrite live_cons in Hl |- *.
  destruct (Committed e) eqn:Hc.
  - assert (alive txns e = true) as Ha by (unfold alive; by rewrite Hc). rewrite Ha in *.
    apply Forall_cons in Hl as [_ Hl]. cbn [cleaned]. destruct (commit_ts_ e <? ts).
    + destruct (deleted_ e); [by apply live_older|]. rewrite live_cons, live_older by done.
      unfold alive, Committed in *. cbn. by rewrite Hc.
    + by rewrite live_cons, Ha, IH.
  - rewrite uncommitted_late, live_cons by done.
    destruct (alive txns e); [apply Forall_cons in Hl as [? _]; congruence|by apply IH].
Qed.

Lemma picked_own mine l ts :
  Forall (fun e => Committed e = false) mine → ts ≤ UNCOMMIT_TS → picked (mine ++ l) ts = mine ++ picked l ts.
Proof.
  intros Hm Hts. induction Hm as [|e mine He _ IH]; [done|]. cbn [app]. rewrite PickCleanup_cons, uncommitted_late by done.
  by rewrite IH.
Qed.

Lemma older_Forall (Q : BaseEntry P → Prop) l : Forall Q l → Forall Q (older l).
Proof. induction 1; [by constructor|]. rewrite pick_older_cons. destruct (Committed x); [done|by constructor]. Qed.

Lemma picked_Forall (Q : BaseEntry P → Prop) l ts :
  (∀ e p, Q e → Q (set_payload e p)) → Forall Q l → Forall Q (picked l ts).
Proof.
  intros HQ. induction 1 as [|e l He Hl IH]; [by constructor|]. rewrite PickCleanup_cons.
  destruct (commit_ts_ e <? ts); [|by constructor]. destruct (deleted_ e); [by apply older_Forall|].
  constructor; [by apply HQ|by apply older_Forall].
Qed.

Lemma cleaned_Forall (Q : BaseEntry P → Prop) com ts :
  (∀ e p, Q e → Q (set_payload e p)) → Forall Q com → Forall Q (cleaned ts com).
Proof.
  intros HQ. induction 1 as [|e l He Hl IH]; [by constructor|]. cbn. destruct (commit_ts_ e <? ts); [|by constructor].
  destruct (deleted_ e); repeat constructor. by apply HQ.
Qed.

Lemma cleaned_latest com ts : latest (cleaned ts com) = latest com.
Proof.
  destruct com as [|e com]; [done|]. cbn. destruct (commit_ts_ e <? ts); [|done]. unfold value_of.
  by destruct (deleted_ e) eqn:Hd; cbn; unfold value_of; cbn; rewrite ?Hd.
Qed.

Lemma cleaned_sorted com ts : StronglySorted newest_first com → StronglySorted newest_first (cleaned ts com).
Proof.
  induction 1 as [|e com _ IH Hall]; [constructor|]. cbn. destruct (commit_ts_ e <? ts).
  - destruct (deleted_ e); repeat constructor.
  - constructor; [done|]. by apply cleaned_Forall.
Qed.

Lemma cleaned_agree com ts t :
  StronglySorted newest_first com → ts ≤ t →
  version_at (stamped (cleaned ts com)) t = version_at (stamped com) t ∧
  newer (stamped (cleaned ts com)) t = newer (stamped com) t.
Proof.
  intros Hs Ht. split.
  - unfold stamped. induction Hs as [|e com _ IH _]; [done|]. cbn.
    destruct (Z.ltb_spec (commit_ts_ e) ts); [|cbn; by rewrite IH].
    destruct (Z.leb_spec (commit_ts_ e) t); [|lia]. unfold value_of. destruct (deleted_ e) eqn:Hd; [done|]. cbn.
    destruct (Z.leb_spec (commit_ts_ e) t); [|lia]. unfold value_of. cbn. by rewrite Hd.
  - rewrite !newer_head by (done || by apply cleaned_sorted). destruct com as [|e com]; [done|]. cbn.
    destruct (Z.ltb_spec (commit_ts_ e) ts); [|done]. destruct (deleted_ e); cbn; [|done].
    destruct (Z.ltb_spec t (commit_ts_ e)); [lia|done].
Qed.

Lemma rep_clean n a ts :
  rep old n a → ts ≤ n_clock n + 1 → map_Forall (fun _ w => running w = true → ts ≤ w_begin w) (n_txns n) →
  rep old (mkName P (picked (n_versions n) ts) (n_txns n) (n_clock n) (Z.max (n_low n) ts)) a.
Proof.
  intros Hrep Hts Hrun. destruct (rep_clock _ _ _ Hrep) as (Hca & Hclk & Hlow). split.
  - cbn. lia.
  - cbn. intros id w Hid. destruct (rep_txn _ _ _ Hrep _ _ Hid) as [(Hb & Hsb & Hl & Hs) ?]. split; [|done].
    unfold txn_ok. cbn. split_and!; try done. intros Hr. specialize (Hl Hr). specialize (Hrun _ _ Hid Hr). lia.
  - cbn [n_versions]. apply picked_Forall; [done|]. apply Hrep.
  - destruct (rep_lists _ _ _ Hrep) as (mine & rest & com & [Hsp Hl Hc Hso Hag Hw]).
    exists mine, (picked rest ts), (cleaned ts com). split.
    + cbn [n_versions]. rewrite Hsp. apply picked_own; [|lia]. unfold written in Hw.
      destruct (s_writer a) as [[id v]|]; [|subst mine; by constructor]. eapply Forall_impl; [apply Hw|naive_solver].
    + cbn [n_txns]. rewrite live_picked by (rewrite ?Hl; done || lia). by rewrite Hl.
    + by apply cleaned_Forall.
    + by apply cleaned_sorted.
    + cbn [n_low]. intros t Ht. destruct (cleaned_agree com ts t) as [-> ->]; [done|lia|]. apply Hag. lia.
    + unfold written in *. cbn [n_txns]. destruct (s_writer a) as [[id v]|]; [|done].
      destruct Hw as [(w & Hid & Ha & Hle) Hown Hsh]. split; [|done|].
      * exists w. split_and!; [done..|]. by apply cleaned_Forall.
      * unfold own_versions in *. by rewrite cleaned_latest.
Qed.

Lemma rep_inner n a address f :
  rep old n a → rep old (set_versions n (update_payload address f (n_versions n))) a.
Proof.
  intros Hrep. unfold update_payload. set (g := update_entry address f).
  assert (∀ e, ∃ p, g e = set_payload e p) as Hg.
  { intros e. unfold g, update_entry. destruct (_ =? _); [by eexists|]. exists (payload_ e). by destruct e. }
  assert (∀ (Q : BaseEntry P → Prop) l, (∀ e p, Q e → Q (set_payload e p)) → Forall Q l → Forall Q (map g l)) as Hmap.
  { intros Q l HQ Hl. apply Forall_map. eapply Forall_impl; [exact Hl|]. intros e He. cbn. destruct (Hg e) as [p ->]. auto. }
  assert (∀ l, live (n_txns n) (map g l) = map g (live (n_txns n) l)) as Hlive.
  { induction l as [|e l IH]; [done|]. cbn [map]. rewrite !live_cons, IH. destruct (Hg e) as [p Hp]. rewrite Hp.
    change (alive (n_txns n) (set_payload e p)) with (alive (n_txns n) e). destruct (alive _ e); [|done]. cbn. by rewrite Hp. }
  assert (∀ e, value_of (g e) = value_of e) as Hval by (intros e; by destruct (Hg e) as [p ->]).
  assert (∀ l, stamped (map g l) = stamped l) as Hst.
  { intros l. unfold stamped. rewrite map_map. apply map_ext. intros e. rewrite Hval. by destruct (Hg e) as [p ->]. }
  assert (∀ com, latest (map g com) = latest com) as Hlat by (intros [|e com]; [done|apply Hval]).
  destruct (rep_lists _ _ _ Hrep) as (mine & rest & com & [Hsp Hl Hc Hso Hag Hw]).
  split; [apply Hrep|exact (rep_txn _ _ _ Hrep)|apply Hmap; [done|apply Hrep]|].
  exists (map g mine), (map g rest), (map g com). split; cbn [n_versions n_txns n_low set_versions].
  - by rewrite Hsp, map_app.
  - by rewrite Hlive, Hl.
  - by apply Hmap.
  - clear -Hso Hg. induction Hso as [|e com _ IH Hall]; [constructor|]. cbn. constructor; [done|]. apply Forall_map.
    eapply Forall_impl; [exact Hall|]. intros e'. unfold newest_first. by destruct (Hg e) as [p ->], (Hg e') as [p' ->].
  - unfold agree. by rewrite Hst.
  - unfold written in *. destruct (s_writer a) as [[id v]|]; [|by subst].
    destruct Hw as [(w & Hid & Ha & Hle) Hown Hsh]. split; [|by apply Hmap|].
    + exists w. split_and!; [done..|]. by apply Hmap.
    + unfold own_versions in *. rewrite Hlat. destruct mine as [|e [|d [|]]]; try done; cbn [map].
      * by rewrite Hval.
      * destruct (Hg e) as [p ->], (Hg d) as [p' ->]. done.
Qed.

(** ** Every step *)
Notation step_ok n a e r :=
  (∃ n', r = Ok (n', (spec_step entry_type a e).2) ∧ rep old n' (spec_step entry_type a e).1).

Lemma with_txn_Some n id guard {A} (k : Writer → result A) r :
  with_txn n id guard k = Some r → ∃ w, n_txns n !! id = Some w ∧ guard w = true ∧ r = k w.
Proof.
  unfold with_txn. destruct (n_txns n !! id) as [w|]; [|done]. destruct (guard w) eqn:Hg; [|done].
  intros [= <-]. by exists w.
Qed.

Lemma sim_begin n a id r : rep old n a → ¬ old id → exec entry_type pick n (Begin id) = Some r → step_ok n a (Begin id : event P) r.
Proof.
  intros Hrep Hold He. cbn in He. destruct (bool_decide _ && _) eqn:Hg; [|done]. injection He as <-.
  apply andb_true_iff in Hg as [Hnew%bool_decide_eq_true Hts%Z.ltb_lt]. destruct (rep_clock _ _ _ Hrep) as (Hca & Hclk & Hlow).
  eexists. split; [done|]. cbn [fst spec_step]. rewrite Hca.
  assert (Forall (fun e => txn_id_ e ≠ id) (n_versions n)) as Hother.
  { eapply Forall_impl; [apply (rep_entry _ _ _ Hrep)|]. intros e He <-. unfold entry_ok in He. rewrite Hnew in He.
    destruct (Committed e); [|naive_solver]. destruct He as [_ [?|(? & ? & _)]]; done. }
  apply rep_change with (a := a); cbn; try done; [lia| | |by right|by apply suits_other|].
  - intros id' Hne. by rewrite lookup_insert_ne.
  - unfold txn_ok. cbn. rewrite lookup_insert_eq. split_and!; [lia|done|lia|done].
  - intros v Hv. destruct (rep_lists _ _ _ Hrep) as (mine & rest & com & HL). pose proof (list_written _ _ _ _ _ HL) as Hw.
    unfold written in Hw. rewrite Hv in Hw. destruct (hold_txn _ _ _ _ _ Hw) as (w & ? & _). congruence.
Qed.

Lemma sim_read n a id r : rep old n a → exec entry_type pick n (Read id) = Some r → step_ok n a (Read id : event P) r.
Proof.
  intros Hrep (w & Hid & Hst & ->)%with_txn_Some. destruct (GetEntry_spec _ _ _ _ _ Hrep Hid Hst) as (e & He & Hv).
  unfold GetEntry. rewrite He. cbn [spec_step fst snd]. rewrite <- Hv. exists n. by destruct e.
Qed.

Lemma set_versions_id n : set_versions n (n_versions n) = n.
Proof. by destruct n. Qed.

Lemma sim_add n a id ct address p r :
  rep old n a → exec entry_type pick n (Add id ct address p) = Some r → step_ok n a (Add id ct address p) r.
Proof.
  intros Hrep (w & Hid & Hst & ->)%with_txn_Some. unfold AddEntry. rewrite (FindEntry_spec _ _ _ _ _ Hrep Hid Hst).
  cbn [res_bind spec_step]. unfold spec_find, spec_add. destruct (blocked a id) eqn:Hb.
  { eexists. split; [done|]. cbn. by rewrite set_versions_id. }
  destruct (visible a id) as [v|] eqn:Hv.
  - exists n. destruct (writes a id); cbn; (destruct ct; cbn; rewrite set_versions_id; done).
  - eexists. split; [by destruct (writes a id)|]. cbn. by eapply rep_push with (deleted := false).
Qed.

Lemma sim_drop n a id ct address p r :
  rep old n a → exec entry_type pick n (Drop id ct address p) = Some r → step_ok n a (Drop id ct address p) r.
Proof.
  intros Hrep (w & Hid & Hst & ->)%with_txn_Some. unfold DropEntry. rewrite (FindEntry_spec _ _ _ _ _ Hrep Hid Hst).
  cbn [res_bind spec_step]. unfold spec_find, spec_drop. destruct (blocked a id) eqn:Hb.
  { eexists. split; [done|]. cbn. by rewrite set_versions_id. }
  destruct (visible a id) as [v|] eqn:Hv.
  - destruct (writes a id) as [u|] eqn:Hw.
    + assert (u = Some v) as -> by (unfold visible in Hv; by rewrite Hw in Hv).
      destruct (rep_pop _ _ _ _ _ Hrep Hid Hst Hw) as (e & l & -> & Hl). by eexists.
    + assert (version_at (s_history a) (spec_begin a id) = Some v) as Hva by (unfold visible in Hv; by rewrite Hw in Hv).
      rewrite Hva. eexists. split; [done|]. cbn. eapply rep_push with (deleted := true); try done.
  - exists n. destruct (writes a id); cbn; (destruct ct; cbn; rewrite set_versions_id; done).
Qed.

Lemma sim_stamp n a id r : rep old n a → exec entry_type pick n (Stamp id) = Some r → step_ok n a (Stamp id : event P) r.
Proof.
  intros Hrep He. cbn in He. destruct (Z.ltb_spec (n_clock n + 1) UNCOMMIT_TS); [|done].
  apply with_txn_Some in He as (w & Hid & Hst & ->). destruct (rep_clock _ _ _ Hrep) as (Hca & Hclk & Hlow).
  destruct (rep_txn _ _ _ Hrep _ _ Hid) as [(Hb & Hsb & Hl & Hs) Hold]. unfold started in Hst.
  destruct (w_state w) eqn:Hstate; try done. eexists. split; [done|]. cbn [fst spec_step]. rewrite Hca.
  assert (running w = true) as Hr by (unfold running; by rewrite Hstate).
  apply rep_change with (a := a); cbn; try done; [lia| | | | |].
  - intros id' Hne. by rewrite lookup_insert_ne.
  - unfold txn_ok. cbn. rewrite lookup_insert_eq. split_and!; [lia|done|auto|lia|lia|done].
  - left. unfold state_of. by rewrite Hid, Hstate.
  - apply Forall_true. intros e. right. exists w. by rewrite Hs.
  - intros v _. by exists w.
Qed.

Lemma sim_end n a id w state installed :
  rep old n a → n_txns n !! id = Some w → state = TxnState.kCommitted ∨ state = TxnState.kRollbacked →
  w_installed w = installed → active w = false → (installed = true ↔ state = TxnState.kCommitted) →
  dead state = dead (w_state w) → Forall (fun e => txn_id_ e = id → installed = true) (n_versions n) →
  rep old (set_txn n id (mkWriter (w_begin w) state (w_commit w) installed)) a.
Proof.
  intros Hrep Hid Hst Hi Ha Hist Hd Hall. destruct (rep_clock _ _ _ Hrep) as (Hca & Hclk & Hlow).
  destruct (rep_txn _ _ _ Hrep _ _ Hid) as [(Hb & Hsb & Hl & Hs) Hold].
  apply (rep_change n a id _ (n_clock n) a); cbn; try done; [lia| | | |].
  - unfold txn_ok. cbn. split_and!; try done; [unfold running; by destruct Hst as [-> | ->]|].
    destruct Hst as [-> | ->]; [by apply Hist|]. destruct installed; [|done]. discriminate (proj1 Hist eq_refl).
  - left. unfold state_of. by rewrite Hid.
  - eapply Forall_impl; [exact Hall|]. intros e He. destruct (decide (txn_id_ e = id)) as [Heq|]; [|by left].
    right. exists w. rewrite Hi, (He Heq). done.
  - intros v Hv. destruct (rep_lists _ _ _ Hrep) as (mine & rest & com & HL). pose proof (list_written _ _ _ _ _ HL) as Hw.
    unfold written in Hw. rewrite Hv in Hw. destruct (hold_txn _ _ _ _ _ Hw) as (w0 & ? & ? & _). congruence.
Qed.

Lemma sim_finish n a id r : rep old n a → exec entry_type pick n (Finish id) = Some r → step_ok n a (Finish id : event P) r.
Proof.
  intros Hrep (w & Hid & Hg & ->)%with_txn_Some. apply andb_true_iff in Hg as [Hc Hi].
  eexists. split; [done|]. cbn [fst spec_step]. unfold committing in Hc. destruct (w_state w) eqn:Hst; try done.
  eapply sim_end; try done; [by left|unfold active, started, committing; by rewrite Hst, Hi|by rewrite Hst|].
  by apply Forall_true.
Qed.

Lemma sim_rolled_back n a id r :
  rep old n a → exec entry_type pick n (RolledBack id) = Some r → step_ok n a (RolledBack id : event P) r.
Proof.
  intros Hrep (w & Hid & Hg & ->)%with_txn_Some. apply andb_true_iff in Hg as [Hc Hall].
  eexists. split; [done|]. cbn [fst spec_step]. unfold rollbacking in Hc. destruct (w_state w) eqn:Hst; try done.
  destruct (rep_txn _ _ _ Hrep _ _ Hid) as [(_ & _ & _ & Hs) _]. rewrite Hst in Hs.
  eapply sim_end; try done; [by right|unfold active, started, committing; by rewrite Hst|by rewrite Hst|].
  apply Forall_forall. intros e He Heq. rewrite forallb_forall in Hall.
  specialize (Hall e). rewrite <- list_elem_of_In in Hall. specialize (Hall He). by rewrite Heq, Z.eqb_refl in Hall.
Qed.

Lemma sim_clean n a ts r : rep old n a → exec entry_type pick n (Clean ts) = Some r → step_ok n a (Clean ts : event P) r.
Proof.
  intros Hrep He. cbn in He. destruct (_ && _) eqn:Hg; [|done]. injection He as <-.
  apply andb_true_iff in Hg as [Hts%Z.leb_le Hrun%bool_decide_eq_true]. eexists. split; [done|]. by apply rep_clean.
Qed.

(** A step of the list never raises and is the specification's step. *)
Lemma simulation n a (ev : event P) r :
  rep old n a → (∀ id, ev = Begin id → ¬ old id) → exec entry_type pick n ev = Some r → step_ok n a ev r.
Proof.
  intros Hrep Hold He.
  destruct ev as [id|id|id ct address p|id ct address p|id|id|id|id|id|id|ts|address f];
    eauto using sim_begin, sim_read, sim_add, sim_drop, sim_stamp, sim_finish, sim_rolled_back, sim_clean.
  - apply with_txn_Some in He as (w & Hid & Hg & ->). apply andb_true_iff in Hg as [Hc Hi%negb_true_iff].
    destruct (rep_install _ _ _ _ Hrep Hid Hc Hi) as (l & -> & Hl). by eexists.
  - apply with_txn_Some in He as (w & Hid & Hg & ->). eexists. split; [done|]. by apply rep_abort.
  - apply with_txn_Some in He as (w & Hid & Hg & ->). eexists. split; [done|]. by eapply rep_remove.
  - injection He as <-. eexists. split; [done|]. by apply rep_inner.
Qed.
End Steps.
