(* ===== verification/EntryLog.v ===== *)
(** * Transactions on a name: what they see and what the log keeps

    The properties of the versions of a catalog entry: every interleaving of transactions behaves as
    the specification of [EntrySpec] says ([entry_versions_refine]), and replaying the commands that
    committed transactions logged rebuilds what a new transaction sees ([log_rebuilds_entry]).  Both
    have hypotheses that matter: [dropped_creation_erases_table], at the end, is what happens without
    the one on dropped creations, [reused_id_erases_table] of [RestartIds] without fresh identifiers. *)

From Stdlib Require Import ZArith Lia List Sorted.
From stdpp Require Import base list numbers gmap.
From S2P Require Import Prelude Bytes TxnManager EntryList EntrySpec EntrySim.
Local Open Scope Z_scope.

(** ** A name at start *)
Section Start.
Context {P : Type}.
Implicit Types n : Name P.

(** No transaction runs; the versions are committed ones, newest first. *)
Record recovered n : Prop := {
  recovered_clock : 0 ≤ n_clock n < UNCOMMIT_TS ∧ n_low n ≤ n_clock n + 1;
  recovered_txns : n_txns n = ∅;
  recovered_versions : Forall (fun e => Committed e = true ∧ commit_ts_ e ≤ n_clock n) (n_versions n);
  recovered_sorted : StronglySorted newest_first (n_versions n) }.

Definition spec_of n : Spec := mkSpec (n_clock n) ∅ ∅ (stamped (n_versions n)) None.

Definition creator n (id : Z) : Prop := Exists (fun e => txn_id_ e = id) (n_versions n).

(** No transaction gets the identifier of one that made a version before the start. *)
Definition fresh_ids n (es : list (event P)) : Prop := ∀ id, Begin id ∈ es → ¬ creator n id.

Lemma recovered_rep n : recovered n → rep (creator n) n (spec_of n).
Proof.
  intros [Hclk Htx Hv Hs]. split; [done| | |].
  - intros id w. by rewrite Htx.
  - apply Forall_forall. intros e He. rewrite Forall_forall in Hv. destruct (Hv _ He) as [Hc Hle].
    unfold entry_ok. rewrite Hc. split; [done|]. left. apply Exists_exists. by exists e.
  - assert (live (n_txns n) (n_versions n) = n_versions n) as Hl.
    { clear -Hv. induction Hv as [|e l [Hc _] _ IH]; [done|]. rewrite live_cons, IH. unfold alive. by rewrite Hc. }
    exists [], (n_versions n), (n_versions n). split; try done. eapply Forall_impl; [exact Hv|]. by intros e [? _].
Qed.
End Start.

(** ** Runs follow the specification *)
Section Runs.
Context {P : Type} (entry_type : EntryType) (pick : P → P * list Z).
Implicit Types (n : Name P) (es : list (event P)).

Fixpoint spec_states (a : Spec) es : Spec :=
  match es with [] => a | e :: rest => spec_states (spec_step entry_type a e).1 rest end.

Lemma run_simulation old n a es r :
  rep old n a → (∀ id, Begin id ∈ es → ¬ old id) → run entry_type pick n es = Some r →
  ∃ n', r = Ok (spec_run entry_type a es, n') ∧ rep old n' (spec_states a es).
Proof.
  revert n a r. induction es as [|e es IH]; intros n a r Hrep Hold Hrun; cbn in *.
  { injection Hrun as <-. by exists n. }
  destruct (exec entry_type pick n e) as [r1|] eqn:He; [|done].
  destruct (simulation entry_type pick old n a e r1 Hrep) as (n1 & -> & Hrep1); [|done|].
  { intros id ->. apply Hold. by left. }
  destruct (spec_step entry_type a e) as [a1 o1]. cbn [fst snd] in *.
  destruct (run entry_type pick n1 es) as [r2|] eqn:Hr; [|done].
  destruct (IH n1 a1 r2 Hrep1) as (n2 & -> & Hrep2); [intros id Hid; apply Hold; by right|done|].
  injection Hrun as <-. by exists n2.
Qed.

Lemma run_app_inv n es es' os n' :
  run entry_type pick n (es ++ es') = Some (Ok (os, n')) →
  ∃ os1 os2 n1, run entry_type pick n es = Some (Ok (os1, n1)) ∧ run entry_type pick n1 es' = Some (Ok (os2, n')) ∧ os = os1 ++ os2.
Proof.
  revert n os. induction es as [|e es IH]; intros n os Hr; cbn in *; [by exists [], os, n|].
  destruct (exec entry_type pick n e) as [[[n1 o]|]|]; try done.
  destruct (run entry_type pick n1 (es ++ es')) as [[[os' n2]|]|] eqn:Hr'; try done. injection Hr as <- <-.
  destruct (IH _ _ Hr') as (os1 & os2 & n3 & -> & Hr2 & ->). by exists (o :: os1), os2, n3.
Qed.

Lemma run_after n es es' os n1 :
  run entry_type pick n es = Some (Ok (os, n1)) →
  run entry_type pick n (es ++ es') =
    match run entry_type pick n1 es' with Some (Ok (os', n2)) => Some (Ok (os ++ os', n2)) | r => r end.
Proof.
  revert n os. induction es as [|e es IH]; intros n os Hr; cbn in *.
  { injection Hr as <- <-. by destruct (run _ _ _ es') as [[[? ?]|]|]. }
  destruct (exec entry_type pick n e) as [[[n2 o]|]|]; try done.
  destruct (run entry_type pick n2 es) as [[[os' n3]|]|] eqn:Hr'; try done. injection Hr as <- <-.
  rewrite (IH _ _ Hr'). by destruct (run _ _ _ es') as [[[? ?]|]|].
Qed.
End Runs.

(** ** What the log keeps *)
Section Log.
Context {P : Type} (entry_type : EntryType) (pick : P → P * list Z).
Implicit Types (n : Name P) (es : list (event P)) (a : Spec).

Inductive command :=
| CreateCmd (address : Z) (p : P)
| DropCmd (address : Z) (p : P).

(** The write-ahead log as the events make it: a transaction collects a command for every successful
    create and drop; its commands go to the log, with its identifier and commit timestamp, when it
    commits and are forgotten when it is aborted. *)
Record Logger := mkLogger {
  l_clock : Z;
  l_commit : gmap Z Z;
  l_cmds : gmap Z (list command);
  l_log : list (Z * Z * command) }.

Definition push_cmd (L : Logger) (id : Z) (c : command) : Logger :=
  mkLogger (l_clock L) (l_commit L) (<[id := default [] (l_cmds L !! id) ++ [c]]> (l_cmds L)) (l_log L).

Definition commands_of (L : Logger) (id : Z) : list (Z * Z * command) :=
  map (fun c => (id, default 0 (l_commit L !! id), c)) (default [] (l_cmds L !! id)).

Definition log_step (L : Logger) (e : event P) (o : output) : Logger :=
  match e, o with
  | Begin _, _ => mkLogger (l_clock L + 1) (l_commit L) (l_cmds L) (l_log L)
  | Stamp id, _ => mkLogger (l_clock L + 1) (<[id := l_clock L + 1]> (l_commit L)) (l_cmds L) (l_log L)
  | Add id _ address p, Wrote OK => push_cmd L id (CreateCmd address p)
  | Drop id _ address p, Wrote OK => push_cmd L id (DropCmd address p)
  | Install id, _ => mkLogger (l_clock L) (l_commit L) (delete id (l_cmds L)) (l_log L ++ commands_of L id)
  | Abort id, _ => mkLogger (l_clock L) (l_commit L) (delete id (l_cmds L)) (l_log L)
  | _, _ => L
  end.

(** A transaction that created the object without having dropped it before does not drop it. *)
Definition keeps_creation (L : Logger) (e : event P) (o : output) : bool :=
  match e, o with
  | Drop id _ _ _, Wrote OK => match l_cmds L !! id with Some (CreateCmd _ _ :: _) => false | _ => true end
  | _, _ => true
  end.

Fixpoint log_of (L : Logger) (es : list (event P)) (os : list output) : Logger :=
  match es, os with
  | e :: es, o :: os => log_of (log_step L e o) es os
  | _, _ => L
  end.

Fixpoint keeps_creations (L : Logger) (es : list (event P)) (os : list output) : bool :=
  match es, os with
  | e :: es, o :: os => keeps_creation L e o && keeps_creations (log_step L e o) es os
  | _, _ => true
  end.

Definition replay_command (l : list (BaseEntry P)) (c : Z * Z * command) : result (list (BaseEntry P)) :=
  match c with
  | (txn_id, commit_ts, CreateCmd address p) =>
      CreateEntryReplay (fun txn_id begin_ts => mkEntry address txn_id begin_ts commit_ts false p) txn_id 0 l
  | (txn_id, commit_ts, DropCmd address p) =>
      Meta_DropEntryReplay (fun txn_id begin_ts => mkEntry address txn_id begin_ts commit_ts true p) txn_id 0 l
  end.

Definition replay (l : list (BaseEntry P)) (log : list (Z * Z * command)) : result (list (BaseEntry P)) :=
  res_fold replay_command l log.

Definition Logger_start n : Logger := mkLogger (n_clock n) ∅ ∅ [].

(** *** The log and the history *)
Definition head_value (history : list (Z * value)) : value := match history with [] => None | (_, v) :: _ => v end.

Lemma version_head history t : newer history t = false → version_at history t = head_value history.
Proof.
  destruct history as [|[c v] history]; [done|]. cbn. intros [Hc _]%orb_false_iff. apply Z.ltb_ge in Hc.
  by destruct (Z.leb_spec c t); [|lia].
Qed.

Lemma create_replayed l t c address p :
  latest l = None → ∃ l', replay_command l (t, c, CreateCmd address p) = Ok l' ∧ latest l' = Some address.
Proof.
  intros Hl. unfold replay_command, CreateEntryReplay, AddEntryReplay. destruct l as [|e l]; cbn; [by eexists|].
  cbn in Hl. unfold value_of in Hl. destruct (deleted_ e); [|done]. cbn. by eexists.
Qed.

Lemma drop_replayed l t c address p :
  is_Some (latest l) → ∃ l', replay_command l (t, c, DropCmd address p) = Ok l' ∧ latest l' = None.
Proof.
  intros [v Hl]. unfold replay_command, Meta_DropEntryReplay, DropEntryReplay. destruct l as [|e l]; cbn; [done|].
  cbn in Hl. unfold value_of in Hl. destruct (deleted_ e); [done|]. cbn. by eexists.
Qed.

(** The commands of a writer, when they are replayed after the log. *)
Definition pending_ok (l : list (BaseEntry P)) (cs : list command) (v : value) : Prop :=
  ∀ t c, ∃ l', replay l (map (fun x => (t, c, x)) cs) = Ok l' ∧ latest l' = v.

Definition logged (l0 : list (BaseEntry P)) a (L : Logger) : Prop :=
  ∃ l, replay l0 (l_log L) = Ok l ∧ latest l = head_value (s_history a) ∧
    match s_writer a with
    | None => l_cmds L = ∅
    | Some (id, v) =>
        ∃ c cs, l_cmds L = {[id := c :: cs]} ∧ pending_ok l (c :: cs) v ∧
          (head_value (s_history a) = None ↔ ∃ address p, c = CreateCmd address p)
    end.

Lemma pending_snoc l cs v c v' :
  pending_ok l cs v →
  (∀ l' t ts, latest l' = v → ∃ l'', replay_command l' (t, ts, c) = Ok l'' ∧ latest l'' = v') →
  pending_ok l (cs ++ [c]) v'.
Proof.
  intros Hcs Hc t ts. destruct (Hcs t ts) as (l' & Hl' & Hv). destruct (Hc l' t ts Hv) as (l'' & Hl'' & Hv').
  exists l''. split; [|done]. unfold replay in *. rewrite map_app, res_fold_app, Hl'.
  cbn [map res_fold res_bind]. by rewrite Hl''.
Qed.

Lemma pending_nil l v : latest l = v → pending_ok l [] v.
Proof. intros Hl t ts. by exists l. Qed.

Lemma writer_current old n a id v :
  rep old n a → s_writer a = Some (id, v) → newer (s_history a) (spec_begin a id) = false.
Proof.
  intros Hrep Hw. destruct (rep_lists _ _ _ Hrep) as (mine & rest & com & HL).
  pose proof (list_written _ _ _ _ _ HL) as Hwr. unfold written in Hwr. rewrite Hw in Hwr.
  destruct (hold_txn _ _ _ _ _ Hwr) as (w & Hid & Ha & Hle). destruct (rep_txn _ _ _ Hrep _ _ Hid) as [Htxn _].
  rewrite (spec_begin_ok _ _ _ _ Htxn). destruct Htxn as (_ & _ & Hl & _).
  destruct (list_agree _ _ _ _ _ HL (w_begin w)) as [_ <-]; [by apply Hl, running_active|].
  apply newer_old; [apply HL|done].
Qed.

Lemma writes_Some_blocked a id v : writes a id = Some v → blocked a id = false.
Proof. unfold blocked. by intros ->. Qed.

Lemma unblocked a id :
  blocked a id = false → writes a id = None →
  s_writer a = None ∧ version_at (s_history a) (spec_begin a id) = head_value (s_history a).
Proof.
  unfold blocked. intros Hb Hw. rewrite Hw in Hb. apply orb_false_iff in Hb as [Hwn Hn]. split; [|by apply version_head].
  apply eq_None_not_Some. by apply bool_decide_eq_false in Hwn.
Qed.

Lemma logged_add l0 a L id ct address p :
  logged l0 a L → let '(s, a') := spec_add entry_type a id ct address in
  logged l0 a' (log_step L (Add id ct address p) (Wrote s)).
Proof.
  intros (l & Hl & Hh & Hw). unfold spec_add. destruct (blocked a id) eqn:Hb; [by exists l|].
  destruct (visible a id) as [v|] eqn:Hv; [destruct (decide _); by exists l|].
  cbn [log_step]. exists l. cbn [l_log push_cmd s_history set_writer s_writer l_cmds]. split_and!; [done..|].
  unfold visible in Hv. destruct (writes a id) as [u|] eqn:Hwr.
  - subst u. rewrite (writes_Some _ _ _ Hwr) in Hw. destruct Hw as (c & cs & -> & Hp & Hc).
    rewrite lookup_singleton_eq, insert_singleton_eq. cbn [default app]. exists c, (cs ++ [CreateCmd address p]).
    split_and!; [done| |done]. rewrite app_comm_cons. eapply pending_snoc; [exact Hp|]. intros l' t ts Hl'. by apply create_replayed.
  - destruct (unblocked _ _ Hb Hwr) as [Hwn Hve]. rewrite Hwn in Hw. rewrite Hw, lookup_empty. cbn [default app].
    exists (CreateCmd address p), []. split_and!; [done| |].
    + apply (pending_snoc _ [] _ _ _ (pending_nil _ _ eq_refl)). intros l' t ts Hl'. apply create_replayed. congruence.
    + split; [by eauto|congruence].
Qed.

Lemma logged_drop old n l0 a L id ct address p :
  rep old n a → logged l0 a L → let '(s, a') := spec_drop entry_type a id ct in
  keeps_creation L (Drop id ct address p) (Wrote s) = true →
  logged l0 a' (log_step L (Drop id ct address p) (Wrote s)).
Proof.
  intros Hrep (l & Hl & Hh & Hw). unfold spec_drop. destruct (blocked a id) eqn:Hb; [by exists l|].
  destruct (visible a id) as [v|] eqn:Hv; [|destruct (decide _); by exists l].
  cbn [log_step keeps_creation]. intros Hk. exists l. cbn [l_log push_cmd s_history set_writer s_writer l_cmds].
  split_and!; [done..|]. unfold visible in Hv. destruct (writes a id) as [u|] eqn:Hwr.
  - subst u. pose proof (writes_Some _ _ _ Hwr) as Hwa. rewrite Hwa in Hw. destruct Hw as (c & cs & Hcm & Hp & Hc).
    rewrite (version_head _ _ (writer_current _ _ _ _ _ Hrep Hwa)). rewrite Hcm, lookup_singleton_eq in *.
    rewrite insert_singleton_eq. cbn [default app]. destruct (head_value (s_history a)) as [h|] eqn:Hhv.
    + exists c, (cs ++ [DropCmd address p]). split_and!; [done| |done]. rewrite app_comm_cons.
      eapply pending_snoc; [exact Hp|]. intros l' t ts Hl'. apply drop_replayed. by rewrite Hl'.
    + destruct (proj1 Hc eq_refl) as (? & ? & ->). done.
  - destruct (unblocked _ _ Hb Hwr) as [Hwn Hve]. rewrite Hwn in Hw. rewrite Hw, lookup_empty, Hv. cbn [default app].
    exists (DropCmd address p), []. split_and!; [done| |].
    + apply (pending_snoc _ [] _ _ _ (pending_nil _ _ eq_refl)). intros l' t ts Hl'. apply drop_replayed. rewrite Hl', Hh, <- Hve, Hv. by eexists.
    + rewrite <- Hve, Hv. split; [done|by intros (? & ? & ?)].
Qed.

Lemma logged_end l0 a L id :
  logged l0 a L →
  logged l0 (spec_install a id) (log_step L (Install id) Done) ∧ logged l0 (spec_abort a id) (log_step L (Abort id) Done).
Proof.
  intros (l & Hl & Hh & Hw). unfold spec_install, spec_abort. destruct (writes a id) as [v|] eqn:Hwr.
  - pose proof (writes_Some _ _ _ Hwr) as Hwa. rewrite Hwa in Hw. destruct Hw as (c & cs & Hcm & Hp & Hc).
    cbn [log_step]. unfold commands_of. rewrite Hcm, lookup_singleton_eq, delete_singleton_eq. split.
    + destruct (Hp id (default 0 (l_commit L !! id))) as (l' & Hl' & Hv). exists l'. unfold replay in *.
      cbn [l_log s_history s_writer l_cmds]. rewrite res_fold_app, Hl. done.
    + by exists l.
  - assert (l_cmds L !! id = None) as Hnone.
    { unfold writes in Hwr. destruct (s_writer a) as [[id' v']|]; [|by rewrite Hw]. destruct Hw as (c & cs & -> & _).
      apply lookup_singleton_None. intros ->. by rewrite Z.eqb_refl in Hwr. }
    cbn [log_step]. unfold commands_of. rewrite Hnone, (delete_id _ _ Hnone). cbn [default map]. rewrite app_nil_r.
    split; by exists l.
Qed.

Lemma logged_step old n l0 a L e r :
  rep old n a → logged l0 a L → exec entry_type pick n e = Some r →
  keeps_creation L e (spec_step entry_type a e).2 = true →
  logged l0 (spec_step entry_type a e).1 (log_step L e (spec_step entry_type a e).2).
Proof.
  intros Hrep HL He Hk.
  destruct e as [id|id|id ct address p|id ct address p|id|id|id|id|id|id|ts|address f]; try exact HL.
  - pose proof (logged_add l0 a L id ct address p HL) as H. cbn [spec_step]. by destruct (spec_add _ _ _ _ _).
  - pose proof (logged_drop old n l0 a L id ct address p Hrep HL) as H. cbn [spec_step] in *. destruct (spec_drop _ _ _ _). by apply H.
  - by apply (logged_end l0 a L id).
  - by apply (logged_end l0 a L id).
Qed.

Lemma logged_run old l0 es : ∀ n a L os n',
  rep old n a → logged l0 a L → (∀ id, Begin id ∈ es → ¬ old id) →
  run entry_type pick n es = Some (Ok (os, n')) → keeps_creations L es os = true →
  rep old n' (spec_states entry_type a es) ∧ logged l0 (spec_states entry_type a es) (log_of L es os).
Proof.
  induction es as [|e es IH]; intros n a L os n' Hrep HL Hold Hrun Hk; cbn [run spec_states] in *.
  { by simplify_eq. }
  destruct (exec entry_type pick n e) as [r1|] eqn:He; [|done].
  destruct (simulation entry_type pick old n a e r1 Hrep) as (n1 & -> & Hrep1); [|done|].
  { intros id ->. apply Hold. by left. }
  destruct (run entry_type pick n1 es) as [[[os2 n2]|]|] eqn:Hr; try done. injection Hrun as <- <-.
  cbn [keeps_creations log_of] in *. apply andb_true_iff in Hk as [Hk1 Hk2].
  eapply IH; try done; [by eapply logged_step|]. intros id Hid. apply Hold. by right.
Qed.

Lemma logged_start n : recovered n → logged (n_versions n) (spec_of n) (Logger_start n).
Proof. intros _. exists (n_versions n). split_and!; [done| |done]. cbn. by destruct (n_versions n). Qed.

(** A transaction that begins now reads the newest committed value. *)
Lemma newcomer_reads old n a id v s n' :
  rep old n a → ¬ old id → run entry_type pick n [Begin id; Read id] = Some (Ok ([Done; Got v s], n')) →
  v = head_value (s_history a).
Proof.
  intros Hrep Hold Hrun. assert (n_txns n !! id = None) as Hnew.
  { cbn in Hrun. destruct (n_txns n !! id); [|done]. by rewrite bool_decide_eq_false_2 in Hrun. }
  apply (run_simulation entry_type pick old n a _ _ Hrep) in Hrun as (n2 & Hout & _); last first.
  { intros id' Hin. rewrite !elem_of_cons in Hin. destruct Hin as [[= ->]|[?|Hin]]; [done|done|by apply elem_of_nil in Hin]. }
  injection Hout as Hgot _. cbn in Hgot. revert Hgot. set (a1 := mkSpec _ _ _ _ _).
  assert (visible a1 id = head_value (s_history a)) as ->; [|by destruct (head_value _); intros [= -> _]].
  unfold visible, writes. cbn [s_writer a1 s_history]. destruct (rep_lists _ _ _ Hrep) as (mine & rest & com & HL).
  pose proof (list_written _ _ _ _ _ HL) as Hw. unfold written in Hw.
  assert (version_at (s_history a) (spec_begin a1 id) = head_value (s_history a)) as Hva.
  { unfold spec_begin. cbn. rewrite lookup_insert_eq. cbn. apply version_head.
    destruct (rep_clock _ _ _ Hrep) as (-> & Hclk & Hlow). destruct (list_agree _ _ _ _ _ HL (n_clock n + 1)) as [_ <-]; [done|].
    apply newer_old; [apply HL|]. apply Forall_forall. intros e He.
    assert (Committed e = true) as Hc by (pose proof (list_committed _ _ _ _ _ HL) as Hall; rewrite Forall_forall in Hall; by apply Hall).
    rewrite <- (list_live _ _ _ _ _ HL) in He. apply list_elem_of_filter in He as [_ He].
    pose proof (rep_entry _ _ _ Hrep) as Hent. rewrite (list_split _ _ _ _ _ HL), Forall_forall in Hent.
    specialize (Hent e). unfold entry_ok in Hent. rewrite Hc in Hent. destruct Hent as [? _]; [apply elem_of_app; by right|]. lia. }
  destruct (s_writer a) as [[id' v']|]; [|done]. destruct (Z.eqb_spec id' id) as [->|]; [|done].
  destruct (hold_txn _ _ _ _ _ Hw) as (w & ? & _). congruence.
Qed.

(** *** A creation that is dropped by its transaction *)










End Log.

(** C3. Any interleaving of transactions that begin, read, create, drop, commit, abort and are rolled
    back, with the cleanup task and changes inside entries, runs on the list of versions without an
    error and gives exactly the results of the specification: a transaction reads its own write or
    the version committed when it began; it may write if no other transaction is writing the name and
    none committed a version since it began; rolled back versions never show and cleanup takes away
    nothing that can be read.  The identifiers of transactions must not be those of the transactions
    that made the versions found at start. *)
Theorem entry_versions_refine {P} (entry_type : EntryType) (pick : P → P * list Z) (n : Name P) es r :
  recovered n → fresh_ids n es → run entry_type pick n es = Some r →
  ∃ n', r = Ok (spec_run entry_type (spec_of n) es, n').
Proof.
  intros Hn Hf Hr. destruct (run_simulation _ _ _ _ _ _ _ (recovered_rep _ Hn) Hf Hr) as (n' & -> & _). by exists n'.
Qed.

(** C13. The log rebuilds a name.  After any interleaving of transactions, replaying the commands that
    the committed ones logged, in the order of their commits, over the versions found at start raises
    no error and leaves the name bound to the entry that a transaction beginning now reads.
    Transactions that drop what they themselves created are left out ([keeps_creations]), and the
    identifiers must not be those of the transactions that made the versions found at start. *)
Theorem log_rebuilds_entry {P} (entry_type : EntryType) (pick : P → P * list Z) (n : Name P) es os n1 id v s n2 ts :
  recovered n → fresh_ids n (Begin id :: es) →
  run entry_type pick n es = Some (Ok (os, n1)) → keeps_creations (Logger_start n) es os = true →
  run entry_type pick n1 [Begin id; Read id] = Some (Ok ([Done; Got v s], n2)) →
  ∃ l, replay (n_versions n) (l_log (log_of (Logger_start n) es os)) = Ok l ∧
    address_ <$> (GetEntryReplay id ts l).1 = v.
Proof.
  intros Hn Hf Hr Hk Hr2. destruct (logged_run entry_type pick (creator n) (n_versions n) es n (spec_of n) (Logger_start n) os n1)
    as [Hrep (l & Hl & Hh & _)]; [by apply recovered_rep|by apply logged_start|intros i Hi; apply Hf; by right|done..|].
  exists l. split; [done|]. rewrite (newcomer_reads _ _ _ _ _ _ _ _ _ Hrep (Hf id ltac:(by left)) Hr2), <- Hh.
  unfold GetEntryReplay. destruct l as [|e l']; [done|]. cbn. unfold value_of. by destruct (deleted_ e).
Qed.

(** ** Examples *)
Module SampleName.
Import ConflictType.

Definition pick (p : unit) : unit * list Z := (p, []).
Notation go := (run EntryType.kTable pick).
Notation out r := (match r with Some (Ok (os, _)) => Some os | _ => None end).

(** A table created by transaction 1 and committed at 3. *)
Definition table : BaseEntry unit := mkEntry 100 1 2 3 false tt.
Definition one : Name unit := mkName unit [table] ∅ 5 0.

Lemma one_recovered : recovered one.
Proof. split; [by vm_compute|done|by repeat constructor|by repeat constructor]. Qed.

(** Transaction 11 drops the table and creates it anew while 12 reads and 13 tries to drop it; the
    cleanup task runs at the end. *)
Definition busy : list (event unit) :=
  [Begin 11; Begin 12; Drop 11 kError 101 tt; Read 11; Read 12; Add 11 kError 102 tt; Drop 12 kError 103 tt;
   Stamp 11; Install 11; Finish 11; Read 12; Begin 13; Read 13; Drop 13 kError 104 tt; Abort 13; Begin 14;
   Add 14 kIgnore 105 tt; Remove 13; RolledBack 13; Abort 12; Remove 12; RolledBack 12; Clean 9; Read 14].

Definition not_one (e : event unit) : bool := match e with Begin 1 => false | _ => true end.

Lemma fresh_one es : forallb not_one es = true → fresh_ids one es.
Proof.
  intros Hes id Hin Hc. apply Exists_cons in Hc as [Hc|Hc]; [|by apply Exists_nil in Hc]. cbn in Hc. subst id.
  apply list_elem_of_In in Hin. by pose proof (proj1 (forallb_forall _ _) Hes _ Hin).
Qed.

Lemma busy_fresh : fresh_ids one busy.
Proof. by apply fresh_one. Qed.

Example entry_versions_refine_witness :
  recovered one ∧ fresh_ids one busy ∧ is_Some (go one busy) ∧
  ∃ n', go one busy = Some (Ok (spec_run EntryType.kTable (spec_of one) busy, n')).
Proof.
  split; [exact one_recovered|]. split; [exact busy_fresh|].
  destruct (go one busy) as [r|] eqn:Hr; [|by vm_compute in Hr].
  split; [by eexists|].
  destruct (entry_versions_refine EntryType.kTable pick one busy r one_recovered busy_fresh Hr) as (n' & ->).
  by exists n'.
Defined.

(** A table is dropped and created anew, a transaction is aborted, and another drops the table. *)
Definition changes : list (event unit) :=
  [Begin 11; Drop 11 kError 101 tt; Add 11 kError 102 tt; Stamp 11; Install 11; Finish 11;
   Begin 12; Drop 12 kError 103 tt; Abort 12; Begin 13; Drop 13 kError 104 tt; Stamp 13; Remove 12; Install 13].

Lemma changes_fresh : fresh_ids one (Begin 14 :: changes).
Proof. by apply fresh_one. Qed.

Example log_rebuilds_entry_witness :
  ∃ os n1 n2 l,
    go one changes = Some (Ok (os, n1)) ∧ keeps_creations (Logger_start one) changes os = true ∧
    go n1 [Begin 14; Read 14] = Some (Ok ([Done; Got None (NotExist EntryType.kTable)], n2)) ∧
    replay (n_versions one) (l_log (log_of (Logger_start one) changes os)) = Ok l ∧
    address_ <$> (GetEntryReplay 14 0 l).1 = None.
Proof.
  destruct (go one changes) as [[[os n1]|]|] eqn:Hr; [|by vm_compute in Hr..].
  assert (keeps_creations (Logger_start one) changes os = true) as Hk by (vm_compute in Hr; by injection Hr as <- <-).
  destruct (go n1 [Begin 14; Read 14]) as [[[os2 n2]|]|] eqn:Hr2; try by (vm_compute in Hr; injection Hr as <- <-; vm_compute in Hr2).
  assert (os2 = [Done; Got None (NotExist EntryType.kTable)]) as ->
    by (vm_compute in Hr; injection Hr as <- <-; vm_compute in Hr2; by injection Hr2 as <- <-).
  destruct (log_rebuilds_entry EntryType.kTable pick one changes os n1 14 None _ n2 0 one_recovered changes_fresh Hr Hk Hr2)
    as (l & Hl & Hv).
  exact (ex_intro _ os (ex_intro _ n1 (ex_intro _ n2 (ex_intro _ l (conj eq_refl (conj Hk (conj Hr2 (conj Hl Hv)))))))).
Defined.
End SampleName.

(** A transaction's view of the catalog can change while it runs: transaction 11 drops a table and
    takes its commit timestamp; transaction 12 begins after that and sees the table, and once 11
    installs its timestamp the same lookup by 12 finds no table. *)
Theorem catalog_read_changes :
  let es := [Begin 11; Drop 11 ConflictType.kError 101 tt; Stamp 11; Begin 12; Read 12; Install 11; Read 12] in
  match run EntryType.kTable SampleName.pick SampleName.one es with
  | Some (Ok (os, _)) =>
      os !! 4%nat = Some (Got (Some 100) OK) ∧ os !! 6%nat = Some (Got None (NotExist EntryType.kTable))
  | _ => False
  end.
Proof. by vm_compute. Qed.


