(* ===== verification/RestartIds.v ===== *)
(** * Transaction identifiers after a restart

    [Storage::Init] ([storage/storage.cpp]) replays the log and starts the transaction manager from
    what [WalManager::ReplayWalFile] returns.  The identifiers start again at that of the last replayed
    entry, or at 0 when the checkpoint is the end of the log, whatever the identifiers of the versions
    loaded from the checkpoint are.  [reused_id_erases_table] is what this does to a name whose newest
    version has a larger identifier; [entry_versions_refine] of [EntryLog] excludes it by its
    hypothesis [fresh_ids]. *)

From Stdlib Require Import ZArith Lia List Sorted.
From stdpp Require Import base list numbers gmap.
From S2P Require Import Prelude Bytes WalEntry WalReplay TxnManager TxnStore TxnStoreSpec EntryList EntrySpec EntryLog.
Local Open Scope Z_scope.

Section Restart.
Context {B : Type} `{Ops : !TxnStoreOps}.
Notation TxnManager := (@TxnManager B Ops).

(** The transaction manager that [Storage::Init] makes and starts after the log was replayed. *)
Definition restarted (outcome : ReplayOutcome (B := B)) (system_start_ts : Z) (enable_compaction : bool) : TxnManager :=
  let next_txn_id := match outcome with Replayed _ _ _ last_txn_id _ => last_txn_id | InitNewCatalog => 0 end in
  Start (TxnManager_new next_txn_id system_start_ts enable_compaction).

(** [k] more transactions begin; the result is the identifier of the last. *)
Fixpoint begin_txns (k : nat) (m : TxnManager) : result (Z * TxnManager) :=
  match k with
  | O => Ok (next_txn_id_ m, m)
  | S k => let? '(_, m) := BeginTxn m in begin_txns k m
  end.

Lemma begin_txns_id k : ∀ m,
  is_running_ m = true → 0 ≤ next_txn_id_ m → next_txn_id_ m + Z.of_nat k < 2 ^ 64 →
  ∃ m', begin_txns k m = Ok (next_txn_id_ m + Z.of_nat k, m').
Proof.
  induction k as [|k IH]; intros m Hr Hlo Hhi; cbn [begin_txns].
  { exists m. do 2 f_equal. lia. }
  unfold BeginTxn. rewrite Hr. cbn [negb]. rewrite cast_id by (unfold in_range; eval_range; change (2 ^ 64) with 18446744073709551616 in *; lia). unfold tick. cbn [res_bind].
  edestruct IH as (m' & Hm'); last first; [exists m'; rewrite Hm'; do 2 f_equal; cbn; lia|..]; cbn; [lia..|done].
Qed.

End Restart.

(** ** A name of the recovered catalog *)
Section Name.
Context {P : Type} (entry_type : EntryType) (pick : P → P * list Z).
Implicit Types l : list (BaseEntry P).

Definition got (v : option Z) : output :=
  match v with Some v => Got (Some v) OK | None => Got None (NotExist entry_type) end.

Lemma read_latest id t l :
  Forall (fun e => Committed e = true ∧ commit_ts_ e ≤ t) l →
  ∃ r s, GetEntry entry_type id t l = Ok (r, s) ∧ Got (address_ <$> r) s = got (latest l).
Proof.
  intros Hl. unfold GetEntry. destruct Hl as [|e l [Hc Hle] _]; cbn; [by eexists _, _|].
  rewrite Hc. rewrite (proj2 (Z.leb_le _ _)) by done. unfold value_of. destruct (deleted_ e); cbn; by eexists _, _.
Qed.
(** The name at restart: no transaction runs and the clock is at [system_start_ts]. *)
Definition restarted_name (versions : list (BaseEntry P)) (system_start_ts : Z) : Name P :=
  mkName P versions ∅ system_start_ts 0.

Lemma read_begun (n : Name P) id :
  n_txns n !! id = None → n_clock n + 1 < UNCOMMIT_TS →
  Forall (fun e => Committed e = true ∧ commit_ts_ e ≤ n_clock n) (n_versions n) →
  ∃ n', run entry_type pick n [Begin id; Read id] = Some (Ok ([Done; got (latest (n_versions n))], n')) ∧
    n_versions n' = n_versions n.
Proof.
  intros Hid Hts Hv. cbn [run exec]. rewrite bool_decide_eq_true_2 by done.
  rewrite (proj2 (Z.ltb_lt _ _)) by done. cbn [andb]. unfold with_txn. cbn [n_txns n_versions]. rewrite lookup_insert_eq. cbn [started w_state w_begin].
  destruct (read_latest id (n_clock n + 1) (n_versions n)) as (r & s & -> & Hs).
  { eapply Forall_impl; [exact Hv|]. intros e [? ?]. split; [done|lia]. }
  cbn [res_bind fst snd]. rewrite Hs. by eexists.
Qed.

Ltac name_cbn :=
  unfold set_txn, set_versions;
  cbn [n_txns n_versions n_clock n_low w_begin w_state w_commit started committing rollbacking orb andb].

(** A transaction with the identifier of the newest version drops the entry and is rolled back. *)
Definition dropped_and_aborted (id : Z) conflict_type (address : Z) (p : P) : list (event P) :=
  [Begin id; Drop id conflict_type address p; Abort id; Remove id; RolledBack id].

Lemma removed_by_id (e : BaseEntry P) versions id :
  txn_id_ e = id → DeleteEntry id (e :: versions) = DeleteEntry id versions.
Proof. intros He. unfold DeleteEntry. rewrite filter_cons_False; [done|]. intros Hn. by apply Hn. Qed.

Lemma reused_drop (e : BaseEntry P) rest ts ct address p :
  recovered (restarted_name (e :: rest) ts) → ts + 1 < UNCOMMIT_TS → deleted_ e = false →
  ∃ txns,
    run entry_type pick (restarted_name (e :: rest) ts) (dropped_and_aborted (txn_id_ e) ct address p)
    = Some (Ok ([Done; Wrote OK; Done; Done; Done],
                mkName P (DeleteEntry (txn_id_ e) rest) txns (ts + 1) 0)) ∧
    ∀ id', id' ≠ txn_id_ e → txns !! id' = None.
Proof.
  intros [_ _ Hv _] Hts Hlive. cbn in Hv. apply Forall_cons in Hv as [[Hc Hle] _].
  unfold restarted_name, dropped_and_aborted. cbn [run exec n_txns n_clock]. rewrite bool_decide_eq_true_2 by apply lookup_empty.
  rewrite (proj2 (Z.ltb_lt _ _)) by done. cbn [andb]. unfold with_txn. cbn [n_txns n_versions]. rewrite lookup_insert_eq. cbn [started w_state w_begin].
  unfold DropEntry. cbn [FindEntry]. rewrite Hc, (proj2 (Z.leb_le _ _)), Hlive by lia. cbn [res_bind fst snd].
  name_cbn. rewrite lookup_insert_eq. name_cbn. rewrite insert_insert_eq, lookup_insert_eq. name_cbn. rewrite lookup_insert_eq. name_cbn.
  rewrite removed_by_id by done. rewrite removed_by_id by done.
  rewrite (proj2 (forallb_forall _ _)); [|intros v Hin; apply list_elem_of_In, list_elem_of_filter in Hin as [Hne _]; apply negb_true_iff; by apply Z.eqb_neq].
  rewrite insert_insert_eq. eexists. split; [done|]. intros id' Hid. by rewrite lookup_insert_ne.
Qed.
End Name.

(** C27. An identifier used again loses a table.  After the log was replayed, let the newest version of a
    name be live and of a transaction whose identifier is above the last replayed one.  The
    transaction manager gives this identifier to a transaction again.  When that transaction drops
    the entry and is rolled back, removing its versions takes away the committed version too: a later
    transaction reads what the versions of the other transactions leave, though before the rollback
    any transaction would have read the entry and no transaction dropped it. *)
Theorem reused_id_erases_table {B P : Type} `{Blk : !Codec B} `{Dir : !LogFile.DirectoryListing} `{Ops : !TxnStoreOps}
    (entry_type : EntryType) (pick : P → P * list Z) fs dir fs' outcome ts enable_compaction e rest id' ct address p :
  ReplayWalFile (B := B) fs dir = Ok (fs', outcome, ts) →
  let m := restarted outcome ts enable_compaction in
  let start := restarted_name (e :: rest) ts in
  recovered start → ts + 2 < UNCOMMIT_TS → deleted_ e = false →
  0 ≤ next_txn_id_ m < txn_id_ e → txn_id_ e < 2 ^ 64 → id' ≠ txn_id_ e →
  let left := DeleteEntry (txn_id_ e) rest in
  (∃ k m', begin_txns (S k) m = Ok (txn_id_ e, m')) ∧
  (∃ n, run entry_type pick start [Begin id'; Read id'] = Some (Ok ([Done; Got (Some (address_ e)) OK], n))) ∧
  ∃ n, run entry_type pick start (dropped_and_aborted (txn_id_ e) ct address p ++ [Begin id'; Read id'])
       = Some (Ok ([Done; Wrote OK; Done; Done; Done; Done; got entry_type (latest left)], n)) ∧
    n_versions n = left.
Proof.
  intros _ m start Hrec Hts Hlive Hid Hmax Hne left. split_and!.
  - exists (Z.to_nat (txn_id_ e - next_txn_id_ m - 1)).
    destruct (begin_txns_id (S (Z.to_nat (txn_id_ e - next_txn_id_ m - 1))) m) as (m' & Hm'); [done|lia|lia|].
    exists m'. rewrite Hm'. do 2 f_equal. lia.
  - destruct (read_begun entry_type pick start id') as (n & Hn & _); [done|cbn; lia|apply Hrec|]. exists n.
    rewrite Hn. cbn. unfold value_of. by rewrite Hlive.
  - destruct (reused_drop entry_type pick e rest ts ct address p Hrec) as (txns & Hd & Hnew); [lia|done|].
    unfold start. rewrite (run_after entry_type pick _ _ [Begin id'; Read id'] _ _ Hd).
    edestruct (read_begun entry_type pick (mkName P left txns (ts + 1) 0) id') as (n & Hn & Hv); [by apply Hnew|cbn; lia|..|].
    + cbn. apply Forall_filter_of. destruct Hrec as [_ _ Hall _]. cbn in Hall. apply Forall_cons in Hall as [_ Hall].
      eapply Forall_impl; [exact Hall|]. intros v [? ?]. split; [done|lia].
    + unfold left in *. rewrite Hn. by eexists.
Qed.

(** ** Witness *)

Lemma table_recovered : recovered (restarted_name [mkEntry 100 9 1 2 false tt] 6).
Proof. split; [by vm_compute|done|by repeat constructor|by repeat constructor]. Qed.

(** The sample log ends with transaction 4; its checkpoint holds a table that transaction 9 created. *)
Lemma reused_id_erases_table_witness :
  ∃ fs' outcome, ReplayWalFile (Blk := string_codec) (Dir := LogFile.map_listing) Sample.fs Sample.dir = Ok (fs', outcome, 6) ∧
  let table := mkEntry 100 9 1 2 false tt in
  let start := restarted_name [table] 6 in
  (∃ k m', begin_txns (S k) (restarted (Ops := (@txn_store_ops Z SampleStore.hash_order SampleStore.good_catalog)) outcome 6 true) = Ok (9, m')) ∧
  (∃ n, run EntryType.kTable SampleName.pick start [Begin 10; Read 10] = Some (Ok ([Done; Got (Some 100) OK], n))) ∧
  ∃ n, run EntryType.kTable SampleName.pick start (dropped_and_aborted 9 ConflictType.kError 101 tt ++ [Begin 10; Read 10])
       = Some (Ok ([Done; Wrote OK; Done; Done; Done; Done; Got None (NotExist EntryType.kTable)], n)) ∧
    n_versions n = [].
Proof.
  assert (match ReplayWalFile (Blk := string_codec) (Dir := LogFile.map_listing) Sample.fs Sample.dir with
          | Ok (_, outcome, ts) => Some (ts, next_txn_id_ (restarted (Ops := @txn_store_ops Z SampleStore.hash_order SampleStore.good_catalog) outcome ts true))
          | Err _ => None
          end = Some (6, 4)) as Hs by (vm_compute; reflexivity).
  destruct (ReplayWalFile (Blk := string_codec) (Dir := LogFile.map_listing) Sample.fs Sample.dir) as [[[fs' outcome] ts]|] eqn:Hr; [|done].
  injection Hs as -> Hid.
  exists fs', outcome. split; [done|].
  apply (reused_id_erases_table EntryType.kTable SampleName.pick Sample.fs Sample.dir fs' outcome 6 true (mkEntry 100 9 1 2 false tt) [] 10
    ConflictType.kError 101 tt Hr).
  - exact table_recovered.
  - reflexivity.
  - reflexivity.
  - cbn. rewrite Hid. clear. lia.
  - reflexivity.
  - clear. cbn. lia.
Defined.
