(* ===== verification/Catalog.v ===== *)
(** * The catalog

    [Catalog] ([storage/meta/catalog.cpp]) holds the databases by name, a database
    ([storage/meta/entry/db_entry.cpp]) its tables, a table ([storage/meta/entry/table_entry.cpp]) its
    indexes, each name with the list of versions of [EntryList] ([storage/meta/db_meta.cpp],
    [table_meta.cpp], [table_index_meta.cpp]).  Entries are objects behind pointers: creating a table
    changes the database entry in place.

    Modelled are the operations of transactions on databases, tables and indexes with the commands
    they log ([storage/txn/txn.cpp]) and the replay of these commands ([storage/wal/wal_manager.cpp]).
    Directories are picked at random and entries allocated by the code; here both are arguments. *)

From Stdlib Require Import ZArith Lia List.
From stdpp Require Import base list numbers gmap strings.
From S2P Require Import Prelude Bytes Text TableDef IndexDef LogFile WalEntry TxnManager EntryList.
Local Open Scope Z_scope.

Record TableIndexEntry := mkTableIndexEntry {
  index_base_ : option IndexBase;
  index_dir_ : option bytes }.

Record TableEntry := mkTableEntry {
  table_entry_dir_ : option bytes;
  entry_columns_ : list ColumnDef;
  index_meta_map_ : MetaMap TableIndexEntry }.

Record DBEntry := mkDBEntry {
  db_entry_dir_ : bytes;
  table_meta_map_ : MetaMap TableEntry }.

Record Catalog := mkCatalog {
  data_dir_ : bytes;
  db_meta_map_ : MetaMap DBEntry }.

Definition set_db_meta_map (c : Catalog) (m : MetaMap DBEntry) : Catalog := mkCatalog (data_dir_ c) m.
Definition set_table_meta_map (d : DBEntry) (m : MetaMap TableEntry) : DBEntry := mkDBEntry (db_entry_dir_ d) m.
Definition set_index_meta_map (t : TableEntry) (m : MetaMap TableIndexEntry) : TableEntry :=
  mkTableEntry (table_entry_dir_ t) (entry_columns_ t) m.

(** ** Entries *)
Definition NewDBEntry (address : Z) (is_delete : bool) (dir : bytes) (txn_id begin_ts : Z) : BaseEntry DBEntry :=
  mkEntry address txn_id begin_ts UNCOMMIT_TS is_delete
    (mkDBEntry (if is_delete then str "deleted" else dir) ∅).

Definition ReplayDBEntry (address : Z) (is_delete : bool) (dir : bytes) (commit_ts txn_id begin_ts : Z)
  : BaseEntry DBEntry :=
  mkEntry address txn_id begin_ts commit_ts is_delete (mkDBEntry dir ∅).

Definition NewTableEntry (address : Z) (is_delete : bool) (dir : bytes) (columns : list ColumnDef) (txn_id begin_ts : Z)
  : BaseEntry TableEntry :=
  mkEntry address txn_id begin_ts UNCOMMIT_TS is_delete
    (mkTableEntry (Some (if is_delete then str "deleted" else dir)) columns ∅).

Definition ReplayTableEntry (address : Z) (is_delete : bool) (dir : option bytes) (columns : list ColumnDef)
    (commit_ts txn_id begin_ts : Z) : BaseEntry TableEntry :=
  mkEntry address txn_id begin_ts commit_ts is_delete (mkTableEntry dir columns ∅).

(** An index is on one column. *)
Definition NewTableIndexEntry (address : Z) (index_base : IndexBase) (dir : bytes) (txn_id begin_ts : Z)
  : result (BaseEntry TableIndexEntry) :=
  if bool_decide (length (column_names_ index_base) = 1%nat) then
    Ok (mkEntry address txn_id begin_ts UNCOMMIT_TS false (mkTableIndexEntry (Some index_base) (Some dir)))
  else Err RecoverableError.

Definition NewTableIndexEntry_deleted (address txn_id begin_ts : Z) : BaseEntry TableIndexEntry :=
  mkEntry address txn_id begin_ts UNCOMMIT_TS true (mkTableIndexEntry None None).

(** ** Databases *)
Section Operations.
Variable state : Z → TxnState.
Implicit Types (c : Catalog) (d : DBEntry) (t : TableEntry).

Definition CreateDatabase c (db_name : bytes) (txn_id begin_ts : Z) (conflict_type : ConflictType) (address : Z) (dir : bytes)
  : result (option (BaseEntry DBEntry) * Status * Catalog) :=
  let? '(entry, status, m) :=
    create_in state EntryType.kDatabase (db_meta_map_ c) db_name
      (fun txn_id begin_ts => Ok (NewDBEntry address false dir txn_id begin_ts)) txn_id begin_ts conflict_type in
  Ok (entry, status, set_db_meta_map c m).

Definition DropDatabase c (db_name : bytes) (txn_id begin_ts : Z) (conflict_type : ConflictType) (address : Z)
  : result (option (BaseEntry DBEntry) * Status * Catalog) :=
  let? '(entry, status, m) :=
    drop_in state EntryType.kDatabase (db_meta_map_ c) db_name (NewDBEntry address true []) txn_id begin_ts conflict_type in
  Ok (entry, status, set_db_meta_map c m).

Definition GetDatabase c (db_name : bytes) (txn_id begin_ts : Z) : result (option (BaseEntry DBEntry) * Status) :=
  get_in EntryType.kDatabase (db_meta_map_ c) db_name txn_id begin_ts.

Definition Databases c (txn_id begin_ts : Z) : list (BaseEntry DBEntry) :=
  visible_in EntryType.kDatabase (db_meta_map_ c) txn_id begin_ts.

Definition RemoveDBEntry c (db_name : bytes) (txn_id : Z) : result Catalog :=
  let? m := remove_in EntryType.kDatabase (db_meta_map_ c) db_name txn_id in Ok (set_db_meta_map c m).

(** ** Tables of a database *)
Definition DB_CreateTable d (table_name : bytes) (columns : list ColumnDef) (txn_id begin_ts : Z)
    (conflict_type : ConflictType) (address : Z) (dir : bytes)
  : result (option (BaseEntry TableEntry) * Status * DBEntry) :=
  let? '(entry, status, m) :=
    create_in state EntryType.kTable (table_meta_map_ d) table_name
      (fun txn_id begin_ts => Ok (NewTableEntry address false dir columns txn_id begin_ts)) txn_id begin_ts conflict_type in
  Ok (entry, status, set_table_meta_map d m).

Definition DB_DropTable d (table_name : bytes) (conflict_type : ConflictType) (txn_id begin_ts address : Z)
  : result (option (BaseEntry TableEntry) * Status * DBEntry) :=
  let? '(entry, status, m) :=
    drop_in state EntryType.kTable (table_meta_map_ d) table_name (NewTableEntry address true [] []) txn_id begin_ts conflict_type in
  Ok (entry, status, set_table_meta_map d m).

Definition GetTableCollection d (table_name : bytes) (txn_id begin_ts : Z) : result (option (BaseEntry TableEntry) * Status) :=
  get_in EntryType.kTable (table_meta_map_ d) table_name txn_id begin_ts.

Definition DB_RemoveTableEntry d (table_name : bytes) (txn_id : Z) : result DBEntry :=
  let? m := remove_in EntryType.kTable (table_meta_map_ d) table_name txn_id in Ok (set_table_meta_map d m).

Definition TableCollections d (txn_id begin_ts : Z) : list (BaseEntry TableEntry) :=
  visible_in EntryType.kTable (table_meta_map_ d) txn_id begin_ts.

(** ** Indexes of a table *)
Definition Table_CreateIndex t (index_base : IndexBase) (conflict_type : ConflictType) (txn_id begin_ts address : Z) (dir : bytes)
  : result (option (BaseEntry TableIndexEntry) * Status * TableEntry) :=
  match index_name_ index_base with
  | [] => Err UnrecoverableError
  | index_name =>
      let? '(entry, status, m) :=
        create_in state EntryType.kTableIndex (index_meta_map_ t) index_name
          (NewTableIndexEntry address index_base dir) txn_id begin_ts conflict_type in
      Ok (entry, status, set_index_meta_map t m)
  end.

Definition Table_DropIndex t (index_name : bytes) (conflict_type : ConflictType) (txn_id begin_ts address : Z)
  : result (option (BaseEntry TableIndexEntry) * Status * TableEntry) :=
  let? '(entry, status, m) :=
    drop_in state EntryType.kTableIndex (index_meta_map_ t) index_name (NewTableIndexEntry_deleted address)
      txn_id begin_ts conflict_type in
  Ok (entry, status, set_index_meta_map t m).

Definition GetIndex t (index_name : bytes) (txn_id begin_ts : Z) : result (option (BaseEntry TableIndexEntry) * Status) :=
  get_in EntryType.kTableIndex (index_meta_map_ t) index_name txn_id begin_ts.

Definition Table_RemoveIndexEntry t (index_name : bytes) (txn_id : Z) : result TableEntry :=
  let? m := remove_in EntryType.kTableIndex (index_meta_map_ t) index_name txn_id in Ok (set_index_meta_map t m).

(** ** Tables and indexes of the catalog *)

(** [f] on the database entry that the transaction sees. *)
Definition in_database {A} c (db_name : bytes) (txn_id begin_ts : Z)
    (f : DBEntry → result (option A * Status * DBEntry)) : result (option A * Status * Catalog) :=
  let? '(db_entry, status) := GetDatabase c db_name txn_id begin_ts in
  match db_entry, status with
  | Some db_entry, OK =>
      let? '(r, status, d) := f (payload_ db_entry) in
      Ok (r, status, set_db_meta_map c (update_in (db_meta_map_ c) db_name (address_ db_entry) (fun _ => d)))
  | _, status => Ok (None, status, c)
  end.

Definition CreateTable c (db_name : bytes) (txn_id begin_ts : Z) (table_def : TableDef) (conflict_type : ConflictType)
    (address : Z) (dir : bytes) : result (option (BaseEntry TableEntry) * Status * Catalog) :=
  in_database c db_name txn_id begin_ts (fun d =>
    DB_CreateTable d (table_name_ table_def) (columns_ table_def) txn_id begin_ts conflict_type address dir).

Definition DropTableByName c (db_name table_name : bytes) (conflict_type : ConflictType) (txn_id begin_ts address : Z)
  : result (option (BaseEntry TableEntry) * Status * Catalog) :=
  in_database c db_name txn_id begin_ts (fun d => DB_DropTable d table_name conflict_type txn_id begin_ts address).

Definition GetTableByName c (db_name table_name : bytes) (txn_id begin_ts : Z)
  : result (option (BaseEntry TableEntry) * Status) :=
  let? '(db_entry, status) := GetDatabase c db_name txn_id begin_ts in
  match db_entry, status with
  | Some db_entry, OK => GetTableCollection (payload_ db_entry) table_name txn_id begin_ts
  | _, status => Ok (None, status)
  end.

(** [f] on the table entry that the transaction sees. *)
Definition in_table {A} c (db_name table_name : bytes) (txn_id begin_ts : Z)
    (f : TableEntry → result (option A * Status * TableEntry)) : result (option A * Status * Catalog) :=
  in_database c db_name txn_id begin_ts (fun d =>
    let? '(table_entry, status) := GetTableCollection d table_name txn_id begin_ts in
    match table_entry, status with
    | Some table_entry, OK =>
        let? '(r, status, t) := f (payload_ table_entry) in
        Ok (r, status, set_table_meta_map d (update_in (table_meta_map_ d) table_name (address_ table_entry) (fun _ => t)))
    | _, status => Ok (None, status, d)
    end).

(** [Txn::CreateIndexDef] gets the table entry that [GetTableByName] finds. *)
Definition CreateIndex c (db_name table_name : bytes) (index_base : IndexBase) (conflict_type : ConflictType)
    (txn_id begin_ts address : Z) (dir : bytes) : result (option (BaseEntry TableIndexEntry) * Status * Catalog) :=
  in_table c db_name table_name txn_id begin_ts (fun t =>
    Table_CreateIndex t index_base conflict_type txn_id begin_ts address dir).

Definition DropIndex c (db_name table_name index_name : bytes) (conflict_type : ConflictType) (txn_id begin_ts address : Z)
  : result (option (BaseEntry TableIndexEntry) * Status * Catalog) :=
  in_table c db_name table_name txn_id begin_ts (fun t =>
    Table_DropIndex t index_name conflict_type txn_id begin_ts address).

Definition GetIndexByName c (db_name table_name index_name : bytes) (txn_id begin_ts : Z)
  : result (option (BaseEntry TableIndexEntry) * Status) :=
  let? '(table_entry, status) := GetTableByName c db_name table_name txn_id begin_ts in
  match table_entry, status with
  | Some table_entry, OK => GetIndex (payload_ table_entry) index_name txn_id begin_ts
  | _, status => Ok (None, status)
  end.
End Operations.

(** ** Cleaning up *)
Inductive Scanned :=
| ScannedDB (entry : BaseEntry DBEntry)
| ScannedTable (entry : BaseEntry TableEntry).

Section Cleanup.
(** What [TableEntry::PickCleanup] takes from a table: segments and indexes. *)
Variable Table_PickCleanup : TableEntry → TableEntry * list Scanned.

Definition DB_PickCleanup (visible_ts : Z) (d : DBEntry) : DBEntry * list Scanned :=
  let '(m, picked) := MetaMap_PickCleanup ScannedTable Table_PickCleanup visible_ts (table_meta_map_ d) in
  (set_table_meta_map d m, picked).

Definition Catalog_PickCleanup (visible_ts : Z) (c : Catalog) : Catalog * list Scanned :=
  let '(m, picked) := MetaMap_PickCleanup ScannedDB (DB_PickCleanup visible_ts) visible_ts (db_meta_map_ c) in
  (set_db_meta_map c m, picked).
End Cleanup.

(** ** The operations of a transaction *)

(** The part of a directory after its last ['/']. *)
Definition GetPathNameTail (dir : bytes) : bytes :=
  match rfind 47 dir with
  | None => dir
  | Some delimiter_i => drop (S delimiter_i) dir
  end.

Section Txn.
Context {B : Type}.
Variable state : Z → TxnState.
Implicit Types c : Catalog.

(** The part of a transaction that these operations use: the database it works in, once it is known,
    and the commands it will log. *)
Record DDLTxn := mkDDLTxn {
  ddl_txn_id_ : Z;
  ddl_begin_ts_ : Z;
  ddl_db_name_ : bytes;
  ddl_cmds_ : list (WalCmd B) }.
Implicit Types txn : DDLTxn.

Definition CheckTxnStatus txn : result DDLTxn :=
  match state (ddl_txn_id_ txn) with TxnState.kStarted => Ok txn | _ => Err UnrecoverableError end.

Definition CheckTxn txn (db_name : bytes) : result DDLTxn :=
  let? txn := CheckTxnStatus txn in
  if bool_decide (ddl_db_name_ txn = []) then Ok (mkDDLTxn (ddl_txn_id_ txn) (ddl_begin_ts_ txn) db_name (ddl_cmds_ txn))
  else if bool_decide (ddl_db_name_ txn = db_name) then Ok txn
  else Err RecoverableError.

(** The entry that the catalog returns is logged as a command; [TxnStore] has what the transaction's
    store keeps of it. *)
Definition logged_as {A} txn (r : result (option (BaseEntry A) * Status * Catalog)) (cmd : BaseEntry A → WalCmd B)
  : result (Status * DDLTxn * Catalog) :=
  let? '(entry, status, c) := r in
  match entry with
  | None => Ok (status, txn, c)
  | Some entry =>
      Ok (OK, mkDDLTxn (ddl_txn_id_ txn) (ddl_begin_ts_ txn) (ddl_db_name_ txn) (ddl_cmds_ txn ++ [cmd entry]), c)
  end.

Definition Txn_CreateDatabase txn c (db_name : bytes) (conflict_type : ConflictType) (address : Z) (dir : bytes)
  : result (Status * DDLTxn * Catalog) :=
  let? txn := CheckTxnStatus txn in
  logged_as txn (CreateDatabase state c db_name (ddl_txn_id_ txn) (ddl_begin_ts_ txn) conflict_type address dir)
    (fun entry => WalCmdCreateDatabase db_name (GetPathNameTail (db_entry_dir_ (payload_ entry)))).

Definition Txn_DropDatabase txn c (db_name : bytes) (conflict_type : ConflictType) (address : Z)
  : result (Status * DDLTxn * Catalog) :=
  let? txn := CheckTxnStatus txn in
  logged_as txn (DropDatabase state c db_name (ddl_txn_id_ txn) (ddl_begin_ts_ txn) conflict_type address)
    (fun _ => WalCmdDropDatabase db_name).

Definition Txn_CreateTable txn c (db_name : bytes) (table_def : TableDef) (conflict_type : ConflictType) (address : Z) (dir : bytes)
  : result (Status * DDLTxn * Catalog) :=
  let? txn := CheckTxn txn db_name in
  logged_as txn (CreateTable state c db_name (ddl_txn_id_ txn) (ddl_begin_ts_ txn) table_def conflict_type address dir)
    (fun entry => WalCmdCreateTable db_name (GetPathNameTail (default [] (table_entry_dir_ (payload_ entry)))) table_def).

Definition Txn_DropTableCollectionByName txn c (db_name table_name : bytes) (conflict_type : ConflictType) (address : Z)
  : result (Status * DDLTxn * Catalog) :=
  let? txn := CheckTxn txn db_name in
  logged_as txn (DropTableByName state c db_name table_name conflict_type (ddl_txn_id_ txn) (ddl_begin_ts_ txn) address)
    (fun _ => WalCmdDropTable db_name table_name).
End Txn.
Arguments DDLTxn : clear implicits.

(** ** Replaying the log *)
Section Replay.
Context {B : Type}.
Implicit Types (c : Catalog) (d : DBEntry).

Definition CreateDatabaseReplay c (db_name : bytes) (init_entry : Z → Z → BaseEntry DBEntry) (txn_id begin_ts : Z)
  : result Catalog :=
  let? m := create_replay_in (db_meta_map_ c) db_name init_entry txn_id begin_ts in Ok (set_db_meta_map c m).

Definition DropDatabaseReplay c (db_name : bytes) (init_entry : Z → Z → BaseEntry DBEntry) (txn_id begin_ts : Z)
  : result Catalog :=
  let? m := drop_replay_in EntryType.kDatabase (db_meta_map_ c) db_name init_entry txn_id begin_ts in Ok (set_db_meta_map c m).

Definition GetDatabaseReplay c (db_name : bytes) (txn_id begin_ts : Z) : result (BaseEntry DBEntry) :=
  get_replay_in EntryType.kDatabase (db_meta_map_ c) db_name txn_id begin_ts.

Definition CreateTableReplay d (table_name : bytes) (init_entry : Z → Z → BaseEntry TableEntry) (txn_id begin_ts : Z)
  : result DBEntry :=
  let? m := create_replay_in (table_meta_map_ d) table_name init_entry txn_id begin_ts in Ok (set_table_meta_map d m).

Definition DropTableReplay d (table_name : bytes) (init_entry : Z → Z → BaseEntry TableEntry) (txn_id begin_ts : Z)
  : result DBEntry :=
  let? m := drop_replay_in EntryType.kTable (table_meta_map_ d) table_name init_entry txn_id begin_ts in
  Ok (set_table_meta_map d m).

Definition GetTableReplay d (table_name : bytes) (txn_id begin_ts : Z) : result (BaseEntry TableEntry) :=
  get_replay_in EntryType.kTable (table_meta_map_ d) table_name txn_id begin_ts.

(** A change to the database entry that [GetDatabaseReplay] returned. *)
Definition put_database c (db_name : bytes) (db_entry : BaseEntry DBEntry) (d : DBEntry) : Catalog :=
  set_db_meta_map c (update_in (db_meta_map_ c) db_name (address_ db_entry) (fun _ => d)).

Definition WalCmdCreateDatabaseReplay c (db_name db_dir_tail : bytes) (txn_id commit_ts address : Z) : result Catalog :=
  CreateDatabaseReplay c db_name (ReplayDBEntry address false (join (data_dir_ c) db_dir_tail) commit_ts) txn_id 0.

Definition WalCmdDropDatabaseReplay c (db_name : bytes) (txn_id commit_ts address : Z) : result Catalog :=
  DropDatabaseReplay c db_name (ReplayDBEntry address true (data_dir_ c) commit_ts) txn_id 0.

Definition WalCmdCreateTableReplay c (db_name table_dir_tail : bytes) (table_def : TableDef) (txn_id commit_ts address : Z)
  : result Catalog :=
  let? db_entry := GetDatabaseReplay c db_name txn_id 0 in
  let table_dir := join (db_entry_dir_ (payload_ db_entry)) table_dir_tail in
  let? d := CreateTableReplay (payload_ db_entry) (table_name_ table_def)
              (ReplayTableEntry address false (Some table_dir) (columns_ table_def) commit_ts) txn_id 0 in
  Ok (put_database c db_name db_entry d).

Definition WalCmdDropTableReplay c (db_name table_name : bytes) (txn_id commit_ts address : Z) : result Catalog :=
  let? db_entry := GetDatabaseReplay c db_name txn_id 0 in
  let? d := DropTableReplay (payload_ db_entry) table_name (ReplayTableEntry address true None [] commit_ts) txn_id 0 in
  Ok (put_database c db_name db_entry d).

(** The commands of [ReplayWalEntry] that define databases and tables, in turn; each makes an entry at
    the next address.  The others are the business of tables and indexes. *)
Definition replay_ddl (txn_id commit_ts : Z) (st : Catalog * Z) (cmd : WalCmd B) : result (Catalog * Z) :=
  let '(c, address) := st in
  let? c' := match cmd with
             | WalCmdCreateDatabase db_name db_dir_tail => WalCmdCreateDatabaseReplay c db_name db_dir_tail txn_id commit_ts address
             | WalCmdDropDatabase db_name => WalCmdDropDatabaseReplay c db_name txn_id commit_ts address
             | WalCmdCreateTable db_name table_dir_tail table_def =>
                 WalCmdCreateTableReplay c db_name table_dir_tail table_def txn_id commit_ts address
             | WalCmdDropTable db_name table_name => WalCmdDropTableReplay c db_name table_name txn_id commit_ts address
             | _ => Ok c
             end in
  Ok (c', address + 1).

(** The entries of a log, each with its transaction and commit timestamp. *)
Definition replay_log (c : Catalog) (address : Z) (log : list (Z * Z * list (WalCmd B))) : result (Catalog * Z) :=
  res_fold (fun st '(txn_id, commit_ts, cmds) => res_fold (replay_ddl txn_id commit_ts) st cmds) (c, address) log.
End Replay.
