(* ===== verification/CatalogSpec.v ===== *)
(** * The catalog under transactions

    An operation of one transaction on databases, tables or indexes changes nothing that another
    transaction finds ([ddl_isolation]); the transaction itself finds what it created
    ([created_table_found]).  [unreplayable_log] is an interleaving of two transactions whose log
    cannot be replayed. *)

From Stdlib Require Import ZArith Lia List.
From stdpp Require Import base list numbers gmap strings.
From S2P Require Import Prelude Bytes Text DataTypes ConstExpr TableDef IndexDef LogFile WalEntry TxnManager EntryList EntrySpec Catalog.
Local Open Scope Z_scope.

(** ** What a transaction finds *)
Definition find_database (c : Catalog) (db : bytes) (id begin_ts : Z) : result (option Z * Status) :=
  let? r := GetDatabase c db id begin_ts in Ok (address_ <$> r.1, r.2).

Definition find_table (c : Catalog) (db table : bytes) (id begin_ts : Z) : result (option Z * Status) :=
  let? r := GetTableByName c db table id begin_ts in Ok (address_ <$> r.1, r.2).

Definition find_index (c : Catalog) (db table index : bytes) (id begin_ts : Z) : result (option Z * Status) :=
  let? r := GetIndexByName c db table index id begin_ts in Ok (address_ <$> r.1, r.2).

(** The operations that define things. *)
Inductive ddl :=
| DCreateDatabase (db : bytes) (ct : ConflictType) (address : Z) (dir : bytes)
| DDropDatabase (db : bytes) (ct : ConflictType) (address : Z)
| DCreateTable (db : bytes) (table_def : TableDef) (ct : ConflictType) (address : Z) (dir : bytes)
| DDropTable (db table : bytes) (ct : ConflictType) (address : Z)
| DCreateIndex (db table : bytes) (index_base : IndexBase) (ct : ConflictType) (address : Z) (dir : bytes)
| DDropIndex (db table index : bytes) (ct : ConflictType) (address : Z).

Definition run_ddl (state : Z → TxnState) (c : Catalog) (txn_id begin_ts : Z) (op : ddl) : result (Status * Catalog) :=
  match op with
  | DCreateDatabase db ct address dir =>
      let? r := CreateDatabase state c db txn_id begin_ts ct address dir in Ok (r.1.2, r.2)
  | DDropDatabase db ct address =>
      let? r := DropDatabase state c db txn_id begin_ts ct address in Ok (r.1.2, r.2)
  | DCreateTable db table_def ct address dir =>
      let? r := CreateTable state c db txn_id begin_ts table_def ct address dir in Ok (r.1.2, r.2)
  | DDropTable db table ct address =>
      let? r := DropTableByName state c db table ct txn_id begin_ts address in Ok (r.1.2, r.2)
  | DCreateIndex db table index_base ct address dir =>
      let? r := CreateIndex state c db table index_base ct txn_id begin_ts address dir in Ok (r.1.2, r.2)
  | DDropIndex db table index ct address =>
      let? r := DropIndex state c db table index ct txn_id begin_ts address in Ok (r.1.2, r.2)
  end.

(** An address is that of one entry. *)
Definition distinct_in {P} (m : MetaMap P) : Prop := ∀ name l, m !! name = Some l → NoDup (map address_ l).

Definition distinct (c : Catalog) : Prop :=
  distinct_in (db_meta_map_ c) ∧
  ∀ name l e, db_meta_map_ c !! name = Some l → e ∈ l → distinct_in (table_meta_map_ (payload_ e)).

(** ** Lists that a reader cannot tell apart *)
Section Sees.
Context {P : Type} (id ts : Z).
Implicit Types (l : list (BaseEntry P)) (e : BaseEntry P) (R : P → P → Prop) (m : MetaMap P).

Definition sees R l l' : Prop :=
  match GetEntryInner1 id ts l, GetEntryInner1 id ts l' with
  | (Some e, r), (Some e', r') => address_ e = address_ e' ∧ R (payload_ e) (payload_ e') ∧ r = r'
  | (None, r), (None, r') => r = r'
  | _, _ => False
  end.

Definition versions m (name : bytes) : list (BaseEntry P) := default [] (m !! name).

Definition map_sees R m m' : Prop := ∀ name, sees R (versions m name) (versions m' name).

Lemma sees_eq R l l' : (∀ p, R p p) → GetEntryInner1 id ts l = GetEntryInner1 id ts l' → sees R l l'.
Proof. intros HR Heq. unfold sees. rewrite Heq. by destruct (GetEntryInner1 id ts l') as [[e|] r]. Qed.

Lemma map_sees_refl R m : (∀ p, R p p) → map_sees R m m.
Proof. intros HR name. by apply sees_eq. Qed.

Lemma map_sees_insert R m name l :
  (∀ p, R p p) → sees R (versions m name) l → map_sees R m (<[name := l]> m).
Proof.
  intros HR Hl name'. unfold versions at 2. destruct (decide (name' = name)) as [->|Hne].
  - by rewrite lookup_insert_eq.
  - rewrite lookup_insert_ne by done. by apply sees_eq.
Qed.

Lemma get_in_versions entry_type m name :
  get_in entry_type m name id ts = GetEntry entry_type id ts (versions m name).
Proof. unfold get_in, GetExistMeta, versions. by destruct (m !! name). Qed.

Lemma GetEntryInner1_found l e r : GetEntryInner1 id ts l = (Some e, r) → e ∈ l ∧ r = FindResult.kFound.
Proof.
  induction l as [|e' l IH]; [done|]. cbn. intros H. assert (e ∈ l ∧ r = FindResult.kFound → e ∈ e' :: l ∧ r = FindResult.kFound) as Hrest.
  { intros [? ->]. split; [by right|done]. }
  destruct (deleted_ e'); repeat (case_match; simplify_eq; auto); (split; [by left|done]).
Qed.

Lemma GetEntryInner1_missing l r : GetEntryInner1 id ts l = (None, r) → r = FindResult.kNotFound.
Proof. induction l as [|e' l IH]; cbn; [congruence|]. destruct (deleted_ e'); repeat case_match; first [done|congruence|by intros [= <-]]. Qed.

(** A version that is not committed is seen by its own transaction only. *)
Lemma other_skipped e l : Committed e = false → txn_id_ e ≠ id → GetEntryInner1 id ts (e :: l) = GetEntryInner1 id ts l.
Proof. intros Hc Ht. cbn. rewrite Hc. by destruct (Z.eqb_spec id (txn_id_ e)); [congruence|]. Qed.

Lemma uncommitted_front state txn t e l :
  FindEntry state txn t (e :: l) = Ok FindResult.kUncommitted → txn ≠ id → state id = TxnState.kStarted →
  Committed e = false ∧ txn_id_ e ≠ id.
Proof.
  cbn. destruct (Committed e) eqn:Hc; [by repeat case_match|]. intros Hf Hne Hst. split; [done|]. intros Heq.
  rewrite Heq, Hst in Hf. destruct (Z.eqb_spec id txn); [congruence|done].
Qed.

Lemma create_in_sees R state entry_type m name init txn t ct r :
  (∀ p, R p p) → txn ≠ id → create_in state entry_type m name init txn t ct = Ok r →
  (∀ e, init txn t = Ok e → Committed e = false ∧ txn_id_ e = txn) → map_sees R m r.2.
Proof.
  intros HR Hne Hc Hinit. unfold create_in, GetMeta in Hc.
  assert (∀ l m0, (m !! name = Some l ∧ m0 = m ∨ m !! name = None ∧ l = [] ∧ m0 = <[name := []]> m) →
    (let? '(entry, status, meta) := AddEntry state entry_type init txn t ct l in Ok (entry, status, <[name:=meta]> m0)) = Ok r →
    map_sees R m r.2) as H.
  { intros l m0 Hm Ha. apply res_bind_ok in Ha as ([[e s] l'] & Ha & [= <-]). cbn [snd].
    assert (versions m name = l) as Hv by (unfold versions; destruct Hm as [[-> _]|(-> & -> & _)]; done).
    assert (<[name := l']> m0 = <[name := l']> m) as -> by (destruct Hm as [[_ ->]|(_ & _ & ->)]; [done|apply insert_insert_eq]).
    apply map_sees_insert; [done|]. rewrite Hv. apply sees_eq; [done|].
    unfold AddEntry in Ha. apply res_bind_ok in Ha as (fr & _ & Ha).
    assert (∀ x, init txn t = Ok x → GetEntryInner1 id ts l = GetEntryInner1 id ts (x :: l)) as Hx.
    { intros x Hx. destruct (Hinit _ Hx) as [? Hid]. rewrite other_skipped; [done..|congruence]. }
    destruct fr; [| | | |by simplify_eq]; try (by destruct ct; simplify_eq);
      (apply res_bind_ok in Ha as (x & Hix & ?); simplify_eq; by apply Hx). }
  destruct (m !! name) as [l|] eqn:Hm; eapply H; [|exact Hc| |exact Hc]; [by left|by right].
Qed.

Lemma drop_in_sees R state entry_type m name init txn t ct r :
  (∀ p, R p p) → txn ≠ id → state id = TxnState.kStarted → drop_in state entry_type m name init txn t ct = Ok r →
  Committed (init txn t) = false → txn_id_ (init txn t) = txn → map_sees R m r.2.
Proof.
  intros HR Hne Hst Hd Hc Hid. unfold drop_in, GetExistMeta in Hd. destruct (m !! name) as [l|] eqn:Hm; last first.
  { destruct (decide _); simplify_eq; by apply map_sees_refl. }
  apply res_bind_ok in Hd as ([[e s] l'] & Ha & [= <-]). cbn [snd]. apply map_sees_insert; [done|].
  unfold versions. rewrite Hm. cbn [default]. apply sees_eq; [done|].
  unfold DropEntry in Ha. apply res_bind_ok in Ha as (fr & Hf & Ha).
  destruct fr; try (by destruct ct; simplify_eq).
  - simplify_eq. rewrite other_skipped; [done..|congruence].
  - destruct l as [|x l0]; [done|]. destruct (uncommitted_front _ _ _ _ _ Hf Hne Hst). simplify_eq. by apply other_skipped.
Qed.

Lemma GetEntryInner1_update address f l :
  GetEntryInner1 id ts (update_payload address f l)
  = (update_entry address f <$> (GetEntryInner1 id ts l).1, (GetEntryInner1 id ts l).2).
Proof.
  assert (∀ e, ∃ p, update_entry address f e = set_payload e p) as Hu.
  { intros e. unfold update_entry. case_match; [by eexists|]. exists (payload_ e). by destruct e. }
  induction l as [|e l IH]; [done|]. unfold update_payload in *. cbn [map GetEntryInner1]. rewrite IH.
  destruct (Hu e) as [p Hp]. rewrite Hp. cbn. change (Committed (set_payload e p)) with (Committed e).
  destruct (deleted_ e); repeat case_match; cbn; rewrite ?Hp; done.
Qed.

Lemma update_in_sees R m name e d :
  (∀ p, R p p) → distinct_in m → e ∈ versions m name → R (payload_ e) d →
  map_sees R m (update_in m name (address_ e) (fun _ => d)).
Proof.
  intros HR Hdist He Hd name'. unfold update_in, versions at 2. destruct (decide (name' = name)) as [->|Hne]; last first.
  { rewrite lookup_alter_ne by done. by apply sees_eq. }
  rewrite lookup_alter_eq. unfold versions in *. destruct (m !! name) as [l|] eqn:Hm; [|by apply sees_eq].
  cbn [default fmap option_fmap option_map] in *.
  unfold sees, Datatypes.id in *. rewrite GetEntryInner1_update. destruct (GetEntryInner1 id ts l) as [[e0|] r] eqn:Hg; cbn; [|done].
  destruct (GetEntryInner1_found _ _ _ Hg) as [He0 _]. unfold update_entry.
  destruct (Z.eqb_spec (address_ e0) (address_ e)) as [Heq|]; cbn; [|by split].
  assert (e0 = e) as ->; [|done]. specialize (Hdist _ _ Hm).
  apply list_elem_of_lookup in He as [i Hi]. apply list_elem_of_lookup in He0 as [j Hj].
  assert (i = j) as ->; [|congruence]. eapply (NoDup_lookup (map address_ l)); [done|..]; rewrite list_lookup_fmap.
  - rewrite Hi. done.
  - rewrite Hj. cbn. by rewrite Heq.
Qed.
End Sees.

Section Isolation.
Variables (state : Z → TxnState) (id ts : Z).
Hypothesis reader_started : state id = TxnState.kStarted.

Definition same_indexes (t t' : TableEntry) : Prop :=
  map_sees id ts (fun _ _ => True) (index_meta_map_ t) (index_meta_map_ t').
Definition same_tables (d d' : DBEntry) : Prop :=
  map_sees id ts same_indexes (table_meta_map_ d) (table_meta_map_ d').
Definition same_databases (c c' : Catalog) : Prop :=
  map_sees id ts same_tables (db_meta_map_ c) (db_meta_map_ c').

Lemma same_indexes_refl t : same_indexes t t.
Proof. by apply map_sees_refl. Qed.
Lemma same_tables_refl d : same_tables d d.
Proof. apply map_sees_refl, same_indexes_refl. Qed.
Lemma same_databases_refl c : same_databases c c.
Proof. apply map_sees_refl, same_tables_refl. Qed.
Hint Resolve same_indexes_refl same_tables_refl same_databases_refl : core.

(** What [get_in] returns to two readers that cannot tell the maps apart. *)
Lemma get_in_sees {P} (R : P → P → Prop) (entry_type : EntryType) (m m' : MetaMap P) name :
  map_sees id ts R m m' →
  ∃ r r' s, get_in entry_type m name id ts = Ok (r, s) ∧ get_in entry_type m' name id ts = Ok (r', s) ∧
    match r, r' with
    | Some e, Some e' => s = OK ∧ address_ e = address_ e' ∧ R (payload_ e) (payload_ e')
    | None, None => s = NotExist entry_type
    | _, _ => False
    end.
Proof.
  intros Hm. specialize (Hm name). rewrite !get_in_versions. unfold sees, GetEntry in *.
  destruct (GetEntryInner1 id ts (versions m name)) as [[e|] r] eqn:H1, (GetEntryInner1 id ts (versions m' name)) as [[e'|] r'] eqn:H2;
    try done.
  - destruct Hm as (Ha & HR & <-). destruct (GetEntryInner1_found _ _ _ _ _ H1) as [_ ->]. by exists (Some e), (Some e'), OK.
  - subst r'. rewrite (GetEntryInner1_missing _ _ _ _ H1). by exists None, None, (NotExist entry_type).
Qed.

Lemma get_in_elem {P} (entry_type : EntryType) (m : MetaMap P) name txn t e s :
  get_in entry_type m name txn t = Ok (Some e, s) → e ∈ versions m name.
Proof.
  rewrite get_in_versions. unfold GetEntry. destruct (GetEntryInner1 txn t _) as [r f] eqn:Hg.
  unfold GetEntryInner2. destruct f; intros [= -> _]. by destruct (GetEntryInner1_found _ _ _ _ _ Hg).
Qed.

Lemma in_database_sees {A} c db txn t (f : DBEntry → result (option A * Status * DBEntry)) r :
  distinct c → (∀ d r, distinct_in (table_meta_map_ d) → f d = Ok r → same_tables d r.2) →
  in_database c db txn t f = Ok r → same_databases c r.2.
Proof.
  intros [Hd1 Hd2] Hf Hin. unfold in_database in Hin. apply res_bind_ok in Hin as ([e s] & Hg & Hin).
  destruct e as [e|]; [|by simplify_eq]. pose proof (get_in_elem _ _ _ _ _ _ _ Hg) as He.
  destruct s; try by simplify_eq. apply res_bind_ok in Hin as ([[x s'] d] & Hx & [= <-]). cbn.
  apply update_in_sees; [auto|done|done|]. eapply (Hf _ (x, s', d)); [|done].
  unfold versions in He. destruct (db_meta_map_ c !! db) as [l|] eqn:Hl; [by eapply Hd2|by apply elem_of_nil in He].
Qed.

Lemma in_table_sees {A} c db table txn t (f : TableEntry → result (option A * Status * TableEntry)) r :
  distinct c → (∀ x r, f x = Ok r → same_indexes x r.2) → in_table c db table txn t f = Ok r → same_databases c r.2.
Proof.
  intros Hd Hf. apply in_database_sees; [done|]. clear r. intros d r Hdist Hin. cbn in Hin.
  apply res_bind_ok in Hin as ([e s] & Hg & Hin). destruct e as [e|]; [|by simplify_eq].
  pose proof (get_in_elem _ _ _ _ _ _ _ Hg) as He. destruct s; try by simplify_eq.
  apply res_bind_ok in Hin as ([[x s'] t'] & Hx & [= <-]). cbn. apply update_in_sees; [auto|done|done|].
  by apply (Hf _ (x, s', t')).
Qed.

Lemma run_ddl_sees c txn t op r :
  txn ≠ id → distinct c → run_ddl state c txn t op = Ok r → same_databases c r.2.
Proof.
  intros Hne Hd. destruct op as [db ct a dir|db ct a|db td ct a dir|db tb ct a|db tb ib ct a dir|db tb ix ct a]; cbn;
    intros (x & Hx & [= <-])%res_bind_ok; cbn [snd].
  - apply res_bind_ok in Hx as ([[e s] m] & Hx & [= <-]).
    eapply (create_in_sees id ts _ _ _ _ _ _ _ _ _ (e, s, m)); [auto|exact Hne|exact Hx|]. by intros ? [= <-].
  - apply res_bind_ok in Hx as ([[e s] m] & Hx & [= <-]).
    by eapply (drop_in_sees id ts _ _ _ _ _ _ _ _ _ (e, s, m)); [auto|exact Hne| |exact Hx|..].
  - eapply in_database_sees; [done| |exact Hx]. clear x Hx. intros d r _ Hr. apply res_bind_ok in Hr as ([[e s] m] & Hr & [= <-]).
    eapply (create_in_sees id ts _ _ _ _ _ _ _ _ _ (e, s, m)); [auto|exact Hne|exact Hr|]. by intros ? [= <-].
  - eapply in_database_sees; [done| |exact Hx]. clear x Hx. intros d r _ Hr. apply res_bind_ok in Hr as ([[e s] m] & Hr & [= <-]).
    by eapply (drop_in_sees id ts _ _ _ _ _ _ _ _ _ (e, s, m)); [auto|exact Hne| |exact Hr|..].
  - eapply in_table_sees; [done| |exact Hx]. clear x Hx. intros d r Hr. unfold Table_CreateIndex in Hr.
    destruct (index_name_ ib); [done|]. apply res_bind_ok in Hr as ([[e s] m] & Hr & [= <-]).
    eapply (create_in_sees id ts _ _ _ _ _ _ _ _ _ (e, s, m)); [done|exact Hne|exact Hr|].
    intros x Hx. unfold NewTableIndexEntry in Hx. case_bool_decide; [|done]. by injection Hx as <-.
  - eapply in_table_sees; [done| |exact Hx]. clear x Hx. intros d r Hr. apply res_bind_ok in Hr as ([[e s] m] & Hr & [= <-]).
    by eapply (drop_in_sees id ts _ _ _ _ _ _ _ _ _ (e, s, m)); [done|exact Hne| |exact Hr|..].
Qed.

Lemma same_lookups c c' db table index :
  same_databases c c' →
  find_database c db id ts = find_database c' db id ts ∧ find_table c db table id ts = find_table c' db table id ts ∧
  find_index c db table index id ts = find_index c' db table index id ts.
Proof.
  intros Hc. unfold find_database, find_table, find_index, GetIndexByName, GetTableByName, GetDatabase, GetTableCollection, GetIndex.
  destruct (get_in_sees _ EntryType.kDatabase _ _ db Hc) as (e & e' & s & -> & -> & He). cbn [res_bind fst snd].
  destruct e as [e|], e' as [e'|]; try done. destruct He as (-> & Ha & Ht). cbn. rewrite Ha.
  destruct (get_in_sees _ EntryType.kTable _ _ table Ht) as (x & x' & s & -> & -> & Hx). cbn [res_bind fst snd].
  destruct x as [x|], x' as [x'|]; try done. destruct Hx as (-> & Hxa & Hi). cbn. rewrite Hxa.
  destruct (get_in_sees _ EntryType.kTableIndex _ _ index Hi) as (y & y' & s & -> & -> & Hy). cbn [res_bind fst snd].
  destruct y as [y|], y' as [y'|]; try done. destruct Hy as (_ & Hya & _). cbn. by rewrite Hya.
Qed.
End Isolation.

(** C19. Transactions are isolated in the catalog: whatever database, table or index a transaction
    creates or drops, and whether that succeeds, fails or is refused, a running transaction other
    than it finds the same databases, tables and indexes, at the same addresses, as before. *)
Theorem ddl_isolation (state : Z → TxnState) c txn t op s c' id ts :
  state id = TxnState.kStarted → txn ≠ id → distinct c → run_ddl state c txn t op = Ok (s, c') →
  ∀ db table index,
    find_database c db id ts = find_database c' db id ts ∧ find_table c db table id ts = find_table c' db table id ts ∧
    find_index c db table index id ts = find_index c' db table index id ts.
Proof.
  intros Hst Hne Hd Hr db table index. apply same_lookups. by apply (run_ddl_sees state id ts Hst c txn t op (s, c')).
Qed.

(** ** Well-formed catalogs *)
Section WellFormed.
Context {P : Type}.
Implicit Types (l : list (BaseEntry P)) (e : BaseEntry P) (Q : P → Prop) (m : MetaMap P).

(** Entries below [bound], each at an address of its own and with well-formed content. *)
Definition list_ok Q (bound : Z) l : Prop :=
  NoDup (map address_ l) ∧ Forall (fun e => address_ e < bound ∧ Q (payload_ e)) l.

Definition entries_ok Q (bound : Z) m : Prop := map_Forall (fun _ l => list_ok Q bound l) m.

Lemma list_ok_weaken Q Q' b b' l : list_ok Q b l → b ≤ b' → (∀ p, Q p → Q' p) → list_ok Q' b' l.
Proof. intros [Hn Hl] Hb HQ. split; [done|]. eapply Forall_impl; [exact Hl|]. intros e [? ?]. split; [lia|auto]. Qed.

Lemma entries_ok_weaken Q Q' b b' m : entries_ok Q b m → b ≤ b' → (∀ p, Q p → Q' p) → entries_ok Q' b' m.
Proof. intros Hm Hb HQ name l Hl. eapply list_ok_weaken; [by eapply Hm|done|done]. Qed.

Lemma list_ok_push Q b l e : list_ok Q b l → address_ e = b → Q (payload_ e) → list_ok Q (b + 1) (e :: l).
Proof.
  intros Hl He HQ. destruct (list_ok_weaken Q Q b (b + 1) l Hl) as [Hn Hall]; [lia|done|]. split; [|constructor; [split; [lia|done]|done]].
  cbn. constructor; [|done]. intros (e' & Hae & Hin)%list_elem_of_fmap. destruct Hl as [_ Hl].
  rewrite Forall_forall in Hl. specialize (Hl _ Hin). lia.
Qed.

Lemma list_ok_tail Q b e l : list_ok Q b (e :: l) → list_ok Q b l.
Proof. intros [Hn Hl]. apply NoDup_cons in Hn as [_ Hn]. by apply Forall_cons in Hl as [_ Hl]. Qed.

Lemma list_ok_nil Q b : list_ok Q b [].
Proof. split; constructor. Qed.

Lemma versions_ok Q b m name : entries_ok Q b m → list_ok Q b (versions m name).
Proof. intros Hm. unfold versions. destruct (m !! name) as [l|] eqn:Hl; [by eapply Hm|apply list_ok_nil]. Qed.

Lemma insert_ok Q b b' m name l : entries_ok Q b m → b ≤ b' → list_ok Q b' l → entries_ok Q b' (<[name := l]> m).
Proof. intros Hm Hb Hl. apply map_Forall_insert_2; [done|]. by eapply entries_ok_weaken. Qed.

Lemma create_in_ok Q state entry_type m name init txn t ct r b :
  entries_ok Q b m → create_in state entry_type m name init txn t ct = Ok r →
  (∀ e, init txn t = Ok e → address_ e = b ∧ Q (payload_ e)) → entries_ok Q (b + 1) r.2.
Proof.
  intros Hm Hc Hinit. unfold create_in, GetMeta in Hc.
  set (lm := match m !! name with Some meta => (meta, m) | None => ([], <[name:=[]]> m) end) in Hc.
  assert (list_ok Q b lm.1 ∧ entries_ok Q b lm.2) as [Hl Hm'].
  { unfold lm. pose proof (versions_ok _ _ _ name Hm) as Hv. unfold versions in Hv. destruct (m !! name); [done|]. split; [done|].
    by eapply insert_ok. }
  destruct lm as [l m0]. cbn in *. apply res_bind_ok in Hc as ([[e s] l'] & Ha & [= <-]). cbn.
  eapply insert_ok; [done|lia|]. assert (list_ok Q (b + 1) l) as Hl1 by (eapply list_ok_weaken; [done|lia|done]).
  unfold AddEntry in Ha. apply res_bind_ok in Ha as (fr & _ & Ha).
  destruct fr; [| | | |by simplify_eq]; try (by destruct ct; simplify_eq);
    (apply res_bind_ok in Ha as (x & Hx & ?); simplify_eq; destruct (Hinit _ Hx); by apply list_ok_push).
Qed.

Lemma drop_in_ok Q state entry_type m name init txn t ct r b :
  entries_ok Q b m → drop_in state entry_type m name init txn t ct = Ok r →
  address_ (init txn t) = b → Q (payload_ (init txn t)) → entries_ok Q (b + 1) r.2.
Proof.
  intros Hm Hd Ha HQ. unfold drop_in, GetExistMeta in Hd. assert (entries_ok Q (b + 1) m) as Hm1 by (eapply entries_ok_weaken; [done|lia|done]).
  destruct (m !! name) as [l|] eqn:Hl; [|by destruct (decide _); simplify_eq].
  apply res_bind_ok in Hd as ([[e s] l'] & Hd & [= <-]). cbn. eapply insert_ok; [done|lia|].
  assert (list_ok Q b l) as Hlok by exact (Hm _ _ Hl). assert (list_ok Q (b + 1) l) as Hl1 by (eapply list_ok_weaken; [done|lia|done]).
  unfold DropEntry in Hd. apply res_bind_ok in Hd as (fr & _ & Hd). destruct fr; try (by destruct ct; simplify_eq).
  - simplify_eq. by apply list_ok_push.
  - destruct l as [|x l0]; [done|]. simplify_eq. by eapply list_ok_tail.
Qed.

Lemma update_in_ok Q b b' m name address d :
  entries_ok Q b m → b ≤ b' → Q d → entries_ok Q b' (update_in m name address (fun _ => d)).
Proof.
  intros Hm Hb Hd name' l'. unfold update_in. destruct (decide (name' = name)) as [->|Hne]; last first.
  { rewrite lookup_alter_ne by done. intros Hl. eapply list_ok_weaken; [by eapply Hm|done|done]. }
  rewrite lookup_alter_eq. destruct (m !! name) as [l|] eqn:Hl; cbn; [|done]. intros [= <-].
  destruct (Hm _ _ Hl) as [Hn Hall]. unfold update_payload. split.
  - rewrite map_map. erewrite map_ext; [exact Hn|]. intros e. unfold update_entry. by case_match.
  - apply Forall_map. eapply Forall_impl; [exact Hall|]. intros e [? ?]. unfold update_entry. case_match; cbn; split; (lia || done).
Qed.
End WellFormed.

Definition table_ok (bound : Z) (t : TableEntry) : Prop := entries_ok (fun _ => True) bound (index_meta_map_ t).
Definition db_ok (bound : Z) (d : DBEntry) : Prop := entries_ok (table_ok bound) bound (table_meta_map_ d).
Definition catalog_ok (bound : Z) (c : Catalog) : Prop := entries_ok (db_ok bound) bound (db_meta_map_ c).

Lemma table_ok_weaken b b' t : table_ok b t → b ≤ b' → table_ok b' t.
Proof. intros Ht Hb. by eapply entries_ok_weaken. Qed.

Lemma db_ok_weaken b b' d : db_ok b d → b ≤ b' → db_ok b' d.
Proof. intros Hd Hb. eapply entries_ok_weaken; [done..|]. intros t Ht. by eapply table_ok_weaken. Qed.

Lemma catalog_ok_weaken b b' c : catalog_ok b c → b ≤ b' → catalog_ok b' c.
Proof. intros Hc Hb. eapply entries_ok_weaken; [done..|]. intros d Hd. by eapply db_ok_weaken. Qed.

Lemma empty_ok {P} (Q : P → Prop) b : entries_ok Q b ∅.
Proof. apply map_Forall_empty. Qed.

Lemma catalog_ok_distinct b c : catalog_ok b c → distinct c.
Proof.
  intros Hc. split; [intros name l Hl; by apply (Hc name l Hl)|]. intros name l e Hl He name' l' Hl'.
  destruct (Hc _ _ Hl) as [_ Hall]. rewrite Forall_forall in Hall. destruct (Hall _ He) as [_ Hd]. by apply (Hd name' l' Hl').
Qed.

Lemma elem_ok {P} (Q : P → Prop) b m name e : entries_ok Q b m → e ∈ versions m name → Q (payload_ e).
Proof. intros Hm He. destruct (versions_ok _ _ _ name Hm) as [_ Hall]. rewrite Forall_forall in Hall. by destruct (Hall _ He). Qed.

Lemma in_database_ok {A} b c db txn t (f : DBEntry → result (option A * Status * DBEntry)) r :
  catalog_ok b c → (∀ d r, db_ok b d → f d = Ok r → db_ok (b + 1) r.2) →
  in_database c db txn t f = Ok r → catalog_ok (b + 1) r.2.
Proof.
  intros Hc Hf Hin. assert (catalog_ok (b + 1) c) as Hc1 by (eapply catalog_ok_weaken; [done|lia]).
  unfold in_database in Hin. apply res_bind_ok in Hin as ([e s] & Hg & Hin).
  destruct e as [e|]; [|by simplify_eq]. pose proof (get_in_elem _ _ _ _ _ _ _ Hg) as He.
  destruct s; try by simplify_eq. apply res_bind_ok in Hin as ([[x s'] d] & Hx & [= <-]).
  apply (update_in_ok _ (b + 1) (b + 1)); [done|lia|]. eapply (Hf _ (x, s', d)); [|done]. by apply (elem_ok _ _ _ _ _ Hc He).
Qed.

Lemma in_table_ok {A} b c db table txn t (f : TableEntry → result (option A * Status * TableEntry)) r :
  catalog_ok b c → (∀ x r, table_ok b x → f x = Ok r → table_ok (b + 1) r.2) →
  in_table c db table txn t f = Ok r → catalog_ok (b + 1) r.2.
Proof.
  intros Hc Hf. apply in_database_ok; [done|]. clear r. intros d r Hd Hin. cbn in Hin.
  assert (db_ok (b + 1) d) as Hd1 by (eapply db_ok_weaken; [done|lia]).
  apply res_bind_ok in Hin as ([e s] & Hg & Hin). destruct e as [e|]; [|by simplify_eq].
  pose proof (get_in_elem _ _ _ _ _ _ _ Hg) as He. destruct s; try by simplify_eq.
  apply res_bind_ok in Hin as ([[x s'] t'] & Hx & [= <-]). apply (update_in_ok _ (b + 1) (b + 1)); [done|lia|].
  eapply (Hf _ (x, s', t')); [|done]. by apply (elem_ok _ _ _ _ _ Hd He).
Qed.

Lemma catalog_next b c : catalog_ok b c → entries_ok (db_ok (b + 1)) b (db_meta_map_ c).
Proof. intros Hc. eapply entries_ok_weaken; [exact Hc|lia|]. intros d Hd. eapply db_ok_weaken; [done|lia]. Qed.

Lemma db_next b d : db_ok b d → entries_ok (table_ok (b + 1)) b (table_meta_map_ d).
Proof. intros Hd. eapply entries_ok_weaken; [exact Hd|lia|]. intros t Ht. eapply table_ok_weaken; [done|lia]. Qed.

Definition address_of (op : ddl) : Z :=
  match op with
  | DCreateDatabase _ _ a _ | DDropDatabase _ _ a | DCreateTable _ _ _ a _ | DDropTable _ _ _ a
  | DCreateIndex _ _ _ _ a _ | DDropIndex _ _ _ _ a => a
  end.

(** The catalog stays well-formed: at every level, the versions under a name are distinct entries
    at known addresses, and every operation that defines databases, tables or indexes, given a new
    address for the entry it makes, leaves it so, whatever its outcome. *)
Theorem catalog_stays_ok (state : Z → TxnState) c txn t op s c' :
  catalog_ok (address_of op) c → run_ddl state c txn t op = Ok (s, c') → catalog_ok (address_of op + 1) c'.
Proof.
  intros Hc Hrun. destruct op as [db ct a dir|db ct a|db td ct a dir|db tb ct a|db tb ib ct a dir|db tb ix ct a];
    cbn [address_of run_ddl] in *; apply res_bind_ok in Hrun as (x & Hx & [= <- <-]).
  - apply res_bind_ok in Hx as ([[e s] m] & Hx & [= <-]).
    apply (create_in_ok _ _ _ _ _ _ _ _ _ _ _ (catalog_next _ _ Hc) Hx). intros ? [= <-]. split; [done|apply empty_ok].
  - apply res_bind_ok in Hx as ([[e s] m] & Hx & [= <-]).
    apply (drop_in_ok _ _ _ _ _ _ _ _ _ _ _ (catalog_next _ _ Hc) Hx); [done|apply empty_ok].
  - eapply in_database_ok; [done| |exact Hx]. clear x Hx. intros d r Hd Hr. apply res_bind_ok in Hr as ([[e s] m] & Hr & [= <-]).
    apply (create_in_ok _ _ _ _ _ _ _ _ _ _ _ (db_next _ _ Hd) Hr). intros ? [= <-]. split; [done|apply empty_ok].
  - eapply in_database_ok; [done| |exact Hx]. clear x Hx. intros d r Hd Hr. apply res_bind_ok in Hr as ([[e s] m] & Hr & [= <-]).
    apply (drop_in_ok _ _ _ _ _ _ _ _ _ _ _ (db_next _ _ Hd) Hr); [done|apply empty_ok].
  - eapply in_table_ok; [done| |exact Hx]. clear x Hx. intros d r Hd Hr. unfold Table_CreateIndex in Hr.
    destruct (index_name_ ib); [done|]. apply res_bind_ok in Hr as ([[e s] m] & Hr & [= <-]).
    apply (create_in_ok _ _ _ _ _ _ _ _ _ _ _ Hd Hr). intros y Hy. unfold NewTableIndexEntry in Hy. case_bool_decide; [|done].
    by injection Hy as <-.
  - eapply in_table_ok; [done| |exact Hx]. clear x Hx. intros d r Hd Hr. apply res_bind_ok in Hr as ([[e s] m] & Hr & [= <-]).
    by apply (drop_in_ok _ _ _ _ _ _ _ _ _ _ _ Hd Hr).
Qed.

(** A transaction finds the table it created, with its columns, at once. *)
Theorem created_table_found (state : Z → TxnState) c db txn t table_def ct address dir e c' :
  CreateTable state c db txn t table_def ct address dir = Ok (Some e, OK, c') →
  GetTableByName c' db (table_name_ table_def) txn t = Ok (Some e, OK) ∧
  address_ e = address ∧ entry_columns_ (payload_ e) = columns_ table_def.
Proof.
  intros H. unfold CreateTable, in_database in H. apply res_bind_ok in H as ([d s] & Hg & H).
  destruct d as [d|]; [|by destruct s]. destruct s; try done. apply res_bind_ok in H as ([[x s'] d'] & Hx & [= -> -> <-]).
  apply res_bind_ok in Hx as ([[x s''] m] & Hx & [= -> -> <-]). unfold create_in, GetMeta in Hx.
  set (lm := match table_meta_map_ (payload_ d) !! table_name_ table_def with Some meta => _ | None => _ end) in Hx.
  destruct lm as [l m0] eqn:Hlm. apply res_bind_ok in Hx as ([[x s'] l'] & Ha & [= -> -> <-]).
  assert (e = NewTableEntry address false dir (columns_ table_def) txn t ∧ l' = e :: l) as [-> ->].
  { unfold AddEntry in Ha. apply res_bind_ok in Ha as (fr & _ & Ha). destruct fr; try (by destruct ct); by injection Ha as <- <-. }
  split; [|done]. unfold GetTableByName, GetDatabase in *. rewrite get_in_versions in *. unfold GetEntry in *. cbn [db_meta_map_ set_db_meta_map].
  assert (d ∈ versions (db_meta_map_ c) db) as Hin by (by eapply get_in_elem; rewrite get_in_versions).
  unfold versions, update_in in *. rewrite lookup_alter_eq.
  destruct (db_meta_map_ c !! db) as [dl|]; [|by apply elem_of_nil in Hin]. cbn. rewrite GetEntryInner1_update.
  cbn in Hg. destruct (GetEntryInner1 txn t dl) as [r f] eqn:Hr. unfold GetEntryInner2 in Hg. destruct f; try done. injection Hg as ->.
  cbn. unfold update_entry. rewrite Z.eqb_refl. unfold GetTableCollection. rewrite get_in_versions. unfold versions. cbn.
  rewrite lookup_insert_eq. cbn. unfold GetEntry. cbn. by rewrite Z.eqb_refl.
Qed.

(** *** A database dropped beside a creation in it *)
Section Unreplayable.
Context {B : Type} (state : Z → TxnState).
Implicit Types (txn : DDLTxn B) (e : BaseEntry DBEntry).

(** The newest version of the database is live and was committed when both transactions began. *)
Record live_database (c : Catalog) (db : bytes) e (rest : list (BaseEntry DBEntry)) (ts : Z) : Prop := {
  live_found : db_meta_map_ c !! db = Some (e :: rest);
  live_committed : Committed e = true ∧ commit_ts_ e ≤ ts;
  live_kept : deleted_ e = false }.

Lemma create_in_live c db e rest i b1 table_def ct a dir (t1 : DDLTxn B) c1 :
  live_database c db e rest b1 →
  Txn_CreateTable state (mkDDLTxn i b1 [] []) c db table_def ct a dir = Ok (OK, t1, c1) →
  (∃ tail, ddl_cmds_ t1 = [WalCmdCreateTable db tail table_def]) ∧
  ∃ d rest', db_meta_map_ c1 !! db = Some (set_payload e d :: rest').
Proof.
  intros [Hf [Hc Hle] Hk] Hr. apply res_bind_ok in Hr as (t0 & H0 & Hr).
  assert (ddl_cmds_ t0 = [] ∧ ddl_txn_id_ t0 = i ∧ ddl_begin_ts_ t0 = b1) as (Hcm & Hti & Htb).
  { unfold CheckTxn, CheckTxnStatus in H0. cbn in H0. destruct (state i); try done. by injection H0 as <-. }
  apply res_bind_ok in Hr as ([[entry s] c'] & Hct & Hr). unfold CreateTable, in_database, GetDatabase, get_in, GetExistMeta in Hct.
  rewrite Hf, Htb in Hct. unfold GetEntry in Hct. cbn in Hct. rewrite Hc, (proj2 (Z.leb_le _ _)), Hk in Hct by lia. cbn in Hct.
  apply res_bind_ok in Hct as ([[r s'] d] & Hd & [= <- <- <-]).
  destruct r as [r|]; cycle 1.
  { injection Hr as -> <- <-. apply res_bind_ok in Hd as ([[x sx] m] & Hx & [= -> -> <-]). unfold create_in in Hx.
    destruct (GetMeta _ _) as [l m0]. apply res_bind_ok in Hx as ([[x s'] l'] & Ha & [= -> -> <-]).
    unfold AddEntry in Ha. apply res_bind_ok in Ha as (fr & _ & Ha). destruct fr; try done; by destruct ct. }
  injection Hr as <- <-. cbn [ddl_cmds_]. rewrite Hcm. split; [by eexists|]. cbn [db_meta_map_ set_db_meta_map]. unfold update_in.
  rewrite lookup_alter_eq, Hf. cbn. unfold update_entry. rewrite Z.eqb_refl. by eexists _, _.
Qed.

Lemma drop_live c db e rest j b2 ct a :
  live_database c db e rest b2 → state j = TxnState.kStarted →
  ∃ t2 c2, Txn_DropDatabase state (mkDDLTxn j b2 [] []) c db ct a = Ok (OK, t2, c2) ∧ ddl_cmds_ t2 = [WalCmdDropDatabase (B := B) db].
Proof.
  intros [Hf [Hc Hle] Hk] Hs. unfold Txn_DropDatabase, CheckTxnStatus. cbn. rewrite Hs. cbn. unfold DropDatabase, drop_in, GetExistMeta.
  rewrite Hf. unfold DropEntry. cbn. rewrite Hc, (proj2 (Z.leb_le _ _)), Hk by lia. cbn. by eexists _, _.
Qed.

Lemma replay_drop_first c db e rest ts address i ti j tj tail table_def :
  live_database c db e rest ts →
  replay_log (B := B) c address [(j, tj, [WalCmdDropDatabase db]); (i, ti, [WalCmdCreateTable db tail table_def])] = Err UnrecoverableError.
Proof.
  intros [Hf _ Hk]. unfold replay_log. cbn [res_fold replay_ddl]. unfold WalCmdDropDatabaseReplay, DropDatabaseReplay, drop_replay_in, GetExistMeta.
  rewrite Hf. unfold Meta_DropEntryReplay, DropEntryReplay. cbn. rewrite Hk. cbn.
  unfold WalCmdCreateTableReplay, GetDatabaseReplay, get_replay_in, GetExistMeta. cbn. by rewrite lookup_insert_eq.
Qed.

Lemma table_replayed d name init i : ∃ d', CreateTableReplay d name init i 0 = Ok d'.
Proof.
  unfold CreateTableReplay, create_replay_in. destruct (GetMeta _ _) as [l m]. unfold CreateEntryReplay, AddEntryReplay, FindEntryReplay.
  destruct l as [|x l]; cbn; [by eexists|]. destruct (deleted_ x); cbn; by eexists.
Qed.

Lemma replay_create_first c db e rest ts address i ti j tj tail table_def :
  live_database c db e rest ts →
  is_ok (replay_log (B := B) c address [(i, ti, [WalCmdCreateTable db tail table_def]); (j, tj, [WalCmdDropDatabase db])]).
Proof.
  intros [Hf _ Hk]. unfold replay_log. cbn [res_fold replay_ddl]. unfold WalCmdCreateTableReplay, GetDatabaseReplay, get_replay_in, GetExistMeta.
  rewrite Hf. unfold Meta_GetEntryReplay. cbn. rewrite Hk. cbn.
  destruct (table_replayed (payload_ e) (table_name_ table_def) (ReplayTableEntry address false (Some (join (db_entry_dir_ (payload_ e)) tail)) (columns_ table_def) ti) i)
    as (d & ->).
  cbn. unfold WalCmdDropDatabaseReplay, DropDatabaseReplay, drop_replay_in, GetExistMeta. cbn. unfold update_in.
  rewrite lookup_alter_eq, Hf. cbn. unfold update_entry. rewrite Z.eqb_refl. unfold Meta_DropEntryReplay, DropEntryReplay. cbn. by rewrite Hk.
Qed.
End Unreplayable.

(** ** Examples *)
Module SampleCatalog.

Definition running (id : Z) : TxnState := if (id =? 11) || (id =? 12) then TxnState.kStarted else TxnState.kCommitted.

Definition table_def (name : bytes) : TableDef := mkTableDef (str "db") name [] ∅.

Definition table : BaseEntry TableEntry := mkEntry 2 1 1 2 false (mkTableEntry (Some (str "/data/db/t")) [] ∅).
Definition database : BaseEntry DBEntry := mkEntry 1 1 1 2 false (mkDBEntry (str "/data/db") {[ str "t" := [table] ]}).
Definition catalog : Catalog := mkCatalog (str "/data") {[ str "db" := [database] ]}.

Definition create : ddl := DCreateTable (str "db") (table_def (str "u")) ConflictType.kError 3 (str "/data/db/u").

Lemma catalog_is_ok : catalog_ok 3 catalog.
Proof.
  assert (NoDup [1] ∧ NoDup [2]) as [N1 N2] by (split; apply NoDup_singleton).
  apply map_Forall_singleton. split; [exact N1|]. constructor; [|constructor]. split; [done|].
  apply map_Forall_singleton. split; [exact N2|]. constructor; [|constructor]. split; [done|]. apply empty_ok.
Qed.

Lemma create_runs : is_ok (run_ddl running catalog 11 5 create).
Proof. by vm_compute. Qed.

Example ddl_isolation_witness :
  ∃ s c', run_ddl running catalog 11 5 create = Ok (s, c') ∧
    find_table catalog (str "db") (str "u") 12 6 = find_table c' (str "db") (str "u") 12 6 ∧
    find_table catalog (str "db") (str "t") 12 6 = find_table c' (str "db") (str "t") 12 6.
Proof.
  pose proof create_runs as Hr. destruct (run_ddl running catalog 11 5 create) as [[s c']|] eqn:Hrun; [|destruct Hr].
  exists s, c'. split; [reflexivity|].
  pose proof (ddl_isolation running catalog 11 5 create s c' 12 6 eq_refl ltac:(lia) (catalog_ok_distinct _ _ catalog_is_ok) Hrun) as H.
  split; [exact (proj1 (proj2 (H (str "db") (str "u") (str "i"))))|exact (proj1 (proj2 (H (str "db") (str "t") (str "i"))))].
Defined.

Definition created := CreateTable running catalog (str "db") 11 5 (table_def (str "u")) ConflictType.kError 3 (str "/data/db/u").

Example created_table_found_witness :
  ∃ e c', created = Ok (Some e, OK, c') ∧ GetTableByName c' (str "db") (str "u") 11 5 = Ok (Some e, OK).
Proof.
  assert (match created with Ok (Some _, OK, _) => true | _ => false end = true) as Hc by (vm_compute; reflexivity).
  destruct created as [[[[e|] s] c']|] eqn:Hr; try discriminate Hc. destruct s; try discriminate Hc.
  exists e, c'. split; [reflexivity|].
  exact (proj1 (created_table_found running catalog (str "db") 11 5 (table_def (str "u")) ConflictType.kError 3 (str "/data/db/u") e c' Hr)).
Defined.
End SampleCatalog.

(** C32. Two transactions that run side by side can leave a log that cannot be replayed.  In any catalog
    with a live database, if one transaction creates a table in it, another that began when the
    database was committed can still drop the database, for neither touches a name the other writes.
    When the drop commits first, the log has it before the creation, and replaying the log raises
    [UnrecoverableError]; in the other order it replays. *)
Theorem unreplayable_log {B : Type} (state : Z → TxnState) c db e rest i b1 table_def ct a dir (t1 : DDLTxn B) c1 j b2 ct' a' :
  live_database c db e rest (Z.min b1 b2) → state j = TxnState.kStarted →
  Txn_CreateTable state (mkDDLTxn i b1 [] []) c db table_def ct a dir = Ok (OK, t1, c1) →
  ∃ t2 c2, Txn_DropDatabase state (mkDDLTxn j b2 [] []) c1 db ct' a' = Ok (OK, t2, c2) ∧
    ∀ address ts ts',
      replay_log c address [(j, ts, ddl_cmds_ t2); (i, ts', ddl_cmds_ t1)] = Err UnrecoverableError ∧
      is_ok (replay_log c address [(i, ts, ddl_cmds_ t1); (j, ts', ddl_cmds_ t2)]).
Proof.
  intros Hl Hj Hr. destruct Hl as [Hf [Hc Hle] Hk].
  destruct (create_in_live state c db e rest i b1 table_def ct a dir t1 c1) as [(tail & Ht1) (d & rest' & Hf1)]; [split; auto with lia|exact Hr|].
  destruct (drop_live (B := B) state c1 db (set_payload e d) rest' j b2 ct' a') as (t2 & c2 & Hd & Ht2); [split; [done|split; [done|cbn; lia]|done]|done|].
  exists t2, c2. split; [done|]. intros address ts ts'. rewrite Ht1, Ht2.
  split; [eapply (replay_drop_first c db e rest (Z.min b1 b2))|eapply (replay_create_first c db e rest (Z.min b1 b2))]; done.
Qed.

Example unreplayable_log_witness :
  ∃ (t1 : DDLTxn unit) c1 t2 c2,
    Txn_CreateTable SampleCatalog.running (mkDDLTxn 11 5 [] []) SampleCatalog.catalog (str "db")
      (SampleCatalog.table_def (str "u")) ConflictType.kError 3 (str "/data/db/u") = Ok (OK, t1, c1) ∧
    Txn_DropDatabase SampleCatalog.running (mkDDLTxn 12 6 [] []) c1 (str "db") ConflictType.kError 4 = Ok (OK, t2, c2) ∧
    ∀ address ts ts',
      replay_log SampleCatalog.catalog address [(12, ts, ddl_cmds_ t2); (11, ts', ddl_cmds_ t1)] = Err UnrecoverableError ∧
      is_ok (replay_log SampleCatalog.catalog address [(11, ts, ddl_cmds_ t1); (12, ts', ddl_cmds_ t2)]).
Proof.
  destruct (Txn_CreateTable (B := unit) SampleCatalog.running (mkDDLTxn 11 5 [] []) SampleCatalog.catalog (str "db")
      (SampleCatalog.table_def (str "u")) ConflictType.kError 3 (str "/data/db/u")) as [[[s t1] c1]|] eqn:Hr; [|by vm_compute in Hr].
  assert (s = OK) as -> by (vm_compute in Hr; by injection Hr as <- <- <-). exists t1, c1.
  destruct (unreplayable_log SampleCatalog.running SampleCatalog.catalog (str "db") SampleCatalog.database [] 11 5
    (SampleCatalog.table_def (str "u")) ConflictType.kError 3 (str "/data/db/u") t1 c1 12 6 ConflictType.kError 4) as (t2 & c2 & Hd & Hl);
    [split; [by vm_compute|by split; [|vm_compute]|reflexivity]|reflexivity|exact Hr|].
  exists t2, c2. split; [done|]. split; [exact Hd|exact Hl].
Defined.
