(* ===== verification/CompactAlg.v ===== *)
(** * Which segments to compact

    [DBTCompactionAlg] ([storage/compaction/DBT_compaction_alg.cpp]) keeps the sealed segments of a
    table in layers by their number of rows and hands [m_] segments of one layer to a compacting
    transaction.  Manual compaction first disables it and waits for running compactions
    ([TableEntry::CompactPrepare], [CommitCompact] and [RollbackCompact] in
    [storage/meta/entry/table_entry.cpp]).

    A segment stands for its identifier; the number of its rows when an operation looks at it is an
    argument.  The operations take the layer of a number of rows as the function [CalculateLayer], which in
    the program is [DBTConfig_CalculateLayer]; of that formula the quotient of the two calls of
    [std::log], cut to an [int], is a parameter.  The thread that waits in [Disable] is part of the state: it sleeps on the
    condition variable until it is notified. *)

From Stdlib Require Import ZArith Lia List.
From stdpp Require Import base list numbers gmap.
From S2P Require Import Prelude TxnStore.
Local Open Scope Z_scope.

Module CompactionStatus.
Inductive t := kDisable | kEnable | kRunning.
End CompactionStatus.
Notation CompactionStatus := CompactionStatus.t.

#[export] Instance CompactionStatus_eq_dec : EqDecision CompactionStatus.
Proof. solve_decision. Defined.

(** ** One layer *)
Record SegmentLayer := mkLayer {
  segments_ : gset Z;
  compacting_segments_map_ : gmap Z (list Z) }.

Definition SegmentLayer_new : SegmentLayer := mkLayer ∅ ∅.

Section Layer.
Context {HO : HashOrder}.
Implicit Types L : SegmentLayer.

Definition Layer_AddSegment L (segment_id : Z) : result SegmentLayer :=
  if bool_decide (segment_id ∈ segments_ L) then Err UnrecoverableError
  else Ok (mkLayer ({[segment_id]} ∪ segments_ L) (compacting_segments_map_ L)).

Definition Layer_RemoveSegment L (shrink_id : Z) : result SegmentLayer :=
  if bool_decide (shrink_id ∈ segments_ L) then Ok (mkLayer (segments_ L ∖ {[shrink_id]}) (compacting_segments_map_ L))
  else Err UnrecoverableError.

Definition LayerSize L : nat := size (segments_ L).

(** The first [M] segments of the hash map, one by one. *)
Definition PickCompacting L (txn_id : Z) (M : nat) : result (list Z * SegmentLayer) :=
  let pick_n := Nat.min M (LayerSize L) in
  let ret := take pick_n (iter_set (segments_ L)) in
  match compacting_segments_map_ L !! txn_id with
  | Some _ => Err UnrecoverableError
  | None => Ok (ret, mkLayer (segments_ L ∖ list_to_set ret) (<[txn_id := ret]> (compacting_segments_map_ L)))
  end.

Definition Layer_CommitCompact L (txn_id : Z) : result SegmentLayer :=
  match compacting_segments_map_ L !! txn_id with
  | Some _ => Ok (mkLayer (segments_ L) (delete txn_id (compacting_segments_map_ L)))
  | None => Err UnrecoverableError
  end.

Definition Layer_RollbackCompact L (txn_id : Z) : result SegmentLayer :=
  match compacting_segments_map_ L !! txn_id with
  | Some ids =>
      let? L := res_fold Layer_AddSegment L ids in
      Ok (mkLayer (segments_ L) (delete txn_id (compacting_segments_map_ L)))
  | None => Err UnrecoverableError
  end.

Definition FindSegment L (segment_id : Z) : bool := bool_decide (segment_id ∈ segments_ L).
End Layer.

(** ** The layers of a table *)
Record DBTCompactionAlg := mkAlg {
  status_ : CompactionStatus;
  segment_layers_ : list SegmentLayer;
  running_task_n_ : Z;
  txn_2_layer_ : gmap Z nat;
  waiting_ : bool;
  woken_ : bool }.

(** [cv_.notify_one()] *)
Definition notify_one (this : DBTCompactionAlg) : DBTCompactionAlg :=
  if waiting_ this then
    mkAlg (status_ this) (segment_layers_ this) (running_task_n_ this) (txn_2_layer_ this) false true
  else this.

Definition set_layers (this : DBTCompactionAlg) (layers : list SegmentLayer) : DBTCompactionAlg :=
  mkAlg (status_ this) layers (running_task_n_ this) (txn_2_layer_ this) (waiting_ this) (woken_ this).

(** *** Parameters *)
Record DBTConfig := mkConfig { config_m_ : Z; config_c_ : Z; config_s_ : Z }.

Definition DBTConfig_new (m c s : Z) : result DBTConfig :=
  if (m <=? 0) || (c <? m) || (s <=? 0) then Err UnrecoverableError else Ok (mkConfig m c s).

(** [log_quotient n c] is [static_cast<int>(std::log(n) / std::log(c))]. *)
Definition DBTConfig_CalculateLayer (log_quotient : Z → Z → Z) (config : DBTConfig) (row_cnt : Z) : nat :=
  Z.to_nat (Z.max 0 (log_quotient (row_cnt / config_s_ config) (config_c_ config))).

Section Alg.
Context {HO : HashOrder} (CalculateLayer : Z → nat) (m_ : nat).
Implicit Types this : DBTCompactionAlg.

Definition at_layer (layers : list SegmentLayer) (layer : nat) : result SegmentLayer :=
  match layers !! layer with Some L => Ok L | None => Err OutOfBounds end.

(** The highest layer with [m_] segments, below layer [layer]. *)
Fixpoint full_layer (layers : list SegmentLayer) (layer : nat) : option (nat * SegmentLayer) :=
  match layer with
  | O => None
  | S layer =>
      match layers !! layer with
      | Some L => if (m_ <=? LayerSize L)%nat then Some (layer, L) else full_layer layers layer
      | None => full_layer layers layer
      end
  end.

Definition CheckCompaction this (txn_id : Z) : result (list Z * DBTCompactionAlg) :=
  match status_ this with
  | CompactionStatus.kDisable => Ok ([], this)
  | _ =>
      match full_layer (segment_layers_ this) (length (segment_layers_ this)) with
      | None => Ok ([], this)
      | Some (layer, segment_layer) =>
          let n := running_task_n_ this + 1 in
          let status := if n =? 1 then CompactionStatus.kRunning else status_ this in
          let? '(compact_segments, segment_layer) := PickCompacting segment_layer txn_id m_ in
          Ok (compact_segments,
              mkAlg status (<[layer := segment_layer]> (segment_layers_ this)) n
                (match txn_2_layer_ this !! txn_id with
                 | Some _ => txn_2_layer_ this
                 | None => <[txn_id := layer]> (txn_2_layer_ this)
                 end)
                (waiting_ this) (woken_ this))
      end
  end.

Definition resize (layers : list SegmentLayer) (n : nat) : list SegmentLayer :=
  layers ++ replicate (n - length layers) SegmentLayer_new.

Definition AddSegment this (new_segment rows : Z) : result DBTCompactionAlg :=
  let layer := CalculateLayer rows in
  let layers := resize (segment_layers_ this) (S layer) in
  let? segment_layer := at_layer layers layer in
  let? segment_layer := Layer_AddSegment segment_layer new_segment in
  Ok (set_layers this (<[layer := segment_layer]> layers)).

Fixpoint FindSegmentAndLayer (layers : list SegmentLayer) (segment_id : Z) : option nat :=
  match layers with
  | [] => None
  | L :: layers => if FindSegment L segment_id then Some O else S <$> FindSegmentAndLayer layers segment_id
  end.

Definition DeleteInSegment this (segment_id rows : Z) : result DBTCompactionAlg :=
  match FindSegmentAndLayer (segment_layers_ this) segment_id with
  | None => Ok this
  | Some old_layer =>
      let new_layer := CalculateLayer rows in
      if (new_layer =? old_layer)%nat then Ok this
      else if (old_layer <? new_layer)%nat then Err UnrecoverableError
      else
        let? old := at_layer (segment_layers_ this) old_layer in
        let? old := Layer_RemoveSegment old segment_id in
        let layers := <[old_layer := old]> (segment_layers_ this) in
        let? new := at_layer layers new_layer in
        let? new := Layer_AddSegment new segment_id in
        Ok (set_layers this (<[new_layer := new]> layers))
  end.

(** The end of a compaction: [f] on the layer it was picked from. *)
Definition end_compact (f : SegmentLayer → Z → result SegmentLayer) this (txn_id : Z) : result DBTCompactionAlg :=
  match status_ this with
  | CompactionStatus.kRunning =>
      match txn_2_layer_ this !! txn_id with
      | Some layer =>
          let? L := at_layer (segment_layers_ this) layer in
          let? L := f L txn_id in
          let n := running_task_n_ this - 1 in
          Ok (mkAlg (if n =? 0 then CompactionStatus.kEnable else status_ this)
                (<[layer := L]> (segment_layers_ this)) n (delete txn_id (txn_2_layer_ this)) (waiting_ this) (woken_ this))
      | None => Err UnrecoverableError
      end
  | _ => Err UnrecoverableError
  end.

Definition CommitCompact this (commit_txn_id : Z) : result DBTCompactionAlg :=
  let? this := end_compact Layer_CommitCompact this commit_txn_id in
  Ok (if running_task_n_ this =? 0 then notify_one this else this).

Definition RollbackCompact this (rollback_txn_id : Z) : result DBTCompactionAlg :=
  end_compact Layer_RollbackCompact this rollback_txn_id.

Definition Enable this (segment_entries : list (Z * Z)) : result DBTCompactionAlg :=
  match status_ this with
  | CompactionStatus.kDisable =>
      let? this := res_fold (fun this '(segment, rows) => AddSegment this segment rows) this segment_entries in
      if running_task_n_ this =? 0 then
        Ok (notify_one (mkAlg CompactionStatus.kEnable (segment_layers_ this) (running_task_n_ this) (txn_2_layer_ this)
                          (waiting_ this) (woken_ this)))
      else Err UnrecoverableError
  | _ => Err UnrecoverableError
  end.

(** [Disable] up to where it may sleep, and from where it wakes up; [wait] looks at the status
    first. *)
Definition wait_disable this : DBTCompactionAlg :=
  match status_ this with
  | CompactionStatus.kEnable =>
      mkAlg CompactionStatus.kDisable [] (running_task_n_ this) (txn_2_layer_ this) false false
  | _ => mkAlg (status_ this) (segment_layers_ this) (running_task_n_ this) (txn_2_layer_ this) true false
  end.

Definition DBTCompactionAlg_new : DBTCompactionAlg := mkAlg CompactionStatus.kDisable [] 0 ∅ false false.

Inductive event :=
| EAdd (segment rows : Z)
| EDelete (segment rows : Z)
| ECheck (txn_id : Z)
| ECommit (txn_id : Z)
| ERollback (txn_id : Z)
| EEnable (segment_entries : list (Z * Z))
| EDisable
| EWake.

Definition step this (e : event) : result DBTCompactionAlg :=
  match e with
  | EAdd segment rows => AddSegment this segment rows
  | EDelete segment rows => DeleteInSegment this segment rows
  | ECheck txn_id => let? r := CheckCompaction this txn_id in Ok r.2
  | ECommit txn_id => CommitCompact this txn_id
  | ERollback txn_id => RollbackCompact this txn_id
  | EEnable segment_entries => Enable this segment_entries
  | EDisable => Ok (wait_disable this)
  | EWake => if woken_ this then Ok (wait_disable this) else Ok this
  end.

Definition steps this (es : list event) : result DBTCompactionAlg := res_fold step this es.
End Alg.

(** ** The table's side *)
Section Table.
Context {HO : HashOrder} (CalculateLayer : Z → nat) (m_ : nat).
Implicit Types this : DBTCompactionAlg.

(** [TableEntry::CommitCompact]: what it does with the layers. *)
Definition Table_CommitCompact this (type : CompactStatementType) (txn_id : Z) : result DBTCompactionAlg :=
  match type with
  | kInvalid => Ok this
  | kAuto => CommitCompact this txn_id
  | kManual => Enable CalculateLayer this []
  end.

(** [TableEntry::RollbackCompact]; [old_segments] are the segments of each group that was being
    compacted. *)
Definition Table_RollbackCompact this (type : CompactStatementType) (txn_id : Z) (old_segments : list (list (Z * Z)))
  : result DBTCompactionAlg :=
  match old_segments with
  | [] => Ok this
  | _ =>
      match type with
      | kAuto => RollbackCompact this txn_id
      | kManual => Enable CalculateLayer this (concat old_segments)
      | kInvalid => Err UnrecoverableError
      end
  end.
End Table.
