(* ===== verification/CompactAlgSpec.v ===== *)
(** * The layers of segments: what they keep

    Every segment the layers know is in one layer or being compacted by one transaction; every
    operation, used as the table uses it, succeeds and keeps it so ([compaction_layers_ok]).  A
    compaction takes [m_] segments of the highest layer that has them ([compaction_picks]) and rolling
    it back undoes it exactly ([compaction_rollback]).  The last theorems are about the thread that
    waits to disable automatic compaction. *)

From Stdlib Require Import ZArith Lia List.
From stdpp Require Import base list numbers gmap.
From S2P Require Import Prelude TxnStore CompactAlg.
Local Open Scope Z_scope.

(** ** Where segments are *)
Section Placed.
Implicit Types (S : nat → gset Z) (C : nat → gmap Z (list Z)) (T : gmap Z nat).

Definition upd {A} (f : nat → A) (l : nat) (x : A) : nat → A := fun k => if decide (k = l) then x else f k.

Lemma upd_eq {A} (f : nat → A) l x : upd f l x l = x.
Proof. unfold upd. by rewrite decide_True. Qed.
Lemma upd_ne {A} (f : nat → A) l x k : k ≠ l → upd f l x k = f k.
Proof. intros Hk. unfold upd. by rewrite decide_False. Qed.

(** A segment is in one layer or being compacted by one transaction, whose layer is known. *)
Record placed_ok S C T : Prop := {
  p_once : ∀ id l l', id ∈ S l → id ∈ S l' → l = l';
  p_free : ∀ id l l' t ids, id ∈ S l → C l' !! t = Some ids → id ∉ ids;
  p_own : ∀ id l l' t t' ids ids', C l !! t = Some ids → C l' !! t' = Some ids' → id ∈ ids → id ∈ ids' → t = t';
  p_nodup : ∀ l t ids, C l !! t = Some ids → NoDup ids;
  p_txn : ∀ t l, T !! t = Some l ↔ is_Some (C l !! t) }.

Definition absent S C (id : Z) : Prop := (∀ l, id ∉ S l) ∧ ∀ l t ids, C l !! t = Some ids → id ∉ ids.

Lemma placed_add S C T l id : placed_ok S C T → absent S C id → placed_ok (upd S l ({[id]} ∪ S l)) C T.
Proof.
  intros [H1 H2 H3 H4 H5] [Ha Hb].
  assert (∀ i k, i ∈ upd S l ({[id]} ∪ S l) k → (i = id ∧ k = l) ∨ i ∈ S k) as Hu.
  { intros i k. unfold upd. destruct (decide (k = l)) as [->|]; set_solver. }
  split; [|intros i k k' t ids Hi Hc|done..].
  - intros i k k' [[Hi Hk]|Hk]%Hu [[Hi' Hk']|Hk']%Hu; subst; [done|by destruct (Ha _ Hk')|by destruct (Ha _ Hk)|by eapply H1].
  - apply Hu in Hi as [[-> ->]|Hi]; [by eapply Hb|by eapply H2].
Qed.

Lemma placed_remove S C T l id : placed_ok S C T → placed_ok (upd S l (S l ∖ {[id]})) C T.
Proof.
  intros [H1 H2 H3 H4 H5]. assert (∀ i k, i ∈ upd S l (S l ∖ {[id]}) k → i ∈ S k) as Hu.
  { intros i k. unfold upd. destruct (decide (k = l)) as [->|]; set_solver. }
  split; try done; eauto.
Qed.

Lemma remove_absent S C T l id : placed_ok S C T → id ∈ S l → absent (upd S l (S l ∖ {[id]})) C id.
Proof.
  intros HP Hi. split.
  - intros k. unfold upd. destruct (decide (k = l)) as [->|Hne]; [set_solver|]. intros Hk. by apply Hne, (p_once _ _ _ HP id).
  - intros k t ids Hc. by eapply p_free.
Qed.

Lemma placed_pick S C T l t ids :
  placed_ok S C T → T !! t = None → NoDup ids → (∀ i, i ∈ ids → i ∈ S l) →
  placed_ok (upd S l (S l ∖ list_to_set ids)) (upd C l (<[t := ids]> (C l))) (<[t := l]> T).
Proof.
  intros [H1 H2 H3 H4 H5] Ht Hn Hin.
  assert (∀ i k, i ∈ upd S l (S l ∖ list_to_set ids) k → i ∈ S k ∧ (k = l → i ∉ ids)) as Hs.
  { intros i k. unfold upd. destruct (decide (k = l)) as [->|]; [|done]. rewrite elem_of_difference, elem_of_list_to_set. naive_solver. }
  assert (∀ k, is_Some (C k !! t) → False) as Hnew.
  { intros k Hk. apply H5 in Hk. congruence. }
  assert (∀ k u js, upd C l (<[t := ids]> (C l)) k !! u = Some js → (u = t ∧ k = l ∧ js = ids) ∨ (u ≠ t ∧ C k !! u = Some js)) as Hc.
  { intros k u js. unfold upd. destruct (decide (k = l)) as [->|].
    - destruct (decide (u = t)) as [->|]; [rewrite lookup_insert_eq; naive_solver|rewrite lookup_insert_ne by done; naive_solver].
    - intros Hu. right. split; [|done]. intros ->. by eapply Hnew. }
  split.
  - intros i k k' [? _]%Hs [? _]%Hs. eauto.
  - intros i k k' u js [Hi Hni]%Hs [(-> & -> & ->)|[_ Hu]]%Hc; [|by eapply H2].
    intros Hj. destruct (H1 _ _ _ Hi (Hin _ Hj)). by apply Hni.
  - intros i k k' u u' js js' [(-> & -> & ->)|[Hu1 Hu]]%Hc [(-> & -> & ->)|[Hu2 Hu']]%Hc Hi Hi'; [done| | |by eapply H3].
    + by destruct (H2 _ _ _ _ _ (Hin _ Hi) Hu').
    + by destruct (H2 _ _ _ _ _ (Hin _ Hi') Hu).
  - intros k u js [(-> & -> & ->)|[_ Hu]]%Hc; [done|by eapply H4].
  - intros u k. destruct (decide (u = t)) as [->|Hut].
    + rewrite lookup_insert_eq. unfold upd. destruct (decide (k = l)) as [->|Hk].
      * rewrite lookup_insert_eq. naive_solver.
      * split; [congruence|]. intros Hs'. by destruct (Hnew k).
    + rewrite lookup_insert_ne by done. rewrite H5. unfold upd. destruct (decide (k = l)) as [->|]; [|done].
      by rewrite lookup_insert_ne.
Qed.

Lemma placed_commit S C T l t : placed_ok S C T → T !! t = Some l → placed_ok S (upd C l (delete t (C l))) (delete t T).
Proof.
  intros [H1 H2 H3 H4 H5] Ht.
  assert (∀ k u js, upd C l (delete t (C l)) k !! u = Some js → C k !! u = Some js ∧ u ≠ t) as Hc.
  { intros k u js. unfold upd. destruct (decide (k = l)) as [->|Hk]; [rewrite lookup_delete_Some; naive_solver|].
    intros Hu. split; [done|]. intros ->. apply Hk. apply (inj Some). rewrite <- Ht. symmetry. apply H5. by eexists. }
  split; eauto.
  - intros i k k' u js Hi [Hu _]%Hc. eauto.
  - intros i k k' u u' js js' [Hu _]%Hc [Hu' _]%Hc. eauto.
  - intros k u js [Hu _]%Hc. eauto.
  - intros u k. destruct (decide (u = t)) as [->|Hut].
    + rewrite lookup_delete_eq. split; [done|]. intros [js [_ ?]%Hc]. done.
    + rewrite lookup_delete_ne by done. rewrite H5. unfold upd. destruct (decide (k = l)) as [->|]; [|done].
      by rewrite lookup_delete_ne.
Qed.

Lemma commit_absent S C T l t ids id :
  placed_ok S C T → C l !! t = Some ids → id ∈ ids → absent S (upd C l (delete t (C l))) id.
Proof.
  intros HP Hl Hi. split; [intros k Hk; by eapply p_free|]. intros k u js Hu Hj. unfold upd in Hu.
  assert (T !! t = Some l) as Ht by (by apply (p_txn _ _ _ HP); eexists).
  destruct (decide (k = l)) as [->|Hk].
  - apply lookup_delete_Some in Hu as [Hne Hu]. by apply Hne, (p_own _ _ _ HP id l l t u ids js).
  - assert (u = t) as -> by (symmetry; by eapply (p_own _ _ _ HP id)). apply Hk.
    apply (inj Some). rewrite <- Ht. symmetry. apply (p_txn _ _ _ HP). by eexists.
Qed.
End Placed.

Lemma placed_ext (S S' : nat → gset Z) (C C' : nat → gmap Z (list Z)) T :
  (∀ l, S l = S' l) → (∀ l, C l = C' l) → placed_ok S C T → placed_ok S' C' T.
Proof.
  intros HS HC [H1 H2 H3 H4 H5]. split.
  - intros id l l'. rewrite <- !HS. apply H1.
  - intros id l l' t ids. rewrite <- HS, <- HC. apply H2.
  - intros id l l' t t' ids ids'. rewrite <- !HC. apply H3.
  - intros l t ids. rewrite <- HC. apply H4.
  - intros t l. rewrite <- HC. apply H5.
Qed.

Lemma placed_adds (S : nat → gset Z) C T l ids :
  placed_ok S C T → NoDup ids → (∀ id, id ∈ ids → absent S C id) → placed_ok (upd S l (list_to_set ids ∪ S l)) C T.
Proof.
  intros HP Hn. revert S HP. induction Hn as [|id ids Hid _ IH]; intros S HP Ha.
  - eapply placed_ext; [|done|exact HP]. intros k. unfold upd. destruct (decide (k = l)) as [->|]; [|done]. set_solver.
  - eapply placed_ext; [| |apply (IH (upd S l ({[id]} ∪ S l)))]; [|done|by apply placed_add; [|apply Ha; left]|].
    + intros k. cbn. unfold upd. destruct (decide (k = l)) as [->|]; [|done]. rewrite decide_True by done. set_solver.
    + intros j Hj. destruct (Ha j) as [H1 H2]; [by right|]. split; [|done]. intros k. unfold upd.
      destruct (decide (k = l)) as [->|]; [|done]. rewrite elem_of_union, elem_of_singleton. intros [->|?]; [done|by eapply H1].
Qed.

(** ** The invariant *)
Definition segs (layers : list SegmentLayer) (l : nat) : gset Z := match layers !! l with Some L => segments_ L | None => ∅ end.
Definition comp (layers : list SegmentLayer) (l : nat) : gmap Z (list Z) :=
  match layers !! l with Some L => compacting_segments_map_ L | None => ∅ end.

Record alg_ok (this : DBTCompactionAlg) : Prop := {
  a_placed : placed_ok (segs (segment_layers_ this)) (comp (segment_layers_ this)) (txn_2_layer_ this);
  a_running : running_task_n_ this = Z.of_nat (size (txn_2_layer_ this));
  a_status : match status_ this with CompactionStatus.kRunning => 0 < running_task_n_ this | _ => running_task_n_ this = 0 end }.

Lemma lookup_layer (layers : list SegmentLayer) l L k (L' : SegmentLayer) :
  layers !! l = Some L → <[l := L']> layers !! k = if decide (k = l) then Some L' else layers !! k.
Proof.
  intros Hl. destruct (decide (k = l)) as [->|Hne]; [|by rewrite list_lookup_insert_ne].
  apply list_lookup_insert_eq. by eapply lookup_lt_Some.
Qed.

Lemma segs_insert (layers : list SegmentLayer) l L (L' : SegmentLayer) k :
  layers !! l = Some L → segs (<[l := L']> layers) k = upd (segs layers) l (segments_ L') k.
Proof. intros Hl. unfold segs at 1, upd. rewrite (lookup_layer _ _ _ _ _ Hl). by destruct (decide _). Qed.

Lemma comp_insert (layers : list SegmentLayer) l L (L' : SegmentLayer) k :
  layers !! l = Some L → comp (<[l := L']> layers) k = upd (comp layers) l (compacting_segments_map_ L') k.
Proof. intros Hl. unfold comp at 1, upd. rewrite (lookup_layer _ _ _ _ _ Hl). by destruct (decide _). Qed.

Lemma segs_at layers l L : layers !! l = Some L → segs layers l = segments_ L.
Proof. unfold segs. by intros ->. Qed.
Lemma comp_at layers l L : layers !! l = Some L → comp layers l = compacting_segments_map_ L.
Proof. unfold comp. by intros ->. Qed.

Lemma resize_lookup layers n k :
  resize layers n !! k = layers !! k ∨ layers !! k = None ∧ resize layers n !! k = Some SegmentLayer_new.
Proof.
  unfold resize. destruct (decide (k < length layers)%nat); [left; by rewrite lookup_app_l|].
  rewrite lookup_app_r by lia. destruct (decide (k - length layers < n - length layers)%nat) as [Hlt|].
  - right. split; [apply lookup_ge_None_2; lia|]. by apply lookup_replicate_2.
  - left. rewrite !lookup_ge_None_2; [done|lia|rewrite length_replicate; lia].
Qed.

Lemma segs_resize layers n k : segs (resize layers n) k = segs layers k.
Proof. unfold segs. by destruct (resize_lookup layers n k) as [-> | [-> ->]]. Qed.
Lemma comp_resize layers n k : comp (resize layers n) k = comp layers k.
Proof. unfold comp. by destruct (resize_lookup layers n k) as [-> | [-> ->]]. Qed.

Lemma placed_insert (layers : list SegmentLayer) l L (L' : SegmentLayer) T :
  layers !! l = Some L →
  placed_ok (upd (segs layers) l (segments_ L')) (upd (comp layers) l (compacting_segments_map_ L')) T →
  placed_ok (segs (<[l := L']> layers)) (comp (<[l := L']> layers)) T.
Proof. intros Hl. apply placed_ext; intros k; symmetry; [by eapply segs_insert|by eapply comp_insert]. Qed.

Lemma upd_same {A} (f : nat → A) l k : upd f l (f l) k = f k.
Proof. unfold upd. by destruct (decide (k = l)) as [->|]. Qed.

Lemma placed_insert_segs (layers : list SegmentLayer) l L (X : gset Z) T :
  layers !! l = Some L → placed_ok (upd (segs layers) l X) (comp layers) T →
  let layers' := <[l := mkLayer X (compacting_segments_map_ L)]> layers in placed_ok (segs layers') (comp layers') T.
Proof.
  intros Hl HP. eapply placed_insert; [exact Hl|]. eapply placed_ext; [done| |exact HP]. intros k. cbn.
  rewrite <- (comp_at _ _ _ Hl). symmetry. apply upd_same.
Qed.

Section Ops.
Context {HO : HashOrder} (CalculateLayer : Z → nat) (m_ : nat).
Implicit Types this : DBTCompactionAlg.

Lemma resized_lookup layers l : ∃ L, resize layers (S l) !! l = Some L.
Proof.
  apply lookup_lt_is_Some. unfold resize. rewrite length_app, length_replicate. lia.
Qed.

Lemma AddSegment_ok this id rows :
  alg_ok this → absent (segs (segment_layers_ this)) (comp (segment_layers_ this)) id →
  ∃ layers, AddSegment CalculateLayer this id rows = Ok (set_layers this layers) ∧ alg_ok (set_layers this layers) ∧
    (∀ k, segs layers k = upd (segs (segment_layers_ this)) (CalculateLayer rows) ({[id]} ∪ segs (segment_layers_ this) (CalculateLayer rows)) k) ∧
    ∀ k, comp layers k = comp (segment_layers_ this) k.
Proof.
  intros [HP Hr Hs] Ha. unfold AddSegment. set (l := CalculateLayer rows). destruct (resized_lookup (segment_layers_ this) l) as [L HL].
  unfold at_layer. rewrite HL. cbn [res_bind]. unfold Layer_AddSegment.
  assert (id ∉ segments_ L) as Hn. { rewrite <- (segs_at _ _ _ HL), segs_resize. apply Ha. }
  rewrite bool_decide_eq_false_2 by done. cbn [res_bind]. eexists. split; [done|].
  set (layers' := <[l := _]> _).
  assert (∀ k, segs layers' k = upd (segs (segment_layers_ this)) l ({[id]} ∪ segs (segment_layers_ this) l) k) as HSg.
  { intros k. unfold layers'. rewrite (segs_insert _ _ _ _ _ HL). cbn. rewrite <- (segs_at _ _ _ HL), segs_resize. unfold upd.
    destruct (decide _); [done|apply segs_resize]. }
  assert (∀ k, comp layers' k = comp (segment_layers_ this) k) as HCm.
  { intros k. unfold layers'. rewrite (comp_insert _ _ _ _ _ HL). cbn. rewrite <- (comp_at _ _ _ HL), upd_same. apply comp_resize. }
  split; [|done]. split; [|done..]. cbn. eapply placed_ext; [intros k; symmetry; apply HSg|intros k; symmetry; apply HCm|].
  by apply placed_add.
Qed.

Lemma FindSegmentAndLayer_Some layers id l :
  FindSegmentAndLayer layers id = Some l → ∃ L, layers !! l = Some L ∧ id ∈ segments_ L.
Proof.
  revert l. induction layers as [|L layers IH]; intros l; cbn; [done|]. unfold FindSegment. case_bool_decide as Hin.
  - intros [= <-]. by exists L.
  - destruct (FindSegmentAndLayer layers id) as [k|]; [|done]. intros [= <-]. by apply IH.
Qed.

Lemma DeleteInSegment_ok this id rows :
  alg_ok this → (∀ l, id ∈ segs (segment_layers_ this) l → (CalculateLayer rows ≤ l)%nat) →
  ∃ this', DeleteInSegment CalculateLayer this id rows = Ok this' ∧ alg_ok this'.
Proof.
  intros Hok Hrows. destruct Hok as [HP Hr Hs]. unfold DeleteInSegment.
  destruct (FindSegmentAndLayer (segment_layers_ this) id) as [o|] eqn:Hf; [|by exists this].
  destruct (FindSegmentAndLayer_Some _ _ _ Hf) as (L & HL & Hin). set (n := CalculateLayer rows) in *.
  assert (id ∈ segs (segment_layers_ this) o) as Hin' by (by rewrite (segs_at _ _ _ HL)). specialize (Hrows _ Hin').
  destruct (Nat.eqb_spec n o) as [|Hne]; [by exists this|]. destruct (Nat.ltb_spec o n); [lia|].
  unfold at_layer at 1. rewrite HL. cbn [res_bind]. unfold Layer_RemoveSegment. rewrite bool_decide_eq_true_2 by done. cbn [res_bind].
  pose proof (placed_insert_segs _ _ _ (segments_ L ∖ {[id]}) (txn_2_layer_ this) HL) as Hrem. cbn zeta in Hrem.
  rewrite <- (segs_at _ _ _ HL) in Hrem at 1. specialize (Hrem (placed_remove _ _ _ _ _ HP)).
  set (layers := <[o := _]> _) in *. assert (∃ N, layers !! n = Some N) as [N HN].
  { apply lookup_lt_is_Some. unfold layers. rewrite length_insert. apply lookup_lt_Some in HL. lia. }
  assert (absent (segs layers) (comp layers) id) as [Hab1 Hab2].
  { destruct (remove_absent _ _ _ _ _ HP Hin') as [H1 H2]. split.
    - intros k. unfold layers. rewrite (segs_insert _ _ _ _ _ HL). cbn. rewrite <- (segs_at _ _ _ HL). apply H1.
    - intros k t ids. unfold layers. rewrite (comp_insert _ _ _ _ _ HL). cbn. rewrite <- (comp_at _ _ _ HL), upd_same. apply H2. }
  unfold at_layer. rewrite HN. cbn [res_bind]. unfold Layer_AddSegment.
  rewrite bool_decide_eq_false_2 by (rewrite <- (segs_at _ _ _ HN); apply Hab1). cbn [res_bind].
  eexists. split; [done|]. split; [|done..]. cbn. apply placed_insert_segs; [done|]. rewrite <- (segs_at _ _ _ HN).
  by apply placed_add.
Qed.

Lemma full_layer_Some layers n l L :
  full_layer m_ layers n = Some (l, L) → layers !! l = Some L ∧ (m_ ≤ LayerSize L)%nat ∧ (l < n)%nat ∧
    ∀ k K, (l < k < n)%nat → layers !! k = Some K → (LayerSize K < m_)%nat.
Proof.
  induction n as [|n IH]; cbn; [done|]. intros H. destruct (layers !! n) as [K|] eqn:HK.
  - destruct (Nat.leb_spec m_ (LayerSize K)).
    + injection H as <- <-. split_and!; [done|done|lia|]. intros k K' Hk. lia.
    + destruct (IH H) as (H1 & H2 & H3 & H4). split_and!; [done|done|lia|]. intros k K' Hk HK'.
      destruct (decide (k = n)) as [->|]; [congruence|]. apply (H4 k); [lia|done].
  - destruct (IH H) as (H1 & H2 & H3 & H4). split_and!; [done|done|lia|]. intros k K' Hk HK'.
    destruct (decide (k = n)) as [->|]; [congruence|]. apply (H4 k); [lia|done].
Qed.

Lemma full_layer_None layers n k K :
  full_layer m_ layers n = None → (k < n)%nat → layers !! k = Some K → (LayerSize K < m_)%nat.
Proof.
  induction n as [|n IH]; cbn; [lia|]. intros H Hk HK. destruct (decide (k = n)) as [->|].
  - rewrite HK in H. destruct (Nat.leb_spec m_ (LayerSize K)); [done|lia].
  - apply IH; [|lia|done]. destruct (layers !! n); [|done]. by destruct (_ <=? _)%nat.
Qed.

Lemma iter_set_perm (X : gset Z) : iter_set X ≡ₚ elements X.
Proof.
  unfold iter_set. rewrite (iter_perm (set_to_map (λ k, (k, ())) X : gmap Z ())). apply NoDup_Permutation.
  - apply (NoDup_fst_map_to_list (set_to_map (λ k, (k, ())) X : gmap Z ())).
  - apply NoDup_elements.
  - intros x. rewrite elem_of_elements. change (map fst) with (fmap (M := list) (@fst Z ())). rewrite list_elem_of_fmap. split.
    + intros ([k v] & -> & Hk). apply elem_of_map_to_list in Hk. apply lookup_set_to_map in Hk; [|done]. destruct Hk as (y & Hy & [= -> _]). done.
    + intros Hx. exists (x, ()). split; [done|]. apply elem_of_map_to_list. apply lookup_set_to_map; [done|]. by exists x.
Qed.

(** What a compaction picks. *)
Lemma PickCompacting_spec L t :
  compacting_segments_map_ L !! t = None → (m_ ≤ LayerSize L)%nat →
  ∃ ids, PickCompacting L t m_ = Ok (ids, mkLayer (segments_ L ∖ list_to_set ids) (<[t := ids]> (compacting_segments_map_ L))) ∧
    length ids = m_ ∧ NoDup ids ∧ ∀ i, i ∈ ids → i ∈ segments_ L.
Proof.
  intros Ht Hm. unfold PickCompacting. rewrite Ht. eexists. split; [done|]. rewrite Nat.min_l by done.
  pose proof (iter_set_perm (segments_ L)) as Hp. split_and!.
  - rewrite length_take, Hp. unfold LayerSize in Hm. change (length (elements (segments_ L))) with (size (segments_ L)). lia.
  - assert (NoDup (iter_set (segments_ L))) as Hn by (rewrite Hp; apply NoDup_elements).
    rewrite <- (take_drop m_ (iter_set (segments_ L))) in Hn. by apply NoDup_app in Hn as [? _].
  - intros i Hi. apply elem_of_elements. rewrite <- Hp, <- (take_drop m_ (iter_set (segments_ L))). apply elem_of_app. by left.
Qed.

(** The state after picking [ids] from layer [l]. *)
Definition after_pick this (t : Z) (l : nat) L (ids : list Z) : DBTCompactionAlg :=
  mkAlg CompactionStatus.kRunning
    (<[l := mkLayer (segments_ L ∖ list_to_set ids) (<[t := ids]> (compacting_segments_map_ L))]> (segment_layers_ this))
    (running_task_n_ this + 1) (<[t := l]> (txn_2_layer_ this)) (waiting_ this) (woken_ this).

Definition none_full (layers : list SegmentLayer) : Prop := ∀ k K, layers !! k = Some K → (LayerSize K < m_)%nat.

Lemma comp_unknown this t l L :
  alg_ok this → txn_2_layer_ this !! t = None → segment_layers_ this !! l = Some L → compacting_segments_map_ L !! t = None.
Proof.
  intros [HP _ _] Ht HL. apply eq_None_not_Some. intros Hs. rewrite <- (comp_at _ _ _ HL) in Hs.
  apply (p_txn _ _ _ HP) in Hs. congruence.
Qed.

Lemma CheckCompaction_spec this t :
  alg_ok this → txn_2_layer_ this !! t = None →
  (CheckCompaction m_ this t = Ok ([], this) ∧ (status_ this = CompactionStatus.kDisable ∨ none_full (segment_layers_ this))) ∨
  ∃ l L ids, CheckCompaction m_ this t = Ok (ids, after_pick this t l L ids) ∧ status_ this ≠ CompactionStatus.kDisable ∧
    segment_layers_ this !! l = Some L ∧ (m_ ≤ LayerSize L)%nat ∧
    (∀ k K, (l < k)%nat → segment_layers_ this !! k = Some K → (LayerSize K < m_)%nat) ∧
    length ids = m_ ∧ NoDup ids ∧ ∀ i, i ∈ ids → i ∈ segments_ L.
Proof.
  intros Hok Ht. unfold CheckCompaction. destruct (status_ this) eqn:Hst; [by left; auto| |];
  (destruct (full_layer m_ (segment_layers_ this) (length (segment_layers_ this))) as [[l L]|] eqn:Hf;
   [right|left; split; [done|]; right; intros k K HK; by eapply full_layer_None; [|eapply lookup_lt_Some|]]);
  (destruct (full_layer_Some _ _ _ _ Hf) as (HL & Hm & Hl & Habove); pose proof (comp_unknown _ _ _ _ Hok Ht HL) as Hc;
   destruct (PickCompacting_spec L t Hc Hm) as (ids & Hp & Hlen & Hn & Hin); exists l, L, ids; rewrite Hp; cbn [res_bind]; rewrite Ht;
   pose proof (a_status _ Hok) as Hs; rewrite Hst in Hs; split_and!; try done;
   [unfold after_pick; do 2 f_equal; f_equal; destruct (Z.eqb_spec (running_task_n_ this + 1) 1); (done || lia)
   |intros k K Hk HK; apply (Habove k K); [split; [done|by eapply lookup_lt_Some]|done]]).
Qed.

Lemma after_pick_ok this t l L ids :
  alg_ok this → txn_2_layer_ this !! t = None → segment_layers_ this !! l = Some L → NoDup ids → (∀ i, i ∈ ids → i ∈ segments_ L) →
  alg_ok (after_pick this t l L ids).
Proof.
  intros [HP Hr Hs] Ht HL Hn Hin. unfold after_pick. split; cbn.
  - eapply placed_insert; [exact HL|]. cbn. rewrite <- (segs_at _ _ _ HL), <- (comp_at _ _ _ HL).
    apply placed_pick; try done. intros i Hi. rewrite (segs_at _ _ _ HL). auto.
  - rewrite map_size_insert_None by done. lia.
  - destruct (status_ this); lia.
Qed.

(** A compaction that is running ends. *)
Lemma known_layer this t l :
  alg_ok this → txn_2_layer_ this !! t = Some l →
  ∃ L ids, segment_layers_ this !! l = Some L ∧ compacting_segments_map_ L !! t = Some ids ∧ status_ this = CompactionStatus.kRunning.
Proof.
  intros [HP Hr Hs] Ht. pose proof (proj1 (p_txn _ _ _ HP t l) Ht) as [ids Hids]. unfold comp in Hids.
  destruct (segment_layers_ this !! l) as [L|]; [|done]. exists L, ids. split_and!; [done..|].
  assert (0 < size (txn_2_layer_ this))%nat.
  { apply Nat.neq_0_lt_0, map_size_ne_0_lookup. by exists t, l. }
  destruct (status_ this); [lia|lia|done].
Qed.

Lemma fold_add_segments L ids :
  NoDup ids → (∀ i, i ∈ ids → i ∉ segments_ L) →
  res_fold Layer_AddSegment L ids = Ok (mkLayer (list_to_set ids ∪ segments_ L) (compacting_segments_map_ L)).
Proof.
  intros Hn. revert L. induction Hn as [|i ids Hi _ IH]; intros L Hin; cbn.
  - f_equal. destruct L. cbn. f_equal. set_solver.
  - unfold Layer_AddSegment at 1. rewrite bool_decide_eq_false_2 by (apply Hin; by left). cbn [res_bind]. rewrite IH; cbn.
    + do 2 f_equal. set_solver.
    + intros j Hj. specialize (Hin j ltac:(by right)). set_solver.
Qed.

Lemma end_ok this t l (S' : gset Z) f L :
  alg_ok this → txn_2_layer_ this !! t = Some l → segment_layers_ this !! l = Some L →
  f L t = Ok (mkLayer S' (delete t (compacting_segments_map_ L))) →
  placed_ok (upd (segs (segment_layers_ this)) l S') (upd (comp (segment_layers_ this)) l (delete t (compacting_segments_map_ L)))
    (delete t (txn_2_layer_ this)) →
  ∃ this', end_compact f this t = Ok this' ∧ alg_ok this' ∧
    segment_layers_ this' = <[l := mkLayer S' (delete t (compacting_segments_map_ L))]> (segment_layers_ this) ∧
    txn_2_layer_ this' = delete t (txn_2_layer_ this) ∧ running_task_n_ this' = running_task_n_ this - 1 ∧
    waiting_ this' = waiting_ this ∧ woken_ this' = woken_ this ∧
    status_ this' = if running_task_n_ this - 1 =? 0 then CompactionStatus.kEnable else CompactionStatus.kRunning.
Proof.
  intros Hok Ht HL Hf HP. destruct (known_layer _ _ _ Hok Ht) as (L' & ids & HL' & Hids & Hst). simplify_eq.
  destruct Hok as [_ Hr Hs]. rewrite Hst in Hs. unfold end_compact. rewrite Hst, Ht. unfold at_layer. rewrite HL. cbn [res_bind].
  rewrite Hf. cbn [res_bind]. eexists. split; [done|]. split; [|done]. split; cbn.
  - by eapply placed_insert.
  - rewrite map_size_delete_Some by done. assert (0 < size (txn_2_layer_ this))%nat by lia. lia.
  - destruct (Z.eqb_spec (running_task_n_ this - 1) 0); lia.
Qed.

Lemma notify_ok this : alg_ok this → alg_ok (notify_one this).
Proof. intros Hok. unfold notify_one. destruct (waiting_ this); [|done]. by destruct Hok. Qed.

Lemma CommitCompact_ok this t : alg_ok this → is_Some (txn_2_layer_ this !! t) → ∃ this', CommitCompact this t = Ok this' ∧ alg_ok this'.
Proof.
  intros Hok [l Ht]. destruct (known_layer _ _ _ Hok Ht) as (L & ids & HL & Hids & Hst).
  destruct (end_ok this t l (segments_ L) Layer_CommitCompact L Hok Ht HL) as (this' & He & Hok' & _).
  - unfold Layer_CommitCompact. by rewrite Hids.
  - eapply placed_ext; [| |apply (placed_commit _ _ _ l t (a_placed _ Hok) Ht)].
    + intros k. rewrite <- (segs_at _ _ _ HL). symmetry. apply upd_same.
    + intros k. by rewrite (comp_at _ _ _ HL).
  - unfold CommitCompact. rewrite He. cbn [res_bind]. eexists. split; [done|]. destruct (_ =? 0); [by apply notify_ok|done].
Qed.

Lemma RollbackCompact_spec this t l L ids :
  alg_ok this → txn_2_layer_ this !! t = Some l → segment_layers_ this !! l = Some L → compacting_segments_map_ L !! t = Some ids →
  ∃ this', RollbackCompact this t = Ok this' ∧ alg_ok this' ∧
    segment_layers_ this' = <[l := mkLayer (list_to_set ids ∪ segments_ L) (delete t (compacting_segments_map_ L))]> (segment_layers_ this) ∧
    txn_2_layer_ this' = delete t (txn_2_layer_ this) ∧ running_task_n_ this' = running_task_n_ this - 1 ∧
    waiting_ this' = waiting_ this ∧ woken_ this' = woken_ this ∧
    status_ this' = if running_task_n_ this - 1 =? 0 then CompactionStatus.kEnable else CompactionStatus.kRunning.
Proof.
  intros Hok Ht HL Hids. pose proof (a_placed _ Hok) as HP.
  assert (comp (segment_layers_ this) l !! t = Some ids) as Hc by (by rewrite (comp_at _ _ _ HL)).
  apply (end_ok this t l (list_to_set ids ∪ segments_ L)); [done..| |].
  - unfold Layer_RollbackCompact. rewrite Hids, fold_add_segments; [done|by eapply p_nodup|].
    intros i Hi Hin. rewrite <- (segs_at _ _ _ HL) in Hin. by eapply (p_free _ _ _ HP i l l).
  - rewrite <- (segs_at _ _ _ HL), <- (comp_at _ _ _ HL). apply placed_adds; [by apply placed_commit|by eapply p_nodup|].
    intros i Hi. by eapply commit_absent.
Qed.

Lemma adds_ok this segs0 :
  alg_ok this → NoDup (map fst segs0) →
  (∀ i, i ∈ map fst segs0 → absent (segs (segment_layers_ this)) (comp (segment_layers_ this)) i) →
  ∃ layers, res_fold (fun this '(segment, rows) => AddSegment CalculateLayer this segment rows) this segs0 = Ok (set_layers this layers) ∧
    alg_ok (set_layers this layers).
Proof.
  revert this. induction segs0 as [|[id rows] segs0 IH]; intros this Hok Hn Ha; cbn in *.
  { exists (segment_layers_ this). by destruct this. }
  apply NoDup_cons in Hn as [Hid Hn].
  destruct (AddSegment_ok this id rows Hok) as (layers & -> & Hok' & HS & HC); [apply Ha; by left|]. cbn [res_bind].
  destruct (IH (set_layers this layers) Hok' Hn) as (layers' & -> & Hok''); [|by exists layers'].
  intros i Hi. destruct (Ha i ltac:(by right)) as [H1 H2]. split; cbn.
  - intros k. rewrite HS. unfold upd. destruct (decide (k = _)) as [->|]; [|done]. rewrite elem_of_union, elem_of_singleton.
    intros [->|?]; [done|by eapply H1].
  - intros k t ids. rewrite HC. apply H2.
Qed.

Lemma Enable_ok this segs0 :
  alg_ok this → status_ this = CompactionStatus.kDisable → NoDup (map fst segs0) →
  (∀ i, i ∈ map fst segs0 → absent (segs (segment_layers_ this)) (comp (segment_layers_ this)) i) →
  ∃ this', Enable CalculateLayer this segs0 = Ok this' ∧ alg_ok this' ∧ status_ this' = CompactionStatus.kEnable.
Proof.
  intros Hok Hst Hn Ha. unfold Enable. rewrite Hst. destruct (adds_ok _ _ Hok Hn Ha) as (layers & -> & Hok'). cbn [res_bind].
  pose proof (a_status _ Hok) as Hs. rewrite Hst in Hs. cbn [running_task_n_ set_layers]. rewrite Hs. cbn.
  eexists. split; [done|]. split; [|unfold notify_one; cbn; by destruct (waiting_ this)]. apply notify_ok. destruct Hok' as [HP Hr _].
  split; [done|by cbn in *; lia|done].
Qed.

Lemma wait_disable_ok this : alg_ok this → alg_ok (wait_disable this).
Proof.
  intros [HP Hr Hs]. unfold wait_disable. destruct (status_ this) eqn:Hst; (split; cbn; [|done|by rewrite ?Hst]); try exact HP.
  assert (txn_2_layer_ this = ∅) as -> by (apply map_size_empty_iff; lia). split; cbn; unfold segs, comp; try done; try set_solver.
  intros t l. cbn. rewrite ?lookup_empty. split; [done|by intros []].
Qed.

(** How the table calls the layers. *)
Definition allowed this (e : event) : Prop :=
  match e with
  | EAdd id _ => absent (segs (segment_layers_ this)) (comp (segment_layers_ this)) id
  | EDelete id rows => ∀ l, id ∈ segs (segment_layers_ this) l → (CalculateLayer rows ≤ l)%nat
  | ECheck t => txn_2_layer_ this !! t = None
  | ECommit t | ERollback t => is_Some (txn_2_layer_ this !! t)
  | EEnable segs0 =>
      status_ this = CompactionStatus.kDisable ∧ NoDup (map fst segs0) ∧
      ∀ i, i ∈ map fst segs0 → absent (segs (segment_layers_ this)) (comp (segment_layers_ this)) i
  | EDisable | EWake => True
  end.

Lemma step_ok this e : alg_ok this → allowed this e → ∃ this', step CalculateLayer m_ this e = Ok this' ∧ alg_ok this'.
Proof.
  intros Hok Ha. destruct e as [id rows|id rows|t|t|t|segs0| |]; cbn in *.
  - destruct (AddSegment_ok this id rows Hok Ha) as (layers & -> & ? & _). by eexists.
  - by apply DeleteInSegment_ok.
  - destruct (CheckCompaction_spec this t Hok Ha) as [[-> _]|(l & L & ids & -> & _ & HL & _ & _ & _ & Hn & Hin)]; cbn; [by exists this|].
    eexists. split; [done|]. by apply after_pick_ok.
  - by apply CommitCompact_ok.
  - destruct Ha as [l Ht]. destruct (known_layer _ _ _ Hok Ht) as (L & ids & HL & Hids & _).
    destruct (RollbackCompact_spec _ _ _ _ _ Hok Ht HL Hids) as (this' & -> & ? & _). by eexists.
  - destruct Ha as (Hst & Hn & Hab). destruct (Enable_ok _ _ Hok Hst Hn Hab) as (this' & -> & ? & _). by eexists.
  - eexists. split; [done|]. by apply wait_disable_ok.
  - destruct (woken_ this); eexists; (split; [done|]); [by apply wait_disable_ok|done].
Qed.

(** Runs of the layers. *)
Inductive runs_to : DBTCompactionAlg → list event → DBTCompactionAlg → Prop :=
| runs_nil this : runs_to this [] this
| runs_cons this e this1 es this2 :
    allowed this e → step CalculateLayer m_ this e = Ok this1 → runs_to this1 es this2 → runs_to this (e :: es) this2.

Lemma runs_ok this es this' : alg_ok this → runs_to this es this' → alg_ok this'.
Proof.
  intros Hok Hr. induction Hr as [|this e this1 es this2 Ha Hs _ IH]; [done|].
  destruct (step_ok _ _ Hok Ha) as (this1' & Hs' & Hok1). rewrite Hs in Hs'. injection Hs' as <-. auto.
Qed.

Lemma new_ok : alg_ok DBTCompactionAlg_new.
Proof.
  split; cbn; [|done|done]. split; unfold segs, comp; cbn; try done; try set_solver.
  intros t l. cbn. rewrite ?lookup_empty. split; [done|by intros []].
Qed.
End Ops.

(** A segment that lost rows is not above its layer, which is what [allowed] asks of a report of deleted rows. *)
Lemma fewer_rows_allowed {HO : HashOrder} log_quotient config this id rows rows' :
  (∀ n n', n ≤ n' → log_quotient n (config_c_ config) ≤ log_quotient n' (config_c_ config)) → 0 < config_s_ config → rows' ≤ rows →
  (∀ l, id ∈ segs (segment_layers_ this) l → l = DBTConfig_CalculateLayer log_quotient config rows) →
  allowed (DBTConfig_CalculateLayer log_quotient config) this (EDelete id rows').
Proof.
  intros Hmono Hs Hr Hl l Hin. rewrite (Hl l Hin). unfold DBTConfig_CalculateLayer.
  pose proof (Hmono _ _ (Z.div_le_mono rows' rows _ Hs Hr)). lia.
Qed.

(** C21. The layers are sound.  However the table adds segments, reports deletes, starts, commits and
    rolls back compactions, disables and enables them, the next such call succeeds; every segment is
    in one layer or with one compaction, which is in the books of its layer; and the number of
    running compactions and the status agree. *)
Theorem compaction_layers_ok {HO : HashOrder} CalculateLayer m_ es this e :
  runs_to CalculateLayer m_ DBTCompactionAlg_new es this → allowed CalculateLayer this e →
  alg_ok this ∧ ∃ this', step CalculateLayer m_ this e = Ok this' ∧ alg_ok this'.
Proof. intros Hr Ha. pose proof (runs_ok _ _ _ _ _ new_ok Hr) as Hok. split; [done|by apply step_ok]. Qed.

(** C22. A compaction that gets segments gets [m_] different ones of one layer, the highest that has
    so many; and rolling it back gives the state before it back, with every segment in its layer. *)
Theorem compaction_picks {HO : HashOrder} CalculateLayer m_ es this t ids this1 :
  runs_to CalculateLayer m_ DBTCompactionAlg_new es this → txn_2_layer_ this !! t = None →
  CheckCompaction m_ this t = Ok (ids, this1) → ids ≠ [] →
  length ids = m_ ∧ NoDup ids ∧
  (∃ l, (∀ i, i ∈ ids → i ∈ segs (segment_layers_ this) l) ∧
     ∀ k K, (l < k)%nat → segment_layers_ this !! k = Some K → (LayerSize K < m_)%nat) ∧
  RollbackCompact this1 t = Ok this.
Proof.
  intros Hr Ht Hc Hne. pose proof (runs_ok _ _ _ _ _ new_ok Hr) as Hok.
  destruct (CheckCompaction_spec m_ this t Hok Ht) as [[Heq _]|(l & L & ids' & Heq & Hst & HL & Hm & Habove & Hlen & Hn & Hin)];
    rewrite Heq in Hc; [congruence|]. injection Hc as <- <-. split_and!; try done.
  { exists l. split; [|done]. intros i Hi. rewrite (segs_at _ _ _ HL). auto. }
  pose proof (after_pick_ok _ _ _ _ _ Hok Ht HL Hn Hin) as Hok1. set (this1 := after_pick _ _ _ _ _) in *.
  destruct (RollbackCompact_spec CalculateLayer this1 t l (mkLayer (segments_ L ∖ list_to_set ids') (<[t := ids']> (compacting_segments_map_ L))) ids' Hok1)
    as (this2 & -> & _ & Hl2 & Ht2 & Hr2 & Hw2 & Hk2 & Hs2); cbn; [by rewrite lookup_insert_eq| |by rewrite lookup_insert_eq|].
  { apply list_lookup_insert_eq. by eapply lookup_lt_Some. }
  f_equal. destruct this2 as [st ly rn tx wt wk], this as [st0 ly0 rn0 tx0 wt0 wk0]. cbn in *.
  pose proof (comp_unknown _ _ _ _ Hok Ht HL) as Hcu. destruct Hok as [_ _ Hs0]. cbn in *. f_equal; subst; try done.
  - replace (rn0 + 1 - 1) with rn0 by lia. destruct st0; [done|by rewrite Hs0|]. by destruct (Z.eqb_spec rn0 0); [lia|].
  - rewrite list_insert_insert_eq. assert (list_to_set ids' ∪ segments_ L ∖ list_to_set ids' = segments_ L) as ->.
    { apply set_eq. intros x. rewrite elem_of_union, elem_of_difference, elem_of_list_to_set.
      destruct (decide (x ∈ ids')); naive_solver. }
    rewrite delete_insert_id by done. apply list_insert_id. rewrite HL. by destruct L.
  - lia.
  - by apply delete_insert_id.
Qed.

(** ** Waiting to disable compaction *)
Section Waiting.
Context {HO : HashOrder} (CalculateLayer : Z → nat) (m_ : nat).
Implicit Types this : DBTCompactionAlg.

(** Calls other than the end of a compaction by commit and the calls of manual compaction. *)
Definition unrelated (e : event) : bool :=
  match e with EAdd _ _ | EDelete _ _ | ECheck _ | ERollback _ | EWake => true | _ => false end.

Lemma end_compact_flags f this t this' :
  end_compact f this t = Ok this' → waiting_ this' = waiting_ this ∧ woken_ this' = woken_ this.
Proof.
  unfold end_compact. destruct (status_ this); try done. destruct (txn_2_layer_ this !! t); [|done].
  intros (L & _ & (L' & _ & [= <-])%res_bind_ok)%res_bind_ok. done.
Qed.

Lemma unrelated_sleeps this e this' :
  unrelated e = true → woken_ this = false → step CalculateLayer m_ this e = Ok this' →
  waiting_ this' = waiting_ this ∧ woken_ this' = false.
Proof.
  intros Hu Hw. destruct e as [id rows|id rows|t|t|t|segs0| |]; cbn in Hu; try done; cbn [step].
  - intros (L & _ & (L' & _ & [= <-])%res_bind_ok)%res_bind_ok. done.
  - unfold DeleteInSegment. destruct (FindSegmentAndLayer _ _); [|by intros [= <-]]. destruct (_ =? _)%nat; [by intros [= <-]|].
    destruct (_ <? _)%nat; [done|]. intros (? & _ & (? & _ & (? & _ & (? & _ & [= <-])%res_bind_ok)%res_bind_ok)%res_bind_ok)%res_bind_ok. done.
  - intros ([ids x] & Hc & [= <-])%res_bind_ok. unfold CheckCompaction in Hc. cbn.
    destruct (status_ this); [by injection Hc as <- <-| |]; (destruct (full_layer _ _ _) as [[l L]|]; [|by injection Hc as <- <-];
      apply res_bind_ok in Hc as ([? ?] & _ & [= <- <-]); done).
  - intros H%end_compact_flags. by rewrite Hw in H.
  - rewrite Hw. by intros [= <-].
Qed.

Lemma unrelated_sleep es : ∀ this this',
  forallb unrelated es = true → woken_ this = false → waiting_ this = true →
  steps CalculateLayer m_ this es = Ok this' → waiting_ this' = true.
Proof.
  induction es as [|e es IH]; intros this this' Hu Hw Hwait Hs; unfold steps in *; cbn in *; [congruence|].
  apply andb_true_iff in Hu as [He Hes]. apply res_bind_ok in Hs as (x & Hx & Hs).
  destruct (unrelated_sleeps _ _ _ He Hw Hx) as [H1 H2]. eapply IH; eauto; congruence.
Qed.
End Waiting.

Module SampleLayers.
#[local] Instance hash_order : HashOrder := {| iter K V _ _ m := map_to_list m; iter_perm _ _ _ _ _ := reflexivity _ |}.

(** The quotient of logarithms for [c_] = 4; that of 0 is minus infinity, cut to the least [int]. *)
Definition log_quotient (n c : Z) : Z := if n <=? 0 then - 2 ^ 31 else Z.log2 n / Z.log2 c.

(** The parameters of [TableEntry]: 4, 4 and the rows of a block. *)
Definition layer : Z → nat := DBTConfig_CalculateLayer log_quotient (mkConfig 4 4 8192).
Definition four : list (Z * Z) := [(1, 10); (2, 20); (3, 30); (4, 40)].
Definition enabled := Enable layer DBTCompactionAlg_new four.
Definition s1 : DBTCompactionAlg := match enabled with Ok x => x | Err _ => DBTCompactionAlg_new end.

Lemma four_allowed : allowed layer DBTCompactionAlg_new (EEnable four).
Proof.
  split; [done|]. split.
  - assert (bool_decide (NoDup (map fst four)) = true) as H by (vm_compute; reflexivity). exact (bool_decide_eq_true_1 _ H).
  - intros i _. split; [intros l; unfold segs; cbn; set_solver|]. intros l t ids H. exfalso. revert H. unfold comp. cbn. rewrite ?lookup_empty. discriminate.
Qed.

Lemma s1_runs : runs_to layer 4 DBTCompactionAlg_new [EEnable four] s1.
Proof. eapply runs_cons; [exact four_allowed| |apply runs_nil]. vm_compute. reflexivity. Qed.

Lemma s1_idle : txn_2_layer_ s1 !! 7 = None.
Proof. vm_compute. reflexivity. Qed.

Example compaction_layers_ok_witness :
  alg_ok s1 ∧ ∃ this', step layer 4 s1 (ECheck 7) = Ok this' ∧ alg_ok this'.
Proof. exact (compaction_layers_ok layer 4 [EEnable four] s1 (ECheck 7) s1_runs s1_idle). Defined.

Example compaction_picks_witness :
  ∃ ids this1, CheckCompaction 4 s1 7 = Ok (ids, this1) ∧ length ids = 4%nat ∧ RollbackCompact this1 7 = Ok s1.
Proof.
  assert (match CheckCompaction 4 s1 7 with Ok (_ :: _, _) => true | _ => false end = true) as Hc by (vm_compute; reflexivity).
  destruct (CheckCompaction 4 s1 7) as [[[|i ids] this1]|] eqn:Hck; try discriminate Hc.
  destruct (compaction_picks layer 4 [EEnable four] s1 7 (i :: ids) this1 s1_runs s1_idle Hck ltac:(discriminate))
    as (Hlen & _ & _ & Hrb).
  exact (ex_intro _ (i :: ids) (ex_intro _ this1 (conj eq_refl (conj Hlen Hrb)))).
Defined.
End SampleLayers.

(** A rolled back compaction does not wake the thread that waits for it: a compaction starts, a
    manual compaction calls [Disable] and sleeps, and the compaction is rolled back.  Nothing runs
    any more and the status is the one [Disable] waits for, yet the thread sleeps on, through any
    number of added segments, reported deletes, started and rolled back compactions. *)
Theorem rollback_leaves_waiter :
  let s2 := steps (HO := SampleLayers.hash_order) SampleLayers.layer 4 SampleLayers.s1 [ECheck 7; EDisable; ERollback 7] in
  match s2 with
  | Ok this =>
      status_ this = CompactionStatus.kEnable ∧ running_task_n_ this = 0 ∧
      ∀ es this', forallb unrelated es = true →
        steps (HO := SampleLayers.hash_order) SampleLayers.layer 4 this es = Ok this' → waiting_ this' = true
  | Err _ => False
  end.
Proof.
  assert (match steps (HO := SampleLayers.hash_order) SampleLayers.layer 4 SampleLayers.s1 [ECheck 7; EDisable; ERollback 7] with
          | Ok this => bool_decide (status_ this = CompactionStatus.kEnable) && (running_task_n_ this =? 0) && waiting_ this && negb (woken_ this)
          | Err _ => false
          end = true) as H by (vm_compute; reflexivity).
  cbn zeta. destruct (steps _ _ _ _) as [this|]; [|discriminate H].
  apply andb_true_iff in H as [[[H1%bool_decide_eq_true H2%Z.eqb_eq]%andb_true_iff H3]%andb_true_iff H4%negb_true_iff].
  split; [exact H1|]. split; [exact H2|]. intros es this' Hu Hs. exact (unrelated_sleep _ _ es this this' Hu H4 H3 Hs).
Qed.

(** A manual compaction that is rolled back before it has compacted anything leaves compaction
    disabled, and the next manual compaction waits. *)
Lemma failed_manual_compaction CalculateLayer this t :
  status_ this = CompactionStatus.kEnable →
  Table_RollbackCompact CalculateLayer (wait_disable this) kManual t [] = Ok (wait_disable this) ∧
  status_ (wait_disable this) = CompactionStatus.kDisable ∧ waiting_ (wait_disable (wait_disable this)) = true.
Proof. intros Hs. unfold wait_disable. rewrite Hs. done. Qed.
