(* ===== verification/Floating.v ===== *)
(** * Floating-point numbers

    The numbers of IEEE 754's binary formats as C++'s [float] and [double] have them, the two formats
    of [Format].  A number other than NaN is its place in the order of the format: 0 is zero (both
    signs, which no comparison tells apart), [k] the [k]-th positive number, [- k] its opposite, and
    the number after the largest one is infinity.  [units] is the value, in multiples of the smallest
    positive number.

    What the code uses: comparisons, [std::nextafter], [std::floor], [std::ceil] and the conversions
    between formats and from and to integers, rounding to nearest with ties to even. *)

From Stdlib Require Import ZArith Lia List.
From stdpp Require Import base list numbers.
From S2P Require Import Prelude.
Local Open Scope Z_scope.

(** Bits of the fraction, bits of the exponent. *)
Record Format := mkFormat { fraction_bits : Z; exponent_bits : Z }.

Definition float_format : Format := mkFormat 23 8.
Definition double_format : Format := mkFormat 52 11.

(** The smallest positive number is [2 ^ - smallest_exponent]. *)
Definition smallest_exponent (f : Format) : Z := 2 ^ (exponent_bits f - 1) - 2 + fraction_bits f.

Inductive fp := NaN | Num (key : Z).

#[export] Instance fp_eq_dec : EqDecision fp.
Proof. solve_decision. Defined.

Definition infinity_key (f : Format) : Z := (2 ^ exponent_bits f - 1) * 2 ^ fraction_bits f.
Definition max_key (f : Format) : Z := infinity_key f - 1.
Definition lowest_key (f : Format) : Z := - max_key f.

Definition fp_ok (f : Format) (x : fp) : Prop :=
  match x with NaN => True | Num k => - infinity_key f ≤ k ≤ infinity_key f end.

(** The value of the [k]-th positive number. *)
Definition magnitude (p k : Z) : Z :=
  if k <? 2 ^ p then k else (2 ^ p + k mod 2 ^ p) * 2 ^ (k / 2 ^ p - 1).

Definition units (f : Format) (k : Z) : Z := Z.sgn k * magnitude (fraction_bits f) (Z.abs k).

(** ** Comparisons: NaN is not comparable *)
Definition fp_compare (x y : fp) : option comparison :=
  match x, y with Num a, Num b => Some (a ?= b) | _, _ => None end.

Definition fp_lt (x y : fp) : bool := match fp_compare x y with Some Lt => true | _ => false end.
Definition fp_le (x y : fp) : bool := match fp_compare x y with Some Lt | Some Eq => true | _ => false end.
Definition fp_eqb (x y : fp) : bool := match fp_compare x y with Some Eq => true | _ => false end.

(** [std::nextafter(x, target)] for a target that is a number. *)
Definition nextafter (x : fp) (target : Z) : fp :=
  match x with
  | NaN => NaN
  | Num k => Num (if k <? target then k + 1 else if target <? k then k - 1 else k)
  end.

(** ** Rounding *)

(** The place of the largest number that is not above [n / 2 ^ s] units, and whether to round up. *)
Definition round_down (p s n : Z) : Z :=
  let e := Z.max s (Z.log2 n - p) in (e - s) * 2 ^ p + n / 2 ^ e.

Definition round_up_p (p s n : Z) : bool :=
  let e := Z.max s (Z.log2 n - p) in
  let r := n mod 2 ^ e in
  (2 ^ e <? 2 * r) || ((2 * r =? 2 ^ e) && (0 <? e) && Z.odd (n / 2 ^ e)).

(** [n / 2 ^ s] units, with a sign. *)
Definition round (f : Format) (s n : Z) : Z :=
  let m := Z.abs n in
  let k := round_down (fraction_bits f) s m + (if round_up_p (fraction_bits f) s m then 1 else 0) in
  Z.sgn n * Z.min k (infinity_key f).

(** [static_cast<T>(z)] for an integer. *)
Definition of_int (f : Format) (z : Z) : Z := round f 0 (z * 2 ^ smallest_exponent f).

(** [static_cast<U>(x)] from the format [f] to the format [g]. *)
Definition convert (f g : Format) (x : fp) : fp :=
  match x with
  | NaN => NaN
  | Num k =>
      if Z.abs k =? infinity_key f then Num (Z.sgn k * infinity_key g)
      else if smallest_exponent f <=? smallest_exponent g
      then Num (round g 0 (units f k * 2 ^ (smallest_exponent g - smallest_exponent f)))
      else Num (round g (smallest_exponent f - smallest_exponent g) (units f k))
  end.

(** [std::floor], [std::ceil]. *)
Definition fp_floor (f : Format) (x : fp) : fp :=
  match x with
  | NaN => NaN
  | Num k => if Z.abs k =? infinity_key f then x else Num (of_int f (units f k / 2 ^ smallest_exponent f))
  end.

Definition fp_ceil (f : Format) (x : fp) : fp :=
  match x with
  | NaN => NaN
  | Num k => if Z.abs k =? infinity_key f then x else Num (of_int f (- (- units f k / 2 ^ smallest_exponent f)))
  end.

(** [static_cast<T>(x)] to an integer: truncation, undefined outside the range of the type. *)
Definition fp_to_int (f : Format) (t : ctype) (x : fp) : result Z :=
  match x with
  | NaN => Err SignedOverflow
  | Num k =>
      if Z.abs k =? infinity_key f then Err SignedOverflow
      else
        let z := Z.quot (units f k) (2 ^ smallest_exponent f) in
        if decide (in_range t z) then Ok z else Err SignedOverflow
  end.

(** ** Values and places *)

Section magnitude.
Context (p : Z) (Hp : 0 < p).

Lemma pow_p_pos : 0 < 2 ^ p.
Proof. apply Z.pow_pos_nonneg; lia. Qed.

Lemma pow_p_succ : 2 ^ (p + 1) = 2 * 2 ^ p.
Proof. rewrite Z.pow_add_r by lia. lia. Qed.

(** A number is a significand [q] of [p + 1] bits times a power of two, or a shorter one. *)
Lemma magnitude_scaled d q :
  0 ≤ d → d = 0 ∨ 2 ^ p ≤ q → 0 ≤ q ≤ 2 ^ (p + 1) → magnitude p (d * 2 ^ p + q) = q * 2 ^ d.
Proof.
  intros Hd Hq Hq2. pose proof pow_p_pos. rewrite pow_p_succ in Hq2. unfold magnitude.
  destruct (Z.ltb_spec (d * 2 ^ p + q) (2 ^ p)).
  { assert (d = 0) as -> by nia. rewrite Z.pow_0_r. lia. }
  destruct (decide (q = 2 * 2 ^ p)) as [->|Hne].
  - replace (d * 2 ^ p + 2 * 2 ^ p) with ((d + 2) * 2 ^ p) by lia. rewrite Z.mod_mul, Z.div_mul by lia.
    replace (d + 2 - 1) with (d + 1) by lia. rewrite Z.pow_add_r by lia. lia.
  - replace (d * 2 ^ p + q) with ((d + 1) * 2 ^ p + (q - 2 ^ p)) by lia.
    assert (2 ^ p ≤ q) by nia.
    rewrite (Z.add_comm (_ * _)), Z.mod_add, Z.div_add, Z.mod_small, Z.div_small by lia.
    replace (0 + (d + 1) - 1) with d by lia. f_equal. lia.
Qed.

(** Every place has that form. *)
Lemma place_form k :
  0 ≤ k → ∃ d q, k = d * 2 ^ p + q ∧ 0 ≤ d ∧ (d = 0 ∨ 2 ^ p ≤ q) ∧ 0 ≤ q < 2 ^ (p + 1).
Proof.
  intros Hk. pose proof pow_p_pos. rewrite pow_p_succ.
  pose proof (Z.mod_pos_bound k (2 ^ p) ltac:(lia)). pose proof (Z.div_mod k (2 ^ p) ltac:(lia)).
  destruct (decide (k < 2 ^ p)).
  - exists 0, k. repeat split; lia.
  - assert (1 ≤ k / 2 ^ p) by (apply Z.div_le_lower_bound; lia).
    exists (k / 2 ^ p - 1), (2 ^ p + k mod 2 ^ p). repeat split; lia.
Qed.

Lemma magnitude_succ k : 0 ≤ k → magnitude p k < magnitude p (k + 1).
Proof.
  intros Hk. destruct (place_form k Hk) as (d & q & -> & Hd & Hq & Hr).
  replace (d * 2 ^ p + q + 1) with (d * 2 ^ p + (q + 1)) by lia.
  rewrite !magnitude_scaled by lia. pose proof (Z.pow_pos_nonneg 2 d). nia.
Qed.

Lemma magnitude_lt a b : 0 ≤ a → a < b → magnitude p a < magnitude p b.
Proof.
  intros Ha Hab. replace b with (a + 1 + Z.of_nat (Z.to_nat (b - a - 1))) by lia.
  induction (Z.to_nat (b - a - 1)) as [|n IH].
  - rewrite Z.add_0_r. by apply magnitude_succ.
  - etrans; [exact IH|]. replace (a + 1 + Z.of_nat (S n)) with (a + 1 + Z.of_nat n + 1) by lia.
    apply magnitude_succ. lia.
Qed.

Lemma magnitude_le_iff a b : 0 ≤ a → 0 ≤ b → magnitude p a ≤ magnitude p b ↔ a ≤ b.
Proof.
  intros Ha Hb. destruct (Z.lt_trichotomy a b) as [H|[->|H]]; [|lia|].
  - pose proof (magnitude_lt a b Ha H). lia.
  - pose proof (magnitude_lt b a Hb H). lia.
Qed.

Lemma magnitude_0 : magnitude p 0 = 0.
Proof. unfold magnitude. pose proof pow_p_pos. by destruct (Z.ltb_spec 0 (2 ^ p)); [|lia]. Qed.

(** *** Rounding positive values *)
Context (s n : Z) (Hs : 0 ≤ s) (Hn : 0 ≤ n).

Let e := Z.max s (Z.log2 n - p).

Lemma significand_bounds : 0 ≤ n / 2 ^ e < 2 ^ (p + 1) ∧ (e = s ∨ 2 ^ p ≤ n / 2 ^ e).
Proof.
  assert (He : 0 ≤ e) by lia. pose proof (Z.pow_pos_nonneg 2 e ltac:(lia) He).
  destruct (decide (n = 0)) as [->|Hn0].
  { rewrite Z.div_0_l by lia. pose proof (Z.pow_pos_nonneg 2 (p + 1)). split; [lia|]. left. subst e. simpl. lia. }
  destruct (Z.log2_spec n ltac:(lia)) as [Hl Hu]. split; [split|].
  - apply Z.div_pos; lia.
  - apply Z.div_lt_upper_bound; [lia|]. rewrite <- Z.pow_add_r by lia.
    eapply Z.lt_le_trans; [exact Hu|]. apply Z.pow_le_mono_r; lia.
  - destruct (decide (Z.log2 n - p ≤ s)); [left; lia|right]. apply Z.div_le_lower_bound; [lia|].
    rewrite <- Z.pow_add_r by lia. replace (e + p) with (Z.log2 n) by lia. exact Hl.
Qed.

Lemma round_down_spec :
  0 ≤ round_down p s n ∧ magnitude p (round_down p s n) * 2 ^ s = n / 2 ^ e * 2 ^ e ∧
  n < magnitude p (round_down p s n + 1) * 2 ^ s.
Proof.
  assert (He : 0 ≤ e) by lia. pose proof (Z.pow_pos_nonneg 2 e ltac:(lia) He). pose proof pow_p_pos.
  destruct significand_bounds as [Hq Hd]. unfold round_down. fold e.
  assert (Hpow : ∀ q, q * 2 ^ (e - s) * 2 ^ s = q * 2 ^ e).
  { intros q. rewrite <- Z.mul_assoc, <- Z.pow_add_r by lia. by replace (e - s + s) with e by lia. }
  split; [nia|]. rewrite <- Z.add_assoc, !magnitude_scaled by lia. rewrite !Hpow. split; [done|].
  pose proof (Z.mul_succ_div_gt n (2 ^ e) ltac:(lia)). lia.
Qed.

Definition round_mag : Z := round_down p s n + (if round_up_p p s n then 1 else 0).

Lemma round_mag_bounds k :
  0 ≤ k → (magnitude p k * 2 ^ s ≤ n → k ≤ round_mag) ∧ (n ≤ magnitude p k * 2 ^ s → round_mag ≤ k).
Proof.
  intros Hk. destruct round_down_spec as (Ht & Heq & Hlt). pose proof (Z.pow_pos_nonneg 2 s ltac:(lia) Hs).
  set (t := round_down p s n) in *. unfold round_mag. fold t.
  assert (He : 0 ≤ e) by lia. pose proof (Z.pow_pos_nonneg 2 e ltac:(lia) He).
  pose proof (Z.div_mod n (2 ^ e) ltac:(lia)). pose proof (Z.mod_pos_bound n (2 ^ e) ltac:(lia)). split; intros Hb.
  - assert (magnitude p k < magnitude p (t + 1)) by nia. destruct (decide (k ≤ t)); [destruct (round_up_p _ _ _); lia|].
    pose proof (proj2 (magnitude_le_iff (t + 1) k ltac:(lia) Hk)). lia.
  - assert (magnitude p t ≤ magnitude p k) by nia. assert (t ≤ k) by (by apply magnitude_le_iff).
    destruct (round_up_p p s n) eqn:Hup; [|lia]. destruct (decide (t = k)) as [<-|]; [|lia]. exfalso.
    unfold round_up_p in Hup. fold e in Hup. assert (Hr : n mod 2 ^ e = 0) by nia. rewrite Hr in Hup.
    destruct (Z.ltb_spec (2 ^ e) (2 * 0)); [lia|]. destruct (Z.eqb_spec (2 * 0) (2 ^ e)); [lia|]. done.
Qed.
End magnitude.

(** ** Formats *)

Record format_ok (f : Format) : Prop := {
  fraction_pos : 0 < fraction_bits f;
  exponent_pos : 1 < exponent_bits f;
  fraction_small : fraction_bits f < 2 ^ (exponent_bits f - 1);
}.

Lemma float_format_ok : format_ok float_format.
Proof. by constructor. Qed.

Lemma double_format_ok : format_ok double_format.
Proof. by constructor. Qed.

Section format.
Context (f : Format) (Hf : format_ok f).

Notation p := (fraction_bits f).
Notation U := (2 ^ smallest_exponent f).

Lemma exponent_pow : 2 ^ exponent_bits f = 2 * 2 ^ (exponent_bits f - 1) ∧ 2 ≤ 2 ^ (exponent_bits f - 1).
Proof.
  pose proof (exponent_pos _ Hf). split.
  - rewrite <- Z.pow_succ_r by lia. f_equal. lia.
  - replace 2 with (2 ^ 1) at 1 by done. apply Z.pow_le_mono_r; lia.
Qed.

Lemma smallest_exponent_bounds : p ≤ smallest_exponent f ∧ smallest_exponent f + 2 ≤ 2 ^ exponent_bits f - 1.
Proof. destruct exponent_pow as [He Hb]. pose proof (fraction_small _ Hf). unfold smallest_exponent. lia. Qed.

Lemma U_pos : 0 < U.
Proof. pose proof smallest_exponent_bounds. pose proof (fraction_pos _ Hf). apply Z.pow_pos_nonneg; lia. Qed.

Lemma infinity_pos : 0 < infinity_key f.
Proof.
  unfold infinity_key. destruct exponent_pow. pose proof (pow_p_pos p (fraction_pos _ Hf)). nia.
Qed.

(** Values have the order of the places. *)
Lemma units_le_iff a b : units f a ≤ units f b ↔ a ≤ b.
Proof.
  pose proof (fraction_pos _ Hf) as Hp. unfold units.
  assert (Hpos : ∀ k, 0 < k → 0 < magnitude p k).
  { intros k Hk. rewrite <- (magnitude_0 p Hp). by apply magnitude_lt. }
  destruct (Z.lt_trichotomy a 0) as [Ha|[->|Ha]], (Z.lt_trichotomy b 0) as [Hb|[->|Hb]];
    rewrite ?Z.sgn_0, ?Z.mul_0_l, ?(Z.sgn_neg a), ?(Z.sgn_neg b), ?(Z.sgn_pos a), ?(Z.sgn_pos b) by done;
    try pose proof (Hpos (Z.abs a) ltac:(lia)); try pose proof (Hpos (Z.abs b) ltac:(lia)); try lia.
  - pose proof (magnitude_le_iff p Hp (Z.abs b) (Z.abs a)). lia.
  - pose proof (magnitude_le_iff p Hp (Z.abs a) (Z.abs b)). lia.
Qed.

Lemma units_inj a b : units f a = units f b → a = b.
Proof. intros H. pose proof (units_le_iff a b). pose proof (units_le_iff b a). lia. Qed.

Lemma units_opp a : units f (- a) = - units f a.
Proof. unfold units. rewrite Z.sgn_opp, Z.abs_opp. lia. Qed.

Lemma round_opp s n : round f s (- n) = - round f s n.
Proof. unfold round. rewrite Z.sgn_opp, Z.abs_opp. lia. Qed.

Lemma round_nonneg s n : 0 ≤ s → 0 ≤ n → round f s n = Z.min (round_mag p s n) (infinity_key f).
Proof.
  intros Hs Hn. unfold round. rewrite Z.abs_eq by done. fold (round_mag p s n). destruct (decide (n = 0)) as [->|].
  - pose proof (fraction_pos _ Hf) as Hp. pose proof infinity_pos.
    pose proof (proj1 (round_mag_bounds p Hp s 0 Hs ltac:(lia) 0 ltac:(lia))) as H1.
    pose proof (proj2 (round_mag_bounds p Hp s 0 Hs ltac:(lia) 0 ltac:(lia))) as H2.
    rewrite (magnitude_0 p Hp) in H1, H2. rewrite Z.sgn_0. lia.
  - rewrite Z.sgn_pos by lia. lia.
Qed.

(** Rounding keeps the order with every number of the format. *)
Lemma round_bounds s n a :
  0 ≤ s → - infinity_key f ≤ a ≤ infinity_key f →
  (units f a * 2 ^ s ≤ n → a ≤ round f s n) ∧ (n ≤ units f a * 2 ^ s → round f s n ≤ a).
Proof.
  intros Hs Ha. pose proof (fraction_pos _ Hf) as Hp. pose proof infinity_pos as Hi. pose proof (Z.pow_pos_nonneg 2 s ltac:(lia) Hs).
  assert (Hmag : ∀ k, 0 ≤ k → 0 ≤ magnitude p k).
  { intros k Hk. rewrite <- (magnitude_0 p Hp). apply magnitude_le_iff; lia. }
  assert (Hu : ∀ k, 0 ≤ k → units f k = magnitude p k).
  { intros k Hk. unfold units. rewrite Z.abs_eq by done. destruct (decide (k = 0)) as [->|]; [by rewrite (magnitude_0 p Hp)|].
    rewrite Z.sgn_pos by lia. lia. }
  assert (Hmain : ∀ n a, 0 ≤ n → - infinity_key f ≤ a ≤ infinity_key f →
    (units f a * 2 ^ s ≤ n → a ≤ round f s n) ∧ (n ≤ units f a * 2 ^ s → round f s n ≤ a)).
  { clear n a Ha. intros n a Hn Ha. rewrite round_nonneg by done. destruct (decide (0 ≤ a)) as [Ha0|Ha0].
    - rewrite Hu by done. destruct (round_mag_bounds p Hp s n Hs Hn a Ha0) as [H1 H2]. lia.
    - assert (0 ≤ round_mag p s n).
      { apply (proj1 (round_mag_bounds p Hp s n Hs Hn 0 ltac:(lia))). rewrite (magnitude_0 p Hp). lia. }
      split; [lia|]. intros Hle. exfalso. pose proof (Hu (- a) ltac:(lia)) as Hua. rewrite units_opp in Hua.
      pose proof (proj2 (magnitude_le_iff p Hp 1 (- a) ltac:(lia) ltac:(lia)) ltac:(lia)).
      pose proof (magnitude_lt p Hp 0 1 ltac:(lia) ltac:(lia)). rewrite (magnitude_0 p Hp) in *. nia. }
  destruct (decide (0 ≤ n)); [by apply Hmain|].
  destruct (Hmain (- n) (- a) ltac:(lia) ltac:(lia)) as [H1 H2]. rewrite units_opp, round_opp in *. lia.
Qed.

Lemma round_exact s a : 0 ≤ s → - infinity_key f ≤ a ≤ infinity_key f → round f s (units f a * 2 ^ s) = a.
Proof. intros Hs Ha. destruct (round_bounds s (units f a * 2 ^ s) a Hs Ha). lia. Qed.

Lemma round_range s n : 0 ≤ s → - infinity_key f ≤ round f s n ≤ infinity_key f.
Proof.
  intros Hs. pose proof infinity_pos. assert (Hmain : ∀ n, 0 ≤ n → 0 ≤ round f s n ≤ infinity_key f).
  { intros m Hm. pose proof (proj1 (round_bounds s m 0 Hs ltac:(lia))) as H0. change (units f 0) with 0 in H0. rewrite round_nonneg in * by done. lia. }
  destruct (decide (0 ≤ n)) as [Hn|Hn]; [pose proof (Hmain n Hn); lia|].
  pose proof (Hmain (- n) ltac:(lia)). rewrite round_opp in *. lia.
Qed.

(** *** Integers *)

Lemma place_small d q :
  0 ≤ d → d + 2 ≤ 2 ^ exponent_bits f - 1 → 0 ≤ q ≤ 2 ^ (p + 1) → 0 ≤ d * 2 ^ p + q ≤ infinity_key f.
Proof.
  intros Hd Hd2 Hq. rewrite (pow_p_succ p (fraction_pos _ Hf)) in Hq. pose proof (pow_p_pos p (fraction_pos _ Hf)).
  unfold infinity_key. split; [nia|]. transitivity ((d + 2) * 2 ^ p); nia.
Qed.

(** A significand of [p + 1] bits times a power of two is a number of the format. *)
Lemma scaled_place z e :
  0 < z ≤ 2 ^ (p + 1) → p ≤ e → e + 2 ≤ 2 ^ exponent_bits f - 1 → ∃ k, 0 ≤ k ≤ infinity_key f ∧ units f k = z * 2 ^ e.
Proof.
  intros Hz He He2. pose proof (fraction_pos _ Hf) as Hp. pose proof (pow_p_pos p Hp).
  assert (Hplace : ∀ d q, 0 ≤ d ≤ e → 2 ^ p ≤ q ≤ 2 ^ (p + 1) → z * 2 ^ e = q * 2 ^ d →
    ∃ k, 0 ≤ k ≤ infinity_key f ∧ units f k = z * 2 ^ e).
  { intros d q Hd Hq Heq. exists (d * 2 ^ p + q). split; [apply place_small; lia|]. unfold units.
    assert (0 < d * 2 ^ p + q) by nia. rewrite Z.sgn_pos, Z.abs_eq, magnitude_scaled by lia. lia. }
  destruct (decide (2 ^ p ≤ z)); [by apply (Hplace e z); lia|].
  destruct (Z.log2_spec z ltac:(lia)) as [Hl Hu]. pose proof (Z.log2_nonneg z).
  assert (Z.log2 z < p). { apply Z.log2_lt_pow2; lia. }
  assert (Hq : 2 ^ p = 2 ^ Z.log2 z * 2 ^ (p - Z.log2 z)) by (rewrite <- Z.pow_add_r by lia; f_equal; lia).
  pose proof (Z.pow_pos_nonneg 2 (p - Z.log2 z) ltac:(lia) ltac:(lia)). rewrite Z.pow_succ_r in Hu by lia.
  apply (Hplace (e - (p - Z.log2 z)) (z * 2 ^ (p - Z.log2 z))); [lia| |].
  - rewrite (pow_p_succ p Hp). nia.
  - rewrite <- Z.mul_assoc, <- Z.pow_add_r by lia. do 2 f_equal. lia.
Qed.

Lemma integer_place z : 0 < z ≤ 2 ^ (p + 1) → ∃ k, 0 ≤ k ≤ infinity_key f ∧ units f k = z * U.
Proof. intros Hz. apply scaled_place; [done|apply smallest_exponent_bounds..]. Qed.

Lemma of_int_place k z : - infinity_key f ≤ k ≤ infinity_key f → units f k = z * U → of_int f z = k.
Proof.
  intros Hk Hu. pose proof (round_exact 0 k ltac:(lia) Hk) as He. rewrite Z.pow_0_r, Z.mul_1_r in He.
  unfold of_int. by rewrite <- Hu.
Qed.

Lemma of_int_exact z : Z.abs z ≤ 2 ^ (p + 1) → units f (of_int f z) = z * U.
Proof.
  intros Hz. pose proof infinity_pos. destruct (Z.lt_trichotomy z 0) as [Hn|[->|Hn]].
  - destruct (integer_place (- z) ltac:(lia)) as (k & Hk & Hu). rewrite (of_int_place (- k)); [|lia|]; rewrite units_opp, Hu; lia.
  - by rewrite (of_int_place 0); [|lia|].
  - destruct (integer_place z ltac:(lia)) as (k & Hk & Hu). by rewrite (of_int_place k); [|lia|].
Qed.

Lemma of_int_range z : - infinity_key f ≤ of_int f z ≤ infinity_key f.
Proof. by apply round_range. Qed.

(** From [2 ^ p] on numbers are integers. *)
Lemma large_integer k : 2 ^ p * U ≤ Z.abs (units f k) → ∃ z, units f k = z * U.
Proof.
  intros Hk. pose proof (fraction_pos _ Hf) as Hp. pose proof (pow_p_pos p Hp). pose proof U_pos. pose proof smallest_exponent_bounds.
  assert (Hmain : ∀ m, 0 ≤ m → 2 ^ p * U ≤ magnitude p m → ∃ z, magnitude p m = z * U).
  { intros m Hm Hle. destruct (place_form p Hp m Hm) as (d & q & -> & Hd & Hq & Hr).
    rewrite magnitude_scaled in * by lia. rewrite (pow_p_succ p Hp) in Hr.
    assert (smallest_exponent f ≤ d).
    { destruct (decide (smallest_exponent f ≤ d)); [done|]. exfalso.
      assert (Hd2 : 2 * 2 ^ d ≤ U) by (rewrite <- Z.pow_succ_r by lia; apply Z.pow_le_mono_r; lia).
      pose proof (Z.pow_pos_nonneg 2 d ltac:(lia) Hd). nia. }
    exists (q * 2 ^ (d - smallest_exponent f)). rewrite <- Z.mul_assoc, <- Z.pow_add_r by lia. do 2 f_equal. lia. }
  unfold units in *. destruct (Hmain (Z.abs k) ltac:(lia)) as [z Hz].
  { rewrite Z.abs_mul, (Z.abs_eq (magnitude _ _)) in Hk; [destruct (Z.sgn_spec k) as [[? Hs]|[[? Hs]|[? Hs]]]; rewrite Hs in Hk; simpl in Hk; lia|].
    rewrite <- (magnitude_0 p Hp). apply magnitude_le_iff; lia. }
  exists (Z.sgn k * z). rewrite Hz. lia.
Qed.

(** The integers next to a number are numbers of the format. *)
Lemma of_int_near k z :
  - infinity_key f ≤ k ≤ infinity_key f → (z - 1) * U < units f k < (z + 1) * U → units f (of_int f z) = z * U.
Proof.
  intros Hk Hz. pose proof U_pos. pose proof (fraction_pos _ Hf) as Hp. pose proof (pow_p_pos p Hp).
  destruct (decide (2 ^ p * U ≤ Z.abs (units f k))) as [Hl|Hl].
  - destruct (large_integer k Hl) as [z' Hz']. assert (z' = z) as -> by nia. by rewrite (of_int_place k).
  - apply of_int_exact. rewrite (pow_p_succ p Hp). nia.
Qed.
End format.

(** ** Float and double *)

Lemma float_exponents : smallest_exponent float_format = 149 ∧ smallest_exponent double_format = 1074.
Proof. done. Qed.

(** Every finite float is a double. *)
Lemma float_to_double k :
  - infinity_key float_format < k < infinity_key float_format →
  ∃ a, convert float_format double_format (Num k) = Num a ∧ units double_format a = units float_format k * 2 ^ 925 ∧
    - infinity_key double_format < a < infinity_key double_format.
Proof.
  intros Hk.
  assert (Hpos : ∀ m, 0 < m < infinity_key float_format →
    ∃ a, 0 ≤ a ≤ infinity_key double_format ∧ units double_format a = units float_format m * 2 ^ 925).
  { intros m Hm. destruct (place_form 23 ltac:(lia) m ltac:(lia)) as (d & q & Heq & Hd & Hq & Hr).
    assert (Hu : units float_format m = q * 2 ^ d).
    { unfold units. rewrite Z.sgn_pos, Z.abs_eq, Heq by lia. cbn [fraction_bits float_format]. rewrite magnitude_scaled by lia. lia. }
    assert (0 < q) by (destruct (decide (q = 0)) as [->|]; lia).
    assert (d < 255) by (change (infinity_key float_format) with 2139095040 in Hm; change (2 ^ 23) with 8388608 in *; lia).
    destruct (scaled_place double_format double_format_ok q (d + 925)) as (a & Ha & Hua); cbn; try lia.
    exists a. split; [done|]. rewrite Hua, Hu, Z.pow_add_r by lia. lia. }
  assert (∃ a, - infinity_key double_format ≤ a ≤ infinity_key double_format ∧ units double_format a = units float_format k * 2 ^ 925) as (a & Ha & Hu).
  { pose proof (infinity_pos _ double_format_ok). destruct (Z.lt_trichotomy k 0) as [Hn|[->|Hp]].
    - destruct (Hpos (- k) ltac:(lia)) as (a & Ha & Hu). exists (- a). split; [lia|]. rewrite units_opp, Hu, units_opp. lia.
    - exists 0. split; [lia|done].
    - destruct (Hpos k ltac:(lia)) as (a & Ha & Hu). exists a. split; [lia|done]. }
  exists a. split; [|split; [done|]].
  2:{ assert (2 ^ 925 * units float_format (infinity_key float_format) < units double_format (infinity_key double_format)) by (vm_compute; reflexivity).
      pose proof (units_le_iff _ float_format_ok k (infinity_key float_format)).
      pose proof (units_le_iff _ float_format_ok (- infinity_key float_format) k) as Hlow. rewrite units_opp in Hlow.
      assert (a ≠ infinity_key double_format) by (intros ->; nia).
      assert (a ≠ - infinity_key double_format) by (intros ->; rewrite units_opp in Hu; nia). lia. }
  unfold convert. destruct (Z.eqb_spec (Z.abs k) (infinity_key float_format)); [lia|].
  change (smallest_exponent float_format <=? smallest_exponent double_format) with true. cbn iota.
  change (smallest_exponent double_format - smallest_exponent float_format) with 925. rewrite <- Hu.
  pose proof (round_exact double_format double_format_ok 0 a ltac:(lia) Ha) as He. rewrite Z.pow_0_r, Z.mul_1_r in He. by rewrite He.
Qed.

(** A comparison of a float with a double holds of the rounded double too. *)
Lemma double_to_float k a :
  - infinity_key float_format ≤ a ≤ infinity_key float_format → Z.abs k ≠ infinity_key double_format →
  ∃ b, convert double_format float_format (Num k) = Num b ∧ - infinity_key float_format ≤ b ≤ infinity_key float_format ∧
    (units float_format a * 2 ^ 925 ≤ units double_format k → a ≤ b) ∧
    (units double_format k ≤ units float_format a * 2 ^ 925 → b ≤ a).
Proof.
  intros Ha Hk. unfold convert. destruct (Z.eqb_spec (Z.abs k) (infinity_key double_format)); [done|].
  change (smallest_exponent double_format <=? smallest_exponent float_format) with false. cbn iota.
  change (smallest_exponent double_format - smallest_exponent float_format) with 925. eexists. split; [reflexivity|].
  split; [by apply (round_range _ float_format_ok)|]. by apply (round_bounds _ float_format_ok).
Qed.
