(* ===== verification/FilterExpr.v ===== *)
(** * Filter expressions

    Bound expressions ([src/src/expression]) with the values of [storage/column_vector/value.cppm], as
    far as filters are made of them: columns, constants, casts, and scalar functions with the
    comparisons and connectives of [function/scalar] and the numeric casts of [function/cast].  Then
    what the optimizer does with a comparison of a column and a constant
    ([planner/optimizer/secondary_index_scan/filter_expression_push_down_helper.cpp]): it makes the
    comparison one of [<=], [>=] and [=], and moves the casts of the column over to the constant.

    Templates over the types of columns are functions of [IntType], [FloatType], [DayType] and
    [DateTimeKind].  There are no null values.  Functions and casts other than those here are the
    interface [FunctionLibrary]. *)

From Stdlib Require Import ZArith Lia List String.
From stdpp Require Import base list numbers strings.
From S2P Require Import Prelude Bytes DataTypes DateTime Floating.
Local Open Scope Z_scope.

(** ** Values *)

Inductive IntType := TinyIntT | SmallIntT | IntegerT | BigIntT.
Inductive FloatType := FloatT | DoubleT.
Inductive DayType := DateT | TimeT.
Inductive DateTimeKind := DateTimeT | TimestampT.

#[export] Instance IntType_eq_dec : EqDecision IntType.
Proof. solve_decision. Defined.
#[export] Instance FloatType_eq_dec : EqDecision FloatType.
Proof. solve_decision. Defined.
#[export] Instance DayType_eq_dec : EqDecision DayType.
Proof. solve_decision. Defined.
#[export] Instance DateTimeKind_eq_dec : EqDecision DateTimeKind.
Proof. solve_decision. Defined.
#[export] Instance DateTimeType_eq_dec : EqDecision DateTimeType.
Proof. solve_decision. Defined.

Definition int_ctype (t : IntType) : ctype :=
  match t with TinyIntT => i8 | SmallIntT => i16 | IntegerT => i32 | BigIntT => i64 end.

Definition int_max (t : IntType) : Z := lowest (int_ctype t) + modulus (int_ctype t) - 1.

Definition float_of (t : FloatType) : Format := match t with FloatT => float_format | DoubleT => double_format end.

(** Values of types that no filter here looks into are [VOther]. *)
Inductive Value :=
| VNull
| VBoolean (b : bool)
| VInt (t : IntType) (z : Z)
| VHugeInt (upper lower : Z)
| VFloating (t : FloatType) (x : fp)
| VVarchar (s : bytes)
| VDay (t : DayType) (z : Z)
| VDateTime (t : DateTimeKind) (d : DateTimeType)
| VOther (t : LogicalType).

#[export] Instance Value_eq_dec : EqDecision Value.
Proof. solve_decision. Defined.

Definition int_type (t : IntType) : LogicalType :=
  match t with TinyIntT => kTinyInt | SmallIntT => kSmallInt | IntegerT => kInteger | BigIntT => kBigInt end.
Definition float_type (t : FloatType) : LogicalType := match t with FloatT => kFloat | DoubleT => kDouble end.
Definition day_type (t : DayType) : LogicalType := match t with DateT => kDate | TimeT => kTime end.
Definition datetime_type (t : DateTimeKind) : LogicalType :=
  match t with DateTimeT => kDateTime | TimestampT => kTimestamp end.

Definition Value_type (v : Value) : LogicalType :=
  match v with
  | VNull => kNull
  | VBoolean _ => kBoolean
  | VInt t _ => int_type t
  | VHugeInt _ _ => kHugeInt
  | VFloating t _ => float_type t
  | VVarchar _ => kVarchar
  | VDay t _ => day_type t
  | VDateTime t _ => datetime_type t
  | VOther t => t
  end.

(** ** Comparisons *)

(** Lexicographic order of byte strings, by the key of a byte. *)
Fixpoint lex_compare (key : Z → Z) (a b : bytes) : comparison :=
  match a, b with
  | [], [] => Eq
  | [], _ :: _ => Lt
  | _ :: _, [] => Gt
  | x :: a', y :: b' => match key x ?= key y with Eq => lex_compare key a' b' | c => c end
  end.

(** A byte as the [char] of the platform, which is signed. *)
Definition char_of (b : Z) : Z := if b <? 128 then b else b - 256.

(** [CompareCharArray] of two varchar values compares [char]s; [std::string_view] compares bytes. *)
Definition CompareCharArray (a b : bytes) : comparison := lex_compare char_of a b.
Definition string_view_compare (a b : bytes) : comparison := lex_compare id a b.

Definition then_compare (c d : comparison) : comparison := match c with Eq => d | _ => c end.

Definition datetime_compare (a b : DateTimeType) : comparison :=
  then_compare (date_ a ?= date_ b) (time_ a ?= time_ b).

(** Two values of one type with an order, unless one of them is NaN. *)
Definition Value_compare (v w : Value) : option comparison :=
  match v, w with
  | VInt t a, VInt t' b => if decide (t = t') then Some (a ?= b) else None
  | VHugeInt u l, VHugeInt u' l' => Some (then_compare (u ?= u') (l ?= l'))
  | VFloating t a, VFloating t' b => if decide (t = t') then fp_compare a b else None
  | VVarchar a, VVarchar b => Some (CompareCharArray a b)
  | VDay t a, VDay t' b => if decide (t = t') then Some (a ?= b) else None
  | VDateTime t a, VDateTime t' b => if decide (t = t') then Some (datetime_compare a b) else None
  | _, _ => None
  end.

Inductive CompareOp := OpLess | OpGreater | OpLessEqual | OpGreaterEqual | OpEqual.

#[export] Instance CompareOp_eq_dec : EqDecision CompareOp.
Proof. solve_decision. Defined.

Definition op_holds (op : CompareOp) (c : option comparison) : bool :=
  match op, c with
  | OpLess, Some Lt => true
  | OpGreater, Some Gt => true
  | OpLessEqual, Some (Lt | Eq) => true
  | OpGreaterEqual, Some (Gt | Eq) => true
  | OpEqual, Some Eq => true
  | _, _ => false
  end.

(** The comparison functions by name. *)
Definition compare_op (f_name : string) : option CompareOp :=
  if String.eqb f_name "<" then Some OpLess
  else if String.eqb f_name ">" then Some OpGreater
  else if String.eqb f_name "<=" then Some OpLessEqual
  else if String.eqb f_name ">=" then Some OpGreaterEqual
  else if String.eqb f_name "=" then Some OpEqual
  else None.

(** Types with all five comparisons; booleans have [=]. *)
Definition has_order (t : LogicalType) : bool :=
  match t with
  | kTinyInt | kSmallInt | kInteger | kBigInt | kHugeInt | kFloat | kDouble | kVarchar | kDate | kTime
  | kDateTime | kTimestamp => true
  | _ => false
  end.

Class FunctionLibrary := {
  call_function : string → list Value → option Value;
  other_cast : LogicalType → Value → option Value;
}.

(** ** Expressions *)

Inductive Expr :=
| ColumnExpression (column_idx : Z) (special : bool) (type : LogicalType)
| ValueExpression (v : Value)
| CastExpression (target : LogicalType) (argument : Expr)
| FunctionExpression (name : string) (return_type : LogicalType) (arguments : list Expr)
| OtherExpression (type : LogicalType).

Definition Expr_type (e : Expr) : LogicalType :=
  match e with
  | ColumnExpression _ _ t => t
  | ValueExpression v => Value_type v
  | CastExpression t _ => t
  | FunctionExpression _ t _ => t
  | OtherExpression t => t
  end.

Section Expr_ind.
Context (P : Expr → Prop)
  (Hcol : ∀ c s t, P (ColumnExpression c s t)) (Hval : ∀ v, P (ValueExpression v))
  (Hcast : ∀ t e, P e → P (CastExpression t e))
  (Hfun : ∀ n t args, Forall P args → P (FunctionExpression n t args)) (Hother : ∀ t, P (OtherExpression t)).

Fixpoint Expr_induction (e : Expr) : P e :=
  match e with
  | ColumnExpression c s t => Hcol c s t
  | ValueExpression v => Hval v
  | CastExpression t a => Hcast t a (Expr_induction a)
  | FunctionExpression n t args =>
      Hfun n t args ((fix go l : Forall P l :=
        match l with [] => Forall_nil_2 P | a :: l' => Forall_cons_2 P a l' (Expr_induction a) (go l') end) args)
  | OtherExpression t => Hother t
  end.
End Expr_ind.

Section Evaluate.
Context `{!FunctionLibrary}.

(** [IntegerTryCastToFixlen] to wider integers and to double, [FloatTryCastToFixlen] to double. *)
Definition cast_value (target : LogicalType) (v : Value) : option Value :=
  match v, target with
  | VInt TinyIntT z, kSmallInt => Some (VInt SmallIntT z)
  | VInt (TinyIntT | SmallIntT) z, kInteger => Some (VInt IntegerT z)
  | VInt (TinyIntT | SmallIntT | IntegerT) z, kBigInt => Some (VInt BigIntT z)
  | VInt _ z, kDouble => Some (VFloating DoubleT (Num (of_int double_format z)))
  | VFloating FloatT x, kDouble => Some (VFloating DoubleT (convert float_format double_format x))
  | _, _ => other_cast target v
  end.

Definition apply_function (name : string) (args : list Value) : option Value :=
  if String.eqb name "AND" then
    match args with [VBoolean a; VBoolean b] => Some (VBoolean (a && b)) | _ => None end
  else if String.eqb name "OR" then
    match args with [VBoolean a; VBoolean b] => Some (VBoolean (a || b)) | _ => None end
  else if String.eqb name "NOT" then
    match args with [VBoolean a] => Some (VBoolean (negb a)) | _ => None end
  else
    match compare_op name with
    | Some op =>
        match args with
        | [v; w] =>
            if decide (Value_type v = Value_type w) then
              if has_order (Value_type v) then Some (VBoolean (op_holds op (Value_compare v w)))
              else
                match op, v, w with
                | OpEqual, VBoolean a, VBoolean b => Some (VBoolean (Bool.eqb a b))
                | _, _, _ => call_function name args
                end
            else call_function name args
        | _ => call_function name args
        end
    | None => call_function name args
    end.

Fixpoint all_some {A} (l : list (option A)) : option (list A) :=
  match l with
  | [] => Some []
  | Some a :: l' => match all_some l' with Some l'' => Some (a :: l'') | None => None end
  | None :: _ => None
  end.

(** The value of an expression in a row, which has columns and special columns. *)
Definition Row := bool → Z → option Value.

Fixpoint evaluate (row : Row) (e : Expr) : option Value :=
  match e with
  | ColumnExpression column_idx special _ => row special column_idx
  | ValueExpression v => Some v
  | CastExpression target a =>
      match evaluate row a with Some v => cast_value target v | None => None end
  | FunctionExpression name _ args =>
      match all_some (map (evaluate row) args) with Some vs => apply_function name vs | None => None end
  | OtherExpression _ => None
  end.

Definition no_row : Row := fun _ _ => None.

Definition CalcValueResult (e : Expr) : result Value :=
  match e with
  | ValueExpression v => Ok v
  | _ => match evaluate no_row e with Some v => Ok v | None => Err UnrecoverableError end
  end.
End Evaluate.

(** ** Comparisons of a column with a constant *)

Inductive FilterCompareType := kEqual | kLess | kLessEqual | kGreater | kGreaterEqual | kAlwaysFalse | kAlwaysTrue | kInvalidCompare.

#[export] Instance FilterCompareType_eq_dec : EqDecision FilterCompareType.
Proof. solve_decision. Defined.

(** A type of keys with a smallest and a largest value, and the values before and after one. *)
Section RewriteCompareT.
Context {T : Type} (leb : T → T → bool) (lowest_val max_val : T) (FindPrevT FindNextT : T → T).

Definition RewriteCompareT (right_val : T) (compare_type : FilterCompareType) : result (T * FilterCompareType) :=
  match compare_type with
  | kLess => Ok (if leb right_val lowest_val then (right_val, kAlwaysFalse) else (FindPrevT right_val, kLessEqual))
  | kGreater => Ok (if leb max_val right_val then (right_val, kAlwaysFalse) else (FindNextT right_val, kGreaterEqual))
  | _ => Err UnrecoverableError
  end.
End RewriteCompareT.

Definition RewriteCompareT_int (t : ctype) := RewriteCompareT Z.leb (lowest t) (lowest t + modulus t - 1) Z.pred Z.succ.

Definition RewriteCompareT_float (f : Format) :=
  RewriteCompareT fp_le (Num (lowest_key f)) (Num (max_key f))
    (fun x => nextafter x (lowest_key f)) (fun x => nextafter x (max_key f)).

(** Datetimes go through their epoch time. *)
Definition RewriteCompareT_datetime (right_val : DateTimeType) (compare_type : FilterCompareType)
    : result (DateTimeType * FilterCompareType) :=
  let? epoch := GetEpochTime right_val in
  let? '(epoch, compare_type) := RewriteCompareT_int i64 epoch compare_type in
  let? right_val := DateTimeType_of_epoch epoch in
  Ok (right_val, compare_type).

(** The bytes of [std::numeric_limits<char>::lowest()] and [max()]. *)
Definition char_lowest : Z := 128.
Definition char_max : Z := 127.

Definition RewriteCompareT_varchar (right_val : bytes) (compare_type : FilterCompareType) : result (bytes * FilterCompareType) :=
  match compare_type with
  | kLess =>
      match last right_val with
      | None => Ok (right_val, kAlwaysFalse)
      | Some back =>
          let front := take (length right_val - 1) right_val in
          Ok (if back =? char_lowest then front
              else front ++ [(back - 1) mod 256] ++ replicate 16 char_max, kLessEqual)
      end
  | kGreater => Ok (right_val ++ [char_lowest], kGreaterEqual)
  | _ => Err UnrecoverableError
  end.

Definition RewriteCompare (right_val : Value) (compare_type : FilterCompareType) : result (Value * FilterCompareType) :=
  match right_val with
  | VInt t z => let? '(z, c) := RewriteCompareT_int (int_ctype t) z compare_type in Ok (VInt t z, c)
  | VFloating t x => let? '(x, c) := RewriteCompareT_float (float_of t) x compare_type in Ok (VFloating t x, c)
  | VDay t z => let? '(z, c) := RewriteCompareT_int i32 z compare_type in Ok (VDay t z, c)
  | VDateTime t d => let? '(d, c) := RewriteCompareT_datetime d compare_type in Ok (VDateTime t d, c)
  | VVarchar s => let? '(s, c) := RewriteCompareT_varchar s compare_type in Ok (VVarchar s, c)
  | _ => Err UnrecoverableError
  end.

Definition SimplifyCompareTypeAndValue (right_val : Value) (compare_type : FilterCompareType)
    : result (Value * FilterCompareType) :=
  match compare_type with
  | kLess | kGreater => RewriteCompare right_val compare_type
  | kInvalidCompare => Err UnrecoverableError
  | _ => Ok (right_val, compare_type)
  end.

(** The new comparison, and the constant when the comparison goes on. *)
Definition IntegralContinueUnwind_bigint (from : ctype) (right_val : Z) (compare_type : FilterCompareType)
    : result (FilterCompareType * bool) :=
  let max := lowest from + modulus from - 1 in
  match compare_type with
  | kLessEqual =>
      Ok (if right_val <? lowest from then (kAlwaysFalse, false)
          else if max <=? right_val then (kAlwaysTrue, false) else (kLessEqual, true))
  | kGreaterEqual =>
      Ok (if max <? right_val then (kAlwaysFalse, false)
          else if right_val <=? lowest from then (kAlwaysTrue, false) else (kGreaterEqual, true))
  | kEqual =>
      Ok (if (right_val <? lowest from) || (max <? right_val) then (kAlwaysFalse, false) else (kEqual, true))
  | _ => Err UnrecoverableError
  end.

Definition IntegralContinueUnwind_double (from : ctype) (right_val : fp) (compare_type : FilterCompareType)
    : result (FilterCompareType * option Z) :=
  let lowest_val := Num (of_int double_format (lowest from)) in
  let max_val := Num (of_int double_format (lowest from + modulus from - 1)) in
  match compare_type with
  | kLessEqual =>
      let right_val := fp_floor double_format right_val in
      if fp_lt right_val lowest_val then Ok (kAlwaysFalse, None)
      else if fp_le max_val right_val then Ok (kAlwaysTrue, None)
      else let? prev := fp_to_int double_format from right_val in Ok (kLessEqual, Some prev)
  | kGreaterEqual =>
      let right_val := fp_ceil double_format right_val in
      if fp_lt max_val right_val then Ok (kAlwaysFalse, None)
      else if fp_le right_val lowest_val then Ok (kAlwaysTrue, None)
      else let? prev := fp_to_int double_format from right_val in Ok (kGreaterEqual, Some prev)
  | kEqual =>
      if fp_le lowest_val right_val && fp_le right_val max_val then
        let? int_val := fp_to_int double_format from right_val in
        if fp_eqb (Num (of_int double_format int_val)) right_val then Ok (kEqual, Some int_val) else Ok (kAlwaysFalse, None)
      else Ok (kAlwaysFalse, None)
  | _ => Err UnrecoverableError
  end.

(** The integer type of a column that is cast to a wider type. *)
Definition int_of_type (t : LogicalType) : option IntType :=
  match t with
  | kTinyInt => Some TinyIntT | kSmallInt => Some SmallIntT | kInteger => Some IntegerT | kBigInt => Some BigIntT
  | _ => None
  end.

(** [std::tuple] of the column, the constant and the comparison. *)
Notation Unwound := (Z * Value * FilterCompareType)%type.

Definition unwound_at (compare_type : FilterCompareType) : Unwound := (0, VNull, compare_type).

Fixpoint UnwindCast (cast_expr : Expr) (right_val : Value) (compare_type : FilterCompareType) : result Unwound :=
  let? '(right_val, compare_type) := SimplifyCompareTypeAndValue right_val compare_type in
  match compare_type with
  | kAlwaysFalse | kAlwaysTrue => Ok (unwound_at compare_type)
  | _ =>
      match cast_expr with
      | ColumnExpression column_id _ _ => Ok (column_id, right_val, compare_type)
      | CastExpression target source_expr =>
          let source := Expr_type source_expr in
          if negb (bool_decide (target = Value_type right_val)) then Err UnrecoverableError
          else if bool_decide (source = target) then UnwindCast source_expr right_val compare_type
          else
            match target, right_val with
            | kBigInt, VInt _ z =>
                match int_of_type source with
                | None | Some BigIntT => Ok (unwound_at kInvalidCompare)
                | Some t =>
                    let? '(compare_type, continue) := IntegralContinueUnwind_bigint (int_ctype t) z compare_type in
                    if continue then UnwindCast source_expr (VInt t (cast (int_ctype t) z)) compare_type
                    else Ok (unwound_at compare_type)
                end
            | kDouble, VFloating _ x =>
                match int_of_type source, source with
                | Some t, _ =>
                    let? '(compare_type, prev) := IntegralContinueUnwind_double (int_ctype t) x compare_type in
                    match prev with
                    | Some z => UnwindCast source_expr (VInt t z) compare_type
                    | None => Ok (unwound_at compare_type)
                    end
                | None, kFloat => UnwindCast source_expr (VFloating FloatT (convert double_format float_format x)) compare_type
                | None, _ => Ok (unwound_at kInvalidCompare)
                end
            | _, _ => Ok (unwound_at kInvalidCompare)
            end
      | _ => Err UnrecoverableError
      end
  end.

(** ** Which expressions are such comparisons *)

(** [valid_cast] of [IsValidColumnExpression]. *)
Definition valid_cast (target source : LogicalType) : bool :=
  match target, source with
  | kBigInt, (kTinyInt | kSmallInt | kInteger) => true
  | kDouble, (kTinyInt | kSmallInt | kInteger | kBigInt | kFloat) => true
  | _, _ => false
  end.

Fixpoint IsValidColumnExpression (is_valid_column : Z → LogicalType → bool) (e : Expr) : bool :=
  match e with
  | CastExpression target a => valid_cast target (Expr_type a) && IsValidColumnExpression is_valid_column a
  | ColumnExpression column_id special t => negb special && is_valid_column column_id t
  | _ => false
  end.

Fixpoint IsValueResultExpression (e : Expr) : bool :=
  match e with
  | ValueExpression _ => true
  | CastExpression _ a => IsValueResultExpression a
  | FunctionExpression _ _ args => forallb IsValueResultExpression args
  | _ => false
  end.

Definition HaveLeftColumnAndRightValue (is_valid_column : Z → LogicalType → bool) (args : list Expr) : result bool :=
  match args with
  | [l; r] => Ok (IsValidColumnExpression is_valid_column l && IsValueResultExpression r)
  | _ => Err UnrecoverableError
  end.

Definition HaveRightColumnAndLeftValue (is_valid_column : Z → LogicalType → bool) (args : list Expr) : result bool :=
  match args with
  | [l; r] => Ok (IsValidColumnExpression is_valid_column r && IsValueResultExpression l)
  | _ => Err UnrecoverableError
  end.

Definition op_compare_type (op : CompareOp) : FilterCompareType :=
  match op with
  | OpLess => kLess | OpGreater => kGreater | OpLessEqual => kLessEqual | OpGreaterEqual => kGreaterEqual | OpEqual => kEqual
  end.

(** The operator with its sides exchanged. *)
Definition op_reverse (op : CompareOp) : CompareOp :=
  match op with
  | OpLess => OpGreater | OpGreater => OpLess | OpLessEqual => OpGreaterEqual | OpGreaterEqual => OpLessEqual | OpEqual => OpEqual
  end.

(** Types of columns: [CanBuildSecondaryIndex], [SupportMinMaxFilter], [SupportBloomFilter]. *)
Definition CanBuildSecondaryIndex (t : LogicalType) : bool :=
  match t with
  | kTinyInt | kSmallInt | kInteger | kBigInt | kFloat | kDouble | kDate | kTime | kDateTime | kTimestamp | kVarchar => true
  | _ => false
  end.

Definition SupportMinMaxFilter (t : LogicalType) : bool :=
  match t with
  | kTinyInt | kSmallInt | kInteger | kBigInt | kHugeInt | kFloat | kDouble | kVarchar | kDate | kTime | kDateTime
  | kTimestamp => true
  | _ => false
  end.

Definition SupportBloomFilter (t : LogicalType) : bool :=
  match t with
  | kBoolean | kTinyInt | kSmallInt | kInteger | kBigInt | kHugeInt | kDecimal | kVarchar | kDate | kTime | kDateTime
  | kTimestamp => true
  | _ => false
  end.
