(* ===== verification/FilterSpec.v ===== *)
(** * What moving casts over a comparison keeps

    [UnwindCast] turns the comparison of a column, under casts, with a constant into one of the column
    itself with another constant.  The two comparisons agree on every value of the column
    ([unwind_cast_exact]) as long as the casts are exact: integers of at most 53 bits go through a
    cast to double unchanged, floats only in one direction ([unwind_ok]). *)

From Stdlib Require Import ZArith Lia List String.
From stdpp Require Import base list numbers strings.
From S2P Require Import Prelude Bytes DataTypes DateTime Floating FilterExpr.
Local Open Scope Z_scope.

(** ** Values of columns *)

Definition value_ok (v : Value) : Prop :=
  match v with
  | VInt t z => in_range (int_ctype t) z
  | VFloating t x => fp_ok (float_of t) x
  | VDay _ z => in_range i32 z
  | VDateTime _ d => datetime_wf d
  | VVarchar s => Forall (fun b => 0 ≤ b < 256) s
  | VOther t => has_order t = false ∧ t ≠ kBoolean ∧ t ≠ kNull
  | _ => True
  end.

(** The comparisons with the largest numbers of a format take no account of infinities. *)
Definition finite (v : Value) : Prop :=
  match v with VFloating t (Num k) => - infinity_key (float_of t) < k < infinity_key (float_of t) | _ => True end.

(** What a comparison says of a value of the column. *)
Definition unwound_holds (compare_type : FilterCompareType) (x v : Value) : bool :=
  match compare_type with
  | kLess => op_holds OpLess (Value_compare x v)
  | kGreater => op_holds OpGreater (Value_compare x v)
  | kLessEqual => op_holds OpLessEqual (Value_compare x v)
  | kGreaterEqual => op_holds OpGreaterEqual (Value_compare x v)
  | kEqual => op_holds OpEqual (Value_compare x v)
  | kAlwaysTrue => true
  | kAlwaysFalse => false
  | kInvalidCompare => true
  end.

(** [kLessEqual], [kGreaterEqual] or [kEqual]. *)
Definition simple (c : FilterCompareType) : Prop := c = kLessEqual ∨ c = kGreaterEqual ∨ c = kEqual.
Definition decided (c : FilterCompareType) : Prop := c = kAlwaysFalse ∨ c = kAlwaysTrue.

(** The type of a value tells its form. *)
Lemma value_int x t : value_ok x → Value_type x = int_type t → ∃ z, x = VInt t z.
Proof.
  intros Hx Ht. destruct x as [|b|t1 z|u l|t1 y|s|t1 z|t1 d|t1]; try (by destruct t, t1); try (by destruct t); cbn in *.
  - assert (t1 = t) as -> by (by destruct t, t1). by exists z.
  - destruct Hx as (Ho & _). subst t1. by destruct t.
Qed.

Lemma value_float x t : value_ok x → Value_type x = float_type t → ∃ y, x = VFloating t y.
Proof.
  intros Hx Ht. destruct x as [|b|t1 z|u l|t1 y|s|t1 z|t1 d|t1]; try (by destruct t, t1); try (by destruct t); cbn in *.
  - assert (t1 = t) as -> by (by destruct t, t1). by exists y.
  - destruct Hx as (Ho & _). subst t1. by destruct t.
Qed.

Lemma value_day x t : value_ok x → Value_type x = day_type t → ∃ z, x = VDay t z.
Proof.
  intros Hx Ht. destruct x as [|b|t1 z|u l|t1 y|s|t1 z|t1 d|t1]; try (by destruct t, t1); try (by destruct t); cbn in *.
  - assert (t1 = t) as -> by (by destruct t, t1). by exists z.
  - destruct Hx as (Ho & _). subst t1. by destruct t.
Qed.

Lemma value_datetime x t : value_ok x → Value_type x = datetime_type t → ∃ d, x = VDateTime t d.
Proof.
  intros Hx Ht. destruct x as [|b|t1 z|u l|t1 y|s|t1 z|t1 d|t1]; try (by destruct t, t1); try (by destruct t); cbn in *.
  - assert (t1 = t) as -> by (by destruct t, t1). by exists d.
  - destruct Hx as (Ho & _). subst t1. by destruct t.
Qed.

Lemma value_varchar x : value_ok x → Value_type x = kVarchar → ∃ s, x = VVarchar s.
Proof. intros Hx Ht. destruct x as [| |t1 z| |t1 y|s|t1 z|t1 d|t1]; try (by destruct t1); try done; cbn in *; [by exists s|]. subst. by destruct Hx. Qed.

(** ** Comparisons on integers *)

Lemma le_holds a b : op_holds OpLessEqual (Some (a ?= b)) = (a <=? b).
Proof. unfold Z.leb. simpl. by destruct (a ?= b). Qed.
Lemma ge_holds a b : op_holds OpGreaterEqual (Some (a ?= b)) = (b <=? a).
Proof. unfold Z.leb. rewrite (Z.compare_antisym a b). simpl. by destruct (a ?= b). Qed.
Lemma lt_holds a b : op_holds OpLess (Some (a ?= b)) = (a <? b).
Proof. unfold Z.ltb. simpl. by destruct (a ?= b). Qed.
Lemma gt_holds a b : op_holds OpGreater (Some (a ?= b)) = (b <? a).
Proof. unfold Z.ltb. rewrite (Z.compare_antisym a b). simpl. by destruct (a ?= b). Qed.
Lemma eq_holds a b : op_holds OpEqual (Some (a ?= b)) = (a =? b).
Proof. rewrite Z.eqb_compare. simpl. by destruct (a ?= b). Qed.

Create Rewrite HintDb holds.
#[export] Hint Rewrite le_holds ge_holds lt_holds gt_holds eq_holds : holds.

(** Decide the comparisons of a goal on integers. *)
Ltac Zcompares :=
  autorewrite with holds;
  repeat match goal with
  | |- context [if ?a <? ?b then _ else _] => destruct (Z.ltb_spec a b)
  | |- context [?a <=? ?b] => destruct (Z.leb_spec a b)
  | |- context [?a <? ?b] => destruct (Z.ltb_spec a b)
  | |- context [?a =? ?b] => destruct (Z.eqb_spec a b)
  end; try lia; try done.

Lemma fp_le_Num a b : fp_le (Num a) (Num b) = (a <=? b).
Proof. unfold fp_le. simpl. unfold Z.leb. by destruct (a ?= b). Qed.
Lemma fp_lt_Num a b : fp_lt (Num a) (Num b) = (a <? b).
Proof. unfold fp_lt. simpl. unfold Z.ltb. by destruct (a ?= b). Qed.
Lemma fp_eqb_Num a b : fp_eqb (Num a) (Num b) = (a =? b).
Proof. unfold fp_eqb. simpl. rewrite Z.eqb_compare. by destruct (a ?= b). Qed.
#[export] Hint Rewrite fp_le_Num fp_lt_Num fp_eqb_Num : holds.

(** ** Making comparisons simple *)

Lemma rewrite_int t t' x z c z' c' :
  in_range t' x → RewriteCompareT_int t' z c = Ok (z', c') → in_range t' z →
  in_range t' z' ∧ (simple c' ∨ c' = kAlwaysFalse) ∧
  unwound_holds c (VInt t x) (VInt t z) = unwound_holds c' (VInt t x) (VInt t z') ∧
  ∀ d, unwound_holds c (VDay d x) (VDay d z) = unwound_holds c' (VDay d x) (VDay d z').
Proof.
  unfold RewriteCompareT_int, RewriteCompareT, in_range, simple. intros Hx Hr Hz.
  destruct c; try discriminate Hr; injection Hr as Hr.
  - destruct (Z.leb_spec z (lowest t')); injection Hr as <- <-; cbn [unwound_holds Value_compare fp_compare fp_ok nextafter]; rewrite ?decide_True by done;
      (split; [lia|]); (split; [tauto|]); (split; [|intros d; rewrite ?decide_True by done]); Zcompares.
  - destruct (Z.leb_spec (lowest t' + modulus t' - 1) z); injection Hr as <- <-; cbn [unwound_holds Value_compare fp_compare fp_ok nextafter]; rewrite ?decide_True by done;
      (split; [lia|]); (split; [tauto|]); (split; [|intros d; rewrite ?decide_True by done]); Zcompares.
Qed.

Lemma rewrite_float t x y c y' c' :
  fp_ok (float_of t) x → finite (VFloating t x) → fp_ok (float_of t) y →
  RewriteCompareT_float (float_of t) y c = Ok (y', c') →
  fp_ok (float_of t) y' ∧ (simple c' ∨ c' = kAlwaysFalse) ∧
  unwound_holds c (VFloating t x) (VFloating t y) = unwound_holds c' (VFloating t x) (VFloating t y').
Proof.
  intros Hx Hfin Hy Hr. assert (Hi : 1 < infinity_key (float_of t)) by (by destruct t).
  unfold RewriteCompareT_float, RewriteCompareT, lowest_key, max_key, simple in *.
  destruct c; try discriminate Hr; injection Hr as Hr; destruct y as [|b]; cbn [fp_ok finite] in *.
  - injection Hr as <- <-. cbn [unwound_holds Value_compare fp_compare fp_ok nextafter]. rewrite !decide_True by done. split; [done|]. split; [tauto|]. by destruct x.
  - autorewrite with holds in Hr.
    destruct (Z.leb_spec b (- (infinity_key (float_of t) - 1))); injection Hr as <- <-; cbn [unwound_holds Value_compare fp_compare fp_ok nextafter]; rewrite ?decide_True by done;
      (destruct x as [|a]; cbn [fp_compare fp_ok finite] in *); repeat split; auto; try (Zcompares; fail); lia.
  - injection Hr as <- <-. cbn [unwound_holds Value_compare fp_compare fp_ok nextafter]. rewrite !decide_True by done. split; [done|]. split; [tauto|]. by destruct x.
  - autorewrite with holds in Hr.
    destruct (Z.leb_spec (infinity_key (float_of t) - 1) b); injection Hr as <- <-; cbn [unwound_holds Value_compare fp_compare fp_ok nextafter]; rewrite ?decide_True by done;
      (destruct x as [|a]; cbn [fp_compare fp_ok finite] in *); repeat split; auto; try (Zcompares; fail); lia.
Qed.

Lemma datetime_compare_epoch a b :
  datetime_wf a → datetime_wf b → datetime_compare a b = (epoch a ?= epoch b).
Proof.
  intros [_ Ha] [_ Hb]. unfold datetime_compare, epoch, then_compare.
  destruct (Z.compare_spec (date_ a) (date_ b)) as [Hd|Hd|Hd].
  - rewrite Hd. destruct (Z.compare_spec (time_ a) (time_ b)); symmetry; [apply Z.compare_eq_iff|apply Z.compare_lt_iff|apply Z.compare_gt_iff]; lia.
  - symmetry. apply Z.compare_lt_iff. lia.
  - symmetry. apply Z.compare_gt_iff. lia.
Qed.

Lemma of_epoch_any e :
  - 2 ^ 32 ≤ e ≤ 2 ^ 32 → ∃ d, DateTimeType_of_epoch e = Ok d ∧ datetime_wf d ∧ epoch d = e.
Proof.
  intros He. change (2 ^ 32) with 4294967296 in He. unfold DateTimeType_of_epoch. change DAY_SECOND with 86400.
  assert (Hs : (if Z.rem e 86400 <? 0 then Z.rem e 86400 + 86400 else Z.rem e 86400) = e mod 86400).
  { destruct (Z.ltb_spec (Z.rem e 86400) 0); div_lia. }
  rewrite Hs. rewrite decide_True by (eval_range; div_lia).
  assert (Hq : Z.quot (e - e mod 86400) 86400 = e / 86400) by div_lia.
  rewrite Hq, cast_id by (eval_range; div_lia). eexists. split; [reflexivity|]. unfold datetime_wf, epoch. cbn [date_ time_].
  split; [split; [eval_range|]|]; div_lia.
Qed.

Lemma epoch_time d e : GetEpochTime d = Ok e → e = epoch d ∧ in_range i32 e.
Proof.
  unfold GetEpochTime, int32. change DAY_SECOND with 86400. unfold epoch.
  destruct (decide _); simpl; [|done]. destruct (decide _); [|done]. by intros [= <-].
Qed.

Lemma rewrite_datetime t x d c d' c' :
  datetime_wf x → datetime_wf d → RewriteCompareT_datetime d c = Ok (d', c') →
  datetime_wf d' ∧ (simple c' ∨ c' = kAlwaysFalse) ∧
  unwound_holds c (VDateTime t x) (VDateTime t d) = unwound_holds c' (VDateTime t x) (VDateTime t d').
Proof.
  intros Hx Hd Hr. unfold RewriteCompareT_datetime in Hr. apply res_bind_ok in Hr as (e & He & Hr).
  destruct (epoch_time _ _ He) as [-> Hrange]. clear He. apply res_bind_ok in Hr as ([e' c1] & H0 & Hr).
  apply res_bind_ok in Hr as (d1 & Hd1 & [= <- <-]).
  unfold RewriteCompareT_int, RewriteCompareT, simple in *. eval_range.
  assert (∃ d, DateTimeType_of_epoch e' = Ok d ∧ datetime_wf d ∧ epoch d = e') as (d2 & Hd2 & Hwf & Hep).
  { apply of_epoch_any. destruct c; try discriminate H0; destruct (_ <=? _) in H0; injection H0 as <- <-; lia. }
  assert (d2 = d1) as -> by congruence. split; [done|].
  destruct c; try discriminate H0; match type of H0 with context [?a <=? ?b] => destruct (Z.leb_spec a b) end; injection H0 as <- <-; try (exfalso; lia);
    (split; [tauto|]); cbn [unwound_holds Value_compare]; rewrite !decide_True by done; rewrite !datetime_compare_epoch by done;
    rewrite Hep; Zcompares.
Qed.

(** After [SimplifyCompareTypeAndValue] the comparison says the same. *)
Lemma simplify_spec x v c v' c' :
  value_ok x → finite x → value_ok v → Value_type x = Value_type v →
  (Value_type v = kVarchar → c ≠ kLess ∧ c ≠ kGreater) →
  SimplifyCompareTypeAndValue v c = Ok (v', c') →
  value_ok v' ∧ Value_type v' = Value_type v ∧ (simple c' ∨ decided c') ∧ unwound_holds c x v = unwound_holds c' x v'.
Proof.
  intros Hx Hfin Hv Ht Hvc Hs. unfold SimplifyCompareTypeAndValue in Hs.
  destruct (decide (c = kLess ∨ c = kGreater)) as [Hc|Hc].
  2:{ unfold simple, decided. destruct c; try discriminate Hs; try (exfalso; tauto); injection Hs as <- <-; tauto. }
  assert (Hr : RewriteCompare v c = Ok (v', c')) by (destruct Hc as [-> | ->]; exact Hs). clear Hs.
  assert (Value_type v ≠ kVarchar) by (intros Hk; destruct (Hvc Hk); tauto).
  assert (Hor : simple c' ∨ c' = kAlwaysFalse → simple c' ∨ decided c') by (unfold decided; tauto).
  unfold RewriteCompare in Hr. destruct v as [| |t z|u l|t y|s|t z|t d|t]; try discriminate Hr; try done.
  all: apply res_bind_ok in Hr as ([r0 c0] & Hr & [= <- <-]).
  - destruct (value_int x t Hx Ht) as [a ->]. destruct (rewrite_int t _ a z c r0 c0 Hx Hr Hv) as (? & ? & ? & _). auto.
  - destruct (value_float x t Hx Ht) as [a ->]. destruct (rewrite_float t a y c r0 c0 Hx Hfin Hv Hr) as (? & ? & ?). auto.
  - destruct (value_day x t Hx Ht) as [a ->]. destruct (rewrite_int TinyIntT _ a z c r0 c0 Hx Hr Hv) as (? & ? & _ & ?). auto.
  - destruct (value_datetime x t Hx Ht) as [a ->]. destruct (rewrite_datetime t a d c r0 c0 Hx Hv Hr) as (? & ? & ?). auto.
Qed.

(** ** Casts to bigint *)

(** What a step of unwinding has made of a comparison. *)
Definition step_holds (c : FilterCompareType) (holds : bool) (c' : FilterCompareType) (x : Z) (prev : option Z) : Prop :=
  match prev with
  | Some z => c' = c ∧ holds = unwound_holds c (VInt TinyIntT x) (VInt TinyIntT z)
  | None => decided c' ∧ holds = bool_decide (c' = kAlwaysTrue)
  end.

Lemma bigint_step t x z c c' continue :
  in_range t x → simple c → IntegralContinueUnwind_bigint t z c = Ok (c', continue) →
  step_holds c (unwound_holds c (VInt BigIntT x) (VInt BigIntT z)) c' x (if continue then Some z else None) ∧
  (continue = true → in_range t z).
Proof.
  unfold in_range, IntegralContinueUnwind_bigint. intros Hx [-> |[-> | ->]] [= H]; unfold step_holds, decided.
  all: cbn [unwound_holds Value_compare]; rewrite ?decide_True by done; autorewrite with holds.
  - destruct (Z.ltb_spec z (lowest t)); [|destruct (Z.leb_spec (lowest t + modulus t - 1) z)]; injection H as <- <-.
    + split; [|done]. split; [tauto|]. Zcompares.
    + split; [|done]. split; [tauto|]. Zcompares.
    + split; [|lia]. split; [done|]. cbn [unwound_holds Value_compare]. rewrite decide_True by done. by autorewrite with holds.
  - destruct (Z.ltb_spec (lowest t + modulus t - 1) z); [|destruct (Z.leb_spec z (lowest t))]; injection H as <- <-.
    + split; [|done]. split; [tauto|]. Zcompares.
    + split; [|done]. split; [tauto|]. Zcompares.
    + split; [|lia]. split; [done|]. cbn [unwound_holds Value_compare]. rewrite decide_True by done. by autorewrite with holds.
  - destruct (Z.ltb_spec z (lowest t)); [|destruct (Z.ltb_spec (lowest t + modulus t - 1) z)]; simpl in H; injection H as <- <-.
    + split; [|done]. split; [tauto|]. Zcompares.
    + split; [|done]. split; [tauto|]. Zcompares.
    + split; [|lia]. split; [done|]. cbn [unwound_holds Value_compare]. rewrite decide_True by done. by autorewrite with holds.
Qed.

(** ** Casts to double *)

Section double.
Notation D := double_format.
Notation U := (2 ^ smallest_exponent D).

Let HD := double_format_ok.

(** The bounds of an integer type as doubles: the upper one may be rounded up by one. *)
Lemma lowest_double t : units D (of_int D (lowest (int_ctype t))) = lowest (int_ctype t) * U.
Proof. destruct t; vm_compute; reflexivity. Qed.

Lemma max_double t :
  ∃ M, units D (of_int D (int_max t)) = M * U ∧ int_max t ≤ M ≤ int_max t + 1 ∧ (t ≠ BigIntT → M = int_max t).
Proof.
  destruct t; [exists (2 ^ 7 - 1)|exists (2 ^ 15 - 1)|exists (2 ^ 31 - 1)|exists (2 ^ 63)].
  all: split; [vm_compute; reflexivity|]; split; [vm_compute; split; discriminate|]; by vm_compute.
Qed.

Lemma infinity_above z : Z.abs z ≤ 2 ^ 64 → z * U < units D (infinity_key D).
Proof.
  intros Hz. apply Z.le_lt_trans with (2 ^ 64 * U); [|vm_compute; reflexivity].
  apply Z.mul_le_mono_nonneg_r; [|lia]. pose proof (U_pos D HD). lia.
Qed.

Lemma place_le a b i j : units D a = i * U → units D b = j * U → (a <=? b) = (i <=? j).
Proof.
  intros Ha Hb. pose proof (units_le_iff D HD a b) as H. rewrite Ha, Hb in H. pose proof (U_pos D HD).
  rewrite <- Z.mul_le_mono_pos_r in H by done. destruct (Z.leb_spec a b), (Z.leb_spec i j); lia || done.
Qed.

Lemma place_lt a b i j : units D a = i * U → units D b = j * U → (a <? b) = (i <? j).
Proof. intros Ha Hb. rewrite !Z.ltb_antisym. by rewrite (place_le b a j i). Qed.

(** A finite double is between two integers that are doubles. *)
Lemma floor_place k :
  - infinity_key D < k < infinity_key D →
  ∃ a z, fp_floor D (Num k) = Num a ∧ units D a = z * U ∧ z * U ≤ units D k < (z + 1) * U ∧ - infinity_key D ≤ a ≤ infinity_key D.
Proof.
  intros Hk. pose proof (U_pos D HD) as HU. unfold fp_floor.
  destruct (Z.eqb_spec (Z.abs k) (infinity_key D)); [lia|].
  exists (of_int D (units D k / U)), (units D k / U).
  pose proof (Z.mul_div_le (units D k) U HU). pose proof (Z.mul_succ_div_gt (units D k) U HU).
  split; [done|]. split; [apply (of_int_near D HD k); lia|]. split; [lia|apply (of_int_range D HD)].
Qed.

Lemma ceil_place k :
  - infinity_key D < k < infinity_key D →
  ∃ a z, fp_ceil D (Num k) = Num a ∧ units D a = z * U ∧ (z - 1) * U < units D k ≤ z * U ∧ - infinity_key D ≤ a ≤ infinity_key D.
Proof.
  intros Hk. pose proof (U_pos D HD) as HU. unfold fp_ceil.
  destruct (Z.eqb_spec (Z.abs k) (infinity_key D)); [lia|].
  exists (of_int D (- (- units D k / U))), (- (- units D k / U)).
  pose proof (Z.mul_div_le (- units D k) U HU). pose proof (Z.mul_succ_div_gt (- units D k) U HU).
  split; [done|]. split; [apply (of_int_near D HD k); lia|]. split; [lia|apply (of_int_range D HD)].
Qed.

(** The comparison of an exact integer with a double. *)
Lemma of_int_le x k : Z.abs x ≤ 2 ^ 53 → (of_int D x <=? k) = (x * U <=? units D k).
Proof.
  intros Hx. pose proof (units_le_iff D HD (of_int D x) k) as H. rewrite (of_int_exact D HD x Hx) in H.
  destruct (Z.leb_spec (of_int D x) k), (Z.leb_spec (x * U) (units D k)); lia || done.
Qed.

Lemma of_int_ge x k : Z.abs x ≤ 2 ^ 53 → (k <=? of_int D x) = (units D k <=? x * U).
Proof.
  intros Hx. pose proof (units_le_iff D HD k (of_int D x)) as H. rewrite (of_int_exact D HD x Hx) in H.
  destruct (Z.leb_spec k (of_int D x)), (Z.leb_spec (units D k) (x * U)); lia || done.
Qed.

Lemma of_int_finite x : Z.abs x ≤ 2 ^ 53 → - infinity_key D < of_int D x < infinity_key D.
Proof.
  intros Hx. pose proof (of_int_range D HD x) as Hr. pose proof (of_int_exact D HD x Hx) as He.
  pose proof (infinity_above x) as H1. pose proof (infinity_above (- x)) as H2. change (2 ^ 53) with 9007199254740992 in Hx.
  change (2 ^ 64) with 18446744073709551616 in *. specialize (H1 ltac:(lia)). specialize (H2 ltac:(lia)).
  assert (of_int D x ≠ infinity_key D) by (intros Heq; rewrite Heq in He; lia).
  assert (of_int D x ≠ - infinity_key D) by (intros Heq; rewrite Heq, (units_opp D) in He; lia). lia.
Qed.

Lemma to_int_place t a z :
  units D a = z * U → Z.abs a ≠ infinity_key D → fp_to_int D t (Num a) = if decide (in_range t z) then Ok z else Err SignedOverflow.
Proof.
  intros Ha Hi. unfold fp_to_int. destruct (Z.eqb_spec (Z.abs a) (infinity_key D)); [done|].
  rewrite Ha, Z.quot_mul; [done|]. pose proof (U_pos D HD). lia.
Qed.

Lemma place_finite a z : units D a = z * U → Z.abs z ≤ 2 ^ 64 → Z.abs a ≠ infinity_key D.
Proof.
  intros Ha Hz Hi. pose proof (infinity_above z Hz) as H1. pose proof (infinity_above (- z) ltac:(lia)) as H2.
  destruct (Z.abs_spec a) as [[_ Hs]|[_ Hs]]; rewrite Hs in Hi; [|replace a with (- infinity_key D) in Ha by lia; rewrite (units_opp D) in Ha; lia].
  subst a. lia.
Qed.

Lemma int_bounds t z : lowest (int_ctype t) ≤ z ≤ int_max t + 1 → Z.abs z ≤ 2 ^ 64.
Proof. unfold int_max. change (2 ^ 64) with 18446744073709551616. destruct t; cbn [int_ctype]; intros H; eval_range; lia. Qed.

Lemma int_range t z : in_range (int_ctype t) z ↔ lowest (int_ctype t) ≤ z ≤ int_max t.
Proof. unfold in_range, int_max. lia. Qed.

Lemma between x z k : z * U ≤ units D k < (z + 1) * U → (x * U <=? units D k) = (x <=? z).
Proof. intros Hk. pose proof (U_pos D HD). destruct (Z.leb_spec (x * U) (units D k)), (Z.leb_spec x z); nia || done. Qed.

Lemma between' x z k : (z - 1) * U < units D k ≤ z * U → (units D k <=? x * U) = (z <=? x).
Proof. intros Hk. pose proof (U_pos D HD). destruct (Z.leb_spec (units D k) (x * U)), (Z.leb_spec z x); nia || done. Qed.

(** The bounds of the type against a double with an integer value. *)
Lemma lowest_compare t a z : units D a = z * U →
  (a <? of_int D (lowest (int_ctype t))) = (z <? lowest (int_ctype t)) ∧
  (a <=? of_int D (lowest (int_ctype t))) = (z <=? lowest (int_ctype t)).
Proof. intros Ha. split; [apply place_lt|apply place_le]; auto using lowest_double. Qed.

Lemma lowest_finite t : - infinity_key D < of_int D (lowest (int_ctype t)) < infinity_key D.
Proof. destruct t; vm_compute; done. Qed.
Lemma max_finite t : - infinity_key D < of_int D (int_max t) < infinity_key D.
Proof. destruct t; vm_compute; done. Qed.

Definition double_step_ok (t : IntType) (c c' : FilterCompareType) (holds : bool) (x : Z) (prev : option Z) : Prop :=
  step_holds c holds c' x prev ∧ ∀ z, prev = Some z → in_range (int_ctype t) z.

Lemma double_le t x k c' prev :
  in_range (int_ctype t) x → Z.abs x ≤ 2 ^ 53 → fp_ok D (Num k) →
  IntegralContinueUnwind_double (int_ctype t) (Num k) kLessEqual = Ok (c', prev) →
  double_step_ok t kLessEqual c' (of_int D x <=? k) x prev.
Proof.
  intros Hx Hx53 Hk. unfold IntegralContinueUnwind_double. fold (int_max t). cbn [fp_ok] in Hk.
  pose proof (of_int_finite x Hx53) as Hfx. pose proof (lowest_finite t). pose proof (max_finite t). unfold double_step_ok, step_holds, decided.
  destruct (decide (k = infinity_key D)) as [->|]; [|destruct (decide (k = - infinity_key D)) as [->|]].
  - change (fp_floor D (Num (infinity_key D))) with (Num (infinity_key D)). autorewrite with holds.
    destruct (Z.ltb_spec (infinity_key D) (of_int D (lowest (int_ctype t)))); [lia|].
    destruct (Z.leb_spec (of_int D (int_max t)) (infinity_key D)); [|lia]. intros [= <- <-].
    destruct (Z.leb_spec (of_int D x) (infinity_key D)); [|lia]. split; [split; [tauto|done]|done].
  - change (fp_floor D (Num (- infinity_key D))) with (Num (- infinity_key D)). autorewrite with holds.
    destruct (Z.ltb_spec (- infinity_key D) (of_int D (lowest (int_ctype t)))); [|lia]. intros [= <- <-].
    destruct (Z.leb_spec (of_int D x) (- infinity_key D)); [lia|]. split; [split; [tauto|done]|done].
  - destruct (floor_place k ltac:(lia)) as (a & z & -> & Ha & Hz & Hra). autorewrite with holds.
    destruct (max_double t) as (M & HM & Hmax & _). rewrite (proj1 (lowest_compare t a z Ha)), (place_le _ _ _ _ HM Ha).
    rewrite of_int_le, (between x z k Hz) by done. apply int_range in Hx.
    destruct (Z.ltb_spec z (lowest (int_ctype t))); [intros [= <- <-]; split; [split; [tauto|Zcompares]|done]|].
    destruct (Z.leb_spec M z); [intros [= <- <-]; split; [split; [tauto|Zcompares]|done]|].
    rewrite (to_int_place _ a z Ha) by (apply (place_finite a z Ha), (int_bounds t); lia).
    assert (Hr : in_range (int_ctype t) z) by (apply int_range; lia). rewrite decide_True by done. intros [= <- <-].
    split; [|by intros ? [= <-]]. split; [done|]. cbn [unwound_holds Value_compare]. rewrite decide_True by done. by autorewrite with holds.
Qed.

Lemma double_ge t x k c' prev :
  in_range (int_ctype t) x → Z.abs x ≤ 2 ^ 53 → fp_ok D (Num k) →
  IntegralContinueUnwind_double (int_ctype t) (Num k) kGreaterEqual = Ok (c', prev) →
  double_step_ok t kGreaterEqual c' (k <=? of_int D x) x prev.
Proof.
  intros Hx Hx53 Hk. unfold IntegralContinueUnwind_double. fold (int_max t). cbn [fp_ok] in Hk.
  pose proof (of_int_finite x Hx53) as Hfx. pose proof (lowest_finite t). pose proof (max_finite t). unfold double_step_ok, step_holds, decided.
  destruct (decide (k = infinity_key D)) as [->|]; [|destruct (decide (k = - infinity_key D)) as [->|]].
  - change (fp_ceil D (Num (infinity_key D))) with (Num (infinity_key D)). autorewrite with holds.
    destruct (Z.ltb_spec (of_int D (int_max t)) (infinity_key D)); [|lia]. intros [= <- <-].
    destruct (Z.leb_spec (infinity_key D) (of_int D x)); [lia|]. split; [split; [tauto|done]|done].
  - change (fp_ceil D (Num (- infinity_key D))) with (Num (- infinity_key D)). autorewrite with holds.
    destruct (Z.ltb_spec (of_int D (int_max t)) (- infinity_key D)); [lia|].
    destruct (Z.leb_spec (- infinity_key D) (of_int D (lowest (int_ctype t)))); [|lia]. intros [= <- <-].
    destruct (Z.leb_spec (- infinity_key D) (of_int D x)); [|lia]. split; [split; [tauto|done]|done].
  - destruct (ceil_place k ltac:(lia)) as (a & z & -> & Ha & Hz & Hra). autorewrite with holds.
    destruct (max_double t) as (M & HM & Hmax & _). rewrite (proj2 (lowest_compare t a z Ha)), (place_lt _ _ _ _ HM Ha).
    rewrite of_int_ge, (between' x z k Hz) by done. apply int_range in Hx.
    destruct (Z.ltb_spec M z); [intros [= <- <-]; split; [split; [tauto|Zcompares]|done]|].
    destruct (Z.leb_spec z (lowest (int_ctype t))); [intros [= <- <-]; split; [split; [tauto|Zcompares]|done]|].
    rewrite (to_int_place _ a z Ha) by (apply (place_finite a z Ha), (int_bounds t); lia).
    destruct (decide (in_range (int_ctype t) z)) as [Hr|]; [|done]. intros [= <- <-].
    split; [|by intros ? [= <-]]. split; [done|]. cbn [unwound_holds Value_compare]. rewrite decide_True by done. by autorewrite with holds.
Qed.

(** An integer that equals a double is what truncation gives. *)
Lemma double_eq t x k c' prev :
  in_range (int_ctype t) x → Z.abs x ≤ 2 ^ 53 → fp_ok D (Num k) →
  IntegralContinueUnwind_double (int_ctype t) (Num k) kEqual = Ok (c', prev) →
  double_step_ok t kEqual c' (of_int D x =? k) x prev.
Proof.
  intros Hx Hx53 Hk. unfold IntegralContinueUnwind_double. fold (int_max t). cbn [fp_ok] in Hk.
  pose proof (U_pos D HD) as HU. pose proof (of_int_exact D HD x Hx53) as Hex. unfold double_step_ok, step_holds, decided.
  autorewrite with holds. destruct (max_double t) as (M & HM & Hmax & _). pose proof (lowest_double t) as Hlow.
  pose proof (proj1 (int_range t x) Hx) as Hxr.
  destruct (Z.leb_spec (of_int D (lowest (int_ctype t))) k) as [H1|H1]; cbn [andb].
  2:{ intros [= <- <-]. split; [|done]. split; [tauto|]. destruct (Z.eqb_spec (of_int D x) k) as [<-|]; [|done].
      rewrite <- Z.ltb_lt, (place_lt _ _ _ _ Hex Hlow), Z.ltb_lt in H1. lia. }
  destruct (Z.leb_spec k (of_int D (int_max t))) as [H2|H2].
  2:{ intros [= <- <-]. split; [|done]. split; [tauto|]. destruct (Z.eqb_spec (of_int D x) k) as [<-|]; [|done].
      rewrite <- Z.ltb_lt, (place_lt _ _ _ _ HM Hex), Z.ltb_lt in H2. lia. }
  unfold fp_to_int at 1. destruct (Z.eqb_spec (Z.abs k) (infinity_key D)); [done|]. set (z := Z.quot (units D k) U).
  destruct (decide (in_range (int_ctype t) z)) as [Hr|]; [|done]. cbn [res_bind]. autorewrite with holds.
  assert (Hz : (z - 1) * U < units D k < (z + 1) * U).
  { pose proof (Z.quot_rem' (units D k) U) as Hq. fold z in Hq. pose proof (Z.rem_bound_abs (units D k) U ltac:(lia)). lia. }
  pose proof (of_int_near D HD k z ltac:(lia) Hz) as Hnear.
  destruct (Z.eqb_spec (of_int D z) k) as [Heq|Hne]; intros [= <- <-].
  - split; [|by intros ? [= <-]]. split; [done|]. cbn [unwound_holds Value_compare]. rewrite decide_True by done. autorewrite with holds.
    destruct (Z.eqb_spec x z) as [->|Hxz]; [by apply Z.eqb_eq|]. apply Z.eqb_neq. intros Heq'. apply Hxz.
    rewrite Heq', <- Heq, Hnear in Hex. nia.
  - split; [|done]. split; [tauto|]. destruct (Z.eqb_spec (of_int D x) k) as [Heq|]; [|done]. exfalso. apply Hne.
    rewrite <- Heq in Hz |- *. rewrite Hex in Hz. assert (x = z) as -> by nia. done.
Qed.

Lemma double_step t x y c c' prev :
  in_range (int_ctype t) x → Z.abs x ≤ 2 ^ 53 → fp_ok D y → simple c →
  IntegralContinueUnwind_double (int_ctype t) y c = Ok (c', prev) →
  double_step_ok t c c' (unwound_holds c (VFloating DoubleT (Num (of_int D x))) (VFloating DoubleT y)) x prev.
Proof.
  intros Hx Hx53 Hy Hc Hs. destruct y as [|k].
  { destruct Hc as [-> |[-> | ->]]; try discriminate Hs. injection Hs as <- <-. split; [|done]. split; [by left|].
    cbn. by rewrite decide_True. }
  destruct Hc as [-> |[-> | ->]]; cbn [unwound_holds Value_compare fp_compare]; rewrite decide_True by done; autorewrite with holds.
  - by apply double_le.
  - by apply double_ge.
  - by apply double_eq.
Qed.
End double.

(** ** Floats cast to double *)

Lemma float_step x y c :
  fp_ok float_format x → finite (VFloating FloatT x) → fp_ok double_format y → simple c →
  fp_ok float_format (convert double_format float_format y) ∧
  (unwound_holds c (VFloating DoubleT (convert float_format double_format x)) (VFloating DoubleT y) = true →
   unwound_holds c (VFloating FloatT x) (VFloating FloatT (convert double_format float_format y)) = true).
Proof.
  intros Hx Hfin Hy Hc. pose proof (infinity_pos _ float_format_ok) as HF. pose proof (infinity_pos _ double_format_ok) as HD.
  assert (Hok : fp_ok float_format (convert double_format float_format y)).
  { destruct y as [|k]; [done|]. unfold convert. destruct (Z.abs k =? _); [cbn; lia|]. by apply (round_range _ float_format_ok). }
  split; [done|]. destruct x as [|a]; [by destruct Hc as [-> |[-> | ->]]; cbn; destruct y|].
  destruct y as [|k].
  { destruct Hc as [-> |[-> | ->]]; cbn [unwound_holds Value_compare]; rewrite !decide_True by done; by destruct (convert float_format double_format (Num a)). }
  cbn [finite float_of] in Hfin. destruct (float_to_double a Hfin) as (b & Hb & Hub & Hrb).
  pose proof (units_le_iff _ double_format_ok b k) as Hbk. pose proof (units_le_iff _ double_format_ok k b) as Hkb.
  rewrite Hb, Hub in *. cbn [fp_ok] in Hy.
  destruct (decide (Z.abs k = infinity_key double_format)) as [Hk|Hk].
  - assert (convert double_format float_format (Num k) = Num (Z.sgn k * infinity_key float_format)) as ->.
    { unfold convert. by destruct (Z.eqb_spec (Z.abs k) (infinity_key double_format)). }
    assert (Hsgn : k = Z.sgn k * infinity_key double_format ∧ (Z.sgn k = 1 ∨ Z.sgn k = -1)) by lia.
    destruct Hsgn as [Hk' [Hs|Hs]]; rewrite Hs in Hk' |- *;
      destruct Hc as [-> |[-> | ->]]; cbn [unwound_holds Value_compare fp_compare]; rewrite !decide_True by done; Zcompares.
  - destruct (double_to_float k a ltac:(lia) Hk) as (b' & -> & Hrb' & Hle & Hge).
    destruct Hc as [-> |[-> | ->]]; cbn [unwound_holds Value_compare fp_compare]; rewrite !decide_True by done; Zcompares.
Qed.

(** ** Unwinding *)

Section Unwind.
Context `{!FunctionLibrary}.

(** The column under the casts. *)
Fixpoint column_of (e : Expr) : option (Z * LogicalType) :=
  match e with
  | ColumnExpression column_id _ t => Some (column_id, t)
  | CastExpression _ a => column_of a
  | _ => None
  end.

Fixpoint cast_to_double (e : Expr) : bool :=
  match e with CastExpression t a => bool_decide (t = kDouble) || cast_to_double a | _ => false end.

(** A bigint that a double represents. *)
Definition small (x : Value) : Prop := match x with VInt BigIntT z => Z.abs z ≤ 2 ^ 53 | _ => True end.

(** The value of the column is one of its type; casts to double are of small numbers. *)
Record column_value (row : Row) (e : Expr) (column_id : Z) (x : Value) : Prop := {
  column_at : ∃ t, column_of e = Some (column_id, t) ∧ Value_type x = t;
  column_row : row false column_id = Some x;
  column_ok : value_ok x;
  column_finite : finite x;
  column_small : cast_to_double e = true → small x;
}.

Lemma int_of_type_some t t' : int_of_type t = Some t' ↔ t = int_type t'.
Proof. split; [|by intros ->; destruct t']. by destruct t; try discriminate; intros [= <-]. Qed.

Lemma small_int t z : in_range (int_ctype t) z → small (VInt t z) → Z.abs z ≤ 2 ^ 53.
Proof. change (2 ^ 53) with 9007199254740992. destruct t; cbn [int_ctype small]; intros Hr Hs; eval_range; lia. Qed.

Lemma wider_range t z : in_range (int_ctype t) z → in_range i64 z.
Proof. destruct t; cbn [int_ctype]; intros; eval_range; lia. Qed.

(** A valid column expression evaluates to a value of its type; as a bigint it is small when the
    column is. *)
Lemma column_expression_value vc row e column_id x :
  IsValidColumnExpression vc e = true → column_value row e column_id x →
  ∃ w, evaluate row e = Some w ∧ Value_type w = Expr_type e ∧ value_ok w ∧ finite w ∧ (small x → small w).
Proof.
  induction e as [c s t|v|t a IH|n t args _|t] using Expr_induction; try done; cbn [IsValidColumnExpression].
  - intros [Hs _]%andb_prop [(t' & [= -> <-] & Ht) Hr Hok Hfin _]. exists x. cbn. destruct s; [done|]. by rewrite Hr.
  - intros [Hv Ha]%andb_prop [Hc Hr Hok Hfin Hsm].
    assert (Hca : column_value row a column_id x).
    { constructor; try done. intros Hd. apply Hsm. cbn [cast_to_double]. rewrite Hd. apply orb_true_r. }
    destruct (IH Ha Hca) as (u & Hu & Htu & Huok & Hufin & Husm). cbn [evaluate Expr_type]. rewrite Hu.
    destruct t; try discriminate Hv; cbn [valid_cast] in Hv.
    + assert (∃ t', Expr_type a = int_type t' ∧ t' ≠ BigIntT) as (t' & Ht' & Hne).
      { destruct (Expr_type a); try discriminate Hv; [exists TinyIntT|exists SmallIntT|exists IntegerT]; done. }
      destruct (value_int u t' Huok ltac:(congruence)) as [z ->]. exists (VInt BigIntT z).
      split; [by destruct t'|]. split; [done|]. split; [by apply (wider_range t')|]. split; [done|]. intros _.
      change (2 ^ 53) with 9007199254740992. cbn in Huok |- *. destruct t'; try done; cbn [int_ctype] in Huok; eval_range; lia.
    + assert (Hs : small u) by (apply Husm, Hsm; reflexivity).
      destruct (decide (Expr_type a = kFloat)) as [Hf|Hf].
      * destruct (value_float u FloatT Huok ltac:(cbn; congruence)) as [y ->].
        exists (VFloating DoubleT (convert float_format double_format y)). split; [done|]. split; [done|].
        destruct y as [|k]; [done|]. destruct (float_to_double k Hufin) as (b & -> & Hb & Hrange). cbn. split; [lia|done].
      * assert (∃ t', Expr_type a = int_type t') as (t' & Ht').
        { destruct (Expr_type a); try discriminate Hv; [exists TinyIntT|exists SmallIntT|exists IntegerT|exists BigIntT|]; done. }
        destruct (value_int u t' Huok ltac:(congruence)) as [z ->]. exists (VFloating DoubleT (Num (of_int double_format z))).
        split; [by destruct t'|]. split; [done|]. split; [apply (of_int_range _ double_format_ok)|]. split; [|done].
        apply of_int_finite, (small_int t'); done.
Qed.

Lemma unwound_int c t x z :
  unwound_holds c (VInt t x) (VInt t z) = unwound_holds c (VInt TinyIntT x) (VInt TinyIntT z).
Proof. destruct c; cbn [unwound_holds Value_compare]; by rewrite ?decide_True. Qed.

(** What a step decided, as a comparison without a column. *)
Lemma decided_holds c x v : decided c → unwound_holds c x v = bool_decide (c = kAlwaysTrue).
Proof. by intros [-> | ->]. Qed.

Fixpoint float_cast (e : Expr) : bool :=
  match e with CastExpression _ a => bool_decide (Expr_type a = kFloat) || float_cast a | _ => false end.

(** What [UnwindCast] makes of a comparison [c] of [w] with [v]: a comparison [c'] of the column. *)
Definition unwound_ok (e : Expr) (column_id : Z) (x w v : Value) (c : FilterCompareType) (r : Z * Value * FilterCompareType) : Prop :=
  let '(column_id', v', c') := r in
  (decided c' ∨ (simple c' ∧ column_id' = column_id ∧ value_ok v' ∧ Value_type v' = Value_type x)) ∧
  (unwound_holds c w v = true → unwound_holds c' x v' = true) ∧
  (float_cast e = false → unwound_holds c w v = unwound_holds c' x v').

Lemma unwound_decided e column_id x w v c c' :
  decided c' → unwound_holds c w v = bool_decide (c' = kAlwaysTrue) → unwound_ok e column_id x w v c (unwound_at c').
Proof.
  intros Hd Hh. unfold unwound_ok, unwound_at. rewrite (decided_holds c') by done. split; [by left|]. split; [congruence|done].
Qed.

(** One cast more. *)
Lemma unwound_cast t a column_id x w v c u v1 c1 r :
  (unwound_holds c w v = true → unwound_holds c1 u v1 = true) →
  (Expr_type a ≠ kFloat → unwound_holds c w v = unwound_holds c1 u v1) →
  unwound_ok a column_id x u v1 c1 r → unwound_ok (CastExpression t a) column_id x w v c r.
Proof.
  intros Himp Hexact. destruct r as [[ci v'] c']. intros (H1 & H2 & H3). split; [done|]. split; [auto|].
  cbn [float_cast]. intros [Hf%bool_decide_eq_false Ha]%orb_false_elim. rewrite Hexact by done. auto.
Qed.

(** The casts that [IsValidColumnExpression] allows. *)
Lemma valid_cast_cases t s :
  valid_cast t s = true →
  (t = kBigInt ∧ ∃ t', s = int_type t' ∧ t' ≠ BigIntT) ∨ (t = kDouble ∧ ∃ t', s = int_type t') ∨ (t = kDouble ∧ s = kFloat).
Proof.
  intros Hv. destruct t; try discriminate Hv; destruct s; try discriminate Hv;
    try (left; split; [done|]; (by exists TinyIntT) || (by exists SmallIntT) || (by exists IntegerT));
    try (right; left; split; [done|]; (by exists TinyIntT) || (by exists SmallIntT) || (by exists IntegerT) || (by exists BigIntT)).
  by right; right.
Qed.

Lemma step_unwound t a column_id x w v c c1 t' zx prev c2 r :
  step_holds c1 (unwound_holds c w v) c2 zx prev →
  match prev with Some z => unwound_ok a column_id x (VInt t' zx) (VInt t' z) c2 r | None => r = unwound_at c2 end →
  unwound_ok (CastExpression t a) column_id x w v c r.
Proof.
  intros Hs Hr. destruct prev as [z|]; cbn [step_holds] in Hs; destruct Hs as [Hc2 Hs].
  - subst c2. rewrite <- (unwound_int _ t') in Hs. apply (unwound_cast t a column_id x w v c (VInt t' zx) (VInt t' z) c1 r); congruence.
  - subst r. apply unwound_decided; congruence.
Qed.

(** The branch of [UnwindCast] for a cast, once the comparison is simple. *)
Definition cast_branch (target : LogicalType) (source_expr : Expr) (right_val : Value) (compare_type : FilterCompareType)
    : result (Z * Value * FilterCompareType) :=
  let source := Expr_type source_expr in
  if negb (bool_decide (target = Value_type right_val)) then Err UnrecoverableError
  else if bool_decide (source = target) then UnwindCast source_expr right_val compare_type
  else
    match target, right_val with
    | kBigInt, VInt _ z =>
        match int_of_type source with
        | None | Some BigIntT => Ok (unwound_at kInvalidCompare)
        | Some t =>
            let? '(compare_type, continue) := IntegralContinueUnwind_bigint (int_ctype t) z compare_type in
            if continue then UnwindCast source_expr (VInt t (cast (int_ctype t) z)) compare_type
            else Ok (unwound_at compare_type)
        end
    | kDouble, VFloating _ x =>
        match int_of_type source, source with
        | Some t, _ =>
            let? '(compare_type, prev) := IntegralContinueUnwind_double (int_ctype t) x compare_type in
            match prev with
            | Some z => UnwindCast source_expr (VInt t z) compare_type
            | None => Ok (unwound_at compare_type)
            end
        | None, kFloat => UnwindCast source_expr (VFloating FloatT (convert double_format float_format x)) compare_type
        | None, _ => Ok (unwound_at kInvalidCompare)
        end
    | _, _ => Ok (unwound_at kInvalidCompare)
    end.

Lemma cast_branch_ok t a column_id x u w v c v1 c1 r :
  valid_cast t (Expr_type a) = true → value_ok u → finite u → Value_type u = Expr_type a → (t = kDouble → small u) →
  cast_value t u = Some w → value_ok v1 → Value_type v1 = t → simple c1 → unwound_holds c w v = unwound_holds c1 w v1 →
  (∀ v' c' r', value_ok v' → Value_type v' = Expr_type a → simple c' → UnwindCast a v' c' = Ok r' → unwound_ok a column_id x u v' c' r') →
  cast_branch t a v1 c1 = Ok r → unwound_ok (CastExpression t a) column_id x w v c r.
Proof.
  intros Hvalid Huok Hufin Htu Hsm Hw Hv1 Ht1 Hc1 Heq IH. unfold cast_branch. rewrite Ht1.
  rewrite (bool_decide_eq_true_2 (t = t)) by done. cbn [negb].
  destruct (valid_cast_cases _ _ Hvalid) as [(-> & t' & Hta & Hne)|[(-> & t' & Hta)|(-> & Hta)]];
    rewrite bool_decide_eq_false_2 by (rewrite Hta; try destruct t'; done).
  - destruct (value_int v1 BigIntT Hv1 Ht1) as [z ->]. destruct (value_int u t' Huok ltac:(congruence)) as [zx ->].
    assert (w = VInt BigIntT zx) as -> by (destruct t'; cbn in Hw; congruence). rewrite (proj2 (int_of_type_some _ t') Hta).
    assert (Hgo : (let? '(c2, continue) := IntegralContinueUnwind_bigint (int_ctype t') z c1 in
      if continue then UnwindCast a (VInt t' (cast (int_ctype t') z)) c2 else Ok (unwound_at c2)) = Ok r →
      unwound_ok (CastExpression kBigInt a) column_id x (VInt BigIntT zx) v c r); [|by destruct t'].
    intros ([c2 continue] & Hs & Hr)%res_bind_ok. destruct (bigint_step _ zx z c1 c2 continue Huok Hc1 Hs) as [Hstep Hz].
    rewrite <- Heq in Hstep. apply (step_unwound _ a column_id x _ v c c1 t' zx _ c2 r Hstep). destruct continue; [|by injection Hr].
    rewrite cast_id in Hr by auto. apply IH; [by apply Hz|done| |done]. by destruct Hstep as [-> _].
  - destruct (value_float v1 DoubleT Hv1 Ht1) as [y ->]. destruct (value_int u t' Huok ltac:(congruence)) as [zx ->].
    assert (w = VFloating DoubleT (Num (of_int double_format zx))) as -> by (destruct t'; cbn in Hw; congruence).
    rewrite (proj2 (int_of_type_some _ t') Hta). intros ([c2 prev] & Hs & Hr)%res_bind_ok.
    destruct (double_step t' zx y c1 c2 prev Huok (small_int t' zx Huok (Hsm eq_refl)) Hv1 Hc1 Hs) as [Hstep Hz].
    rewrite <- Heq in Hstep. apply (step_unwound _ a column_id x _ v c c1 t' zx _ c2 r Hstep). destruct prev as [z|]; [|by injection Hr].
    apply IH; [by apply Hz|done| |done]. by destruct Hstep as [-> _].
  - destruct (value_float v1 DoubleT Hv1 Ht1) as [y ->]. destruct (value_float u FloatT Huok ltac:(cbn; congruence)) as [yx ->].
    cbn in Hw. injection Hw as <-. rewrite Hta. cbn [int_of_type]. intros Hr.
    destruct (float_step yx y c1 Huok Hufin Hv1 Hc1) as [Hok Himp].
    apply (unwound_cast _ _ _ _ _ _ _ (VFloating FloatT yx) (VFloating FloatT (convert double_format float_format y)) c1); [by rewrite Heq|done|].
    by apply IH.
Qed.

Lemma unwind_ok vc row e : ∀ column_id x w v c r,
  IsValidColumnExpression vc e = true → column_value row e column_id x → evaluate row e = Some w →
  value_ok v → Value_type v = Expr_type e → (Value_type v = kVarchar → c ≠ kLess ∧ c ≠ kGreater) →
  UnwindCast e v c = Ok r → unwound_ok e column_id x w v c r.
Proof.
  induction e as [ci s t|v0|t a IH|n t args _|t] using Expr_induction; try done; intros column_id x w v c r Hvalid Hcv Hw Hv Ht Hvc.
  all: destruct (column_expression_value vc row _ column_id x Hvalid Hcv) as (w' & Hw' & Htw & Hwok & Hwfin & Hwsm).
  all: assert (w' = w) as -> by congruence; clear Hw'.
  all: cbn [UnwindCast]; intros ([v1 c1] & Hsimp & Hr)%res_bind_ok.
  all: destruct (simplify_spec w v c v1 c1 Hwok Hwfin Hv ltac:(congruence) Hvc Hsimp) as (Hv1 & Ht1 & Hc1 & Heq); clear Hsimp.
  all: destruct Hc1 as [Hc1|Hd]; [|assert (r = unwound_at c1) as -> by (destruct Hd as [-> | ->]; by injection Hr);
    apply unwound_decided; [done|by rewrite Heq, decided_holds]].
  - assert (Hrr : Ok (ci, v1, c1) = Ok r) by (destruct Hc1 as [-> |[-> | ->]]; exact Hr). injection Hrr as <-.
    destruct Hcv as [(t' & [= -> <-] & Hxt) Hrow _ _ _]. cbn in Hw. cbn [IsValidColumnExpression] in Hvalid.
    destruct s; [done|]. assert (w = x) as -> by congruence. unfold unwound_ok. rewrite <- Heq. split; [right|done].
    split; [done|]. split; [done|]. split; [done|]. congruence.
  - cbn [IsValidColumnExpression] in Hvalid. apply andb_prop in Hvalid as [Hvc' Hva]. cbn [Expr_type] in *.
    assert (Hca : column_value row a column_id x).
    { destruct Hcv as [? ? ? ? Hsm]. constructor; try done. intros Hd. apply Hsm. cbn [cast_to_double]. rewrite Hd. apply orb_true_r. }
    destruct (column_expression_value vc row _ column_id x Hva Hca) as (u & Hu & Htu & Huok & Hufin & Husm).
    cbn [evaluate] in Hw. rewrite Hu in Hw. specialize (IH column_id x u).
    assert (Hrr : cast_branch t a v1 c1 = Ok r) by (destruct Hc1 as [-> |[-> | ->]]; exact Hr). clear Hr.
    apply (cast_branch_ok t a column_id x u w v c v1 c1 r); try done; try congruence.
    + intros ->. apply Husm. by apply Hcv.
    + intros v' c' r' Hv' Ht' Hsim. apply IH; try done. intros _. split; by destruct Hsim as [-> |[-> | ->]].
Qed.

Lemma compare_op_name name op : compare_op name = Some op →
  String.eqb name "AND" = false ∧ String.eqb name "OR" = false ∧ String.eqb name "NOT" = false.
Proof.
  intros Hop. repeat split; apply String.eqb_neq; intros ->; discriminate Hop.
Qed.

(** A comparison of two values with an order. *)
Lemma evaluate_compare row name op t l r w v :
  compare_op name = Some op → evaluate row l = Some w → evaluate row r = Some v →
  Value_type w = Value_type v → has_order (Value_type v) = true →
  evaluate row (FunctionExpression name t [l; r]) = Some (VBoolean (op_holds op (Value_compare w v))).
Proof.
  intros Hop Hl Hr Ht Ho. destruct (compare_op_name _ _ Hop) as (H1 & H2 & H3). cbn [evaluate map all_some]. rewrite Hl, Hr.
  unfold apply_function. rewrite H1, H2, H3, Hop, decide_True by done. by rewrite Ht, Ho.
Qed.

Lemma op_unwound op w v : unwound_holds (op_compare_type op) w v = op_holds op (Value_compare w v).
Proof. by destruct op. Qed.
End Unwind.

(** ** The theorems *)

(** C23. Moving casts over a comparison.  The comparison of a column under casts with a constant is, in
    every row where the column has a finite value, what the comparison that [UnwindCast] returns says of the column alone: of the value
    of the column and the new constant, or decided for all rows.  Integers are exact in a double up
    to 53 bits; a cast from float is not exact, and it and varchars are excluded here. *)
Theorem unwind_cast_exact `{!FunctionLibrary} vc row e column_id x v name op t column_id' v' c' :
  compare_op name = Some op → IsValidColumnExpression vc e = true → column_value row e column_id x →
  value_ok v → Value_type v = Expr_type e → has_order (Value_type v) = true → Value_type v ≠ kVarchar → float_cast e = false →
  UnwindCast e v (op_compare_type op) = Ok (column_id', v', c') →
  evaluate row (FunctionExpression name t [e; ValueExpression v]) = Some (VBoolean (unwound_holds c' x v')) ∧
  (decided c' ∨ (simple c' ∧ column_id' = column_id ∧ Value_type v' = Value_type x)).
Proof.
  intros Hop Hvalid Hcv Hv Ht Ho Hnv Hf Hu. destruct (column_expression_value vc row e column_id x Hvalid Hcv) as (w & Hw & Htw & _).
  destruct (unwind_ok vc row e column_id x w v _ _ Hvalid Hcv Hw Hv Ht ltac:(done) Hu) as (Hc & _ & Heq).
  rewrite (evaluate_compare row name op t e (ValueExpression v) w v Hop Hw eq_refl) by congruence. rewrite <- Heq, op_unwound by done.
  split; [done|]. destruct Hc as [Hc|(? & ? & _ & ?)]; [by left|by right].
Qed.

(** Functions and casts not modelled, all undefined: for examples. *)
Definition no_functions : FunctionLibrary := {| call_function _ _ := None; other_cast _ _ := None |}.

(** The column 3 of type tinyint, as a double, below 2.5; the row has 2. *)
Definition tiny_below : Expr := CastExpression kDouble (ColumnExpression 3 false kTinyInt).
Definition two_and_half : Value := VFloating DoubleT (convert float_format double_format (Num (128 * 2 ^ 23 + 2 ^ 21))).

Lemma unwind_cast_exact_witness :
  UnwindCast tiny_below two_and_half kLess = Ok (3, VInt TinyIntT 2, kLessEqual) ∧
  evaluate (H := no_functions) (fun _ _ => Some (VInt TinyIntT 2))
    (FunctionExpression "<" kBoolean [tiny_below; ValueExpression two_and_half]) =
  Some (VBoolean (unwound_holds kLessEqual (VInt TinyIntT 2) (VInt TinyIntT 2))).
Proof.
  assert (E : UnwindCast tiny_below two_and_half kLess = Ok (3, VInt TinyIntT 2, kLessEqual)) by (vm_compute; reflexivity).
  split; [exact E|].
  refine (proj1 (@unwind_cast_exact no_functions (fun _ _ => true) (fun _ _ => Some (VInt TinyIntT 2)) tiny_below 3
    (VInt TinyIntT 2) two_and_half "<" OpLess kBoolean 3 (VInt TinyIntT 2) kLessEqual _ _ _ _ _ _ _ _ E)); try (vm_compute; reflexivity).
  - constructor.
    + exists kTinyInt. split; reflexivity.
    + reflexivity.
    + vm_compute. split; [discriminate|reflexivity].
    + exact I.
    + intros _. exact I.
  - vm_compute. split; discriminate.
  - discriminate.
Defined.

(** Beyond 53 bits the cast rounds and the comparison with the rounded value misses rows: a bigint of
    [2 ^ 53 + 1] is, as a double, at most [2 ^ 53], but not at most the bigint [2 ^ 53]. *)
Theorem bigint_rounding :
  let e := CastExpression kDouble (ColumnExpression 0 false kBigInt) in
  let v := VFloating DoubleT (Num (of_int double_format (2 ^ 53))) in
  evaluate (H := no_functions) (fun _ _ => Some (VInt BigIntT (2 ^ 53 + 1))) (FunctionExpression "<=" kBoolean [e; ValueExpression v]) =
    Some (VBoolean true) ∧
  UnwindCast e v kLessEqual = Ok (0, VInt BigIntT (2 ^ 53), kLessEqual) ∧
  unwound_holds kLessEqual (VInt BigIntT (2 ^ 53 + 1)) (VInt BigIntT (2 ^ 53)) = false.
Proof. cbn zeta. split; [|split]; vm_compute; reflexivity. Qed.

(** Comparing a bigint column with the double [2 ^ 63] converts a number out of range. *)
Theorem bigint_bound_undefined :
  UnwindCast (CastExpression kDouble (ColumnExpression 0 false kBigInt))
    (VFloating DoubleT (Num (of_int double_format (2 ^ 63)))) kGreaterEqual = Err SignedOverflow.
Proof. vm_compute. reflexivity. Qed.

(** Infinities are not below or above the numbers of a format for the rewritten comparison. *)
Theorem infinite_rows_lost :
  let v := VFloating DoubleT (Num (max_key double_format)) in
  let x := VFloating DoubleT (Num (infinity_key double_format)) in
  op_holds OpGreater (Value_compare x v) = true ∧
  UnwindCast (ColumnExpression 0 false kDouble) v kGreater = Ok (unwound_at kAlwaysFalse).
Proof. cbn zeta. split; vm_compute; reflexivity. Qed.
