(* ===== verification/RoughFilter.v ===== *)
(** * Rough filters

    A sealed segment and each of its blocks keep, for every column, the smallest and the largest value
    and, where the column asks for it, a probabilistic set of its values
    ([src/src/storage/fast_rough_filter]).  A scan asks them whether a block can have a row that
    satisfies its filter, and skips the block otherwise.  Here are the filters ([FastRoughFilter],
    [MinMaxDataFilter], [ProbabilisticDataFilter], [BinaryFuse]), the task that builds them when a
    segment is sealed
    ([storage/bg_task/segment_sealing_tasks/build_fast_rough_filter_task.cpp], over
    [storage/meta/iter/block_column_iter.cppm]), and the evaluators the optimizer makes of a filter
    expression ([planner/optimizer/secondary_index_scan/filter_expression_push_down.cpp]).

    The binary fuse filter is a third-party library and [std::hash] is the standard library's: both
    are the interface [FilterLibrary]. *)

From Stdlib Require Import ZArith Lia List String.
From stdpp Require Import base list numbers sorting strings.
From S2P Require Import Prelude Bytes DataTypes DateTime CatalogDelta BlockVersion BlockEntry Floating FilterExpr.
Local Open Scope Z_scope.

Class FilterLibrary := {
  fuse8 : Type;
  (** [binary_fuse8_allocate] and [binary_fuse8_populate], which may fail. *)
  fuse8_populate : list Z → option fuse8;
  fuse8_contain : Z → fuse8 → bool;
  hash_i64 : Z → Z;
  hash_string : bytes → Z;
}.

(** A populated filter has all its keys. *)
Class FilterLaws `{FilterLibrary} := {
  fuse8_complete : ∀ keys f k, fuse8_populate keys = Some f → k ∈ keys → fuse8_contain k f = true;
}.

Section Filters.
Context `{!FilterLibrary}.

(** ** Probabilistic filters *)

Record BinaryFuse := mkFuse { fuse_build_time_ : Z; fuse_filter_ : option fuse8 }.

Definition BinaryFuse_new : BinaryFuse := mkFuse UNCOMMIT_TS None.

Definition BinaryFuse_Build (this : BinaryFuse) (begin_ts : Z) (data : list Z) : result BinaryFuse :=
  if negb (fuse_build_time_ this =? UNCOMMIT_TS) then Err UnrecoverableError
  else
    match fuse_filter_ this with
    | Some _ => Err UnrecoverableError
    | None =>
        match fuse8_populate data with
        | Some f => Ok (mkFuse begin_ts (Some f))
        | None => Err UnrecoverableError
        end
    end.

Definition BinaryFuse_Contain (this : BinaryFuse) (query_ts item : Z) : bool :=
  match fuse_filter_ this with
  | None => true
  | Some f => if fuse_build_time_ this <? query_ts then fuse8_contain item f else true
  end.

(** The key of a value. *)
Definition ConvertValueToU64 (v : Value) : result Z :=
  match v with
  | VBoolean b => Ok (if b then 1 else 0)
  | VInt _ z => Ok (cast u64 z)
  | VHugeInt upper lower => Ok (Z.lxor (hash_i64 upper) (hash_i64 lower))
  | VDay _ z => Ok (cast u64 z)
  | VDateTime _ d => let? e := GetEpochTime d in Ok (cast u64 e)
  | VVarchar s => Ok (hash_string s)
  | _ => Err UnrecoverableError
  end.

(** ** Smallest and largest values *)

Definition INNER_STORED_LENGTH : nat := 16.

(** The value a filter keeps: varchars are cut. *)
Definition inner_value (v : Value) : Value :=
  match v with VVarchar s => VVarchar (take INNER_STORED_LENGTH s) | _ => v end.

(** Varchars are compared as [std::string_view]. *)
Definition inner_compare (v w : Value) : option comparison :=
  match v, w with
  | VVarchar a, VVarchar b => Some (string_view_compare a b)
  | _, _ => Value_compare v w
  end.

(** Empty ([std::monostate]) or the smallest and the largest value of a type. *)
Definition InnerMinMaxDataFilter := option (Value * Value).

Definition InnerMayInRange (filter : Value * Value) (value : Value) (compare_type : FilterCompareType) : result bool :=
  let '(min_, max_) := filter in
  if negb (bool_decide (Value_type value = Value_type min_)) then Err UnrecoverableError
  else
    match compare_type with
    | kLessEqual => Ok (op_holds OpGreaterEqual (inner_compare (inner_value value) min_))
    | kGreaterEqual => Ok (op_holds OpLessEqual (inner_compare (inner_value value) max_))
    | _ => Err UnrecoverableError
    end.

Definition UpdateMin (min value : Value) : Value :=
  match inner_compare value min with Some Lt => inner_value value | _ => min end.

Definition UpdateMax (max value : Value) : Value :=
  match inner_compare value max with Some Gt => inner_value value | _ => max end.

(** [std::numeric_limits] of the values kept, largest and lowest. *)
Definition limits_max (t : LogicalType) : option Value :=
  match t with
  | kTinyInt => Some (VInt TinyIntT (int_max TinyIntT))
  | kSmallInt => Some (VInt SmallIntT (int_max SmallIntT))
  | kInteger => Some (VInt IntegerT (int_max IntegerT))
  | kBigInt => Some (VInt BigIntT (int_max BigIntT))
  | kHugeInt => Some (VHugeInt (int_max BigIntT) (int_max BigIntT))
  | kFloat => Some (VFloating FloatT (Num (max_key float_format)))
  | kDouble => Some (VFloating DoubleT (Num (max_key double_format)))
  | kVarchar => Some (VVarchar (replicate INNER_STORED_LENGTH char_max))
  | kDate => Some (VDay DateT (int_max IntegerT))
  | kTime => Some (VDay TimeT (int_max IntegerT))
  | kDateTime => Some (VDateTime DateTimeT (mkDateTime (int_max IntegerT) (int_max IntegerT)))
  | kTimestamp => Some (VDateTime TimestampT (mkDateTime (int_max IntegerT) (int_max IntegerT)))
  | _ => None
  end.

Definition limits_lowest (t : LogicalType) : option Value :=
  match t with
  | kTinyInt => Some (VInt TinyIntT (lowest i8))
  | kSmallInt => Some (VInt SmallIntT (lowest i16))
  | kInteger => Some (VInt IntegerT (lowest i32))
  | kBigInt => Some (VInt BigIntT (lowest i64))
  | kHugeInt => Some (VHugeInt (lowest i64) (lowest i64))
  | kFloat => Some (VFloating FloatT (Num (lowest_key float_format)))
  | kDouble => Some (VFloating DoubleT (Num (lowest_key double_format)))
  | kVarchar => Some (VVarchar [])
  | kDate => Some (VDay DateT (lowest i32))
  | kTime => Some (VDay TimeT (lowest i32))
  | kDateTime => Some (VDateTime DateTimeT (mkDateTime (lowest i32) (lowest i32)))
  | kTimestamp => Some (VDateTime TimestampT (mkDateTime (lowest i32) (lowest i32)))
  | _ => None
  end.

(** ** The filter of a block or of a segment *)

Record FastRoughFilter := mkRough {
  build_time_ : Z;
  finished_build_minmax_filter_ : bool;
  min_max_data_filter_ : option (list InnerMinMaxDataFilter);
  probabilistic_data_filter_ : option (list BinaryFuse);
}.

Definition FastRoughFilter_new : FastRoughFilter := mkRough UNCOMMIT_TS false None None.

(** A method call through a pointer that is null is undefined. *)
Definition deref_ptr {A} (p : option A) : result A := match p with Some a => Ok a | None => Err OutOfBounds end.

Definition MayContain (this : FastRoughFilter) (query_ts column_id : Z) (value : Value) : result bool :=
  let? filters := deref_ptr (probabilistic_data_filter_ this) in
  let? key_val := ConvertValueToU64 value in
  let? filter := array_at filters column_id in
  Ok (BinaryFuse_Contain filter query_ts key_val).

Definition MayInRange (this : FastRoughFilter) (column_id : Z) (value : Value) (compare_type : FilterCompareType) : result bool :=
  let? filters := deref_ptr (min_max_data_filter_ this) in
  let? filter := array_at filters column_id in
  match filter with
  | None => Err UnrecoverableError
  | Some filter => InnerMayInRange filter value compare_type
  end.

Definition SetHaveStartedMinMaxFilterBuildTask (begin_ts : Z) (this : FastRoughFilter) : result FastRoughFilter :=
  if negb (build_time_ this =? UNCOMMIT_TS) then Err UnrecoverableError
  else Ok (mkRough begin_ts (finished_build_minmax_filter_ this) (min_max_data_filter_ this) (probabilistic_data_filter_ this)).

Definition BeginBuildMinMaxFilterTask (column_count : nat) (this : FastRoughFilter) : result FastRoughFilter :=
  Ok (mkRough (build_time_ this) (finished_build_minmax_filter_ this)
        (Some (replicate column_count None)) (Some (replicate column_count BinaryFuse_new))).

Definition FinishBuildMinMaxFilterTask (this : FastRoughFilter) : result FastRoughFilter :=
  Ok (mkRough (build_time_ this) true (min_max_data_filter_ this) (probabilistic_data_filter_ this)).

Definition BuildProbabilisticDataFilter (this : FastRoughFilter) (begin_ts column_id : Z) (data : list Z) : result FastRoughFilter :=
  let? filters := deref_ptr (probabilistic_data_filter_ this) in
  let? filter := array_at filters column_id in
  let? filter := BinaryFuse_Build filter begin_ts data in
  Ok (mkRough (build_time_ this) (finished_build_minmax_filter_ this) (min_max_data_filter_ this)
        (Some (<[Z.to_nat column_id := filter]> filters))).

Definition BuildMinMaxDataFilter (this : FastRoughFilter) (column_id : Z) (min max : Value) : result FastRoughFilter :=
  let? filters := deref_ptr (min_max_data_filter_ this) in
  let? filter := array_at filters column_id in
  match filter with
  | Some _ => Err UnrecoverableError
  | None => Ok (mkRough (build_time_ this) (finished_build_minmax_filter_ this)
                 (Some (<[Z.to_nat column_id := Some (min, max)]> filters)) (probabilistic_data_filter_ this))
  end.

(** ** Building the filters of a sealed segment *)

(** [std::unique] of a sorted list, [std::set_union] of two. *)
Fixpoint unique (l : list Z) : list Z :=
  match l with
  | [] => []
  | x :: l' => match l' with y :: _ => if x =? y then unique l' else x :: unique l' | [] => [x] end
  end.

Fixpoint set_union (a : list Z) : list Z → list Z :=
  fix go (b : list Z) : list Z :=
    match a, b with
    | [], _ => b
    | _, [] => a
    | x :: a', y :: b' =>
        if x <? y then x :: set_union a' b
        else if y <? x then y :: go b'
        else x :: set_union a' b'
    end.

Definition sort_unique (keys : list Z) : list Z := unique (merge_sort Z.le keys).

Section Build.
Context `{!ColumnStore}.

(** *** The rows of a column *)

(** [BlockColumnIter<true>]: the rows visible at [iterate_ts_]. *)
Record BlockColumnIter := mkIter { offset_ : Z; read_end_ : Z }.

Definition BlockColumnIter_new : BlockColumnIter := mkIter 0 0.

Definition BlockColumnIter_Next (block : BlockEntry) (iterate_ts : Z) (this : BlockColumnIter) : result (option (Z * BlockColumnIter)) :=
  if offset_ this =? read_end_ this then
    let? '(begin, end_) := GetVisibleRange block iterate_ts (read_end_ this) in
    if begin =? end_ then Ok None else Ok (Some (begin, mkIter (begin + 1) end_))
  else Ok (Some (offset_ this, mkIter (offset_ this + 1) (read_end_ this))).

Fixpoint iterate (fuel : nat) (block : BlockEntry) (iterate_ts : Z) (this : BlockColumnIter) : result (list Z) :=
  match fuel with
  | O => Err OutOfFuel
  | S fuel' =>
      let? next := BlockColumnIter_Next block iterate_ts this in
      match next with
      | None => Ok []
      | Some (offset, this) => let? offsets := iterate fuel' block iterate_ts this in Ok (offset :: offsets)
      end
  end.

(** The rows the builder reads: visible ones, or all rows of an imported or compacted block
    ([BlockColumnIter<false>]).  Each call of [Next] gives a row, and a block has fewer than 65536. *)
Definition column_offsets (check_ts : bool) (block : BlockEntry) (begin_ts : Z) : result (list Z) :=
  if check_ts then iterate (Z.to_nat 65537) block begin_ts BlockColumnIter_new
  else Ok (seqZ 0 (block_row_count_ block)).

(** A block with the values of its columns, by column and row, and its filter. *)
Record FilterBlock := mkFilterBlock {
  block_entry_ : BlockEntry;
  column_value_ : Z → Z → Value;
  block_filter_ : FastRoughFilter;
}.

(** A column has a type and may ask for a probabilistic filter ([build_bloom_filter_]). *)
Record FilterSegment := mkFilterSegment {
  segment_status_ : Status.SegmentStatus;
  segment_row_count_ : Z;
  segment_columns_ : list (LogicalType * bool);
  segment_blocks_ : list FilterBlock;
  segment_filter_ : FastRoughFilter;
}.

(** *** One column *)

Record Collected := mkCollected { total_row_count_read_ : Z; min_value : Value; max_value : Value; keys_ : list Z }.

Definition Advance (total read : Z) : result Z := if total <? read + 1 then Err UnrecoverableError else Ok (read + 1).

(** A row read; of booleans the code keeps each key once, which removing duplicates does anyway. *)
Definition read_row (min_max bloom : bool) (total : Z) (c : Collected) (value : Value) : result Collected :=
  let? read := Advance total (total_row_count_read_ c) in
  let min := if min_max then UpdateMin (min_value c) value else min_value c in
  let max := if min_max then UpdateMax (max_value c) value else max_value c in
  let? keys := if bloom then let? key := ConvertValueToU64 value in Ok (keys_ c ++ [key]) else Ok (keys_ c) in
  Ok (mkCollected read min max keys).

Definition start_min (t : LogicalType) : Value := default VNull (limits_max t).
Definition start_max (t : LogicalType) : Value := default VNull (limits_lowest t).

Definition build_filter (min_max bloom : bool) (begin_ts column_id : Z) (min max : Value) (keys : list Z) (filter : FastRoughFilter)
    : result FastRoughFilter :=
  let? filter := if bloom then BuildProbabilisticDataFilter filter begin_ts column_id keys else Ok filter in
  if min_max then BuildMinMaxDataFilter filter column_id min max else Ok filter.

(** The body of the loop over the blocks: [arg] has the segment's values and the sorted keys. *)
Definition build_block (min_max bloom check_ts : bool) (t : LogicalType) (begin_ts column_id total : Z) (arg : Collected) (b : FilterBlock)
    : result (Collected * FilterBlock) :=
  if block_row_count_ (block_entry_ b) =? 0 then Ok (arg, b)
  else
    let? offsets := column_offsets check_ts (block_entry_ b) begin_ts in
    let? c := res_fold (read_row min_max bloom total)
                (mkCollected (total_row_count_read_ arg) (start_min t) (start_max t) [])
                (map (column_value_ b column_id) offsets) in
    let keys := sort_unique (keys_ c) in
    let? filter := build_filter min_max bloom begin_ts column_id (min_value c) (max_value c) keys (block_filter_ b) in
    Ok (mkCollected (total_row_count_read_ c) (UpdateMin (min_value arg) (min_value c)) (UpdateMax (max_value arg) (max_value c))
          (set_union (keys_ arg) keys),
        mkFilterBlock (block_entry_ b) (column_value_ b) filter).

Fixpoint build_blocks (min_max bloom check_ts : bool) (t : LogicalType) (begin_ts column_id total : Z) (arg : Collected)
    (blocks : list FilterBlock) : result (Collected * list FilterBlock) :=
  match blocks with
  | [] => Ok (arg, [])
  | b :: blocks' =>
      let? '(arg, b) := build_block min_max bloom check_ts t begin_ts column_id total arg b in
      let? '(arg, blocks') := build_blocks min_max bloom check_ts t begin_ts column_id total arg blocks' in
      Ok (arg, b :: blocks')
  end.

Definition build_column (min_max bloom check_ts : bool) (t : LogicalType) (begin_ts column_id : Z) (s : FilterSegment)
    : result FilterSegment :=
  let? '(arg, blocks) := build_blocks min_max bloom check_ts t begin_ts column_id (segment_row_count_ s)
                           (mkCollected 0 (start_min t) (start_max t) []) (segment_blocks_ s) in
  let? filter := build_filter min_max bloom begin_ts column_id (min_value arg) (max_value arg) (keys_ arg) (segment_filter_ s) in
  Ok (mkFilterSegment (segment_status_ s) (segment_row_count_ s) (segment_columns_ s) blocks filter).

Definition BuildOnlyBloomFilter := build_column false true.
Definition BuildOnlyMinMaxFilter := build_column true false.
Definition BuildMinMaxAndBloomFilter := build_column true true.

(** The three overloads of [BuildFilter], by what the type can have. *)
Definition BuildFilter (t : LogicalType) (build_min_max_filter build_bloom_filter check_ts : bool) (begin_ts column_id : Z) (s : FilterSegment)
    : result FilterSegment :=
  match t with
  | kFloat | kDouble =>
      if build_bloom_filter then Err UnrecoverableError
      else if build_min_max_filter then BuildOnlyMinMaxFilter check_ts t begin_ts column_id s else Ok s
  | kBoolean | kDecimal =>
      if build_min_max_filter then Err UnrecoverableError
      else if build_bloom_filter then BuildOnlyBloomFilter check_ts t begin_ts column_id s else Ok s
  | _ =>
      if build_min_max_filter && build_bloom_filter then BuildMinMaxAndBloomFilter check_ts t begin_ts column_id s
      else if build_min_max_filter then BuildOnlyMinMaxFilter check_ts t begin_ts column_id s
      else if build_bloom_filter then BuildOnlyBloomFilter check_ts t begin_ts column_id s else Ok s
  end.

(** *** The task *)

Definition build_one (check_ts : bool) (begin_ts : Z) (s : FilterSegment) (column : Z * (LogicalType * bool)) : result FilterSegment :=
  let '(column_id, (t, wants_bloom)) := column in
  let build_min_max_filter := SupportMinMaxFilter t in
  let build_bloom_filter := SupportBloomFilter t && wants_bloom in
  if build_min_max_filter || build_bloom_filter
  then BuildFilter t build_min_max_filter build_bloom_filter check_ts begin_ts column_id s
  else Ok s.

Definition ExecuteInner (check_ts : bool) (s : FilterSegment) (begin_ts : Z) : result FilterSegment :=
  res_fold (build_one check_ts begin_ts) s (zip (seqZ 0 (zlen (segment_columns_ s))) (segment_columns_ s)).

Fixpoint apply_blocks (func : FastRoughFilter → result FastRoughFilter) (blocks : list FilterBlock) : result (list FilterBlock) :=
  match blocks with
  | [] => Ok []
  | b :: blocks' =>
      let? filter := func (block_filter_ b) in
      let? blocks' := apply_blocks func blocks' in
      Ok (mkFilterBlock (block_entry_ b) (column_value_ b) filter :: blocks')
  end.

Definition ApplyToAllFastRoughFilterInSegment (func : FastRoughFilter → result FastRoughFilter) (s : FilterSegment) : result FilterSegment :=
  let? blocks := apply_blocks func (segment_blocks_ s) in
  let? filter := func (segment_filter_ s) in
  Ok (mkFilterSegment (segment_status_ s) (segment_row_count_ s) (segment_columns_ s) blocks filter).

Definition ExecuteOnNewSealedSegment (s : FilterSegment) (begin_ts : Z) : result FilterSegment :=
  let? use_block_version :=
    match segment_status_ s with
    | Status.kUnsealed => Ok true
    | Status.kSealed => Ok false
    | _ => Err UnrecoverableError
    end in
  let? s := ApplyToAllFastRoughFilterInSegment (SetHaveStartedMinMaxFilterBuildTask begin_ts) s in
  let? s := ApplyToAllFastRoughFilterInSegment (BeginBuildMinMaxFilterTask (length (segment_columns_ s))) s in
  let? s := ExecuteInner use_block_version s begin_ts in
  ApplyToAllFastRoughFilterInSegment FinishBuildMinMaxFilterTask s.
End Build.

(** ** Evaluators *)

Inductive FastRoughFilterEvaluator :=
| EvaluatorTrue
| EvaluatorFalse
| CombineAnd (left_ right_ : FastRoughFilterEvaluator)
| CombineOr (left_ right_ : FastRoughFilterEvaluator)
| ProbabilisticEvaluator (column_id : Z) (value : Value)
| MinMaxEvaluator (column_id : Z) (value : Value) (compare_type : FilterCompareType).

Fixpoint EvaluateInner (e : FastRoughFilterEvaluator) (query_ts : Z) (filter : FastRoughFilter) : result bool :=
  match e with
  | EvaluatorTrue => Ok true
  | EvaluatorFalse => Ok false
  | CombineAnd left_ right_ =>
      let? l := EvaluateInner left_ query_ts filter in if l then EvaluateInner right_ query_ts filter else Ok false
  | CombineOr left_ right_ =>
      let? l := EvaluateInner left_ query_ts filter in if l then Ok true else EvaluateInner right_ query_ts filter
  | ProbabilisticEvaluator column_id value => MayContain filter query_ts column_id value
  | MinMaxEvaluator column_id value compare_type => MayInRange filter column_id value compare_type
  end.

Definition Evaluate (e : FastRoughFilterEvaluator) (query_ts : Z) (filter : FastRoughFilter) : result bool :=
  if negb (finished_build_minmax_filter_ filter) then Ok true
  else if query_ts <? build_time_ filter then Ok true
  else EvaluateInner e query_ts filter.

Section PushDown.
Context `{!FunctionLibrary}.

Definition ReturnValue (e : Expr) : result FastRoughFilterEvaluator :=
  let? value := CalcValueResult e in
  match value with
  | VBoolean false => Ok EvaluatorFalse
  | _ => Ok EvaluatorTrue
  end.

Definition SolveForExpr2 (col_expr val_expr : Expr) (initial_compare_type : FilterCompareType) : result FastRoughFilterEvaluator :=
  let? val_right := CalcValueResult val_expr in
  let? '(column_id, value, compare_type) := UnwindCast col_expr val_right initial_compare_type in
  match compare_type with
  | kLessEqual | kGreaterEqual => Ok (MinMaxEvaluator column_id value compare_type)
  | kInvalidCompare | kAlwaysTrue => Ok EvaluatorTrue
  | kAlwaysFalse => Ok EvaluatorFalse
  | _ => Err UnrecoverableError
  end.

Definition SolveForExpr1 (col_expr val_expr : Expr) : result FastRoughFilterEvaluator :=
  let? val_right := CalcValueResult val_expr in
  let? '(column_id, value, compare_type) := UnwindCast col_expr val_right kEqual in
  match compare_type with
  | kEqual =>
      let range := CombineAnd (MinMaxEvaluator column_id value kLessEqual) (MinMaxEvaluator column_id value kGreaterEqual) in
      match Value_type value with
      | kBoolean | kDecimal => Ok (ProbabilisticEvaluator column_id value)
      | kFloat | kDouble => Ok range
      | _ => Ok (CombineAnd range (ProbabilisticEvaluator column_id value))
      end
  | kInvalidCompare | kAlwaysTrue => Ok EvaluatorTrue
  | kAlwaysFalse => Ok EvaluatorFalse
  | _ => Err UnrecoverableError
  end.

(** The operand that is a column goes left; otherwise nothing is known. *)
Definition solve_compare (is_valid_column : LogicalType → bool) (args : list Expr)
    (solve_left solve_right : Expr → Expr → result FastRoughFilterEvaluator) : result FastRoughFilterEvaluator :=
  let? have_left := HaveLeftColumnAndRightValue (fun _ => is_valid_column) args in
  match args with
  | [l; r] =>
      if have_left then solve_left l r
      else
        let? have_right := HaveRightColumnAndLeftValue (fun _ => is_valid_column) args in
        if have_right then solve_right r l else Ok EvaluatorTrue
  | _ => Err UnrecoverableError
  end.

Fixpoint SolveForFastRoughFilter (e : Expr) : result FastRoughFilterEvaluator :=
  match e with
  | FunctionExpression f_name _ args =>
      if String.eqb f_name "AND" then
        match args with
        | a :: b :: _ =>
            let? l := SolveForFastRoughFilter a in
            let? r := SolveForFastRoughFilter b in Ok (CombineAnd l r)
        | _ => Err OutOfBounds
        end
      else if String.eqb f_name "OR" then
        match args with
        | a :: b :: _ =>
            let? l := SolveForFastRoughFilter a in
            let? r := SolveForFastRoughFilter b in Ok (CombineOr l r)
        | _ => Err OutOfBounds
        end
      else
        match compare_op f_name with
        | Some OpEqual =>
            solve_compare (fun t => SupportBloomFilter t || SupportMinMaxFilter t) args SolveForExpr1 SolveForExpr1
        | Some op =>
            solve_compare SupportMinMaxFilter args
              (fun col val => SolveForExpr2 col val (op_compare_type op))
              (fun col val => SolveForExpr2 col val (op_compare_type (op_reverse op)))
        | None =>
            if IsValueResultExpression e then ReturnValue e else Ok EvaluatorTrue
        end
  | ValueExpression _ => ReturnValue e
  | _ => Ok EvaluatorTrue
  end.

(** [PushDownToFastRoughFilter]: no filter is no expression. *)
Definition PushDownToFastRoughFilter (e : option Expr) : result FastRoughFilterEvaluator :=
  match e with None => Ok EvaluatorTrue | Some e => SolveForFastRoughFilter e end.
End PushDown.
End Filters.
