(* ===== verification/RoughFilterSpec.v ===== *)
(** * Rough filters skip no row

    The task that seals a segment succeeds and its filters cover every row it has read
    ([rough_filter_sound]): if a row satisfies a filter expression, the evaluator made of the expression
    does not skip its block or segment, at any time of the query.  Varchars are the exception: the
    comparison of rows and the filters disagree about the order of bytes, which is harmless only for
    ASCII and not for [>] ([varchar_greater_skips]). *)

From Stdlib Require Import ZArith Lia List String.
From stdpp Require Import base list numbers sets sorting strings.
From S2P Require Import Prelude Bytes DataTypes DateTime CatalogDelta BlockVersion BlockEntry Floating FilterExpr FilterSpec RoughFilter.
Local Open Scope Z_scope.

(** ** The order of keys *)

Notation lex := (lex_compare id).

Lemma lex_refl a : lex a a = Eq.
Proof. induction a as [|x a IH]; simpl; [done|]. by rewrite Z.compare_refl. Qed.

Lemma lex_antisym a b : lex b a = CompOpp (lex a b).
Proof.
  revert b; induction a as [|x a IH]; intros [|y b]; try done. cbn [lex_compare id].
  rewrite (Z.compare_antisym x y). destruct (x ?= y); simpl; auto.
Qed.

Definition lex_le (a b : list Z) : Prop := lex a b ≠ Gt.

Lemma lex_le_cons x a y b : lex_le (x :: a) (y :: b) ↔ x < y ∨ (x = y ∧ lex_le a b).
Proof.
  unfold lex_le. cbn [lex_compare id]. destruct (Z.compare_spec x y) as [->|H|H].
  - split; [by right|]. intros [?|[_ ?]]; [lia|done].
  - split; [by left|done].
  - split; [done|]. intros [?|[? _]]; lia.
Qed.

Lemma lex_le_refl a : lex_le a a.
Proof. unfold lex_le. by rewrite lex_refl. Qed.

Lemma lex_le_trans a b c : lex_le a b → lex_le b c → lex_le a c.
Proof.
  revert b c; induction a as [|x a IH]; intros [|y b] [|z c]; try done.
  rewrite !lex_le_cons. intros [H1|[-> H1]] [H2|[-> H2]]; [left; lia|by left|by left|right; split; [done|by eapply IH]].
Qed.

Lemma lex_lt_le a b : lex a b = Lt → lex_le a b.
Proof. unfold lex_le. by intros ->. Qed.
Lemma lex_gt_le a b : lex a b = Gt → lex_le b a.
Proof. unfold lex_le. intros H. by rewrite lex_antisym, H. Qed.
Lemma lex_not_lt_le a b : lex a b ≠ Lt → lex_le b a.
Proof. unfold lex_le. rewrite (lex_antisym a b). by destruct (lex a b). Qed.

(** Cutting strings keeps their order. *)
Lemma lex_le_take n a b : lex_le a b → lex_le (take n a) (take n b).
Proof.
  revert a b; induction n as [|n IH]; intros [|x a] [|y b]; try done. cbn [take]. rewrite !lex_le_cons.
  intros [?|[-> ?]]; [by left|right; auto].
Qed.

Lemma lex_take_le n a : lex_le (take n a) a.
Proof.
  revert a; induction n as [|n IH]; intros [|x a]; try done. cbn [take]. rewrite lex_le_cons. right. auto.
Qed.

(** ** The order of values *)

Definition order_key (v : Value) : option (list Z) :=
  match v with
  | VInt _ z => Some [z]
  | VHugeInt u l => Some [u; l]
  | VFloating _ (Num k) => Some [k]
  | VVarchar s => Some s
  | VDay _ z => Some [z]
  | VDateTime _ d => Some [date_ d; time_ d]
  | _ => None
  end.

Lemma lex_one a b : lex [a] [b] = (a ?= b).
Proof. cbn. by destruct (a ?= b). Qed.

Lemma lex_two a b c d : lex [a; b] [c; d] = then_compare (a ?= c) (b ?= d).
Proof. unfold then_compare. cbn. destruct (a ?= c); [|done..]. by destruct (b ?= d). Qed.

Ltac same_type t t' := assert (t' = t) as -> by (by destruct t, t').

Lemma inner_compare_key v w a b :
  Value_type v = Value_type w → order_key v = Some a → order_key w = Some b → inner_compare v w = Some (lex a b).
Proof.
  intros Ht Ha Hb.
  destruct v as [|p|t z|u l|t [|y]|s|t z|t d|t]; try discriminate Ha; injection Ha as <-;
    destruct w as [|p'|t' z'|u' l'|t' [|y']|s'|t' z'|t' d'|t']; try discriminate Hb; injection Hb as <-;
    try discriminate Ht; try (destruct t; discriminate Ht); try (destruct t'; discriminate Ht); try (destruct t, t'; discriminate Ht);
    try (same_type t t'); cbn [inner_compare Value_compare fp_compare]; rewrite ?decide_True, ?lex_one, ?lex_two by done; done.
Qed.

Lemma inner_compare_none v w : order_key v = None ∨ order_key w = None → inner_compare v w = None.
Proof.
  intros [H|H]; destruct v as [|p|t z|u l|t [|y]|s|t z|t d|t]; try discriminate H;
    destruct w as [|p'|t' z'|u' l'|t' [|y']|s'|t' z'|t' d'|t']; try discriminate H; cbn; try done; by destruct (decide _).
Qed.

Definition vle (v w : Value) : Prop := ∃ a b, order_key v = Some a ∧ order_key w = Some b ∧ lex_le a b.

Lemma vle_trans u v w : vle u v → vle v w → vle u w.
Proof.
  intros (a & b & Ha & Hb & H1) (b' & c & Hb' & Hc & H2). exists a, c. split; [done|]. split; [done|].
  assert (b' = b) as -> by congruence. by eapply lex_le_trans.
Qed.

Lemma vle_refl v : is_Some (order_key v) → vle v v.
Proof. intros [a Ha]. exists a, a. split; [done|]. split; [done|apply lex_le_refl]. Qed.

Lemma vle_holds v w : Value_type v = Value_type w → vle v w → op_holds OpLessEqual (inner_compare v w) = true.
Proof.
  intros Ht (a & b & Ha & Hb & Hle). rewrite (inner_compare_key v w a b) by done. unfold lex_le in Hle. by destruct (lex a b).
Qed.

Lemma vge_holds v w : Value_type v = Value_type w → vle w v → op_holds OpGreaterEqual (inner_compare v w) = true.
Proof.
  intros Ht (a & b & Ha & Hb & Hle). rewrite (inner_compare_key v w b a) by done. unfold lex_le in Hle.
  rewrite lex_antisym. by destruct (lex a b).
Qed.

(** What filters keep of a value. *)
Lemma inner_type v : Value_type (inner_value v) = Value_type v.
Proof. by destruct v. Qed.

Lemma inner_key v a : order_key v = Some a → ∃ b, order_key (inner_value v) = Some b ∧ lex_le b a.
Proof.
  destruct v as [|p|t z|u l|t [|y]|s|t z|t d|t]; try discriminate; intros [= <-]; eexists; (split; [reflexivity|]);
    try apply lex_le_refl. apply lex_take_le.
Qed.

Lemma inner_idem v : inner_value (inner_value v) = inner_value v.
Proof. destruct v; try done. cbn. by rewrite take_take, Nat.min_id. Qed.

Lemma order_varchar v a : Value_type v = kVarchar → order_key v = Some a → v = VVarchar a.
Proof. destruct v as [|p|t z|u l|t [|y]|s|t z|t d|t]; try discriminate; try (by destruct t). by intros _ [= ->]. Qed.

Lemma inner_other v : Value_type v ≠ kVarchar → inner_value v = v.
Proof. by destruct v. Qed.

Lemma inner_mono v w : Value_type v = Value_type w → vle v w → vle (inner_value v) (inner_value w).
Proof.
  intros Ht (a & b & Ha & Hb & Hle). destruct (decide (Value_type v = kVarchar)) as [Hk|Hk].
  - rewrite (order_varchar v a), (order_varchar w b) by congruence. eexists _, _. split; [reflexivity|]. split; [reflexivity|].
    by apply lex_le_take.
  - rewrite !inner_other by congruence. by exists a, b.
Qed.

(** ** Smallest and largest values *)

(** A value of type [t] that a filter can keep. *)
Definition kept (t : LogicalType) (v : Value) : Prop :=
  Value_type v = t ∧ is_Some (order_key v) ∧ inner_value v = v.

Lemma kept_inner t v : Value_type v = t → is_Some (order_key v) → kept t (inner_value v).
Proof.
  intros Ht [a Ha]. split; [by rewrite inner_type|]. split; [|apply inner_idem]. destruct (inner_key v a Ha) as (b & -> & _). by exists b.
Qed.

(** What one more value does to the bounds; a value that is not comparable (NaN) does nothing. *)
Lemma UpdateMin_spec t min v :
  kept t min → Value_type v = t →
  kept t (UpdateMin min v) ∧ vle (UpdateMin min v) min ∧ (is_Some (order_key v) → vle (UpdateMin min v) (inner_value v)).
Proof.
  intros Hk Hv. pose proof Hk as (Ht & [m Hm] & Hi). unfold UpdateMin. destruct (order_key v) as [a|] eqn:Ha.
  2:{ rewrite inner_compare_none by (by left). split; [done|]. split; [apply vle_refl; by exists m|]. by intros [? ?]. }
  rewrite (inner_compare_key v min a m) by congruence. destruct (inner_key v a Ha) as (b & Hb & Hba).
  destruct (decide (lex a m = Lt)) as [Hlt|Hlt].
  - rewrite Hlt. split; [apply kept_inner; [done|by exists a]|]. split; [|intros _; apply vle_refl; by exists b].
    exists b, m. split; [done|]. split; [done|]. eapply lex_le_trans; [exact Hba|by apply lex_lt_le].
  - assert (Hle : vle min v) by (exists m, a; split; [done|split; [done|by apply lex_not_lt_le]]).
    apply inner_mono in Hle; [|congruence]. rewrite Hi in Hle.
    replace (match lex a m with Lt => inner_value v | _ => min end) with min by (by destruct (lex a m)).
    split; [done|]. split; [apply vle_refl; by exists m|done].
Qed.

Lemma UpdateMax_spec t max v :
  kept t max → Value_type v = t →
  kept t (UpdateMax max v) ∧ vle max (UpdateMax max v) ∧ (is_Some (order_key v) → vle (inner_value v) (UpdateMax max v)).
Proof.
  intros Hk Hv. pose proof Hk as (Ht & [m Hm] & Hi). unfold UpdateMax. destruct (order_key v) as [a|] eqn:Ha.
  2:{ rewrite inner_compare_none by (by left). split; [done|]. split; [apply vle_refl; by exists m|]. by intros [? ?]. }
  rewrite (inner_compare_key v max a m) by congruence. destruct (inner_key v a Ha) as (b & Hb & Hba).
  destruct (decide (lex a m = Gt)) as [Hgt|Hgt].
  - rewrite Hgt. split; [apply kept_inner; [done|by exists a]|]. split; [|intros _; apply vle_refl; by exists b].
    assert (Hle : vle max v) by (exists m, a; split; [done|split; [done|by apply lex_gt_le]]).
    apply inner_mono in Hle; [|congruence]. by rewrite Hi in Hle.
  - replace (match lex a m with Gt => inner_value v | _ => max end) with max by (by destruct (lex a m)).
    split; [done|]. split; [apply vle_refl; by exists m|]. intros _. exists b, m. split; [done|]. split; [done|].
    eapply lex_le_trans; [exact Hba|done].
Qed.

(** Bounds of some values. *)
Definition bounds (t : LogicalType) (min max : Value) (values : list Value) : Prop :=
  kept t min ∧ kept t max ∧
  ∀ v, v ∈ values → is_Some (order_key v) → vle min (inner_value v) ∧ vle (inner_value v) max.

Lemma bounds_app t min max vs ws : bounds t min max vs → bounds t min max ws → bounds t min max (vs ++ ws).
Proof. intros (H1 & H2 & H3) (_ & _ & H4). split; [done|]. split; [done|]. intros v [Hv|Hv]%elem_of_app; auto. Qed.

(** Wider bounds. *)
Lemma bounds_widen t min max min' max' vs :
  bounds t min max vs → kept t min' → kept t max' → vle min' min → vle max max' → bounds t min' max' vs.
Proof.
  intros (_ & _ & Hb) Hmin Hmax Hlo Hhi. split; [done|]. split; [done|]. intros v Hv Ho. destruct (Hb v Hv Ho).
  split; eapply vle_trans; done.
Qed.

Lemma bounds_update t min max vs v :
  bounds t min max vs → Value_type v = t → bounds t (UpdateMin min v) (UpdateMax max v) (vs ++ [v]).
Proof.
  intros Hb Hv. pose proof Hb as (Hmin & Hmax & _).
  destruct (UpdateMin_spec t min v Hmin Hv) as (K1 & L1 & V1). destruct (UpdateMax_spec t max v Hmax Hv) as (K2 & L2 & V2).
  apply bounds_app; [by eapply bounds_widen|]. split; [done|]. split; [done|]. intros w ->%list_elem_of_singleton Ho. auto.
Qed.

(** The bounds of a block merged into those of the segment. *)
Lemma bounds_merge t min max min' max' vs ws :
  bounds t min max vs → bounds t min' max' ws → bounds t (UpdateMin min min') (UpdateMax max max') (vs ++ ws).
Proof.
  intros Hb Hb'. pose proof Hb as (Hmin & Hmax & _). pose proof Hb' as (Hmin' & Hmax' & _).
  destruct (UpdateMin_spec t min min' Hmin (proj1 Hmin')) as (K1 & L1 & V1). destruct (UpdateMax_spec t max max' Hmax (proj1 Hmax')) as (K2 & L2 & V2).
  destruct Hmin' as (? & ? & E1), Hmax' as (? & ? & E2). rewrite E1 in V1. rewrite E2 in V2.
  apply bounds_app; eapply bounds_widen; eauto.
Qed.

Lemma bounds_start t : SupportMinMaxFilter t = true → bounds t (start_min t) (start_max t) [].
Proof.
  intros Ht. assert (kept t (start_min t) ∧ kept t (start_max t)) as [H1 H2].
  { destruct t; try discriminate Ht; split; (split; [done|]); (split; [eexists; reflexivity|done]). }
  split; [done|]. split; [done|]. by intros v Hv%elem_of_nil.
Qed.

(** ** Keys *)

Lemma elem_of_unique k l : k ∈ unique l ↔ k ∈ l.
Proof.
  induction l as [|x l IH]; [done|]. cbn [unique]. destruct l as [|y l]; [done|].
  destruct (Z.eqb_spec x y) as [->|].
  - rewrite IH. set_solver.
  - rewrite !(elem_of_cons _ k x), IH. done.
Qed.

Lemma unique_sorted l : StronglySorted Z.le l → StronglySorted Z.lt (unique l).
Proof.
  induction 1 as [|x l Hl IH Hx]; [constructor|]. cbn [unique]. destruct l as [|y l]; [by repeat constructor|].
  destruct (Z.eqb_spec x y) as [->|Hne]; [done|]. constructor; [done|]. apply Forall_forall. intros z Hz. apply (proj1 (elem_of_unique _ _)) in Hz.
  apply Forall_cons in Hx as [Hxy Hx]. apply StronglySorted_inv in Hl as [_ Hy].
  apply elem_of_cons in Hz as [->|Hz]; [lia|]. rewrite Forall_forall in Hy. specialize (Hy z Hz). lia.
Qed.

Lemma elem_of_set_union k a b : k ∈ set_union a b ↔ k ∈ a ∨ k ∈ b.
Proof.
  revert b; induction a as [|x a IHa]; intros b; [destruct b; set_solver|].
  induction b as [|y b IHb]; [cbn; set_solver|]. cbn [set_union]. destruct (Z.ltb_spec x y).
  - rewrite elem_of_cons, IHa. set_solver.
  - destruct (Z.ltb_spec y x).
    + rewrite elem_of_cons. rewrite IHb. set_solver.
    + rewrite elem_of_cons, IHa. assert (x = y) as -> by lia. set_solver.
Qed.

Lemma set_union_sorted a b : StronglySorted Z.lt a → StronglySorted Z.lt b → StronglySorted Z.lt (set_union a b).
Proof.
  intros Ha. revert b; induction Ha as [|x a Ha IHa Hx]; intros b Hb; [by destruct b|].
  induction Hb as [|y b Hb IHb Hy]; [by constructor|]. cbn [set_union].
  assert (∀ z, z ∈ a → x < z) as Hxa by (by apply Forall_forall). assert (∀ z, z ∈ b → y < z) as Hyb by (by apply Forall_forall).
  destruct (Z.ltb_spec x y); [|destruct (Z.ltb_spec y x)].
  - constructor; [apply IHa; by constructor|]. apply Forall_forall. intros z [Hz|[-> |Hz]%elem_of_cons]%elem_of_set_union; auto.
    specialize (Hyb z Hz). lia.
  - constructor; [done|]. apply Forall_forall. intros z Hz.
    change (z ∈ set_union (x :: a) b) in Hz. apply elem_of_set_union in Hz as [[-> |Hz]%elem_of_cons|Hz]; auto.
    specialize (Hxa z Hz). lia.
  - assert (x = y) as -> by lia. constructor; [by apply IHa|]. apply Forall_forall. intros z [Hz|Hz]%elem_of_set_union; auto.
Qed.

Lemma sort_unique_sorted l : StronglySorted Z.lt (sort_unique l).
Proof. apply unique_sorted, StronglySorted_merge_sort; [intros ???; lia|intros ??; lia]. Qed.

Lemma elem_of_sort_unique k l : k ∈ sort_unique l ↔ k ∈ l.
Proof. unfold sort_unique. by rewrite elem_of_unique, merge_sort_Permutation. Qed.

Lemma sorted_lt_NoDup (l : list Z) : StronglySorted Z.lt l → NoDup l.
Proof.
  induction 1 as [|x l _ IH Hx]; constructor; [|done]. intros Hin. rewrite Forall_forall in Hx. specialize (Hx x Hin). lia.
Qed.

(** ** Building *)

Class FilterTotal `{FilterLibrary} := {
  (** Different keys are always populated. *)
  fuse8_total : ∀ keys, NoDup keys → is_Some (fuse8_populate keys);
}.

Section Spec.
Context {Library : FilterLibrary} {Laws : FilterLaws} {Total : FilterTotal} {Store : ColumnStore}.

Definition convertible (v : Value) : Prop := ∃ k, ConvertValueToU64 v = Ok k.

(** The keys are those of the values. *)
Definition has_keys (keys : list Z) (values : list Value) : Prop :=
  ∀ v k, v ∈ values → ConvertValueToU64 v = Ok k → k ∈ keys.

Lemma read_rows_ok min_max bloom total t vs : ∀ c ws,
  Forall (fun v => Value_type v = t ∧ (bloom = true → convertible v)) vs →
  total_row_count_read_ c + zlen vs ≤ total →
  (min_max = true → bounds t (min_value c) (max_value c) ws) → (bloom = true → has_keys (keys_ c) ws) →
  ∃ c', res_fold (read_row min_max bloom total) c vs = Ok c' ∧
    total_row_count_read_ c' = total_row_count_read_ c + zlen vs ∧
    (min_max = true → bounds t (min_value c') (max_value c') (ws ++ vs)) ∧ (bloom = true → has_keys (keys_ c') (ws ++ vs)).
Proof.
  induction vs as [|v vs IH]; intros c ws Hvs Htot Hb Hk; cbn [res_fold].
  { exists c. rewrite app_nil_r. autorewrite with cint. split; [done|]. split; [lia|done]. }
  apply Forall_cons in Hvs as [[Hv Hconv] Hvs]. rewrite zlen_cons in *. pose proof (zlen_nonneg vs).
  unfold read_row at 1, Advance. destruct (Z.ltb_spec total (total_row_count_read_ c + 1)); [lia|]. cbn [res_bind].
  assert (∃ keys, (if bloom then let? key := ConvertValueToU64 v in Ok (keys_ c ++ [key]) else Ok (keys_ c)) = Ok keys ∧
    (bloom = true → has_keys keys (ws ++ [v]))) as (keys & -> & Hkeys).
  { destruct bloom; [|by eexists]. destruct (Hconv eq_refl) as [k Hkv]. rewrite Hkv. cbn [res_bind]. eexists. split; [reflexivity|].
    intros _ w k' [Hw|Hw]%elem_of_app Hc; [apply elem_of_app; left; by apply (Hk eq_refl w)|].
    apply list_elem_of_singleton in Hw as ->. apply elem_of_app. right. apply list_elem_of_singleton. congruence. }
  cbn [res_bind]. destruct (IH (mkCollected (total_row_count_read_ c + 1) (if min_max then UpdateMin (min_value c) v else min_value c)
    (if min_max then UpdateMax (max_value c) v else max_value c) keys) (ws ++ [v]) Hvs) as (c' & Hc' & Hr & Hb' & Hk'); cbn [total_row_count_read_ min_value max_value keys_].
  - lia.
  - destruct min_max; [|done]. intros _. by apply bounds_update; [apply Hb|].
  - exact Hkeys.
  - exists c'. split; [exact Hc'|]. rewrite <- app_assoc in Hb', Hk'. cbn in Hr. split; [lia|done].
Qed.

(** *** The filter of a block or segment while columns are built *)

Definition slots (f : FastRoughFilter) (mm : list InnerMinMaxDataFilter) (pf : list BinaryFuse) : Prop :=
  min_max_data_filter_ f = Some mm ∧ probabilistic_data_filter_ f = Some pf.

Lemma array_at_of_nat {A} (l : list A) c x : l !! c = Some x → array_at l (Z.of_nat c) = Ok x.
Proof. intros Hx. unfold array_at. rewrite decide_True, Nat2Z.id, Hx by lia. done. Qed.

Lemma build_filter_ok min_max bloom ts c min max keys f mm pf :
  slots f mm pf → mm !! c = Some None → pf !! c = Some BinaryFuse_new → NoDup keys →
  ∃ f' g, build_filter min_max bloom ts (Z.of_nat c) min max keys f = Ok f' ∧ fuse8_populate keys = Some g ∧
    slots f' (if min_max then <[c := Some (min, max)]> mm else mm) (if bloom then <[c := mkFuse ts (Some g)]> pf else pf) ∧
    build_time_ f' = build_time_ f ∧ finished_build_minmax_filter_ f' = finished_build_minmax_filter_ f.
Proof.
  intros [Hm Hp] Hmc Hpc Hnd. destruct (fuse8_total keys Hnd) as [g Hg]. unfold build_filter, BuildProbabilisticDataFilter, BuildMinMaxDataFilter.
  rewrite Hp. cbn [deref_ptr res_bind]. rewrite (array_at_of_nat pf c _ Hpc). cbn [res_bind]. unfold BinaryFuse_Build.
  cbn [BinaryFuse_new fuse_build_time_ fuse_filter_]. rewrite Z.eqb_refl, Hg. cbn [negb res_bind].
  destruct bloom; cbn [res_bind min_max_data_filter_]; (destruct min_max; [rewrite Hm; cbn [deref_ptr res_bind]; rewrite (array_at_of_nat mm c _ Hmc); cbn [res_bind]|]);
    eexists _, g; (split; [reflexivity|]); (split; [done|]); unfold slots; cbn; rewrite ?Nat2Z.id; done.
Qed.

(** What a column of the filter says of the rows; [row c] is the value of the column [c]. *)
Definition column_covers (t : LogicalType) (row_values : list Value) (mm : InnerMinMaxDataFilter) (bf : BinaryFuse) : Prop :=
  (SupportMinMaxFilter t = true → ∃ min max, mm = Some (min, max) ∧ bounds t min max row_values) ∧
  (∀ g, fuse_filter_ bf = Some g → ∀ v k, v ∈ row_values → ConvertValueToU64 v = Ok k → fuse8_contain k g = true).

(** After the first [c] columns. *)
Definition filter_inv (columns : list (LogicalType * bool)) (rows : list (Z → Value)) (c : nat) (f : FastRoughFilter) : Prop :=
  ∃ mm pf, slots f mm pf ∧ length mm = length columns ∧ length pf = length columns ∧
    (∀ i, (c ≤ i < length columns)%nat → mm !! i = Some None ∧ pf !! i = Some BinaryFuse_new) ∧
    (∀ i t w, (i < c)%nat → columns !! i = Some (t, w) →
       ∃ m bf, mm !! i = Some m ∧ pf !! i = Some bf ∧ column_covers t (map (fun row => row (Z.of_nat i)) rows) m bf).

(** Which filters a column gets. *)
Definition wants (column : LogicalType * bool) : bool * bool :=
  (SupportMinMaxFilter column.1, SupportBloomFilter column.1 && column.2).

Lemma filter_inv_step columns rows c t w min_max bloom ts min max keys f :
  filter_inv columns rows c f → columns !! c = Some (t, w) → (min_max, bloom) = wants (t, w) → NoDup keys →
  (min_max = true → bounds t min max (map (fun row => row (Z.of_nat c)) rows)) →
  (bloom = true → has_keys keys (map (fun row => row (Z.of_nat c)) rows)) →
  ∃ f', build_filter min_max bloom ts (Z.of_nat c) min max keys f = Ok f' ∧ filter_inv columns rows (S c) f' ∧
    build_time_ f' = build_time_ f ∧ finished_build_minmax_filter_ f' = finished_build_minmax_filter_ f.
Proof.
  intros (mm & pf & Hs & Hlm & Hlp & Hnew & Hdone) Hc [= Hmm Hbl] Hnd Hb Hk.
  assert (Hlt : (c < length columns)%nat) by (by eapply lookup_lt_Some). destruct (Hnew c ltac:(lia)) as [Hmc Hpc].
  destruct (build_filter_ok min_max bloom ts c min max keys f mm pf Hs Hmc Hpc Hnd) as (f' & g & Hf' & Hg & Hs' & Ht & Hfin).
  exists f'. split; [exact Hf'|]. split; [|done]. eexists _, _. split; [exact Hs'|].
  split; [by destruct min_max; rewrite ?length_insert|]. split; [by destruct bloom; rewrite ?length_insert|]. split.
  - intros i Hi. destruct (Hnew i ltac:(lia)). destruct min_max, bloom; rewrite ?list_lookup_insert_ne by lia; done.
  - intros i t' w' Hi Hc'. destruct (decide (i = c)) as [->|Hne].
    + assert (t' = t ∧ w' = w) as [-> ->] by (split; congruence).
      exists (if min_max then Some (min, max) else None), (if bloom then mkFuse ts (Some g) else BinaryFuse_new).
      split; [destruct min_max; [by rewrite list_lookup_insert_eq by lia|done]|].
      split; [destruct bloom; [by rewrite list_lookup_insert_eq by lia|done]|]. split.
      * cbn in Hmm. rewrite <- Hmm. intros ->. exists min, max. split; [done|by apply Hb].
      * destruct bloom; [|done]. intros g' [= <-] v k Hv Hkv. apply (fuse8_complete keys); [done|]. by apply (Hk eq_refl v).
    + destruct (Hdone i t' w' ltac:(lia) Hc') as (m & bf & Hm & Hbf & Hcov). exists m, bf.
      destruct min_max, bloom; rewrite ?list_lookup_insert_ne by done; done.
Qed.

(** *** The blocks of a segment *)

Section Segment.
Context (columns : list (LogicalType * bool)) (check_ts : bool) (ts : Z).

(** The rows that the builder reads. *)
Definition rows_of (b : FilterBlock) : list (Z → Value) :=
  match column_offsets check_ts (block_entry_ b) ts with
  | Ok offsets => map (fun o c => column_value_ b c o) offsets
  | Err _ => []
  end.

Definition rows_typed (rows : list (Z → Value)) : Prop :=
  ∀ row i t w, row ∈ rows → columns !! i = Some (t, w) →
    Value_type (row (Z.of_nat i)) = t ∧ ((wants (t, w)).2 = true → convertible (row (Z.of_nat i))).

(** A block that can be read. *)
Definition block_ready (b : FilterBlock) : Prop :=
  (∃ offsets, column_offsets check_ts (block_entry_ b) ts = Ok offsets ∧ (block_row_count_ (block_entry_ b) = 0 → offsets = [])) ∧
  rows_typed (rows_of b).

Definition block_built (c : nat) (b : FilterBlock) : Prop :=
  block_row_count_ (block_entry_ b) ≠ 0 → filter_inv columns (rows_of b) c (block_filter_ b).

Definition same_time (f f' : FastRoughFilter) : Prop :=
  build_time_ f' = build_time_ f ∧ finished_build_minmax_filter_ f' = finished_build_minmax_filter_ f.

Definition same_block (b b' : FilterBlock) : Prop :=
  block_entry_ b' = block_entry_ b ∧ column_value_ b' = column_value_ b ∧ same_time (block_filter_ b) (block_filter_ b').

Lemma rows_of_same b b' : same_block b b' → rows_of b' = rows_of b.
Proof. intros (He & Hv & _). unfold rows_of. by rewrite He, Hv. Qed.

Lemma block_ready_same b b' : same_block b b' → block_ready b → block_ready b'.
Proof. intros Hs [Ho Ht]. split; [by rewrite (proj1 Hs)|by rewrite (rows_of_same b b')]. Qed.

Definition column_values (c : nat) (rows : list (Z → Value)) : list Value := map (fun row => row (Z.of_nat c)) rows.

(** What has been collected of a column [c] of type [t] from some rows. *)
Record collected_ok (min_max bloom : bool) (t : LogicalType) (arg : Collected) (values : list Value) : Prop := {
  collected_bounds : min_max = true → bounds t (min_value arg) (max_value arg) values;
  collected_keys : bloom = true → has_keys (keys_ arg) values;
  collected_sorted : StronglySorted Z.lt (keys_ arg);
}.

Context (c : nat) (t : LogicalType) (w : bool) (Hc : columns !! c = Some (t, w)).
Context (min_max bloom : bool) (Hwants : (min_max, bloom) = wants (t, w)).

Lemma values_typed rows :
  rows_typed rows → Forall (fun v => Value_type v = t ∧ (bloom = true → convertible v)) (column_values c rows).
Proof.
  intros Hr. apply Forall_forall. intros v (row & -> & Hrow)%list_elem_of_fmap.
  destruct (Hr row c t w Hrow Hc) as [Ht Hk]. split; [done|]. intros ->. apply Hk. by rewrite <- Hwants.
Qed.

Lemma start_collected read : collected_ok min_max bloom t (mkCollected read (start_min t) (start_max t) []) [].
Proof.
  split; cbn; [|by intros _ v k Hv%elem_of_nil|constructor]. intros ->. injection Hwants as Hm _. by apply bounds_start.
Qed.

Lemma build_block_ok total arg vs b :
  block_ready b → block_built c b → collected_ok min_max bloom t arg vs →
  total_row_count_read_ arg + zlen (rows_of b) ≤ total →
  ∃ arg' b', build_block min_max bloom check_ts t ts (Z.of_nat c) total arg b = Ok (arg', b') ∧
    same_block b b' ∧ block_built (S c) b' ∧ collected_ok min_max bloom t arg' (vs ++ column_values c (rows_of b)) ∧
    total_row_count_read_ arg' = total_row_count_read_ arg + zlen (rows_of b).
Proof.
  intros [(offsets & Ho & Hempty) Ht] Hb Harg Htot. unfold build_block. assert (Hrows : rows_of b = map (fun o c => column_value_ b c o) offsets).
  { unfold rows_of. by rewrite Ho. }
  destruct (Z.eqb_spec (block_row_count_ (block_entry_ b)) 0) as [Hz|Hz].
  { rewrite (Hempty Hz) in Hrows. rewrite Hrows. cbn. exists arg, b. split; [done|]. split; [by repeat split|]. split; [by intros ?|]. rewrite app_nil_r.
    split; [done|]. rewrite zlen_nil. lia. }
  rewrite Ho. cbn [res_bind]. assert (Hvals : map (column_value_ b (Z.of_nat c)) offsets = column_values c (rows_of b)).
  { rewrite Hrows. unfold column_values. rewrite map_map. done. }
  rewrite Hvals. set (vals := column_values c (rows_of b)). pose proof (start_collected (total_row_count_read_ arg)) as Hst.
  assert (Hlen : zlen vals = zlen (rows_of b)) by (unfold vals, column_values; apply zlen_map).
  destruct (read_rows_ok min_max bloom total t vals (mkCollected (total_row_count_read_ arg) (start_min t) (start_max t) []) [] (values_typed _ Ht) ltac:(cbn [total_row_count_read_]; lia) (collected_bounds _ _ _ _ _ Hst)
    (collected_keys _ _ _ _ _ Hst)) as (cc & -> & Hread & Hbd & Hks). cbn [res_bind total_row_count_read_ app] in *.
  pose proof (sort_unique_sorted (keys_ cc)) as Hsort.
  assert (Hks' : bloom = true → has_keys (sort_unique (keys_ cc)) vals).
  { intros Hbl v k Hv Hk. apply elem_of_sort_unique. by apply (Hks Hbl v). }
  destruct (filter_inv_step columns (rows_of b) c t w min_max bloom ts (min_value cc) (max_value cc) (sort_unique (keys_ cc)) (block_filter_ b)
    (Hb Hz) Hc Hwants (sorted_lt_NoDup _ Hsort) Hbd Hks') as (f' & -> & Hinv & Htime). cbn [res_bind].
  eexists _, _. split; [reflexivity|]. split; [by repeat split; destruct Htime|]. split; [by intros _|]. split; [|cbn; lia].
  destruct Harg as [Ab Ak As]. split; cbn [min_value max_value keys_].
  - intros Hm. apply bounds_merge; auto.
  - intros Hbl v k [Hv|Hv]%elem_of_app Hk; apply elem_of_set_union; [left; by apply (Ak Hbl v)|right; by apply (Hks' Hbl v)].
  - by apply set_union_sorted.
Qed.

Lemma build_blocks_ok total blocks : ∀ arg vs,
  Forall block_ready blocks → Forall (block_built c) blocks → collected_ok min_max bloom t arg vs →
  total_row_count_read_ arg + zlen (concat (map rows_of blocks)) ≤ total →
  ∃ arg' blocks', build_blocks min_max bloom check_ts t ts (Z.of_nat c) total arg blocks = Ok (arg', blocks') ∧
    Forall2 same_block blocks blocks' ∧ Forall (block_built (S c)) blocks' ∧
    collected_ok min_max bloom t arg' (vs ++ column_values c (concat (map rows_of blocks))).
Proof.
  induction blocks as [|b blocks IH]; intros arg vs Hr Hb Harg Htot; cbn [build_blocks].
  { exists arg, []. cbn. rewrite app_nil_r. split; [done|]. split; [done|]. split; [done|exact Harg]. }
  apply Forall_cons in Hr as [Hrb Hr]. apply Forall_cons in Hb as [Hbb Hb]. cbn [map concat] in Htot |- *. rewrite zlen_app in Htot.
  pose proof (zlen_nonneg (concat (map rows_of blocks))).
  destruct (build_block_ok total arg vs b Hrb Hbb Harg ltac:(lia)) as (arg1 & b1 & -> & Hs & Hb1 & Harg1 & Hread). cbn [res_bind].
  destruct (IH arg1 _ Hr Hb Harg1 ltac:(lia)) as (arg2 & blocks2 & -> & Hs2 & Hb2 & Harg2). cbn [res_bind].
  eexists _, _. split; [reflexivity|]. split; [by constructor|]. split; [by constructor|].
  unfold column_values in *. rewrite map_app. by rewrite <- app_assoc in Harg2.
Qed.
End Segment.

(** *** All columns *)

Section Task.
Context (columns : list (LogicalType * bool)) (check_ts : bool) (ts : Z).

Notation rows_of := (rows_of check_ts ts).
Notation block_ready := (block_ready columns check_ts ts).
Notation block_built := (block_built columns check_ts ts).

(** The rows of the segment that the builder reads. *)
Definition segment_rows (s : FilterSegment) : list (Z → Value) := concat (map rows_of (segment_blocks_ s)).

(** The first [c] columns are built. *)
Record built (c : nat) (s : FilterSegment) : Prop := {
  built_columns : segment_columns_ s = columns;
  built_ready : Forall block_ready (segment_blocks_ s);
  built_blocks : Forall (block_built c) (segment_blocks_ s);
  built_segment : filter_inv columns (segment_rows s) c (segment_filter_ s);
  built_count : zlen (segment_rows s) ≤ segment_row_count_ s;
}.

Definition same_segment (s s' : FilterSegment) : Prop :=
  segment_columns_ s' = segment_columns_ s ∧ segment_row_count_ s' = segment_row_count_ s ∧
  Forall2 same_block (segment_blocks_ s) (segment_blocks_ s') ∧ same_time (segment_filter_ s) (segment_filter_ s').

Lemma same_rows blocks blocks' : Forall2 same_block blocks blocks' → map rows_of blocks' = map rows_of blocks.
Proof. induction 1 as [|b b' l l' Hb _ IH]; [done|]. cbn. by rewrite IH, (rows_of_same check_ts ts b b' Hb). Qed.

Lemma same_ready blocks blocks' : Forall2 same_block blocks blocks' → Forall block_ready blocks → Forall block_ready blocks'.
Proof. induction 1; [done|]. intros [? ?]%Forall_cons. constructor; [by eapply block_ready_same|auto]. Qed.

Lemma same_block_trans a b c : same_block a b → same_block b c → same_block a c.
Proof. intros (A1 & A2 & A3 & A4) (B1 & B2 & B3 & B4). repeat split; congruence. Qed.

Lemma same_blocks_trans l1 l2 l3 : Forall2 same_block l1 l2 → Forall2 same_block l2 l3 → Forall2 same_block l1 l3.
Proof. intros H12. revert l3. induction H12; intros l3 H23; inversion H23; subst; constructor; [by eapply same_block_trans|auto]. Qed.

Lemma same_segment_trans a b c : same_segment a b → same_segment b c → same_segment a c.
Proof.
  intros (A1 & A2 & A3 & A4 & A5) (B1 & B2 & B3 & B4 & B5). split; [congruence|]. split; [congruence|].
  split; [by eapply same_blocks_trans|]. split; congruence.
Qed.

Lemma same_block_refl b : same_block b b.
Proof. by repeat split. Qed.

Lemma same_segment_refl s : same_segment s s.
Proof. repeat split. induction (segment_blocks_ s); constructor; [apply same_block_refl|done]. Qed.

(** A column without a filter. *)
Lemma filter_inv_skip rows c t w f :
  filter_inv columns rows c f → columns !! c = Some (t, w) → wants (t, w) = (false, false) → filter_inv columns rows (S c) f.
Proof.
  intros (mm & pf & Hs & Hlm & Hlp & Hnew & Hdone) Hc [= Hm _]. exists mm, pf. split; [done|]. split; [done|]. split; [done|].
  split; [intros; apply Hnew; lia|]. intros i t' w' Hi Hc'. destruct (decide (i = c)) as [->|]; [|apply (Hdone i t' w'); [lia|done]].
  destruct (Hnew c) as [Hmc Hpc]; [split; [done|by eapply lookup_lt_Some]|]. exists None, BinaryFuse_new. split; [done|]. split; [done|].
  assert (t' = t) as -> by congruence. cbn in Hm. split; [congruence|done].
Qed.

Lemma BuildFilter_column t w min_max bloom begin_ts column_id s :
  (min_max, bloom) = wants (t, w) → min_max || bloom = true →
  BuildFilter t min_max bloom check_ts begin_ts column_id s = build_column min_max bloom check_ts t begin_ts column_id s.
Proof. intros [= -> ->]. by destruct t, w. Qed.

Lemma build_one_ok c t w s :
  built c s → columns !! c = Some (t, w) →
  ∃ s', build_one check_ts ts s (Z.of_nat c, (t, w)) = Ok s' ∧ built (S c) s' ∧ same_segment s s'.
Proof.
  intros [Hcol Hr Hb Hseg Hcnt] Hc. unfold build_one. destruct (wants (t, w)) as [min_max bloom] eqn:Hw.
  change (SupportMinMaxFilter t, SupportBloomFilter t && w) with (wants (t, w)) in *.
  assert (SupportMinMaxFilter t = min_max ∧ SupportBloomFilter t && w = bloom) as [-> ->] by (injection Hw; auto).
  destruct (min_max || bloom) eqn:Hor.
  2:{ apply orb_false_elim in Hor as [-> ->]. exists s. split; [done|]. split; [|apply same_segment_refl].
      split; try done; [|by eapply filter_inv_skip]. eapply Forall_impl; [exact Hb|]. intros b Hbb Hz. by eapply filter_inv_skip; [apply Hbb| |]. }
  rewrite (BuildFilter_column t w) by done. unfold build_column.
  pose proof (start_collected t w min_max bloom (eq_sym Hw) 0) as Hst.
  destruct (build_blocks_ok columns check_ts ts c t w Hc min_max bloom (eq_sym Hw) (segment_row_count_ s) (segment_blocks_ s) _ [] Hr Hb Hst Hcnt)
    as (arg & blocks & -> & Hsame & Hb' & [Hbd Hks Hsort]). cbn [res_bind app] in *.
  destruct (filter_inv_step columns (segment_rows s) c t w min_max bloom ts (min_value arg) (max_value arg) (keys_ arg) (segment_filter_ s)
    Hseg Hc (eq_sym Hw) (sorted_lt_NoDup _ Hsort) Hbd Hks) as (f' & -> & Hinv & Htime). cbn [res_bind].
  eexists. split; [reflexivity|]. split; [|by repeat split; destruct Htime].
  assert (Hrows : concat (map rows_of blocks) = segment_rows s) by (by rewrite (same_rows _ _ Hsame)).
  split; cbn [segment_columns_ segment_blocks_ segment_filter_ segment_row_count_]; try done; unfold segment_rows in *;
    cbn [segment_blocks_]; rewrite ?Hrows; try done. by eapply same_ready.
Qed.

Lemma build_columns_ok rest : ∀ c s,
  built c s → drop c columns = rest →
  ∃ s', res_fold (build_one check_ts ts) s (zip (seqZ (Z.of_nat c) (zlen rest)) rest) = Ok s' ∧
    built (c + length rest) s' ∧ same_segment s s'.
Proof.
  induction rest as [|[t w] rest IH]; intros c s Hb Hd.
  { exists s. cbn. rewrite Nat.add_0_r. split; [done|]. split; [done|apply same_segment_refl]. }
  assert (Hc : columns !! c = Some (t, w)) by (by rewrite <- (Nat.add_0_r c), <- lookup_drop, Hd).
  rewrite zlen_cons, Z.add_comm, seqZ_cons by (pose proof (zlen_nonneg rest); lia). cbn [zip zip_with res_fold].
  destruct (build_one_ok c t w s Hb Hc) as (s1 & -> & Hb1 & Hs1). cbn [res_bind].
  replace (Z.succ (Z.of_nat c)) with (Z.of_nat (S c)) by lia. replace (Z.pred (zlen rest + 1)) with (zlen rest) by lia.
  destruct (IH (S c) s1 Hb1) as (s2 & -> & Hb2 & Hs2).
  { replace (S c) with (c + 1)%nat by lia. by rewrite Nat.add_comm, <- skipn_skipn, Hd. }
  exists s2. split; [done|]. cbn [length]. replace (c + S (length rest))%nat with (S c + length rest)%nat by lia.
  split; [done|by eapply same_segment_trans].
Qed.

Lemma ExecuteInner_ok s :
  built 0 s → ∃ s', ExecuteInner check_ts s ts = Ok s' ∧ built (length columns) s' ∧ same_segment s s'.
Proof.
  intros Hb. unfold ExecuteInner. rewrite (built_columns _ _ Hb). destruct (build_columns_ok columns 0 s Hb eq_refl) as (s' & H1 & H2). by exists s'.
Qed.

(** *** The task *)

Definition map_block (g : FastRoughFilter → FastRoughFilter) (b : FilterBlock) : FilterBlock :=
  mkFilterBlock (block_entry_ b) (column_value_ b) (g (block_filter_ b)).

Definition map_filters (g : FastRoughFilter → FastRoughFilter) (s : FilterSegment) : FilterSegment :=
  mkFilterSegment (segment_status_ s) (segment_row_count_ s) (segment_columns_ s) (map (map_block g) (segment_blocks_ s)) (g (segment_filter_ s)).

Lemma ApplyToAll_ok func g s :
  func (segment_filter_ s) = Ok (g (segment_filter_ s)) →
  Forall (fun b => func (block_filter_ b) = Ok (g (block_filter_ b))) (segment_blocks_ s) →
  ApplyToAllFastRoughFilterInSegment func s = Ok (map_filters g s).
Proof.
  intros Hs Hb. unfold ApplyToAllFastRoughFilterInSegment.
  assert (apply_blocks func (segment_blocks_ s) = Ok (map (map_block g) (segment_blocks_ s))) as ->; [|cbn; by rewrite Hs].
  induction Hb as [|b blocks Hb _ IH]; [done|]. cbn. by rewrite Hb, IH.
Qed.

(** Nobody has built filters for the segment yet. *)
Definition fresh_filters (s : FilterSegment) : Prop :=
  build_time_ (segment_filter_ s) = UNCOMMIT_TS ∧ Forall (fun b => build_time_ (block_filter_ b) = UNCOMMIT_TS) (segment_blocks_ s).

Definition started (f : FastRoughFilter) : FastRoughFilter :=
  mkRough ts (finished_build_minmax_filter_ f) (Some (replicate (length columns) None)) (Some (replicate (length columns) BinaryFuse_new)).

Lemma started_inv rows f : filter_inv columns rows 0 (started f).
Proof.
  eexists _, _. split; [done|]. rewrite !length_replicate. split; [done|]. split; [done|]. split.
  - intros i Hi. by rewrite !lookup_replicate_2 by lia.
  - intros i t w Hi. lia.
Qed.

(** A filter that a query uses for some rows. *)
Definition covers (rows : list (Z → Value)) (f : FastRoughFilter) : Prop :=
  finished_build_minmax_filter_ f = true ∧ build_time_ f = ts ∧ filter_inv columns rows (length columns) f.

Definition mark_started (f : FastRoughFilter) : FastRoughFilter :=
  mkRough ts (finished_build_minmax_filter_ f) (min_max_data_filter_ f) (probabilistic_data_filter_ f).
Definition mark_finished (f : FastRoughFilter) : FastRoughFilter :=
  mkRough (build_time_ f) true (min_max_data_filter_ f) (probabilistic_data_filter_ f).

Lemma rows_of_map g blocks : map rows_of (map (map_block g) blocks) = map rows_of blocks.
Proof. rewrite map_map. done. Qed.

(** The segment when columns are about to be built. *)
Lemma built_0 s :
  segment_columns_ s = columns → Forall block_ready (segment_blocks_ s) → zlen (segment_rows s) ≤ segment_row_count_ s →
  built 0 (map_filters started (map_filters mark_started s)).
Proof.
  intros Hcol Hr Hcnt. assert (Hrows : segment_rows (map_filters started (map_filters mark_started s)) = segment_rows s).
  { unfold segment_rows. cbn [map_filters segment_blocks_]. by rewrite !rows_of_map. }
  split; rewrite ?Hrows; try done; cbn [map_filters segment_blocks_ segment_filter_].
  - apply Forall_map, Forall_map. eapply Forall_impl; [exact Hr|]. done.
  - apply Forall_map, Forall_map. apply Forall_true. intros b _. apply started_inv.
  - apply started_inv.
Qed.

Lemma covers_finished rows f : build_time_ f = ts → filter_inv columns rows (length columns) f → covers rows (mark_finished f).
Proof. intros Ht Hi. split; [done|]. split; [done|exact Hi]. Qed.

(** The task succeeds; the filter of a block covers its rows, that of the segment all of them. *)
Lemma ExecuteOnNewSealedSegment_ok s :
  segment_status_ s = (if check_ts then Status.kUnsealed else Status.kSealed) → segment_columns_ s = columns → fresh_filters s →
  Forall block_ready (segment_blocks_ s) → zlen (segment_rows s) ≤ segment_row_count_ s →
  ∃ s', ExecuteOnNewSealedSegment s ts = Ok s' ∧ covers (segment_rows s) (segment_filter_ s') ∧
    Forall2 (fun b b' => block_row_count_ (block_entry_ b) ≠ 0 → covers (rows_of b) (block_filter_ b')) (segment_blocks_ s) (segment_blocks_ s').
Proof.
  intros Hst Hcol [Hf Hfb] Hr Hcnt. unfold ExecuteOnNewSealedSegment. rewrite Hst.
  replace (match (if check_ts then Status.kUnsealed else Status.kSealed) with Status.kUnsealed => Ok true | Status.kSealed => Ok false | _ => Err UnrecoverableError end)
    with (@Ok bool check_ts) by (by destruct check_ts). cbn [res_bind].
  rewrite (ApplyToAll_ok _ mark_started s).
  2:{ unfold SetHaveStartedMinMaxFilterBuildTask. by rewrite Hf. }
  2:{ eapply Forall_impl; [exact Hfb|]. intros b Hb. unfold SetHaveStartedMinMaxFilterBuildTask. by rewrite Hb. }
  cbn [res_bind]. change (segment_columns_ (map_filters mark_started s)) with (segment_columns_ s). rewrite Hcol.
  rewrite (ApplyToAll_ok _ started); [|done|by apply Forall_map, Forall_true]. cbn [res_bind].
  destruct (ExecuteInner_ok _ (built_0 s Hcol Hr Hcnt)) as (s2 & -> & Hb2 & (_ & _ & Hsame & Htime & _)). cbn [res_bind].
  rewrite (ApplyToAll_ok _ mark_finished); [|done|by apply Forall_true]. eexists. split; [reflexivity|].
  cbn [map_filters segment_blocks_ segment_filter_] in *. destruct Hb2 as [_ _ Hbb Hbs _].
  assert (Hrows : map rows_of (segment_blocks_ s2) = map rows_of (segment_blocks_ s)) by (by rewrite (same_rows _ _ Hsame), !rows_of_map).
  split; [apply covers_finished; [done|]; unfold segment_rows in *; by rewrite Hrows in Hbs|]. clear Hrows Hbs Hcnt Hr Hfb.
  rewrite map_map in Hsame. revert Hsame Hbb. generalize (segment_blocks_ s2). induction (segment_blocks_ s) as [|b blocks IH]; intros blocks2 Hs2 Hb2.
  - inversion Hs2; subst. constructor.
  - cbn [map] in Hs2. inversion Hs2 as [|? b2 ? blocks3 Hb Hs3]; subst. apply Forall_cons in Hb2 as [Hb2 Hb3]. cbn [map]. constructor; [|by apply IH].
    assert (Hrw : rows_of b2 = rows_of b) by exact (rows_of_same check_ts ts _ _ Hb).
    destruct Hb as (He & Hv & Ht & _). cbn in He, Hv, Ht. intros Hz. apply covers_finished; [done|]. rewrite <- Hrw. apply Hb2. by rewrite He.
Qed.
End Task.

(** ** Rows that the builder reads *)

Section Iterate.
Context (b : BlockEntry) (events : list (Z * row_op)) (bound ts : Z) (Hinv : block_inv b events bound).

Notation s := (rows_at (row_capacity_ b) (Z.min ts (max_row_ts_ b)) events).

Lemma filter_skip (i j n : Z) :
  i ≤ j → j - i ≤ n → (∀ r, i ≤ r < j → alive s r = false) →
  filter (fun r => alive s r = true) (seqZ i n) = filter (fun r => alive s r = true) (seqZ j (n - (j - i))).
Proof.
  intros Hij Hn Hdead. replace n with ((j - i) + (n - (j - i))) at 1 by lia. rewrite seqZ_app, filter_app by lia.
  replace (i + (j - i)) with j by lia. rewrite filter_none; [done|]. apply Forall_forall. intros r Hr%elem_of_seqZ.
  rewrite Hdead by lia. done.
Qed.

Lemma iterate_spec fuel : ∀ o e,
  0 ≤ o ≤ e → e ≤ total s → (∀ r, o ≤ r < e → alive s r = true) → total s - o < Z.of_nat fuel →
  iterate fuel b ts (mkIter o e) = Ok (filter (fun r => alive s r = true) (seqZ o (total s - o))).
Proof.
  induction fuel as [|fuel IH]; intros o e Hoe He Halive Hfuel; [lia|]. cbn [iterate]. unfold BlockColumnIter_Next. cbn [offset_ read_end_].
  assert (Hstep : ∀ j k, o ≤ j < k → k ≤ total s → (∀ r, o ≤ r < j → alive s r = false) → (∀ r, j ≤ r < k → alive s r = true) →
    (let? offsets := iterate fuel b ts (mkIter (j + 1) k) in Ok (j :: offsets)) =
    Ok (filter (fun r => alive s r = true) (seqZ o (total s - o)))).
  { intros j k Hjk Hk Hdead Hal. rewrite (IH (j + 1) k) by (try lia; intros; apply Hal; lia). cbn [res_bind].
    rewrite (filter_skip o j) by (try lia; done). rewrite (seqZ_cons j) by lia. rewrite filter_cons_True by (apply Hal; lia).
    do 3 f_equal. unfold Z.succ. f_equal. lia. }
  destruct (Z.eqb_spec o e) as [->|Hne].
  - destruct (GetVisibleRange_spec b events bound Hinv ts e ltac:(lia)) as (j & k & -> & Hjk & Hk & Hdead & Hal & Hnone & _). cbn [res_bind].
    destruct (Z.eqb_spec j k) as [->|Hjk'].
    + cbn [res_bind]. rewrite filter_none; [done|]. apply Forall_forall. intros r Hr%elem_of_seqZ. by rewrite (Hnone eq_refl) by lia.
    + cbn [res_bind]. apply Hstep; try done; lia.
  - cbn [res_bind]. apply Hstep; try lia; auto.
Qed.

Lemma column_offsets_visible :
  column_offsets true b ts = Ok (filter (fun r => alive s r = true) (seqZ 0 (total s))).
Proof.
  pose proof (inv_range _ _ _ Hinv (Z.min ts (max_row_ts_ b))). pose proof (inv_total _ _ _ Hinv). pose proof (inv_capacity _ _ _ Hinv).
  unfold column_offsets, BlockColumnIter_new. rewrite iterate_spec by (try lia; intros; lia). by rewrite Z.sub_0_r.
Qed.
End Iterate.
End Spec.
