(* ===== verification/RoughFilterProps.v ===== *)
(** * What rough filters promise

    The evaluator made of a filter expression never skips a block or segment with a row that satisfies
    the expression ([rough_filter_sound]), with examples of what goes wrong where its hypotheses do
    not hold. *)

From Stdlib Require Import ZArith Lia List String.
From stdpp Require Import base list numbers sets sorting strings.
From S2P Require Import Prelude Bytes DataTypes DateTime CatalogDelta BlockVersion BlockEntry Floating FilterExpr FilterSpec RoughFilter RoughFilterSpec.
Local Open Scope Z_scope.

(** ** Exchanging the sides of a comparison *)

Lemma lex_compare_antisym key a b : lex_compare key b a = CompOpp (lex_compare key a b).
Proof.
  revert b; induction a as [|x a IH]; intros [|y b]; try done. cbn [lex_compare].
  rewrite (Z.compare_antisym (key x) (key y)). destruct (key x ?= key y); simpl; auto.
Qed.

Lemma then_compare_antisym a b c d : then_compare (b ?= a) (d ?= c) = CompOpp (then_compare (a ?= b) (c ?= d)).
Proof. unfold then_compare. rewrite (Z.compare_antisym a b), (Z.compare_antisym c d). by destruct (a ?= b), (c ?= d). Qed.

Lemma Value_compare_antisym v w : Value_compare w v = option_map CompOpp (Value_compare v w).
Proof.
  destruct v as [|p|t z|u l|t [|y]|s|t z|t d|t], w as [|p'|t' z'|u' l'|t' [|y']|s'|t' z'|t' d'|t'];
    cbn [Value_compare option_map fp_compare]; try done;
    try (destruct (decide (t' = t)) as [->|Hne]; [rewrite !decide_True by done|rewrite !decide_False by congruence; done]); cbn [option_map]; try done;
    try (by rewrite Z.compare_antisym).
  - by rewrite then_compare_antisym.
  - unfold CompareCharArray. by rewrite lex_compare_antisym.
  - unfold datetime_compare. by rewrite then_compare_antisym.
Qed.

Lemma op_reverse_holds op v w : op_holds (op_reverse op) (Value_compare w v) = op_holds op (Value_compare v w).
Proof. rewrite Value_compare_antisym. by destruct op, (Value_compare v w) as [[]|]. Qed.

(** ** Comparisons and the order of the filters *)

Lemma Value_compare_inner v w : Value_type v ≠ kVarchar → Value_compare v w = inner_compare v w.
Proof. by destruct v, w. Qed.

Lemma le_vle x v :
  Value_type x = Value_type v → Value_type x ≠ kVarchar → op_holds OpLessEqual (Value_compare x v) = true → vle x v.
Proof.
  intros Ht Hk Hh. rewrite Value_compare_inner in Hh by done. destruct (order_key x) as [a|] eqn:Ha; [|rewrite inner_compare_none in Hh by auto; done].
  destruct (order_key v) as [b|] eqn:Hb; [|rewrite inner_compare_none in Hh by auto; done].
  rewrite (inner_compare_key x v a b) in Hh by done. exists a, b. split; [done|]. split; [done|]. unfold lex_le. by destruct (lex a b).
Qed.

Lemma ge_vle x v :
  Value_type x = Value_type v → Value_type x ≠ kVarchar → op_holds OpGreaterEqual (Value_compare x v) = true → vle v x.
Proof.
  intros Ht Hk Hh. apply le_vle; [done|congruence|]. by rewrite <- op_reverse_holds in Hh.
Qed.

Lemma eq_vle x v :
  Value_type x = Value_type v → Value_type x ≠ kVarchar → op_holds OpEqual (Value_compare x v) = true → vle x v ∧ vle v x.
Proof.
  intros Ht Hk Hh. split; [apply le_vle|apply ge_vle]; try done; by destruct (Value_compare x v) as [[]|].
Qed.

(** *** ASCII strings *)

Definition ascii (s : bytes) : Prop := Forall (fun b => 0 ≤ b < 128) s.

Lemma ascii_compare a b : ascii a → ascii b → CompareCharArray a b = lex a b.
Proof.
  unfold CompareCharArray. intros Ha. revert b. induction Ha as [|x a Hx Ha IH]; intros b Hb; destruct Hb as [|y b Hy Hb]; try done.
  cbn [lex_compare id]. unfold char_of. destruct (Z.ltb_spec x 128), (Z.ltb_spec y 128); try lia. by rewrite IH.
Qed.

Lemma lex_app_l p a b : lex (p ++ a) (p ++ b) = lex a b.
Proof. induction p as [|x p IH]; [done|]. cbn [app lex_compare id]. by rewrite Z.compare_refl. Qed.

Lemma lex_nil_le b : lex_le [] b.
Proof. unfold lex_le. by destruct b. Qed.

Lemma ascii_max_le n m s : ascii s → (n ≤ m)%nat → lex_le (take n s) (take n (replicate m char_max)).
Proof.
  intros Hs. revert n m; induction Hs as [|x s Hx Hs IH]; intros n m Hnm; [rewrite take_nil; apply lex_nil_le|].
  destruct n as [|n]; [apply lex_nil_le|]. destruct m as [|m]; [lia|]. cbn [take replicate]. apply lex_le_cons. unfold char_max.
  destruct (decide (x = 127)) as [->|]; [|left; lia]. right. split; [done|]. apply IH. lia.
Qed.

(** Below [front ++ [back]] is at most [front], the byte before [back] and the largest ones, up to the
    length that filters keep. *)
Lemma below_bound front back s :
  ascii s → ascii front → 0 ≤ back < 128 → lex s (front ++ [back]) = Lt →
  lex_le (take INNER_STORED_LENGTH s) (take INNER_STORED_LENGTH (front ++ [(back - 1) mod 256] ++ replicate 16 char_max)).
Proof.
  intros Hs Hf Hb. generalize INNER_STORED_LENGTH (le_n 16 : (INNER_STORED_LENGTH ≤ 16)%nat). intros n Hn.
  revert s n Hn Hs; induction Hf as [|x front Hx Hf IH]; intros s n Hn Hs Hlt.
  - destruct s as [|y s]; [rewrite take_nil; apply lex_nil_le|]. cbn [app lex_compare id] in Hlt. apply Forall_cons in Hs as [Hy Hs].
    assert (y < back) by (destruct (Z.compare_spec y back); [by destruct s|done|done]).
    destruct n as [|n]; [apply lex_nil_le|]. cbn [app take]. rewrite Z.mod_small by lia. apply lex_le_cons.
    destruct (decide (y = back - 1)) as [->|]; [|left; lia]. right. split; [done|]. apply ascii_max_le; [done|lia].
  - destruct s as [|y s]; [rewrite take_nil; apply lex_nil_le|]. cbn [app lex_compare id] in Hlt. apply Forall_cons in Hs as [Hy Hs].
    destruct n as [|n]; [apply lex_nil_le|]. cbn [app take]. apply lex_le_cons. destruct (Z.compare_spec y x) as [->|Hxy|Hxy]; [|by left|done].
    right. split; [done|]. apply IH; [lia|done|done].
Qed.

(** ** Evaluators *)

Section Sound.
Context {Library : FilterLibrary} {Functions : FunctionLibrary}.
Context (columns : list (LogicalType * bool)) (ts : Z) (rows : list (Z → Value)) (f : FastRoughFilter).
Context (Hcov : covers columns ts rows f) (row : Z → Value) (Hrow : row ∈ rows) (query_ts : Z).

(** A row as expressions see it. *)
Definition table_row (special_column : Z → option Value) (row : Z → Value) : Row :=
  fun special c => if special then special_column c else Some (row c).

Definition is_column (c : Z) (t : LogicalType) : Prop := 0 ≤ c ∧ ∃ w, columns !! Z.to_nat c = Some (t, w).

Lemma column_filter c t :
  is_column c t → ∃ mm pf m bf, min_max_data_filter_ f = Some mm ∧ probabilistic_data_filter_ f = Some pf ∧
    array_at mm c = Ok m ∧ array_at pf c = Ok bf ∧ column_covers t (map (fun row => row c) rows) m bf.
Proof using Hcov.
  intros [Hc [w Hw]]. destruct Hcov as (_ & _ & mm & pf & [Hm Hp] & _ & _ & _ & Hdone).
  destruct (Hdone (Z.to_nat c) t w) as (m & bf & Hmc & Hbc & Hcc); [by eapply lookup_lt_Some|done|].
  exists mm, pf, m, bf. split; [done|]. split; [done|]. rewrite Z2Nat.id in Hcc by done.
  split; [by apply array_at_nat|]. split; [by apply array_at_nat|done].
Qed.

Lemma order_key_inner v : is_Some (order_key (inner_value v)) → is_Some (order_key v).
Proof. by destruct v. Qed.

Lemma vle_some v w : vle v w → is_Some (order_key v) ∧ is_Some (order_key w).
Proof. intros (a & b & -> & -> & _). split; by eexists. Qed.

Lemma range_ok c t v ct :
  is_column c t → SupportMinMaxFilter t = true → Value_type v = t → ct = kLessEqual ∨ ct = kGreaterEqual →
  ∃ r, MayInRange f c v ct = Ok r ∧
    (ct = kLessEqual → vle (inner_value (row c)) (inner_value v) → r = true) ∧
    (ct = kGreaterEqual → vle (inner_value v) (inner_value (row c)) → r = true).
Proof using Hcov Hrow.
  intros Hc Hs Hv Hct. destruct (column_filter c t Hc) as (mm & pf & m & bf & Hm & _ & Hmc & _ & [Hb _]).
  destruct (Hb Hs) as (min & max & -> & (Hmin & Hmax & Hall)). unfold MayInRange. rewrite Hm. cbn [deref_ptr res_bind]. rewrite Hmc. cbn [res_bind].
  unfold InnerMayInRange. rewrite bool_decide_eq_true_2 by (rewrite (proj1 Hmin); done). cbn [negb].
  assert (Hin : row c ∈ map (fun row => row c) rows) by (apply list_elem_of_fmap; by exists row).
  destruct Hct as [-> | ->]; eexists; (split; [reflexivity|]); (split; [intros Hct|intros Hct]; try discriminate Hct); intros Hle; destruct (vle_some _ _ Hle) as [H1 H2].
  - destruct (Hall _ Hin (order_key_inner _ H1)) as [Hlo _]. apply vge_holds; [rewrite inner_type, (proj1 Hmin); done|by eapply vle_trans].
  - destruct (Hall _ Hin (order_key_inner _ H2)) as [_ Hhi]. apply vle_holds; [rewrite inner_type, (proj1 Hmax); done|by eapply vle_trans].
Qed.

Lemma bloom_ok c t v k :
  is_column c t → ConvertValueToU64 v = Ok k →
  ∃ r, MayContain f query_ts c v = Ok r ∧ (ConvertValueToU64 (row c) = Ok k → r = true).
Proof using Hcov Hrow.
  intros Hc Hk. destruct (column_filter c t Hc) as (mm & pf & m & bf & _ & Hp & _ & Hbc & [_ Hb]).
  unfold MayContain. rewrite Hp. cbn [deref_ptr res_bind]. rewrite Hk. cbn [res_bind]. rewrite Hbc. cbn [res_bind]. eexists. split; [reflexivity|].
  intros Hr. unfold BinaryFuse_Contain. destruct (fuse_filter_ bf) as [g|]; [|done]. destruct (_ <? _); [|done].
  apply (Hb g eq_refl (row c)); [apply list_elem_of_fmap; by exists row|done].
Qed.

(** Equal values have one key. *)
Lemma equal_keys x v k :
  Value_type x = Value_type v → op_holds OpEqual (Value_compare x v) = true →
  (Value_type v = kVarchar → x = v) → ConvertValueToU64 v = Ok k → ConvertValueToU64 x = Ok k.
Proof.
  intros Ht Heq Hvc Hk. destruct (decide (Value_type v = kVarchar)) as [Hv|Hv]; [by rewrite (Hvc Hv)|].
  destruct x as [|p|t z|u l|t [|y]|s|t z|t d|t], v as [|p'|t' z'|u' l'|t' [|y']|s'|t' z'|t' d'|t']; try discriminate Heq; try discriminate Hk; try done;
    cbn [Value_compare fp_compare] in Heq; try (destruct (decide (t = t')); [|discriminate Heq]).
  - rewrite eq_holds in Heq. apply Z.eqb_eq in Heq as ->. done.
  - unfold then_compare in Heq. destruct (Z.compare_spec u u') as [->|?|?]; try discriminate Heq.
    destruct (Z.compare_spec l l') as [->|?|?]; try discriminate Heq. done.
  - rewrite eq_holds in Heq. apply Z.eqb_eq in Heq as ->. done.
  - unfold datetime_compare, then_compare in Heq. destruct d as [d1 t1], d' as [d2 t2]. cbn in Heq.
    destruct (Z.compare_spec d1 d2) as [->|?|?]; try discriminate Heq. destruct (Z.compare_spec t1 t2) as [->|?|?]; try discriminate Heq. done.
Qed.

(** ** Comparisons of a column with a constant *)

Definition ascii_value (v : Value) : Prop := match v with VVarchar s => ascii s | _ => True end.

Lemma ascii_other v : Value_type v ≠ kVarchar → ascii_value v.
Proof. by destruct v. Qed.

Context (special_column : Z → option Value).

Notation the_row := (table_row special_column row).

(** What a filter expression has to keep to, for this row: the column is one of the table, with a value
    that casts keep; the constant has the type of the column expression; varchars are ASCII and not
    compared by [>]; datetimes have a 32-bit epoch time. *)
Record compare_ok (col : Expr) (op : CompareOp) (c : Z) (v : Value) : Prop := {
  compare_column : is_column c (Value_type (row c));
  compare_value : column_value the_row col c (row c);
  compare_constant : value_ok v;
  compare_type : Value_type v = Expr_type col;
  compare_ordered : has_order (Value_type v) = true ∨ (op = OpEqual ∧ Value_type v = kBoolean);
  compare_varchar : Value_type v = kVarchar → op ≠ OpGreater ∧ ascii_value v ∧ ascii_value (row c);
  compare_epoch : op = OpEqual → Value_type v = kDateTime ∨ Value_type v = kTimestamp → convertible v;
}.

Lemma valid_column_type vc e c t : IsValidColumnExpression vc e = true → column_of e = Some (c, t) → vc c t = true.
Proof.
  induction e as [ci s t'|v|t' a IH|n t' args _|t'] using Expr_induction; try done; cbn [IsValidColumnExpression column_of].
  - intros [_ Hv]%andb_prop [= -> ->]. done.
  - intros [_ Hv]%andb_prop Hc. auto.
Qed.

(** A varchar column is not under a cast. *)
Lemma varchar_column vc e c t :
  IsValidColumnExpression vc e = true → Expr_type e = kVarchar → column_of e = Some (c, t) → e = ColumnExpression c false kVarchar.
Proof.
  destruct e as [ci s t'|v|t' a|n t' args|t']; try done; cbn [IsValidColumnExpression column_of Expr_type].
  - intros [Hs _]%andb_prop -> [= -> ->]. by destruct s.
  - intros [Hv _]%andb_prop ->. discriminate Hv.
Qed.

Lemma lex_eq a b : lex a b = Eq → a = b.
Proof.
  revert b; induction a as [|x a IH]; intros [|y b]; try done. cbn [lex_compare id].
  destruct (Z.compare_spec x y) as [->|?|?]; try done. intros Hl. by rewrite (IH b Hl).
Qed.

Lemma varchar_source vc e c : IsValidColumnExpression vc e = true → column_of e = Some (c, kVarchar) → Expr_type e = kVarchar.
Proof.
  induction e as [ci s t'|v|t' a IH|n t' args _|t'] using Expr_induction; try done; cbn [IsValidColumnExpression column_of Expr_type].
  - by intros _ [= _ ->].
  - intros [Hv Ha]%andb_prop Hc. rewrite (IH Ha Hc) in Hv. by destruct t'.
Qed.

(** The comparison of ASCII strings that the filter makes of [<], [<=] or [>=]. *)
Lemma varchar_unwind c s sx op r :
  op ≠ OpEqual → op ≠ OpGreater → ascii s → ascii sx →
  UnwindCast (ColumnExpression c false kVarchar) (VVarchar s) (op_compare_type op) = Ok r →
  (r = unwound_at kAlwaysFalse ∧ op_holds op (Value_compare (VVarchar sx) (VVarchar s)) = false) ∨
  ∃ s1 c1, r = (c, VVarchar s1, c1) ∧ (c1 = kLessEqual ∨ c1 = kGreaterEqual) ∧
    (op_holds op (Value_compare (VVarchar sx) (VVarchar s)) = true →
      (c1 = kLessEqual → lex_le (take INNER_STORED_LENGTH sx) (take INNER_STORED_LENGTH s1)) ∧
      (c1 = kGreaterEqual → lex_le (take INNER_STORED_LENGTH s1) (take INNER_STORED_LENGTH sx))).
Proof.
  intros He Hg Hs Hsx. cbn [Value_compare]. rewrite ascii_compare by done. cbn [UnwindCast].
  destruct op; try done; cbn [op_compare_type SimplifyCompareTypeAndValue RewriteCompare].
  - unfold RewriteCompareT_varchar. destruct (last s) as [back|] eqn:Hl; cbn [res_bind].
    2:{ apply last_None in Hl as ->. intros [= <-]. left. split; [done|]. by destruct sx. }
    apply last_Some in Hl as [front ->]. apply Forall_app in Hs as [Hf Hb]. apply Forall_cons in Hb as [Hb _].
    rewrite length_app, take_app_le by (cbn; lia). cbn [length]. rewrite Nat.add_sub, take_ge by lia.
    destruct (Z.eqb_spec back char_lowest); [unfold char_lowest in *; lia|]. intros [= <-]. right. eexists _, kLessEqual. split; [reflexivity|].
    split; [by left|]. intros Hh. split; [intros _|done]. apply (below_bound front back sx); try done. by destruct (lex sx (front ++ [back])).
  - cbn [res_bind]. intros [= <-]. right. eexists _, _. split; [reflexivity|]. split; [by left|]. intros Hh. split; [intros _|done].
    apply lex_le_take. unfold lex_le. by destruct (lex sx s).
  - cbn [res_bind]. intros [= <-]. right. eexists _, _. split; [reflexivity|]. split; [by right|]. intros Hh. split; [done|intros _].
    apply lex_le_take, lex_not_lt_le. by destruct (lex sx s).
Qed.

Lemma expr2_ok col val op c v ev :
  op ≠ OpEqual → IsValidColumnExpression (fun _ => SupportMinMaxFilter) col = true → CalcValueResult val = Ok v → compare_ok col op c v →
  SolveForExpr2 col val (op_compare_type op) = Ok ev →
  ∃ b, EvaluateInner ev query_ts f = Ok b ∧
    ∀ w, evaluate the_row col = Some w → op_holds op (Value_compare w v) = true → b = true.
Proof using Hcov Hrow.
  intros Hop Hvalid Hval [Hcol Hcv Hvok Htype _ Hvarchar _] Hsolve. pose proof (column_at _ _ _ _ Hcv) as (t & Hat & Htx).
  pose proof (valid_column_type _ _ _ _ Hvalid Hat) as Hsup. cbn beta in Hsup.
  unfold SolveForExpr2 in Hsolve. rewrite Hval in Hsolve. cbn [res_bind] in Hsolve.
  apply res_bind_ok in Hsolve as ([[c' v'] ct] & Hu & Hsolve).
  destruct (column_expression_value _ _ _ _ _ Hvalid Hcv) as (w & Hw & Htw & _).
  destruct (decide (Value_type v = kVarchar)) as [Hk|Hk].
  - destruct (Hvarchar Hk) as (Hng & Hav & Hax). rewrite Htype in Hk. assert (col = ColumnExpression c false kVarchar) as -> by (by eapply varchar_column).
    assert (t = kVarchar) as -> by (cbn in Hat; congruence). destruct (value_varchar v Hvok Htype) as [s ->].
    destruct (value_varchar (row c) (column_ok _ _ _ _ Hcv) Htx) as [sx Hx]. rewrite Hx in *. cbn [ascii_value] in *.
    destruct (varchar_unwind c s sx op _ Hop Hng Hav Hax Hu) as [[[= -> -> ->] Hf]|(s1 & c1 & [= -> -> ->] & Hc1 & Hle)].
    { injection Hsolve as <-. exists false. split; [done|]. intros w' Hw' Hh. cbn in Hw'. rewrite Hx in Hw'. injection Hw' as <-. congruence. }
    assert (ev = MinMaxEvaluator c (VVarchar s1) c1) as -> by (destruct Hc1 as [-> | ->]; congruence).
    cbn [EvaluateInner]. destruct (range_ok c kVarchar (VVarchar s1) c1 Hcol Hsup eq_refl Hc1) as (b & Hb & Hb1 & Hb2).
    exists b. split; [done|]. intros w' Hw' Hh. cbn in Hw'. rewrite Hx in Hw', Hb1, Hb2. injection Hw' as <-. destruct (Hle Hh) as [L1 L2].
    destruct Hc1 as [-> | ->]; [apply Hb1|apply Hb2]; try done; eexists _, _; (split; [reflexivity|]); (split; [reflexivity|]); auto.
  - destruct (unwind_ok _ _ _ c (row c) w v _ _ Hvalid Hcv Hw Hvok Htype ltac:(done) Hu) as (Hdec & Himp & _). rewrite op_unwound in Himp.
    destruct Hdec as [Hd|(Hsimple & -> & Hvok' & Htv')].
    + destruct Hd as [-> | ->]; injection Hsolve as <-; eexists; (split; [reflexivity|]); [|done].
      intros w' Hw' Hh. assert (w' = w) as -> by congruence. by apply Himp in Hh.
    + assert (Hct : ct = kLessEqual ∨ ct = kGreaterEqual) by (destruct Hsimple as [-> |[-> | ->]]; auto; discriminate Hsolve).
      assert (ev = MinMaxEvaluator c v' ct) as -> by (destruct Hct as [-> | ->]; congruence). cbn [EvaluateInner].
      destruct (range_ok c _ v' ct Hcol ltac:(congruence) ltac:(congruence) Hct) as (b & Hb & Hb1 & Hb2).
      exists b. split; [done|]. intros w' Hw' Hh. assert (w' = w) as -> by congruence. specialize (Himp Hh).
      assert (Hnv : Value_type (row c) ≠ kVarchar).
      { intros Hnv. apply Hk. rewrite Htype. apply (varchar_source _ _ c Hvalid). by rewrite Hat, <- Htx, Hnv. }
      destruct Hct as [-> | ->]; [apply Hb1|apply Hb2]; try done; apply inner_mono; try congruence; [by apply le_vle|by apply ge_vle].
Qed.

(** *** Equality *)

Definition equal_evaluator (c : Z) (v : Value) : FastRoughFilterEvaluator :=
  let range := CombineAnd (MinMaxEvaluator c v kLessEqual) (MinMaxEvaluator c v kGreaterEqual) in
  match Value_type v with
  | kBoolean | kDecimal => ProbabilisticEvaluator c v
  | kFloat | kDouble => range
  | _ => CombineAnd range (ProbabilisticEvaluator c v)
  end.

Lemma has_order_min_max t : has_order t = SupportMinMaxFilter t.
Proof. by destruct t. Qed.

(** What [=] says of values with an order, and of booleans. *)
Definition equal_values (x v : Value) : bool :=
  match x, v with VBoolean a, VBoolean b => Bool.eqb a b | _, _ => op_holds OpEqual (Value_compare x v) end.

Lemma equal_values_order x v : has_order (Value_type v) = true → equal_values x v = op_holds OpEqual (Value_compare x v).
Proof. by destruct v, x. Qed.

Lemma equal_values_key x v k :
  Value_type v = Value_type x → ascii_value x → ascii_value v → equal_values x v = true →
  ConvertValueToU64 v = Ok k → ConvertValueToU64 x = Ok k.
Proof using Library.
  intros Ht Hx Hv Heq Hk. destruct x as [|p|t z|u l|t y|s|t z|t d|t]; try (by apply (equal_keys _ v); try done; intros Hvc; rewrite Hvc in Ht; try destruct t).
  - destruct v as [|p'| | | | | | |]; try discriminate Heq. apply Bool.eqb_prop in Heq as ->. done.
  - destruct v as [| | | | |s'| | |]; try discriminate Heq. cbn in Heq, Hx, Hv. rewrite ascii_compare in Heq by done.
    destruct (lex s s') eqn:Hl; try done. by apply lex_eq in Hl as ->.
Qed.

Lemma range_equal c t v :
  is_column c t → t = Value_type (row c) → Value_type v = t → has_order t = true →
  ∃ b, EvaluateInner (CombineAnd (MinMaxEvaluator c v kLessEqual) (MinMaxEvaluator c v kGreaterEqual)) query_ts f = Ok b ∧
    (ascii_value (row c) → ascii_value v → op_holds OpEqual (Value_compare (row c) v) = true → b = true).
Proof using Hcov Hrow.
  intros Hc Ht Hv Ho. rewrite has_order_min_max in Ho. cbn [EvaluateInner].
  destruct (range_ok c t v kLessEqual Hc Ho Hv (or_introl eq_refl)) as (b1 & -> & H1 & _).
  destruct (range_ok c t v kGreaterEqual Hc Ho Hv (or_intror eq_refl)) as (b2 & -> & _ & H2). cbn [res_bind].
  exists (if b1 then b2 else false). split; [by destruct b1|]. intros Hax Hav Heq.
  assert (vle (row c) v ∧ vle v (row c)) as [L1 L2].
  { destruct (decide (Value_type (row c) = kVarchar)) as [Hk|Hk]; [|apply eq_vle; congruence].
    destruct (row c) as [|p|t0 z|u l|t0 y|sx|t0 z|t0 d|t0] eqn:Hx; try discriminate Hk; try discriminate Heq; try (destruct t0; discriminate Hk).
    destruct v as [|p|t0 z|u l|t0 y|s|t0 z|t0 d|t0]; try discriminate Heq. cbn [Value_compare] in Heq. rewrite ascii_compare in Heq by done.
    destruct (lex sx s) eqn:Hl; try done. apply lex_eq in Hl as ->. split; apply vle_refl; by eexists. }
  rewrite H1, H2 by (try done; apply inner_mono; congruence). done.
Qed.

Lemma convertible_ok v :
  value_ok v → has_order (Value_type v) = true ∨ Value_type v = kBoolean → Value_type v ≠ kFloat → Value_type v ≠ kDouble →
  (Value_type v = kDateTime ∨ Value_type v = kTimestamp → convertible v) → convertible v.
Proof using Library.
  intros Hok Ho Hf Hd He. destruct v as [|p|t z|u l|t y|s|t z|t d|t]; try (by eexists); cbn in *.
  - by destruct Ho.
  - by destruct t.
  - apply He. destruct t; auto.
  - destruct Hok as (Hno & Hnb & _). destruct Ho; congruence.
Qed.

(** The evaluator of [=] on the column itself. *)
Lemma equal_ok c v :
  is_column c (Value_type (row c)) → Value_type v = Value_type (row c) → value_ok v →
  has_order (Value_type v) = true ∨ Value_type v = kBoolean →
  (Value_type v = kDateTime ∨ Value_type v = kTimestamp → convertible v) →
  ∃ b, EvaluateInner (equal_evaluator c v) query_ts f = Ok b ∧
    (ascii_value (row c) → ascii_value v → equal_values (row c) v = true → b = true).
Proof using Hcov Hrow.
  clear special_column. intros Hc Ht Hok Ho He. set (range := CombineAnd (MinMaxEvaluator c v kLessEqual) (MinMaxEvaluator c v kGreaterEqual)).
  assert (Hbloom : convertible v → ∃ b, EvaluateInner (ProbabilisticEvaluator c v) query_ts f = Ok b ∧
    (ascii_value (row c) → ascii_value v → equal_values (row c) v = true → b = true)).
  { intros [k Hk]. destruct (bloom_ok c _ v k Hc Hk) as (b & Hb & Himp). exists b. split; [done|]. intros Hax Hav Heq. apply Himp.
    by apply (equal_values_key _ v). }
  destruct Ho as [Ho|Hb]; [|unfold equal_evaluator; rewrite Hb; apply Hbloom, convertible_ok; rewrite ?Hb; auto; naive_solver].
  destruct (range_equal c _ v Hc eq_refl Ht ltac:(congruence)) as (b & Hr & Himp). fold range in Hr.
  destruct (decide (Value_type v = kFloat ∨ Value_type v = kDouble)) as [Hfl|Hfl].
  - exists b. rewrite equal_values_order by done. split; [|done]. unfold equal_evaluator. by destruct Hfl as [-> | ->].
  - destruct Hbloom as (b2 & Hr2 & Himp2); [apply convertible_ok; auto|]. exists (if b then b2 else false). split.
    + unfold equal_evaluator. fold range. destruct (Value_type v); try discriminate Ho; try (exfalso; tauto);
        cbn [EvaluateInner] in *; rewrite Hr; cbn [res_bind]; by destruct b.
    + intros Hax Hav Heq. rewrite Himp2, Himp by (try done; by rewrite <- equal_values_order). done.
Qed.

(** Under a cast there is a number. *)
Lemma cast_source vc t a c t' :
  IsValidColumnExpression vc (CastExpression t a) = true → column_of a = Some (c, t') →
  has_order t' = true ∧ t' ≠ kVarchar ∧ t' ≠ kDateTime ∧ t' ≠ kTimestamp.
Proof using.
  revert t. induction a as [ci s ty|v|ty a IH|n ty args _|ty] using Expr_induction; intros t; try done.
  - cbn [IsValidColumnExpression column_of Expr_type]. intros [Hv _]%andb_prop [= -> ->]. by destruct t, t'.
  - intros Hv Hc. cbn [IsValidColumnExpression] in Hv. apply andb_prop in Hv as [_ Hv]. by apply (IH ty).
Qed.

Lemma solve_equal val col v c' v' ct ev :
  CalcValueResult val = Ok v → UnwindCast col v kEqual = Ok (c', v', ct) → SolveForExpr1 col val = Ok ev →
  (ct = kEqual ∧ ev = equal_evaluator c' v') ∨ (ct = kAlwaysFalse ∧ ev = EvaluatorFalse) ∨
  ((ct = kAlwaysTrue ∨ ct = kInvalidCompare) ∧ ev = EvaluatorTrue).
Proof using.
  intros Hval Hu. unfold SolveForExpr1. rewrite Hval. cbn [res_bind]. rewrite Hu. cbn [res_bind]. unfold equal_evaluator.
  destruct ct; try done; intros Hs; [left|right; left|right; right|right; right]; try (by injection Hs as <-; auto).
  split; [done|]. by destruct (Value_type v'); injection Hs as <-.
Qed.

Definition equal_column (_ : Z) (t : LogicalType) : bool := SupportBloomFilter t || SupportMinMaxFilter t.

Lemma expr1_ok col val c v ev :
  IsValidColumnExpression equal_column col = true → CalcValueResult val = Ok v → compare_ok col OpEqual c v →
  SolveForExpr1 col val = Ok ev →
  ∃ b, EvaluateInner ev query_ts f = Ok b ∧ ∀ w, evaluate the_row col = Some w → equal_values w v = true → b = true.
Proof using Hcov Hrow.
  intros Hvalid Hval [Hcol Hcv Hvok Htype Hord Hvarchar Hepoch] Hsolve. pose proof (column_at _ _ _ _ Hcv) as (t & Hat & Htx).
  assert (Hord' : has_order (Value_type v) = true ∨ Value_type v = kBoolean) by tauto.
  destruct col as [ci s t0|v0|t0 a|n t0 args|t0]; try done.
  - injection Hat as -> ->. cbn [IsValidColumnExpression] in Hvalid. destruct s; [done|]. cbn [Expr_type] in Htype.
    destruct (solve_equal val (ColumnExpression c false t) v c v kEqual ev Hval eq_refl Hsolve) as [[_ ->]|[[? _]|[[?|?] _]]]; try done.
    destruct (equal_ok c v Hcol ltac:(congruence) Hvok Hord' (Hepoch eq_refl)) as (b & Hb & Himp). exists b. split; [done|].
    intros w [= <-] Heq. destruct (decide (Value_type v = kVarchar)) as [Hk|Hk].
    + destruct (Hvarchar Hk) as (_ & ? & ?). auto.
    + apply Himp; [apply ascii_other; congruence|by apply ascii_other|done].
  - destruct (cast_source _ _ _ _ _ Hvalid Hat) as (Ho & Hnv & Hnd & Hnt). rewrite <- Htx in *.
    destruct (column_expression_value _ _ _ _ _ Hvalid Hcv) as (w & Hw & Htw & _).
    destruct (UnwindCast (CastExpression t0 a) v kEqual) as [[[c' v'] ct]|] eqn:Hu.
    2:{ unfold SolveForExpr1 in Hsolve. rewrite Hval in Hsolve. cbn [res_bind] in Hsolve. by rewrite Hu in Hsolve. }
    destruct (unwind_ok _ _ _ c (row c) w v kEqual _ Hvalid Hcv Hw Hvok Htype ltac:(by split) Hu) as (Hdec & Himp & _).
    assert (Hvo : has_order (Value_type v) = true).
    { rewrite Htype. cbn [IsValidColumnExpression] in Hvalid. apply andb_prop in Hvalid as [Hvalid _]. by destruct t0. }
    destruct (solve_equal val _ v _ _ _ ev Hval Hu Hsolve) as [[-> ->]|[[-> ->]|[_ ->]]]; [|exists false|by exists true].
    + destruct Hdec as [[?|?]|(_ & -> & Hvok' & Htv')]; try done.
      destruct (equal_ok c v' Hcol Htv' Hvok') as (b & Hb & Hb'); [left; congruence|intros [?|?]; congruence|].
      exists b. split; [done|]. intros w' Hw' Heq. assert (w' = w) as -> by congruence. rewrite equal_values_order in Heq by done.
      apply Hb'; [apply ascii_other|apply ascii_other|rewrite equal_values_order; [by apply Himp|]]; congruence.
    + split; [done|]. intros w' Hw' Heq. assert (w' = w) as -> by congruence. rewrite equal_values_order in Heq by done. by apply Himp in Heq.
Qed.

(** ** Expressions *)

(** Which columns a comparison may be pushed down for. *)
Definition compare_column_type (op : CompareOp) : Z → LogicalType → bool :=
  match op with OpEqual => equal_column | _ => fun _ => SupportMinMaxFilter end.

Definition side_ok (col : Expr) (op : CompareOp) (val : Expr) : Prop :=
  IsValidColumnExpression (compare_column_type op) col = true → IsValueResultExpression val = true →
  ∀ v, CalcValueResult val = Ok v → ∃ c, compare_ok col op c v.

(** Every comparison of a column with a constant that counts keeps to [compare_ok]. *)
Fixpoint filter_ok (e : Expr) : Prop :=
  match e with
  | FunctionExpression f_name _ args =>
      if String.eqb f_name "AND" || String.eqb f_name "OR" then
        match args with a :: b :: _ => filter_ok a ∧ filter_ok b | _ => True end
      else
        match compare_op f_name, args with
        | Some op, [l; r] => side_ok l op r ∧ side_ok r (op_reverse op) l
        | _, _ => True
        end
  | _ => True
  end.

Definition compare_holds (op : CompareOp) (w v : Value) : bool :=
  match op with OpEqual => equal_values w v | _ => op_holds op (Value_compare w v) end.

Lemma compare_holds_reverse op w v : compare_holds (op_reverse op) w v = compare_holds op v w.
Proof using.
  pose proof (op_reverse_holds op v w) as Hr. destruct op; try exact Hr. cbn [compare_holds op_reverse equal_values] in *. unfold equal_values.
  destruct w as [|[]| | | | | | |], v as [|[]| | | | | | |]; try exact Hr; reflexivity.
Qed.

(** Constants do not look at the row. *)
Lemma value_result_row row1 row2 e : IsValueResultExpression e = true → evaluate row1 e = evaluate row2 e.
Proof using.
  induction e as [c s t|v|t a IH|n t args IH|t] using Expr_induction; try done; cbn [IsValueResultExpression evaluate].
  - intros Ha. by rewrite (IH Ha).
  - intros Ha. assert (map (evaluate row1) args = map (evaluate row2) args) as ->; [|done].
    induction IH as [|a args Hx _ IH]; [done|]. cbn [forallb map] in *. apply andb_prop in Ha as [H1 H2]. by rewrite Hx, IH.
Qed.

Lemma calc_value val v w : IsValueResultExpression val = true → CalcValueResult val = Ok v → evaluate the_row val = Some w → w = v.
Proof using.
  intros Hv Hc. rewrite (value_result_row _ no_row) by done. destruct val; cbn [CalcValueResult evaluate] in *; try congruence;
    try (by destruct (evaluate no_row _) eqn:?; congruence).
  all: case_match; congruence.
Qed.

(** Values that the functions compare. *)
Definition comparable (op : CompareOp) (w u : Value) : Prop :=
  value_ok w ∧ value_ok u ∧ Value_type w = Value_type u ∧ (has_order (Value_type u) = true ∨ (op = OpEqual ∧ Value_type u = kBoolean)).

Lemma comparable_reverse op w u : comparable op w u → comparable (op_reverse op) u w.
Proof using. intros (Hw & Hu & Ht & Ho). split; [done|]. split; [done|]. split; [done|]. rewrite Ht. destruct Ho as [?|[-> ?]]; auto. Qed.

Lemma value_boolean v : value_ok v → Value_type v = kBoolean → ∃ p, v = VBoolean p.
Proof using. intros Hok Ht. destruct v as [|p|[]| |[]| |[]|[]|t]; try done; [by exists p|]. by destruct Hok as (_ & ? & _). Qed.

Lemma compare_true name op t l r :
  compare_op name = Some op → evaluate the_row (FunctionExpression name t [l; r]) = Some (VBoolean true) →
  ∃ w u, evaluate the_row l = Some w ∧ evaluate the_row r = Some u ∧ (comparable op w u → compare_holds op w u = true).
Proof using.
  intros Hop He. destruct (compare_op_name _ _ Hop) as (H1 & H2 & H3). cbn [evaluate map all_some] in He.
  destruct (evaluate the_row l) as [w|]; [|done]. destruct (evaluate the_row r) as [u|]; [|done]. exists w, u. split; [done|]. split; [done|].
  intros (Hw & Hu & Ht & Ho). unfold apply_function in He. rewrite H1, H2, H3, Hop, decide_True, Ht in He by done. destruct Ho as [Ho|[-> Hb]].
  - rewrite Ho in He. injection He as He. destruct op; try done. by rewrite <- equal_values_order in He.
  - destruct (value_boolean u Hu Hb) as [q ->]. destruct (value_boolean w Hw Ht) as [p ->]. cbn in He. by injection He.
Qed.

Lemma and_true t a b args :
  evaluate the_row (FunctionExpression "AND" t (a :: b :: args)) = Some (VBoolean true) →
  evaluate the_row a = Some (VBoolean true) ∧ evaluate the_row b = Some (VBoolean true).
Proof using.
  cbn [evaluate map all_some]. destruct (evaluate the_row a) as [[|[]| | | | | | |]|], (evaluate the_row b) as [[|[]| | | | | | |]|]; try done;
    destruct (all_some (map _ args)) as [[|? ?]|]; done.
Qed.

Lemma or_true t a b args :
  evaluate the_row (FunctionExpression "OR" t (a :: b :: args)) = Some (VBoolean true) →
  evaluate the_row a = Some (VBoolean true) ∨ evaluate the_row b = Some (VBoolean true).
Proof using.
  cbn [evaluate map all_some]. destruct (evaluate the_row a) as [[|[]| | | | | | |]|], (evaluate the_row b) as [[|[]| | | | | | |]|]; auto; try done;
    destruct (all_some (map _ args)) as [[|? ?]|]; done.
Qed.

Lemma compare_side col op val v ev :
  IsValidColumnExpression (compare_column_type op) col = true → IsValueResultExpression val = true → side_ok col op val →
  CalcValueResult val = Ok v →
  (if decide (op = OpEqual) then SolveForExpr1 col val else SolveForExpr2 col val (op_compare_type op)) = Ok ev →
  ∃ b, EvaluateInner ev query_ts f = Ok b ∧
    ∀ w u, evaluate the_row col = Some w → evaluate the_row val = Some u → comparable op w u ∧ (compare_holds op w u = true → b = true).
Proof using Hcov Hrow.
  intros Hvalid Hvr Hok Hval Hsolve. destruct (Hok Hvalid Hvr v Hval) as [c Hc].
  assert (∃ b, EvaluateInner ev query_ts f = Ok b ∧ ∀ w, evaluate the_row col = Some w → compare_holds op w v = true → b = true) as (b & Hb & Himp).
  { destruct (decide (op = OpEqual)) as [->|Hne]; [by apply (expr1_ok col val c v)|].
    apply (expr2_ok col val op c v ev Hne) in Hsolve as (b & Hb & Himp); try done; [|by destruct op].
    exists b. split; [done|]. intros w Hw Hh. apply (Himp w Hw). by destruct op. }
  exists b. split; [done|]. intros w u Hw Hu. rewrite (calc_value _ _ _ Hvr Hval Hu). split; [|by apply Himp].
  destruct Hc as [_ Hcv Hvok Htype Hord _ _]. destruct (column_expression_value _ _ _ _ _ Hvalid Hcv) as (w' & Hw' & Htw & Hwok & _).
  assert (w' = w) as -> by congruence. split; [done|]. split; [done|]. split; [congruence|done].
Qed.

Definition solve_side (col : Expr) (op : CompareOp) (val : Expr) : result FastRoughFilterEvaluator :=
  if decide (op = OpEqual) then SolveForExpr1 col val else SolveForExpr2 col val (op_compare_type op).

Lemma solve_side_value col op val ev : solve_side col op val = Ok ev → ∃ v, CalcValueResult val = Ok v.
Proof using.
  unfold solve_side, SolveForExpr1, SolveForExpr2. destruct (decide _); intros (v & Hv & _)%res_bind_ok; by exists v.
Qed.

(** A comparison, whichever side its column is on. *)
Lemma compare_sound name op t args ev :
  compare_op name = Some op → filter_ok (FunctionExpression name t args) →
  SolveForFastRoughFilter (FunctionExpression name t args) = Ok ev →
  ∃ b, EvaluateInner ev query_ts f = Ok b ∧
    (evaluate the_row (FunctionExpression name t args) = Some (VBoolean true) → b = true).
Proof using Hcov Hrow.
  intros Hop Hok Hs. destruct (compare_op_name _ _ Hop) as (H1 & H2 & _). cbn [filter_ok SolveForFastRoughFilter] in Hok, Hs.
  rewrite H1, H2, Hop in Hok, Hs. cbn [orb] in Hok.
  assert (Hs' : solve_compare (compare_column_type op 0) args (fun col val => solve_side col op val) (fun col val => solve_side col (op_reverse op) val) = Ok ev).
  { destruct op; exact Hs. }
  clear Hs. unfold solve_compare, HaveLeftColumnAndRightValue, HaveRightColumnAndLeftValue in Hs'.
  destruct args as [|l [|r [|? ?]]]; try done. destruct Hok as [Hl Hr]. cbn [res_bind] in Hs'.
  replace (fun _ : Z => compare_column_type op 0) with (compare_column_type op) in Hs' by (by destruct op).
  destruct (IsValidColumnExpression (compare_column_type op) l && IsValueResultExpression r) eqn:Hlr; [|destruct (_ && _) eqn:Hrl in Hs'].
  - apply andb_prop in Hlr as [Hlv Hrv]. destruct (solve_side_value _ _ _ _ Hs') as [v Hv].
    destruct (compare_side l op r v ev Hlv Hrv Hl Hv Hs') as (b & Hb & Himp). exists b. split; [done|].
    intros He. destruct (compare_true _ _ _ _ _ Hop He) as (w & u & Hw & Hu & Hh). destruct (Himp w u Hw Hu). auto.
  - apply andb_prop in Hrl as [Hrv Hlv]. destruct (solve_side_value _ _ _ _ Hs') as [v Hv].
    replace (compare_column_type op) with (compare_column_type (op_reverse op)) in Hrv by (by destruct op).
    destruct (compare_side r (op_reverse op) l v ev Hrv Hlv Hr Hv Hs') as (b & Hb & Himp). exists b. split; [done|].
    intros He. destruct (compare_true _ _ _ _ _ Hop He) as (w & u & Hw & Hu & Hh). destruct (Himp u w Hu Hw) as [Hc Hb'].
    apply Hb'. rewrite compare_holds_reverse. apply Hh. apply comparable_reverse in Hc. by destruct op.
  - injection Hs' as <-. by exists true.
Qed.

(** An expression that is a constant. *)
Lemma return_value_sound e ev :
  IsValueResultExpression e = true → ReturnValue e = Ok ev →
  ∃ b, EvaluateInner ev query_ts f = Ok b ∧ (evaluate the_row e = Some (VBoolean true) → b = true).
Proof using.
  intros Hv (v & Hc & Hr)%res_bind_ok. assert (ev = EvaluatorTrue ∨ (ev = EvaluatorFalse ∧ v = VBoolean false)) as [->|[-> ->]].
  { destruct v as [|[]| | | | | | |]; injection Hr as <-; auto. }
  - by exists true.
  - exists false. split; [done|]. intros He. discriminate (calc_value _ _ _ Hv Hc He).
Qed.

(** No row that satisfies the expression is filtered out. *)
Lemma evaluator_sound e : ∀ ev,
  filter_ok e → SolveForFastRoughFilter e = Ok ev →
  ∃ b, EvaluateInner ev query_ts f = Ok b ∧ (evaluate the_row e = Some (VBoolean true) → b = true).
Proof using Hcov Hrow.
  induction e as [c s t|v|t a _|n t args IH|t] using Expr_induction; intros ev Hok Hs;
    try (injection Hs as <-; by exists true); [by apply return_value_sound|].
  destruct (compare_op n) as [op|] eqn:Hop; [by apply (compare_sound n op)|].
  cbn [filter_ok SolveForFastRoughFilter] in Hok, Hs.
  destruct (String.eqb_spec n "AND") as [->|Hand]; [|destruct (String.eqb_spec n "OR") as [->|Hor]]; cbn [orb] in Hok.
  - destruct args as [|a [|b args]]; try done. apply Forall_cons in IH as [IHa IH]. apply Forall_cons in IH as [IHb _].
    apply res_bind_ok in Hs as (l & Hl & Hs). apply res_bind_ok in Hs as (r & Hr & [= <-]). destruct Hok as [Ha Hb].
    destruct (IHa l Ha Hl) as (bl & El & Hbl). destruct (IHb r Hb Hr) as (br & Er & Hbr). cbn [EvaluateInner]. rewrite El. cbn [res_bind].
    exists (if bl then br else false). split; [by destruct bl|]. intros [H1 H2]%and_true. by rewrite Hbl, Hbr.
  - destruct args as [|a [|b args]]; try done. apply Forall_cons in IH as [IHa IH]. apply Forall_cons in IH as [IHb _].
    apply res_bind_ok in Hs as (l & Hl & Hs). apply res_bind_ok in Hs as (r & Hr & [= <-]). destruct Hok as [Ha Hb].
    destruct (IHa l Ha Hl) as (bl & El & Hbl). destruct (IHb r Hb Hr) as (br & Er & Hbr). cbn [EvaluateInner]. rewrite El. cbn [res_bind].
    exists (if bl then true else br). split; [by destruct bl|]. intros [H1|H2]%or_true; [by rewrite Hbl|destruct bl; auto].
  - rewrite Hop in Hs. destruct (IsValueResultExpression _) eqn:Hv in Hs; [by apply return_value_sound|]. injection Hs as <-. by exists true.
Qed.
End Sound.

(** ** The rows of a segment that is being sealed *)

Definition is_delete (e : Z * row_op) : Prop := match e.2 with RowDelete _ => True | RowAppend _ => False end.

(** Rows are only deleted after [ts]. *)
Definition appended_by (ts : Z) (events : list (Z * row_op)) : Prop := Forall (fun e => is_delete e ∨ e.1 ≤ ts) events.

Lemma alive_sub s s' r : total s' = total s → dead s ⊆ dead s' → alive s' r = true → alive s r = true.
Proof.
  intros Ht Hd. unfold alive. rewrite Ht. intros [Hr Hdead%bool_decide_eq_true]%andb_prop. rewrite Hr. cbn [andb].
  apply bool_decide_eq_true. set_solver.
Qed.

Lemma total_later capacity ts events later :
  Forall is_delete later → total (rows_at capacity ts (events ++ later)) = total (rows_at capacity ts events).
Proof.
  induction later as [|[c op] later IH] using rev_ind; [by rewrite app_nil_r|]. intros [Hl Hop]%Forall_app.
  apply Forall_cons in Hop as [Hop _]. rewrite app_assoc, rows_at_snoc, <- (IH Hl). destruct op; [done|]. by destruct (decide (c ≤ ts)).
Qed.

Lemma rows_later capacity ts query_ts events : ∀ later,
  ts ≤ query_ts → appended_by ts events → Forall is_delete later →
  total (rows_at capacity query_ts (events ++ later)) = total (rows_at capacity ts events) ∧
  dead (rows_at capacity ts events) ⊆ dead (rows_at capacity query_ts (events ++ later)).
Proof.
  intros later Hts He Hl. induction later as [|[c op] later IH] using rev_ind.
  - rewrite app_nil_r. clear Hl. induction events as [|[c op] events IH] using rev_ind; [done|].
    apply Forall_app in He as [He Hop]. apply Forall_cons in Hop as [Hop _]. destruct (IH He) as [Ht Hd]. rewrite !rows_at_snoc.
    destruct op as [n|rows]; cbn in Hop; [destruct Hop as [[]|Hop]; rewrite !decide_True by lia; cbn; by rewrite Ht|].
    destruct (decide (c ≤ query_ts)), (decide (c ≤ ts)); cbn; try lia; split; try done; set_solver.
  - apply Forall_app in Hl as [Hl Hop]. apply Forall_cons in Hop as [Hop _]. destruct (IH Hl) as [Ht Hd]. rewrite app_assoc, rows_at_snoc.
    destruct op as [n|rows]; [done|]. destruct (decide (c ≤ query_ts)); cbn; split; try done; set_solver.
Qed.

Section Segment.
Context {Library : FilterLibrary} {Laws : FilterLaws} {Total : FilterTotal} {Store : ColumnStore} {Functions : FunctionLibrary}.
Context (unsealed : bool) (ts query_ts : Z).

(** What the task needs of a block: rows with values of the types of the columns, and when versions
    count, what they say. *)
Record block_ok (columns : list (LogicalType * bool)) (b : FilterBlock) : Prop := {
  block_versions : unsealed = true → ∃ events, block_inv (block_entry_ b) events (max_row_ts_ (block_entry_ b));
  block_counted : 0 ≤ block_row_count_ (block_entry_ b);
  block_typed : ∀ r i t w, 0 ≤ r < block_row_count_ (block_entry_ b) → columns !! i = Some (t, w) →
    Value_type (column_value_ b (Z.of_nat i) r) = t ∧ ((wants (t, w)).2 = true → convertible (column_value_ b (Z.of_nat i) r));
}.

(** A row that a query can see: versions hide it or not, and after the task rows were only deleted. *)
Definition visible_row (b : FilterBlock) (r : Z) : Prop :=
  if unsealed then
    ∃ events later, block_inv (block_entry_ b) events (max_row_ts_ (block_entry_ b)) ∧ appended_by ts events ∧ Forall is_delete later ∧
      alive (rows_at (row_capacity_ (block_entry_ b)) query_ts (events ++ later)) r = true
  else 0 ≤ r < block_row_count_ (block_entry_ b).

Definition row_at (b : FilterBlock) (r : Z) : Z → Value := fun c => column_value_ b c r.

Lemma visible_counted b r : visible_row b r → block_row_count_ (block_entry_ b) ≠ 0.
Proof using.
  unfold visible_row. destruct unsealed; [|lia]. intros (events & later & Hinv & _ & Hdel & Halive).
  pose proof (inv_range _ _ _ Hinv query_ts). pose proof (total_later (row_capacity_ (block_entry_ b)) query_ts events later Hdel).
  unfold alive in Halive. lia.
Qed.

Lemma rows_at_min b events bound t :
  block_inv b events bound → rows_at (row_capacity_ b) (Z.min t bound) events = rows_at (row_capacity_ b) t events.
Proof using.
  intros Hinv. destruct (Z.min_spec t bound) as [[_ ->]|[Hle ->]]; [done|]. symmetry. apply rows_at_after; [by eapply inv_events|done].
Qed.

Lemma offsets_ok columns b :
  block_ok columns b →
  ∃ offsets, column_offsets unsealed (block_entry_ b) ts = Ok offsets ∧ zlen offsets ≤ block_row_count_ (block_entry_ b) ∧
    Forall (fun r => 0 ≤ r < block_row_count_ (block_entry_ b)) offsets ∧
    (ts ≤ query_ts → ∀ r, visible_row b r → r ∈ offsets).
Proof using.
  intros [Hv Hcnt _]. unfold visible_row. destruct unsealed.
  - destruct (Hv eq_refl) as [events Hinv]. pose proof (column_offsets_visible _ events _ ts Hinv) as Hoff. eexists. split; [exact Hoff|].
    pose proof (inv_range _ _ _ Hinv (Z.min ts (max_row_ts_ (block_entry_ b)))) as Hr. split; [|split].
    + unfold zlen. etrans; [apply inj_le, length_filter|]. rewrite length_seqZ. lia.
    + apply Forall_forall. intros r [_ Hin%elem_of_seqZ]%list_elem_of_filter. lia.
    + intros Hts r (events' & later & Hinv' & Happ & Hdel & Halive). rewrite (column_offsets_visible _ events' _ ts Hinv') in Hoff.
      injection Hoff as <-. rewrite (rows_at_min _ _ _ _ Hinv'). destruct (rows_later (row_capacity_ (block_entry_ b)) ts query_ts events' later Hts Happ Hdel).
      assert (Hal : alive (rows_at (row_capacity_ (block_entry_ b)) ts events') r = true) by (by eapply alive_sub).
      apply list_elem_of_filter. split; [done|]. apply elem_of_seqZ. unfold alive in Hal. lia.
  - eexists. split; [reflexivity|]. split; [unfold zlen; rewrite length_seqZ; lia|]. split.
    + apply Forall_forall. intros r Hin%elem_of_seqZ. lia.
    + intros _ r Hr. apply elem_of_seqZ. lia.
Qed.

Lemma block_ok_ready columns b :
  block_ok columns b →
  block_ready columns unsealed ts b ∧ zlen (rows_of unsealed ts b) ≤ block_row_count_ (block_entry_ b) ∧
  (ts ≤ query_ts → ∀ r, visible_row b r → row_at b r ∈ rows_of unsealed ts b).
Proof using.
  intros Hok. destruct (offsets_ok columns b Hok) as (offsets & Hoff & Hlen & Hrange & Hvis). unfold block_ready, rows_of. rewrite Hoff.
  split; [split|split].
  - exists offsets. split; [done|]. intros Hz. rewrite Hz in Hlen. destruct offsets; [done|]. rewrite zlen_cons in Hlen. pose proof (zlen_nonneg offsets). lia.
  - intros row i t w (o & -> & Ho)%list_elem_of_fmap Hi. rewrite Forall_forall in Hrange. by apply (block_typed _ _ Hok o i t w (Hrange o Ho)).
  - unfold zlen in *. by rewrite length_map.
  - intros Hts r Hr. apply list_elem_of_fmap. exists r. auto.
Qed.

Definition segment_total (s : FilterSegment) : Z :=
  foldr Z.add 0 (map (fun b => block_row_count_ (block_entry_ b)) (segment_blocks_ s)).

Lemma segment_rows_total s :
  Forall (block_ok (segment_columns_ s)) (segment_blocks_ s) → zlen (segment_rows unsealed ts s) ≤ segment_total s.
Proof.
  unfold segment_rows, segment_total. induction 1 as [|b blocks Hb _ IH]; [done|]. cbn [map concat foldr]. rewrite zlen_app.
  destruct (block_ok_ready _ _ Hb) as (_ & Hlen & _). lia.
Qed.

(** A filter that covers a row lets it through. *)
Lemma covers_evaluate columns rows f row special e ev :
  covers columns ts rows f → (ts ≤ query_ts → row ∈ rows) → PushDownToFastRoughFilter (Some e) = Ok ev →
  filter_ok columns row special e → evaluate (table_row special row) e = Some (VBoolean true) →
  Evaluate ev query_ts f = Ok true.
Proof using.
  intros Hcov Hrow Hev Hok He. pose proof Hcov as (Hfin & Htime & _). unfold Evaluate. rewrite Hfin, Htime. cbn [negb].
  destruct (Z.ltb_spec query_ts ts) as [|Hts]; [done|].
  destruct (evaluator_sound columns ts rows f Hcov row (Hrow Hts) query_ts special e ev Hok Hev) as (b & -> & Hb). by rewrite Hb.
Qed.

(** C10. Rough filters skip no row.  The task that builds the filters of a segment succeeds, if
    populating a binary fuse filter does ([FilterTotal]), and then no query skips a block, or the
    segment, for a filter expression that one of its visible rows satisfies: the evaluator made of the
    expression lets both pass, whatever the query's timestamp.  Rows may have been deleted since; the
    comparisons of columns with constants in the expression keep to [compare_ok] in that row, on which
    the examples below turn. *)
Theorem rough_filter_sound s e ev special :
  segment_status_ s = (if unsealed then Status.kUnsealed else Status.kSealed) → fresh_filters s →
  Forall (block_ok (segment_columns_ s)) (segment_blocks_ s) → segment_total s ≤ segment_row_count_ s →
  PushDownToFastRoughFilter (Some e) = Ok ev →
  ∃ s', ExecuteOnNewSealedSegment s ts = Ok s' ∧
    ∀ i b b' r, segment_blocks_ s !! i = Some b → segment_blocks_ s' !! i = Some b' → visible_row b r →
      filter_ok (segment_columns_ s) (row_at b r) special e →
      evaluate (table_row special (row_at b r)) e = Some (VBoolean true) →
      Evaluate ev query_ts (block_filter_ b') = Ok true ∧ Evaluate ev query_ts (segment_filter_ s') = Ok true.
Proof.
  intros Hst Hfresh Hblocks Hcnt Hev.
  destruct (ExecuteOnNewSealedSegment_ok (segment_columns_ s) unsealed ts s Hst eq_refl Hfresh) as (s' & Hs' & Hseg & Hbs).
  { eapply Forall_impl; [exact Hblocks|]. intros b Hb. by apply block_ok_ready. }
  { etrans; [by apply segment_rows_total|done]. }
  exists s'. split; [done|]. intros i b b' r Hi Hi' Hr Hok He. rewrite Forall_lookup in Hblocks.
  destruct (block_ok_ready _ _ (Hblocks i b Hi)) as (_ & _ & Hvis). rewrite Forall2_lookup in Hbs. specialize (Hbs i). rewrite Hi, Hi' in Hbs.
  inversion Hbs as [? ? Hb|]; subst. specialize (Hb (visible_counted b r Hr)). split.
  - apply (covers_evaluate _ _ _ (row_at b r) special e ev Hb); auto.
  - apply (covers_evaluate _ _ _ (row_at b r) special e ev Hseg); try done. intros Hts. apply list_elem_of_In, in_concat.
    exists (rows_of unsealed ts b). split; apply list_elem_of_In; [|by apply Hvis]. apply list_elem_of_fmap. exists b. split; [done|].
    by eapply list_elem_of_lookup_2.
Qed.
End Segment.

(** ** Examples *)

(** Filters that are exact sets, and hashes without collisions worth the name. *)
Definition exact_filters : FilterLibrary := {|
  fuse8 := list Z; fuse8_populate keys := Some keys; fuse8_contain k f := bool_decide (k ∈ f);
  hash_i64 z := cast u64 z; hash_string s := fold_left (fun h b => cast u64 (h * 31 + b)) s 7;
|}.

Lemma exact_laws : @FilterLaws exact_filters.
Proof. constructor. intros keys f k [= <-] Hk. by apply bool_decide_eq_true. Qed.

Lemma exact_total : @FilterTotal exact_filters.
Proof. constructor. intros keys _. by exists keys. Qed.

#[local] Existing Instances exact_filters exact_laws exact_total no_functions.
#[local] Instance filter_columns : ColumnStore := list_columns Z.

(** An imported block with rows of an integer and a varchar column; a segment of it. *)
Definition example_block (rows : list (Z * bytes)) : FilterBlock :=
  let b := NewBlockEntry 0 [] in
  mkFilterBlock (set_rows b 0 (zlen rows) (version_ b) [])
    (fun c r => let '(z, s) := default (0, []) (rows !! Z.to_nat r) in if c =? 0 then VInt IntegerT z else VVarchar s) FastRoughFilter_new.

Definition example_segment (blocks : list (list (Z * bytes))) : FilterSegment :=
  mkFilterSegment Status.kSealed (foldr Z.add 0 (map zlen blocks)) [(kInteger, true); (kVarchar, true)] (map example_block blocks) FastRoughFilter_new.

Definition no_special (_ : Z) : option Value := None.

(** [c0 < 7 and c1 = 'ab'], of rows [(5, 'ab')] and [(9, 'cd')]. *)
Definition example_rows : list (Z * bytes) := [(5, [97; 98]); (9, [99; 100])].
Definition example_filter : Expr :=
  FunctionExpression "AND" kBoolean
    [FunctionExpression "<" kBoolean [ColumnExpression 0 false kInteger; ValueExpression (VInt IntegerT 7)];
     FunctionExpression "=" kBoolean [ValueExpression (VVarchar [97; 98]); ColumnExpression 1 false kVarchar]].
Definition example_evaluator : FastRoughFilterEvaluator :=
  CombineAnd (MinMaxEvaluator 0 (VInt IntegerT 6) kLessEqual) (equal_evaluator 1 (VVarchar [97; 98])).

Lemma example_block_ok rows :
  Forall (fun r => ascii r.2) rows → block_ok false [(kInteger, true); (kVarchar, true)] (example_block rows).
Proof.
  intros Hrows. split; [done|apply zlen_nonneg|]. intros r i t w Hr Hi. cbn [example_block column_value_].
  destruct (default _ _) as [z s]. destruct i as [|[|i]]; [| |done]; injection Hi as <- <-; (split; [done|]); intros _; by eexists.
Qed.

(** The evaluator's answer for the blocks, after the task. *)
Definition block_answers (s : FilterSegment) (begin_ts : Z) (e : Expr) (query_ts : Z) : result (list (result bool)) :=
  let? ev := PushDownToFastRoughFilter (Some e) in
  let? s := ExecuteOnNewSealedSegment s begin_ts in
  Ok (map (fun b => Evaluate ev query_ts (block_filter_ b)) (segment_blocks_ s)).

Lemma example_compare_0 : compare_ok [(kInteger, true); (kVarchar, true)] (row_at (example_block example_rows) 0) no_special
  (ColumnExpression 0 false kInteger) OpLess 0 (VInt IntegerT 7).
Proof.
  split; try done.
  - split; [done|]. by exists true.
  - split; [by exists kInteger|done|by vm_compute|done|done].
  - by left.
Qed.

Lemma example_compare_1 : compare_ok [(kInteger, true); (kVarchar, true)] (row_at (example_block example_rows) 0) no_special
  (ColumnExpression 1 false kVarchar) OpEqual 1 (VVarchar [97; 98]).
Proof.
  assert (Hab : Forall (fun b => 0 ≤ b < 128) [97; 98]) by (repeat constructor; done).
  assert (Hab' : Forall (fun b => 0 ≤ b < 256) [97; 98]) by (repeat constructor; done).
  split; try done.
  - split; [done|]. by exists true.
  - split; [by exists kVarchar|done|exact Hab'|done|done].
  - by left.
  - intros _ [?|?]; done.
Qed.

Lemma rough_filter_sound_witness :
  ∃ s', ExecuteOnNewSealedSegment (example_segment [example_rows; [(7, [1])]]) 5 = Ok s' ∧
    Evaluate example_evaluator 9 (segment_filter_ s') = Ok true ∧
    map (fun b => Evaluate example_evaluator 9 (block_filter_ b)) (segment_blocks_ s') = [Ok true; Ok false].
Proof.
  destruct (rough_filter_sound false 5 9 (example_segment [example_rows; [(7, [1])]]) example_filter example_evaluator no_special)
    as (s' & Hs & Hall).
  - reflexivity.
  - split; [reflexivity|]. repeat constructor.
  - constructor; [|constructor; [|constructor]]; apply example_block_ok; repeat constructor; discriminate.
  - vm_compute. discriminate.
  - reflexivity.
  - assert (Ha : block_answers (example_segment [example_rows; [(7, [1])]]) 5 example_filter 9 = Ok [Ok true; Ok false]) by (vm_compute; reflexivity).
    unfold block_answers in Ha. change (PushDownToFastRoughFilter (Some example_filter)) with (Ok example_evaluator) in Ha.
    cbn [res_bind] in Ha. rewrite Hs in Ha. cbn [res_bind] in Ha. injection Ha as Ha. exists s'. split; [exact Hs|]. split; [|exact Ha].
    destruct (segment_blocks_ s') as [|b' blocks']; [discriminate Ha|].
    destruct (Hall 0%nat (example_block example_rows) b' 0 eq_refl eq_refl) as [_ Hseg]; [| | |exact Hseg].
    + split; [discriminate|reflexivity].
    + split; split; intros Hv Hr; try discriminate Hv; try discriminate Hr; intros v [= <-];
        [exists 0; exact example_compare_0|exists 1; exact example_compare_1].
    + reflexivity.
Defined.

(** [> 'ab'] becomes [>= 'ab\x80'], which the filter's order puts above ['abc']. *)
Theorem varchar_greater_skips :
  let e := FunctionExpression ">" kBoolean [ColumnExpression 1 false kVarchar; ValueExpression (VVarchar [97; 98])] in
  let b := example_block [(1, [97; 98; 99])] in
  evaluate (table_row no_special (row_at b 0)) e = Some (VBoolean true) ∧
  block_answers (example_segment [[(1, [97; 98; 99])]]) 5 e 9 = Ok [Ok false].
Proof. cbn zeta. split; vm_compute; reflexivity. Qed.

(** Varchars are compared by signed characters in a row and by bytes in a filter. *)
Theorem varchar_signed_skips :
  let e := FunctionExpression "<" kBoolean [ColumnExpression 1 false kVarchar; ValueExpression (VVarchar [97])] in
  let b := example_block [(1, [195; 164])] in
  evaluate (table_row no_special (row_at b 0)) e = Some (VBoolean true) ∧
  block_answers (example_segment [[(1, [195; 164])]]) 5 e 9 = Ok [Ok false].
Proof. cbn zeta. split; vm_compute; reflexivity. Qed.

(** The filter of an empty block is marked as built and raises an error when asked. *)
Theorem empty_block_raises :
  block_answers (example_segment [[]; example_rows]) 5 example_filter 9 = Ok [Err UnrecoverableError; Ok true].
Proof. vm_compute. reflexivity. Qed.
