(* ===== verification/SecondaryIndex.v ===== *)
(** * Secondary indexes

    An index of a segment on one column: the keys of its rows with their offsets, in the memory index
    ([src/src/storage/secondary_index/secondary_index_in_mem.cpp]), in chunks that the memory index is
    dumped to, and in chunks merged from others ([secondary_index_data.cpp]).  A chunk is kept in parts
    of 8192 pairs ([storage/meta/entry/chunk_index_entry.cppm]) that a range query searches from a
    position that a learned index suggests ([TrunkReaderT] and [TrunkReaderM] of
    [executor/operator/physical_index_scan.cpp]).

    Keys are integers: a floating-point number is its rank among the numbers of its format, and no NaN
    is a key.  The learned index is a third-party library, the interface [PgmLibrary]; [std::hash] is
    the one of [FilterLibrary]. *)

From Stdlib Require Import ZArith Lia List String.
From stdpp Require Import base list numbers sorting.
From S2P Require Import Prelude Bytes DataTypes DateTime CatalogDelta BlockVersion BlockEntry Bitmask Floating FilterExpr RoughFilter.
Local Open Scope Z_scope.

(** ** Keys *)

(** The smallest and the largest key of a column. *)
Definition key_limits (t : LogicalType) : option (Z * Z) :=
  match t with
  | kTinyInt => Some (lowest i8, int_max TinyIntT)
  | kSmallInt => Some (lowest i16, int_max SmallIntT)
  | kInteger | kDate | kTime => Some (lowest i32, int_max IntegerT)
  | kBigInt | kDateTime | kTimestamp => Some (lowest i64, int_max BigIntT)
  | kFloat => Some (lowest_key float_format, max_key float_format)
  | kDouble => Some (lowest_key double_format, max_key double_format)
  | kVarchar => Some (0, 2 ^ 64 - 1)
  | _ => None
  end.

(** Key and offset in the segment. *)
Abbreviation IndexPair := (Z * Z)%type.

Section Keys.
Context `{!FilterLibrary}.

(** The key of a value; of a NaN there is none. *)
Definition ConvertToOrderedKeyValue (v : Value) : result (option Z) :=
  match v with
  | VInt _ z => Ok (Some z)
  | VFloating _ NaN => Ok None
  | VFloating _ (Num k) => Ok (Some k)
  | VDay _ z => Ok (Some z)
  | VDateTime _ d => let? e := GetEpochTime d in Ok (Some e)
  | VVarchar s => Ok (Some (hash_string s))
  | _ => Err UnrecoverableError
  end.

(** ** The memory index *)

(** [std::multimap::emplace]: after the pairs with an equal key. *)
Fixpoint emplace (key offset : Z) (m : list IndexPair) : list IndexPair :=
  match m with
  | [] => [(key, offset)]
  | (k, o) :: m' => if key <? k then (key, offset) :: m else (k, o) :: emplace key offset m'
  end.

(** A NaN has no place in the order of the map. *)
Definition insert_row (column : Z → Value) (block_offset : Z) (m : list IndexPair) (row : Z) : result (list IndexPair) :=
  let? key := ConvertToOrderedKeyValue (column row) in
  match key with
  | Some key => Ok (emplace key (block_offset + row) m)
  | None => Err OutOfBounds
  end.

Definition InMem_Insert (block_id : Z) (column : Z → Value) (row_offset row_count : Z) (m : list IndexPair) : result (list IndexPair) :=
  res_fold (insert_row column (block_id * DEFAULT_BLOCK_CAPACITY)) m (seqZ row_offset row_count).
End Keys.

(** ** Chunks *)

Class PgmLibrary := {
  Pgm : Type;
  pgm_build : list Z → Pgm;
  (** The approximate position of a key and bounds of it. *)
  pgm_search : Pgm → Z → Z * Z * Z;
}.

(** A pair and the reader it is from. *)
Abbreviation QueueElem := (IndexPair * nat)%type.

Section Chunks.
Context `{!PgmLibrary}.

Record Chunk := mkChunk { chunk_row_count_ : Z; parts_ : list (list IndexPair); pgm_index_ : Pgm }.

Definition PART_SIZE : Z := 8192.

Definition part_num (row_count : Z) : Z := (row_count + 8191) / 8192.
Definition part_row_count (row_count part_id : Z) : Z := Z.min 8192 (row_count - part_id * 8192).

Definition GetPartNum (c : Chunk) : Z := part_num (chunk_row_count_ c).
Definition GetPartRowCount (c : Chunk) (part_id : Z) : Z := part_row_count (chunk_row_count_ c) part_id.

(** [OutputAndBuild]. *)
Definition OutputAndBuild (chunk_row_count : Z) (data : list IndexPair) : Chunk :=
  mkChunk chunk_row_count
    (map (fun part_id => take (Z.to_nat (part_row_count chunk_row_count part_id)) (drop (Z.to_nat (part_id * PART_SIZE)) data))
       (seqZ 0 (part_num chunk_row_count)))
    (pgm_build (map fst data)).

Definition InsertData (chunk_row_count : Z) (m : list IndexPair) : result Chunk :=
  if negb (zlen m =? chunk_row_count) then Err UnrecoverableError else Ok (OutputAndBuild chunk_row_count m).

(** The memory index becomes a chunk. *)
Definition Dump (m : list IndexPair) : result Chunk := InsertData (zlen m) m.

Definition pair_at (c : Chunk) (part_id offset : Z) : result IndexPair :=
  let? part := array_at (parts_ c) part_id in array_at part offset.

(** *** Merging chunks *)

Record ChunkDataReader := mkReader { current_offset_ : Z; current_part_id_ : Z; current_part_size_ : Z }.

Definition ChunkDataReader_new (c : Chunk) : ChunkDataReader := mkReader 0 0 (GetPartRowCount c 0).

Definition Reader_GetNextDataPair (c : Chunk) (r : ChunkDataReader) : result (option (IndexPair * ChunkDataReader)) :=
  if (current_offset_ r =? 0) && (GetPartNum c <=? current_part_id_ r) then Ok None
  else
    let? p := pair_at c (current_part_id_ r) (current_offset_ r) in
    if current_offset_ r + 1 =? current_part_size_ r then
      let id := current_part_id_ r + 1 in
      Ok (Some (p, mkReader 0 id (if id <? GetPartNum c then GetPartRowCount c id else current_part_size_ r)))
    else Ok (Some (p, mkReader (current_offset_ r + 1) (current_part_id_ r) (current_part_size_ r))).

(** The queue of the next pairs of the readers, smallest first. *)
Definition queue_leb (a b : QueueElem) : bool :=
  let '(k, o, i) := a in
  let '(k', o', j) := b in
  (k <? k') || ((k =? k') && ((o <? o') || ((o =? o') && (i <=? j)%nat))).

Fixpoint queue_push (a : QueueElem) (q : list QueueElem) : list QueueElem :=
  match q with
  | [] => [a]
  | b :: q' => if queue_leb a b then a :: q else b :: queue_push a q'
  end.

Record ChunkMerger := mkMerger { readers_ : list (Chunk * ChunkDataReader); pq_ : list QueueElem }.

(** The next pair of reader [i] joins the queue. *)
Definition advance_reader (m : ChunkMerger) (i : nat) : result ChunkMerger :=
  match readers_ m !! i with
  | None => Err OutOfBounds
  | Some (c, r) =>
      let? next := Reader_GetNextDataPair c r in
      match next with
      | None => Ok m
      | Some (p, r) => Ok (mkMerger (<[i := (c, r)]> (readers_ m)) (queue_push (p, i) (pq_ m)))
      end
  end.

Definition ChunkMerger_new (old_chunks : list Chunk) : result ChunkMerger :=
  res_fold advance_reader (mkMerger (map (fun c => (c, ChunkDataReader_new c)) old_chunks) []) (seq 0 (length old_chunks)).

Definition Merger_GetNextDataPair (m : ChunkMerger) : result (option (IndexPair * ChunkMerger)) :=
  match pq_ m with
  | [] => Ok None
  | (p, i) :: q => let? m := advance_reader (mkMerger (readers_ m) q) i in Ok (Some (p, m))
  end.

Fixpoint merge_loop (fuel : nat) (m : ChunkMerger) : result (list IndexPair) :=
  match fuel with
  | O => Err OutOfFuel
  | S fuel' =>
      let? next := Merger_GetNextDataPair m in
      match next with
      | None => Ok []
      | Some (p, m) => let? rest := merge_loop fuel' m in Ok (p :: rest)
      end
  end.

(** Every pair is read once. *)
Definition merge_fuel (old_chunks : list Chunk) : nat := S (Z.to_nat (Zsum (map chunk_row_count_ old_chunks))).

Definition InsertMergeData (chunk_row_count : Z) (old_chunks : list Chunk) : result Chunk :=
  let? m := ChunkMerger_new old_chunks in
  let? data := merge_loop (merge_fuel old_chunks) m in
  if chunk_row_count <? zlen data then Err OutOfBounds
  else if negb (zlen data =? chunk_row_count) then Err UnrecoverableError
  else Ok (OutputAndBuild chunk_row_count data).

(** ** Range queries *)

(** *** Of a chunk *)

(** The first position at or after the given one with a key not below [begin_val]. *)
Fixpoint begin_forward (fuel : nat) (c : Chunk) (begin_val part_id offset size : Z) : result (option (Z * Z)) :=
  match fuel with
  | O => Err OutOfFuel
  | S fuel' =>
      let? p := pair_at c part_id offset in
      if p.1 <? begin_val then
        if offset + 1 =? size then
          if GetPartNum c <=? part_id + 1 then Ok None
          else begin_forward fuel' c begin_val (part_id + 1) 0 (GetPartRowCount c (part_id + 1))
        else begin_forward fuel' c begin_val part_id (offset + 1) size
      else Ok (Some (part_id, offset))
  end.

(** Back from a test position while keys are not below [begin_val]; [last] is the last such. *)
Fixpoint begin_backward (fuel : nat) (c : Chunk) (begin_val test_part_id test_offset : Z) (last : Z * Z) : result (Z * Z) :=
  match fuel with
  | O => Err OutOfFuel
  | S fuel' =>
      let? p := pair_at c test_part_id test_offset in
      if begin_val <=? p.1 then
        if test_offset =? 0 then
          if test_part_id =? 0 then Ok (test_part_id, test_offset)
          else begin_backward fuel' c begin_val (test_part_id - 1) (GetPartRowCount c (test_part_id - 1) - 1) (test_part_id, test_offset)
        else begin_backward fuel' c begin_val test_part_id (test_offset - 1) (test_part_id, test_offset)
      else Ok last
  end.

(** The first position with a key above [end_val], or the one past the end. *)
Fixpoint end_forward (fuel : nat) (c : Chunk) (end_val part_id offset size : Z) : result (Z * Z) :=
  match fuel with
  | O => Err OutOfFuel
  | S fuel' =>
      let? p := pair_at c part_id offset in
      if p.1 <=? end_val then
        if offset + 1 =? size then
          if GetPartNum c <=? part_id + 1 then Ok (part_id, offset + 1)
          else end_forward fuel' c end_val (part_id + 1) 0 (GetPartRowCount c (part_id + 1))
        else end_forward fuel' c end_val part_id (offset + 1) size
      else Ok (part_id, offset)
  end.

Fixpoint end_backward (fuel : nat) (c : Chunk) (end_val test_part_id test_offset : Z) (last : Z * Z) : result (option (Z * Z)) :=
  match fuel with
  | O => Err OutOfFuel
  | S fuel' =>
      let? p := pair_at c test_part_id test_offset in
      if end_val <? p.1 then
        if test_offset =? 0 then
          if test_part_id =? 0 then Ok None
          else end_backward fuel' c end_val (test_part_id - 1) (GetPartRowCount c (test_part_id - 1) - 1) (test_part_id, test_offset)
        else end_backward fuel' c end_val test_part_id (test_offset - 1) (test_part_id, test_offset)
      else Ok (Some last)
  end.

(** A search moves over each pair at most once. *)
Definition search_fuel (c : Chunk) : nat := S (Z.to_nat (chunk_row_count_ c)).

Definition find_begin (c : Chunk) (begin_val begin_pos : Z) : result (option (Z * Z)) :=
  let part_id := begin_pos / PART_SIZE in
  let offset := begin_pos mod PART_SIZE in
  let? p := pair_at c part_id offset in
  if p.1 <? begin_val then begin_forward (search_fuel c) c begin_val part_id offset (GetPartRowCount c part_id)
  else let? pos := begin_backward (search_fuel c) c begin_val part_id offset (part_id, offset) in Ok (Some pos).

Definition find_end (c : Chunk) (end_val end_pos : Z) : result (option (Z * Z)) :=
  let part_id := end_pos / PART_SIZE in
  let offset := end_pos mod PART_SIZE in
  let? p := pair_at c part_id offset in
  if p.1 <=? end_val
  then let? pos := end_forward (search_fuel c) c end_val part_id offset (GetPartRowCount c part_id) in Ok (Some pos)
  else end_backward (search_fuel c) c end_val part_id offset (part_id, offset).

(** [begin_pos_] and [end_pos_] of a reader; both are 0 while nothing is found. *)
Definition TrunkReaderT_search (c : Chunk) (begin_val end_val : Z) : result (Z * Z) :=
  let '(_, begin_lower, _) := pgm_search (pgm_index_ c) begin_val in
  let '(_, _, end_upper) := pgm_search (pgm_index_ c) end_val in
  let begin_pos := cast u32 begin_lower in
  let end_pos := Z.min (cast u32 end_upper) (cast u32 (chunk_row_count_ c - 1)) in
  if end_pos <? begin_pos then Ok (0, 0)
  else
    let? b := find_begin c begin_val begin_pos in
    match b with
    | None => Ok (0, 0)
    | Some (begin_part_id, begin_part_offset) =>
        let begin_pos := begin_part_id * PART_SIZE + begin_part_offset in
        let? e := find_end c end_val end_pos in
        match e with
        | None => Ok (0, 0)
        | Some (end_part_id, end_part_offset) =>
            let end_pos := end_part_id * PART_SIZE + end_part_offset in
            if end_pos <=? begin_pos then Ok (0, 0) else Ok (begin_pos, end_pos)
        end
    end.

(** [n] offsets from a position on. *)
Fixpoint output_loop (n : nat) (c : Chunk) (part_id offset size : Z) : result (list Z) :=
  match n with
  | O => Ok []
  | S n' =>
      let '(part_id, offset, size) :=
        if offset =? size then (part_id + 1, 0, GetPartRowCount c (part_id + 1)) else (part_id, offset, size) in
      let? p := pair_at c part_id offset in
      let? rest := output_loop n' c part_id (offset + 1) size in
      Ok (p.2 :: rest)
  end.

Definition TrunkReaderT_offsets (c : Chunk) (begin_pos end_pos : Z) : result (list Z) :=
  let part_id := begin_pos / PART_SIZE in
  output_loop (Z.to_nat (end_pos - begin_pos)) c part_id (begin_pos mod PART_SIZE) (GetPartRowCount c part_id).
End Chunks.

(** *** Of the memory index *)

Fixpoint lower_bound (key : Z) (m : list IndexPair) : list IndexPair :=
  match m with
  | [] => []
  | p :: m' => if p.1 <? key then lower_bound key m' else m
  end.

Fixpoint until_upper_bound (key : Z) (m : list IndexPair) : list IndexPair :=
  match m with
  | [] => []
  | p :: m' => if p.1 <=? key then p :: until_upper_bound key m' else []
  end.

(** [std::bit_ceil]. *)
Definition bit_ceil (z : Z) : Z := if z <=? 1 then 1 else 2 ^ Z.log2_up z.

(** Rows of a segment, in order or as a mask. *)
Inductive SelectedRows := SelectedVector (rows : list Z) | SelectedMask (mask : Bitmask).

Definition use_array (result_size segment_row_count : Z) : bool :=
  (result_size <=? 1024) || (result_size <=? bit_ceil segment_row_count / 32).

Definition set_rows_true (h : heap) (mask : Bitmask) (rows : list Z) : result (Bitmask * heap) :=
  res_fold (fun '(mask, h) row => SetTrue h mask row) (mask, h) rows.

Definition empty_mask (h : heap) (count : Z) : result (Bitmask * heap) :=
  let? mask := Initialize new_Bitmask count in SetAllFalse h mask.

(** How many rows and which; an iterator does not reach one that lies before it. *)
Definition RangeQueryInner (h : heap) (segment_row_count b e : Z) (m : list IndexPair) : result (Z * SelectedRows * heap) :=
  if existsb (fun p => (e <? p.1) && (p.1 <? b)) m then Err OutOfBounds
  else
    let rows := map snd (until_upper_bound e (lower_bound b m)) in
    if use_array (zlen rows) segment_row_count then Ok (zlen rows, SelectedVector rows, h)
    else
      let? '(mask, h) := empty_mask h segment_row_count in
      let? '(mask, h) := set_rows_true h mask rows in
      Ok (zlen rows, SelectedMask mask, h).
