(* ===== verification/SecondaryIndexSpec.v ===== *)
(** * What searching a secondary index finds

    A chunk has sorted pairs; dumping the memory index and merging chunks keep all pairs.  A range query
    finds exactly the rows with a key in the range, wherever the learned index suggests to start. *)

From Stdlib Require Import ZArith Lia List String.
From stdpp Require Import base list numbers sorting.
From S2P Require Import Prelude Bytes DataTypes DateTime CatalogDelta BlockVersion BlockEntry Bitmask Floating FilterExpr RoughFilter SecondaryIndex.
Local Open Scope Z_scope.

(** ** Sorted pairs *)

Definition key_le (p q : IndexPair) : Prop := p.1 ≤ q.1.
Abbreviation sorted_pairs := (StronglySorted key_le).

(** A condition on keys that holds up to some key. *)
Section Prefix.
Context (P : Z → bool) (HP : ∀ a b, a ≤ b → P b = true → P a = true).

Definition count (data : list IndexPair) : Z := zlen (filter (fun p => P p.1 = true) data).

Lemma count_range data : 0 ≤ count data ≤ zlen data.
Proof. unfold count, zlen. pose proof (length_filter (fun p : IndexPair => P p.1 = true) data). lia. Qed.

Lemma sorted_prefix data : sorted_pairs data → filter (fun p => P p.1 = true) data = take (Z.to_nat (count data)) data.
Proof using HP.
  unfold count, zlen. rewrite Nat2Z.id. induction 1 as [|p data Hs IH Hp]; [done|]. destruct (decide (P p.1 = true)) as [Hd|Hd].
  - rewrite !filter_cons_True by done. cbn [length take]. by rewrite <- IH.
  - rewrite !filter_cons_False by done. rewrite filter_none; [done|]. eapply Forall_impl; [exact Hp|]. intros q Hq Hc. apply Hd.
    by apply (HP _ q.1).
Qed.

Lemma count_none q data : Forall (key_le q) data → P q.1 = false → count data = 0 ∧ Forall (fun p => P p.1 = false) data.
Proof using HP.
  intros Hq Hf. assert (Hall : Forall (fun p => P p.1 = false) data).
  { eapply Forall_impl; [exact Hq|]. intros p Hp. destruct (P p.1) eqn:Hd; [|done]. by rewrite (HP _ _ Hp Hd) in Hf. }
  split; [|done]. unfold count. rewrite filter_none; [done|]. eapply Forall_impl; [exact Hall|]. cbn. congruence.
Qed.

Lemma count_cons q data : P q.1 = true → count (q :: data) = 1 + count data.
Proof. intros Hq. unfold count. rewrite filter_cons_True by done. apply zlen_cons. Qed.

Lemma count_spec data :
  sorted_pairs data → ∀ i p, data !! i = Some p → P p.1 = bool_decide (Z.of_nat i < count data).
Proof using HP.
  induction 1 as [|q data Hs IH Hq]; intros i p Hi; [done|]. destruct (P q.1) eqn:Hd.
  - rewrite count_cons by done. pose proof (count_range data). destruct i as [|i]; cbn in Hi.
    + injection Hi as <-. rewrite Hd. symmetry. apply bool_decide_eq_true. lia.
    + rewrite (IH i p Hi). apply bool_decide_ext. lia.
  - destruct (count_none q data Hq Hd) as [Hc Hall].
    assert (count (q :: data) = 0) as -> by (unfold count in *; rewrite filter_cons_False by congruence; done).
    rewrite bool_decide_eq_false_2 by lia. destruct i as [|i]; cbn in Hi; [by injection Hi as <-|].
    rewrite Forall_lookup in Hall. by apply (Hall i).
Qed.
End Prefix.

(** Pairs with a key in a range. *)
Definition in_interval (b e : Z) (p : IndexPair) : Prop := b ≤ p.1 ≤ e.
#[export] Instance in_interval_dec b e p : Decision (in_interval b e p).
Proof. unfold in_interval. apply _. Defined.

Abbreviation below b := (count (fun k => k <? b)).
Abbreviation upto e := (count (fun k => k <=? e)).

Lemma below_mono b a c : a ≤ c → (c <? b) = true → (a <? b) = true.
Proof. intros. lia. Qed.
Lemma upto_mono e a c : a ≤ c → (c <=? e) = true → (a <=? e) = true.
Proof. intros. lia. Qed.

Lemma interval_slice data b e :
  sorted_pairs data → b ≤ e + 1 →
  filter (in_interval b e) data = take (Z.to_nat (upto e data - below b data)) (drop (Z.to_nat (below b data)) data).
Proof.
  intros Hs Hbe. induction Hs as [|q data Hs IH Hq]; [by rewrite drop_nil, take_nil|].
  pose proof (count_range (fun k => k <? b) data). pose proof (count_range (fun k => k <=? e) data).
  destruct (Z.ltb_spec q.1 b) as [Hb|Hb].
  - rewrite filter_cons_False by (unfold in_interval; lia). rewrite IH, !count_cons by (cbn beta; lia).
    replace (1 + upto e data - (1 + below b data)) with (upto e data - below b data) by lia.
    rewrite Z2Nat.inj_add by lia. done.
  - assert (below b (q :: data) = 0) as ->.
    { unfold count. rewrite filter_cons_False by (cbn beta; lia). apply (count_none _ (below_mono b) q data Hq). cbn beta; lia. }
    destruct (count_none _ (below_mono b) q data Hq ltac:(cbn beta; lia)) as [Hz _]. rewrite Hz in IH. cbn [Z.to_nat drop] in *. rewrite Z.sub_0_r in *.
    destruct (Z.leb_spec q.1 e) as [He|He].
    + rewrite filter_cons_True by (unfold in_interval; lia). rewrite IH, count_cons, Z2Nat.inj_add by (cbn beta; lia). done.
    + rewrite filter_cons_False by (unfold in_interval; lia).
      destruct (count_none _ (upto_mono e) q data Hq ltac:(cbn beta; lia)) as [Hu _]. rewrite IH, Hu.
      assert (upto e (q :: data) = 0) as -> by (unfold count in *; rewrite filter_cons_False by (cbn beta; lia); done). done.
Qed.

(** ** Positions in a chunk *)

(** What [search] of the learned index promises for sorted keys: a range that has the first position
    whose key is not below the one searched for, or ends there. *)
Class PgmLaws `{PgmLibrary} := {
  pgm_bounds : ∀ data k, sorted_pairs data → data ≠ [] →
    let '(_, lo, hi) := pgm_search (pgm_build (map fst data)) k in
    0 ≤ lo < hi ∧ hi ≤ zlen data ∧ lo ≤ below k data ≤ hi;
}.

Section Chunk.
Context {Library : PgmLibrary} {Laws : PgmLaws}.
Context (data : list IndexPair) (Hsorted : sorted_pairs data) (Hlen : 0 < zlen data < 2 ^ 31).

Notation c := (OutputAndBuild (zlen data) data).
Notation n := (zlen data).

Lemma part_at part_id :
  0 ≤ part_id → part_id * 8192 < n →
  array_at (parts_ c) part_id = Ok (take (Z.to_nat (part_row_count n part_id)) (drop (Z.to_nat (part_id * 8192)) data)).
Proof using.
  intros H0 Hn. unfold array_at. rewrite decide_True by done. cbn [OutputAndBuild parts_]. rewrite list_lookup_fmap, lookup_seqZ_lt.
  - cbn. rewrite Z2Nat.id by done. done.
  - unfold part_num. rewrite Z2Nat.id by done. div_lia.
Qed.

Lemma pair_at_pos pos :
  0 ≤ pos < n → ∃ p, data !! Z.to_nat pos = Some p ∧ pair_at c (pos / 8192) (pos mod 8192) = Ok p.
Proof using.
  intros Hpos. destruct (lookup_lt_is_Some_2 data (Z.to_nat pos)) as [p Hp]; [unfold zlen in *; lia|]. exists p. split; [done|].
  unfold pair_at. rewrite part_at by div_lia. cbn [res_bind]. unfold array_at. rewrite decide_True by div_lia.
  rewrite lookup_take_lt, lookup_drop by (unfold part_row_count; div_lia).
  replace (Z.to_nat (pos / 8192 * 8192) + Z.to_nat (pos mod 8192))%nat with (Z.to_nat pos) by div_lia. by rewrite Hp.
Qed.

Lemma next_same pos : 0 ≤ pos → pos mod 8192 + 1 ≠ 8192 → (pos + 1) / 8192 = pos / 8192 ∧ (pos + 1) mod 8192 = pos mod 8192 + 1.
Proof using. intros. div_lia. Qed.

Lemma next_part pos : 0 ≤ pos → pos mod 8192 + 1 = 8192 → (pos + 1) / 8192 = pos / 8192 + 1 ∧ (pos + 1) mod 8192 = 0.
Proof using. intros. div_lia. Qed.

(** The end of a part: of a full one, or of the last one. *)
Lemma part_end pos :
  0 ≤ pos < n → (pos mod 8192 + 1 =? GetPartRowCount c (pos / 8192)) = true → pos + 1 = n ∨ (pos + 1 < n ∧ pos mod 8192 + 1 = 8192).
Proof using. intros Hpos. unfold GetPartRowCount, part_row_count. cbn [OutputAndBuild chunk_row_count_]. rewrite Z.eqb_eq. div_lia. Qed.

Lemma part_inside pos :
  0 ≤ pos < n → (pos mod 8192 + 1 =? GetPartRowCount c (pos / 8192)) = false → pos + 1 < n ∧ pos mod 8192 + 1 ≠ 8192.
Proof using. intros Hpos. unfold GetPartRowCount, part_row_count. cbn [OutputAndBuild chunk_row_count_]. rewrite Z.eqb_neq. div_lia. Qed.

Lemma last_part pos : 0 ≤ pos < n → pos + 1 < n → pos mod 8192 + 1 = 8192 → (GetPartNum c <=? pos / 8192 + 1) = false.
Proof using. intros. unfold GetPartNum, part_num. cbn [OutputAndBuild chunk_row_count_]. apply Z.leb_gt. div_lia. Qed.

Lemma no_part pos : 0 ≤ pos < n → pos + 1 = n → (GetPartNum c <=? pos / 8192 + 1) = true.
Proof using. intros. unfold GetPartNum, part_num. cbn [OutputAndBuild chunk_row_count_]. apply Z.leb_le. div_lia. Qed.

Lemma prev_part pos : 0 < pos < n → pos mod 8192 = 0 → pos / 8192 - 1 = (pos - 1) / 8192 ∧ GetPartRowCount c (pos / 8192 - 1) - 1 = (pos - 1) mod 8192.
Proof using. intros. unfold GetPartRowCount, part_row_count. cbn [OutputAndBuild chunk_row_count_]. div_lia. Qed.

Lemma prev_same pos : 0 ≤ pos → pos mod 8192 ≠ 0 → pos / 8192 = (pos - 1) / 8192 ∧ pos mod 8192 - 1 = (pos - 1) mod 8192.
Proof using. intros. div_lia. Qed.

Lemma first_pos pos : 0 ≤ pos → pos mod 8192 = 0 → (pos / 8192 =? 0) = (pos =? 0).
Proof using. intros. destruct (Z.eqb_spec pos 0) as [->|]; [done|]. apply Z.eqb_neq. div_lia. Qed.

(** A position as part and offset. *)
Definition split_pos (pos : Z) : Z * Z := (pos / 8192, pos mod 8192).

Lemma begin_forward_ok b fuel : ∀ pos,
  0 ≤ pos < n → pos ≤ below b data → n - pos < Z.of_nat fuel →
  begin_forward fuel c b (pos / 8192) (pos mod 8192) (GetPartRowCount c (pos / 8192)) =
  Ok (if below b data <? n then Some (split_pos (below b data)) else None).
Proof using Hsorted.
  induction fuel as [|fuel IH]; intros pos Hpos Hle Hfuel; [lia|]. cbn [begin_forward].
  destruct (pair_at_pos pos Hpos) as (p & Hp & ->). cbn [res_bind].
  pose proof (count_spec _ (below_mono b) data Hsorted _ _ Hp) as Hc. cbn beta in Hc. rewrite Z2Nat.id in Hc by lia. rewrite Hc. clear Hc.
  case_bool_decide as Hd.
  - destruct (_ =? _) eqn:He.
    + destruct (part_end pos Hpos He) as [Hn|[Hn Hm]].
      * rewrite no_part by done. destruct (Z.ltb_spec (below b data) n); [lia|done].
      * rewrite last_part by done. destruct (next_part pos ltac:(lia) Hm) as [<- Hz]. rewrite <- Hz at 1. apply IH; lia.
    + destruct (part_inside pos Hpos He) as [Hn Hm]. destruct (next_same pos ltac:(lia) Hm) as [<- <-]. apply IH; lia.
  - assert (pos = below b data) as -> by lia. destruct (Z.ltb_spec (below b data) n); [done|lia].
Qed.

Lemma begin_backward_ok b fuel : ∀ pos last,
  0 ≤ pos < n → below b data ≤ pos + 1 → pos < Z.of_nat fuel → (below b data = pos + 1 → last = split_pos (below b data)) →
  begin_backward fuel c b (pos / 8192) (pos mod 8192) last = Ok (split_pos (below b data)).
Proof using Hsorted.
  induction fuel as [|fuel IH]; intros pos last Hpos Hle Hfuel Hlast; [lia|]. cbn [begin_backward].
  destruct (pair_at_pos pos Hpos) as (p & Hp & ->). cbn [res_bind].
  pose proof (count_spec _ (below_mono b) data Hsorted _ _ Hp) as Hc. cbn beta in Hc. rewrite Z2Nat.id in Hc by lia.
  rewrite Z.leb_antisym, Hc. case_bool_decide as Hd; cbn [negb]; [rewrite Hlast by lia; done|].
  pose proof (count_range (fun k => k <? b) data).
  assert (Hgo : 0 < pos → begin_backward fuel c b ((pos - 1) / 8192) ((pos - 1) mod 8192) (pos / 8192, pos mod 8192) =
    Ok (split_pos (below b data))).
  { intros. apply IH; try lia. intros ->. by replace (pos - 1 + 1) with pos by lia. }
  destruct (Z.eqb_spec (pos mod 8192) 0) as [Hm|Hm].
  - rewrite first_pos by lia. destruct (Z.eqb_spec pos 0) as [Hz|Hz].
    + assert (below b data = 0) as -> by lia. by rewrite Hz.
    + destruct (prev_part pos ltac:(lia) Hm) as [He1 He2]. rewrite He2, He1. apply Hgo. lia.
  - destruct (prev_same pos ltac:(lia) Hm) as [He1 He2]. rewrite <- He1, <- He2 in Hgo. apply Hgo. div_lia.
Qed.

Lemma end_forward_ok e fuel : ∀ pos,
  0 ≤ pos < n → pos ≤ upto e data → n - pos < Z.of_nat fuel →
  ∃ part_id offset, end_forward fuel c e (pos / 8192) (pos mod 8192) (GetPartRowCount c (pos / 8192)) = Ok (part_id, offset) ∧
    part_id * 8192 + offset = upto e data.
Proof using Hsorted.
  induction fuel as [|fuel IH]; intros pos Hpos Hle Hfuel; [lia|]. cbn [end_forward].
  destruct (pair_at_pos pos Hpos) as (p & Hp & ->). cbn [res_bind].
  pose proof (count_spec _ (upto_mono e) data Hsorted _ _ Hp) as Hc. cbn beta in Hc. rewrite Z2Nat.id in Hc by lia. rewrite Hc. clear Hc.
  pose proof (count_range (fun k => k <=? e) data). case_bool_decide as Hd.
  - destruct (_ =? _) eqn:He.
    + destruct (part_end pos Hpos He) as [Hn|[Hn Hm]].
      * rewrite no_part by done. eexists _, _. split; [reflexivity|]. div_lia.
      * rewrite last_part by done. destruct (next_part pos ltac:(lia) Hm) as [He1 He2].
        specialize (IH (pos + 1) ltac:(lia) ltac:(lia) ltac:(lia)). by rewrite He1, He2 in IH.
    + destruct (part_inside pos Hpos He) as [Hn Hm]. destruct (next_same pos ltac:(lia) Hm) as [He1 He2].
      specialize (IH (pos + 1) ltac:(lia) ltac:(lia) ltac:(lia)). by rewrite He1, He2 in IH.
  - eexists _, _. split; [reflexivity|]. div_lia.
Qed.

Lemma end_backward_ok e fuel : ∀ pos last,
  0 ≤ pos < n → upto e data ≤ pos + 1 → pos < Z.of_nat fuel → (upto e data = pos + 1 → last = split_pos (upto e data)) →
  end_backward fuel c e (pos / 8192) (pos mod 8192) last = Ok (if upto e data =? 0 then None else Some (split_pos (upto e data))).
Proof using Hsorted.
  induction fuel as [|fuel IH]; intros pos last Hpos Hle Hfuel Hlast; [lia|]. cbn [end_backward].
  destruct (pair_at_pos pos Hpos) as (p & Hp & ->). cbn [res_bind].
  pose proof (count_spec _ (upto_mono e) data Hsorted _ _ Hp) as Hc. cbn beta in Hc. rewrite Z2Nat.id in Hc by lia.
  rewrite Z.ltb_antisym, Hc. pose proof (count_range (fun k => k <=? e) data).
  case_bool_decide as Hd; cbn [negb]; [rewrite Hlast by lia; destruct (Z.eqb_spec (upto e data) 0); [lia|done]|].
  assert (Hgo : 0 < pos → end_backward fuel c e ((pos - 1) / 8192) ((pos - 1) mod 8192) (pos / 8192, pos mod 8192) =
    Ok (if upto e data =? 0 then None else Some (split_pos (upto e data)))).
  { intros. apply IH; try lia. intros ->. by replace (pos - 1 + 1) with pos by lia. }
  destruct (Z.eqb_spec (pos mod 8192) 0) as [Hm|Hm].
  - rewrite first_pos by lia. destruct (Z.eqb_spec pos 0) as [Hz|Hz].
    + destruct (Z.eqb_spec (upto e data) 0); [done|lia].
    + destruct (prev_part pos ltac:(lia) Hm) as [He1 He2]. rewrite He2, He1. apply Hgo. lia.
  - destruct (prev_same pos ltac:(lia) Hm) as [He1 He2]. rewrite <- He1, <- He2 in Hgo. apply Hgo. div_lia.
Qed.

Lemma find_begin_ok b pos :
  0 ≤ pos < n → find_begin c b pos = Ok (if below b data <? n then Some (split_pos (below b data)) else None).
Proof using Hsorted Hlen.
  intros Hpos. unfold find_begin, PART_SIZE. destruct (pair_at_pos pos Hpos) as (p & Hp & ->). cbn [res_bind].
  pose proof (count_spec _ (below_mono b) data Hsorted _ _ Hp) as Hc. cbn beta in Hc. rewrite Z2Nat.id in Hc by lia. rewrite Hc.
  assert (Hfuel : n < Z.of_nat (search_fuel c)) by (unfold search_fuel; cbn [OutputAndBuild chunk_row_count_]; lia).
  case_bool_decide as Hd; [apply begin_forward_ok; lia|]. rewrite begin_backward_ok by lia. cbn [res_bind].
  destruct (Z.ltb_spec (below b data) n); [done|lia].
Qed.

Lemma find_end_ok e pos :
  0 ≤ pos < n →
  ∃ r, find_end c e pos = Ok r ∧
    match r with None => upto e data = 0 | Some (part_id, offset) => part_id * 8192 + offset = upto e data end.
Proof using Hsorted Hlen.
  intros Hpos. unfold find_end, PART_SIZE. destruct (pair_at_pos pos Hpos) as (p & Hp & ->). cbn [res_bind].
  pose proof (count_spec _ (upto_mono e) data Hsorted _ _ Hp) as Hc. cbn beta in Hc. rewrite Z2Nat.id in Hc by lia. rewrite Hc.
  assert (Hfuel : n < Z.of_nat (search_fuel c)) by (unfold search_fuel; cbn [OutputAndBuild chunk_row_count_]; lia).
  case_bool_decide as Hd.
  - destruct (end_forward_ok e (search_fuel c) pos Hpos) as (part_id & offset & -> & Hu); [lia|lia|]. cbn [res_bind].
    by eexists.
  - rewrite end_backward_ok by lia. eexists. split; [reflexivity|]. destruct (Z.eqb_spec (upto e data) 0); [done|].
    unfold split_pos. pose proof (count_range (fun k => k <=? e) data). div_lia.
Qed.

Lemma below_le b e : b ≤ e → below b data ≤ below e data.
Proof using Hsorted Hlen.
  intros Hbe. pose proof (count_range (fun k => k <? b) data) as H1. pose proof (count_range (fun k => k <? e) data) as H2.
  destruct (Z.le_gt_cases (below b data) (below e data)) as [|Hgt]; [done|].
  destruct (lookup_lt_is_Some_2 data (Z.to_nat (below e data))) as [p Hp]; [unfold zlen in H1; lia|].
  pose proof (count_spec _ (below_mono b) data Hsorted _ _ Hp) as Hc1. pose proof (count_spec _ (below_mono e) data Hsorted _ _ Hp) as Hc2.
  cbn beta in *. rewrite Z2Nat.id in * by lia. rewrite bool_decide_eq_true_2 in Hc1 by lia. rewrite bool_decide_eq_false_2 in Hc2 by lia. lia.
Qed.

(** Where the loop of [OutPut] is before the pair at [pos]. *)
Definition output_at (pos part_id offset : Z) : Prop :=
  (part_id, offset) = split_pos pos ∨ (0 < pos ∧ pos mod 8192 = 0 ∧ part_id = pos / 8192 - 1 ∧ offset = 8192).

Lemma output_next pos : 0 ≤ pos → output_at (pos + 1) (pos / 8192) (pos mod 8192 + 1).
Proof using.
  intros Hpos. destruct (decide (pos mod 8192 + 1 = 8192)) as [Hm|Hm].
  - right. div_lia.
  - left. unfold split_pos. by destruct (next_same pos Hpos Hm) as [-> ->].
Qed.

Lemma output_loop_ok k : ∀ pos part_id offset,
  0 ≤ pos → pos + Z.of_nat k ≤ n → output_at pos part_id offset →
  output_loop k c part_id offset (GetPartRowCount c part_id) = Ok (map snd (take k (drop (Z.to_nat pos) data))).
Proof using Hlen.
  induction k as [|k IH]; intros pos part_id offset Hpos Hk Hat; [done|]. cbn [output_loop].
  assert ((if offset =? GetPartRowCount c part_id then (part_id + 1, 0, GetPartRowCount c (part_id + 1)) else (part_id, offset, GetPartRowCount c part_id)) =
    (pos / 8192, pos mod 8192, GetPartRowCount c (pos / 8192))) as ->.
  { destruct Hat as [[= -> ->]|(Hp & Hm & -> & ->)].
    - destruct (Z.eqb_spec (pos mod 8192) (GetPartRowCount c (pos / 8192))) as [He|]; [|done]. exfalso.
      unfold GetPartRowCount, part_row_count in He. cbn [OutputAndBuild chunk_row_count_] in He. div_lia.
    - destruct (prev_part pos ltac:(lia) Hm) as [_ He]. assert (GetPartRowCount c (pos / 8192 - 1) = 8192) as -> by div_lia.
      cbn [Z.eqb Pos.eqb]. rewrite Hm. by replace (pos / 8192 - 1 + 1) with (pos / 8192) by lia. }
  destruct (pair_at_pos pos ltac:(lia)) as (p & Hp & ->). cbn [res_bind].
  rewrite (IH (pos + 1)) by (try lia; by apply output_next). cbn [res_bind].
  rewrite (drop_S data p (Z.to_nat pos)) by done. cbn [take map]. by replace (Z.to_nat (pos + 1)) with (S (Z.to_nat pos)) by lia.
Qed.

Lemma TrunkReaderT_offsets_ok lo hi :
  0 ≤ lo ≤ hi → hi ≤ n → TrunkReaderT_offsets c lo hi = Ok (map snd (take (Z.to_nat (hi - lo)) (drop (Z.to_nat lo) data))).
Proof using Hlen. intros Hlo Hhi. apply output_loop_ok; [lia|lia|by left]. Qed.

Lemma upto_below e : upto e data = below (e + 1) data.
Proof using. unfold count. f_equal. apply list_filter_iff. intros p. lia. Qed.

(** A search of a chunk finds the pairs with a key in the range, also in one that is just empty. *)
Lemma TrunkReaderT_search_ok b e :
  b ≤ e + 1 →
  ∃ lo hi, TrunkReaderT_search c b e = Ok (lo, hi) ∧ hi - lo = zlen (filter (in_interval b e) data) ∧
    TrunkReaderT_offsets c lo hi = Ok (map snd (filter (in_interval b e) data)).
Proof using Hsorted Hlen Laws.
  intros Hbe. rewrite interval_slice by done.
  assert (Hne : data ≠ []) by (intros E; assert (zlen data = 0) by (by rewrite E); lia).
  unfold TrunkReaderT_search. cbn [OutputAndBuild pgm_index_ chunk_row_count_].
  pose proof (pgm_bounds data b Hsorted Hne) as Hb. pose proof (pgm_bounds data e Hsorted Hne) as He.
  destruct (pgm_search _ b) as [[? lo1] hi1], (pgm_search _ e) as [[? lo2] hi2].
  rewrite !cast_id by (eval_range; lia). fold c.
  pose proof (count_range (fun k => k <? b) data). pose proof (count_range (fun k => k <=? e) data).
  assert (Hnil : upto e data ≤ below b data →
    ∃ lo hi, @Ok (Z * Z) (0, 0) = Ok (lo, hi) ∧ hi - lo = zlen (take (Z.to_nat (upto e data - below b data)) (drop (Z.to_nat (below b data)) data)) ∧
      TrunkReaderT_offsets c lo hi = Ok (map snd (take (Z.to_nat (upto e data - below b data)) (drop (Z.to_nat (below b data)) data)))).
  { intros Hle. exists 0, 0. rewrite Z2Nat.nonpos by lia. done. }
  destruct (Z.ltb_spec (Z.min hi2 (n - 1)) lo1) as [Hpos|_].
  { apply Hnil. destruct (decide (b ≤ e)) as [Hle|Hgt]; [pose proof (below_le b e Hle); lia|]. rewrite upto_below. by replace (e + 1) with b by lia. }
  rewrite find_begin_ok by lia. cbn [res_bind].
  destruct (Z.ltb_spec (below b data) n) as [Hlt|]; [|apply Hnil; lia].
  destruct (find_end_ok e (Z.min hi2 (n - 1)) ltac:(lia)) as (r & -> & Hr). cbn [res_bind split_pos].
  destruct r as [[part_id offset]|]; [|apply Hnil; lia]. unfold PART_SIZE.
  replace (below b data / 8192 * 8192 + below b data mod 8192) with (below b data) by div_lia. rewrite Hr.
  destruct (Z.leb_spec (upto e data) (below b data)) as [|Hlo]; [by apply Hnil|].
  exists (below b data), (upto e data). split; [done|]. split; [|apply TrunkReaderT_offsets_ok; lia].
  unfold zlen in *. rewrite length_take, length_drop. lia.
Qed.
End Chunk.

(** ** Building an index *)

Lemma emplace_pair_perm key offset m : emplace key offset m ≡ₚ (key, offset) :: m.
Proof.
  induction m as [|[k o] m IH]; [done|]. cbn [emplace]. destruct (key <? k); [done|]. rewrite IH. by rewrite Permutation_swap.
Qed.

Lemma emplace_sorted key offset m : sorted_pairs m → sorted_pairs (emplace key offset m).
Proof.
  induction 1 as [|[k o] m Hs IH Hp]; [repeat constructor|]. cbn [emplace]. destruct (Z.ltb_spec key k) as [Hk|Hk].
  - constructor; [by constructor|]. constructor; [unfold key_le; cbn; lia|]. eapply Forall_impl; [exact Hp|]. unfold key_le. cbn. intros. lia.
  - constructor; [done|]. rewrite emplace_pair_perm. constructor; [done|done].
Qed.

(** The keys of rows, where all have one. *)
Definition keys_of `{!FilterLibrary} (column : Z → Value) (key : Z → Z) (rows : list Z) : Prop :=
  Forall (fun r => ConvertToOrderedKeyValue (column r) = Ok (Some (key r))) rows.

Lemma InMem_Insert_ok `{!FilterLibrary} block_id column key row_offset row_count m :
  sorted_pairs m → keys_of column key (seqZ row_offset row_count) →
  ∃ m', InMem_Insert block_id column row_offset row_count m = Ok m' ∧ sorted_pairs m' ∧
    m' ≡ₚ map (fun r => (key r, block_id * DEFAULT_BLOCK_CAPACITY + r)) (seqZ row_offset row_count) ++ m.
Proof.
  unfold InMem_Insert. generalize (seqZ row_offset row_count) as rows. intros rows Hs Hk. revert m Hs.
  induction Hk as [|r rows Hr _ IH]; intros m Hs; [by exists m|]. cbn [res_fold insert_row]. unfold insert_row at 1. rewrite Hr. cbn [res_bind].
  destruct (IH _ (emplace_sorted (key r) (block_id * DEFAULT_BLOCK_CAPACITY + r) m Hs)) as (m' & -> & Hs' & Hp). exists m'.
  split; [done|]. split; [done|]. rewrite Hp, emplace_pair_perm. cbn [map app]. symmetry. apply Permutation_middle.
Qed.

(** *** Merging *)

Lemma concat_insert {A} (ls : list (list A)) i x l : ls !! i = Some (x :: l) → concat ls ≡ₚ x :: concat (<[i := l]> ls).
Proof.
  revert i; induction ls as [|l' ls IH]; intros [|i] Hi; try done; cbn in Hi |- *; [by injection Hi as ->|].
  rewrite (IH i Hi). symmetry. apply Permutation_middle.
Qed.

Section Merge.
Context {Library : PgmLibrary}.

(** The reader of a chunk of [data] is before the pair at [pos]. *)
Definition reader_at (data : list IndexPair) (pos : Z) (r : ChunkDataReader) : Prop :=
  let c := OutputAndBuild (zlen data) data in
  0 ≤ pos ≤ zlen data ∧
  if decide (pos < zlen data)
  then current_part_id_ r = pos / 8192 ∧ current_offset_ r = pos mod 8192 ∧ current_part_size_ r = GetPartRowCount c (pos / 8192)
  else current_offset_ r = 0 ∧ GetPartNum c ≤ current_part_id_ r.

Lemma reader_new data : reader_at data 0 (ChunkDataReader_new (OutputAndBuild (zlen data) data)).
Proof.
  pose proof (zlen_nonneg data). split; [lia|]. cbn [ChunkDataReader_new current_part_id_ current_offset_ current_part_size_].
  case_decide; [done|]. split; [done|]. unfold GetPartNum, part_num. cbn. assert (zlen data = 0) as -> by lia. done.
Qed.

Lemma reader_end data r : reader_at data (zlen data) r → Reader_GetNextDataPair (OutputAndBuild (zlen data) data) r = Ok None.
Proof.
  intros [_ Hr]. rewrite decide_False in Hr by lia. destruct Hr as [Ho Hp]. unfold Reader_GetNextDataPair. rewrite Ho.
  by rewrite (proj2 (Z.leb_le _ _) Hp).
Qed.

Lemma reader_next data pos r :
  reader_at data pos r → pos < zlen data →
  ∃ p r', data !! Z.to_nat pos = Some p ∧ Reader_GetNextDataPair (OutputAndBuild (zlen data) data) r = Ok (Some (p, r')) ∧ reader_at data (pos + 1) r'.
Proof.
  intros [Hpos Hr] Hlt. rewrite decide_True in Hr by done. destruct Hr as (Hid & Ho & Hsz). unfold Reader_GetNextDataPair. rewrite Ho, Hid, Hsz.
  assert (((pos mod 8192 =? 0) && (GetPartNum (OutputAndBuild (zlen data) data) <=? pos / 8192)) = false) as ->.
  { apply andb_false_intro2, Z.leb_gt. unfold GetPartNum, part_num. cbn. div_lia. }
  destruct (pair_at_pos data pos ltac:(lia)) as (p & Hp & ->). cbn [res_bind]. exists p.
  destruct (_ =? _) eqn:He; eexists; (split; [done|]); (split; [reflexivity|]).
  - split; [lia|]. destruct (part_end data pos ltac:(lia) He) as [Hn|[Hn Hm]]; case_decide; try lia; cbn [current_part_id_ current_offset_ current_part_size_].
    + split; [done|]. apply Z.leb_le. exact (no_part data pos ltac:(lia) Hn).
    + pose proof (last_part data pos ltac:(lia) Hn Hm) as Hl. rewrite Z.leb_gt in Hl. rewrite (proj2 (Z.ltb_lt _ _) Hl).
      destruct (next_part pos ltac:(lia) Hm) as [-> ->]. done.
  - destruct (part_inside data pos ltac:(lia) He) as [Hn Hm]. split; [lia|]. rewrite decide_True by done.
    cbn [current_part_id_ current_offset_ current_part_size_]. destruct (next_same pos ltac:(lia) Hm) as [-> ->]. done.
Qed.

(** *** The queue *)

Abbreviation queue_sorted := (StronglySorted (fun a b : QueueElem => a.1.1 ≤ b.1.1)).

Lemma queue_push_perm a q : queue_push a q ≡ₚ a :: q.
Proof. induction q as [|b q IH]; [done|]. cbn [queue_push]. destruct (queue_leb a b); [done|]. rewrite IH. apply Permutation_swap. Qed.

Lemma queue_leb_key a b : if queue_leb a b then a.1.1 ≤ b.1.1 else b.1.1 ≤ a.1.1.
Proof.
  destruct a as [[k o] i], b as [[k' o'] j]. unfold queue_leb. cbn. destruct (Z.ltb_spec k k'); [cbn; lia|]. cbn.
  destruct (Z.eqb_spec k k') as [->|]; cbn; [destruct (_ || _); lia|lia].
Qed.

Lemma queue_push_sorted a q : queue_sorted q → queue_sorted (queue_push a q).
Proof.
  induction 1 as [|b q Hs IH Hb]; [repeat constructor|]. cbn [queue_push]. pose proof (queue_leb_key a b) as Hk. destruct (queue_leb a b).
  - constructor; [by constructor|]. constructor; [done|]. eapply Forall_impl; [exact Hb|]. cbn. lia.
  - constructor; [done|]. rewrite queue_push_perm. by constructor.
Qed.

(** *** The merger *)

(** The pairs of the chunks with how many of each have been read. *)
Abbreviation Progress := (list (list IndexPair * Z)).

Definition rest_of (d : list IndexPair * Z) : list IndexPair := drop (Z.to_nat d.2) d.1.

Definition readers_ok (readers : list (Chunk * ChunkDataReader)) (ds : Progress) : Prop :=
  Forall2 (fun cr d => cr.1 = OutputAndBuild (zlen d.1) d.1 ∧ reader_at d.1 d.2 cr.2 ∧ sorted_pairs d.1) readers ds.

(** Of each chunk that has pairs left, a pair not above them is in the queue. *)
Definition covered (q : list QueueElem) (i : nat) (d : list IndexPair * Z) : Prop :=
  rest_of d = [] ∨ ∃ p, (p, i) ∈ q ∧ Forall (key_le p) (rest_of d).

Lemma rest_next d pos p : 0 ≤ pos → d !! Z.to_nat pos = Some p → rest_of (d, pos) = p :: rest_of (d, pos + 1).
Proof. intros Hpos Hp. unfold rest_of. cbn. rewrite (drop_S d p) by done. by replace (Z.to_nat (pos + 1)) with (S (Z.to_nat pos)) by lia. Qed.

Lemma sorted_drop k d : sorted_pairs d → sorted_pairs (drop k d).
Proof. intros Hs. revert k; induction Hs as [|p d Hs IH Hp]; intros [|k]; cbn [drop]; [constructor|constructor|by constructor|apply IH]. Qed.

(** A reader that moves on. *)
Lemma advance_reader_ok m ds i d pos :
  readers_ok (readers_ m) ds → ds !! i = Some (d, pos) → queue_sorted (pq_ m) →
  ∃ m' ds', advance_reader m i = Ok m' ∧ readers_ok (readers_ m') ds' ∧ queue_sorted (pq_ m') ∧
    map fst (pq_ m') ++ concat (map rest_of ds') ≡ₚ map fst (pq_ m) ++ concat (map rest_of ds) ∧ length ds' = length ds ∧
    (∀ j e, ds' !! j = Some e → (j = i ∨ (ds !! j = Some e ∧ covered (pq_ m) j e)) → covered (pq_ m') j e) ∧
    (∀ j e, ds' !! j = Some e → j ≠ i → ds !! j = Some e) ∧ (∀ a, a ∈ pq_ m' → a ∈ pq_ m ∨ a.2 = i).
Proof.
  intros Hr Hi Hq. destruct (Forall2_lookup_r _ _ _ _ _ Hr Hi) as ([c r] & Hc & Hcc & Hat & Hs). cbn in Hcc, Hat, Hs. subst c.
  unfold advance_reader. rewrite Hc. destruct (decide (pos < zlen d)) as [Hlt|Hge].
  - destruct (reader_next d pos r Hat Hlt) as (p & r' & Hp & -> & Hat'). cbn [res_bind]. pose proof (proj1 Hat) as Hpos.
    eexists _, (<[i := (d, pos + 1)]> ds). split; [reflexivity|]. cbn [readers_ pq_].
    pose proof (rest_next d pos p ltac:(lia) Hp) as Hrest. split; [by apply Forall2_insert|]. split; [by apply queue_push_sorted|]. split; [|split; [by rewrite length_insert|split]].
    + rewrite queue_push_perm. cbn [map app fst]. rewrite list_fmap_insert.
      rewrite (concat_insert (map rest_of ds) i p (rest_of (d, pos + 1))).
      * apply Permutation_middle.
      * rewrite list_lookup_fmap, Hi. cbn. by rewrite Hrest.
    + intros j e He [->|[He' Hcov]].
      * rewrite list_lookup_insert_eq in He by (by eapply lookup_lt_Some). injection He as <-. right. exists p. split; [rewrite queue_push_perm; by left|].
        pose proof (sorted_drop (Z.to_nat pos) d Hs) as Hsd. unfold rest_of in Hrest at 1. cbn in Hrest. rewrite Hrest in Hsd. by apply StronglySorted_inv in Hsd as [_ ?].
      * destruct Hcov as [?|(p' & Hp' & Hle)]; [by left|]. right. exists p'. split; [rewrite queue_push_perm; by right|done].
    + split; [intros j e He Hj; by rewrite list_lookup_insert_ne in He by done|].
      intros a. rewrite queue_push_perm. intros [->|Ha]%elem_of_cons; [by right|by left].
  - destruct Hat as [Hpos Hat]. assert (pos = zlen d) as -> by lia. rewrite (reader_end d r); [|split; [lia|done]]. cbn [res_bind].
    exists m, ds. split; [done|]. split; [done|]. split; [done|]. split; [done|]. split; [done|]. split; [|split; [done|by left]].
    intros j e He [->|[_ ?]]; [|done]. left. assert (e = (d, zlen d)) as -> by congruence. unfold rest_of, zlen. cbn. rewrite Nat2Z.id. by apply drop_all.
Qed.

(** The pairs left and in the queue are [all]; chunks up to [k] are in the queue. *)
Record merger_inv (k : nat) (all : list IndexPair) (m : ChunkMerger) (ds : Progress) : Prop := {
  inv_readers : readers_ok (readers_ m) ds;
  inv_queue : queue_sorted (pq_ m);
  inv_pairs : map fst (pq_ m) ++ concat (map rest_of ds) ≡ₚ all;
  inv_index : Forall (fun a => (a.2 < length ds)%nat) (pq_ m);
  inv_covered : ∀ j e, ds !! j = Some e → (j < k)%nat → covered (pq_ m) j e;
}.

Lemma merger_init ds0 k : ∀ i m ds,
  merger_inv i (concat ds0) m ds → length ds = (i + k)%nat →
  ∃ m' ds', res_fold advance_reader m (seq i k) = Ok m' ∧ merger_inv (i + k) (concat ds0) m' ds' ∧ length ds' = length ds.
Proof.
  induction k as [|k IH]; intros i m ds [Hr Hq Hp Hx Hc] Hlen; [exists m, ds; by rewrite Nat.add_0_r|]. cbn [seq res_fold].
  destruct (lookup_lt_is_Some_2 ds i) as [[d pos] Hi]; [lia|].
  destruct (advance_reader_ok m ds i d pos Hr Hi Hq) as (m1 & ds1 & -> & Hr1 & Hq1 & Hp1 & Hl1 & Hc1 & Hds1 & Ha1). cbn [res_bind].
  destruct (IH (S i) m1 ds1) as (m2 & ds2 & -> & Hinv2 & Hl2); [|lia|].
  - split; try done; [by rewrite Hp1| |].
    + apply Forall_forall. intros a Ha. rewrite Hl1. destruct (Ha1 a Ha) as [Hin| ->]; [|lia]. rewrite Forall_forall in Hx. by apply Hx.
    + intros j e He Hj. apply Hc1; [done|]. destruct (decide (j = i)) as [->|Hne]; [by left|]. right.
      split; [by apply Hds1|]. apply Hc; [by apply Hds1|lia].
  - exists m2, ds2. rewrite Nat.add_succ_r. split; [done|]. split; [done|lia].
Qed.

Lemma merge_loop_ok fuel : ∀ all m ds,
  merger_inv (length ds) all m ds → (length all < fuel)%nat →
  ∃ out, merge_loop fuel m = Ok out ∧ sorted_pairs out ∧ out ≡ₚ all.
Proof.
  induction fuel as [|fuel IH]; intros all m ds [Hr Hq Hp Hx Hc] Hfuel; [lia|]. cbn [merge_loop]. unfold Merger_GetNextDataPair.
  destruct (pq_ m) as [|[p i] q] eqn:Hpq.
  { cbn [res_bind]. exists []. split; [done|]. split; [constructor|]. rewrite <- Hp. cbn [map app].
    assert (Hnil : Forall (fun l => l = []) (map rest_of ds)).
    { apply Forall_map, Forall_lookup. intros j e He. destruct (Hc j e He) as [?|(? & Hin & _)]; [by eapply lookup_lt_Some|done|]. by apply not_elem_of_nil in Hin. }
    clear -Hnil. induction (map rest_of ds) as [|l ls IH]; [done|]. apply Forall_cons in Hnil as [-> Hn]. by apply IH. }
  apply Forall_cons in Hx as [Hi Hx]. cbn in Hi. destruct (lookup_lt_is_Some_2 ds i Hi) as [[d pos] Hd].
  apply StronglySorted_inv in Hq as [Hq Hmin].
  destruct (advance_reader_ok (mkMerger (readers_ m) q) ds i d pos Hr Hd Hq) as (m1 & ds1 & -> & Hr1 & Hq1 & Hp1 & Hl1 & Hc1 & Hds1 & Ha1).
  cbn [res_bind readers_ pq_] in *.
  assert (Hle : Forall (key_le p) (map fst q ++ concat (map rest_of ds))).
  { apply Forall_app. split; [apply Forall_map; exact Hmin|]. apply Forall_concat, Forall_map, Forall_lookup. intros j e He.
    destruct (Hc j e He) as [->|(p' & Hin & Hall)]; [by eapply lookup_lt_Some|constructor|].
    assert (Hpp : p.1 ≤ p'.1). { apply elem_of_cons in Hin as [[= -> ->]|Hin]; [lia|]. rewrite Forall_forall in Hmin. by apply (Hmin (p', j)). }
    eapply Forall_impl; [exact Hall|]. unfold key_le. intros. lia. }
  destruct (IH (map fst q ++ concat (map rest_of ds)) m1 ds1) as (out & -> & Hs & Hout).
  - split; try done.
    + apply Forall_forall. intros a Ha. rewrite Hl1. destruct (Ha1 a Ha) as [Hin| ->]; [|done]. rewrite Forall_forall in Hx. by apply Hx.
    + intros j e He Hj. apply Hc1; [done|]. destruct (decide (j = i)) as [->|Hne]; [by left|]. right. split; [by apply Hds1|].
      destruct (Hc j e (Hds1 j e He Hne)) as [?|(p' & Hin & Hall)]; [lia|by left|]. right. exists p'. split; [|done].
      apply elem_of_cons in Hin as [[= -> ->]|?]; done.
  - rewrite <- Hp in Hfuel. cbn in Hfuel. lia.
  - exists (p :: out). cbn [res_bind]. split; [done|]. split; [constructor; [done|by rewrite Hout]|]. rewrite Hout, <- Hp. done.
Qed.

(** Merging chunks gives the chunk of all their pairs. *)
Lemma InsertMergeData_ok (datas : list (list IndexPair)) :
  Forall (StronglySorted key_le) datas →
  ∃ data, InsertMergeData (zlen (concat datas)) (map (fun d => OutputAndBuild (zlen d) d) datas) = Ok (OutputAndBuild (zlen data) data) ∧
    sorted_pairs data ∧ data ≡ₚ concat datas.
Proof.
  intros Hs. unfold InsertMergeData, ChunkMerger_new. rewrite map_map, length_map.
  set (m0 := mkMerger _ _). assert (H0 : merger_inv 0 (concat datas) m0 (map (fun d => (d, 0)) datas)).
  { split; cbn [readers_ pq_ m0].
    - unfold readers_ok. apply Forall2_fmap_2. induction Hs as [|d datas Hd _ IH]; constructor; [|done]. split; [done|]. split; [apply reader_new|done].
    - constructor.
    - cbn [map app]. rewrite map_map. cbn. by rewrite map_id.
    - constructor.
    - intros j e _ Hj. lia. }
  destruct (merger_init datas (length datas) 0 m0 _ H0) as (m1 & ds1 & -> & Hinv & Hl); [by rewrite length_map|]. cbn [res_bind].
  assert (Hl1 : length ds1 = length datas) by (by rewrite Hl, length_map). cbn [plus] in Hinv. rewrite <- Hl1 in Hinv.
  destruct (merge_loop_ok (merge_fuel (map (fun d => OutputAndBuild (zlen d) d) datas)) (concat datas) m1 ds1 Hinv) as (out & -> & Hso & Hp).
  { unfold merge_fuel. rewrite map_map. cbn [OutputAndBuild chunk_row_count_]. pose proof (zlen_concat datas) as Hz. unfold zlen in *. lia. }
  cbn [res_bind]. assert (zlen out = zlen (concat datas)) as Hz by (unfold zlen; by rewrite Hp). rewrite Hz, Z.ltb_irrefl, Z.eqb_refl. cbn [negb].
  exists out. rewrite Hz. done.
Qed.
End Merge.
