(* ===== verification/IndexScan.v ===== *)
(** * Index scans

    What the optimizer and the executor do with a filter on columns that have a secondary index.  The
    optimizer takes the part of the filter that the indexes decide out of it
    ([IndexScanFilterExpressionPushDownMethod] of
    [src/src/planner/optimizer/secondary_index_scan/filter_expression_push_down.cpp]), writes it in
    reverse Polish notation ([secondary_index_scan_middle_expression.cpp]) and makes commands of it,
    ranges of keys and connectives ([secondary_index_scan_execute_expression.cpp]).  The executor runs
    the commands on a segment with a stack of row sets and puts out the rows that the transaction sees
    ([executor/operator/physical_index_scan.cpp]). *)

From Stdlib Require Import ZArith Lia List String.
From stdpp Require Import base list numbers sorting strings gmap.
From S2P Require Import Prelude Bytes DataTypes DateTime CatalogDelta BlockVersion BlockEntry Bitmask SegmentEntry Floating FilterExpr RoughFilter SecondaryIndex.
Local Open Scope Z_scope.

(** ** Planning *)

Section Planning.
Context `{!FunctionLibrary} {Index : Type}.

(** The operands of conjunctions. *)
Fixpoint FlattenAndExpression (e : Expr) : list Expr :=
  match e with
  | FunctionExpression f_name _ args =>
      if String.eqb f_name "AND" then concat (map FlattenAndExpression args) else [e]
  | _ => [e]
  end.

(** The secondary indexes of the table with their columns; of two on one column the first counts. *)
Definition InitColumnIndexEntries (indexes : list (Z * Index)) : gmap Z Index :=
  fold_left (fun m '(column_id, index) => match m !! column_id with Some _ => m | None => <[column_id := index]> m end) indexes ∅.

Definition is_column_index (candidates : gmap Z Index) (column_id : Z) (t : LogicalType) : bool :=
  CanBuildSecondaryIndex t && bool_decide (is_Some (candidates !! column_id)).

Definition op_name (op : CompareOp) : string :=
  match op with OpLess => "<" | OpGreater => ">" | OpLessEqual => "<=" | OpGreaterEqual => ">=" | OpEqual => "=" end.

(** A comparison of an indexed column with a constant, the column on the left. *)
Definition CheckExprIndexStateAndRewrite (candidates : gmap Z Index) (f_name : string) (t : LogicalType) (args : list Expr)
    : result (option Expr) :=
  match compare_op f_name with
  | None => Ok None
  | Some op =>
      let? have_left := HaveLeftColumnAndRightValue (is_column_index candidates) args in
      if have_left then Ok (Some (FunctionExpression f_name t args))
      else
        let? have_right := HaveRightColumnAndLeftValue (is_column_index candidates) args in
        if have_right then Ok (Some (FunctionExpression (op_name (op_reverse op)) kBoolean (rev args))) else Ok None
  end.

Fixpoint RewriteForIndexScan (candidates : gmap Z Index) (e : Expr) : result (option Expr) :=
  match e with
  | FunctionExpression f_name t args =>
      if String.eqb f_name "AND" || String.eqb f_name "OR" then
        match args with
        | [a; b] =>
            let? l := RewriteForIndexScan candidates a in
            match l with
            | None => Ok None
            | Some l =>
                let? r := RewriteForIndexScan candidates b in
                match r with None => Ok None | Some r => Ok (Some (FunctionExpression f_name t [l; r])) end
            end
        | _ => Err UnrecoverableError
        end
      else if String.eqb f_name "NOT" then Ok None
      else CheckExprIndexStateAndRewrite candidates f_name t args
  | _ => Ok None
  end.

(** Candidates for the index scan and what is left over. *)
Fixpoint FindIndexFilterCandidates (candidates : gmap Z Index) (es : list Expr) : result (list Expr * list Expr) :=
  match es with
  | [] => Ok ([], [])
  | e :: es' =>
      let? new_expr := RewriteForIndexScan candidates e in
      let? '(index_filter_candidates, index_filter_leftover) := FindIndexFilterCandidates candidates es' in
      Ok match new_expr with
         | Some e' => (e' :: index_filter_candidates, index_filter_leftover)
         | None => (index_filter_candidates, e :: index_filter_leftover)
         end
  end.

(** The conjunction of a list, if there is one. *)
Definition and_all (es : list Expr) : option Expr :=
  fold_left (fun acc e => Some match acc with None => e | Some a => FunctionExpression "AND" kBoolean [a; e] end) es None.

Definition AddColumnToResultMap (candidates column_index_map : gmap Z Index) (column_id : Z) : option (gmap Z Index) :=
  match column_index_map !! column_id with
  | Some _ => Some column_index_map
  | None => match candidates !! column_id with Some index => Some (<[column_id := index]> column_index_map) | None => None end
  end.

Fixpoint AddIndexForColumnExpression (candidates column_index_map : gmap Z Index) (e : Expr) : option (gmap Z Index) :=
  match e with
  | CastExpression _ a => AddIndexForColumnExpression candidates column_index_map a
  | ColumnExpression column_id _ _ => AddColumnToResultMap candidates column_index_map column_id
  | _ => None
  end.

(** [None] when it cannot be done. *)
Fixpoint AddIndexForBooleanExpression (candidates column_index_map : gmap Z Index) (e : Expr) : result (option (gmap Z Index)) :=
  match e with
  | FunctionExpression f_name _ args =>
      if String.eqb f_name "AND" || String.eqb f_name "OR" then
        match args with
        | a :: b :: _ =>
            let? m := AddIndexForBooleanExpression candidates column_index_map a in
            match m with None => Ok None | Some m => AddIndexForBooleanExpression candidates m b end
        | _ => Err OutOfBounds
        end
      else if String.eqb f_name "NOT" then Err UnrecoverableError
      else match args with a :: _ => Ok (AddIndexForColumnExpression candidates column_index_map a) | [] => Err OutOfBounds end
  | _ => Ok None
  end.

Definition add_indexes (candidates : gmap Z Index) (es : list Expr) : result (gmap Z Index) :=
  res_fold (fun m e =>
    let? m := AddIndexForBooleanExpression candidates m e in
    match m with Some m => Ok m | None => Err UnrecoverableError end) ∅ es.
End Planning.

(** ** Commands *)

Inductive BooleanCombineType := kAnd | kOr.

Inductive FilterEvaluatorElem :=
| ElemColumn (column_id : Z)
| ElemValue (value : Value)
| ElemCompare (compare_type : FilterCompareType)
| ElemCombine (combine_type : BooleanCombineType).

Section Commands.
Context `{!FunctionLibrary} `{!FilterLibrary}.

Definition evaluate_compare_elems (op : CompareOp) (args : list Expr) : result (list FilterEvaluatorElem) :=
  match args with
  | l :: r :: _ =>
      let? right_val := CalcValueResult r in
      let? '(column_id, final_val, final_compare_type) := UnwindCast l right_val (op_compare_type op) in
      match final_compare_type with
      | kEqual | kLessEqual | kGreaterEqual | kAlwaysFalse | kAlwaysTrue =>
          Ok [ElemColumn column_id; ElemValue final_val; ElemCompare final_compare_type]
      | _ => Err UnrecoverableError
      end
  | _ => Err OutOfBounds
  end.

(** Reverse Polish notation. *)
Fixpoint BuildFilterEvaluator (e : Expr) : result (list FilterEvaluatorElem) :=
  match e with
  | FunctionExpression f_name _ args =>
      if String.eqb f_name "AND" || String.eqb f_name "OR" then
        let? elems := (fix go (args : list Expr) : result (list FilterEvaluatorElem) :=
          match args with
          | [] => Ok []
          | a :: args' => let? l := BuildFilterEvaluator a in let? r := go args' in Ok (l ++ r)
          end) args in
        Ok (elems ++ [ElemCombine (if String.eqb f_name "AND" then kAnd else kOr)])
      else
        match compare_op f_name with
        | Some op => evaluate_compare_elems op args
        | None => Err UnrecoverableError
        end
  | _ => Err UnrecoverableError
  end.

(** A range of keys of a type of columns. *)
Record FilterIntervalRange := mkInterval { interval_type : LogicalType; begin_val_ : Z; end_val_ : Z }.

(** Comparing with a NaN changes nothing. *)
Definition AddLE (val : option Z) (r : FilterIntervalRange) : FilterIntervalRange :=
  match val with
  | Some v => if v <? end_val_ r then mkInterval (interval_type r) (begin_val_ r) v else r
  | None => r
  end.

Definition AddGE (val : option Z) (r : FilterIntervalRange) : FilterIntervalRange :=
  match val with
  | Some v => if begin_val_ r <? v then mkInterval (interval_type r) v (end_val_ r) else r
  | None => r
  end.

Definition AddFilter (val : option Z) (compare_type : FilterCompareType) (r : FilterIntervalRange) : result FilterIntervalRange :=
  match compare_type with
  | kLessEqual => Ok (AddLE val r)
  | kGreaterEqual => Ok (AddGE val r)
  | kEqual => Ok (AddGE val (AddLE val r))
  | kAlwaysTrue => Ok r
  | _ => Err UnrecoverableError
  end.

(** The range, and whether it has any key. *)
Definition Interval_MergeAnd (this other : FilterIntervalRange) : FilterIntervalRange * bool :=
  let r := AddGE (Some (begin_val_ other)) (AddLE (Some (end_val_ other)) this) in (r, begin_val_ r <=? end_val_ r).

(** No interval is the range that is empty. *)
Record FilterExecuteSingleRange := mkRange { range_column_id_ : Z; interval_range_ : option FilterIntervalRange }.

Inductive FilterExecuteElem := ExecuteCombine (combine_type : BooleanCombineType) | ExecuteRange (range : FilterExecuteSingleRange).

Definition SetResultIntervalValue (value : Value) (compare_type : FilterCompareType) : result FilterIntervalRange :=
  let t := Value_type value in
  match key_limits t with
  | None => Err UnrecoverableError
  | Some (lowest, max) =>
      if bool_decide (t = kVarchar) && negb (bool_decide (compare_type = kEqual)) then Err UnrecoverableError
      else
        let? key := ConvertToOrderedKeyValue value in
        AddFilter key compare_type (mkInterval t lowest max)
  end.

Definition SaveToResult (column_id : Z) (value : Value) (compare_type : FilterCompareType) : result FilterExecuteElem :=
  match compare_type with
  | kAlwaysFalse => Ok (ExecuteRange (mkRange column_id None))
  | kEqual | kLessEqual | kGreaterEqual | kAlwaysTrue =>
      let? interval := SetResultIntervalValue value compare_type in
      Ok (ExecuteRange (mkRange column_id (Some interval)))
  | _ => Err UnrecoverableError
  end.

(** The commands so far, the last one first; [None] when the last two cannot be one. *)
Definition TryCompactNearbyFilterAnd (result_ : list FilterExecuteElem) : result (option (list FilterExecuteElem)) :=
  match result_ with
  | last_elem :: second_last_elem :: rest =>
      match last_elem, second_last_elem with
      | ExecuteRange last, ExecuteRange second_last =>
          match interval_range_ second_last, interval_range_ last with
          | None, _ => Ok (Some (second_last_elem :: rest))
          | Some _, None => Ok (Some (ExecuteRange (mkRange (range_column_id_ second_last) None) :: rest))
          | Some second_last_interval, Some last_interval =>
              if negb (range_column_id_ last =? range_column_id_ second_last) then Ok None
              else if negb (bool_decide (interval_type last_interval = interval_type second_last_interval)) then Err UnrecoverableError
              else
                let '(r, merge_result) := Interval_MergeAnd second_last_interval last_interval in
                Ok (Some (ExecuteRange (mkRange (range_column_id_ second_last) (if merge_result then Some r else None)) :: rest))
          end
      | _, _ => Ok None
      end
  | _ => Err UnrecoverableError
  end.

Definition TryCompactNearbyFilterOr (result_ : list FilterExecuteElem) : result (option (list FilterExecuteElem)) :=
  match result_ with
  | last_elem :: second_last_elem :: rest =>
      match last_elem, second_last_elem with
      | ExecuteRange last, ExecuteRange second_last =>
          match interval_range_ last, interval_range_ second_last with
          | None, _ => Ok (Some (second_last_elem :: rest))
          | Some _, None => Ok (Some (last_elem :: rest))
          | Some _, Some _ => Ok None
          end
      | _, _ => Ok None
      end
  | _ => Err UnrecoverableError
  end.

(** What has been read of a comparison. *)
Inductive Progress := kSavedToResult | kColumnID (column_id : Z) | kValuePtr (column_id : Z) (value : Value).

Definition build_step (s : Progress * list FilterExecuteElem) (elem : FilterEvaluatorElem) : result (Progress * list FilterExecuteElem) :=
  let '(progress, result_) := s in
  match elem, progress with
  | ElemColumn column_id, kSavedToResult => Ok (kColumnID column_id, result_)
  | ElemValue value, kColumnID column_id => Ok (kValuePtr column_id value, result_)
  | ElemCompare compare_type, kValuePtr column_id value =>
      let? e := SaveToResult column_id value compare_type in Ok (kSavedToResult, e :: result_)
  | ElemCombine combine_type, kSavedToResult =>
      let? compacted := match combine_type with kAnd => TryCompactNearbyFilterAnd result_ | kOr => TryCompactNearbyFilterOr result_ end in
      Ok (kSavedToResult, match compacted with Some r => r | None => ExecuteCombine combine_type :: result_ end)
  | _, _ => Err UnrecoverableError
  end.

Definition FilterCommandBuilder_Build (filter_evaluator : list FilterEvaluatorElem) : result (list FilterExecuteElem) :=
  let? '(progress, result_) := res_fold build_step (kSavedToResult, []) filter_evaluator in
  match progress with kSavedToResult => Ok (rev result_) | _ => Err UnrecoverableError end.

Definition BuildSecondaryIndexScanCommand (index_filter_qualified : Expr) : result (list FilterExecuteElem) :=
  let? filter_evaluator := BuildFilterEvaluator index_filter_qualified in FilterCommandBuilder_Build filter_evaluator.

(** ** The plan *)

Record IndexScanPlan {Index : Type} := mkPlan {
  column_index_map_ : gmap Z Index;
  index_filter_qualified_ : option Expr;
  extra_leftover_filter_ : option Expr;
  filter_execute_command_ : list FilterExecuteElem;
}.
Arguments IndexScanPlan : clear implicits.

Definition SolveForIndexScan {Index} (indexes : list (Z * Index)) (e : Expr) : result (IndexScanPlan Index) :=
  let candidates := InitColumnIndexEntries indexes in
  let? '(index_filter_candidates, index_filter_leftover) := FindIndexFilterCandidates candidates (FlattenAndExpression e) in
  let? column_index_map := add_indexes candidates index_filter_candidates in
  let qualified := and_all index_filter_candidates in
  let? command := match qualified with Some q => BuildSecondaryIndexScanCommand q | None => Ok [] end in
  Ok (mkPlan Index column_index_map qualified (and_all index_filter_leftover) command).
End Commands.

(** ** Row sets *)

(** [MergeOr] and [MergeAnd] of sorted rows. *)
Fixpoint intersect_rows (left_rows right_rows : list Z) : list Z :=
  match left_rows with
  | [] => []
  | offset :: left_rows' =>
      (fix skip (right_rows : list Z) : list Z :=
         match right_rows with
         | [] => intersect_rows left_rows' []
         | r :: right_rows' =>
             if r <? offset then skip right_rows'
             else if r =? offset then offset :: intersect_rows left_rows' right_rows'
             else intersect_rows left_rows' right_rows
         end) right_rows
  end.

Fixpoint filter_rows (h : heap) (mask : Bitmask) (rows : list Z) : result (list Z) :=
  match rows with
  | [] => Ok []
  | r :: rows' =>
      let? b := IsTrue h mask r in
      let? rest := filter_rows h mask rows' in
      Ok (if b then r :: rest else rest)
  end.

Definition FilterResult_MergeOr (h : heap) (this other : SelectedRows) : result (SelectedRows * heap) :=
  match this, other with
  | SelectedMask l, SelectedMask r => let? '(mask, h) := MergeOr h l r in Ok (SelectedMask mask, h)
  | SelectedMask l, SelectedVector r => let? '(mask, h) := set_rows_true h l r in Ok (SelectedMask mask, h)
  | SelectedVector l, SelectedMask r => let? '(mask, h) := set_rows_true h r l in Ok (SelectedMask mask, h)
  | SelectedVector l, SelectedVector r => Ok (SelectedVector (set_union l r), h)
  end.

Definition FilterResult_MergeAnd (h : heap) (this other : SelectedRows) : result (SelectedRows * heap) :=
  match this, other with
  | SelectedMask l, SelectedMask r => let? '(mask, h) := Merge h l r in Ok (SelectedMask mask, h)
  | SelectedMask l, SelectedVector r => let? rows := filter_rows h l r in Ok (SelectedVector rows, h)
  | SelectedVector l, SelectedMask r => let? rows := filter_rows h r l in Ok (SelectedVector rows, h)
  | SelectedVector l, SelectedVector r => Ok (SelectedVector (intersect_rows l r), h)
  end.

(** ** Execution *)

Section Execution.
Context `{!PgmLibrary}.

(** The index of a segment: the chunks that the transaction sees, and the memory index. *)
Record SegmentIndex := mkSegmentIndex { chunk_index_entries_ : list Chunk; memory_secondary_index_ : option (list IndexPair) }.

(** A reader after [GetResultCnt]. *)
Inductive TrunkReader := TrunkReaderT (c : Chunk) (begin_pos end_pos : Z) | TrunkReaderM (result_cache : SelectedRows).

Definition GetResultCnt_chunk (r : FilterIntervalRange) (c : Chunk) : result (Z * TrunkReader) :=
  let? '(begin_pos, end_pos) := TrunkReaderT_search c (begin_val_ r) (end_val_ r) in
  Ok (end_pos - begin_pos, TrunkReaderT c begin_pos end_pos).

Fixpoint count_chunks (r : FilterIntervalRange) (cs : list Chunk) : result (Z * list TrunkReader) :=
  match cs with
  | [] => Ok (0, [])
  | c :: cs' =>
      let? '(n, reader) := GetResultCnt_chunk r c in
      let? '(total, readers) := count_chunks r cs' in
      Ok (n + total, reader :: readers)
  end.

Definition OutPut (h : heap) (selected_rows : SelectedRows) (reader : TrunkReader) : result (SelectedRows * heap) :=
  match reader, selected_rows with
  | TrunkReaderT c begin_pos end_pos, SelectedVector rows =>
      let? offsets := TrunkReaderT_offsets c begin_pos end_pos in Ok (SelectedVector (rows ++ offsets), h)
  | TrunkReaderT c begin_pos end_pos, SelectedMask mask =>
      let? offsets := TrunkReaderT_offsets c begin_pos end_pos in
      let? '(mask, h) := set_rows_true h mask offsets in Ok (SelectedMask mask, h)
  | TrunkReaderM (SelectedVector result), SelectedVector rows => Ok (SelectedVector (rows ++ result), h)
  | TrunkReaderM (SelectedMask _), SelectedVector _ => Err UnrecoverableError
  | TrunkReaderM (SelectedVector result), SelectedMask mask =>
      let? '(mask, h) := set_rows_true h mask result in Ok (SelectedMask mask, h)
  | TrunkReaderM (SelectedMask result), SelectedMask mask =>
      let? '(mask, h) := MergeOr h mask result in Ok (SelectedMask mask, h)
  end.

Definition sort_selected (selected_rows : SelectedRows) : SelectedRows :=
  match selected_rows with SelectedVector rows => SelectedVector (merge_sort Z.le rows) | SelectedMask _ => selected_rows end.

Definition ExecuteSingleRangeT (h : heap) (segment_row_count : Z) (r : FilterIntervalRange) (index : SegmentIndex)
    : result (SelectedRows * heap) :=
  let? '(chunk_size, readers) := count_chunks r (chunk_index_entries_ index) in
  let? '(memory_size, memory_reader, h) :=
    match memory_secondary_index_ index with
    | None => Ok (0, [], h)
    | Some m =>
        let? '(n, cache, h) := RangeQueryInner h segment_row_count (begin_val_ r) (end_val_ r) m in
        Ok (n, [TrunkReaderM cache], h)
    end in
  let? '(selected_rows, h) :=
    if use_array (chunk_size + memory_size) segment_row_count then Ok (SelectedVector [], h)
    else let? '(mask, h) := empty_mask h (bit_ceil segment_row_count) in Ok (SelectedMask mask, h) in
  let? '(selected_rows, h) := res_fold (fun '(s, h) reader => OutPut h s reader) (selected_rows, h) (readers ++ memory_reader) in
  Ok (sort_selected selected_rows, h).

Definition ExecuteSingleRange (h : heap) (segment_row_count : Z) (column_index_map : gmap Z SegmentIndex) (single_range : FilterExecuteSingleRange)
    : result (SelectedRows * heap) :=
  match interval_range_ single_range with
  | None => Ok (SelectedVector [], h)
  | Some interval_range =>
      match column_index_map !! range_column_id_ single_range with
      | None => Err OutOfBounds
      | Some index => ExecuteSingleRangeT h segment_row_count interval_range index
      end
  end.

Definition solve_step (segment_row_count : Z) (column_index_map : gmap Z SegmentIndex) (s : list SelectedRows * heap) (elem : FilterExecuteElem)
    : result (list SelectedRows * heap) :=
  let '(result_stack, h) := s in
  match elem with
  | ExecuteCombine combine_type =>
      match result_stack with
      | right_ :: left_ :: rest =>
          let? '(r, h) := match combine_type with kAnd => FilterResult_MergeAnd h left_ right_ | kOr => FilterResult_MergeOr h left_ right_ end in
          Ok (r :: rest, h)
      | _ => Err UnrecoverableError
      end
  | ExecuteRange single_range =>
      let? '(r, h) := ExecuteSingleRange h segment_row_count column_index_map single_range in Ok (r :: result_stack, h)
  end.

(** The stack with its top first. *)
Definition SolveSecondaryIndexFilterInner (h : heap) (segment_row_count : Z) (column_index_map : gmap Z SegmentIndex) (command : list FilterExecuteElem)
    : result (SelectedRows * heap) :=
  let? '(result_stack, h) := res_fold (solve_step segment_row_count column_index_map) ([], h) command in
  match result_stack with [r] => Ok (r, h) | _ => Err UnrecoverableError end.

(** ** Output *)

Section Output.
Context {V : Type}.

(** [DeleteFilter]: whether the transaction sees a row. *)
Record DeleteFilter := mkDeleteFilter { filter_segment_ : SegmentEntry (V := V); query_ts_ : Z; max_segment_offset_ : Z }.

Definition delete_filter (f : DeleteFilter) (segment_offset : Z) : result bool :=
  let check_append := max_segment_offset_ f =? 0 in
  if segment_offset <=? max_segment_offset_ f then Segment_CheckRowVisible (filter_segment_ f) segment_offset (query_ts_ f) check_append
  else Ok false.

(** The row goes to the last block, or to a new one when that is full; the last block comes first. *)
Definition append_row (blocks : list (list Z)) (row : Z) : list (list Z) :=
  match blocks with
  | [] => [[row]]
  | block :: blocks' => if zlen block =? DEFAULT_BLOCK_CAPACITY then [row] :: blocks else (block ++ [row]) :: blocks'
  end.

(** The blocks and how many rows are invalid. *)
Definition output_row (f : DeleteFilter) (s : list (list Z) * Z) (row : Z) : result (list (list Z) * Z) :=
  let '(blocks, invalid_rows) := s in
  let? visible := delete_filter f row in
  Ok (if visible then (append_row blocks row, invalid_rows) else (blocks, invalid_rows + 1)).

Definition SelectedNum (h : heap) (selected_rows : SelectedRows) : result Z :=
  match selected_rows with
  | SelectedVector rows => Ok (zlen rows)
  | SelectedMask mask => CountTrue h mask
  end.

Definition Output (h : heap) (segment_row_count : Z) (selected_rows : SelectedRows) (f : DeleteFilter) : result (list (list Z)) :=
  let? selected_row_num := SelectedNum h selected_rows in
  let? rows := match selected_rows with
               | SelectedVector rows => Ok rows
               | SelectedMask mask => filter_rows h mask (seqZ 0 segment_row_count)
               end in
  let? '(blocks, invalid_rows) := res_fold (output_row f) ([[]], 0) rows in
  if negb (zlen (concat blocks) + invalid_rows =? selected_row_num) then Err UnrecoverableError else Ok (rev blocks).

(** One segment: skipped if its rough filter says so. *)
Definition ExecuteInternal `{!FilterLibrary} (h : heap) (evaluator : option FastRoughFilterEvaluator) (rough_filter : FastRoughFilter)
    (column_index_map : gmap Z SegmentIndex) (command : list FilterExecuteElem) (segment : SegmentEntry (V := V)) (begin_ts : Z) : result (list (list Z)) :=
  let? scan := match evaluator with Some ev => Evaluate ev begin_ts rough_filter | None => Ok true end in
  if negb scan then Ok [[]]
  else
    let segment_row_count := seg_row_count_ segment in
    let f := mkDeleteFilter segment begin_ts (Segment_row_count segment begin_ts) in
    let? '(selected_rows, h) := SolveSecondaryIndexFilterInner h segment_row_count column_index_map command in
    Output h segment_row_count selected_rows f.
End Output.
End Execution.
