(* ===== verification/SegmentIndexEntry.v ===== *)
(** * The secondary index of a segment over time

    [SegmentIndexEntry] and [ChunkIndexEntry] of [src/src/storage/meta/entry/segment_index_entry.cpp] and
    [chunk_index_entry.cppm], as far as secondary indexes go: rows are inserted into the memory index,
    the memory index is dumped to a chunk, an optimization merges chunks to one and deprecates them when
    it commits, a cleanup removes deprecated chunks, and a query takes a snapshot.  Chunks are named by
    their [chunk_id_]; a pointer to one that is gone is out of bounds.  [committing] is
    [TxnManager::CheckIfCommitting] of [TxnManager.v]. *)

From Stdlib Require Import ZArith Lia List String.
From stdpp Require Import base list numbers sets sorting.
From S2P Require Import Prelude Bytes DataTypes DateTime CatalogDelta BlockVersion BlockEntry Bitmask SegmentEntry Floating FilterExpr RoughFilter SecondaryIndex IndexScan.
Local Open Scope Z_scope.

Section SegmentIndexEntry.
Context `{!FilterLibrary} `{!PgmLibrary}.

Record ChunkIndexEntry := mkChunkIndexEntry {
  chunk_id_ : Z;
  chunk_txn_id_ : Z;
  chunk_commit_ts_ : Z;
  chunk_deprecate_ts_ : Z;
  index_data_ : Chunk;
}.

Record SegmentIndexEntry := mkSegmentIndexEntry {
  chunk_entries_ : list ChunkIndexEntry;
  next_chunk_id_ : Z;
  memory_index_ : option (list IndexPair);
}.

Definition SegmentIndexEntry_new : SegmentIndexEntry := mkSegmentIndexEntry [] 0 None.

(** [NewSecondaryIndexChunkIndexEntry]: the entry has no transaction. *)
Definition NewSecondaryIndexChunkIndexEntry (chunk_id : Z) (data : Chunk) : ChunkIndexEntry :=
  mkChunkIndexEntry chunk_id 0 UNCOMMIT_TS UNCOMMIT_TS data.

(** A new chunk at the end, with the next identifier. *)
Definition push_chunk (this : SegmentIndexEntry) (data : Chunk) (memory : option (list IndexPair)) : SegmentIndexEntry :=
  mkSegmentIndexEntry (chunk_entries_ this ++ [NewSecondaryIndexChunkIndexEntry (next_chunk_id_ this) data]) (next_chunk_id_ this + 1) memory.

Definition Chunk_Committed (c : ChunkIndexEntry) : bool := negb (chunk_commit_ts_ c =? UNCOMMIT_TS).

Definition set_chunk_commit_ts (commit_ts : Z) (c : ChunkIndexEntry) : ChunkIndexEntry :=
  mkChunkIndexEntry (chunk_id_ c) (chunk_txn_id_ c) commit_ts (chunk_deprecate_ts_ c) (index_data_ c).

Definition set_deprecate_ts (deprecate_ts : Z) (c : ChunkIndexEntry) : ChunkIndexEntry :=
  mkChunkIndexEntry (chunk_id_ c) (chunk_txn_id_ c) (chunk_commit_ts_ c) deprecate_ts (index_data_ c).

(** [BaseEntry::Commit].  A failed assertion, here and below, is an [UnrecoverableError]. *)
Definition Chunk_Commit (commit_ts : Z) (c : ChunkIndexEntry) : result ChunkIndexEntry :=
  if negb (negb (Chunk_Committed c) || (chunk_commit_ts_ c =? commit_ts)) then Err UnrecoverableError
  else if commit_ts =? UNCOMMIT_TS then Err UnrecoverableError
  else Ok (set_chunk_commit_ts commit_ts c).

Definition DeprecateChunk (commit_ts : Z) (c : ChunkIndexEntry) : result ChunkIndexEntry :=
  if negb (chunk_commit_ts_ c <? commit_ts) then Err UnrecoverableError
  else Ok (set_deprecate_ts commit_ts c).

Definition CheckDeprecate (ts : Z) (c : ChunkIndexEntry) : bool := chunk_deprecate_ts_ c <=? ts.

(** [BaseEntry::CheckVisible], which [ChunkIndexEntry] does not override. *)
Definition Chunk_CheckVisible (committing : Z → Z → bool) (txn_id begin_ts : Z) (c : ChunkIndexEntry) : bool :=
  (chunk_commit_ts_ c <=? begin_ts) || (chunk_txn_id_ c =? txn_id) || committing (chunk_txn_id_ c) begin_ts.

(** [CheckVisibleByTS], which a secondary index does not use. *)
Definition CheckVisibleByTS (ts : Z) (c : ChunkIndexEntry) : result bool :=
  if negb ((chunk_commit_ts_ c =? UNCOMMIT_TS) || (chunk_commit_ts_ c <? chunk_deprecate_ts_ c)) then Err UnrecoverableError
  else Ok ((chunk_commit_ts_ c <=? ts) && (ts <=? chunk_deprecate_ts_ c)).

(** *** Filling the index *)

Definition MemIndexInsert (this : SegmentIndexEntry) (block_id : Z) (column : Z → Value) (row_offset row_count : Z) : result SegmentIndexEntry :=
  let memory := match memory_index_ this with Some m => m | None => [] end in
  let? memory := InMem_Insert block_id column row_offset row_count memory in
  Ok (mkSegmentIndexEntry (chunk_entries_ this) (next_chunk_id_ this) (Some memory)).

Definition MemIndexDump (this : SegmentIndexEntry) : result SegmentIndexEntry :=
  match memory_index_ this with
  | None => Ok this
  | Some memory => let? data := Dump memory in Ok (push_chunk this data None)
  end.

(** All blocks of a segment, each with its column and number of rows. *)
Definition PopulateEntirely (this : SegmentIndexEntry) (blocks : list (Z * (Z → Value) * Z)) : result SegmentIndexEntry :=
  let this := mkSegmentIndexEntry (chunk_entries_ this) (next_chunk_id_ this) (Some []) in
  let? this := res_fold (fun this '(block_id, column, row_count) => MemIndexInsert this block_id column 0 row_count) this blocks in
  MemIndexDump this.

(** *** Optimization *)

(** The index with the merged chunk, its identifier and those of the chunks merged. *)
Definition RebuildChunkIndexEntries (committing : Z → Z → bool) (txn_id begin_ts : Z) (this : SegmentIndexEntry)
    : result (SegmentIndexEntry * option (Z * list Z)) :=
  if zlen (chunk_entries_ this) <=? 1 then Ok (this, None)
  else
    let old_chunks := filter (fun c => Chunk_CheckVisible committing txn_id begin_ts c = true) (chunk_entries_ this) in
    let row_count := cast u32 (Zsum (map (fun c => chunk_row_count_ (index_data_ c)) old_chunks)) in
    let? data := InsertMergeData row_count (map index_data_ old_chunks) in
    Ok (push_chunk this data (memory_index_ this), Some (next_chunk_id_ this, map chunk_id_ old_chunks)).

(** What a method does to the chunk that a pointer with this identifier points to. *)
Fixpoint update_entry (f : ChunkIndexEntry → result ChunkIndexEntry) (chunk_id : Z) (cs : list ChunkIndexEntry) : result (list ChunkIndexEntry) :=
  match cs with
  | [] => Err OutOfBounds
  | c :: cs' =>
      if chunk_id_ c =? chunk_id then let? c := f c in Ok (c :: cs')
      else let? cs' := update_entry f chunk_id cs' in Ok (c :: cs')
  end.

Definition update_chunk (f : ChunkIndexEntry → result ChunkIndexEntry) (this : SegmentIndexEntry) (chunk_id : Z) : result SegmentIndexEntry :=
  let? cs := update_entry f chunk_id (chunk_entries_ this) in
  Ok (mkSegmentIndexEntry cs (next_chunk_id_ this) (memory_index_ this)).

Definition CommitOptimize (this : SegmentIndexEntry) (new_chunk : Z) (old_chunks : list Z) (commit_ts : Z) : result SegmentIndexEntry :=
  let? this := update_chunk (Chunk_Commit commit_ts) this new_chunk in
  res_fold (update_chunk (DeprecateChunk commit_ts)) this old_chunks.

(** [TxnIndexStore::Commit] of a chunk. *)
Definition CommitChunk (this : SegmentIndexEntry) (commit_ts chunk_id : Z) : result SegmentIndexEntry :=
  update_chunk (fun c => if Chunk_Committed c then Ok c else Chunk_Commit commit_ts c) this chunk_id.

Definition PickCleanup (this : SegmentIndexEntry) (visible_ts : Z) : SegmentIndexEntry :=
  mkSegmentIndexEntry (filter (fun c => CheckDeprecate visible_ts c = false) (chunk_entries_ this)) (next_chunk_id_ this) (memory_index_ this).

(** *** Queries *)

(** The chunks that a query reads, and the memory index. *)
Definition GetSecondaryIndexSnapshot (committing : Z → Z → bool) (txn_id begin_ts : Z) (this : SegmentIndexEntry) : SegmentIndex :=
  mkSegmentIndex (map index_data_ (filter (fun c => Chunk_CheckVisible committing txn_id begin_ts c = true) (chunk_entries_ this))) (memory_index_ this).
End SegmentIndexEntry.
