(* ===== verification/IndexPlanSpec.v ===== *)
(** * What the plan of an index scan keeps of a filter

    The optimizer splits a filter into a part for the indexes and the rest; a row satisfies the filter
    if and only if it satisfies both parts.  The commands made of the first part, run on the keys of
    the row, say whether the row satisfies that part. *)

From Stdlib Require Import ZArith Lia List String.
From stdpp Require Import base list numbers sets sorting strings gmap.
From S2P Require Import Prelude Bytes DataTypes DateTime CatalogDelta BlockVersion BlockEntry Bitmask Floating FilterExpr FilterSpec RoughFilter RoughFilterSpec RoughFilterProps SecondaryIndex SecondaryIndexSpec IndexScan.
Local Open Scope Z_scope.

(** ** Commands on one row *)

(** Whether a key is in a range. *)
Definition in_range_of (key : Z → Z) (r : FilterExecuteSingleRange) : bool :=
  match interval_range_ r with
  | None => false
  | Some i => (begin_val_ i <=? key (range_column_id_ r)) && (key (range_column_id_ r) <=? end_val_ i)
  end.

Definition combine (t : BooleanCombineType) (a b : bool) : bool := match t with kAnd => a && b | kOr => a || b end.

(** The commands on the keys of the columns of a row. *)
Definition run_step (key : Z → Z) (stack : list bool) (elem : FilterExecuteElem) : option (list bool) :=
  match elem, stack with
  | ExecuteCombine t, r :: l :: rest => Some (combine t l r :: rest)
  | ExecuteCombine _, _ => None
  | ExecuteRange r, _ => Some (in_range_of key r :: stack)
  end.

Fixpoint run (key : Z → Z) (stack : list bool) (command : list FilterExecuteElem) : option (list bool) :=
  match command with
  | [] => Some stack
  | elem :: command' => match run_step key stack elem with Some stack' => run key stack' command' | None => None end
  end.

Lemma run_app key a : ∀ stack b,
  run key stack (a ++ b) = match run key stack a with Some stack' => run key stack' b | None => None end.
Proof. induction a as [|e a IH]; intros stack b; [done|]. cbn [run app]. destruct (run_step key stack e); [apply IH|done]. Qed.

(** Commands in the order they are made, the last one first. *)
Definition runs (key : Z → Z) (result_ : list FilterExecuteElem) : option (list bool) := run key [] (rev result_).

Lemma runs_cons key e result_ :
  runs key (e :: result_) = match runs key result_ with Some stack => run_step key stack e | None => None end.
Proof. unfold runs. cbn [rev]. rewrite run_app. destruct (run key [] (rev result_)); [|done]. cbn. by destruct (run_step key l e). Qed.

(** A range of keys that begins after its end begins right there. *)
Definition interval_ok (i : FilterIntervalRange) : Prop := begin_val_ i ≤ end_val_ i + 1.

(** The ranges of commands are well formed, of columns with an index. *)
Definition elem_ok (has_index : Z → Prop) (e : FilterExecuteElem) : Prop :=
  match e with
  | ExecuteRange r => match interval_range_ r with Some i => interval_ok i ∧ has_index (range_column_id_ r) | None => True end
  | ExecuteCombine _ => True
  end.

(** *** Making one command of two *)

Lemma merge_and_range key c i j :
  let '(r, nonempty) := Interval_MergeAnd i j in
  in_range_of key (mkRange c (if nonempty : bool then Some r else None)) =
  in_range_of key (mkRange c (Some i)) && in_range_of key (mkRange c (Some j)) ∧ (nonempty = true → interval_ok r).
Proof.
  unfold Interval_MergeAnd, in_range_of, AddGE, AddLE, interval_ok. destruct i as [ti b1 e1], j as [tj b2 e2]. cbn [begin_val_ end_val_ interval_type interval_range_ range_column_id_].
  destruct (Z.ltb_spec e2 e1); cbn [begin_val_ end_val_ interval_type];
    (destruct (Z.ltb_spec b1 b2); cbn [begin_val_ end_val_ interval_type]);
    match goal with |- context [if ?a <=? ?b then _ else _] => destruct (Z.leb_spec a b) end; cbn [begin_val_ end_val_ interval_range_ range_column_id_];
    (split; [|lia]); repeat match goal with |- context [?a <=? ?b] => destruct (Z.leb_spec a b) end; try done; lia.
Qed.

Lemma compact_and has_index key result_ r stack a b :
  Forall (elem_ok has_index) result_ → TryCompactNearbyFilterAnd result_ = Ok (Some r) → runs key result_ = Some (b :: a :: stack) →
  runs key r = Some (a && b :: stack) ∧ Forall (elem_ok has_index) r.
Proof.
  intros Hok Hc Hr. destruct result_ as [|[t1|last] [|[t2|second] rest]]; try discriminate Hc. rewrite !runs_cons in Hr.
  destruct (runs key rest) as [s|] eqn:Hrest; [|discriminate Hr]. injection Hr as <- <- <-.
  apply Forall_cons in Hok as [Hlast Hok]. pose proof Hok as Hok'. apply Forall_cons in Hok as [Hsecond Hok].
  destruct last as [c1 i1], second as [c2 i2]. cbn [TryCompactNearbyFilterAnd interval_range_ range_column_id_] in Hc.
  destruct i2 as [i2|]; [destruct i1 as [i1|]|].
  - destruct (Z.eqb_spec c1 c2) as [->|]; [|discriminate Hc]. cbn [negb] in Hc. destruct (negb (bool_decide _)); [discriminate Hc|].
    pose proof (merge_and_range key c2 i2 i1) as Hm. destruct (Interval_MergeAnd i2 i1) as [i nonempty]. injection Hc as <-. destruct Hm as [Hm Hi].
    rewrite runs_cons, Hrest. cbn [run_step]. rewrite Hm. split; [done|]. constructor; [|done]. destruct nonempty; [|done]. cbn in Hsecond |- *. naive_solver.
  - injection Hc as <-. rewrite runs_cons, Hrest. cbn [run_step]. unfold in_range_of at 1 3. cbn [interval_range_]. rewrite andb_false_r.
    split; [done|]. by constructor.
  - injection Hc as <-. rewrite runs_cons, Hrest. cbn [run_step]. unfold in_range_of at 1 2. cbn [interval_range_]. done.
Qed.

Lemma compact_or has_index key result_ r stack a b :
  Forall (elem_ok has_index) result_ → TryCompactNearbyFilterOr result_ = Ok (Some r) → runs key result_ = Some (b :: a :: stack) →
  runs key r = Some (a || b :: stack) ∧ Forall (elem_ok has_index) r.
Proof.
  intros Hok Hc Hr. destruct result_ as [|[t1|last] [|[t2|second] rest]]; try discriminate Hc. rewrite !runs_cons in Hr.
  destruct (runs key rest) as [s|] eqn:Hrest; [|discriminate Hr]. injection Hr as <- <- <-.
  apply Forall_cons in Hok as [Hlast Hok]. pose proof Hok as Hok'. apply Forall_cons in Hok as [Hsecond Hok].
  destruct last as [c1 i1], second as [c2 i2]. cbn [TryCompactNearbyFilterOr interval_range_ range_column_id_] in Hc.
  destruct i1 as [i1|]; [destruct i2 as [i2|]; [discriminate Hc|]|]; injection Hc as <-; rewrite runs_cons, Hrest; cbn [run_step].
  - unfold in_range_of at 2. cbn [interval_range_]. rewrite orb_false_l. split; [done|by constructor].
  - unfold in_range_of at 3. cbn [interval_range_]. rewrite orb_false_r. done.
Qed.

Lemma combine_step `{!FilterLibrary} has_index key t result_ s' stack a b :
  Forall (elem_ok has_index) result_ → runs key result_ = Some (b :: a :: stack) →
  build_step (kSavedToResult, result_) (ElemCombine t) = Ok s' →
  ∃ r, s' = (kSavedToResult, r) ∧ runs key r = Some (combine t a b :: stack) ∧ Forall (elem_ok has_index) r.
Proof.
  intros Hok Hr Hs. cbn [build_step] in Hs. apply res_bind_ok in Hs as (o & Ho & [= <-]). destruct o as [r|]; eexists; (split; [reflexivity|]).
  - destruct t; [by eapply compact_and|by eapply compact_or].
  - rewrite runs_cons, Hr. split; [done|]. by constructor.
Qed.

(** ** Keys *)

Section Plan.
Context {Library : FilterLibrary} {Functions : FunctionLibrary}.

(** A constant that is a number. *)
Definition not_nan (v : Value) : Prop := match v with VFloating _ NaN => False | _ => True end.

(** Different strings with one hash are not told apart. *)
Definition hash_exact (s s' : bytes) : Prop := 0 ≤ hash_string s < 2 ^ 64 ∧ 0 ≤ hash_string s' < 2 ^ 64 ∧ (hash_string s = hash_string s' → s = s').

Definition strings_exact (v w : Value) : Prop := match v, w with VVarchar s, VVarchar s' => hash_exact s s' | _, _ => True end.

(** Keys are within the limits of their type; those of constants may be infinite. *)
Lemma key_within v k lo hi :
  value_ok v → strings_exact v v → ConvertToOrderedKeyValue v = Ok (Some k) → key_limits (Value_type v) = Some (lo, hi) →
  lo - 1 ≤ k ≤ hi + 1 ∧ lo ≤ hi ∧ (finite v → lo ≤ k ≤ hi).
Proof using.
  intros Hok Hs Hk Hl. destruct v as [|b|t z|u l|t y|s|t z|t d|t]; try discriminate Hk.
  - injection Hk as ->. destruct t; injection Hl as <- <-; cbn [value_ok int_ctype] in Hok; unfold int_max; cbn [int_ctype]; eval_range; lia.
  - destruct y as [|y]; [discriminate Hk|]. injection Hk as ->. cbn in Hok, Hs. unfold finite.
    assert (1 < infinity_key (float_of t)) by (by destruct t). destruct t; injection Hl as <- <-; cbn [float_of] in *; unfold lowest_key, max_key; lia.
  - injection Hk as <-. injection Hl as <- <-. cbn in Hs. destruct Hs as (? & _). lia.
  - injection Hk as ->. destruct t; injection Hl as <- <-; cbn [value_ok int_ctype] in Hok; unfold int_max; cbn [int_ctype]; eval_range; lia.
  - cbn in Hk. apply res_bind_ok in Hk as (e & He & [= ->]). apply epoch_time in He as [_ He].
    destruct t; injection Hl as <- <-; unfold int_max; cbn [int_ctype]; eval_range; lia.
Qed.

Lemma char_of_inj a b : 0 ≤ a < 256 → 0 ≤ b < 256 → char_of a = char_of b → a = b.
Proof using. unfold char_of. intros. destruct (Z.ltb_spec a 128), (Z.ltb_spec b 128); lia. Qed.

Lemma CompareCharArray_eq s s' :
  Forall (fun b => 0 ≤ b < 256) s → Forall (fun b => 0 ≤ b < 256) s' → CompareCharArray s s' = Eq ↔ s = s'.
Proof using.
  unfold CompareCharArray. intros Hs. revert s'. induction Hs as [|x s Hx Hs IH]; intros s' Hs'; destruct Hs' as [|y s' Hy Hs']; try done.
  cbn [lex_compare]. destruct (Z.compare_spec (char_of x) (char_of y)) as [Heq|Hlt|Hgt].
  - apply char_of_inj in Heq as ->; try done. rewrite IH by done. naive_solver.
  - split; [done|]. intros [= -> ->]. lia.
  - split; [done|]. intros [= -> ->]. lia.
Qed.

(** Comparing keys is comparing values, of strings only for equality. *)
Lemma key_compare x v a b c :
  value_ok x → value_ok v → Value_type v = Value_type x → strings_exact v x → (Value_type v = kVarchar → c = kEqual) → simple c →
  ConvertToOrderedKeyValue x = Ok (Some a) → ConvertToOrderedKeyValue v = Ok (Some b) →
  unwound_holds c x v = match c with kLessEqual => a <=? b | kGreaterEqual => b <=? a | _ => a =? b end.
Proof using.
  intros Hx Hv Ht Hs Hvc Hc Ha Hb. destruct (decide (Value_type v = kVarchar)) as [Hk|Hk].
  - rewrite (Hvc Hk). destruct (value_varchar v Hv Hk) as [s ->]. destruct (value_varchar x Hx ltac:(congruence)) as [s' ->].
    cbn in Ha, Hb, Hs. injection Ha as <-. injection Hb as <-. cbn [unwound_holds Value_compare]. destruct Hs as (_ & _ & Hinj).
    pose proof (CompareCharArray_eq s' s Hx Hv) as Heq. destruct (Z.eqb_spec (hash_string s') (hash_string s)) as [He|He].
    + rewrite (proj2 Heq) by (symmetry; by apply Hinj). done.
    + destruct (CompareCharArray s' s); try done. by rewrite (proj1 Heq eq_refl) in He.
  - assert (Value_compare x v = Some (a ?= b)) as Hcmp.
    { destruct v as [|p|t z|u l|t y|s|t z|t d|t]; try discriminate Hb; try done; cbn [Value_type] in *.
      - destruct (value_int x t Hx (eq_sym Ht)) as [z' ->]. cbn in Ha, Hb |- *. rewrite decide_True by done. congruence.
      - destruct (value_float x t Hx (eq_sym Ht)) as [y' ->]. destruct y as [|y], y' as [|y']; try discriminate Ha; try discriminate Hb.
        cbn in Ha, Hb |- *. rewrite decide_True by done. congruence.
      - destruct (value_day x t Hx (eq_sym Ht)) as [z' ->]. cbn in Ha, Hb |- *. rewrite decide_True by done. congruence.
      - destruct (value_datetime x t Hx (eq_sym Ht)) as [d' ->]. cbn in Ha, Hb, Hx, Hv |- *. rewrite decide_True by done.
        apply res_bind_ok in Ha as (e1 & He1 & [= <-]). apply res_bind_ok in Hb as (e2 & He2 & [= <-]).
        apply epoch_time in He1 as [-> _]. apply epoch_time in He2 as [-> _]. by rewrite datetime_compare_epoch. }
    destruct Hc as [-> |[-> | ->]]; cbn [unwound_holds]; rewrite Hcmp; by autorewrite with holds.
Qed.

(** The range made of a comparison has the keys for which it holds. *)
Lemma interval_exact c x v k ct i :
  value_ok x → finite x → value_ok v → not_nan v → Value_type v = Value_type x → strings_exact v v → strings_exact x x → strings_exact v x →
  (Value_type v = kVarchar → ct = kEqual) → simple ct → ConvertToOrderedKeyValue x = Ok (Some (k c)) → SetResultIntervalValue v ct = Ok i →
  in_range_of k (mkRange c (Some i)) = unwound_holds ct x v ∧ interval_ok i.
Proof using.
  intros Hx Hfin Hv Hnan Ht Hsv Hsx Hs Hvc Hct Hk Hi. unfold SetResultIntervalValue in Hi. destruct (key_limits (Value_type v)) as [[lo hi]|] eqn:Hl; [|done].
  destruct (_ && _); [done|]. apply res_bind_ok in Hi as (o & Ho & Hi).
  assert (∃ b, o = Some b) as [b ->].
  { destruct v as [|p|t z|u l|t [|y]|s|t z|t d|t]; try done; try (by injection Ho as <-; eexists).
    cbn in Ho. apply res_bind_ok in Ho as (e & _ & [= <-]). by eexists. }
  destruct (key_within v b lo hi Hv Hsv Ho Hl) as (Hb & Hlh & _). rewrite Ht in Hl. destruct (key_within x (k c) lo hi Hx Hsx Hk Hl) as (_ & _ & Ha).
  specialize (Ha Hfin). rewrite (key_compare x v (k c) b ct) by done. unfold in_range_of, interval_ok. cbn [interval_range_ range_column_id_].
  destruct Hct as [-> |[-> | ->]]; injection Hi as <-; unfold AddGE, AddLE; cbn [begin_val_ end_val_ interval_type];
    repeat (match goal with |- context [if ?a <? ?b then _ else _] => destruct (Z.ltb_spec a b) end; cbn [begin_val_ end_val_ interval_type] in *);
    (split; [|lia]); repeat match goal with |- context [?a <=? ?b] => destruct (Z.leb_spec a b) | |- context [?a =? ?b] => destruct (Z.eqb_spec a b) end;
    try done; lia.
Qed.

(** ** Comparisons *)

Lemma unwind_decided e : ∀ v c cid v' c', UnwindCast e v c = Ok (cid, v', c') → decided c' → v' = VNull.
Proof using.
  induction e as [ci s t|v0|t a IH|n t args _|t] using Expr_induction; intros v c cid v' c'; cbn [UnwindCast];
    intros ([v1 c1] & _ & Hr)%res_bind_ok Hd; unfold unwound_at in Hr.
  1,2,4,5: by destruct Hd as [-> | ->]; destruct c1; try discriminate Hr; injection Hr as _ <-.
  assert (Hgo : ∀ v2 c2, UnwindCast a v2 c2 = Ok (cid, v', c') → v' = VNull) by (intros v2 c2 H2; by apply (IH _ _ _ _ _ H2)).
  clear IH. destruct c1; try (by injection Hr as _ <-).
  all: destruct (negb _); [discriminate Hr|]; destruct (bool_decide _); [exact (Hgo _ _ Hr)|].
  all: destruct t; try (by injection Hr as _ <-); destruct v1; try (by injection Hr as _ <-).
  all: destruct (int_of_type (Expr_type a)) as [it|]; try (by injection Hr as _ <-).
  all: try (destruct (Expr_type a); try (by injection Hr as _ <-); exact (Hgo _ _ Hr)).
  all: try (apply res_bind_ok in Hr as ([c2 [p|]] & _ & Hr); [exact (Hgo _ _ Hr)|by injection Hr as _ <-]).
  all: destruct it; try (by injection Hr as _ <-); apply res_bind_ok in Hr as ([c2 []] & _ & Hr); try (exact (Hgo _ _ Hr)); by injection Hr as _ <-.
Qed.

Lemma simplify_not_nan v c v' c' : not_nan v → SimplifyCompareTypeAndValue v c = Ok (v', c') → not_nan v'.
Proof using.
  intros Hn Hs. unfold SimplifyCompareTypeAndValue in Hs.
  assert (Hr : RewriteCompare v c = Ok (v', c') → not_nan v').
  { destruct v as [|p|t z|u l|t [|y]|s|t z|t d|t]; try done; cbn [RewriteCompare]; intros ([r0 c0] & Hr & [= <- <-])%res_bind_ok; try done.
    unfold RewriteCompareT_float, RewriteCompareT in Hr. destruct c; try discriminate Hr; injection Hr as Hr;
      destruct (fp_le _ _); injection Hr as <- _; cbn; try done; by repeat case_match. }
  destruct c; auto; try discriminate Hs; injection Hs as <- _; done.
Qed.

(** Under casts other than from float there is an integer. *)
Lemma cast_integer vc t a c t' :
  IsValidColumnExpression vc (CastExpression t a) = true → float_cast (CastExpression t a) = false → column_of a = Some (c, t') →
  ∃ it, t' = int_type it.
Proof using.
  revert t. induction a as [ci s ty|v|ty a IH|n ty args _|ty] using Expr_induction; intros t; try done.
  - cbn [IsValidColumnExpression float_cast column_of Expr_type]. intros [Hv _]%andb_prop [Hf%bool_decide_eq_false _]%orb_false_elim [= -> ->].
    destruct (valid_cast_cases _ _ Hv) as [(_ & it & -> & _)|[(_ & it & ->)|(_ & ->)]]; [by exists it|by exists it|done].
  - intros Hv Hf Hc. cbn [IsValidColumnExpression] in Hv. apply andb_prop in Hv as [_ Hv].
    cbn [float_cast] in Hf. apply orb_false_elim in Hf as [_ Hf]. by apply (IH ty).
Qed.

Lemma unwind_not_nan vc e c t v ct cid v' c' :
  IsValidColumnExpression vc e = true → float_cast e = false → column_of e = Some (c, t) → not_nan v → value_ok v' → Value_type v' = t →
  UnwindCast e v ct = Ok (cid, v', c') → not_nan v'.
Proof using.
  intros Hvalid Hf Hc Hn Hok Ht Hu. destruct e as [ci s t0|v0|t0 a|n t0 args|t0]; try done.
  - cbn [UnwindCast] in Hu. apply res_bind_ok in Hu as ([v1 c1] & Hs & Hr). apply simplify_not_nan in Hs; [|done].
    destruct c1; unfold unwound_at in Hr; injection Hr as _ <-; done.
  - destruct (cast_integer _ _ _ _ _ Hvalid Hf Hc) as [it ->]. by destruct (value_int v' it Hok Ht) as [z ->].
Qed.

Lemma calc_evaluate e v : CalcValueResult e = Ok v → evaluate no_row e = Some v.
Proof using.
  assert (CalcValueResult e = match evaluate no_row e with Some v => Ok v | None => Err UnrecoverableError end) as -> by (by destruct e).
  destruct (evaluate no_row e); congruence.
Qed.

Section Row.
Context {Index : Type} (candidates : gmap Z Index).
Context (special_column : Z → option Value) (row : Z → Value) (key : Z → Z).
Notation the_row := (table_row special_column row).
Notation is_indexed := (is_column_index candidates).

(** What a comparison that goes to an index has to keep to: the column has a value that casts keep and
    its key; the constant is a number of the type of the column expression; strings are compared by
    [=] only and no other string has the hash of the constant. *)
Record index_compare (col : Expr) (op : CompareOp) (c : Z) (v : Value) : Prop := {
  index_value : column_value the_row col c (row c);
  index_key : ConvertToOrderedKeyValue (row c) = Ok (Some (key c));
  index_constant : value_ok v;
  index_number : not_nan v;
  index_type : Value_type v = Expr_type col;
  index_cast : float_cast col = false;
  index_varchar : Value_type v = kVarchar → op = OpEqual ∧ strings_exact v (row c);
}.

Lemma index_ordered col t : IsValidColumnExpression is_indexed col = true → column_of col = Some t → has_order (Expr_type col) = true.
Proof using.
  destruct col as [ci s t0|v0|t0 a|n t0 args|t0]; try done; cbn [IsValidColumnExpression Expr_type].
  - intros [_ [Hb _]%andb_prop]%andb_prop _. by destruct t0.
  - intros [Hv _]%andb_prop _. by destruct t0.
Qed.

Lemma strings_exact_other v w : Value_type v ≠ kVarchar → strings_exact v w.
Proof using. by destruct v. Qed.

Lemma strings_exact_same v w : value_ok v → value_ok w → Value_type w = Value_type v → strings_exact v w → strings_exact v v ∧ strings_exact w w.
Proof using.
  intros Hv Hw Ht Hs. destruct (decide (Value_type v = kVarchar)) as [Hk|Hk].
  - destruct (value_varchar v Hv Hk) as [s ->]. destruct (value_varchar w Hw ltac:(congruence)) as [s' ->]. cbn in Hs |- *. unfold hash_exact in *. tauto.
  - split; apply strings_exact_other; congruence.
Qed.

(** The command of a comparison. *)
Lemma compare_command has_index name op t col val c v elems result_ s' :
  compare_op name = Some op → IsValidColumnExpression is_indexed col = true → IsValueResultExpression val = true →
  CalcValueResult val = Ok v → index_compare col op c v → has_index c →
  evaluate_compare_elems op [col; val] = Ok elems → res_fold build_step (kSavedToResult, result_) elems = Ok s' →
  ∃ e b, s' = (kSavedToResult, e :: result_) ∧ evaluate the_row (FunctionExpression name t [col; val]) = Some (VBoolean b) ∧
    (∀ stack, run_step key stack e = Some (b :: stack)) ∧ elem_ok has_index e.
Proof using.
  intros Hop Hvalid Hvr Hval [Hcv Hk Hvok Hnan Htype Hcast Hvarchar] Hhas Helems Hfold.
  pose proof (column_at _ _ _ _ Hcv) as (ty & Hat & Htx). destruct (column_expression_value _ _ _ _ _ Hvalid Hcv) as (w & Hw & Htw & _).
  assert (Hord : has_order (Value_type v) = true) by (rewrite Htype; by eapply index_ordered).
  assert (He : evaluate the_row val = Some v).
  { rewrite (value_result_row _ no_row) by done. by apply calc_evaluate. }
  unfold evaluate_compare_elems in Helems. rewrite Hval in Helems. cbn [res_bind] in Helems. apply res_bind_ok in Helems as ([[cid fv] ct] & Hu & Helems).
  assert (Hnl : Value_type v = kVarchar → op_compare_type op ≠ kLess ∧ op_compare_type op ≠ kGreater) by (intros Hv; by destruct (Hvarchar Hv) as [-> _]).
  destruct (unwind_ok _ _ _ c (row c) w v _ _ Hvalid Hcv Hw Hvok Htype Hnl Hu) as (Hdec & _ & Heq). specialize (Heq Hcast). rewrite op_unwound in Heq.
  rewrite (evaluate_compare the_row name op t col val w v Hop Hw He) by congruence. rewrite Heq.
  assert (elems = [ElemColumn cid; ElemValue fv; ElemCompare ct]) as -> by (destruct ct; congruence). clear Helems.
  cbn [res_fold build_step res_bind] in Hfold. apply res_bind_ok in Hfold as (s1 & Hs1 & [= <-]). apply res_bind_ok in Hs1 as (e & Hsave & [= <-]).
  exists e, (unwound_holds ct (row c) fv). split; [done|]. split; [done|]. destruct Hdec as [[-> | ->]|(Hsimple & -> & Hfok & Hft)].
  - cbn in Hsave. injection Hsave as <-. done.
  - rewrite (unwind_decided _ _ _ _ _ _ Hu) in Hsave by (by right). discriminate Hsave.
  - assert (∃ i, SetResultIntervalValue fv ct = Ok i ∧ e = ExecuteRange (mkRange c (Some i))) as (i & Hi & ->).
    { destruct Hsimple as [-> |[-> | ->]]; apply res_bind_ok in Hsave as (i & Hi & [= <-]); by exists i. }
    assert (Hvc : Value_type fv = kVarchar → ct = kEqual ∧ strings_exact fv (row c)).
    { intros Hfv. assert (Hcol : Expr_type col = kVarchar) by (apply (varchar_source is_indexed col c Hvalid); congruence).
      rewrite <- Htype in Hcol. destruct (Hvarchar Hcol) as [-> Hs]. rewrite Htype in Hcol. rewrite (varchar_column _ _ _ _ Hvalid Hcol Hat) in Hu.
      cbn in Hu. by injection Hu as <- <-. }
    assert (Hs : strings_exact fv (row c)) by (destruct (decide (Value_type fv = kVarchar)) as [Hv|Hv]; [by apply Hvc|by apply strings_exact_other]).
    destruct (strings_exact_same fv (row c) Hfok (column_ok _ _ _ _ Hcv) (eq_sym Hft) Hs) as [Hs1 Hs2].
    destruct (interval_exact c (row c) fv key ct i (column_ok _ _ _ _ Hcv) (column_finite _ _ _ _ Hcv) Hfok) as [Hb Hiok]; try done.
    + by apply (unwind_not_nan is_indexed col c ty v (op_compare_type op) c fv ct); try congruence.
    + intros Hv. by apply Hvc.
    + split; [|done]. intros stack. cbn [run_step]. by rewrite Hb.
Qed.

(** ** Expressions *)

Definition index_side (col : Expr) (op : CompareOp) (val : Expr) : Prop :=
  IsValidColumnExpression is_indexed col = true → IsValueResultExpression val = true →
  ∀ v, CalcValueResult val = Ok v → ∃ c, index_compare col op c v.

(** Connectives have two operands; every comparison of an indexed column with a constant keeps to
    [index_compare]. *)
Fixpoint index_ok (e : Expr) : Prop :=
  match e with
  | FunctionExpression f_name _ args =>
      if String.eqb f_name "AND" || String.eqb f_name "OR" then
        match args with [a; b] => index_ok a ∧ index_ok b | _ => False end
      else
        match compare_op f_name, args with
        | Some op, [l; r] => index_side l op r ∧ index_side r (op_reverse op) l
        | _, _ => True
        end
  | _ => True
  end.

(** An expression of comparisons that all go to an index, with their columns on the left. *)
Fixpoint qualified_ok (e : Expr) : Prop :=
  match e with
  | FunctionExpression f_name _ args =>
      if String.eqb f_name "AND" || String.eqb f_name "OR" then
        match args with [a; b] => qualified_ok a ∧ qualified_ok b | _ => False end
      else
        match compare_op f_name, args with
        | Some op, [l; r] =>
            IsValidColumnExpression is_indexed l = true ∧ IsValueResultExpression r = true ∧ index_side l op r
        | _, _ => False
        end
  | _ => False
  end.

(** Its columns. *)
Fixpoint columns_in (has_index : Z → Prop) (e : Expr) : Prop :=
  match e with
  | FunctionExpression f_name _ args =>
      if String.eqb f_name "AND" || String.eqb f_name "OR" then
        match args with a :: b :: _ => columns_in has_index a ∧ columns_in has_index b | _ => True end
      else match args with a :: _ => ∀ c t, column_of a = Some (c, t) → has_index c | [] => True end
  | _ => True
  end.

Lemma connective_name name : String.eqb name "AND" || String.eqb name "OR" = true → name = "AND"%string ∨ name = "OR"%string.
Proof using. intros [H|H]%orb_true_elim; apply String.eqb_eq in H; auto. Qed.

Lemma evaluate_connective t name l r a b :
  name = "AND"%string ∨ name = "OR"%string → evaluate the_row l = Some (VBoolean a) → evaluate the_row r = Some (VBoolean b) →
  evaluate the_row (FunctionExpression name t [l; r]) = Some (VBoolean (combine (if String.eqb name "AND" then kAnd else kOr) a b)).
Proof using. intros [-> | ->] Hl Hr; cbn [evaluate map all_some]; rewrite Hl, Hr; done. Qed.

(** The commands made of such an expression put its value on the stack. *)
Lemma build_exact has_index e : ∀ elems result_ s' stack,
  qualified_ok e → columns_in has_index e → BuildFilterEvaluator e = Ok elems →
  res_fold build_step (kSavedToResult, result_) elems = Ok s' → Forall (elem_ok has_index) result_ → runs key result_ = Some stack →
  ∃ r b, s' = (kSavedToResult, r) ∧ evaluate the_row e = Some (VBoolean b) ∧ runs key r = Some (b :: stack) ∧ Forall (elem_ok has_index) r.
Proof using.
  induction e as [ci s t|v0|t a IH|n t args IH|t] using Expr_induction; try done. intros elems result_ s' stack.
  cbn [qualified_ok columns_in BuildFilterEvaluator]. destruct (_ || _) eqn:Hname.
  - destruct args as [|a [|b [|? ?]]]; try done. apply Forall_cons in IH as [IHa IH]. apply Forall_cons in IH as [IHb _].
    intros [Hqa Hqb] [Hca Hcb] (elems' & He & [= <-])%res_bind_ok. apply res_bind_ok in He as (la & Hla & He). apply res_bind_ok in He as (lb' & Hlb & [= <-]).
    apply res_bind_ok in Hlb as (lb & Hlb & [= <-]). rewrite app_nil_r, !res_fold_app. intros Hf Hok Hr.
    apply res_bind_ok in Hf as (s2 & Hf & Hc). apply res_bind_ok in Hf as (s1 & Hf1 & Hf2).
    destruct (IHa _ _ _ _ Hqa Hca Hla Hf1 Hok Hr) as (r1 & ba & -> & Hea & Hr1 & Hok1).
    destruct (IHb _ _ _ _ Hqb Hcb Hlb Hf2 Hok1 Hr1) as (r2 & bb & -> & Heb & Hr2 & Hok2).
    cbn [res_fold] in Hc. apply res_bind_ok in Hc as (s3 & Hc & [= <-]).
    destruct (combine_step has_index key _ r2 s3 stack ba bb Hok2 Hr2 Hc) as (r & -> & Hr3 & Hok3). eexists r, _. split; [done|].
    split; [|done]. by apply evaluate_connective; [apply connective_name|..].
  - destruct (compare_op n) as [op|] eqn:Hop; [|done]. destruct args as [|l [|r [|? ?]]]; try done.
    intros (Hvalid & Hvr & Hside) Hcol He Hf Hok Hr. pose proof He as He'. unfold evaluate_compare_elems in He'.
    apply res_bind_ok in He' as (v & Hval & _). destruct (Hside Hvalid Hvr v Hval) as [c Hc]. pose proof (column_at _ _ _ _ (index_value _ _ _ _ Hc)) as (ty & Hat & _).
    destruct (compare_command has_index n op t l r c v elems result_ s' Hop Hvalid Hvr Hval Hc (Hcol _ _ Hat) He Hf) as (e & b & -> & Heval & Hrun & Hel).
    exists (e :: result_), b. split; [done|]. split; [done|]. split; [by rewrite runs_cons, Hr|by constructor].
Qed.

(** *** The rewritten filter *)

Lemma compare_op_op_name op : compare_op (op_name op) = Some op.
Proof using. by destruct op. Qed.

Lemma op_reverse_involutive op : op_reverse (op_reverse op) = op.
Proof using. by destruct op. Qed.

Lemma rewrite_compare f_name op t args e' :
  compare_op f_name = Some op → index_ok (FunctionExpression f_name t args) → CheckExprIndexStateAndRewrite candidates f_name t args = Ok (Some e') →
  qualified_ok e' ∧ evaluate the_row e' = evaluate the_row (FunctionExpression f_name t args).
Proof using.
  intros Hop Hok Hc. destruct (compare_op_name _ _ Hop) as (H1 & H2 & _). cbn [index_ok] in Hok. rewrite H1, H2, Hop in Hok. cbn [orb] in Hok.
  unfold CheckExprIndexStateAndRewrite in Hc. rewrite Hop in Hc. destruct args as [|l [|r [|? ?]]]; try discriminate Hc. cbn [HaveLeftColumnAndRightValue HaveRightColumnAndLeftValue res_bind] in Hc.
  destruct Hok as [Hl Hr]. destruct (IsValidColumnExpression is_indexed l && IsValueResultExpression r) eqn:Hlr.
  - injection Hc as <-. apply andb_prop in Hlr as [Hlv Hrv]. cbn [qualified_ok]. rewrite H1, H2, Hop. cbn [orb]. done.
  - destruct (_ && _) eqn:Hrl in Hc; [|discriminate Hc]. injection Hc as <-. apply andb_prop in Hrl as [Hrv Hlv].
    pose proof (compare_op_op_name (op_reverse op)) as Hop'. destruct (compare_op_name _ _ Hop') as (H1' & H2' & _). cbn [rev app]. split.
    + cbn [qualified_ok]. rewrite H1', H2', Hop'. cbn [orb]. done.
    + destruct (evaluate the_row l) as [v|] eqn:Hel.
      2:{ cbn [evaluate map all_some]. rewrite Hel. by destruct (evaluate the_row r). }
      assert (Hval : CalcValueResult l = Ok v).
      { rewrite (value_result_row _ no_row) in Hel by done. destruct l; cbn [CalcValueResult] in *; try by rewrite Hel. by injection Hel as ->. }
      destruct (Hr Hrv Hlv v Hval) as [c [Hcv _ Hvok _ Htype _ _]]. destruct (column_expression_value _ _ _ _ _ Hrv Hcv) as (w & Hw & Htw & _).
      destruct (column_at _ _ _ _ Hcv) as (ty & Hat & _). assert (Hord : has_order (Expr_type r) = true) by (by eapply index_ordered).
      rewrite (evaluate_compare the_row _ _ _ r l w v Hop' Hw Hel) by congruence.
      rewrite (evaluate_compare the_row _ _ _ l r v w Hop Hel Hw) by congruence. by rewrite op_reverse_holds.
Qed.

Lemma rewrite_exact e : ∀ e',
  index_ok e → RewriteForIndexScan candidates e = Ok (Some e') → qualified_ok e' ∧ evaluate the_row e' = evaluate the_row e.
Proof using.
  induction e as [ci s t|v0|t a IH|n t args IH|t] using Expr_induction; try done. intros e' Hok Hr. cbn [RewriteForIndexScan] in Hr.
  destruct (_ || _) eqn:Hname.
  - cbn [index_ok] in Hok. rewrite Hname in Hok. destruct args as [|a [|b [|? ?]]]; try done. destruct Hok as [Ha Hb].
    apply Forall_cons in IH as [IHa IH]. apply Forall_cons in IH as [IHb _].
    apply res_bind_ok in Hr as (l & Hl & Hr). destruct l as [l|]; [|done]. apply res_bind_ok in Hr as (r & Hr' & Hr). destruct r as [r|]; [|done].
    injection Hr as <-. destruct (IHa l Ha Hl) as [Hql Hel]. destruct (IHb r Hb Hr') as [Hqr Her]. split.
    + cbn [qualified_ok]. by rewrite Hname.
    + cbn [evaluate map]. by rewrite Hel, Her.
  - destruct (String.eqb n "NOT"); [done|]. destruct (compare_op n) as [op|] eqn:Hop; [by apply (rewrite_compare n op t args)|].
    unfold CheckExprIndexStateAndRewrite in Hr. by rewrite Hop in Hr.
Qed.

(** ** The parts of a filter *)

Definition satisfies (e : Expr) : Prop := evaluate the_row e = Some (VBoolean true).

(** No filter is true. *)
Definition satisfies_opt (o : option Expr) : Prop := match o with Some e => satisfies e | None => True end.

Lemma satisfies_and t a b : satisfies (FunctionExpression "AND" t [a; b]) ↔ satisfies a ∧ satisfies b.
Proof using. split; [apply and_true|]. intros [Ha Hb]. exact (evaluate_connective t "AND" a b true true (or_introl eq_refl) Ha Hb). Qed.

Lemma flatten_exact e : index_ok e → Forall index_ok (FlattenAndExpression e) ∧ (satisfies e ↔ Forall satisfies (FlattenAndExpression e)).
Proof using.
  induction e as [ci s t|v0|t a IH|n t args IH|t] using Expr_induction; intros Hok; cbn [FlattenAndExpression];
    try (split; [by constructor|by rewrite Forall_singleton]).
  destruct (String.eqb_spec n "AND") as [->|Hn]; [|split; [by constructor|]; by rewrite Forall_singleton].
  cbn [index_ok] in Hok. cbn in Hok. destruct args as [|a [|b [|? ?]]]; try done. destruct Hok as [Ha Hb].
  apply Forall_cons in IH as [IHa IH]. apply Forall_cons in IH as [IHb _]. destruct (IHa Ha) as [Oa Ea]. destruct (IHb Hb) as [Ob Eb].
  cbn [map concat]. rewrite app_nil_r, !Forall_app. split; [done|]. by rewrite satisfies_and, Ea, Eb.
Qed.

Lemma candidates_exact es : ∀ cs ls,
  Forall index_ok es → FindIndexFilterCandidates candidates es = Ok (cs, ls) →
  Forall qualified_ok cs ∧ (Forall satisfies es ↔ Forall satisfies cs ∧ Forall satisfies ls).
Proof using.
  induction es as [|e es IH]; intros cs ls Hok Hf; [by injection Hf as <- <-|]. cbn [FindIndexFilterCandidates] in Hf.
  apply Forall_cons in Hok as [He Hes]. apply res_bind_ok in Hf as (o & Ho & Hf). apply res_bind_ok in Hf as ([cs' ls'] & Hf & Hr).
  destruct (IH cs' ls' Hes Hf) as [Hq Heq]. rewrite Forall_cons, Heq. destruct o as [e'|]; injection Hr as <- <-.
  - destruct (rewrite_exact e e' He Ho) as [Hq' He']. rewrite !Forall_cons.
    assert (satisfies e' ↔ satisfies e) by (unfold satisfies; by rewrite He'). tauto.
  - rewrite !Forall_cons. tauto.
Qed.

(** The conjunction of a list keeps what each of its members has. *)
Lemma and_all_keeps (P : Expr → Prop) es :
  (∀ a b, P a → P b → P (FunctionExpression "AND" kBoolean [a; b])) → Forall P es → ∀ q, and_all es = Some q → P q.
Proof using.
  intros Hand Hes. unfold and_all.
  assert (Hgo : ∀ acc : option Expr, (∀ q, acc = Some q → P q) →
    ∀ q, fold_left (fun acc e => Some match acc with None => e | Some a => FunctionExpression "AND" kBoolean [a; e] end) es acc = Some q → P q).
  { induction Hes as [|e es He _ IH]; intros acc Hacc; [exact Hacc|]. cbn [fold_left]. apply IH. intros q [= <-]. destruct acc as [a|]; [|done].
    apply Hand; [by apply Hacc|done]. }
  by apply Hgo.
Qed.

Lemma and_all_exact es : satisfies_opt (and_all es) ↔ Forall satisfies es.
Proof using.
  unfold and_all. transitivity (satisfies_opt None ∧ Forall satisfies es); [|cbn; tauto]. generalize (@None Expr) as acc.
  induction es as [|e es IH]; intros acc; cbn [fold_left]; [rewrite Forall_nil; tauto|]. rewrite IH, Forall_cons. destruct acc as [a|]; cbn [satisfies_opt].
  - rewrite satisfies_and. tauto.
  - tauto.
Qed.
End Row.

(** ** The indexes of a plan *)

Section Indexes.
Context {Index : Type} (candidates : gmap Z Index).

Notation has m := (fun c : Z => is_Some (m !! c)).

Lemma columns_mono (P Q : Z → Prop) e : (∀ c, P c → Q c) → columns_in P e → columns_in Q e.
Proof using.
  intros HPQ. induction e as [ci s t|v0|t a IH|n t args IH|t] using Expr_induction; try done. cbn [columns_in]. destruct (_ || _).
  - destruct args as [|a [|b args]]; try done. apply Forall_cons in IH as [IHa IH]. apply Forall_cons in IH as [IHb _]. tauto.
  - destruct args as [|a args]; [done|]. intros H c t' Hc. by eapply HPQ, H.
Qed.

Lemma add_column m m' c : AddColumnToResultMap candidates m c = Some m' → m ⊆ candidates → m ⊆ m' ∧ m' ⊆ candidates ∧ is_Some (m' !! c).
Proof using.
  unfold AddColumnToResultMap. destruct (m !! c) as [i|] eqn:Hm; [intros [= <-]; split; [done|]; split; [done|]; by rewrite Hm|].
  destruct (candidates !! c) as [i|] eqn:Hc; [|done]. intros [= <-] Hsub. split; [by apply insert_subseteq|]. split.
  - by apply insert_subseteq_l.
  - by rewrite lookup_insert_eq.
Qed.

Lemma add_column_expression e m m' :
  AddIndexForColumnExpression candidates m e = Some m' → m ⊆ candidates → m ⊆ m' ∧ m' ⊆ candidates ∧ ∀ c t, column_of e = Some (c, t) → is_Some (m' !! c).
Proof using.
  induction e as [ci s t|v0|t a IH|n t args _|t] using Expr_induction; try done; cbn [AddIndexForColumnExpression column_of].
  intros Ha Hsub. destruct (add_column _ _ _ Ha Hsub) as (? & ? & ?). split; [done|]. split; [done|]. by intros c t' [= <- <-].
Qed.

Lemma add_expression e : ∀ m m',
  AddIndexForBooleanExpression candidates m e = Ok (Some m') → m ⊆ candidates → m ⊆ m' ∧ m' ⊆ candidates ∧ columns_in (has m') e.
Proof using.
  induction e as [ci s t|v0|t a IH|n t args IH|t] using Expr_induction; try done. intros m m'. cbn [AddIndexForBooleanExpression columns_in].
  destruct (_ || _).
  - destruct args as [|a [|b args]]; try done. apply Forall_cons in IH as [IHa IH]. apply Forall_cons in IH as [IHb _].
    intros (o & Ho & Hr)%res_bind_ok Hsub. destruct o as [m1|]; [|done]. destruct (IHa m m1 Ho Hsub) as (H1 & H2 & H3).
    destruct (IHb m1 m' Hr H2) as (H4 & H5 & H6). split; [by etrans|]. split; [done|]. split; [|done].
    eapply columns_mono; [|exact H3]. cbn beta. intros c [i Hi]. exists i. by eapply lookup_weaken.
  - destruct (String.eqb n "NOT"); [done|]. destruct args as [|a args]; [done|]. intros [= Ha]. by apply add_column_expression.
Qed.

Lemma add_indexes_ok es m : add_indexes candidates es = Ok m → m ⊆ candidates ∧ Forall (columns_in (has m)) es.
Proof using.
  unfold add_indexes. assert (Hgo : ∀ m0, m0 ⊆ candidates → res_fold (fun m e => let? m := AddIndexForBooleanExpression candidates m e in
    match m with Some m => Ok m | None => Err UnrecoverableError end) m0 es = Ok m → m0 ⊆ m ∧ m ⊆ candidates ∧ Forall (columns_in (has m)) es).
  { induction es as [|e es IH]; intros m0 Hsub Hf; [injection Hf as <-; done|]. cbn [res_fold] in Hf. apply res_bind_ok in Hf as (m1 & Hm1 & Hf).
    apply res_bind_ok in Hm1 as (o & Ho & Hm1). destruct o as [m2|]; [|done]. injection Hm1 as <-. destruct (add_expression e m0 m2 Ho Hsub) as (H1 & H2 & H3).
    destruct (IH m2 H2 Hf) as (H4 & H5 & H6). split; [by etrans|]. split; [done|]. constructor; [|done].
    eapply columns_mono; [|exact H3]. cbn beta. intros c [i Hi]. exists i. by eapply lookup_weaken. }
  intros Hf. destruct (Hgo ∅ (map_empty_subseteq _) Hf) as (_ & ? & ?). done.
Qed.

Lemma InitColumnIndexEntries_in (indexes : list (Z * Index)) c i : InitColumnIndexEntries indexes !! c = Some i → (c, i) ∈ indexes.
Proof using.
  unfold InitColumnIndexEntries. assert (Hgo : ∀ m : gmap Z Index, fold_left (fun m '(column_id, index) => match m !! column_id with Some _ => m | None => <[column_id := index]> m end) indexes m !! c = Some i →
    m !! c = Some i ∨ (c, i) ∈ indexes).
  { induction indexes as [|[c' i'] indexes IH]; intros m Hm; [by left|]. cbn [fold_left] in Hm. destruct (IH _ Hm) as [Hl|Hl]; [|right; by constructor].
    destruct (m !! c') eqn:Hc; [by left|]. apply lookup_insert_Some in Hl as [[-> ->]|[_ Hl]]; [right; constructor|by left]. }
  intros Hm. by destruct (Hgo _ Hm) as [He|?].
Qed.
End Indexes.

(** The plan of a filter, for one row of the table: the row satisfies the filter if and only if it
    satisfies the part for the indexes and the rest; the commands say whether it satisfies the first. *)
Lemma plan_exact {Index} (indexes : list (Z * Index)) special_column row key e plan :
  index_ok (InitColumnIndexEntries indexes) special_column row key e → SolveForIndexScan indexes e = Ok plan →
  (satisfies special_column row e ↔
    satisfies_opt special_column row (index_filter_qualified_ plan) ∧ satisfies_opt special_column row (extra_leftover_filter_ plan)) ∧
  (∀ q, index_filter_qualified_ plan = Some q →
    ∃ b, run key [] (filter_execute_command_ plan) = Some [b] ∧ (b = true ↔ satisfies special_column row q) ∧
      Forall (elem_ok (fun c => is_Some (column_index_map_ plan !! c))) (filter_execute_command_ plan)) ∧
  column_index_map_ plan ⊆ InitColumnIndexEntries indexes.
Proof using.
  intros Hok Hs. unfold SolveForIndexScan in Hs. set (candidates := InitColumnIndexEntries indexes) in *.
  apply res_bind_ok in Hs as ([cs ls] & Hc & Hs). apply res_bind_ok in Hs as (m & Hm & Hs). apply res_bind_ok in Hs as (command & Hcmd & [= <-]).
  cbn [index_filter_qualified_ extra_leftover_filter_ filter_execute_command_ column_index_map_].
  destruct (flatten_exact _ _ _ _ _ Hok) as [Hoks Hflat]. destruct (candidates_exact _ _ _ _ _ _ _ Hoks Hc) as [Hq Hsplit].
  destruct (add_indexes_ok _ _ _ Hm) as [Hsub Hcols]. split; [|split; [|done]].
  - by rewrite Hflat, Hsplit, !and_all_exact.
  - intros q Hqe. rewrite Hqe in Hcmd. unfold BuildSecondaryIndexScanCommand, FilterCommandBuilder_Build in Hcmd.
    apply res_bind_ok in Hcmd as (elems & Hb & Hcmd). apply res_bind_ok in Hcmd as ([progress r] & Hf & Hcmd).
    assert (Hqq : qualified_ok candidates special_column row key q) by (by eapply and_all_keeps; [|exact Hq|exact Hqe]).
    assert (Hqc : columns_in (fun c => is_Some (m !! c)) q) by (by eapply and_all_keeps; [|exact Hcols|exact Hqe]).
    destruct (build_exact _ _ _ _ _ q elems [] _ [] Hqq Hqc Hb Hf (Forall_nil_2 _) eq_refl) as (r' & b & [= -> ->] & He & Hr & Hel).
    injection Hcmd as <-. exists b. split; [done|]. split; [|by apply Forall_rev]. unfold satisfies. rewrite He. split; congruence.
Qed.
End Plan.
