(* ===== verification/IndexScanSpec.v ===== *)
(** * What an index scan finds

    The commands of a plan, run on the row sets of a segment, select exactly the rows whose keys are in
    the ranges of the commands.  With [IndexPlanSpec.v]: a segment gives exactly the rows that satisfy
    the part of the filter for the indexes, as far as [DeleteFilter] lets them through. *)

From Stdlib Require Import ZArith Lia List String.
From stdpp Require Import base list numbers sets sorting strings gmap.
From S2P Require Import Prelude Bytes DataTypes DateTime CatalogDelta BlockVersion BlockEntry Bitmask SegmentEntry Floating FilterExpr FilterSpec RoughFilter RoughFilterSpec RoughFilterProps SecondaryIndex SecondaryIndexSpec IndexScan IndexPlanSpec.
Local Open Scope Z_scope.

(** ** Masks that do not share buffers *)

(** An operation on the masks [ms] makes [ms'] and leaves every other mask alone. *)
Definition framed (h h' : heap) (ms ms' : list Bitmask) : Prop :=
  ∀ c, bm_ok h c → Forall (fun m => separate m c) ms → bm_ok h' c ∧ (∀ j, row h' c j = row h c j) ∧ Forall (fun m => separate m c) ms'.

Lemma framed_refl h ms : framed h h ms ms.
Proof. by intros c Hc Hs. Qed.

Lemma framed_drop h ms : framed h h ms [].
Proof. intros c Hc Hs. split; [done|]. split; [done|]. constructor. Qed.

Lemma framed_trans h1 h2 h3 a b c : framed h1 h2 a b → framed h2 h3 b c → framed h1 h3 a c.
Proof.
  intros H1 H2 m Hm Hs. destruct (H1 m Hm Hs) as (Hm1 & Hr1 & Hs1). destruct (H2 m Hm1 Hs1) as (Hm2 & Hr2 & Hs2).
  split; [done|]. split; [|done]. intros j. by rewrite Hr2.
Qed.

(** More masks than the operation is on. *)
Lemma framed_app h h' a b c : framed h h' a b → framed h h' (a ++ c) (b ++ c).
Proof. intros Hf m Hm [Ha Hc]%Forall_app. destruct (Hf m Hm Ha) as (? & ? & ?). rewrite Forall_app. done. Qed.

Lemma frame_framed h h' b b' : frame h h' b → (∀ c, bm_ok h c → separate b c → separate b' c) → framed h h' [b] [b'].
Proof. intros Hf Hs c Hc [Hb _]%Forall_cons. destruct (Hf c Hc Hb). split; [done|]. split; [done|]. constructor; [auto|constructor]. Qed.

Lemma SetAllFalse_framed h b b' h' : bm_ok h b → SetAllFalse h b = Ok (b', h') → framed h h' [b] [b'].
Proof.
  intros Hok Hs. destruct (SetAllFalse_ok h b Hok) as (b1 & h1 & l & us & Hs' & _ & _ & _ & _ & _ & _ & Hf). rewrite Hs in Hs'. injection Hs' as <- <-.
  apply frame_framed; [done|]. intros c Hc Hsep. unfold SetAllFalse in Hs.
  destruct (ensure_buffer_ok h b Hok) as (l1 & b2 & h2 & He & _ & _ & _ & _ & Hf2). rewrite He in Hs. cbn [res_bind] in Hs.
  apply res_bind_ok in Hs as (h3 & _ & [= <- <-]). by apply Hf2.
Qed.

(** A mask that has no row. *)
Lemma empty_mask_ok h count :
  0 ≤ count < 2 ^ 31 → not_power_of_2 count = false →
  ∃ m h', empty_mask h count = Ok (m, h') ∧ bm_ok h' m ∧ count_ m = count ∧ (∀ j, in_units m j → row h' m j = false) ∧ framed h h' [] [m].
Proof.
  intros Hc Hp. unfold empty_mask, Initialize. cbn [new_Bitmask count_ buffer_ptr]. rewrite Z.eqb_refl, Hp. cbn [negb res_bind].
  assert (Hok : bm_ok h (mkBitmask None count)) by done.
  destruct (SetAllFalse_ok h _ Hok) as (m & h' & l & us & Hs & Hm & Hcm & _ & _ & _ & Hr & _). exists m, h'. cbn [count_] in Hcm. split; [done|].
  split; [done|]. split; [done|]. split; [intros j Hj; apply Hr; unfold in_units in *; by rewrite Hcm in Hj|].
  intros c Hc' _. apply (SetAllFalse_framed h _ m h' Hok Hs c Hc'). constructor; [|constructor]. unfold separate. by destruct (buffer_ptr c).
Qed.

Lemma set_rows_true_ok rows : ∀ h m,
  bm_ok h m → Forall (in_units m) rows →
  ∃ h', set_rows_true h m rows = Ok (m, h') ∧ bm_ok h' m ∧ (∀ j, in_units m j → row h' m j = row h m j || bool_decide (j ∈ rows)) ∧
    framed h h' [m] [m].
Proof.
  unfold set_rows_true. induction rows as [|r rows IH]; intros h m Hm Hrows; cbn [res_fold].
  { exists h. split; [done|]. split; [done|]. split; [|apply framed_refl]. intros j _. rewrite bool_decide_eq_false_2 by set_solver. by rewrite orb_false_r. }
  apply Forall_cons in Hrows as [Hr Hrows]. destruct (SetTrue_ok h m r Hm Hr) as (h1 & -> & Hm1 & Hr1 & Hf1). cbn [res_bind].
  destruct (IH h1 m Hm1 Hrows) as (h2 & -> & Hm2 & Hr2 & Hf2). exists h2. split; [done|]. split; [done|]. split.
  - intros j Hj. rewrite Hr2, Hr1 by done. case_decide as Hd.
    + rewrite (bool_decide_eq_true_2 (j ∈ r :: rows)) by set_solver. by rewrite orb_true_r.
    + f_equal. apply bool_decide_ext. set_solver.
  - eapply framed_trans; [|exact Hf2]. by apply frame_framed.
Qed.

(** [Merge] and [MergeOr] keep masks that share no buffer with either operand. *)
Lemma merge_units_framed op f h b c b' h' :
  (∀ x y j, 0 ≤ j → Z.testbit (op x y) j = f (Z.testbit x j) (Z.testbit y j)) →
  (∀ x y, in_range u64 x → in_range u64 y → in_range u64 (op x y)) → (∀ x, f x x = x) →
  bm_ok h b → bm_ok h c → count_ b = count_ c → is_Some (buffer_ptr b) → is_Some (buffer_ptr c) →
  merge_units op h b c = Ok (b', h') → framed h h' [b; c] [b'].
Proof.
  intros Hbits Hrange Hidem Hb Hc Hcnt [l Hl] [l' Hl'] Hm.
  destruct (merge_units_spec op f Hbits Hrange h b c l l' Hl Hl' Hidem Hb Hc Hcnt) as (h1 & Hm' & _ & Hf & _). rewrite Hm in Hm'. injection Hm' as -> ->.
  intros d Hd [Hs _]%Forall_cons. destruct (Hf d Hd Hs). split; [done|]. split; [done|]. by constructor.
Qed.

Lemma Merge_framed h b c b' h' : bm_ok h b → bm_ok h c → count_ b = count_ c → Merge h b c = Ok (b', h') → framed h h' [b; c] [b'].
Proof.
  intros Hb Hc Hcnt Hm. unfold Merge in Hm. apply res_bind_ok in Hm as (rc & Hrc & Hm). destruct rc.
  { injection Hm as <- <-. intros d Hd [Hs _]%Forall_cons. split; [done|]. split; [done|]. by constructor. }
  apply res_bind_ok in Hm as (rb & Hrb & Hm). apply not_all_true_buffer in Hrc as Hsc. destruct rb.
  - unfold ShallowCopy in Hm. rewrite Hrc in Hm. cbn [res_bind] in Hm. unfold merge_units in Hm. cbn [buffer_ptr] in Hm. rewrite bool_decide_eq_true_2 in Hm by done.
    injection Hm as <- <-. intros d Hd [_ [Hs _]%Forall_cons]%Forall_cons. split; [done|]. split; [done|]. by constructor.
  - apply not_all_true_buffer in Hrb as Hsb. cbn [res_bind] in Hm. eapply (merge_units_framed Z.land andb); try exact Hm; try done.
    + intros. apply Z.land_spec.
    + intros. by apply u64_land.
    + apply andb_diag.
Qed.

Lemma MergeOr_framed h b c b' h' : bm_ok h b → bm_ok h c → count_ b = count_ c → MergeOr h b c = Ok (b', h') → framed h h' [b; c] [b'].
Proof.
  intros Hb Hc Hcnt Hm. unfold MergeOr in Hm. apply res_bind_ok in Hm as (rb & Hrb & Hm). destruct rb.
  { injection Hm as <- <-. intros d Hd [Hs _]%Forall_cons. split; [done|]. split; [done|]. by constructor. }
  apply res_bind_ok in Hm as (rc & Hrc & Hm). destruct rc.
  { injection Hm as <- <-. intros d Hd _. split; [done|]. split; [done|]. constructor; [|constructor]. unfold separate, SetAllTrue. by destruct (buffer_ptr d). }
  apply not_all_true_buffer in Hrb. apply not_all_true_buffer in Hrc. eapply (merge_units_framed Z.lor orb); try exact Hm; try done.
  - intros. apply Z.lor_spec.
  - intros. by apply u64_lor.
  - apply orb_diag.
Qed.

(** ** Sets of rows *)

(** The rows of a segment with [n] rows that satisfy [P], in order. *)
Definition rows_where (n : Z) (P : Z → bool) : list Z := filter (fun r => P r = true) (seqZ 0 n).

Lemma elem_of_rows n P r : r ∈ rows_where n P ↔ (0 ≤ r < n) ∧ P r = true.
Proof. unfold rows_where. rewrite list_elem_of_filter, elem_of_seqZ. naive_solver lia. Qed.

Lemma seqZ_sorted n : ∀ a, 0 ≤ n → StronglySorted Z.lt (seqZ a n).
Proof.
  intros a Hn. revert a. pattern n. apply natlike_ind; [constructor| |done]. intros m Hm IH a. rewrite seqZ_cons by lia.
  replace (Z.pred (Z.succ m)) with m by lia. constructor; [apply IH|]. apply Forall_forall. intros z Hz%elem_of_seqZ. lia.
Qed.

Lemma filter_sorted {A} (R : relation A) (P : A → Prop) `{∀ x, Decision (P x)} l : StronglySorted R l → StronglySorted R (filter P l).
Proof.
  induction 1 as [|x l Hl IH Hx]; [constructor|]. rewrite filter_cons. case_decide; [|done]. constructor; [done|].
  rewrite Forall_forall in Hx |- *. intros y [_ Hy]%list_elem_of_filter. by apply Hx.
Qed.

Lemma rows_sorted n P : 0 ≤ n → StronglySorted Z.lt (rows_where n P).
Proof. intros Hn. by apply filter_sorted, seqZ_sorted. Qed.

(** A sorted list without duplicates is determined by its members. *)
Lemma sorted_unique a : ∀ b, StronglySorted Z.lt a → StronglySorted Z.lt b → (∀ r, r ∈ a ↔ r ∈ b) → a = b.
Proof.
  induction a as [|x a IH]; intros b Ha Hb Heq; destruct b as [|y b]; [done|set_solver|set_solver|].
  apply StronglySorted_inv in Ha as [Ha Hx]. apply StronglySorted_inv in Hb as [Hb Hy]. rewrite Forall_forall in Hx, Hy.
  assert (x = y) as ->.
  { assert (x ∈ y :: b) as [->|Hxb]%elem_of_cons by (apply Heq; left); [done|]. assert (y ∈ x :: a) as [->|Hya]%elem_of_cons by (apply Heq; left); [done|].
    specialize (Hx _ Hya). specialize (Hy _ Hxb). lia. }
  f_equal. apply IH; [done|done|]. intros r. specialize (Heq r). rewrite !elem_of_cons in Heq.
  assert (r ∈ a → r ≠ y) by (intros Hr ->; specialize (Hx _ Hr); lia). assert (r ∈ b → r ≠ y) by (intros Hr ->; specialize (Hy _ Hr); lia). tauto.
Qed.

Lemma rows_unique n P l : 0 ≤ n → StronglySorted Z.lt l → (∀ r, r ∈ l ↔ (0 ≤ r < n) ∧ P r = true) → l = rows_where n P.
Proof. intros Hn Hs Hl. apply sorted_unique; [done|by apply rows_sorted|]. intros r. by rewrite Hl, elem_of_rows. Qed.

Lemma rows_or n P Q : 0 ≤ n → set_union (rows_where n P) (rows_where n Q) = rows_where n (fun r => P r || Q r).
Proof.
  intros Hn. apply rows_unique; [done|by apply set_union_sorted; apply rows_sorted|]. intros r. rewrite elem_of_set_union, !elem_of_rows, orb_true_iff. tauto.
Qed.

Lemma intersect_rows_nil l : intersect_rows l [] = [].
Proof. by induction l. Qed.

Lemma intersect_cons x a y b :
  intersect_rows (x :: a) (y :: b) =
  if y <? x then intersect_rows (x :: a) b else if y =? x then x :: intersect_rows a b else intersect_rows a (y :: b).
Proof. done. Qed.

(** [intersect_rows] of sorted lists. *)
Lemma intersect_ok a : StronglySorted Z.lt a → ∀ b, StronglySorted Z.lt b →
  StronglySorted Z.lt (intersect_rows a b) ∧ ∀ r, r ∈ intersect_rows a b ↔ r ∈ a ∧ r ∈ b.
Proof.
  induction 1 as [|x a Ha IHa Hx]; intros b Hb; [split; [constructor|set_solver]|]. rewrite Forall_forall in Hx.
  induction Hb as [|y b Hb IHb Hy]; [rewrite intersect_rows_nil; split; [constructor|set_solver]|].
  pose proof (SSorted_cons y Hb Hy) as Hyb. rewrite Forall_forall in Hy. rewrite intersect_cons. destruct (Z.ltb_spec y x).
  - destruct IHb as [Hs Hm]. split; [done|]. intros r. rewrite Hm, !elem_of_cons.
    assert (r ∈ a → r ≠ y) by (intros Hr ->; specialize (Hx _ Hr); lia). assert (r = x → r ≠ y) by lia. tauto.
  - destruct (Z.eqb_spec y x) as [->|].
    + destruct (IHa b Hb) as [Hs Hm]. split.
      * constructor; [done|]. apply Forall_forall. intros r [Hr _]%Hm. by apply Hx.
      * intros r. rewrite !elem_of_cons, Hm. assert (r ∈ b → r ≠ x) by (intros Hr ->; specialize (Hy _ Hr); lia).
        assert (r ∈ a → r ≠ x) by (intros Hr ->; specialize (Hx _ Hr); lia). tauto.
    + destruct (IHa (y :: b) Hyb) as [Hs Hm]. split; [done|]. intros r. rewrite Hm, !elem_of_cons.
      assert (r ∈ b → r ≠ x) by (intros Hr ->; specialize (Hy _ Hr); lia). assert (r = y → r ≠ x) by lia. tauto.
Qed.

Lemma rows_and n P Q : 0 ≤ n → intersect_rows (rows_where n P) (rows_where n Q) = rows_where n (fun r => P r && Q r).
Proof.
  intros Hn. destruct (intersect_ok _ (rows_sorted n P Hn) _ (rows_sorted n Q Hn)) as [Hs Hm]. apply rows_unique; [done|done|].
  intros r. rewrite Hm, !elem_of_rows, andb_true_iff. tauto.
Qed.

(** *** Powers of two *)

Lemma bit_ceil_power n : 1 ≤ n ≤ 2 ^ 30 → not_power_of_2 (bit_ceil n) = false ∧ n ≤ bit_ceil n < 2 ^ 31.
Proof.
  intros Hn. assert (∃ k, bit_ceil n = 2 ^ k ∧ 0 ≤ k ≤ 30 ∧ n ≤ 2 ^ k) as (k & -> & Hk & Hle).
  { unfold bit_ceil. destruct (Z.leb_spec n 1); [exists 0; split; [done|]; split; [lia|]; cbn; lia|]. exists (Z.log2_up n). split; [done|].
    split; [|apply Z.log2_up_spec; lia]. split; [apply Z.log2_up_nonneg|]. change 30 with (Z.log2_up (2 ^ 30)). apply Z.log2_up_le_mono. lia. }
  assert (Hall : forallb (fun k => negb (not_power_of_2 (2 ^ k)) && (2 ^ k <? 2 ^ 31)) (seqZ 0 31) = true) by (vm_compute; reflexivity).
  rewrite forallb_forall in Hall. specialize (Hall k). apply andb_prop in Hall as [H1%negb_true_iff H2%Z.ltb_lt]; [done|].
  apply list_elem_of_In, elem_of_seqZ. lia.
Qed.

Lemma bit_ceil_id n : 1 ≤ n ≤ 2 ^ 30 → not_power_of_2 n = false → bit_ceil n = n.
Proof.
  intros Hn Hp. destruct (power_of_2_multiple n (Z.log2 n) (Z.log2_nonneg n)) as [q Hq]; [|done|].
  { destruct (Z.log2_spec n ltac:(lia)). split; [done|]. change (2 ^ 31) with 2147483648. change (2 ^ 30) with 1073741824 in Hn. lia. }
  destruct (Z.log2_spec n ltac:(lia)) as [H1 H2]. rewrite Z.pow_succ_r in H2 by apply Z.log2_nonneg.
  pose proof (Z.pow_pos_nonneg 2 (Z.log2 n) ltac:(lia) (Z.log2_nonneg n)). assert (q = 1) by nia. subst q. rewrite Z.mul_1_r in Hq.
  unfold bit_ceil. destruct (Z.leb_spec n 1); [lia|]. rewrite Hq at 1. by rewrite Z.log2_up_pow2 by apply Z.log2_nonneg.
Qed.

(** ** Selected rows *)

Definition masks (s : SelectedRows) : list Bitmask := match s with SelectedVector _ => [] | SelectedMask m => [m] end.

(** A mask with the given rows of the first [n]. *)
Definition mask_of (n : Z) (h : heap) (m : Bitmask) (P : Z → bool) : Prop :=
  bm_ok h m ∧ count_ m = bit_ceil n ∧ ∀ j, in_units m j → row h m j = bool_decide (j < n) && P j.

(** The rows of a segment with [n] rows that satisfy [P]. *)
Definition selects (n : Z) (h : heap) (s : SelectedRows) (P : Z → bool) : Prop :=
  match s with SelectedVector rows => rows = rows_where n P | SelectedMask m => mask_of n h m P end.

Lemma selects_ext n h s P Q : (∀ r, P r = Q r) → selects n h s P → selects n h s Q.
Proof.
  intros Heq. destruct s as [rows|m]; cbn.
  - intros ->. unfold rows_where. apply list_filter_iff. intros r. by rewrite Heq.
  - intros (Hok & Hc & Hr). split; [done|]. split; [done|]. intros j Hj. rewrite Hr by done. by rewrite Heq.
Qed.

Lemma selects_frame n h h' s P ms ms' : framed h h' ms ms' → Forall (fun m => Forall (fun m' => separate m' m) ms) (masks s) → selects n h s P → selects n h' s P.
Proof.
  intros Hf Hs. destruct s as [rows|m]; cbn; [done|]. intros (Hok & Hc & Hr). apply Forall_cons in Hs as [Hs _].
  destruct (Hf m Hok Hs) as (Hok' & Hr' & _). split; [done|]. split; [done|]. intros j Hj. rewrite Hr'. by apply Hr.
Qed.

Lemma filter_rows_ok h m rows : bm_ok h m → Forall (in_units m) rows → filter_rows h m rows = Ok (filter (fun r => row h m r = true) rows).
Proof.
  intros Hm. induction 1 as [|r rows Hr _ IH]; [done|]. cbn [filter_rows]. rewrite IsTrue_row, IH by done. cbn [res_bind]. rewrite filter_cons.
  by destruct (row h m r); [rewrite decide_True by done|rewrite decide_False by done].
Qed.

Section Segment.
Context (n : Z) (Hn : 1 ≤ n ≤ 2 ^ 30).

Lemma mask_row h m P r : mask_of n h m P → 0 ≤ r < n → in_units m r.
Proof using Hn.
  intros (_ & Hc & _) Hr. destruct (bit_ceil_power n Hn) as [_ Hb]. apply row_in_units; rewrite Hc; lia.
Qed.

Lemma mask_rows h m P Q : mask_of n h m P → Forall (in_units m) (rows_where n Q).
Proof using Hn. intros Hm. apply Forall_forall. intros r [Hr _]%elem_of_rows. by eapply mask_row. Qed.

Lemma filter_mask h m P Q : mask_of n h m P → filter_rows h m (rows_where n Q) = Ok (rows_where n (fun r => Q r && P r)).
Proof using Hn.
  intros Hm. rewrite filter_rows_ok by (try apply Hm; by eapply mask_rows). f_equal. apply rows_unique; [lia|by apply filter_sorted, rows_sorted; lia|].
  intros r. rewrite list_elem_of_filter, elem_of_rows, andb_true_iff. split.
  - intros (Ht & Hr & Hq). pose proof (mask_row _ _ _ _ Hm Hr) as Hu. destruct Hm as (_ & _ & Hm). rewrite Hm in Ht by done. apply andb_prop in Ht as [_ Ht]. done.
  - intros (Hr & Hq & Hp). split; [|done]. pose proof (mask_row _ _ _ _ Hm Hr) as Hu. destruct Hm as (_ & _ & Hm). rewrite Hm, Hp by done.
    by rewrite bool_decide_eq_true_2 by lia.
Qed.

(** Rows added to a mask. *)
Lemma add_rows h m P rows :
  mask_of n h m P → (∀ r, r ∈ rows → 0 ≤ r < n) →
  ∃ h', set_rows_true h m rows = Ok (m, h') ∧ mask_of n h' m (fun r => P r || bool_decide (r ∈ rows)) ∧ framed h h' [m] [m].
Proof using Hn.
  intros Hm Hrows. destruct (set_rows_true_ok rows h m) as (h' & Hs & Hok & Hr & Hf); [apply Hm|apply Forall_forall; intros r Hr; eapply mask_row; eauto|].
  exists h'. split; [done|]. split; [|done]. pose proof Hm as (_ & Hc & Hmr). split; [done|]. split; [done|]. intros j Hj. rewrite Hr, Hmr by done.
  case_bool_decide as Hjn; [done|]. cbn. apply bool_decide_eq_false_2. intros Hin. specialize (Hrows _ Hin). lia.
Qed.

Lemma mask_ext h m P Q : (∀ r, P r = Q r) → mask_of n h m P → mask_of n h m Q.
Proof using. intros Heq. apply (selects_ext n h (SelectedMask m) P Q Heq). Qed.

Lemma rows_mem Q r : 0 ≤ r < n → bool_decide (r ∈ rows_where n Q) = Q r.
Proof using. intros Hr. destruct (Q r) eqn:Hq; [apply bool_decide_eq_true_2|apply bool_decide_eq_false_2]; rewrite elem_of_rows; [done|intros [_ ?]; congruence]. Qed.

Lemma add_where h m P Q :
  mask_of n h m P → ∃ h', set_rows_true h m (rows_where n Q) = Ok (m, h') ∧ mask_of n h' m (fun r => P r || Q r) ∧ framed h h' [m] [m].
Proof using Hn.
  intros Hm. destruct (add_rows h m P (rows_where n Q) Hm) as (h' & Hs & (Hok & Hc & Hr) & Hf); [by intros r [? _]%elem_of_rows|].
  exists h'. split; [done|]. split; [|done]. split; [done|]. split; [done|]. intros j Hj. rewrite Hr by done. case_bool_decide as Hjn; [|done].
  cbn. rewrite rows_mem; [done|]. split; [apply Hj|done].
Qed.

(** *** Merging *)

Lemma MergeAnd_selects h l r P Q :
  selects n h l P → selects n h r Q →
  ∃ s h', FilterResult_MergeAnd h l r = Ok (s, h') ∧ selects n h' s (fun i => P i && Q i) ∧ framed h h' (masks l ++ masks r) (masks s).
Proof using Hn.
  intros Hl Hr. destruct l as [l|l], r as [r|r]; cbn [FilterResult_MergeAnd masks app].
  - cbn in Hl, Hr. subst. eexists _, h. split; [reflexivity|]. split; [|apply framed_refl]. cbn. apply rows_and. lia.
  - cbn in Hl. subst l. rewrite (filter_mask h r Q P Hr). cbn [res_bind]. eexists _, h. split; [reflexivity|]. split; [done|apply framed_drop].
  - cbn in Hr. subst r. rewrite (filter_mask h l P Q Hl). cbn [res_bind]. eexists _, h. split; [reflexivity|]. split; [|apply framed_drop].
    eapply (selects_ext n h (SelectedVector _)); [|reflexivity]. intros i. cbn beta. apply andb_comm.
  - destruct Hl as (Hlo & Hlc & Hlr), Hr as (Hro & Hrc & Hrr). destruct (Merge_ok h l r Hlo Hro ltac:(congruence)) as (m & h' & Hm & Hok & Hc & Hrow).
    rewrite Hm. cbn [res_bind]. eexists _, h'. split; [reflexivity|]. split; [|by apply Merge_framed; try congruence]. split; [done|]. split; [congruence|].
    intros j Hj. assert (in_units l j ∧ in_units r j) as [Hjl Hjr] by (unfold in_units in *; rewrite Hc in Hj; split; congruence).
    rewrite Hrow, Hlr, Hrr by done. by destruct (bool_decide _), (P j), (Q j).
Qed.

Lemma MergeOr_selects h l r P Q :
  selects n h l P → selects n h r Q →
  ∃ s h', FilterResult_MergeOr h l r = Ok (s, h') ∧ selects n h' s (fun i => P i || Q i) ∧ framed h h' (masks l ++ masks r) (masks s).
Proof using Hn.
  intros Hl Hr. destruct l as [l|l], r as [r|r]; cbn [FilterResult_MergeOr masks app].
  - cbn in Hl, Hr. subst. eexists _, h. split; [reflexivity|]. split; [|apply framed_refl]. cbn. apply rows_or. lia.
  - cbn in Hl. subst l. destruct (add_where h r Q P Hr) as (h' & -> & Hm & Hf). cbn [res_bind]. eexists _, h'. split; [reflexivity|]. split; [|done].
    eapply mask_ext; [|exact Hm]. intros i. cbn beta. apply orb_comm.
  - cbn in Hr. subst r. destruct (add_where h l P Q Hl) as (h' & -> & Hm & Hf). cbn [res_bind]. eexists _, h'. done.
  - destruct Hl as (Hlo & Hlc & Hlr), Hr as (Hro & Hrc & Hrr). destruct (MergeOr_ok h l r Hlo Hro ltac:(congruence)) as (m & h' & Hm & Hok & Hc & Hrow).
    rewrite Hm. cbn [res_bind]. eexists _, h'. split; [reflexivity|]. split; [|by apply MergeOr_framed; try congruence]. split; [done|]. split; [congruence|].
    intros j Hj. assert (in_units l j ∧ in_units r j) as [Hjl Hjr] by (unfold in_units in *; rewrite Hc in Hj; split; congruence).
    rewrite Hrow, Hlr, Hrr by done. by destruct (bool_decide _), (P j), (Q j).
Qed.
End Segment.

(** ** Ranges *)

Definition memory_pairs `{!PgmLibrary} (index : SegmentIndex) : list IndexPair := default [] (memory_secondary_index_ index).

(** The index has the keys of [n] rows, in chunks that are sorted, and in memory. *)
Definition index_has `{!PgmLibrary} (n : Z) (key : Z → Z) (index : SegmentIndex) : Prop :=
  ∃ datas, chunk_index_entries_ index = map (fun d => OutputAndBuild (zlen d) d) datas ∧
    Forall (fun d => sorted_pairs d ∧ 0 < zlen d) datas ∧ sorted_pairs (memory_pairs index) ∧
    concat datas ++ memory_pairs index ≡ₚ map (fun r => (key r, r)) (seqZ 0 n).

(** The mask of a query of the memory index needs a number of rows that is a power of two. *)
Definition index_covers `{!PgmLibrary} (n : Z) (key : Z → Z) (index : SegmentIndex) : Prop :=
  index_has n key index ∧ (not_power_of_2 n = false ∨ use_array (zlen (memory_pairs index)) n = true).

(** The rows with a key in the range. *)
Definition in_keys (i : FilterIntervalRange) (key : Z → Z) (r : Z) : bool := (begin_val_ i <=? key r) && (key r <=? end_val_ i).

(** The offsets that a query of some pairs finds. *)
Definition hits (i : FilterIntervalRange) (l : list IndexPair) : list Z := map snd (filter (in_interval (begin_val_ i) (end_val_ i)) l).

Lemma hits_app i a b : hits i (a ++ b) = hits i a ++ hits i b.
Proof. unfold hits. by rewrite filter_app, map_app. Qed.

Lemma hits_concat i ds : concat (map (hits i) ds) = hits i (concat ds).
Proof. induction ds as [|d ds IH]; [done|]. cbn [map concat]. by rewrite hits_app, IH. Qed.

#[export] Instance hits_perm i : Proper ((≡ₚ) ==> (≡ₚ)) (hits i).
Proof. intros a b Hab. unfold hits. by rewrite Hab. Qed.

Lemma hits_rows i key rows : hits i (map (fun r => (key r, r)) rows) = filter (fun r => in_keys i key r = true) rows.
Proof.
  unfold hits. induction rows as [|r rows IH]; [done|]. cbn [map]. rewrite !filter_cons. unfold in_keys at 1, in_interval at 1. cbn [fst].
  repeat case_decide; try lia; cbn [map snd]; by rewrite IH.
Qed.

Lemma lower_bound_ok b m : sorted_pairs m → lower_bound b m = filter (fun p => b ≤ p.1) m.
Proof.
  induction 1 as [|p m Hm IH Hp]; [done|]. cbn [lower_bound]. rewrite filter_cons. destruct (Z.ltb_spec p.1 b); case_decide; try lia; [done|].
  f_equal. clear IH. induction Hp as [|q m Hq Hp IH]; [done|]. rewrite filter_cons. unfold key_le in Hq. case_decide; [|lia].
  f_equal. apply IH. by apply StronglySorted_inv in Hm as [Hm _].
Qed.

Lemma until_upper_bound_ok e m : sorted_pairs m → until_upper_bound e m = filter (fun p => p.1 ≤ e) m.
Proof.
  induction 1 as [|p m Hm IH Hp]; [done|]. cbn [until_upper_bound]. rewrite filter_cons. destruct (Z.leb_spec p.1 e); case_decide; try lia; [by rewrite IH|].
  symmetry. apply filter_none. eapply Forall_impl; [exact Hp|]. unfold key_le. intros q Hq. lia.
Qed.

Lemma query_hits i m : sorted_pairs m → map snd (until_upper_bound (end_val_ i) (lower_bound (begin_val_ i) m)) = hits i m.
Proof.
  intros Hm. rewrite lower_bound_ok by done. rewrite until_upper_bound_ok by (by apply filter_sorted). unfold hits. f_equal.
  rewrite list_filter_filter. apply list_filter_iff. intros p. unfold in_interval. tauto.
Qed.

Lemma use_array_mono a b n : a ≤ b → use_array b n = true → use_array a n = true.
Proof. unfold use_array. rewrite !orb_true_iff, !Z.leb_le. lia. Qed.

Section Range.
Context {Pgm_library : PgmLibrary} {Laws : PgmLaws}.
Context (n : Z) (Hn : 1 ≤ n ≤ 2 ^ 30) (i : FilterIntervalRange) (Hi : interval_ok i).

(** A reader of a chunk and the offsets it puts out. *)
Definition chunk_reader (r : TrunkReader) (offsets : list Z) : Prop :=
  match r with TrunkReaderT c lo hi => TrunkReaderT_offsets c lo hi = Ok offsets | TrunkReaderM _ => False end.

Lemma count_chunks_ok datas :
  Forall (fun d => sorted_pairs d ∧ 0 < zlen d < 2 ^ 31) datas →
  ∃ readers, count_chunks i (map (fun d => OutputAndBuild (zlen d) d) datas) = Ok (zlen (hits i (concat datas)), readers) ∧
    Forall2 chunk_reader readers (map (hits i) datas).
Proof using Laws Hi.
  clear Hn. induction 1 as [|d datas [Hs Hl] _ IH]; [by exists []|]. destruct IH as (readers & Hc & Hr). cbn [map count_chunks concat].
  destruct (TrunkReaderT_search_ok d Hs Hl _ _ Hi) as (lo & hi & Hsearch & Hcount & Hoff). unfold GetResultCnt_chunk. rewrite Hsearch. cbn [res_bind].
  rewrite Hc. cbn [res_bind]. exists (TrunkReaderT (OutputAndBuild (zlen d) d) lo hi :: readers). split; [|by constructor; [exact Hoff|]]. do 2 f_equal. rewrite Hcount, hits_app, zlen_app.
  unfold hits at 2, zlen. by rewrite length_map.
Qed.

Lemma chunks_vector h readers offss : Forall2 chunk_reader readers offss →
  ∀ rows, res_fold (fun '(s, h) reader => OutPut h s reader) (SelectedVector rows, h) readers = Ok (SelectedVector (rows ++ concat offss), h).
Proof using.
  induction 1 as [|r offs readers offss Hr _ IH]; intros rows; cbn [res_fold concat]; [by rewrite app_nil_r|].
  destruct r as [c lo hi|?]; [|done]. cbn [OutPut]. cbn in Hr. rewrite Hr. cbn [res_bind]. rewrite IH. by rewrite app_assoc.
Qed.

Lemma chunks_mask readers offss : Forall2 chunk_reader readers offss → (∀ r, r ∈ concat offss → 0 ≤ r < n) → ∀ h m P,
  mask_of n h m P →
  ∃ h', res_fold (fun '(s, h) reader => OutPut h s reader) (SelectedMask m, h) readers = Ok (SelectedMask m, h') ∧
    mask_of n h' m (fun r => P r || bool_decide (r ∈ concat offss)) ∧ framed h h' [m] [m].
Proof using Hn.
  clear Hi Laws. induction 1 as [|r offs readers offss Hr _ IH]; intros Hb h m P Hm; cbn [res_fold concat].
  { exists h. split; [done|]. split; [|apply framed_refl]. eapply mask_ext; [|exact Hm]. intros r. cbn. by rewrite orb_false_r. }
  destruct r as [c lo hi|?]; [|done]. cbn [OutPut]. cbn in Hr. rewrite Hr. cbn [res_bind].
  destruct (add_rows n Hn h m P offs Hm) as (h1 & Hs & Hm1 & Hf1); [intros r Hrr; apply Hb; cbn; set_solver|]. rewrite Hs. cbn [res_bind].
  destruct (IH ltac:(intros r Hrr; apply Hb; cbn; set_solver) h1 m _ Hm1) as (h2 & Hf & Hm2 & Hf2). rewrite Hf. exists h2. split; [done|].
  split; [|by eapply framed_trans]. eapply mask_ext; [|exact Hm2]. intros r. cbn beta. rewrite <- orb_assoc. f_equal.
  rewrite <- bool_decide_or. apply bool_decide_ext. set_solver.
Qed.

(** A query of the memory index. *)
Definition memory_result (h : heap) (cache : SelectedRows) (offsets : list Z) : Prop :=
  match cache with
  | SelectedVector rows => rows = offsets
  | SelectedMask m => use_array (zlen offsets) n = false ∧ mask_of n h m (fun r => bool_decide (r ∈ offsets))
  end.

Lemma memory_query h m :
  sorted_pairs m → (∀ r, r ∈ hits i m → 0 ≤ r < n) → not_power_of_2 n = false ∨ use_array (zlen m) n = true →
  ∃ cache h', RangeQueryInner h n (begin_val_ i) (end_val_ i) m = Ok (zlen (hits i m), cache, h') ∧
    memory_result h' cache (hits i m) ∧ framed h h' [] (masks cache).
Proof using Hn Hi.
  clear Laws. intros Hm Hb Hp. unfold RangeQueryInner. destruct (existsb _ m) eqn:He.
  { apply existsb_exists in He as (p & _ & Hp'). unfold interval_ok in Hi. lia. }
  clear He. rewrite query_hits by done. destruct (use_array (zlen (hits i m)) n) eqn:Hu.
  { exists (SelectedVector (hits i m)), h. split; [done|]. split; [done|apply framed_refl]. }
  assert (Hpow : not_power_of_2 n = false).
  { destruct Hp as [|Hp]; [done|]. rewrite (use_array_mono _ (zlen m)) in Hu; [done| |done]. unfold hits, zlen. rewrite length_map.
    pose proof (length_filter (in_interval (begin_val_ i) (end_val_ i)) m). lia. }
  destruct (empty_mask_ok h n) as (mask & h1 & -> & Hok & Hc & Hr & Hf); [change (2 ^ 31) with 2147483648; change (2 ^ 30) with 1073741824 in Hn; lia|done|].
  cbn [res_bind]. assert (Hmask : mask_of n h1 mask (fun _ => false)).
  { split; [done|]. split; [by rewrite bit_ceil_id|]. intros j Hj. rewrite Hr by done. by rewrite andb_false_r. }
  destruct (add_rows n Hn h1 mask _ (hits i m) Hmask Hb) as (h2 & -> & Hm2 & Hf2). cbn [res_bind]. exists (SelectedMask mask), h2.
  split; [done|]. split; [|by eapply framed_trans]. split; [done|]. done.
Qed.

(** The output of the memory index. *)
Lemma memory_output h m P cache offsets :
  mask_of n h m P → memory_result h cache offsets → (∀ r, r ∈ offsets → 0 ≤ r < n) →
  ∃ m' h', OutPut h (SelectedMask m) (TrunkReaderM cache) = Ok (SelectedMask m', h') ∧
    mask_of n h' m' (fun r => P r || bool_decide (r ∈ offsets)) ∧ framed h h' (m :: masks cache) [m'].
Proof using Hn.
  clear Hi Laws. intros Hm Hc Hb. destruct cache as [rows|c]; cbn [OutPut masks].
  - cbn in Hc. subst rows. destruct (add_rows n Hn h m P offsets Hm Hb) as (h' & -> & Hm' & Hf). cbn [res_bind]. by exists m, h'.
  - destruct Hc as [_ Hc]. destruct (MergeOr_selects n Hn h (SelectedMask m) (SelectedMask c) _ _ Hm Hc) as (s & h' & Hs & Hsel & Hf).
    cbn [FilterResult_MergeOr] in Hs. apply res_bind_ok in Hs as ([m' h1] & -> & [= <- <-]). cbn [res_bind]. by exists m', h1.
Qed.

Context (key : Z → Z) (index : SegmentIndex) (Hcov : index_covers n key index).

Lemma covered_small datas : concat datas ++ memory_pairs index ≡ₚ map (fun r => (key r, r)) (seqZ 0 n) →
  Forall (fun d => sorted_pairs d ∧ 0 < zlen d) datas → Forall (fun d => sorted_pairs d ∧ 0 < zlen d < 2 ^ 31) datas.
Proof using Hn.
  clear Hi Laws Hcov. intros Hp Hd. rewrite Forall_forall in Hd |- *. intros d Hin. destruct (Hd d Hin) as [Hs Hpos]. split; [done|]. split; [done|].
  apply Permutation_length in Hp. rewrite length_app, length_map, length_seqZ in Hp. apply list_elem_of_lookup in Hin as [k Hk].
  apply take_drop_middle in Hk. rewrite <- Hk, concat_app, length_app in Hp. cbn [concat] in Hp. rewrite length_app in Hp.
  change (2 ^ 31) with 2147483648. change (2 ^ 30) with 1073741824 in Hn. unfold zlen. lia.
Qed.

(** What the memory index adds to the readers. *)
Definition memory_reader (cache : SelectedRows) : list TrunkReader :=
  match memory_secondary_index_ index with None => [] | Some _ => [TrunkReaderM cache] end.

Lemma memory_step h :
  sorted_pairs (memory_pairs index) → (∀ r, r ∈ hits i (memory_pairs index) → 0 ≤ r < n) →
  not_power_of_2 n = false ∨ use_array (zlen (memory_pairs index)) n = true →
  ∃ cache h', match memory_secondary_index_ index with
    | None => Ok (0, [], h)
    | Some m => let? '(n, cache, h) := RangeQueryInner h n (begin_val_ i) (end_val_ i) m in Ok (n, [TrunkReaderM cache], h)
    end = Ok (zlen (hits i (memory_pairs index)), memory_reader cache, h') ∧
    memory_result h' cache (hits i (memory_pairs index)) ∧ framed h h' [] (masks cache).
Proof using Hn Hi.
  clear Hcov Laws. intros Hs Hb Hp. unfold memory_reader, memory_pairs in *. destruct (memory_secondary_index_ index) as [m|]; cbn [default] in *.
  - destruct (memory_query h m Hs Hb Hp) as (cache & h1 & -> & Hc & Hf). by exists cache, h1.
  - exists (SelectedVector []), h. split; [done|]. split; [done|apply framed_refl].
Qed.

Lemma sort_rows l P : l ≡ₚ rows_where n P → merge_sort Z.le l = rows_where n P.
Proof using Hn.
  clear Hi Hcov Laws. intros Hl. apply (Sorted_unique Z.le).
  - apply Sorted_merge_sort. intros a b. lia.
  - apply StronglySorted_Sorted. clear Hl. induction (rows_sorted n P ltac:(lia)) as [|r rows _ IH Hr]; [constructor|]. constructor; [done|].
    eapply Forall_impl; [exact Hr|]. intros. lia.
  - by rewrite merge_sort_Permutation.
Qed.

(** The readers put their offsets into a vector. *)
Lemma output_vector h cache readers offss :
  Forall2 chunk_reader readers offss → memory_result h cache (hits i (memory_pairs index)) →
  use_array (zlen (hits i (memory_pairs index))) n = true →
  res_fold (fun '(s, h) reader => OutPut h s reader) (SelectedVector [], h) (readers ++ memory_reader cache) =
  Ok (SelectedVector (concat offss ++ hits i (memory_pairs index)), h).
Proof using.
  intros Hr Hc Hu. rewrite res_fold_app, (chunks_vector h readers offss Hr). cbn [res_bind]. unfold memory_reader, memory_pairs in *.
  destruct (memory_secondary_index_ index) as [m|]; cbn [res_fold default] in *; [|by rewrite app_nil_r].
  destruct cache as [rows|c]; cbn [memory_result] in Hc; [|destruct Hc; congruence]. subst rows. done.
Qed.

(** Or into a mask, which is not the one of the memory index. *)
Lemma output_mask h m P cache readers offss :
  Forall2 chunk_reader readers offss → (∀ r, r ∈ concat offss ++ hits i (memory_pairs index) → 0 ≤ r < n) →
  mask_of n h m P → memory_result h cache (hits i (memory_pairs index)) → Forall (separate m) (masks cache) →
  ∃ m' h', res_fold (fun '(s, h) reader => OutPut h s reader) (SelectedMask m, h) (readers ++ memory_reader cache) = Ok (SelectedMask m', h') ∧
    mask_of n h' m' (fun r => P r || bool_decide (r ∈ concat offss ++ hits i (memory_pairs index))) ∧ framed h h' (m :: masks cache) [m'].
Proof using Hn.
  clear Hi Laws Hcov key. intros Hr Hb Hm Hc Hsep. rewrite res_fold_app.
  destruct (chunks_mask readers offss Hr ltac:(intros r Hrr; apply Hb; set_solver) h m P Hm) as (h1 & -> & Hm1 & Hf1). cbn [res_bind].
  assert (Hc1 : memory_result h1 cache (hits i (memory_pairs index))).
  { destruct cache as [rows|c]; [done|]. destruct Hc as [Hu Hc]. split; [done|]. apply (selects_frame n h h1 (SelectedMask c) _ [m] [m] Hf1); [|done].
    apply Forall_cons in Hsep as [Hsep _]. by repeat constructor. }
  unfold memory_reader, memory_pairs in *. destruct (memory_secondary_index_ index) as [mem|]; cbn [res_fold default] in *.
  - destruct (memory_output h1 m _ cache _ Hm1 Hc1) as (m' & h2 & -> & Hm2 & Hf2); [intros r Hrr; apply Hb; set_solver|]. cbn [res_bind].
    exists m', h2. split; [done|]. split.
    + eapply mask_ext; [|exact Hm2]. intros r. cbn beta. rewrite <- orb_assoc. f_equal. rewrite <- bool_decide_or. apply bool_decide_ext. set_solver.
    + eapply framed_trans; [|exact Hf2]. exact (framed_app h h1 [m] [m] (masks cache) Hf1).
  - exists m, h1. split; [done|]. split; [by rewrite app_nil_r|]. intros c Hc' [Hs _]%Forall_cons. apply Hf1; [done|]. by repeat constructor.
Qed.

(** The whole range query: the rows of the segment with a key in the range. *)
Lemma ExecuteSingleRangeT_ok h :
  ∃ s h', ExecuteSingleRangeT h n i index = Ok (s, h') ∧ selects n h' s (in_keys i key) ∧ framed h h' [] (masks s).
Proof using Hn Hi Hcov Laws.
  destruct Hcov as [(datas & Hch & Hd & Hmem & Hperm) Hp]. pose proof (covered_small datas Hperm Hd) as Hd'.
  assert (Hhits : concat (map (hits i) datas) ++ hits i (memory_pairs index) ≡ₚ rows_where n (in_keys i key)).
  { by rewrite hits_concat, <- hits_app, Hperm, hits_rows. }
  assert (Hin : ∀ r, r ∈ concat (map (hits i) datas) ++ hits i (memory_pairs index) ↔ (0 ≤ r < n) ∧ in_keys i key r = true).
  { intros r. by rewrite Hhits, elem_of_rows. }
  unfold ExecuteSingleRangeT. rewrite Hch. destruct (count_chunks_ok datas Hd') as (readers & -> & Hreaders). cbn [res_bind].
  destruct (memory_step h Hmem ltac:(intros r Hr; apply Hin; set_solver) Hp) as (cache & h1 & -> & Hcache & Hf1). cbn [res_bind].
  destruct (use_array (zlen (hits i (concat datas)) + zlen (hits i (memory_pairs index))) n) eqn:Hu; cbn [res_bind].
  - rewrite (output_vector h1 cache readers _ Hreaders Hcache).
    2:{ eapply use_array_mono; [|exact Hu]. unfold zlen. lia. }
    cbn [res_bind sort_selected]. rewrite (sort_rows _ _ Hhits). eexists _, h1. split; [reflexivity|]. split; [done|].
    eapply framed_trans; [exact Hf1|apply framed_drop].
  - destruct (bit_ceil_power n Hn) as [Hpow Hbound]. destruct (empty_mask_ok h1 (bit_ceil n) ltac:(lia) Hpow) as (m & h2 & -> & Hok & Hc & Hr & Hf2). cbn [res_bind].
    assert (Hm : mask_of n h2 m (fun _ => false)).
    { split; [done|]. split; [done|]. intros j Hj. rewrite Hr by done. by rewrite andb_false_r. }
    assert (Hkeep : memory_result h2 cache (hits i (memory_pairs index)) ∧ Forall (separate m) (masks cache)).
    { destruct cache as [rows|c]; [done|]. destruct Hcache as [Hu' Hcache]. destruct (Hf2 c (proj1 Hcache) (Forall_nil_2 _)) as (_ & _ & Hs).
      split; [|by constructor; [apply Forall_cons in Hs as [Hs _]|]]. split; [done|].
      by apply (selects_frame n h1 h2 (SelectedMask c) _ [] [m] Hf2); [repeat constructor|]. }
    destruct Hkeep as [Hc2 Hsep].
    destruct (output_mask h2 m _ cache readers _ Hreaders ltac:(intros r Hrr; by apply Hin) Hm Hc2 Hsep) as (m' & h3 & -> & Hm3 & Hf3). cbn [res_bind sort_selected].
    eexists _, h3. split; [reflexivity|]. split.
    + destruct Hm3 as (Hok3 & Hc3 & Hr3). split; [done|]. split; [done|]. intros j Hj. rewrite Hr3 by done. case_bool_decide as Hjn; [|done]. cbn [andb orb].
      destruct (in_keys i key j) eqn:Hk; [apply bool_decide_eq_true_2|apply bool_decide_eq_false_2]; rewrite Hin; [split; [split; [apply Hj|done]|done]|].
      intros [_ ?]. congruence.
    + eapply framed_trans; [exact Hf1|]. eapply framed_trans; [|exact Hf3]. exact (framed_app h1 h2 [] [m] (masks cache) Hf2).
Qed.
End Range.

(** ** Commands *)

(** Row sets that share no mask. *)
Definition apart (a b : SelectedRows) : Prop := Forall (fun m => Forall (separate m) (masks b)) (masks a).

(** A stack of row sets and what they select. *)
Fixpoint stack_ok (n : Z) (h : heap) (stack : list SelectedRows) (Ps : list (Z → bool)) : Prop :=
  match stack, Ps with
  | [], [] => True
  | s :: stack', P :: Ps' => selects n h s P ∧ Forall (apart s) stack' ∧ stack_ok n h stack' Ps'
  | _, _ => False
  end.

(** An operation on masks that are not on the stack. *)
Lemma stack_frame n h h' ms ms' stack : framed h h' ms ms' → Forall (fun s => Forall (fun m => Forall (fun m' => separate m' m) ms) (masks s)) stack → ∀ Ps,
  stack_ok n h stack Ps → stack_ok n h' stack Ps ∧ Forall (fun s => Forall (fun m => Forall (fun m' => separate m' m) ms') (masks s)) stack.
Proof.
  intros Hf. induction 1 as [|s stack Hs Hstack IH]; intros Ps Hok; [by split|]. destruct Ps as [|P Ps]; [done|]. destruct Hok as (Hsel & Hap & Hok).
  destruct (IH Ps Hok) as [Hok' Hsep]. split.
  - split; [by eapply selects_frame|]. done.
  - constructor; [|done]. destruct s as [rows|m]; [constructor|]. cbn [masks] in *. apply Forall_cons in Hs as [Hs _]. destruct Hsel as (Hm & _).
    destruct (Hf m Hm Hs) as (_ & _ & ?). by repeat constructor.
Qed.

Lemma apart_intro s stack : Forall (fun s' => Forall (fun m => Forall (fun m' => separate m' m) (masks s)) (masks s')) stack → Forall (apart s) stack.
Proof.
  intros H. eapply Forall_impl; [exact H|]. intros s' Hs'. unfold apart. destruct s as [|m]; cbn [masks] in *; [constructor|].
  constructor; [|constructor]. eapply Forall_impl; [exact Hs'|]. intros m' Hm'. by apply Forall_cons in Hm' as [Hm' _].
Qed.

Lemma apart_elim s stack : Forall (apart s) stack → Forall (fun s' => Forall (fun m => Forall (fun m' => separate m' m) (masks s)) (masks s')) stack.
Proof.
  intros H. eapply Forall_impl; [exact H|]. intros s' Hs'. unfold apart in Hs'. destruct s as [|m]; cbn [masks] in *; [by apply Forall_true|].
  apply Forall_cons in Hs' as [Hs' _]. eapply Forall_impl; [exact Hs'|]. intros m' Hm'. by repeat constructor.
Qed.

(** The commands on predicates of rows; [key] has the key of a column in a row. *)
Definition predicate_step (key : Z → Z → Z) (Ps : list (Z → bool)) (elem : FilterExecuteElem) : option (list (Z → bool)) :=
  match elem, Ps with
  | ExecuteCombine t, Q :: P :: rest => Some ((fun r => combine t (P r) (Q r)) :: rest)
  | ExecuteCombine _, _ => None
  | ExecuteRange g, _ => Some ((fun r => in_range_of (fun c => key c r) g) :: Ps)
  end.

Fixpoint predicates (key : Z → Z → Z) (Ps : list (Z → bool)) (command : list FilterExecuteElem) : option (list (Z → bool)) :=
  match command with
  | [] => Some Ps
  | elem :: command' => match predicate_step key Ps elem with Some Ps' => predicates key Ps' command' | None => None end
  end.

(** In each row they are the commands on its keys. *)
Lemma predicates_run key r command : ∀ Ps,
  run (fun c => key c r) (map (fun P => P r) Ps) command = option_map (map (fun P => P r)) (predicates key Ps command).
Proof.
  induction command as [|elem command IH]; intros Ps; [done|]. cbn [run predicates]. destruct elem as [t|g]; cbn [run_step predicate_step].
  - destruct Ps as [|Q [|P Ps]]; try done. cbn [map]. by rewrite <- IH.
  - by rewrite <- IH.
Qed.

Section Solve.
Context {Pgm_library : PgmLibrary} {Laws : PgmLaws}.
Context (n : Z) (Hn : 1 ≤ n ≤ 2 ^ 30) (key : Z → Z → Z) (column_index_map : gmap Z SegmentIndex) (has_index : Z → Prop).
Context (Hcov : ∀ c, has_index c → ∃ index, column_index_map !! c = Some index ∧ index_covers n (key c) index).

Lemma range_step h g :
  elem_ok has_index (ExecuteRange g) →
  ∃ s h', ExecuteSingleRange h n column_index_map g = Ok (s, h') ∧ selects n h' s (fun r => in_range_of (fun c => key c r) g) ∧ framed h h' [] (masks s).
Proof using Hn Laws Hcov.
  intros Hok. unfold ExecuteSingleRange, in_range_of. cbn [elem_ok] in Hok. destruct (interval_range_ g) as [i|].
  - destruct Hok as [Hi Hc]. destruct (Hcov _ Hc) as (index & -> & Hcv). exact (ExecuteSingleRangeT_ok n Hn i Hi (key (range_column_id_ g)) index Hcv h).
  - exists (SelectedVector []), h. split; [done|]. split; [|apply framed_refl]. cbn. unfold rows_where. by rewrite filter_none by (by apply Forall_true).
Qed.

Lemma combine_selects h t l r P Q :
  selects n h l P → selects n h r Q →
  ∃ s h', match t with kAnd => FilterResult_MergeAnd h l r | kOr => FilterResult_MergeOr h l r end = Ok (s, h') ∧
    selects n h' s (fun i => combine t (P i) (Q i)) ∧ framed h h' (masks l ++ masks r) (masks s).
Proof using Hn. clear Hcov Laws. intros Hl Hr. destruct t; [by apply MergeAnd_selects|by apply MergeOr_selects]. Qed.

Lemma solve_step_ok h stack Ps elem Ps' :
  elem_ok has_index elem → stack_ok n h stack Ps → predicate_step key Ps elem = Some Ps' →
  ∃ stack' h', solve_step n column_index_map (stack, h) elem = Ok (stack', h') ∧ stack_ok n h' stack' Ps'.
Proof using Hn Laws Hcov.
  intros Hel Hok Hp. destruct elem as [t|g]; cbn [predicate_step solve_step] in *.
  - destruct Ps as [|Q [|P Ps]]; try done. injection Hp as <-. destruct stack as [|r [|l stack]]; try done; [by destruct Hok as (_ & _ & [])|].
    destruct Hok as (Hr & Har & Hl & Hal & Hok). destruct (combine_selects h t l r P Q Hl Hr) as (s & h' & -> & Hs & Hf). cbn [res_bind].
    exists (s :: stack), h'. split; [done|]. apply Forall_cons in Har as [_ Har].
    destruct (stack_frame n h h' _ _ stack Hf) with (Ps := Ps) as [Hok' Hsep]; [|done|split; [done|]; split; [by apply apart_intro|done]].
    apply apart_elim in Har, Hal. rewrite Forall_forall in Har, Hal |- *. intros s' Hs'. specialize (Har s' Hs'). specialize (Hal s' Hs').
    rewrite Forall_forall in Har, Hal |- *. intros m Hm. apply Forall_app. auto.
  - injection Hp as <-. destruct (range_step h g Hel) as (s & h' & -> & Hs & Hf). cbn [res_bind]. exists (s :: stack), h'. split; [done|].
    destruct (stack_frame n h h' _ _ stack Hf) with (Ps := Ps) as [Hok' Hsep]; [|done|split; [done|]; split; [by apply apart_intro|done]].
    apply Forall_true. intros s'. by apply Forall_true.
Qed.

Lemma solve_ok command : ∀ h stack Ps Ps',
  Forall (elem_ok has_index) command → stack_ok n h stack Ps → predicates key Ps command = Some Ps' →
  ∃ stack' h', res_fold (solve_step n column_index_map) (stack, h) command = Ok (stack', h') ∧ stack_ok n h' stack' Ps'.
Proof using Hn Laws Hcov.
  induction command as [|elem command IH]; intros h stack Ps Ps' Hel Hok Hp; cbn [res_fold predicates] in *; [injection Hp as <-; by exists stack, h|].
  apply Forall_cons in Hel as [He Hel]. destruct (predicate_step key Ps elem) as [Ps1|] eqn:Hp1; [|done].
  destruct (solve_step_ok h stack Ps elem Ps1 He Hok Hp1) as (stack1 & h1 & -> & Hok1). cbn [res_bind]. by apply (IH h1 stack1 Ps1).
Qed.

(** The commands of a plan select the rows whose keys they accept. *)
Lemma SolveSecondaryIndexFilterInner_ok h command P :
  Forall (elem_ok has_index) command → (∀ r, 0 ≤ r < n → run (fun c => key c r) [] command = Some [P r]) →
  ∃ s h', SolveSecondaryIndexFilterInner h n column_index_map command = Ok (s, h') ∧
    ∃ Q, selects n h' s Q ∧ ∀ r, 0 ≤ r < n → Q r = P r.
Proof using Hn Laws Hcov.
  intros Hel Hrun. assert (∃ Q, predicates key [] command = Some [Q] ∧ ∀ r, 0 ≤ r < n → Q r = P r) as (Q & HQ & Heq).
  { pose proof (predicates_run key 0 command []) as H0. cbn [map] in H0. rewrite Hrun in H0 by lia.
    destruct (predicates key [] command) as [[|Q [|? ?]]|] eqn:Hp; try done. exists Q. split; [done|]. intros r Hr.
    pose proof (predicates_run key r command []) as H1. cbn [map] in H1. rewrite Hrun, Hp in H1 by done. by injection H1. }
  destruct (solve_ok command h [] [] [Q] Hel I HQ) as (stack & h' & Hs & Hok). unfold SolveSecondaryIndexFilterInner. rewrite Hs. cbn [res_bind].
  destruct stack as [|s [|? ?]]; try done; [|by destruct Hok as (_ & _ & [])]. destruct Hok as (Hsel & _). exists s, h'. split; [done|]. by exists Q.
Qed.
End Solve.
