(* ===== verification/IndexScanProps.v ===== *)
(** * Index scans

    An index scan of a segment gives exactly the rows that satisfy the part of the filter for the
    indexes and that [DeleteFilter] lets through ([index_scan_exact]), provided that the indexes are
    complete, which [SegmentIndexProps.v] shows.  Then what goes wrong beside that. *)

From Stdlib Require Import ZArith Lia List String.
From stdpp Require Import base list numbers sets sorting strings gmap.
From S2P Require Import Prelude Bytes DataTypes DateTime CatalogDelta BlockVersion BlockEntry Bitmask SegmentEntry Floating FilterExpr FilterSpec RoughFilter RoughFilterSpec RoughFilterProps SecondaryIndex SecondaryIndexSpec IndexScan IndexPlanSpec IndexScanSpec.
Local Open Scope Z_scope.

(** ** Output *)

Lemma rows_bounded n k P : 0 ≤ n ≤ k → rows_where k (fun r => bool_decide (r < n) && P r) = rows_where n P.
Proof.
  intros Hn. apply rows_unique; [lia|by apply rows_sorted; lia|]. intros r. rewrite elem_of_rows, andb_true_iff, bool_decide_eq_true. naive_solver lia.
Qed.

Lemma count_from_rows f k : ∀ a, count_from f a k = zlen (filter (fun r => f r = true) (seqZ a (Z.of_nat k))).
Proof.
  induction k as [|k IH]; intros a; [done|]. cbn [count_from]. rewrite seqZ_cons by lia. replace (Z.pred (Z.of_nat (S k))) with (Z.of_nat k) by lia.
  rewrite filter_cons. rewrite IH. replace (Z.succ a) with (a + 1) by lia. destruct (f a); [rewrite decide_True by done|rewrite decide_False by done]; [|done].
  by rewrite zlen_cons.
Qed.

Lemma count_from_true k : ∀ a, count_from (fun _ => true) a k = Z.of_nat k.
Proof. induction k as [|k IH]; intros a; [done|]. cbn [count_from]. rewrite IH. lia. Qed.

Lemma SelectedNum_ok n h s P : 1 ≤ n ≤ 2 ^ 30 → selects n h s P → SelectedNum h s = Ok (zlen (rows_where n P)).
Proof.
  intros Hn Hs. destruct s as [rows|m]; [cbn in Hs |- *; by subst rows|]. cbn [SelectedNum]. destruct Hs as (Hok & Hc & Hr).
  destruct (bit_ceil_power n Hn) as [_ Hb]. pose proof Hok as (Hcr & _ & _). pose proof (UnitCount_bound _ Hcr) as Hu. rewrite Hc in Hu.
  rewrite <- (rows_bounded n (64 * UnitCount (count_ m)) P) by (rewrite Hc; lia).
  assert (Hcount : count_from (row h m) 0 (Z.to_nat (64 * UnitCount (count_ m))) = zlen (rows_where (64 * UnitCount (count_ m)) (fun r => bool_decide (r < n) && P r))).
  { rewrite count_from_rows, Z2Nat.id by (rewrite Hc; lia). f_equal. apply sorted_unique; [apply filter_sorted, seqZ_sorted; rewrite Hc; lia|apply rows_sorted; rewrite Hc; lia|].
    intros r. rewrite list_elem_of_filter, elem_of_rows, elem_of_seqZ. split.
    - intros [Ht Hrr]. rewrite Hr in Ht by (unfold in_units; lia). split; [lia|done].
    - intros [Hrr Ht]. rewrite Hr by (unfold in_units; lia). split; [done|lia]. }
  destruct (buffer_ptr m) as [l|] eqn:Hl.
  - rewrite (CountTrue_spec h m l Hok Hl). rewrite <- Hcount, Hc. f_equal.
    replace (Z.to_nat (64 * UnitCount (bit_ceil n))) with (Z.to_nat (bit_ceil n) + Z.to_nat (64 * UnitCount (bit_ceil n) - bit_ceil n))%nat by lia.
    rewrite count_from_app. f_equal. f_equal. lia.
  - assert (64 * UnitCount (bit_ceil n) = n).
    { destruct (decide (64 * UnitCount (bit_ceil n) ≤ n)); [lia|]. specialize (Hr n). rewrite row_None, bool_decide_eq_false_2 in Hr by (done || lia).
      discriminate Hr. unfold in_units. rewrite Hc. lia. }
    unfold CountTrue. rewrite Hl, <- Hcount, Hc. f_equal. rewrite (count_from_ext _ (fun _ => true) 0 0) by (intros; by apply row_None).
    rewrite count_from_true. lia.
Qed.

(** A row goes to the end of the last block. *)
Lemma append_row_concat blocks r : concat (rev (append_row blocks r)) = concat (rev blocks) ++ [r].
Proof.
  destruct blocks as [|b blocks]; [done|]. cbn [append_row]. destruct (_ =? _); cbn [rev]; rewrite !concat_app; cbn [concat]; [by rewrite !app_nil_r|].
  rewrite !app_nil_r. by rewrite app_assoc.
Qed.

Lemma concat_rev_zlen (blocks : list (list Z)) : zlen (concat (rev blocks)) = zlen (concat blocks).
Proof. induction blocks as [|b blocks IH]; [done|]. cbn [rev concat]. rewrite concat_app. cbn [concat]. rewrite app_nil_r, !zlen_app. lia. Qed.

Definition block_sizes_ok (blocks : list (list Z)) : Prop := Forall (fun b => zlen b ≤ DEFAULT_BLOCK_CAPACITY) blocks.

Lemma append_row_sizes blocks r : block_sizes_ok blocks → block_sizes_ok (append_row blocks r).
Proof.
  unfold block_sizes_ok, DEFAULT_BLOCK_CAPACITY. intros Hb. destruct blocks as [|b blocks]; [by repeat constructor|]. cbn [append_row].
  change DEFAULT_BLOCK_CAPACITY with 8192. destruct (Z.eqb_spec (zlen b) 8192); [by constructor|]. apply Forall_cons in Hb as [Hb Hbs].
  constructor; [|done]. rewrite zlen_app. change (zlen [r]) with 1. lia.
Qed.

Section Output.
Context {V : Type} (segment : SegmentEntry (V := V)) (begin_ts : Z).

(** The filter of a scan at [begin_ts], and what it says of a row. *)
Definition scan_filter : DeleteFilter := mkDeleteFilter segment begin_ts (Segment_row_count segment begin_ts).
Definition lets_through (r : Z) : bool := match delete_filter scan_filter r with Ok b => b | Err _ => false end.

(** The blocks have a deletion timestamp for each of their rows. *)
Definition versions_ok : Prop := Forall (fun b => zlen (deleted_ (version_ b)) = DEFAULT_BLOCK_CAPACITY) (block_entries_ segment).

Context (Hversions : versions_ok).

Lemma delete_filter_ok r : 0 ≤ r → delete_filter scan_filter r = Ok (lets_through r).
Proof using Hversions.
  intros Hr. unfold lets_through, delete_filter. destruct (_ <=? _); [|done]. cbn [filter_segment_ scan_filter]. unfold Segment_CheckRowVisible.
  destruct (GetBlockEntryByID segment _) as [b|] eqn:Hb; [|done]. destruct (_ <? _); [done|]. unfold CheckRowVisible. destruct (_ && _); [done|].
  assert (Hlen : zlen (deleted_ (version_ b)) = 8192) by (eapply Forall_lookup_1 in Hversions; [exact Hversions|exact Hb]).
  change DEFAULT_BLOCK_CAPACITY with 8192. rewrite cast_id by (eval_range; div_lia). unfold array_at. rewrite decide_True by div_lia.
  destruct (lookup_lt_is_Some_2 (deleted_ (version_ b)) (Z.to_nat (r mod 8192))) as [d Hd]; [unfold zlen in Hlen; div_lia|]. by rewrite Hd.
Qed.

Lemma output_rows_ok rows : Forall (Z.le 0) rows → ∀ blocks k,
  ∃ blocks', res_fold (output_row scan_filter) (blocks, k) rows = Ok (blocks', k + zlen rows - zlen (filter (fun r => lets_through r = true) rows)) ∧
    concat (rev blocks') = concat (rev blocks) ++ filter (fun r => lets_through r = true) rows ∧ (block_sizes_ok blocks → block_sizes_ok blocks').
Proof using Hversions.
  induction 1 as [|r rows Hr _ IH]; intros blocks k; cbn [res_fold].
  { exists blocks. rewrite app_nil_r. split; [|done]. do 2 f_equal. change (zlen (@nil Z)) with 0. cbn. change (zlen (@nil Z)) with 0. lia. }
  unfold output_row at 1. rewrite delete_filter_ok by done. cbn [res_bind]. rewrite filter_cons. destruct (lets_through r) eqn:Hv.
  - rewrite decide_True by done. destruct (IH (append_row blocks r) k) as (blocks' & -> & Hc & Hs). exists blocks'.
    rewrite Hc, append_row_concat, !zlen_cons, <- app_assoc. split; [do 2 f_equal; lia|]. split; [done|]. intros Hb. by apply Hs, append_row_sizes.
  - rewrite decide_False by done. destruct (IH blocks (k + 1)) as (blocks' & -> & Hc & Hs). exists blocks'. rewrite zlen_cons. split; [do 2 f_equal; lia|done].
Qed.

(** The output of a segment: the selected rows that the filter lets through. *)
Lemma Output_ok n h s P :
  1 ≤ n ≤ 2 ^ 30 → selects n h s P →
  ∃ blocks, Output h n s scan_filter = Ok blocks ∧ concat blocks = rows_where n (fun r => P r && lets_through r) ∧ block_sizes_ok blocks.
Proof using Hversions.
  intros Hn Hs. unfold Output. rewrite (SelectedNum_ok n h s P Hn Hs). cbn [res_bind].
  assert (match s with SelectedVector rows => Ok rows | SelectedMask mask => filter_rows h mask (seqZ 0 n) end = Ok (rows_where n P)) as ->.
  { destruct s as [rows|m]; [cbn in Hs; by subst rows|]. assert (seqZ 0 n = rows_where n (fun _ => true)) as ->.
    { apply rows_unique; [lia|apply seqZ_sorted; lia|]. intros r. rewrite elem_of_seqZ. naive_solver lia. }
    by rewrite (filter_mask n Hn h m P _ Hs). }
  cbn [res_bind]. destruct (output_rows_ok (rows_where n P)) with (blocks := [[]] : list (list Z)) (k := 0) as (blocks & -> & Hc & Hsz).
  { apply Forall_forall. intros r [Hr _]%elem_of_rows. lia. }
  cbn [res_bind]. cbn [rev concat app] in Hc.
  assert (zlen (concat blocks) = zlen (filter (fun r => lets_through r = true) (rows_where n P))) as ->.
  { by rewrite <- Hc, concat_rev_zlen. }
  destruct (Z.eqb_spec (zlen (filter (fun r => lets_through r = true) (rows_where n P)) + (0 + zlen (rows_where n P) - zlen (filter (fun r => lets_through r = true) (rows_where n P)))) (zlen (rows_where n P))); [|lia].
  cbn [negb]. exists (rev blocks). split; [done|]. split; [|apply Forall_rev, Hsz; by repeat constructor]. rewrite Hc.
  apply rows_unique; [lia|by apply filter_sorted, rows_sorted; lia|]. intros r. rewrite list_elem_of_filter, elem_of_rows, andb_true_iff. tauto.
Qed.
End Output.

(** ** Index scans *)

#[export] Instance satisfies_dec `{!FunctionLibrary} special_column row e : Decision (satisfies special_column row e).
Proof. unfold satisfies. apply _. Defined.

Section Scan.
Context {Library : FilterLibrary} {Functions : FunctionLibrary} {Pgm_library : PgmLibrary} {Laws : PgmLaws}.
Context {Index V : Type} (indexes : list (Z * Index)) (at_segment : Index → SegmentIndex).
Context (segment : SegmentEntry (V := V)) (special : Z → Z → option Value) (rows : Z → Z → Value) (key : Z → Z → Z).
Notation n := (seg_row_count_ segment).

(** The indexes of the segment have the keys of its rows. *)
Definition indexes_cover : Prop := ∀ c index, (c, index) ∈ indexes → index_covers n (key c) (at_segment index).

(** Every row of the segment is one that the comparisons of the filter are exact for. *)
Definition rows_ok (e : Expr) : Prop :=
  ∀ r, 0 ≤ r < n → index_ok (InitColumnIndexEntries indexes) (special r) (rows r) (fun c => key c r) e.

Lemma plan_rows e plan q :
  1 ≤ n → rows_ok e → SolveForIndexScan indexes e = Ok plan → index_filter_qualified_ plan = Some q →
  Forall (elem_ok (fun c => is_Some (column_index_map_ plan !! c))) (filter_execute_command_ plan) ∧
  (∀ r, 0 ≤ r < n → run (fun c => key c r) [] (filter_execute_command_ plan) = Some [bool_decide (satisfies (special r) (rows r) q)]) ∧
  (∀ c index, column_index_map_ plan !! c = Some index → (c, index) ∈ indexes).
Proof using.
  intros Hn Hrows Hp Hq. split; [|split].
  - destruct (plan_exact indexes (special 0) (rows 0) _ e plan (Hrows 0 ltac:(lia)) Hp) as (_ & Hcmd & _). by destruct (Hcmd q Hq) as (b & _ & _ & Hel).
  - intros r Hr. destruct (plan_exact indexes (special r) (rows r) _ e plan (Hrows r Hr) Hp) as (_ & Hcmd & _). destruct (Hcmd q Hq) as (b & Hrun & Hb & _).
    rewrite Hrun. do 2 f_equal. destruct b; symmetry; [apply bool_decide_eq_true_2; by apply Hb|apply bool_decide_eq_false_2; intros Hs; by apply Hb in Hs].
  - destruct (plan_exact indexes (special 0) (rows 0) _ e plan (Hrows 0 ltac:(lia)) Hp) as (_ & _ & Hsub). intros c index Hc.
    apply InitColumnIndexEntries_in. by eapply lookup_weaken.
Qed.

(** C11. An index scan of a segment.  If the filter is one that the plan takes a part of for the
    indexes, its comparisons keep to [index_compare] in every row ([rows_ok]: no NaN, finite values,
    casts that are exact, strings by [=] and without hash collisions), the indexes have the keys of the
    rows of the segment and it has a power of two of rows or so few in memory that offsets fit in an
    array ([indexes_cover]), and the rough filter does not skip the segment, then the scan succeeds and
    gives exactly the rows that satisfy that part and that the delete filter lets through, in order
    and in blocks that are not too large; and a row satisfies the filter if and only if it satisfies that part and what is left over. *)
Theorem index_scan_exact e plan q h evaluator rough_filter begin_ts :
  1 ≤ n ≤ 2 ^ 30 → versions_ok segment → indexes_cover → rows_ok e →
  SolveForIndexScan indexes e = Ok plan → index_filter_qualified_ plan = Some q →
  match evaluator with Some ev => Evaluate ev begin_ts rough_filter = Ok true | None => True end →
  (∀ r, 0 ≤ r < n → satisfies (special r) (rows r) e ↔
    satisfies (special r) (rows r) q ∧ satisfies_opt (special r) (rows r) (extra_leftover_filter_ plan)) ∧
  ∃ blocks, ExecuteInternal h evaluator rough_filter (at_segment <$> column_index_map_ plan) (filter_execute_command_ plan) segment begin_ts = Ok blocks ∧
    concat blocks = filter (fun r => satisfies (special r) (rows r) q ∧ lets_through segment begin_ts r = true) (seqZ 0 n) ∧
    block_sizes_ok blocks.
Proof using Laws.
  intros Hn Hversions Hcov Hrows Hp Hq Hev. split.
  { intros r Hr. destruct (plan_exact indexes (special r) (rows r) _ e plan (Hrows r Hr) Hp) as (Hsplit & _). by rewrite Hq in Hsplit. }
  destruct (plan_rows e plan q ltac:(lia) Hrows Hp Hq) as (Hel & Hrun & Hmap).
  destruct (SolveSecondaryIndexFilterInner_ok n Hn key (at_segment <$> column_index_map_ plan) (fun c => is_Some (column_index_map_ plan !! c)))
    with (h := h) (command := filter_execute_command_ plan) (P := fun r => bool_decide (satisfies (special r) (rows r) q)) as (s & h' & Hs & Q & Hsel & HQ); try done.
  { intros c [index Hc]. exists (at_segment index). rewrite lookup_fmap, Hc. split; [done|]. by apply Hcov, Hmap. }
  destruct (Output_ok segment begin_ts Hversions n h' s Q Hn Hsel) as (blocks & Hout & Hconcat & Hsizes). exists blocks. split; [|split; [|done]].
  - unfold ExecuteInternal. assert (match evaluator with Some ev => Evaluate ev begin_ts rough_filter | None => Ok true end = Ok true) as -> by (by destruct evaluator).
    cbn [res_bind negb]. rewrite Hs. cbn [res_bind]. exact Hout.
  - rewrite Hconcat. symmetry. apply rows_unique; [lia|apply filter_sorted, seqZ_sorted; lia|]. intros r.
    rewrite list_elem_of_filter, elem_of_seqZ, andb_true_iff. split.
    + intros ([Hsat Hl] & Hr). split; [lia|]. rewrite HQ by lia. by rewrite bool_decide_eq_true_2.
    + intros (Hr & Hq' & Hl). rewrite HQ in Hq' by lia. apply bool_decide_eq_true in Hq'. split; [done|lia].
Qed.
End Scan.

(** ** An example *)

(** A learned index that is exact. *)
Definition exact_pgm : PgmLibrary := {|
  Pgm := list Z;
  pgm_build keys := keys;
  pgm_search keys k := let lo := Z.min (zlen (filter (fun x => (x <? k) = true) keys)) (zlen keys - 1) in (lo, lo, lo + 1);
|}.

Lemma below_keys data k : zlen (filter (fun x => (x <? k) = true) (map fst data)) = below k data.
Proof.
  unfold count. induction data as [|p data IH]; [done|]. cbn [map]. rewrite !filter_cons. repeat case_decide; try lia; rewrite ?zlen_cons; lia.
Qed.

#[export] Instance exact_pgm_laws : @PgmLaws exact_pgm.
Proof.
  split. intros data k Hs Hne. cbn [pgm_search exact_pgm pgm_build]. rewrite below_keys.
  assert (zlen (map fst data) = zlen data) as -> by (unfold zlen; by rewrite length_map).
  pose proof (count_range (fun x => x <? k) data). assert (0 < zlen data) by (destruct data; [done|]; rewrite zlen_cons; unfold zlen; lia). lia.
Qed.

(** Three rows with 5, 9 and 7 in a column with an index, two of them in a chunk, and their offsets in
    another; the filter asks for more than 5 in the first column and 1 in the second. *)
Definition scan_value (r : Z) : Z := if r =? 0 then 5 else if r =? 1 then 9 else 7.
Definition scan_rows (r c : Z) : Value := VInt IntegerT (if c =? 0 then scan_value r else r).
Definition scan_index : @SegmentIndex exact_pgm :=
  mkSegmentIndex (H := exact_pgm) [OutputAndBuild (H := exact_pgm) 2 [(5, 0); (9, 1)]] (Some [(7, 2)]).
Definition scan_segment : SegmentEntry (V := Z) :=
  with_blocks (NewSegmentEntry 0 2) [NewBlockEntry (H := list_columns Z) 0 []] 3 3.
Definition scan_expr : Expr :=
  FunctionExpression "AND" kBoolean
    [FunctionExpression "<" kBoolean [ValueExpression (VInt IntegerT 5); ColumnExpression 0 false kInteger];
     FunctionExpression "=" kBoolean [ColumnExpression 1 false kInteger; ValueExpression (VInt IntegerT 1)]].
Definition scan_qualified : Expr := FunctionExpression ">" kBoolean [ColumnExpression 0 false kInteger; ValueExpression (VInt IntegerT 5)].
Definition scan_plan : @IndexScanPlan unit :=
  @mkPlan unit {[0 := tt]} (Some scan_qualified)
    (Some (FunctionExpression "=" kBoolean [ColumnExpression 1 false kInteger; ValueExpression (VInt IntegerT 1)]))
    [ExecuteRange (mkRange 0 (Some (mkInterval kInteger 6 2147483647)))].

Lemma scan_index_covers : @index_covers exact_pgm 3 scan_value scan_index.
Proof.
  split; [|by right]. exists [[(5, 0); (9, 1)]]. split; [done|]. split.
  - constructor; [|constructor]. split; [|done]. repeat constructor. unfold key_le. cbn. lia.
  - split; [by repeat constructor|]. cbn. change (seqZ 0 3) with [0; 1; 2]. done.
Qed.

Lemma scan_index_ok r : 0 ≤ r < 3 →
  index_ok (Library := exact_filters) (Functions := no_functions) (InitColumnIndexEntries [(0, tt)]) (fun _ => None) (scan_rows r) (fun c => if c =? 0 then scan_value r else r) scan_expr.
Proof.
  intros Hr. cbn [index_ok scan_expr String.eqb Ascii.eqb Bool.eqb orb compare_op]. split; (split; [by intros Hv|]).
  - intros _ _ v [= <-]. exists 0. constructor; try done.
    constructor; try done; [by exists kInteger|]. unfold scan_rows, scan_value. cbn. destruct (r =? 0), (r =? 1); solve_range.
  - by intros Hv.
Qed.

Lemma index_scan_exact_witness :
  SolveForIndexScan (H := no_functions) (H0 := exact_filters) [(0, tt)] scan_expr = Ok scan_plan ∧
  ∃ blocks, ExecuteInternal (H := exact_pgm) (H0 := exact_filters) [] None FastRoughFilter_new ((fun _ => scan_index) <$> column_index_map_ scan_plan)
      (filter_execute_command_ scan_plan) scan_segment 100 = Ok blocks ∧
    concat blocks = filter (fun r => satisfies (Functions := no_functions) (fun _ => None) (scan_rows r) scan_qualified ∧ lets_through scan_segment 100 r = true) (seqZ 0 3).
Proof.
  assert (Hplan : SolveForIndexScan (H := no_functions) (H0 := exact_filters) [(0, tt)] scan_expr = Ok scan_plan) by (vm_compute; reflexivity).
  split; [exact Hplan|].
  destruct (@index_scan_exact exact_filters no_functions exact_pgm exact_pgm_laws unit Z [(0, tt)] (fun _ => scan_index) scan_segment (fun _ _ => None)
    scan_rows (fun c r => if c =? 0 then scan_value r else r) scan_expr scan_plan scan_qualified [] None FastRoughFilter_new 100)
    as (_ & blocks & Hb & Hc & _).
  - cbn. lia.
  - unfold versions_ok. cbn [scan_segment with_blocks block_entries_]. constructor; [|constructor]. cbn [NewBlockEntry version_ BlockVersion_new deleted_].
    unfold zlen. by rewrite length_replicate.
  - intros c [] Hin. apply list_elem_of_singleton in Hin. injection Hin as ->. exact scan_index_covers.
  - exact scan_index_ok.
  - exact Hplan.
  - reflexivity.
  - exact I.
  - exists blocks. split; [exact Hb|exact Hc].
Defined.

(** ** What goes wrong *)

(** A query of the memory index that finds more than 1024 rows raises an error, unless the number of
    rows of the segment is a power of two: [Bitmask::Initialize] takes no other. *)
Theorem memory_index_mask_raises :
  RangeQueryInner [] 1500 0 2000 (map (fun r => (r, r)) (seqZ 0 1500)) = Err UnrecoverableError.
Proof. vm_compute. reflexivity. Qed.

(** A segment of one block with a row appended at 5 and one at 9. *)
Definition two_appends : SegmentEntry (V := Z) :=
  with_blocks (NewSegmentEntry 0 1)
    [mkBlock (H := list_columns Z) 0 2 DEFAULT_BLOCK_CAPACITY
       (mkVersion [mkCreateField 5 1; mkCreateField 9 2] (replicate (Z.to_nat DEFAULT_BLOCK_CAPACITY) 0)) [] 5 9 0 0 0 5] 2 2.

(** [DeleteFilter] lets the first row through that was appended after the snapshot: it compares the
    offset with the number of rows by [<=], and then does not look at when rows were appended. *)
Theorem later_row_read :
  Segment_CheckRowVisible two_appends 1 7 true = Ok false ∧
  delete_filter (scan_filter two_appends 7) 1 = Ok true ∧
  (let? blocks := Output [] 2 (SelectedVector [0; 1]) (scan_filter two_appends 7) in Ok blocks) = Ok [[0; 1]].
Proof. split; [|split]; vm_compute; reflexivity. Qed.

(** A comparison that holds for every value of the column leaves no value to make a range of. *)
Theorem always_true_raises :
  SolveForIndexScan (H := no_functions) (H0 := exact_filters) [(0, tt)]
    (FunctionExpression "<=" kBoolean [CastExpression kBigInt (ColumnExpression 0 false kTinyInt); ValueExpression (VInt BigIntT 1000)]) =
  Err UnrecoverableError.
Proof. vm_compute. reflexivity. Qed.

(** A string column with an index is compared by [=] only. *)
Theorem varchar_range_raises :
  SolveForIndexScan (H := no_functions) (H0 := exact_filters) [(0, tt)]
    (FunctionExpression "<=" kBoolean [ColumnExpression 0 false kVarchar; ValueExpression (VVarchar [97])]) =
  Err UnrecoverableError.
Proof. vm_compute. reflexivity. Qed.

(** Every key is in the range of a comparison with a NaN, which no value satisfies. *)
Theorem nan_matches_all k :
  (let? i := SetResultIntervalValue (H0 := exact_filters) (VFloating DoubleT NaN) kEqual in Ok (in_keys i (fun _ => k) 0)) =
    Ok ((lowest_key double_format <=? k) && (k <=? max_key double_format)) ∧
  unwound_holds kEqual (VFloating DoubleT (Num k)) (VFloating DoubleT NaN) = false.
Proof. split; reflexivity. Qed.
