(* ===== verification/SegmentIndexProps.v ===== *)
(** * Secondary indexes over time

    Whatever rows are inserted into the index of a segment, and whenever the memory index is dumped or
    chunks are merged, every query finds each row once ([index_stays_complete]), provided that an
    optimization finds all chunks committed (otherwise it fails an assertion,
    [uncommitted_chunk_asserts]) and that a cleanup follows it: until then it finds rows twice, and another optimization makes that
    permanent ([optimized_index_repeats]). *)

From Stdlib Require Import ZArith Lia List String.
From stdpp Require Import base list numbers sets sorting strings gmap.
From S2P Require Import Prelude Bytes DataTypes DateTime CatalogDelta BlockVersion BlockEntry Bitmask SegmentEntry Floating FilterExpr FilterSpec RoughFilter RoughFilterSpec RoughFilterProps SecondaryIndex SecondaryIndexSpec IndexScan SegmentIndexEntry IndexPlanSpec IndexScanSpec IndexScanProps.
Local Open Scope Z_scope.

(** ** Sequences of operations *)

(** What happens to the index: rows [row_offset] up to [row_offset + row_count] of a block are inserted;
    the memory index is dumped; the chunks are committed; an optimization runs, commits and is cleaned
    up after. *)
Inductive IndexOp :=
| IndexInsert (block_id row_offset row_count : Z)
| IndexDump
| IndexCommit (commit_ts : Z)
| IndexOptimize (txn_id begin_ts commit_ts visible_ts : Z).

Section Ops.
Context {Library : FilterLibrary} {Pgm_library : PgmLibrary}.
Context (committing : Z → Z → bool) (value : Z → Value).

(** [value] has the value of the column in each row of the segment. *)
Definition run_op (this : SegmentIndexEntry) (op : IndexOp) : result SegmentIndexEntry :=
  match op with
  | IndexInsert block_id row_offset row_count =>
      MemIndexInsert this block_id (fun r => value (block_id * DEFAULT_BLOCK_CAPACITY + r)) row_offset row_count
  | IndexDump => MemIndexDump this
  | IndexCommit commit_ts => res_fold (fun this => CommitChunk this commit_ts) this (map chunk_id_ (chunk_entries_ this))
  | IndexOptimize txn_id begin_ts commit_ts visible_ts =>
      let? '(this, merged) := RebuildChunkIndexEntries committing txn_id begin_ts this in
      match merged with
      | None => Ok this
      | Some (new_chunk, old_chunks) => let? this := CommitOptimize this new_chunk old_chunks commit_ts in Ok (PickCleanup this visible_ts)
      end
  end.

(** What is known of an index after some operations: its rows, whether the memory index and chunks
    without a commit are there, and the last timestamp of a commit. *)
Record IndexHistory := mkHistory { h_rows : Z; h_memory : bool; h_pending : bool; h_last : Z }.

Definition new_index : IndexHistory := mkHistory 0 false false 0.

(** The history after an operation that can happen: rows are inserted in order, commits have
    timestamps, and an optimization commits after the chunks that it merges. *)
Definition op_after (a : IndexHistory) (op : IndexOp) : option IndexHistory :=
  match op with
  | IndexInsert block_id row_offset row_count =>
      if (block_id * DEFAULT_BLOCK_CAPACITY + row_offset =? h_rows a) && (0 <? row_count)
      then Some (mkHistory (h_rows a + row_count) true (h_pending a) (h_last a)) else None
  | IndexDump => Some (mkHistory (h_rows a) false (h_pending a || h_memory a) (h_last a))
  | IndexCommit commit_ts =>
      if commit_ts <? UNCOMMIT_TS then Some (mkHistory (h_rows a) (h_memory a) false (Z.max (h_last a) commit_ts)) else None
  | IndexOptimize _ _ commit_ts visible_ts =>
      if negb (h_pending a) && (h_last a <? commit_ts) && (commit_ts <=? visible_ts) && (visible_ts <? UNCOMMIT_TS)
      then Some (mkHistory (h_rows a) (h_memory a) false commit_ts) else None
  end.

Fixpoint ops_after (a : IndexHistory) (ops : list IndexOp) : option IndexHistory :=
  match ops with
  | [] => Some a
  | op :: ops' => match op_after a op with Some a' => ops_after a' ops' | None => None end
  end.

Lemma op_after_le a op a' : op_after a op = Some a' → h_rows a ≤ h_rows a'.
Proof using. destruct op; cbn; repeat case_match; intros [= <-]; cbn; lia. Qed.

Lemma ops_after_le ops : ∀ a a', ops_after a ops = Some a' → h_rows a ≤ h_rows a'.
Proof using.
  induction ops as [|op ops IH]; intros a a'; cbn [ops_after]; [intros [= <-]; lia|]. destruct (op_after a op) as [a1|] eqn:Hop; [|done].
  intros H. apply op_after_le in Hop. apply IH in H. lia.
Qed.

(** ** The invariant *)

Context (Hcommitting : ∀ ts, committing 0 ts = true) (key : Z → Z).

Definition chunk_of (c : ChunkIndexEntry) (d : list IndexPair) : Prop := index_data_ c = OutputAndBuild (zlen d) d ∧ sorted_pairs d ∧ 0 < zlen d.

(** A chunk of the index that has no transaction. *)
Definition chunk_known (next : Z) (c : ChunkIndexEntry) : Prop := chunk_txn_id_ c = 0 ∧ chunk_id_ c < next.

(** What is known of the timestamps of a chunk; none is deprecated. *)
Definition chunk_live (a : IndexHistory) (c : ChunkIndexEntry) : Prop :=
  chunk_deprecate_ts_ c = UNCOMMIT_TS ∧ (Chunk_Committed c = true → chunk_commit_ts_ c ≤ h_last a) ∧ (h_pending a = false → Chunk_Committed c = true).

Record index_inv (a : IndexHistory) (this : SegmentIndexEntry) : Prop := {
  inv_known : Forall (chunk_known (next_chunk_id_ this)) (chunk_entries_ this);
  inv_ids : NoDup (map chunk_id_ (chunk_entries_ this));
  inv_live : Forall (chunk_live a) (chunk_entries_ this);
  inv_memory : match memory_index_ this with Some m => h_memory a = true ∧ sorted_pairs m ∧ m ≠ [] | None => h_memory a = false end;
  inv_pairs : ∃ datas, Forall2 chunk_of (chunk_entries_ this) datas ∧
    concat datas ++ default [] (memory_index_ this) ≡ₚ map (fun r => (key r, r)) (seqZ 0 (h_rows a));
}.

Lemma inv_memory_sorted a this : index_inv a this → sorted_pairs (default [] (memory_index_ this)).
Proof using. intros [_ _ _ Hm _]. destruct (memory_index_ this) as [m|]; [apply Hm|constructor]. Qed.

Lemma all_visible next cs txn_id begin_ts : Forall (chunk_known next) cs →
  filter (fun c => Chunk_CheckVisible committing txn_id begin_ts c = true) cs = cs.
Proof using Hcommitting.
  induction 1 as [|c cs (Ht & _) _ IH]; [done|]. rewrite filter_cons_True; [by rewrite IH|].
  unfold Chunk_CheckVisible. rewrite Ht, Hcommitting. apply orb_true_r.
Qed.

Lemma chunks_data cs datas : Forall2 chunk_of cs datas → map index_data_ cs = map (fun d => OutputAndBuild (zlen d) d) datas.
Proof using. induction 1 as [|c d cs datas [Hc _] _ IH]; [done|]. cbn [map]. by rewrite Hc, IH. Qed.

Lemma chunks_sorted cs datas : Forall2 chunk_of cs datas → Forall (fun d => sorted_pairs d ∧ 0 < zlen d) datas.
Proof using. induction 1 as [|c d cs datas (_ & Hs & Hl) _ IH]; by constructor. Qed.

(** The data of the chunks that a query reads. *)
Lemma snapshot_data cs next m datas txn_id begin_ts : Forall (chunk_known next) cs → Forall2 chunk_of cs datas →
  GetSecondaryIndexSnapshot committing txn_id begin_ts (mkSegmentIndexEntry cs next m) = mkSegmentIndex (map (fun d => OutputAndBuild (zlen d) d) datas) m.
Proof using Hcommitting. intros Hk Hc. unfold GetSecondaryIndexSnapshot. cbn [chunk_entries_ memory_index_]. by rewrite (all_visible next), (chunks_data _ datas). Qed.

(** Every query finds each row once. *)
Lemma inv_has a this txn_id begin_ts : index_inv a this → index_has (h_rows a) key (GetSecondaryIndexSnapshot committing txn_id begin_ts this).
Proof using Hcommitting.
  intros Hinv. pose proof Hinv as [Hk _ _ _ (datas & Hc & Hp)]. apply inv_memory_sorted in Hinv. destruct this as [cs next m]. exists datas.
  rewrite (snapshot_data cs next m datas) by done. split; [done|]. split; [by eapply chunks_sorted|]. done.
Qed.

(** *** Filling the index *)

Lemma index_inv_new : index_inv new_index SegmentIndexEntry_new.
Proof using. split; try constructor. by exists []. Qed.

Lemma shifted_rows b o k : map (fun r => (key (b + r), b + r)) (seqZ o k) = map (fun r => (key r, r)) (seqZ (b + o) k).
Proof using. rewrite <- fmap_add_seqZ. by rewrite <- list_fmap_compose. Qed.

Lemma insert_inv a this block_id row_offset row_count :
  index_inv a this → 0 ≤ h_rows a → block_id * DEFAULT_BLOCK_CAPACITY + row_offset = h_rows a → 0 < row_count →
  (∀ r, h_rows a ≤ r < h_rows a + row_count → ConvertToOrderedKeyValue (value r) = Ok (Some (key r))) →
  ∃ this', run_op this (IndexInsert block_id row_offset row_count) = Ok this' ∧
    index_inv (mkHistory (h_rows a + row_count) true (h_pending a) (h_last a)) this'.
Proof using.
  intros Hinv Hn Hrow Hpos Hkeys. pose proof Hinv as [Hk Hi Hl Hm (datas & Hc & Hp)]. cbn [run_op]. unfold MemIndexInsert.
  assert (Hs : sorted_pairs (match memory_index_ this with Some m => m | None => [] end)) by (by apply (inv_memory_sorted a)).
  destruct (InMem_Insert_ok block_id (fun r => value (block_id * DEFAULT_BLOCK_CAPACITY + r)) (fun r => key (block_id * DEFAULT_BLOCK_CAPACITY + r)) row_offset row_count _ Hs)
    as (m' & -> & Hs' & Hperm).
  { apply Forall_forall. intros r Hr%elem_of_seqZ. apply Hkeys. lia. }
  cbn [res_bind]. eexists. split; [reflexivity|]. rewrite shifted_rows, Hrow in Hperm.
  split; cbn [chunk_entries_ next_chunk_id_ memory_index_ default h_rows h_memory]; [done|done|done| |].
  - split; [done|]. split; [done|]. intros ->. apply Permutation_nil_l in Hperm. rewrite seqZ_cons in Hperm by lia. done.
  - exists datas. split; [done|]. rewrite Hperm, seqZ_app by lia. rewrite map_app, <- Hp. rewrite Z.add_0_l.
    rewrite <- app_assoc. apply Permutation_app_head, Permutation_app_comm.
Qed.

(** A new chunk has an identifier of its own. *)
Lemma fresh_id cs next : Forall (chunk_known next) cs → next ∉ map chunk_id_ cs.
Proof using. intros Hk Hin%list_elem_of_fmap. destruct Hin as (c & Hc & Hin). rewrite Forall_forall in Hk. destruct (Hk c Hin). lia. Qed.

Lemma known_snoc cs next c : Forall (chunk_known next) cs → chunk_txn_id_ c = 0 → chunk_id_ c = next → Forall (chunk_known (next + 1)) (cs ++ [c]).
Proof using.
  intros Hk Ht Hid. apply Forall_app. split; [|constructor; [split; [done|lia]|constructor]]. eapply Forall_impl; [exact Hk|]. unfold chunk_known. intros c' (? & ?). split; [done|lia].
Qed.

Lemma ids_snoc cs next c : Forall (chunk_known next) cs → NoDup (map chunk_id_ cs) → chunk_id_ c = next → NoDup (map chunk_id_ (cs ++ [c])).
Proof using.
  intros Hk Hi Hid. rewrite map_app. apply NoDup_app. split; [done|]. split; [|apply NoDup_singleton]. intros i Hin Hn%list_elem_of_singleton.
  rewrite Hn, Hid in Hin. by apply (fresh_id cs next).
Qed.

Lemma dump_inv a this : index_inv a this →
  ∃ this', run_op this IndexDump = Ok this' ∧ index_inv (mkHistory (h_rows a) false (h_pending a || h_memory a) (h_last a)) this'.
Proof using.
  intros Hinv. pose proof Hinv as [Hk Hi Hl Hm (datas & Hc & Hp)]. cbn [run_op]. unfold MemIndexDump.
  destruct this as [cs next [m|]]; cbn [chunk_entries_ next_chunk_id_ memory_index_] in *; last first.
  { eexists. split; [reflexivity|]. rewrite Hm, orb_false_r. split; try done. by exists datas. }
  destruct Hm as (Hm & Hs & Hne). unfold Dump, InsertData. rewrite Z.eqb_refl. cbn [negb res_bind]. eexists. split; [reflexivity|].
  rewrite Hm, orb_true_r. split; cbn [push_chunk chunk_entries_ next_chunk_id_ memory_index_ h_rows]; [by apply known_snoc|by apply (ids_snoc _ next)| |done|].
  - apply Forall_app. split; [|by repeat constructor]. eapply Forall_impl; [exact Hl|]. unfold chunk_live. cbn. by intros c (? & ? & _).
  - exists (datas ++ [m]). split.
    + apply Forall2_app; [done|]. constructor; [|constructor]. split; [done|]. split; [done|]. destruct m; [done|]. rewrite zlen_cons. unfold zlen. lia.
    + rewrite concat_app. cbn [concat default]. rewrite !app_nil_r. exact Hp.
Qed.

(** *** Commits and optimization *)

Lemma update_entry_at f pre c post :
  chunk_id_ c ∉ map chunk_id_ pre → update_entry f (chunk_id_ c) (pre ++ c :: post) = let? c' := f c in Ok (pre ++ c' :: post).
Proof using.
  induction pre as [|c0 pre IH]; intros Hn; cbn [app update_entry]; [by rewrite Z.eqb_refl|]. cbn [map] in Hn. apply not_elem_of_cons in Hn as [Hn Hpre].
  destruct (Z.eqb_spec (chunk_id_ c0) (chunk_id_ c)); [congruence|]. rewrite (IH Hpre). by destruct (f c).
Qed.

(** Updating chunks one after the other. *)
Lemma update_chunks f g cs : (∀ c, chunk_id_ (g c) = chunk_id_ c) → ∀ pre post next m,
  NoDup (map chunk_id_ (pre ++ cs)) → Forall (fun c => f c = Ok (g c)) cs →
  res_fold (update_chunk f) (mkSegmentIndexEntry (pre ++ cs ++ post) next m) (map chunk_id_ cs) = Ok (mkSegmentIndexEntry (pre ++ map g cs ++ post) next m).
Proof using.
  clear Hcommitting committing value key. intros Hid. induction cs as [|c cs IH]; intros pre post next m Hnd Hf; [done|]. apply Forall_cons in Hf as [Hc Hf]. cbn [map res_fold app].
  assert (Hn : chunk_id_ c ∉ map chunk_id_ pre).
  { rewrite map_app in Hnd. apply NoDup_app in Hnd as (_ & Hnd & _). intros Hin. apply (Hnd _ Hin). by left. }
  unfold update_chunk at 1. cbn [chunk_entries_ next_chunk_id_ memory_index_]. rewrite (update_entry_at f pre c _ Hn), Hc. cbn [res_bind].
  replace (pre ++ g c :: cs ++ post) with ((pre ++ [g c]) ++ cs ++ post) by (by rewrite <- app_assoc). rewrite IH; [by rewrite <- app_assoc| |done].
  rewrite <- app_assoc, !map_app in *. cbn [map app] in *. by rewrite Hid.
Qed.

(** If one of them fails its assertion, so does all. *)
Lemma update_chunks_fail f g cs : (∀ c, chunk_id_ (g c) = chunk_id_ c) → ∀ pre post next m,
  NoDup (map chunk_id_ (pre ++ cs)) → Forall (fun c => f c = Ok (g c) ∨ f c = Err UnrecoverableError) cs → Exists (fun c => f c = Err UnrecoverableError) cs →
  res_fold (update_chunk f) (mkSegmentIndexEntry (pre ++ cs ++ post) next m) (map chunk_id_ cs) = Err UnrecoverableError.
Proof using.
  clear Hcommitting committing value key. intros Hid. induction cs as [|c cs IH]; intros pre post next m Hnd Hf Hx; [by apply Exists_nil in Hx|].
  apply Forall_cons in Hf as [Hc Hf]. cbn [map res_fold app].
  assert (Hn : chunk_id_ c ∉ map chunk_id_ pre).
  { rewrite map_app in Hnd. apply NoDup_app in Hnd as (_ & Hnd & _). intros Hin. apply (Hnd _ Hin). by left. }
  unfold update_chunk at 1. cbn [chunk_entries_ next_chunk_id_ memory_index_]. rewrite (update_entry_at f pre c _ Hn).
  destruct Hc as [Hc|Hc]; rewrite Hc; cbn [res_bind]; [|done]. apply Exists_cons in Hx as [Hx|Hx]; [congruence|].
  replace (pre ++ g c :: cs ++ post) with ((pre ++ [g c]) ++ cs ++ post) by (by rewrite <- app_assoc). apply IH; [|done|done].
  rewrite <- app_assoc, !map_app in *. cbn [map app] in *. by rewrite Hid.
Qed.

Lemma index_commit_inv a this commit_ts : index_inv a this → commit_ts < UNCOMMIT_TS →
  ∃ this', run_op this (IndexCommit commit_ts) = Ok this' ∧ index_inv (mkHistory (h_rows a) (h_memory a) false (Z.max (h_last a) commit_ts)) this'.
Proof using.
  intros [Hk Hi Hl Hm (datas & Hc & Hp)] Hts. cbn [run_op]. destruct this as [cs next m]. cbn [chunk_entries_ next_chunk_id_ memory_index_] in *.
  set (g := fun c => if Chunk_Committed c then c else set_chunk_commit_ts commit_ts c).
  assert (Hg : ∀ c, chunk_id_ (g c) = chunk_id_ c ∧ chunk_txn_id_ (g c) = chunk_txn_id_ c ∧ index_data_ (g c) = index_data_ c ∧ chunk_deprecate_ts_ (g c) = chunk_deprecate_ts_ c).
  { intros c. unfold g. by destruct (Chunk_Committed c). }
  pose proof (update_chunks (fun c => if Chunk_Committed c then Ok c else Chunk_Commit commit_ts c) g cs (fun c => proj1 (Hg c)) [] [] next m) as Hup.
  cbn [app] in Hup. rewrite !app_nil_r in Hup. eexists. split; [apply Hup; [done|]|].
  { apply Forall_forall. intros c _. unfold g, Chunk_Commit. destruct (Chunk_Committed c); [done|]. cbn [negb orb]. by rewrite (proj2 (Z.eqb_neq _ _)) by lia. }
  split; cbn [chunk_entries_ next_chunk_id_ memory_index_ h_rows h_memory app]; [| | |done|exists datas; split; [|done]].
  - apply Forall_fmap. eapply Forall_impl; [exact Hk|]. unfold compose, chunk_known. intros c. by destruct (Hg c) as (-> & -> & _).
  - rewrite map_map. erewrite map_ext; [exact Hi|]. intros c. apply Hg.
  - apply Forall_fmap. eapply Forall_impl; [exact Hl|]. unfold compose, chunk_live. cbn [h_last h_pending]. intros c (Hd & Hle & _).
    destruct (Hg c) as (_ & _ & _ & ->). split; [done|]. unfold g. destruct (Chunk_Committed c) eqn:E; [split; [intros _; specialize (Hle eq_refl); lia|done]|].
    cbn. unfold Chunk_Committed. cbn. split; [lia|]. intros _. by rewrite (proj2 (Z.eqb_neq _ _)) by lia.
  - apply Forall2_fmap_l. eapply Forall2_impl; [exact Hc|]. unfold compose, chunk_of. intros c d. by destruct (Hg c) as (_ & _ & -> & _).
Qed.

Lemma merge_count cs datas : Forall2 chunk_of cs datas → Zsum (map (fun c => chunk_row_count_ (index_data_ c)) cs) = zlen (concat datas).
Proof using. induction 1 as [|c d cs datas [Hc _] _ IH]; [done|]. unfold Zsum in *. cbn [map fold_right concat]. rewrite Hc, IH, zlen_app. done. Qed.

(** An optimization merges all chunks, deprecated ones too. *)
Lemma rebuild_ok cs next m datas txn_id begin_ts :
  Forall (chunk_known next) cs → Forall2 chunk_of cs datas → 1 < zlen cs → zlen (concat datas) < 2 ^ 32 →
  ∃ data, sorted_pairs data ∧ data ≡ₚ concat datas ∧
    RebuildChunkIndexEntries committing txn_id begin_ts (mkSegmentIndexEntry cs next m) =
    Ok (push_chunk (mkSegmentIndexEntry cs next m) (OutputAndBuild (zlen data) data) m, Some (next, map chunk_id_ cs)).
Proof using Hcommitting.
  intros Hk Hc Hlen Hsmall. change (2 ^ 32) with 4294967296 in Hsmall. unfold RebuildChunkIndexEntries. cbn [chunk_entries_ next_chunk_id_ memory_index_]. rewrite (proj2 (Z.leb_gt _ _)) by done.
  rewrite (all_visible next), (merge_count _ datas Hc) by done. rewrite cast_id by (eval_range; unfold zlen in *; lia). rewrite (chunks_data _ _ Hc).
  destruct (InsertMergeData_ok datas) as (data & -> & Hs & Hperm); [eapply Forall_impl; [by eapply chunks_sorted|]; by intros d [? _]|].
  by exists data.
Qed.

Lemma commit_merged cs next m data commit_ts : Forall (chunk_known next) cs → commit_ts < UNCOMMIT_TS →
  update_chunk (Chunk_Commit commit_ts) (push_chunk (mkSegmentIndexEntry cs next m) data m) next =
  Ok (mkSegmentIndexEntry (cs ++ [mkChunkIndexEntry next 0 commit_ts UNCOMMIT_TS data]) (next + 1) m).
Proof using.
  clear Hcommitting committing value key. intros Hk Hlt. unfold push_chunk, update_chunk. cbn [chunk_entries_ next_chunk_id_ memory_index_].
  rewrite (update_entry_at _ cs (NewSecondaryIndexChunkIndexEntry next data) [] (fresh_id cs next Hk)). unfold Chunk_Commit, Chunk_Committed.
  cbn [chunk_commit_ts_ NewSecondaryIndexChunkIndexEntry]. rewrite Z.eqb_refl. cbn [negb orb]. by rewrite (proj2 (Z.eqb_neq _ _)) by lia.
Qed.

(** Its commit deprecates them, if all have been committed before. *)
Lemma commit_optimize_ok cs next m data commit_ts :
  Forall (chunk_known next) cs → NoDup (map chunk_id_ cs) → Forall (fun c => chunk_commit_ts_ c < commit_ts) cs → commit_ts < UNCOMMIT_TS →
  CommitOptimize (push_chunk (mkSegmentIndexEntry cs next m) data m) next (map chunk_id_ cs) commit_ts =
  Ok (mkSegmentIndexEntry (map (set_deprecate_ts commit_ts) cs ++ [mkChunkIndexEntry next 0 commit_ts UNCOMMIT_TS data]) (next + 1) m).
Proof using.
  clear Hcommitting committing value key. intros Hk Hi Hts Hlt. unfold CommitOptimize. rewrite commit_merged by done. cbn [res_bind].
  apply (update_chunks _ (set_deprecate_ts commit_ts) cs (fun _ => eq_refl) []); [done|]. eapply Forall_impl; [exact Hts|]. intros c Hc. unfold DeprecateChunk. by rewrite (proj2 (Z.ltb_lt _ _)).
Qed.

(** A chunk without a commit cannot be deprecated. *)
Lemma commit_optimize_fail cs next m data commit_ts :
  Forall (chunk_known next) cs → NoDup (map chunk_id_ cs) → Exists (fun c => Chunk_Committed c = false) cs → commit_ts < UNCOMMIT_TS →
  CommitOptimize (push_chunk (mkSegmentIndexEntry cs next m) data m) next (map chunk_id_ cs) commit_ts = Err UnrecoverableError.
Proof using.
  clear Hcommitting committing value key. intros Hk Hi Hx Hlt. unfold CommitOptimize. rewrite commit_merged by done. cbn [res_bind].
  apply (update_chunks_fail _ (set_deprecate_ts commit_ts) cs (fun _ => eq_refl) []); [done| |].
  - apply Forall_forall. intros c _. unfold DeprecateChunk. destruct (_ <? _); [by left|by right].
  - eapply Exists_impl; [exact Hx|]. intros c Hc. unfold DeprecateChunk. unfold Chunk_Committed in Hc. apply negb_false_iff, Z.eqb_eq in Hc.
    rewrite Hc. by rewrite (proj2 (Z.ltb_ge _ _)) by lia.
Qed.

Lemma deprecated_known cs next ts : Forall (chunk_known next) cs → Forall (chunk_known next) (map (set_deprecate_ts ts) cs).
Proof using. intros Hk. by apply Forall_fmap. Qed.

Lemma deprecated_chunks cs datas ts : Forall2 chunk_of cs datas → Forall2 chunk_of (map (set_deprecate_ts ts) cs) datas.
Proof using. intros Hc. by apply Forall2_fmap_l. Qed.

(** A cleanup leaves the merged chunk. *)
Lemma cleanup_ok cs next m data commit_ts visible_ts : Forall (fun c => chunk_deprecate_ts_ c = commit_ts) cs → commit_ts ≤ visible_ts → visible_ts < UNCOMMIT_TS →
  PickCleanup (mkSegmentIndexEntry (cs ++ [mkChunkIndexEntry next 0 commit_ts UNCOMMIT_TS data]) (next + 1) m) visible_ts =
  mkSegmentIndexEntry [mkChunkIndexEntry next 0 commit_ts UNCOMMIT_TS data] (next + 1) m.
Proof using.
  clear Hcommitting committing value key. intros Hd Hle Hlt. unfold PickCleanup. cbn [chunk_entries_ next_chunk_id_ memory_index_].
  rewrite filter_app, filter_cons_True, filter_nil by (unfold CheckDeprecate; cbn; apply Z.leb_gt; exact Hlt).
  rewrite filter_none; [done|]. eapply Forall_impl; [exact Hd|]. intros c Hc. unfold CheckDeprecate. rewrite Hc. lia.
Qed.

Lemma live_committed a cs : Forall (chunk_live a) cs → h_pending a = false → Forall (fun c => chunk_commit_ts_ c ≤ h_last a) cs.
Proof using. intros Hl Hp. eapply Forall_impl; [exact Hl|]. intros c (_ & Hle & Hc). by apply Hle, Hc. Qed.

Lemma data_rows a cs next m datas : index_inv a (mkSegmentIndexEntry cs next m) → Forall2 chunk_of cs datas →
  concat datas ++ default [] m ≡ₚ map (fun r => (key r, r)) (seqZ 0 (h_rows a)) → zlen (concat datas) ≤ Z.max 0 (h_rows a).
Proof using. intros _ _ Hp. apply Permutation_length in Hp. rewrite length_app, length_map, length_seqZ in Hp. unfold zlen. lia. Qed.

Lemma optimize_inv a this txn_id begin_ts commit_ts visible_ts :
  index_inv a this → h_rows a ≤ 2 ^ 30 → h_pending a = false → h_last a < commit_ts → commit_ts ≤ visible_ts → visible_ts < UNCOMMIT_TS →
  ∃ this', run_op this (IndexOptimize txn_id begin_ts commit_ts visible_ts) = Ok this' ∧ index_inv (mkHistory (h_rows a) (h_memory a) false commit_ts) this'.
Proof using Hcommitting.
  intros Hinv Hn Hpend Hlast Hle Hlt. pose proof Hinv as [Hk Hi Hl Hm (datas & Hc & Hp)]. cbn [run_op]. pose proof (live_committed a _ Hl Hpend) as Hts.
  destruct this as [cs next m]. cbn [chunk_entries_ next_chunk_id_ memory_index_] in *. destruct (Z.leb_spec (zlen cs) 1) as [Hone|Hlen].
  { unfold RebuildChunkIndexEntries. cbn [chunk_entries_]. rewrite (proj2 (Z.leb_le _ _)) by done. eexists. split; [reflexivity|]. split; try done; [|by exists datas].
    eapply Forall_impl; [exact Hl|]. unfold chunk_live. cbn. intros c (? & Hcl & Hcp). split; [done|]. split; [intros Hcc; specialize (Hcl Hcc); lia|auto]. }
  destruct (rebuild_ok cs next m datas txn_id begin_ts Hk Hc Hlen) as (data & Hs & Hperm & ->).
  { pose proof (data_rows _ _ _ _ _ Hinv Hc Hp). change (2 ^ 30) with 1073741824 in Hn. lia. }
  cbn [res_bind]. rewrite commit_optimize_ok; [|done|done|eapply Forall_impl; [exact Hts|]; cbn; lia|lia].
  cbn [res_bind]. rewrite cleanup_ok; [|by apply Forall_fmap, Forall_forall|done|done]. eexists. split; [reflexivity|].
  split; cbn [chunk_entries_ next_chunk_id_ memory_index_ h_rows h_memory]; [by repeat constructor; cbn; lia|apply NoDup_singleton| |done|].
  - constructor; [|constructor]. split; [done|]. cbn. split; [lia|]. intros _. unfold Chunk_Committed. cbn. by rewrite (proj2 (Z.eqb_neq _ _)) by lia.
  - exists [data]. split; [|cbn [concat]; by rewrite app_nil_r, Hperm]. constructor; [|constructor]. split; [done|]. split; [done|].
    apply Permutation_length in Hperm. unfold zlen. rewrite Hperm.
    destruct Hc as [|c d cs datas (_ & _ & Hd) _]; [done|]. cbn [concat]. rewrite length_app. unfold zlen in Hd. lia.
Qed.

Lemma run_ops_inv ops : ∀ a a' this,
  index_inv a this → 0 ≤ h_rows a → ops_after a ops = Some a' → h_rows a' ≤ 2 ^ 30 →
  (∀ r, h_rows a ≤ r < h_rows a' → ConvertToOrderedKeyValue (value r) = Ok (Some (key r))) →
  ∃ this', res_fold run_op this ops = Ok this' ∧ index_inv a' this'.
Proof using Hcommitting.
  induction ops as [|op ops IH]; intros a a' this Hinv Hn Hops Htotal Hkeys; cbn [ops_after res_fold] in *; [injection Hops as <-; by exists this|].
  destruct (op_after a op) as [a1|] eqn:Hop; [|done]. pose proof (op_after_le _ _ _ Hop). pose proof (ops_after_le _ _ _ Hops).
  assert (∃ this', run_op this op = Ok this' ∧ index_inv a1 this') as (this' & -> & Hinv').
  { destruct op as [b o k| |ts|txn_id begin_ts commit_ts visible_ts]; cbn [op_after] in Hop.
    - destruct (_ && _) eqn:Hb; [|done]. injection Hop as <-. cbn [h_rows] in *. apply insert_inv; try lia; [done|]. intros r Hr. apply Hkeys. lia.
    - injection Hop as <-. by apply dump_inv.
    - destruct (Z.ltb_spec ts UNCOMMIT_TS); [|done]. injection Hop as <-. by apply index_commit_inv.
    - destruct (_ && _) eqn:Hb; [|done]. injection Hop as <-. cbn [h_rows] in *.
      destruct (h_pending a) eqn:Hpe; [done|]. cbn [negb andb] in Hb. apply optimize_inv; try done; lia. }
  cbn [res_bind]. apply (IH a1); try done; [lia|]. intros r Hr. apply Hkeys. lia.
Qed.
End Ops.

(** ** The theorems *)

(** C12. The secondary index of a segment stays complete.  Rows are inserted in order, the memory index
    is dumped, chunks are committed, and optimizations merge the chunks and are cleaned up after; an
    optimization runs when all chunks have been committed, and commits after them.  In any such
    sequence every operation succeeds, and whatever snapshot a query takes has every row of the
    segment exactly once, with its key, in sorted chunks and a sorted memory index.  No transaction has
    the identifier 0, which is the one of chunks. *)
Theorem index_stays_complete {Library : FilterLibrary} {Pgm_library : PgmLibrary} committing value key ops a :
  (∀ ts, committing 0 ts = true) → ops_after new_index ops = Some a → h_rows a ≤ 2 ^ 30 →
  (∀ r, 0 ≤ r < h_rows a → ConvertToOrderedKeyValue (value r) = Ok (Some (key r))) →
  ∃ this, res_fold (run_op committing value) SegmentIndexEntry_new ops = Ok this ∧
    ∀ txn_id begin_ts, index_has (h_rows a) key (GetSecondaryIndexSnapshot committing txn_id begin_ts this).
Proof.
  intros Hcommitting Hops Htotal Hkeys.
  destruct (run_ops_inv committing value Hcommitting key ops new_index a SegmentIndexEntry_new (index_inv_new key) ltac:(done) Hops Htotal Hkeys) as (this & Hrun & Hinv).
  exists this. split; [exact Hrun|]. intros txn_id begin_ts. by apply (inv_has committing Hcommitting key a).
Qed.

(** Two rows in a chunk each, merged, and a third in memory. *)
Definition example_ops : list IndexOp :=
  [IndexInsert 0 0 1; IndexDump; IndexInsert 0 1 1; IndexDump; IndexCommit 5; IndexOptimize 7 6 8 9; IndexInsert 0 2 1].

Lemma index_stays_complete_witness :
  ops_after new_index example_ops = Some (mkHistory 3 true false 8) ∧
  ∃ this, res_fold (run_op (Library := exact_filters) (Pgm_library := exact_pgm) (fun _ _ => true) (fun r => VInt IntegerT (scan_value r)))
      (SegmentIndexEntry_new (H0 := exact_pgm)) example_ops = Ok this ∧
    ∀ txn_id begin_ts, @index_has exact_pgm 3 scan_value (GetSecondaryIndexSnapshot (H0 := exact_pgm) (fun _ _ => true) txn_id begin_ts this).
Proof.
  assert (E : ops_after new_index example_ops = Some (mkHistory 3 true false 8)) by (vm_compute; reflexivity). split; [exact E|].
  apply (@index_stays_complete exact_filters exact_pgm (fun _ _ => true) (fun r => VInt IntegerT (scan_value r)) scan_value example_ops (mkHistory 3 true false 8)); try done.
Defined.

(** ** Optimizing without cleaning up *)

(** An optimization that has committed, before any cleanup. *)
Definition optimize {Library : FilterLibrary} {Pgm_library : PgmLibrary} (committing : Z → Z → bool) (txn_id begin_ts commit_ts : Z) (this : SegmentIndexEntry)
    : result SegmentIndexEntry :=
  let? '(this, merged) := RebuildChunkIndexEntries committing txn_id begin_ts this in
  match merged with None => Ok this | Some (new_chunk, old_chunks) => CommitOptimize this new_chunk old_chunks commit_ts end.

(** Two optimizations in a row, of an index that satisfies the invariant: the second merges the chunks
    that the first has deprecated with the chunk they were merged to. *)
Lemma optimized_twice {Library : FilterLibrary} {Pgm_library : PgmLibrary} committing key a cs next txn_id begin_ts commit_ts txn_id' begin_ts' commit_ts' visible_ts rows :
  (∀ ts, committing 0 ts = true) → index_inv key a (mkSegmentIndexEntry cs next None) → h_pending a = false → 1 < zlen cs → h_rows a ≤ 2 ^ 30 →
  rows = map (fun r => (key r, r)) (seqZ 0 (h_rows a)) →
  h_last a < commit_ts → commit_ts < commit_ts' → commit_ts' ≤ visible_ts → visible_ts < UNCOMMIT_TS →
  ∃ this1 this2 datas data,
    optimize committing txn_id begin_ts commit_ts (mkSegmentIndexEntry cs next None) = Ok this1 ∧
    optimize committing txn_id' begin_ts' commit_ts' this1 = Ok this2 ∧
    (∀ txn begin, GetSecondaryIndexSnapshot committing txn begin this1 = mkSegmentIndex (map (fun d => OutputAndBuild (zlen d) d) datas) None) ∧
    (∀ txn begin, GetSecondaryIndexSnapshot committing txn begin (PickCleanup this2 visible_ts) = mkSegmentIndex [OutputAndBuild (zlen data) data] None) ∧
    concat datas ≡ₚ rows ++ rows ∧ data ≡ₚ rows ++ rows.
Proof.
  intros Hcommitting Hinv Hpend Hlen Hn Hrows H1 H2 H3 H4. pose proof Hinv as [Hk Hi Hl _ (datas & Hc & Hp)].
  pose proof (data_rows _ _ _ _ _ _ Hinv Hc Hp) as Hcount. cbn [chunk_entries_ next_chunk_id_ memory_index_ default] in *. rewrite app_nil_r, <- Hrows in Hp.
  pose proof (live_committed a _ Hl Hpend) as Hts. change (2 ^ 30) with 1073741824 in Hn.
  destruct (rebuild_ok committing Hcommitting cs next None datas txn_id begin_ts Hk Hc Hlen) as (data & Hs & Hperm & Hre); [lia|].
  set (merged := mkChunkIndexEntry next 0 commit_ts UNCOMMIT_TS (OutputAndBuild (zlen data) data)).
  set (cs1 := map (set_deprecate_ts commit_ts) cs ++ [merged]).
  assert (Hk1 : Forall (chunk_known (next + 1)) cs1) by (by apply known_snoc; [apply deprecated_known|..]).
  assert (Hdl : zlen data = zlen (concat datas)) by (unfold zlen; by rewrite Hperm).
  assert (Hc1 : Forall2 chunk_of cs1 (datas ++ [data])).
  { apply Forall2_app; [by apply deprecated_chunks|]. constructor; [|constructor]. split; [done|]. split; [done|]. rewrite Hdl.
    destruct Hc as [|c d cs datas (_ & _ & Hd) _]; [done|]. cbn [concat]. rewrite zlen_app. unfold zlen in *. lia. }
  assert (Hi1 : NoDup (map chunk_id_ cs1)) by (apply (ids_snoc _ next); [by apply deprecated_known|by rewrite map_map|done]).
  destruct (rebuild_ok committing Hcommitting cs1 (next + 1) None (datas ++ [data]) txn_id' begin_ts' Hk1 Hc1) as (data2 & Hs2 & Hperm2 & Hre2).
  { unfold cs1. rewrite zlen_app. unfold zlen in *. rewrite length_map. cbn. lia. }
  { rewrite concat_app, zlen_app. cbn [concat]. rewrite app_nil_r. lia. }
  assert (Hts1 : Forall (fun c => chunk_commit_ts_ c < commit_ts') cs1).
  { apply Forall_app. split; [|by repeat constructor]. apply Forall_fmap. eapply Forall_impl; [exact Hts|]. unfold compose. cbn. lia. }
  assert (Hboth : concat (datas ++ [data]) ≡ₚ rows ++ rows) by (rewrite concat_app; cbn [concat]; by rewrite app_nil_r, Hperm, Hp).
  eexists _, _, (datas ++ [data]), data2. unfold optimize. rewrite Hre. cbn [res_bind]. rewrite commit_optimize_ok; [|done|done|eapply Forall_impl; [exact Hts|]; cbn; lia|lia].
  fold merged. fold cs1. split; [reflexivity|]. rewrite Hre2. cbn [res_bind]. rewrite commit_optimize_ok by (try done; lia). split; [reflexivity|]. split; [|split].
  - intros txn begin. by apply (snapshot_data committing Hcommitting).
  - intros txn begin. rewrite cleanup_ok; [|by apply Forall_fmap, Forall_forall|done|done]. apply (snapshot_data committing Hcommitting _ _ _ [data2]).
    + by repeat constructor; cbn; lia.
    + constructor; [|constructor]. split; [done|]. split; [done|]. unfold zlen. rewrite Hperm2, concat_app, length_app. cbn [concat]. rewrite app_nil_r.
      destruct Hc as [|c d cs datas (_ & _ & Hd) _]; [done|]. unfold zlen in *. cbn [concat] in *. rewrite length_app. lia.
  - split; [done|]. by rewrite Hperm2.
Qed.
Section Optimized.
Context {Library : FilterLibrary} {Pgm_library : PgmLibrary} (committing : Z → Z → bool) (value : Z → Value) (key : Z → Z).

(** C30. Queries read deprecated chunks beside the merged one, since [CheckVisible] does not look at
    [deprecate_ts_].  Take any index that operations have built, with two chunks or more, all
    committed, and no memory index.  After an optimization that has committed, every snapshot has each
    row of the segment twice.  A second optimization before the cleanup merges the deprecated chunks
    again, and then the cleanup leaves one chunk in which each row is there twice. *)
Theorem optimized_index_repeats ops a this txn_id begin_ts commit_ts txn_id' begin_ts' commit_ts' visible_ts :
  (∀ ts, committing 0 ts = true) → ops_after new_index ops = Some a → h_rows a ≤ 2 ^ 30 → h_memory a = false → h_pending a = false →
  (∀ r, 0 ≤ r < h_rows a → ConvertToOrderedKeyValue (value r) = Ok (Some (key r))) →
  res_fold (run_op committing value) SegmentIndexEntry_new ops = Ok this → 1 < zlen (chunk_entries_ this) →
  h_last a < commit_ts → commit_ts < commit_ts' → commit_ts' ≤ visible_ts → visible_ts < UNCOMMIT_TS →
  let rows := map (fun r => (key r, r)) (seqZ 0 (h_rows a)) in
  ∃ this1 this2 datas data,
    optimize committing txn_id begin_ts commit_ts this = Ok this1 ∧ optimize committing txn_id' begin_ts' commit_ts' this1 = Ok this2 ∧
    (∀ txn begin, GetSecondaryIndexSnapshot committing txn begin this1 = mkSegmentIndex (map (fun d => OutputAndBuild (zlen d) d) datas) None) ∧
    (∀ txn begin, GetSecondaryIndexSnapshot committing txn begin (PickCleanup this2 visible_ts) = mkSegmentIndex [OutputAndBuild (zlen data) data] None) ∧
    concat datas ≡ₚ rows ++ rows ∧ data ≡ₚ rows ++ rows.
Proof.
  intros Hcommitting Hops Hn Hmem Hpend Hkeys Hrun Hlen H1 H2 H3 H4 rows.
  destruct (run_ops_inv committing value Hcommitting key ops new_index a SegmentIndexEntry_new (index_inv_new key) ltac:(done) Hops Hn Hkeys) as (this' & Hrun' & Hinv).
  rewrite Hrun in Hrun'. injection Hrun' as <-. pose proof (inv_memory _ _ _ Hinv) as Hm. destruct this as [cs next [m|]]; cbn in Hm; [destruct Hm; congruence|].
  by apply (optimized_twice committing key a).
Qed.

(** An optimization that merges a chunk without a commit fails the assertion of [DeprecateChunk]: such
    a chunk is visible, for the transaction 0 it has is not running. *)
Theorem uncommitted_chunk_asserts ops a this txn_id begin_ts commit_ts visible_ts :
  (∀ ts, committing 0 ts = true) → ops_after new_index ops = Some a → h_rows a ≤ 2 ^ 30 →
  (∀ r, 0 ≤ r < h_rows a → ConvertToOrderedKeyValue (value r) = Ok (Some (key r))) →
  res_fold (run_op committing value) SegmentIndexEntry_new ops = Ok this → 1 < zlen (chunk_entries_ this) →
  Exists (fun c => Chunk_Committed c = false) (chunk_entries_ this) → commit_ts < UNCOMMIT_TS →
  run_op committing value this (IndexOptimize txn_id begin_ts commit_ts visible_ts) = Err UnrecoverableError.
Proof.
  intros Hcommitting Hops Hn Hkeys Hrun Hlen Hx Hlt.
  destruct (run_ops_inv committing value Hcommitting key ops new_index a SegmentIndexEntry_new (index_inv_new key) ltac:(done) Hops Hn Hkeys) as (this' & Hrun' & Hinv).
  rewrite Hrun in Hrun'. injection Hrun' as <-. pose proof Hinv as [Hk Hi _ _ (datas & Hc & Hp)]. destruct this as [cs next m].
  pose proof (data_rows _ _ _ _ _ _ Hinv Hc Hp) as Hcount. cbn [chunk_entries_ next_chunk_id_ memory_index_] in *. change (2 ^ 30) with 1073741824 in Hn.
  destruct (rebuild_ok committing Hcommitting cs next m datas txn_id begin_ts Hk Hc Hlen) as (data & _ & _ & Hre); [lia|].
  cbn [run_op]. rewrite Hre. cbn [res_bind]. rewrite commit_optimize_fail; done.
Qed.
End Optimized.

Section OptimizedExample.
#[local] Existing Instance exact_filters.
#[local] Existing Instance exact_pgm.

(** Two rows, each in a chunk of its own, committed at 5. *)
Definition two_chunks_ops : list IndexOp := [IndexInsert 0 0 1; IndexDump; IndexInsert 0 1 1; IndexDump; IndexCommit 5].
Definition two_chunks : result SegmentIndexEntry :=
  res_fold (run_op (fun _ _ => true) (fun r => VInt IntegerT (scan_value r))) SegmentIndexEntry_new two_chunks_ops.

Lemma optimized_index_repeats_witness :
  ∃ this this1 this2 datas data, two_chunks = Ok this ∧ optimize (fun _ _ => true) 7 6 8 this = Ok this1 ∧ optimize (fun _ _ => true) 10 9 11 this1 = Ok this2 ∧
    (∀ txn begin, GetSecondaryIndexSnapshot (fun _ _ => true) txn begin this1 = mkSegmentIndex (map (fun d => OutputAndBuild (zlen d) d) datas) None) ∧
    (∀ txn begin, GetSecondaryIndexSnapshot (fun _ _ => true) txn begin (PickCleanup this2 12) = mkSegmentIndex [OutputAndBuild (zlen data) data] None) ∧
    concat datas ≡ₚ [(5, 0); (9, 1); (5, 0); (9, 1)] ∧ data ≡ₚ [(5, 0); (9, 1); (5, 0); (9, 1)].
Proof.
  assert (Hlen : match two_chunks with Ok this => zlen (chunk_entries_ this) =? 2 | Err _ => false end = true) by (vm_compute; reflexivity).
  destruct two_chunks as [this|] eqn:Hrun; [|discriminate Hlen]. apply Z.eqb_eq in Hlen. exists this.
  destruct (optimized_index_repeats (fun _ _ => true) (fun r => VInt IntegerT (scan_value r)) scan_value two_chunks_ops (mkHistory 2 false false 5) this 7 6 8 10 9 11 12)
    as (this1 & this2 & datas & data & Hw); try done; [by rewrite Hlen|]. exists this1, this2, datas, data. split; [done|exact Hw].
Defined.

(** The rows that a query at [begin_ts] finds for the range of all keys. *)
Definition query_all (begin_ts : Z) (this : SegmentIndexEntry) : result SelectedRows :=
  let? '(s, _) := ExecuteSingleRangeT [] 2 (mkInterval kInteger (lowest i32) (int_max IntegerT)) (GetSecondaryIndexSnapshot (fun _ _ => true) 20 begin_ts this) in
  Ok s.

(** What an index scan of the example finds before and after the optimization. *)
Example repeated_rows_found :
  (let? this := two_chunks in query_all 6 this) = Ok (SelectedVector [0; 1]) ∧
  (let? this := two_chunks in let? this := optimize (fun _ _ => true) 7 6 8 this in query_all 9 this) = Ok (SelectedVector [0; 0; 1; 1]).
Proof. split; vm_compute; reflexivity. Qed.

(** [CheckVisibleByTS] tells the deprecated chunks from the merged one. *)
Example visible_by_ts_once :
  (let? this := two_chunks in let? this := optimize (fun _ _ => true) 7 6 8 this in
   Ok (map (CheckVisibleByTS 7) (chunk_entries_ this), map (CheckVisibleByTS 9) (chunk_entries_ this))) =
  Ok ([Ok true; Ok true; Ok false], [Ok false; Ok false; Ok true]).
Proof. vm_compute. reflexivity. Qed.
End OptimizedExample.
